(* ===== verification/_CoqProject ===== *)
-Q . S2P
Prelude.v
Crc.v
Text.v
ModemIo.v
Xymodem.v
Zmodem.v
XymodemTransfer.v
ZmodemTransfer.v
ModemStream.v
Detector.v
Consumer.v
PieceTable.v
LineIndex.v
TextBuffer.v
Cursor.v
Search.v
Reconnect.v
Telnet.v
SftpManager.v
NodeEvents.v
ConnRegistry.v
SftpSlot.v
Utf16.v
TrzszBuffer.v
TrzszTransfer.v
TrzszFilter.v
FileSystem.v
TrzszState.v
TrzszConfine.v
TrzszSave.v
TrzszLimit.v
Backpressure.v
AtomicFile.v
TextOps.v
IpAddr.v
HostKey.v
X11.v
X11Bridge.v
X11Authority.v
SshConfigs.v
NodeTree.v
NodeForest.v
NodeSnapshot.v
NodeHistory.v
NodeRouting.v
NetProgram.v
Proxy.v
ProxyFacts.v
SocksServer.v
ForwardModel.v
SavedForwards.v
SavedFacts.v
SavedStore.v
ForwardManager.v
ForwardRoutes.v
ForwardReconnect.v
ConnTypes.v
ConnStore.v
ConnSync.v
ConnFacts.v
ConnInvariant.v
ConnUndo.v
ConnImport.v
ConnSecrets.v
