(* ===== verification/Prelude.v ===== *)
(** * hapcli: a verification development

    hapcli is a terminal client: a terminal core with SSH, Telnet and serial
    sessions, file transfers over the session, an editor and IDE views, and
    around them settings, plugins, remote desktops and the user interface.  This
    library models the parts that carry its own algorithms and state, as
    executable Rocq definitions that follow the source function by function,
    and proves what makes them correct.

    ** The modelled program

    - The modem transfer crate ([crates/hapcli-modem-transfer/src]).  The
      session's output passes through a consumer, which watches for the start
      of an X/Y/ZMODEM transfer and, once one starts, feeds a stream object that
      a transfer thread reads and writes as a byte line; the senders and
      receivers run on that line against local files.
    - The editor core ([crates/hapcli-editor-core/src]).  A text buffer keeps
      its text in a piece table and an index of line starts, applies
      transactions of edits, undoes and redoes them and tracks whether it is
      saved; cursors move over it by grapheme and a search works on its text;
      input fields use the UTF-16 offsets of the platform.
    - The trzsz crate ([crates/hapcli-trzsz/src]).  A filter watches the
      session's output for a trzsz handshake; once one is taken, the consumer
      hands the output to a transfer object, which a worker thread drives
      through the protocol's messages, sending or saving files.  The files are
      reached through owner-scoped handles and path guards; the worker and its
      writers are in [crates/hapcli-egui-app/src/trzsz.rs].
    - The SSH side ([crates/hapcli-ssh/src]).  The connection registry pools
      connections between consumers, times out idle ones, follows parent links
      when a link is lost and shares one SFTP session per connection; it tells
      the node event emitter, which delivers events to subscribers; the
      reconnect orchestrator's store keeps the jobs that bring lost nodes back.
      The node router ([router.rs], [router/]) keeps the tree of hosts that are
      reached through each other, binds its nodes to pooled connections, and
      hands these out; the tree is exported, saved and imported.
      Host keys ([host_key.rs], and the handler's decision in
      [transport/handler.rs]) say whether a server is the one it was.  The first
      connection may go through a SOCKS5 or HTTP proxy ([upstream_proxy.rs]).
    - Port forwards ([crates/hapcli-forwarding/src]).  A manager per session
      starts, stops, suspends and restores local, remote and dynamic forwards
      and routes the channels of remote ones; the rules are saved in a store
      that exchanges them with other devices; a dynamic forward is a SOCKS5
      server that opens a channel of the SSH connection for each client.
    - Saved connections ([crates/hapcli-connections/src/store] and [keychain.rs]).
      A store keeps connections, groups and the profiles of serial, Telnet and
      remote desktop sessions in memory and in a file; passwords, passphrases
      and the secrets of privilege helpers are in keychains.  Connections are
      imported in one transaction and exchanged with other devices.
    - X11 forwarding ([crates/hapcli-x11-forwarding/src], and the dispatcher in
      [crates/hapcli-ssh/src/transport/x11.rs]).  A session asks the server to
      forward X11 under a fake cookie; a channel that the server opens is
      matched to a route by the cookie of its setup packet, the real cookie is
      put in its place, and the bytes are bridged to the local display.
    - The SFTP transfer manager ([crates/hapcli-sftp/src/transfer_manager.rs]):
      control, limits, background records and shutdown of transfers.
    - The Telnet codec and worker
      ([crates/hapcli-terminal/src/session/telnet.rs]), and the terminal's
      back-pressure ([crates/hapcli-terminal/src/backpressure.rs]): the
      byte-bounded channel from a session to the screen and what is done to the
      bytes on the way.
    - Atomic file replacement ([crates/hapcli-atomic-file/src]), by which the
      stores are saved.

    ** Files

    - [Prelude] (this file): results, the state-and-error monad [M] with loops
      on fuel, its program logic ([wp], with the loop rule by invariant and
      rank), the [tame]/[eats] predicates (termination on finite input),
      machine integers, byte lists and endian conversions, hint databases.
    - [Crc]: [crc.rs].  The CRC-16 loop is polynomial long division.
    - [Text]: the parts of [str], [String], [Path] and number formatting that
      the sources use, over scalar values and UTF-8 bytes.
    - [ModemIo]: [error.rs] and [io.rs]; the traits [ModemIo], [Read], [Seek],
      [Write] as classes, with the laws [LawfulReader] and [LawfulFile] that the
      transfers' theorems assume and the in-memory line, slices and cursors
      satisfy.
    - [Xymodem], [Zmodem]: [xymodem.rs] and [zmodem.rs].  Parsers accept exactly
      what encoders write, headers survive the wire, one damaged byte of a CRC
      block is always noticed.
    - [XymodemTransfer], [ZmodemTransfer]: the transfer functions as
      computations over the line and the file.  Sender and receiver are run
      against each other's bytes: what is sent arrives, byte for byte and file
      by file.  On arbitrary input the receivers end, write only checked data,
      never more than was announced, and only under safe names.
    - [ModemStream]: [stream.rs] as a step relation between the transfer thread
      and the transport, with its invariants by induction over reachable states:
      both directions are lossless ordered channels, buffers are bounded,
      cancellation is final, a waiting writer can always be released.
    - [Detector], [Consumer]: [detector.rs] and [consumer.rs].  Detection does
      not depend on how the output is cut into chunks; over a sequence of
      chunks the consumer neither loses nor reorders a byte, what is held back
      when a transfer begins apart (see the findings); terminal control strings start no transfer.
    - [PieceTable]: the editor's types and [piece_table.rs]; the table refines a
      plain string.
    - [LineIndex]: [line_index.rs]; the incremental update equals the
      recomputation.
    - [TextBuffer]: [buffer.rs] as a state machine over transactions, undo, redo,
      save and read, with the history's invariant; round trips of undo and redo,
      of offsets and line positions, atomic transactions, the dirty flag.
    - [Cursor]: the grapheme steps, [cursor.rs] and [multicursor.rs].
    - [Search]: [search.rs]; the search is exact.
    - [Utf16]: [utf16.rs] and [word.rs]; offsets in UTF-16 units, characters and
      bytes agree on character boundaries, replacements are exact, words and
      lines are the maximal runs.
    - [TrzszBuffer]: the receive buffer, its line and block readers, escaping
      and errors; reads do not depend on the chunks, escaping is invertible.
    - [TrzszTransfer]: [transfer.rs]; the messages and both directions of a
      transfer as computations over the buffer, the written bytes and the
      files.  Sender and receiver are run against each other: every file
      arrives as it was.  On any input the receiver ends, and only commits data
      whose digest was confirmed; the writer it drives, [Disk], may fail at any
      call, and what was committed before stays.
    - [TrzszFilter]: [types.rs], [filter.rs], [consumer.rs] and
      [controller.rs]; handshakes are found across chunks, replays refused, one
      transfer runs at a time and gets the whole stream.
    - [FileSystem]: what the sources use of [std::path] and [std::fs], on a
      POSIX system: path components, resolution through symbolic links, inodes,
      open files, failing writes, and the log of what was synced.
    - [TrzszState]: [lib.rs], [path_guard.rs], [download.rs] and [upload.rs] of
      the trzsz crate, as computations over the file system and the state of
      the handles.
    - [TrzszSave]: the download half of the worker in [egui-app/src/trzsz.rs]:
      it is the writer that [TrzszTransfer]'s receiver drives.
    - [TrzszConfine], [TrzszLimit]: two invariants carried through every
      operation of [TrzszState] and [TrzszSave] and through the protocol:
      whatever a server sends, a download comes to a stop (it returns, waits for
      input or panics), only adds entries below the
      chosen folder, changes nothing that existed, and adds no more bytes than
      the policy allows.  They are stated for a state with no other download
      that this one's clean-up could expire ([idle]).
    - [Reconnect]: [reconnect.rs] as a state machine over a finite map of jobs.
    - [Telnet]: the codec of [telnet.rs] against the protocol written as a
      byte-by-byte receiver, and the worker's loop over arbitrary behaviour of
      socket and session: what the user types arrives, answers are well formed,
      the server's text is delivered, one closing event ends it.
    - [SftpManager]: the critical sections of [transfer_manager.rs] and a step
      function that interleaves the sections of several threads; permits are
      counted and bounded, owners are counted, stop requests are not lost,
      shutdown is final.
    - [NodeEvents]: [router/events.rs]; reliable events are never lost, order
      and per-node generations are kept, mailboxes are bounded.
    - [ConnRegistry]: [connection_registry.rs] over a store of entries; the
      pool's invariant over all histories, termination of releases, stale
      timers, exact descendants and cascades.  It calls [NodeEvents].
    - [SshConfigs]: [config.rs] and [agent_endpoint.rs]; configurations, their
      secrets, and the key under which the registry pools a connection.
    - [NodeTree]: the types of [router.rs] and the tree operations of
      [router/runtime_store.rs], with the invariant (a forest of depth at most
      ten whose parents, children, depths and roots agree).  [NodeForest]: the
      walks over such a forest, and what adding and removing does to it.
    - [NodeSnapshot]: export, import, persistence and reconciliation of the
      tree.  [NodeHistory]: the invariant over all histories; imports are
      checked exactly, exports come back as they were, what is saved holds no
      secret, removals and expansions do exactly what they say.
    - [NodeRouting]: [router/node_router.rs] and [router/helpers.rs], over
      [ConnRegistry], [NodeTree] and [NodeEvents]; only usable connections are
      handed out, and a node is reported as ready exactly if it has one.
    - [HostKey]: [host_key.rs] and [check_server_key]; what a known_hosts file
      says is what its lines say, a learned key is verified by later sessions, a
      removal takes exactly the named key, a changed key is refused (except
      while the host is cached, see the findings), the cache is bounded.
    - [TextOps]: trimming, splitting and number parsing on strings, with the
      lemmas that [HostKey] and the X11 files share.
    - [IpAddr]: parsing and printing of addresses as in [std::net]; printing
      and parsing are inverse.
    - [X11]: the cookies, endpoints, setup packets, setup buffer and route
      registry.
    - [X11Bridge]: [runtime.rs] and the SSH transport's dispatcher, as sections
      over the shared registry; only channels that show the cookie of a live
      route reach the display, a revoked route is refused, and what the display
      gets is the setup with the real cookie followed by the client's bytes,
      however they were cut into chunks.  The field [registered] of its state is a
      log of the routes that were ever registered.
    - [X11Authority]: display names, the output of xauth, the Xauthority file,
      the plan of a forwarding request and its policy; the parser reads exactly
      the files of the format, and an argument quoted for the remote shell is
      one word there.
    - [Backpressure]: [backpressure.rs]; the channel is ordered, never holds more
      than its limit and one chunk, and never leaves a sender asleep for good;
      the UTF-8 guard hands on whole characters; the magic scan is exact across
      chunks.
    - [AtomicFile]: the atomic-file crate over [FileSystem]; whichever call
      fails, the destination holds the old or the new contents, missing parents
      included; what is left behind and what was synced is stated too.
    - [NetProgram]: programs over the operations of a network (look up, connect,
      read, write, open a channel), what they did as a list of events, and two
      programs connected to each other.  [Proxy]: [upstream_proxy.rs] as such
      programs.  [ProxyFacts]: whom a dial contacts, what its handshakes send
      and read, that it ends, and which hosts bypass the proxy.
      [SocksServer]: the server of [dynamic.rs], run against the client of
      [Proxy].
    - [ForwardModel]: [model.rs] of the forwarding crate.  [SavedForwards]:
      [saved.rs], its updates as functions on the data and its store over
      [AtomicFile].  [SavedFacts]: the data as a map from ids to the latest
      thing known of each, with the laws of the codecs.  [SavedStore]: a commit
      is all or nothing, on the disk too; ids stay unique; an exchange keeps the
      latest change of each forward, and two devices that exchange agree.
    - [ForwardManager]: [manager.rs] and [remote.rs], with the starting and
      stopping of the listeners of [local.rs] and [dynamic.rs]; methods are
      tasks that await, and the sections between interleave.  [ForwardRoutes]:
      a logic of ownership for such tasks, by which no route outlives its
      forward under any interleaving.  [ForwardReconnect]: a logic for a task
      that is not disturbed, by which suspending all forwards and restoring them
      on a new connection loses none.
    - [ConnTypes], [ConnStore], [ConnSync]: [types.rs] and [helpers.rs],
      [connection_store.rs], [sync.rs] of the connections crate, over a world of
      data, file and keychains in which every call may fail.  [ConnFacts] and
      [ConnInvariant]: the invariant of the data, and that every operation keeps
      it on success and on failure, and that a secret in memory was there at
      the start or was brought in by a call that keeps it (class [Allowed]).  [ConnUndo]: a snapshot that was prepared
      can be undone.  [ConnImport]: an import that fails leaves nothing behind.
      [ConnSecrets]: a saved password is read back, renaming a group moves
      exactly the paths inside it (as lists of segments) and is reversible, and runs that show the findings.
    - [SftpSlot]: the shared SFTP session of a registry entry, as sections that
      tasks interleave.

    ** Conventions

    Bytes, offsets and counters are [Z]s; where a width matters the wrap-around,
    saturation or check of the source is written out.  A [String] is its UTF-8
    bytes (or, in [Text], its scalar values).  A mutable object is passed
    through explicitly.  Clock readings, fresh UUIDs, iteration orders of hash
    maps and the chunks a [Read] returns are arguments, so theorems hold for all
    of them.  Shared objects behind an [Arc] live in a store and are passed by
    reference; code that several threads run is cut into its critical sections,
    which a step function interleaves.  Panics are not modelled as results: where indexing or slicing
    could panic, the invariants show that the offsets are in range and on
    character boundaries; [Utf16] and the trzsz files, where a panic can be
    reached, give it as a value.

    ** Fuel

    Rust's unbounded loops take fuel and give [None] when it runs out, which no
    theorem counts as success.  The loopback theorems give the result for every
    fuel above an explicit bound; the safety theorems show that fuel linear in
    the input suffices on every input ([wp_loop] and [eats_loop] rank each turn
    by the input it consumes).  The search of [Search] has one turn per byte of
    the text, the rounds of [Reconnect] one per attempt; both are proved exact.
    The filter of [Telnet] has one turn per byte ([filter_loop_fuel]), a release
    in [ConnRegistry] one per registered connection ([release_ok]), the search
    for descendants one per connection of a forest ([descendants_loop_ends]); on
    a cycle of parents it has no end, which is a theorem too.  The trzsz readers
    take at most one turn per byte of unread input, after which they wait for
    more; waiting is a result of its own.  The walks of [NodeTree] need one level
    more than the depth limit of ten, an import two turns more than it has nodes.
    The header of a proxy's answer is read with one turn per byte of its limit of
    16 KiB, and a dial has no execution that runs out of them ([proxy_dial_ends]).

    ** Not modelled

    Within the modelled crates: the progress bar of trzsz and the readers of its
    uploads, the floating-point delay of a retry, [Debug] formatting, wake-up
    callbacks and the timing of timeouts (a timeout is a possible result of a read on an empty
    line), the session object around the Telnet worker, the detection of a
    remote host's environment (its result is an argument) and the monitor and
    topology views of the registry.  Code outside [src] enters as parameters with
    stated hypotheses: the grapheme segmentation of the [unicode-segmentation]
    crate, the time stamps of [chrono], the JSON of [serde_json] and the digests of
    [sha2] for saved forwards (classes [SavedCodec], [SavedCodecLaws]) and
    for saved connections (classes [Outside], [Digests], where also the keychains
    of the platform and the failures of calls are arguments), the
    Unicode tables of [char::is_alphanumeric] and of [regex]'s digit
    class, zlib, base64, JSON and MD5 (class [Codec]), Unicode normalisation, the
    directory walker, the SSH library's keys (classes [KeyLib], [KeyLaws]),
    [str::to_lowercase] beyond ASCII, the [Debug] of a string, the
    iteration order of hash maps, and the SHA-256 of the [sha2] crate.  The
    output of the xauth processes is an
    argument.  Of the forwarding crate, the accept loops, the byte bridges and
    their counters are left out: they move bytes between sockets.  Of the
    connections crate, managed SSH keys, the encrypted form of the store's file,
    the import formats of other programs and the SSH configuration files are left
    out.  The
    Windows half of the atomic-file crate is not modelled.  The other crates are
    listed with their reasons in the manifest. *)
From stdpp Require Import prelude list numbers sorting.
From Stdlib Require Import ZArith Lia.
Open Scope Z_scope.

(** ** Results and the effect monad *)

(** Rust's [Result<A, E>]. *)
Inductive result (E A : Type) : Type :=
| Ok (a : A)
| Err (e : E).
Arguments Ok {E A} _.
Arguments Err {E A} _.

(** A computation over a mutable state [S] that may fail with an [E] and that
    may exhaust its fuel.  [None] is not a behaviour of the program: it only
    says that the fuel of a loop was too small. *)
Definition M (E S A : Type) : Type := S -> option (result E A * S).

Section Monad.
Context {E S : Type}.

Definition ret {A} (a : A) : M E S A := fun s => Some (Ok a, s).
Definition throw {A} (e : E) : M E S A := fun s => Some (Err e, s).
Definition bind {A B} (m : M E S A) (f : A -> M E S B) : M E S B :=
  fun s => match m s with
           | Some (Ok a, s') => f a s'
           | Some (Err e, s') => Some (Err e, s')
           | None => None
           end.

(** [match m { Ok(..) => .., Err(..) => .. }]: the error becomes a value. *)
Definition attempt {A} (m : M E S A) : M E S (result E A) :=
  fun s => match m s with
           | Some (r, s') => Some (Ok r, s')
           | None => None
           end.

(** Rust's [loop]: [inl] continues with new values of the loop's variables,
    [inr] breaks with the loop's value. *)
Fixpoint loop {A B} (fuel : nat) (body : A -> M E S (A + B)) (a : A) : M E S B :=
  match fuel with
  | O => fun _ => None
  | Datatypes.S n => bind (body a) (fun r => match r with
                                  | inl a' => loop n body a'
                                  | inr b => ret b
                                  end)
  end.

(** [for _ in 0..n { body }; tail]: [Some b] in the body is an early
    return. *)
Fixpoint for_return {B} (n : nat) (body : M E S (option B)) (tail : M E S B) : M E S B :=
  match n with
  | O => tail
  | Datatypes.S k => bind body (fun r => match r with
                               | Some b => ret b
                               | None => for_return k body tail
                               end)
  end.

(** [for _ in 0..n { v.push(m()?) }]. *)
Fixpoint replicateM {A} (n : nat) (m : M E S A) : M E S (list A) :=
  match n with
  | O => ret []
  | Datatypes.S k => bind m (fun a => bind (replicateM k m) (fun l => ret (a :: l)))
  end.
End Monad.

Declare Scope rust_scope.
Delimit Scope rust_scope with rust.
Notation "'let*' x := m 'in' k" := (bind m (fun x => k))
  (at level 10, x name, m at level 100, k at level 200) : rust_scope.
Notation "'do*' m 'in' k" := (bind m (fun _ => k))
  (at level 10, m at level 100, k at level 200) : rust_scope.
Open Scope rust_scope.

Definition result_bind {E A B} (r : result E A) (f : A -> result E B) : result E B :=
  match r with Ok a => f a | Err e => Err e end.
Notation "'let?' x := m 'in' k" := (result_bind m (fun x => k))
  (at level 10, x name, m at level 100, k at level 200) : rust_scope.

(** [Option::ok_or]. *)
Definition ok_or {E A} (o : option A) (e : E) : result E A :=
  match o with Some a => Ok a | None => Err e end.

(** [Result::map_err], and the [From] conversion that [?] inserts. *)
Definition map_err {E E' A} (f : E -> E') (r : result E A) : result E' A :=
  match r with Ok a => Ok a | Err e => Err (f e) end.

(** A pure [Result] used in an effectful function. *)
Definition lift {E S A} (r : result E A) : M E S A := fun s => Some (r, s).

(** Two disjoint mutable borrows: a computation over either one of them. *)
Definition on_fst {E S T A} (m : M E S A) : M E (S * T) A :=
  fun '(s, t) => match m s with
                 | Some (r, s') => Some (r, (s', t))
                 | None => None
                 end.
Definition on_snd {E S T A} (m : M E T A) : M E (S * T) A :=
  fun '(s, t) => match m t with
                 | Some (r, t') => Some (r, (s, t'))
                 | None => None
                 end.

Create HintDb run.

Section MonadLaws.
Context {E S : Type}.

Lemma bind_ret {A B} (a : A) (f : A -> M E S B) s : bind (ret a) f s = f a s.
Proof. reflexivity. Qed.

Lemma bind_throw {A B} (e : E) (f : A -> M E S B) s : bind (throw e) f s = Some (Err e, s).
Proof. reflexivity. Qed.

Lemma bind_ok {A B} (m : M E S A) (f : A -> M E S B) s a s' :
  m s = Some (Ok a, s') -> bind m f s = f a s'.
Proof. intros H. unfold bind. by rewrite H. Qed.

Lemma bind_err {A B} (m : M E S A) (f : A -> M E S B) s e s' :
  m s = Some (Err e, s') -> bind m f s = Some (Err e, s').
Proof. intros H. unfold bind. by rewrite H. Qed.

Lemma bind_assoc {A B C} (m : M E S A) (f : A -> M E S B) (g : B -> M E S C) s :
  bind (bind m f) g s = bind m (fun a => bind (f a) g) s.
Proof. unfold bind. destruct (m s) as [[[a|e] s']|]; reflexivity. Qed.

Lemma attempt_run {A} (m : M E S A) s r s' :
  m s = Some (r, s') -> attempt m s = Some (Ok r, s').
Proof. intros H. unfold attempt. by rewrite H. Qed.

Lemma loop_S {A B} n (body : A -> M E S (A + B)) a s :
  loop (Datatypes.S n) body a s
  = bind (body a) (fun r => match r with inl a' => loop n body a' | inr b => ret b end) s.
Proof. reflexivity. Qed.

Lemma loop_break {A B} n (body : A -> M E S (A + B)) a b s s' :
  (0 < n)%nat -> body a s = Some (Ok (inr b), s') -> loop n body a s = Some (Ok b, s').
Proof. intros Hn H. destruct n; [lia|]. rewrite loop_S. by rewrite (bind_ok _ _ _ _ _ H). Qed.

Lemma loop_continue {A B} n (body : A -> M E S (A + B)) a a' s s' :
  body a s = Some (Ok (inl a'), s') ->
  loop (Datatypes.S n) body a s = loop n body a' s'.
Proof. intros H. rewrite loop_S. by rewrite (bind_ok _ _ _ _ _ H). Qed.

Lemma loop_err {A B} n (body : A -> M E S (A + B)) a e s s' :
  (0 < n)%nat -> body a s = Some (Err e, s') -> loop n body a s = Some (Err e, s').
Proof. intros Hn H. destruct n; [lia|]. rewrite loop_S. by rewrite (bind_err _ _ _ _ _ H). Qed.

(** More fuel never changes an answer. *)
Lemma loop_mono {A B} n n' (body : A -> M E S (A + B)) a s o :
  (n <= n')%nat -> loop n body a s = Some o -> loop n' body a s = Some o.
Proof.
  revert n' a s. induction n as [|n IH]; intros n' a s Hle H; [discriminate|].
  destruct n' as [|n']; [lia|]. rewrite loop_S in H |- *. unfold bind in *.
  destruct (body a s) as [[[[a'|b]|e] s']|]; try done.
  apply IH; [lia|done].
Qed.

Lemma on_fst_run {T A} (m : M E S A) s (t : T) r s' :
  m s = Some (r, s') -> on_fst m (s, t) = Some (r, (s', t)).
Proof. intros H. unfold on_fst. by rewrite H. Qed.

Lemma on_snd_run {T A} (m : M E T A) (s : S) t r t' :
  m t = Some (r, t') -> on_snd m (s, t) = Some (r, (s, t')).
Proof. intros H. unfold on_snd. by rewrite H. Qed.
End MonadLaws.

(** ** Total correctness *)

(** [wp m Q s]: from [s], [m] ends -- it does not run out of fuel -- with a
    result and a state that satisfy [Q].  Errors are results, so [Q] speaks
    about both outcomes. *)
Section Wp.
Context {E S : Type}.
Implicit Types (s : S).

Definition wp {A} (m : M E S A) (Q : result E A -> S -> Prop) (s : S) : Prop :=
  match m s with Some (r, s') => Q r s' | None => False end.

(** What follows a step: the rest of the code on success, the postcondition on
    an error. *)
Definition wp_then {A B} (f : A -> M E S B) (Q : result E B -> S -> Prop)
    (r : result E A) (s : S) : Prop :=
  match r with Ok a => wp (f a) Q s | Err e => Q (Err e) s end.

Lemma wp_run {A} (m : M E S A) Q s :
  wp m Q s <-> exists r s', m s = Some (r, s') /\ Q r s'.
Proof.
  unfold wp. destruct (m s) as [[r s']|]; split.
  - eauto.
  - intros (? & ? & [= <- <-] & ?). done.
  - done.
  - by intros (? & ? & ? & ?).
Qed.

Lemma wp_mono {A} (m : M E S A) (Q Q' : result E A -> S -> Prop) s :
  wp m Q s -> (forall r s', Q r s' -> Q' r s') -> wp m Q' s.
Proof. unfold wp. destruct (m s) as [[r s']|]; auto. Qed.

Lemma wp_ret {A} (a : A) (Q : result E A -> S -> Prop) s : Q (Ok a) s -> wp (ret a) Q s.
Proof. done. Qed.

Lemma wp_throw {A} (e : E) (Q : result E A -> S -> Prop) s : Q (Err e) s -> wp (throw e) Q s.
Proof. done. Qed.

Lemma wp_lift {A} (r : result E A) (Q : result E A -> S -> Prop) s : Q r s -> wp (lift r) Q s.
Proof. done. Qed.

Lemma wp_bind {A B} (m : M E S A) (f : A -> M E S B) Q s :
  wp m (wp_then f Q) s -> wp (bind m f) Q s.
Proof. unfold wp at 1 2, bind, wp_then. destruct (m s) as [[[a|e] s']|]; done. Qed.

Lemma wp_attempt {A} (m : M E S A) Q s :
  wp m (fun r s' => Q (Ok r) s') s -> wp (attempt m) Q s.
Proof. unfold wp, attempt. destruct (m s) as [[r s']|]; done. Qed.

Lemma wp_loop {A B} (I : A -> S -> Prop) (rank : A -> S -> nat) (body : A -> M E S (A + B)) Q fuel a s :
  (forall a s, I a s ->
     wp (body a) (fun r s' => match r with
                              | Ok (inl a') => I a' s' /\ (rank a' s' < rank a s)%nat
                              | Ok (inr b) => Q (Ok b) s'
                              | Err e => Q (Err e) s'
                              end) s) ->
  I a s -> (rank a s < fuel)%nat -> wp (loop fuel body a) Q s.
Proof.
  intros Hbody. revert a s. induction fuel as [|n IH]; intros a s Ha Hr; [lia|].
  apply wp_bind. eapply wp_mono; [by apply Hbody|]. intros [[a'|b]|e] s' H; simpl; try done.
  destruct H. apply IH; [done|lia].
Qed.

Lemma wp_for_return {B} (I : S -> Prop) n (body : M E S (option B)) tail Q s :
  (forall s, I s -> wp body (fun r s' => match r with
                                         | Ok (Some b) => Q (Ok b) s'
                                         | Ok None => I s'
                                         | Err e => Q (Err e) s'
                                         end) s) ->
  (forall s, I s -> wp tail Q s) -> I s -> wp (for_return n body tail) Q s.
Proof.
  intros Hb Ht. revert s. induction n as [|n IH]; intros s Hs; simpl; [auto|].
  apply wp_bind. eapply wp_mono; [by apply Hb|]. intros [[b|]|e] s' H; simpl; auto.
Qed.

Lemma wp_replicateM {A} (P : A -> Prop) (I : S -> Prop) n (m : M E S A) Q s :
  (forall s, I s -> wp m (fun r s' => I s' /\ match r with Ok a => P a | Err e => Q (Err e) s' end) s) ->
  (forall l s, length l = n -> Forall P l -> I s -> Q (Ok l) s) -> I s -> wp (replicateM n m) Q s.
Proof.
  intros Hm. revert s Q Hm. induction n as [|n IH]; intros s Q Hm HQ Hs; simpl; [by apply HQ|].
  apply wp_bind. eapply wp_mono; [by apply Hm|]. intros [a|e] s' [Hs' Ha]; simpl; [|done].
  apply wp_bind. apply IH; [|intros l s2 Hl HP Hs2; simpl; by apply HQ; [simpl; congruence|constructor|]|done].
  intros s2 Hs2. eapply wp_mono; [by apply Hm|]. intros [a2|e2] s3 [? ?]; simpl; auto.
Qed.
End Wp.

Lemma wp_on_fst {E S T A} (m : M E S A) (Q : result E A -> S * T -> Prop) s t :
  wp m (fun r s' => Q r (s', t)) s -> wp (on_fst m) Q (s, t).
Proof. unfold wp, on_fst. destruct (m s) as [[r s']|]; done. Qed.

Lemma wp_on_snd {E S T A} (m : M E T A) (Q : result E A -> S * T -> Prop) s t :
  wp m (fun r t' => Q r (s, t')) t -> wp (on_snd m) Q (s, t).
Proof. unfold wp, on_snd. destruct (m t) as [[r t']|]; done. Qed.

(** Code over a finite input: [rest] is what is left of it.  From an input of
    at most [N] bytes, [tame] code always ends and leaves a suffix of the
    input; [eats] code moreover consumes some when it succeeds. *)
Definition tame {E S A} (N : nat) (rest : S -> list Z) (m : M E S A) : Prop :=
  forall s, (length (rest s) <= N)%nat -> wp m (fun _ s' => rest s' `suffix_of` rest s) s.
Definition eats {E S A} (N : nat) (rest : S -> list Z) (m : M E S A) : Prop :=
  forall s, (length (rest s) <= N)%nat ->
  wp m (fun r s' => rest s' `suffix_of` rest s
     /\ match r with Ok _ => length (rest s') < length (rest s) | Err _ => True end)%nat s.

Create HintDb tame.

Section Tame.
Context {E S : Type} (N : nat) (rest : S -> list Z).

Lemma eats_tame {A} (m : M E S A) : eats N rest m -> tame N rest m.
Proof. intros H s Hs. eapply wp_mono; [by apply H|]. intros r s' [? _]. done. Qed.

Lemma tame_ret {A} (a : A) : tame (E := E) N rest (ret a).
Proof. intros s _. by apply wp_ret. Qed.

Lemma tame_throw {A} (e : E) : tame (A := A) N rest (throw e).
Proof. intros s _. by apply wp_throw. Qed.

Lemma eats_throw {A} (e : E) : eats (A := A) N rest (throw e).
Proof. intros s _. by apply wp_throw. Qed.

Lemma tame_lift {A} (r : result E A) : tame N rest (lift r).
Proof. intros s _. by apply wp_lift. Qed.

Lemma tame_bind {A B} (m : M E S A) (f : A -> M E S B) :
  tame N rest m -> (forall a, tame N rest (f a)) -> tame N rest (bind m f).
Proof.
  intros Hm Hf s Hs. apply wp_bind. eapply wp_mono; [by apply Hm|]. intros [a|e] s' H; simpl; [|done].
  eapply wp_mono; [apply Hf; apply suffix_length in H; lia|]. simpl. intros _ s2 ?. by etrans.
Qed.

Lemma eats_bind_l {A B} (m : M E S A) (f : A -> M E S B) :
  eats N rest m -> (forall a, tame N rest (f a)) -> eats N rest (bind m f).
Proof.
  intros Hm Hf s Hs. apply wp_bind. eapply wp_mono; [by apply Hm|]. intros [a|e] s' [H1 H2]; simpl; [|done].
  eapply wp_mono; [apply Hf; lia|]. simpl. intros r s2 H3. split; [by etrans|].
  apply suffix_length in H3. destruct r; lia.
Qed.

Lemma eats_bind_r {A B} (m : M E S A) (f : A -> M E S B) :
  tame N rest m -> (forall a, eats N rest (f a)) -> eats N rest (bind m f).
Proof.
  intros Hm Hf s Hs. apply wp_bind. eapply wp_mono; [by apply Hm|]. intros [a|e] s' H; simpl; [|done].
  eapply wp_mono; [apply Hf; apply suffix_length in H; lia|]. simpl. intros r s2 [H3 H4]. split; [by etrans|].
  apply suffix_length in H. destruct r; lia.
Qed.

Lemma tame_attempt {A} (m : M E S A) : tame N rest m -> tame N rest (attempt m).
Proof. intros Hm s Hs. apply wp_attempt. eapply wp_mono; [by apply Hm|]. done. Qed.

Lemma tame_for_return {B} n (body : M E S (option B)) tail :
  tame N rest body -> tame N rest tail -> tame N rest (for_return n body tail).
Proof.
  intros Hb Ht s Hs. apply (wp_for_return (fun s' => rest s' `suffix_of` rest s)).
  - intros s1 H1. eapply wp_mono; [apply Hb; apply suffix_length in H1; lia|]. intros [[b|]|e] s2 H2; by etrans.
  - intros s1 H1. eapply wp_mono; [apply Ht; apply suffix_length in H1; lia|].
    simpl. intros r s2 H2. by etrans.
  - done.
Qed.

Lemma tame_replicateM {A} n (m : M E S A) : tame N rest m -> tame N rest (replicateM n m).
Proof.
  intros Hm. induction n as [|n IH]; simpl; [apply tame_ret|].
  apply tame_bind; [done|]. intros a. apply tame_bind; [done|]. intros l. apply tame_ret.
Qed.

(** A loop each turn of which consumes input, with fuel for all of it. *)
Lemma tame_loop {A B} (body : A -> M E S (A + B)) fuel a :
  (N < fuel)%nat ->
  (forall a s, (length (rest s) <= N)%nat -> wp (body a) (fun r s' => rest s' `suffix_of` rest s
     /\ match r with Ok (inl _) => length (rest s') < length (rest s) | _ => True end)%nat s) ->
  tame N rest (loop fuel body a).
Proof.
  intros Hf Hb s Hs.
  apply (wp_loop (fun _ s' => rest s' `suffix_of` rest s) (fun _ s' => length (rest s'))); [|done|lia].
  intros a1 s1 H1. eapply wp_mono; [apply Hb; apply suffix_length in H1; lia|].
  intros [[a2|b]|e] s2 [H2 H3]; simpl; [|by etrans|by etrans]. split; [by etrans|done].
Qed.

(** The common case: a turn that succeeds has consumed input. *)
Lemma eats_loop {A B} (body : A -> M E S (A + B)) fuel a :
  (N < fuel)%nat -> (forall a, eats N rest (body a)) -> eats N rest (loop fuel body a).
Proof.
  intros Hf Hb s Hs.
  apply (wp_loop (fun _ s' => rest s' `suffix_of` rest s) (fun _ s' => length (rest s'))); [|done|lia].
  intros a1 s1 H1. pose proof (suffix_length _ _ H1).
  eapply wp_mono; [apply Hb; lia|]. intros [[a2|b]|e] s2 [H2 H3]; simpl.
  - split; [by etrans|done].
  - split; [by etrans|lia].
  - split; [by etrans|done].
Qed.
End Tame.

Lemma tame_on_fst {E S T A} N (rest : S -> list Z) (m : M E S A) :
  tame N rest m -> tame N (fun p : S * T => rest p.1) (on_fst m).
Proof. intros H [s t] Hs. by apply wp_on_fst, H. Qed.

Lemma eats_on_fst {E S T A} N (rest : S -> list Z) (m : M E S A) :
  eats N rest m -> eats N (fun p : S * T => rest p.1) (on_fst m).
Proof. intros H [s t] Hs. by apply wp_on_fst, H. Qed.

Lemma tame_on_snd {E S T A} N (rest : S -> list Z) (m : M E T A) :
  (forall t, wp m (fun _ _ => True) t) -> tame N (fun p : S * T => rest p.1) (on_snd m).
Proof. intros H [s t] _. apply wp_on_snd. eapply wp_mono; [apply H|]. done. Qed.

#[export] Hint Resolve tame_ret tame_throw eats_throw tame_lift tame_attempt tame_for_return
  tame_replicateM tame_on_fst eats_on_fst tame_on_snd : tame.
#[export] Hint Extern 2 (tame _ _ (bind _ _)) => apply tame_bind; [|intros ?] : tame.
#[export] Hint Extern 1 (eats _ _ (bind _ _)) => apply eats_bind_l; [solve [auto with tame]|intros ?] : tame.
#[export] Hint Extern 3 (eats _ _ (bind _ _)) => apply eats_bind_r; [|intros ?] : tame.
#[export] Hint Extern 5 (tame _ _ (if ?b then _ else _)) => destruct b : tame.
#[export] Hint Extern 5 (eats _ _ (if ?b then _ else _)) => destruct b : tame.

(** ** Machine integers *)

(** An unsigned integer of width [w], as a [Z] in its range. *)
Definition in_width (w x : Z) : Prop := 0 <= x < 2 ^ w.
Abbreviation is_u8 := (in_width 8).
Abbreviation is_u16 := (in_width 16).
Abbreviation is_u32 := (in_width 32).
Abbreviation is_u64 := (in_width 64).
Abbreviation bytes_ok := (Forall (in_width 8)).

(** Truncation to a width ([as u8], [<<], [wrapping_add]). *)
Definition wrap (w x : Z) : Z := x mod 2 ^ w.
(** [!x] on an unsigned integer of width [w]. *)
Definition bitnot (w x : Z) : Z := 2 ^ w - 1 - x.
(** [usize] and [u64] are 64 bits wide. *)
Definition U64_MAX : Z := 2 ^ 64 - 1.
Definition sat_add (x y : Z) : Z := Z.min (x + y) U64_MAX.
Definition sat_sub (x y : Z) : Z := Z.max (x - y) 0.

(** [Vec::len] as the machine sees it. *)
Definition zlen {A} (l : list A) : Z := Z.of_nat (length l).

(** [l[..n]] and [l[n..]] for an index already known to be in range. *)
Definition ztake {A} (n : Z) (l : list A) : list A := take (Z.to_nat n) l.
Definition zdrop {A} (n : Z) (l : list A) : list A := drop (Z.to_nat n) l.

Create HintDb bytes.
#[export] Hint Unfold in_width : bytes.

(** Case analysis on a byte by computation: a boolean property of bytes that
    holds of all 256 of them holds of every byte. *)
Lemma byte_forallb (P : Z -> bool) :
  forallb P (map Z.of_nat (seq 0 256)) = true -> forall b, is_u8 b -> P b = true.
Proof.
  intros H b [Hb0 Hb1]. rewrite forallb_forall in H. apply H.
  apply in_map_iff. exists (Z.to_nat b). split; [lia|]. apply in_seq. change (2 ^ 8) with 256 in Hb1. lia.
Qed.

Ltac by_bytes P b H :=
  let Hx := fresh in
  assert (Hx : P b = true) by (apply (byte_forallb P); [vm_compute; reflexivity | exact H]);
  cbv beta in Hx.

Create Rewrite HintDb zlen.
Lemma zlen_nil {A} : zlen (@nil A) = 0.
Proof. reflexivity. Qed.
Lemma zlen_cons {A} (x : A) l : zlen (x :: l) = 1 + zlen l.
Proof. unfold zlen. simpl. lia. Qed.
Lemma zlen_app {A} (l k : list A) : zlen (l ++ k) = zlen l + zlen k.
Proof. unfold zlen. rewrite length_app. lia. Qed.
Lemma zlen_nonneg {A} (l : list A) : 0 <= zlen l.
Proof. unfold zlen. lia. Qed.
Lemma ztake_app {A} (l k : list A) n : n = zlen l -> ztake n (l ++ k) = l.
Proof. intros ->. unfold ztake, zlen. rewrite Nat2Z.id. apply take_app_length. Qed.
Lemma zdrop_app {A} (l k : list A) n : n = zlen l -> zdrop n (l ++ k) = k.
Proof. intros ->. unfold zdrop, zlen. rewrite Nat2Z.id. apply drop_app_length. Qed.
Lemma zlen_replicate {A} n (x : A) : zlen (replicate n x) = Z.of_nat n.
Proof. unfold zlen. by rewrite length_replicate. Qed.
#[export] Hint Rewrite @zlen_nil @zlen_cons @zlen_app @zlen_replicate : zlen.

(** ** Big- and little-endian bytes *)

Definition u16_to_be (x : Z) : list Z := [Z.shiftr x 8; wrap 8 x].
Definition u16_from_be (hi lo : Z) : Z := Z.lor (Z.shiftl hi 8) lo.
Definition u16_from_le (lo hi : Z) : Z := Z.lor lo (Z.shiftl hi 8).
Definition u32_to_le (x : Z) : list Z :=
  [wrap 8 x; wrap 8 (Z.shiftr x 8); wrap 8 (Z.shiftr x 16); wrap 8 (Z.shiftr x 24)].
Definition u32_from_le (b0 b1 b2 b3 : Z) : Z :=
  Z.lor b0 (Z.lor (Z.shiftl b1 8) (Z.lor (Z.shiftl b2 16) (Z.shiftl b3 24))).

(** ** Bit-level reasoning *)

Lemma testbit_wrap w x n : 0 <= w -> 0 <= n ->
  Z.testbit (wrap w x) n = (n <? w) && Z.testbit x n.
Proof.
  intros Hw Hn. unfold wrap. destruct (Z.ltb_spec n w).
  - by rewrite Z.mod_pow2_bits_low by lia.
  - by rewrite Z.mod_pow2_bits_high by lia.
Qed.

Lemma testbit_width w x n : in_width w x -> 0 <= w -> w <= n -> Z.testbit x n = false.
Proof.
  intros [H0 H1] Hw Hn. destruct (decide (x = 0)) as [->|Hx]; [apply Z.bits_0|].
  apply Z.bits_above_log2; [lia|]. apply Z.log2_lt_pow2 in H1; lia.
Qed.

Lemma in_width_bits w x : 0 <= w -> 0 <= x ->
  (forall n, w <= n -> Z.testbit x n = false) -> in_width w x.
Proof.
  intros Hw Hx H. split; [done|].
  assert (Hmod : x mod 2 ^ w = x).
  { apply Z.bits_inj'. intros n Hn. destruct (Z.ltb_spec n w).
    - by rewrite Z.mod_pow2_bits_low by lia.
    - rewrite Z.mod_pow2_bits_high by lia. symmetry. apply H. lia. }
  rewrite <-Hmod. apply Z.mod_pos_bound. lia.
Qed.

Lemma in_width_wrap w x : 0 <= w -> in_width w (wrap w x).
Proof. intros Hw. apply Z.mod_pos_bound. lia. Qed.

Lemma wrap_small w x : in_width w x -> wrap w x = x.
Proof. intros H. unfold wrap. apply Z.mod_small, H. Qed.

Lemma in_width_lxor w x y : 0 <= w -> in_width w x -> in_width w y -> in_width w (Z.lxor x y).
Proof.
  intros Hw Hx Hy. apply in_width_bits; [done| |].
  - apply Z.lxor_nonneg. destruct Hx, Hy. tauto.
  - intros n Hn. rewrite Z.lxor_spec.
    by rewrite (testbit_width w x), (testbit_width w y) by done.
Qed.

Lemma in_width_lor w x y : 0 <= w -> in_width w x -> in_width w y -> in_width w (Z.lor x y).
Proof.
  intros Hw Hx Hy. apply in_width_bits; [done| |].
  - apply Z.lor_nonneg. destruct Hx, Hy. tauto.
  - intros n Hn. rewrite Z.lor_spec.
    by rewrite (testbit_width w x), (testbit_width w y) by done.
Qed.

Lemma in_width_shiftr w k x : 0 <= k <= w -> in_width w x -> in_width (w - k) (Z.shiftr x k).
Proof.
  intros Hk Hx. apply in_width_bits; [lia| |].
  - apply Z.shiftr_nonneg, Hx.
  - intros n Hn. rewrite Z.shiftr_spec by lia. apply (testbit_width w); [done|lia|lia].
Qed.

Lemma in_width_shiftl w k x : 0 <= k -> 0 <= w -> in_width w x -> in_width (w + k) (Z.shiftl x k).
Proof.
  intros Hk Hw Hx. apply in_width_bits; [lia| |].
  - apply Z.shiftl_nonneg, Hx.
  - intros n Hn. rewrite Z.shiftl_spec by lia. apply (testbit_width w); [done|lia|lia].
Qed.

Lemma in_width_mono w w' x : 0 <= w <= w' -> in_width w x -> in_width w' x.
Proof. intros Hw [H0 H1]. split; [done|]. pose proof (Z.pow_le_mono_r 2 w w'). lia. Qed.

Lemma in_width_bitnot w x : in_width w x -> in_width w (bitnot w x).
Proof. unfold in_width, bitnot. lia. Qed.

#[export] Hint Resolve in_width_wrap in_width_lxor in_width_lor in_width_bitnot : bytes.

(** Equality of integers bit by bit.  The bits of the operations are rewritten
    and the index is compared with every bound that occurs. *)
Create Rewrite HintDb bits.
#[export] Hint Rewrite Z.lor_spec Z.lxor_spec Z.land_spec : bits.
#[export] Hint Rewrite Z.shiftl_spec Z.shiftr_spec testbit_wrap using lia : bits.

Ltac bits_case :=
  match goal with
  | |- context [?a <? ?b] => destruct (Z.ltb_spec a b)
  | |- context [Z.testbit _ (?n - ?k)] =>
      lazymatch goal with
      | _ : n < k |- _ => fail
      | _ : k <= n |- _ => fail
      | _ => destruct (Z.lt_ge_cases n k)
      end
  end.
Ltac bits_high :=
  repeat match goal with
  | |- context [Z.testbit ?x ?n] =>
      first [ rewrite (Z.testbit_neg_r x n) by lia
            | match goal with H : in_width ?w x |- _ =>
                rewrite (testbit_width w x n) by (first [exact H | lia]) end ]
  end.
Ltac bits_norm :=
  autorewrite with bits; cbn [andb orb xorb negb]; bits_high;
  rewrite ?andb_true_l, ?andb_true_r, ?andb_false_l, ?andb_false_r,
    ?orb_false_r, ?orb_false_l, ?xorb_false_r, ?xorb_false_l.
Ltac bitwise n :=
  apply Z.bits_inj'; intros n ?; bits_norm; repeat (bits_case; bits_norm);
  try reflexivity; try (f_equal; lia); try lia.

Lemma u16_be_roundtrip x : is_u16 x -> u16_from_be (Z.shiftr x 8) (wrap 8 x) = x.
Proof.
  intros H. unfold u16_from_be. bitwise n.
Qed.

Lemma u16_from_be_width hi lo : is_u8 hi -> is_u8 lo -> is_u16 (u16_from_be hi lo).
Proof.
  intros Hh Hl. apply in_width_lor; [lia|by apply (in_width_shiftl 8 8); [lia..|]|].
  by apply (in_width_mono 8); [lia|].
Qed.

Lemma u16_from_be_to_be hi lo : is_u8 hi -> is_u8 lo -> u16_to_be (u16_from_be hi lo) = [hi; lo].
Proof. intros Hh Hl. unfold u16_to_be, u16_from_be. f_equal; [bitwise n|]. f_equal. bitwise n. Qed.

Lemma u32_le_roundtrip x : is_u32 x ->
  u32_from_le (wrap 8 x) (wrap 8 (Z.shiftr x 8)) (wrap 8 (Z.shiftr x 16)) (wrap 8 (Z.shiftr x 24)) = x.
Proof.
  intros H. unfold u32_from_le. bitwise n.
Qed.

Lemma u32_from_le_width b0 b1 b2 b3 :
  is_u8 b0 -> is_u8 b1 -> is_u8 b2 -> is_u8 b3 -> is_u32 (u32_from_le b0 b1 b2 b3).
Proof.
  intros H0 H1 H2 H3. unfold u32_from_le.
  apply in_width_lor; [lia|by apply (in_width_mono 8); [lia|]|].
  apply in_width_lor; [lia|apply (in_width_mono (8 + 8)); [lia|by apply in_width_shiftl; lia || done]|].
  apply in_width_lor; [lia|apply (in_width_mono (8 + 16)); [lia|by apply in_width_shiftl; lia || done]|].
  apply (in_width_mono (8 + 24)); [lia|by apply in_width_shiftl; lia || done].
Qed.

Lemma u32_le_bytes b0 b1 b2 b3 :
  is_u8 b0 -> is_u8 b1 -> is_u8 b2 -> is_u8 b3 ->
  u32_to_le (u32_from_le b0 b1 b2 b3) = [b0; b1; b2; b3].
Proof.
  intros H0 H1 H2 H3. unfold u32_to_le, u32_from_le.
  repeat (f_equal; [bitwise n|]). f_equal. bitwise n.
Qed.

Lemma u32_to_le_ok x : bytes_ok (u32_to_le x).
Proof. repeat constructor; apply in_width_wrap; lia. Qed.

Lemma u16_to_be_ok x : is_u16 x -> bytes_ok (u16_to_be x).
Proof.
  intros H. repeat constructor; try apply (in_width_shiftr 16 8 x); try apply in_width_wrap; lia || done.
Qed.
#[export] Hint Resolve u32_to_le_ok u16_to_be_ok : bytes.

(** ** Sorting *)

(** [slice::sort_by_key]: stable. *)
Fixpoint insert_by {A} (le : A -> A -> bool) (x : A) (l : list A) : list A :=
  match l with
  | [] => [x]
  | y :: l => if le x y then x :: y :: l else y :: insert_by le x l
  end.
Definition sort_by {A} (le : A -> A -> bool) (l : list A) : list A := foldr (insert_by le) [] l.

Lemma insert_by_perm {A} (le : A -> A -> bool) x l : insert_by le x l ≡ₚ x :: l.
Proof. induction l as [|y l IH]; [done|]. cbn. destruct (le x y); [done|]. by rewrite IH, Permutation_swap. Qed.
Lemma sort_by_perm {A} (le : A -> A -> bool) l : sort_by le l ≡ₚ l.
Proof. induction l as [|x l IH]; [done|]. cbn. by rewrite insert_by_perm, IH. Qed.
Lemma sort_by_sorted {A} (le : A -> A -> bool) (R : relation A) `{!Transitive R} l :
  (forall x y, le x y = true -> R x y) -> (forall x y, le x y = false -> R y x) -> StronglySorted R (sort_by le l).
Proof.
  intros Ht Hf. induction l as [|x l IH]; [constructor|].
  change (sort_by le (x :: l)) with (insert_by le x (sort_by le l)). revert IH. generalize (sort_by le l) as k.
  induction k as [|y k IHk]; intros Hk; [repeat constructor|]. apply StronglySorted_cons in Hk as [Hy Hk]. cbn.
  destruct (le x y) eqn:Hxy.
  - apply Ht in Hxy. apply StronglySorted_cons. split; [|by apply StronglySorted_cons].
    constructor; [done|]. eapply Forall_impl; [done|]. intros z Hz. by etrans.
  - apply StronglySorted_cons. split; [|by apply IHk]. apply Forall_forall. intros z. rewrite insert_by_perm, elem_of_cons.
    intros [->|Hz]; [by apply Hf|]. rewrite Forall_forall in Hy. by apply Hy.
Qed.

(** ** Filtering by a test *)

Lemma filter_sublist {A} (q : A -> bool) (l : list A) : List.filter q l `sublist_of` l.
Proof. induction l as [|x l IH]; [constructor|]. cbn. destruct (q x); by constructor. Qed.
Lemma elem_of_List_filter {A} (p : A -> bool) (l : list A) x : x ∈ List.filter p l <-> x ∈ l /\ p x = true.
Proof. rewrite !list_elem_of_In, filter_In. done. Qed.
