(* ===== verification/Crc.v ===== *)
(** * Checksums of the modem protocols

    Model of [crates/hapcli-modem-transfer/src/crc.rs]: the bit-serial
    CRC-16/XMODEM and CRC-32/IEEE accumulators.  The theorems relate the
    CRC-16 loop to textbook long division of polynomials over GF(2), show that
    both updates are injective in the accumulator and in the byte (so a single
    corrupted byte always changes the checksum), and give the residue
    properties the receivers rely on. *)
From S2P Require Import Prelude.
From stdpp Require Import prelude list numbers.
Open Scope Z_scope.

(** ** Definitions *)

(** One turn of the loop of [crc16_xmodem_update]. *)
Definition crc16_step (crc : Z) : Z :=
  if Z.land crc 0x8000 =? 0
  then wrap 16 (Z.shiftl crc 1)
  else Z.lxor (wrap 16 (Z.shiftl crc 1)) 0x1021.

Definition crc16_xmodem_update (crc byte : Z) : Z :=
  Nat.iter 8 crc16_step (Z.lxor crc (wrap 16 (Z.shiftl byte 8))).

Definition crc16_xmodem (bytes : list Z) : Z :=
  fold_left crc16_xmodem_update bytes 0.

(** One turn of the loop of [crc32_ieee_update]. *)
Definition crc32_step (crc : Z) : Z :=
  if Z.land crc 1 =? 0
  then Z.shiftr crc 1
  else Z.lxor (Z.shiftr crc 1) 0xedb88320.

Definition crc32_ieee_update (crc byte : Z) : Z :=
  Nat.iter 8 crc32_step (Z.lxor crc byte).

Definition crc32_ieee (bytes : list Z) : Z :=
  bitnot 32 (fold_left crc32_ieee_update bytes 0xffffffff).

(** Reference: the register of a long division by the generator
    x^16 + x^12 + x^5 + 1, taking one message bit per step. *)
Definition divide_bit (reg : Z) (bit : bool) : Z :=
  let shifted := Z.lor (Z.shiftl reg 1) (Z.b2z bit) in
  if Z.testbit shifted 16 then Z.lxor shifted 0x11021 else shifted.

(** The bits of a byte, most significant first. *)
Definition byte_bits (b : Z) : list bool :=
  map (Z.testbit b) [7; 6; 5; 4; 3; 2; 1; 0].

(** The remainder of the message times x^16. *)
Definition crc16_reference (bytes : list Z) : Z :=
  fold_left divide_bit (concat (map byte_bits bytes) ++ replicate 16 false) 0.

(** ** The CRC-16 step is linear over GF(2) *)

Lemma land_bit x k : 0 <= k -> (Z.land x (2 ^ k) =? 0) = negb (Z.testbit x k).
Proof.
  intros Hk. destruct (Z.eqb_spec (Z.land x (2 ^ k)) 0) as [H|H].
  - assert (Hb : Z.testbit (Z.land x (2 ^ k)) k = false) by (rewrite H; apply Z.bits_0).
    rewrite Z.land_spec, Z.pow2_bits_true, andb_true_r in Hb by done. by rewrite Hb.
  - destruct (Z.testbit x k) eqn:Hb; [done|]. exfalso. apply H.
    apply Z.bits_inj'. intros n Hn. rewrite Z.land_spec, Z.bits_0.
    destruct (decide (n = k)) as [->|Hne]; [by rewrite Hb|].
    by rewrite Z.pow2_bits_false, andb_false_r by done.
Qed.

Lemma crc16_step_eq c :
  crc16_step c = Z.lxor (wrap 16 (Z.shiftl c 1)) (if Z.testbit c 15 then 0x1021 else 0).
Proof.
  unfold crc16_step. change 0x8000 with (2 ^ 15). rewrite land_bit by lia.
  destruct (Z.testbit c 15); simpl; [done|]. by rewrite Z.lxor_0_r.
Qed.

Lemma crc32_step_eq c :
  crc32_step c = Z.lxor (Z.shiftr c 1) (if Z.testbit c 0 then 0xedb88320 else 0).
Proof.
  unfold crc32_step. change 1 with (2 ^ 0) at 1. rewrite land_bit by lia.
  destruct (Z.testbit c 0); simpl; [done|]. by rewrite Z.lxor_0_r.
Qed.

Lemma wrap_lxor w x y : 0 <= w -> wrap w (Z.lxor x y) = Z.lxor (wrap w x) (wrap w y).
Proof. intros Hw. bitwise n. Qed.

Lemma shiftl_lxor x y k : 0 <= k -> Z.shiftl (Z.lxor x y) k = Z.lxor (Z.shiftl x k) (Z.shiftl y k).
Proof. intros Hk. bitwise n. Qed.

Lemma lxor_swap a b c d : Z.lxor (Z.lxor a b) (Z.lxor c d) = Z.lxor (Z.lxor a c) (Z.lxor b d).
Proof. bitwise n. rewrite !xorb_assoc. f_equal. by rewrite <-!xorb_assoc, (xorb_comm (Z.testbit b n)). Qed.

Lemma if_lxor (a b : bool) p :
  (if xorb a b then p else 0) = Z.lxor (if a then p else 0) (if b then p else 0).
Proof. destruct a, b; simpl; by rewrite ?Z.lxor_0_r, ?Z.lxor_0_l, ?Z.lxor_nilpotent. Qed.

Lemma crc16_step_lxor x y : crc16_step (Z.lxor x y) = Z.lxor (crc16_step x) (crc16_step y).
Proof.
  rewrite !crc16_step_eq, Z.lxor_spec, if_lxor, shiftl_lxor, wrap_lxor by lia. apply lxor_swap.
Qed.

Lemma crc32_step_lxor x y : crc32_step (Z.lxor x y) = Z.lxor (crc32_step x) (crc32_step y).
Proof. rewrite !crc32_step_eq, Z.lxor_spec, if_lxor, Z.shiftr_lxor. apply lxor_swap. Qed.

(** A step function that is linear over GF(2), iterated. *)
Section Linear.
Context (f : Z -> Z) (f_lxor : forall x y, f (Z.lxor x y) = Z.lxor (f x) (f y)).

Lemma iter_lxor n x y : Nat.iter n f (Z.lxor x y) = Z.lxor (Nat.iter n f x) (Nat.iter n f y).
Proof using f_lxor. induction n as [|n IH]; [done|]. simpl. by rewrite IH, f_lxor. Qed.

Lemma lxor_eq_0 x y : Z.lxor x y = 0 -> x = y.
Proof. apply Z.lxor_eq. Qed.

Lemma linear_inj (P : Z -> Prop) x y :
  (forall z, P z -> f z = 0 -> z = 0) -> P (Z.lxor x y) -> f x = f y -> x = y.
Proof using f_lxor.
  intros Hker HP Heq. apply lxor_eq_0, Hker; [done|].
  by rewrite f_lxor, Heq, Z.lxor_nilpotent.
Qed.

Lemma iter_inj (P : Z -> Prop) n x y :
  (forall z, P z -> P (f z)) -> (forall u v, P u -> P v -> P (Z.lxor u v)) ->
  (forall z, P z -> f z = 0 -> z = 0) ->
  P x -> P y -> Nat.iter n f x = Nat.iter n f y -> x = y.
Proof using f_lxor.
  intros Hpres Hx Hker. revert x y. induction n as [|n IH]; intros x y HPx HPy; [done|].
  rewrite !Nat.iter_succ_r. intros Heq. apply IH in Heq; [|by apply Hpres..].
  by apply (linear_inj P); [|apply Hx|].
Qed.
End Linear.

Lemma iter_preserves {A} (P : A -> Prop) (f : A -> A) n x :
  (forall z, P z -> P (f z)) -> P x -> P (Nat.iter n f x).
Proof. intros Hf Hx. induction n; simpl; auto. Qed.

(** ** Widths *)

Lemma crc16_step_width c : is_u16 (crc16_step c).
Proof.
  rewrite crc16_step_eq. apply in_width_lxor; [lia|apply in_width_wrap; lia|].
  destruct (Z.testbit c 15); unfold in_width; lia.
Qed.

Lemma crc32_step_width c : is_u32 c -> is_u32 (crc32_step c).
Proof.
  intros H. rewrite crc32_step_eq. apply in_width_lxor; [lia| |].
  - apply (in_width_mono (32 - 1)); [lia|]. by apply in_width_shiftr; [lia|].
  - destruct (Z.testbit c 0); unfold in_width; lia.
Qed.

Lemma crc16_update_width c b : is_u16 (crc16_xmodem_update c b).
Proof. unfold crc16_xmodem_update. apply crc16_step_width. Qed.

Lemma crc32_update_width c b : is_u32 c -> is_u8 b -> is_u32 (crc32_ieee_update c b).
Proof.
  intros Hc Hb. unfold crc32_ieee_update. apply iter_preserves; [apply crc32_step_width|].
  apply in_width_lxor; [lia|done|]. by apply (in_width_mono 8); [lia|].
Qed.

Lemma crc16_fold_width l c : is_u16 c -> is_u16 (fold_left crc16_xmodem_update l c).
Proof. revert c. induction l as [|b l IH]; intros c Hc; [done|]. apply IH, crc16_update_width. Qed.

Lemma crc32_fold_width l c :
  is_u32 c -> bytes_ok l -> is_u32 (fold_left crc32_ieee_update l c).
Proof.
  revert c. induction l as [|b l IH]; intros c Hc Hl; [done|]. inversion_clear Hl.
  apply IH; [|done]. by apply crc32_update_width.
Qed.

Lemma crc16_width l : is_u16 (crc16_xmodem l).
Proof. apply crc16_fold_width. unfold in_width; lia. Qed.

Lemma crc32_width l : bytes_ok l -> is_u32 (crc32_ieee l).
Proof. intros H. apply in_width_bitnot, crc32_fold_width; [unfold in_width; lia|done]. Qed.

#[export] Hint Resolve crc16_width crc32_width crc16_update_width crc32_update_width
  crc16_fold_width crc32_fold_width : bytes.

(** ** Injectivity: no single corrupted byte goes unnoticed *)

Lemma crc16_step_kernel z : is_u16 z -> crc16_step z = 0 -> z = 0.
Proof.
  intros Hz H. rewrite crc16_step_eq in H.
  assert (H15 : Z.testbit z 15 = false).
  { assert (Hb : Z.testbit (Z.lxor (wrap 16 (Z.shiftl z 1))
                   (if Z.testbit z 15 then 0x1021 else 0)) 0 = false) by (rewrite H; apply Z.bits_0).
    rewrite Z.lxor_spec, testbit_wrap, Z.shiftl_spec_low in Hb by lia.
    by destruct (Z.testbit z 15). }
  rewrite H15, Z.lxor_0_r in H. apply Z.bits_inj'. intros n Hn. rewrite Z.bits_0.
  destruct (Z.lt_ge_cases n 15).
  - assert (Hb : Z.testbit (wrap 16 (Z.shiftl z 1)) (n + 1) = false) by (rewrite H; apply Z.bits_0).
    rewrite testbit_wrap, Z.shiftl_spec in Hb by lia.
    replace (n + 1 <? 16) with true in Hb by lia. by replace (n + 1 - 1) with n in Hb by lia.
  - destruct (decide (n = 15)) as [->|]; [done|]. apply (testbit_width 16); lia || done.
Qed.

Lemma crc32_step_kernel z : is_u32 z -> crc32_step z = 0 -> z = 0.
Proof.
  intros Hz H. rewrite crc32_step_eq in H.
  assert (H0 : Z.testbit z 0 = false).
  { assert (Hb : Z.testbit (Z.lxor (Z.shiftr z 1)
                   (if Z.testbit z 0 then 0xedb88320 else 0)) 31 = false) by (rewrite H; apply Z.bits_0).
    rewrite Z.lxor_spec, Z.shiftr_spec, (testbit_width 32 z) in Hb by (lia || done).
    by destruct (Z.testbit z 0). }
  rewrite H0, Z.lxor_0_r in H. apply Z.bits_inj'. intros n Hn. rewrite Z.bits_0.
  destruct (decide (n = 0)) as [->|]; [done|].
  assert (Hb : Z.testbit (Z.shiftr z 1) (n - 1) = false) by (rewrite H; apply Z.bits_0).
  rewrite Z.shiftr_spec in Hb by lia. by replace (n - 1 + 1) with n in Hb by lia.
Qed.

Lemma lxor_cancel_l a b c : Z.lxor a b = Z.lxor a c -> b = c.
Proof.
  intros H. assert (H' : Z.lxor a (Z.lxor a b) = Z.lxor a (Z.lxor a c)) by (by rewrite H).
  by rewrite <-!Z.lxor_assoc, Z.lxor_nilpotent, !Z.lxor_0_l in H'.
Qed.

Lemma byte_high_width b : is_u8 b -> is_u16 (wrap 16 (Z.shiftl b 8)).
Proof. intros _. apply in_width_wrap. lia. Qed.

Lemma byte_high_inj b b' :
  is_u8 b -> is_u8 b' -> wrap 16 (Z.shiftl b 8) = wrap 16 (Z.shiftl b' 8) -> b = b'.
Proof.
  intros Hb Hb'. rewrite !wrap_small by (by apply (in_width_shiftl 8 8); [lia..|]).
  rewrite !Z.shiftl_mul_pow2 by lia. lia.
Qed.

Lemma crc16_update_inj c c' b b' :
  is_u16 c -> is_u16 c' -> is_u8 b -> is_u8 b' ->
  crc16_xmodem_update c b = crc16_xmodem_update c' b' ->
  Z.lxor c (wrap 16 (Z.shiftl b 8)) = Z.lxor c' (wrap 16 (Z.shiftl b' 8)).
Proof.
  intros Hc Hc' Hb Hb'. apply (iter_inj crc16_step crc16_step_lxor (in_width 16)).
  - intros; apply crc16_step_width.
  - intros; apply in_width_lxor; lia || done.
  - apply crc16_step_kernel.
  - apply in_width_lxor; [lia|done|by apply byte_high_width].
  - apply in_width_lxor; [lia|done|by apply byte_high_width].
Qed.

Lemma crc16_fold_inj l c c' :
  bytes_ok l -> is_u16 c -> is_u16 c' ->
  fold_left crc16_xmodem_update l c = fold_left crc16_xmodem_update l c' -> c = c'.
Proof.
  revert c c'. induction l as [|b l IH]; intros c c' Hl Hc Hc' H; [done|].
  inversion_clear Hl. apply IH in H; [|eauto with bytes..].
  apply crc16_update_inj in H; [|done..]. rewrite !(Z.lxor_comm _ (wrap _ _)) in H.
  by apply lxor_cancel_l in H.
Qed.

Lemma crc16_byte_detected l1 l2 x y :
  bytes_ok l2 -> is_u8 x -> is_u8 y ->
  crc16_xmodem (l1 ++ x :: l2) = crc16_xmodem (l1 ++ y :: l2) -> x = y.
Proof.
  intros H2 Hx Hy. unfold crc16_xmodem. rewrite !fold_left_app. simpl. intros H.
  apply crc16_fold_inj in H; [|eauto with bytes..].
  pose proof (crc16_width l1) as Hc. unfold crc16_xmodem in Hc.
  apply crc16_update_inj, lxor_cancel_l, byte_high_inj in H; done.
Qed.

Lemma crc32_update_inj c c' b b' :
  is_u32 c -> is_u32 c' -> is_u8 b -> is_u8 b' ->
  crc32_ieee_update c b = crc32_ieee_update c' b' -> Z.lxor c b = Z.lxor c' b'.
Proof.
  intros Hc Hc' Hb Hb'.
  assert (Hm : forall z, is_u8 z -> is_u32 z) by (intros; by apply (in_width_mono 8); [lia|]).
  apply (iter_inj crc32_step crc32_step_lxor (in_width 32));
    auto using crc32_step_width, crc32_step_kernel, in_width_lxor.
  - intros; apply in_width_lxor; lia || done.
  - apply in_width_lxor; [lia|auto..].
  - apply in_width_lxor; [lia|auto..].
Qed.

Lemma crc32_fold_inj l c c' :
  bytes_ok l -> is_u32 c -> is_u32 c' ->
  fold_left crc32_ieee_update l c = fold_left crc32_ieee_update l c' -> c = c'.
Proof.
  revert c c'. induction l as [|b l IH]; intros c c' Hl Hc Hc' H; [done|].
  inversion_clear Hl. apply IH in H; [|auto with bytes..].
  apply crc32_update_inj in H; [|done..]. rewrite !(Z.lxor_comm _ b) in H.
  by apply lxor_cancel_l in H.
Qed.

Lemma crc32_byte_detected l1 l2 x y :
  bytes_ok l1 -> bytes_ok l2 -> is_u8 x -> is_u8 y ->
  crc32_ieee (l1 ++ x :: l2) = crc32_ieee (l1 ++ y :: l2) -> x = y.
Proof.
  intros H1 H2 Hx Hy. unfold crc32_ieee, bitnot. rewrite !fold_left_app. simpl. intros H.
  assert (Hc : is_u32 (fold_left crc32_ieee_update l1 4294967295)).
  { apply crc32_fold_width; [unfold in_width; lia|done]. }
  assert (H' : fold_left crc32_ieee_update l2
     (crc32_ieee_update (fold_left crc32_ieee_update l1 4294967295) x) =
   fold_left crc32_ieee_update l2
     (crc32_ieee_update (fold_left crc32_ieee_update l1 4294967295) y)) by lia.
  apply crc32_fold_inj in H'; [|auto with bytes..].
  by apply crc32_update_inj, lxor_cancel_l in H'.
Qed.

(** ** Two check bytes at once *)

Lemma iter8_byte b : is_u8 b -> Nat.iter 8 crc16_step b = Z.shiftl b 8.
Proof.
  intros Hb. by_bytes (fun b => Nat.iter 8 crc16_step b =? Z.shiftl b 8) b Hb. lia.
Qed.

Lemma crc16_update2 c hi lo :
  is_u8 hi -> is_u8 lo ->
  crc16_xmodem_update (crc16_xmodem_update c hi) lo
  = Nat.iter 16 crc16_step (Z.lxor c (u16_from_be hi lo)).
Proof.
  intros Hhi Hlo. unfold crc16_xmodem_update, u16_from_be.
  change 16%nat with (8 + 8)%nat. rewrite (Nat.iter_add 8 8). f_equal.
  rewrite !wrap_small by (by apply (in_width_shiftl 8 8); [lia..|]).
  rewrite <-(iter8_byte lo Hlo), <-(iter_lxor crc16_step crc16_step_lxor). f_equal.
  rewrite Z.lxor_assoc. f_equal. bitwise n.
Qed.

Lemma iter_step_zero n : Nat.iter n crc16_step 0 = 0.
Proof. induction n as [|n IH]; [done|]. simpl. rewrite IH. reflexivity. Qed.

Lemma iter_step_kernel n z : is_u16 z -> Nat.iter n crc16_step z = 0 -> z = 0.
Proof.
  intros Hz H. rewrite <-(iter_step_zero n) in H.
  apply (iter_inj crc16_step crc16_step_lxor (in_width 16) n); auto using crc16_step_kernel.
  - intros; apply crc16_step_width.
  - intros; apply in_width_lxor; lia || done.
  - unfold in_width; lia.
Qed.

(** The receivers' test: running the check bytes through the accumulator
    leaves zero exactly when they are the checksum of what came before. *)
Lemma crc16_residue_iff c hi lo :
  is_u16 c -> is_u8 hi -> is_u8 lo ->
  crc16_xmodem_update (crc16_xmodem_update c hi) lo = 0 <-> [hi; lo] = u16_to_be c.
Proof.
  intros Hc Hhi Hlo. rewrite crc16_update2 by done. split.
  - intros H. apply iter_step_kernel in H.
    + apply lxor_eq_0 in H. rewrite H. symmetry. by apply u16_from_be_to_be.
    + apply in_width_lxor; [lia|done|]. by apply u16_from_be_width.
  - intros [= -> ->]. rewrite u16_be_roundtrip, Z.lxor_nilpotent by done. apply iter_step_zero.
Qed.

(** ** The loop is polynomial long division *)

Lemma shiftl_split reg : is_u16 reg ->
  Z.shiftl reg 1 = Z.lxor (wrap 16 (Z.shiftl reg 1)) (if Z.testbit reg 15 then 0x10000 else 0).
Proof.
  intros Hr. apply Z.bits_inj'. intros n Hn.
  rewrite Z.lxor_spec, testbit_wrap, Z.shiftl_spec by lia.
  change 0x10000 with (2 ^ 16).
  destruct (Z.ltb_spec n 16); [|destruct (decide (n = 16)) as [->|]].
  - destruct (Z.testbit reg 15); rewrite ?Z.pow2_bits_false, ?Z.bits_0 by lia; by rewrite xorb_false_r.
  - change (16 - 1) with 15. destruct (Z.testbit reg 15); by rewrite ?Z.pow2_bits_true.
  - rewrite (testbit_width 16 reg) by (lia || done).
    destruct (Z.testbit reg 15); by rewrite ?Z.pow2_bits_false, ?Z.bits_0 by lia.
Qed.

Lemma divide_bit_step reg bit :
  is_u16 reg -> divide_bit reg bit = Z.lxor (crc16_step reg) (Z.b2z bit).
Proof.
  intros Hr. unfold divide_bit. rewrite crc16_step_eq.
  assert (Hb : in_width 1 (Z.b2z bit)) by (destruct bit; unfold in_width; simpl; lia).
  assert (Hs : Z.lor (Z.shiftl reg 1) (Z.b2z bit) = Z.lxor (Z.shiftl reg 1) (Z.b2z bit)).
  { bitwise n. }
  rewrite Hs, Z.lxor_spec, Z.shiftl_spec, (testbit_width 1 (Z.b2z bit)), xorb_false_r by (lia || done).
  change (16 - 1) with 15. pose proof (shiftl_split reg Hr) as Hsp.
  destruct (Z.testbit reg 15); rewrite Hsp at 1.
  - change 0x11021 with (Z.lxor 0x10000 0x1021).
    rewrite (Z.lxor_comm _ (Z.b2z bit)), Z.lxor_assoc, (Z.lxor_assoc (wrap _ _)).
    rewrite <-(Z.lxor_assoc 0x10000 0x10000), Z.lxor_nilpotent, Z.lxor_0_l.
    apply Z.lxor_comm.
  - by rewrite !Z.lxor_0_r.
Qed.

Lemma b2z_width bit : is_u16 (Z.b2z bit).
Proof. destruct bit; unfold in_width; simpl; lia. Qed.

Lemma divide_bit_width reg bit : is_u16 reg -> is_u16 (divide_bit reg bit).
Proof.
  intros H. rewrite divide_bit_step by done.
  apply in_width_lxor; [lia|apply crc16_step_width|apply b2z_width].
Qed.

(** The serial register that takes a message bit at the top. *)
Definition serial_bit (reg : Z) (bit : bool) : Z :=
  crc16_step (Z.lxor reg (Z.shiftl (Z.b2z bit) 15)).

Lemma serial_divide_gen (T : Z -> Z) bs r :
  (forall x y, T (Z.lxor x y) = Z.lxor (T x) (T y)) ->
  (forall x, T (crc16_step x) = crc16_step (T x)) ->
  (forall b, crc16_step (Z.shiftl (Z.b2z b) 15) = T (Z.b2z b)) ->
  is_u16 r -> fold_left serial_bit bs (T r) = T (fold_left divide_bit bs r).
Proof.
  intros Hlin Hstep Hbit. revert r. induction bs as [|b bs IH]; intros r Hr; [done|].
  cbn [fold_left]. rewrite <-IH by (by apply divide_bit_width). f_equal.
  rewrite divide_bit_step by done. unfold serial_bit.
  by rewrite crc16_step_lxor, Hlin, Hstep, Hbit.
Qed.

Lemma iter_step_comm n x : Nat.iter n crc16_step (crc16_step x) = crc16_step (Nat.iter n crc16_step x).
Proof. by rewrite <-Nat.iter_succ_r, Nat.iter_succ. Qed.

Lemma serial_divide bs r :
  is_u16 r ->
  fold_left serial_bit bs (Nat.iter 16 crc16_step r)
  = Nat.iter 16 crc16_step (fold_left divide_bit bs r).
Proof.
  apply (serial_divide_gen (Nat.iter 16 crc16_step)).
  - apply iter_lxor, crc16_step_lxor.
  - apply iter_step_comm.
  - intros [|]; reflexivity.
Qed.

Lemma serial_byte c b :
  is_u8 b -> fold_left serial_bit (byte_bits b) c = crc16_xmodem_update c b.
Proof.
  intros Hb.
  assert (Hlin : forall bs r, fold_left serial_bit bs r
    = Z.lxor (Nat.iter (length bs) crc16_step r) (fold_left serial_bit bs 0)).
  { induction bs as [|x bs IH] using rev_ind; intros r; [simpl; by rewrite Z.lxor_0_r|].
    rewrite !fold_left_app, length_app, Nat.add_1_r. cbn [fold_left]. rewrite IH. unfold serial_bit.
    rewrite !crc16_step_lxor, Nat.iter_succ. apply Z.lxor_assoc. }
  rewrite Hlin. unfold crc16_xmodem_update. rewrite (iter_lxor crc16_step crc16_step_lxor).
  f_equal.
  by_bytes (fun b => fold_left serial_bit (byte_bits b) 0
      =? Nat.iter 8 crc16_step (wrap 16 (Z.shiftl b 8))) b Hb. lia.
Qed.

Lemma serial_bytes l c :
  bytes_ok l -> fold_left serial_bit (concat (map byte_bits l)) c = fold_left crc16_xmodem_update l c.
Proof.
  revert c. induction l as [|b l IH]; intros c Hl; [done|]. inversion_clear Hl.
  cbn [concat map]. rewrite fold_left_app, serial_byte by done. by apply IH.
Qed.

Lemma divide_zeros n r :
  is_u16 r -> fold_left divide_bit (replicate n false) r = Nat.iter n crc16_step r.
Proof.
  revert r. induction n as [|n IH]; intros r Hr; [done|]. cbn [replicate fold_left].
  rewrite IH by (by apply divide_bit_width). rewrite divide_bit_step, Z.lxor_0_r by done.
  by rewrite Nat.iter_succ_r.
Qed.

Lemma divide_fold_width bs r : is_u16 r -> is_u16 (fold_left divide_bit bs r).
Proof. revert r. induction bs as [|b bs IH]; intros r Hr; [done|]. by apply IH, divide_bit_width. Qed.

(** The CRC-16 loop of [crc16_xmodem] computes the remainder of the
    message polynomial times x^16 on division by x^16 + x^12 + x^5 + 1: on
    every byte string it equals textbook bit-by-bit long division. *)
Theorem crc16_is_long_division (l : list Z) :
  bytes_ok l -> crc16_xmodem l = crc16_reference l.
Proof.
  intros Hl. unfold crc16_reference, crc16_xmodem.
  assert (H0 : is_u16 0) by (unfold in_width; lia).
  rewrite fold_left_app, divide_zeros by (by apply divide_fold_width).
  rewrite <-serial_divide, (iter_step_zero 16), serial_bytes by done. reflexivity.
Qed.

Lemma crc16_is_long_division_witness :
  crc16_xmodem [49; 50; 51; 52; 53; 54; 55; 56; 57] = crc16_reference [49; 50; 51; 52; 53; 54; 55; 56; 57].
Proof. apply crc16_is_long_division. repeat constructor; unfold in_width; lia. Defined.

(** The check values of the source's unit tests. *)
Example crc16_check_value : crc16_xmodem [49; 50; 51; 52; 53; 54; 55; 56; 57] = 0x31c3.
Proof. reflexivity. Qed.
Example crc32_check_value : crc32_ieee [49; 50; 51; 52; 53; 54; 55; 56; 57] = 0xcbf43926.
Proof. reflexivity. Qed.
