(* ===== verification/Text.v ===== *)
(** * The parts of Rust's standard library for text that the program uses

    A [str] is modelled by its characters, a list of Unicode scalar values
    ([list Z]); [utf8_encode] gives its bytes.  The file models
    [String::from_utf8_lossy], [str::lines], [str::split_whitespace],
    [char::is_whitespace], [u64::to_string], [str::parse::<u64>] and
    [Path::file_name] (Unix paths), with the round trips that the protocol
    headers need. *)
From S2P Require Import Prelude.
From stdpp Require Import prelude list numbers.
Open Scope Z_scope.

(** ** UTF-8 *)

Definition is_scalarb (c : Z) : bool :=
  ((0 <=? c) && (c <? 0xd800)) || ((0xe000 <=? c) && (c <? 0x110000)).
Definition is_scalar (c : Z) : Prop := is_scalarb c = true.
Definition str_ok (s : list Z) : Prop := Forall is_scalar s.

Definition char_len_utf8 (c : Z) : Z :=
  if c <? 0x80 then 1 else if c <? 0x800 then 2 else if c <? 0x10000 then 3 else 4.

Definition utf8_encode_char (c : Z) : list Z :=
  if c <? 0x80 then [c]
  else if c <? 0x800 then [0xc0 + c / 64; 0x80 + c mod 64]
  else if c <? 0x10000 then [0xe0 + c / 4096; 0x80 + (c / 64) mod 64; 0x80 + c mod 64]
  else [0xf0 + c / 262144; 0x80 + (c / 4096) mod 64; 0x80 + (c / 64) mod 64; 0x80 + c mod 64].

(** [str::as_bytes]. *)
Definition utf8_encode (s : list Z) : list Z := concat (map utf8_encode_char s).

Definition is_cont (b : Z) : bool := (0x80 <=? b) && (b <=? 0xbf).
Definition in_range (lo hi b : Z) : bool := (lo <=? b) && (b <=? hi).

Definition utf8_char_width (b : Z) : Z :=
  if b <? 0x80 then 1
  else if in_range 0xc2 0xdf b then 2
  else if in_range 0xe0 0xef b then 3
  else if in_range 0xf0 0xf4 b then 4
  else 0.

Definition second_of_three (b c : Z) : bool :=
  if b =? 0xe0 then in_range 0xa0 0xbf c
  else if b =? 0xed then in_range 0x80 0x9f c
  else in_range 0x80 0xbf c.
Definition second_of_four (b c : Z) : bool :=
  if b =? 0xf0 then in_range 0x90 0xbf c
  else if b =? 0xf4 then in_range 0x80 0x8f c
  else in_range 0x80 0xbf c.

Definition REPLACEMENT : Z := 0xfffd.

(** Every maximal ill-formed prefix becomes one U+FFFD. *)
Fixpoint from_utf8_lossy (l : list Z) : list Z :=
  match l with
  | [] => []
  | b :: r =>
      if utf8_char_width b =? 1 then b :: from_utf8_lossy r
      else if utf8_char_width b =? 2 then
        match r with
        | c1 :: r1 =>
            if is_cont c1 then ((b - 0xc0) * 64 + (c1 - 0x80)) :: from_utf8_lossy r1
            else REPLACEMENT :: from_utf8_lossy r
        | [] => [REPLACEMENT]
        end
      else if utf8_char_width b =? 3 then
        match r with
        | c1 :: r1 =>
            if second_of_three b c1 then
              match r1 with
              | c2 :: r2 =>
                  if is_cont c2
                  then ((b - 0xe0) * 4096 + (c1 - 0x80) * 64 + (c2 - 0x80)) :: from_utf8_lossy r2
                  else REPLACEMENT :: from_utf8_lossy r1
              | [] => [REPLACEMENT]
              end
            else REPLACEMENT :: from_utf8_lossy r
        | [] => [REPLACEMENT]
        end
      else if utf8_char_width b =? 4 then
        match r with
        | c1 :: r1 =>
            if second_of_four b c1 then
              match r1 with
              | c2 :: r2 =>
                  if is_cont c2 then
                    match r2 with
                    | c3 :: r3 =>
                        if is_cont c3
                        then ((b - 0xf0) * 262144 + (c1 - 0x80) * 4096 + (c2 - 0x80) * 64
                              + (c3 - 0x80)) :: from_utf8_lossy r3
                        else REPLACEMENT :: from_utf8_lossy r2
                    | [] => [REPLACEMENT]
                    end
                  else REPLACEMENT :: from_utf8_lossy r1
              | [] => [REPLACEMENT]
              end
            else REPLACEMENT :: from_utf8_lossy r
        | [] => [REPLACEMENT]
        end
      else REPLACEMENT :: from_utf8_lossy r
  end.

(** ** Characters, lines and words *)

(** [char::is_whitespace]: the Unicode property White_Space. *)
Definition is_whitespace (c : Z) : bool :=
  in_range 0x9 0xd c || (c =? 0x20) || (c =? 0x85) || (c =? 0xa0) || (c =? 0x1680)
  || in_range 0x2000 0x200a c || in_range 0x2028 0x2029 c || (c =? 0x202f) || (c =? 0x205f)
  || (c =? 0x3000).

Definition is_ascii_alphanumeric (c : Z) : bool :=
  in_range 48 57 c || in_range 65 90 c || in_range 97 122 c.

(** [str::split_whitespace]; [cur] is the reversed token being read. *)
Fixpoint split_whitespace_aux (cur : list Z) (s : list Z) : list (list Z) :=
  match s with
  | [] => match cur with [] => [] | _ => [reverse cur] end
  | c :: s' =>
      if is_whitespace c
      then match cur with
           | [] => split_whitespace_aux [] s'
           | _ => reverse cur :: split_whitespace_aux [] s'
           end
      else split_whitespace_aux (c :: cur) s'
  end.
Definition split_whitespace (s : list Z) : list (list Z) := split_whitespace_aux [] s.

(** [line] without one trailing carriage return; the argument is reversed. *)
Definition strip_cr (rline : list Z) : list Z :=
  match rline with
  | c :: rest => if c =? 13 then reverse rest else reverse rline
  | [] => []
  end.

(** [str::lines]: a final line without a newline is kept as it is, an empty
    final line is not a line. *)
Fixpoint lines_aux (cur : list Z) (s : list Z) : list (list Z) :=
  match s with
  | [] => match cur with [] => [] | _ => [reverse cur] end
  | c :: s' => if c =? 10 then strip_cr cur :: lines_aux [] s' else lines_aux (c :: cur) s'
  end.
Definition lines (s : list Z) : list (list Z) := lines_aux [] s.

(** The piece of [s] after its last character that satisfies [p]:
    [s.rsplit(p).next()]. *)
Fixpoint rsplit_next (p : Z -> bool) (s : list Z) : list Z :=
  match s with
  | [] => []
  | c :: s' => if existsb p s' then rsplit_next p s' else if p c then s' else s
  end.

Fixpoint trim_start_matches (p : Z -> bool) (s : list Z) : list Z :=
  match s with
  | [] => []
  | c :: s' => if p c then trim_start_matches p s' else s
  end.
Definition trim_matches (p : Z -> bool) (s : list Z) : list Z :=
  reverse (trim_start_matches p (reverse (trim_start_matches p s))).

(** ** Decimal numbers *)

Fixpoint dec_digits (fuel : nat) (n : Z) : list Z :=
  match fuel with
  | O => []
  | S k => if n <? 10 then [48 + n] else dec_digits k (n / 10) ++ [48 + n mod 10]
  end.
(** [u64::to_string]: at most twenty digits. *)
Definition u64_to_string (n : Z) : list Z := dec_digits 20 n.

Definition is_digit (c : Z) : bool := in_range 48 57 c.

(** One turn of [u64::from_str_radix]: checked multiply and add. *)
Definition parse_digit (acc : option Z) (c : Z) : option Z :=
  match acc with
  | Some n =>
      if is_digit c
      then let n' := 10 * n + (c - 48) in if n' <=? U64_MAX then Some n' else None
      else None
  | None => None
  end.

(** [str::parse::<u64>]: an optional plus sign, at least one digit. *)
Definition parse_u64 (s : list Z) : option Z :=
  match s with
  | [] => None
  | c :: ds =>
      if c =? 43
      then match ds with [] => None | _ => fold_left parse_digit ds (Some 0) end
      else fold_left parse_digit s (Some 0)
  end.

(** ** Unix paths *)

(** The components of a path between its separators. *)
Fixpoint split_on (sep : Z) (cur : list Z) (s : list Z) : list (list Z) :=
  match s with
  | [] => [reverse cur]
  | c :: s' => if c =? sep then reverse cur :: split_on sep [] s' else split_on sep (c :: cur) s'
  end.

Definition path_is_absolute (s : list Z) : bool :=
  match s with c :: _ => c =? 47 | [] => false end.

(** The last component of a reversed component list, skipping empty and ["."]
    components; a leading ["."] of a relative path is a component of its own
    and has no file name. *)
Fixpoint last_component (rcomps : list (list Z)) : option (list Z) :=
  match rcomps with
  | [] => None
  | c :: rest =>
      if decide (c = [] \/ c = [46]) then last_component rest
      else if decide (c = [46; 46]) then None
      else Some c
  end.
(** [Path::file_name]. *)
Definition path_file_name (s : list Z) : option (list Z) :=
  last_component (reverse (split_on 47 [] s)).

(** ** Round trips *)

Ltac euclid := Z.to_euclidean_division_equations.

Lemma utf8_char_roundtrip c rest :
  is_scalar c -> from_utf8_lossy (utf8_encode_char c ++ rest) = c :: from_utf8_lossy rest.
Proof.
  unfold is_scalar, is_scalarb. intros Hc. unfold utf8_encode_char.
  destruct (Z.ltb_spec c 0x80); [|destruct (Z.ltb_spec c 0x800); [|destruct (Z.ltb_spec c 0x10000)]];
    cbn [app from_utf8_lossy].
  - replace (utf8_char_width c =? 1) with true; [done|].
    unfold utf8_char_width. replace (c <? 128) with true by lia. done.
  - assert (Hw : utf8_char_width (192 + c / 64) = 2).
    { unfold utf8_char_width, in_range. euclid.
      replace (192 + q <? 128) with false by lia.
      replace ((194 <=? 192 + q) && (192 + q <=? 223)) with true by lia. done. }
    rewrite Hw. cbn [Z.eqb Pos.eqb].
    replace (is_cont (128 + c mod 64)) with true by (unfold is_cont; euclid; lia).
    f_equal. euclid; lia.
  - assert (Hw : utf8_char_width (224 + c / 4096) = 3).
    { unfold utf8_char_width, in_range. euclid.
      replace (224 + q <? 128) with false by lia.
      replace ((194 <=? 224 + q) && (224 + q <=? 223)) with false by lia.
      replace ((224 <=? 224 + q) && (224 + q <=? 239)) with true by lia. done. }
    rewrite Hw. cbn [Z.eqb Pos.eqb].
    replace (second_of_three (224 + c / 4096) (128 + (c / 64) mod 64)) with true.
    2: { unfold second_of_three, in_range.
         destruct (Z.eqb_spec (224 + c / 4096) 224); [|destruct (Z.eqb_spec (224 + c / 4096) 237)];
           euclid; lia. }
    replace (is_cont (128 + c mod 64)) with true by (unfold is_cont; euclid; lia).
    f_equal. euclid; lia.
  - assert (Hw : utf8_char_width (240 + c / 262144) = 4).
    { unfold utf8_char_width, in_range. euclid.
      replace (240 + q <? 128) with false by lia.
      replace ((194 <=? 240 + q) && (240 + q <=? 223)) with false by lia.
      replace ((224 <=? 240 + q) && (240 + q <=? 239)) with false by lia.
      replace ((240 <=? 240 + q) && (240 + q <=? 244)) with true by lia. done. }
    rewrite Hw. cbn [Z.eqb Pos.eqb].
    replace (second_of_four (240 + c / 262144) (128 + (c / 4096) mod 64)) with true.
    2: { unfold second_of_four, in_range.
         destruct (Z.eqb_spec (240 + c / 262144) 240); [|destruct (Z.eqb_spec (240 + c / 262144) 244)];
           euclid; lia. }
    replace (is_cont (128 + (c / 64) mod 64)) with true by (unfold is_cont; euclid; lia).
    replace (is_cont (128 + c mod 64)) with true by (unfold is_cont; euclid; lia).
    f_equal. euclid; lia.
Qed.

Lemma utf8_app_roundtrip s rest :
  str_ok s -> from_utf8_lossy (utf8_encode s ++ rest) = s ++ from_utf8_lossy rest.
Proof.
  unfold utf8_encode. induction s as [|c s IH]; intros Hs; [done|]. inversion_clear Hs.
  cbn [map concat]. rewrite <-app_assoc, utf8_char_roundtrip by done. by rewrite IH.
Qed.

Lemma utf8_roundtrip s : str_ok s -> from_utf8_lossy (utf8_encode s) = s.
Proof.
  intros Hs. rewrite <-(app_nil_r (utf8_encode s)), utf8_app_roundtrip by done.
  apply app_nil_r.
Qed.

Lemma utf8_encode_char_ok c : is_scalar c -> bytes_ok (utf8_encode_char c).
Proof.
  unfold is_scalar, is_scalarb. intros Hc. unfold utf8_encode_char, in_width.
  destruct (Z.ltb_spec c 0x80); [|destruct (Z.ltb_spec c 0x800); [|destruct (Z.ltb_spec c 0x10000)]];
    repeat constructor; euclid; lia.
Qed.

Lemma utf8_encode_app s t : utf8_encode (s ++ t) = utf8_encode s ++ utf8_encode t.
Proof. unfold utf8_encode. by rewrite map_app, concat_app. Qed.

Lemma utf8_encode_ok s : str_ok s -> bytes_ok (utf8_encode s).
Proof.
  induction s as [|c s IH]; intros Hs; [constructor|]. inversion_clear Hs.
  change (c :: s) with ([c] ++ s). rewrite utf8_encode_app. apply Forall_app. split; [|by apply IH].
  unfold utf8_encode. simpl. rewrite app_nil_r. by apply utf8_encode_char_ok.
Qed.

(** The bytes of a character above U+0000 are all above zero. *)
Lemma utf8_encode_char_pos c : is_scalar c -> c <> 0 -> Forall (fun b => b <> 0) (utf8_encode_char c).
Proof.
  unfold is_scalar, is_scalarb. intros Hc Hne. unfold utf8_encode_char.
  destruct (Z.ltb_spec c 0x80); [|destruct (Z.ltb_spec c 0x800); [|destruct (Z.ltb_spec c 0x10000)]];
    repeat constructor; euclid; lia.
Qed.

Lemma utf8_encode_pos s :
  str_ok s -> Forall (fun c => c <> 0) s -> Forall (fun b => b <> 0) (utf8_encode s).
Proof.
  induction s as [|c s IH]; intros Hs Hn; [constructor|].
  inversion_clear Hs. inversion_clear Hn.
  change (c :: s) with ([c] ++ s). rewrite utf8_encode_app. apply Forall_app. split; [|by apply IH].
  unfold utf8_encode. simpl. rewrite app_nil_r. by apply utf8_encode_char_pos.
Qed.

(** ASCII text is its own encoding. *)
Lemma utf8_encode_not_empty s : str_ok s -> s <> [] -> zlen (utf8_encode s) <> 0.
Proof.
  intros Hs Hne. destruct s as [|c s]; [done|]. inversion_clear Hs.
  change (c :: s) with ([c] ++ s). rewrite utf8_encode_app, zlen_app.
  pose proof (zlen_nonneg (utf8_encode s)). unfold utf8_encode at 1. simpl. rewrite app_nil_r.
  unfold utf8_encode_char, zlen. repeat case_match; simpl; lia.
Qed.

Lemma utf8_encode_ascii s : Forall (fun c => 0 <= c < 128) s -> utf8_encode s = s.
Proof.
  induction 1 as [|c s Hc Hs IH]; [done|]. change (c :: s) with ([c] ++ s).
  rewrite utf8_encode_app, IH. f_equal. unfold utf8_encode, utf8_encode_char. simpl.
  by replace (c <? 128) with true by lia.
Qed.

Lemma ascii_scalar s : Forall (fun c => 0 <= c < 128) s -> str_ok s.
Proof. intros H. eapply Forall_impl; [|exact H]. intros c Hc. unfold is_scalar, is_scalarb. simpl in Hc. lia. Qed.

Lemma from_utf8_lossy_ascii s :
  Forall (fun c => 0 <= c < 128) s -> from_utf8_lossy s = s.
Proof.
  intros H. rewrite <-(utf8_encode_ascii s H) at 1. by apply utf8_roundtrip, ascii_scalar.
Qed.

Lemma dec_digits_range fuel n : 0 <= n -> Forall (fun c => 48 <= c <= 57) (dec_digits fuel n).
Proof.
  revert n. induction fuel as [|k IH]; intros n Hn; [constructor|]. cbn [dec_digits].
  destruct (Z.ltb_spec n 10).
  - repeat constructor; lia.
  - apply Forall_app. split; [apply IH; apply Z.div_pos; lia|]. repeat constructor; euclid; lia.
Qed.

Lemma dec_digits_not_nil k n : dec_digits (S k) n <> [].
Proof. cbn [dec_digits]. destruct (n <? 10); [done|]. by destruct (dec_digits k (n / 10)). Qed.

Lemma dec_digits_parse fuel n :
  0 <= n <= U64_MAX -> n < 10 ^ Z.of_nat fuel ->
  fold_left parse_digit (dec_digits fuel n) (Some 0) = Some n.
Proof.
  revert n. induction fuel as [|k IH]; intros n Hn Hlt; [simpl in *; f_equal; lia|].
  cbn [dec_digits]. destruct (Z.ltb_spec n 10).
  - unfold fold_left, parse_digit, is_digit, in_range.
    replace ((48 <=? 48 + n) && (48 + n <=? 57)) with true by lia.
    replace (10 * 0 + (48 + n - 48) <=? U64_MAX) with true by lia. f_equal. lia.
  - rewrite fold_left_app, IH.
    + unfold fold_left, parse_digit, is_digit, in_range.
      replace ((48 <=? 48 + n mod 10) && (48 + n mod 10 <=? 57)) with true by (euclid; lia).
      replace (10 * (n / 10) + (48 + n mod 10 - 48)) with n by (euclid; lia).
      replace (n <=? U64_MAX) with true by lia. done.
    + unfold U64_MAX in *. euclid; lia.
    + rewrite Nat2Z.inj_succ, Z.pow_succ_r in Hlt by lia. apply Z.div_lt_upper_bound; lia.
Qed.

Lemma u64_to_string_roundtrip n : is_u64 n -> parse_u64 (u64_to_string n) = Some n.
Proof.
  intros [Hn0 Hn1].
  assert (Hp : fold_left parse_digit (u64_to_string n) (Some 0) = Some n).
  { apply dec_digits_parse; [unfold U64_MAX; lia|]. simpl. lia. }
  assert (Hr : Forall (fun c => 48 <= c <= 57) (u64_to_string n)) by (by apply dec_digits_range).
  assert (Hne : u64_to_string n <> []).
  { apply dec_digits_not_nil. }
  destruct (u64_to_string n) as [|d ds]; [done|]. inversion_clear Hr.
  unfold parse_u64. by replace (d =? 43) with false by lia.
Qed.

Lemma parse_digits_range s acc n :
  (forall a, acc = Some a -> is_u64 a) -> fold_left parse_digit s acc = Some n -> is_u64 n.
Proof.
  revert acc. induction s as [|c s IH]; intros acc Ha; simpl; [auto|]. apply IH.
  intros a. unfold parse_digit. destruct acc as [m|]; [|done]. destruct (is_digit c) eqn:Hc; [|done].
  destruct (Z.leb_spec (10 * m + (c - 48)) U64_MAX); [|done]. intros [= <-].
  unfold is_digit, in_range in Hc. destruct (Ha m eq_refl). unfold in_width, U64_MAX in *. lia.
Qed.

Lemma parse_u64_range s n : parse_u64 s = Some n -> is_u64 n.
Proof.
  assert (H0 : forall a : Z, Some 0 = Some a -> is_u64 a) by (intros a [= <-]; unfold in_width; lia).
  unfold parse_u64. destruct s as [|c [|c' ds]]; [done| |];
    destruct (c =? 43); try done; by apply parse_digits_range.
Qed.

Lemma split_whitespace_word s :
  Forall (fun c => is_whitespace c = false) s -> s <> [] -> split_whitespace s = [s].
Proof.
  intros Hs Hne. unfold split_whitespace.
  assert (Haux : forall cur, split_whitespace_aux cur s
            = match reverse s ++ cur with [] => [] | l => [reverse l] end).
  { clear Hne. induction Hs as [|c s Hc _ IH]; intros cur; simpl; [by destruct cur|].
    rewrite Hc, IH, reverse_cons, <-app_assoc. done. }
  rewrite Haux, app_nil_r. destruct (reverse s) as [|c l] eqn:Hr.
  - apply (f_equal reverse) in Hr. rewrite reverse_involutive in Hr. done.
  - by rewrite <-Hr, reverse_involutive.
Qed.

Lemma u64_to_string_word n : is_u64 n -> split_whitespace (u64_to_string n) = [u64_to_string n].
Proof.
  intros [Hn _]. apply split_whitespace_word.
  - eapply Forall_impl; [|by apply dec_digits_range]. simpl. intros c Hc.
    unfold is_whitespace, in_range. lia.
  - apply dec_digits_not_nil.
Qed.

Lemma from_utf8_lossy_not_nil l : l <> [] -> from_utf8_lossy l <> [].
Proof. destruct l as [|b l]; [done|]. intros _. cbn [from_utf8_lossy]. repeat case_match; done. Qed.

(** A name without a separator is its own file name, unless it is a dot name. *)
Lemma path_file_name_plain s :
  Forall (fun c => c <> 47) s -> s <> [] -> s <> [46] -> s <> [46; 46] -> path_file_name s = Some s.
Proof.
  intros Hs H0 H1 H2. unfold path_file_name.
  assert (Hsplit : forall cur, split_on 47 cur s = [reverse cur ++ s]).
  { clear H0 H1 H2. induction Hs as [|c s Hc _ IH]; intros cur; simpl; [by rewrite app_nil_r|].
    rewrite (proj2 (Z.eqb_neq c 47)) by done. by rewrite IH, reverse_cons, <-app_assoc. }
  rewrite Hsplit. change (reverse [reverse [] ++ s]) with [s]. unfold last_component.
  destruct (decide (s = [] \/ s = [46])) as [[?|?]|]; [done..|]. by destruct (decide (s = [46; 46])).
Qed.
