(* ===== verification/ModemIo.v ===== *)
(** * Errors and byte transports of the modem crate

    Model of [error.rs] and [io.rs] of [crates/hapcli-modem-transfer/src]: the
    two error enums, the [ModemIo] trait as a type class, and the in-memory
    transport [MemoryModemIo].  The file also models what the transfer
    functions use of [std::io]: [Read] over a byte slice, a seekable cursor
    and [Read::take], and [Write] into a file that a caller opens. *)
From S2P Require Import Prelude.
From stdpp Require Import prelude list numbers.
Open Scope Z_scope.

(** ** Errors *)

Inductive ModemError : Type :=
| Incomplete
| InvalidMarker
| InvalidFrameType
| InvalidFrameEncoding
| InvalidBlockNumber
| InvalidChecksum
| InvalidCrc
| InvalidLength
| InvalidEscape
| InvalidFileName.

(** An error of the operating system, by its code. *)
Definition io_error : Type := Z.

Inductive ModemTransferError : Type :=
| Protocol (e : ModemError)
| Io (e : io_error)
| Timeout
| Cancelled
| UnexpectedByte (b : Z)
| UnexpectedFrame
| UnsupportedFileSize (n : Z)
| InputBufferOverflow (n : Z).

#[export] Instance ModemError_eq_dec : EqDecision ModemError.
Proof. solve_decision. Defined.
#[export] Instance ModemTransferError_eq_dec : EqDecision ModemTransferError.
Proof. solve_decision. Defined.

Abbreviation IO := (M ModemTransferError).

(** [?] on a [Result<_, ModemError>] inside a transfer function. *)
Definition protocol {S A} (r : result ModemError A) : IO S A := lift (map_err Protocol r).

(** ** The transport interface *)

(** [trait ModemIo]; a timeout is a number of seconds. *)
Class ModemIo (I : Type) := {
  read_byte : Z -> IO I Z;
  write_all : list Z -> IO I unit
}.

Record MemoryModemIo := mkMemoryModemIo {
  input : list Z;
  output : list Z
}.

Definition with_input (l : list Z) : MemoryModemIo := mkMemoryModemIo l [].

Definition push_input (bytes : list Z) (io : MemoryModemIo) : MemoryModemIo :=
  mkMemoryModemIo (input io ++ bytes) (output io).

Definition take_output (io : MemoryModemIo) : list Z * MemoryModemIo :=
  (output io, mkMemoryModemIo (input io) []).

Definition memory_read_byte (_timeout : Z) : IO MemoryModemIo Z :=
  fun io => match input io with
            | b :: rest => Some (Ok b, mkMemoryModemIo rest (output io))
            | [] => Some (Err Timeout, io)
            end.

Definition memory_write_all (bytes : list Z) : IO MemoryModemIo unit :=
  fun io => Some (Ok tt, mkMemoryModemIo (input io) (output io ++ bytes)).

#[export] Instance MemoryModemIo_io : ModemIo MemoryModemIo := {
  read_byte := memory_read_byte;
  write_all := memory_write_all
}.

(** ** [std::io] *)

(** [Read::read] into a buffer of [n] bytes gives the bytes it stored. *)
Class Read (R : Type) := { read : Z -> IO R (list Z) }.
(** [Seek::seek] to an offset from the start. *)
Class Seek (R : Type) := { seek : Z -> IO R unit }.

(** [&[u8]]. *)
Definition slice_read (n : Z) : IO (list Z) (list Z) :=
  fun l => Some (Ok (ztake n l), zdrop n l).
#[export] Instance slice_Read : Read (list Z) := { read := slice_read }.

(** [Cursor<&[u8]>]: the bytes and the position. *)
Record Cursor := mkCursor { cur_bytes : list Z; cur_pos : Z }.
Definition cursor_read (n : Z) : IO Cursor (list Z) :=
  fun c => let got := ztake n (zdrop (cur_pos c) (cur_bytes c)) in
           Some (Ok got, mkCursor (cur_bytes c) (cur_pos c + zlen got)).
Definition cursor_seek (pos : Z) : IO Cursor unit :=
  fun c => Some (Ok tt, mkCursor (cur_bytes c) pos).
#[export] Instance cursor_Read : Read Cursor := { read := cursor_read }.
#[export] Instance cursor_Seek : Seek Cursor := { seek := cursor_seek }.

(** [Read::take]: a reader and the number of bytes it may still give. *)
Definition take_read {R} `{Read R} (n : Z) : IO (R * Z) (list Z) :=
  fun '(r, limit) =>
    if limit =? 0 then Some (Ok [], (r, limit))
    else match read (Z.min n limit) r with
         | Some (Ok l, r') => Some (Ok l, (r', limit - zlen l))
         | Some (Err e, r') => Some (Err e, (r', limit))
         | None => None
         end.
#[export] Instance take_Read {R} `{Read R} : Read (R * Z) := { read := take_read }.

(** [Write]: a handle [W] into a store [F] of files. *)
Class Write (F W : Type) := {
  writer_write_all : W -> list Z -> IO F unit;
  writer_flush : W -> IO F unit
}.

(** A store that keeps every file a transfer opened, in order, under the name
    it was opened with; a handle is the file's index. *)
Abbreviation FileStore := (list (list Z * list Z)).
Definition store_write (w : nat) (bytes : list Z) : IO FileStore unit :=
  fun fs => Some (Ok tt, alter (fun f => (f.1, f.2 ++ bytes)) w fs).
Definition store_flush (_ : nat) : IO FileStore unit := ret tt.
#[export] Instance FileStore_Write : Write FileStore nat := {
  writer_write_all := store_write;
  writer_flush := store_flush
}.
Definition store_open (name : list Z) : IO FileStore nat :=
  fun fs => Some (Ok (length fs), fs ++ [(name, [])]).

(** ** Running the in-memory transport *)

Lemma read_byte_cons t b l o :
  read_byte t (mkMemoryModemIo (b :: l) o) = Some (Ok b, mkMemoryModemIo l o).
Proof. reflexivity. Qed.

Lemma read_byte_nil t o :
  read_byte t (mkMemoryModemIo [] o) = Some (Err Timeout, mkMemoryModemIo [] o).
Proof. reflexivity. Qed.

Lemma write_all_run l i o :
  write_all l (mkMemoryModemIo i o) = Some (Ok tt, mkMemoryModemIo i (o ++ l)).
Proof. reflexivity. Qed.

Lemma wp_read_byte t Q (io : MemoryModemIo) :
  (forall b l, input io = b :: l -> Q (Ok b) (mkMemoryModemIo l (output io))) ->
  (input io = [] -> Q (Err Timeout) io) -> wp (read_byte t) Q io.
Proof. destruct io as [[|b l] o]; intros H1 H2; [by apply H2|by apply H1]. Qed.

Lemma eats_read_byte N t : eats N input (read_byte t).
Proof.
  intros io _. apply wp_read_byte; simpl.
  - intros b l ->. simpl. split; [by apply suffix_cons_r|lia].
  - intros _. done.
Qed.

Lemma tame_write_all N l : tame N input (write_all l).
Proof. intros [i o] _. unfold wp, write_all. simpl. done. Qed.

Lemma tame_protocol {S A} N (rest : S -> list Z) (r : result ModemError A) : tame N rest (protocol r).
Proof. apply tame_lift. Qed.
#[export] Hint Resolve eats_read_byte tame_write_all tame_protocol : tame.
#[export] Hint Extern 1 (tame _ _ (read_byte _)) => apply eats_tame, eats_read_byte : tame.

Lemma store_write_last name bytes more fs :
  store_write (length fs) more (fs ++ [(name, bytes)])
  = Some (Ok tt, fs ++ [(name, bytes ++ more)]).
Proof.
  unfold store_write. f_equal. f_equal.
  rewrite alter_app_r_alt by lia. rewrite Nat.sub_diag. reflexivity.
Qed.

(** ** Lawful readers *)

(** What the transfers rely on of [Read]: a reader stands for a byte string,
    and [read n] gives a prefix of it of at most [n] bytes, empty only at the
    end of the input.  Short reads are allowed. *)
Class LawfulReader (R : Type) `{Read R} := {
  stands_for : R -> list Z -> Prop;
  read_prefix n r l : 0 < n -> stands_for r l ->
    exists got rest r', read n r = Some (Ok got, r') /\ stands_for r' rest /\ l = got ++ rest
      /\ zlen got <= n /\ (got = [] -> l = [])
}.

Lemma ztake_zdrop {A} n (l : list A) : ztake n l ++ zdrop n l = l.
Proof. apply take_drop. Qed.

Lemma zlen_ztake_le {A} n (l : list A) : 0 <= n -> zlen (ztake n l) <= n.
Proof. unfold zlen, ztake. rewrite length_take. lia. Qed.

Lemma ztake_nil_inv {A} n (l : list A) : 0 < n -> ztake n l = [] -> l = [].
Proof. intros Hn H. unfold ztake in H. destruct l; [done|]. destruct (Z.to_nat n) eqn:E; [lia|done]. Qed.

#[export] Program Instance slice_Lawful : LawfulReader (list Z) := { stands_for := eq }.
Next Obligation.
  intros n r l Hn <-. exists (ztake n r), (zdrop n r), (zdrop n r).
  split_and!; [done|done|by rewrite ztake_zdrop|apply zlen_ztake_le; lia|by apply ztake_nil_inv].
Qed.

#[export] Program Instance cursor_Lawful : LawfulReader Cursor :=
  { stands_for c l := 0 <= cur_pos c /\ zdrop (cur_pos c) (cur_bytes c) = l }.
Next Obligation.
  intros n c l Hn [Hp <-]. set (l := zdrop (cur_pos c) (cur_bytes c)).
  exists (ztake n l), (zdrop n l). eexists. split_and!; [reflexivity| | | | |].
  - cbn [cur_pos]. match goal with |- _ <= _ + zlen ?x => pose proof (zlen_nonneg x) end. lia.
  - cbn [cur_pos cur_bytes]. subst l. unfold zdrop, ztake, zlen. rewrite drop_drop, length_take, length_drop.
    destruct (Nat.le_ge_cases (Z.to_nat n) (length (cur_bytes c) - Z.to_nat (cur_pos c))) as [Hle|Hge].
    + f_equal. lia.
    + rewrite !drop_ge; [done|lia|lia].
  - by rewrite ztake_zdrop.
  - apply zlen_ztake_le. lia.
  - by apply ztake_nil_inv.
Qed.

#[export] Program Instance take_Lawful {R} `{LawfulReader R} : LawfulReader (R * Z) :=
  { stands_for '(r, limit) l := 0 <= limit /\ exists l', stands_for r l' /\ l = ztake limit l' }.
Next Obligation.
  intros R ? ? n [r limit] l Hn (Hl & l' & Hr & ->). unfold read, take_Read, take_read.
  destruct (Z.eqb_spec limit 0) as [->|].
  { exists [], [], (r, 0). split_and!; try done.
    - by exists l'.
    - rewrite zlen_nil. lia. }
  destruct (read_prefix (Z.min n limit) r l') as (got & rest & r' & Hread & Hr' & -> & Hlen & Hne);
    [lia|done|].
  rewrite Hread. exists got, (ztake (limit - zlen got) rest), (r', limit - zlen got).
  split_and!; [done|lia|by exists rest| |lia|].
  - unfold ztake. rewrite take_app_ge by (unfold zlen in Hlen; lia). f_equal.
    f_equal. unfold zlen. lia.
  - intros ->. specialize (Hne eq_refl). rewrite Hne. unfold ztake. by destruct (Z.to_nat limit).
Qed.

(** A file that can be sought and read from there. *)
Class LawfulFile (R : Type) `{LawfulReader R} `{Seek R} := {
  contents : R -> list Z -> Prop;
  seek_contents pos r l : 0 <= pos -> contents r l ->
    exists r', seek pos r = Some (Ok tt, r') /\ contents r' l /\ stands_for r' (zdrop pos l)
}.

#[export] Program Instance cursor_File : LawfulFile Cursor := { contents c l := cur_bytes c = l }.
Next Obligation. intros pos c l Hp <-. eexists. by split_and!. Qed.
