(* ===== verification/Xymodem.v ===== *)
(** * XMODEM and YMODEM blocks

    Model of [crates/hapcli-modem-transfer/src/xymodem.rs]: 128- and 1024-byte
    blocks with a CRC-16 or an 8-bit checksum, and the YMODEM block-zero header
    that carries a file's name and size. *)
From S2P Require Import Prelude Text Crc ModemIo.
From stdpp Require Import prelude list numbers.
Open Scope Z_scope.

(** ** Definitions *)

Definition SOH : Z := 0x01.
Definition STX : Z := 0x02.
Definition EOT : Z := 0x04.
Definition ACK : Z := 0x06.
Definition NAK : Z := 0x15.
Definition CAN : Z := 0x18.
Definition WANT_CRC : Z := 67.
Definition CPMEOF : Z := 0x1a.

Inductive XyBlockSize : Type := Bytes128 | Bytes1024.

Definition XyBlockSize_len (s : XyBlockSize) : Z :=
  match s with Bytes128 => 128 | Bytes1024 => 1024 end.
Definition XyBlockSize_marker (s : XyBlockSize) : Z :=
  match s with Bytes128 => SOH | Bytes1024 => STX end.
Definition XyBlockSize_from_marker (marker : Z) : option XyBlockSize :=
  if marker =? SOH then Some Bytes128
  else if marker =? STX then Some Bytes1024
  else None.

Record XyBlock := mkXyBlock {
  xb_number : Z;
  xb_size : XyBlockSize;
  xb_payload : list Z
}.

(** [dst[off..off + src.len()].copy_from_slice(src)]. *)
Definition copy_at (off : Z) (src dst : list Z) : list Z :=
  ztake off dst ++ src ++ zdrop (off + zlen src) dst.

Definition XyBlock_new (number : Z) (size : XyBlockSize) (payload : list Z)
    : result ModemError XyBlock :=
  if XyBlockSize_len size <? zlen payload then Err InvalidLength
  else
    let padded := replicate (Z.to_nat (XyBlockSize_len size)) CPMEOF in
    Ok (mkXyBlock number size (copy_at 0 payload padded)).

Definition encode_crc (b : XyBlock) : list Z :=
  let crc := crc16_xmodem (xb_payload b) in
  [XyBlockSize_marker (xb_size b); xb_number b; bitnot 8 (xb_number b)]
  ++ xb_payload b ++ u16_to_be crc.

(** [fold(0u8, wrapping_add)]. *)
Definition checksum (payload : list Z) : Z :=
  fold_left (fun sum byte => wrap 8 (sum + byte)) payload 0.

Definition encode_checksum (b : XyBlock) : list Z :=
  [XyBlockSize_marker (xb_size b); xb_number b; bitnot 8 (xb_number b)]
  ++ xb_payload b ++ [checksum (xb_payload b)].

Definition byte_at (l : list Z) (i : Z) : Z := nth (Z.to_nat i) l 0.

Definition parse_crc (bytes : list Z) : result ModemError XyBlock :=
  if zlen bytes <? 3 then Err Incomplete
  else
    let? size := ok_or (XyBlockSize_from_marker (byte_at bytes 0)) InvalidMarker in
    let expected_len := 3 + XyBlockSize_len size + 2 in
    if zlen bytes <? expected_len then Err Incomplete
    else if negb (zlen bytes =? expected_len) then Err InvalidLength
    else
      let number := byte_at bytes 1 in
      if negb (wrap 8 (number + byte_at bytes 2) =? 0xff) then Err InvalidBlockNumber
      else
        let payload := ztake (XyBlockSize_len size) (zdrop 3 bytes) in
        let received_crc := u16_from_be (byte_at bytes (3 + XyBlockSize_len size))
                                        (byte_at bytes (3 + XyBlockSize_len size + 1)) in
        if negb (crc16_xmodem payload =? received_crc) then Err InvalidCrc
        else Ok (mkXyBlock number size payload).

Definition parse_checksum (bytes : list Z) : result ModemError XyBlock :=
  if zlen bytes <? 3 then Err Incomplete
  else
    let? size := ok_or (XyBlockSize_from_marker (byte_at bytes 0)) InvalidMarker in
    let expected_len := 3 + XyBlockSize_len size + 1 in
    if zlen bytes <? expected_len then Err Incomplete
    else if negb (zlen bytes =? expected_len) then Err InvalidLength
    else
      let number := byte_at bytes 1 in
      if negb (wrap 8 (number + byte_at bytes 2) =? 0xff) then Err InvalidBlockNumber
      else
        let payload := ztake (XyBlockSize_len size) (zdrop 3 bytes) in
        if negb (checksum payload =? byte_at bytes (3 + XyBlockSize_len size))
        then Err InvalidChecksum
        else Ok (mkXyBlock number size payload).

(** [iter().position(p)]. *)
Fixpoint position (p : Z -> bool) (l : list Z) : option Z :=
  match l with
  | [] => None
  | x :: l' => if p x then Some 0 else option_map (Z.add 1) (position p l')
  end.

Record YmodemFileHeader := mkYmodemFileHeader {
  yh_file_name : list Z;
  yh_file_size : option Z
}.

Definition is_slash (c : Z) : bool := (c =? 47) || (c =? 92).

Definition validate_ymodem_file_name (file_name : list Z) : result ModemError unit :=
  let is_plain_name := bool_decide (path_file_name file_name = Some file_name) in
  if bool_decide (file_name = []) || bool_decide (file_name = [46])
     || bool_decide (file_name = [46; 46]) || existsb is_slash file_name
     || path_is_absolute file_name || negb is_plain_name
  then Err InvalidFileName
  else Ok tt.

Definition YmodemFileHeader_new (file_name : list Z) (file_size : option Z)
    : result ModemError YmodemFileHeader :=
  let? _u := validate_ymodem_file_name file_name in
  Ok (mkYmodemFileHeader file_name file_size).

Definition encode_block0_payload (h : YmodemFileHeader) : result ModemError (list Z) :=
  let payload := replicate 128 0 in
  let name_bytes := utf8_encode (yh_file_name h) in
  if bool_decide (name_bytes = []) || (zlen payload <=? zlen name_bytes) then Err InvalidFileName
  else
    let payload := copy_at 0 name_bytes payload in
    match yh_file_size h with
    | Some file_size =>
        let size_text := u64_to_string file_size in
        let size_start := zlen name_bytes + 1 in
        let size_end := size_start + zlen size_text in
        if zlen payload <=? size_end then Err InvalidLength
        else Ok (copy_at size_start size_text payload)
    | None => Ok payload
    end.

Definition parse_block0_payload (payload : list Z)
    : result ModemError (option YmodemFileHeader) :=
  let? nul := ok_or (position (fun b => b =? 0) payload) InvalidLength in
  if nul =? 0 then Ok None
  else
    let file_name := from_utf8_lossy (ztake nul payload) in
    let? _u := validate_ymodem_file_name file_name in
    let metadata := zdrop (nul + 1) payload in
    let size_end := default (zlen metadata)
                      (position (fun b => (b =? 32) || (b =? 0)) metadata) in
    let? file_size :=
      if size_end =? 0 then Ok None
      else match parse_u64 (from_utf8_lossy (ztake size_end metadata)) with
           | Some n => Ok (Some n)
           | None => Err InvalidLength
           end in
    Ok (Some (mkYmodemFileHeader file_name file_size)).

(** A block as the constructor builds it. *)
Definition block_ok (b : XyBlock) : Prop :=
  is_u8 (xb_number b) /\ zlen (xb_payload b) = XyBlockSize_len (xb_size b) /\ bytes_ok (xb_payload b).

(** ** Lemmas *)

Lemma marker_roundtrip s : XyBlockSize_from_marker (XyBlockSize_marker s) = Some s.
Proof. by destruct s. Qed.

Lemma from_marker_inv m s : XyBlockSize_from_marker m = Some s -> m = XyBlockSize_marker s.
Proof.
  unfold XyBlockSize_from_marker. destruct (Z.eqb_spec m SOH); [by intros [= <-]|].
  destruct (Z.eqb_spec m STX); [by intros [= <-]|done].
Qed.

Lemma size_len_pos s : 128 <= XyBlockSize_len s <= 1024.
Proof. destruct s; simpl; lia. Qed.

Lemma byte_at_app_l l k i : 0 <= i < zlen l -> byte_at (l ++ k) i = byte_at l i.
Proof. intros H. unfold byte_at, zlen in *. apply app_nth1. lia. Qed.

Lemma byte_at_app_r l k i : zlen l <= i -> byte_at (l ++ k) i = byte_at k (i - zlen l).
Proof.
  intros H. unfold byte_at, zlen in *. rewrite app_nth2 by lia. f_equal. lia.
Qed.

Lemma byte_at_ok l i : bytes_ok l -> is_u8 (byte_at l i).
Proof.
  intros Hl. unfold byte_at. destruct (nth_in_or_default (Z.to_nat i) l 0) as [Hin| ->].
  - rewrite Forall_forall in Hl. by apply Hl.
  - unfold in_width. lia.
Qed.

Lemma complement_iff n c : is_u8 n -> is_u8 c -> wrap 8 (n + c) = 0xff <-> c = bitnot 8 n.
Proof.
  unfold in_width, wrap, bitnot. intros Hn Hc.
  change (2 ^ 8) with 256 in *. euclid; lia.
Qed.

Lemma checksum_width l : is_u8 (checksum l).
Proof.
  unfold checksum. assert (H : is_u8 0) by (unfold in_width; lia). revert H. generalize 0.
  induction l as [|b l IH]; intros z Hz; [done|]. cbn [fold_left]. apply IH, in_width_wrap. lia.
Qed.

(** The common shape of an encoded block. *)
Lemma parse_frame m n c p t :
  zlen p = 1024 \/ zlen p = 128 ->
  let bytes := [m; n; c] ++ p ++ t in
  byte_at bytes 0 = m /\ byte_at bytes 1 = n /\ byte_at bytes 2 = c
  /\ ztake (zlen p) (zdrop 3 bytes) = p
  /\ (forall i, 0 <= i -> byte_at bytes (3 + zlen p + i) = byte_at t i)
  /\ zlen bytes = 3 + zlen p + zlen t.
Proof.
  intros Hp bytes. subst bytes. repeat split.
  - rewrite (zdrop_app [m; n; c]) by done. by apply ztake_app.
  - intros i Hi. rewrite byte_at_app_r by (unfold zlen; simpl; lia).
    rewrite byte_at_app_r by (unfold zlen in *; simpl in *; lia). f_equal. unfold zlen. simpl. lia.
  - autorewrite with zlen. lia.
Qed.

(** A received frame is its three leading bytes, its payload and its check
    bytes. *)
Lemma frame_split bytes k t :
  0 <= k -> zlen bytes = 3 + k + t ->  0 <= t ->
  bytes = [byte_at bytes 0; byte_at bytes 1; byte_at bytes 2]
          ++ ztake k (zdrop 3 bytes) ++ zdrop (3 + k) bytes.
Proof.
  intros Hk Hlen Ht. destruct bytes as [|m [|n [|c r]]].
  1-3: unfold zlen in Hlen; simpl in Hlen; lia.
  unfold byte_at. simpl. do 3 f_equal. unfold ztake, zdrop.
  change (Z.to_nat 3) with 3%nat. simpl.
  replace (Z.to_nat (3 + k)) with (3 + Z.to_nat k)%nat by lia. simpl. by rewrite take_drop.
Qed.

Lemma zlen_ztake {A} n (l : list A) : 0 <= n <= zlen l -> zlen (ztake n l) = n.
Proof. unfold zlen, ztake. intros. rewrite length_take. lia. Qed.
Lemma zlen_zdrop {A} n (l : list A) : 0 <= n <= zlen l -> zlen (zdrop n l) = zlen l - n.
Proof. unfold zlen, zdrop. intros. rewrite length_drop. lia. Qed.

Lemma zdrop_nil {A} n (l : list A) : zlen l <= n -> zdrop n l = [].
Proof. unfold zlen, zdrop. intros. apply drop_ge. lia. Qed.

Lemma zdrop_cons l i : 0 <= i < zlen l -> zdrop i l = byte_at l i :: zdrop (i + 1) l.
Proof.
  unfold zlen, zdrop, byte_at. intros H. replace (Z.to_nat (i + 1)) with (S (Z.to_nat i)) by lia.
  destruct (lookup_lt_is_Some_2 l (Z.to_nat i)) as [x Hx]; [lia|].
  rewrite nth_lookup, Hx. by apply drop_S.
Qed.

Lemma zdrop_2 l i : 0 <= i -> zlen l = i + 2 -> zdrop i l = [byte_at l i; byte_at l (i + 1)].
Proof. intros Hi H. rewrite !zdrop_cons by lia. rewrite zdrop_nil by lia. done. Qed.

Lemma zdrop_1 l i : 0 <= i -> zlen l = i + 1 -> zdrop i l = [byte_at l i].
Proof. intros Hi H. rewrite zdrop_cons by lia. rewrite zdrop_nil by lia. done. Qed.

Lemma bytes_ok_ztake n l : bytes_ok l -> bytes_ok (ztake n l).
Proof. apply Forall_take. Qed.
Lemma bytes_ok_zdrop n l : bytes_ok l -> bytes_ok (zdrop n l).
Proof. apply Forall_drop. Qed.
#[export] Hint Resolve bytes_ok_ztake bytes_ok_zdrop byte_at_ok checksum_width : bytes.

(** A parsed frame: what acceptance by [parse_crc] says of the bytes. *)
Lemma parse_crc_inv bytes b :
  bytes_ok bytes -> parse_crc bytes = Ok b -> block_ok b /\ encode_crc b = bytes.
Proof.
  intros Hb. unfold parse_crc. destruct (Z.ltb_spec (zlen bytes) 3); [done|].
  destruct (XyBlockSize_from_marker (byte_at bytes 0)) as [size|] eqn:Hm; [|done]. simpl.
  pose proof (size_len_pos size). apply from_marker_inv in Hm.
  destruct (Z.ltb_spec (zlen bytes) (3 + XyBlockSize_len size + 2)); [done|].
  destruct (Z.eqb_spec (zlen bytes) (3 + XyBlockSize_len size + 2)) as [Hlen|]; [|done]. simpl.
  destruct (Z.eqb_spec (wrap 8 (byte_at bytes 1 + byte_at bytes 2)) 255) as [Hc|]; [|done]. simpl.
  apply complement_iff in Hc; [|auto with bytes..].
  set (p := ztake (XyBlockSize_len size) (zdrop 3 bytes)).
  destruct (Z.eqb_spec (crc16_xmodem p) (u16_from_be (byte_at bytes (3 + XyBlockSize_len size))
    (byte_at bytes (3 + XyBlockSize_len size + 1)))) as [Hcrc|]; [|done]. simpl. intros [= <-].
  assert (Hp : zlen p = XyBlockSize_len size) by (apply zlen_ztake; rewrite zlen_zdrop; lia).
  assert (Hpok : bytes_ok p) by (subst p; auto with bytes).
  split; [split; [|split]; simpl; auto with bytes|].
  etransitivity; [|symmetry; apply (frame_split bytes (XyBlockSize_len size) 2); lia]. fold p.
  unfold encode_crc. simpl xb_size; simpl xb_number; simpl xb_payload.
  rewrite Hm, <-Hc, Hcrc, u16_from_be_to_be by auto with bytes.
  rewrite (zdrop_2 bytes (3 + XyBlockSize_len size)) by lia. reflexivity.
Qed.

Lemma parse_checksum_inv bytes b :
  bytes_ok bytes -> parse_checksum bytes = Ok b -> block_ok b /\ encode_checksum b = bytes.
Proof.
  intros Hb. unfold parse_checksum. destruct (Z.ltb_spec (zlen bytes) 3); [done|].
  destruct (XyBlockSize_from_marker (byte_at bytes 0)) as [size|] eqn:Hm; [|done]. simpl.
  pose proof (size_len_pos size). apply from_marker_inv in Hm.
  destruct (Z.ltb_spec (zlen bytes) (3 + XyBlockSize_len size + 1)); [done|].
  destruct (Z.eqb_spec (zlen bytes) (3 + XyBlockSize_len size + 1)) as [Hlen|]; [|done]. simpl.
  destruct (Z.eqb_spec (wrap 8 (byte_at bytes 1 + byte_at bytes 2)) 255) as [Hc|]; [|done]. simpl.
  apply complement_iff in Hc; [|auto with bytes..].
  set (p := ztake (XyBlockSize_len size) (zdrop 3 bytes)).
  destruct (Z.eqb_spec (checksum p) (byte_at bytes (3 + XyBlockSize_len size))) as [Hs|]; [|done].
  simpl. intros [= <-].
  assert (Hp : zlen p = XyBlockSize_len size) by (apply zlen_ztake; rewrite zlen_zdrop; lia).
  assert (Hpok : bytes_ok p) by (subst p; auto with bytes).
  split; [split; [|split]; simpl; auto with bytes|].
  etransitivity; [|symmetry; apply (frame_split bytes (XyBlockSize_len size) 1); lia]. fold p.
  unfold encode_checksum. simpl xb_size; simpl xb_number; simpl xb_payload.
  rewrite Hm, <-Hc, Hs. rewrite (zdrop_1 bytes (3 + XyBlockSize_len size)) by lia. reflexivity.
Qed.

Lemma block_len_cases b : block_ok b -> zlen (xb_payload b) = 1024 \/ zlen (xb_payload b) = 128.
Proof. intros (_ & -> & _). destruct (xb_size b); simpl; auto. Qed.

Lemma parse_encode_crc b : block_ok b -> parse_crc (encode_crc b) = Ok b.
Proof.
  intros Hok. pose proof (block_len_cases b Hok) as Hcase. destruct Hok as (Hn & Hlen & Hp).
  unfold encode_crc.
  destruct (parse_frame (XyBlockSize_marker (xb_size b)) (xb_number b) (bitnot 8 (xb_number b))
    (xb_payload b) (u16_to_be (crc16_xmodem (xb_payload b))) Hcase) as (H0 & H1 & H2 & H3 & H4 & H5).
  set (bytes := _ ++ _ ++ _) in *. change (zlen (u16_to_be _)) with 2 in H5.
  unfold parse_crc. rewrite H0, marker_roundtrip. cbn [ok_or result_bind].
  rewrite <-Hlen, H1, H2, H3, H5. pose proof (zlen_nonneg (xb_payload b)).
  replace (3 + zlen (xb_payload b) + 2 <? 3) with false by lia.
  rewrite Z.ltb_irrefl, Z.eqb_refl. cbn [negb].
  rewrite (proj2 (complement_iff _ _ Hn (in_width_bitnot 8 _ Hn)) eq_refl). cbn [Z.eqb Pos.eqb negb].
  rewrite <-(Z.add_0_r (3 + zlen _)) at 1. rewrite !H4 by lia.
  change (byte_at (u16_to_be ?x) 0) with (Z.shiftr x 8). change (byte_at (u16_to_be ?x) 1) with (wrap 8 x).
  rewrite u16_be_roundtrip by auto with bytes. rewrite Z.eqb_refl. by destruct b.
Qed.

Lemma parse_encode_checksum b : block_ok b -> parse_checksum (encode_checksum b) = Ok b.
Proof.
  intros Hok. pose proof (block_len_cases b Hok) as Hcase. destruct Hok as (Hn & Hlen & Hp).
  unfold encode_checksum.
  destruct (parse_frame (XyBlockSize_marker (xb_size b)) (xb_number b) (bitnot 8 (xb_number b))
    (xb_payload b) [checksum (xb_payload b)] Hcase) as (H0 & H1 & H2 & H3 & H4 & H5).
  set (bytes := _ ++ _ ++ _) in *. change (zlen [_]) with 1 in H5.
  unfold parse_checksum. rewrite H0, marker_roundtrip. cbn [ok_or result_bind].
  rewrite <-Hlen, H1, H2, H3, H5. pose proof (zlen_nonneg (xb_payload b)).
  replace (3 + zlen (xb_payload b) + 1 <? 3) with false by lia.
  rewrite Z.ltb_irrefl, Z.eqb_refl. cbn [negb].
  rewrite (proj2 (complement_iff _ _ Hn (in_width_bitnot 8 _ Hn)) eq_refl). cbn [Z.eqb Pos.eqb negb].
  rewrite <-(Z.add_0_r (3 + zlen _)). rewrite !H4 by lia.
  change (byte_at [?x] 0) with x. rewrite Z.eqb_refl. by destruct b.
Qed.

(** Two lists of the same length that differ in one element differ in one of
    their halves only. *)
Lemma one_change_app {A} (a a' t t' l1 l2 : list A) x y :
  a ++ t = l1 ++ x :: l2 -> a' ++ t' = l1 ++ y :: l2 ->
  length a = length a' ->
  (a = a' /\ exists k, t = k ++ x :: l2 /\ t' = k ++ y :: l2)
  \/ (t = t' /\ exists k, a = l1 ++ x :: k /\ a' = l1 ++ y :: k).
Proof.
  revert a a'. induction l1 as [|z l1 IH]; intros [|u a] [|u' a'] H H' Hlen; simpl in *;
    simplify_eq; try lia.
  - left. split; [done|]. by exists [].
  - right. assert (Heq : a' = a /\ t' = t) by (apply app_inj_1; [lia|done]).
    destruct Heq as [-> ->]. split; [done|]. by exists a.
  - left. split; [done|]. by exists (z :: l1).
  - destruct (IH a a') as [[-> Hk]|[-> (k & -> & ->)]]; [done|done|lia| |].
    + left. auto.
    + right. split; [done|]. by exists k.
Qed.

Lemma bitnot_inj w x y : bitnot w x = bitnot w y -> x = y.
Proof. unfold bitnot. lia. Qed.

Lemma encode_crc_length b : block_ok b -> zlen (encode_crc b) = XyBlockSize_len (xb_size b) + 5.
Proof.
  intros (_ & Hl & _). unfold encode_crc. autorewrite with zlen. rewrite Hl.
  unfold u16_to_be. autorewrite with zlen. lia.
Qed.

Lemma size_len_inj s s' : XyBlockSize_len s = XyBlockSize_len s' -> s = s'.
Proof. by destruct s, s'. Qed.

(** Two encoded blocks never differ in exactly one byte. *)
Lemma encode_crc_distance b b' l1 l2 x y :
  block_ok b -> block_ok b' ->
  encode_crc b = l1 ++ x :: l2 -> encode_crc b' = l1 ++ y :: l2 -> x = y.
Proof.
  intros Hok Hok' H H'.
  assert (Hs : xb_size b = xb_size b').
  { apply size_len_inj.
    assert (Hl : zlen (encode_crc b) = zlen (encode_crc b')).
    { rewrite H, H'. autorewrite with zlen. lia. }
    rewrite !encode_crc_length in Hl by done. lia. }
  destruct Hok as (Hn & Hlen & Hp), Hok' as (Hn' & Hlen' & Hp').
  unfold encode_crc in H, H'. rewrite Hs in H, Hlen. rewrite <-Hlen' in Hlen.
  destruct (one_change_app _ _ _ _ _ _ _ _ H H' eq_refl)
    as [[Ha (k & Ht & Ht')]|[Ht (k & Ha & Ha')]].
  - assert (Hpl : length (xb_payload b) = length (xb_payload b')) by (unfold zlen in Hlen; lia).
    destruct (one_change_app _ _ _ _ _ _ _ _ Ht Ht' Hpl) as [[Hpp (k' & Hk & Hk')]|[Hcrc (k' & Hk & Hk')]].
    + rewrite Hpp in Hk. rewrite Hk' in Hk. by apply app_inv_head in Hk; simplify_eq.
    + rewrite Hk, Hk' in Hcrc. unfold u16_to_be in Hcrc. injection Hcrc as Hh Hl.
      rewrite Hk in Hp. rewrite Hk' in Hp'. apply Forall_app in Hp as [_ Hp], Hp' as [_ Hp'].
      inversion_clear Hp. inversion_clear Hp'.
      apply (crc16_byte_detected k k'); [done..|].
      rewrite <-(u16_be_roundtrip (crc16_xmodem (k ++ x :: k'))), Hh, Hl by auto with bytes.
      by apply u16_be_roundtrip; auto with bytes.
  - destruct l1 as [|? [|? [|? l1]]]; simpl in *; simplify_eq; try done.
    + by eapply bitnot_inj.
    + congruence.
    + by destruct l1.
Qed.

(** ** YMODEM header lemmas *)

Lemma position_app p l x k :
  Forall (fun b => p b = false) l -> p x = true -> position p (l ++ x :: k) = Some (zlen l).
Proof.
  induction 1 as [|b l Hb Hl IH]; intros Hx; simpl; [by rewrite Hx|].
  rewrite Hb, IH by done. simpl. f_equal. by rewrite zlen_cons.
Qed.

Lemma position_none p l : Forall (fun b => p b = false) l -> position p l = None.
Proof. induction 1 as [|b l Hb Hl IH]; simpl; [done|]. by rewrite Hb, IH. Qed.

Lemma position_bound p l i : position p l = Some i -> 0 <= i < zlen l.
Proof.
  revert i. induction l as [|b l IH]; intros i; simpl; [done|]. destruct (p b).
  - intros [= <-]. rewrite zlen_cons. pose proof (zlen_nonneg l). lia.
  - destruct (position p l) as [j|]; [|done]. simpl. intros [= <-]. rewrite zlen_cons.
    specialize (IH j eq_refl). lia.
Qed.

Lemma copy_at_replicate off src (x : Z) n :
  0 <= off -> off + zlen src <= Z.of_nat n ->
  copy_at off src (replicate n x)
  = replicate (Z.to_nat off) x ++ src ++ replicate (n - Z.to_nat (off + zlen src)) x.
Proof.
  intros H0 H. unfold copy_at, ztake, zdrop. rewrite take_replicate, drop_replicate.
  do 2 f_equal. pose proof (zlen_nonneg src). lia.
Qed.

Lemma copy_at_app off src pre dst :
  off = zlen pre -> copy_at off src (pre ++ dst) = pre ++ copy_at 0 src dst.
Proof.
  intros ->. unfold copy_at. rewrite ztake_app by done. f_equal. unfold ztake, zdrop, zlen.
  simpl. f_equal. rewrite drop_app_ge by lia. f_equal. lia.
Qed.

Lemma digits_not_sep ds :
  Forall (fun c => 48 <= c <= 57) ds -> Forall (fun b => (b =? 32) || (b =? 0) = false) ds.
Proof. intros H. eapply Forall_impl; [|exact H]. intros c Hc; simpl in Hc. lia. Qed.

Lemma zdrop_past {A} (l : list A) x k : zdrop (zlen l + 1) (l ++ x :: k) = k.
Proof.
  change (x :: k) with ([x] ++ k). rewrite app_assoc. apply zdrop_app. by rewrite zlen_app.
Qed.

Lemma parse_block0_shape name meta :
  str_ok name -> name <> [] -> Forall (fun c => c <> 0) name ->
  parse_block0_payload (utf8_encode name ++ 0 :: meta)
  = (let? _u := validate_ymodem_file_name name in
     let size_end := default (zlen meta) (position (fun b => (b =? 32) || (b =? 0)) meta) in
     let? file_size :=
       if size_end =? 0 then Ok None
       else match parse_u64 (from_utf8_lossy (ztake size_end meta)) with
            | Some n => Ok (Some n)
            | None => Err InvalidLength
            end in
     Ok (Some (mkYmodemFileHeader name file_size))).
Proof.
  intros Hs Hne Hnz. unfold parse_block0_payload.
  rewrite position_app; [|eapply Forall_impl; [|by apply utf8_encode_pos]; simpl; lia|done].
  cbn [ok_or result_bind].
  pose proof (utf8_encode_not_empty name Hs Hne) as Hpos.
  destruct (Z.eqb_spec (zlen (utf8_encode name)) 0); [done|].
  rewrite ztake_app, utf8_roundtrip by done.
  by rewrite zdrop_past.
Qed.

Lemma encode_block0_shape h p :
  (forall n, yh_file_size h = Some n -> is_u64 n) ->
  encode_block0_payload h = Ok p ->
  exists meta, p = utf8_encode (yh_file_name h) ++ 0 :: meta /\ zlen p = 128
    /\ match yh_file_size h with
       | Some n => exists k, meta = u64_to_string n ++ 0 :: replicate k 0
       | None => exists k, meta = replicate k 0
       end.
Proof.
  intros Hn. unfold encode_block0_payload. set (nb := utf8_encode (yh_file_name h)).
  rewrite zlen_replicate. pose proof (zlen_nonneg nb) as Hnb.
  destruct (bool_decide (nb = []) || (Z.of_nat 128 <=? zlen nb)) eqn:Hg; [done|].
  apply orb_false_iff in Hg as [_ Hg]. apply Z.leb_gt in Hg.
  rewrite copy_at_replicate by lia. rewrite Z.add_0_l. simpl replicate at 1. cbn [app].
  assert (Hr : exists k, (128 - Z.to_nat (zlen nb))%nat = S k /\ Z.of_nat k = 127 - zlen nb).
  { exists (127 - Z.to_nat (zlen nb))%nat. lia. }
  destruct Hr as (k & Hk & Hkz). rewrite Hk. cbn [replicate].
  destruct (yh_file_size h) as [n|] eqn:Hsz.
  - set (ds := u64_to_string n). pose proof (zlen_nonneg ds) as Hds.
    destruct (Z.leb_spec (zlen (nb ++ 0 :: replicate k 0)) (zlen nb + 1 + zlen ds)) as [|Hlt]; [done|].
    autorewrite with zlen in Hlt. intros [= <-].
    change (0 :: replicate k 0) with ([0] ++ replicate k 0). rewrite app_assoc.
    rewrite copy_at_app by (by rewrite zlen_app). rewrite copy_at_replicate by lia.
    simpl replicate at 1. cbn [app]. rewrite Z.add_0_l.
    assert (Hk2 : (k - Z.to_nat (zlen ds))%nat = S (k - Z.to_nat (zlen ds) - 1)) by lia.
    rewrite Hk2. cbn [replicate]. eexists. rewrite <-app_assoc. split; [reflexivity|].
    split; [|eauto]. cbn [app]. autorewrite with zlen. lia.
  - intros [= <-]. eexists. split; [reflexivity|]. split; [|eauto].
    autorewrite with zlen. lia.
Qed.

Lemma validate_plain name u :
  validate_ymodem_file_name name = Ok u ->
  name <> [] /\ existsb is_slash name = false /\ path_file_name name = Some name.
Proof.
  unfold validate_ymodem_file_name.
  destruct (bool_decide (name = [])) eqn:H1; [done|].
  destruct (bool_decide (name = [46])); [done|].
  destruct (bool_decide (name = [46; 46])); [done|].
  destruct (existsb is_slash name) eqn:H2; [done|].
  destruct (path_is_absolute name); [done|].
  destruct (bool_decide (path_file_name name = Some name)) eqn:H3; [|done].
  intros _. apply bool_decide_eq_false in H1. apply bool_decide_eq_true in H3. done.
Qed.

(** Whatever block zero holds, an accepted header has a plain name and a
    64-bit size. *)
Lemma parse_block0_inv p h :
  parse_block0_payload p = Ok (Some h) ->
  validate_ymodem_file_name (yh_file_name h) = Ok tt
  /\ forall n, yh_file_size h = Some n -> is_u64 n.
Proof.
  unfold parse_block0_payload. destruct (position _ p) as [nul|]; [|done]. cbn [ok_or result_bind].
  destruct (nul =? 0); [done|]. destruct (validate_ymodem_file_name _) as [[]|] eqn:Hv; [|done].
  cbn [result_bind]. set (size_end := default _ _). destruct (size_end =? 0).
  - by intros [= <-].
  - destruct (parse_u64 _) as [n|] eqn:Hn; [|done]. intros [= <-]. split; [done|]. simpl.
    intros m [= <-]. by eapply parse_u64_range.
Qed.

Lemma parse_encode_block0 h p :
  validate_ymodem_file_name (yh_file_name h) = Ok tt -> str_ok (yh_file_name h) ->
  Forall (fun c => c <> 0) (yh_file_name h) ->
  (forall n, yh_file_size h = Some n -> is_u64 n) ->
  encode_block0_payload h = Ok p -> parse_block0_payload p = Ok (Some h).
Proof.
  intros Hv Hs Hnz Hn Henc. destruct (validate_plain _ _ Hv) as (Hne & _).
  destruct (encode_block0_shape h p Hn Henc) as (meta & -> & Hlen & Hmeta).
  rewrite parse_block0_shape by done. rewrite Hv. cbn [result_bind]. destruct h as [name [n|]]; simpl in *.
  - destruct Hmeta as (k & ->).
    assert (Hd : Forall (fun c => 48 <= c <= 57) (u64_to_string n)).
    { apply dec_digits_range. destruct (Hn n eq_refl). lia. }
    rewrite position_app by (done || by apply digits_not_sep). cbn [default from_option id].
    assert (Hz : zlen (u64_to_string n) <> 0).
    { unfold u64_to_string. pose proof (dec_digits_not_nil 19 n).
      destruct (dec_digits 20 n); [done|]. rewrite zlen_cons. pose proof (zlen_nonneg l). lia. }
    destruct (Z.eqb_spec (zlen (u64_to_string n)) 0); [done|].
    rewrite ztake_app, from_utf8_lossy_ascii, u64_to_string_roundtrip by
      (auto || (eapply Forall_impl; [|exact Hd]; simpl; lia)).
    done.
  - destruct Hmeta as (k & ->). destruct k as [|k]; [done|]. done.
Qed.

(** ** Claims *)

(** [XyBlock::parse_crc] accepts exactly the frames [XyBlock::encode_crc]
    produces: on any byte string it returns a block [b] if and only if [b] is
    well formed (byte number, full-size payload) and its encoding is that very
    string.  Parsing and encoding are inverse to each other. *)
Theorem parse_crc_iff (bytes : list Z) (b : XyBlock) :
  bytes_ok bytes -> (parse_crc bytes = Ok b <-> block_ok b /\ encode_crc b = bytes).
Proof.
  intros Hb. split; [by apply parse_crc_inv|]. intros [Hok <-]. by apply parse_encode_crc.
Qed.

Definition sample_block : XyBlock := mkXyBlock 7 Bytes128 (104 :: 105 :: replicate 126 CPMEOF).

Lemma sample_block_ok : block_ok sample_block.
Proof.
  split; [unfold in_width; simpl; lia|]. split; [reflexivity|].
  simpl. repeat constructor; unfold in_width, CPMEOF; lia.
Qed.

Lemma parse_crc_iff_witness : parse_crc (encode_crc sample_block) = Ok sample_block.
Proof.
  apply parse_crc_iff; [|split; [apply sample_block_ok|reflexivity]].
  vm_compute. repeat constructor; discriminate.
Defined.

(** The same for the 8-bit checksum framing of classic XMODEM. *)
Theorem parse_checksum_iff (bytes : list Z) (b : XyBlock) :
  bytes_ok bytes -> (parse_checksum bytes = Ok b <-> block_ok b /\ encode_checksum b = bytes).
Proof.
  intros Hb. split; [by apply parse_checksum_inv|]. intros [Hok <-]. by apply parse_encode_checksum.
Qed.

Lemma parse_checksum_iff_witness :
  parse_checksum (encode_checksum sample_block) = Ok sample_block.
Proof.
  apply parse_checksum_iff; [|split; [apply sample_block_ok|reflexivity]].
  vm_compute. repeat constructor; discriminate.
Defined.

(** A CRC block in which exactly one byte was corrupted in transit -- the
    marker, the number, its complement, any payload byte or a check byte -- is
    never accepted by [XyBlock::parse_crc]. *)
Theorem crc_block_single_error (b : XyBlock) (l1 l2 : list Z) (x y : Z) :
  block_ok b -> encode_crc b = l1 ++ x :: l2 -> bytes_ok (l1 ++ y :: l2) -> x <> y ->
  forall b', parse_crc (l1 ++ y :: l2) <> Ok b'.
Proof.
  intros Hok Henc Hy Hne b' Hp. apply parse_crc_inv in Hp as [Hok' Henc']; [|done].
  apply Hne. by apply (encode_crc_distance b b' l1 l2).
Qed.

Lemma crc_block_single_error_witness :
  parse_crc ([SOH; 7; 248] ++ 105 :: (105 :: replicate 126 CPMEOF)
             ++ u16_to_be (crc16_xmodem (xb_payload sample_block))) <> Ok sample_block.
Proof.
  apply (crc_block_single_error sample_block [SOH; 7; 248]
    ((105 :: replicate 126 CPMEOF) ++ u16_to_be (crc16_xmodem (xb_payload sample_block))) 104 105).
  - apply sample_block_ok.
  - reflexivity.
  - vm_compute. repeat constructor; discriminate.
  - discriminate.
Defined.

(** A YMODEM block-zero header survives the wire: for a header whose name
    passes [validate_ymodem_file_name], contains no NUL and whose size is a
    [u64], whatever [encode_block0_payload] produces is parsed back by
    [parse_block0_payload] to the same header, size included. *)
Theorem ymodem_header_roundtrip (h : YmodemFileHeader) (p : list Z) :
  validate_ymodem_file_name (yh_file_name h) = Ok tt -> str_ok (yh_file_name h) ->
  Forall (fun c => c <> 0) (yh_file_name h) ->
  (forall n, yh_file_size h = Some n -> is_u64 n) ->
  encode_block0_payload h = Ok p -> parse_block0_payload p = Ok (Some h).
Proof. apply parse_encode_block0. Qed.

Lemma ymodem_header_roundtrip_witness :
  let h := mkYmodemFileHeader [97; 46; 98; 105; 110] (Some 4096) in
  exists p, encode_block0_payload h = Ok p /\ parse_block0_payload p = Ok (Some h).
Proof.
  eexists. split; [vm_compute; reflexivity|].
  apply ymodem_header_roundtrip.
  - reflexivity.
  - repeat constructor.
  - repeat constructor; discriminate.
  - simpl. intros n [= <-]. unfold in_width. lia.
  - vm_compute. reflexivity.
Defined.
