(* ===== verification/Zmodem.v ===== *)
(** * ZMODEM headers and escaping

    Model of [crates/hapcli-modem-transfer/src/zmodem.rs]: frame types, the
    hexadecimal, CRC-16 binary and CRC-32 binary header encodings, and ZDLE
    escaping. *)
From S2P Require Import Prelude Text Crc ModemIo Xymodem.
From stdpp Require Import prelude list numbers.
Open Scope Z_scope.

(** ** Definitions *)

Definition ZPAD : Z := 42.
Definition ZDLE : Z := 0x18.
Definition ZBIN : Z := 65.
Definition ZHEX : Z := 66.
Definition ZBIN32 : Z := 67.
Definition XON : Z := 0x11.
Definition ZCRCE : Z := 104.
Definition ZCRCG : Z := 105.
Definition ZCRCQ : Z := 106.
Definition ZCRCW : Z := 107.
Definition ZRUB0 : Z := 108.
Definition ZRUB1 : Z := 109.

Inductive ZFrameType : Type :=
| ZrqInit | ZrInit | ZsInit | ZAck | ZFile | ZSkip | ZNak | ZAbort | ZFin | ZRpos
| ZData | ZEof | ZFerr | ZCrc | ZChallenge | ZCompl | ZCan | ZFreeCnt | ZCommand | ZStderr.

#[export] Instance ZFrameType_eq_dec : EqDecision ZFrameType.
Proof. solve_decision. Defined.

(** [frame_type as u8]. *)
Definition ZFrameType_byte (t : ZFrameType) : Z :=
  match t with
  | ZrqInit => 0 | ZrInit => 1 | ZsInit => 2 | ZAck => 3 | ZFile => 4 | ZSkip => 5
  | ZNak => 6 | ZAbort => 7 | ZFin => 8 | ZRpos => 9 | ZData => 10 | ZEof => 11
  | ZFerr => 12 | ZCrc => 13 | ZChallenge => 14 | ZCompl => 15 | ZCan => 16
  | ZFreeCnt => 17 | ZCommand => 18 | ZStderr => 19
  end.

Definition ZFrameType_from_byte (byte : Z) : option ZFrameType :=
  match byte with
  | 0 => Some ZrqInit | 1 => Some ZrInit | 2 => Some ZsInit | 3 => Some ZAck
  | 4 => Some ZFile | 5 => Some ZSkip | 6 => Some ZNak | 7 => Some ZAbort
  | 8 => Some ZFin | 9 => Some ZRpos | 10 => Some ZData | 11 => Some ZEof
  | 12 => Some ZFerr | 13 => Some ZCrc | 14 => Some ZChallenge | 15 => Some ZCompl
  | 16 => Some ZCan | 17 => Some ZFreeCnt | 18 => Some ZCommand | 19 => Some ZStderr
  | _ => None
  end.

Inductive ZHeaderEncoding : Type := Bin16 | Bin32 | Hex.
#[export] Instance ZHeaderEncoding_eq_dec : EqDecision ZHeaderEncoding.
Proof. solve_decision. Defined.

(** [[u8; 4]]. *)
Definition Pos4 : Type := Z * Z * Z * Z.
Definition pos_bytes (p : Pos4) : list Z :=
  match p with (p0, p1, p2, p3) => [p0; p1; p2; p3] end.

Record ZHeader := mkZHeader {
  frame_type : ZFrameType;
  header_position : Pos4;
  encoding : ZHeaderEncoding
}.

Definition position_u32 (h : ZHeader) : Z :=
  match header_position h with (p0, p1, p2, p3) => u32_from_le p0 p1 p2 p3 end.

Inductive ZDataEnd : Type := End | Continue | ContinueWithAck | EndWithAck.
#[export] Instance ZDataEnd_eq_dec : EqDecision ZDataEnd.
Proof. solve_decision. Defined.

Definition ZDataEnd_marker (e : ZDataEnd) : Z :=
  match e with
  | End => ZCRCE | Continue => ZCRCG | ContinueWithAck => ZCRCQ | EndWithAck => ZCRCW
  end.
Definition ZDataEnd_from_marker (m : Z) : option ZDataEnd :=
  if m =? ZCRCE then Some End
  else if m =? ZCRCG then Some Continue
  else if m =? ZCRCQ then Some ContinueWithAck
  else if m =? ZCRCW then Some EndWithAck
  else None.

(** [position.to_le_bytes()]. *)
Definition position_header (position : Z) : Pos4 :=
  (wrap 8 position, wrap 8 (Z.shiftr position 8), wrap 8 (Z.shiftr position 16),
   wrap 8 (Z.shiftr position 24)).

Definition should_escape_zdle (byte : Z) : bool :=
  (byte =? ZDLE) || (byte =? 0x10) || (byte =? 0x11) || (byte =? 0x13)
  || (byte =? 0x90) || (byte =? 0x91) || (byte =? 0x93).

Definition push_zdle_escaped_with_control (out : list Z) (byte : Z) (escape_control : bool) : list Z :=
  if should_escape_zdle byte || (escape_control && (Z.land byte 0x60 =? 0))
  then out ++ [ZDLE; Z.lxor byte 0x40]
  else out ++ [byte].

Definition push_zdle_escaped (out : list Z) (byte : Z) : list Z :=
  push_zdle_escaped_with_control out byte false.

(** [for byte in bytes { push_zdle_escaped_with_control(out, byte, esc) }]. *)
Definition push_all_escaped (out bytes : list Z) (escape_control : bool) : list Z :=
  fold_left (fun o b => push_zdle_escaped_with_control o b escape_control) bytes out.

Definition HEX : list Z := [48; 49; 50; 51; 52; 53; 54; 55; 56; 57; 97; 98; 99; 100; 101; 102].

Definition push_hex_byte (out : list Z) (byte : Z) : list Z :=
  out ++ [byte_at HEX (Z.shiftr byte 4); byte_at HEX (Z.land byte 0x0f)].

Definition hex_value (byte : Z) : result ModemError Z :=
  if in_range 48 57 byte then Ok (byte - 48)
  else if in_range 97 102 byte then Ok (byte - 97 + 10)
  else if in_range 65 70 byte then Ok (byte - 65 + 10)
  else Err InvalidFrameEncoding.

Definition read_hex_byte (bytes : list Z) : result ModemError Z :=
  match bytes with
  | [b0; b1] =>
      let? high := hex_value b0 in
      let? low := hex_value b1 in
      Ok (Z.lor (wrap 8 (Z.shiftl high 4)) low)
  | _ => Err Incomplete
  end.

Definition encode_hex_header (t : ZFrameType) (position : Pos4) (include_xon : bool) : list Z :=
  let payload := ZFrameType_byte t :: pos_bytes position in
  let crc := crc16_xmodem payload in
  let out := [ZPAD; ZPAD; ZDLE; ZHEX] in
  let out := fold_left push_hex_byte payload out in
  let out := push_hex_byte out (Z.shiftr crc 8) in
  let out := push_hex_byte out (wrap 8 crc) in
  let out := out ++ [13; Z.lor 10 0x80] in
  if include_xon then out ++ [XON] else out.

Definition starts_with (prefix l : list Z) : bool :=
  bool_decide (take (length prefix) l = prefix).

(** The loop that fills [decoded], from slot [index] on. *)
Fixpoint decode_hex_slots (n : nat) (index : Z) (bytes : list Z) : result ModemError (list Z) :=
  match n with
  | O => Ok []
  | S k =>
      let offset := 4 + index * 2 in
      let? slot := read_hex_byte (ztake 2 (zdrop offset bytes)) in
      let? rest := decode_hex_slots k (index + 1) bytes in
      Ok (slot :: rest)
  end.

Definition parse_hex_header (bytes : list Z) : result ModemError ZHeader :=
  if zlen bytes <? 18 then Err Incomplete
  else if negb (starts_with [ZPAD; ZPAD; ZDLE; ZHEX] bytes) then Err InvalidMarker
  else
    let? decoded := decode_hex_slots 7 0 bytes in
    let expected_crc := crc16_xmodem (ztake 5 decoded) in
    let received_crc := u16_from_be (byte_at decoded 5) (byte_at decoded 6) in
    if negb (expected_crc =? received_crc) then Err InvalidCrc
    else
      let? t := ok_or (ZFrameType_from_byte (byte_at decoded 0)) InvalidFrameType in
      Ok (mkZHeader t (byte_at decoded 1, byte_at decoded 2, byte_at decoded 3, byte_at decoded 4) Hex).

Definition encode_bin16_header_with_escape (t : ZFrameType) (position : Pos4) (escape_control : bool)
    : list Z :=
  let crc_payload := ZFrameType_byte t :: pos_bytes position in
  let escaped_payload := push_all_escaped [] crc_payload escape_control in
  let crc := fold_left crc16_xmodem_update crc_payload 0 in
  let crc := crc16_xmodem_update (crc16_xmodem_update crc 0) 0 in
  let escaped_payload := push_zdle_escaped_with_control escaped_payload (Z.shiftr crc 8) escape_control in
  let escaped_payload := push_zdle_escaped_with_control escaped_payload (wrap 8 crc) escape_control in
  [ZPAD; ZDLE; ZBIN] ++ escaped_payload.

Definition encode_bin16_header (t : ZFrameType) (position : Pos4) : list Z :=
  encode_bin16_header_with_escape t position false.

Definition encode_bin32_header_with_escape (t : ZFrameType) (position : Pos4) (escape_control : bool)
    : list Z :=
  let crc_payload := ZFrameType_byte t :: pos_bytes position in
  let escaped_payload := push_all_escaped [] crc_payload escape_control in
  let crc := fold_left crc32_ieee_update crc_payload 0xffffffff in
  let crc := bitnot 32 crc in
  let escaped_payload := push_all_escaped escaped_payload (u32_to_le crc) escape_control in
  [ZPAD; ZDLE; ZBIN32] ++ escaped_payload.

Definition encode_bin32_header (t : ZFrameType) (position : Pos4) : list Z :=
  encode_bin32_header_with_escape t position false.

(** The escape match of [decode_zdle_payload]. *)
Definition decode_escape (escaped : Z) : result ModemError Z :=
  if escaped =? ZRUB0 then Ok 0x7f
  else if escaped =? ZRUB1 then Ok 0xff
  else if Z.land escaped 0x60 =? 0x40 then Ok (Z.lxor escaped 0x40)
  else Err InvalidEscape.

(** The loop runs until [decoded_len] bytes have been produced. *)
Fixpoint decode_zdle_payload (bytes : list Z) (decoded_len : nat) {struct decoded_len}
    : result ModemError (list Z) :=
  match decoded_len with
  | O => Ok []
  | S k =>
      match bytes with
      | [] => Err Incomplete
      | byte :: rest =>
          if byte =? ZDLE then
            match rest with
            | [] => Err Incomplete
            | escaped :: rest' =>
                let? decoded := decode_escape escaped in
                let? out := decode_zdle_payload rest' k in
                Ok (decoded :: out)
            end
          else
            let? out := decode_zdle_payload rest k in
            Ok (byte :: out)
      end
  end.

Definition parse_binary_header (bytes : list Z) : result ModemError ZHeader :=
  if zlen bytes <? 3 then Err Incomplete
  else if negb (byte_at bytes 0 =? ZPAD) || negb (byte_at bytes 1 =? ZDLE) then Err InvalidMarker
  else
    let? enc :=
      if byte_at bytes 2 =? ZBIN then Ok (Bin16, 2%nat)
      else if byte_at bytes 2 =? ZBIN32 then Ok (Bin32, 4%nat)
      else Err InvalidFrameEncoding in
    let? decoded := decode_zdle_payload (zdrop 3 bytes) (5 + snd enc) in
    let? t := ok_or (ZFrameType_from_byte (byte_at decoded 0)) InvalidFrameType in
    let position := (byte_at decoded 1, byte_at decoded 2, byte_at decoded 3, byte_at decoded 4) in
    let? _u :=
      match fst enc with
      | Bin16 =>
          let expected_crc := fold_left crc16_xmodem_update (ztake 5 decoded) 0 in
          let expected_crc := crc16_xmodem_update (crc16_xmodem_update expected_crc 0) 0 in
          let received_crc := u16_from_be (byte_at decoded 5) (byte_at decoded 6) in
          if negb (expected_crc =? received_crc) then Err InvalidCrc else Ok tt
      | Bin32 =>
          let expected := crc32_ieee (ztake 5 decoded) in
          let received := u32_from_le (byte_at decoded 5) (byte_at decoded 6)
                            (byte_at decoded 7) (byte_at decoded 8) in
          if negb (expected =? received) then Err InvalidCrc else Ok tt
      | Hex => Err InvalidFrameEncoding
      end in
    Ok (mkZHeader t position (fst enc)).

(** ** Lemmas *)

#[local] Opaque crc16_xmodem_update crc32_ieee_update.

Definition pos_ok (p : Pos4) : Prop := bytes_ok (pos_bytes p).

Lemma frame_byte_ok t : is_u8 (ZFrameType_byte t).
Proof. destruct t; unfold in_width; simpl; lia. Qed.

Lemma frame_type_roundtrip t : ZFrameType_from_byte (ZFrameType_byte t) = Some t.
Proof. by destruct t. Qed.

Lemma end_marker_roundtrip e : ZDataEnd_from_marker (ZDataEnd_marker e) = Some e.
Proof. by destruct e. Qed.

Lemma header_payload_ok t p : pos_ok p -> bytes_ok (ZFrameType_byte t :: pos_bytes p).
Proof. intros Hp. constructor; [apply frame_byte_ok|exact Hp]. Qed.

Lemma position_header_ok n : pos_ok (position_header n).
Proof. repeat constructor; apply in_width_wrap; lia. Qed.
#[export] Hint Resolve frame_byte_ok header_payload_ok position_header_ok : bytes.

Lemma position_header_u32 t n e : is_u32 n -> position_u32 (mkZHeader t (position_header n) e) = n.
Proof. intros H. unfold position_u32, position_header. simpl. by apply u32_le_roundtrip. Qed.

(** Indexing a decoded header. *)
Create Rewrite HintDb at_index.
Lemma byte_at_0 a l : byte_at (a :: l) 0 = a.
Proof. reflexivity. Qed.
Lemma byte_at_1 a b l : byte_at (a :: b :: l) 1 = b.
Proof. reflexivity. Qed.
Lemma byte_at_2 a b c l : byte_at (a :: b :: c :: l) 2 = c.
Proof. reflexivity. Qed.
Lemma byte_at_3 a b c d l : byte_at (a :: b :: c :: d :: l) 3 = d.
Proof. reflexivity. Qed.
Lemma byte_at_4 a b c d e l : byte_at (a :: b :: c :: d :: e :: l) 4 = e.
Proof. reflexivity. Qed.
Lemma byte_at_skip5 a b c d e l i : 0 <= i -> byte_at (a :: b :: c :: d :: e :: l) (5 + i) = byte_at l i.
Proof. intros H. unfold byte_at. by replace (Z.to_nat (5 + i)) with (5 + Z.to_nat i)%nat by lia. Qed.
Lemma byte_at_5 a b c d e f l : byte_at (a :: b :: c :: d :: e :: f :: l) 5 = f.
Proof. by apply (byte_at_skip5 a b c d e (f :: l) 0). Qed.
Lemma byte_at_6 a b c d e f g l : byte_at (a :: b :: c :: d :: e :: f :: g :: l) 6 = g.
Proof. by apply (byte_at_skip5 a b c d e (f :: g :: l) 1). Qed.
Lemma byte_at_7 a b c d e f g h l : byte_at (a :: b :: c :: d :: e :: f :: g :: h :: l) 7 = h.
Proof. by apply (byte_at_skip5 a b c d e (f :: g :: h :: l) 2). Qed.
Lemma byte_at_8 a b c d e f g h k l : byte_at (a :: b :: c :: d :: e :: f :: g :: h :: k :: l) 8 = k.
Proof. by apply (byte_at_skip5 a b c d e (f :: g :: h :: k :: l) 3). Qed.
Lemma ztake_5 (a b c d e : Z) l : ztake 5 (a :: b :: c :: d :: e :: l) = [a; b; c; d; e].
Proof. reflexivity. Qed.
#[export] Hint Rewrite byte_at_0 byte_at_1 byte_at_2 byte_at_3 byte_at_4 byte_at_5 byte_at_6
  byte_at_7 byte_at_8 ztake_5 : at_index.

(** The bytes one escaped byte occupies. *)
Definition escape_byte (escape_control : bool) (byte : Z) : list Z :=
  push_zdle_escaped_with_control [] byte escape_control.
Definition escape_all (escape_control : bool) (bytes : list Z) : list Z :=
  concat (map (escape_byte escape_control) bytes).

Lemma push_escaped_app out b esc :
  push_zdle_escaped_with_control out b esc = out ++ escape_byte esc b.
Proof. unfold escape_byte, push_zdle_escaped_with_control. by case_match. Qed.

Lemma push_all_escaped_app out l esc : push_all_escaped out l esc = out ++ escape_all esc l.
Proof.
  unfold push_all_escaped, escape_all. revert out. induction l as [|b l IH]; intros out; simpl.
  - by rewrite app_nil_r.
  - by rewrite IH, push_escaped_app, app_assoc.
Qed.

Lemma escape_all_app esc l k : escape_all esc (l ++ k) = escape_all esc l ++ escape_all esc k.
Proof. unfold escape_all. by rewrite map_app, concat_app. Qed.
Lemma escape_all_cons esc b l : escape_all esc (b :: l) = escape_byte esc b ++ escape_all esc l.
Proof. reflexivity. Qed.

(** What the decoders see of one escaped byte: either the byte itself, which
    is then neither ZDLE nor a flow-control byte, or ZDLE and a byte that
    stands for it and is none of the special markers. *)
Definition escape_shape (esc : bool) (b : Z) : bool :=
  match escape_byte esc b with
  | [x] => (x =? b) && negb (should_escape_zdle b)
  | [z; e] =>
      (z =? ZDLE) && negb (e =? ZRUB0) && negb (e =? ZRUB1) && (Z.land e 0x60 =? 0x40)
      && (Z.lxor e 0x40 =? b) && negb (e =? ZCRCE) && negb (e =? ZCRCG) && negb (e =? ZCRCQ)
      && negb (e =? ZCRCW)
  | _ => false
  end.

Lemma escape_shape_ok esc b : is_u8 b -> escape_shape esc b = true.
Proof.
  intros Hb. destruct esc.
  - apply (byte_forallb (escape_shape true)); [vm_compute; reflexivity|done].
  - apply (byte_forallb (escape_shape false)); [vm_compute; reflexivity|done].
Qed.

Lemma escape_byte_cases esc b : is_u8 b ->
  (escape_byte esc b = [b] /\ should_escape_zdle b = false)
  \/ exists e, escape_byte esc b = [ZDLE; e] /\ decode_escape e = Ok b
       /\ ZDataEnd_from_marker e = None.
Proof.
  intros Hb. pose proof (escape_shape_ok esc b Hb) as H. unfold escape_shape in H.
  destruct (escape_byte esc b) as [|x [|e [|? ?]]]; try done.
  - left. apply andb_true_iff in H as [H1 H2]. split; [f_equal; lia|]. by apply negb_true_iff.
  - right. exists e. unfold decode_escape, ZDataEnd_from_marker.
    destruct (Z.eqb_spec x ZDLE) as [->|]; [|done].
    destruct (e =? ZRUB0); [done|]. destruct (e =? ZRUB1); [done|].
    destruct (Z.land e 0x60 =? 0x40); [|done]. destruct (Z.eqb_spec (Z.lxor e 0x40) b) as [->|]; [|done].
    destruct (e =? ZCRCE); [done|]. destruct (e =? ZCRCG); [done|]. destruct (e =? ZCRCQ); [done|].
    destruct (e =? ZCRCW); [done|]. done.
Qed.

Lemma not_escaped_not_zdle b : should_escape_zdle b = false -> (b =? ZDLE) = false.
Proof. unfold should_escape_zdle. by destruct (b =? ZDLE). Qed.

Lemma decode_escape_all esc l rest :
  bytes_ok l -> decode_zdle_payload (escape_all esc l ++ rest) (length l) = Ok l.
Proof.
  induction l as [|b l IH]; intros Hl; [done|]. inversion_clear Hl.
  rewrite escape_all_cons, <-app_assoc. cbn [length].
  destruct (escape_byte_cases esc b) as [[-> Hn]|(e & -> & Hd & _)]; [done|..]; cbn [app decode_zdle_payload].
  - rewrite not_escaped_not_zdle by done. by rewrite IH.
  - rewrite Z.eqb_refl, Hd. cbn [result_bind]. by rewrite IH.
Qed.

Lemma hex_byte_roundtrip b : is_u8 b -> read_hex_byte (push_hex_byte [] b) = Ok b.
Proof.
  intros Hb.
  by_bytes (fun b => match read_hex_byte (push_hex_byte [] b) with Ok x => x =? b | Err _ => false end) b Hb.
  destruct (read_hex_byte (push_hex_byte [] b)); [|done]. f_equal. lia.
Qed.

Lemma push_hex_byte_app out b : push_hex_byte out b = out ++ push_hex_byte [] b.
Proof. reflexivity. Qed.

Lemma fold_push_hex l out :
  fold_left push_hex_byte l out = out ++ concat (map (push_hex_byte []) l).
Proof.
  revert out. induction l as [|b l IH]; intros out; simpl; [by rewrite app_nil_r|].
  rewrite IH. unfold push_hex_byte. by rewrite <-app_assoc.
Qed.

(** The seven hex-encoded bytes of a header. *)
Definition hex_body (t : ZFrameType) (p : Pos4) : list Z :=
  let payload := ZFrameType_byte t :: pos_bytes p in payload ++ u16_to_be (crc16_xmodem payload).

Lemma hex_body_ok t p : pos_ok p -> bytes_ok (hex_body t p).
Proof. intros Hp. apply Forall_app. split; auto with bytes. Qed.

Lemma encode_hex_shape t p xon :
  encode_hex_header t p xon
  = [ZPAD; ZPAD; ZDLE; ZHEX] ++ concat (map (push_hex_byte []) (hex_body t p))
    ++ [13; Z.lor 10 0x80] ++ (if xon then [XON] else []).
Proof.
  unfold encode_hex_header, hex_body. rewrite fold_push_hex.
  rewrite map_app, concat_app. cbn [u16_to_be map concat].
  rewrite (push_hex_byte_app _ (wrap 8 _)), (push_hex_byte_app _ (Z.shiftr _ 8)).
  destruct xon; rewrite <-!app_assoc, ?app_nil_r; done.
Qed.

Lemma decode_hex_slots_ok l pre rest :
  bytes_ok l ->
  decode_hex_slots (length l) (zlen pre)
    ([ZPAD; ZPAD; ZDLE; ZHEX] ++ concat (map (push_hex_byte []) pre)
     ++ concat (map (push_hex_byte []) l) ++ rest) = Ok l.
Proof.
  revert pre. induction l as [|b l IH]; intros pre Hl; [done|]. inversion_clear Hl.
  cbn [length decode_hex_slots map concat].
  assert (Hlen : forall k, zlen (concat (map (push_hex_byte []) k)) = zlen k * 2).
  { induction k as [|x k IHk]; [done|]. cbn [map concat]. rewrite zlen_app, IHk, zlen_cons.
    change (zlen (push_hex_byte [] x)) with 2. lia. }
  rewrite app_assoc, zdrop_app by (rewrite zlen_app, Hlen; change (zlen [_; _; _; _]) with 4; lia).
  rewrite <-app_assoc, (ztake_app (push_hex_byte [] b)) by done.
  rewrite hex_byte_roundtrip by done. cbn [result_bind].
  specialize (IH (pre ++ [b])). rewrite map_app, concat_app, <-!app_assoc, zlen_app in IH.
  cbn [map concat] in IH. rewrite app_nil_r in IH. rewrite <-!app_assoc.
  change (zlen [b]) with 1 in IH. by rewrite IH.
Qed.

Lemma take_prefix (pre l : list Z) : take (length pre) (pre ++ l) = pre.
Proof. apply take_app_length. Qed.

Lemma parse_encode_hex t p xon rest :
  pos_ok p -> parse_hex_header (encode_hex_header t p xon ++ rest) = Ok (mkZHeader t p Hex).
Proof.
  intros Hp. rewrite encode_hex_shape. rewrite <-!app_assoc.
  set (bytes := [ZPAD; ZPAD; ZDLE; ZHEX] ++ _).
  assert (Hlen : (zlen bytes <? 18) = false).
  { apply Z.ltb_ge. subst bytes. destruct p as [[[p0 p1] p2] p3]. unfold zlen. rewrite !length_app. cbn. lia. }
  unfold parse_hex_header. rewrite Hlen.
  replace (starts_with [ZPAD; ZPAD; ZDLE; ZHEX] bytes) with true.
  2: { symmetry. apply bool_decide_eq_true. subst bytes. apply take_prefix. }
  cbn [negb].
  assert (Hd : decode_hex_slots 7 0 bytes = Ok (hex_body t p)).
  { pose proof (decode_hex_slots_ok (hex_body t p) []) as Hd. destruct p as [[[p0 p1] p2] p3].
    apply Hd. by apply hex_body_ok. }
  rewrite Hd.
  destruct p as [[[p0 p1] p2] p3]. unfold hex_body.
  unfold u16_to_be. cbn [result_bind pos_bytes app]. autorewrite with at_index.
  fold (pos_bytes (p0, p1, p2, p3)).
  rewrite u16_be_roundtrip, Z.eqb_refl, frame_type_roundtrip by auto with bytes. done.
Qed.

(** The bytes a binary header escapes: type, position and check bytes. *)
Definition bin16_body (t : ZFrameType) (p : Pos4) : list Z :=
  let payload := ZFrameType_byte t :: pos_bytes p in
  payload ++ u16_to_be (crc16_xmodem_update (crc16_xmodem_update (crc16_xmodem payload) 0) 0).
Definition bin32_body (t : ZFrameType) (p : Pos4) : list Z :=
  let payload := ZFrameType_byte t :: pos_bytes p in payload ++ u32_to_le (crc32_ieee payload).

Lemma encode_bin16_shape t p esc :
  encode_bin16_header_with_escape t p esc = [ZPAD; ZDLE; ZBIN] ++ escape_all esc (bin16_body t p).
Proof.
  unfold encode_bin16_header_with_escape, bin16_body.
  rewrite push_all_escaped_app, !push_escaped_app, escape_all_app, <-!app_assoc.
  unfold u16_to_be, crc16_xmodem. rewrite !escape_all_cons, app_nil_r, app_nil_l. reflexivity.
Qed.

Lemma encode_bin32_shape t p esc :
  encode_bin32_header_with_escape t p esc = [ZPAD; ZDLE; ZBIN32] ++ escape_all esc (bin32_body t p).
Proof.
  unfold encode_bin32_header_with_escape, bin32_body. cbv zeta.
  rewrite !push_all_escaped_app, escape_all_app, app_nil_l. reflexivity.
Qed.

Lemma bin16_body_ok t p : pos_ok p -> bytes_ok (bin16_body t p).
Proof. intros Hp. apply Forall_app. split; auto with bytes. Qed.
Lemma bin32_body_ok t p : pos_ok p -> bytes_ok (bin32_body t p).
Proof. intros Hp. apply Forall_app. split; auto with bytes. Qed.

Lemma parse_encode_bin16 t p esc rest :
  pos_ok p ->
  parse_binary_header (encode_bin16_header_with_escape t p esc ++ rest) = Ok (mkZHeader t p Bin16).
Proof.
  intros Hp. rewrite encode_bin16_shape, <-app_assoc. unfold parse_binary_header.
  set (tail := escape_all esc (bin16_body t p) ++ rest).
  replace (zlen ([ZPAD; ZDLE; ZBIN] ++ tail) <? 3) with false.
  2: { symmetry. apply Z.ltb_ge. rewrite zlen_app. pose proof (zlen_nonneg tail).
       change (zlen [_; _; _]) with 3. lia. }
  cbn [app]. autorewrite with at_index. cbn [Z.eqb Pos.eqb negb orb ZPAD ZDLE ZBIN result_bind fst snd].
  rewrite (zdrop_app [ZPAD; ZDLE; ZBIN] tail) by done. subst tail.
  pose proof (decode_escape_all esc (bin16_body t p) rest (bin16_body_ok t p Hp)) as Hd.
  destruct p as [[[p0 p1] p2] p3]. change (length (bin16_body t (p0, p1, p2, p3))) with (5 + 2)%nat in Hd.
  rewrite Hd. unfold bin16_body, u16_to_be. cbn [app result_bind pos_bytes].
  autorewrite with at_index. fold (pos_bytes (p0, p1, p2, p3)).
  rewrite frame_type_roundtrip, u16_be_roundtrip by auto with bytes. unfold crc16_xmodem.
  rewrite Z.eqb_refl. done.
Qed.

Lemma parse_encode_bin32 t p esc rest :
  pos_ok p ->
  parse_binary_header (encode_bin32_header_with_escape t p esc ++ rest) = Ok (mkZHeader t p Bin32).
Proof.
  intros Hp. rewrite encode_bin32_shape, <-app_assoc. unfold parse_binary_header.
  set (tail := escape_all esc (bin32_body t p) ++ rest).
  replace (zlen ([ZPAD; ZDLE; ZBIN32] ++ tail) <? 3) with false.
  2: { symmetry. apply Z.ltb_ge. rewrite zlen_app. pose proof (zlen_nonneg tail).
       change (zlen [_; _; _]) with 3. lia. }
  cbn [app]. autorewrite with at_index.
  cbn [Z.eqb Pos.eqb negb orb ZPAD ZDLE ZBIN ZBIN32 result_bind fst snd].
  rewrite (zdrop_app [ZPAD; ZDLE; ZBIN32] tail) by done. subst tail.
  pose proof (decode_escape_all esc (bin32_body t p) rest (bin32_body_ok t p Hp)) as Hd.
  destruct p as [[[p0 p1] p2] p3]. change (length (bin32_body t (p0, p1, p2, p3))) with (5 + 4)%nat in Hd.
  rewrite Hd. unfold bin32_body, u32_to_le. cbn [app result_bind pos_bytes].
  autorewrite with at_index. fold (pos_bytes (p0, p1, p2, p3)).
  rewrite frame_type_roundtrip, u32_le_roundtrip by auto with bytes.
  rewrite Z.eqb_refl. done.
Qed.

(** ** Claims *)

(** Every header encoder of zmodem.rs is inverted by its parser: for every
    frame type and position, with and without control escaping and trailing
    XON, and whatever bytes follow, the parser returns the frame type, the
    position and the encoding that were sent. *)
Theorem zmodem_header_roundtrip (t : ZFrameType) (p : Pos4) (esc xon : bool) (rest : list Z) :
  pos_ok p ->
  parse_hex_header (encode_hex_header t p xon ++ rest) = Ok (mkZHeader t p Hex)
  /\ parse_binary_header (encode_bin16_header_with_escape t p esc ++ rest) = Ok (mkZHeader t p Bin16)
  /\ parse_binary_header (encode_bin32_header_with_escape t p esc ++ rest) = Ok (mkZHeader t p Bin32).
Proof.
  intros Hp. split; [|split].
  - by apply parse_encode_hex.
  - by apply parse_encode_bin16.
  - by apply parse_encode_bin32.
Qed.

Lemma zmodem_header_roundtrip_witness :
  parse_hex_header (encode_hex_header ZRpos (position_header 4096) true ++ [1])
    = Ok (mkZHeader ZRpos (0, 16, 0, 0) Hex)
  /\ parse_binary_header (encode_bin16_header_with_escape ZRpos (position_header 4096) false ++ [1])
    = Ok (mkZHeader ZRpos (0, 16, 0, 0) Bin16)
  /\ parse_binary_header (encode_bin32_header_with_escape ZRpos (position_header 4096) false ++ [1])
    = Ok (mkZHeader ZRpos (0, 16, 0, 0) Bin32).
Proof. apply (zmodem_header_roundtrip ZRpos (position_header 4096) false true [1]). apply position_header_ok. Defined.
