(* ===== verification/XymodemTransfer.v ===== *)
(** * XMODEM and YMODEM transfers

    Model of [crates/hapcli-modem-transfer/src/xymodem_transfer.rs]: the
    sending and receiving loops of XMODEM (128 and 1024 byte blocks, CRC and
    checksum negotiation) and of YMODEM (batches with block-zero headers).
    The functions are written against the [ModemIo], [Read] and [Write]
    interfaces, as the generic Rust functions are.  [fuel] bounds the number of
    turns of an unbounded [loop]. *)
From S2P Require Import Prelude Text Crc ModemIo Xymodem.
From stdpp Require Import prelude list numbers.
Open Scope Z_scope.

(** ** Definitions *)

Definition XYMODEM_TIMEOUT : Z := 10.
Definition XYMODEM_RETRIES : nat := 10.

Inductive XmodemBlockMode : Type := Mode128 | Mode1024.
Definition block_mode_size (m : XmodemBlockMode) : XyBlockSize :=
  match m with Mode128 => Bytes128 | Mode1024 => Bytes1024 end.

Record YmodemSendEntry := mkYmodemSendEntry {
  yse_file_name : list Z;
  yse_file_size : Z;
  yse_bytes : list Z
}.
Record YmodemSendStreamEntry (R : Type) := mkYmodemSendStreamEntry {
  ys_file_name : list Z;
  ys_file_size : Z;
  ys_reader : R
}.
Arguments mkYmodemSendStreamEntry {R} _ _ _.
Arguments ys_file_name {R} _.
Arguments ys_file_size {R} _.
Arguments ys_reader {R} _.

Inductive XymodemPacket : Type :=
| Block (b : XyBlock)
| EndOfTransmission.

(** A computation that also borrows a reader of its own. *)
Definition with_reader {S T A} (t : T) (m : IO (S * T) A) : IO S A :=
  fun s => match m (s, t) with
           | Some (r, (s', _)) => Some (r, s')
           | None => None
           end.

(** [read_padded]: fill a buffer of [len] bytes, stopping at the end of the
    input; the bytes read. *)
Definition read_padded {R} `{Read R} (len : Z) : IO R (list Z) :=
  loop (S (Z.to_nat len))
    (fun got : list Z =>
       if zlen got <? len then
         let* more := read (len - zlen got) in
         if zlen more =? 0 then ret (inr got) else ret (inl (got ++ more))
       else ret (inr got)) [].

Section Transfer.
Context {I : Type} `{ModemIo I}.

(** The CAN arm shared by the receiving matches: a second CAN cancels. *)
Definition second_can {A} (otherwise : IO I A) : IO I A :=
  let* b := read_byte XYMODEM_TIMEOUT in
  if b =? CAN then throw Cancelled else otherwise.

(** One turn of the retry loop of [send_xymodem_block]. *)
Definition send_attempt (frame : list Z) : IO I (option unit) :=
  do* write_all frame in
  let* b := read_byte XYMODEM_TIMEOUT in
  if b =? ACK then ret (Some tt)
  else if (b =? NAK) || (b =? WANT_CRC) then ret None
  else if b =? CAN then second_can (ret None)
  else throw (UnexpectedByte b).

Definition send_xymodem_block (number : Z) (block_size : XyBlockSize) (payload : list Z)
    (use_crc : bool) : IO I unit :=
  if negb use_crc then
    let* block := protocol (XyBlock_new number block_size payload) in
    for_return XYMODEM_RETRIES (send_attempt (encode_checksum block)) (throw Timeout)
  else
    let* block := protocol (XyBlock_new number block_size payload) in
    for_return XYMODEM_RETRIES (send_attempt (encode_crc block)) (throw Timeout).

(** The bytes of a block after its marker, and the parse. *)
Definition read_block_body (marker : Z) (size : XyBlockSize) (use_crc : bool) : IO I XyBlock :=
  let check_len := if use_crc then 2 else 1 in
  let* body := replicateM (Z.to_nat (2 + XyBlockSize_len size + check_len))
                 (read_byte XYMODEM_TIMEOUT) in
  protocol (if use_crc then parse_crc (marker :: body) else parse_checksum (marker :: body)).

Definition read_xymodem_block (use_crc : bool) : IO I XyBlock :=
  let* marker := read_byte XYMODEM_TIMEOUT in
  let* size := lift (ok_or (XyBlockSize_from_marker marker) (UnexpectedByte marker)) in
  read_block_body marker size use_crc.

Definition read_xymodem_packet (use_crc : bool) : IO I XymodemPacket :=
  let* marker := read_byte XYMODEM_TIMEOUT in
  if marker =? EOT then ret EndOfTransmission
  else if marker =? CAN then second_can (throw (UnexpectedByte CAN))
  else
    let* size := lift (ok_or (XyBlockSize_from_marker marker) (UnexpectedByte marker)) in
    let* block := read_block_body marker size use_crc in
    ret (Block block).

Definition wait_for_xymodem_start : IO I bool :=
  for_return XYMODEM_RETRIES
    (let* b := read_byte XYMODEM_TIMEOUT in
     if b =? WANT_CRC then ret (Some true)
     else if b =? NAK then ret (Some false)
     else if b =? CAN then second_can (ret None)
     else ret None)
    (throw Timeout).

Definition finish_xymodem_send : IO I unit :=
  for_return XYMODEM_RETRIES
    (do* write_all [EOT] in
     let* b := read_byte XYMODEM_TIMEOUT in
     if b =? ACK then ret (Some tt)
     else if b =? NAK then ret None
     else if b =? CAN then second_can (ret None)
     else throw (UnexpectedByte b))
    (throw Timeout).

Definition expect_byte_or_cancel (expected : Z) : IO I unit :=
  let* b := read_byte XYMODEM_TIMEOUT in
  if b =? expected then ret tt
  else if b =? CAN then second_can (throw (UnexpectedByte CAN))
  else throw (UnexpectedByte b).

Section Sender.
Context {R : Type} `{Read R}.

(** One turn of the loop of [send_xymodem_blocks]: the loop's variables are
    the block number and the byte count. *)
Definition send_blocks_body (block_size : XyBlockSize) (use_crc : bool) (v : Z * Z)
    : IO (I * R) (Z * Z + Z) :=
  let '(number, total) := v in
  let len := XyBlockSize_len block_size in
  let* got := on_snd (read_padded len) in
  if zlen got =? 0 then ret (inr total)
  else
    let buffer := got ++ replicate (Z.to_nat (len - zlen got)) CPMEOF in
    do* on_fst (send_xymodem_block number block_size buffer use_crc) in
    ret (inl (wrap 8 (number + 1), total + zlen got)).

Definition send_xymodem_blocks (fuel : nat) (block_size : XyBlockSize) (use_crc : bool)
    : IO (I * R) Z :=
  loop fuel (send_blocks_body block_size use_crc) (1, 0).

Definition send_xmodem (fuel : nat) (block_mode : XmodemBlockMode) : IO (I * R) Z :=
  let* use_crc := on_fst wait_for_xymodem_start in
  let* bytes_sent := send_xymodem_blocks fuel (block_mode_size block_mode) use_crc in
  do* on_fst finish_xymodem_send in
  ret bytes_sent.
End Sender.

Section YmodemSender.
Context {R : Type} `{Read R}.

Definition send_ymodem_entry (fuel : nat) (entry : YmodemSendStreamEntry R) : IO I Z :=
  do* wait_for_xymodem_start in
  let* header := protocol (YmodemFileHeader_new (ys_file_name entry) (Some (ys_file_size entry))) in
  let* block0 := protocol (encode_block0_payload header) in
  do* send_xymodem_block 0 Bytes128 block0 true in
  do* expect_byte_or_cancel WANT_CRC in
  let* entry_bytes :=
    with_reader (ys_reader entry, ys_file_size entry) (send_xymodem_blocks fuel Bytes1024 true) in
  if negb (entry_bytes =? ys_file_size entry) then throw UnexpectedFrame
  else
    do* finish_xymodem_send in
    ret entry_bytes.

Fixpoint send_ymodem_entries (fuel : nat) (entries : list (YmodemSendStreamEntry R)) (total : Z)
    : IO I Z :=
  match entries with
  | [] => ret total
  | entry :: rest =>
      let* entry_bytes := send_ymodem_entry fuel entry in
      send_ymodem_entries fuel rest (total + entry_bytes)
  end.

Definition send_ymodem_stream (fuel : nat) (entries : list (YmodemSendStreamEntry R)) : IO I Z :=
  let* total := send_ymodem_entries fuel entries 0 in
  do* wait_for_xymodem_start in
  do* send_xymodem_block 0 Bytes128 (replicate 128 0) true in
  ret total.
End YmodemSender.

Definition send_ymodem (fuel : nat) (entries : list YmodemSendEntry) : IO I Z :=
  send_ymodem_stream fuel
    (map (fun e => mkYmodemSendStreamEntry (yse_file_name e) (yse_file_size e) (yse_bytes e)) entries).

Section Receiver.
Context {F W : Type} `{Write F W}.

(** The block arm of [receive_xymodem_blocks]: the expected block is stored
    and acknowledged, the previous one is acknowledged again, any other is
    refused. *)
Definition receive_block (writer : W) (expected_size : option Z) (v : Z * Z * nat) (block : XyBlock)
    : IO (I * F) (Z * Z * nat + Z) :=
  let '(expected, total, retries) := v in
  if xb_number block =? expected then
    let write_len :=
      match expected_size with
      | Some size => Z.min (sat_sub size total) (zlen (xb_payload block))
      | None => zlen (xb_payload block)
      end in
    do* (if 0 <? write_len
         then on_snd (writer_write_all writer (ztake write_len (xb_payload block)))
         else ret tt) in
    let total := if 0 <? write_len then total + write_len else total in
    do* on_fst (write_all [ACK]) in
    ret (inl (wrap 8 (expected + 1), total, 0%nat))
  else if negb (xb_number block =? wrap 8 (expected - 1)) then
    do* on_fst (write_all [NAK]) in
    ret (inl (expected, total, 0%nat))
  else
    do* on_fst (write_all [ACK]) in
    ret (inl (expected, total, 0%nat)).

(** One turn of the loop of [receive_xymodem_blocks]: the loop's variables are
    the expected block number, the bytes written and the consecutive errors. *)
Definition receive_blocks_body (writer : W) (use_crc : bool) (expected_size : option Z)
    (use_ymodem_eot_handshake : bool) (v : Z * Z * nat) : IO (I * F) (Z * Z * nat + Z) :=
  let '(expected, total, retries) := v in
  let* packet := attempt (on_fst (read_xymodem_packet use_crc)) in
  match packet with
  | Ok EndOfTransmission =>
      do* (if use_ymodem_eot_handshake then
             do* on_fst (write_all [NAK]) in
             on_fst (expect_byte_or_cancel EOT)
           else ret tt) in
      do* on_snd (writer_flush writer) in
      do* on_fst (write_all [ACK]) in
      ret (inr total)
  | Ok (Block block) => receive_block writer expected_size v block
  | Err Cancelled => throw Cancelled
  | Err error =>
      if decide (retries < XYMODEM_RETRIES)%nat then
        do* on_fst (write_all [NAK]) in
        if decide (error = UnexpectedByte EOT) then throw error
        else ret (inl (expected, total, S retries))
      else throw error
  end.

Definition receive_xymodem_blocks (fuel : nat) (writer : W) (use_crc : bool)
    (expected_size : option Z) (use_ymodem_eot_handshake : bool) : IO (I * F) Z :=
  loop fuel (receive_blocks_body writer use_crc expected_size use_ymodem_eot_handshake) (1, 0, 0%nat).

Definition receive_xmodem (fuel : nat) (writer : W) (use_crc : bool) : IO (I * F) Z :=
  do* on_fst (write_all [if use_crc then WANT_CRC else NAK]) in
  receive_xymodem_blocks fuel writer use_crc None false.

(** One turn of the loop of [receive_ymodem]. *)
Definition receive_ymodem_body (fuel : nat) (open_writer : YmodemFileHeader -> IO F W)
    (received : list YmodemFileHeader)
    : IO (I * F) (list YmodemFileHeader + list YmodemFileHeader) :=
  do* on_fst (write_all [WANT_CRC]) in
  let* header_block := on_fst (read_xymodem_block true) in
  if negb (xb_number header_block =? 0) then
    do* on_fst (write_all [NAK]) in
    ret (inl received)
  else
    do* on_fst (write_all [ACK]) in
    let* parsed := protocol (parse_block0_payload (xb_payload header_block)) in
    match parsed with
    | None => ret (inr received)
    | Some header =>
        do* on_fst (write_all [WANT_CRC]) in
        let* writer := on_snd (open_writer header) in
        let* bytes := receive_xymodem_blocks fuel writer true (yh_file_size header) true in
        match yh_file_size header with
        | Some size =>
            if bytes <? size then throw UnexpectedFrame else ret (inl (received ++ [header]))
        | None => ret (inl (received ++ [header]))
        end
    end.

Definition receive_ymodem (fuel : nat) (open_writer : YmodemFileHeader -> IO F W)
    : IO (I * F) (list YmodemFileHeader) :=
  loop fuel (receive_ymodem_body fuel open_writer) [].
End Receiver.
End Transfer.

(** ** Running the transfers over the in-memory transport *)

Abbreviation mem := mkMemoryModemIo.

Lemma bind_on_fst {E S T A B} (m : M E S A) (f : A -> M E (S * T) B) s t a s' :
  m s = Some (Ok a, s') -> bind (on_fst m) f (s, t) = f a (s', t).
Proof. intros H. apply bind_ok. by apply on_fst_run. Qed.

Lemma bind_on_snd {E S T A B} (m : M E T A) (f : A -> M E (S * T) B) s t a t' :
  m t = Some (Ok a, t') -> bind (on_snd m) f (s, t) = f a (s, t').
Proof. intros H. apply bind_ok. by apply on_snd_run. Qed.

Lemma replicateM_read l rest o t n :
  n = length l -> replicateM n (read_byte t) (mem (l ++ rest) o) = Some (Ok l, mem rest o).
Proof.
  intros ->. induction l as [|b l IH]; [done|]. cbn [length replicateM app].
  erewrite bind_ok by apply read_byte_cons. by erewrite bind_ok by apply IH.
Qed.

Definition encode_block (use_crc : bool) (b : XyBlock) : list Z :=
  if use_crc then encode_crc b else encode_checksum b.

Lemma encode_block_shape (use_crc : bool) b :
  block_ok b -> exists body,
    encode_block use_crc b = XyBlockSize_marker (xb_size b) :: body
    /\ length body = Z.to_nat (2 + XyBlockSize_len (xb_size b) + (if use_crc then 2 else 1))
    /\ (if use_crc then parse_crc (XyBlockSize_marker (xb_size b) :: body)
        else parse_checksum (XyBlockSize_marker (xb_size b) :: body)) = Ok b.
Proof.
  intros Hok. pose proof (parse_encode_crc b Hok) as Hc. pose proof (parse_encode_checksum b Hok) as Hs.
  destruct Hok as (_ & Hl & _). destruct use_crc; eexists; (split; [reflexivity|]); (split; [|done]);
    unfold zlen in Hl; cbn [length]; rewrite length_app; cbn [length u16_to_be]; lia.
Qed.

Lemma read_body_run (use_crc : bool) b body rest o :
  length body = Z.to_nat (2 + XyBlockSize_len (xb_size b) + (if use_crc then 2 else 1)) ->
  (if use_crc then parse_crc (XyBlockSize_marker (xb_size b) :: body)
   else parse_checksum (XyBlockSize_marker (xb_size b) :: body)) = Ok b ->
  read_block_body (XyBlockSize_marker (xb_size b)) (xb_size b) use_crc (mem (body ++ rest) o)
  = Some (Ok b, mem rest o).
Proof.
  intros Hlen Hp. unfold read_block_body.
  erewrite bind_ok by (apply replicateM_read; symmetry; exact Hlen).
  unfold protocol, lift. by rewrite Hp.
Qed.

Lemma read_block_run use_crc b rest o :
  block_ok b ->
  read_xymodem_block use_crc (mem (encode_block use_crc b ++ rest) o) = Some (Ok b, mem rest o).
Proof.
  intros Hok. destruct (encode_block_shape use_crc b Hok) as (body & -> & Hlen & Hp).
  unfold read_xymodem_block. cbn [app]. erewrite bind_ok by apply read_byte_cons.
  rewrite marker_roundtrip. cbn [ok_or]. erewrite bind_ok by reflexivity. by apply read_body_run.
Qed.

Lemma read_packet_run use_crc b rest o :
  block_ok b ->
  read_xymodem_packet use_crc (mem (encode_block use_crc b ++ rest) o)
  = Some (Ok (Block b), mem rest o).
Proof.
  intros Hok. destruct (encode_block_shape use_crc b Hok) as (body & -> & Hlen & Hp).
  unfold read_xymodem_packet. cbn [app]. erewrite bind_ok by apply read_byte_cons.
  replace (XyBlockSize_marker (xb_size b) =? EOT) with false by (by destruct (xb_size b)).
  replace (XyBlockSize_marker (xb_size b) =? CAN) with false by (by destruct (xb_size b)).
  rewrite marker_roundtrip. cbn [ok_or]. erewrite bind_ok by reflexivity.
  by erewrite bind_ok by (by apply read_body_run).
Qed.

(** A sender's block: the bytes of the file and CP/M end-of-file padding. *)
Definition padded (size : XyBlockSize) (got : list Z) : list Z :=
  got ++ replicate (Z.to_nat (XyBlockSize_len size - zlen got)) CPMEOF.

Lemma padded_len size got : zlen got <= XyBlockSize_len size -> zlen (padded size got) = XyBlockSize_len size.
Proof. intros H. unfold padded. rewrite zlen_app, zlen_replicate. lia. Qed.

Lemma padded_ok size got : bytes_ok got -> bytes_ok (padded size got).
Proof.
  intros H. apply Forall_app. split; [done|]. apply Forall_replicate. unfold in_width, CPMEOF. lia.
Qed.

Lemma XyBlock_new_full number size payload :
  zlen payload = XyBlockSize_len size ->
  XyBlock_new number size payload = Ok (mkXyBlock number size payload).
Proof.
  intros H. unfold XyBlock_new. rewrite H, Z.ltb_irrefl. do 2 f_equal.
  rewrite copy_at_replicate by lia. rewrite Z.add_0_l, H, Nat.sub_diag. apply app_nil_r.
Qed.

Lemma with_reader_run {S T A} (m : IO (S * T) A) s t r s' t' :
  m (s, t) = Some (r, (s', t')) -> with_reader t m s = Some (r, s').
Proof. intros H. unfold with_reader. by rewrite H. Qed.

(** One acknowledged block. *)
Lemma send_block_run number size payload use_crc rest o :
  zlen payload = XyBlockSize_len size ->
  send_xymodem_block number size payload use_crc (mem (ACK :: rest) o)
  = Some (Ok tt, mem rest (o ++ encode_block use_crc (mkXyBlock number size payload))).
Proof.
  intros H. unfold send_xymodem_block. rewrite XyBlock_new_full by done.
  destruct use_crc; reflexivity.
Qed.

Lemma read_padded_loop {R} `{LawfulReader R} len fuel got r l :
  0 < len -> (Z.to_nat (len - zlen got) < fuel)%nat -> zlen got <= len -> stands_for r l ->
  exists r',
    loop fuel (fun got : list Z =>
       if zlen got <? len then
         let* more := read (len - zlen got) in
         if zlen more =? 0 then ret (inr got) else ret (inl (got ++ more))
       else ret (inr got)) got r
    = Some (Ok (got ++ ztake (len - zlen got) l), r') /\ stands_for r' (zdrop (len - zlen got) l).
Proof.
  intros Hl. revert got r l. induction fuel as [|fuel IH]; intros got r l Hf Hg Hr; [lia|].
  rewrite loop_S. destruct (Z.ltb_spec (zlen got) len) as [Hlt|Hge].
  - destruct (read_prefix (len - zlen got) r l) as (more & rest & r' & Hread & Hr' & -> & Hm & Hne);
      [lia|done|].
    rewrite bind_assoc. erewrite bind_ok by exact Hread.
    destruct (Z.eqb_spec (zlen more) 0) as [Hz|Hz].
    + assert (more = []) as -> by (destruct more; [done|rewrite zlen_cons in Hz; pose proof (zlen_nonneg more); lia]).
      specialize (Hne eq_refl). simpl in Hne. subst rest. exists r'. simpl.
      unfold ztake, zdrop. rewrite take_nil, drop_nil, app_nil_r. done.
    + cbn [bind ret]. destruct (IH (got ++ more) r' rest) as (r'' & -> & Hr'');
        [rewrite zlen_app; pose proof (zlen_nonneg more); lia|rewrite zlen_app; lia|done|].
      exists r''. rewrite zlen_app in *.
      assert (Hn : Z.to_nat (len - (zlen got + zlen more)) = (Z.to_nat (len - zlen got) - length more)%nat)
        by (unfold zlen in *; lia).
      unfold ztake, zdrop in *. rewrite Hn in *.
      rewrite take_app_ge, drop_app_ge by (unfold zlen in *; lia). by rewrite <-app_assoc.
  - cbn [bind ret]. exists r. replace (len - zlen got) with 0 by lia. unfold ztake, zdrop. simpl.
    by rewrite app_nil_r.
Qed.

Lemma read_padded_run {R} `{LawfulReader R} len r l :
  0 < len -> stands_for r l ->
  exists r', read_padded len r = Some (Ok (ztake len l), r') /\ stands_for r' (zdrop len l).
Proof.
  intros Hl Hr. destruct (read_padded_loop len (S (Z.to_nat len)) [] r l) as (r' & H1 & H2);
    [lia|rewrite zlen_nil; lia|rewrite zlen_nil; lia|done|].
  rewrite zlen_nil, Z.sub_0_r in *. by exists r'.
Qed.

(** The sender's loop, for a lawful reader and a peer that acknowledges. *)
Lemma send_body_run {R} `{LawfulReader R} size use_crc number total r d rest o :
  stands_for r d -> d <> [] ->
  let chunk := ztake (XyBlockSize_len size) d in
  exists r',
    send_blocks_body size use_crc (number, total) (mem (ACK :: rest) o, r)
    = Some (Ok (inl (wrap 8 (number + 1), total + zlen chunk)),
        (mem rest (o ++ encode_block use_crc (mkXyBlock number size (padded size chunk))), r'))
    /\ stands_for r' (zdrop (XyBlockSize_len size) d).
Proof.
  intros Hr Hd chunk. pose proof (size_len_pos size).
  destruct (read_padded_run (XyBlockSize_len size) r d) as (r' & Hread & Hr'); [lia|done|].
  exists r'. split; [|done]. unfold send_blocks_body. erewrite bind_on_snd by exact Hread.
  fold chunk. destruct (Z.eqb_spec (zlen chunk) 0) as [Hz|Hz].
  { exfalso. apply Hd. apply (ztake_nil_inv (XyBlockSize_len size)); [lia|].
    destruct chunk eqn:Hc; [done|]. rewrite zlen_cons in Hz. pose proof (zlen_nonneg l). lia. }
  change (chunk ++ replicate _ CPMEOF) with (padded size chunk).
  erewrite bind_on_fst; [reflexivity|]. apply send_block_run, padded_len. apply zlen_ztake_le. lia.
Qed.

Lemma send_body_end {R} `{LawfulReader R} size use_crc number total r io :
  stands_for r [] ->
  exists r', send_blocks_body size use_crc (number, total) (io, r)
             = Some (Ok (inr total), (io, r')).
Proof.
  intros Hr. pose proof (size_len_pos size).
  destruct (read_padded_run (XyBlockSize_len size) r []) as (r' & Hread & Hr'); [lia|done|].
  exists r'. unfold send_blocks_body. erewrite bind_on_snd by exact Hread.
  unfold ztake. by rewrite take_nil.
Qed.

(** One in-order block at the receiver. *)
Lemma receive_body_block use_crc expected_size eot number total retries size payload rest o fs name w :
  block_ok (mkXyBlock number size payload) ->
  let n := match expected_size with
           | Some s => Z.min (sat_sub s total) (zlen payload)
           | None => zlen payload
           end in
  0 < n ->
  receive_blocks_body (length fs) use_crc expected_size eot (number, total, retries)
    (mem (encode_block use_crc (mkXyBlock number size payload) ++ rest) o, fs ++ [(name, w)])
  = Some (Ok (inl (wrap 8 (number + 1), total + n, 0%nat)),
      (mem rest (o ++ [ACK]), fs ++ [(name, w ++ ztake n payload)])).
Proof.
  intros Hok n Hn. unfold receive_blocks_body, receive_block.
  erewrite bind_ok by (apply attempt_run, on_fst_run, read_packet_run, Hok).
  cbn [xb_number xb_payload]. rewrite Z.eqb_refl. fold n.
  replace (0 <? n) with true by lia.
  erewrite bind_on_snd by apply store_write_last.
  by erewrite bind_on_fst by apply write_all_run.
Qed.

(** ** Sender and receiver together *)

(** The padding that completes the last block of a file. *)
Definition last_pad (size : XyBlockSize) (d : list Z) : Z := (- zlen d) mod XyBlockSize_len size.

(** What the receiver stores of a file: exactly the file when the size was
    announced, whole blocks otherwise. *)
Definition stored (size : XyBlockSize) (announced : bool) (d : list Z) : list Z :=
  if announced then d else d ++ replicate (Z.to_nat (last_pad size d)) CPMEOF.
Definition announced (expected_size : option Z) : bool :=
  match expected_size with Some _ => true | None => false end.

Lemma last_pad_range size d : 0 <= last_pad size d < XyBlockSize_len size.
Proof. apply Z.mod_pos_bound. pose proof (size_len_pos size). lia. Qed.

Lemma last_pad_nil size : last_pad size [] = 0.
Proof. destruct size; reflexivity. Qed.

(** Cutting the first block off a file. *)
Lemma chunk_cases size d :
  let len := XyBlockSize_len size in
  (zlen (ztake len d) = len /\ zlen (zdrop len d) = zlen d - len
   /\ padded size (ztake len d) = ztake len d /\ last_pad size d = last_pad size (zdrop len d))
  \/ (ztake len d = d /\ zdrop len d = [] /\ zlen d < len
      /\ (d <> [] -> last_pad size d = len - zlen d)).
Proof.
  intros len. pose proof (size_len_pos size). fold len in H.
  destruct (Z.le_gt_cases len (zlen d)) as [Hle|Hgt].
  - left. assert (Ht : zlen (ztake len d) = len) by (apply zlen_ztake; lia).
    assert (Hd : zlen (zdrop len d) = zlen d - len) by (apply zlen_zdrop; lia).
    split_and!; [done|done| |].
    + unfold padded. rewrite Ht. fold len. replace (len - len) with 0 by lia. apply app_nil_r.
    + unfold last_pad. fold len. rewrite Hd. replace (- (zlen d - len)) with (- zlen d + 1 * len) by lia.
      by rewrite Z.mod_add by lia.
  - right. unfold ztake, zdrop, zlen in *. rewrite take_ge, drop_ge by lia. split_and!; [done|done|lia|].
    intros Hne. unfold last_pad. fold len. symmetry. apply Z.mod_unique_pos with (-1); [|unfold zlen; lia].
    assert (length d <> 0)%nat by (by destruct d). lia.
Qed.

Lemma stored_step size (k : bool) d :
  d <> [] ->
  stored size k d
  = (if k then ztake (XyBlockSize_len size) d else padded size (ztake (XyBlockSize_len size) d))
    ++ stored size k (zdrop (XyBlockSize_len size) d).
Proof.
  intros Hne. destruct k; simpl; [by rewrite ztake_zdrop|].
  destruct (chunk_cases size d) as [(H1 & H2 & -> & ->)|(H1 & H2 & H3 & H4)].
  - by rewrite app_assoc, ztake_zdrop.
  - rewrite H1, H2, H4, last_pad_nil by done. simpl. unfold padded. by rewrite app_nil_r.
Qed.

Section Phase.
Context {R : Type} `{LawfulReader R}.
Context (size : XyBlockSize) (use_crc : bool).

(** The block phase of a transfer: there are frames and acknowledgements such
    that the sender, fed the acknowledgements, sends the frames, and the
    receiver, fed the frames, sends the acknowledgements and stores the
    file. *)
Definition phase_spec (d : list Z) (number : Z) (frames acks : list Z) (nb : nat) : Prop :=
  (forall fuel r rest o total, stands_for r d -> (nb < fuel)%nat -> exists r',
     loop fuel (send_blocks_body size use_crc) (number, total) (mem (acks ++ rest) o, r)
     = Some (Ok (total + zlen d), (mem rest (o ++ frames), r')))
  /\ (forall es eot fuel rest o fs name w total,
        0 <= total -> es = None \/ es = Some (total + zlen d) -> exists number',
        loop (nb + fuel) (receive_blocks_body (length fs) use_crc es eot) (number, total, 0%nat)
          (mem (frames ++ rest) o, fs ++ [(name, w)])
        = loop fuel (receive_blocks_body (length fs) use_crc es eot)
            (number', total + zlen (stored size (announced es) d), 0%nat)
            (mem rest (o ++ acks), fs ++ [(name, w ++ stored size (announced es) d)])).

Lemma phase_nil number : phase_spec [] number [] [] 0.
Proof.
  split.
  - intros fuel r rest o total Hr Hf.
    destruct (send_body_end size use_crc number total r (mem rest o) Hr) as (r' & Hb).
    exists r'. rewrite app_nil_r, zlen_nil, Z.add_0_r. by apply loop_break.
  - intros es eot fuel rest o fs name w total _ _. exists number. cbn [app plus].
    assert (Hs : stored size (announced es) [] = []) by (destruct es; simpl; by rewrite ?last_pad_nil).
    by rewrite Hs, zlen_nil, Z.add_0_r, !app_nil_r.
Qed.

(** What one block adds to the file. *)
Lemma written_len es d total :
  d <> [] -> es = None \/ es = Some (total + zlen d) ->
  let len := XyBlockSize_len size in
  let n := match es with
           | Some s => Z.min (sat_sub s total) (zlen (padded size (ztake len d)))
           | None => zlen (padded size (ztake len d))
           end in
  let piece := if announced es then ztake len d else padded size (ztake len d) in
  0 < n /\ n = zlen piece /\ ztake n (padded size (ztake len d)) = piece.
Proof.
  intros Hne Hes len n piece. pose proof (size_len_pos size) as Hlen. fold len in Hlen.
  assert (Hpl : zlen (padded size (ztake len d)) = len) by (apply padded_len, zlen_ztake_le; lia).
  assert (Hdn : 0 < zlen d) by (destruct d; [done|rewrite zlen_cons; pose proof (zlen_nonneg d); lia]).
  assert (Htk : zlen (ztake len d) = Z.min (zlen d) len).
  { unfold ztake, zlen. rewrite length_take. lia. }
  destruct Hes as [-> | ->]; subst n piece; cbn [announced].
  - rewrite Hpl. split_and!; [lia|done|]. rewrite <-Hpl at 1.
    rewrite <-(app_nil_r (padded _ _)) at 2. by apply ztake_app.
  - rewrite Hpl, Htk. unfold sat_sub.
    replace (Z.min (Z.max (total + zlen d - total) 0) len) with (Z.min (zlen d) len) by lia.
    split_and!; [lia|done|]. unfold padded. by apply ztake_app.
Qed.

Lemma phase_cons d number frames acks nb :
  d <> [] -> bytes_ok d -> is_u8 number ->
  let len := XyBlockSize_len size in
  phase_spec (zdrop len d) (wrap 8 (number + 1)) frames acks nb ->
  phase_spec d number
    (encode_block use_crc (mkXyBlock number size (padded size (ztake len d))) ++ frames)
    (ACK :: acks) (S nb).
Proof.
  intros Hne Hd Hn len [IHs IHr]. pose proof (size_len_pos size) as Hlen. fold len in Hlen.
  assert (Hsplit : zlen d = zlen (ztake len d) + zlen (zdrop len d)).
  { rewrite <-zlen_app. by rewrite ztake_zdrop. }
  split.
  - intros fuel r rest o total Hr Hf. destruct fuel as [|fuel]; [lia|].
    destruct (send_body_run size use_crc number total r d (acks ++ rest) o Hr Hne) as (r' & Hb & Hr').
    cbn [app]. rewrite (loop_continue _ _ _ _ _ _ Hb). fold len in Hr' |- *.
    edestruct (IHs fuel r' rest) as (r'' & ->); [done|lia|].
    exists r''. rewrite <-app_assoc, Hsplit, Z.add_assoc. done.
  - intros es eot fuel rest o fs name w total Ht Hes.
    destruct (written_len es d total Hne Hes) as (Hn0 & Hnl & Hnt). fold len in Hn0, Hnl, Hnt.
    cbn [plus]. rewrite <-app_assoc. erewrite loop_continue.
    2: { apply receive_body_block; [|done]. split; [done|]. split.
         - apply padded_len, zlen_ztake_le. change (0 <= len). lia.
         - apply padded_ok. by apply bytes_ok_ztake. }
    rewrite Hnt, Hnl. rewrite stored_step by done. fold len.
    edestruct (IHr es eot fuel rest (o ++ [ACK])) as (number' & ->).
    3: { exists number'. rewrite <-!app_assoc, zlen_app, Z.add_assoc. reflexivity. }
    + pose proof (zlen_nonneg (if announced es then ztake len d else padded size (ztake len d))). lia.
    + destruct Hes as [-> | ->]; [by left|right]. f_equal. cbn [announced]. lia.
Qed.

Lemma phase_exists n d number :
  (length d <= n)%nat -> bytes_ok d -> is_u8 number ->
  exists frames acks nb, phase_spec d number frames acks nb /\ (nb <= length d)%nat.
Proof.
  revert d number. induction n as [|n IH]; intros d number Hlen Hd Hn.
  - destruct d; [|simpl in Hlen; lia]. exists [], [], 0%nat. split; [apply phase_nil|lia].
  - destruct (decide (d = [])) as [->|Hne].
    { exists [], [], 0%nat. split; [apply phase_nil|lia]. }
    pose proof (size_len_pos size) as Hpos.
    assert (Hdrop : (length (zdrop (XyBlockSize_len size) d) < length d)%nat).
    { unfold zdrop. rewrite length_drop. destruct d; [done|]. simpl. lia. }
    destruct (IH (zdrop (XyBlockSize_len size) d) (wrap 8 (number + 1))) as (frames & acks & nb & Hp & Hb);
      [lia|by apply bytes_ok_zdrop|apply in_width_wrap; lia|].
    eexists _, _, (S nb). split; [by apply phase_cons|lia].
Qed.
End Phase.

(** The end of a file: EOT, and with the YMODEM handshake NAK and EOT again. *)
Definition eot_frames (handshake : bool) : list Z := if handshake then [EOT; EOT] else [EOT].
Definition eot_replies (handshake : bool) : list Z := if handshake then [NAK; ACK] else [ACK].

Lemma finish_run handshake rest o :
  finish_xymodem_send (mem (eot_replies handshake ++ rest) o)
  = Some (Ok tt, mem rest (o ++ eot_frames handshake)).
Proof. destruct handshake; [|reflexivity]. change (eot_frames true) with ([EOT] ++ [EOT]). by rewrite app_assoc. Qed.

Lemma receive_eot_run writer use_crc es handshake v rest o (fs : FileStore) :
  receive_blocks_body writer use_crc es handshake v (mem (eot_frames handshake ++ rest) o, fs)
  = Some (Ok (inr (v.1.2)), (mem rest (o ++ eot_replies handshake), fs)).
Proof.
  destruct v as [[expected total] retries].
  destruct handshake; [|reflexivity]. change (eot_replies true) with ([NAK] ++ [ACK]). by rewrite app_assoc.
Qed.

Lemma wait_start_run (use_crc : bool) rest o :
  wait_for_xymodem_start (mem ((if use_crc then WANT_CRC else NAK) :: rest) o)
  = Some (Ok use_crc, mem rest o).
Proof. destruct use_crc; reflexivity. Qed.

(** A whole file: the blocks, and at the receiver the end of transmission. *)
Lemma file_exists {R} `{LawfulReader R} size (use_crc : bool) d handshake :
  bytes_ok d -> exists frames acks,
    (forall fuel r rest o, stands_for r d -> (length d < fuel)%nat -> exists r',
       send_xymodem_blocks fuel size use_crc (mem (acks ++ rest) o, r)
       = Some (Ok (zlen d), (mem rest (o ++ frames), r')))
    /\ (forall es fuel rest o fs name, es = None \/ es = Some (zlen d) -> (length d < fuel)%nat ->
        receive_xymodem_blocks fuel (length fs) use_crc es handshake
          (mem (frames ++ eot_frames handshake ++ rest) o, fs ++ [(name, [])])
        = Some (Ok (zlen (stored size (announced es) d)),
            (mem rest (o ++ acks ++ eot_replies handshake),
             fs ++ [(name, stored size (announced es) d)]))).
Proof.
  intros Hd.
  destruct (phase_exists size use_crc (length d) d 1) as (frames & acks & nb & [Hs Hr] & Hnb);
    [done|done|unfold in_width; lia|].
  exists frames, acks. split.
  - intros fuel r rest o Hst Hf. apply (Hs fuel r rest o 0 Hst). lia.
  - intros es fuel rest o fs name Hes Hf. unfold receive_xymodem_blocks.
    replace fuel with (nb + (fuel - nb))%nat by lia.
    destruct (Hr es handshake (fuel - nb)%nat (eot_frames handshake ++ rest) o fs name [] 0)
      as (number' & ->); [lia|done|].
    erewrite loop_break; [|lia|apply receive_eot_run]. cbn [fst snd app]. by rewrite <-app_assoc.
Qed.

(** The XMODEM session. *)
Lemma xmodem_session {R} `{LawfulReader R} mode (use_crc : bool) d r :
  bytes_ok d -> stands_for r d -> exists s2r r2s,
    (forall fuel, (length d < fuel)%nat -> exists r',
       send_xmodem fuel mode (mem r2s [], r) = Some (Ok (zlen d), (mem [] s2r, r')))
    /\ (forall fuel fs name, (length d < fuel)%nat ->
        let out := stored (block_mode_size mode) false d in
        receive_xmodem fuel (length fs) use_crc (mem s2r [], fs ++ [(name, [])])
        = Some (Ok (zlen out), (mem [] r2s, fs ++ [(name, out)]))).
Proof.
  intros Hd Hr.
  destruct (file_exists (block_mode_size mode) use_crc d false Hd) as (frames & acks & Hs & Hv).
  exists (frames ++ [EOT]), ((if use_crc then WANT_CRC else NAK) :: acks ++ [ACK]). split.
  - intros fuel Hf. destruct (Hs fuel r [ACK] [] Hr Hf) as (r' & Hrun). exists r'.
    unfold send_xmodem. erewrite bind_on_fst by apply wait_start_run.
    erewrite bind_ok by exact Hrun. by erewrite bind_on_fst by apply (finish_run false).
  - intros fuel fs name Hf. unfold receive_xmodem. erewrite bind_on_fst by apply write_all_run.
    apply (Hv None fuel []); auto.
Qed.

(** ** YMODEM batches *)

(** The header block of an entry. *)
Definition block0 (p : list Z) : XyBlock := mkXyBlock 0 Bytes128 p.

(** An entry a sender may offer: the reader holds the announced bytes, and
    perhaps more, and block zero has room for the name and the size. *)
Definition sendable {R} `{LawfulReader R} (e : YmodemSendStreamEntry R) (d : list Z) : Prop :=
  (exists extra, stands_for (ys_reader e) (d ++ extra)) /\ ys_file_size e = zlen d
  /\ is_u64 (zlen d) /\ bytes_ok d
  /\ validate_ymodem_file_name (ys_file_name e) = Ok tt /\ str_ok (ys_file_name e)
  /\ Forall (fun c => c <> 0) (ys_file_name e)
  /\ exists p, encode_block0_payload (mkYmodemFileHeader (ys_file_name e) (Some (zlen d))) = Ok p.

Definition entry_header {R} (e : YmodemSendStreamEntry R) : YmodemFileHeader :=
  mkYmodemFileHeader (ys_file_name e) (Some (ys_file_size e)).

(** Files are opened in the store under the received name. *)
Definition open_in_store (h : YmodemFileHeader) : IO FileStore nat := store_open (yh_file_name h).

Lemma block0_ok p : zlen p = 128 -> bytes_ok p -> block_ok (block0 p).
Proof. intros Hl Hp. split_and!; [unfold in_width; simpl; lia|exact Hl|exact Hp]. Qed.

Lemma encoded_block0_ok h p :
  str_ok (yh_file_name h) -> (forall n, yh_file_size h = Some n -> is_u64 n) ->
  encode_block0_payload h = Ok p -> block_ok (block0 p).
Proof.
  intros Hs Hn Henc. destruct (encode_block0_shape h p Hn Henc) as (meta & -> & Hl & Hm).
  apply block0_ok; [done|]. apply Forall_app. split; [by apply utf8_encode_ok|].
  constructor; [unfold in_width; lia|].
  assert (Hz : forall k, bytes_ok (replicate k 0)) by (intros k; apply Forall_replicate; unfold in_width; lia).
  destruct (yh_file_size h) as [n|]; destruct Hm as (k & ->); [|apply Hz].
  apply Forall_app. split; [|constructor; [unfold in_width; lia|apply Hz]].
  eapply Forall_impl; [|apply dec_digits_range; destruct (Hn n eq_refl); lia]. unfold in_width. simpl. lia.
Qed.

Lemma ymodem_entry {R} `{LawfulReader R} e d :
  sendable e d -> exists s2r r2s,
    (forall fuel rest o, (length d < fuel)%nat ->
       send_ymodem_entry fuel e (mem (r2s ++ rest) o) = Some (Ok (zlen d), mem rest (o ++ s2r)))
    /\ (forall fuel rest o fs received, (length d < fuel)%nat ->
        receive_ymodem_body fuel open_in_store received (mem (s2r ++ rest) o, fs)
        = Some (Ok (inl (received ++ [entry_header e])),
            (mem rest (o ++ r2s), fs ++ [(ys_file_name e, d)]))).
Proof.
  intros ((extra & Hr) & Hsz & Hu & Hd & Hv & Hs & Hnz & p & Hp).
  destruct (file_exists (R := R * Z) Bytes1024 true d true Hd) as (frames & acks & Hsend & Hrecv).
  assert (Hok : block_ok (block0 p)) by (eapply encoded_block0_ok; [| |exact Hp]; simpl; [done|by intros n [= <-]]).
  exists (encode_crc (block0 p) ++ frames ++ [EOT; EOT]), (WANT_CRC :: ACK :: WANT_CRC :: acks ++ [NAK; ACK]).
  split.
  - intros fuel rest o Hf. unfold send_ymodem_entry. cbn [app].
    erewrite bind_ok by apply (wait_start_run true).
    unfold YmodemFileHeader_new. rewrite Hv, Hsz. cbn [result_bind].
    erewrite bind_ok by reflexivity. unfold protocol at 1, lift, map_err. rewrite Hp.
    erewrite bind_ok by reflexivity.
    erewrite bind_ok by (apply (send_block_run 0 Bytes128 p true), Hok).
    erewrite bind_ok by reflexivity.
    destruct (Hsend fuel (ys_reader e, zlen d) ([NAK; ACK] ++ rest) (o ++ encode_crc (block0 p)))
      as (r' & Hrun); [|done|].
    { split; [apply zlen_nonneg|]. exists (d ++ extra). split; [done|]. by rewrite ztake_app. }
    rewrite <-app_assoc. erewrite bind_ok by apply (with_reader_run _ _ _ _ _ _ Hrun).
    rewrite Z.eqb_refl. cbn [negb]. erewrite bind_ok by apply (finish_run true). by rewrite !app_assoc.
  - intros fuel rest o fs received Hf. unfold receive_ymodem_body.
    erewrite bind_on_fst by apply write_all_run. rewrite <-app_assoc.
    erewrite bind_on_fst by apply (read_block_run true _ _ _ Hok). cbn [xb_number block0 xb_payload].
    change (negb (0 =? 0)) with false. cbn iota.
    erewrite bind_on_fst by apply write_all_run.
    unfold protocol, lift. rewrite (parse_encode_block0 (mkYmodemFileHeader (ys_file_name e) (Some (zlen d))) p)
      by (simpl; try done; by intros n [= <-]).
    erewrite bind_ok by reflexivity. cbn iota beta. erewrite bind_on_fst by apply write_all_run.
    erewrite bind_on_snd by reflexivity. cbn [yh_file_size yh_file_name].
    rewrite <-app_assoc. erewrite bind_ok by (apply Hrecv; auto). cbn [announced stored].
    rewrite Z.ltb_irrefl. unfold entry_header. rewrite Hsz. unfold ret. do 3 f_equal.
    by rewrite <-!app_assoc.
Qed.

Lemma null_block0_ok : block_ok (block0 (replicate 128 0)).
Proof. apply block0_ok; [done|]. apply Forall_replicate. unfold in_width. lia. Qed.

(** The entries of a batch, then the null header. *)
Lemma ymodem_batch {R} `{LawfulReader R} es ds :
  Forall2 sendable es ds -> exists s2r r2s,
    (forall fuel rest o total, Forall (fun d => length d < fuel)%nat ds ->
       send_ymodem_entries fuel es total (mem (r2s ++ rest) o)
       = Some (Ok (total + zlen (concat ds)), mem rest (o ++ s2r)))
    /\ (forall k fuel rest o fs received, Forall (fun d => length d < k)%nat ds ->
        loop (length es + fuel) (receive_ymodem_body k open_in_store) received (mem (s2r ++ rest) o, fs)
        = loop fuel (receive_ymodem_body k open_in_store) (received ++ map entry_header es)
            (mem rest (o ++ r2s), fs ++ zip (map ys_file_name es) ds)).
Proof.
  induction 1 as [|e d es ds He _ (s2r & r2s & IHs & IHr)].
  - exists [], []. split.
    + intros. cbn. by rewrite app_nil_r, Z.add_0_r.
    + intros. cbn. by rewrite !app_nil_r.
  - destruct (ymodem_entry e d He) as (s1 & r1 & Hs & Hr). exists (s1 ++ s2r), (r1 ++ r2s). split.
    + intros fuel rest o total Hall. apply Forall_cons_1 in Hall as [Hd Hds]. cbn [send_ymodem_entries concat]. rewrite <-app_assoc.
      erewrite bind_ok by (apply Hs; assumption). rewrite IHs by done.
      by rewrite zlen_app, Z.add_assoc, <-app_assoc.
    + intros k fuel rest o fs received Hall. apply Forall_cons_1 in Hall as [Hd Hds]. cbn [length plus]. rewrite <-app_assoc.
      erewrite loop_continue by (apply Hr; assumption). rewrite IHr by done.
      cbn [map zip zip_with]. by rewrite <-!app_assoc.
Qed.

Lemma ymodem_session {R} `{LawfulReader R} es ds :
  Forall2 sendable es ds -> exists s2r r2s,
    forall fuel, (length es < fuel)%nat -> Forall (fun d => length d < fuel)%nat ds ->
      send_ymodem_stream fuel es (mem r2s []) = Some (Ok (zlen (concat ds)), mem [] s2r)
      /\ receive_ymodem fuel open_in_store (mem s2r [], [])
         = Some (Ok (map entry_header es), (mem [] r2s, zip (map ys_file_name es) ds)).
Proof.
  intros H2. destruct (ymodem_batch es ds H2) as (s2r & r2s & Hs & Hr).
  exists (s2r ++ encode_crc (block0 (replicate 128 0))), (r2s ++ [WANT_CRC; ACK]).
  intros fuel He Hd. split.
  - unfold send_ymodem_stream. erewrite bind_ok by (apply Hs; assumption).
    erewrite bind_ok by apply (wait_start_run true).
    by erewrite bind_ok by by apply (send_block_run 0 Bytes128 _ true).
  - unfold receive_ymodem. replace fuel with (length es + (fuel - length es))%nat at 1 by lia.
    rewrite Hr by done. cbn [app]. apply loop_break; [lia|]. unfold receive_ymodem_body.
    erewrite bind_on_fst by apply write_all_run. rewrite <-(app_nil_r (encode_crc _)).
    erewrite bind_on_fst by apply (read_block_run true _ _ _ null_block0_ok).
    change (negb (xb_number (block0 (replicate 128 0)) =? 0)) with false. cbn iota.
    erewrite bind_on_fst by apply write_all_run. by rewrite <-app_assoc.
Qed.

(** ** The receiver on arbitrary input *)

Lemma tame_second_can {A} N (m : IO MemoryModemIo A) : tame N input m -> tame N input (second_can m).
Proof. intros H. unfold second_can. auto with tame. Qed.
#[local] Hint Resolve tame_second_can : tame.

Lemma tame_read_block_body N marker size use_crc : tame N input (read_block_body marker size use_crc).
Proof. unfold read_block_body. auto with tame. Qed.
#[local] Hint Resolve tame_read_block_body : tame.

Lemma eats_read_block N use_crc : eats N input (read_xymodem_block use_crc).
Proof. unfold read_xymodem_block. auto with tame. Qed.

Lemma eats_read_packet N use_crc : eats N input (read_xymodem_packet use_crc).
Proof. unfold read_xymodem_packet. apply eats_bind_l; auto 10 with tame. Qed.

Lemma tame_expect N b : tame N input (expect_byte_or_cancel b).
Proof. unfold expect_byte_or_cancel. auto 10 with tame. Qed.
#[local] Hint Resolve eats_read_block eats_read_packet tame_expect : tame.

(** [carries c bs]: the byte string [c] contains the encodings of the blocks
    [bs], whole and in this order, with anything between them. *)
Inductive carries (use_crc : bool) : list Z -> list XyBlock -> Prop :=
| carries_nil : carries use_crc [] []
| carries_gap c g bs : carries use_crc c bs -> carries use_crc (c ++ g) bs
| carries_block c b bs :
    carries use_crc c bs -> block_ok b -> carries use_crc (c ++ encode_block use_crc b) (bs ++ [b]).

(** Block numbers count from one, modulo 256. *)
Definition numbered (bs : list XyBlock) : Prop :=
  forall i b, bs !! i = Some b -> xb_number b = wrap 8 (Z.of_nat i + 1).

(** What a receiver that accepted the blocks [bs] has stored. *)
Definition file_of (expected_size : option Z) (bs : list XyBlock) : list Z :=
  let whole := concat (map xb_payload bs) in
  match expected_size with Some n => ztake n whole | None => whole end.

Lemma numbered_snoc bs b :
  numbered bs -> xb_number b = wrap 8 (Z.of_nat (length bs) + 1) -> numbered (bs ++ [b]).
Proof.
  intros Hbs Hb i b' [H|[Hle H]]%lookup_app_Some; [by apply Hbs|].
  assert ((i - length bs)%nat = 0%nat) as Hi by (apply lookup_lt_Some in H; simpl in H; lia).
  rewrite Hi in H. injection H as <-. by replace i with (length bs) by lia.
Qed.

Lemma ztake_app_split {A} n (l k : list A) :
  0 <= n -> ztake n (l ++ k) = ztake n l ++ ztake (sat_sub n (zlen (ztake n l))) k.
Proof.
  intros Hn. unfold ztake, zlen, sat_sub. rewrite take_app, length_take. f_equal.
  destruct (Nat.le_gt_cases (Z.to_nat n) (length l)); [|f_equal; lia].
  replace (Z.to_nat n - length l)%nat with 0%nat by lia.
  replace (Z.to_nat _) with 0%nat by lia. done.
Qed.

Lemma ztake_min {A} n (l : list A) : ztake (Z.min n (zlen l)) l = ztake n l.
Proof.
  unfold ztake, zlen. destruct (Z.le_gt_cases n (Z.of_nat (length l))); [by rewrite Z.min_l|].
  rewrite Z.min_r, Nat2Z.id by lia. rewrite !take_ge by lia. done.
Qed.

Lemma zdrop_min {A} n (l : list A) : zdrop (Z.min n (zlen l)) l = zdrop n l.
Proof.
  unfold zdrop, zlen. destruct (Z.le_gt_cases n (Z.of_nat (length l))); [by rewrite Z.min_l|].
  rewrite Z.min_r, Nat2Z.id by lia. rewrite !drop_ge by lia. done.
Qed.

(** Storing one more block. *)
Lemma file_of_snoc es bs b :
  (forall n, es = Some n -> 0 <= n) ->
  let total := zlen (file_of es bs) in
  let n := match es with
           | Some size => Z.min (sat_sub size total) (zlen (xb_payload b))
           | None => zlen (xb_payload b)
           end in
  file_of es (bs ++ [b]) = file_of es bs ++ ztake n (xb_payload b)
  /\ zlen (file_of es (bs ++ [b])) = total + n.
Proof.
  intros Hes total n.
  assert (Hf : file_of es (bs ++ [b]) = file_of es bs ++ ztake n (xb_payload b)).
  { subst n total. unfold file_of in *. rewrite map_app, concat_app. cbn [map concat]. rewrite app_nil_r.
    destruct es as [size|].
    - rewrite ztake_app_split by by apply Hes. by rewrite ztake_min.
    - unfold ztake, zlen. rewrite Nat2Z.id, take_ge by lia. done. }
  split; [done|]. rewrite Hf, zlen_app. subst total. f_equal. apply zlen_ztake. subst n.
  pose proof (zlen_nonneg (xb_payload b)). unfold sat_sub. destruct es; lia.
Qed.

Lemma wp_read_bytes n t (io : MemoryModemIo) :
  wp (replicateM n (read_byte t))
    (fun r io' => exists c, input io = c ++ input io' /\ forall l, r = Ok l -> c = l /\ length l = n) io.
Proof.
  revert io. induction n as [|n IH]; intros io; simpl.
  - apply wp_ret. exists []. split; [done|]. by intros l [= <-].
  - apply wp_bind, wp_read_byte.
    + intros b l Hi. simpl. apply wp_bind. eapply wp_mono; [apply IH|]. intros r io' (c & Hc & Hl).
      simpl in Hc. destruct r as [l'|e]; cbn [wp_then].
      * apply wp_ret. exists (b :: c). rewrite Hi, Hc. split; [done|]. intros ? [= <-].
        destruct (Hl l' eq_refl) as [-> <-]. done.
      * exists (b :: c). rewrite Hi, Hc. done.
    + intros Hi. simpl. exists []. done.
Qed.

Lemma wp_read_block_body size (use_crc : bool) (io : MemoryModemIo) :
  bytes_ok (input io) ->
  wp (read_block_body (XyBlockSize_marker size) size use_crc)
    (fun r io' => input io' `suffix_of` input io
       /\ forall b, r = Ok b -> block_ok b
            /\ XyBlockSize_marker size :: input io = encode_block use_crc b ++ input io') io.
Proof.
  intros Hb. unfold read_block_body. apply wp_bind. eapply wp_mono; [apply wp_read_bytes|].
  intros [l|e] io' (c & Hc & Hl); cbn [wp_then].
  - apply wp_lift. split; [rewrite Hc; by exists c|]. intros b Hp. destruct (Hl l eq_refl) as [-> _].
    rewrite Hc in Hb. apply Forall_app in Hb as [Hb _].
    assert (Hml : bytes_ok (XyBlockSize_marker size :: l)).
    { constructor; [destruct size; by vm_compute|done]. }
    rewrite Hc. destruct use_crc; cbn [encode_block].
    + destruct (parse_crc _) as [b'|] eqn:Hp'; [|done]. injection Hp as ->.
      apply parse_crc_inv in Hp' as [? ->]; done.
    + destruct (parse_checksum _) as [b'|] eqn:Hp'; [|done]. injection Hp as ->.
      apply parse_checksum_inv in Hp' as [? ->]; done.
  - split; [rewrite Hc; by exists c|done].
Qed.

(** Any packet the receiver gets is a checked block or an EOT. *)
Lemma wp_read_packet (use_crc : bool) (io : MemoryModemIo) :
  bytes_ok (input io) ->
  wp (read_xymodem_packet use_crc)
    (fun r io' => input io' `suffix_of` input io
       /\ match r with
          | Ok (Block b) => block_ok b /\ input io = encode_block use_crc b ++ input io'
          | Ok EndOfTransmission => input io = EOT :: input io'
          | Err _ => True
          end) io.
Proof.
  intros Hb. unfold read_xymodem_packet. apply wp_bind, wp_read_byte; [|done].
  intros m l Hi. rewrite Hi in *. cbn [wp_then]. apply Forall_cons_1 in Hb as [_ Hb].
  assert (Hs : forall k, k `suffix_of` l -> k `suffix_of` m :: l) by (intros; by apply suffix_cons_r).
  destruct (Z.eqb_spec m EOT) as [->|_]; [apply wp_ret; auto|].
  destruct (m =? CAN).
  - unfold second_can. apply wp_bind, wp_read_byte; cbn [input].
    + intros b k ->. cbn [wp_then]. destruct (b =? CAN); apply wp_throw; cbn [input]; split; try done;
        apply Hs; by apply suffix_cons_r.
    + intros ->. simpl. auto.
  - destruct (XyBlockSize_from_marker m) as [size|] eqn:Hm; [|apply wp_bind, wp_throw; simpl; auto].
    apply wp_bind. cbn [ok_or]. apply wp_lift. cbn [wp_then]. apply from_marker_inv in Hm as ->.
    apply wp_bind. eapply wp_mono; [by apply wp_read_block_body|]. cbn [input].
    intros [b|e] io' [H1 H2]; cbn [wp_then]; [apply wp_ret|]; auto.
Qed.

Section AnyInput.
Context (use_crc : bool) (es : option Z) (fs : FileStore) (name i0 : list Z).
Hypothesis es_ok : forall n, es = Some n -> 0 <= n.
Hypothesis i0_ok : bytes_ok i0.

(** The file holds the accepted blocks, which were all in the input. *)
Definition holds (bs : list XyBlock) (p : MemoryModemIo * FileStore) : Prop :=
  (exists c, i0 = c ++ input p.1 /\ carries use_crc c bs)
  /\ numbered bs /\ p.2 = fs ++ [(name, file_of es bs)].

Definition recv_inv (v : Z * Z * nat) (p : MemoryModemIo * FileStore) : Prop :=
  exists bs, holds bs p /\ v.1.1 = wrap 8 (Z.of_nat (length bs) + 1)
    /\ v.1.2 = zlen (file_of es bs) /\ (v.2 <= XYMODEM_RETRIES)%nat.

Definition recv_post (r : result ModemTransferError Z) (p : MemoryModemIo * FileStore) : Prop :=
  exists bs, holds bs p /\ forall n, r = Ok n -> n = zlen (file_of es bs).

Definition recv_rank (v : Z * Z * nat) (p : MemoryModemIo * FileStore) : nat :=
  11 * length (input p.1) + (XYMODEM_RETRIES - v.2).

Lemma holds_suffix bs io io' f :
  holds bs (io, f) -> input io' `suffix_of` input io -> holds bs (io', f).
Proof.
  intros ((c & Hc & Hbs) & Hn & Hf) (g & Hg). simpl in *. split; [|done].
  exists (c ++ g). cbn [fst]. rewrite <-app_assoc, <-Hg. split; [done|by constructor].
Qed.

Lemma holds_block bs b io o f :
  holds bs (io, f) -> input io = encode_block use_crc b ++ o -> block_ok b ->
  xb_number b = wrap 8 (Z.of_nat (length bs) + 1) ->
  forall io', input io' = o -> holds (bs ++ [b]) (io', fs ++ [(name, file_of es (bs ++ [b]))]).
Proof.
  intros ((c & Hc & Hbs) & Hn & _) Hi Hb Hnum io' Ho. simpl in *. split; [|split; [by apply numbered_snoc|done]].
  exists (c ++ encode_block use_crc b). cbn [fst]. rewrite <-app_assoc, Ho, <-Hi. split; [done|by constructor].
Qed.

Lemma wrap_succ k : wrap 8 (wrap 8 (Z.of_nat k + 1) + 1) = wrap 8 (Z.of_nat (S k) + 1).
Proof. unfold wrap. rewrite Nat2Z.inj_succ, Zplus_mod_idemp_l. by replace (Z.of_nat k + 1 + 1) with (Z.succ (Z.of_nat k) + 1) by lia. Qed.

Lemma wp_write_fst l (Q : result ModemTransferError unit -> MemoryModemIo * FileStore -> Prop) io f :
  (forall o, Q (Ok tt) (mem (input io) o, f)) -> wp (on_fst (write_all l)) Q (io, f).
Proof. intros H. apply wp_on_fst. destruct io. apply H. Qed.

Lemma recv_error e v io io' f :
  recv_inv v (io, f) -> input io' `suffix_of` input io -> recv_post (Err e) (io', f).
Proof. intros (bs & Hh & _) Hs. exists bs. split; [by eapply holds_suffix|done]. Qed.

(** A turn that ends in another one. *)
Definition recv_next (v : Z * Z * nat) (io : MemoryModemIo) (f : FileStore)
    (r : result ModemTransferError (Z * Z * nat + Z)) (p : MemoryModemIo * FileStore) : Prop :=
  match r with
  | Ok (inl v') => recv_inv v' p /\ (recv_rank v' p < recv_rank v (io, f))%nat
  | Ok (inr n) => recv_post (Ok n) p
  | Err e => recv_post (Err e) p
  end.

Lemma recv_block v io io' f b :
  recv_inv v (io, f) -> block_ok b -> input io = encode_block use_crc b ++ input io' ->
  wp (receive_block (length fs) es v b) (recv_next v io f) (io', f).
Proof.
  unfold receive_block.
  destruct v as [[expected total] retries]. intros (bs & Hh & Hx & Ht & Hr) Hb Hi. simpl in Hx, Ht, Hr.
  assert (Hlt : (length (input io') < length (input io))%nat).
  { rewrite Hi. destruct (encode_block_shape use_crc b Hb) as (? & -> & _). simpl. rewrite length_app. lia. }
  assert (Hsuf : input io' `suffix_of` input io) by (rewrite Hi; by apply suffix_app_r).
  assert (Hstay : forall o, recv_next (expected, total, retries) io f
            (Ok (inl (expected, total, 0%nat))) (mem (input io') o, f)).
  { intros o. split; [|unfold recv_rank; cbn -[Nat.mul]; lia]. exists bs.
    split; [by eapply holds_suffix|]. simpl. split_and!; [done..|lia]. }
  destruct (Z.eqb_spec (xb_number b) expected) as [He|_].
  2: { destruct (negb _); apply wp_bind, wp_write_fst; intros o; apply wp_ret, Hstay. }
  destruct (file_of_snoc es bs b es_ok) as [Hf Hl]. cbn zeta in Hf, Hl. rewrite <-Ht in Hf, Hl.
  cbn zeta. set (n := match es with Some _ => _ | None => _ end) in *.
  assert (Hn0 : 0 <= n).
  { subst n. pose proof (zlen_nonneg (xb_payload b)). unfold sat_sub. destruct es; lia. }
  assert (Hf0 : f = fs ++ [(name, file_of es bs)]) by apply Hh.
  assert (Hnext : forall o, recv_next (expected, total, retries) io f
            (Ok (inl (wrap 8 (expected + 1), total + n, 0%nat)))
            (mem (input io') o, fs ++ [(name, file_of es (bs ++ [b]))])).
  { intros o. split; [|unfold recv_rank; cbn -[Nat.mul]; lia]. exists (bs ++ [b]).
    split; [eapply holds_block; [exact Hh|exact Hi|done|congruence|done]|].
    cbn [fst snd]. rewrite length_app, Nat.add_1_r, <-wrap_succ, <-Hx. split_and!; [done..|lia]. }
  destruct (Z.ltb_spec 0 n).
  - apply wp_bind, wp_on_snd. rewrite Hf0. apply wp_run. eexists _, _. split; [apply store_write_last|].
    cbn [wp_then]. apply wp_bind, wp_write_fst. intros o. rewrite <-Hf, <-Hf0. apply wp_ret, Hnext.
  - assert (n = 0) as Hz by lia. rewrite Hz in *. rewrite app_nil_r in Hf. rewrite Hf, <-Hf0 in Hnext.
    rewrite Z.add_0_r in Hnext. apply wp_bind, wp_ret. cbn [wp_then].
    apply wp_bind, wp_write_fst. intros o. apply wp_ret, Hnext.
Qed.

Lemma recv_turn eot v io f :
  recv_inv v (io, f) -> wp (receive_blocks_body (length fs) use_crc es eot v) (recv_next v io f) (io, f).
Proof.
  intros Hv. unfold receive_blocks_body. destruct v as [[expected total] retries] eqn:Ev.
  assert (Hin : bytes_ok (input io)).
  { destruct Hv as (bs & ((c & Hc & _) & _) & _). rewrite Hc in i0_ok. by apply Forall_app in i0_ok as [_ ?]. }
  apply wp_bind, wp_attempt, wp_on_fst. eapply wp_mono; [by apply wp_read_packet|].
  intros r io' [Hs Hr]. cbn [wp_then]. destruct r as [[b|]|e].
  - destruct Hr. by apply recv_block.
  - assert (Hend : forall io2, input io2 `suffix_of` input io ->
      wp (do* on_snd (writer_flush (length fs)) in do* on_fst (write_all [ACK]) in ret (inr total))
        (recv_next v io f) (io2, f)).
    { intros io2 H2. apply wp_bind, wp_on_snd, wp_ret. cbn [wp_then]. apply wp_bind, wp_write_fst. intros o.
      apply wp_ret. destruct Hv as (bs & Hh & _ & Ht & _). exists bs. split; [by eapply holds_suffix|].
      by intros n [= <-]. }
    rewrite <-Ev. destruct eot; [|by apply wp_bind, wp_ret, Hend].
    apply wp_bind, wp_bind, wp_write_fst. intros o. cbn [wp_then]. apply wp_on_fst.
    eapply wp_mono; [by eapply tame_expect|]. cbn [input]. intros [u|e] io2 H2; cbn [wp_then].
    + apply Hend. by etrans.
    + eapply recv_error; [exact Hv|by etrans].
  - assert (Hthrow : forall e o, recv_next (expected, total, retries) io f (Err e) (mem (input io') o, f))
      by (intros e' o; by eapply recv_error).
    assert (Herr : wp (if decide (retries < XYMODEM_RETRIES)%nat then
        do* on_fst (write_all [NAK]) in
        if decide (e = UnexpectedByte EOT) then throw e
        else ret (inl (expected, total, S retries))
      else throw e) (recv_next (expected, total, retries) io f) (io', f)).
    { destruct (decide _) as [Hlt|]; [|destruct io'; by apply wp_throw].
      apply wp_bind, wp_write_fst. intros o. cbn [wp_then].
      destruct (decide _); [by apply wp_throw|]. apply wp_ret. split.
      - destruct Hv as (bs & Hh & Hx & Ht & _). exists bs. split; [by eapply holds_suffix|].
        split_and!; [done..|simpl; lia].
      - apply suffix_length in Hs. unfold recv_rank. cbn -[Nat.mul XYMODEM_RETRIES]. lia. }
    destruct e; try exact Herr. destruct io'. by apply wp_throw.
Qed.

Lemma recv_any eot fuel io :
  input io = i0 -> (11 * length i0 + 10 < fuel)%nat ->
  wp (receive_xymodem_blocks fuel (length fs) use_crc es eot) recv_post (io, fs ++ [(name, [])]).
Proof.
  intros Hi Hf. unfold receive_xymodem_blocks. apply (wp_loop recv_inv recv_rank).
  - intros v [io1 f1] Hv. by apply recv_turn.
  - exists []. split.
    + split; [exists []; split; [by rewrite <-Hi|constructor]|]. split; [by intros ? ?|].
      unfold file_of. simpl. destruct es; [unfold ztake; by rewrite take_nil|done].
    + unfold file_of, XYMODEM_RETRIES. simpl. destruct es; unfold ztake; rewrite ?take_nil; split_and!; try done; lia.
  - unfold recv_rank, XYMODEM_RETRIES. cbn -[Nat.mul]. rewrite Hi. lia.
Qed.
End AnyInput.

(** ** A noisy line *)

(** A frame in which one byte after the marker was changed. *)
Definition damaged_frame (b : XyBlock) (f : list Z) : Prop :=
  exists l1 x y l2, l1 <> [] /\ encode_crc b = l1 ++ x :: l2 /\ f = l1 ++ y :: l2 /\ x <> y /\ bytes_ok f.

(** What may happen to a block on the line: damaged copies arrive first, the
    good copy, and repeats of the good copy when acknowledgements are lost. *)
Record Noise := mkNoise { damaged : list (list Z); repeated : nat }.
Definition noise_ok (b : XyBlock) (n : Noise) : Prop :=
  Forall (damaged_frame b) (damaged n) /\ (length (damaged n) <= XYMODEM_RETRIES)%nat.
Definition noisy (b : XyBlock) (n : Noise) : list Z :=
  concat (damaged n) ++ concat (replicate (S (repeated n)) (encode_crc b)).
Definition noisy_replies (n : Noise) : list Z :=
  replicate (length (damaged n)) NAK ++ replicate (S (repeated n)) ACK.

Section Noisy.
Context (fs : FileStore) (name : list Z) (eot : bool).
Abbreviation body := (receive_blocks_body (length fs) true None eot).

Lemma damaged_packet b f rest o :
  block_ok b -> damaged_frame b f ->
  exists e, read_xymodem_packet true (mem (f ++ rest) o) = Some (Err (Protocol e), mem rest o).
Proof.
  intros Hok (l1 & x & y & l2 & Hl1 & Henc & -> & Hne & Hf).
  destruct (encode_block_shape true b Hok) as (bd & Hsh & Hlen & _). cbn [encode_block] in Hsh.
  destruct l1 as [|m l1]; [done|]. rewrite Hsh in Henc. injection Henc as <- Hbd.
  assert (Hlen' : length (l1 ++ y :: l2) = Z.to_nat (2 + XyBlockSize_len (xb_size b) + 2)).
  { rewrite Hbd in Hlen. rewrite length_app in *. exact Hlen. }
  destruct (parse_crc ((XyBlockSize_marker (xb_size b) :: l1) ++ y :: l2)) as [b'|e] eqn:Hp.
  { exfalso. apply parse_crc_inv in Hp as [Hok' Henc']; [|done]. apply Hne.
    apply (encode_crc_distance b b' (XyBlockSize_marker (xb_size b) :: l1) l2); [done..| |done].
    by rewrite Hsh, Hbd. }
  exists e. unfold read_xymodem_packet. cbn [app]. erewrite bind_ok by apply read_byte_cons.
  replace (XyBlockSize_marker (xb_size b) =? EOT) with false by (by destruct (xb_size b)).
  replace (XyBlockSize_marker (xb_size b) =? CAN) with false by (by destruct (xb_size b)).
  rewrite marker_roundtrip. cbn [ok_or]. erewrite bind_ok by reflexivity.
  apply bind_err. unfold read_block_body.
  erewrite bind_ok by (apply replicateM_read; symmetry; exact Hlen').
  unfold protocol, lift. cbn [app] in Hp. by rewrite Hp.
Qed.

Lemma damaged_turn b f expected total retries rest o (st : FileStore) :
  block_ok b -> damaged_frame b f -> (retries < XYMODEM_RETRIES)%nat ->
  body (expected, total, retries) (mem (f ++ rest) o, st)
  = Some (Ok (inl (expected, total, S retries)), (mem rest (o ++ [NAK]), st)).
Proof.
  intros Hok Hf Hr. destruct (damaged_packet b f rest o Hok Hf) as (e & Hp).
  unfold receive_blocks_body. erewrite bind_ok by (apply attempt_run, on_fst_run, Hp).
  cbn iota beta. rewrite decide_True by done. by erewrite bind_on_fst by apply write_all_run.
Qed.

Lemma repeat_turn b total retries rest o (st : FileStore) :
  block_ok b ->
  body (wrap 8 (xb_number b + 1), total, retries) (mem (encode_crc b ++ rest) o, st)
  = Some (Ok (inl (wrap 8 (xb_number b + 1), total, 0%nat)), (mem rest (o ++ [ACK]), st)).
Proof.
  intros Hok. unfold receive_blocks_body, receive_block.
  erewrite bind_ok by (apply attempt_run, on_fst_run, (read_packet_run true), Hok). cbn iota beta.
  destruct Hok as (Hn & _). unfold in_width, wrap in *.
  destruct (Z.eqb_spec (xb_number b) ((xb_number b + 1) mod 2 ^ 8)) as [He|_].
  { exfalso. destruct (Z.eq_dec (xb_number b) 255) as [H|H]; [rewrite H in He; discriminate He|].
    rewrite Z.mod_small in He; lia. }
  replace (((xb_number b + 1) mod 2 ^ 8 - 1) mod 2 ^ 8) with (xb_number b).
  2: { rewrite Zminus_mod_idemp_l, Z.add_simpl_r, Z.mod_small; lia. }
  rewrite Z.eqb_refl. cbn [negb]. by erewrite bind_on_fst by apply write_all_run.
Qed.

Lemma damaged_run b ds expected total retries fuel rest o (st : FileStore) :
  block_ok b -> Forall (damaged_frame b) ds -> (retries + length ds <= XYMODEM_RETRIES)%nat ->
  loop (length ds + fuel) body (expected, total, retries) (mem (concat ds ++ rest) o, st)
  = loop fuel body (expected, total, retries + length ds)%nat
      (mem rest (o ++ replicate (length ds) NAK), st).
Proof.
  intros Hok Hds. revert retries o. induction Hds as [|f ds Hf _ IH]; intros retries o Hr;
    cbn [length concat replicate plus app] in *.
  - by rewrite app_nil_r, Nat.add_0_r.
  - rewrite <-app_assoc. erewrite loop_continue by (apply (damaged_turn b); [done|done|lia]).
    rewrite IH by lia. by rewrite <-app_assoc, Nat.add_succ_comm.
Qed.

Lemma repeat_run b k total fuel rest o (st : FileStore) :
  block_ok b ->
  loop (k + fuel) body (wrap 8 (xb_number b + 1), total, 0%nat)
    (mem (concat (replicate k (encode_crc b)) ++ rest) o, st)
  = loop fuel body (wrap 8 (xb_number b + 1), total, 0%nat) (mem rest (o ++ replicate k ACK), st).
Proof.
  intros Hok. revert o. induction k as [|k IH]; intros o; cbn [replicate concat plus app].
  - by rewrite app_nil_r.
  - rewrite <-app_assoc. erewrite loop_continue by (by apply repeat_turn). rewrite IH. by rewrite <-app_assoc.
Qed.

Lemma noisy_block_run b n total fuel rest o w :
  block_ok b -> noise_ok b n ->
  loop (length (noisy_replies n) + fuel) body (xb_number b, total, 0%nat)
    (mem (noisy b n ++ rest) o, fs ++ [(name, w)])
  = loop fuel body (wrap 8 (xb_number b + 1), total + zlen (xb_payload b), 0%nat)
      (mem rest (o ++ noisy_replies n), fs ++ [(name, w ++ xb_payload b)]).
Proof.
  intros Hok [Hd Hl]. unfold noisy_replies. rewrite length_app, !length_replicate.
  unfold noisy. rewrite <-!app_assoc, <-Nat.add_assoc. rewrite (damaged_run b) by (done || lia).
  cbn [replicate concat plus]. rewrite <-app_assoc.
  pose proof (size_len_pos (xb_size b)) as Hpos. pose proof Hok as (_ & Hlen & _).
  destruct b as [num size payload]. cbn [xb_number xb_payload xb_size] in *.
  erewrite loop_continue by (apply (receive_body_block true None); [done|lia]).
  rewrite (repeat_run (mkXyBlock num size payload)) by done.
  f_equal. f_equal.
  - by rewrite <-!app_assoc.
  - do 3 f_equal. unfold ztake, zlen. by rewrite Nat2Z.id, take_ge by lia.
Qed.

Lemma noisy_blocks_run bs ns total number fuel rest o w :
  (forall i b, bs !! i = Some b -> xb_number b = wrap 8 (number + Z.of_nat i)) ->
  Forall block_ok bs -> Forall2 noise_ok bs ns -> number = wrap 8 number ->
  exists number',
  loop (length (concat (map noisy_replies ns)) + fuel) body (number, total, 0%nat)
    (mem (concat (zip_with noisy bs ns) ++ rest) o, fs ++ [(name, w)])
  = loop fuel body (number', total + zlen (file_of None bs), 0%nat)
      (mem rest (o ++ concat (map noisy_replies ns)), fs ++ [(name, w ++ file_of None bs)]).
Proof.
  intros Hnum Hok Hns. revert number total o w Hnum Hok.
  induction Hns as [|b n bs ns Hn _ IH]; intros number total o w Hnum Hok Hw;
    unfold file_of; cbn [length concat map zip_with plus app] in *.
  - exists number. by rewrite zlen_nil, Z.add_0_r, !app_nil_r.
  - apply Forall_cons_1 in Hok as [Hb Hok].
    assert (Hb0 : xb_number b = number) by (rewrite (Hnum 0%nat b eq_refl); change (Z.of_nat 0) with 0; by rewrite Z.add_0_r).
    rewrite length_app, <-Nat.add_assoc, <-app_assoc, <-Hb0. rewrite noisy_block_run by done.
    edestruct (IH (wrap 8 (xb_number b + 1))) as (number' & ->); [|done|by unfold wrap; rewrite Z.mod_mod|].
    + intros i b' Hi. rewrite (Hnum (S i) b' Hi), Hb0. unfold wrap. rewrite Zplus_mod_idemp_l.
      f_equal. lia.
    + exists number'. unfold file_of. by rewrite zlen_app, Z.add_assoc, <-!app_assoc.
Qed.
End Noisy.

(** ** YMODEM on arbitrary input *)

(** The names a YMODEM receiver opens: one plain path component. *)
Definition safe_name (name : list Z) : Prop :=
  name <> [] /\ name <> [46; 46] /\ existsb is_slash name = false /\ path_file_name name = Some name.

Lemma validate_safe name : validate_ymodem_file_name name = Ok tt -> safe_name name.
Proof.
  intros H. destruct (validate_plain name tt H) as (? & ? & ?). split_and!; try done.
  intros ->. by vm_compute in H.
Qed.

(** Completed files have exactly the announced size. *)
Definition complete (hs : list YmodemFileHeader) (fs : FileStore) : Prop :=
  Forall2 (fun h f => f.1 = yh_file_name h
                      /\ forall n, yh_file_size h = Some n -> zlen f.2 = n) hs fs.

Section YmodemAnyInput.
Context (k : nat) (N : nat).
Hypothesis k_ok : (11 * N + 10 < k)%nat.

Definition batch_inv (received : list YmodemFileHeader) (p : MemoryModemIo * FileStore) : Prop :=
  bytes_ok (input p.1) /\ (length (input p.1) <= N)%nat /\ complete received p.2
  /\ Forall (fun f => safe_name f.1) p.2.

Definition batch_post (r : result ModemTransferError (list YmodemFileHeader))
    (p : MemoryModemIo * FileStore) : Prop :=
  Forall (fun f => safe_name f.1) p.2 /\ forall hs, r = Ok hs -> complete hs p.2.

Definition batch_next (io : MemoryModemIo) (r : result ModemTransferError
    (list YmodemFileHeader + list YmodemFileHeader)) (p : MemoryModemIo * FileStore) : Prop :=
  match r with
  | Ok (inl hs) => batch_inv hs p /\ (length (input p.1) < length (input io))%nat
  | Ok (inr hs) => batch_post (Ok hs) p
  | Err e => batch_post (Err e) p
  end.

Lemma bytes_ok_suffix l l' : bytes_ok l -> l' `suffix_of` l -> bytes_ok l'.
Proof. intros H (g & ->). by apply Forall_app in H as [_ ?]. Qed.

Lemma batch_file received io io1 fs h :
  batch_inv received (io, fs) -> input io1 `suffix_of` input io ->
  (length (input io1) < length (input io))%nat ->
  validate_ymodem_file_name (yh_file_name h) = Ok tt -> (forall n, yh_file_size h = Some n -> is_u64 n) ->
  wp (let* writer := on_snd (open_in_store h) in
      let* bytes := receive_xymodem_blocks k writer true (yh_file_size h) true in
      match yh_file_size h with
      | Some size => if bytes <? size then throw UnexpectedFrame else ret (inl (received ++ [h]))
      | None => ret (inl (received ++ [h]))
      end) (batch_next io) (io1, fs).
Proof.
  intros (Hb & Hl & Hc & Hs) Hsuf Hlt Hv Hn. simpl in *.
  apply wp_bind, wp_on_snd. unfold open_in_store, store_open. apply wp_run. eexists _, _. split; [done|].
  cbn [wp_then]. apply wp_bind. eapply wp_mono.
  { apply (recv_any true (yh_file_size h) fs (yh_file_name h) (input io1)); [|by eapply bytes_ok_suffix|done|lia].
    intros n Hsz. by destruct (Hn n Hsz). }
  intros r [io2 fs2] (bs & ((c & Hc2 & _) & _ & Hf) & Hr). cbn [fst snd] in *. subst fs2.
  assert (Hs2 : Forall (fun f => safe_name f.1) (fs ++ [(yh_file_name h, file_of (yh_file_size h) bs)])).
  { apply Forall_app. split; [done|]. constructor; [by apply validate_safe|constructor]. }
  assert (Hsuf2 : input io2 `suffix_of` input io1) by (rewrite Hc2; by apply suffix_app_r).
  assert (Hgo : (forall n, yh_file_size h = Some n -> zlen (file_of (yh_file_size h) bs) = n) ->
    batch_next io (Ok (inl (received ++ [h])))
      (io2, fs ++ [(yh_file_name h, file_of (yh_file_size h) bs)])).
  { intros Hsz. pose proof (suffix_length _ _ Hsuf2). split; [split_and!|simpl; lia]; simpl; [|lia| |done].
    - eapply bytes_ok_suffix; [exact Hb|by etrans].
    - apply Forall2_app; [done|]. constructor; [done|constructor]. }
  destruct r as [bytes|e]; cbn [wp_then]; [|by split].
  specialize (Hr bytes eq_refl). destruct (yh_file_size h) as [size|]; [|by apply wp_ret, Hgo].
  destruct (Z.ltb_spec bytes size); [by apply wp_throw|]. apply wp_ret, Hgo. intros n [= <-].
  destruct (Hn size eq_refl) as [? _]. pose proof (zlen_ztake_le size (concat (map xb_payload bs))).
  unfold file_of in *. lia.
Qed.

Lemma batch_turn received io fs :
  batch_inv received (io, fs) ->
  wp (receive_ymodem_body k open_in_store received) (batch_next io) (io, fs).
Proof.
  intros Hi. pose proof Hi as (Hb & Hl & Hc & Hs). simpl in *. unfold receive_ymodem_body.
  apply wp_bind, wp_write_fst. intros o. cbn [wp_then]. apply wp_bind, wp_on_fst.
  eapply wp_mono; [by eapply eats_read_block|]. cbn [input]. intros [b|e] io1 [Hsuf Hlt]; cbn [wp_then]; [|by split].
  destruct (negb _); apply wp_bind, wp_write_fst; intros o1; cbn [wp_then].
  - apply wp_ret. split; [|done]. split_and!; simpl; [by eapply bytes_ok_suffix|lia|done|done].
  - apply wp_bind, wp_lift. destruct (parse_block0_payload _) as [[h|]|e] eqn:Hp; cbn [map_err wp_then].
    + apply parse_block0_inv in Hp as [Hv Hn]. apply wp_bind, wp_write_fst. intros o2.
      cbn [wp_then input]. by apply batch_file.
    + apply wp_ret. split; [done|]. by intros hs [= <-].
    + by split.
Qed.

Lemma batch_any fuel io :
  bytes_ok (input io) -> (length (input io) <= N)%nat -> (N < fuel)%nat ->
  wp (loop fuel (receive_ymodem_body k open_in_store) []) batch_post (io, []).
Proof.
  intros Hb Hl Hf. apply (wp_loop batch_inv (fun _ p => length (input p.1))).
  - intros hs [io1 fs1] Hi. by apply batch_turn.
  - split_and!; simpl; [done|done|constructor|constructor].
  - simpl. lia.
Qed.
End YmodemAnyInput.

(** ** Properties *)

(** An XMODEM transfer over a faithful line delivers the file.  For both
    block sizes and both check modes there are two byte streams such that
    [send_xmodem], fed the receiver's stream, succeeds, reports the length of
    the file and sends the first stream, while [receive_xmodem], fed the first
    stream, sends the second and stores the file, completed to a whole block
    with CP/M end-of-file bytes.  The reader may return short reads. *)
Theorem xmodem_loopback {R} `{LawfulReader R} (mode : XmodemBlockMode) (use_crc : bool)
    (d : list Z) (r : R) :
  bytes_ok d -> stands_for r d -> exists s2r r2s,
    (forall fuel, (length d < fuel)%nat -> exists r',
       send_xmodem fuel mode (mem r2s [], r) = Some (Ok (zlen d), (mem [] s2r, r')))
    /\ (forall fuel fs name, (length d < fuel)%nat ->
        let out := d ++ replicate (Z.to_nat (last_pad (block_mode_size mode) d)) CPMEOF in
        receive_xmodem fuel (length fs) use_crc (mem s2r [], fs ++ [(name, [])])
        = Some (Ok (zlen out), (mem [] r2s, fs ++ [(name, out)]))).
Proof. apply xmodem_session. Qed.

Lemma xmodem_loopback_witness : exists s2r r2s,
  (forall fuel, (3 < fuel)%nat -> exists r',
     send_xmodem fuel Mode128 (mem r2s [], [104; 105; 10]) = Some (Ok 3, (mem [] s2r, r')))
  /\ (forall fuel fs name, (3 < fuel)%nat ->
      receive_xmodem fuel (length fs) true (mem s2r [], fs ++ [(name, [])])
      = Some (Ok 128, (mem [] r2s, fs ++ [(name, [104; 105; 10] ++ replicate 125 CPMEOF)]))).
Proof.
  apply (xmodem_loopback Mode128 true [104; 105; 10] [104; 105; 10]); [|reflexivity].
  repeat constructor; discriminate.
Defined.

(** C2: a YMODEM batch over a faithful line delivers every file exactly: same
    names, same sizes, same bytes and in order, with the headers returned in
    order, through the block-zero exchange, the end-of-file NAK/ACK handshake
    and the closing null header.  Readers may hold more than the announced
    size. *)
Theorem ymodem_loopback {R} `{LawfulReader R} (es : list (YmodemSendStreamEntry R))
    (ds : list (list Z)) :
  Forall2 sendable es ds -> exists s2r r2s,
    forall fuel, (length es < fuel)%nat -> Forall (fun d => length d < fuel)%nat ds ->
      send_ymodem_stream fuel es (mem r2s []) = Some (Ok (zlen (concat ds)), mem [] s2r)
      /\ receive_ymodem fuel open_in_store (mem s2r [], [])
         = Some (Ok (map entry_header es), (mem [] r2s, zip (map ys_file_name es) ds)).
Proof. apply ymodem_session. Qed.

Lemma ymodem_loopback_witness :
  let e := mkYmodemSendStreamEntry [97; 46; 98] 3 (mkCursor [1; 2; 255; 9] 0) in
  exists s2r r2s,
    send_ymodem_stream 4 [e] (mem r2s []) = Some (Ok 3, mem [] s2r)
    /\ receive_ymodem 4 open_in_store (mem s2r [], [])
       = Some (Ok [entry_header e], (mem [] r2s, [([97; 46; 98], [1; 2; 255])])).
Proof.
  intros e. destruct (ymodem_loopback [e] [[1; 2; 255]]) as (s2r & r2s & Hrun).
  - constructor; [|constructor]. split; [exists [9]; split; [discriminate|reflexivity]|].
    split_and!; try reflexivity; try (repeat constructor; discriminate); try (by vm_compute).
    eexists. vm_compute. reflexivity.
  - exists s2r, r2s. apply (Hrun 4%nat); simpl; [lia|]. constructor; [simpl; lia|constructor].
Defined.

(** Whatever bytes arrive, [receive_xymodem_blocks] ends -- the model's
    fuel of eleven turns per input byte is enough -- and the file it leaves is
    exactly the payloads of blocks that were present in the input whole, in
    order, with a valid number complement and check, numbered 1, 2, 3, ...
    modulo 256, cut at the announced size; on success the returned count is
    the length of the file. *)
Theorem receive_only_checked_blocks (use_crc handshake : bool) (es : option Z) (fs : FileStore)
    (name i o : list Z) (fuel : nat) :
  (forall n, es = Some n -> 0 <= n) -> bytes_ok i -> (11 * length i + 10 < fuel)%nat ->
  exists r io' bs c,
    receive_xymodem_blocks fuel (length fs) use_crc es handshake (mem i o, fs ++ [(name, [])])
    = Some (r, (io', fs ++ [(name, file_of es bs)]))
    /\ i = c ++ input io' /\ carries use_crc c bs /\ numbered bs
    /\ forall n, r = Ok n -> n = zlen (file_of es bs).
Proof.
  intros Hes Hi Hf. destruct (proj1 (wp_run _ _ _) (recv_any use_crc es fs name i Hes Hi handshake fuel (mem i o) eq_refl Hf))
    as (r & [io' fs'] & Hrun & bs & ((c & Hc & Hbs) & Hn & Hfs) & Hr).
  simpl in *. subst fs'. by exists r, io', bs, c.
Qed.

Lemma receive_only_checked_blocks_witness : exists r io' bs c,
  receive_xymodem_blocks 60 0%nat true None false (mem [SOH; 1; 4; 9] [], [([], [])])
  = Some (r, (io', [([], file_of None bs)]))
  /\ [SOH; 1; 4; 9] = c ++ input io' /\ carries true c bs /\ numbered bs
  /\ forall n, r = Ok n -> n = zlen (file_of None bs).
Proof.
  apply (receive_only_checked_blocks true false None [] [] [SOH; 1; 4; 9] [] 60).
  - discriminate.
  - repeat constructor; discriminate.
  - simpl. lia.
Defined.

(** The CRC receiver recovers from line noise.  When every block arrives
    after at most ten copies with one damaged byte and is then repeated any
    number of times, as after lost acknowledgements, [receive_xmodem] answers
    NAK to each damaged copy and ACK to each good one, and the stored file is
    the same as on a clean line. *)
Theorem xmodem_noise_recovery (bs : list XyBlock) (ns : list Noise) (fs : FileStore) (name : list Z)
    (fuel : nat) :
  numbered bs -> Forall block_ok bs -> Forall2 noise_ok bs ns ->
  let replies := concat (map noisy_replies ns) in
  (length replies < fuel)%nat ->
  receive_xmodem fuel (length fs) true
    (mem (concat (zip_with noisy bs ns) ++ [EOT]) [], fs ++ [(name, [])])
  = Some (Ok (zlen (file_of None bs)),
      (mem [] (WANT_CRC :: replies ++ [ACK]), fs ++ [(name, file_of None bs)])).
Proof.
  intros Hnum Hok Hns replies Hf. unfold receive_xmodem, receive_xymodem_blocks.
  erewrite bind_on_fst by apply write_all_run.
  replace fuel with (length replies + (fuel - length replies))%nat by lia.
  destruct (noisy_blocks_run fs name false bs ns 0 1 (fuel - length replies)%nat [EOT] ([] ++ [WANT_CRC]) [])
    as (number' & Hrun); [|done..|].
  - intros i b Hb. rewrite (Hnum i b Hb). f_equal. lia.
  - etrans; [exact Hrun|]. apply loop_break; [lia|]. apply (receive_eot_run _ true None false).
Qed.

Lemma xmodem_noise_recovery_witness :
  let b := mkXyBlock 1 Bytes128 (replicate 128 65) in
  let bad := SOH :: 1 :: 254 :: 66 :: zdrop 4 (encode_crc b) in
  receive_xmodem 5 0%nat true (mem ((noisy b (mkNoise [bad; bad] 1) ++ []) ++ [EOT]) [], [([], [])])
  = Some (Ok 128, (mem [] [WANT_CRC; NAK; NAK; ACK; ACK; ACK], [([], replicate 128 65)])).
Proof.
  intros b bad.
  apply (xmodem_noise_recovery [b] [mkNoise [bad; bad] 1] [] [] 5).
  - intros [|i] b' H; [injection H as <-; reflexivity|discriminate].
  - constructor; [|constructor]. split_and!; [by vm_compute|reflexivity|vm_compute; repeat constructor; discriminate].
  - assert (Hbad : damaged_frame b bad).
    { exists [SOH; 1; 254], 65, 66, (zdrop 4 (encode_crc b)).
      split_and!; [discriminate|vm_compute; reflexivity|reflexivity|discriminate|].
      vm_compute. repeat constructor; discriminate. }
    constructor; [|constructor]. split; [by repeat constructor|simpl; unfold XYMODEM_RETRIES; lia].
  - simpl. lia.
Defined.

(** a YMODEM receiver is safe on arbitrary input: [receive_ymodem] ends,
    every file it opens -- completed or not -- has a name that is one plain path
    component, and when it succeeds every returned header stands for a stored
    file under its name with exactly the announced size. *)
Theorem ymodem_receiver_safe (i o : list Z) (fuel : nat) :
  bytes_ok i -> (11 * length i + 10 < fuel)%nat ->
  exists r io' fs,
    receive_ymodem fuel open_in_store (mem i o, []) = Some (r, (io', fs))
    /\ Forall (fun f => safe_name f.1) fs /\ forall hs, r = Ok hs -> complete hs fs.
Proof.
  intros Hi Hf.
  destruct (proj1 (wp_run _ _ _) (batch_any fuel (length i) Hf fuel (mem i o) Hi (le_n _) ltac:(lia)))
    as (r & [io' fs] & Hrun & Hs & Hc).
  by exists r, io', fs.
Qed.

Lemma ymodem_receiver_safe_witness : exists r io' fs,
  receive_ymodem 60 open_in_store (mem [SOH; 0; 255; 46] [], []) = Some (r, (io', fs))
  /\ Forall (fun f => safe_name f.1) fs /\ forall hs, r = Ok hs -> complete hs fs.
Proof.
  apply (ymodem_receiver_safe [SOH; 0; 255; 46] [] 60); [|simpl; lia].
  repeat constructor; discriminate.
Defined.
