(* ===== verification/ZmodemTransfer.v ===== *)
(** * ZMODEM transfers

    Model of [crates/hapcli-modem-transfer/src/zmodem_transfer.rs]: the
    streaming header and data-subpacket readers, the writers, and the sending
    and receiving sessions with their ZRPOS recovery.  [fuel] bounds the turns
    of each unbounded [loop]. *)
From S2P Require Import Prelude Text Crc ModemIo Xymodem Zmodem XymodemTransfer.
From stdpp Require Import prelude list numbers.
Open Scope Z_scope.

(** ** Definitions *)

Definition ZMODEM_TIMEOUT : Z := 10.
Definition ZMODEM_MAX_CHUNK : Z := 8192.
Definition ZMODEM_MAX_POSITION : Z := 0xffffffff.
Definition ZMODEM_CAN_FULL_DUPLEX : Z := 0x01.
Definition ZMODEM_CAN_OVERLAPPED_IO : Z := 0x02.
Definition ZMODEM_CAN_CRC32 : Z := 0x20.
Definition ZMODEM_ESCAPE_CONTROL : Z := 0x40.
Definition ZMODEM_BINARY_FILE_CONVERSION : Z := 0x01.
Definition ZMODEM_ATTENTION_MAX_BYTES : Z := 32.
Definition ZFILE_BINARY_FLAGS : Pos4 := (0, 0, 0, ZMODEM_BINARY_FILE_CONVERSION).
Definition ZRINIT_FLAGS : Pos4 :=
  (wrap 8 (Z.land ZMODEM_MAX_CHUNK 0xff), wrap 8 (Z.shiftr ZMODEM_MAX_CHUNK 8), 0,
   Z.lor (Z.lor (Z.lor ZMODEM_CAN_FULL_DUPLEX ZMODEM_CAN_OVERLAPPED_IO) ZMODEM_CAN_CRC32)
     ZMODEM_ESCAPE_CONTROL).

Record ZmodemPeerCapabilities := mkPeer {
  chunk_size : Z;
  peer_use_crc32 : bool;
  peer_escape_control : bool
}.

Record ZmodemFileHeader := mkZmodemFileHeader {
  zh_file_name : list Z;
  zh_file_size : option Z
}.

Record ZmodemSendEntry := mkZmodemSendEntry { ze_file_name : list Z; ze_bytes : list Z }.

Record ZmodemSendStreamEntry (R : Type) := mkZmodemSendStreamEntry {
  zs_file_name : list Z;
  zs_file_size : Z;
  zs_reader : R
}.
Arguments mkZmodemSendStreamEntry {R} _ _ _.
Arguments zs_file_name {R} _.
Arguments zs_file_size {R} _.
Arguments zs_reader {R} _.

Record ZDataFrame := mkZDataFrame { zd_payload : list Z; zd_end : ZDataEnd }.

Inductive ZmodemSendDataResult : Type :=
| Complete
| ResumeAt (offset : Z)
| Skip.

Definition validate_zmodem_file_size (file_size : Z) : result ModemTransferError unit :=
  if ZMODEM_MAX_POSITION <? file_size then Err (UnsupportedFileSize file_size) else Ok tt.

Definition position_header_checked (position : Z) : result ModemTransferError Pos4 :=
  if ZMODEM_MAX_POSITION <? position then Err (UnsupportedFileSize position)
  else Ok (position_header (wrap 32 position)).

Definition parse_zfile_header (bytes : list Z) : result ModemTransferError (option ZmodemFileHeader) :=
  let? nul := ok_or (position (fun b => b =? 0) bytes) (Protocol InvalidLength) in
  if nul =? 0 then Ok None
  else
    let file_name := from_utf8_lossy (ztake nul bytes) in
    if existsb is_slash file_name || bool_decide (file_name = [46]) || bool_decide (file_name = [46; 46])
    then Err (Protocol InvalidFileName)
    else
      let metadata := from_utf8_lossy (zdrop (nul + 1) bytes) in
      let? file_size :=
        match split_whitespace metadata with
        | [] => Ok None
        | word :: _ => match parse_u64 word with
                       | Some n => Ok (Some n)
                       | None => Err (Protocol InvalidLength)
                       end
        end in
      Ok (Some (mkZmodemFileHeader file_name file_size)).

Definition build_zfile_header (file_name : list Z) (file_size : Z) : list Z :=
  utf8_encode file_name ++ [0] ++ u64_to_string file_size.

(** The bytes [write_zdata] writes. *)
Definition zdata_bytes (payload : list Z) (e : ZDataEnd) (use_crc32 escape_control : bool) : list Z :=
  let out := push_all_escaped [] payload escape_control in
  let out := out ++ [ZDLE; ZDataEnd_marker e] in
  let out :=
    if use_crc32 then
      let crc := fold_left crc32_ieee_update payload 0xffffffff in
      let crc := crc32_ieee_update crc (ZDataEnd_marker e) in
      push_all_escaped out (u32_to_le (bitnot 32 crc)) escape_control
    else
      let crc := fold_left crc16_xmodem_update payload 0 in
      let crc := crc16_xmodem_update crc (ZDataEnd_marker e) in
      let out := push_zdle_escaped_with_control out (Z.shiftr crc 8) escape_control in
      push_zdle_escaped_with_control out (wrap 8 crc) escape_control in
  if bool_decide (e = EndWithAck) then out ++ [XON] else out.

Definition is_flow_control (byte : Z) : bool :=
  (byte =? XON) || (byte =? 0x13) || (byte =? 0x91) || (byte =? 0x93).

Section Transfer.
Context {I : Type} `{ModemIo I}.

Definition read_hex_nibble : IO I Z :=
  let* byte := read_byte ZMODEM_TIMEOUT in
  if in_range 48 57 byte then ret (byte - 48)
  else if in_range 97 102 byte then ret (byte - 97 + 10)
  else if in_range 65 70 byte then ret (byte - 65 + 10)
  else throw (UnexpectedByte byte).

Definition decode_zescaped_followup (escaped : Z) : IO I Z :=
  if escaped =? ZRUB0 then ret 0x7f
  else if escaped =? ZRUB1 then ret 0xff
  else if Z.land escaped 0x60 =? 0x40 then ret (Z.lxor escaped 0x40)
  else if escaped =? ZDLE then
    for_return 3
      (let* byte := read_byte ZMODEM_TIMEOUT in
       if negb (byte =? ZDLE) then throw (Protocol InvalidEscape) else ret None)
      (throw Cancelled)
  else throw (Protocol InvalidEscape).

Definition read_zescaped_byte (fuel : nat) : IO I Z :=
  loop fuel (fun _ : unit =>
    let* byte := read_byte ZMODEM_TIMEOUT in
    if is_flow_control byte then ret (inl tt)
    else if byte =? ZDLE then
      let* escaped := read_byte ZMODEM_TIMEOUT in
      let* b := decode_zescaped_followup escaped in
      ret (inr b)
    else ret (inr byte)) tt.

Definition consume_hex_header_line_end : IO I unit :=
  let* carriage_return := read_byte ZMODEM_TIMEOUT in
  if negb (carriage_return =? 13) then throw (UnexpectedByte carriage_return)
  else
    let* line_feed := read_byte ZMODEM_TIMEOUT in
    if negb (Z.land line_feed 0x7f =? 10) then throw (UnexpectedByte line_feed)
    else ret tt.

Definition read_hex_zheader : IO I ZHeader :=
  let* decoded :=
    replicateM 7
      (let* high := read_hex_nibble in
       let* low := read_hex_nibble in
       ret (Z.lor (wrap 8 (Z.shiftl high 4)) low)) in
  let expected_crc := crc16_xmodem (ztake 5 decoded) in
  let received_crc := u16_from_be (byte_at decoded 5) (byte_at decoded 6) in
  if negb (expected_crc =? received_crc) then throw (Protocol InvalidCrc)
  else
    do* consume_hex_header_line_end in
    let* t := protocol (ok_or (ZFrameType_from_byte (byte_at decoded 0)) InvalidFrameType) in
    ret (mkZHeader t (byte_at decoded 1, byte_at decoded 2, byte_at decoded 3, byte_at decoded 4) Hex).

Definition read_binary_zheader (fuel : nat) (enc : ZHeaderEncoding) : IO I ZHeader :=
  let crc_len := if bool_decide (enc = Bin32) then 4%nat else 2%nat in
  let* decoded := replicateM (5 + crc_len) (read_zescaped_byte fuel) in
  do* (match enc with
       | Bin16 =>
           let crc := fold_left crc16_xmodem_update (ztake 7 decoded) 0 in
           if negb (crc =? 0) then throw (Protocol InvalidCrc) else ret tt
       | Bin32 =>
           let expected := bitnot 32 (fold_left crc32_ieee_update (ztake 5 decoded) 0xffffffff) in
           let received := u32_from_le (byte_at decoded 5) (byte_at decoded 6)
                             (byte_at decoded 7) (byte_at decoded 8) in
           if negb (expected =? received) then throw (Protocol InvalidCrc) else ret tt
       | Hex => throw UnexpectedFrame
       end) in
  let* t := protocol (ok_or (ZFrameType_from_byte (byte_at decoded 0)) InvalidFrameType) in
  ret (mkZHeader t (byte_at decoded 1, byte_at decoded 2, byte_at decoded 3, byte_at decoded 4) enc).

(** The reader chosen by the byte after the ZDLE. *)
Definition read_encoded_zheader (fuel : nat) (enc : Z) : IO I ZHeader :=
  if enc =? ZHEX then read_hex_zheader
  else if enc =? ZBIN then read_binary_zheader fuel Bin16
  else if enc =? ZBIN32 then read_binary_zheader fuel Bin32
  else throw (UnexpectedByte enc).

Definition read_zmodem_header (fuel : nat) : IO I ZHeader :=
  loop fuel (fun _ : unit =>
    let* first := read_byte ZMODEM_TIMEOUT in
    if negb (first =? ZPAD) then ret (inl tt)
    else
      let* next := read_byte ZMODEM_TIMEOUT in
      if next =? ZPAD then
        let* third := read_byte ZMODEM_TIMEOUT in
        if negb (third =? ZDLE) then ret (inl tt)
        else
          let* enc := read_byte ZMODEM_TIMEOUT in
          let* h := read_encoded_zheader fuel enc in
          ret (inr h)
      else if next =? ZDLE then
        let* enc := read_byte ZMODEM_TIMEOUT in
        let* h := read_encoded_zheader fuel enc in
        ret (inr h)
      else ret (inl tt)) tt.

(** One turn of the first loop of [read_zmodem_data]. *)
Definition read_data_body (max_payload : Z) (payload : list Z)
    : IO I (list Z + list Z * ZDataEnd) :=
  let* byte := read_byte ZMODEM_TIMEOUT in
  if is_flow_control byte then ret (inl payload)
  else if negb (byte =? ZDLE) then
    if max_payload <=? zlen payload then throw (Protocol InvalidLength)
    else ret (inl (payload ++ [byte]))
  else
    let* escaped := read_byte ZMODEM_TIMEOUT in
    match ZDataEnd_from_marker escaped with
    | Some e => ret (inr (payload, e))
    | None =>
        if max_payload <=? zlen payload then throw (Protocol InvalidLength)
        else
          let* b := decode_zescaped_followup escaped in
          ret (inl (payload ++ [b]))
    end.

Definition read_zmodem_data (fuel : nat) (use_crc32 : bool) (max_payload : Z) : IO I ZDataFrame :=
  let* got := loop fuel (read_data_body max_payload) [] in
  let payload := fst got in
  let e := snd got in
  do* (if use_crc32 then
         let* crc_bytes := replicateM 4 (read_zescaped_byte fuel) in
         let crc := fold_left crc32_ieee_update payload 0xffffffff in
         let crc := crc32_ieee_update crc (ZDataEnd_marker e) in
         let expected := bitnot 32 crc in
         let received := u32_from_le (byte_at crc_bytes 0) (byte_at crc_bytes 1)
                           (byte_at crc_bytes 2) (byte_at crc_bytes 3) in
         if negb (expected =? received) then throw (Protocol InvalidCrc) else ret tt
       else
         let* high := read_zescaped_byte fuel in
         let* low := read_zescaped_byte fuel in
         let crc := fold_left crc16_xmodem_update payload 0 in
         let crc := crc16_xmodem_update crc (ZDataEnd_marker e) in
         let crc := crc16_xmodem_update crc high in
         let crc := crc16_xmodem_update crc low in
         if negb (crc =? 0) then throw (Protocol InvalidCrc) else ret tt) in
  ret (mkZDataFrame payload e).

Definition write_zheader (t : ZFrameType) (position : Pos4) : IO I unit :=
  let include_xon := negb (bool_decide (t = ZFin) || bool_decide (t = ZAck)) in
  write_all (encode_hex_header t position include_xon).

(** [write_zheader(io, t, position_header_checked(position)?)]. *)
Definition write_zposition (t : ZFrameType) (position : Z) : IO I unit :=
  let* p := lift (position_header_checked position) in
  write_zheader t p.

Definition write_zbinary_header (t : ZFrameType) (position : Pos4) (use_crc32 escape_control : bool)
    : IO I unit :=
  write_all (if use_crc32 then encode_bin32_header_with_escape t position escape_control
             else encode_bin16_header_with_escape t position escape_control).

Definition write_zdata (payload : list Z) (e : ZDataEnd) (use_crc32 escape_control : bool) : IO I unit :=
  write_all (zdata_bytes payload e use_crc32 escape_control).

Definition send_zrinit : IO I unit := write_zheader ZrInit ZRINIT_FLAGS.

Definition finish_zmodem_receive (fuel : nat) : IO I unit :=
  do* write_zheader ZFin (position_header 0) in
  loop fuel (fun v : Z * Z =>
    let '(consecutive_o, consecutive_cancel) := v in
    let* byte := read_byte ZMODEM_TIMEOUT in
    let consecutive_o := if byte =? 79 then consecutive_o + 1 else 0 in
    if consecutive_o =? 2 then ret (inr tt)
    else
      let consecutive_cancel := if byte =? ZDLE then consecutive_cancel + 1 else 0 in
      if consecutive_cancel =? 5 then throw Cancelled
      else ret (inl (consecutive_o, consecutive_cancel))) (0, 0).

Definition finish_zmodem_send (fuel : nat) : IO I unit :=
  for_return 3
    (do* write_zheader ZFin (position_header 0) in
     let* header := read_zmodem_header fuel in
     match frame_type header with
     | ZFin => do* write_all [79; 79] in ret (Some tt)
     | ZAbort | ZCan | ZFerr => throw Cancelled
     | _ => ret None
     end)
    (throw Timeout).

Definition wait_for_zrinit (fuel : nat) : IO I ZmodemPeerCapabilities :=
  loop fuel (fun _ : unit =>
    let* header := read_zmodem_header fuel in
    match frame_type header with
    | ZrInit =>
        let '(p0, p1, p2, p3) := header_position header in
        let advertised_chunk := u16_from_le p0 p1 in
        let chunk_size := if advertised_chunk <? 32 then 1024
                          else Z.min advertised_chunk ZMODEM_MAX_CHUNK in
        ret (inr (mkPeer chunk_size (negb (Z.land p3 ZMODEM_CAN_CRC32 =? 0))
                    (negb (Z.land p3 ZMODEM_ESCAPE_CONTROL =? 0))))
    | ZrqInit => do* write_zheader ZrInit ZRINIT_FLAGS in ret (inl tt)
    | ZAbort | ZCan => throw Cancelled
    | _ => ret (inl tt)
    end) tt.

Section Sender.
Context {R : Type} `{Read R} `{Seek R}.

(** [read_padded_exact]: fill the buffer, stopping at the end of the input. *)
Definition read_padded_exact (len : Z) : IO R (list Z) :=
  loop (S (Z.to_nat len))
    (fun got : list Z =>
       if zlen got <? len then
         let* more := read (len - zlen got) in
         if zlen more =? 0 then ret (inr got) else ret (inl (got ++ more))
       else ret (inr got)) [].

(** One turn of the [while] of [send_zfile_data_stream]: [None] when the
    condition fails, [Some] for an early return. *)
Definition send_data_body (fuel : nat) (file_size : Z) (peer : ZmodemPeerCapabilities) (sent_offset : Z)
    : IO (I * R) (Z + option ZmodemSendDataResult) :=
  if sent_offset <? file_size then
    let remaining := Z.min (file_size - sent_offset) (chunk_size peer) in
    let* got := on_snd (read_padded_exact remaining) in
    if zlen got =? 0 then throw UnexpectedFrame
    else
      let sent_offset := sat_add sent_offset (zlen got) in
      let frame_end := if sent_offset <? file_size then ContinueWithAck else End in
      do* on_fst (write_zdata got frame_end (peer_use_crc32 peer) (peer_escape_control peer)) in
      if bool_decide (frame_end = ContinueWithAck) then
        let* response := on_fst (read_zmodem_header fuel) in
        match frame_type response with
        | ZAck => if position_u32 response =? sent_offset then ret (inl sent_offset)
                  else throw UnexpectedFrame
        | ZRpos => ret (inr (Some (ResumeAt (position_u32 response))))
        | ZSkip => ret (inr (Some Skip))
        | ZAbort | ZCan => throw Cancelled
        | _ => throw UnexpectedFrame
        end
      else ret (inl sent_offset)
  else ret (inr None).

Definition send_zfile_data_stream (fuel : nat) (file_size offset : Z) (peer : ZmodemPeerCapabilities)
    : IO (I * R) ZmodemSendDataResult :=
  let start := Z.min offset file_size in
  do* on_snd (seek start) in
  let* p := lift (position_header_checked start) in
  do* on_fst (write_zbinary_header ZData p (peer_use_crc32 peer) (peer_escape_control peer)) in
  let* early := loop fuel (send_data_body fuel file_size peer) start in
  match early with
  | Some r => ret r
  | None =>
      do* (if start =? file_size
           then on_fst (write_zdata [] End (peer_use_crc32 peer) (peer_escape_control peer))
           else ret tt) in
      do* on_fst (write_zposition ZEof file_size) in
      ret Complete
  end.

(** One turn of the loop that sends the data of an entry from [offset] until
    the peer accepts or skips it: the bytes to count. *)
Definition send_offer_body (fuel : nat) (file_size : Z) (peer : ZmodemPeerCapabilities) (offset : Z)
    : IO (I * R) (Z + Z) :=
  let* r := send_zfile_data_stream fuel file_size offset peer in
  match r with
  | ResumeAt next_offset =>
      if file_size <? next_offset then throw UnexpectedFrame else ret (inl next_offset)
  | Skip => ret (inr 0)
  | Complete =>
      let* followup := on_fst (read_zmodem_header fuel) in
      match frame_type followup with
      | ZrInit => ret (inr file_size)
      | ZRpos =>
          let next_offset := position_u32 followup in
          if file_size <? next_offset then throw UnexpectedFrame else ret (inl next_offset)
      | ZSkip => ret (inr 0)
      | ZAbort | ZCan => throw Cancelled
      | _ => throw UnexpectedFrame
      end
  end.

(** One turn of the loop that waits for the answer to a ZFILE. *)
Definition send_entry_body (fuel : nat) (file_size : Z) (peer : ZmodemPeerCapabilities) (_ : unit)
    : IO (I * R) (unit + Z) :=
  let* response := on_fst (read_zmodem_header fuel) in
  match frame_type response with
  | ZRpos =>
      let offset := position_u32 response in
      if file_size <? offset then throw UnexpectedFrame
      else
        let* n := loop fuel (send_offer_body fuel file_size peer) offset in
        ret (inr n)
  | ZSkip => ret (inr 0)
  | ZAbort | ZCan => throw Cancelled
  | _ => ret (inl tt)
  end.

Definition send_zmodem_entry (fuel : nat) (peer : ZmodemPeerCapabilities) (entry : ZmodemSendStreamEntry R)
    : IO I Z :=
  let header_payload := build_zfile_header (zs_file_name entry) (zs_file_size entry) in
  do* write_zbinary_header ZFile ZFILE_BINARY_FLAGS (peer_use_crc32 peer) (peer_escape_control peer) in
  do* write_zdata header_payload EndWithAck (peer_use_crc32 peer) (peer_escape_control peer) in
  with_reader (zs_reader entry) (loop fuel (send_entry_body fuel (zs_file_size entry) peer) tt).

Fixpoint send_zmodem_entries (fuel : nat) (peer : ZmodemPeerCapabilities)
    (entries : list (ZmodemSendStreamEntry R)) (total : Z) : IO I Z :=
  match entries with
  | [] => ret total
  | entry :: rest =>
      let* n := send_zmodem_entry fuel peer entry in
      send_zmodem_entries fuel peer rest (total + n)
  end.

Fixpoint validate_entries (entries : list (ZmodemSendStreamEntry R)) : result ModemTransferError unit :=
  match entries with
  | [] => Ok tt
  | entry :: rest =>
      let? _u := validate_zmodem_file_size (zs_file_size entry) in
      validate_entries rest
  end.

Definition send_zmodem_stream (fuel : nat) (entries : list (ZmodemSendStreamEntry R)) : IO I Z :=
  do* lift (validate_entries entries) in
  let* peer := wait_for_zrinit fuel in
  let* total := send_zmodem_entries fuel peer entries 0 in
  do* finish_zmodem_send fuel in
  ret total.
End Sender.

Definition send_zmodem (fuel : nat) (entries : list ZmodemSendEntry) : IO I Z :=
  send_zmodem_stream fuel
    (map (fun e => mkZmodemSendStreamEntry (ze_file_name e) (zlen (ze_bytes e)) (mkCursor (ze_bytes e) 0))
       entries).

Section Receiver.
Context {F W : Type} `{Write F W}.

Definition is_some_and (o : option Z) (p : Z -> bool) : bool :=
  match o with Some x => p x | None => false end.
Definition is_none_or (o : option Z) (p : Z -> bool) : bool :=
  match o with Some x => p x | None => true end.

(** One turn of the subpacket loop: [received_offset] is its variable, and its
    value when it breaks. *)
Definition receive_data_body (fuel : nat) (writer : W) (file_size : option Z) (data_uses_crc32 : bool)
    (received_offset : Z) : IO (I * F) (Z + Z) :=
  let* r := attempt (on_fst (read_zmodem_data fuel data_uses_crc32 ZMODEM_MAX_CHUNK)) in
  match r with
  | Ok frame =>
      let next_offset := received_offset + zlen (zd_payload frame) in
      if U64_MAX <? next_offset then throw UnexpectedFrame
      else if is_some_and file_size (fun file_size => file_size <? next_offset) then throw UnexpectedFrame
      else
        do* on_snd (writer_write_all writer (zd_payload frame)) in
        match zd_end frame with
        | Continue => ret (inl next_offset)
        | ContinueWithAck =>
            do* on_fst (write_zposition ZAck next_offset) in
            ret (inl next_offset)
        | End => ret (inr next_offset)
        | EndWithAck =>
            do* on_fst (write_zposition ZAck next_offset) in
            ret (inr next_offset)
        end
  | Err (Protocol InvalidCrc) =>
      do* on_fst (write_zposition ZRpos received_offset) in
      ret (inr received_offset)
  | Err error => throw error
  end.

(** One turn of the frame loop of a file. *)
Definition receive_file_body (fuel : nat) (writer : W) (file_size : option Z) (received_offset : Z)
    : IO (I * F) (Z + unit) :=
  let* data_header := on_fst (read_zmodem_header fuel) in
  match frame_type data_header with
  | ZData =>
      if negb (position_u32 data_header =? received_offset) then
        do* on_fst (write_zposition ZRpos received_offset) in
        ret (inl received_offset)
      else
        let data_uses_crc32 := bool_decide (encoding data_header = Bin32) in
        let* received_offset :=
          loop fuel (receive_data_body fuel writer file_size data_uses_crc32) received_offset in
        ret (inl received_offset)
  | ZEof =>
      let declared_size_matches := is_none_or file_size (fun file_size => file_size =? received_offset) in
      if negb (position_u32 data_header =? received_offset) || negb declared_size_matches then
        do* on_fst (write_zposition ZRpos received_offset) in
        ret (inl received_offset)
      else
        do* on_snd (writer_flush writer) in
        do* on_fst send_zrinit in
        ret (inr tt)
  | ZFin => throw UnexpectedFrame
  | ZAbort | ZCan => throw Cancelled
  | _ => throw UnexpectedFrame
  end.

(** The ZFILE arm of [receive_zmodem]. *)
Definition receive_zfile (fuel : nat) (open_writer : ZmodemFileHeader -> IO F W) (header : ZHeader)
    (received : list ZmodemFileHeader)
    : IO (I * F) (list ZmodemFileHeader + list ZmodemFileHeader) :=
  let use_crc32 := bool_decide (encoding header = Bin32) in
  let* file_header_frame := on_fst (read_zmodem_data fuel use_crc32 ZMODEM_MAX_CHUNK) in
  if negb (bool_decide (zd_end file_header_frame = EndWithAck)) then throw UnexpectedFrame
  else
    let* parsed := lift (parse_zfile_header (zd_payload file_header_frame)) in
    match parsed with
    | None => do* on_fst (finish_zmodem_receive fuel) in ret (inr received)
    | Some file_header =>
        do* lift (match zh_file_size file_header with
                  | Some file_size => validate_zmodem_file_size file_size
                  | None => Ok tt
                  end) in
        let* writer := on_snd (open_writer file_header) in
        do* on_fst (write_zposition ZRpos 0) in
        do* loop fuel (receive_file_body fuel writer (zh_file_size file_header)) 0 in
        ret (inl (received ++ [file_header]))
    end.

(** One turn of the loop of [receive_zmodem]. *)
Definition receive_zmodem_body (fuel : nat) (open_writer : ZmodemFileHeader -> IO F W)
    (received : list ZmodemFileHeader)
    : IO (I * F) (list ZmodemFileHeader + list ZmodemFileHeader) :=
  let* header := on_fst (read_zmodem_header fuel) in
  match frame_type header with
  | ZrqInit => do* on_fst send_zrinit in ret (inl received)
  | ZFile => receive_zfile fuel open_writer header received
  | ZsInit =>
      let use_crc32 := bool_decide (encoding header = Bin32) in
      let* frame := on_fst (read_zmodem_data fuel use_crc32 ZMODEM_ATTENTION_MAX_BYTES) in
      if negb (bool_decide (zd_end frame = EndWithAck)) then throw UnexpectedFrame
      else
        do* on_fst (write_zheader ZAck (position_header 1)) in
        ret (inl received)
  | ZFin => do* on_fst (finish_zmodem_receive fuel) in ret (inr received)
  | ZAbort | ZCan => throw Cancelled
  | _ => ret (inl received)
  end.

Definition receive_zmodem (fuel : nat) (open_writer : ZmodemFileHeader -> IO F W)
    : IO (I * F) (list ZmodemFileHeader) :=
  do* on_fst send_zrinit in
  loop fuel (receive_zmodem_body fuel open_writer) [].
End Receiver.
End Transfer.

Definition parse_zmodem_header_prefix (bytes : list Z) : result ModemError (option ZHeader) :=
  match read_zmodem_header (S (length bytes)) (with_input bytes) with
  | Some (Ok header, _) => Ok (Some header)
  | Some (Err Timeout, _) => Ok None
  | Some (Err (Protocol error), _) => Err error
  | Some (Err _, _) => Err InvalidMarker
  | None => Ok None
  end.

(** ** The readers on encoded input *)

#[local] Opaque crc16_xmodem_update crc32_ieee_update.

Lemma not_escaped_not_flow b : should_escape_zdle b = false -> is_flow_control b = false.
Proof.
  unfold should_escape_zdle, is_flow_control, XON, ZDLE. intros H.
  repeat (apply orb_false_iff in H as [H ?]). repeat (apply orb_false_iff; split); done.
Qed.

Lemma followup_run e b (io : MemoryModemIo) :
  decode_escape e = Ok b -> decode_zescaped_followup e io = Some (Ok b, io).
Proof.
  unfold decode_escape, decode_zescaped_followup.
  destruct (e =? ZRUB0); [by intros [= <-]|]. destruct (e =? ZRUB1); [by intros [= <-]|].
  destruct (Z.land e 0x60 =? 0x40); [by intros [= <-]|done].
Qed.

Lemma zescaped_run fuel esc b rest o :
  (0 < fuel)%nat -> is_u8 b ->
  read_zescaped_byte fuel (mem (escape_byte esc b ++ rest) o) = Some (Ok b, mem rest o).
Proof.
  intros Hf Hb. unfold read_zescaped_byte. apply loop_break; [done|].
  destruct (escape_byte_cases esc b Hb) as [[-> Hn]|(e & -> & Hd & _)]; cbn [app].
  - erewrite bind_ok by apply read_byte_cons.
    by rewrite not_escaped_not_flow, not_escaped_not_zdle by done.
  - erewrite bind_ok by apply read_byte_cons. change (is_flow_control ZDLE) with false. cbn iota.
    rewrite Z.eqb_refl. erewrite bind_ok by apply read_byte_cons.
    by erewrite bind_ok by (by apply followup_run).
Qed.

Lemma zescaped_all_run fuel esc l rest o n :
  (0 < fuel)%nat -> bytes_ok l -> n = length l ->
  replicateM n (read_zescaped_byte fuel) (mem (escape_all esc l ++ rest) o) = Some (Ok l, mem rest o).
Proof.
  intros Hf Hl ->. induction Hl as [|b l Hb _ IH]; [done|].
  rewrite escape_all_cons, <-app_assoc. cbn [length replicateM].
  erewrite bind_ok by (by apply zescaped_run). by erewrite bind_ok by exact IH.
Qed.

(** One hexadecimal byte. *)
Definition hex_slot : IO MemoryModemIo Z :=
  let* high := read_hex_nibble in
  let* low := read_hex_nibble in
  ret (Z.lor (wrap 8 (Z.shiftl high 4)) low).

Lemma hex_nibble_run c n rest o :
  hex_value c = Ok n -> read_hex_nibble (mem (c :: rest) o) = Some (Ok n, mem rest o).
Proof.
  unfold hex_value, read_hex_nibble. intros H. erewrite bind_ok by apply read_byte_cons.
  repeat case_match; simplify_eq; done.
Qed.

Lemma hex_slot_run b rest o :
  is_u8 b -> hex_slot (mem (push_hex_byte [] b ++ rest) o) = Some (Ok b, mem rest o).
Proof.
  intros Hb. pose proof (hex_byte_roundtrip b Hb) as H. unfold push_hex_byte in *. cbn [app] in *.
  unfold read_hex_byte in H.
  destruct (hex_value (byte_at HEX (Z.shiftr b 4))) as [hi|] eqn:Hh; [|done].
  destruct (hex_value (byte_at HEX (Z.land b 15))) as [lo|] eqn:Hl; [|done].
  cbn [result_bind] in H. injection H as H. unfold hex_slot.
  erewrite bind_ok by (by apply hex_nibble_run). erewrite bind_ok by (by apply hex_nibble_run).
  by rewrite H.
Qed.

Lemma hex_slots_run l rest o n :
  bytes_ok l -> n = length l ->
  replicateM n hex_slot (mem (concat (map (push_hex_byte []) l) ++ rest) o) = Some (Ok l, mem rest o).
Proof.
  intros Hl ->. induction Hl as [|b l Hb _ IH]; [done|]. cbn [map concat length replicateM].
  rewrite <-app_assoc. erewrite bind_ok by (by apply hex_slot_run). by erewrite bind_ok by exact IH.
Qed.

Definition flow (b : bool) : list Z := if b then [XON] else [].

Lemma read_hex_run t p xon rest o :
  pos_ok p ->
  read_hex_zheader (mem (concat (map (push_hex_byte []) (hex_body t p)) ++ [13; Z.lor 10 0x80] ++ flow xon ++ rest) o)
  = Some (Ok (mkZHeader t p Hex), mem (flow xon ++ rest) o).
Proof.
  intros Hp. unfold read_hex_zheader.
  erewrite bind_ok; [|apply hex_slots_run; [by apply hex_body_ok|by destruct p as [[[? ?] ?] ?]]].
  destruct p as [[[p0 p1] p2] p3]. unfold hex_body, u16_to_be. cbn [app pos_bytes].
  autorewrite with at_index. fold (pos_bytes (p0, p1, p2, p3)).
  rewrite u16_be_roundtrip, Z.eqb_refl by auto with bytes. cbn [negb].
  erewrite bind_ok by reflexivity. rewrite frame_type_roundtrip. reflexivity.
Qed.

Lemma read_bin32_run fuel t p esc rest o :
  (0 < fuel)%nat -> pos_ok p ->
  read_binary_zheader fuel Bin32 (mem (escape_all esc (bin32_body t p) ++ rest) o)
  = Some (Ok (mkZHeader t p Bin32), mem rest o).
Proof.
  intros Hf Hp. unfold read_binary_zheader. rewrite bool_decide_eq_true_2 by done.
  erewrite bind_ok; [|apply zescaped_all_run; [done|by apply bin32_body_ok|by destruct p as [[[? ?] ?] ?]]].
  destruct p as [[[p0 p1] p2] p3]. unfold bin32_body, u32_to_le. cbn [app pos_bytes].
  autorewrite with at_index. fold (pos_bytes (p0, p1, p2, p3)).
  rewrite u32_le_roundtrip by auto with bytes. unfold crc32_ieee. rewrite Z.eqb_refl. cbn [negb].
  erewrite bind_ok by reflexivity. rewrite frame_type_roundtrip. reflexivity.
Qed.

(** Read the next byte of a concrete input and decide the tests on it. *)
Ltac next_byte :=
  erewrite bind_ok by apply read_byte_cons;
  change (is_flow_control ZDLE) with false; change (ZDLE =? ZPAD) with false;
  rewrite ?Z.eqb_refl; cbn [negb]; cbn iota.

(** Bytes before a header are skipped. *)
Definition junk (j : list Z) : Prop := Forall (fun b => b <> ZPAD) j.

Lemma read_header_skip fuel j rest o r :
  junk j -> (forall k, (0 < k)%nat -> (k <= fuel)%nat ->
    loop k (fun _ : unit =>
      let* first := read_byte ZMODEM_TIMEOUT in
      if negb (first =? ZPAD) then ret (inl tt)
      else
        let* next := read_byte ZMODEM_TIMEOUT in
        if next =? ZPAD then
          let* third := read_byte ZMODEM_TIMEOUT in
          if negb (third =? ZDLE) then ret (inl tt)
          else
            let* enc := read_byte ZMODEM_TIMEOUT in
            let* h := read_encoded_zheader fuel enc in
            ret (inr h)
        else if next =? ZDLE then
          let* enc := read_byte ZMODEM_TIMEOUT in
          let* h := read_encoded_zheader fuel enc in
          ret (inr h)
        else ret (inl tt)) tt (mem rest o) = r) ->
  (length j < fuel)%nat -> read_zmodem_header fuel (mem (j ++ rest) o) = r.
Proof.
  intros Hj Hr Hf. unfold read_zmodem_header. set (body := fun _ : unit => _) in *.
  assert (Hk : forall k, (length j < k)%nat -> (k <= fuel)%nat -> loop k body tt (mem (j ++ rest) o) = r);
    [|apply Hk; lia].
  clear Hf. induction Hj as [|b j Hb _ IH]; intros k Hk Hle; [apply Hr; simpl in Hk; lia|].
  simpl in Hk. destruct k as [|k]; [lia|]. cbn [app]. erewrite loop_continue; [apply IH; lia|].
  unfold body. erewrite bind_ok by apply read_byte_cons.
  by rewrite (proj2 (Z.eqb_neq b ZPAD)).
Qed.

Lemma header_hex_run fuel j t p xon rest o :
  junk j -> (length j < fuel)%nat -> pos_ok p ->
  read_zmodem_header fuel (mem (j ++ encode_hex_header t p xon ++ rest) o)
  = Some (Ok (mkZHeader t p Hex), mem (flow xon ++ rest) o).
Proof.
  intros Hj Hf Hp. apply read_header_skip; [done| |done]. intros k Hk _. apply loop_break; [done|].
  rewrite encode_hex_shape. cbn [app]. do 4 next_byte.
  change (read_encoded_zheader fuel ZHEX) with (@read_hex_zheader MemoryModemIo _).
  rewrite <-!app_assoc. by erewrite bind_ok by (by apply read_hex_run).
Qed.

Lemma header_bin32_run fuel j t p esc rest o :
  junk j -> (length j < fuel)%nat -> pos_ok p ->
  read_zmodem_header fuel (mem (j ++ encode_bin32_header_with_escape t p esc ++ rest) o)
  = Some (Ok (mkZHeader t p Bin32), mem rest o).
Proof.
  intros Hj Hf Hp. apply read_header_skip; [done| |done]. intros k Hk Hle. apply loop_break; [done|].
  rewrite encode_bin32_shape. cbn [app]. do 3 next_byte.
  change (read_encoded_zheader fuel ZBIN32) with (@read_binary_zheader MemoryModemIo _ fuel Bin32).
  by erewrite bind_ok by (apply read_bin32_run; [lia|done]).
Qed.

(** The payload loop of [read_zmodem_data]. *)
Lemma data_payload_run fuel max esc l acc e rest o :
  bytes_ok l -> zlen acc + zlen l <= max -> (length l < fuel)%nat ->
  loop fuel (read_data_body max) acc (mem (escape_all esc l ++ [ZDLE; ZDataEnd_marker e] ++ rest) o)
  = Some (Ok (acc ++ l, e), mem rest o).
Proof.
  intros Hl. revert fuel acc. induction Hl as [|b l Hb _ IH]; intros fuel acc Hm Hf; simpl in Hf.
  - apply loop_break; [lia|]. rewrite app_nil_r. unfold read_data_body. cbn [app escape_all map concat].
    next_byte. erewrite bind_ok by apply read_byte_cons. by rewrite end_marker_roundtrip.
  - destruct fuel as [|fuel]; [lia|]. rewrite zlen_cons in Hm. pose proof (zlen_nonneg l).
    rewrite escape_all_cons, <-app_assoc. erewrite loop_continue.
    + rewrite (IH fuel (acc ++ [b])) by (rewrite ?zlen_app, ?zlen_cons, ?zlen_nil; lia).
      by rewrite <-app_assoc.
    + unfold read_data_body.
      destruct (escape_byte_cases esc b Hb) as [[-> Hn]|(x & -> & Hd & Hx)]; cbn [app].
      * erewrite bind_ok by apply read_byte_cons.
        rewrite not_escaped_not_flow, not_escaped_not_zdle by done. cbn [negb].
        by rewrite (proj2 (Z.leb_gt max (zlen acc))) by lia.
      * next_byte. erewrite bind_ok by apply read_byte_cons. rewrite Hx.
        rewrite (proj2 (Z.leb_gt max (zlen acc))) by lia. by erewrite bind_ok by (by apply followup_run).
Qed.

Lemma zdata_shape payload e use_crc32 esc :
  zdata_bytes payload e use_crc32 esc
  = escape_all esc payload ++ [ZDLE; ZDataEnd_marker e]
    ++ escape_all esc
         (if use_crc32 then u32_to_le (crc32_ieee (payload ++ [ZDataEnd_marker e]))
          else u16_to_be (crc16_xmodem (payload ++ [ZDataEnd_marker e])))
    ++ flow (bool_decide (e = EndWithAck)).
Proof.
  unfold zdata_bytes, crc32_ieee, crc16_xmodem. rewrite !fold_left_app. cbn [fold_left].
  rewrite !push_all_escaped_app, app_nil_l.
  destruct use_crc32.
  - destruct (bool_decide _); by rewrite <-!app_assoc, ?app_nil_r.
  - rewrite !push_escaped_app. unfold u16_to_be. rewrite !escape_all_cons.
    destruct (bool_decide _); rewrite <-!app_assoc, ?app_nil_r; reflexivity.
Qed.

Lemma data_run fuel (use_crc32 esc : bool) max payload e rest o :
  bytes_ok payload -> zlen payload <= max -> (length payload < fuel)%nat ->
  read_zmodem_data fuel use_crc32 max (mem (zdata_bytes payload e use_crc32 esc ++ rest) o)
  = Some (Ok (mkZDataFrame payload e), mem (flow (bool_decide (e = EndWithAck)) ++ rest) o).
Proof.
  intros Hl Hm Hf. rewrite zdata_shape. unfold read_zmodem_data. rewrite <-!app_assoc.
  erewrite bind_ok by (apply data_payload_run; [done|rewrite zlen_nil; lia|done]). cbn [fst snd app].
  assert (Hw : bytes_ok (payload ++ [ZDataEnd_marker e])).
  { apply Forall_app. split; [done|]. constructor; [destruct e; by vm_compute|constructor]. }
  destruct use_crc32.
  - erewrite bind_ok; [reflexivity|].
    erewrite bind_ok by (apply zescaped_all_run; [lia|auto with bytes|done]).
    unfold u32_to_le. autorewrite with at_index. rewrite u32_le_roundtrip by auto with bytes.
    unfold crc32_ieee. rewrite fold_left_app. cbn [fold_left]. by rewrite Z.eqb_refl.
  - erewrite bind_ok; [reflexivity|]. set (c := crc16_xmodem (payload ++ [ZDataEnd_marker e])).
    assert (Hc16 : is_u16 c) by (unfold c; auto with bytes).
    assert (Hc : bytes_ok (u16_to_be c)) by auto with bytes.
    apply Forall_cons_1 in Hc as [Hhi Hc]. apply Forall_cons_1 in Hc as [Hlo _].
    unfold u16_to_be. rewrite !escape_all_cons, <-!app_assoc.
    erewrite bind_ok by (apply zescaped_run; [lia|done]).
    erewrite bind_ok by (apply zescaped_run; [lia|done]). cbv zeta.
    replace (crc16_xmodem_update (fold_left crc16_xmodem_update payload 0) (ZDataEnd_marker e)) with c.
    2: { unfold c, crc16_xmodem. by rewrite fold_left_app. }
    rewrite (proj2 (crc16_residue_iff c (Z.shiftr c 8) (wrap 8 c) Hc16 Hhi Hlo)) by done.
    reflexivity.
Qed.

(** The CRC-16 binary header: the encoder feeds two zero bytes to a CRC that
    needs no such padding, and the reader checks the residue. *)
Lemma header_bin16_run fuel j t p esc rest o :
  junk j -> (length j < fuel)%nat -> pos_ok p ->
  let c := crc16_xmodem (ZFrameType_byte t :: pos_bytes p) in
  crc16_xmodem_update (crc16_xmodem_update c 0) 0 <> c ->
  read_zmodem_header fuel (mem (j ++ encode_bin16_header_with_escape t p esc ++ rest) o)
  = Some (Err (Protocol InvalidCrc), mem rest o).
Proof.
  intros Hj Hf Hp c Hne. apply read_header_skip; [done| |done]. intros k Hk Hle. apply loop_err; [done|].
  rewrite encode_bin16_shape. cbn [app]. do 3 next_byte. apply bind_err.
  change (read_encoded_zheader fuel ZBIN) with (@read_binary_zheader MemoryModemIo _ fuel Bin16).
  unfold read_binary_zheader. rewrite bool_decide_eq_false_2 by done.
  pose proof (bin16_body_ok t p Hp) as Hok.
  erewrite bind_ok; [|apply zescaped_all_run; [lia|done|by destruct p as [[[? ?] ?] ?]]].
  apply bind_err. cbv zeta.
  set (d := crc16_xmodem_update (crc16_xmodem_update c 0) 0) in *.
  assert (Hbody : bin16_body t p = (ZFrameType_byte t :: pos_bytes p) ++ [Z.shiftr d 8; wrap 8 d]) by done.
  rewrite Hbody in *. apply Forall_app in Hok as [_ Hd].
  apply Forall_cons_1 in Hd as [Hhi Hd]. apply Forall_cons_1 in Hd as [Hlo _].
  replace (ztake 7 _) with ((ZFrameType_byte t :: pos_bytes p) ++ [Z.shiftr d 8; wrap 8 d])
    by (by destruct p as [[[? ?] ?] ?]).
  rewrite fold_left_app.
  change (fold_left crc16_xmodem_update (ZFrameType_byte t :: pos_bytes p) 0) with c. cbn [fold_left].
  destruct (Z.eqb_spec (crc16_xmodem_update (crc16_xmodem_update c (Z.shiftr d 8)) (wrap 8 d)) 0) as [Hz|Hz];
    [|reflexivity].
  exfalso. apply Hne. apply crc16_residue_iff in Hz; [|unfold c; auto with bytes|done|done].
  assert (is_u16 d) by (unfold d, c; auto 10 with bytes). assert (is_u16 c) by (unfold c; auto with bytes).
  injection Hz as H1 H2. rewrite <-(u16_be_roundtrip d), H1, H2 by done. by apply u16_be_roundtrip.
Qed.

(** ** The ZFILE header *)

Lemma parse_build_zfile name n :
  str_ok name -> name <> [] -> Forall (fun c => c <> 0) name -> is_u64 n ->
  existsb is_slash name = false -> name <> [46] -> name <> [46; 46] ->
  parse_zfile_header (build_zfile_header name n) = Ok (Some (mkZmodemFileHeader name (Some n))).
Proof.
  intros Hs Hne Hnz Hn Hsl H1 H2. unfold parse_zfile_header, build_zfile_header. cbn [app].
  rewrite position_app; [|eapply Forall_impl; [|by apply utf8_encode_pos]; simpl; lia|done].
  cbn [ok_or result_bind]. pose proof (utf8_encode_not_empty name Hs Hne) as Hpos.
  destruct (Z.eqb_spec (zlen (utf8_encode name)) 0); [done|].
  rewrite ztake_app, utf8_roundtrip by done. rewrite Hsl, !bool_decide_eq_false_2 by done. cbn [orb].
  rewrite zdrop_past.
  rewrite from_utf8_lossy_ascii.
  2: { eapply Forall_impl; [|apply dec_digits_range; destruct Hn; lia]. simpl. lia. }
  by rewrite u64_to_string_word, u64_to_string_roundtrip.
Qed.

Lemma build_zfile_ok name n : str_ok name -> 0 <= n -> bytes_ok (build_zfile_header name n).
Proof.
  intros Hs Hn. apply Forall_app. split; [by apply utf8_encode_ok|]. constructor; [unfold in_width; lia|].
  eapply Forall_impl; [|by apply dec_digits_range]. unfold in_width. simpl. lia.
Qed.

(** ** Sender and receiver together *)

Lemma position_checked n : 0 <= n <= ZMODEM_MAX_POSITION ->
  position_header_checked n = Ok (position_header n).
Proof.
  intros H. unfold position_header_checked. rewrite (proj2 (Z.ltb_ge _ _)) by lia.
  unfold wrap. by rewrite Z.mod_small by (unfold ZMODEM_MAX_POSITION in H; lia).
Qed.

Definition hex_frame (t : ZFrameType) (n : Z) : list Z :=
  encode_hex_header t (position_header n) (negb (bool_decide (t = ZFin) || bool_decide (t = ZAck))).

Lemma write_zposition_run t n i o :
  0 <= n <= ZMODEM_MAX_POSITION ->
  write_zposition t n (mem i o) = Some (Ok tt, mem i (o ++ hex_frame t n)).
Proof.
  intros Hn. unfold write_zposition. rewrite position_checked by done.
  erewrite bind_ok by reflexivity. reflexivity.
Qed.

Lemma junk_flow b : junk (flow b).
Proof. destruct b; [|constructor]. constructor; [done|constructor]. Qed.

Definition full_peer : ZmodemPeerCapabilities := mkPeer ZMODEM_MAX_CHUNK true true.

Section Phase.
Context {R : Type} `{LawfulReader R} `{!Seek R}.
Context (size : Z).
Hypothesis size_ok : 0 <= size <= ZMODEM_MAX_POSITION.

(** The subpackets of a file from offset [k] on, where [d] is left. *)
Definition zphase (k : Z) (d frames acks : list Z) (nb : nat) : Prop :=
  (forall fuel F r j rest o, stands_for r d -> junk j -> (length j < fuel)%nat -> (nb < F)%nat ->
     exists r' j', junk j' /\ (length j' <= length j)%nat
     /\ loop F (send_data_body fuel size full_peer) k (mem (j ++ acks ++ rest) o, r)
        = Some (Ok None, (mem (j' ++ rest) (o ++ frames), r')))
  /\ (forall fuel F rest o fs name w, (Z.to_nat ZMODEM_MAX_CHUNK < fuel)%nat -> (nb <= F)%nat ->
      loop F (receive_data_body fuel (length fs) (Some size) true) k
        (mem (frames ++ rest) o, fs ++ [(name, w)])
      = Some (Ok size, (mem rest (o ++ acks), fs ++ [(name, w ++ d)]))).

(** One subpacket at the sender, up to its acknowledgement. *)
Lemma send_data_chunk fuel k d r :
  stands_for r d -> zlen d = size - k -> 0 <= k < size ->
  let chunk := ztake ZMODEM_MAX_CHUNK d in
  let k' := k + zlen chunk in
  exists r', stands_for r' (zdrop ZMODEM_MAX_CHUNK d) /\ k < k' <= size
  /\ (k' = size -> forall i o, send_data_body fuel size full_peer k (mem i o, r)
      = Some (Ok (inl size), (mem i (o ++ zdata_bytes chunk End true true), r')))
  /\ (k' < size -> forall j rest o, junk j -> (length j < fuel)%nat ->
      send_data_body fuel size full_peer k (mem (j ++ hex_frame ZAck k' ++ rest) o, r)
      = Some (Ok (inl k'), (mem rest (o ++ zdata_bytes chunk ContinueWithAck true true), r'))).
Proof.
  intros Hr Hd Hk chunk k'.
  assert (Hck : zlen chunk = Z.min (size - k) ZMODEM_MAX_CHUNK).
  { unfold chunk, ztake, zlen in *. rewrite length_take. unfold ZMODEM_MAX_CHUNK. lia. }
  assert (Hmin : 0 < Z.min (size - k) ZMODEM_MAX_CHUNK) by (unfold ZMODEM_MAX_CHUNK; lia).
  destruct (read_padded_run (Z.min (size - k) ZMODEM_MAX_CHUNK) r d) as (r' & Hread & Hr'); [lia|done|].
  assert (Htk : ztake (Z.min (size - k) ZMODEM_MAX_CHUNK) d = chunk).
  { rewrite Z.min_comm, <-Hd. unfold chunk. apply ztake_min. }
  rewrite Htk in Hread. rewrite Z.min_comm, <-Hd, zdrop_min in Hr'.
  exists r'. split_and!; [done|unfold k'; lia|unfold k'; lia|..].
  all: intros Hk'; intros; unfold send_data_body; rewrite (proj2 (Z.ltb_lt k size)) by lia;
    cbv zeta; cbn [chunk_size full_peer]; erewrite bind_on_snd by exact Hread;
    rewrite (proj2 (Z.eqb_neq (zlen chunk) 0)) by lia; cbn iota;
    replace (sat_add k (zlen chunk)) with k'
      by (unfold sat_add, U64_MAX, k', ZMODEM_MAX_POSITION in *; lia).
  - rewrite (proj2 (Z.ltb_ge k' size)) by lia. erewrite bind_on_fst by apply write_all_run.
    by rewrite Hk'.
  - rewrite (proj2 (Z.ltb_lt k' size)) by lia. erewrite bind_on_fst by apply write_all_run.
    rewrite bool_decide_eq_true_2 by done.
    erewrite bind_on_fst by (by apply header_hex_run; [| |apply position_header_ok]). cbn [frame_type].
    rewrite position_header_u32 by (unfold in_width, ZMODEM_MAX_POSITION in *; lia).
    by rewrite Z.eqb_refl.
Qed.

(** One subpacket at the receiver. *)
Lemma receive_data_chunk fuel k chunk e rest o fs name w :
  bytes_ok chunk -> zlen chunk <= ZMODEM_MAX_CHUNK -> (Z.to_nat ZMODEM_MAX_CHUNK < fuel)%nat ->
  0 <= k -> k + zlen chunk <= size ->
  e = End \/ e = ContinueWithAck ->
  let k' := k + zlen chunk in
  receive_data_body fuel (length fs) (Some size) true k
    (mem (zdata_bytes chunk e true true ++ rest) o, fs ++ [(name, w)])
  = Some (Ok (if bool_decide (e = End) then inr k' else inl k'),
      (mem rest (o ++ (if bool_decide (e = End) then [] else hex_frame ZAck k')),
       fs ++ [(name, w ++ chunk)])).
Proof.
  intros Hb Hl Hf Hk Hk' He k'. pose proof (zlen_nonneg chunk). unfold receive_data_body.
  erewrite bind_ok; [|apply attempt_run, on_fst_run, data_run; [done|done|unfold zlen in *; lia]].
  cbn [zd_payload zd_end is_some_and]. fold k'.
  rewrite (proj2 (Z.ltb_ge U64_MAX k')) by (unfold U64_MAX, ZMODEM_MAX_POSITION in *; lia).
  rewrite (proj2 (Z.ltb_ge size k')) by lia. erewrite bind_on_snd by apply store_write_last.
  destruct He as [-> | ->].
  - rewrite (bool_decide_eq_true_2 (End = End)), (bool_decide_eq_false_2 (End = EndWithAck)), app_nil_r by done.
    reflexivity.
  - rewrite !(bool_decide_eq_false_2 (ContinueWithAck = _)) by done.
    by erewrite bind_on_fst by (apply write_zposition_run; lia).
Qed.

Lemma zphase_last k d :
  bytes_ok d -> d <> [] -> zlen d = size - k -> 0 <= k -> zlen d <= ZMODEM_MAX_CHUNK ->
  zphase k d (zdata_bytes d End true true) [] 1.
Proof.
  intros Hb Hne Hd Hk Hle.
  assert (Hpos : 0 < zlen d) by (destruct d; [done|rewrite zlen_cons; pose proof (zlen_nonneg d); lia]).
  assert (Htk : ztake ZMODEM_MAX_CHUNK d = d).
  { unfold ztake. apply take_ge. unfold zlen in Hle. lia. }
  split.
  - intros fuel F r j rest o Hr Hj Hf HF. destruct F as [|[|F]]; [lia..|].
    destruct (send_data_chunk fuel k d r Hr Hd ltac:(lia)) as (r' & _ & _ & Hsend & _).
    rewrite Htk in Hsend. exists r', j. split_and!; [done|done|].
    rewrite (loop_continue _ _ _ _ _ _ (Hsend ltac:(lia) _ _)). cbn [app].
    apply loop_break; [lia|]. unfold send_data_body. by rewrite Z.ltb_irrefl.
  - intros fuel F rest o fs name w Hf HF. apply loop_break; [lia|].
    rewrite receive_data_chunk by (auto; lia). rewrite bool_decide_eq_true_2 by done.
    by replace (k + zlen d) with size by lia.
Qed.

Lemma zphase_step k d frames acks nb :
  bytes_ok d -> zlen d = size - k -> 0 <= k -> ZMODEM_MAX_CHUNK < zlen d ->
  let chunk := ztake ZMODEM_MAX_CHUNK d in
  let k' := k + ZMODEM_MAX_CHUNK in
  zphase k' (zdrop ZMODEM_MAX_CHUNK d) frames acks nb ->
  zphase k d (zdata_bytes chunk ContinueWithAck true true ++ frames) (hex_frame ZAck k' ++ acks) (S nb).
Proof.
  intros Hb Hd Hk Hlt chunk k' [IHs IHr].
  assert (Hck : zlen chunk = ZMODEM_MAX_CHUNK) by (apply zlen_ztake; unfold ZMODEM_MAX_CHUNK in *; lia).
  assert (Hpos : 0 < ZMODEM_MAX_CHUNK) by (unfold ZMODEM_MAX_CHUNK; lia).
  split.
  - intros fuel F r j rest o Hr Hj Hf HF. destruct F as [|F]; [lia|].
    destruct (send_data_chunk fuel k d r Hr Hd ltac:(lia)) as (r1 & Hr1 & _ & _ & Hsend).
    fold chunk in Hsend. rewrite Hck in Hsend. fold k' in Hsend.
    destruct (IHs fuel F r1 [] rest (o ++ zdata_bytes chunk ContinueWithAck true true))
      as (r' & j' & Hj' & Hlj & Hrun); [done|constructor|simpl; lia|lia|].
    exists r', j'. split_and!; [done|simpl in Hlj; lia|]. rewrite <-app_assoc.
    rewrite (loop_continue _ _ _ _ _ _ (Hsend ltac:(lia) j (acks ++ rest) o Hj Hf)).
    cbn [app] in Hrun. by rewrite Hrun, <-app_assoc.
  - intros fuel F rest o fs name w Hf HF. destruct F as [|F]; [lia|]. rewrite <-app_assoc.
    pose proof (receive_data_chunk fuel k chunk ContinueWithAck (frames ++ rest) o fs name w) as Hrecv.
    rewrite bool_decide_eq_false_2 in Hrecv by done. cbn zeta in Hrecv. rewrite Hck in Hrecv. fold k' in Hrecv.
    rewrite (loop_continue _ _ _ _ _ _ (Hrecv ltac:(by apply bytes_ok_ztake) ltac:(lia) Hf Hk ltac:(lia) ltac:(by right))).
    rewrite IHr by (done || lia). rewrite <-!app_assoc. unfold chunk. by rewrite ztake_zdrop.
Qed.

Lemma zphase_exists n k d :
  (length d <= n)%nat -> bytes_ok d -> d <> [] -> zlen d = size - k -> 0 <= k ->
  exists frames acks nb, zphase k d frames acks nb /\ (nb <= length d)%nat.
Proof.
  revert k d. induction n as [|n IH]; intros k d Hn Hb Hne Hd Hk.
  { destruct d; [done|simpl in Hn; lia]. }
  assert (0 < length d)%nat by (destruct d; [done|simpl; lia]).
  destruct (Z.le_gt_cases (zlen d) ZMODEM_MAX_CHUNK) as [Hle|Hgt].
  - eexists _, _, 1%nat. split; [by apply zphase_last|lia].
  - assert (Hl : (length (zdrop ZMODEM_MAX_CHUNK d) < length d)%nat).
    { unfold zdrop. rewrite length_drop. unfold ZMODEM_MAX_CHUNK in *. lia. }
    assert (Hz : zlen (zdrop ZMODEM_MAX_CHUNK d) = zlen d - ZMODEM_MAX_CHUNK)
      by (apply zlen_zdrop; unfold ZMODEM_MAX_CHUNK in *; lia).
    destruct (IH (k + ZMODEM_MAX_CHUNK) (zdrop ZMODEM_MAX_CHUNK d)) as (frames & acks & nb & Hp & Hnb);
      [lia|by apply bytes_ok_zdrop| |lia|unfold ZMODEM_MAX_CHUNK; lia|].
    { intros Hnil. rewrite Hnil, zlen_nil in Hz. lia. }
    eexists _, _, (S nb). split; [by apply zphase_step|lia].
Qed.
End Phase.

(** The data of a file, empty or not: the sender's stream and the receiver's
    answers between ZRPOS and the end of the last subpacket. *)
Lemma zdata_exists {R} `{LawfulFile R} d :
  bytes_ok d -> zlen d <= ZMODEM_MAX_POSITION -> exists frames acks,
    (forall fuel r j rest o, contents r d -> junk j -> (length j + length d + 1 < fuel)%nat ->
     exists r' j', junk j' /\ (length j' <= length j)%nat
     /\ send_zfile_data_stream fuel (zlen d) 0 full_peer (mem (j ++ acks ++ rest) o, r)
        = Some (Ok Complete, (mem (j' ++ rest)
            (o ++ encode_bin32_header_with_escape ZData (position_header 0) true ++ frames
               ++ hex_frame ZEof (zlen d)), r')))
    /\ (forall fuel rest o fs name, (Z.to_nat ZMODEM_MAX_CHUNK + length d < fuel)%nat ->
        loop fuel (receive_data_body fuel (length fs) (Some (zlen d)) true) 0
          (mem (frames ++ rest) o, fs ++ [(name, [])])
        = Some (Ok (zlen d), (mem rest (o ++ acks), fs ++ [(name, d)]))).
Proof.
  intros Hb Hsz. pose proof (zlen_nonneg d) as Hnn.
  assert (Hstart : Z.min 0 (zlen d) = 0) by lia.
  destruct (decide (d = [])) as [->|Hne].
  - exists (zdata_bytes [] End true true), []. split.
    + intros fuel r j rest o Hc Hj Hf.
      destruct (seek_contents 0 r [] ltac:(lia) Hc) as (r' & Hseek & _ & _).
      exists r', j. split_and!; [done|done|]. unfold send_zfile_data_stream. rewrite Hstart.
      erewrite bind_on_snd by exact Hseek. rewrite position_checked by lia. erewrite bind_ok by reflexivity.
      erewrite bind_on_fst by apply write_all_run.
      erewrite bind_ok by (apply loop_break; [lia|reflexivity]). cbn iota beta.
      change (0 =? zlen []) with true. cbn iota. erewrite bind_on_fst by apply write_all_run.
      erewrite bind_on_fst by (apply write_zposition_run; lia). unfold ret. by rewrite <-!app_assoc.
    + intros fuel rest o fs name Hf. apply loop_break; [lia|].
      rewrite receive_data_chunk; [done|lia|constructor|by vm_compute|lia|done|done|by left].
  - destruct (zphase_exists (zlen d) ltac:(lia) (length d) 0 d) as (frames & acks & nb & [Hs Hr] & Hnb);
      [done|done|done|lia|done|].
    exists frames, acks. split.
    + intros fuel r j rest o Hc Hj Hf.
      destruct (seek_contents 0 r d ltac:(lia) Hc) as (r1 & Hseek & _ & Hr1).
      destruct (Hs fuel fuel r1 j rest (o ++ encode_bin32_header_with_escape ZData (position_header 0) true))
        as (r' & j' & Hj' & Hlj & Hrun); [exact Hr1|done|lia|lia|].
      exists r', j'. split_and!; [done|done|]. unfold send_zfile_data_stream. rewrite Hstart.
      erewrite bind_on_snd by exact Hseek. rewrite position_checked by lia. erewrite bind_ok by reflexivity.
      erewrite bind_on_fst by apply write_all_run.
      erewrite bind_ok by exact Hrun. cbn iota beta.
      replace (0 =? zlen d) with false by (symmetry; apply Z.eqb_neq; destruct d; [done|rewrite zlen_cons in *; pose proof (zlen_nonneg d); lia]).
      erewrite bind_ok by reflexivity.
      erewrite bind_on_fst by (apply write_zposition_run; lia). unfold ret. by rewrite <-!app_assoc.
    + intros fuel rest o fs name Hf. by rewrite Hr by lia.
Qed.

(** An entry a sender may offer. *)
Definition zsendable {R} `{LawfulFile R} (e : ZmodemSendStreamEntry R) (d : list Z) : Prop :=
  contents (zs_reader e) d /\ zs_file_size e = zlen d /\ zlen d <= ZMODEM_MAX_POSITION /\ bytes_ok d
  /\ str_ok (zs_file_name e) /\ zs_file_name e <> [] /\ Forall (fun c => c <> 0) (zs_file_name e)
  /\ existsb is_slash (zs_file_name e) = false /\ zs_file_name e <> [46] /\ zs_file_name e <> [46; 46]
  /\ zlen (build_zfile_header (zs_file_name e) (zlen d)) <= ZMODEM_MAX_CHUNK.

Definition zentry_header {R} (e : ZmodemSendStreamEntry R) : ZmodemFileHeader :=
  mkZmodemFileHeader (zs_file_name e) (Some (zs_file_size e)).

Definition zopen_in_store (h : ZmodemFileHeader) : IO FileStore nat := store_open (zh_file_name h).

(** Enough fuel for one file. *)
Definition zfuel (d : list Z) : nat := (Z.to_nat ZMODEM_MAX_CHUNK + length d + 8)%nat.

Definition zrinit_frame : list Z := encode_hex_header ZrInit ZRINIT_FLAGS true.

Lemma zrinit_ok : pos_ok ZRINIT_FLAGS.
Proof. by repeat constructor. Qed.

Lemma zfile_flags_ok : pos_ok ZFILE_BINARY_FLAGS.
Proof. by repeat constructor. Qed.

(** The frame loop of a file at the receiver. *)
Lemma receive_file_run d frames acks fuel rest o fs name :
  zlen d <= ZMODEM_MAX_POSITION -> (zfuel d < fuel)%nat ->
  (forall rest o, loop fuel (receive_data_body fuel (length fs) (Some (zlen d)) true) 0
     (mem (frames ++ rest) o, fs ++ [(name, [])])
   = Some (Ok (zlen d), (mem rest (o ++ acks), fs ++ [(name, d)]))) ->
  loop fuel (receive_file_body fuel (length fs) (Some (zlen d))) 0
    (mem (flow true ++ encode_bin32_header_with_escape ZData (position_header 0) true ++ frames
          ++ hex_frame ZEof (zlen d) ++ rest) o, fs ++ [(name, [])])
  = Some (Ok tt, (mem (flow true ++ rest) (o ++ acks ++ zrinit_frame), fs ++ [(name, d)])).
Proof.
  intros Hsz Hf Hdata. pose proof (zlen_nonneg d). unfold zfuel in Hf.
  destruct fuel as [|fuel]; [lia|].
  erewrite loop_continue.
  2: { unfold receive_file_body at 1.
       erewrite bind_on_fst by (apply header_bin32_run; [apply (junk_flow true)|simpl; lia|apply position_header_ok]).
       cbn [frame_type encoding]. rewrite position_header_u32 by (unfold in_width; lia).
       rewrite Z.eqb_refl. cbn [negb]. cbv zeta. rewrite bool_decide_eq_true_2 by done.
       erewrite bind_ok by apply Hdata. reflexivity. }
  apply loop_break; [lia|]. unfold receive_file_body.
  erewrite bind_on_fst by (apply (header_hex_run _ []); [constructor|simpl; lia|apply position_header_ok]).
  cbn [frame_type]. rewrite position_header_u32 by (unfold in_width, ZMODEM_MAX_POSITION in *; lia).
  unfold is_none_or. rewrite !Z.eqb_refl. cbn [negb orb]. cbv zeta. cbn iota.
  erewrite bind_on_snd by reflexivity.
  erewrite bind_on_fst by apply write_all_run. by rewrite <-app_assoc.
Qed.

Lemma zentry {R} `{LawfulFile R} e d :
  zsendable e d -> exists s2r r2s,
    (forall fuel rest o, (zfuel d < fuel)%nat ->
       send_zmodem_entry fuel full_peer e (mem (flow true ++ r2s ++ rest) o)
       = Some (Ok (zlen d), mem (flow true ++ rest) (o ++ s2r)))
    /\ (forall fuel j rest o fs received, (zfuel d < fuel)%nat -> junk j -> (length j <= 1)%nat ->
        receive_zmodem_body fuel zopen_in_store received (mem (j ++ s2r ++ rest) o, fs)
        = Some (Ok (inl (received ++ [zentry_header e])),
            (mem (flow true ++ rest) (o ++ r2s), fs ++ [(zs_file_name e, d)]))).
Proof.
  intros (Hc & Hsz & Hmax & Hb & Hs & Hne & Hnz & Hsl & Hdot & Hdots & Hlen). pose proof (zlen_nonneg d) as Hnn.
  destruct (zdata_exists d Hb Hmax) as (frames & acks & Hsend & Hrecv).
  set (hdr := build_zfile_header (zs_file_name e) (zlen d)) in *.
  assert (Hhdr : bytes_ok hdr) by (by apply build_zfile_ok).
  exists (encode_bin32_header_with_escape ZFile ZFILE_BINARY_FLAGS true ++ zdata_bytes hdr EndWithAck true true
     ++ encode_bin32_header_with_escape ZData (position_header 0) true ++ frames ++ hex_frame ZEof (zlen d)),
    (hex_frame ZRpos 0 ++ acks ++ zrinit_frame). split.
  - intros fuel rest o Hf. unfold zfuel in Hf. unfold send_zmodem_entry.
    erewrite bind_ok by apply write_all_run. erewrite bind_ok by apply write_all_run.
    rewrite Hsz. fold hdr. rewrite <-!app_assoc.
    edestruct (Hsend fuel (zs_reader e) (flow true) (zrinit_frame ++ rest)) as (r' & j' & Hj' & Hlj & Hrun);
      [done|apply junk_flow|simpl; lia|].
    eapply with_reader_run. apply loop_break; [lia|]. unfold send_entry_body.
    erewrite bind_on_fst by (apply header_hex_run; [apply (junk_flow true)|simpl; lia|apply position_header_ok]).
    cbn [frame_type]. rewrite position_header_u32 by (unfold in_width; lia). cbv zeta.
    rewrite (proj2 (Z.ltb_ge _ _)) by lia.
    erewrite bind_ok; [reflexivity|]. apply loop_break; [lia|]. unfold send_offer_body.
    erewrite bind_ok by exact Hrun. cbn iota.
    erewrite bind_on_fst by (apply header_hex_run; [done|simpl in Hlj; lia|apply zrinit_ok]).
    cbn [frame_type]. unfold ret. rewrite <-!app_assoc. cbn [full_peer peer_use_crc32 peer_escape_control]. reflexivity.
  - intros fuel j rest o fs received Hf Hj Hlj. unfold receive_zmodem_body. rewrite <-!app_assoc.
    erewrite bind_on_fst by (apply header_bin32_run; [done|unfold zfuel in Hf; lia|apply zfile_flags_ok]).
    cbn [frame_type]. unfold receive_zfile. cbn [encoding]. rewrite bool_decide_eq_true_2 by done. cbv zeta.
    erewrite bind_on_fst by (apply data_run; [done|done|unfold zfuel, zlen in *; lia]).
    cbn [zd_end zd_payload]. rewrite bool_decide_eq_true_2 by done. cbn [negb].
    unfold hdr. rewrite parse_build_zfile; [|done..| | | |]; try done.
    2: { unfold in_width, ZMODEM_MAX_POSITION in *. lia. }
    erewrite bind_ok by reflexivity. cbn iota beta. cbn [zh_file_size].
    unfold validate_zmodem_file_size. rewrite (proj2 (Z.ltb_ge _ _)) by lia.
    erewrite bind_ok by reflexivity. erewrite bind_on_snd by reflexivity.
    erewrite bind_on_fst by (apply write_zposition_run; unfold ZMODEM_MAX_POSITION; lia).
    erewrite bind_ok; [|apply (receive_file_run d); [done|done|intros; apply Hrecv; unfold zfuel in Hf; lia]].
    unfold ret, zentry_header. rewrite Hsz. by rewrite <-!app_assoc.
Qed.

(** The entries of a batch. *)
Lemma zbatch {R} `{LawfulFile R} es ds :
  Forall2 zsendable es ds -> exists s2r r2s,
    (forall fuel rest o total, Forall (fun d => zfuel d < fuel)%nat ds ->
       send_zmodem_entries fuel full_peer es total (mem (flow true ++ r2s ++ rest) o)
       = Some (Ok (total + zlen (concat ds)), mem (flow true ++ rest) (o ++ s2r)))
    /\ (forall k fuel j rest o fs received, Forall (fun d => zfuel d < k)%nat ds ->
        junk j -> (length j <= 1)%nat -> exists j', junk j' /\ (length j' <= 1)%nat
        /\ loop (length es + fuel) (receive_zmodem_body k zopen_in_store) received
             (mem (j ++ s2r ++ rest) o, fs)
           = loop fuel (receive_zmodem_body k zopen_in_store) (received ++ map zentry_header es)
               (mem (j' ++ rest) (o ++ r2s), fs ++ zip (map zs_file_name es) ds)).
Proof.
  induction 1 as [|e d es ds He _ (s2r & r2s & IHs & IHr)].
  - exists [], []. split.
    + intros. cbn. by rewrite app_nil_r, Z.add_0_r.
    + intros k fuel j rest o fs received _ Hj Hl. exists j. split_and!; [done|done|]. cbn.
      by rewrite !app_nil_r.
  - destruct (zentry e d He) as (s1 & r1 & Hs & Hr). exists (s1 ++ s2r), (r1 ++ r2s). split.
    + intros fuel rest o total Hall. apply Forall_cons_1 in Hall as [Hd Hds].
      cbn [send_zmodem_entries concat]. rewrite <-app_assoc.
      erewrite bind_ok by (apply Hs; assumption). rewrite IHs by done.
      by rewrite zlen_app, Z.add_assoc, <-app_assoc.
    + intros k fuel j rest o fs received Hall Hj Hl. apply Forall_cons_1 in Hall as [Hd Hds].
      cbn [length plus]. rewrite <-app_assoc. erewrite loop_continue by (apply Hr; assumption).
      edestruct (IHr k fuel (flow true) rest) as (j' & Hj' & Hl' & ->); [done|apply junk_flow|simpl; lia|].
      exists j'. split_and!; [done|done|]. cbn [map zip zip_with]. by rewrite <-!app_assoc.
Qed.

Lemma validate_sendable {R} `{LawfulFile R} es ds :
  Forall2 zsendable es ds -> validate_entries es = Ok tt.
Proof.
  induction 1 as [|e d es ds (_ & Hsz & Hmax & _) _ IH]; [done|]. cbn [validate_entries].
  rewrite Hsz. unfold validate_zmodem_file_size. rewrite (proj2 (Z.ltb_ge _ _)) by lia. done.
Qed.

(** Negotiation between this sender and this receiver. *)
Lemma wait_zrinit_run fuel rest o :
  (0 < fuel)%nat ->
  wait_for_zrinit fuel (mem (zrinit_frame ++ rest) o) = Some (Ok full_peer, mem (flow true ++ rest) o).
Proof.
  intros Hf. apply loop_break; [done|].
  erewrite bind_ok by (apply (header_hex_run _ []); [constructor|simpl; lia|apply zrinit_ok]).
  reflexivity.
Qed.

Lemma zsession {R} `{LawfulFile R} es ds :
  Forall2 zsendable es ds -> exists s2r r2s,
    forall fuel, (length es + 2 < fuel)%nat -> Forall (fun d => zfuel d < fuel)%nat ds ->
      send_zmodem_stream fuel es (mem r2s []) = Some (Ok (zlen (concat ds)), mem [] s2r)
      /\ receive_zmodem fuel zopen_in_store (mem s2r [], [])
         = Some (Ok (map zentry_header es), (mem [] r2s, zip (map zs_file_name es) ds)).
Proof.
  intros H2es. destruct (zbatch es ds H2es) as (s2r & r2s & Hs & Hr).
  exists (s2r ++ hex_frame ZFin 0 ++ [79; 79]), (zrinit_frame ++ r2s ++ hex_frame ZFin 0).
  intros fuel He Hd. split.
  - unfold send_zmodem_stream. rewrite (validate_sendable es ds) by done. erewrite bind_ok by reflexivity.
    erewrite bind_ok by (apply wait_zrinit_run; lia). erewrite bind_ok by (apply Hs; assumption).
    erewrite bind_ok; [reflexivity|]. unfold finish_zmodem_send. cbn [for_return].
    erewrite bind_ok.
    2: { erewrite bind_ok by apply write_all_run. rewrite <-(app_nil_r (hex_frame ZFin 0)).
         erewrite bind_ok by (apply header_hex_run; [apply junk_flow|simpl; lia|apply position_header_ok]).
         cbn [frame_type]. erewrite bind_ok by apply write_all_run. reflexivity. }
    unfold ret. rewrite <-!app_assoc, !app_nil_r. reflexivity.
  - unfold receive_zmodem. erewrite bind_on_fst by apply write_all_run.
    replace fuel with (length es + (fuel - length es))%nat at 1 by lia.
    edestruct (Hr fuel (fuel - length es)%nat [] (hex_frame ZFin 0 ++ [79; 79]))
      as (j' & Hj' & Hl' & Hrun); [done|constructor|simpl; lia|].
    cbn [app] in Hrun |- *. rewrite Hrun. clear Hrun.
    destruct (fuel - length es)%nat as [|m] eqn:Hm; [lia|].
    apply loop_break; [lia|]. unfold receive_zmodem_body.
    erewrite bind_on_fst by (apply header_hex_run; [done|lia|apply position_header_ok]).
    cbn [frame_type]. erewrite bind_on_fst.
    2: { unfold finish_zmodem_receive. erewrite bind_ok by apply write_all_run.
         destruct fuel as [|fuel]; [lia|]. erewrite loop_continue by reflexivity.
         apply loop_break; [lia|reflexivity]. }
    unfold ret. by rewrite <-!app_assoc.
Qed.

(** ** The receiver on arbitrary input *)

Section Tame.
Context (N fuel : nat).
Hypothesis fuel_ok : (N < fuel)%nat.

Lemma tame_followup e : tame N input (decode_zescaped_followup e).
Proof. unfold decode_zescaped_followup. auto 10 with tame. Qed.
#[local] Hint Resolve tame_followup : tame.

Lemma eats_zescaped : eats N input (read_zescaped_byte fuel).
Proof.
  unfold read_zescaped_byte. apply eats_loop; [done|]. intros _.
  apply eats_bind_l; auto 10 with tame.
Qed.
#[local] Hint Resolve eats_zescaped : tame.
#[local] Hint Extern 1 (tame N input (read_zescaped_byte _)) => apply eats_tame, eats_zescaped : tame.

Lemma eats_nibble : eats N input read_hex_nibble.
Proof. unfold read_hex_nibble. apply eats_bind_l; auto 10 with tame. Qed.
#[local] Hint Extern 1 (tame N input read_hex_nibble) => apply eats_tame, eats_nibble : tame.

Lemma tame_hex_header : tame N input read_hex_zheader.
Proof. unfold read_hex_zheader, consume_hex_header_line_end. cbv zeta. auto 15 with tame. Qed.

Lemma tame_binary_header enc : tame N input (read_binary_zheader fuel enc).
Proof. unfold read_binary_zheader. cbv zeta. destruct enc; auto 15 with tame. Qed.

Lemma tame_encoded_header enc : tame N input (read_encoded_zheader fuel enc).
Proof.
  unfold read_encoded_zheader. repeat case_match; auto using tame_hex_header, tame_binary_header with tame.
Qed.
#[local] Hint Resolve tame_encoded_header : tame.

Lemma eats_header : eats N input (read_zmodem_header fuel).
Proof.
  unfold read_zmodem_header. apply eats_loop; [done|]. intros _. apply eats_bind_l; auto 15 with tame.
Qed.

Lemma eats_data_body max acc : eats N input (read_data_body max acc).
Proof.
  unfold read_data_body. apply eats_bind_l; [auto with tame|]. intros b.
  repeat case_match; auto 10 with tame.
  all: apply tame_bind; [auto with tame|]; intros e; repeat case_match; auto 10 with tame.
Qed.

Lemma eats_data use_crc32 max : eats N input (read_zmodem_data fuel use_crc32 max).
Proof.
  unfold read_zmodem_data. apply eats_bind_l; [apply eats_loop; [done|apply eats_data_body]|].
  intros got. cbv zeta. auto 15 with tame.
Qed.

Lemma tame_finish_receive : tame N input (finish_zmodem_receive fuel).
Proof.
  unfold finish_zmodem_receive, write_zheader. apply tame_bind; [auto with tame|]. intros _.
  apply eats_tame, eats_loop; [done|]. intros [o c]. apply eats_bind_l; auto 10 with tame.
Qed.
End Tame.

Lemma wp_write_position t n (Q : result ModemTransferError unit -> MemoryModemIo * FileStore -> Prop) io f :
  (forall r o, Q r (mem (input io) o, f)) -> wp (on_fst (write_zposition t n)) Q (io, f).
Proof.
  intros H. apply wp_on_fst. unfold write_zposition. apply wp_bind, wp_lift.
  destruct (position_header_checked n); destruct io as [i o]; apply H.
Qed.

Section AnyFile.
Context (N fuel : nat) (fsz : option Z) (fs : FileStore) (name i0 : list Z).
Hypothesis fuel_ok : (N < fuel)%nat.
Hypothesis i0_ok : (length i0 <= N)%nat.

(** While a file is received: nothing but its last entry changes, and it never
    outgrows the declared size. *)
Definition growing (w : list Z) (p : MemoryModemIo * FileStore) : Prop :=
  p.2 = fs ++ [(name, w)] /\ input p.1 `suffix_of` i0 /\ forall n, fsz = Some n -> zlen w <= n.

Lemma growing_suffix w io io' :
  growing w (io, fs ++ [(name, w)]) -> input io' `suffix_of` input io ->
  growing w (io', fs ++ [(name, w)]).
Proof. intros (Hf & Hs & Hn) Hs'. split_and!; [done|by etrans|done]. Qed.

Lemma data_turn use_crc32 w io :
  growing w (io, fs ++ [(name, w)]) ->
  wp (receive_data_body fuel (length fs) fsz use_crc32 (zlen w))
    (fun r p => exists w', growing w' p /\
       match r with
       | Ok (inl k) => k = zlen w' /\ (length (input p.1) < length (input io))%nat
       | Ok (inr k) => k = zlen w'
       | Err _ => True
       end) (io, fs ++ [(name, w)]).
Proof.
  intros Hg. pose proof Hg as (_ & Hs & Hn). simpl in Hs. pose proof (suffix_length _ _ Hs) as Hl.
  unfold receive_data_body. apply wp_bind, wp_attempt, wp_on_fst.
  eapply wp_mono; [apply (eats_data N fuel fuel_ok); lia|]. intros r io1 [Hs1 Hlt]. cbn [wp_then].
  assert (Hg1 : growing w (io1, fs ++ [(name, w)])) by (by eapply growing_suffix).
  destruct r as [fr|e].
  - cbv zeta. set (k := zlen w + _). destruct (U64_MAX <? k); [apply wp_throw; eauto|].
    destruct (is_some_and fsz _) eqn:Hsz; [apply wp_throw; eauto|].
    assert (Hg2 : forall o, growing (w ++ zd_payload fr) (mem (input io1) o, fs ++ [(name, w ++ zd_payload fr)])).
    { intros o. split_and!; [done|by etrans|]. intros n ->. cbn [is_some_and] in Hsz. rewrite zlen_app. lia. }
    apply wp_bind, wp_on_snd, wp_run. eexists _, _. split; [apply store_write_last|]. cbn [wp_then].
    assert (Hk : k = zlen (w ++ zd_payload fr)) by (by rewrite zlen_app).
    destruct io1 as [i1 o1]. simpl in *.
    destruct (zd_end fr); first [apply wp_ret|apply wp_bind, wp_write_position; intros [u|e] o; cbn [wp_then];
      [apply wp_ret|]]; exists (w ++ zd_payload fr); auto.
  - assert (Hthrow : forall e', wp (throw e') (fun (r : result ModemTransferError (Z + Z)) p =>
        exists w', growing w' p /\ match r with
          | Ok (inl k) => k = zlen w' /\ (length (input p.1) < length (input io))%nat
          | Ok (inr k) => k = zlen w' | Err _ => True end) (io1, fs ++ [(name, w)]))
      by (intros e'; apply wp_throw; eauto).
    destruct e as [[]| | | | | | |]; try apply Hthrow.
    apply wp_bind, wp_write_position. intros [u|e] o; cbn [wp_then]; [apply wp_ret|]; exists w; split; auto.
Qed.

Lemma data_loop use_crc32 w io :
  growing w (io, fs ++ [(name, w)]) ->
  wp (loop fuel (receive_data_body fuel (length fs) fsz use_crc32) (zlen w))
    (fun r p => exists w', growing w' p /\ forall k, r = Ok k -> k = zlen w') (io, fs ++ [(name, w)]).
Proof.
  intros Hg. apply (wp_loop (fun k p => exists w', growing w' p /\ k = zlen w') (fun _ p => length (input p.1))).
  - intros k [io1 f1] (w1 & Hg1 & ->). pose proof Hg1 as (Hf1 & _ & _). simpl in Hf1. subst f1.
    eapply wp_mono; [by apply data_turn|].
    intros [[k|k]|e] p (w2 & Hg2 & H2); simpl.
    + destruct H2. eauto.
    + exists w2. split; [done|]. by intros k' [= <-].
    + by exists w2.
  - by exists w.
  - destruct Hg as (_ & Hs & _). apply suffix_length in Hs. simpl in *. lia.
Qed.
End AnyFile.

Section AnyBatch.
Context (N fuel : nat).
Hypothesis fuel_ok : (N < fuel)%nat.

Lemma file_turn fsz fs name i0 w io :
  (length i0 <= N)%nat -> growing fsz fs name i0 w (io, fs ++ [(name, w)]) ->
  wp (receive_file_body fuel (length fs) fsz (zlen w))
    (fun r p => exists w', growing fsz fs name i0 w' p /\
       match r with
       | Ok (inl k) => k = zlen w' /\ (length (input p.1) < length (input io))%nat
       | Ok (inr tt) => forall n, fsz = Some n -> zlen w' = n
       | Err _ => True
       end) (io, fs ++ [(name, w)]).
Proof.
  intros Hi0 Hg. pose proof Hg as (_ & Hs & Hn). simpl in Hs. pose proof (suffix_length _ _ Hs) as Hl.
  unfold receive_file_body. apply wp_bind, wp_on_fst.
  eapply wp_mono; [apply (eats_header N fuel fuel_ok); lia|]. intros r io1 [Hs1 Hlt].
  assert (Hg1 : forall o, growing fsz fs name i0 w (mem (input io1) o, fs ++ [(name, w)]))
    by (intros o; by eapply growing_suffix).
  destruct r as [h|e]; cbn [wp_then]; [|destruct io1; eauto].
  assert (Hrpos : wp (do* on_fst (write_zposition ZRpos (zlen w)) in ret (inl (zlen w)))
    (fun r p => exists w', growing fsz fs name i0 w' p /\
       match r with
       | Ok (inl k) => k = zlen w' /\ (length (input p.1) < length (input io))%nat
       | Ok (inr tt) => forall n, fsz = Some n -> zlen w' = n
       | Err _ => True
       end) (io1, fs ++ [(name, w)])).
  { apply wp_bind, wp_write_position. intros [u|e] o; cbn [wp_then]; [apply wp_ret|]; eauto. }
  destruct (frame_type h); try (apply wp_throw; destruct io1; eauto); destruct (position_u32 h =? zlen w);
    cbn [negb orb]; cbv zeta; try exact Hrpos.
  - apply wp_bind. eapply wp_mono.
    { apply (data_loop N fuel fsz fs name (input io1) fuel_ok); [lia|]. split_and!; done. }
    intros r [io2 f2] (w2 & (Hf2 & Hs2 & Hn2) & Hk). simpl in Hf2, Hs2. pose proof (suffix_length _ _ Hs2).
    assert (Hg2 : growing fsz fs name i0 w2 (io2, f2)) by (split_and!; [done|simpl; by etrans; [|etrans]|done]).
    destruct r as [k|e]; cbn [wp_then]; [apply wp_ret|]; exists w2; split; [done| |done|done].
    split; [by apply Hk|simpl; lia].
  - destruct (is_none_or fsz _) eqn:Hz; cbn [negb]; [|exact Hrpos].
    apply wp_bind, wp_on_snd, wp_ret. cbn [wp_then]. unfold send_zrinit, write_zheader.
    apply wp_bind, wp_write_fst. intros o. apply wp_ret. exists w. split; [done|].
    intros n ->. cbn [is_none_or] in Hz. lia.
Qed.
End AnyBatch.

(** An accepted ZFILE header names one plain path component. *)
Lemma parse_zfile_safe bytes h :
  parse_zfile_header bytes = Ok (Some h) ->
  safe_name (zh_file_name h) /\ forall n, zh_file_size h = Some n -> is_u64 n.
Proof.
  unfold parse_zfile_header. destruct (position _ bytes) as [nul|] eqn:Hpos; [|done].
  cbn [ok_or result_bind]. apply position_bound in Hpos. destruct (Z.eqb_spec nul 0); [done|].
  set (name := from_utf8_lossy (ztake nul bytes)).
  destruct (existsb is_slash name || _ || _) eqn:Hg; [done|].
  apply orb_false_iff in Hg as [Hg H2]. apply orb_false_iff in Hg as [Hsl H1].
  apply bool_decide_eq_false in H1, H2.
  set (meta := from_utf8_lossy (zdrop (nul + 1) bytes)). intros Hh.
  assert (Hh' : zh_file_name h = name /\ forall n, zh_file_size h = Some n -> is_u64 n).
  { destruct (split_whitespace meta) as [|word ws]; cbn [result_bind] in Hh; [by injection Hh as <-|].
    destruct (parse_u64 word) as [m|] eqn:Hm; [|done]. injection Hh as <-. split; [done|].
    intros k [= <-]. by eapply parse_u64_range. }
  destruct Hh' as [Hnm Hsz]. split; [|done].
  rewrite Hnm. clear Hh.
  assert (Hne : name <> []).
  { apply from_utf8_lossy_not_nil. intros H. apply ztake_nil_inv in H; [|lia].
    rewrite H in Hpos. unfold zlen in Hpos. simpl in Hpos. lia. }
  split_and!; [done|done|done|]. apply path_file_name_plain; [|done..].
  apply Forall_forall. intros c Hc ->.
  enough (existsb is_slash name = true) by congruence. apply existsb_exists. eauto.
Qed.

(** Completed files have exactly the declared size. *)
Definition zcomplete (hs : list ZmodemFileHeader) (fs : FileStore) : Prop :=
  Forall2 (fun h f => f.1 = zh_file_name h
             /\ forall n, zh_file_size h = Some n -> zlen f.2 = n /\ n <= ZMODEM_MAX_POSITION) hs fs.

Section AnyReceive.
Context (N fuel : nat).
Hypothesis fuel_ok : (N < fuel)%nat.

Lemma file_loop fsz fs name io :
  (length (input io) <= N)%nat -> (forall n, fsz = Some n -> 0 <= n) ->
  wp (loop fuel (receive_file_body fuel (length fs) fsz) 0)
    (fun r p => exists w', growing fsz fs name (input io) w' p
       /\ (r = Ok tt -> forall n, fsz = Some n -> zlen w' = n)) (io, fs ++ [(name, [])]).
Proof.
  intros Hl Hn. apply (wp_loop (fun k p => exists w', growing fsz fs name (input io) w' p /\ k = zlen w')
    (fun _ p => length (input p.1))).
  - intros k [io1 f1] (w1 & Hg1 & ->). pose proof Hg1 as (Hf1 & _ & _). simpl in Hf1. subst f1.
    eapply wp_mono; [by apply (file_turn N fuel fuel_ok)|].
    intros [[k|[]]|e] p (w2 & Hg2 & H2); simpl.
    + destruct H2. eauto.
    + exists w2. split; [done|]. by intros _.
    + by exists w2.
  - exists []. split; [|done]. split_and!; [done|done|]. intros n Hz. rewrite zlen_nil. by apply Hn.
  - simpl. lia.
Qed.

Definition zbatch_inv (received : list ZmodemFileHeader) (p : MemoryModemIo * FileStore) : Prop :=
  (length (input p.1) <= N)%nat /\ zcomplete received p.2 /\ Forall (fun f => safe_name f.1) p.2.

Definition zbatch_post (r : result ModemTransferError (list ZmodemFileHeader))
    (p : MemoryModemIo * FileStore) : Prop :=
  Forall (fun f => safe_name f.1) p.2 /\ forall hs, r = Ok hs -> zcomplete hs p.2.

Definition zbatch_next (io : MemoryModemIo)
    (r : result ModemTransferError (list ZmodemFileHeader + list ZmodemFileHeader))
    (p : MemoryModemIo * FileStore) : Prop :=
  match r with
  | Ok (inl hs) => zbatch_inv hs p /\ (length (input p.1) < length (input io))%nat
  | Ok (inr hs) => zbatch_post (Ok hs) p
  | Err e => zbatch_post (Err e) p
  end.

Lemma finish_turn received io io1 f :
  zbatch_inv received (io, f) -> input io1 `suffix_of` input io ->
  wp (do* on_fst (finish_zmodem_receive fuel) in ret (inr received)) (zbatch_next io) (io1, f).
Proof.
  intros (Hl & Hc & Hs) Hsuf. apply suffix_length in Hsuf. simpl in *. apply wp_bind, wp_on_fst.
  eapply wp_mono; [apply (tame_finish_receive N fuel fuel_ok); lia|].
  intros [u|e] io2 _; cbn [wp_then]; [apply wp_ret|by split]. split; [done|]. by intros hs [= <-].
Qed.

Lemma zfile_turn received h io io1 f :
  zbatch_inv received (io, f) -> input io1 `suffix_of` input io ->
  (length (input io1) < length (input io))%nat ->
  wp (receive_zfile fuel zopen_in_store h received) (zbatch_next io) (io1, f).
Proof.
  intros Hi Hsuf Hlt. pose proof Hi as (Hl & Hc & Hs). simpl in *. unfold receive_zfile. cbv zeta.
  apply wp_bind, wp_on_fst. eapply wp_mono; [apply (eats_data N fuel fuel_ok); lia|].
  intros [fr|e] io2 [Hs2 Hlt2]; cbn [wp_then]; [|by split].
  destruct (negb _); [by apply wp_throw|]. apply wp_bind, wp_lift.
  destruct (parse_zfile_header _) as [[fh|]|e] eqn:Hp; cbn [wp_then]; [|apply finish_turn; [done|by etrans]|by split].
  apply wp_bind, wp_lift.
  apply parse_zfile_safe in Hp as [Hsafe Hsize].
  destruct (match zh_file_size fh with Some _ => _ | None => _ end) as [[]|e] eqn:Hv; cbn [wp_then]; [|by split].
  apply wp_bind, wp_on_snd, wp_run. eexists _, _. split; [reflexivity|]. cbn [wp_then].
  pose proof (suffix_length _ _ Hs2) as Hl2.
  assert (Hall : forall w, Forall (fun f => safe_name f.1) (f ++ [(zh_file_name fh, w)])).
  { intros w. apply Forall_app. split; [done|]. constructor; [done|constructor]. }
  apply wp_bind, wp_write_position. intros [u|e] o; cbn [wp_then]; [|by split; [apply Hall|]].
  apply wp_bind. eapply wp_mono.
  { apply (file_loop _ _ (zh_file_name fh)); [simpl; lia|]. intros n Hz. by destruct (Hsize n Hz). }
  intros r [io3 f3] (w & (Hf3 & Hs3 & _) & Hr). simpl in Hf3, Hs3. subst f3. apply suffix_length in Hs3.
  destruct r as [[]|e]; cbn [wp_then]; [apply wp_ret|by split; [apply Hall|]].
  split; [|simpl in *; lia]. split_and!; simpl in *; [lia| |by apply Hall]. apply Forall2_app; [done|].
  constructor; [|constructor]. split; [done|]. intros n Hz. split; [by apply Hr|].
  rewrite Hz in Hv. unfold validate_zmodem_file_size in Hv.
  destruct (Z.ltb_spec ZMODEM_MAX_POSITION n); [done|lia].
Qed.

Lemma zbatch_turn received io f :
  zbatch_inv received (io, f) ->
  wp (receive_zmodem_body fuel zopen_in_store received) (zbatch_next io) (io, f).
Proof.
  intros Hi. pose proof Hi as (Hl & Hc & Hs). simpl in *. unfold receive_zmodem_body.
  apply wp_bind, wp_on_fst. eapply wp_mono; [by apply (eats_header N fuel fuel_ok)|].
  intros [h|e] io1 [Hs1 Hlt]; cbn [wp_then]; [|by split].
  assert (Hgo : forall io2, input io2 `suffix_of` input io1 -> zbatch_next io (Ok (inl received)) (io2, f)).
  { intros io2 H2. apply suffix_length in H2. split; [split_and!|]; simpl; auto; lia. }
  destruct (frame_type h); try (by apply wp_ret, Hgo); try (by apply wp_throw).
  - apply wp_bind, wp_on_fst. eapply wp_mono; [apply (eats_data N fuel fuel_ok); lia|].
    intros [fr|e] io2 [Hs2 _]; cbn [wp_then]; [|by split]. destruct (negb _); [by apply wp_throw|].
    apply wp_bind, wp_write_fst. intros o. by apply wp_ret, Hgo.
  - by apply zfile_turn.
  - by apply finish_turn.
Qed.

Lemma zreceive_any io :
  (length (input io) <= N)%nat ->
  wp (receive_zmodem fuel zopen_in_store) zbatch_post (io, []).
Proof.
  intros Hl. unfold receive_zmodem. apply wp_bind, wp_write_fst. intros o. cbn [wp_then].
  apply (wp_loop zbatch_inv (fun _ p => length (input p.1))).
  - intros hs [io1 fs1] Hi. by apply zbatch_turn.
  - split_and!; simpl; [done|constructor|constructor].
  - simpl. lia.
Qed.
End AnyReceive.

(** The payload loop never collects more than the limit. *)
Lemma data_body_bounded max acc io r io' :
  zlen acc <= max -> read_data_body max acc io = Some (Ok r, io') ->
  match r with inl acc' => zlen acc' | inr got => zlen (fst got) end <= max.
Proof.
  intros Hacc. unfold read_data_body, bind, ret, throw.
  destruct (read_byte _ io) as [[[b|e] io1]|]; [|done..].
  destruct (is_flow_control b); [by intros [= <- _]|].
  destruct (negb _).
  - destruct (Z.leb_spec max (zlen acc)); [done|]. intros [= <- _]. rewrite zlen_app.
    change (zlen [b]) with 1. lia.
  - destruct (read_byte _ io1) as [[[x|e] io2]|]; [|done..].
    destruct (ZDataEnd_from_marker x); [by intros [= <- _]|].
    destruct (Z.leb_spec max (zlen acc)); [done|].
    destruct (decode_zescaped_followup x io2) as [[[y|e] io3]|]; [|done..].
    intros [= <- _]. rewrite zlen_app. change (zlen [y]) with 1. lia.
Qed.

Lemma data_loop_bounded N fuel max io :
  (N < fuel)%nat -> (length (input io) <= N)%nat -> 0 <= max ->
  wp (loop fuel (read_data_body max) [])
    (fun r io' => input io' `suffix_of` input io /\ forall got, r = Ok got -> zlen (fst got) <= max) io.
Proof.
  intros Hf Hl Hmax. apply (wp_loop (fun acc io' => input io' `suffix_of` input io /\ zlen acc <= max)
    (fun _ io' => length (input io'))); [|by split|lia].
  intros acc io1 [Hs1 Hacc]. pose proof (suffix_length _ _ Hs1).
  pose proof (eats_data_body N max acc io1 ltac:(lia)) as Heats.
  apply wp_run in Heats as (r & io2 & Hrun & Hs2 & Hlt). apply wp_run. exists r, io2. split; [done|].
  destruct r as [x|e]; [|split; [by etrans|done]]. pose proof (data_body_bounded _ _ _ _ _ Hacc Hrun).
  destruct x as [acc2|got]; (split; [try split; by etrans|]); [done|]. by intros g [= <-].
Qed.

Lemma data_bounded N fuel use_crc32 max io :
  (N < fuel)%nat -> (length (input io) <= N)%nat -> 0 <= max ->
  wp (read_zmodem_data fuel use_crc32 max)
    (fun r io' => input io' `suffix_of` input io /\ forall f, r = Ok f -> zlen (zd_payload f) <= max) io.
Proof.
  intros Hf Hl Hmax. unfold read_zmodem_data. apply wp_bind.
  eapply wp_mono; [by apply (data_loop_bounded N)|].
  intros [got|e] io1 [Hs1 Hgot]; cbn [wp_then]; [|by split]. cbv zeta. apply wp_bind.
  eapply wp_mono.
  { assert (Ht : forall m : IO MemoryModemIo unit,
      tame N input m -> wp m (fun _ io2 => input io2 `suffix_of` input io1) io1).
    { intros m Hm. apply Hm. apply suffix_length in Hs1. lia. }
    apply Ht. pose proof (eats_zescaped N fuel Hf) as Hz. apply eats_tame in Hz. auto 15 with tame. }
  intros [u|e] io2 Hs2; cbn [wp_then]; [apply wp_ret|]; (split; [by etrans|]); [|done].
  intros f [= <-]. by apply Hgot.
Qed.

(** ** Properties *)

(** C1: a ZMODEM session between this sender and this receiver over a faithful
    line delivers every file: the sender returns the total size, the receiver
    returns the headers in order and stores every file under its name with
    exactly its bytes -- through the ZRINIT negotiation, the ZFILE offer, ZRPOS,
    the 8192-byte acknowledged subpackets, ZEOF and the closing ZFIN and "OO". *)
Theorem zmodem_loopback {R} `{LawfulFile R} (es : list (ZmodemSendStreamEntry R)) (ds : list (list Z)) :
  Forall2 zsendable es ds -> exists s2r r2s,
    forall fuel, (length es + 2 < fuel)%nat -> Forall (fun d => zfuel d < fuel)%nat ds ->
      send_zmodem_stream fuel es (mem r2s []) = Some (Ok (zlen (concat ds)), mem [] s2r)
      /\ receive_zmodem fuel zopen_in_store (mem s2r [], [])
         = Some (Ok (map zentry_header es), (mem [] r2s, zip (map zs_file_name es) ds)).
Proof. apply zsession. Qed.

Lemma zmodem_loopback_witness :
  let e := mkZmodemSendStreamEntry [97; 46; 98] 3 (mkCursor [24; 17; 255] 0) in
  exists s2r r2s,
    send_zmodem_stream (Z.to_nat 8300) [e] (mem r2s []) = Some (Ok 3, mem [] s2r)
    /\ receive_zmodem (Z.to_nat 8300) zopen_in_store (mem s2r [], [])
       = Some (Ok [zentry_header e], (mem [] r2s, [([97; 46; 98], [24; 17; 255])])).
Proof.
  intros e. destruct (zmodem_loopback [e] [[24; 17; 255]]) as (s2r & r2s & Hrun).
  - constructor; [|constructor]. split; [reflexivity|].
    split_and!; try reflexivity; try discriminate; try (repeat constructor; discriminate).
  - exists s2r, r2s. apply (Hrun (Z.to_nat 8300)); [cbn [length]; lia|].
    constructor; [unfold zfuel, ZMODEM_MAX_CHUNK; cbn [length]; lia|constructor].
Defined.

(** the streaming readers invert the writers.  After any bytes without a
    ZPAD, [read_zmodem_header] returns the header that [encode_hex_header] or
    [encode_bin32_header_with_escape] wrote, leaving the rest of the input;
    [read_zmodem_data] returns the payload and the end marker that
    [write_zdata] wrote, for both CRCs and both escaping modes, whenever the
    payload is within the limit. *)
Theorem zmodem_stream_roundtrip (fuel : nat) (j : list Z) (t : ZFrameType) (p : Pos4)
    (payload : list Z) (e : ZDataEnd) (xon esc use_crc32 : bool) (max : Z) (rest o : list Z) :
  junk j -> (length j < fuel)%nat -> pos_ok p ->
  bytes_ok payload -> zlen payload <= max -> (length payload < fuel)%nat ->
  read_zmodem_header fuel (mem (j ++ encode_hex_header t p xon ++ rest) o)
    = Some (Ok (mkZHeader t p Hex), mem (flow xon ++ rest) o)
  /\ read_zmodem_header fuel (mem (j ++ encode_bin32_header_with_escape t p esc ++ rest) o)
    = Some (Ok (mkZHeader t p Bin32), mem rest o)
  /\ exists out, write_zdata payload e use_crc32 esc (mem [] []) = Some (Ok tt, mem [] out)
     /\ read_zmodem_data fuel use_crc32 max (mem (out ++ rest) o)
        = Some (Ok (mkZDataFrame payload e), mem (flow (bool_decide (e = EndWithAck)) ++ rest) o).
Proof.
  intros Hj Hf Hp Hb Hm Hl. split_and!.
  - by apply header_hex_run.
  - by apply header_bin32_run.
  - exists (zdata_bytes payload e use_crc32 esc). split; [done|]. by apply data_run.
Qed.

Lemma zmodem_stream_roundtrip_witness :
  exists out, write_zdata [24; 17; 255; 13] ContinueWithAck false true (mem [] []) = Some (Ok tt, mem [] out)
    /\ read_zmodem_data 5 false 4 (mem (out ++ [1]) [])
       = Some (Ok (mkZDataFrame [24; 17; 255; 13] ContinueWithAck), mem [1] []).
Proof.
  apply (zmodem_stream_roundtrip 5 [17] ZRpos (0, 16, 0, 0) [24; 17; 255; 13] ContinueWithAck
    true true false 4 [1] []); try (repeat constructor; discriminate); simpl; try lia.
Defined.

(** C35: the ZMODEM receiver is safe on arbitrary input.  [receive_zmodem] ends
    (fuel beyond the input length is enough); every file it opens, even in a
    session that fails, has a name that is one plain path component; and when
    it succeeds each returned header stands for a stored file under its name,
    with exactly the declared size, which fits a 32-bit position. *)
Theorem zmodem_receiver_safe (i o : list Z) (fuel : nat) :
  (length i < fuel)%nat ->
  exists r io' fs,
    receive_zmodem fuel zopen_in_store (mem i o, []) = Some (r, (io', fs))
    /\ Forall (fun f => safe_name f.1) fs /\ forall hs, r = Ok hs -> zcomplete hs fs.
Proof.
  intros Hf. destruct (proj1 (wp_run _ _ _) (zreceive_any (length i) fuel Hf (mem i o) (le_n _)))
    as (r & [io' fs] & Hrun & Hs & Hc).
  by exists r, io', fs.
Qed.

Lemma zmodem_receiver_safe_witness : exists r io' fs,
  receive_zmodem 9 zopen_in_store (mem [42; 42; 24; 66; 48; 48; 13; 10] [], []) = Some (r, (io', fs))
  /\ Forall (fun f => safe_name f.1) fs /\ forall hs, r = Ok hs -> zcomplete hs fs.
Proof. apply (zmodem_receiver_safe [42; 42; 24; 66; 48; 48; 13; 10] [] 9). simpl. lia. Defined.

(** [read_zmodem_data] never returns a payload longer than its limit,
    whatever the input, and always ends. *)
Theorem zmodem_data_bounded (i o : list Z) (use_crc32 : bool) (max : Z) (fuel : nat) :
  (length i < fuel)%nat -> 0 <= max ->
  exists r io', read_zmodem_data fuel use_crc32 max (mem i o) = Some (r, io')
    /\ input io' `suffix_of` i /\ forall f, r = Ok f -> zlen (zd_payload f) <= max.
Proof.
  intros Hf Hm.
  destruct (proj1 (wp_run _ _ _) (data_bounded (length i) fuel use_crc32 max (mem i o) Hf (le_n _) Hm))
    as (r & io' & Hrun & Hs & Hb).
  by exists r, io'.
Qed.

Lemma zmodem_data_bounded_witness : exists r io',
  read_zmodem_data 6 true 2 (mem [1; 2; 3; 24; 104] []) = Some (r, io')
  /\ input io' `suffix_of` [1; 2; 3; 24; 104] /\ forall f, r = Ok f -> zlen (zd_payload f) <= 2.
Proof. apply (zmodem_data_bounded [1; 2; 3; 24; 104] [] true 2 6); [simpl; lia|lia]. Defined.

(** CRC-16 binary headers do not survive: [encode_bin16_header_with_escape]
    appends a CRC over two extra zero bytes, which [read_binary_zheader] does
    not expect, so the header it writes is refused with [InvalidCrc] by this
    crate's own reader -- for every frame whose check value changes under those
    two bytes, the ZFILE offer sent to a peer without CRC-32 among them. *)
Theorem bin16_header_refused (fuel : nat) (t : ZFrameType) (p : Pos4) (esc : bool) (rest o : list Z) :
  (0 < fuel)%nat -> pos_ok p ->
  let c := crc16_xmodem (ZFrameType_byte t :: pos_bytes p) in
  crc16_xmodem_update (crc16_xmodem_update c 0) 0 <> c ->
  read_zmodem_header fuel (mem (encode_bin16_header_with_escape t p esc ++ rest) o)
  = Some (Err (Protocol InvalidCrc), mem rest o).
Proof. intros Hf Hp c Hc. by apply (header_bin16_run fuel []); [constructor| | |]. Qed.

Lemma bin16_header_refused_witness :
  read_zmodem_header 1 (mem (encode_bin16_header_with_escape ZFile ZFILE_BINARY_FLAGS false ++ [1]) [])
  = Some (Err (Protocol InvalidCrc), mem [1] []).
Proof.
  apply (bin16_header_refused 1 ZFile ZFILE_BINARY_FLAGS false [1] []).
  - lia.
  - apply zfile_flags_ok.
  - vm_compute. discriminate.
Defined.
