(* ===== verification/ModemStream.v ===== *)
(** * The buffered stream between a transfer and its transport

    Model of [crates/hapcli-modem-transfer/src/stream.rs].  [ModemTransfer] is
    a state behind a mutex, shared by the worker thread that runs a protocol
    ([read_byte], [write_all]) and the terminal host that moves bytes to and
    from the connection.  Every critical section is one definition below, so a
    run of the two threads is a sequence of these steps; a step that waits on
    the condition variable is [None]. *)
From S2P Require Import Prelude ModemIo.
From stdpp Require Import prelude list numbers relations.
Open Scope Z_scope.

(** ** Definitions *)

Definition MODEM_REMOTE_OUTPUT_BUFFER_BYTES : Z := 4 * 1024 * 1024.
Definition MODEM_SERVER_WRITE_BUFFER_BYTES : Z := 1024 * 1024.

Record ModemTransferState := mkModemTransferState {
  remote_output : list Z;
  server_writes : list (list Z);
  server_write_bytes : Z;
  server_write_in_flight_bytes : Z;
  cancellation_bytes : list Z;
  input_overflow : bool;
  stopped : bool
}.

Definition new_with_wake_and_cancel (initial_remote_output cancellation : list Z) : ModemTransferState :=
  mkModemTransferState initial_remote_output [] 0 0 cancellation false false.

(** [server_writes.iter().map(Vec::len).sum()]. *)
Definition queued_bytes (ws : list (list Z)) : Z := foldr (fun w n => zlen w + n) 0 ws.

Definition cancel_locked (s : ModemTransferState) : ModemTransferState :=
  if stopped s then s
  else
    let bytes := sat_sub (server_write_bytes s) (queued_bytes (server_writes s)) in
    if bool_decide (cancellation_bytes s = []) then
      mkModemTransferState [] [] bytes (server_write_in_flight_bytes s) (cancellation_bytes s)
        (input_overflow s) true
    else
      mkModemTransferState [] [cancellation_bytes s] (sat_add bytes (zlen (cancellation_bytes s)))
        (server_write_in_flight_bytes s) (cancellation_bytes s) (input_overflow s) true.

(** The state afterwards, and whether the host is woken. *)
Definition push_remote_output (bytes : list Z) (s : ModemTransferState) : ModemTransferState * bool :=
  if bool_decide (bytes = []) then (s, false)
  else if stopped s then (s, false)
  else if MODEM_REMOTE_OUTPUT_BUFFER_BYTES <? sat_add (zlen (remote_output s)) (zlen bytes) then
    (cancel_locked
       (mkModemTransferState [] (server_writes s) (server_write_bytes s)
          (server_write_in_flight_bytes s) (cancellation_bytes s) true (stopped s)), true)
  else
    (mkModemTransferState (remote_output s ++ bytes) (server_writes s) (server_write_bytes s)
       (server_write_in_flight_bytes s) (cancellation_bytes s) (input_overflow s) (stopped s), false).

Definition take_server_write (s : ModemTransferState) : option (list Z) * ModemTransferState :=
  match server_writes s with
  | [] => (None, s)
  | bytes :: rest =>
      (Some bytes,
       mkModemTransferState (remote_output s) rest (server_write_bytes s)
         (sat_add (server_write_in_flight_bytes s) (zlen bytes)) (cancellation_bytes s)
         (input_overflow s) (stopped s))
  end.

Definition complete_server_write (byte_len : Z) (s : ModemTransferState) : ModemTransferState :=
  mkModemTransferState (remote_output s) (server_writes s)
    (sat_sub (server_write_bytes s) byte_len) (sat_sub (server_write_in_flight_bytes s) byte_len)
    (cancellation_bytes s) (input_overflow s) (stopped s).

Definition restore_server_write (bytes : list Z) (s : ModemTransferState) : ModemTransferState :=
  mkModemTransferState (remote_output s) (bytes :: server_writes s) (server_write_bytes s)
    (sat_sub (server_write_in_flight_bytes s) (zlen bytes)) (cancellation_bytes s)
    (input_overflow s) (stopped s).

Definition server_writes_drained (s : ModemTransferState) : bool :=
  (server_write_bytes s =? 0) && (server_write_in_flight_bytes s =? 0).

Definition drain_remote_output (s : ModemTransferState) : list Z * ModemTransferState :=
  (remote_output s,
   mkModemTransferState [] (server_writes s) (server_write_bytes s)
     (server_write_in_flight_bytes s) (cancellation_bytes s) (input_overflow s) (stopped s)).

Definition stop (s : ModemTransferState) : ModemTransferState * bool := (cancel_locked s, true).

(** One turn of the loop of [read_byte]: the result, or [None] to wait. *)
Definition read_byte_turn (s : ModemTransferState)
    : option (result ModemTransferError Z * ModemTransferState) :=
  if input_overflow s then Some (Err (InputBufferOverflow MODEM_REMOTE_OUTPUT_BUFFER_BYTES), s)
  else if stopped s then Some (Err Cancelled, s)
  else match remote_output s with
       | byte :: rest =>
           Some (Ok byte,
             mkModemTransferState rest (server_writes s) (server_write_bytes s)
               (server_write_in_flight_bytes s) (cancellation_bytes s) (input_overflow s) (stopped s))
       | [] => None
       end.

(** One turn of the loop of [write_all]. *)
Definition write_all_turn (bytes : list Z) (s : ModemTransferState)
    : option (result ModemTransferError unit * ModemTransferState) :=
  if bool_decide (bytes = []) then Some (Ok tt, s)
  else if stopped s then Some (Err Cancelled, s)
  else
    let buffered_after_write := sat_add (server_write_bytes s) (zlen bytes) in
    let oversized_first_write :=
      (server_write_bytes s =? 0) && (server_write_in_flight_bytes s =? 0) in
    if (buffered_after_write <=? MODEM_SERVER_WRITE_BUFFER_BYTES) || oversized_first_write then
      Some (Ok tt,
        mkModemTransferState (remote_output s) (server_writes s ++ [bytes])
          (sat_add (server_write_bytes s) (zlen bytes)) (server_write_in_flight_bytes s)
          (cancellation_bytes s) (input_overflow s) (stopped s))
    else None.

(** The transport a protocol runs on when the other thread is idle: waiting
    for input ends in a timeout, waiting for room does not end. *)
Definition stream_read_byte (_timeout : Z) : IO ModemTransferState Z :=
  fun s => match read_byte_turn s with
           | Some (r, s') => Some (r, s')
           | None => Some (Err Timeout, s)
           end.
#[export] Instance ModemTransfer_io : ModemIo ModemTransferState := {
  read_byte := stream_read_byte;
  write_all := write_all_turn
}.

(** ** Runs of the two threads *)

(** The shared state, with what an observer sees: the writes the host has
    taken and not yet completed, and four logs -- bytes pushed and bytes read,
    bytes accepted by [write_all] and bytes the transport completed. *)
Record World := mkWorld {
  state : ModemTransferState;
  taken : list (list Z);
  pushed : list Z;
  got : list Z;
  written : list Z;
  completed : list Z
}.

Definition start (initial cancellation : list Z) : World :=
  mkWorld (new_with_wake_and_cancel initial cancellation) [] initial [] [] [].

(** A Rust vector holds at most [isize::MAX] bytes. *)
Definition vec_ok (l : list Z) : Prop := zlen l < 2 ^ 63.

(** The host completes its writes in order and restores the one it took
    last, as the session loops do. *)
Inductive step : World -> World -> Prop :=
| step_push w bytes :
    vec_ok bytes ->
    let s' := fst (push_remote_output bytes (state w)) in
    step w (mkWorld s' (taken w) (if stopped s' then pushed w else pushed w ++ bytes)
              (got w) (written w) (completed w))
| step_take w bytes s' :
    take_server_write (state w) = (Some bytes, s') ->
    step w (mkWorld s' (taken w ++ [bytes]) (pushed w) (got w) (written w) (completed w))
| step_complete w bytes rest :
    taken w = bytes :: rest ->
    step w (mkWorld (complete_server_write (zlen bytes) (state w)) rest (pushed w) (got w)
              (written w) (completed w ++ bytes))
| step_restore w bytes rest :
    taken w = rest ++ [bytes] ->
    step w (mkWorld (restore_server_write bytes (state w)) rest (pushed w) (got w)
              (written w) (completed w))
| step_drain w bytes s' :
    drain_remote_output (state w) = (bytes, s') ->
    step w (mkWorld s' (taken w) (pushed w) (got w ++ bytes) (written w) (completed w))
| step_stop w :
    step w (mkWorld (fst (stop (state w))) (taken w) (pushed w) (got w) (written w) (completed w))
| step_read w r s' :
    read_byte_turn (state w) = Some (r, s') ->
    step w (mkWorld s' (taken w) (pushed w)
              (match r with Ok b => got w ++ [b] | Err _ => got w end) (written w) (completed w))
| step_write w bytes r s' :
    vec_ok bytes -> write_all_turn bytes (state w) = Some (r, s') ->
    step w (mkWorld s' (taken w) (pushed w) (got w)
              (match r with Ok _ => written w ++ bytes | Err _ => written w end) (completed w)).

Definition reachable (initial cancellation : list Z) (w : World) : Prop :=
  rtc step (start initial cancellation) w.

(** ** The invariant *)

Lemma queued_app l k : queued_bytes (l ++ k) = queued_bytes l + queued_bytes k.
Proof. induction l as [|x l IH]; simpl; lia. Qed.

Lemma queued_nonneg l : 0 <= queued_bytes l.
Proof. induction l as [|x l IH]; simpl; [lia|]. pose proof (zlen_nonneg x). lia. Qed.

Lemma queued_zero l : Forall (fun x => x <> []) l -> queued_bytes l = 0 -> l = [].
Proof.
  destruct 1 as [|x l Hx Hl]; [done|]. simpl. intros H. exfalso. pose proof (queued_nonneg l).
  destruct x as [|b x]; [done|]. rewrite zlen_cons in H. pose proof (zlen_nonneg x). lia.
Qed.

Lemma sat_add_exact x y : 0 <= x + y < 2 ^ 64 -> sat_add x y = x + y.
Proof. unfold sat_add, U64_MAX. lia. Qed.

Lemma sat_sub_exact x y : y <= x -> sat_sub x y = x - y.
Proof. unfold sat_sub. lia. Qed.

(** What is queued or taken, oldest first. *)
Definition outstanding (w : World) : list (list Z) := taken w ++ server_writes (state w).

Section Invariant.
Context (initial cancellation : list Z).

(** The counters count exactly the outstanding writes. *)
Definition accounts (w : World) : Prop :=
  server_write_in_flight_bytes (state w) = queued_bytes (taken w)
  /\ server_write_bytes (state w) = queued_bytes (outstanding w)
  /\ Forall (fun x => x <> []) (outstanding w)
  /\ cancellation_bytes (state w) = cancellation.

(** The buffer limits. *)
Definition limits (w : World) : Prop :=
  (stopped (state w) = false ->
     queued_bytes (outstanding w) <= MODEM_SERVER_WRITE_BUFFER_BYTES \/ length (outstanding w) = 1%nat)
  /\ queued_bytes (outstanding w)
     < 2 ^ 63 + (if stopped (state w) then zlen cancellation else 0)
  /\ zlen (remote_output (state w)) <= Z.max MODEM_REMOTE_OUTPUT_BUFFER_BYTES (zlen initial).

(** Both directions are byte channels: nothing is lost, duplicated or
    reordered; stopping cuts the outgoing channel, appends the cancellation
    bytes and drops the unread input. *)
Definition channels (w : World) : Prop :=
  (if stopped (state w)
   then (exists p, p `prefix_of` written w
                   /\ completed w ++ concat (outstanding w) = p ++ cancellation)
        /\ remote_output (state w) = [] /\ got w `prefix_of` pushed w
   else completed w ++ concat (outstanding w) = written w
        /\ got w ++ remote_output (state w) = pushed w)
  /\ (input_overflow (state w) = true -> stopped (state w) = true).

Definition inv (w : World) : Prop := accounts w /\ limits w /\ channels w.

Lemma inv_start : inv (start initial cancellation).
Proof.
  split; [|split]; [split_and!; try done; constructor| |by split_and!].
  split_and!; simpl; [|lia|lia]. intros _. left. unfold MODEM_SERVER_WRITE_BUFFER_BYTES. lia.
Qed.

Hypothesis cancellation_ok : vec_ok cancellation.

(** Steps of the host's transport loop keep the outstanding bytes in order. *)
Lemma inv_take w bytes s' :
  inv w -> take_server_write (state w) = (Some bytes, s') ->
  inv (mkWorld s' (taken w ++ [bytes]) (pushed w) (got w) (written w) (completed w)).
Proof.
  intros ((H1 & H2 & H3 & H4) & H5 & H6) Ht. unfold take_server_write in Ht.
  destruct (server_writes (state w)) as [|b rest] eqn:Hq; [done|]. injection Ht as -> <-.
  set (w' := mkWorld _ _ _ _ _ _).
  assert (Ho : outstanding w' = outstanding w).
  { unfold outstanding. simpl. rewrite Hq, <-app_assoc. done. }
  unfold inv, accounts, limits, channels. rewrite Ho. simpl. split_and!; try done; try apply H5; try apply H6.
  rewrite queued_app, H1. simpl. rewrite Z.add_0_r. apply sat_add_exact.
  destruct H5 as (_ & Hb & _). unfold outstanding in Hb. rewrite queued_app, Hq in Hb. simpl in Hb.
  pose proof (queued_nonneg (taken w)). pose proof (queued_nonneg rest). pose proof (zlen_nonneg bytes).
  unfold vec_ok in *. destruct (stopped (state w)); lia.
Qed.

Lemma inv_complete w bytes rest :
  inv w -> taken w = bytes :: rest ->
  inv (mkWorld (complete_server_write (zlen bytes) (state w)) rest (pushed w) (got w)
         (written w) (completed w ++ bytes)).
Proof.
  intros ((H1 & H2 & H3 & H4) & (H5 & H6 & H7) & H8) Ht. set (w' := mkWorld _ _ _ _ _ _).
  assert (Ho : outstanding w = bytes :: outstanding w') by (unfold outstanding; rewrite Ht; done).
  rewrite Ho in H2, H3, H5, H6. rewrite Ht in H1. simpl in H1, H2, H6. inversion_clear H3.
  pose proof (queued_nonneg (outstanding w')). pose proof (queued_nonneg rest). pose proof (zlen_nonneg bytes).
  unfold inv, accounts, limits, channels. simpl. split_and!; try done.
  - rewrite sat_sub_exact by lia. lia.
  - rewrite sat_sub_exact by lia. lia.
  - intros Hs. destruct (H5 Hs) as [Hle|Hone]; [left; simpl in Hle; lia|].
    left. simpl in Hone. destruct (outstanding w'); [|done]. simpl. unfold MODEM_SERVER_WRITE_BUFFER_BYTES. lia.
  - lia.
  - destruct H8 as [H8 _]. rewrite Ho in H8. simpl in H8. by rewrite <-app_assoc.
  - apply H8.
Qed.

Lemma inv_restore w bytes rest :
  inv w -> taken w = rest ++ [bytes] ->
  inv (mkWorld (restore_server_write bytes (state w)) rest (pushed w) (got w) (written w) (completed w)).
Proof.
  intros ((H1 & H2 & H3 & H4) & H5 & H6) Ht. set (w' := mkWorld _ _ _ _ _ _).
  assert (Ho : outstanding w' = outstanding w).
  { unfold outstanding. simpl. rewrite Ht, <-app_assoc. done. }
  unfold inv, accounts, limits, channels. rewrite Ho. simpl. split_and!; try done; try apply H5; try apply H6.
  rewrite H1, Ht, queued_app. simpl. pose proof (queued_nonneg rest).
  rewrite sat_sub_exact by lia. lia.
Qed.

(** Stopping a live transfer, on request or on overflow. *)
Lemma inv_cancel w ro ov :
  inv w -> stopped (state w) = false ->
  let s := state w in
  inv (mkWorld (cancel_locked (mkModemTransferState ro (server_writes s) (server_write_bytes s)
                 (server_write_in_flight_bytes s) (cancellation_bytes s) ov (stopped s)))
         (taken w) (pushed w) (got w) (written w) (completed w)).
Proof.
  intros ((H1 & H2 & H3 & H4) & (H5 & H6 & H7) & H8 & _) Hlive s. unfold channels in H8.
  rewrite Hlive in H6, H8. destruct H8 as [H8 H9]. unfold outstanding in *. rewrite queued_app in H2, H6.
  rewrite concat_app in H8. apply Forall_app in H3 as [H3 H3'].
  pose proof (queued_nonneg (taken w)). pose proof (queued_nonneg (server_writes (state w))).
  unfold vec_ok in cancellation_ok. pose proof (zlen_nonneg cancellation). pose proof (zlen_nonneg initial).
  assert (Hpre : completed w ++ concat (taken w) `prefix_of` written w).
  { rewrite <-H8, app_assoc. by apply prefix_app_r. }
  assert (Hgot : got w `prefix_of` pushed w) by (rewrite <-H9; by apply prefix_app_r).
  unfold cancel_locked. subst s. rewrite Hlive, H4. cbn [stopped server_write_bytes server_writes cancellation_bytes
    server_write_in_flight_bytes input_overflow].
  rewrite H2, sat_sub_exact by lia. replace (_ + _ - _) with (queued_bytes (taken w)) by lia.
  case_bool_decide as Hc.
  - unfold inv, accounts, limits, channels, outstanding. simpl. rewrite app_nil_r.
    split_and!; try done; rewrite ?zlen_nil; try lia. exists (completed w ++ concat (taken w)). rewrite Hc, app_nil_r. done.
  - rewrite sat_add_exact by lia.
    unfold inv, accounts, limits, channels, outstanding. simpl. rewrite queued_app. simpl.
    split_and!; try done; rewrite ?zlen_nil; try lia.
    + apply Forall_app. split; [done|]. constructor; [done|constructor].
    + exists (completed w ++ concat (taken w)). rewrite concat_app. simpl. rewrite app_nil_r, <-app_assoc. done.
Qed.

Lemma cancel_stopped s : stopped (cancel_locked s) = true.
Proof. unfold cancel_locked. destruct (stopped s) eqn:Hs; [done|]. by destruct (bool_decide _). Qed.

Lemma inv_stop w :
  inv w -> inv (mkWorld (fst (stop (state w))) (taken w) (pushed w) (got w) (written w) (completed w)).
Proof.
  intros Hi. destruct (stopped (state w)) eqn:Hs.
  - unfold stop, cancel_locked. rewrite Hs. by destruct w.
  - pose proof (inv_cancel w (remote_output (state w)) (input_overflow (state w)) Hi Hs) as H.
    by destruct w as [[]].
Qed.

Lemma inv_push w bytes :
  inv w -> vec_ok bytes ->
  let s' := fst (push_remote_output bytes (state w)) in
  inv (mkWorld s' (taken w) (if stopped s' then pushed w else pushed w ++ bytes)
         (got w) (written w) (completed w)).
Proof.
  intros Hi Hb. unfold push_remote_output. case_bool_decide as Hne; [subst bytes|].
  { cbn [fst]. rewrite app_nil_r. destruct w as [s]. cbn [state] in *. by destruct (stopped s). }
  destruct (stopped (state w)) eqn:Hs; cbn [fst].
  { rewrite Hs. by destruct w. }
  destruct (Z.ltb_spec MODEM_REMOTE_OUTPUT_BUFFER_BYTES (sat_add (zlen (remote_output (state w))) (zlen bytes)))
    as [Hlt|Hle]; cbn [fst].
  - rewrite cancel_stopped. rewrite <-Hs. by apply inv_cancel.
  - destruct Hi as ((H1 & H2 & H3 & H4) & (H5 & H6 & H7) & H8 & H9). unfold channels in H8.
    rewrite Hs in *. destruct H8 as [H8 H10].
    unfold inv, accounts, limits, channels, outstanding in *. simpl. split_and!; try done.
    + rewrite zlen_app. unfold sat_add, U64_MAX, MODEM_REMOTE_OUTPUT_BUFFER_BYTES in *. lia.
    + by rewrite app_assoc, H10.
Qed.

Lemma inv_drain w :
  inv w ->
  let '(bytes, s') := drain_remote_output (state w) in
  inv (mkWorld s' (taken w) (pushed w) (got w ++ bytes) (written w) (completed w)).
Proof.
  intros (Ha & (H5 & H6 & H7) & H8 & H9). unfold channels in H8.
  unfold inv, accounts, limits, channels, outstanding in *. simpl in *.
  destruct (stopped (state w)) eqn:Hs; (split; [done|]); split; try done.
  - pose proof (zlen_nonneg initial). split_and!; [done|lia|rewrite zlen_nil; lia].
  - destruct H8 as (H8 & H10 & H11). rewrite H10, app_nil_r. done.
  - pose proof (zlen_nonneg initial). split_and!; [done|lia|rewrite zlen_nil; lia].
  - destruct H8 as [H8 H10]. by rewrite app_nil_r.
Qed.

Lemma inv_read w r s' :
  inv w -> read_byte_turn (state w) = Some (r, s') ->
  inv (mkWorld s' (taken w) (pushed w) (match r with Ok b => got w ++ [b] | Err _ => got w end)
         (written w) (completed w)).
Proof.
  intros Hi Hr. unfold read_byte_turn in Hr. destruct (input_overflow (state w)) eqn:Ho.
  { injection Hr as <- <-. by destruct w. }
  destruct (stopped (state w)) eqn:Hs.
  { injection Hr as <- <-. by destruct w. }
  destruct (remote_output (state w)) as [|b rest] eqn:Hq; [done|]. injection Hr as <- <-.
  destruct Hi as (Ha & (H5 & H6 & H7) & H8 & H9).
  unfold inv, accounts, limits, channels, outstanding in *. simpl in *. rewrite Hs in *.
  split; [done|]. split; [|split; [|done]].
  - split_and!; [done|done|]. rewrite Hq, zlen_cons in H7. lia.
  - destruct H8 as [H8 H10]. rewrite Hq in H10. by rewrite <-app_assoc.
Qed.

Lemma inv_write w bytes r s' :
  inv w -> vec_ok bytes -> write_all_turn bytes (state w) = Some (r, s') ->
  inv (mkWorld s' (taken w) (pushed w) (got w)
         (match r with Ok _ => written w ++ bytes | Err _ => written w end) (completed w)).
Proof.
  intros Hi Hv Hw. unfold write_all_turn in Hw. case_bool_decide as Hne; [subst bytes|].
  { injection Hw as <- <-. rewrite app_nil_r. by destruct w. }
  destruct (stopped (state w)) eqn:Hs.
  { injection Hw as <- <-. by destruct w. }
  destruct (_ || _) eqn:Hg; [|done]. injection Hw as <- <-.
  destruct Hi as ((H1 & H2 & H3 & H4) & (H5 & H6 & H7) & H8 & H9).
  set (w' := mkWorld _ _ _ _ _ _). assert (Ho : outstanding w' = outstanding w ++ [bytes]).
  { unfold outstanding. simpl. by rewrite app_assoc. }
  unfold inv, accounts, limits, channels in *. rewrite Ho, queued_app. rewrite Hs in *. simpl.
  destruct H8 as [H8 H10]. unfold vec_ok in Hv. pose proof (zlen_nonneg bytes).
  pose proof (queued_nonneg (outstanding w)). rewrite Z.add_0_r.
  rewrite H2 in Hg |- *. rewrite sat_add_exact in Hg |- * by lia.
  assert (Hcase : queued_bytes (outstanding w) + zlen bytes <= MODEM_SERVER_WRITE_BUFFER_BYTES
                  \/ outstanding w = []).
  { apply orb_true_iff in Hg as [Hg|Hg]; [left; lia|right]. apply queued_zero; [done|lia]. }
  split_and!; try done; try lia.
  - apply Forall_app. split; [done|]. constructor; [done|constructor].
  - intros _. destruct Hcase as [Hle| ->]; [by left|by right].
  - destruct Hcase as [Hle| ->]; [unfold MODEM_SERVER_WRITE_BUFFER_BYTES in Hle; lia|simpl; lia].
  - rewrite concat_app. simpl. by rewrite app_nil_r, app_assoc, H8.
Qed.

Lemma inv_step w w' : inv w -> step w w' -> inv w'.
Proof.
  intros Hi Hstep. destruct Hstep as [w bytes Hb|w bytes s' Ht|w bytes rest Ht|w bytes rest Ht|w bytes s' Ht|w|w r s' Hr|w bytes r s' Hv Hw].
  - by apply inv_push.
  - by apply inv_take.
  - by apply inv_complete.
  - by apply inv_restore.
  - pose proof (inv_drain w Hi) as H. by rewrite Ht in H.
  - by apply inv_stop.
  - by apply inv_read.
  - by apply inv_write.
Qed.

Lemma inv_reachable w : reachable initial cancellation w -> inv w.
Proof.
  unfold reachable. intros H. assert (Hs : inv (start initial cancellation)) by apply inv_start.
  induction H as [|x y z Hxy _ IH]; [done|]. apply IH. by eapply inv_step.
Qed.
End Invariant.

(** The host can always drain a live transfer. *)
Lemma drain_taken w :
  exists w', rtc step w w' /\ taken w' = [] /\ server_writes (state w') = server_writes (state w)
    /\ stopped (state w') = stopped (state w).
Proof.
  remember (taken w) as t eqn:Ht. revert w Ht. induction t as [|b t IH]; intros w Ht.
  - exists w. split; [constructor|]. by rewrite <-Ht.
  - destruct (IH (mkWorld (complete_server_write (zlen b) (state w)) t (pushed w) (got w)
                    (written w) (completed w ++ b)) eq_refl) as (w' & Hsteps & H1 & H2 & H3).
    exists w'. split_and!; try done. eapply rtc_l; [|exact Hsteps]. by eapply step_complete.
Qed.

Lemma drain_all w :
  exists w', rtc step w w' /\ outstanding w' = [] /\ stopped (state w') = stopped (state w).
Proof.
  remember (server_writes (state w)) as q eqn:Hq. revert w Hq. induction q as [|b q IH]; intros w Hq.
  - destruct (drain_taken w) as (w' & Hs & H1 & H2 & H3). exists w'. split; [done|].
    unfold outstanding. by rewrite H1, H2, <-Hq.
  - set (s := state w) in *.
    set (w1 := mkWorld (mkModemTransferState (remote_output s) q (server_write_bytes s)
                 (sat_add (server_write_in_flight_bytes s) (zlen b)) (cancellation_bytes s)
                 (input_overflow s) (stopped s)) (taken w ++ [b]) (pushed w) (got w) (written w) (completed w)).
    destruct (IH w1 eq_refl) as (w' & Hs & H1 & H2). exists w'. split_and!; [|done|done].
    eapply rtc_l; [|exact Hs]. apply step_take. unfold take_server_write. fold s. by rewrite <-Hq.
Qed.

(** The transport sees a stopped transfer only through its cancellation. *)
Lemma stopped_step w w' :
  stopped (state w) = true -> remote_output (state w) = [] -> step w w' ->
  stopped (state w') = true /\ got w' = got w /\ written w' = written w.
Proof.
  intros Hs Hr Hstep.
  destruct Hstep as [w bytes Hb s'|w bytes s' Ht|w bytes rest Ht|w bytes rest Ht|w bytes s' Ht|w|w r s' Ht|w bytes r s' Hv Ht];
    cbn [state got written].
  - subst s'. unfold push_remote_output. case_bool_decide; [done|]. by rewrite Hs.
  - unfold take_server_write in Ht. destruct (server_writes _); [done|]. by injection Ht as _ <-.
  - done.
  - done.
  - injection Ht as <- <-. by rewrite Hr, app_nil_r.
  - unfold stop, cancel_locked. by rewrite Hs.
  - unfold read_byte_turn in Ht. rewrite Hs in Ht. destruct (input_overflow _); by injection Ht as <- <-.
  - unfold write_all_turn in Ht. rewrite Hs in Ht.
    case_bool_decide; injection Ht as <- <-; [subst; by rewrite app_nil_r|done].
Qed.

(** ** Properties *)

(** C34: the stream is two byte channels.  In every state the two threads can
    reach, while the transfer is live, what the transport completed, took and
    still has queued is exactly what [write_all] accepted, in order, and what
    the protocol read and can still read is exactly what was pushed; once it is
    stopped, the transport sees a prefix of the accepted bytes followed by the
    cancellation bytes, and the unread input is gone. *)
Theorem modem_stream_channels (initial cancellation : list Z) (w : World) :
  vec_ok cancellation -> reachable initial cancellation w -> channels cancellation w.
Proof. intros Hc Hr. apply (inv_reachable initial cancellation Hc w Hr). Qed.

Lemma modem_stream_channels_witness :
  channels [24; 24] (mkWorld (fst (stop (new_with_wake_and_cancel [1; 2] [24; 24]))) [] [1; 2] [] [] []).
Proof.
  apply (modem_stream_channels [1; 2]); [reflexivity|]. apply rtc_once.
  apply (step_stop (start [1; 2] [24; 24])).
Defined.

(** The counters of the stream never drift and the buffers stay bounded:
    [server_write_bytes] is the number of bytes queued or taken,
    [server_write_in_flight_bytes] the number taken, so [server_writes_drained]
    holds exactly when nothing is outstanding; a live transfer buffers at most
    1 MiB of output unless a single larger write is all it holds; and the input
    buffer never exceeds 4 MiB beyond what it was created with. *)
Theorem modem_stream_limits (initial cancellation : list Z) (w : World) :
  vec_ok cancellation -> reachable initial cancellation w ->
  server_write_in_flight_bytes (state w) = queued_bytes (taken w)
  /\ server_write_bytes (state w) = queued_bytes (outstanding w)
  /\ (server_writes_drained (state w) = true <-> outstanding w = [])
  /\ (stopped (state w) = false ->
      server_write_bytes (state w) <= MODEM_SERVER_WRITE_BUFFER_BYTES \/ length (outstanding w) = 1%nat)
  /\ zlen (remote_output (state w)) <= Z.max MODEM_REMOTE_OUTPUT_BUFFER_BYTES (zlen initial).
Proof.
  intros Hc Hr. destruct (inv_reachable initial cancellation Hc w Hr) as ((H1 & H2 & H3 & _) & (H5 & _ & H7) & _).
  split_and!; try done.
  - unfold server_writes_drained. rewrite H1, H2. split.
    + intros Hz. apply queued_zero; [done|lia].
    + intros Ho. rewrite Ho. unfold outstanding in Ho. by apply app_eq_nil in Ho as [-> _].
  - by rewrite H2.
Qed.

Lemma modem_stream_limits_witness :
  let w := mkWorld (mkModemTransferState [] [[7; 8]] 2 0 [] false false) [] [] [] [7; 8] [] in
  server_write_bytes (state w) = queued_bytes (outstanding w)
  /\ (server_writes_drained (state w) = true <-> outstanding w = []).
Proof.
  intros w. destruct (modem_stream_limits [] [] w) as (_ & H & H' & _); [reflexivity| |done].
  apply rtc_once. apply (step_write (start [] []) [7; 8] (Ok tt)); reflexivity.
Defined.

(** Cancellation is final.  After [stop] (or an input overflow) no step of
    either thread un-stops the transfer, delivers another byte to the protocol
    or accepts another write. *)
Theorem modem_stream_stop_final (initial cancellation : list Z) (w w' : World) :
  vec_ok cancellation -> reachable initial cancellation w -> stopped (state w) = true ->
  rtc step w w' ->
  stopped (state w') = true /\ got w' = got w /\ written w' = written w
  /\ remote_output (state w') = [] /\ read_byte_turn (state w') <> None
  /\ forall b s, read_byte_turn (state w') <> Some (Ok b, s).
Proof.
  intros Hc Hr Hs Hsteps.
  assert (H : stopped (state w') = true /\ got w' = got w /\ written w' = written w).
  { revert Hr Hs. induction Hsteps as [|x y z Hxy _ IH]; intros Hr Hs; [done|].
    destruct (inv_reachable initial cancellation Hc x Hr) as (_ & _ & Hch & _). unfold channels in Hch.
    rewrite Hs in Hch. destruct (stopped_step x y Hs (proj1 (proj2 Hch)) Hxy) as (H1 & H2 & H3).
    rewrite <-H2, <-H3. apply IH; [|done]. by eapply rtc_r. }
  destruct H as (H1 & H2 & H3). split_and!; try done.
  - assert (Hr' : reachable initial cancellation w') by (unfold reachable in *; by etrans).
    destruct (inv_reachable initial cancellation Hc w' Hr') as (_ & _ & Hch & _). rewrite H1 in Hch. apply Hch.
  - unfold read_byte_turn. rewrite H1. by destruct (input_overflow _).
  - intros b s. unfold read_byte_turn. rewrite H1. by destruct (input_overflow _).
Qed.

Lemma modem_stream_stop_final_witness :
  let w := mkWorld (fst (stop (new_with_wake_and_cancel [1; 2] [24]))) [] [1; 2] [] [] [] in
  read_byte_turn (state w) <> None.
Proof.
  intros w. destruct (modem_stream_stop_final [1; 2] [24] w w) as (_ & _ & _ & _ & H & _).
  - reflexivity.
  - apply rtc_once. apply (step_stop (start [1; 2] [24])).
  - reflexivity.
  - constructor.
  - exact H.
Defined.

(** Back-pressure cannot deadlock.  When [write_all] waits in a reachable
    state, the transport has work outstanding, and from that state the host's
    own steps lead to one in which the same write is accepted. *)
Theorem modem_stream_write_progress (initial cancellation : list Z) (w : World) (bytes : list Z) :
  vec_ok cancellation -> reachable initial cancellation w -> write_all_turn bytes (state w) = None ->
  outstanding w <> []
  /\ exists w' s', rtc step w w' /\ write_all_turn bytes (state w') = Some (Ok tt, s').
Proof.
  intros Hc Hr Hw. destruct (drain_all w) as (w' & Hsteps & Ho & Hst).
  assert (Hlive : bytes <> [] /\ stopped (state w) = false).
  { unfold write_all_turn in Hw. case_bool_decide; [done|]. by destruct (stopped _). }
  destruct Hlive as [Hne Hlive]. split.
  - intros Hnil. destruct (inv_reachable initial cancellation Hc w Hr) as ((H1 & H2 & _) & _).
    unfold write_all_turn in Hw. rewrite bool_decide_eq_false_2, Hlive, H1, H2, Hnil in Hw by done.
    unfold outstanding in Hnil. apply app_eq_nil in Hnil as [Ht _]. rewrite Ht in Hw. simpl in Hw.
    by rewrite orb_true_r in Hw.
  - exists w'. assert (Hr' : reachable initial cancellation w') by (unfold reachable in *; by etrans).
    destruct (inv_reachable initial cancellation Hc w' Hr') as ((H1 & H2 & _) & _).
    unfold write_all_turn. rewrite bool_decide_eq_false_2, Hst, Hlive, H1, H2, Ho by done.
    unfold outstanding in Ho. apply app_eq_nil in Ho as [-> _]. simpl. rewrite orb_true_r. eauto.
Qed.

Lemma modem_stream_write_progress_witness :
  exists big, zlen big = MODEM_SERVER_WRITE_BUFFER_BYTES
  /\ let w := mkWorld (mkModemTransferState [] [big] (zlen big) 0 [] false false) [] [] [] big [] in
     exists w' s', rtc step w w' /\ write_all_turn [1] (state w') = Some (Ok tt, s').
Proof.
  exists (replicate (Z.to_nat MODEM_SERVER_WRITE_BUFFER_BYTES) 0).
  assert (Hl : zlen (replicate (Z.to_nat MODEM_SERVER_WRITE_BUFFER_BYTES) 0) = MODEM_SERVER_WRITE_BUFFER_BYTES).
  { rewrite zlen_replicate. apply Z2Nat.id. unfold MODEM_SERVER_WRITE_BUFFER_BYTES. lia. }
  revert Hl. generalize (replicate (Z.to_nat MODEM_SERVER_WRITE_BUFFER_BYTES) 0). intros big Hl.
  assert (Hne : big <> []) by (intros ->; discriminate Hl).
  split; [exact Hl|]. intros w. apply (modem_stream_write_progress [] [] w [1]).
  - reflexivity.
  - apply rtc_once. apply (step_write (start [] []) big (Ok tt)); [unfold vec_ok; rewrite Hl; reflexivity|].
    unfold write_all_turn. rewrite bool_decide_eq_false_2 by exact Hne. cbn -[zlen sat_add].
    rewrite orb_true_r, sat_add_exact by (rewrite Hl; unfold MODEM_SERVER_WRITE_BUFFER_BYTES; lia). reflexivity.
  - unfold write_all_turn. cbn -[sat_add Z.leb]. rewrite Hl. reflexivity.
Defined.
