(* ===== verification/Detector.v ===== *)
(** * Detection of modem starts in terminal output

    Model of [crates/hapcli-modem-transfer/src/detector.rs]: a scanner that
    looks for ZMODEM headers and X/YMODEM negotiation bytes in the output of a
    session and keeps only its last 64 bytes between chunks. *)
From S2P Require Import Prelude ModemIo Xymodem Zmodem.
From stdpp Require Import prelude list numbers.
Open Scope Z_scope.

(** ** Definitions *)

Definition DETECTOR_TAIL_BYTES : Z := 64.

Inductive DetectedModemProtocol : Type := Xmodem | XymodemNegotiation | Ymodem | Zmodem.
#[export] Instance DetectedModemProtocol_eq_dec : EqDecision DetectedModemProtocol.
Proof. solve_decision. Defined.

Record DetectedModemStart := mkStart { protocol : DetectedModemProtocol; offset : Z }.

Record ModemDetector := mkDetector { tail : list Z }.
Definition ModemDetector_new : ModemDetector := mkDetector [].

(** The [for] loop of [find_pattern_crossing_current_chunk] from [index] on;
    [window] is what is left of the window there. *)
Fixpoint find_from (window : list Z) (index current_start : Z) (pattern : list Z) : option Z :=
  if zlen pattern <=? zlen window then
    if starts_with pattern window && (current_start <? index + zlen pattern) then Some index
    else match window with
         | [] => None
         | _ :: window' => find_from window' (index + 1) current_start pattern
         end
  else None.

Definition find_pattern_crossing_current_chunk (window : list Z) (current_start : Z) (pattern : list Z)
    : option Z :=
  if bool_decide (pattern = []) || (zlen window <? zlen pattern) then None
  else find_from window 0 current_start pattern.

(** [Iterator::min] over the found offsets. *)
Definition option_min (a b : option Z) : option Z :=
  match a, b with
  | Some x, Some y => Some (Z.min x y)
  | Some x, None => Some x
  | None, b => b
  end.

Definition zmodem_patterns : list (list Z) :=
  [[ZPAD; ZPAD; ZDLE; ZHEX]; [ZPAD; ZDLE; ZBIN]; [ZPAD; ZDLE; ZBIN32]].

Definition find_zmodem_start (window : list Z) (current_start : Z) : option DetectedModemStart :=
  option_map (mkStart Zmodem)
    (foldr (fun p acc => option_min (find_pattern_crossing_current_chunk window current_start p) acc)
       None zmodem_patterns).

Definition detect_xymodem_start (window : list Z) (current_start : Z) : option DetectedModemStart :=
  match find_pattern_crossing_current_chunk window current_start [WANT_CRC] with
  | Some i => Some (mkStart XymodemNegotiation i)
  | None => option_map (mkStart XymodemNegotiation)
              (find_pattern_crossing_current_chunk window current_start [NAK])
  end.

(** [zmodem_start.or(xymodem_start)], rebased to the current chunk. *)
Definition detect (window : list Z) (current_start : Z) : option DetectedModemStart :=
  let zmodem_start := find_zmodem_start window current_start in
  let found := match zmodem_start with
               | Some s => Some s
               | None => detect_xymodem_start window current_start
               end in
  option_map (fun s => mkStart (protocol s) (sat_sub (offset s) current_start)) found.

Definition scan_first (chunk : list Z) (d : ModemDetector) : option DetectedModemStart * ModemDetector :=
  if bool_decide (chunk = []) then (None, d)
  else
    let current_start := zlen (tail d) in
    let window := tail d ++ chunk in
    let keep := Z.min DETECTOR_TAIL_BYTES (zlen window) in
    (detect window current_start, mkDetector (zdrop (zlen window - keep) window)).

Definition scan (chunk : list Z) (d : ModemDetector) : list DetectedModemProtocol * ModemDetector :=
  let '(start, d') := scan_first chunk d in
  (match start with Some s => [protocol s] | None => [] end, d').

(** ** The bounded tail is enough *)

(** A detector that remembers the whole stream. *)
Definition detector_of (history : list Z) : ModemDetector :=
  mkDetector (zdrop (zlen history - Z.min DETECTOR_TAIL_BYTES (zlen history)) history).

Lemma find_from_shift window index cs k pattern :
  find_from window (index + k) (cs + k) pattern = option_map (fun i => i + k) (find_from window index cs pattern).
Proof.
  revert index. induction window as [|b window IH]; intros index; cbn [find_from].
  all: replace (cs + k <? index + k + zlen pattern) with (cs <? index + zlen pattern)
    by (destruct (Z.ltb_spec cs (index + zlen pattern)); symmetry; [apply Z.ltb_lt|apply Z.ltb_ge]; lia).
  - by repeat case_match.
  - destruct (zlen pattern <=? _); [|done]. destruct (_ && _); [done|].
    replace (index + k + 1) with (index + 1 + k) by lia. apply IH.
Qed.

(** Matches that end before the current chunk do not count. *)
Lemma find_from_skip pre window index cs pattern :
  zlen pattern <= zlen window + 1 -> index + zlen pre + zlen pattern <= cs + 1 ->
  find_from (pre ++ window) index cs pattern = find_from window (index + zlen pre) cs pattern.
Proof.
  intros Hp. revert index. induction pre as [|b pre IH]; intros index Hcs; cbn [app].
  - by rewrite zlen_nil, Z.add_0_r.
  - rewrite zlen_cons in Hcs |- *. cbn [find_from]. rewrite zlen_cons, zlen_app.
    pose proof (zlen_nonneg pre). pose proof (zlen_nonneg window).
    rewrite (proj2 (Z.leb_le _ _)) by lia. rewrite (proj2 (Z.ltb_ge _ _)), andb_false_r by lia.
    rewrite IH by lia. f_equal. lia.
Qed.

Lemma find_pattern_skip pre window cs pattern :
  pattern <> [] -> zlen pattern <= zlen window -> zlen pattern <= cs + 1 ->
  find_pattern_crossing_current_chunk (pre ++ window) (zlen pre + cs) pattern
  = option_map (fun i => i + zlen pre) (find_pattern_crossing_current_chunk window cs pattern).
Proof.
  intros Hne Hw Hcs. unfold find_pattern_crossing_current_chunk.
  rewrite (bool_decide_eq_false_2 (pattern = [])), zlen_app by done. pose proof (zlen_nonneg pre).
  rewrite !(proj2 (Z.ltb_ge _ _)) by lia. cbn [orb].
  rewrite find_from_skip by lia.
  rewrite (Z.add_comm (zlen pre) cs). apply (find_from_shift window 0 cs (zlen pre)).
Qed.

Lemma option_min_shift a b k :
  option_min (option_map (fun i => i + k) a) (option_map (fun i => i + k) b)
  = option_map (fun i => i + k) (option_min a b).
Proof. destruct a, b; simpl; try done. f_equal. lia. Qed.

Lemma detect_skip pre window cs :
  4 <= zlen window -> 3 <= cs -> detect (pre ++ window) (zlen pre + cs) = detect window cs.
Proof.
  intros Hw Hcs.
  assert (Hf : forall p, p <> [] -> zlen p <= 4 ->
    find_pattern_crossing_current_chunk (pre ++ window) (zlen pre + cs) p
    = option_map (fun i => i + zlen pre) (find_pattern_crossing_current_chunk window cs p))
    by (intros p Hp Hl; apply find_pattern_skip; [done|lia|lia]).
  unfold detect, find_zmodem_start, detect_xymodem_start, zmodem_patterns. cbn [foldr].
  rewrite !Hf by done.
  change (@None Z) with (option_map (fun i => i + zlen pre) (@None Z)) at 1.
  rewrite !option_min_shift.
  assert (Hs : forall i, sat_sub (i + zlen pre) (zlen pre + cs) = sat_sub i cs) by (unfold sat_sub; intros; lia).
  destruct (option_min _ _); cbn [option_map protocol offset]; [by rewrite Hs|].
  destruct (find_pattern_crossing_current_chunk window cs [WANT_CRC]); cbn [option_map protocol offset];
    [by rewrite Hs|].
  destruct (find_pattern_crossing_current_chunk window cs [NAK]); cbn [option_map protocol offset];
    [by rewrite Hs|done].
Qed.

(** The kept tail is a suffix of the stream, whole when the stream is short. *)
Lemma detector_tail h :
  exists pre, h = pre ++ tail (detector_of h)
    /\ (pre = [] \/ zlen (tail (detector_of h)) = DETECTOR_TAIL_BYTES)
    /\ zlen (tail (detector_of h)) = Z.min DETECTOR_TAIL_BYTES (zlen h).
Proof.
  unfold detector_of. cbn [tail]. set (n := zlen h - _). exists (ztake n h).
  pose proof (zlen_nonneg h). assert (Hn : 0 <= n <= zlen h) by (unfold n, DETECTOR_TAIL_BYTES; lia).
  rewrite ztake_zdrop, zlen_zdrop by lia. split_and!; [done| |unfold n; lia].
  destruct (Z.le_gt_cases (zlen h) DETECTOR_TAIL_BYTES); [left|right; unfold n; lia].
  replace n with 0 by (unfold n; lia). done.
Qed.

Lemma tail_app h chunk :
  let d := detector_of h in
  detector_of (h ++ chunk)
  = mkDetector (zdrop (zlen (tail d ++ chunk) - Z.min DETECTOR_TAIL_BYTES (zlen (tail d ++ chunk)))
                  (tail d ++ chunk)).
Proof.
  intros d. destruct (detector_tail h) as (pre & Hh & Hpre & Hl). fold d in Hh, Hpre, Hl.
  set (t := tail d) in *. rewrite Hh, <-app_assoc. unfold detector_of. f_equal.
  destruct Hpre as [->|Ht]; [done|]. rewrite !zlen_app in *. pose proof (zlen_nonneg chunk).
  pose proof (zlen_nonneg pre).
  rewrite !(Z.min_l DETECTOR_TAIL_BYTES) by lia.
  replace (zlen pre + (zlen t + zlen chunk) - DETECTOR_TAIL_BYTES)
    with (zlen pre + (zlen t + zlen chunk - DETECTOR_TAIL_BYTES)) by lia.
  unfold zdrop, zlen in *. rewrite Z2Nat.inj_add, Nat2Z.id by lia.
  by rewrite <-drop_drop, drop_app_length.
Qed.

(** [pattern] occurs at index [i] of the window. *)
Definition occurs (window : list Z) (i : Z) (pattern : list Z) : Prop :=
  0 <= i /\ ztake (zlen pattern) (zdrop i window) = pattern.

Lemma occurs_cons b window i pattern :
  0 < i -> occurs (b :: window) i pattern <-> occurs window (i - 1) pattern.
Proof.
  intros Hi. unfold occurs, zdrop. replace (Z.to_nat i) with (S (Z.to_nat (i - 1))) by lia. simpl.
  split; intros [? ?]; (split; [lia|done]).
Qed.

Lemma occurs_zero window pattern :
  occurs window 0 pattern <-> starts_with pattern window = true.
Proof.
  unfold occurs, starts_with, ztake, zdrop, zlen. rewrite Nat2Z.id, bool_decide_eq_true. simpl.
  split; [by intros [_ ?]|done].
Qed.

Lemma occurs_length window i pattern :
  pattern <> [] -> occurs window i pattern -> i + zlen pattern <= zlen window.
Proof.
  intros Hne [Hi Ht]. apply (f_equal length) in Ht.
  assert (length pattern <> 0)%nat by (by destruct pattern).
  unfold ztake, zdrop, zlen in *. rewrite length_take, length_drop in Ht. lia.
Qed.

Lemma find_from_spec window index cs pattern i :
  pattern <> [] ->
  find_from window index cs pattern = Some i <->
  occurs window (i - index) pattern /\ cs < i + zlen pattern
  /\ forall j, j < i -> occurs window (j - index) pattern -> j + zlen pattern <= cs.
Proof.
  intros Hne. revert index. induction window as [|b window IH]; intros index; cbn [find_from].
  - pose proof (occurs_length [] (i - index) pattern Hne) as Hl. rewrite zlen_nil in *.
    destruct (Z.leb_spec (zlen pattern) 0).
    + exfalso. apply Hne. destruct pattern; [done|]. rewrite zlen_cons in H. pose proof (zlen_nonneg pattern). lia.
    + split; [done|]. intros (Ho & _ & _). specialize (Hl Ho). destruct Ho. lia.
  - destruct (Z.leb_spec (zlen pattern) (zlen (b :: window))) as [Hle|Hgt].
    2: { split; [done|]. intros (Ho & _ & _). apply occurs_length in Ho as Hl; [|done]. destruct Ho. lia. }
    assert (Hat : forall k, k - index = 0 -> occurs (b :: window) (k - index) pattern
                  <-> starts_with pattern (b :: window) = true)
      by (intros k ->; apply occurs_zero).
    assert (Hneg : forall k, k < index -> ~ occurs (b :: window) (k - index) pattern)
      by (intros k Hk [? _]; lia).
    assert (Hpos : forall k, index < k -> occurs (b :: window) (k - index) pattern
                  <-> occurs window (k - (index + 1)) pattern).
    { intros k Hk. rewrite occurs_cons by lia. by replace (k - index - 1) with (k - (index + 1)) by lia. }
    assert (Hneg' : forall k, k <= index -> ~ occurs window (k - (index + 1)) pattern)
      by (intros k Hk [? _]; lia).
    destruct (starts_with pattern (b :: window) && (cs <? index + zlen pattern)) eqn:Hc.
    + apply andb_true_iff in Hc as [Hst Hcs]. apply Z.ltb_lt in Hcs. split.
      * intros [= <-]. split_and!; [by apply Hat; [lia|]|done|]. intros j Hj Ho. by destruct (Hneg j Hj).
      * intros (Ho & Hcr & Hmin). f_equal. destruct (Z.lt_trichotomy i index) as [Hlt|[->|Hgt]]; [|done|].
        -- by destruct (Hneg i Hlt).
        -- specialize (Hmin index Hgt). rewrite (Hat index) in Hmin by lia. specialize (Hmin Hst). lia.
    + rewrite IH. split.
      * intros (Ho & Hcr & Hmin). destruct (Z.le_gt_cases i index) as [Hle'|Hgt]; [by destruct (Hneg' i Hle')|].
        split_and!; [by apply Hpos|done|]. intros j Hj Hoj.
        destruct (Z.lt_trichotomy j index) as [Hlt|[->|Hgt']]; [by destruct (Hneg j Hlt)| |].
        -- apply Hat in Hoj; [|lia]. rewrite Hoj in Hc. simpl in Hc. lia.
        -- apply Hmin; [done|]. by apply Hpos.
      * intros (Ho & Hcr & Hmin). destruct (Z.lt_trichotomy i index) as [Hlt|[->|Hgt]]; [by destruct (Hneg i Hlt)| |].
        -- apply Hat in Ho; [|lia]. rewrite Ho in Hc. simpl in Hc. lia.
        -- split_and!; [by apply Hpos|done|]. intros j Hj Hoj. apply Hmin; [done|].
           destruct (Z.le_gt_cases j index) as [Hle'|Hgt']; [by destruct (Hneg' j Hle')|]. by apply Hpos.
Qed.

(** ** Properties *)

(** [find_pattern_crossing_current_chunk] returns the first index at which
    the pattern occurs in the window and reaches into the current chunk, and
    nothing when there is none. *)
Lemma find_pattern_first (window : list Z) (current_start : Z) (pattern : list Z) (i : Z) :
  pattern <> [] ->
  find_pattern_crossing_current_chunk window current_start pattern = Some i <->
  occurs window i pattern /\ current_start < i + zlen pattern
  /\ forall j, j < i -> occurs window j pattern -> j + zlen pattern <= current_start.
Proof.
  intros Hne. unfold find_pattern_crossing_current_chunk. rewrite bool_decide_eq_false_2 by done. cbn [orb].
  destruct (Z.ltb_spec (zlen window) (zlen pattern)) as [Hlt|Hge].
  - split; [done|]. intros (Ho & _ & _). apply occurs_length in Ho as Hl; [|done]. destruct Ho. lia.
  - rewrite find_from_spec by done. rewrite Z.sub_0_r.
    split; intros (H1 & H2 & H3); split_and!; try done; intros j Hj Ho; apply H3; try done.
    + by rewrite Z.sub_0_r.
    + by rewrite Z.sub_0_r in Ho.
Qed.

(** Keeping 64 bytes is enough.  However the session's output is cut into
    chunks, after any history the scanner reports for a new chunk exactly what a
    scanner that kept the whole history would report -- a header split over any
    number of chunks is found when its last byte arrives, and no match is
    reported twice -- and it keeps the state for the next chunk. *)
Theorem scan_first_whole_stream (history chunk : list Z) :
  chunk <> [] ->
  scan_first chunk (detector_of history)
  = (detect (history ++ chunk) (zlen history), detector_of (history ++ chunk)).
Proof.
  intros Hne. unfold scan_first. rewrite bool_decide_eq_false_2 by done. rewrite <-tail_app. f_equal.
  destruct (detector_tail history) as (pre & Hh & Hpre & _). set (t := tail (detector_of history)) in *.
  rewrite Hh, <-app_assoc, zlen_app. destruct Hpre as [->|Ht]; [by rewrite zlen_nil|].
  symmetry. unfold DETECTOR_TAIL_BYTES in Ht. apply detect_skip; [|lia].
  rewrite zlen_app. pose proof (zlen_nonneg chunk). lia.
Qed.

Lemma scan_first_whole_stream_witness :
  scan_first [ZDLE; ZHEX; 48] (detector_of (replicate 100 110 ++ [ZPAD; ZPAD]))
  = (Some (mkStart Zmodem 0), detector_of ((replicate 100 110 ++ [ZPAD; ZPAD]) ++ [ZDLE; ZHEX; 48])).
Proof. apply (scan_first_whole_stream (replicate 100 110 ++ [ZPAD; ZPAD]) [ZDLE; ZHEX; 48]). discriminate. Defined.
