(* ===== verification/Consumer.v ===== *)
(** * The modem consumer of a terminal session

    Model of [crates/hapcli-modem-transfer/src/consumer.rs]: the filter between
    the output of a session and the terminal.  It masks terminal control
    strings, detects modem starts, holds back bytes that may become one, and
    hands the session to a transfer.  [ModemTransfer] values are shared
    handles; the model keeps them in a store, and [transfer] and
    [transfer_input] are indices into it. *)
From S2P Require Import Prelude Text ModemIo Xymodem Zmodem ZmodemTransfer ModemStream Detector.
From stdpp Require Import prelude list numbers.
Open Scope Z_scope.

(** ** Definitions *)

Definition PLAIN_HISTORY_LIMIT : Z := 512.
Definition XYMODEM_CANCEL_BYTES : list Z := replicate 8 CAN.
Definition ZMODEM_CANCEL_BYTES : list Z := replicate 8 ZDLE ++ replicate 8 0x08.

Inductive ModemTransferDirection : Type := Upload | Download.

Record ModemTransferRequest := mkRequest {
  req_protocol : DetectedModemProtocol;
  direction : ModemTransferDirection
}.

Inductive ModemConsumerEvent : Type :=
| WriteTerminal (bytes : list Z)
| SendServer (bytes : list Z)
| TransferStarted (request : ModemTransferRequest)
| TransferDataQueued
| TransferCancelRequested.

Record PendingTransfer := mkPending { pend_protocol : DetectedModemProtocol; pend_bytes : list Z }.

Inductive TerminalControlStringKind : Type := Osc | Dcs | Apc.
#[export] Instance TerminalControlStringKind_eq_dec : EqDecision TerminalControlStringKind.
Proof. solve_decision. Defined.

Inductive ModemDetectionScope : Type :=
| Ground
| Escape
| ControlString (kind : TerminalControlStringKind) (escape_pending : bool).

Definition MASKED_BYTE : Z := 32.

Definition control_string (kind : TerminalControlStringKind) : ModemDetectionScope :=
  ControlString kind false.

(** The closure of [mask_control_strings]: one byte. *)
Definition mask_byte (scope : ModemDetectionScope) (byte : Z) : Z * ModemDetectionScope :=
  match scope with
  | Ground =>
      if byte =? 0x1b then (MASKED_BYTE, Escape)
      else if byte =? 0x90 then (MASKED_BYTE, control_string Dcs)
      else if byte =? 0x9d then (MASKED_BYTE, control_string Osc)
      else if byte =? 0x9f then (MASKED_BYTE, control_string Apc)
      else (byte, Ground)
  | Escape =>
      if byte =? 93 then (MASKED_BYTE, control_string Osc)
      else if byte =? 80 then (MASKED_BYTE, control_string Dcs)
      else if byte =? 95 then (MASKED_BYTE, control_string Apc)
      else if byte =? 0x1b then (MASKED_BYTE, Escape)
      else (byte, Ground)
  | ControlString kind escape_pending =>
      let terminated_by_bel := bool_decide (kind = Osc) && (byte =? 0x07) in
      if terminated_by_bel || (byte =? 0x9c) || (escape_pending && (byte =? 92))
      then (MASKED_BYTE, Ground)
      else (MASKED_BYTE, ControlString kind (byte =? 0x1b))
  end.

Fixpoint mask_control_strings (scope : ModemDetectionScope) (bytes : list Z)
    : list Z * ModemDetectionScope :=
  match bytes with
  | [] => ([], scope)
  | byte :: rest =>
      let '(b, scope1) := mask_byte scope byte in
      let '(out, scope2) := mask_control_strings scope1 rest in
      (b :: out, scope2)
  end.

(** ** Protocol recognition *)

Definition last_of {A} (l : list A) : option A :=
  match reverse l with x :: _ => Some x | [] => None end.

(** [.ok().flatten()] of [parse_zmodem_header_prefix]. *)
Definition zmodem_header_of (bytes : list Z) : option ZHeader :=
  match parse_zmodem_header_prefix bytes with Ok o => o | Err _ => None end.

Definition command_is (names : list (list Z)) (command : list Z) : bool :=
  existsb (fun n => bool_decide (n = command)) names.

(** "rx" "lrx"; "rb" "ry" "lrb" "lry"; "sx" "lsx"; "sb" "sy" "lsb" "lsy". *)
Definition RX_NAMES : list (list Z) := [[114; 120]; [108; 114; 120]].
Definition RB_NAMES : list (list Z) := [[114; 98]; [114; 121]; [108; 114; 98]; [108; 114; 121]].
Definition SX_NAMES : list (list Z) := [[115; 120]; [108; 115; 120]].
Definition SB_NAMES : list (list Z) := [[115; 98]; [115; 121]; [108; 115; 98]; [108; 115; 121]].

Definition command_request (command : list Z) : option (DetectedModemProtocol * ModemTransferDirection) :=
  if command_is RX_NAMES command then Some (Xmodem, Upload)
  else if command_is RB_NAMES command then Some (Ymodem, Upload)
  else if command_is SX_NAMES command then Some (Xmodem, Download)
  else if command_is SB_NAMES command then Some (Ymodem, Download)
  else None.

(** "PS", or a token that ends in one of [$ # > %]. *)
Definition is_shell_prompt_token (token : list Z) : bool :=
  bool_decide (token = [80; 83])
  || match last_of token with
     | Some c => (c =? 36) || (c =? 35) || (c =? 62) || (c =? 37)
     | None => false
     end.

Fixpoint command_hint_tokens (tokens : list (list Z))
    : option (DetectedModemProtocol * ModemTransferDirection) :=
  match tokens with
  | [] => None
  | token :: rest =>
      let command := trim_matches (fun c => negb (is_ascii_alphanumeric c) && negb (c =? 45) && negb (c =? 95))
                       (rsplit_next is_slash token) in
      match command_request command with
      | Some r => Some r
      | None => if is_shell_prompt_token token then command_hint_tokens rest else None
      end
  end.

Definition xymodem_command_hint (line : list Z) : option (DetectedModemProtocol * ModemTransferDirection) :=
  command_hint_tokens (split_whitespace line).

(** [find_map] over the last four lines, latest first. *)
Fixpoint find_upload (ls : list (list Z)) : option DetectedModemProtocol :=
  match ls with
  | [] => None
  | line :: rest =>
      match xymodem_command_hint line with
      | Some (protocol, Upload) => Some protocol
      | _ => find_upload rest
      end
  end.

Definition xymodem_negotiation_protocol_hint (plain_history : list Z) : option DetectedModemProtocol :=
  find_upload (take 4 (reverse (lines (from_utf8_lossy plain_history)))).

Definition xymodem_download_request (plain_history : list Z) : option ModemTransferRequest :=
  let ends_with b := match last_of plain_history with Some c => c =? b | None => false end in
  if negb (ends_with 13) && negb (ends_with 10) then None
  else
    match last_of (lines (from_utf8_lossy plain_history)) with
    | None => None
    | Some line =>
        match xymodem_command_hint line with
        | Some (protocol, Download) => Some (mkRequest protocol Download)
        | _ => None
        end
    end.

Definition request_for_protocol (protocol : DetectedModemProtocol) (bytes plain_history : list Z)
    : option ModemTransferRequest :=
  match protocol with
  | Zmodem =>
      match zmodem_header_of bytes with
      | None => None
      | Some header =>
          match frame_type header with
          | ZrInit => Some (mkRequest Zmodem Upload)
          | ZrqInit | ZFile | ZData => Some (mkRequest Zmodem Download)
          | _ => None
          end
      end
  | XymodemNegotiation =>
      match xymodem_negotiation_protocol_hint plain_history with
      | None => None
      | Some p => Some (mkRequest p Upload)
      end
  | Xmodem => Some (mkRequest Xmodem Download)
  | Ymodem => Some (mkRequest Ymodem Download)
  end.

Definition should_wait_for_protocol_confirmation (protocol : DetectedModemProtocol) (bytes : list Z) : bool :=
  bool_decide (protocol = Zmodem)
  && match parse_zmodem_header_prefix bytes with Ok None => true | _ => false end.

Definition zmodem_control_prefix_len (protocol : DetectedModemProtocol) (bytes : list Z) : option Z :=
  if negb (bool_decide (protocol = Zmodem)) then None
  else
    match zmodem_header_of bytes with
    | None => None
    | Some header =>
        match frame_type header with
        | ZrInit | ZrqInit | ZFile | ZData => None
        | _ =>
            let encoded include_xon :=
              encode_hex_header (frame_type header) (header_position header) include_xon in
            if starts_with (encoded false) bytes then Some (zlen (encoded false))
            else if starts_with (encoded true) bytes then Some (zlen (encoded true))
            else None
        end
    end.

Definition MODEM_PREFIXES : list (list Z) :=
  [[ZPAD]; [ZPAD; ZPAD]; [ZPAD; ZPAD; ZDLE]; [ZPAD; ZDLE]; [SOH]; [STX]].

Definition ends_with (suffix l : list Z) : bool :=
  bool_decide (zdrop (zlen l - zlen suffix) l = suffix).

Definition possible_modem_prefix_suffix_len (bytes : list Z) : Z :=
  foldr (fun p n => Z.max (if ends_with p bytes then zlen p else 0) n) 0 MODEM_PREFIXES.

(** ** The consumer *)

Record ModemConsumer := mkConsumer {
  plain_tail : list Z;
  detection_tail : list Z;
  plain_history : list Z;
  detection_scope : ModemDetectionScope;
  pending : option PendingTransfer;
  transfer : option nat;
  transfer_input : option nat;
  transfers : list ModemTransferState
}.

Definition ModemConsumer_new : ModemConsumer := mkConsumer [] [] [] Ground None None None [].

Definition remember_plain_output (bytes : list Z) (c : ModemConsumer) : ModemConsumer :=
  if bool_decide (bytes = []) then c
  else
    let history := plain_history c ++ bytes in
    let history := if PLAIN_HISTORY_LIMIT <? zlen history
                   then zdrop (zlen history - PLAIN_HISTORY_LIMIT) history else history in
    mkConsumer (plain_tail c) (detection_tail c) history (detection_scope c) (pending c)
      (transfer c) (transfer_input c) (transfers c).

Definition start_transfer (initial_bytes : list Z) (request : ModemTransferRequest) (c : ModemConsumer)
    : nat * ModemConsumer :=
  let cancellation := match req_protocol request with
                      | Zmodem => ZMODEM_CANCEL_BYTES
                      | Xmodem | XymodemNegotiation | Ymodem => XYMODEM_CANCEL_BYTES
                      end in
  let handle := length (transfers c) in
  (handle,
   mkConsumer (plain_tail c) (detection_tail c) [] (detection_scope c) (pending c)
     (Some handle) (Some handle)
     (transfers c ++ [new_with_wake_and_cancel initial_bytes cancellation])).

Definition take_active_transfer (c : ModemConsumer) : option nat * ModemConsumer :=
  (transfer c,
   mkConsumer (plain_tail c) (detection_tail c) (plain_history c) (detection_scope c) (pending c)
     None (transfer_input c) (transfers c)).

Definition start_manual_transfer (request : ModemTransferRequest) (c : ModemConsumer)
    : option nat * ModemConsumer :=
  match transfer c with
  | Some _ => (None, c)
  | None => let '(h, c') := start_transfer [] request c in (Some h, c')
  end.

(** A method of the shared transfer behind a handle. *)
Definition on_transfer (h : option nat) (f : ModemTransferState -> ModemTransferState) (c : ModemConsumer)
    : ModemConsumer :=
  match h with
  | None => c
  | Some i =>
      mkConsumer (plain_tail c) (detection_tail c) (plain_history c) (detection_scope c) (pending c)
        (transfer c) (transfer_input c) (alter f i (transfers c))
  end.

Definition finish_transfer (c : ModemConsumer) : list Z * ModemConsumer :=
  let trailing_output :=
    match transfer_input c with
    | Some i => match transfers c !! i with Some s => fst (drain_remote_output s) | None => [] end
    | None => []
    end in
  let c := on_transfer (transfer_input c) (fun s => snd (drain_remote_output s)) c in
  (trailing_output, mkConsumer [] [] [] Ground None None None (transfers c)).

Definition interrupt_transfer (c : ModemConsumer) : ModemConsumer :=
  on_transfer (transfer_input c) (fun s => fst (stop s))
    (on_transfer (transfer c) (fun s => fst (stop s)) c).

Definition set_pending (p : option PendingTransfer) (c : ModemConsumer) : ModemConsumer :=
  mkConsumer (plain_tail c) (detection_tail c) (plain_history c) (detection_scope c) p
    (transfer c) (transfer_input c) (transfers c).

Definition set_tails (plain detection : list Z) (c : ModemConsumer) : ModemConsumer :=
  mkConsumer plain detection (plain_history c) (detection_scope c) (pending c)
    (transfer c) (transfer_input c) (transfers c).

Definition set_scope (scope : ModemDetectionScope) (c : ModemConsumer) : ModemConsumer :=
  mkConsumer (plain_tail c) (detection_tail c) (plain_history c) scope (pending c)
    (transfer c) (transfer_input c) (transfers c).

Definition process_pending_server_output (bytes : list Z) (p : PendingTransfer) (c : ModemConsumer)
    : list ModemConsumerEvent * ModemConsumer :=
  let c := set_pending None c in
  let all := pend_bytes p ++ bytes in
  match request_for_protocol (pend_protocol p) all (plain_history c) with
  | Some request =>
      let '(_, c) := start_transfer all request c in ([TransferStarted request], c)
  | None =>
      if should_wait_for_protocol_confirmation (pend_protocol p) all
      then ([], set_pending (Some (mkPending (pend_protocol p) all)) c)
      else
        match zmodem_control_prefix_len (pend_protocol p) all with
        | Some control_len =>
            let remaining := zdrop control_len all in
            let c := remember_plain_output remaining c in
            (if bool_decide (remaining = []) then [] else [WriteTerminal remaining], c)
        | None => ([WriteTerminal all], remember_plain_output all c)
        end
  end.

(** The arm without a detected start. *)
Definition process_plain (scan_bytes detection_bytes : list Z) (c : ModemConsumer)
    : list ModemConsumerEvent * ModemConsumer :=
  let hold := possible_modem_prefix_suffix_len detection_bytes in
  if hold =? zlen scan_bytes then ([], set_tails scan_bytes detection_bytes c)
  else
    let split := zlen scan_bytes - hold in
    let c := set_tails (zdrop split scan_bytes) (zdrop split detection_bytes) c in
    let c := remember_plain_output (ztake split detection_bytes) c in
    let events := [WriteTerminal (ztake split scan_bytes)] in
    match xymodem_download_request (plain_history c) with
    | Some request =>
        let '(_, c) := start_transfer [] request c in (events ++ [TransferStarted request], c)
    | None => (events, c)
    end.

(** The rest of the method, after a detected start. *)
Definition process_start (start : DetectedModemStart) (scan_bytes detection_bytes : list Z) (c : ModemConsumer)
    : list ModemConsumerEvent * ModemConsumer :=
  let c := if 0 <? offset start then remember_plain_output (ztake (offset start) detection_bytes) c else c in
  let events := if 0 <? offset start then [WriteTerminal (ztake (offset start) scan_bytes)] else [] in
  let protocol_bytes := zdrop (offset start) scan_bytes in
  match request_for_protocol (protocol start) protocol_bytes (plain_history c) with
  | Some request =>
      let '(_, c) := start_transfer protocol_bytes request c in (events ++ [TransferStarted request], c)
  | None =>
      if should_wait_for_protocol_confirmation (protocol start) protocol_bytes
      then (events, set_pending (Some (mkPending (protocol start) protocol_bytes)) c)
      else
        match zmodem_control_prefix_len (protocol start) protocol_bytes with
        | Some control_len =>
            let remaining := zdrop control_len protocol_bytes in
            if bool_decide (remaining = []) then (events, c)
            else (events ++ [WriteTerminal remaining], remember_plain_output remaining c)
        | None => (events ++ [WriteTerminal protocol_bytes], remember_plain_output protocol_bytes c)
        end
  end.

Definition process_server_output (bytes : list Z) (c : ModemConsumer)
    : list ModemConsumerEvent * ModemConsumer :=
  if bool_decide (bytes = []) then ([], c)
  else
    match transfer_input c with
    | Some i =>
        ([TransferDataQueued], on_transfer (Some i) (fun s => fst (push_remote_output bytes s)) c)
    | None =>
        match pending c with
        | Some p => process_pending_server_output bytes p c
        | None =>
            let '(masked_bytes, scope) := mask_control_strings (detection_scope c) bytes in
            let c := set_scope scope c in
            let scan_bytes := plain_tail c ++ bytes in
            let detection_bytes := detection_tail c ++ masked_bytes in
            let c := set_tails [] [] c in
            match fst (scan_first detection_bytes ModemDetector_new) with
            | None => process_plain scan_bytes detection_bytes c
            | Some start => process_start start scan_bytes detection_bytes c
            end
        end
    end.

(** ** Masking *)

Lemma mask_app scope l k :
  mask_control_strings scope (l ++ k)
  = (fst (mask_control_strings scope l) ++ fst (mask_control_strings (snd (mask_control_strings scope l)) k),
     snd (mask_control_strings (snd (mask_control_strings scope l)) k)).
Proof.
  revert scope. induction l as [|b l IH]; intros scope; simpl; [by destruct (mask_control_strings scope k)|].
  destruct (mask_byte scope b) as [m scope1]. rewrite IH.
  by destruct (mask_control_strings scope1 l) as [out scope2].
Qed.

Lemma mask_length scope l : zlen (fst (mask_control_strings scope l)) = zlen l.
Proof.
  revert scope. induction l as [|b l IH]; intros scope; simpl; [done|].
  destruct (mask_byte scope b) as [m scope1]. specialize (IH scope1).
  destruct (mask_control_strings scope1 l) as [out scope2]. simpl in *. rewrite !zlen_cons. lia.
Qed.

(** Bytes that do not end a control string of this kind. *)
Definition inside (kind : TerminalControlStringKind) (b : Z) : Prop :=
  b <> 0x9c /\ b <> 0x1b /\ (kind = Osc -> b <> 0x07).

Lemma mask_inside kind payload :
  Forall (inside kind) payload ->
  mask_control_strings (ControlString kind false) payload
  = (replicate (length payload) MASKED_BYTE, ControlString kind false).
Proof.
  induction 1 as [|b l (H1 & H2 & H3) _ IH]; [done|]. cbn [mask_control_strings mask_byte length replicate].
  replace (bool_decide (kind = Osc) && (b =? 7)) with false.
  2: { symmetry. apply andb_false_iff. case_bool_decide; [right; apply Z.eqb_neq; auto|by left]. }
  rewrite (proj2 (Z.eqb_neq b 0x9c)), (proj2 (Z.eqb_neq b 0x1b)) by done. cbn [orb andb].
  by rewrite IH.
Qed.

(** ESC and the letter that opens a control string. *)
Definition introducer (kind : TerminalControlStringKind) : list Z :=
  [0x1b; match kind with Osc => 93 | Dcs => 80 | Apc => 95 end].
Definition string_terminator : list Z := [0x1b; 92].

Lemma mask_control_string kind payload :
  Forall (inside kind) payload ->
  mask_control_strings Ground (introducer kind ++ payload ++ string_terminator)
  = (replicate (4 + length payload) MASKED_BYTE, Ground).
Proof.
  intros Hp. rewrite mask_app.
  assert (Hi : mask_control_strings Ground (introducer kind) = ([MASKED_BYTE; MASKED_BYTE], ControlString kind false))
    by (by destruct kind).
  rewrite Hi. cbn [fst snd]. rewrite mask_app, mask_inside by done. cbn [fst snd].
  assert (Ht : mask_control_strings (ControlString kind false) string_terminator
               = ([MASKED_BYTE; MASKED_BYTE], Ground)) by (by destruct kind).
  rewrite Ht. cbn [fst snd]. f_equal.
  change [MASKED_BYTE; MASKED_BYTE] with (replicate 2 MASKED_BYTE).
  rewrite <-!replicate_add. f_equal. lia.
Qed.

(** ** Conservation of bytes *)

Definition terminal (events : list ModemConsumerEvent) : list Z :=
  concat (map (fun e => match e with WriteTerminal b => b | _ => [] end) events).

#[local] Arguments terminal !_ /.

(** The bytes the consumer holds back. *)
Definition held (c : ModemConsumer) : list Z :=
  match pending c with Some p => pend_bytes p | None => [] end ++ plain_tail c.

(** The bytes a step gives to the transfer it starts. *)
Definition captured (c c' : ModemConsumer) : list Z :=
  concat (map remote_output (drop (length (transfers c)) (transfers c'))).

(** A ZMODEM header that belongs to a finished session. *)
Definition stale_control (l : list Z) : Prop :=
  exists t p xon, l = encode_hex_header t p xon
    /\ t <> ZrInit /\ t <> ZrqInit /\ t <> ZFile /\ t <> ZData.

Definition consumer_ok (c : ModemConsumer) : Prop :=
  zlen (plain_tail c) = zlen (detection_tail c)
  /\ zlen (plain_tail c) <= 3
  /\ zlen (plain_history c) <= PLAIN_HISTORY_LIMIT
  /\ (forall p, pending c = Some p -> pend_protocol p = Zmodem /\ plain_tail c = [])
  /\ (forall i, transfer c = Some i -> transfer_input c = Some i)
  /\ (forall i, transfer_input c = Some i -> (i < length (transfers c))%nat).

Lemma terminal_app l k : terminal (l ++ k) = terminal l ++ terminal k.
Proof. unfold terminal. by rewrite map_app, concat_app. Qed.

Lemma remember_fields bytes c :
  let c' := remember_plain_output bytes c in
  plain_tail c' = plain_tail c /\ detection_tail c' = detection_tail c /\ pending c' = pending c
  /\ transfer c' = transfer c /\ transfer_input c' = transfer_input c /\ transfers c' = transfers c.
Proof. unfold remember_plain_output. by case_bool_decide. Qed.

Lemma remember_bound bytes c :
  zlen (plain_history c) <= PLAIN_HISTORY_LIMIT ->
  zlen (plain_history (remember_plain_output bytes c)) <= PLAIN_HISTORY_LIMIT.
Proof.
  intros H. unfold remember_plain_output. case_bool_decide; [done|]. cbn [plain_history].
  destruct (Z.ltb_spec PLAIN_HISTORY_LIMIT (zlen (plain_history c ++ bytes))); [|lia].
  rewrite zlen_zdrop; unfold PLAIN_HISTORY_LIMIT in *; lia.
Qed.

Lemma held_remember bytes c : held (remember_plain_output bytes c) = held c.
Proof. unfold held. by destruct (remember_fields bytes c) as (-> & _ & -> & _). Qed.

Lemma transfers_remember bytes c : transfers (remember_plain_output bytes c) = transfers c.
Proof. by destruct (remember_fields bytes c) as (_ & _ & _ & _ & _ & ->). Qed.

Lemma captured_none c c' : transfers c' = transfers c -> captured c c' = [].
Proof. intros H. unfold captured. by rewrite H, drop_all. Qed.

Lemma captured_start initial request c c0 :
  transfers c = transfers c0 -> captured c0 (snd (start_transfer initial request c)) = initial.
Proof.
  intros H. unfold captured, start_transfer. cbn [snd transfers]. rewrite H, drop_app_length. simpl.
  apply app_nil_r.
Qed.

Lemma held_start initial request c : held (snd (start_transfer initial request c)) = held c.
Proof. done. Qed.

Lemma starts_with_split pre l : starts_with pre l = true -> l = pre ++ zdrop (zlen pre) l.
Proof.
  unfold starts_with, zdrop, zlen. rewrite bool_decide_eq_true. intros H. rewrite Nat2Z.id.
  rewrite <-H at 1. by rewrite take_drop.
Qed.

Lemma control_prefix_split protocol l n :
  zmodem_control_prefix_len protocol l = Some n ->
  exists control, stale_control control /\ l = control ++ zdrop n l.
Proof.
  unfold zmodem_control_prefix_len. destruct (negb _); [done|].
  destruct (zmodem_header_of l) as [[t p enc]|]; [|done]. cbn [frame_type header_position].
  assert (Hgo : t <> ZrInit -> t <> ZrqInit -> t <> ZFile -> t <> ZData ->
    (if starts_with (encode_hex_header t p false) l then Some (zlen (encode_hex_header t p false))
     else if starts_with (encode_hex_header t p true) l then Some (zlen (encode_hex_header t p true))
     else None) = Some n -> exists control, stale_control control /\ l = control ++ zdrop n l).
  { intros H1 H2 H3 H4 H.
    destruct (starts_with (encode_hex_header t p false) l) eqn:Hf;
      [|destruct (starts_with (encode_hex_header t p true) l) eqn:Ht; [|done]]; injection H as <-.
    - exists (encode_hex_header t p false). split; [by eexists _, _, _|by apply starts_with_split].
    - exists (encode_hex_header t p true). split; [by eexists _, _, _|by apply starts_with_split]. }
  destruct t; try done; intros H; by apply Hgo.
Qed.

(** Everything that came in is shown, kept back, captured by the transfer, or
    is a stale control header. *)
Definition conserves (c : ModemConsumer) (input : list Z) (out : list ModemConsumerEvent * ModemConsumer) : Prop :=
  exists front control back,
    input = front ++ control ++ back
    /\ terminal (fst out) ++ captured c (snd out) ++ held (snd out) = front ++ back
    /\ (control = [] \/ stale_control control).

Lemma conserves_plain c input out :
  terminal (fst out) ++ captured c (snd out) ++ held (snd out) = input -> conserves c input out.
Proof. intros H. exists input, [], []. rewrite !app_nil_r. auto. Qed.

Lemma pending_conserves c p bytes :
  plain_tail c = [] -> conserves c (pend_bytes p ++ bytes) (process_pending_server_output bytes p c).
Proof.
  intros Ht. unfold process_pending_server_output. set (c1 := set_pending None c).
  assert (Hh : held c1 = []) by (unfold held; simpl; by rewrite Ht).
  set (all := pend_bytes p ++ bytes).
  destruct (request_for_protocol _ all _) as [request|].
  - apply conserves_plain. pose proof (captured_start all request c1 c eq_refl) as Hc.
    pose proof (held_start all request c1) as Hs. destruct (start_transfer all request c1) as [h c2].
    cbn [fst snd] in *. rewrite Hc, Hs, Hh. simpl. apply app_nil_r.
  - destruct (should_wait_for_protocol_confirmation _ all).
    + apply conserves_plain. cbn [fst snd]. rewrite captured_none by done. unfold held. simpl.
      by rewrite Ht, app_nil_r.
    + destruct (zmodem_control_prefix_len _ all) as [n|] eqn:Hn.
      * apply control_prefix_split in Hn as (control & Hst & Hall). exists [], control, (zdrop n all).
        split_and!; [done| |by right]. cbn [fst snd app].
        rewrite captured_none by (by rewrite transfers_remember). rewrite held_remember, Hh. simpl.
        case_bool_decide as Hr; simpl; rewrite ?app_nil_r; [by rewrite Hr|done].
      * apply conserves_plain. cbn [fst snd]. rewrite captured_none by (by rewrite transfers_remember).
        rewrite held_remember, Hh. simpl. by rewrite !app_nil_r.
Qed.

Lemma plain_conserves c scan_bytes detection_bytes :
  pending c = None -> conserves c scan_bytes (process_plain scan_bytes detection_bytes c).
Proof.
  intros Hp. unfold process_plain. destruct (_ =? _).
  - apply conserves_plain. cbn [fst snd]. rewrite captured_none by done. unfold held. simpl. by rewrite Hp.
  - set (split := _ - _). set (c1 := set_tails _ _ c). set (c2 := remember_plain_output _ c1).
    assert (Hh : held c2 = zdrop split scan_bytes).
    { unfold c2. rewrite held_remember. unfold held. simpl. by rewrite Hp. }
    assert (Ht : transfers c2 = transfers c) by (unfold c2; by rewrite transfers_remember).
    apply conserves_plain. destruct (xymodem_download_request _) as [request|].
    + pose proof (captured_start [] request c2 c Ht) as Hc. pose proof (held_start [] request c2) as Hs.
      destruct (start_transfer [] request c2) as [h c3]. cbn [fst snd] in *. rewrite Hc, Hs, Hh. simpl.
      by rewrite app_nil_r, ztake_zdrop.
    + cbn [fst snd]. rewrite captured_none, Hh by done. simpl. by rewrite app_nil_r, ztake_zdrop.
Qed.

Lemma start_conserves start c scan_bytes detection_bytes :
  pending c = None -> plain_tail c = [] ->
  conserves c scan_bytes (process_start start scan_bytes detection_bytes c).
Proof.
  intros Hp Htail. unfold process_start. set (k := offset start).
  set (c1 := if 0 <? k then _ else c). set (events := if 0 <? k then _ else []).
  assert (Hh : held c1 = []).
  { unfold c1, held. destruct (0 <? k); [|by rewrite Hp, Htail].
    destruct (remember_fields (ztake k detection_bytes) c) as (-> & _ & -> & _). by rewrite Hp, Htail. }
  assert (Ht : transfers c1 = transfers c) by (unfold c1; destruct (0 <? k); [apply transfers_remember|done]).
  assert (Hev : terminal events ++ zdrop k scan_bytes = scan_bytes).
  { unfold events. destruct (Z.ltb_spec 0 k); simpl; [by rewrite app_nil_r, ztake_zdrop|].
    unfold zdrop. by replace (Z.to_nat k) with 0%nat by lia. }
  set (rest := zdrop k scan_bytes) in *.
  destruct (request_for_protocol _ rest _) as [request|].
  - apply conserves_plain. pose proof (captured_start rest request c1 c Ht) as Hc.
    pose proof (held_start rest request c1) as Hs. destruct (start_transfer rest request c1) as [h c2].
    cbn [fst snd] in *. rewrite Hc, Hs, Hh, terminal_app. simpl. by rewrite !app_nil_r.
  - destruct (should_wait_for_protocol_confirmation _ rest).
    + apply conserves_plain. cbn [fst snd]. rewrite captured_none by done. unfold held. simpl.
      assert (plain_tail c1 = []) as ->.
      { unfold held in Hh. by apply app_eq_nil in Hh as [_ ?]. }
      by rewrite app_nil_r.
    + destruct (zmodem_control_prefix_len _ rest) as [n|] eqn:Hn.
      * apply control_prefix_split in Hn as (control & Hst & Hall).
        exists (terminal events), control, (zdrop n rest). rewrite <-Hall, Hev. split_and!; [done| |by right].
        case_bool_decide as Hr; cbn [fst snd].
        -- rewrite captured_none, Hh by done. simpl. by rewrite Hr.
        -- rewrite captured_none by (by rewrite transfers_remember). rewrite held_remember, Hh, terminal_app. simpl.
           by rewrite !app_nil_r.
      * apply conserves_plain. cbn [fst snd]. rewrite captured_none by (by rewrite transfers_remember).
        rewrite held_remember, Hh, terminal_app. simpl. by rewrite !app_nil_r.
Qed.

(** ** The invariant *)

Lemma hold_range bytes : 0 <= possible_modem_prefix_suffix_len bytes <= 3.
Proof.
  unfold possible_modem_prefix_suffix_len, MODEM_PREFIXES. cbn [foldr].
  repeat match goal with |- context [if ?b then zlen ?l else 0] =>
    let n := eval vm_compute in (zlen l) in change (zlen l) with n; destruct b end; lia.
Qed.

Lemma ok_remember bytes c : consumer_ok c -> consumer_ok (remember_plain_output bytes c).
Proof.
  intros (H1 & H2 & H3 & H4 & H5 & H6). unfold consumer_ok.
  destruct (remember_fields bytes c) as (-> & -> & -> & -> & -> & ->).
  split_and!; try done. by apply remember_bound.
Qed.

Lemma ok_start initial request c :
  consumer_ok c -> consumer_ok (snd (start_transfer initial request c)).
Proof.
  intros (H1 & H2 & H3 & H4 & H5 & H6). split_and!; try done.
  intros i [= <-]. simpl. rewrite length_app. simpl. lia.
Qed.

Lemma ok_set_pending p c :
  consumer_ok c -> (forall q, p = Some q -> pend_protocol q = Zmodem /\ plain_tail c = []) ->
  consumer_ok (set_pending p c).
Proof. intros (H1 & H2 & H3 & H4 & H5 & H6) Hp. by split_and!. Qed.

Lemma ok_set_tails plain detection c :
  consumer_ok c -> pending c = None -> zlen plain = zlen detection -> zlen plain <= 3 ->
  consumer_ok (set_tails plain detection c).
Proof. intros (H1 & H2 & H3 & H4 & H5 & H6) Hp Hl Hb. split_and!; try done. simpl. by rewrite Hp. Qed.

Lemma ok_on_transfer h f c : consumer_ok c -> consumer_ok (on_transfer h f c).
Proof.
  intros (H1 & H2 & H3 & H4 & H5 & H6). destruct h as [i|]; [|by split_and!].
  split_and!; try done. intros j Hj. simpl. rewrite length_alter. by apply H6.
Qed.

Lemma should_wait_zmodem protocol l :
  should_wait_for_protocol_confirmation protocol l = true -> protocol = Zmodem.
Proof. unfold should_wait_for_protocol_confirmation. case_bool_decide; done. Qed.

Lemma ok_pending c p bytes :
  consumer_ok c -> pending c = Some p -> consumer_ok (snd (process_pending_server_output bytes p c)).
Proof.
  intros Hok Hp. unfold process_pending_server_output.
  assert (Hok1 : consumer_ok (set_pending None c)) by (by apply ok_set_pending).
  pose proof Hok as (_ & _ & _ & H4 & _). destruct (H4 p Hp) as [Hz Ht].
  destruct (request_for_protocol _ _ _) as [request|].
  - pose proof (ok_start (pend_bytes p ++ bytes) request _ Hok1) as H.
    by destruct (start_transfer _ _ _).
  - destruct (should_wait_for_protocol_confirmation _ _).
    + apply ok_set_pending; [done|]. by intros q [= <-].
    + destruct (zmodem_control_prefix_len _ _); by apply ok_remember.
Qed.

Lemma ok_plain c scan_bytes detection_bytes :
  consumer_ok c -> pending c = None -> zlen scan_bytes = zlen detection_bytes ->
  consumer_ok (snd (process_plain scan_bytes detection_bytes c)).
Proof.
  intros Hok Hp Hl. unfold process_plain. pose proof (hold_range detection_bytes) as Hh.
  set (hold := possible_modem_prefix_suffix_len _) in *.
  destruct (Z.eqb_spec hold (zlen scan_bytes)); [apply ok_set_tails; [done|done|done|lia]|].
  assert (Hok1 : consumer_ok (remember_plain_output (ztake (zlen scan_bytes - hold) detection_bytes)
    (set_tails (zdrop (zlen scan_bytes - hold) scan_bytes) (zdrop (zlen scan_bytes - hold) detection_bytes) c))).
  { apply ok_remember, ok_set_tails; [done|done| |]; unfold zdrop, zlen in *; rewrite !length_drop; lia. }
  destruct (xymodem_download_request _) as [request|]; [|done].
  pose proof (ok_start [] request _ Hok1) as H. by destruct (start_transfer _ _ _).
Qed.

Lemma ok_process_start start c scan_bytes detection_bytes :
  consumer_ok c -> pending c = None -> plain_tail c = [] ->
  consumer_ok (snd (process_start start scan_bytes detection_bytes c)).
Proof.
  intros Hok Hp Ht. unfold process_start. set (c1 := if 0 <? offset start then _ else c).
  assert (Hok1 : consumer_ok c1) by (unfold c1; destruct (0 <? _); [by apply ok_remember|done]).
  assert (Ht1 : plain_tail c1 = []).
  { unfold c1. destruct (0 <? _); [|done].
    by destruct (remember_fields (ztake (offset start) detection_bytes) c) as (-> & _). }
  set (rest := zdrop _ scan_bytes). destruct (request_for_protocol _ _ _) as [request|].
  - pose proof (ok_start rest request _ Hok1) as H. by destruct (start_transfer _ _ _).
  - destruct (should_wait_for_protocol_confirmation _ _) eqn:Hw.
    + apply ok_set_pending; [done|]. intros q [= <-]. split; [by eapply should_wait_zmodem|done].
    + destruct (zmodem_control_prefix_len _ _); [case_bool_decide; [done|]|]; by apply ok_remember.
Qed.

(** The detection window and the terminal bytes always have the same length. *)
Lemma process_windows bytes c :
  consumer_ok c -> pending c = None ->
  let '(masked, scope) := mask_control_strings (detection_scope c) bytes in
  zlen (plain_tail c ++ bytes) = zlen (detection_tail c ++ masked)
  /\ consumer_ok (set_tails [] [] (set_scope scope c)).
Proof.
  intros Hok Hp. pose proof (mask_length (detection_scope c) bytes) as Hm.
  destruct (mask_control_strings _ bytes) as [masked scope]. cbn [fst] in Hm.
  destruct Hok as (H1 & H2 & H3 & H4 & H5 & H6). split; [rewrite !zlen_app; lia|].
  apply ok_set_tails; [by split_and!|done|done|by vm_compute].
Qed.

Lemma process_ok bytes c : consumer_ok c -> consumer_ok (snd (process_server_output bytes c)).
Proof.
  intros Hok. unfold process_server_output. case_bool_decide; [done|].
  destruct (transfer_input c) as [i|] eqn:Hi; [by apply ok_on_transfer|].
  destruct (pending c) as [p|] eqn:Hp; [by apply ok_pending|].
  pose proof (process_windows bytes c Hok Hp) as Hw.
  destruct (mask_control_strings _ bytes) as [masked scope]. destruct Hw as [Hl Hok1].
  destruct (fst (scan_first _ _)); [by apply ok_process_start|by apply ok_plain].
Qed.

Lemma process_conserves bytes c :
  consumer_ok c -> transfer_input c = None -> bytes <> [] ->
  conserves c (held c ++ bytes) (process_server_output bytes c).
Proof.
  intros Hok Hi Hne. unfold process_server_output. rewrite bool_decide_eq_false_2 by done. rewrite Hi.
  unfold held. destruct (pending c) as [p|] eqn:Hp.
  - destruct Hok as (_ & _ & _ & H4 & _). destruct (H4 p Hp) as [_ Ht]. rewrite Ht, app_nil_r.
    by apply pending_conserves.
  - destruct (mask_control_strings _ bytes) as [masked scope]. cbn [app].
    set (c1 := set_tails [] [] (set_scope scope c)).
    assert (Hc1 : forall l out, conserves c1 l out -> conserves c l out).
    { intros l out (f & k & b & H1 & H2 & H3). by exists f, k, b. }
    destruct (fst (scan_first _ _)); apply Hc1; [by apply start_conserves|by apply plain_conserves].
Qed.

(** *** Many chunks *)

(** Where no transfer is under way afterwards, none was started. *)
Lemma process_no_start bytes c :
  transfer_input c = None -> transfer_input (snd (process_server_output bytes c)) = None ->
  transfers (snd (process_server_output bytes c)) = transfers c.
Proof.
  intros Hi. unfold process_server_output. case_bool_decide; [done|]. rewrite Hi. destruct (pending c) as [p|].
  - unfold process_pending_server_output. destruct (request_for_protocol _ _ _); [done|]. intros _.
    repeat case_match; cbn [snd transfers set_pending set_tails set_scope]; by rewrite ?transfers_remember.
  - destruct (mask_control_strings _ bytes) as [masked scope]. destruct (fst (scan_first _ _)) as [start|].
    + unfold process_start. destruct (request_for_protocol _ _ _); [done|]. intros _.
      repeat case_match; cbn [snd transfers set_pending set_tails set_scope]; by rewrite ?transfers_remember.
    + unfold process_plain. case_match; [done|]. destruct (xymodem_download_request _); [done|]. intros _.
      cbn [snd]. by rewrite transfers_remember.
Qed.

(** The second text is the first without some stale control headers. *)
Inductive without_stale : list Z -> list Z -> Prop :=
| stale_none l : without_stale l l
| stale_drop front control back l : stale_control control -> without_stale (front ++ back) l -> without_stale (front ++ control ++ back) l.
Lemma without_stale_app pre post l l' : without_stale l l' -> without_stale (pre ++ l ++ post) (pre ++ l' ++ post).
Proof.
  induction 1 as [l|front control back l Hc _ IH]; [constructor|].
  replace (pre ++ (front ++ control ++ back) ++ post) with ((pre ++ front) ++ control ++ (back ++ post)) by (by rewrite <-!app_assoc).
  apply stale_drop; [done|]. by rewrite <-!app_assoc in *.
Qed.
Lemma without_stale_trans l l' l'' : without_stale l l' -> without_stale l' l'' -> without_stale l l''.
Proof. induction 1 as [l|front control back l Hc _ IH]; [done|]. intros H. apply stale_drop; [done|]. by apply IH. Qed.
Lemma conserves_without c input out : conserves c input out ->
  without_stale input (terminal (fst out) ++ captured c (snd out) ++ held (snd out)).
Proof.
  intros (front & control & back & -> & -> & [->|Hc]); [constructor|]. apply stale_drop; [done|constructor].
Qed.

Fixpoint process_chunks (chunks : list (list Z)) (c : ModemConsumer) : list ModemConsumerEvent * ModemConsumer :=
  match chunks with
  | [] => ([], c)
  | bytes :: rest =>
      let '(events, c1) := process_server_output bytes c in
      let '(later, c2) := process_chunks rest c1 in (events ++ later, c2)
  end.
(** No transfer is under way when a chunk arrives; the last may start one. *)
Fixpoint unowned (chunks : list (list Z)) (c : ModemConsumer) : Prop :=
  match chunks with
  | [] => True
  | bytes :: rest => transfer_input c = None /\ unowned rest (snd (process_server_output bytes c))
  end.

Lemma chunks_conserve chunks : forall c, consumer_ok c -> unowned chunks c ->
  without_stale (held c ++ concat chunks)
    (terminal (fst (process_chunks chunks c)) ++ captured c (snd (process_chunks chunks c)) ++ held (snd (process_chunks chunks c))).
Proof.
  induction chunks as [|bytes rest IH]; intros c Hok Hun; cbn [concat process_chunks unowned] in *.
  { rewrite app_nil_r. cbn. rewrite captured_none by done. constructor. }
  destruct Hun as [Hi Hun].
  assert (H1 : without_stale (held c ++ bytes) (terminal (fst (process_server_output bytes c))
     ++ captured c (snd (process_server_output bytes c)) ++ held (snd (process_server_output bytes c)))).
  { destruct (decide (bytes = [])) as [->|Hne]; [cbn; rewrite app_nil_r, captured_none by done; constructor|].
    by apply conserves_without, process_conserves. }
  pose proof (process_ok bytes c Hok) as Hok1. pose proof (process_no_start bytes c Hi) as Hstart.
  destruct (process_server_output bytes c) as [events c1]. cbn [fst snd] in *.
  specialize (IH c1 Hok1 Hun). destruct rest as [|b rest].
  { cbn in *. rewrite !app_nil_r. done. }
  cbn [unowned] in Hun. destruct Hun as [Hi1 _]. specialize (Hstart Hi1).
  destruct (process_chunks (b :: rest) c1) as [later c2]. cbn [fst snd] in *. rewrite captured_none in H1 by done.
  rewrite terminal_app. replace (captured c c2) with (captured c1 c2) by (unfold captured; by rewrite Hstart).
  eapply without_stale_trans.
  - rewrite app_assoc. apply (without_stale_app [] (concat (b :: rest)) _ _ H1).
  - cbn [app]. rewrite <-!app_assoc. pose proof (without_stale_app (terminal events) [] _ _ IH) as H2. by rewrite !app_nil_r in H2.
Qed.

(** ** A ZMODEM header in plain output *)

(** Plain output: no control introducers, no ZPAD. *)
Definition plain_byte (b : Z) : Prop :=
  b <> 0x1b /\ b <> 0x90 /\ b <> 0x9d /\ b <> 0x9f /\ b <> ZPAD.

Lemma mask_ground l :
  Forall (fun b => b <> 0x1b /\ b <> 0x90 /\ b <> 0x9d /\ b <> 0x9f) l ->
  mask_control_strings Ground l = (l, Ground).
Proof.
  induction 1 as [|b l (H1 & H2 & H3 & H4) _ IH]; [done|]. cbn [mask_control_strings mask_byte].
  rewrite (proj2 (Z.eqb_neq b _) H1), (proj2 (Z.eqb_neq b _) H2), (proj2 (Z.eqb_neq b _) H3),
    (proj2 (Z.eqb_neq b _) H4). by rewrite IH.
Qed.

(** Which side of the transfer a header asks for. *)
Definition header_direction (t : ZFrameType) : option ModemTransferDirection :=
  match t with
  | ZrInit => Some Upload
  | ZrqInit | ZFile | ZData => Some Download
  | _ => None
  end.

Lemma occurs_not_before window pre rest i p :
  window = pre ++ rest -> Forall (fun b => b <> ZPAD) pre ->
  occurs window i (ZPAD :: p) -> zlen pre <= i.
Proof.
  intros -> Hpre [Hi Ho]. destruct (Z.le_gt_cases (zlen pre) i) as [|Hlt]; [done|]. exfalso.
  rewrite Forall_forall in Hpre. destruct (lookup_lt_is_Some_2 pre (Z.to_nat i)) as [b Hb]; [unfold zlen in *; lia|].
  apply (Hpre b); [apply list_elem_of_In, list_elem_of_lookup; eauto|].
  unfold zdrop in Ho. rewrite (drop_S (pre ++ rest) b) in Ho by (by apply lookup_app_l_Some).
  unfold ztake in Ho. pose proof (zlen_nonneg p). rewrite zlen_cons in Ho.
  replace (Z.to_nat (1 + zlen p)) with (S (Z.to_nat (zlen p))) in Ho by lia. by injection Ho.
Qed.

Lemma occurs_app pre p rest : occurs (pre ++ p ++ rest) (zlen pre) p.
Proof. split; [apply zlen_nonneg|]. by rewrite zdrop_app, ztake_app. Qed.

Lemma detect_header pre rest :
  Forall (fun b => b <> ZPAD) pre ->
  fst (scan_first (pre ++ [ZPAD; ZPAD; ZDLE; ZHEX] ++ rest) ModemDetector_new) = Some (mkStart Zmodem (zlen pre)).
Proof.
  intros Hpre. set (window := pre ++ _). unfold scan_first. rewrite bool_decide_eq_false_2 by (by destruct pre).
  change (Detector.tail ModemDetector_new) with (@nil Z). cbn [fst app]. change (zlen []) with 0.
  assert (Hex : find_pattern_crossing_current_chunk window 0 [ZPAD; ZPAD; ZDLE; ZHEX] = Some (zlen pre)).
  { unfold window. apply find_pattern_first; [done|]. split_and!.
    - apply occurs_app.
    - pose proof (zlen_nonneg pre). change (zlen [_; _; _; _]) with 4. lia.
    - intros j Hj Ho. eapply occurs_not_before in Ho; [|reflexivity|done]. lia. }
  assert (Hmin : forall p x, find_pattern_crossing_current_chunk window 0 (ZPAD :: p) = Some x -> zlen pre <= x).
  { intros p x Hf. apply find_pattern_first in Hf as (Ho & _); [|done].
    eapply occurs_not_before in Ho; [done|reflexivity|done]. }
  unfold detect, find_zmodem_start, zmodem_patterns. cbn [foldr]. rewrite Hex.
  pose proof (Hmin [ZDLE; ZBIN]) as M1. pose proof (Hmin [ZDLE; ZBIN32]) as M2. pose proof (zlen_nonneg pre).
  destruct (find_pattern_crossing_current_chunk window 0 [ZPAD; ZDLE; ZBIN]) as [x|];
    destruct (find_pattern_crossing_current_chunk window 0 [ZPAD; ZDLE; ZBIN32]) as [y|];
    cbn [option_min option_map protocol offset]; unfold sat_sub; do 2 f_equal;
    try specialize (M1 _ eq_refl); try specialize (M2 _ eq_refl); lia.
Qed.

Lemma header_prefix t p xon rest :
  pos_ok p -> parse_zmodem_header_prefix (encode_hex_header t p xon ++ rest) = Ok (Some (mkZHeader t p Hex)).
Proof.
  intros Hp. unfold parse_zmodem_header_prefix, with_input.
  rewrite (header_hex_run _ [] t p xon rest []); [done|constructor|simpl; lia|done].
Qed.

Lemma header_starts c pre t p xon rest dir :
  consumer_ok c -> transfer_input c = None -> pending c = None -> plain_tail c = [] ->
  detection_scope c = Ground -> Forall plain_byte pre -> pos_ok p -> header_direction t = Some dir ->
  let header := encode_hex_header t p xon ++ rest in
  let out := process_server_output (pre ++ header) c in
  fst out = (if bool_decide (pre = []) then [] else [WriteTerminal pre])
            ++ [TransferStarted (mkRequest Zmodem dir)]
  /\ transfer_input (snd out) = Some (length (transfers c))
  /\ transfers (snd out) = transfers c ++ [new_with_wake_and_cancel header ZMODEM_CANCEL_BYTES].
Proof.
  intros Hok Hi Hp Ht Hs Hpre Hpos Hdir header out.
  assert (Hdt : detection_tail c = []).
  { destruct Hok as (H1 & _). rewrite Ht in H1. destruct (detection_tail c); [done|].
    rewrite zlen_cons, zlen_nil in H1. pose proof (zlen_nonneg l). lia. }
  assert (Hshape : exists tl, header = [ZPAD; ZPAD; ZDLE; ZHEX] ++ tl).
  { unfold header. rewrite encode_hex_shape, <-app_assoc. eauto. }
  destruct Hshape as (tl & Hheader).
  assert (Hmask : exists m scope, mask_control_strings Ground (pre ++ header)
                  = (pre ++ [ZPAD; ZPAD; ZDLE; ZHEX] ++ m, scope)).
  { rewrite Hheader, app_assoc, mask_app, mask_ground.
    - cbn [fst snd]. rewrite <-app_assoc. eauto.
    - apply Forall_app. split; [eapply Forall_impl; [|exact Hpre]; by intros b (? & ? & ? & ? & ?)|].
      repeat constructor; done. }
  destruct Hmask as (m & scope & Hmask).
  assert (Hreq : forall h, request_for_protocol Zmodem header h = Some (mkRequest Zmodem dir)).
  { intros h. unfold request_for_protocol, zmodem_header_of, header. rewrite header_prefix by done.
    cbn [frame_type]. by destruct t; simpl in Hdir; simplify_eq. }
  unfold out, process_server_output. rewrite bool_decide_eq_false_2 by (rewrite Hheader; by destruct pre).
  rewrite Hi, Hp, Hs, Hmask. unfold set_scope, set_tails. cbn [plain_tail detection_tail].
  rewrite Ht, Hdt. cbn [app]. fold ([ZPAD; ZPAD; ZDLE; ZHEX] ++ m).
  change (pre ++ ZPAD :: ZPAD :: ZDLE :: ZHEX :: m) with (pre ++ [ZPAD; ZPAD; ZDLE; ZHEX] ++ m).
  rewrite detect_header by (eapply Forall_impl; [|exact Hpre]; by intros b (? & ? & ? & ? & ?)).
  unfold process_start. cbn [offset protocol]. rewrite zdrop_app by done. rewrite Hreq.
  rewrite !ztake_app by done. cbn [fst snd start_transfer transfer_input transfers req_protocol].
  split_and!; try (by destruct (0 <? zlen pre); rewrite ?transfers_remember).
  case_bool_decide as Hnil; [by subst pre|].
  destruct (Z.ltb_spec 0 (zlen pre)); [done|]. destruct pre; [done|].
  rewrite zlen_cons in *. pose proof (zlen_nonneg pre). lia.
Qed.

(** ** Control strings never start a transfer *)

Lemma spaces_find n p :
  p <> [] -> Forall (fun b => b <> MASKED_BYTE) p ->
  find_pattern_crossing_current_chunk (replicate n MASKED_BYTE) 0 p = None.
Proof.
  intros Hne Hp. destruct (find_pattern_crossing_current_chunk _ 0 p) as [i|] eqn:Hf; [|done]. exfalso.
  apply find_pattern_first in Hf as ((Hi & Ho) & _); [|done]. destruct p as [|x p]; [done|].
  inversion_clear Hp as [|? ? Hx _]. apply Hx.
  unfold ztake, zdrop in Ho. rewrite drop_replicate, take_replicate in Ho.
  destruct (Z.to_nat (zlen (x :: p)) `min` (n - Z.to_nat i))%nat; [done|]. by injection Ho as <- _.
Qed.

Lemma spaces_silent n :
  (0 < n)%nat ->
  fst (scan_first (replicate n MASKED_BYTE) ModemDetector_new) = None
  /\ possible_modem_prefix_suffix_len (replicate n MASKED_BYTE) = 0.
Proof.
  intros Hn. split.
  - unfold scan_first. rewrite bool_decide_eq_false_2 by (by destruct n; [lia|]).
    change (Detector.tail ModemDetector_new) with (@nil Z). cbn [fst app]. change (zlen []) with 0.
    unfold detect, find_zmodem_start, detect_xymodem_start, zmodem_patterns. cbn [foldr].
    rewrite !spaces_find by (done || (repeat constructor; done)). done.
  - unfold possible_modem_prefix_suffix_len.
    assert (He : forall p, p <> [] -> Forall (fun b => b <> MASKED_BYTE) p ->
                 ends_with p (replicate n MASKED_BYTE) = false).
    { intros p Hne Hp. apply bool_decide_eq_false. intros Heq. unfold zdrop in Heq.
      rewrite drop_replicate in Heq. destruct p as [|x p]; [done|]. inversion_clear Hp as [|? ? Hx _].
      destruct (n - _)%nat; [done|]. by injection Heq as <- _. }
    unfold MODEM_PREFIXES. cbn [foldr]. rewrite !He by (done || (repeat constructor; done)). done.
Qed.

Lemma last_of_app {A} (l k : list A) : k <> [] -> last_of (l ++ k) = last_of k.
Proof.
  intros Hk. unfold last_of. rewrite reverse_app. destruct (reverse k) eqn:Hr; [|done].
  apply (f_equal reverse) in Hr. by rewrite reverse_involutive in Hr.
Qed.

Lemma download_request_space l : last_of l = Some MASKED_BYTE -> xymodem_download_request l = None.
Proof. intros H. unfold xymodem_download_request. by rewrite H. Qed.

Lemma remember_last n c :
  (0 < n)%nat ->
  last_of (plain_history (remember_plain_output (replicate n MASKED_BYTE) c)) = Some MASKED_BYTE.
Proof.
  intros Hn. assert (Hl : last_of (replicate n MASKED_BYTE) = Some MASKED_BYTE).
  { destruct n as [|n]; [lia|]. unfold last_of. by rewrite reverse_replicate. }
  unfold remember_plain_output. rewrite bool_decide_eq_false_2 by (by destruct n; [lia|]). cbn [plain_history].
  assert (Hl2 : last_of (plain_history c ++ replicate n MASKED_BYTE) = Some MASKED_BYTE)
    by (rewrite last_of_app; [done|by destruct n; [lia|]]).
  destruct (Z.ltb_spec PLAIN_HISTORY_LIMIT (zlen (plain_history c ++ replicate n MASKED_BYTE))); [|done].
  set (l := plain_history c ++ replicate n MASKED_BYTE) in *. set (k := zlen l - PLAIN_HISTORY_LIMIT).
  rewrite <-(ztake_zdrop k l), last_of_app in Hl2; [done|].
  intros Hz. apply (f_equal zlen) in Hz. rewrite zlen_zdrop, zlen_nil in Hz;
    unfold k, PLAIN_HISTORY_LIMIT in *; lia.
Qed.

(** ** Runs of the consumer *)

(** One call of a public method. *)
Inductive consumer_step : ModemConsumer -> ModemConsumer -> Prop :=
| consume c bytes : consumer_step c (snd (process_server_output bytes c))
| manual c request : consumer_step c (snd (start_manual_transfer request c))
| take_active c : consumer_step c (snd (take_active_transfer c))
| interrupt c : consumer_step c (interrupt_transfer c)
| finish c : consumer_step c (snd (finish_transfer c))
| on_shared c h f : consumer_step c (on_transfer h f c).

Lemma step_ok c c' : consumer_ok c -> consumer_step c c' -> consumer_ok c'.
Proof.
  intros Hok Hstep. destruct Hstep as [c bytes|c request|c|c|c|c h f].
  - by apply process_ok.
  - unfold start_manual_transfer. destruct (transfer c); [done|].
    pose proof (ok_start [] request c Hok) as H. by destruct (start_transfer [] request c).
  - destruct Hok as (H1 & H2 & H3 & H4 & H5 & H6). by split_and!.
  - by apply ok_on_transfer, ok_on_transfer.
  - split_and!; try done; by vm_compute.
  - by apply ok_on_transfer.
Qed.

Lemma new_ok : consumer_ok ModemConsumer_new.
Proof. split_and!; try done; by vm_compute. Qed.

(** ** Properties *)

(** C36: the consumer neither loses nor reorders output as long as no transfer
    owns the session.  However the output is cut into chunks, what was held back
    at the start and the chunks are together, in order, what the calls write to
    the terminal, what the last of them hands to a transfer it starts, and what is
    held back at the end; only complete ZMODEM control headers left over from an
    earlier session are taken out, on purpose.  Once a transfer has started, what
    is held back at that moment does not come out any more: it is not among the
    transfer's input, and [finish_transfer] discards it. *)
Theorem consumer_conserves_output (c : ModemConsumer) (chunks : list (list Z)) :
  rtc consumer_step ModemConsumer_new c -> unowned chunks c ->
  let out := process_chunks chunks c in
  without_stale (held c ++ concat chunks) (terminal (fst out) ++ captured c (snd out) ++ held (snd out))
  /\ held (snd (finish_transfer (snd out))) = [].
Proof.
  intros Hr. assert (Hok : consumer_ok c).
  { pose proof new_ok as Hn. induction Hr as [|x y z Hxy _ IH]; [done|]. apply IH. by eapply step_ok. }
  intros Hun. split; [by apply chunks_conserve|done].
Qed.

Lemma consumer_conserves_output_witness :
  let out := process_chunks [[108; 42]; [42; 115]; [42]] ModemConsumer_new in
  without_stale [108; 42; 42; 115; 42] (terminal (fst out) ++ captured ModemConsumer_new (snd out) ++ held (snd out))
  /\ terminal (fst out) = [108; 42; 42; 115] /\ held (snd out) = [42].
Proof.
  split; [|split; vm_compute; reflexivity].
  destruct (consumer_conserves_output ModemConsumer_new [[108; 42]; [42; 115]; [42]]) as [H _]; [constructor| |exact H].
  repeat split; vm_compute; reflexivity.
Defined.

(** The consumer's invariant holds in every state its methods can reach:
    the terminal tail and the masked tail have the same length, at most three
    bytes; the remembered history is at most 512 bytes; a pending start is a
    ZMODEM one; and the transfer handle, when present, is the one that receives
    input, and refers to an existing transfer. *)
Theorem consumer_invariant (c : ModemConsumer) :
  rtc consumer_step ModemConsumer_new c -> consumer_ok c.
Proof.
  intros Hr. pose proof new_ok as Hn. induction Hr as [|x y z Hxy _ IH]; [done|]. apply IH. by eapply step_ok.
Qed.

Lemma consumer_invariant_witness :
  consumer_ok (snd (process_server_output [42; 42] ModemConsumer_new)).
Proof. apply consumer_invariant. apply rtc_once. apply consume. Defined.

(** A ZMODEM header starts a transfer.  In plain output (no control
    introducer and no asterisk before it), a hexadecimal ZRQINIT, ZFILE, ZDATA
    or ZRINIT header makes the consumer write what precedes it to the terminal
    and start a download (an upload for ZRINIT) whose input begins with the
    header itself. *)
Theorem zmodem_header_starts_transfer (c : ModemConsumer) (pre rest : list Z) (t : ZFrameType) (p : Pos4)
    (xon : bool) (dir : ModemTransferDirection) :
  consumer_ok c -> transfer_input c = None -> pending c = None -> plain_tail c = [] ->
  detection_scope c = Ground -> Forall plain_byte pre -> pos_ok p -> header_direction t = Some dir ->
  let header := encode_hex_header t p xon ++ rest in
  let out := process_server_output (pre ++ header) c in
  fst out = (if bool_decide (pre = []) then [] else [WriteTerminal pre])
            ++ [TransferStarted (mkRequest Zmodem dir)]
  /\ transfer_input (snd out) = Some (length (transfers c))
  /\ transfers (snd out) = transfers c ++ [new_with_wake_and_cancel header ZMODEM_CANCEL_BYTES].
Proof. apply header_starts. Qed.

Lemma zmodem_header_starts_transfer_witness :
  let out := process_server_output ([114; 122; 13] ++ encode_hex_header ZrqInit (0, 0, 0, 0) true ++ [])
               ModemConsumer_new in
  fst out = [WriteTerminal [114; 122; 13]] ++ [TransferStarted (mkRequest Zmodem Download)].
Proof.
  destruct (zmodem_header_starts_transfer ModemConsumer_new [114; 122; 13] [] ZrqInit (0, 0, 0, 0) true Download)
    as (H & _); [apply new_ok|reflexivity|reflexivity|reflexivity|reflexivity| | |reflexivity|exact H].
  - by repeat apply List.Forall_cons.
  - by repeat apply List.Forall_cons.
Defined.

(** What a program sends inside a terminal control string cannot start a
    transfer.  From the ground state, a complete OSC, DCS or APC string with
    any payload -- image data with modem markers in it, say -- is written to the
    terminal unchanged and nothing else happens. *)
Theorem control_string_never_starts_transfer (c : ModemConsumer) (kind : TerminalControlStringKind)
    (payload : list Z) :
  transfer_input c = None -> pending c = None -> plain_tail c = [] -> detection_tail c = [] ->
  detection_scope c = Ground -> Forall (inside kind) payload ->
  let bytes := introducer kind ++ payload ++ string_terminator in
  let out := process_server_output bytes c in
  fst out = [WriteTerminal bytes] /\ transfers (snd out) = transfers c /\ held (snd out) = []
  /\ detection_scope (snd out) = Ground.
Proof.
  intros Hi Hp Ht Hd Hs Hin bytes out. set (n := (4 + length payload)%nat).
  destruct (spaces_silent n) as [Hscan Hhold]; [lia|].
  assert (Hlen : zlen bytes = Z.of_nat n).
  { unfold bytes, zlen, n. rewrite !length_app. destruct kind; simpl; lia. }
  assert (Hdrop : zdrop (Z.of_nat n) bytes = []) by (apply zdrop_nil; lia).
  assert (Htake : ztake (Z.of_nat n) bytes = bytes) by (unfold ztake, zlen in *; apply take_ge; lia).
  unfold out, process_server_output. rewrite bool_decide_eq_false_2 by (by destruct kind).
  pose proof (mask_control_string kind payload Hin) as Hmask. fold bytes in Hmask.
  rewrite Hi, Hp, Hs, Hmask. fold n.
  unfold set_scope, set_tails. cbn [plain_tail detection_tail]. rewrite Ht, Hd. cbn [app].
  rewrite Hscan. unfold process_plain. rewrite Hhold, Hlen, Z.sub_0_r.
  rewrite (proj2 (Z.eqb_neq 0 (Z.of_nat n))) by lia. rewrite Hdrop, Htake.
  assert (Hsp : ztake (Z.of_nat n) (replicate n MASKED_BYTE) = replicate n MASKED_BYTE).
  { unfold ztake. rewrite Nat2Z.id, take_replicate, Nat.min_id. done. }
  rewrite Hsp. rewrite download_request_space by (apply remember_last; lia).
  cbn [fst snd]. rewrite transfers_remember, held_remember. split_and!; [done|done| |].
  - unfold held. simpl. by rewrite Hp.
  - unfold remember_plain_output. by case_bool_decide.
Qed.

Lemma control_string_never_starts_transfer_witness :
  fst (process_server_output (introducer Dcs ++ [42; 42; 24; 66; 67; 21] ++ string_terminator) ModemConsumer_new)
  = [WriteTerminal (introducer Dcs ++ [42; 42; 24; 66; 67; 21] ++ string_terminator)].
Proof.
  apply (control_string_never_starts_transfer ModemConsumer_new Dcs [42; 42; 24; 66; 67; 21]);
    try reflexivity. repeat constructor; discriminate.
Defined.

(** ** Two gaps *)

(** The calls of a session, one chunk each: all events, and the last state. *)
Definition run_chunks (chunks : list (list Z)) : list ModemConsumerEvent * ModemConsumer :=
  fold_left (fun acc chunk => let '(evs, c) := process_server_output chunk (snd acc) in (fst acc ++ evs, c))
    chunks ([], ModemConsumer_new).

Definition zrqinit_header : list Z := encode_hex_header ZrqInit (0, 0, 0, 0) true.

(** A ZMODEM header split after its two asterisks is recognised when the first
    chunk is ["a**"], and missed when it is ["C**"]: the letter is taken for an
    X/YMODEM negotiation byte and the chunk is flushed with nothing held back. *)
Example split_header_missed_after_C :
  fst (run_chunks [[97; 42; 42]; zdrop 2 zrqinit_header])
    = [WriteTerminal [97]; TransferStarted (mkRequest Zmodem Download)]
  /\ fst (run_chunks [[67; 42; 42]; zdrop 2 zrqinit_header])
    = [WriteTerminal [67; 42; 42]; WriteTerminal (zdrop 2 zrqinit_header)].
Proof. by vm_compute. Qed.

(** A byte held back as a possible modem prefix is lost when the same chunk
    completes a download command: ["sx a\r\n*"] starts the transfer with no
    input, and finishing it returns nothing of the asterisk. *)
Example held_byte_lost_on_download :
  let out := run_chunks [[115; 120; 32; 97; 13; 10; 42]] in
  terminal (fst out) = [115; 120; 32; 97; 13; 10] /\ plain_tail (snd out) = [42]
  /\ finish_transfer (snd out)
     = ([], mkConsumer [] [] [] Ground None None None
              [new_with_wake_and_cancel [] XYMODEM_CANCEL_BYTES]).
Proof. by vm_compute. Qed.
