(* ===== verification/PieceTable.v ===== *)
(** * The editor's types and its piece table

    Model of [types.rs], [error.rs], [edit.rs], [selection.rs] and
    [piece_table.rs] of [crates/hapcli-editor-core/src].  A [String] is the list
    of its UTF-8 bytes and an offset counts bytes, as in the source. *)
From S2P Require Import Prelude Text.
From stdpp Require Import prelude list numbers.
Open Scope Z_scope.

(** ** Types *)

Abbreviation BufferOffset := Z.

Record LineCol := mkLineCol { lc_line : Z; lc_column : Z }.

Record TextRange := mkRange { r_start : BufferOffset; r_end : BufferOffset }.

Definition TextRange_new (a b : BufferOffset) : TextRange :=
  if a <=? b then mkRange a b else mkRange b a.
Definition TextRange_caret (offset : BufferOffset) : TextRange := mkRange offset offset.
Definition TextRange_len (r : TextRange) : Z := r_end r - r_start r.
Definition TextRange_is_empty (r : TextRange) : bool := r_start r =? r_end r.

Inductive EditorError : Type :=
| OffsetOutOfBounds (offset len : Z)
| InvalidUtf8Boundary (offset : Z)
| InvalidRange (start end_ : Z)
| InvalidLine (line line_count : Z)
| InvalidColumn (line column line_len : Z)
| OverlappingEdits (offset : Z)
| EditDeltaOverflow.

Record TextEdit := mkEdit { e_range : TextRange; e_replacement : list Z }.
Definition TextEdit_new (r : TextRange) (replacement : list Z) : TextEdit := mkEdit r replacement.
Definition TextEdit_insert (offset : BufferOffset) (text : list Z) : TextEdit :=
  mkEdit (TextRange_caret offset) text.

Definition EditTransaction : Type := list TextEdit.
Definition EditTransaction_single (edit : TextEdit) : EditTransaction := [edit].
Definition EditTransaction_is_empty (t : EditTransaction) : bool := bool_decide (length t = 0%nat).

Record Selection := mkSelection { sel_anchor : BufferOffset; sel_head : BufferOffset }.
Definition Selection_caret (offset : BufferOffset) : Selection := mkSelection offset offset.
Definition Selection_is_caret (s : Selection) : bool := sel_anchor s =? sel_head s.
Definition Selection_range (s : Selection) : TextRange := TextRange_new (sel_anchor s) (sel_head s).

#[export] Instance TextRange_eq_dec : EqDecision TextRange.
Proof. solve_decision. Defined.
#[export] Instance TextEdit_eq_dec : EqDecision TextEdit.
Proof. solve_decision. Defined.
#[export] Instance Selection_eq_dec : EqDecision Selection.
Proof. solve_decision. Defined.

(** [str::is_char_boundary]. *)
Definition str_is_char_boundary (text : list Z) (offset : Z) : bool :=
  if offset =? 0 then true
  else if zlen text <=? offset then offset =? zlen text
  else match text !! Z.to_nat offset with
       | Some b => negb (is_cont b)
       | None => false
       end.

(** [&text[a..b]]. *)
Definition slice (a b : Z) (text : list Z) : list Z := ztake (b - a) (zdrop a text).

(** ** Pieces *)

Inductive PieceSource : Type := Original | Add.
#[export] Instance PieceSource_eq_dec : EqDecision PieceSource.
Proof. solve_decision. Defined.

Record Piece := mkPiece { p_source : PieceSource; p_start : Z; p_len : Z }.

Definition Piece_new (source : PieceSource) (start len : Z) : option Piece :=
  if 0 <? len then Some (mkPiece source start len) else None.

Definition Piece_slice (p : Piece) (offset len : Z) : option Piece :=
  Piece_new (p_source p) (p_start p + offset) len.

Definition Piece_end (p : Piece) : Z := p_start p + p_len p.

Record PieceTableTextBuffer := mkTable {
  original : list Z;
  add : list Z;
  pieces : list Piece;
  pt_len : Z
}.

Definition PieceTable_new (text : list Z) : PieceTableTextBuffer :=
  mkTable text []
    (match Piece_new Original 0 (zlen text) with Some p => [p] | None => [] end) (zlen text).

Definition PieceTable_is_empty (t : PieceTableTextBuffer) : bool := pt_len t =? 0.

Definition source_text (t : PieceTableTextBuffer) (source : PieceSource) : list Z :=
  match source with Original => original t | Add => add t end.

(** The bytes a piece stands for. *)
Definition piece_text (t : PieceTableTextBuffer) (p : Piece) : list Z :=
  slice (p_start p) (Piece_end p) (source_text t (p_source p)).

Definition to_text (t : PieceTableTextBuffer) : list Z := concat (map (piece_text t) (pieces t)).

(** The loop of [slice_to_string] over the pieces that are left, at
    [position]. *)
Fixpoint slice_pieces (t : PieceTableTextBuffer) (ps : list Piece) (position a b : Z) : list Z :=
  match ps with
  | [] => []
  | piece :: rest =>
      let piece_start := position in
      let piece_end := position + p_len piece in
      if piece_end <=? a then slice_pieces t rest piece_end a b
      else if b <=? piece_start then []
      else
        let local_start := Z.max a piece_start - piece_start in
        let local_end := Z.min b piece_end - piece_start in
        slice (p_start piece + local_start) (p_start piece + local_end) (source_text t (p_source piece))
        ++ slice_pieces t rest piece_end a b
  end.

Definition slice_to_string (t : PieceTableTextBuffer) (a b : Z) : list Z :=
  if b <=? a then [] else slice_pieces t (pieces t) 0 a b.

Fixpoint boundary_pieces (t : PieceTableTextBuffer) (ps : list Piece) (position offset : Z) : bool :=
  match ps with
  | [] => false
  | piece :: rest =>
      let piece_start := position in
      let piece_end := position + p_len piece in
      if offset <? piece_start then false
      else if (offset =? piece_start) || (offset =? piece_end) then true
      else if offset <? piece_end then
        str_is_char_boundary (source_text t (p_source piece)) (p_start piece + (offset - piece_start))
      else boundary_pieces t rest piece_end offset
  end.

Definition is_char_boundary (t : PieceTableTextBuffer) (offset : Z) : bool :=
  if pt_len t <? offset then false
  else if offset =? pt_len t then true
  else boundary_pieces t (pieces t) 0 offset.

(** [push_piece], on the pieces so far in reverse order. *)
Definition push_piece (rnext : list Piece) (piece : Piece) : list Piece :=
  match rnext with
  | previous :: rest =>
      if bool_decide (p_source previous = p_source piece) && (Piece_end previous =? p_start piece)
      then mkPiece (p_source previous) (p_start previous) (p_len previous + p_len piece) :: rest
      else piece :: rnext
  | [] => [piece]
  end.

Definition push_some (rnext : list Piece) (o : option Piece) : list Piece :=
  match o with Some piece => push_piece rnext piece | None => rnext end.

(** The loop of [replace]: [rnext] is [next] reversed. *)
Fixpoint replace_pieces (ps : list Piece) (position a b : Z) (replacement_piece : option Piece)
    (rnext : list Piece) (inserted : bool) : list Piece * bool :=
  match ps with
  | [] => (rnext, inserted)
  | piece :: rest =>
      let piece_start := position in
      let piece_end := position + p_len piece in
      if piece_end <=? a then
        replace_pieces rest piece_end a b replacement_piece (push_piece rnext piece) inserted
      else if b <=? piece_start then
        let rnext := if inserted then rnext else push_some rnext replacement_piece in
        replace_pieces rest piece_end a b replacement_piece (push_piece rnext piece) true
      else
        let rnext :=
          if inserted then rnext
          else
            let rnext := if piece_start <? a
                         then push_some rnext (Piece_slice piece 0 (a - piece_start)) else rnext in
            push_some rnext replacement_piece in
        let rnext := if b <? piece_end
                     then push_some rnext (Piece_slice piece (b - piece_start) (piece_end - b)) else rnext in
        replace_pieces rest piece_end a b replacement_piece rnext true
  end.

(** [append_add_piece]: the new add buffer and the piece. *)
Definition append_add_piece (t : PieceTableTextBuffer) (text : list Z) : list Z * option Piece :=
  (add t ++ text, Piece_new Add (zlen (add t)) (zlen text)).

Definition replace (t : PieceTableTextBuffer) (a b : Z) (replacement : list Z) : PieceTableTextBuffer :=
  let '(add', replacement_piece) := append_add_piece t replacement in
  let '(rnext, inserted) := replace_pieces (pieces t) 0 a b replacement_piece [] false in
  let rnext := if inserted then rnext else push_some rnext replacement_piece in
  mkTable (original t) add' (reverse rnext) (pt_len t - (b - a) + zlen replacement).

(** ** Slices *)

Lemma slice_len a b (l : list Z) : 0 <= a -> a <= b -> b <= zlen l -> zlen (slice a b l) = b - a.
Proof. intros. unfold slice, ztake, zdrop, zlen in *. rewrite length_take, length_drop. lia. Qed.

Lemma slice_empty a (l : list Z) : slice a a l = [].
Proof. unfold slice. by rewrite Z.sub_diag. Qed.

Lemma slice_app_split a b c (l : list Z) :
  0 <= a -> a <= b -> b <= c -> slice a b l ++ slice b c l = slice a c l.
Proof.
  intros H1 H2 H3. unfold slice, ztake, zdrop.
  replace (Z.to_nat b) with (Z.to_nat a + Z.to_nat (b - a))%nat by lia. rewrite <-drop_drop.
  replace (Z.to_nat (c - a)) with (Z.to_nat (b - a) + Z.to_nat (c - b))%nat by lia.
  rewrite <-(take_drop (Z.to_nat (b - a)) (drop (Z.to_nat a) l)) at 3.
  set (k := drop (Z.to_nat a) l). rewrite take_app, take_take.
  f_equal; [f_equal; lia|]. rewrite length_take.
  destruct (Nat.le_gt_cases (Z.to_nat (b - a)) (length k)).
  - f_equal. lia.
  - rewrite (drop_ge k) by lia. by rewrite !take_nil.
Qed.

(** A slice of a slice. *)
Lemma slice_slice a b c d (l : list Z) :
  0 <= a -> 0 <= c -> c <= d -> a + d <= b -> slice c d (slice a b l) = slice (a + c) (a + d) l.
Proof.
  intros. unfold slice, ztake, zdrop. rewrite skipn_firstn_comm, take_take, drop_drop.
  f_equal; [lia|]. f_equal. lia.
Qed.

Lemma slice_grow a b (l k : list Z) : 0 <= a -> b <= zlen l -> slice a b (l ++ k) = slice a b l.
Proof.
  intros Ha Hb. unfold slice, ztake, zdrop, zlen in *.
  destruct (Nat.le_gt_cases (Z.to_nat a) (length l)).
  - rewrite drop_app_le by lia. destruct (Z.le_gt_cases b a).
    + by replace (Z.to_nat (b - a)) with 0%nat by lia.
    + rewrite take_app_le; [done|]. rewrite length_drop. lia.
  - by replace (Z.to_nat (b - a)) with 0%nat by lia.
Qed.

Lemma slice_whole (l : list Z) : slice 0 (zlen l) l = l.
Proof. unfold slice, ztake, zdrop, zlen. rewrite Z.sub_0_r, Nat2Z.id. simpl. by apply take_ge. Qed.

Lemma slice_right (l k : list Z) : slice (zlen l) (zlen l + zlen k) (l ++ k) = k.
Proof.
  unfold slice, ztake, zdrop, zlen. rewrite Nat2Z.id, drop_app_length.
  apply take_ge. lia.
Qed.

Lemma ztake_slice n (l : list Z) : ztake n l = slice 0 n l.
Proof. unfold slice. by rewrite Z.sub_0_r. Qed.

Lemma zdrop_slice n (l : list Z) : 0 <= n -> zdrop n l = slice n (zlen l) l.
Proof.
  intros Hn. unfold slice, ztake, zdrop, zlen. rewrite take_ge; [done|]. rewrite length_drop. lia.
Qed.

(** Splitting a prefix or a suffix of a concatenation. *)
Lemma ztake_app_cases n (l k : list Z) :
  ztake n (l ++ k) = if n <=? zlen l then ztake n l else l ++ ztake (n - zlen l) k.
Proof.
  unfold ztake, zlen. rewrite take_app. destruct (Z.leb_spec n (Z.of_nat (length l))).
  - replace (Z.to_nat n - length l)%nat with 0%nat by lia. by rewrite app_nil_r.
  - rewrite take_ge by lia. do 2 f_equal. lia.
Qed.

Lemma zdrop_app_cases n (l k : list Z) :
  zdrop n (l ++ k) = if n <=? zlen l then zdrop n l ++ k else zdrop (n - zlen l) k.
Proof.
  unfold zdrop, zlen. rewrite drop_app. destruct (Z.leb_spec n (Z.of_nat (length l))).
  - by replace (Z.to_nat n - length l)%nat with 0%nat by lia.
  - rewrite drop_ge by lia. cbn [app]. f_equal. lia.
Qed.

Lemma ztake_app_le n (l k : list Z) : n <= zlen l -> ztake n (l ++ k) = ztake n l.
Proof. intros H. by rewrite ztake_app_cases, (proj2 (Z.leb_le _ _)). Qed.

Lemma ztake_app_ge n (l k : list Z) : zlen l <= n -> ztake n (l ++ k) = l ++ ztake (n - zlen l) k.
Proof.
  intros H. rewrite ztake_app_cases. destruct (Z.leb_spec n (zlen l)); [|done].
  replace n with (zlen l) by lia. rewrite Z.sub_diag. unfold ztake, zlen. rewrite Nat2Z.id, take_ge by lia.
  by rewrite app_nil_r.
Qed.

Lemma zdrop_app_le n (l k : list Z) : n <= zlen l -> zdrop n (l ++ k) = zdrop n l ++ k.
Proof. intros H. by rewrite zdrop_app_cases, (proj2 (Z.leb_le _ _)). Qed.

Lemma zdrop_app_ge n (l k : list Z) : zlen l <= n -> zdrop n (l ++ k) = zdrop (n - zlen l) k.
Proof.
  intros H. rewrite zdrop_app_cases. destruct (Z.leb_spec n (zlen l)); [|done].
  replace n with (zlen l) by lia. rewrite Z.sub_diag. unfold zdrop, zlen. rewrite Nat2Z.id, drop_ge by lia.
  done.
Qed.

Lemma zdrop_neg n (l : list Z) : n <= 0 -> zdrop n l = l.
Proof. intros. unfold zdrop. by replace (Z.to_nat n) with 0%nat by lia. Qed.

Lemma ztake_neg n (l : list Z) : n <= 0 -> ztake n l = [].
Proof. intros. unfold ztake. by replace (Z.to_nat n) with 0%nat by lia. Qed.

(** ** The table's invariant *)

(** No character is cut at offset [k] of [l]. *)
Definition clean_at (l : list Z) (k : Z) : Prop :=
  0 <= k -> match l !! Z.to_nat k with Some b => is_cont b = false | None => True end.

(** A piece within its source, that starts and ends on a character. *)
Definition piece_ok (t : PieceTableTextBuffer) (p : Piece) : Prop :=
  0 <= p_start p /\ 0 < p_len p /\ Piece_end p <= zlen (source_text t (p_source p))
  /\ match source_text t (p_source p) !! Z.to_nat (p_start p) with
     | Some b => is_cont b = false
     | None => False
     end
  /\ clean_at (source_text t (p_source p)) (Piece_end p).

Definition table_ok (t : PieceTableTextBuffer) : Prop :=
  Forall (piece_ok t) (pieces t) /\ pt_len t = zlen (to_text t).

(** A valid string starts on a character. *)
Definition starts_clean (l : list Z) : Prop :=
  match l with b :: _ => is_cont b = false | [] => True end.

Definition text_of (t : PieceTableTextBuffer) (ps : list Piece) : list Z := concat (map (piece_text t) ps).

Lemma piece_text_len t p : piece_ok t p -> zlen (piece_text t p) = p_len p.
Proof. intros (H1 & H2 & H3 & _). unfold piece_text, Piece_end in *. rewrite slice_len by lia. lia. Qed.

Lemma text_of_app t l k : text_of t (l ++ k) = text_of t l ++ text_of t k.
Proof. unfold text_of. by rewrite map_app, concat_app. Qed.

Lemma text_of_cons t p ps : text_of t (p :: ps) = piece_text t p ++ text_of t ps.
Proof. reflexivity. Qed.

(** Two tables whose sources agree on the pieces of the first. *)
Definition grows (t t' : PieceTableTextBuffer) : Prop :=
  original t' = original t /\ exists k, starts_clean k /\ add t' = add t ++ k.

Lemma source_grows t t' s :
  grows t t' -> exists k, starts_clean k /\ source_text t' s = source_text t s ++ k.
Proof. intros [H1 [k [H2 H3]]]. destruct s; simpl; [exists []; by rewrite app_nil_r|by exists k]. Qed.

Lemma clean_at_grow l k i : i <= zlen l -> starts_clean k -> clean_at l i -> clean_at (l ++ k) i.
Proof.
  intros Hi Hk Hc H0. specialize (Hc H0). destruct (Z.eq_dec i (zlen l)) as [->|].
  - unfold zlen. rewrite Nat2Z.id, lookup_app_r, Nat.sub_diag by lia. by destruct k.
  - destruct (lookup_lt_is_Some_2 l (Z.to_nat i)) as [b Hb]; [unfold zlen in *; lia|].
    by rewrite (lookup_app_l_Some _ _ _ _ Hb), Hb in *.
Qed.

Lemma piece_grows t t' p :
  grows t t' -> piece_ok t p -> piece_ok t' p /\ piece_text t' p = piece_text t p.
Proof.
  intros Hg (H1 & H2 & H3 & H4 & H5). destruct (source_grows t t' (p_source p) Hg) as (k & Hkc & Hk).
  unfold piece_ok, piece_text. rewrite Hk. split.
  - split_and!; [done|done|rewrite zlen_app; pose proof (zlen_nonneg k); lia| |by apply clean_at_grow].
    destruct (source_text t (p_source p) !! Z.to_nat (p_start p)) eqn:Hl; [|done].
    by rewrite (lookup_app_l_Some _ _ _ _ Hl).
  - unfold Piece_end in *. apply slice_grow; lia.
Qed.

Section Replace.
Context (t : PieceTableTextBuffer).

Lemma push_piece_ok rnext p :
  Forall (piece_ok t) rnext -> piece_ok t p -> Forall (piece_ok t) (push_piece rnext p).
Proof.
  intros Hr Hp. destruct rnext as [|q rnext]; simpl; [by constructor|]. inversion_clear Hr as [|? ? Hq Hr'].
  destruct (_ && _) eqn:Hc; [|by constructor; [|constructor]]. constructor; [|done].
  apply andb_true_iff in Hc as [Hs He]. apply bool_decide_eq_true in Hs. apply Z.eqb_eq in He.
  destruct Hq as (Q1 & Q2 & Q3 & Q4 & Q5), Hp as (P1 & P2 & P3 & P4 & P5). unfold piece_ok, Piece_end in *. simpl.
  rewrite <-Hs in P3, P5. split_and!; [done|lia|lia|done|].
  by replace (p_start q + (p_len q + p_len p)) with (p_start p + p_len p) by lia.
Qed.

Lemma push_piece_text rnext p :
  Forall (piece_ok t) rnext -> piece_ok t p ->
  text_of t (reverse (push_piece rnext p)) = text_of t (reverse rnext) ++ piece_text t p.
Proof.
  intros Hr Hp. destruct rnext as [|q rnext]; simpl.
  { unfold text_of. simpl. by rewrite app_nil_r. }
  inversion_clear Hr as [|? ? Hq Hr']. destruct (_ && _) eqn:Hc.
  - apply andb_true_iff in Hc as [Hs He]. apply bool_decide_eq_true in Hs. apply Z.eqb_eq in He.
    destruct Hq as (Q1 & Q2 & Q3 & _), Hp as (P1 & P2 & P3 & _).
    rewrite !reverse_cons, !text_of_app, <-app_assoc. f_equal. unfold text_of, piece_text. simpl.
    rewrite !app_nil_r, <-Hs, <-He. unfold Piece_end in *. simpl.
    rewrite slice_app_split by lia. f_equal. lia.
  - rewrite reverse_cons, text_of_app. unfold text_of. simpl. by rewrite app_nil_r.
Qed.

(** The text and validity of an optional piece. *)
Definition some_text (o : option Piece) : list Z := match o with Some p => piece_text t p | None => [] end.
Definition some_ok (o : option Piece) : Prop := match o with Some p => piece_ok t p | None => True end.

Lemma push_some_ok rnext o : Forall (piece_ok t) rnext -> some_ok o -> Forall (piece_ok t) (push_some rnext o).
Proof. destruct o; simpl; [apply push_piece_ok|done]. Qed.

Lemma push_some_text rnext o :
  Forall (piece_ok t) rnext -> some_ok o ->
  text_of t (reverse (push_some rnext o)) = text_of t (reverse rnext) ++ some_text o.
Proof. destruct o; simpl; [apply push_piece_text|by rewrite app_nil_r]. Qed.

(** A part of a piece that starts on a character. *)
Lemma piece_slice_ok p off len :
  piece_ok t p -> 0 <= off -> off + len <= p_len p ->
  (0 < len -> match piece_text t p !! Z.to_nat off with Some b => is_cont b = false | None => False end) ->
  (0 < len -> off + len < p_len p ->
   match piece_text t p !! Z.to_nat (off + len) with Some b => is_cont b = false | None => False end) ->
  some_ok (Piece_slice p off len) /\ some_text (Piece_slice p off len) = slice off (off + len) (piece_text t p).
Proof.
  intros (H1 & H2 & H3 & _ & H5) Ho Hl Hc He. unfold Piece_slice, Piece_new. destruct (Z.ltb_spec 0 len).
  - specialize (Hc H). specialize (He H). unfold Piece_end in *.
    unfold some_ok, some_text, piece_ok, piece_text, Piece_end in *.
    simpl. split; [split_and!; [lia|lia|lia| |]|].
    2: { destruct (Z.eq_dec (off + len) (p_len p)) as [Heq|Hne]; [by rewrite <-Z.add_assoc, Heq|].
         intros _. specialize (He ltac:(lia)). unfold slice, ztake, zdrop in He.
         rewrite lookup_take, lookup_drop in He. destruct (decide _); [|done].
         replace (Z.to_nat (p_start p + off + len)) with (Z.to_nat (p_start p) + Z.to_nat (off + len))%nat by lia.
         by destruct (source_text t (p_source p) !! (Z.to_nat (p_start p) + Z.to_nat (off + len))%nat). }
    + unfold slice, ztake, zdrop in Hc. rewrite lookup_take, lookup_drop in Hc.
      destruct (decide _); [|done]. by replace (Z.to_nat (p_start p + off)) with (Z.to_nat (p_start p) + Z.to_nat off)%nat by lia.
    + rewrite slice_slice by lia. f_equal; lia.
  - split; [done|]. simpl. unfold slice. rewrite ztake_neg by lia. done.
Qed.

Lemma clean_at_head l k i : clean_at (l ++ k) i -> i < zlen l -> 0 <= i ->
  match l !! Z.to_nat i with Some b => is_cont b = false | None => False end.
Proof.
  intros Hc Hi H0. specialize (Hc H0). destruct (lookup_lt_is_Some_2 l (Z.to_nat i)) as [b Hb]; [unfold zlen in *; lia|].
  by rewrite (lookup_app_l_Some _ _ _ _ Hb), Hb in *.
Qed.

Lemma clean_at_tail l k i : clean_at (l ++ k) i -> zlen l <= i -> clean_at k (i - zlen l).
Proof.
  intros Hc Hi H0. pose proof (zlen_nonneg l). specialize (Hc ltac:(lia)).
  rewrite lookup_app_r in Hc by (unfold zlen in *; lia).
  by replace (Z.to_nat (i - zlen l)) with (Z.to_nat i - length l)%nat by (unfold zlen in *; lia).
Qed.

(** After the replacement went in: the rest from [b] on is kept. *)
Lemma replace_after ps position a b rp rnext :
  a <= position -> Forall (piece_ok t) ps -> Forall (piece_ok t) rnext ->
  clean_at (text_of t ps) (b - position) ->
  let out := replace_pieces ps position a b rp rnext true in
  snd out = true /\ Forall (piece_ok t) (fst out)
  /\ text_of t (reverse (fst out)) = text_of t (reverse rnext) ++ zdrop (b - position) (text_of t ps).
Proof.
  intros Ha Hps. revert position rnext Ha. induction Hps as [|p ps Hp Hps IH]; intros position rnext Ha Hr Hc; simpl.
  { split_and!; [done|done|]. unfold text_of at 3. simpl. unfold zdrop. by rewrite drop_nil, app_nil_r. }
  pose proof (piece_text_len t p Hp) as Hl. pose proof Hp as (P1 & P2 & P3 & P4 & P5).
  rewrite (proj2 (Z.leb_gt _ _)) by lia. rewrite text_of_cons, zdrop_app_cases, Hl.
  rewrite text_of_cons in Hc.
  destruct (Z.leb_spec b position) as [Hb|Hb].
  - destruct (IH (position + p_len p) (push_piece rnext p)) as (I1 & I2 & I3); [lia|by apply push_piece_ok| |].
    { intros H0. lia. }
    split_and!; [done|done|]. rewrite I3, push_piece_text, <-app_assoc by done.
    rewrite (proj2 (Z.leb_le (b - position) (p_len p))), !zdrop_neg by lia. done.
  - destruct (Z.ltb_spec b (position + p_len p)) as [Hlt|Hge].
    + destruct (piece_slice_ok p (b - position) (position + p_len p - b) Hp) as [S1 S2]; [lia|lia| | |].
      { intros _. eapply clean_at_head; [exact Hc|lia|lia]. }
      { intros. lia. }
      destruct (IH (position + p_len p) (push_some rnext (Piece_slice p (b - position) (position + p_len p - b))))
        as (I1 & I2 & I3); [lia|by apply push_some_ok| |].
      { intros H0. lia. }
      split_and!; [done|done|]. rewrite I3, push_some_text, S2, <-app_assoc by done.
      rewrite (proj2 (Z.leb_le (b - position) (p_len p))) by lia. rewrite (zdrop_neg (b - (position + p_len p))) by lia.
      do 2 f_equal. rewrite zdrop_slice by lia. f_equal. lia.
    + destruct (IH (position + p_len p) rnext) as (I1 & I2 & I3); [lia|done| |].
      { replace (b - (position + p_len p)) with (b - position - zlen (piece_text t p)) by lia.
        eapply clean_at_tail; [exact Hc|lia]. }
      split_and!; [done|done|]. rewrite I3. f_equal.
      destruct (Z.leb_spec (b - position) (p_len p)).
      * rewrite (zdrop_neg (b - (position + p_len p))) by lia.
        assert (Hd : zdrop (b - position) (piece_text t p) = []) by (unfold zdrop, zlen in *; apply drop_ge; lia).
        by rewrite Hd.
      * f_equal. lia.
Qed.

(** The part of a piece before the range. *)
Lemma left_part p position a rnext rest :
  piece_ok t p -> Forall (piece_ok t) rnext -> a < position + p_len p ->
  clean_at (piece_text t p ++ rest) (a - position) ->
  let left := if position <? a then push_some rnext (Piece_slice p 0 (a - position)) else rnext in
  Forall (piece_ok t) left
  /\ text_of t (reverse left) = text_of t (reverse rnext) ++ ztake (a - position) (piece_text t p).
Proof.
  intros Hp Hr Hpa Hca left. pose proof (piece_text_len t p Hp) as Hl. pose proof Hp as (P1 & P2 & P3 & P4 & P5).
  unfold left. destruct (Z.ltb_spec position a); [|rewrite ztake_neg, app_nil_r by lia; done].
  destruct (piece_slice_ok p 0 (a - position) Hp) as [S1 S2]; [lia|lia| | |].
  - intros _. unfold piece_text, slice, ztake, zdrop, Piece_end. rewrite lookup_take, lookup_drop.
    rewrite decide_True by lia. by rewrite Nat.add_0_r.
  - intros _ Hlt. rewrite Z.add_0_l in *. eapply clean_at_head; [exact Hca|lia|lia].
  - split; [by apply push_some_ok|]. rewrite push_some_text, S2 by done. by rewrite ztake_slice.
Qed.

(** Before the replacement went in. *)
Lemma replace_before ps position a b rp rnext :
  position <= a -> a <= b -> b - position <= zlen (text_of t ps) ->
  Forall (piece_ok t) ps -> Forall (piece_ok t) rnext -> some_ok rp ->
  clean_at (text_of t ps) (a - position) -> clean_at (text_of t ps) (b - position) ->
  let out := replace_pieces ps position a b rp rnext false in
  let final := if snd out then fst out else push_some (fst out) rp in
  Forall (piece_ok t) final
  /\ text_of t (reverse final)
     = text_of t (reverse rnext) ++ ztake (a - position) (text_of t ps) ++ some_text rp
       ++ zdrop (b - position) (text_of t ps).
Proof.
  intros Ha Hab Hlen Hps. revert position rnext Ha Hlen.
  induction Hps as [|p ps Hp Hps IH]; intros position rnext Ha Hlen Hr Hrp Hca Hc; simpl.
  { split; [by apply push_some_ok|]. rewrite push_some_text by done. unfold text_of at 3 4. simpl.
    unfold ztake, zdrop. by rewrite take_nil, drop_nil, app_nil_r. }
  pose proof (piece_text_len t p Hp) as Hl. pose proof Hp as (P1 & P2 & P3 & P4 & P5).
  rewrite text_of_cons in Hca, Hc, Hlen |- *. rewrite zlen_app in Hlen.
  destruct (Z.leb_spec (position + p_len p) a) as [Hpa|Hpa].
  { destruct (IH (position + p_len p) (push_piece rnext p)) as (I1 & I2); [lia|lia|by apply push_piece_ok|done| | |].
    { replace (a - (position + p_len p)) with (a - position - zlen (piece_text t p)) by lia.
      eapply clean_at_tail; [exact Hca|lia]. }
    { replace (b - (position + p_len p)) with (b - position - zlen (piece_text t p)) by lia.
      eapply clean_at_tail; [exact Hc|lia]. }
    split; [done|]. rewrite I2, push_piece_text, <-app_assoc by done.
    rewrite ztake_app_ge, zdrop_app_ge, Hl, <-app_assoc by lia.
    by replace (a - (position + p_len p)) with (a - position - p_len p) by lia;
      replace (b - (position + p_len p)) with (b - position - p_len p) by lia. }
  assert (Hafter : forall rn, Forall (piece_ok t) rn ->
    let out := replace_pieces ps (position + p_len p) a b rp rn true in
    snd out = true /\ Forall (piece_ok t) (fst out)
    /\ text_of t (reverse (fst out)) = text_of t (reverse rn) ++ zdrop (b - (position + p_len p)) (text_of t ps)).
  { intros rn Hrn. apply replace_after; [lia|done|done|].
    intros H0. replace (b - (position + p_len p)) with (b - position - zlen (piece_text t p)) in H0 |- * by lia.
    by apply (clean_at_tail (piece_text t p)); [|lia|]. }
  destruct (Z.leb_spec b position) as [Hb|Hb].
  { destruct (Hafter (push_piece (push_some rnext rp) p)) as (A1 & A2 & A3);
      [by apply push_piece_ok; [apply push_some_ok|]|].
    rewrite A1. split; [done|]. rewrite A3, push_piece_text, push_some_text, <-!app_assoc by (done || by apply push_some_ok).
    rewrite ztake_neg, !zdrop_neg by lia. done. }
  destruct (left_part p position a rnext (text_of t ps) Hp Hr ltac:(lia) Hca) as [L1 L2].
  set (left := if position <? a then push_some rnext (Piece_slice p 0 (a - position)) else rnext) in *.
  assert (Hmid : Forall (piece_ok t) (push_some left rp)) by (by apply push_some_ok).
  rewrite ztake_app_le by lia. destruct (Z.ltb_spec b (position + p_len p)) as [Hlt|Hge].
  - destruct (piece_slice_ok p (b - position) (position + p_len p - b) Hp) as [S1 S2]; [lia|lia| | |].
    { intros _. eapply clean_at_head; [exact Hc|lia|lia]. }
    { intros. lia. }
    destruct (Hafter (push_some (push_some left rp) (Piece_slice p (b - position) (position + p_len p - b))))
      as (A1 & A2 & A3); [by apply push_some_ok|].
    rewrite A1. split; [done|]. rewrite A3, push_some_text, S2, push_some_text, L2, <-!app_assoc by done.
    rewrite zdrop_app_le, (zdrop_neg (b - (position + p_len p))) by lia.
    rewrite (zdrop_slice (b - position) (piece_text t p)) by lia. rewrite Hl.
    by replace (b - position + (position + p_len p - b)) with (p_len p) by lia.
  - destruct (Hafter (push_some left rp)) as (A1 & A2 & A3); [done|].
    rewrite A1. split; [done|]. rewrite A3, push_some_text, L2, <-!app_assoc by done.
    rewrite zdrop_app_ge, Hl by lia.
    by replace (b - (position + p_len p)) with (b - position - p_len p) by lia.
Qed.
End Replace.

(** ** The table as a text *)

Lemma text_of_len t ps : Forall (piece_ok t) ps -> zlen (text_of t ps) = foldr (fun p n => p_len p + n) 0 ps.
Proof.
  induction 1 as [|p ps Hp _ IH]; [done|]. rewrite text_of_cons, zlen_app, IH, (piece_text_len t p Hp). done.
Qed.

Lemma piece_table_new_ok text : starts_clean text -> table_ok (PieceTable_new text) /\ to_text (PieceTable_new text) = text.
Proof.
  intros Hc. unfold PieceTable_new, table_ok, to_text, Piece_new. destruct (Z.ltb_spec 0 (zlen text)); simpl.
  - unfold piece_text. simpl. unfold Piece_end. simpl. rewrite Z.add_0_l, slice_whole, app_nil_r.
    split; [split; [|done]|done].
    constructor; [|constructor]. unfold piece_ok, Piece_end. simpl. split_and!; [lia|lia|lia| |].
    + destruct text; [unfold zlen in *; simpl in *; lia|done].
    + intros _. rewrite Z.add_0_l. by rewrite (proj2 (lookup_ge_None text _)) by (unfold zlen; lia).
  - destruct text as [|b text]; [split; [split; [constructor|done]|done]|].
    rewrite zlen_cons in *. pose proof (zlen_nonneg text). lia.
Qed.

Lemma replace_ok t a b rep :
  table_ok t -> 0 <= a -> a <= b -> b <= pt_len t ->
  clean_at (to_text t) a -> clean_at (to_text t) b -> starts_clean rep ->
  table_ok (replace t a b rep)
  /\ to_text (replace t a b rep) = ztake a (to_text t) ++ rep ++ zdrop b (to_text t).
Proof.
  intros [Hps Hlen] Ha Hab Hb Hca Hcl Hrep. unfold replace, append_add_piece.
  set (rp := Piece_new Add (zlen (add t)) (zlen rep)).
  set (t1 := mkTable (original t) (add t ++ rep) (pieces t) (pt_len t)).
  assert (Hg : grows t t1) by (split; [done|by exists rep]).
  assert (Hps1 : Forall (piece_ok t1) (pieces t))
    by (eapply Forall_impl; [|exact Hps]; intros p Hp; by apply (piece_grows t)).
  assert (Ht1 : text_of t1 (pieces t) = to_text t).
  { unfold text_of, to_text. f_equal. apply map_ext_in. intros p Hp. rewrite Forall_forall in Hps.
    apply (piece_grows t); [done|by apply Hps]. }
  assert (Hrp : some_ok t1 rp /\ some_text t1 rp = rep).
  { unfold rp, Piece_new. destruct (Z.ltb_spec 0 (zlen rep)); simpl.
    - unfold piece_ok, piece_text, Piece_end. simpl. rewrite slice_right. split; [|done].
      split_and!; [apply zlen_nonneg|done|rewrite zlen_app; lia| |].
      2: { intros _. by rewrite (proj2 (lookup_ge_None _ _)) by (rewrite length_app; unfold zlen; lia). }
      destruct rep as [|x rep]; [unfold zlen in *; simpl in *; lia|].
      unfold zlen. rewrite Nat2Z.id, lookup_app_r, Nat.sub_diag by lia. done.
    - split; [done|]. destruct rep as [|x rep]; [done|]. rewrite zlen_cons in *. pose proof (zlen_nonneg rep). lia. }
  destruct Hrp as [Hrp1 Hrp2].
  pose proof (replace_before t1 (pieces t) 0 a b rp [] Ha Hab) as Hmain.
  rewrite Ht1, !Z.sub_0_r, Hrp2 in Hmain.
  specialize (Hmain ltac:(lia) Hps1 ltac:(constructor) Hrp1 Hca Hcl). cbn zeta in Hmain.
  destruct (replace_pieces (pieces t) 0 a b rp [] false) as [rnext inserted]. cbn [fst snd] in Hmain.
  set (final := if inserted then rnext else push_some rnext rp) in *. destruct Hmain as [M1 M2].
  set (t2 := mkTable _ _ _ _).
  assert (Hsame : forall ps, text_of t2 ps = text_of t1 ps) by done.
  assert (Htext : to_text t2 = ztake a (to_text t) ++ rep ++ zdrop b (to_text t)).
  { change (to_text t2) with (text_of t2 (reverse final)). by rewrite Hsame, M2. }
  split; [|done]. split.
  - change (Forall (piece_ok t1) (reverse final)). by apply Forall_reverse.
  - rewrite Htext, !zlen_app. cbn [pt_len t2]. unfold ztake, zdrop, zlen in *.
    rewrite length_take, length_drop. lia.
Qed.

Lemma slice_pieces_ok t ps position a b :
  Forall (piece_ok t) ps -> a < b -> b - position <= zlen (text_of t ps) ->
  slice_pieces t ps position a b
  = ztake (b - Z.max a position) (zdrop (a - position) (text_of t ps)).
Proof.
  intros Hps Hab. revert position. induction Hps as [|p ps Hp Hps IH]; intros position Hb; simpl.
  { unfold text_of. simpl. unfold ztake, zdrop. by rewrite drop_nil, take_nil. }
  pose proof (piece_text_len t p Hp) as Hl. pose proof Hp as (P1 & P2 & P3 & _).
  rewrite text_of_cons in Hb |- *. rewrite zlen_app in Hb.
  destruct (Z.leb_spec (position + p_len p) a) as [H1|H1].
  { rewrite IH, zdrop_app_ge, Hl by lia. f_equal; [lia|f_equal; lia]. }
  destruct (Z.leb_spec b position) as [H2|H2]; [by rewrite ztake_neg by lia|].
  rewrite IH by lia. rewrite zdrop_app_le by lia. unfold Piece_end in *.
  set (s0 := source_text t (p_source p)) in *.
  assert (Hd : zdrop (a - position) (piece_text t p)
               = slice (p_start p + (Z.max a position - position)) (p_start p + p_len p) s0).
  { destruct (Z.le_gt_cases a position).
    - rewrite zdrop_neg by lia. unfold piece_text, Piece_end. fold s0. f_equal. lia.
    - rewrite zdrop_slice, Hl by lia. unfold piece_text, Piece_end. fold s0.
      rewrite slice_slice by lia. f_equal. lia. }
  rewrite Hd. set (q := p_start p + (Z.max a position - position)).
  assert (Hq : zlen (slice q (p_start p + p_len p) s0) = p_start p + p_len p - q)
    by (unfold q; apply slice_len; lia).
  rewrite (zdrop_neg (a - (position + p_len p))) by lia.
  destruct (Z.le_gt_cases b (position + p_len p)).
  - rewrite ztake_app_le by (unfold q in *; lia). rewrite (ztake_neg (b - Z.max a (position + p_len p))), app_nil_r by lia.
    rewrite ztake_slice, slice_slice by (unfold q; lia). unfold q. f_equal; lia.
  - rewrite ztake_app_ge, Hq by (unfold q in *; lia).
    replace (p_start p + (Z.min b (position + p_len p) - position)) with (p_start p + p_len p) by lia.
    f_equal. f_equal. unfold q. lia.
Qed.

Lemma slice_to_string_ok t a b :
  table_ok t -> 0 <= a -> b <= pt_len t -> slice_to_string t a b = slice a b (to_text t).
Proof.
  intros [Hps Hlen] Ha Hb. unfold slice_to_string. destruct (Z.leb_spec b a).
  - unfold slice. by rewrite ztake_neg by lia.
  - rewrite slice_pieces_ok; [|done|done|]; [|unfold to_text in Hlen; fold (text_of t (pieces t)) in Hlen; lia].
    unfold slice. rewrite Z.sub_0_r, Z.max_l by lia. done.
Qed.

(** ** Character boundaries *)

(** Whether a character starts at an offset inside [l]. *)
Definition char_at (l : list Z) (i : Z) : bool :=
  match l !! Z.to_nat i with Some b => negb (is_cont b) | None => false end.

Lemma str_boundary_inside l i :
  0 <= i -> i < zlen l -> starts_clean l -> str_is_char_boundary l i = char_at l i.
Proof.
  intros H0 H1 Hc. unfold str_is_char_boundary, char_at. destruct (Z.eqb_spec i 0) as [->|].
  - destruct l as [|b l]; [unfold zlen in H1; simpl in H1; lia|]. simpl in *. by rewrite Hc.
  - by rewrite (proj2 (Z.leb_gt _ _)) by lia.
Qed.

Lemma piece_char_at t p i :
  piece_ok t p -> 0 <= i -> i < p_len p ->
  char_at (piece_text t p) i = char_at (source_text t (p_source p)) (p_start p + i).
Proof.
  intros (H1 & H2 & H3 & _) H0 Hi. unfold char_at, piece_text, slice, ztake, zdrop, Piece_end.
  rewrite lookup_take, lookup_drop, decide_True by lia.
  by replace (Z.to_nat (p_start p + i)) with (Z.to_nat (p_start p) + Z.to_nat i)%nat by lia.
Qed.

Lemma piece_char_at_0 t p : piece_ok t p -> char_at (piece_text t p) 0 = true.
Proof.
  intros Hp. rewrite piece_char_at; [|done|lia|by destruct Hp as (_ & ? & _)]. rewrite Z.add_0_r.
  destruct Hp as (_ & _ & _ & H & _). unfold char_at. destruct (_ !! _); [by rewrite H|done].
Qed.

Lemma char_at_app l k i :
  0 <= i -> char_at (l ++ k) i = if i <? zlen l then char_at l i else char_at k (i - zlen l).
Proof.
  intros H0. unfold char_at, zlen. destruct (Z.ltb_spec i (Z.of_nat (length l))).
  - by rewrite lookup_app_l by lia.
  - rewrite lookup_app_r by lia. by replace (Z.to_nat i - length l)%nat with (Z.to_nat (i - Z.of_nat (length l))) by lia.
Qed.

Lemma text_starts_clean t ps : Forall (piece_ok t) ps -> starts_clean (text_of t ps).
Proof.
  intros Hps. destruct Hps as [|p ps Hp _]; [done|]. rewrite text_of_cons.
  pose proof (piece_char_at_0 t p Hp) as H. destruct (piece_text t p) as [|b l]; [done|].
  unfold char_at in H. simpl in *. by apply negb_true_iff.
Qed.

Lemma boundary_pieces_ok t ps position offset :
  Forall (piece_ok t) ps -> position <= offset -> offset - position < zlen (text_of t ps) ->
  boundary_pieces t ps position offset = char_at (text_of t ps) (offset - position).
Proof.
  intros Hps. revert position. induction Hps as [|p ps Hp Hps IH]; intros position Hpos Hlen; simpl.
  { unfold text_of in Hlen. unfold zlen in Hlen. simpl in Hlen. lia. }
  pose proof (piece_text_len t p Hp) as Hl. pose proof Hp as (P1 & P2 & P3 & _).
  rewrite text_of_cons in Hlen |- *. rewrite zlen_app in Hlen. rewrite char_at_app, Hl by lia.
  rewrite (proj2 (Z.ltb_ge _ _)) by lia. destruct (Z.eqb_spec offset position) as [->|Hne]; cbn [orb].
  { rewrite Z.sub_diag, (proj2 (Z.ltb_lt _ _)) by lia. by rewrite piece_char_at_0. }
  destruct (Z.eqb_spec offset (position + p_len p)) as [->|Hne'].
  { replace (position + p_len p - position) with (p_len p) in Hlen |- * by lia.
    rewrite (proj2 (Z.ltb_ge _ _)), Z.sub_diag by lia.
    destruct Hps as [|q ps Hq _]; [change (zlen (text_of t [])) with 0 in Hlen; lia|].
    rewrite text_of_cons, char_at_app, piece_text_len by (lia || done). destruct Hq as (? & ? & ?).
    rewrite (proj2 (Z.ltb_lt _ _)) by lia. by rewrite piece_char_at_0. }
  destruct (Z.ltb_spec offset (position + p_len p)).
  - rewrite (proj2 (Z.ltb_lt _ _)), piece_char_at by (lia || done).
    unfold str_is_char_boundary, char_at, Piece_end in *. rewrite (proj2 (Z.eqb_neq _ 0)) by lia.
    by rewrite (proj2 (Z.leb_gt _ _)) by lia.
  - rewrite IH, (proj2 (Z.ltb_ge _ _)) by lia. f_equal. lia.
Qed.

Lemma is_char_boundary_ok t offset :
  table_ok t -> 0 <= offset -> is_char_boundary t offset = str_is_char_boundary (to_text t) offset.
Proof.
  intros [Hps Hlen] H0. unfold is_char_boundary. rewrite Hlen.
  destruct (Z.ltb_spec (zlen (to_text t)) offset) as [H|H].
  { unfold str_is_char_boundary. pose proof (zlen_nonneg (to_text t)).
    rewrite (proj2 (Z.eqb_neq _ 0)), (proj2 (Z.leb_le _ _)) by lia. symmetry. apply Z.eqb_neq. lia. }
  destruct (Z.eqb_spec offset (zlen (to_text t))) as [->|Hne].
  { unfold str_is_char_boundary. destruct (_ =? 0); [done|]. by rewrite Z.leb_refl, Z.eqb_refl. }
  change (to_text t) with (text_of t (pieces t)) in *.
  rewrite boundary_pieces_ok; [|done|lia|lia]. rewrite Z.sub_0_r. symmetry.
  apply str_boundary_inside; [lia|lia|by apply text_starts_clean].
Qed.

Lemma boundary_clean l i : str_is_char_boundary l i = true -> 0 < i -> clean_at l i.
Proof.
  unfold str_is_char_boundary. intros H Hi _. rewrite (proj2 (Z.eqb_neq _ 0)) in H by lia.
  destruct (Z.leb_spec (zlen l) i).
  - by rewrite (proj2 (lookup_ge_None _ _)) by (unfold zlen in *; lia).
  - destruct (_ !! _); [by apply negb_true_iff|done].
Qed.

Lemma boundary_clean_0 l i : starts_clean l -> str_is_char_boundary l i = true -> 0 <= i -> clean_at l i.
Proof.
  intros Hc H Hi. destruct (Z.eq_dec i 0) as [->|]; [|by apply boundary_clean; [|lia]].
  intros _. by destruct l.
Qed.

(** ** The table as a string *)

(** A table starts from any text: valid strings start on a character. *)
Definition splice (text : list Z) (a b : Z) (replacement : list Z) : list Z :=
  ztake a text ++ replacement ++ zdrop b text.

(** What the buffer checks of an edit before it calls [replace]. *)
Definition edit_fits (t : PieceTableTextBuffer) (e : TextEdit) : Prop :=
  0 <= r_start (e_range e) /\ r_start (e_range e) <= r_end (e_range e) /\ r_end (e_range e) <= pt_len t
  /\ is_char_boundary t (r_start (e_range e)) = true /\ is_char_boundary t (r_end (e_range e)) = true
  /\ starts_clean (e_replacement e).

Definition replace_edit (t : PieceTableTextBuffer) (e : TextEdit) : PieceTableTextBuffer :=
  replace t (r_start (e_range e)) (r_end (e_range e)) (e_replacement e).

Definition splice_edit (text : list Z) (e : TextEdit) : list Z :=
  splice text (r_start (e_range e)) (r_end (e_range e)) (e_replacement e).

(** The edits of a list that fit, one after another. *)
Fixpoint edits_fit (t : PieceTableTextBuffer) (es : list TextEdit) : Prop :=
  match es with [] => True | e :: es => edit_fits t e /\ edits_fit (replace_edit t e) es end.

Lemma replace_edit_ok t e :
  table_ok t -> edit_fits t e ->
  table_ok (replace_edit t e) /\ to_text (replace_edit t e) = splice_edit (to_text t) e.
Proof.
  intros Hok (H0 & H1 & H2 & Ha & Hb & Hc). pose proof (text_starts_clean t (pieces t) (proj1 Hok)) as Hcl.
  rewrite is_char_boundary_ok in Ha, Hb by (done || lia).
  apply replace_ok; [done|lia|lia|lia| | |done]; (eapply boundary_clean_0; [exact Hcl|done|lia]).
Qed.

Lemma replace_edits_ok es t :
  table_ok t -> edits_fit t es ->
  table_ok (fold_left replace_edit es t)
  /\ to_text (fold_left replace_edit es t) = fold_left splice_edit es (to_text t).
Proof.
  revert t. induction es as [|e es IH]; intros t Hok; [done|]. simpl. intros [He Hes].
  destruct (replace_edit_ok t e Hok He) as [H1 H2]. destruct (IH _ H1 Hes) as [I1 I2].
  split; [done|]. by rewrite I2, H2.
Qed.

(** C33: the piece table is a string.  From any text and after any sequence of
    edits that pass the buffer's checks, the text is the one that splicing the
    same edits into a plain string gives, [len] is its length, every slice and
    every character boundary the table answers is the string's own, and every
    piece starts and ends on a character of its source (so that no slice of a
    source panics). *)
Theorem piece_table_refines_string (text : list Z) (es : list TextEdit) :
  starts_clean text -> edits_fit (PieceTable_new text) es ->
  let t := fold_left replace_edit es (PieceTable_new text) in
  let s := fold_left splice_edit es text in
  to_text t = s /\ pt_len t = zlen s
  /\ (forall a b, 0 <= a -> b <= zlen s -> slice_to_string t a b = slice a b s)
  /\ (forall offset, 0 <= offset -> is_char_boundary t offset = str_is_char_boundary s offset)
  /\ Forall (fun p => 0 < p_len p
       /\ str_is_char_boundary (source_text t (p_source p)) (p_start p) = true
       /\ str_is_char_boundary (source_text t (p_source p)) (Piece_end p) = true) (pieces t).
Proof.
  intros Hc Hf t s. destruct (piece_table_new_ok text Hc) as [Hok Htext].
  destruct (replace_edits_ok es _ Hok Hf) as [H1 H2]. fold t in H1, H2. rewrite Htext in H2. fold s in H2.
  pose proof H1 as [Hps Hlen]. rewrite H2 in Hlen. split_and!; [done|done| | |].
  - intros a b Ha Hb. rewrite slice_to_string_ok, H2 by (done || lia). done.
  - intros off H0. by rewrite is_char_boundary_ok, H2.
  - eapply Forall_impl; [|exact Hps]. intros p (P1 & P2 & P3 & P4 & P5). split; [done|].
    unfold str_is_char_boundary, Piece_end in *. split.
    + destruct (_ =? 0); [done|]. rewrite (proj2 (Z.leb_gt _ _)) by lia.
      destruct (source_text t (p_source p) !! _); [by rewrite P4|done].
    + specialize (P5 ltac:(lia)). rewrite (proj2 (Z.eqb_neq _ 0)) by lia.
      destruct (Z.leb_spec (zlen (source_text t (p_source p))) (p_start p + p_len p)); [apply Z.eqb_eq; lia|].
      destruct (lookup_lt_is_Some_2 (source_text t (p_source p)) (Z.to_nat (p_start p + p_len p))) as [x Hx];
        [unfold zlen in *; lia|]. rewrite Hx in P5 |- *. by rewrite P5.
Qed.

(** ["héy"]: put ["b"] at 3, replace ["éb"] by ["xyz"], put ["!"] at the end. *)
Lemma piece_table_refines_string_witness :
  let t := fold_left replace_edit
             [mkEdit (mkRange 3 3) [98]; mkEdit (mkRange 1 4) [120; 121; 122]; mkEdit (mkRange 5 5) [33]]
             (PieceTable_new [104; 195; 169; 121]) in
  to_text t = [104; 120; 121; 122; 121; 33].
Proof.
  refine (proj1 (piece_table_refines_string [104; 195; 169; 121]
    [mkEdit (mkRange 3 3) [98]; mkEdit (mkRange 1 4) [120; 121; 122]; mkEdit (mkRange 5 5) [33]] _ _)).
  - reflexivity.
  - vm_compute. repeat split; try reflexivity; congruence.
Defined.
