(* ===== verification/LineIndex.v ===== *)
(** * The line index

    Model of [crates/hapcli-editor-core/src/line_index.rs]: the table of the
    offsets at which lines start, computed from a text or carried across a
    transaction's edits.  The proof that both agree is at the end. *)
From S2P Require Import Prelude PieceTable.
From stdpp Require Import prelude list numbers sorting.
Open Scope Z_scope.

(** A string or a vector never has more than [isize::MAX] bytes. *)
Definition ISIZE_MAX : Z := 2 ^ 63 - 1.

Definition NEWLINE : Z := 10.

(** The starts that the newlines of [text] open, when [text] begins at
    [index] (the loop of [compute_line_starts]). *)
Fixpoint newline_starts (index : Z) (text : list Z) : list Z :=
  match text with
  | [] => []
  | byte :: text =>
      if byte =? NEWLINE then (index + 1) :: newline_starts (index + 1) text
      else newline_starts (index + 1) text
  end.

Definition compute_line_starts (text : list Z) : list Z := 0 :: newline_starts 0 text.

(** ** The update *)

(** The [starts] vector is kept in reverse order. *)
Definition push_line_start (rstarts : list Z) (offset : Z) : list Z :=
  match rstarts with
  | last :: _ => if last =? offset then rstarts else offset :: rstarts
  | [] => [offset]
  end.

Definition apply_line_shift (offset shift : Z) : Z :=
  if shift <? 0 then sat_sub offset (- shift) else sat_add offset shift.

(** The first [while] of the loop; [old] is [old_starts\[old_start_index..\]]. *)
Fixpoint keep_before (old : list Z) (limit previous_old_offset shift : Z) (rstarts : list Z)
    : list Z * list Z :=
  match old with
  | line_start :: rest =>
      if limit <? line_start then (old, rstarts)
      else keep_before rest limit previous_old_offset shift
             (if previous_old_offset <? line_start
              then push_line_start rstarts (apply_line_shift line_start shift) else rstarts)
  | [] => ([], rstarts)
  end.

Fixpoint push_replacement (replacement : list Z) (base index : Z) (rstarts : list Z) : list Z :=
  match replacement with
  | [] => rstarts
  | byte :: rest =>
      push_replacement rest base (index + 1)
        (if byte =? NEWLINE then push_line_start rstarts (base + index + 1) else rstarts)
  end.

(** The second [while]. *)
Fixpoint skip_through (old : list Z) (limit : Z) : list Z :=
  match old with
  | line_start :: rest => if limit <? line_start then old else skip_through rest limit
  | [] => []
  end.

(** The [while] after the loop. *)
Fixpoint keep_rest (old : list Z) (previous_old_offset shift : Z) (rstarts : list Z) : list Z :=
  match old with
  | line_start :: rest =>
      keep_rest rest previous_old_offset shift
        (if previous_old_offset <? line_start
         then push_line_start rstarts (apply_line_shift line_start shift) else rstarts)
  | [] => rstarts
  end.

Fixpoint update_loop (edits : list TextEdit) (old : list Z) (previous_old_offset shift : Z)
    (rstarts : list Z) : list Z :=
  match edits with
  | [] => keep_rest old previous_old_offset shift rstarts
  | edit :: edits =>
      let s := r_start (e_range edit) in
      let '(old, rstarts) := keep_before old s previous_old_offset shift rstarts in
      let replacement_base := apply_line_shift s shift in
      let rstarts := push_replacement (e_replacement edit) replacement_base 0 rstarts in
      let old := skip_through old (r_end (e_range edit)) in
      update_loop edits old (r_end (e_range edit))
        (shift + (zlen (e_replacement edit) - TextRange_len (e_range edit))) rstarts
  end.

Definition update_line_starts_after_edits (old_starts : list Z) (edits : list TextEdit) : list Z :=
  match edits with
  | [] => old_starts
  | _ => reverse (update_loop edits (drop 1 old_starts) 0 0 [0])
  end.

(** ** Sorted edits and the text they give *)

(** Edits in order, each within [text] and none reaching into the one before
    it, which ended at [from]. *)
Fixpoint edits_sorted (from : Z) (text : list Z) (edits : list TextEdit) : Prop :=
  match edits with
  | [] => True
  | e :: es =>
      from <= r_start (e_range e) /\ r_start (e_range e) <= r_end (e_range e)
      /\ r_end (e_range e) <= zlen text /\ edits_sorted (r_end (e_range e)) text es
  end.

(** The text from offset [from] on, with the edits made to it at once. *)
Fixpoint edited (from : Z) (text : list Z) (edits : list TextEdit) : list Z :=
  match edits with
  | [] => zdrop from text
  | e :: es => slice from (r_start (e_range e)) text ++ e_replacement e ++ edited (r_end (e_range e)) text es
  end.

(** ** Newlines *)

Lemma newline_starts_app i l k :
  newline_starts i (l ++ k) = newline_starts i l ++ newline_starts (i + zlen l) k.
Proof.
  revert i. induction l as [|b l IH]; intros i; [by rewrite zlen_nil, Z.add_0_r|].
  cbn [app newline_starts]. rewrite zlen_cons, IH, Z.add_assoc.
  by destruct (b =? NEWLINE).
Qed.

Lemma newline_starts_bounds i l : Forall (fun x => i < x /\ x <= i + zlen l) (newline_starts i l).
Proof.
  revert i. induction l as [|b l IH]; intros i; [constructor|]. cbn [newline_starts].
  assert (H : Forall (fun x => i < x /\ x <= i + zlen (b :: l)) (newline_starts (i + 1) l)).
  { eapply Forall_impl; [apply IH|]. intros x. rewrite zlen_cons. simpl. lia. }
  destruct (b =? NEWLINE); [|done]. constructor; [|done]. rewrite zlen_cons.
  pose proof (zlen_nonneg l). lia.
Qed.

Lemma newline_starts_sorted i l : StronglySorted Z.lt (newline_starts i l).
Proof.
  revert i. induction l as [|b l IH]; intros i; [constructor|]. cbn [newline_starts].
  destruct (b =? NEWLINE); [|done]. constructor; [done|].
  eapply Forall_impl; [apply newline_starts_bounds|]. simpl. lia.
Qed.

Lemma newline_starts_shift i s l : map (fun x => x + s) (newline_starts i l) = newline_starts (i + s) l.
Proof.
  revert i. induction l as [|b l IH]; intros i; [done|]. cbn [newline_starts].
  replace (i + s + 1) with (i + 1 + s) by lia. rewrite <-IH. by destruct (b =? NEWLINE).
Qed.

(** ** The pushes of the update *)

Definition pushes (rstarts : list Z) (xs : list Z) : list Z := fold_left push_line_start xs rstarts.
Definition last_le (rstarts : list Z) (b : Z) : Prop :=
  match rstarts with x :: _ => x <= b | [] => True end.

Lemma pushes_fresh xs rstarts b :
  StronglySorted Z.lt xs -> Forall (fun x => b < x) xs -> last_le rstarts b ->
  pushes rstarts xs = reverse xs ++ rstarts.
Proof.
  intros Hs. revert rstarts b. induction Hs as [|x xs Hs IH Hx]; intros rstarts b Hb Hl; [done|].
  apply Forall_cons in Hb as [Hb Hbs]. unfold pushes in *. cbn [fold_left].
  rewrite (IH (push_line_start rstarts x) x); [|done|].
  - rewrite reverse_cons, <-app_assoc. f_equal. destruct rstarts as [|y r]; [done|]. simpl in *.
    by rewrite (proj2 (Z.eqb_neq _ _)) by lia.
  - destruct rstarts as [|y r]; simpl; [lia|]. destruct (Z.eqb_spec y x); simpl; lia.
Qed.

Lemma keep_before_split l1 l2 limit p shift rstarts :
  Forall (fun x => p < x /\ x <= limit) l1 -> Forall (fun x => limit < x) l2 ->
  keep_before (l1 ++ l2) limit p shift rstarts
  = (l2, pushes rstarts (map (fun x => apply_line_shift x shift) l1)).
Proof.
  intros H1 H2. revert rstarts. induction H1 as [|x l1 [Hx1 Hx2] _ IH]; intros rstarts; simpl.
  - destruct H2 as [|x l2 Hx _]; [done|]. simpl. by rewrite (proj2 (Z.ltb_lt _ _)).
  - by rewrite (proj2 (Z.ltb_ge _ _)), (proj2 (Z.ltb_lt _ _)), IH by lia.
Qed.

Lemma skip_through_split l1 l2 limit :
  Forall (fun x => x <= limit) l1 -> Forall (fun x => limit < x) l2 -> skip_through (l1 ++ l2) limit = l2.
Proof.
  intros H1 H2. induction H1 as [|x l1 Hx _ IH]; simpl.
  - destruct H2 as [|x l2 Hx _]; [done|]. simpl. by rewrite (proj2 (Z.ltb_lt _ _)).
  - by rewrite (proj2 (Z.ltb_ge _ _)) by lia.
Qed.

Lemma keep_rest_all old p shift rstarts :
  Forall (fun x => p < x) old ->
  keep_rest old p shift rstarts = pushes rstarts (map (fun x => apply_line_shift x shift) old).
Proof.
  intros H. revert rstarts. induction H as [|x old Hx _ IH]; intros rstarts; simpl; [done|].
  by rewrite (proj2 (Z.ltb_lt _ _)), IH by lia.
Qed.

Lemma push_replacement_all rep base index rstarts :
  push_replacement rep base index rstarts = pushes rstarts (newline_starts (base + index) rep).
Proof.
  revert index rstarts. induction rep as [|b rep IH]; intros index rstarts; simpl; [done|].
  rewrite IH, !Z.add_assoc. by destruct (b =? NEWLINE).
Qed.

Lemma apply_line_shift_exact x shift :
  0 <= x -> 0 <= x + shift <= U64_MAX -> apply_line_shift x shift = x + shift.
Proof.
  intros. unfold apply_line_shift, sat_sub, sat_add.
  destruct (Z.ltb_spec shift 0); lia.
Qed.

Lemma shifted_starts p shift l :
  0 <= p -> 0 <= p + shift -> p + shift + zlen l <= U64_MAX ->
  map (fun x => apply_line_shift x shift) (newline_starts p l) = newline_starts (p + shift) l.
Proof.
  intros. rewrite <-newline_starts_shift. apply map_ext_in. intros x Hx.
  pose proof (newline_starts_bounds p l) as Hb. rewrite Forall_forall in Hb.
  specialize (Hb x ltac:(by apply list_elem_of_In)). apply apply_line_shift_exact; lia.
Qed.

Lemma last_le_pushed i l rstarts b c :
  last_le rstarts b -> b <= c -> i + zlen l <= c -> last_le (reverse (newline_starts i l) ++ rstarts) c.
Proof.
  intros Hl Hb Hi. pose proof (newline_starts_bounds i l) as H. apply Forall_reverse in H.
  destruct (reverse (newline_starts i l)) as [|x r]; simpl; [destruct rstarts; simpl in *; [done|lia]|].
  apply Forall_cons in H as [H _]. lia.
Qed.

Lemma zdrop_split a b (l : list Z) : 0 <= a -> a <= b -> zdrop a l = slice a b l ++ zdrop b l.
Proof.
  intros H1 H2. unfold slice, ztake, zdrop.
  replace (Z.to_nat b) with (Z.to_nat a + Z.to_nat (b - a))%nat by lia.
  by rewrite <-drop_drop, take_drop.
Qed.

(** The remaining starts around an edit of [\[s, e)]. *)
Lemma starts_around p s e text :
  0 <= p -> p <= s -> s <= e -> e <= zlen text ->
  newline_starts p (zdrop p text)
  = newline_starts p (slice p s text) ++ newline_starts s (slice s e text) ++ newline_starts e (zdrop e text).
Proof.
  intros. rewrite (zdrop_split p s), (zdrop_split s e) by lia. rewrite !newline_starts_app, !slice_len by lia.
  by replace (p + (s - p)) with s by lia; replace (s + (e - s)) with e by lia.
Qed.

Lemma update_loop_ok edits text p shift rstarts :
  0 <= p -> edits_sorted p text edits -> 0 <= p + shift ->
  p + shift + zlen (edited p text edits) <= U64_MAX -> last_le rstarts (p + shift) ->
  update_loop edits (newline_starts p (zdrop p text)) p shift rstarts
  = reverse (newline_starts (p + shift) (edited p text edits)) ++ rstarts.
Proof.
  revert p shift rstarts. induction edits as [|e es IH]; intros p shift rstarts Hp Hs Hsh Hmax Hl.
  { cbn [update_loop edited] in *. rewrite keep_rest_all by (eapply Forall_impl; [apply newline_starts_bounds|]; simpl; lia).
    rewrite shifted_starts by lia.
    eapply pushes_fresh; [apply newline_starts_sorted| |exact Hl].
    eapply Forall_impl; [apply newline_starts_bounds|]. simpl. lia. }
  destruct Hs as (Hs1 & Hs2 & Hs3 & Hs4). cbn [update_loop edited] in *. unfold TextRange_len.
  set (a := r_start (e_range e)) in *. set (b := r_end (e_range e)) in *. set (rep := e_replacement e) in *.
  rewrite !zlen_app, slice_len in Hmax by lia.
  pose proof (zlen_nonneg rep). pose proof (zlen_nonneg (edited b text es)).
  rewrite (starts_around p a b) by lia. pose proof (newline_starts_bounds a (slice a b text)) as Hmid.
  rewrite slice_len in Hmid by lia. pose proof (newline_starts_bounds b (zdrop b text)) as Hend.
  rewrite keep_before_split; cycle 1.
  { eapply Forall_impl; [apply newline_starts_bounds|]. simpl. rewrite slice_len by lia. lia. }
  { apply Forall_app. split; (eapply Forall_impl; [eassumption|]; simpl; lia). }
  rewrite skip_through_split; [|eapply Forall_impl; [exact Hmid|]; simpl; lia|eapply Forall_impl; [exact Hend|]; simpl; lia].
  rewrite shifted_starts by (rewrite ?slice_len; lia).
  rewrite (pushes_fresh _ rstarts (p + shift)); [|apply newline_starts_sorted| |done].
  2: { eapply Forall_impl; [apply newline_starts_bounds|]. simpl. lia. }
  rewrite push_replacement_all, Z.add_0_r, apply_line_shift_exact by lia.
  assert (Hl1 : last_le (reverse (newline_starts (p + shift) (slice p a text)) ++ rstarts) (a + shift))
    by (eapply last_le_pushed; [exact Hl|lia|rewrite slice_len; lia]).
  rewrite (pushes_fresh _ _ (a + shift)); [|apply newline_starts_sorted| |done].
  2: { eapply Forall_impl; [apply newline_starts_bounds|]. simpl. lia. }
  rewrite IH; [|lia|done|lia|lia|eapply last_le_pushed; [exact Hl1|lia|lia]].
  rewrite !newline_starts_app, slice_len, !reverse_app, !app_assoc by lia.
  replace (p + shift + (a - p)) with (a + shift) by lia.
  by replace (b + (shift + (zlen rep - (b - a)))) with (a + shift + zlen rep) by lia.
Qed.

Lemma edited_nil text : edited 0 text [] = text.
Proof. done. Qed.

Lemma update_line_starts_ok text edits :
  edits_sorted 0 text edits -> zlen (edited 0 text edits) <= U64_MAX ->
  update_line_starts_after_edits (compute_line_starts text) edits = compute_line_starts (edited 0 text edits).
Proof.
  intros Hs Hm. unfold update_line_starts_after_edits, compute_line_starts. destruct edits as [|e es]; [done|].
  change (drop 1 (0 :: newline_starts 0 text)) with (newline_starts 0 (zdrop 0 text)).
  rewrite update_loop_ok; [|lia|done|lia|lia|simpl; lia].
  by rewrite Z.add_0_r, reverse_app, reverse_involutive.
Qed.

(** the line index carried across the edits of a transaction is the line
    index of the edited text: for edits that are sorted, within the text and do
    not overlap, [update_line_starts_after_edits] of the old index gives exactly
    what [compute_line_starts] gives for the new text, which is made of the
    kept parts of the old one and the replacements between them. *)
Theorem line_index_update (text : list Z) (edits : list TextEdit) :
  edits_sorted 0 text edits -> zlen (edited 0 text edits) <= ISIZE_MAX ->
  update_line_starts_after_edits (compute_line_starts text) edits = compute_line_starts (edited 0 text edits).
Proof. intros Hs Hm. apply update_line_starts_ok; [done|]. unfold ISIZE_MAX, U64_MAX in *. lia. Qed.

(** ["a\nb\nc"]: replace ["\nb"] by ["xy"], put ["\n\n"] before ["c"]. *)
Lemma line_index_update_witness :
  update_line_starts_after_edits [0; 2; 4]
    [mkEdit (mkRange 1 3) [120; 121]; mkEdit (mkRange 4 4) [10; 10]] = [0; 4; 5; 6].
Proof.
  exact (line_index_update [97; 10; 98; 10; 99]
    [mkEdit (mkRange 1 3) [120; 121]; mkEdit (mkRange 4 4) [10; 10]]
    ltac:(vm_compute; intuition congruence) ltac:(vm_compute; congruence)).
Defined.
