(* ===== verification/TextBuffer.v ===== *)
(** * The editable text buffer

    Model of [crates/hapcli-editor-core/src/buffer.rs]: the buffer over the
    piece table and the line index, its transactions, undo and redo, its dirty
    flag, and the conversions between offsets, lines and columns.  The
    history's invariant is proved by induction over the operations. *)
From S2P Require Import Prelude Text PieceTable LineIndex.
From stdpp Require Import prelude list numbers sorting.
Open Scope Z_scope.

Record HistoryEntry := mkEntry {
  h_edits : list TextEdit;
  before_revision : Z;
  after_revision : Z
}.

(** The stacks have their top first; the other vectors are in order. *)
Record TextBuffer := mkBuffer {
  storage : PieceTableTextBuffer;
  text_cache : option (list Z);
  line_starts : list Z;
  version : Z;
  content_revision : Z;
  saved_revision : Z;
  next_content_revision : Z;
  undo_stack : list HistoryEntry;
  redo_stack : list HistoryEntry
}.

Definition TextBuffer_new (text : list Z) : TextBuffer :=
  mkBuffer (PieceTable_new text) (Some text) (compute_line_starts text) 0 0 0 1 [] [].

(** [with_text]: the cache is filled on the first read after an edit. *)
Definition with_text {R} (b : TextBuffer) (f : list Z -> R) : R * TextBuffer :=
  let cache := match text_cache b with Some text => text | None => to_text (storage b) end in
  (f cache, mkBuffer (storage b) (Some cache) (line_starts b) (version b) (content_revision b)
              (saved_revision b) (next_content_revision b) (undo_stack b) (redo_stack b)).

Definition text (b : TextBuffer) : list Z * TextBuffer := with_text b (fun t => t).

Definition len (b : TextBuffer) : Z := pt_len (storage b).
Definition is_empty (b : TextBuffer) : bool := PieceTable_is_empty (storage b).
Definition line_count (b : TextBuffer) : Z := zlen (line_starts b).
Definition is_dirty (b : TextBuffer) : bool := negb (content_revision b =? saved_revision b).

Definition mark_saved (b : TextBuffer) : TextBuffer :=
  mkBuffer (storage b) (text_cache b) (line_starts b) (version b) (content_revision b)
    (content_revision b) (next_content_revision b) (undo_stack b) (redo_stack b).

(** ** Validation *)

Definition validate_offset_for_storage (t : PieceTableTextBuffer) (offset : Z) : result EditorError unit :=
  if pt_len t <? offset then Err (OffsetOutOfBounds offset (pt_len t))
  else if negb (is_char_boundary t offset) then Err (InvalidUtf8Boundary offset)
  else Ok tt.

Definition validate_offset (b : TextBuffer) (offset : Z) : result EditorError unit :=
  if pt_len (storage b) <? offset then Err (OffsetOutOfBounds offset (pt_len (storage b)))
  else if negb (is_char_boundary (storage b) offset) then Err (InvalidUtf8Boundary offset)
  else Ok tt.

Definition validate_range (b : TextBuffer) (range : TextRange) : result EditorError unit :=
  let? _ := validate_offset b (r_start range) in
  let? _ := validate_offset b (r_end range) in
  if r_end range <? r_start range then Err (InvalidRange (r_start range) (r_end range)) else Ok tt.

Definition buffer_slice (b : TextBuffer) (range : TextRange) : result EditorError (list Z) :=
  let? _ := validate_range b range in
  Ok (slice_to_string (storage b) (r_start range) (r_end range)).

(** ** Lines *)

(** [Vec::get] at an index that is a [usize]. *)
Definition vec_get {A} (l : list A) (i : Z) : option A := if i <? 0 then None else l !! Z.to_nat i.

Definition line_start_offset (b : TextBuffer) (line : Z) : option Z := vec_get (line_starts b) line.

Definition line_end_offset (b : TextBuffer) (line : Z) : option Z :=
  match vec_get (line_starts b) line with
  | None => None
  | Some start =>
      let end_ := match vec_get (line_starts b) (line + 1) with
                  | Some next => sat_sub next 1
                  | None => pt_len (storage b)
                  end in
      Some (Z.max end_ start)
  end.

Definition line_text (b : TextBuffer) (line : Z) : option (list Z) :=
  match vec_get (line_starts b) line, line_end_offset b line with
  | Some start, Some end_ => Some (slice_to_string (storage b) start end_)
  | _, _ => None
  end.

(** [str::get] with a range. *)
Definition str_get (text : list Z) (a b : Z) : option (list Z) :=
  if (a <=? b) && str_is_char_boundary text a && str_is_char_boundary text b then Some (slice a b text)
  else None.

Definition with_line_text {R} (b : TextBuffer) (line : Z) (f : list Z -> R) : option R * TextBuffer :=
  match vec_get (line_starts b) line, line_end_offset b line with
  | Some start, Some end_ => with_text b (fun text => f <$> str_get text start end_)
  | _, _ => (None, b)
  end.

(** [chars().count()]. *)
Definition chars_count (text : list Z) : Z := zlen (filter (fun c => is_cont c = false) text).

Definition line_char_count (b : TextBuffer) (text : list Z) (line start : Z) : Z :=
  let end_ := Z.max (match vec_get (line_starts b) (line + 1) with
                     | Some next => sat_sub next 1
                     | None => zlen text
                     end) start in
  match str_get text start end_ with Some line_text => chars_count line_text | None => 0 end.

Definition line_char_counts (b : TextBuffer) : list Z * TextBuffer :=
  with_text b (fun text =>
    imap (fun i start => line_char_count b text (Z.of_nat i) start) (line_starts b)).

(** [slice::binary_search] on a strictly ascending vector: the position of
    [x], or the one at which it could be inserted. *)
Fixpoint search_from (l : list Z) (x i : Z) : Z + Z :=
  match l with
  | [] => inr i
  | y :: l => if y =? x then inl i else if x <? y then inr i else search_from l x (i + 1)
  end.
Definition binary_search (l : list Z) (x : Z) : Z + Z := search_from l x 0.

Definition offset_to_line_col (b : TextBuffer) (offset : Z) : result EditorError LineCol :=
  let? _ := validate_offset b offset in
  let line := match binary_search (line_starts b) offset with
              | inl line => line
              | inr next_line => sat_sub next_line 1
              end in
  Ok (mkLineCol line (offset - default 0 (vec_get (line_starts b) line))).

Definition line_col_to_offset (b : TextBuffer) (position : LineCol) : result EditorError Z :=
  let? start := ok_or (vec_get (line_starts b) (lc_line position))
                  (InvalidLine (lc_line position) (line_count b)) in
  let? line_end := ok_or (line_end_offset b (lc_line position))
                     (InvalidLine (lc_line position) (line_count b)) in
  let offset := start + lc_column position in
  if line_end <? offset
  then Err (InvalidColumn (lc_line position) (lc_column position) (line_end - start))
  else let? _ := validate_offset b offset in Ok offset.

(** ** Edits *)

Definition edit_le (x y : TextEdit) : bool :=
  (r_start (e_range x) <? r_start (e_range y))
  || ((r_start (e_range x) =? r_start (e_range y)) && (r_end (e_range x) <=? r_end (e_range y))).

(** [sort_by] is stable: of two equal edits the earlier stays first. *)
Fixpoint insert_edit (x : TextEdit) (l : list TextEdit) : list TextEdit :=
  match l with
  | [] => [x]
  | y :: l' => if edit_le x y then x :: l else y :: insert_edit x l'
  end.
Definition sort_edits (l : list TextEdit) : list TextEdit := foldr insert_edit [] l.

Fixpoint check_edits (t : PieceTableTextBuffer) (edits : list TextEdit) (previous_end : Z)
    : result EditorError unit :=
  match edits with
  | [] => Ok tt
  | edit :: rest =>
      let s := r_start (e_range edit) in
      let e := r_end (e_range edit) in
      let? _ := validate_offset_for_storage t s in
      let? _ := validate_offset_for_storage t e in
      if e <? s then Err (InvalidRange s e)
      else if s <? previous_end then Err (OverlappingEdits s)
      else check_edits t rest e
  end.

Definition normalize_edits_for_storage (edits : list TextEdit) (t : PieceTableTextBuffer)
    : result EditorError (list TextEdit) :=
  let edits := sort_edits edits in
  let? _ := check_edits t edits 0 in
  Ok edits.

(** [checked_sub] and [checked_add] on [usize]. *)
Definition apply_delta (offset delta : Z) : result EditorError Z :=
  match delta ?= 0 with
  | Lt => if offset <? - delta then Err EditDeltaOverflow else Ok (offset - - delta)
  | Eq => Ok offset
  | Gt => if U64_MAX <? offset + delta then Err EditDeltaOverflow else Ok (offset + delta)
  end.

(** The loop that collects the inverse edits. *)
Fixpoint inverse_edits (t : PieceTableTextBuffer) (edits : list TextEdit) (delta : Z)
    : result EditorError (list TextEdit) :=
  match edits with
  | [] => Ok []
  | edit :: rest =>
      let original := slice_to_string t (r_start (e_range edit)) (r_end (e_range edit)) in
      let? start_after := apply_delta (r_start (e_range edit)) delta in
      let end_after := start_after + zlen (e_replacement edit) in
      let? inverse := inverse_edits t rest
                        (delta + (zlen (e_replacement edit) - TextRange_len (e_range edit))) in
      Ok (TextEdit_new (TextRange_new start_after end_after) original :: inverse)
  end.

Definition apply_edits_internal (b : TextBuffer) (edits : list TextEdit)
    : TextBuffer * result EditorError (list TextEdit) :=
  match normalize_edits_for_storage edits (storage b) with
  | Err e => (b, Err e)
  | Ok edits =>
      match inverse_edits (storage b) edits 0 with
      | Err e => (b, Err e)
      | Ok inverse =>
          let next_line_starts := update_line_starts_after_edits (line_starts b) edits in
          let storage' := fold_left replace_edit (reverse edits) (storage b) in
          (mkBuffer storage' None next_line_starts (sat_add (version b) 1) (content_revision b)
             (saved_revision b) (next_content_revision b) (undo_stack b) (redo_stack b), Ok inverse)
      end
  end.

Definition allocate_content_revision (b : TextBuffer) : Z * TextBuffer :=
  (next_content_revision b,
   mkBuffer (storage b) (text_cache b) (line_starts b) (version b) (content_revision b)
     (saved_revision b) (sat_add (next_content_revision b) 1) (undo_stack b) (redo_stack b)).

(** The fields that the history operations write. *)
Definition set_history (b : TextBuffer) (revision : Z) (undo redo : list HistoryEntry) : TextBuffer :=
  mkBuffer (storage b) (text_cache b) (line_starts b) (version b) revision
    (saved_revision b) (next_content_revision b) undo redo.

Definition apply_transaction (b : TextBuffer) (transaction : EditTransaction)
    : TextBuffer * result EditorError unit :=
  if EditTransaction_is_empty transaction then (b, Ok tt)
  else
    let before := content_revision b in
    let '(after, b) := allocate_content_revision b in
    match apply_edits_internal b transaction with
    | (b, Err e) => (b, Err e)
    | (b, Ok inverse) =>
        (set_history b after (mkEntry inverse before after :: undo_stack b) [], Ok tt)
    end.

Definition replace_selection (b : TextBuffer) (selection : Selection) (replacement : list Z)
    : TextBuffer * result EditorError Selection :=
  let range := Selection_range selection in
  let caret := r_start range + zlen replacement in
  match apply_transaction b (EditTransaction_single (TextEdit_new range replacement)) with
  | (b, Err e) => (b, Err e)
  | (b, Ok _) => (b, Ok (Selection_caret caret))
  end.

Definition undo (b : TextBuffer) : TextBuffer * result EditorError bool :=
  match undo_stack b with
  | [] => (b, Ok false)
  | entry :: rest =>
      match apply_edits_internal (set_history b (content_revision b) rest (redo_stack b)) (h_edits entry) with
      | (b, Err e) => (b, Err e)
      | (b, Ok redo) =>
          (set_history b (before_revision entry) (undo_stack b)
             (mkEntry redo (before_revision entry) (after_revision entry) :: redo_stack b), Ok true)
      end
  end.

Definition redo (b : TextBuffer) : TextBuffer * result EditorError bool :=
  match redo_stack b with
  | [] => (b, Ok false)
  | entry :: rest =>
      match apply_edits_internal (set_history b (content_revision b) (undo_stack b) rest) (h_edits entry) with
      | (b, Err e) => (b, Err e)
      | (b, Ok undo) =>
          (set_history b (after_revision entry)
             (mkEntry undo (before_revision entry) (after_revision entry) :: undo_stack b) (redo_stack b), Ok true)
      end
  end.

(** ** Edits on a plain string *)

(** What an edit given to the buffer is: offsets are unsigned and the
    replacement is a string. *)
Definition edit_wf (e : TextEdit) : Prop :=
  0 <= r_start (e_range e) /\ 0 <= r_end (e_range e) /\ starts_clean (e_replacement e).

(** Edits that the checks accept, the previous one having ended at [from]. *)
Fixpoint edits_valid (from : Z) (text : list Z) (edits : list TextEdit) : Prop :=
  match edits with
  | [] => True
  | e :: es =>
      from <= r_start (e_range e) /\ r_start (e_range e) <= r_end (e_range e)
      /\ r_end (e_range e) <= zlen text
      /\ str_is_char_boundary text (r_start (e_range e)) = true
      /\ str_is_char_boundary text (r_end (e_range e)) = true
      /\ edits_valid (r_end (e_range e)) text es
  end.

(** The edits that take the edited text back, [delta] being the growth so
    far. *)
Fixpoint inverses (text : list Z) (edits : list TextEdit) (delta : Z) : list TextEdit :=
  match edits with
  | [] => []
  | e :: es =>
      let s := r_start (e_range e) in
      mkEdit (mkRange (s + delta) (s + delta + zlen (e_replacement e))) (slice s (r_end (e_range e)) text)
      :: inverses text es (delta + (zlen (e_replacement e) - TextRange_len (e_range e)))
  end.

Lemma valid_sorted from text es : edits_valid from text es -> edits_sorted from text es.
Proof.
  revert from. induction es as [|e es IH]; intros from; [done|]. simpl.
  intros (H1 & H2 & H3 & _ & _ & H4). split_and!; [done|done|done|by apply IH].
Qed.

(** Accepted edits are in the order [sort_by] gives. *)
Lemma sort_valid from text es : edits_valid from text es -> sort_edits es = es.
Proof.
  revert from. induction es as [|e es IH]; intros from; [done|]. simpl. intros (H1 & H2 & _ & _ & _ & H4).
  rewrite (IH _ H4). destruct es as [|f es]; [done|]. simpl in *. destruct H4 as (H5 & H6 & _).
  unfold edit_le. destruct (Z.ltb_spec (r_start (e_range e)) (r_start (e_range f))); [done|].
  replace (r_start (e_range e) =? r_start (e_range f)) with true by lia.
  by replace (r_end (e_range e) <=? r_end (e_range f)) with true by lia.
Qed.

Lemma insert_edit_perm e l : insert_edit e l ≡ₚ e :: l.
Proof.
  induction l as [|y l IH]; simpl; [done|]. destruct (edit_le e y); [done|]. rewrite IH. constructor.
Qed.

Lemma sort_edits_perm l : sort_edits l ≡ₚ l.
Proof. induction l as [|e l IH]; simpl; [done|]. by rewrite insert_edit_perm, IH. Qed.

Lemma sort_wf l : Forall edit_wf l -> Forall edit_wf (sort_edits l).
Proof. intros H. by rewrite sort_edits_perm. Qed.

(** The boundary where two strings meet. *)
Lemma boundary_app l k : starts_clean k -> str_is_char_boundary (l ++ k) (zlen l) = true.
Proof.
  intros Hk. unfold str_is_char_boundary. destruct (_ =? 0); [done|]. rewrite zlen_app.
  pose proof (zlen_nonneg k). destruct (Z.leb_spec (zlen l + zlen k) (zlen l)); [apply Z.eqb_eq; lia|].
  unfold zlen. rewrite Nat2Z.id, lookup_app_r, Nat.sub_diag by lia.
  destruct k as [|b k]; [unfold zlen in *; simpl in *; lia|]. simpl in *. by rewrite Hk.
Qed.

Lemma drop_clean i l : 0 <= i -> clean_at l i -> starts_clean (zdrop i l).
Proof.
  intros H0 Hc. specialize (Hc H0). unfold zdrop. pose proof (lookup_drop l (Z.to_nat i) 0) as Hl.
  rewrite Nat.add_0_r in Hl. destruct (drop (Z.to_nat i) l) as [|b k]; [done|]. simpl in *. by rewrite <-Hl in Hc.
Qed.

Lemma take_clean n l : starts_clean l -> starts_clean (ztake n l).
Proof. unfold ztake. intros H. destruct (Z.to_nat n), l; done. Qed.

Lemma app_clean l k : starts_clean l -> starts_clean k -> starts_clean (l ++ k).
Proof. by destruct l. Qed.

Section OnString.
Context (text : list Z) (Htext : starts_clean text).

Lemma valid_clean i : 0 <= i -> str_is_char_boundary text i = true -> clean_at text i.
Proof. intros H0 H. by apply boundary_clean_0. Qed.

Lemma edited_clean es p :
  0 <= p -> str_is_char_boundary text p = true -> edits_valid p text es -> Forall edit_wf es ->
  starts_clean (edited p text es).
Proof.
  revert p. induction es as [|e es IH]; intros p H0 Hp Hv Hw; simpl in *.
  - apply drop_clean; [done|by apply valid_clean].
  - destruct Hv as (H1 & H2 & H3 & H4 & H5 & H6). apply Forall_cons in Hw as [(W1 & W2 & W3) Hw].
    apply app_clean; [|apply app_clean; [done|by apply IH]].
    unfold slice. apply take_clean, drop_clean; [done|by apply valid_clean].
Qed.

Lemma clean_at_take e i R :
  e <= zlen text -> 0 <= i -> i <= e -> str_is_char_boundary text i = true -> starts_clean R ->
  clean_at (ztake e text ++ R) i.
Proof.
  intros He H0 Hi Hb HR. apply clean_at_grow; [unfold ztake, zlen in *; rewrite length_take; lia|done|].
  intros _. unfold ztake. rewrite lookup_take. destruct (decide _); [|done]. by apply (valid_clean i).
Qed.

Lemma ztake_split a b (l : list Z) : 0 <= a -> a <= b -> ztake b l = ztake a l ++ slice a b l.
Proof. intros. by rewrite !ztake_slice, slice_app_split by lia. Qed.

(** Replacing from the last edit to the first makes all edits at once. *)
Lemma storage_fold t es p :
  table_ok t -> to_text t = text -> 0 <= p -> p <= zlen text -> edits_valid p text es -> Forall edit_wf es ->
  let t' := foldr (fun e t => replace_edit t e) t es in
  table_ok t' /\ to_text t' = ztake p text ++ edited p text es.
Proof.
  intros Hok Ht. revert p. induction es as [|e es IH]; intros p H0 Hp Hv Hw; simpl in *.
  { split; [done|]. rewrite Ht. unfold ztake, zdrop. by rewrite take_drop. }
  destruct Hv as (H1 & H2 & H3 & H4 & H5 & H6). apply Forall_cons in Hw as [(W1 & W2 & W3) Hw].
  destruct (IH (r_end (e_range e))) as [I1 I2]; [done|done|done|done|].
  set (t1 := foldr _ t es) in *.
  assert (HR : starts_clean (edited (r_end (e_range e)) text es)) by (apply edited_clean; (done || lia)).
  assert (Hlt : zlen (ztake (r_end (e_range e)) text) = r_end (e_range e))
    by (unfold ztake, zlen in *; rewrite length_take; lia).
  destruct (replace_ok t1 (r_start (e_range e)) (r_end (e_range e)) (e_replacement e)) as [R1 R2]; try done.
  { destruct I1 as [_ ->]. rewrite I2, zlen_app, Hlt. pose proof (zlen_nonneg (edited (r_end (e_range e)) text es)). lia. }
  { rewrite I2. apply clean_at_take; (done || lia). }
  { rewrite I2. apply clean_at_take; (done || lia). }
  split; [done|]. unfold replace_edit. rewrite R2, I2, ztake_app_le, zdrop_app_ge, Hlt, Z.sub_diag by lia.
  assert (Ht2 : ztake (r_start (e_range e)) (ztake (r_end (e_range e)) text) = ztake (r_start (e_range e)) text)
    by (unfold ztake; rewrite take_take; f_equal; lia).
  by rewrite (zdrop_neg 0), Ht2, (ztake_split p (r_start (e_range e)) text), <-app_assoc by lia.
Qed.

Lemma slice_mid (l m k : list Z) : slice (zlen l) (zlen l + zlen m) (l ++ m ++ k) = m.
Proof.
  unfold slice, ztake, zdrop, zlen. rewrite Nat2Z.id, drop_app_length.
  replace (Z.to_nat _) with (length m) by lia. by rewrite take_app_length.
Qed.

(** The inverse edits are accepted by the edited text, give the old text
    back, and have the edits themselves as their inverse. *)
Lemma inverses_ok es p delta pre text' :
  0 <= p -> p + delta = zlen pre -> edits_valid p text es -> Forall edit_wf es ->
  text' = pre ++ edited p text es ->
  edits_valid (p + delta) text' (inverses text es delta)
  /\ Forall edit_wf (inverses text es delta)
  /\ edited (p + delta) text' (inverses text es delta) = zdrop p text
  /\ inverses text' (inverses text es delta) (- delta) = es.
Proof.
  revert p delta pre. induction es as [|e es IH]; intros p delta pre H0 Hpre Hv Hw Ht'.
  { simpl in *. split_and!; [done|constructor| |done].
    subst text'. rewrite Hpre, zdrop_app_ge, Z.sub_diag by lia. by rewrite (zdrop_neg 0) by lia. }
  cbn [edits_valid edited inverses] in *. destruct e as [[s f] rep]. cbn [e_range e_replacement r_start r_end] in *.
  destruct Hv as (H1 & H2 & H3 & H4 & H5 & H6). apply Forall_cons in Hw as [(W1 & W2 & W3) Hw].
  cbn [e_range e_replacement r_start r_end] in *. unfold TextRange_len. cbn [e_range e_replacement r_start r_end].
  set (delta' := delta + (zlen rep - (f - s))). set (pre' := pre ++ slice p s text ++ rep).
  assert (Hpre' : f + delta' = zlen pre').
  { unfold pre', delta'. rewrite !zlen_app, slice_len by lia. lia. }
  assert (Ht1 : text' = pre' ++ edited f text es) by (unfold pre'; by rewrite Ht', <-!app_assoc).
  assert (Ht2 : text' = (pre ++ slice p s text) ++ rep ++ edited f text es) by (by rewrite Ht', <-!app_assoc).
  assert (Hs : s + delta = zlen (pre ++ slice p s text)) by (rewrite zlen_app, slice_len by lia; lia).
  assert (Hf : s + delta + zlen rep = zlen pre') by (unfold delta' in *; lia).
  destruct (IH f delta' pre') as (I1 & I2 & I3 & I4); try done.
  assert (HR : starts_clean (edited f text es)) by (apply edited_clean; (done || lia)).
  rewrite Hf, <-Hpre'. rewrite I3. split_and!.
  - lia.
  - pose proof (zlen_nonneg rep). lia.
  - rewrite Hpre', Ht1, zlen_app. pose proof (zlen_nonneg (edited f text es)). lia.
  - rewrite Ht2, Hs. apply boundary_app. by apply app_clean.
  - rewrite Ht1, Hpre'. by apply boundary_app.
  - done.
  - constructor; [|done]. unfold edit_wf. simpl. pose proof (zlen_nonneg (pre ++ slice p s text)).
    pose proof (zlen_nonneg pre'). split_and!; [lia|lia|].
    unfold slice. apply take_clean, drop_clean; [lia|by apply valid_clean].
  - rewrite (zdrop_split p s), (zdrop_split s f) by lia. f_equal.
    rewrite Ht', Hpre. replace (s + delta) with (zlen pre + zlen (slice p s text)) by (rewrite slice_len; lia).
    apply slice_mid.
  - rewrite slice_len by lia. replace (s + delta + - delta) with s by lia.
    replace (s + (f - s)) with f by lia.
    replace (- delta + (f - s - (f + delta' - (s + delta)))) with (- delta') by (unfold delta'; lia).
    rewrite I4. do 2 f_equal. rewrite Ht2, Hs, Hpre', <-Hf, Hs. apply slice_mid.
Qed.
End OnString.

(** ** One application of edits *)

Lemma validate_storage_iff t off :
  table_ok t -> 0 <= off ->
  validate_offset_for_storage t off = Ok tt
  <-> off <= zlen (to_text t) /\ str_is_char_boundary (to_text t) off = true.
Proof.
  intros Hok H0. unfold validate_offset_for_storage. rewrite is_char_boundary_ok by done.
  pose proof (proj2 Hok) as Hlen. rewrite Hlen. destruct (Z.ltb_spec (zlen (to_text t)) off).
  - split; [done|lia].
  - destruct (str_is_char_boundary _ _); simpl; split; intros; try done; by destruct_and?.
Qed.

Lemma check_edits_iff t es prev :
  table_ok t -> Forall edit_wf es ->
  check_edits t es prev = Ok tt <-> edits_valid prev (to_text t) es.
Proof.
  intros Hok Hw. revert prev. induction Hw as [|e es (W1 & W2 & W3) _ IH]; intros prev; simpl; [done|].
  pose proof (validate_storage_iff t (r_start (e_range e)) Hok W1) as V1.
  pose proof (validate_storage_iff t (r_end (e_range e)) Hok W2) as V2.
  rewrite <-IH. destruct (validate_offset_for_storage t (r_start _)) as [[]|]; simpl;
    [|split; [done|]; intros (? & ? & ? & ? & ? & ?); by apply V1; split; [lia|]].
  destruct (validate_offset_for_storage t (r_end _)) as [[]|]; simpl;
    [|split; [done|]; intros (? & ? & ? & ? & ? & ?); by apply V2; split; [lia|]].
  destruct (proj1 V1 eq_refl), (proj1 V2 eq_refl).
  destruct (Z.ltb_spec (r_end (e_range e)) (r_start (e_range e))); [split; [done|lia]|].
  destruct (Z.ltb_spec (r_start (e_range e)) prev); [split; [done|lia]|].
  split; [intros; by split_and!|by intros (? & ? & ? & ? & ? & ?)].
Qed.

Lemma inverse_edits_ok t es p delta :
  table_ok t -> edits_valid p (to_text t) es -> 0 <= p -> 0 <= p + delta ->
  p + delta + zlen (edited p (to_text t) es) <= U64_MAX ->
  inverse_edits t es delta = Ok (inverses (to_text t) es delta).
Proof.
  intros Hok. revert p delta. induction es as [|e es IH]; intros p delta Hv H0 Hd Hmax; [done|].
  cbn [edits_valid edited inverses inverse_edits] in *. destruct Hv as (H1 & H2 & H3 & H4 & H5 & H6).
  rewrite !zlen_app, slice_len in Hmax by lia. pose proof (zlen_nonneg (e_replacement e)).
  set (R := edited _ _ es) in *. pose proof (zlen_nonneg R). unfold apply_delta.
  assert (Hcmp : match delta ?= 0 with
    | Lt => if r_start (e_range e) <? - delta then Err EditDeltaOverflow else Ok (r_start (e_range e) - - delta)
    | Eq => Ok (r_start (e_range e))
    | Gt => if U64_MAX <? r_start (e_range e) + delta then Err EditDeltaOverflow
            else Ok (r_start (e_range e) + delta)
    end = @Ok EditorError Z (r_start (e_range e) + delta)).
  { destruct (Z.compare_spec delta 0).
    - f_equal. lia.
    - rewrite (proj2 (Z.ltb_ge _ _)) by lia. f_equal. lia.
    - by rewrite (proj2 (Z.ltb_ge _ _)) by lia. }
  rewrite Hcmp. simpl. rewrite (IH (r_end (e_range e))); [|done|lia| |]; cycle 1.
  { unfold TextRange_len. lia. }
  { unfold TextRange_len. fold R. lia. }
  simpl. unfold TextEdit_new, TextRange_new. rewrite (proj2 (Z.leb_le _ _)) by lia.
  rewrite slice_to_string_ok; [done|done|lia|]. destruct Hok as [_ ->]. lia.
Qed.

(** A buffer that holds [text], with its line index and its cache. *)
Definition holds (b : TextBuffer) (text : list Z) : Prop :=
  table_ok (storage b) /\ to_text (storage b) = text /\ line_starts b = compute_line_starts text
  /\ (text_cache b = None \/ text_cache b = Some text) /\ zlen text <= ISIZE_MAX.

Lemma holds_clean b text : holds b text -> starts_clean text.
Proof. intros (H1 & <- & _). apply text_starts_clean, H1. Qed.

Lemma apply_edits_ok b text es :
  holds b text -> Forall edit_wf es -> edits_valid 0 text (sort_edits es) ->
  zlen (edited 0 text (sort_edits es)) <= ISIZE_MAX ->
  exists b', apply_edits_internal b es = (b', Ok (inverses text (sort_edits es) 0))
    /\ holds b' (edited 0 text (sort_edits es))
    /\ version b' = sat_add (version b) 1
    /\ content_revision b' = content_revision b /\ saved_revision b' = saved_revision b
    /\ next_content_revision b' = next_content_revision b
    /\ undo_stack b' = undo_stack b /\ redo_stack b' = redo_stack b.
Proof.
  intros Hh Hw Hv Hm. pose proof (holds_clean b text Hh) as Hcl. destruct Hh as (Hok & Ht & Hls & Hc & Hlen).
  apply sort_wf in Hw. unfold apply_edits_internal, normalize_edits_for_storage.
  rewrite (proj2 (check_edits_iff _ _ 0 Hok Hw)) by (by rewrite Ht). simpl.
  rewrite (inverse_edits_ok _ _ 0 0); [|done|by rewrite Ht|lia|lia|rewrite Ht; unfold ISIZE_MAX, U64_MAX in *; lia].
  rewrite Ht. eexists. split; [reflexivity|]. split; [|by cbn].
  pose proof (zlen_nonneg text).
  destruct (storage_fold text Hcl (storage b) (sort_edits es) 0 Hok Ht ltac:(lia) ltac:(lia) Hv Hw) as [S1 S2].
  assert (Hfold : fold_left replace_edit (reverse (sort_edits es)) (storage b)
    = foldr (fun e t => replace_edit t e) (storage b) (sort_edits es)).
  { rewrite <-fold_left_rev_right, rev_alt. f_equal. apply reverse_involutive. }
  split; [|split; [|split; [|split]]]; cbn.
  - by rewrite Hfold.
  - by rewrite Hfold, S2.
  - rewrite Hls. apply update_line_starts_ok; [by apply valid_sorted|]. unfold ISIZE_MAX, U64_MAX in *. lia.
  - by left.
  - done.
Qed.

Lemma apply_edits_err b text es :
  holds b text -> Forall edit_wf es -> ~ edits_valid 0 text (sort_edits es) ->
  exists e, apply_edits_internal b es = (b, Err e).
Proof.
  intros (Hok & Ht & _) Hw Hv. apply sort_wf in Hw. unfold apply_edits_internal, normalize_edits_for_storage.
  rewrite <-Ht in Hv. rewrite <-(check_edits_iff _ _ 0 Hok Hw) in Hv.
  destruct (check_edits (storage b) (sort_edits es) 0) as [[]|e]; [done|]. by exists e.
Qed.

(** ** The buffer as a state machine *)

Inductive BufferOp : Type :=
| OpTransaction (edits : EditTransaction)
| OpUndo
| OpRedo
| OpSave
| OpRead.

Definition exec (b : TextBuffer) (op : BufferOp) : TextBuffer :=
  match op with
  | OpTransaction edits => fst (apply_transaction b edits)
  | OpUndo => fst (undo b)
  | OpRedo => fst (redo b)
  | OpSave => mark_saved b
  | OpRead => snd (text b)
  end.

(** What the machine can hold: no string has more than [isize::MAX] bytes, and
    fewer than [u64::MAX] transactions were made. *)
Definition op_fits (b : TextBuffer) (op : BufferOp) : Prop :=
  match op with
  | OpTransaction edits =>
      Forall edit_wf edits
      /\ (edits_valid 0 (to_text (storage b)) (sort_edits edits) ->
          zlen (edited 0 (to_text (storage b)) (sort_edits edits)) <= ISIZE_MAX)
      /\ next_content_revision b < U64_MAX
  | _ => True
  end.

(** The buffers that operations reach from a new one, with the text that was
    saved last (a new buffer counts as saved). *)
Inductive reachable : TextBuffer -> list Z -> Prop :=
| reach_new text0 :
    starts_clean text0 -> zlen text0 <= ISIZE_MAX -> reachable (TextBuffer_new text0) text0
| reach_step b saved op :
    reachable b saved -> op_fits b op ->
    reachable (exec b op) (match op with OpSave => to_text (storage b) | _ => saved end).

(** *** The history's invariant *)

Section Chain.
(** The revision an entry leaves and the one it leads to. *)
Context (from to : HistoryEntry -> Z).

(** Entries that can be taken one after another from [text] at revision
    [rev]; [G] gives the text of each revision below [next]. *)
Fixpoint chain (G : Z -> list Z) (next : Z) (text : list Z) (rev : Z) (stack : list HistoryEntry) : Prop :=
  match stack with
  | [] => True
  | en :: rest =>
      from en = rev /\ Forall edit_wf (h_edits en) /\ edits_valid 0 text (h_edits en)
      /\ zlen (edited 0 text (h_edits en)) <= ISIZE_MAX
      /\ G (to en) = edited 0 text (h_edits en) /\ to en < next
      /\ chain G next (edited 0 text (h_edits en)) (to en) rest
  end.

Lemma chain_mono G G' next next' text rev stack :
  (forall r, r < next -> G' r = G r) -> next <= next' ->
  chain G next text rev stack -> chain G' next' text rev stack.
Proof.
  intros HG Hn. revert text rev. induction stack as [|en rest IH]; intros text rev; simpl; [done|].
  intros (H1 & H2 & H3 & H4 & H5 & H6 & H7). split_and!; try done; [by rewrite HG|lia|by apply IH].
Qed.
End Chain.

Definition undo_chain := chain after_revision before_revision.
Definition redo_chain := chain before_revision after_revision.

(** The invariant, for the text [text] and the text saved last. *)
Definition buffer_inv (b : TextBuffer) (text saved : list Z) (G : Z -> list Z) : Prop :=
  holds b text
  /\ G (content_revision b) = text /\ content_revision b < next_content_revision b
  /\ G (saved_revision b) = saved /\ saved_revision b < next_content_revision b
  /\ undo_chain G (next_content_revision b) text (content_revision b) (undo_stack b)
  /\ redo_chain G (next_content_revision b) text (content_revision b) (redo_stack b).

(** Edits accepted by a text, and the way back. *)
Lemma way_back text es :
  starts_clean text -> Forall edit_wf es -> edits_valid 0 text es ->
  let text' := edited 0 text es in
  let inv := inverses text es 0 in
  Forall edit_wf inv /\ edits_valid 0 text' inv /\ edited 0 text' inv = text /\ inverses text' inv 0 = es.
Proof.
  intros Hc Hw Hv. destruct (inverses_ok text Hc es 0 0 [] (edited 0 text es)) as (H1 & H2 & H3 & H4); try done.
Qed.

(** Undo and redo are the same step in two directions: the top entry of one
    stack is taken and its inverse goes on the other. *)
Lemma history_step b text en :
  holds b text -> Forall edit_wf (h_edits en) -> edits_valid 0 text (h_edits en) ->
  zlen (edited 0 text (h_edits en)) <= ISIZE_MAX ->
  exists b', apply_edits_internal b (h_edits en) = (b', Ok (inverses text (h_edits en) 0))
    /\ holds b' (edited 0 text (h_edits en))
    /\ content_revision b' = content_revision b /\ saved_revision b' = saved_revision b
    /\ next_content_revision b' = next_content_revision b
    /\ undo_stack b' = undo_stack b /\ redo_stack b' = redo_stack b.
Proof.
  intros Hh Hw Hv Hm. pose proof (sort_valid _ _ _ Hv) as Hs.
  destruct (apply_edits_ok b text (h_edits en)) as (b' & H1 & H2 & _ & H3); try done; rewrite Hs in *; try done.
  exists b'. exact (conj H1 (conj H2 H3)).
Qed.

Lemma holds_set_history b text rev u r : holds b text -> holds (set_history b rev u r) text.
Proof. done. Qed.

Lemma undo_step b text saved G en rest :
  buffer_inv b text saved G -> undo_stack b = en :: rest ->
  exists b', undo b = (b', Ok true) /\ buffer_inv b' (edited 0 text (h_edits en)) saved G
    /\ content_revision b' = before_revision en /\ saved_revision b' = saved_revision b
    /\ undo_stack b' = rest
    /\ redo_stack b' = mkEntry (inverses text (h_edits en) 0) (before_revision en) (after_revision en) :: redo_stack b.
Proof.
  intros (Hh & HG & Hcr & HGs & Hsr & Hu & Hr) Hst. pose proof (holds_clean _ _ Hh) as Hc.
  unfold undo. rewrite Hst in *. destruct Hu as (U1 & U2 & U3 & U4 & U5 & U6 & U7).
  destruct (history_step (set_history b (content_revision b) rest (redo_stack b)) text en)
    as (b' & E1 & E2 & E3 & E4 & E5 & E6 & E7); try done.
  destruct (way_back text (h_edits en) Hc U2 U3) as (B1 & B2 & B3 & B4).
  rewrite E1. cbn in E3, E4, E5, E6, E7. rewrite E6, E7. eexists. split; [reflexivity|].
  split; [|cbn; by rewrite E4]. split; [by apply holds_set_history|]. cbn. rewrite E4, E5. split_and!; try done.
  - rewrite B3. destruct Hh as (_ & _ & _ & _ & ?). done.
  - by rewrite U1, B3.
  - lia.
  - by rewrite B3, U1.
Qed.

Lemma redo_step b text saved G en rest :
  buffer_inv b text saved G -> redo_stack b = en :: rest ->
  exists b', redo b = (b', Ok true) /\ buffer_inv b' (edited 0 text (h_edits en)) saved G
    /\ content_revision b' = after_revision en /\ saved_revision b' = saved_revision b
    /\ redo_stack b' = rest
    /\ undo_stack b' = mkEntry (inverses text (h_edits en) 0) (before_revision en) (after_revision en) :: undo_stack b.
Proof.
  intros (Hh & HG & Hcr & HGs & Hsr & Hu & Hr) Hst. pose proof (holds_clean _ _ Hh) as Hc.
  unfold redo. rewrite Hst in *. destruct Hr as (U1 & U2 & U3 & U4 & U5 & U6 & U7).
  destruct (history_step (set_history b (content_revision b) (undo_stack b) rest) text en)
    as (b' & E1 & E2 & E3 & E4 & E5 & E6 & E7); try done.
  destruct (way_back text (h_edits en) Hc U2 U3) as (B1 & B2 & B3 & B4).
  rewrite E1. cbn in E3, E4, E5, E6, E7. rewrite E6, E7. eexists. split; [reflexivity|].
  split; [|cbn; by rewrite E4]. split; [by apply holds_set_history|]. cbn. rewrite E4, E5. split_and!; try done.
  - rewrite B3. destruct Hh as (_ & _ & _ & _ & ?). done.
  - by rewrite U1, B3.
  - lia.
  - by rewrite B3, U1.
Qed.

(** A new text gets a new revision. *)
Definition record_revision (G : Z -> list Z) (rev : Z) (text : list Z) : Z -> list Z :=
  fun r => if r =? rev then text else G r.

Lemma record_below G rev text r : r < rev -> record_revision G rev text r = G r.
Proof. intros. unfold record_revision. by rewrite (proj2 (Z.eqb_neq _ _)) by lia. Qed.

Lemma record_same G rev text : record_revision G rev text rev = text.
Proof. unfold record_revision. by rewrite Z.eqb_refl. Qed.

Lemma sat_add_1 n : n < U64_MAX -> sat_add n 1 = n + 1.
Proof. unfold sat_add. lia. Qed.

Lemma transaction_step b text saved G es :
  buffer_inv b text saved G -> Forall edit_wf es -> es <> [] -> edits_valid 0 text (sort_edits es) ->
  zlen (edited 0 text (sort_edits es)) <= ISIZE_MAX -> next_content_revision b < U64_MAX ->
  let text' := edited 0 text (sort_edits es) in
  exists b', apply_transaction b es = (b', Ok tt)
    /\ buffer_inv b' text' saved (record_revision G (next_content_revision b) text')
    /\ content_revision b' = next_content_revision b /\ saved_revision b' = saved_revision b
    /\ undo_stack b' = mkEntry (inverses text (sort_edits es) 0) (content_revision b) (next_content_revision b)
                       :: undo_stack b
    /\ redo_stack b' = [].
Proof.
  intros (Hh & HG & Hcr & HGs & Hsr & Hu & Hr) Hw Hne Hv Hm Hnext text'. subst text'. pose proof (holds_clean _ _ Hh) as Hc.
  unfold apply_transaction, EditTransaction_is_empty. rewrite bool_decide_eq_false_2 by (by destruct es).
  cbn [allocate_content_revision]. unfold allocate_content_revision.
  set (b0 := mkBuffer _ _ _ _ _ _ _ _ _). assert (Hh0 : holds b0 text) by done.
  destruct (apply_edits_ok b0 text es) as (b' & E1 & E2 & _ & E3 & E4 & E5 & E6 & E7); try done.
  destruct (way_back text (sort_edits es) Hc ltac:(by apply sort_wf) Hv) as (B1 & B2 & B3 & B4).
  rewrite E1. cbn in E3, E4, E5, E6, E7. rewrite E6. rewrite sat_add_1 in E5 by done.
  eexists. split; [reflexivity|]. split; [|cbn; by rewrite E4]. split; [by apply holds_set_history|].
  cbn. rewrite E4, E5. split_and!; try done.
  - apply record_same.
  - lia.
  - by rewrite record_below.
  - lia.
  - rewrite B3. by destruct Hh as (_ & _ & _ & _ & ?).
  - by rewrite record_below, B3.
  - lia.
  - rewrite B3. eapply chain_mono; [|  |exact Hu]; [intros; by rewrite record_below|lia].
Qed.

Lemma transaction_fails b text saved G es :
  buffer_inv b text saved G -> Forall edit_wf es -> es <> [] -> ~ edits_valid 0 text (sort_edits es) ->
  next_content_revision b < U64_MAX ->
  exists e, apply_transaction b es = (snd (allocate_content_revision b), Err e)
    /\ buffer_inv (snd (allocate_content_revision b)) text saved G.
Proof.
  intros (Hh & HG & Hcr & HGs & Hsr & Hu & Hr) Hw Hne Hv Hnext.
  unfold apply_transaction, EditTransaction_is_empty. rewrite bool_decide_eq_false_2 by (by destruct es).
  unfold allocate_content_revision. set (b0 := mkBuffer _ _ _ _ _ _ _ _ _).
  destruct (apply_edits_err b0 text es) as (e & He); try done. rewrite He. exists e. split; [done|].
  split; [done|]. cbn. rewrite sat_add_1 by done. split_and!; try done; try lia.
  - eapply chain_mono; [|  |exact Hu]; [done|lia].
  - eapply chain_mono; [|  |exact Hr]; [done|lia].
Qed.

#[export] Instance edits_valid_dec from text es : Decision (edits_valid from text es).
Proof. revert from. induction es as [|e es IH]; intros from; simpl; apply _. Defined.

Lemma reachable_inv b saved : reachable b saved -> exists G, buffer_inv b (to_text (storage b)) saved G.
Proof.
  induction 1 as [text0 Hc Hm|b saved op _ [G IH] Hf].
  - exists (fun _ => text0). destruct (piece_table_new_ok text0 Hc) as [H1 H2]. change (storage (TextBuffer_new text0)) with (PieceTable_new text0). rewrite H2.
    split; [|cbn; split_and!; (done || lia)]. split_and!; try done. by right.
  - assert (Hsame : forall b' text', holds b' text' -> to_text (storage b') = text') by (by intros ? ? (_ & ? & _)).
    destruct op as [es| | | |]; cbn in *.
    + destruct Hf as (Hw & Hfit & Hn). destruct (decide (es = [])) as [->|Hne]; [by exists G|].
      destruct (decide (edits_valid 0 (to_text (storage b)) (sort_edits es))) as [Hv|Hv].
      * destruct (transaction_step b _ saved G es IH Hw Hne Hv (Hfit Hv) Hn) as (b' & -> & Hi & _).
        eexists. cbn. rewrite (Hsame b' _ (proj1 Hi)). exact Hi.
      * destruct (transaction_fails b _ saved G es IH Hw Hne Hv Hn) as (e & -> & Hi). by exists G.
    + destruct (undo_stack b) as [|en rest] eqn:Hst; [unfold undo; rewrite Hst; by exists G|].
      destruct (undo_step _ _ _ _ _ _ IH Hst) as (b' & -> & Hi & _). exists G. cbn. by rewrite (Hsame b' _ (proj1 Hi)).
    + destruct (redo_stack b) as [|en rest] eqn:Hst; [unfold redo; rewrite Hst; by exists G|].
      destruct (redo_step _ _ _ _ _ _ IH Hst) as (b' & -> & Hi & _). exists G. cbn. by rewrite (Hsame b' _ (proj1 Hi)).
    + exists G. destruct IH as (Hh & HG & Hcr & HGs & Hsr & Hu & Hr). by split_and!.
    + exists G. destruct IH as ((I1 & I2 & I3 & I4 & I5) & Hrest). split; [|done].
      split_and!; try done. cbn. right. destruct I4 as [->| ->]; done.
Qed.

(** The content of a buffer that its users see. *)
Definition content (b : TextBuffer) : list Z := to_text (storage b).

(** Two buffers with the same text and history, whatever their versions and
    caches. *)
Definition same_content (b b' : TextBuffer) : Prop :=
  content b' = content b /\ line_starts b' = line_starts b /\ content_revision b' = content_revision b
  /\ saved_revision b' = saved_revision b /\ undo_stack b' = undo_stack b /\ redo_stack b' = redo_stack b.

Lemma inv_content b text saved G : buffer_inv b text saved G -> content b = text.
Proof. by intros ((_ & H & _) & _). Qed.

Lemma inv_lines b text saved G : buffer_inv b text saved G -> line_starts b = compute_line_starts text.
Proof. by intros ((_ & _ & H & _) & _). Qed.

(** Undo takes back exactly what redo would make again, and the other way. *)
Lemma undo_then_redo b text saved G :
  buffer_inv b text saved G -> undo_stack b <> [] ->
  exists b1 b2, undo b = (b1, Ok true) /\ redo b1 = (b2, Ok true) /\ same_content b b2.
Proof.
  intros Hi Hne. destruct (undo_stack b) as [|en rest] eqn:Hst; [done|].
  destruct (undo_step _ _ _ _ _ _ Hi Hst) as (b1 & E1 & I1 & C1 & S1 & U1 & R1).
  destruct (redo_step _ _ _ _ _ _ I1 R1) as (b2 & E2 & I2 & C2 & S2 & R2 & U2).
  exists b1, b2. split; [done|]. split; [done|]. cbn in I2, U2, C2.
  pose proof Hi as (Hh & _ & _ & _ & _ & Hu & _). rewrite Hst in Hu. destruct Hu as (V1 & V2 & V3 & _).
  destruct (way_back text (h_edits en) (holds_clean _ _ Hh) V2 V3) as (_ & _ & B3 & B4). rewrite B3 in I2.
  split_and!; try congruence.
  - by rewrite (inv_content _ _ _ _ I2), (inv_content _ _ _ _ Hi).
  - by rewrite (inv_lines _ _ _ _ I2), (inv_lines _ _ _ _ Hi).
  - rewrite U2, B4, U1, Hst. by destruct en.
Qed.

Lemma redo_then_undo b text saved G :
  buffer_inv b text saved G -> redo_stack b <> [] ->
  exists b1 b2, redo b = (b1, Ok true) /\ undo b1 = (b2, Ok true) /\ same_content b b2.
Proof.
  intros Hi Hne. destruct (redo_stack b) as [|en rest] eqn:Hst; [done|].
  destruct (redo_step _ _ _ _ _ _ Hi Hst) as (b1 & E1 & I1 & C1 & S1 & R1 & U1).
  destruct (undo_step _ _ _ _ _ _ I1 U1) as (b2 & E2 & I2 & C2 & S2 & U2 & R2).
  exists b1, b2. split; [done|]. split; [done|]. cbn in I2, R2, C2.
  pose proof Hi as (Hh & _ & _ & _ & _ & _ & Hr). rewrite Hst in Hr. destruct Hr as (V1 & V2 & V3 & _).
  destruct (way_back text (h_edits en) (holds_clean _ _ Hh) V2 V3) as (_ & _ & B3 & B4). rewrite B3 in I2.
  split_and!; try congruence.
  - by rewrite (inv_content _ _ _ _ I2), (inv_content _ _ _ _ Hi).
  - by rewrite (inv_lines _ _ _ _ I2), (inv_lines _ _ _ _ Hi).
  - rewrite R2, B4, R1, Hst. by destruct en.
Qed.

(** C31: undo and redo.  On every buffer that operations reach, undo succeeds
    whenever there is something to undo and redo then restores exactly the
    text, the line index, the content revision and both stacks; likewise redo
    then undo; with an empty stack both answer [false] and change nothing.
    Neither ever fails. *)
Theorem undo_redo_roundtrip (b : TextBuffer) (saved : list Z) :
  reachable b saved ->
  (if decide (undo_stack b = []) then undo b = (b, Ok false)
   else exists b1 b2, undo b = (b1, Ok true) /\ redo b1 = (b2, Ok true) /\ same_content b b2)
  /\ (if decide (redo_stack b = []) then redo b = (b, Ok false)
      else exists b1 b2, redo b = (b1, Ok true) /\ undo b1 = (b2, Ok true) /\ same_content b b2).
Proof.
  intros Hr. destruct (reachable_inv b saved Hr) as [G Hi]. split.
  - destruct (decide (undo_stack b = [])) as [He|He]; [unfold undo; by rewrite He|by eapply undo_then_redo].
  - destruct (decide (redo_stack b = [])) as [He|He]; [unfold redo; by rewrite He|by eapply redo_then_undo].
Qed.

(** C32: a transaction of one edit or more, on every buffer that operations reach
    (within the sizes of the machine's integers).  It succeeds
    exactly when its edits, sorted, lie on character boundaries of the text and
    do not overlap; then all of them are made at once, the line index is that of
    the new text, and one undo restores the text, the dirty flag and the
    undo stack.  Otherwise it fails and neither text, line index,
    revision nor history change. *)
Theorem transaction_atomic (b : TextBuffer) (saved : list Z) (es : EditTransaction) :
  reachable b saved -> op_fits b (OpTransaction es) -> es <> [] ->
  if decide (edits_valid 0 (content b) (sort_edits es)) then
    exists b' b'', apply_transaction b es = (b', Ok tt)
      /\ content b' = edited 0 (content b) (sort_edits es)
      /\ line_starts b' = compute_line_starts (content b')
      /\ undo b' = (b'', Ok true)
      /\ content b'' = content b /\ is_dirty b'' = is_dirty b /\ undo_stack b'' = undo_stack b
  else
    exists b' e, apply_transaction b es = (b', Err e) /\ same_content b b'.
Proof.
  intros Hr (Hw & Hfit & Hn) Hne. destruct (reachable_inv b saved Hr) as [G Hi].
  destruct (decide _) as [Hv|Hv].
  - destruct (transaction_step b _ saved G es Hi Hw Hne Hv (Hfit Hv) Hn) as (b' & E1 & I1 & C1 & S1 & U1 & R1).
    destruct (undo_step _ _ _ _ _ _ I1 U1) as (b'' & E2 & I2 & C2 & S2 & U2 & _). cbn in I2, C2.
    pose proof (holds_clean _ _ (proj1 Hi)) as Hc.
    destruct (way_back _ (sort_edits es) Hc ltac:(by apply sort_wf) Hv) as (_ & _ & B3 & _). rewrite B3 in I2.
    exists b', b''. rewrite (inv_content _ _ _ _ I1), (inv_content _ _ _ _ I2), (inv_lines _ _ _ _ I1).
    split_and!; try done. unfold is_dirty. by rewrite C2, S2, S1.
  - destruct (transaction_fails b _ saved G es Hi Hw Hne Hv Hn) as (e & E1 & I1). by exists (snd (allocate_content_revision b)), e.
Qed.

(** the dirty flag.  When a buffer that operations reach says it is not
    dirty, its text is the text that was saved last, whatever edits, undos and
    redos came in between. *)
Theorem clean_means_saved (b : TextBuffer) (saved : list Z) :
  reachable b saved -> is_dirty b = false -> content b = saved.
Proof.
  intros Hr Hd. destruct (reachable_inv b saved Hr) as [G (_ & HG & _ & HGs & _)].
  unfold is_dirty in Hd. apply negb_false_iff, Z.eqb_eq in Hd. unfold content. congruence.
Qed.

(** ** Lines and columns *)

Lemma starts_sorted text : StronglySorted Z.lt (compute_line_starts text).
Proof.
  constructor; [apply newline_starts_sorted|]. eapply Forall_impl; [apply newline_starts_bounds|]. simpl. lia.
Qed.

Lemma sorted_lookup (l : list Z) i j x y :
  StronglySorted Z.lt l -> l !! i = Some x -> l !! j = Some y -> (i < j)%nat -> x < y.
Proof.
  intros Hs. revert i j. induction Hs as [|z l Hs IH Hz]; intros i j Hi Hj Hij; [done|].
  destruct j as [|j]; [lia|]. destruct i as [|i]; simpl in *.
  - simplify_eq. exact (Forall_lookup_1 _ _ _ _ Hz Hj).
  - apply (IH i j); [done|done|lia].
Qed.

(** The line that the search of [offset_to_line_col] gives. *)
Definition found_line (r : Z + Z) : Z := match r with inl line => line | inr next_line => sat_sub next_line 1 end.

Lemma search_split A B x i :
  A <> [] -> 0 <= i -> StronglySorted Z.lt A -> Forall (fun y => y <= x) A -> Forall (fun y => x < y) B ->
  found_line (search_from (A ++ B) x i) = i + zlen A - 1.
Proof.
  intros Hne Hi Hs HA HB. revert i Hi. induction Hs as [|y A Hs IH Hy]; intros i Hi; [done|].
  apply Forall_cons in HA as [Hyx HA]. cbn [app search_from]. rewrite zlen_cons.
  destruct (Z.eqb_spec y x) as [->|Hn].
  { destruct A as [|z A]; [cbn [found_line]; rewrite zlen_nil; lia|]. apply Forall_cons in Hy as [Hz _], HA as [Hz' _]. lia. }
  rewrite (proj2 (Z.ltb_ge _ _)) by lia. destruct A as [|z A].
  - assert (Hr : search_from B x (i + 1) = inr (i + 1)).
    { destruct HB as [|w B Hw _]; [done|]. simpl. rewrite (proj2 (Z.eqb_neq _ _)) by lia.
      by rewrite (proj2 (Z.ltb_lt _ _)) by lia. }
    cbn [app]. rewrite Hr, zlen_nil. cbn [found_line]. unfold sat_sub. lia.
  - rewrite IH by (done || lia). lia.
Qed.

Lemma starts_at text off :
  0 <= off -> off <= zlen text ->
  compute_line_starts text
  = compute_line_starts (ztake off text) ++ newline_starts off (zdrop off text).
Proof.
  intros H0 H1. unfold compute_line_starts.
  rewrite <-(take_drop (Z.to_nat off) text) at 1. rewrite newline_starts_app, Z.add_0_l.
  fold (ztake off text) (zdrop off text).
  replace (zlen (ztake off text)) with off; [done|]. unfold ztake, zlen in *. rewrite length_take. lia.
Qed.

(** The last start of a prefix: no newline comes after it and one comes
    before it, unless the text has none. *)
Lemma last_start P :
  exists s, last (compute_line_starts P) = Some s /\ 0 <= s /\ s <= zlen P
    /\ Forall (fun c => c <> NEWLINE) (zdrop s P)
    /\ (s = 0 \/ P !! Z.to_nat (s - 1) = Some NEWLINE).
Proof.
  induction P as [|b P (s & IH1 & IH2 & IH3 & IH4 & IH5)] using rev_ind.
  { exists 0. split_and!; try done. by left. }
  unfold compute_line_starts in *. rewrite newline_starts_app, zlen_app. cbn [newline_starts].
  change (zlen [b]) with 1. rewrite app_comm_cons. destruct (Z.eqb_spec b NEWLINE) as [->|Hb].
  - exists (0 + zlen P + 1). rewrite last_snoc. split_and!; [done|lia|lia| |right].
    + unfold zdrop, zlen. rewrite drop_ge; [constructor|]. rewrite length_app. simpl. lia.
    + unfold zlen. rewrite lookup_app_r by lia. by replace (_ - _)%nat with 0%nat by lia.
  - exists s. rewrite app_nil_r. split_and!; [done|lia|lia| |].
    + rewrite zdrop_app_le by done. apply Forall_app. split; [done|]. by constructor.
    + destruct IH5 as [?|H]; [by left|right]. by apply lookup_app_l_Some.
Qed.

Lemma newline_count P i : length (newline_starts i P) = length (filter (fun c => c = NEWLINE) P).
Proof.
  revert i. induction P as [|b P IH]; intros i; [done|]. cbn [newline_starts]. rewrite filter_cons.
  destruct (Z.eqb_spec b NEWLINE); [rewrite decide_True by done|rewrite decide_False by done]; simpl; by rewrite IH.
Qed.

Lemma validate_iff b text off :
  holds b text -> 0 <= off ->
  validate_offset b off = Ok tt <-> off <= zlen text /\ str_is_char_boundary text off = true.
Proof. intros (Hok & <- & _) H0. apply (validate_storage_iff _ _ Hok H0). Qed.

(** The line of an offset, with where it starts and which line comes next. *)
Lemma line_of_offset b text off :
  holds b text -> 0 <= off -> off <= zlen text ->
  let line := zlen (filter (fun c => c = NEWLINE) (ztake off text)) in
  exists s, found_line (binary_search (line_starts b) off) = line
    /\ vec_get (line_starts b) line = Some s /\ last (compute_line_starts (ztake off text)) = Some s
    /\ s <= off
    /\ match vec_get (line_starts b) (line + 1) with Some next => off < next | None => True end.
Proof.
  intros (_ & _ & Hls & _) H0 H1 line. rewrite Hls, (starts_at text off H0 H1).
  set (A := compute_line_starts (ztake off text)). set (B := newline_starts off (zdrop off text)).
  assert (HB : Forall (fun y => off < y) B) by (eapply Forall_impl; [apply newline_starts_bounds|]; simpl; lia).
  assert (HlenP : zlen (ztake off text) = off) by (unfold ztake, zlen in *; rewrite length_take; lia).
  assert (Hline : 0 <= line) by (unfold line; apply zlen_nonneg).
  assert (HlenA : Z.of_nat (length A) = line + 1).
  { unfold A, compute_line_starts, line, zlen. simpl length. rewrite newline_count. lia. }
  destruct (last_start (ztake off text)) as (s & Hs & Hs0 & Hs1 & _). fold A in Hs. exists s. split_and!.
  - unfold binary_search. rewrite search_split; [unfold zlen; lia|done|lia|apply starts_sorted| |done].
    constructor; [lia|]. eapply Forall_impl; [apply newline_starts_bounds|]. simpl. lia.
  - unfold vec_get. rewrite (proj2 (Z.ltb_ge _ _)) by lia.
    rewrite last_lookup in Hs. rewrite lookup_app_l by lia.
    by replace (Z.to_nat line) with (pred (length A)) by lia.
  - done.
  - lia.
  - unfold vec_get. rewrite (proj2 (Z.ltb_ge _ _)) by lia.
    rewrite lookup_app_r by lia. destruct (B !! _) as [next|] eqn:Hn; [|done].
    by apply (Forall_lookup_1 _ _ _ _ HB Hn).
Qed.

Lemma line_end_of b text line s :
  holds b text -> vec_get (line_starts b) line = Some s ->
  exists e, line_end_offset b line = Some e /\ s <= e
    /\ match vec_get (line_starts b) (line + 1) with
       | Some next => e = next - 1
       | None => e = Z.max (zlen text) s
       end.
Proof.
  intros ([_ Hlen] & Ht & Hls & _) Hs. unfold line_end_offset. rewrite Hs. eexists. split; [done|].
  pose proof (starts_sorted text) as Hsort. rewrite <-Hls in Hsort. split; [lia|].
  destruct (vec_get (line_starts b) (line + 1)) as [next|] eqn:Hn; [|by rewrite Hlen, Ht].
  assert (s < next).
  { unfold vec_get in *. destruct (Z.ltb_spec line 0); [done|]. destruct (Z.ltb_spec (line + 1) 0); [done|].
    eapply (sorted_lookup (line_starts b)); [exact Hsort|exact Hs|exact Hn|lia]. }
  assert (0 <= s).
  { unfold vec_get in Hs. destruct (line <? 0); [done|]. rewrite Hls in Hs.
    assert (HF : Forall (fun x => 0 <= x) (compute_line_starts text)).
    { constructor; [lia|]. eapply Forall_impl; [apply newline_starts_bounds|]. simpl. lia. }
    exact (Forall_lookup_1 _ _ _ _ HF Hs). }
  unfold sat_sub. lia.
Qed.

(** Two lines that an offset lies on are the same. *)
Lemma line_unique b text l1 l2 s1 s2 off :
  holds b text -> vec_get (line_starts b) l1 = Some s1 -> vec_get (line_starts b) l2 = Some s2 ->
  s1 <= off -> s2 <= off ->
  match vec_get (line_starts b) (l1 + 1) with Some next => off < next | None => True end ->
  match vec_get (line_starts b) (l2 + 1) with Some next => off < next | None => True end -> l1 = l2.
Proof.
  intros (_ & _ & Hls & _). pose proof (starts_sorted text) as Hsort. rewrite <-Hls in Hsort.
  assert (Hle : forall i j x y, vec_get (line_starts b) i = Some x -> vec_get (line_starts b) j = Some y ->
    i <= j -> x <= y).
  { intros i j x y Hi Hj Hij. destruct (Z.eq_dec i j) as [->|]; [by simplify_eq|].
    unfold vec_get in Hi, Hj. destruct (Z.ltb_spec i 0); [done|]. destruct (Z.ltb_spec j 0); [done|].
    enough (x < y) by lia. eapply (sorted_lookup (line_starts b)); [exact Hsort|exact Hi|exact Hj|lia]. }
  assert (Hnext : forall i j y, i < j -> vec_get (line_starts b) j = Some y -> 0 <= i ->
    exists n, vec_get (line_starts b) (i + 1) = Some n).
  { intros i j y Hij Hj H0. unfold vec_get in *. rewrite (proj2 (Z.ltb_ge _ _)) in Hj by lia.
    rewrite (proj2 (Z.ltb_ge _ _)) by lia. apply lookup_lt_is_Some_2.
    apply lookup_lt_Some in Hj. lia. }
  assert (Hpos : forall i x, vec_get (line_starts b) i = Some x -> 0 <= i)
    by (intros i x; unfold vec_get; destruct (Z.ltb_spec i 0); [done|lia]).
  assert (Hno : forall i j x y, vec_get (line_starts b) i = Some x -> vec_get (line_starts b) j = Some y ->
    y <= off -> match vec_get (line_starts b) (i + 1) with Some next => off < next | None => True end -> ~ i < j).
  { intros i j x y Hi Hj Hy Hn Hij. destruct (Hnext i j y Hij Hj (Hpos _ _ Hi)) as [n Hn']. rewrite Hn' in Hn.
    specialize (Hle (i + 1) j n y Hn' Hj ltac:(lia)). lia. }
  intros G1 G2 L1 L2 N1 N2. pose proof (Hno l1 l2 s1 s2 G1 G2 L2 N1). pose proof (Hno l2 l1 s2 s1 G2 G1 L1 N2). lia.
Qed.

Lemma offset_found b text off :
  holds b text -> 0 <= off -> validate_offset b off = Ok tt ->
  let P := ztake off text in
  let line := zlen (filter (fun c => c = NEWLINE) P) in
  exists s, last (compute_line_starts P) = Some s /\ s <= off
    /\ vec_get (line_starts b) line = Some s
    /\ match vec_get (line_starts b) (line + 1) with Some next => off < next | None => True end
    /\ offset_to_line_col b off = Ok (mkLineCol line (off - s)).
Proof.
  intros Hh H0 Hv P line. destruct (proj1 (validate_iff b text off Hh H0) Hv) as [H1 H2].
  destruct (line_of_offset b text off Hh H0 H1) as (s & L1 & L2 & L3 & L4 & L5). fold P line in L1, L2, L3, L5.
  exists s. split_and!; try done. unfold offset_to_line_col. rewrite Hv. cbn [result_bind].
  fold (found_line (binary_search (line_starts b) off)). rewrite L1, L2. done.
Qed.

Lemma line_col_of b text off :
  holds b text -> 0 <= off -> validate_offset b off = Ok tt ->
  exists lc, offset_to_line_col b off = Ok lc /\ line_col_to_offset b lc = Ok off
    /\ lc_line lc = zlen (filter (fun c => c = NEWLINE) (ztake off text))
    /\ 0 <= lc_column lc /\ lc_column lc <= off
    /\ Forall (fun c => c <> NEWLINE) (slice (off - lc_column lc) off text)
    /\ (lc_column lc = off \/ text !! Z.to_nat (off - lc_column lc - 1) = Some NEWLINE).
Proof.
  intros Hh H0 Hv. destruct (proj1 (validate_iff b text off Hh H0) Hv) as [H1 _].
  destruct (offset_found b text off Hh H0 Hv) as (s & L1 & L2 & L3 & L4 & L5).
  set (line := zlen (filter _ _)) in *. exists (mkLineCol line (off - s)). split; [done|].
  destruct (last_start (ztake off text)) as (s' & S1 & S2 & S3 & S4 & S5). rewrite L1 in S1. injection S1 as <-.
  destruct (line_end_of b text line s Hh L3) as (e & E1 & E2 & E3). cbn [lc_line lc_column].
  replace (off - (off - s)) with s by lia. split; [|split; [done|split; [lia|split; [lia|split]]]].
  - unfold line_col_to_offset. cbn [lc_line lc_column]. rewrite L3, E1. cbn [ok_or result_bind].
    replace (s + (off - s)) with off by lia. rewrite (proj2 (Z.ltb_ge _ _)); [by rewrite Hv|].
    destruct (vec_get (line_starts b) (line + 1)); lia.
  - assert (Hsl : slice s off text = zdrop s (ztake off text)); [|by rewrite Hsl].
    unfold slice, ztake, zdrop. rewrite skipn_firstn_comm. f_equal. lia.
  - destruct S5 as [->|S5]; [left; lia|right]. unfold ztake in S5. rewrite lookup_take in S5.
    by destruct (decide _).
Qed.

Lemma offset_of_line_col b text lc off :
  holds b text -> 0 <= lc_column lc -> line_col_to_offset b lc = Ok off -> offset_to_line_col b off = Ok lc.
Proof.
  intros Hh Hc H. destruct lc as [line col]. cbn [lc_column] in Hc.
  unfold line_col_to_offset in H. cbn [lc_line lc_column] in H.
  destruct (vec_get (line_starts b) line) as [s|] eqn:Hs; [|done]. cbn [ok_or result_bind] in H.
  destruct (line_end_of b text line s Hh Hs) as (e & E1 & E2 & E3). rewrite E1 in H. cbn [ok_or result_bind] in H.
  destruct (Z.ltb_spec e (s + col)) as [|He]; [done|].
  destruct (validate_offset b (s + col)) as [[]|] eqn:Hv; [|done]. injection H as <-.
  assert (H0 : 0 <= s).
  { pose proof Hh as (_ & _ & Hls & _). unfold vec_get in Hs. destruct (line <? 0); [done|]. rewrite Hls in Hs.
    destruct (Z.to_nat line) as [|k]; [by injection Hs as <-|]. simpl in Hs.
    pose proof (Forall_lookup_1 _ _ _ _ (newline_starts_bounds 0 text) Hs). simpl in *. lia. }
  destruct (offset_found b text (s + col) Hh ltac:(lia) Hv) as (s' & L1 & L2 & L3 & L4 & L5).
  assert (Hline : zlen (filter (fun c => c = NEWLINE) (ztake (s + col) text)) = line).
  { eapply (line_unique b text _ _ s' s (s + col)); try done; [lia|].
    destruct (vec_get (line_starts b) (line + 1)); [lia|done]. }
  rewrite Hline in *. rewrite L5. rewrite Hs in L3. injection L3 as <-. do 2 f_equal. lia.
Qed.

(** Lines and columns, on every buffer that operations reach.  Every
    offset that the buffer accepts has a line and a column, which
    [line_col_to_offset] takes back to the offset: the line counts the newlines
    before the offset, and the column the bytes since the last one.  Every
    position that [line_col_to_offset] accepts is the one
    [offset_to_line_col] gives for its offset. *)
Theorem line_col_roundtrip (b : TextBuffer) (saved : list Z) (off : Z) :
  reachable b saved -> 0 <= off ->
  (validate_offset b off = Ok tt ->
   exists lc, offset_to_line_col b off = Ok lc /\ line_col_to_offset b lc = Ok off
     /\ lc_line lc = zlen (filter (fun c => c = NEWLINE) (ztake off (content b)))
     /\ 0 <= lc_column lc /\ lc_column lc <= off
     /\ Forall (fun c => c <> NEWLINE) (slice (off - lc_column lc) off (content b))
     /\ (lc_column lc = off \/ content b !! Z.to_nat (off - lc_column lc - 1) = Some NEWLINE))
  /\ (forall lc, 0 <= lc_column lc -> line_col_to_offset b lc = Ok off -> offset_to_line_col b off = Ok lc).
Proof.
  intros Hr H0. destruct (reachable_inv b saved Hr) as [G (Hh & _)]. split.
  - by apply line_col_of.
  - intros lc Hc. by eapply offset_of_line_col.
Qed.

(** *** The lines of a text *)

(** The slices that the starts delimit. *)
Fixpoint line_slices (text : list Z) (starts : list Z) : list (list Z) :=
  match starts with
  | [] => []
  | s :: rest =>
      slice s (match rest with next :: _ => next - 1 | [] => zlen text end) text :: line_slices text rest
  end.

Fixpoint join_lines (ls : list (list Z)) : list Z :=
  match ls with
  | [] => []
  | [l] => l
  | l :: rest => l ++ NEWLINE :: join_lines rest
  end.

Lemma join_lines_cons l ls : ls <> [] -> join_lines (l :: ls) = l ++ NEWLINE :: join_lines ls.
Proof. by destruct ls. Qed.

Lemma line_slices_2 text s n starts :
  line_slices text (s :: n :: starts) = slice s (n - 1) text :: line_slices text (n :: starts).
Proof. done. Qed.

Lemma join_slices pre seg rest :
  join_lines (line_slices (pre ++ seg ++ rest) (zlen pre :: newline_starts (zlen pre + zlen seg) rest)) = seg ++ rest.
Proof.
  revert pre seg. induction rest as [|c rest IH]; intros pre seg.
  - cbn [newline_starts line_slices join_lines]. rewrite app_nil_r, zlen_app. apply slice_right.
  - cbn [newline_starts]. destruct (Z.eqb_spec c NEWLINE) as [->|Hc].
    + specialize (IH (pre ++ seg ++ [NEWLINE]) []). rewrite app_nil_l, zlen_nil, Z.add_0_r, !zlen_app in IH.
      change (zlen [NEWLINE]) with 1 in IH. rewrite <-!app_assoc in IH. cbn [app] in IH. rewrite Z.add_assoc in IH.
      rewrite line_slices_2, join_lines_cons, IH by done.
      f_equal. replace (zlen pre + zlen seg + 1 - 1) with (zlen pre + zlen seg) by lia. apply slice_mid.
    + specialize (IH pre (seg ++ [c])). rewrite zlen_app, <-!app_assoc in IH. cbn [app] in IH.
      change (zlen [c]) with 1 in IH. by rewrite Z.add_assoc in IH.
Qed.

Lemma slices_no_newline pre seg rest :
  Forall (fun c => c <> NEWLINE) seg ->
  Forall (Forall (fun c => c <> NEWLINE))
    (line_slices (pre ++ seg ++ rest) (zlen pre :: newline_starts (zlen pre + zlen seg) rest)).
Proof.
  revert pre seg. induction rest as [|c rest IH]; intros pre seg Hseg.
  - cbn [newline_starts line_slices]. rewrite app_nil_r, zlen_app. constructor; [|constructor]. by rewrite slice_right.
  - cbn [newline_starts]. destruct (Z.eqb_spec c NEWLINE) as [->|Hc].
    + specialize (IH (pre ++ seg ++ [NEWLINE]) [] ltac:(constructor)).
      rewrite app_nil_l, zlen_nil, Z.add_0_r, !zlen_app in IH.
      change (zlen [NEWLINE]) with 1 in IH. rewrite <-!app_assoc in IH. cbn [app] in IH. rewrite Z.add_assoc in IH.
      rewrite line_slices_2. constructor; [|done].
      replace (zlen pre + zlen seg + 1 - 1) with (zlen pre + zlen seg) by lia. by rewrite slice_mid.
    + specialize (IH pre (seg ++ [c]) ltac:(apply Forall_app; split; [done|by constructor])).
      rewrite zlen_app, <-!app_assoc in IH. cbn [app] in IH.
      change (zlen [c]) with 1 in IH. by rewrite Z.add_assoc in IH.
Qed.

Lemma line_slices_lookup text starts i :
  StronglySorted Z.lt starts -> Forall (fun s => s <= zlen text) starts ->
  line_slices text starts !! i
  = (fun s => slice s (Z.max (match starts !! S i with Some next => next - 1 | None => zlen text end) s) text)
    <$> starts !! i.
Proof.
  intros Hs Hb. revert i. induction Hs as [|s starts Hs IH Hlt]; intros i; [done|].
  apply Forall_cons in Hb as [Hb1 Hb2]. destruct i as [|i]; [|by apply IH]. simpl. do 2 f_equal.
  destruct starts as [|n starts]; simpl; [lia|]. apply Forall_cons in Hlt as [? _]. lia.
Qed.

Lemma line_text_slices b text i :
  holds b text -> line_text b (Z.of_nat i) = line_slices text (compute_line_starts text) !! i.
Proof.
  intros Hh. pose proof Hh as (Hok & Ht & Hls & _). pose proof (proj2 Hok) as Hlen.
  assert (HF : Forall (fun s => 0 <= s /\ s <= zlen text) (compute_line_starts text)).
  { constructor; [pose proof (zlen_nonneg text); lia|]. eapply Forall_impl; [apply newline_starts_bounds|]. simpl. lia. }
  rewrite line_slices_lookup; [|apply starts_sorted|eapply Forall_impl; [exact HF|]; simpl; lia].
  unfold line_text, line_end_offset, vec_get. rewrite Hls.
  rewrite (proj2 (Z.ltb_ge _ _)), (proj2 (Z.ltb_ge (Z.of_nat i + 1) 0)) by lia.
  replace (Z.to_nat (Z.of_nat i + 1)) with (S i) by lia. rewrite Nat2Z.id.
  destruct (compute_line_starts text !! i) as [s|] eqn:Hs; [|done]. cbn [fmap option_fmap option_map].
  pose proof (Forall_lookup_1 _ _ _ _ HF Hs) as [? ?]. f_equal. rewrite Hlen, Ht.
  destruct (compute_line_starts text !! S i) as [n|] eqn:Hn.
  - pose proof (Forall_lookup_1 _ _ _ _ HF Hn) as [? ?].
    pose proof (sorted_lookup _ _ _ _ _ (starts_sorted text) Hs Hn ltac:(lia)).
    rewrite slice_to_string_ok, Ht; [|done|lia|rewrite Hlen, Ht; unfold sat_sub; lia]. f_equal. unfold sat_sub. lia.
  - rewrite slice_to_string_ok, Ht; [done|done|lia|rewrite Hlen, Ht; lia].
Qed.

(** The lines of every buffer that operations reach: there are as many as
    [line_count] says, one more than the text has newlines, no line contains a
    newline, and joined by newlines they are the text. *)
Theorem lines_join_to_text (b : TextBuffer) (saved : list Z) :
  reachable b saved ->
  exists ls, join_lines ls = content b /\ Forall (Forall (fun c => c <> NEWLINE)) ls /\ zlen ls = line_count b
    /\ line_count b = 1 + zlen (filter (fun c => c = NEWLINE) (content b))
    /\ (forall i, line_text b (Z.of_nat i) = ls !! i)
    /\ fst (text b) = content b.
Proof.
  intros Hr. destruct (reachable_inv b saved Hr) as [G (Hh & _)]. fold (content b) in Hh.
  pose proof Hh as (_ & _ & Hls & Hc & _). exists (line_slices (content b) (compute_line_starts (content b))).
  assert (Hlen : forall st, length (line_slices (content b) st) = length st)
    by (induction st; simpl; congruence).
  split_and!.
  - exact (join_slices [] [] (content b)).
  - exact (slices_no_newline [] [] (content b) (Forall_nil_2 _)).
  - unfold zlen, line_count, zlen. by rewrite Hlen, Hls.
  - unfold line_count, zlen. rewrite Hls. unfold compute_line_starts. simpl length. rewrite newline_count. lia.
  - intros i. by apply line_text_slices.
  - unfold text, with_text. cbn. by destruct Hc as [->| ->].
Qed.

(** ** A concrete run *)

(** ["ab\nc"]: put a newline after ["a"] and replace ["c"] by ["xyz"]; save;
    delete the first line; undo. *)
Definition run_edits : EditTransaction := [mkEdit (mkRange 3 4) [120; 121; 122]; mkEdit (mkRange 1 1) [10]].
Definition run_delete : EditTransaction := [mkEdit (mkRange 0 2) []].
Definition run_1 : TextBuffer := exec (TextBuffer_new [97; 98; 10; 99]) (OpTransaction run_edits).
Definition run_2 : TextBuffer := exec run_1 OpSave.
Definition run_3 : TextBuffer := exec run_2 (OpTransaction run_delete).
Definition run_4 : TextBuffer := exec run_3 OpUndo.

Ltac solve_fits :=
  split; [repeat constructor; vm_compute; congruence|split; [intros _; vm_compute; congruence|reflexivity]].

Lemma run_1_reachable : reachable run_1 [97; 98; 10; 99].
Proof.
  apply (reach_step (TextBuffer_new [97; 98; 10; 99]) [97; 98; 10; 99] (OpTransaction run_edits)).
  - constructor; [reflexivity|vm_compute; congruence].
  - solve_fits.
Qed.

Lemma run_2_reachable : reachable run_2 [97; 10; 98; 10; 120; 121; 122].
Proof. exact (reach_step run_1 [97; 98; 10; 99] OpSave run_1_reachable I). Qed.

Lemma run_4_reachable : reachable run_4 [97; 10; 98; 10; 120; 121; 122].
Proof.
  apply (reach_step run_3 [97; 10; 98; 10; 120; 121; 122] OpUndo); [|done].
  apply (reach_step run_2 _ (OpTransaction run_delete)); [apply run_2_reachable|solve_fits].
Qed.

(** One undo from [run_4] and one redo; one redo and one undo. *)
Lemma undo_redo_roundtrip_witness :
  (exists b1 b2, undo run_4 = (b1, Ok true) /\ redo b1 = (b2, Ok true) /\ same_content run_4 b2)
  /\ (exists b1 b2, redo run_4 = (b1, Ok true) /\ undo b1 = (b2, Ok true) /\ same_content run_4 b2).
Proof. exact (undo_redo_roundtrip run_4 _ run_4_reachable). Defined.

Lemma transaction_atomic_witness :
  exists b' b'', apply_transaction run_2 run_delete = (b', Ok tt)
    /\ content b' = [98; 10; 120; 121; 122]
    /\ line_starts b' = compute_line_starts (content b')
    /\ undo b' = (b'', Ok true)
    /\ content b'' = content run_2 /\ is_dirty b'' = is_dirty run_2 /\ undo_stack b'' = undo_stack run_2.
Proof.
  exact (transaction_atomic run_2 _ run_delete run_2_reachable ltac:(solve_fits) ltac:(discriminate)).
Defined.

(** After the undo the buffer is clean again. *)
Lemma clean_means_saved_witness : content run_4 = [97; 10; 98; 10; 120; 121; 122].
Proof. exact (clean_means_saved run_4 _ run_4_reachable eq_refl). Defined.

Lemma line_col_roundtrip_witness :
  exists lc, offset_to_line_col run_4 6 = Ok lc /\ line_col_to_offset run_4 lc = Ok 6.
Proof.
  destruct (proj1 (line_col_roundtrip run_4 _ 6 run_4_reachable ltac:(lia)) eq_refl) as (lc & H1 & H2 & _).
  exists lc. exact (conj H1 H2).
Defined.

Lemma lines_join_to_text_witness : exists ls, join_lines ls = content run_4 /\ zlen ls = 3.
Proof.
  destruct (lines_join_to_text run_4 _ run_4_reachable) as (ls & H1 & _ & H2 & _).
  exists ls. exact (conj H1 H2).
Defined.
