(* ===== verification/Cursor.v ===== *)
(** * Graphemes, the cursor and the cursor set

    Model of the grapheme steps of [buffer.rs], and of [cursor.rs] and
    [multicursor.rs] of [crates/hapcli-editor-core/src].  The segmentation of a
    string into grapheme clusters is the [unicode-segmentation] crate's: it is
    a parameter, with what its documentation promises as hypotheses. *)
From S2P Require Import Prelude Text PieceTable LineIndex TextBuffer.
From stdpp Require Import prelude list numbers sorting.
Open Scope Z_scope.

Record Cursor := mkCursor { selection : Selection; preferred_column : option Z }.

Definition Cursor_new (offset : Z) : Cursor := mkCursor (Selection_caret offset) None.
Definition set_selection (c : Cursor) (s : Selection) : Cursor := mkCursor s None.

Definition set_head (c : Cursor) (head : Z) (extend : bool) : Cursor :=
  mkCursor (if extend then mkSelection (sel_anchor (selection c)) head else Selection_caret head) None.

Definition move_to (c : Cursor) (offset : Z) (extend : bool) : Cursor := set_head c offset extend.

Definition preferred_column_or (c : Cursor) (current_column : Z) : Z * Cursor :=
  let column := default current_column (preferred_column c) in
  (column, mkCursor (selection c) (Some column)).

Definition move_to_with_preferred_column (c : Cursor) (offset : Z) (extend : bool) (column : Z) : Cursor :=
  mkCursor (if extend then mkSelection (sel_anchor (selection c)) offset else Selection_caret offset)
    (Some column).

Section Graphemes.
(** [UnicodeSegmentation::graphemes(true)]. *)
Context (graphemes : list Z -> list (list Z)).

Definition next_grapheme_offset (b : TextBuffer) (offset : Z) : Z * TextBuffer :=
  if match validate_offset b offset with Ok _ => pt_len (storage b) <=? offset | Err _ => true end
  then (pt_len (storage b), b)
  else with_text b (fun text =>
    let remaining := zdrop offset text in
    let next_len := match head (graphemes remaining) with Some g => zlen g | None => 0 end in
    Z.min (offset + next_len) (zlen text)).

Definition previous_grapheme_offset (b : TextBuffer) (offset : Z) : Z * TextBuffer :=
  if match validate_offset b offset with Ok _ => offset =? 0 | Err _ => true end
  then (0, b)
  else with_text b (fun text =>
    let prefix := ztake offset text in
    let previous_len := match last (graphemes prefix) with Some g => zlen g | None => 0 end in
    sat_sub offset previous_len).

Definition move_left (c : Cursor) (b : TextBuffer) (extend : bool) : Cursor * TextBuffer :=
  if negb extend && negb (Selection_is_caret (selection c))
  then (set_head c (r_start (Selection_range (selection c))) extend, b)
  else let '(next, b) := previous_grapheme_offset b (sel_head (selection c)) in (set_head c next extend, b).

Definition move_right (c : Cursor) (b : TextBuffer) (extend : bool) : Cursor * TextBuffer :=
  if negb extend && negb (Selection_is_caret (selection c))
  then (set_head c (r_end (Selection_range (selection c))) extend, b)
  else let '(next, b) := next_grapheme_offset b (sel_head (selection c)) in (set_head c next extend, b).

(** The clusters of a string are non-empty parts of it, in order, each of
    whole characters. *)
Hypothesis graphemes_concat : forall s, concat (graphemes s) = s.
Hypothesis graphemes_parts :
  forall s, starts_clean s -> Forall (fun g => g <> [] /\ starts_clean g) (graphemes s).

(** An offset the buffer accepts. *)
Definition offset_ok (b : TextBuffer) (off : Z) : Prop := 0 <= off /\ validate_offset b off = Ok tt.

Lemma offset_ok_len b text : holds b text -> offset_ok b (zlen text).
Proof.
  intros Hh. split; [apply zlen_nonneg|]. apply (validate_iff b text _ Hh (zlen_nonneg _)). split; [lia|].
  unfold str_is_char_boundary. destruct (_ =? 0); [done|]. by rewrite Z.leb_refl, Z.eqb_refl.
Qed.

Lemma offset_ok_0 b text : holds b text -> offset_ok b 0.
Proof. intros Hh. split; [lia|]. apply (validate_iff b text _ Hh); [lia|]. split; [apply zlen_nonneg|done]. Qed.

Lemma offset_ok_app b l k : holds b (l ++ k) -> starts_clean k -> offset_ok b (zlen l).
Proof.
  intros Hh Hk. split; [apply zlen_nonneg|]. apply (validate_iff b _ _ Hh (zlen_nonneg _)).
  rewrite zlen_app. pose proof (zlen_nonneg k). split; [lia|by apply boundary_app].
Qed.

Lemma with_text_holds {R} b text (f : list Z -> R) :
  holds b text -> fst (with_text b f) = f text /\ holds (snd (with_text b f)) text.
Proof.
  intros (H1 & H2 & H3 & H4 & H5). unfold with_text. cbn [fst snd].
  assert (Hc : match text_cache b with Some t => t | None => to_text (storage b) end = text)
    by (by destruct H4 as [->| ->]).
  rewrite Hc. split; [done|]. split; [done|]. split; [done|]. split; [done|]. split; [by right|done].
Qed.

Lemma concat_clean gs : Forall (fun g => g <> [] /\ starts_clean g) gs -> starts_clean (concat gs).
Proof. induction 1 as [|g gs [Hg Hc] _ IH]; [done|]. simpl. by apply app_clean. Qed.

Lemma next_grapheme_ok b text off :
  holds b text -> offset_ok b off -> off < zlen text ->
  exists next b', next_grapheme_offset b off = (next, b') /\ holds b' text
    /\ off < next /\ next <= zlen text /\ offset_ok b next
    /\ head (graphemes (zdrop off text)) = Some (slice off next text).
Proof.
  intros Hh [H0 Hv] Hlt. destruct (proj1 (validate_iff b text off Hh H0) Hv) as [_ Hb].
  pose proof (holds_clean _ _ Hh) as Hc. unfold next_grapheme_offset. rewrite Hv.
  assert (Hlen : pt_len (storage b) = zlen text) by (by destruct Hh as ([_ ->] & -> & _)).
  rewrite Hlen, (proj2 (Z.leb_gt _ _)) by done.
  assert (Hrc : starts_clean (zdrop off text)) by (apply drop_clean; [done|by apply boundary_clean_0]).
  pose proof (graphemes_concat (zdrop off text)) as Hg. pose proof (graphemes_parts _ Hrc) as Hp.
  assert (Hrl : zlen (zdrop off text) = zlen text - off) by (unfold zdrop, zlen in *; rewrite length_drop; lia).
  destruct (graphemes (zdrop off text)) as [|g gs] eqn:Hgr; [rewrite <-Hg in Hrl; change (zlen (concat [])) with 0 in Hrl; lia|].
  apply Forall_cons in Hp as [[Hg1 Hg2] Hgs]. simpl in Hg. cbn [head].
  assert (0 < zlen g) by (destruct g as [|x g]; [done|]; rewrite zlen_cons; pose proof (zlen_nonneg g); lia).
  rewrite <-Hg, zlen_app in Hrl. pose proof (zlen_nonneg (concat gs)).
  assert (Htx : text = (ztake off text ++ g) ++ concat gs)
    by (unfold ztake; rewrite <-app_assoc, Hg; symmetry; apply take_drop).
  assert (Hpre : zlen (ztake off text ++ g) = off + zlen g)
    by (rewrite zlen_app; unfold ztake, zlen in *; rewrite length_take; lia).
  match goal with |- context [with_text b ?f] => destruct (with_text_holds b text f Hh) as [W1 W2] end.
  eexists _, _. split; [apply surjective_pairing|]. split; [exact W2|]. rewrite W1.
  cbv beta zeta. rewrite Hgr. cbn [head]. rewrite Z.min_l by lia. split_and!; [lia|lia| |].
  - rewrite <-Hpre. apply (offset_ok_app b _ (concat gs)); [by rewrite <-Htx|by apply concat_clean].
  - f_equal. unfold slice. rewrite <-Hg. replace (off + zlen g - off) with (zlen g) by lia.
    unfold ztake, zlen. by rewrite Nat2Z.id, take_app_length.
Qed.

Lemma previous_grapheme_ok b text off :
  holds b text -> offset_ok b off -> 0 < off ->
  exists prev b', previous_grapheme_offset b off = (prev, b') /\ holds b' text
    /\ 0 <= prev /\ prev < off /\ offset_ok b prev
    /\ last (graphemes (ztake off text)) = Some (slice prev off text).
Proof.
  intros Hh [H0 Hv] Hlt. destruct (proj1 (validate_iff b text off Hh H0) Hv) as [Hle Hb].
  pose proof (holds_clean _ _ Hh) as Hc. unfold previous_grapheme_offset. rewrite Hv.
  rewrite (proj2 (Z.eqb_neq _ _)) by lia.
  assert (Hpc : starts_clean (ztake off text)) by (by apply take_clean).
  pose proof (graphemes_concat (ztake off text)) as Hg. pose proof (graphemes_parts _ Hpc) as Hp.
  assert (Hpl : zlen (ztake off text) = off) by (unfold ztake, zlen in *; rewrite length_take; lia).
  destruct (graphemes (ztake off text)) as [|g gs _] eqn:Hgr using rev_ind;
    [rewrite <-Hg in Hpl; change (zlen (concat [])) with 0 in Hpl; lia|].
  apply Forall_app in Hp as [Hgs Hp]. apply Forall_cons in Hp as [[Hg1 Hg2] _].
  rewrite concat_app in Hg. simpl in Hg. rewrite app_nil_r in Hg.
  assert (0 < zlen g) by (destruct g as [|x g]; [done|]; rewrite zlen_cons; pose proof (zlen_nonneg g); lia).
  rewrite <-Hg, zlen_app in Hpl. pose proof (zlen_nonneg (concat gs)).
  assert (Htx : text = concat gs ++ g ++ zdrop off text)
    by (rewrite app_assoc, Hg; symmetry; apply take_drop).
  assert (Hrc : starts_clean (zdrop off text)) by (apply drop_clean; [done|by apply boundary_clean_0]).
  match goal with |- context [with_text b ?f] => destruct (with_text_holds b text f Hh) as [W1 W2] end.
  eexists _, _. split; [apply surjective_pairing|]. split; [exact W2|]. rewrite W1.
  cbv beta zeta. rewrite Hgr, last_snoc. unfold sat_sub. rewrite Z.max_l by lia.
  replace (off - zlen g) with (zlen (concat gs)) by lia. split_and!; [lia|lia| |].
  - apply (offset_ok_app b _ (g ++ zdrop off text)); [by rewrite <-Htx|by apply app_clean].
  - f_equal. rewrite Htx. replace off with (zlen (concat gs) + zlen g) at 1 by lia. symmetry. apply slice_mid.
Qed.

(** *** Cursor moves *)

Inductive CursorOp : Type :=
| MoveLeft (extend : bool)
| MoveRight (extend : bool)
| MoveTo (offset : Z) (extend : bool)
| MoveToColumn (offset : Z) (extend : bool) (column : Z)
| SetSelection (s : Selection)
| PreferredColumn (current : Z).

Definition cursor_exec (c : Cursor) (b : TextBuffer) (op : CursorOp) : Cursor * TextBuffer :=
  match op with
  | MoveLeft extend => move_left c b extend
  | MoveRight extend => move_right c b extend
  | MoveTo offset extend => (move_to c offset extend, b)
  | MoveToColumn offset extend column => (move_to_with_preferred_column c offset extend column, b)
  | SetSelection s => (set_selection c s, b)
  | PreferredColumn current => (snd (preferred_column_or c current), b)
  end.

Definition selection_ok (b : TextBuffer) (s : Selection) : Prop :=
  offset_ok b (sel_anchor s) /\ offset_ok b (sel_head s).

(** The offsets that a caller hands over are the buffer's. *)
Definition cursor_op_ok (b : TextBuffer) (op : CursorOp) : Prop :=
  match op with
  | MoveTo offset _ | MoveToColumn offset _ _ => offset_ok b offset
  | SetSelection s => selection_ok b s
  | _ => True
  end.

Lemma offset_ok_same b b' text off : holds b text -> holds b' text -> offset_ok b off -> offset_ok b' off.
Proof.
  intros H H' [H0 Hv]. split; [done|]. apply (validate_iff b' text off H' H0). by apply (validate_iff b text off H H0).
Qed.

Lemma next_offset_ok b text off :
  holds b text -> offset_ok b off ->
  exists next b', next_grapheme_offset b off = (next, b') /\ holds b' text /\ offset_ok b next
    /\ (off < zlen text -> off < next) /\ (off = zlen text -> next = off).
Proof.
  intros Hh Ho. destruct (Z.lt_ge_cases off (zlen text)) as [Hlt|Hge].
  - destruct (next_grapheme_ok b text off Hh Ho Hlt) as (next & b' & E & H & L1 & L2 & O & _).
    exists next, b'. split; [done|]. split; [done|]. split; [done|]. split; [done|lia].
  - destruct Ho as [H0 Hv]. exists (zlen text), b. unfold next_grapheme_offset. rewrite Hv.
    assert (Hlen : pt_len (storage b) = zlen text) by (by destruct Hh as ([_ ->] & -> & _)).
    rewrite Hlen, (proj2 (Z.leb_le _ _)) by done.
    split; [done|]. split; [done|]. split; [by eapply offset_ok_len|]. split; [lia|done].
Qed.

Lemma prev_offset_ok b text off :
  holds b text -> offset_ok b off ->
  exists prev b', previous_grapheme_offset b off = (prev, b') /\ holds b' text /\ offset_ok b prev
    /\ (0 < off -> prev < off) /\ (off = 0 -> prev = 0).
Proof.
  intros Hh Ho. destruct (Z.eq_dec off 0) as [->|Hne].
  - exists 0, b. unfold previous_grapheme_offset. rewrite (proj2 Ho). cbn [Z.eqb].
    split; [done|]. split; [done|]. split; [done|]. split; [lia|done].
  - pose proof Ho as [H0 _]. destruct (previous_grapheme_ok b text off Hh Ho ltac:(lia)) as (prev & b' & E & H & L1 & L2 & O & _).
    exists prev, b'. split; [done|]. split; [done|]. split; [done|]. split; [done|lia].
Qed.

Lemma set_head_ok b c off extend :
  selection_ok b (selection c) -> offset_ok b off -> selection_ok b (selection (set_head c off extend)).
Proof. intros [H1 H2] H. by destruct extend. Qed.

Lemma range_ok b s :
  selection_ok b s -> offset_ok b (r_start (Selection_range s)) /\ offset_ok b (r_end (Selection_range s)).
Proof. intros [H1 H2]. unfold Selection_range, TextRange_new. by destruct (_ <=? _). Qed.

(** The cursor stays on the text.  From a selection whose ends are offsets
    the buffer accepts, every cursor operation, over any buffer that operations
    reach, leaves the text as it is and gives such a selection again: no
    grapheme step lands inside a character or beyond the text.  A caret moved
    right advances until it is at the end, one moved left goes back until it is
    at the start, and there it stays. *)
Theorem cursor_stays_on_text (b : TextBuffer) (saved : list Z) (c : Cursor) (op : CursorOp) :
  reachable b saved -> selection_ok b (selection c) -> cursor_op_ok b op ->
  let '(c', b') := cursor_exec c b op in
  content b' = content b /\ selection_ok b' (selection c')
  /\ (Selection_is_caret (selection c) = true ->
      let off := sel_head (selection c) in
      match op with
      | MoveRight extend =>
          if off <? zlen (content b) then off < sel_head (selection c') else sel_head (selection c') = off
      | MoveLeft extend =>
          if 0 <? off then sel_head (selection c') < off else sel_head (selection c') = off
      | _ => True
      end).
Proof.
  intros Hr Hs Hop. destruct (reachable_inv b saved Hr) as [G (Hh & _)]. fold (content b) in Hh.
  assert (Hsel : forall b' s, holds b' (content b) -> selection_ok b s -> selection_ok b' s).
  { intros b' s Hb' [H1 H2]. split; by eapply (offset_ok_same b). }
  destruct op as [extend|extend|off extend|off extend col|s|cur]; cbn [cursor_exec].
  - unfold move_left. destruct (range_ok b _ Hs) as [Hrs _].
    destruct (negb extend && negb (Selection_is_caret (selection c))) eqn:Hsel0.
    { split; [done|]. split; [by apply set_head_ok|]. intros Hcar. rewrite Hcar in Hsel0. by destruct extend. }
    destruct (prev_offset_ok b _ _ Hh (proj2 Hs)) as (prev & b' & -> & Hh' & Ho & P1 & P2).
    split; [by destruct Hh' as (_ & ? & _)|]. split; [by apply Hsel, set_head_ok|]. intros _.
    replace (sel_head (selection (set_head c prev extend))) with prev by (by destruct extend).
    pose proof (proj2 Hs) as [? _]. destruct (Z.ltb_spec 0 (sel_head (selection c))); [lia|]. rewrite P2; lia.
  - unfold move_right. destruct (range_ok b _ Hs) as [_ Hre].
    destruct (negb extend && negb (Selection_is_caret (selection c))) eqn:Hsel0.
    { split; [done|]. split; [by apply set_head_ok|]. intros Hcar. rewrite Hcar in Hsel0. by destruct extend. }
    destruct (next_offset_ok b _ _ Hh (proj2 Hs)) as (next & b' & -> & Hh' & Ho & P1 & P2).
    split; [by destruct Hh' as (_ & ? & _)|]. split; [by apply Hsel, set_head_ok|]. intros _.
    replace (sel_head (selection (set_head c next extend))) with next by (by destruct extend).
    pose proof (proj2 Hs) as [H0 Hv]. apply (validate_iff b _ _ Hh H0) in Hv as [Hle _].
    destruct (Z.ltb_spec (sel_head (selection c)) (zlen (content b))); [by apply P1|]. rewrite P2; lia.
  - split; [done|]. split; [by apply set_head_ok|done].
  - split; [done|]. split; [|done]. destruct Hs. by destruct extend.
  - by split.
  - by split.
Qed.
End Graphemes.

(** Single characters as clusters. *)
Fixpoint char_clusters (s : list Z) : list (list Z) :=
  match s with
  | [] => []
  | b :: s =>
      match char_clusters s with
      | (c :: g) :: rest => if is_cont c then (b :: c :: g) :: rest else [b] :: (c :: g) :: rest
      | gs => [b] :: gs
      end
  end.

Lemma char_clusters_concat s : concat (char_clusters s) = s.
Proof.
  induction s as [|b s IH]; [done|]. simpl. destruct (char_clusters s) as [|[|c g] rest]; simpl in *; [by rewrite <-IH|by rewrite <-IH|].
  destruct (is_cont c); simpl; by rewrite <-IH.
Qed.

Lemma char_clusters_parts s : starts_clean s -> Forall (fun g => g <> [] /\ starts_clean g) (char_clusters s).
Proof.
  assert (H : Forall (fun g => g <> []) (char_clusters s)
              /\ Forall starts_clean (drop 1 (char_clusters s))).
  { induction s as [|b s [IH1 IH2]]; [by split; constructor|]. simpl.
    destruct (char_clusters s) as [|[|c g] rest]; [by split; repeat constructor| |].
    - by apply Forall_cons in IH1 as [? _].
    - apply Forall_cons in IH1 as [_ IH1]. simpl in IH2. destruct (is_cont c) eqn:Hc.
      + split; [by constructor|done].
      + split; [by repeat constructor|]. by constructor. }
  intros Hs. destruct H as [H1 H2]. pose proof (char_clusters_concat s) as Hcat.
  destruct (char_clusters s) as [|g gs]; [constructor|]. apply Forall_cons in H1 as [Hg H1].
  simpl in H2. constructor; [|apply Forall_and; by split]. split; [done|].
  destruct g as [|x g]; [done|]. simpl in *. by rewrite <-Hcat in Hs.
Qed.

(** ["aé"]: from offset 1, right over ["é"]. *)
Lemma cursor_stays_on_text_witness :
  let b := TextBuffer_new [97; 195; 169] in
  sel_head (selection (fst (cursor_exec char_clusters (Cursor_new 1) b (MoveRight false)))) = 3
  /\ 1 < sel_head (selection (fst (cursor_exec char_clusters (Cursor_new 1) b (MoveRight false)))).
Proof.
  split; [reflexivity|].
  assert (Hs : selection_ok (TextBuffer_new [97; 195; 169]) (selection (Cursor_new 1)))
    by (split; (split; [cbn; lia|reflexivity])).
  exact (proj2 (proj2 (cursor_stays_on_text char_clusters char_clusters_concat char_clusters_parts
    (TextBuffer_new [97; 195; 169]) [97; 195; 169] (Cursor_new 1) (MoveRight false)
    (reach_new [97; 195; 169] eq_refl ltac:(vm_compute; congruence))
    Hs I)) eq_refl).
Defined.

(** ** The cursor set *)

(** The selections in order. *)
Definition CursorSet : Type := list Selection.

Definition CursorSet_new (primary : Selection) : CursorSet := [primary].
Definition primary (cs : CursorSet) : Selection := default (Selection_caret 0) (head cs).
Definition set_primary (cs : CursorSet) (s : Selection) : CursorSet := [s].
Definition clear_secondary (cs : CursorSet) : CursorSet := [primary cs].

(** The key of [sort_by_key], compared as a pair. *)
Definition selection_le (x y : Selection) : bool :=
  let rx := Selection_range x in
  let ry := Selection_range y in
  (r_start rx <? r_start ry) || ((r_start rx =? r_start ry) && (r_end rx <=? r_end ry)).

Fixpoint insert_selection (x : Selection) (l : CursorSet) : CursorSet :=
  match l with
  | [] => [x]
  | y :: l' => if selection_le x y then x :: l else y :: insert_selection x l'
  end.

(** [Vec::dedup]: of equal neighbours the first stays. *)
Fixpoint dedup_from (x : Selection) (l : CursorSet) : CursorSet :=
  match l with
  | [] => [x]
  | y :: l => if bool_decide (x = y) then dedup_from x l else x :: dedup_from y l
  end.
Definition dedup (l : CursorSet) : CursorSet := match l with [] => [] | x :: l => dedup_from x l end.

Definition normalize_selections (l : CursorSet) : CursorSet := dedup (foldr insert_selection [] l).

Definition add_selection (cs : CursorSet) (s : Selection) : CursorSet :=
  if bool_decide (s ∈ cs) then cs else normalize_selections (cs ++ [s]).

Lemma insert_selection_perm x l : insert_selection x l ≡ₚ x :: l.
Proof.
  induction l as [|y l IH]; simpl; [done|]. destruct (selection_le x y); [done|]. rewrite IH. constructor.
Qed.

Lemma sort_selections_perm l : foldr insert_selection [] l ≡ₚ l.
Proof. induction l as [|x l IH]; simpl; [done|]. by rewrite insert_selection_perm, IH. Qed.

Lemma dedup_from_nodup x l : NoDup (x :: l) -> dedup_from x l = x :: l.
Proof.
  revert x. induction l as [|y l IH]; intros x Hn; [done|]. simpl. apply NoDup_cons in Hn as [Hx Hn].
  rewrite bool_decide_eq_false_2 by set_solver. by rewrite IH.
Qed.

Lemma normalize_perm l : NoDup l -> normalize_selections l ≡ₚ l.
Proof.
  intros Hn. unfold normalize_selections. rewrite <-(sort_selections_perm l) in Hn.
  transitivity (foldr insert_selection [] l); [|apply sort_selections_perm].
  unfold dedup. destruct (foldr insert_selection [] l) as [|x k]; [done|]. by rewrite dedup_from_nodup.
Qed.

Lemma selection_le_total x y : selection_le x y = false -> selection_le y x = true.
Proof. unfold selection_le. lia. Qed.

Lemma selection_le_trans x y z : selection_le x y = true -> selection_le y z = true -> selection_le x z = true.
Proof. unfold selection_le. lia. Qed.

Abbreviation in_order := (StronglySorted (fun x y => selection_le x y = true)).

Lemma insert_selection_sorted x l : in_order l -> in_order (insert_selection x l).
Proof.
  induction 1 as [|y l Hs IH Hy]; simpl; [by repeat constructor|].
  destruct (selection_le x y) eqn:Hxy.
  - constructor; [by constructor|]. constructor; [done|]. eapply Forall_impl; [exact Hy|].
    intros z. by apply selection_le_trans.
  - constructor; [done|]. rewrite insert_selection_perm. constructor; [by apply selection_le_total|done].
Qed.

Lemma normalize_sorted l : NoDup l -> in_order (normalize_selections l).
Proof.
  intros Hn. assert (Hs : in_order (foldr insert_selection [] l))
    by (induction l; simpl; [constructor|apply NoDup_cons in Hn as [_ Hn]; by apply insert_selection_sorted, IHl]).
  unfold normalize_selections, dedup. rewrite <-(sort_selections_perm l) in Hn.
  destruct (foldr insert_selection [] l) as [|x k]; [done|]. by rewrite dedup_from_nodup.
Qed.

Lemma fold_left_inv {A B} (P : A -> Prop) (f : A -> B -> A) l a :
  P a -> (forall a b, P a -> P (f a b)) -> P (fold_left f l a).
Proof. intros Ha Hf. revert a Ha. induction l as [|b l IH]; intros a Ha; [done|]. apply IH, Hf, Ha. Qed.

Inductive CursorSetOp : Type := SetPrimary (s : Selection) | AddSelection (s : Selection) | ClearSecondary.
Definition cursor_set_exec (cs : CursorSet) (op : CursorSetOp) : CursorSet :=
  match op with
  | SetPrimary s => set_primary cs s
  | AddSelection s => add_selection cs s
  | ClearSecondary => clear_secondary cs
  end.

(** The cursor set.  From one selection and after any operations there is
    at least one selection, none twice, in the order of their ranges; adding a
    selection keeps all others and the set then has it. *)
Theorem cursor_set_ordered (s0 : Selection) (ops : list CursorSetOp) (s : Selection) :
  let cs := fold_left cursor_set_exec ops (CursorSet_new s0) in
  cs <> [] /\ NoDup cs /\ in_order cs
  /\ (forall x, x ∈ add_selection cs s <-> x = s \/ x ∈ cs).
Proof.
  set (inv cs := cs <> [] /\ NoDup cs /\ in_order cs).
  assert (Hone : forall x, inv [x]) by (intros x; split; [done|split; [apply NoDup_singleton|by repeat constructor]]).
  assert (Hadd : forall cs x, inv cs -> inv (add_selection cs x)).
  { intros cs x (H1 & H2 & H3). unfold add_selection. case_bool_decide as Hx; [done|].
    assert (Hn : NoDup (cs ++ [x])) by (apply NoDup_app; split_and!; [done|set_solver|apply NoDup_singleton]).
    split; [|split; [by rewrite normalize_perm|by apply normalize_sorted]].
    intros He. pose proof (normalize_perm _ Hn) as Hp. rewrite He in Hp.
    apply Permutation_nil in Hp. by destruct cs. }
  assert (Hinv : inv (fold_left cursor_set_exec ops (CursorSet_new s0))).
  { apply fold_left_inv; [apply Hone|]. intros cs [x|x|] Hi; [apply Hone|by apply Hadd|apply Hone]. }
  set (cs := fold_left _ _ _) in *. destruct Hinv as (H1 & H2 & H3). split_and!; try done.
  intros x. unfold add_selection. case_bool_decide as Hx; [set_solver|].
  rewrite normalize_perm by (apply NoDup_app; split_and!; [done|set_solver|apply NoDup_singleton]). set_solver.
Qed.

(** The primary selection is the first in order, not the one it was: adding a
    caret before it makes that one the primary. *)
Example added_selection_becomes_primary :
  clear_secondary (add_selection (CursorSet_new (Selection_caret 7)) (Selection_caret 3)) = [Selection_caret 3].
Proof. reflexivity. Qed.
