(* ===== verification/Search.v ===== *)
(** * Search

    Model of [crates/hapcli-editor-core/src/search.rs]: finding every match of
    a query in a text and the transaction that replaces them.  The Unicode
    table behind [char::is_alphanumeric] is a parameter. *)
From S2P Require Import Prelude Text PieceTable LineIndex TextBuffer Cursor.
From stdpp Require Import prelude list numbers list_numbers.
Open Scope Z_scope.

Record FindOptions := mkOptions { case_sensitive : bool; whole_word : bool }.

Record FindMatch := mkMatch { fm_range : TextRange }.

(** The characters of a string, each as its bytes: a lead byte and the
    continuation bytes after it. *)
Definition str_chars (s : list Z) : list (list Z) := char_clusters s.

(** The value of a character. *)
Definition char_value (c : list Z) : Z := default REPLACEMENT (head (from_utf8_lossy c)).

(** [char_indices], the string starting at [pos]. *)
Fixpoint char_indices (pos : Z) (cs : list (list Z)) : list Z :=
  match cs with [] => [] | c :: cs => pos :: char_indices (pos + zlen c) cs end.

Definition starts_with (s p : list Z) : bool := bool_decide (take (length p) s = p).

(** [str::find], the string starting at [i]. *)
Fixpoint str_find (s query : list Z) (i : Z) : option Z :=
  if starts_with s query then Some i
  else match s with [] => None | _ :: s => str_find s query (i + 1) end.

Definition to_ascii_lowercase (b : Z) : Z := if (65 <=? b) && (b <=? 90) then b + 32 else b.
Definition eq_ignore_ascii_case (s t : list Z) : bool :=
  bool_decide (map to_ascii_lowercase s = map to_ascii_lowercase t).

Definition next_search_offset (source : list Z) (start : Z) : Z :=
  match head (str_chars (zdrop start source)) with
  | Some ch => start + zlen ch
  | None => zlen source
  end.

(** The test of the case-insensitive search. *)
Definition insensitive_hit (source query : list Z) (start : Z) : bool :=
  let end_ := start + zlen query in
  (end_ <=? zlen source) && str_is_char_boundary source end_
  && eq_ignore_ascii_case (slice start end_ source) query.

Definition next_match (source query : list Z) (search_from : Z) (case_sensitive : bool) : option Z :=
  if case_sensitive then str_find (zdrop search_from source) query search_from
  else find (insensitive_hit source query) (char_indices search_from (str_chars (zdrop search_from source))).

Section Search.
(** [char::is_alphanumeric]. *)
Context (is_alphanumeric : Z -> bool).

Definition is_word_char (ch : Z) : bool := (ch =? 95) || is_alphanumeric ch.

Definition is_some_and {A} (o : option A) (p : A -> bool) : bool :=
  match o with Some a => p a | None => false end.

Definition is_whole_word_match (source : list Z) (start end_ : Z) : bool :=
  let before := char_value <$> last (str_chars (ztake start source)) in
  let after := char_value <$> head (str_chars (zdrop end_ source)) in
  negb (is_some_and before is_word_char) && negb (is_some_and after is_word_char).

(** The guard before a match is recorded. *)
Definition accepts (source query : list Z) (options : FindOptions) (start : Z) : bool :=
  let end_ := start + zlen query in
  str_is_char_boundary source start && str_is_char_boundary source end_
  && (negb (whole_word options) || is_whole_word_match source start end_).

(** The loop of [find_all]. *)
Fixpoint find_loop (fuel : nat) (source query : list Z) (options : FindOptions) (search_from : Z)
    : list FindMatch :=
  match fuel with
  | O => []
  | S fuel =>
      match next_match source query search_from (case_sensitive options) with
      | None => []
      | Some start =>
          (if accepts source query options start then [mkMatch (TextRange_new start (start + zlen query))] else [])
          ++ (let search_from := next_search_offset source start in
              if zlen source <=? search_from then [] else find_loop fuel source query options search_from)
      end
  end.

Definition find_all (source query : list Z) (options : FindOptions) : list FindMatch :=
  if bool_decide (query = []) then [] else find_loop (S (length source)) source query options 0.

Definition replace_all_transaction (source query replacement : list Z) (options : FindOptions) : EditTransaction :=
  map (fun hit => TextEdit_new (fm_range hit) replacement) (find_all source query options).

(** ** Characters and boundaries *)

Definition offsets (a b : Z) : list Z := seqZ a (b - a).

Lemma offsets_nil a b : b <= a -> offsets a b = [].
Proof. intros. unfold offsets. apply seqZ_nil. lia. Qed.

Lemma offsets_cons a b : a < b -> offsets a b = a :: offsets (a + 1) b.
Proof. intros. unfold offsets. rewrite seqZ_cons by lia. do 2 f_equal. lia. Qed.

Lemma offsets_split a b c : a <= b -> b <= c -> offsets a c = offsets a b ++ offsets b c.
Proof.
  intros. unfold offsets. replace (c - a) with ((b - a) + (c - b)) by lia. rewrite seqZ_app by lia.
  do 2 f_equal. lia.
Qed.

Lemma filter_offsets_none (P : Z -> bool) a b :
  (forall i, a <= i -> i < b -> P i = false) -> List.filter P (offsets a b) = [].
Proof.
  intros HP. destruct (Z.le_gt_cases b a); [by rewrite offsets_nil|].
  assert (Hn : exists n, b = a + Z.of_nat n) by (exists (Z.to_nat (b - a)); lia). destruct Hn as [n ->].
  clear H. revert a HP. induction n as [|n IH]; intros a HP; [by rewrite offsets_nil by lia|].
  rewrite offsets_cons by lia. simpl. rewrite HP by lia.
  replace (a + Z.of_nat (S n)) with (a + 1 + Z.of_nat n) by lia. apply IH. intros i ? ?. apply HP; lia.
Qed.

(** The least offset of a test. *)
Definition least (P : Z -> bool) (a b : Z) (r : option Z) : Prop :=
  match r with
  | Some i => a <= i /\ i < b /\ P i = true /\ forall j, a <= j -> j < i -> P j = false
  | None => forall j, a <= j -> j < b -> P j = false
  end.

(** A character: a byte and continuation bytes after it. *)
Lemma first_char s g gs :
  str_chars s = g :: gs ->
  exists b conts rest, g = b :: conts /\ s = g ++ rest /\ str_chars rest = gs
    /\ Forall (fun c => is_cont c = true) conts /\ starts_clean rest.
Proof.
  unfold str_chars. revert g gs. induction s as [|b s IH]; intros g gs; [done|]. simpl.
  destruct (char_clusters s) as [|[|c g'] rest] eqn:Hs.
  - intros [= <- <-]. assert (s = []) as -> by (rewrite <-(char_clusters_concat s), Hs; done).
    exists b, [], []. by split_and!.
  - destruct (IH _ _ eq_refl) as (? & ? & ? & ? & _). done.
  - destruct (IH _ _ eq_refl) as (b' & conts & r & Hg & Hsr & Hr & Hc & Hcl). injection Hg as <- <-.
    destruct (is_cont c) eqn:Hcc; intros [= <- <-].
    + exists b, (c :: g'), r. split_and!; [done|simpl; by rewrite Hsr|done|by constructor|done].
    + exists b, [], s. split_and!; [done|done|done|constructor|]. by rewrite Hsr.
Qed.

Lemma str_chars_nil s : str_chars s = [] -> s = [].
Proof. intros H. rewrite <-(char_clusters_concat s). unfold str_chars in H. by rewrite H. Qed.

(** The next character boundary. *)
Lemma next_boundary source i :
  0 <= i -> i < zlen source ->
  let n := next_search_offset source i in
  i < n /\ n <= zlen source /\ (forall j, i < j -> j < n -> str_is_char_boundary source j = false)
  /\ str_is_char_boundary source n = true
  /\ exists g gs, str_chars (zdrop i source) = g :: gs /\ n = i + zlen g /\ str_chars (zdrop n source) = gs.
Proof.
  intros H0 Hi. unfold next_search_offset. destruct (str_chars (zdrop i source)) as [|g gs] eqn:Hc.
  { apply str_chars_nil, (f_equal zlen) in Hc. change (zlen []) with 0 in Hc. unfold zdrop, zlen in *.
    rewrite length_drop in Hc. lia. }
  destruct (first_char _ _ _ Hc) as (b & conts & rest & Hg & Hs & Hr & Hco & Hcl). cbn [head].
  assert (Hsrc : source = (ztake i source ++ g) ++ rest)
    by (rewrite <-app_assoc, <-Hs; symmetry; apply take_drop).
  assert (Hpl : zlen (ztake i source) = i) by (unfold ztake, zlen in *; rewrite length_take; lia).
  assert (Hpg : zlen (ztake i source ++ g) = i + zlen g) by (rewrite zlen_app; lia).
  assert (Hdrop : zdrop (i + zlen g) source = rest).
  { rewrite Hsrc, <-Hpg. rewrite zdrop_app_ge, Z.sub_diag by lia. by apply zdrop_neg. }
  assert (Hlen : zlen source = i + zlen g + zlen rest) by (rewrite Hsrc at 1; rewrite zlen_app, Hpg; lia).
  pose proof (zlen_nonneg rest). pose proof (zlen_nonneg conts).
  split; [rewrite Hg, zlen_cons; lia|]. split; [lia|]. split; [|split].
  - intros j Hj1 Hj2. unfold str_is_char_boundary. rewrite (proj2 (Z.eqb_neq _ _)), (proj2 (Z.leb_gt _ _)) by lia.
    assert (Hlk : source !! Z.to_nat j = conts !! Z.to_nat (j - i - 1)).
    { rewrite Hsrc at 1. rewrite lookup_app_l by (unfold zlen in *; lia).
      rewrite lookup_app_r by (unfold zlen in *; lia). rewrite Hg.
      replace (Z.to_nat j - length (ztake i source))%nat with (S (Z.to_nat (j - i - 1))) by (unfold zlen in *; lia).
      done. }
    rewrite Hlk. destruct (conts !! _) as [c|] eqn:Hcc; [|done].
    by rewrite (Forall_lookup_1 _ _ _ _ Hco Hcc).
  - rewrite Hsrc at 1. rewrite <-Hpg. by apply boundary_app.
  - exists g, gs. split_and!; [done|done|by rewrite Hdrop].
Qed.

(** ** The searches *)

Section Query.
Context (source query : list Z) (Hne : query <> []) (Hq : starts_clean query).
Abbreviation boundary := (str_is_char_boundary source).

Lemma str_find_least f :
  0 <= f -> f <= zlen source ->
  least (fun i => starts_with (zdrop i source) query) f (zlen source) (str_find (zdrop f source) query f).
Proof.
  intros H0 Hf. remember (zdrop f source) as s eqn:Hs. revert f H0 Hf Hs. induction s as [|b s IH]; intros f H0 Hf Hs.
  - assert (zlen source <= f).
    { apply (f_equal zlen) in Hs. change (zlen []) with 0 in Hs. unfold zdrop, zlen in *. rewrite length_drop in Hs. lia. }
    simpl. unfold starts_with. rewrite take_nil, bool_decide_eq_false_2 by (intros He; by apply Hne).
    simpl. intros; lia.
  - assert (Hlt : f < zlen source).
    { apply (f_equal zlen) in Hs. rewrite zlen_cons in Hs. pose proof (zlen_nonneg s). unfold zdrop, zlen in *.
      rewrite length_drop in Hs. lia. }
    cbn [str_find]. destruct (starts_with (b :: s) query) eqn:Hw.
    + simpl. rewrite <-Hs. split_and!; [lia|lia|done|intros; lia].
    + assert (Hs' : s = zdrop (f + 1) source).
      { unfold zdrop in *. replace (Z.to_nat (f + 1)) with (Z.to_nat f + 1)%nat by lia. by rewrite <-drop_drop, <-Hs. }
      specialize (IH (f + 1) ltac:(lia) ltac:(lia) Hs').
      destruct (str_find s query (f + 1)) as [i|]; simpl in *.
      * destruct IH as (I1 & I2 & I3 & I4). split_and!; [lia|done|done|]. intros j Hj1 Hj2.
        destruct (Z.eq_dec j f) as [->|]; [by rewrite <-Hs|apply I4; lia].
      * intros j Hj1 Hj2. destruct (Z.eq_dec j f) as [->|]; [by rewrite <-Hs|apply IH; lia].
Qed.

Lemma char_find_least (P : Z -> bool) gs f :
  0 <= f -> f <= zlen source -> boundary f = true -> str_chars (zdrop f source) = gs ->
  least (fun i => boundary i && P i) f (zlen source) (find P (char_indices f gs)).
Proof.
  revert f. induction gs as [|g gs IH]; intros f H0 Hf Hb Hgs.
  - assert (zlen source <= f).
    { apply str_chars_nil, (f_equal zlen) in Hgs. change (zlen []) with 0 in Hgs. unfold zdrop, zlen in *.
      rewrite length_drop in Hgs. lia. }
    simpl. intros; lia.
  - assert (Hlt : f < zlen source).
    { destruct (first_char _ _ _ Hgs) as (b & conts & rest & -> & Hs & _). apply (f_equal zlen) in Hs.
      cbn [app] in Hs. rewrite zlen_cons in Hs. pose proof (zlen_nonneg (conts ++ rest)).
      unfold zdrop, zlen in *. rewrite length_drop in Hs. lia. }
    destruct (next_boundary source f H0 Hlt) as (N1 & N2 & N3 & N4 & g' & gs' & N5 & N6 & N7).
    rewrite Hgs in N5. injection N5 as <- <-. simpl. destruct (P f) eqn:HP.
    + simpl. rewrite Hb, HP. split_and!; [lia|lia|done|intros; lia].
    + rewrite <-N6. specialize (IH (next_search_offset source f) ltac:(lia) N2 N4 N7).
      assert (Hgap : forall j, f <= j -> j < next_search_offset source f -> boundary j && P j = false).
      { intros j Hj1 Hj2. destruct (Z.eq_dec j f) as [->|]; [by rewrite HP, andb_false_r|].
        by rewrite N3 by lia. }
      destruct (find P _) as [i|]; simpl in *.
      * destruct IH as (I1 & I2 & I3 & I4). split_and!; [lia|done|done|]. intros j Hj1 Hj2.
        destruct (Z.lt_ge_cases j (next_search_offset source f)); [by apply Hgap|by apply I4].
      * intros j Hj1 Hj2. destruct (Z.lt_ge_cases j (next_search_offset source f)); [by apply Hgap|by apply IH].
Qed.

Definition hit (cs : bool) (i : Z) : bool :=
  if cs then starts_with (zdrop i source) query else boundary i && insensitive_hit source query i.

Lemma next_match_least f cs :
  0 <= f -> f <= zlen source -> boundary f = true ->
  least (hit cs) f (zlen source) (next_match source query f cs).
Proof.
  intros. destruct cs; [by apply str_find_least|].
  by apply (char_find_least (insensitive_hit source query)).
Qed.

Lemma hit_boundary cs i : 0 <= i -> i < zlen source -> hit cs i = true -> boundary i = true.
Proof.
  intros H0 Hi. destruct cs; [|by intros [H _]%andb_true_iff]. simpl. unfold starts_with.
  intros H%bool_decide_eq_true. unfold str_is_char_boundary. destruct (_ =? 0); [done|].
  rewrite (proj2 (Z.leb_gt _ _)) by lia. destruct query as [|q qs]; [done|].
  assert (Hl : source !! Z.to_nat i = Some q).
  { rewrite <-(Nat.add_0_r (Z.to_nat i)), <-lookup_drop. fold (zdrop i source).
    destruct (zdrop i source) as [|x k]; [done|]. simpl in *. by injection H as -> _. }
  rewrite Hl. simpl in Hq. by rewrite Hq.
Qed.

Definition kept (options : FindOptions) (i : Z) : bool :=
  hit (case_sensitive options) i && accepts source query options i.

Lemma find_loop_ok fuel options f :
  0 <= f -> f <= zlen source -> boundary f = true -> zlen source - f < Z.of_nat fuel ->
  find_loop fuel source query options f
  = map (fun i => mkMatch (TextRange_new i (i + zlen query))) (List.filter (kept options) (offsets f (zlen source))).
Proof.
  revert f. induction fuel as [|fuel IH]; intros f H0 Hf Hb Hfuel; [lia|]. cbn [find_loop].
  pose proof (next_match_least f (case_sensitive options) H0 Hf Hb) as Hm.
  destruct (next_match source query f (case_sensitive options)) as [i|]; simpl in Hm.
  - destruct Hm as (M1 & M2 & M3 & M4).
    destruct (next_boundary source i ltac:(lia) M2) as (N1 & N2 & N3 & N4 & _).
    set (n := next_search_offset source i) in *.
    rewrite (offsets_split f i), (offsets_split i n) by lia. rewrite (offsets_cons i n) by lia.
    rewrite !List.filter_app, (filter_offsets_none _ f i) by (intros j ? ?; unfold kept; by rewrite M4).
    cbn [List.filter app]. rewrite (filter_offsets_none _ (i + 1) n); cycle 1.
    { intros j Hj1 Hj2. unfold kept. destruct (hit (case_sensitive options) j) eqn:Hh; [|done].
      apply hit_boundary in Hh; [|lia|lia]. by rewrite N3 in Hh by lia. }
    assert (Hrest : (if zlen source <=? n then [] else find_loop fuel source query options n)
      = map (fun i => mkMatch (TextRange_new i (i + zlen query))) (List.filter (kept options) (offsets n (zlen source)))).
    { destruct (Z.leb_spec (zlen source) n); [by rewrite offsets_nil|]. apply IH; (done || lia). }
    rewrite Hrest. unfold kept at 2. rewrite M3. cbn [andb]. by destruct (accepts source query options i).
  - rewrite filter_offsets_none; [done|]. intros j ? ?. unfold kept. by rewrite Hm.
Qed.
End Query.

(** A match at [i]: on character boundaries, equal to the query (up to ASCII
    case where the options say so) and, where they say so, a whole word. *)
Definition is_match (source query : list Z) (options : FindOptions) (i : Z) : bool :=
  let e := i + zlen query in
  (e <=? zlen source) && str_is_char_boundary source i && str_is_char_boundary source e
  && (if case_sensitive options then bool_decide (slice i e source = query)
      else eq_ignore_ascii_case (slice i e source) query)
  && (negb (whole_word options) || is_whole_word_match source i e).

Lemma starts_with_slice source query i :
  0 <= i -> query <> [] ->
  starts_with (zdrop i source) query
  = (i + zlen query <=? zlen source) && bool_decide (slice i (i + zlen query) source = query).
Proof.
  intros H0 Hne. unfold starts_with, slice, ztake.
  replace (Z.to_nat (i + zlen query - i)) with (length query) by (unfold zlen; lia).
  case_bool_decide as H; [|by rewrite andb_false_r]. rewrite andb_true_r. symmetry. apply Z.leb_le.
  apply (f_equal length) in H. rewrite length_take in H. unfold zdrop, zlen in *. rewrite length_drop in H.
  assert (length query <> 0%nat) by (by destruct query). lia.
Qed.

Lemma kept_is_match source query options i :
  0 <= i -> query <> [] -> kept source query options i = is_match source query options i.
Proof.
  intros H0 Hne. unfold kept, hit, accepts, is_match, insensitive_hit. destruct (case_sensitive options).
  - rewrite starts_with_slice by done. destruct (i + zlen query <=? zlen source), (bool_decide _),
      (str_is_char_boundary source i), (str_is_char_boundary source (i + zlen query)); done.
  - destruct (i + zlen query <=? zlen source), (eq_ignore_ascii_case _ _),
      (str_is_char_boundary source i), (str_is_char_boundary source (i + zlen query)); done.
Qed.

Lemma find_all_filter source query options :
  query <> [] -> starts_clean query ->
  find_all source query options
  = map (fun i => mkMatch (mkRange i (i + zlen query))) (List.filter (is_match source query options) (offsets 0 (zlen source))).
Proof.
  intros Hne Hq. unfold find_all. rewrite bool_decide_eq_false_2 by done. pose proof (zlen_nonneg source).
  rewrite (find_loop_ok source query Hne Hq) by (done || unfold zlen; lia).
  assert (Hext : List.filter (kept source query options) (offsets 0 (zlen source))
    = List.filter (is_match source query options) (offsets 0 (zlen source))).
  { apply filter_ext_in. intros i Hi. apply kept_is_match; [|done]. unfold offsets in Hi.
    apply list_elem_of_In, elem_of_seqZ in Hi. lia. }
  rewrite Hext. apply map_ext. intros i. unfold TextRange_new. pose proof (zlen_nonneg query).
  by rewrite (proj2 (Z.leb_le _ _)) by lia.
Qed.

(** [find_all] is complete and exact: for a non-empty query (a string) it
    returns, in ascending order and each once, the ranges of exactly those
    offsets at which the query occurs on character boundaries, up to ASCII case
    when the search ignores case, and as a whole word when that is asked for.
    In particular the loop ends and no match is skipped. *)
Theorem find_all_exact (source query : list Z) (options : FindOptions) :
  query <> [] -> starts_clean query ->
  find_all source query options
  = map (fun i => mkMatch (mkRange i (i + zlen query)))
      (List.filter (is_match source query options) (offsets 0 (zlen source)))
  /\ find_all source [] options = [].
Proof. intros Hne Hq. split; [by apply find_all_filter|done]. Qed.
End Search.

(** ASCII letters and digits. *)
Definition ascii_alphanumeric (c : Z) : bool := is_ascii_alphanumeric c.

(** ["one stone one_two one"], the whole word ["One"], ignoring case. *)
Lemma find_all_exact_witness :
  find_all ascii_alphanumeric
    [111; 110; 101; 32; 115; 116; 111; 110; 101; 32; 111; 110; 101; 95; 116; 119; 111; 32; 111; 110; 101]
    [79; 110; 101] (mkOptions false true) = [mkMatch (mkRange 0 3); mkMatch (mkRange 18 21)].
Proof.
  exact (proj1 (find_all_exact ascii_alphanumeric
    [111; 110; 101; 32; 115; 116; 111; 110; 101; 32; 111; 110; 101; 95; 116; 119; 111; 32; 111; 110; 101]
    [79; 110; 101] (mkOptions false true) ltac:(discriminate) eq_refl)).
Defined.

(** Matches may overlap, and then the transaction that replaces all of them is
    one that the buffer refuses: ["aa"] by ["b"] in ["aaa"]. *)
Example replace_all_overlap_refused :
  let source := [97; 97; 97] in
  snd (apply_transaction (TextBuffer_new source)
         (replace_all_transaction ascii_alphanumeric source [97; 97] [98] (mkOptions true false)))
  = Err (OverlappingEdits 1).
Proof. reflexivity. Qed.
