(* ===== verification/Reconnect.v ===== *)
(** * The reconnect orchestrator's store

    Model of [crates/hapcli-ssh/src/reconnect.rs]: the jobs that bring a lost
    SSH node back, one per node, their phases, their attempts and retries, and
    the clean-up of ended ones.  Every operation is a function on the store;
    the clock readings and the fresh UUIDs it takes are its arguments.  The
    length of a retry's delay is computed in floating point in the source and
    is an argument here. *)
From S2P Require Import Prelude.
From stdpp Require Import prelude list numbers gmap strings sorting.
Open Scope Z_scope.

(** ** Data *)

Inductive ReconnectPhase : Type :=
| Queued | Snapshot | GracePeriod | SshConnect | AwaitTerminal | RestoreForwards
| ResumeTransfers | RestoreIde | Verify | Done | Failed | Cancelled.
#[export] Instance ReconnectPhase_eq_dec : EqDecision ReconnectPhase.
Proof. solve_decision. Defined.

Inductive PhaseResult : Type := PRunning | POk | PFailed | PSkipped.
#[export] Instance PhaseResult_eq_dec : EqDecision PhaseResult.
Proof. solve_decision. Defined.

(** A [SystemTime] and a [Duration] count nanoseconds. *)
Abbreviation SystemTime := Z.
Abbreviation Duration := Z.
Definition from_secs (s : Z) : Duration := s * 1000000000.

Definition MAX_RETAINED_RECONNECT_JOBS : Z := 200.

Record PhaseEvent := mkEvent {
  ev_phase : ReconnectPhase;
  ev_started_at : SystemTime;
  ev_ended_at : option SystemTime;
  ev_result : PhaseResult;
  ev_detail : option string
}.

Record ReconnectNodeTerminalSnapshot := mkNodeTerminals {
  nt_node_id : string; nt_old_terminal_session_ids : list string }.
Record ReconnectForwardRule := mkRule {
  fr_id : string; fr_forward_type : string; fr_bind_address : string; fr_bind_port : Z;
  fr_target_host : string; fr_target_port : Z; fr_status : string; fr_description : string }.
Record ReconnectForwardRuleSnapshot := mkForwardRules { fs_node_id : string; fs_rules : list ReconnectForwardRule }.
Record ReconnectNodeTransferSnapshot := mkNodeTransfers { tr_node_id : string; tr_transfer_ids : list string }.
Record ReconnectNodeConnectionSnapshot := mkNodeConnection { nc_node_id : string; nc_old_connection_id : string }.
Record ReconnectIdeSnapshot := mkIde {
  ide_project_path : string; ide_tab_paths : list string; ide_connection_id : string;
  ide_dirty_contents : gmap string string }.

Record ReconnectSnapshot := mkSnapshot {
  sn_node_id : string;
  sn_terminal_pane_ids : list string;
  sn_old_terminal_session_ids : list string;
  sn_terminal_sessions_by_node : list ReconnectNodeTerminalSnapshot;
  sn_forward_rules : list ReconnectForwardRuleSnapshot;
  sn_active_port_forward_ids : list string;
  sn_inflight_sftp_transfer_ids : list string;
  sn_incomplete_sftp_transfers_by_node : list ReconnectNodeTransferSnapshot;
  sn_ide_snapshot : option ReconnectIdeSnapshot;
  sn_old_connections_by_node : list ReconnectNodeConnectionSnapshot;
  sn_old_connection_ids : list string;
  sn_snapshot_at : option SystemTime
}.
(** [ReconnectSnapshot::default()]. *)
Definition default_snapshot : ReconnectSnapshot := mkSnapshot "" [] [] [] [] [] [] [] None [] [] None.

Record ReconnectTiming := mkTiming {
  grace_period : Duration; retry_base_delay : Duration; retry_max_delay : Duration;
  proactive_keepalive_timeout : Duration; websocket_heartbeat_interval : Duration;
  websocket_heartbeat_timeout : Duration; ssh_keepalive_interval : Duration }.

Definition default_timing : ReconnectTiming :=
  mkTiming (from_secs 30) (from_secs 1) (from_secs 15) (from_secs 5) (from_secs 30) (from_secs 300) (from_secs 15).

Record ReconnectJob := mkJob {
  job_id : string;
  node_id : string;
  node_name : string;
  status : ReconnectPhase;
  attempt : Z;
  max_attempts : Z;
  started_at : SystemTime;
  ended_at : option SystemTime;
  error : option string;
  snapshot : ReconnectSnapshot;
  restored_count : Z;
  phase_history : list PhaseEvent
}.

Record ReconnectRetry := mkRetry { rt_attempt : Z; rt_max_attempts : Z; rt_delay : Duration }.
Record ReconnectProgress := mkProgress {
  pg_status : ReconnectPhase; pg_attempt : Z; pg_max_attempts : Z; pg_phase_history : list PhaseEvent }.
Record ReconnectForwardRestorePlan := mkPlan {
  pl_job_id : string; pl_forward_rules : list ReconnectForwardRuleSnapshot;
  pl_old_connections_by_node : list ReconnectNodeConnectionSnapshot }.

Record ReconnectOrchestratorStore := mkStore {
  jobs : gmap string ReconnectJob;
  timing : ReconnectTiming;
  store_max_attempts : Z
}.

Definition Store_new (t : ReconnectTiming) (max_attempts : Z) : ReconnectOrchestratorStore :=
  mkStore ∅ t (Z.max max_attempts 1).
Definition Store_default : ReconnectOrchestratorStore := Store_new default_timing 5.
Definition configure (s : ReconnectOrchestratorStore) (t : ReconnectTiming) (max_attempts : Z)
    : ReconnectOrchestratorStore := mkStore (jobs s) t (Z.max max_attempts 1).

Definition set_jobs (s : ReconnectOrchestratorStore) (m : gmap string ReconnectJob) : ReconnectOrchestratorStore :=
  mkStore m (timing s) (store_max_attempts s).

(** ** Phases *)

Definition is_terminal_phase (p : ReconnectPhase) : bool :=
  match p with Done | Failed | Cancelled => true | _ => false end.

Definition pipeline : list ReconnectPhase :=
  [Snapshot; GracePeriod; SshConnect; AwaitTerminal; RestoreForwards; ResumeTransfers; RestoreIde; Verify; Done].

(** [push_phase], the clock read at [now] for the start and at [now'] for the
    end. *)
Definition push_phase (j : ReconnectJob) (phase : ReconnectPhase) (result : PhaseResult)
    (detail : option string) (now now' : SystemTime) : ReconnectJob :=
  let event := mkEvent phase now (if bool_decide (result = PRunning) then None else Some now') result detail in
  let history := phase_history j ++ [event] in
  let history := if 64 <? zlen history then drop 1 history else history in
  mkJob (job_id j) (node_id j) (node_name j) (status j) (attempt j) (max_attempts j) (started_at j)
    (ended_at j) (error j) (snapshot j) (restored_count j) history.

(** Writes to single fields of a job. *)
Definition set_status (j : ReconnectJob) (p : ReconnectPhase) : ReconnectJob :=
  mkJob (job_id j) (node_id j) (node_name j) p (attempt j) (max_attempts j) (started_at j)
    (ended_at j) (error j) (snapshot j) (restored_count j) (phase_history j).
Definition set_ended (j : ReconnectJob) (t : SystemTime) : ReconnectJob :=
  mkJob (job_id j) (node_id j) (node_name j) (status j) (attempt j) (max_attempts j) (started_at j)
    (Some t) (error j) (snapshot j) (restored_count j) (phase_history j).
Definition set_error (j : ReconnectJob) (e : string) : ReconnectJob :=
  mkJob (job_id j) (node_id j) (node_name j) (status j) (attempt j) (max_attempts j) (started_at j)
    (ended_at j) (Some e) (snapshot j) (restored_count j) (phase_history j).
Definition set_restored (j : ReconnectJob) (n : Z) : ReconnectJob :=
  mkJob (job_id j) (node_id j) (node_name j) (status j) (attempt j) (max_attempts j) (started_at j)
    (ended_at j) (error j) (snapshot j) n (phase_history j).
Definition set_attempt (j : ReconnectJob) (n : Z) : ReconnectJob :=
  mkJob (job_id j) (node_id j) (node_name j) (status j) n (max_attempts j) (started_at j)
    (ended_at j) (error j) (snapshot j) (restored_count j) (phase_history j).
Definition set_snapshot (j : ReconnectJob) (sn : ReconnectSnapshot) : ReconnectJob :=
  mkJob (job_id j) (node_id j) (node_name j) (status j) (attempt j) (max_attempts j) (started_at j)
    (ended_at j) (error j) sn (restored_count j) (phase_history j).
Definition set_history (j : ReconnectJob) (h : list PhaseEvent) : ReconnectJob :=
  mkJob (job_id j) (node_id j) (node_name j) (status j) (attempt j) (max_attempts j) (started_at j)
    (ended_at j) (error j) (snapshot j) (restored_count j) h.

(** [jobs.get_mut(node)?] and the job handed back. *)
Definition with_job (s : ReconnectOrchestratorStore) (node : string) (f : ReconnectJob -> ReconnectJob)
    : ReconnectOrchestratorStore * option ReconnectJob :=
  match jobs s !! node with
  | None => (s, None)
  | Some j => (set_jobs s (<[node := f j]> (jobs s)), Some (f j))
  end.

(** ** Operations *)

Definition stamp_snapshot (sn : ReconnectSnapshot) (node : string) (now : SystemTime) : ReconnectSnapshot :=
  mkSnapshot node (sn_terminal_pane_ids sn) (sn_old_terminal_session_ids sn) (sn_terminal_sessions_by_node sn)
    (sn_forward_rules sn) (sn_active_port_forward_ids sn) (sn_inflight_sftp_transfer_ids sn)
    (sn_incomplete_sftp_transfers_by_node sn) (sn_ide_snapshot sn) (sn_old_connections_by_node sn)
    (sn_old_connection_ids sn) (Some now).

(** The clock is read for the snapshot, for the job's start and for its first
    phase. *)
Definition schedule (s : ReconnectOrchestratorStore) (node name : string) (sn : ReconnectSnapshot)
    (uuid : string) (now_snapshot now_start now_phase : SystemTime)
    : ReconnectOrchestratorStore * ReconnectJob :=
  let fresh (jobs0 : gmap string ReconnectJob) :=
    let job := mkJob uuid node name Queued 0 (store_max_attempts s) now_start None None
                 (stamp_snapshot sn node now_snapshot) 0 [] in
    let job := push_phase job Queued PRunning None now_phase now_phase in
    (set_jobs s (<[node := job]> jobs0), job) in
  match jobs s !! node with
  | Some job => if bool_decide (ended_at job = None) then (s, job) else fresh (delete node (jobs s))
  | None => fresh (jobs s)
  end.

Definition advance (s : ReconnectOrchestratorStore) (node : string) (phase : ReconnectPhase) (now : SystemTime) :=
  with_job s node (fun j => push_phase (set_status j phase) phase PRunning None now now).

(** [phase_history.last_mut()]. *)
Definition close_last (h : list PhaseEvent) (result : PhaseResult) (detail : option string) (now : SystemTime)
    : list PhaseEvent :=
  match last h with
  | Some ev => removelast h ++ [mkEvent (ev_phase ev) (ev_started_at ev) (Some now) result detail]
  | None => h
  end.

Definition complete_phase (s : ReconnectOrchestratorStore) (node : string) (result : PhaseResult)
    (detail : option string) (now : SystemTime) :=
  with_job s node (fun j => set_history j (close_last (phase_history j) result detail now)).

Definition finish (s : ReconnectOrchestratorStore) (node : string) (result : result string Z)
    (now now_phase now_phase' : SystemTime) :=
  with_job s node (fun j =>
    let j := set_ended j now in
    match result with
    | Ok restored => push_phase (set_restored (set_status j Done) restored) Done POk None now_phase now_phase'
    | Err e => push_phase (set_error (set_status j Failed) e) Failed PFailed (Some e) now_phase now_phase'
    end).

Definition cancel (s : ReconnectOrchestratorStore) (node : string) (now now_phase now_phase' : SystemTime) :=
  with_job s node (fun j => push_phase (set_ended (set_status j Cancelled) now) Cancelled POk None now_phase now_phase').

Definition cleanup_terminal_job (s : ReconnectOrchestratorStore) (node : string) (started : SystemTime)
    : ReconnectOrchestratorStore * bool :=
  let should_remove := match jobs s !! node with
                       | Some j => is_terminal_phase (status j) && (started_at j =? started)
                       | None => false
                       end in
  (if should_remove then set_jobs s (delete node (jobs s)) else s, should_remove).

(** The entry of a terminal job: its node and its sort key. *)
Definition terminal_entry (kv : string * ReconnectJob) : string * (SystemTime * SystemTime) :=
  (fst kv, (default (started_at (snd kv)) (ended_at (snd kv)), started_at (snd kv))).

Definition key_le (x y : string * (SystemTime * SystemTime)) : Prop :=
  fst (snd x) < fst (snd y) \/ (fst (snd x) = fst (snd y) /\ snd (snd x) <= snd (snd y)).
#[export] Instance key_le_dec : RelDecision key_le.
Proof. intros x y. unfold key_le. apply _. Defined.

(** [sort_by_key] is stable. *)
Fixpoint insert_entry (x : string * (SystemTime * SystemTime)) (l : list (string * (SystemTime * SystemTime))) :=
  match l with
  | [] => [x]
  | y :: l' => if decide (key_le x y) then x :: l else y :: insert_entry x l'
  end.
Definition sort_entries (l : list (string * (SystemTime * SystemTime))) := foldr insert_entry [] l.

(** [order] is the order in which the map is iterated. *)
Definition enforce_terminal_job_cap (s : ReconnectOrchestratorStore) (order : list (string * ReconnectJob))
    (max_retained : Z) : ReconnectOrchestratorStore :=
  let terminal_jobs :=
    map terminal_entry (List.filter (fun kv => is_terminal_phase (status (snd kv))) order) in
  if zlen terminal_jobs <=? max_retained then s
  else
    let to_remove := zlen terminal_jobs - max_retained in
    set_jobs s (fold_left (fun m e => delete (fst e) m) (ztake to_remove (sort_entries terminal_jobs)) (jobs s)).

Definition begin_ssh_attempt (s : ReconnectOrchestratorStore) (node : string)
    : ReconnectOrchestratorStore * option ReconnectJob :=
  match jobs s !! node with
  | None => (s, None)
  | Some j =>
      if bool_decide (ended_at j <> None) then (s, None)
      else
        let j := set_attempt j (Z.min (Z.min (attempt j + 1) (2 ^ 32 - 1)) (max_attempts j)) in
        (set_jobs s (<[node := j]> (jobs s)), Some j)
  end.

(** [detail] is the formatted text of the event. *)
Definition schedule_retry (s : ReconnectOrchestratorStore) (node : string) (delay : Duration)
    (detail : string) (now : SystemTime) : ReconnectOrchestratorStore * option ReconnectRetry :=
  match jobs s !! node with
  | None => (s, None)
  | Some j =>
      if bool_decide (ended_at j <> None) || (max_attempts j <=? attempt j) then (s, None)
      else
        let next_attempt := attempt j + 1 in
        let j' := push_phase (set_status j Queued) Queued PRunning (Some detail) now now in
        (set_jobs s (<[node := j']> (jobs s)), Some (mkRetry next_attempt (max_attempts j) delay))
  end.

Definition update_snapshot (s : ReconnectOrchestratorStore) (node : string)
    (update : ReconnectSnapshot -> ReconnectSnapshot) :=
  with_job s node (fun j => set_snapshot j (update (snapshot j))).

(** ** Queries *)

Definition job (s : ReconnectOrchestratorStore) (node : string) : option ReconnectJob := jobs s !! node.
Definition is_active (s : ReconnectOrchestratorStore) (node : string) : bool :=
  match jobs s !! node with Some j => bool_decide (ended_at j = None) | None => false end.
Definition is_current (s : ReconnectOrchestratorStore) (node id : string) : bool :=
  match jobs s !! node with Some j => bool_decide (ended_at j = None) && bool_decide (job_id j = id) | None => false end.
Definition active_node_ids (order : list (string * ReconnectJob)) : list string :=
  map (fun kv => node_id (snd kv)) (List.filter (fun kv => bool_decide (ended_at (snd kv) = None)) order).
Definition active_attempt (s : ReconnectOrchestratorStore) (node : string) : option (Z * Z) :=
  match jobs s !! node with
  | Some j => if bool_decide (ended_at j = None) then Some (attempt j, max_attempts j) else None
  | None => None
  end.
Definition active_job_id (s : ReconnectOrchestratorStore) (node : string) : option string :=
  match jobs s !! node with
  | Some j => if bool_decide (ended_at j = None) then Some (job_id j) else None
  | None => None
  end.
Definition active_progress (s : ReconnectOrchestratorStore) (node : string) : option ReconnectProgress :=
  match jobs s !! node with
  | Some j => if bool_decide (ended_at j = None)
              then Some (mkProgress (status j) (attempt j) (max_attempts j) (phase_history j)) else None
  | None => None
  end.
Definition has_forward_snapshot (s : ReconnectOrchestratorStore) (node : string) : bool :=
  match jobs s !! node with Some j => negb (bool_decide (length (sn_forward_rules (snapshot j)) = 0%nat)) | None => false end.
Definition terminal_session_ids_for_node (s : ReconnectOrchestratorStore) (node : string) : list string :=
  match jobs s !! node with
  | Some j =>
      match find (fun e => bool_decide (nt_node_id e = node)) (sn_terminal_sessions_by_node (snapshot j)) with
      | Some e => nt_old_terminal_session_ids e
      | None => sn_old_terminal_session_ids (snapshot j)
      end
  | None => []
  end.
Definition incomplete_sftp_transfers (s : ReconnectOrchestratorStore) (node : string) : list ReconnectNodeTransferSnapshot :=
  match jobs s !! node with Some j => sn_incomplete_sftp_transfers_by_node (snapshot j) | None => [] end.
Definition ide_snapshot (s : ReconnectOrchestratorStore) (node : string)
    : option (ReconnectIdeSnapshot * option SystemTime) :=
  match jobs s !! node with
  | Some j => (fun sn => (sn, sn_snapshot_at (snapshot j))) <$> sn_ide_snapshot (snapshot j)
  | None => None
  end.
Definition forward_restore_plan (s : ReconnectOrchestratorStore) (node : string) : option ReconnectForwardRestorePlan :=
  (fun j => mkPlan (job_id j) (sn_forward_rules (snapshot j)) (sn_old_connections_by_node (snapshot j))) <$> (jobs s !! node).
Definition forward_rule_snapshots (s : ReconnectOrchestratorStore) (node : string) : list ReconnectForwardRuleSnapshot :=
  match jobs s !! node with Some j => sn_forward_rules (snapshot j) | None => [] end.

(** ** The store as a state machine *)

Inductive StoreOp : Type :=
| OConfigure (t : ReconnectTiming) (max : Z)
| OSchedule (node name : string) (sn : ReconnectSnapshot) (uuid : string) (t1 t2 t3 : SystemTime)
| OAdvance (node : string) (phase : ReconnectPhase) (now : SystemTime)
| OComplete (node : string) (result : PhaseResult) (detail : option string) (now : SystemTime)
| OFinish (node : string) (r : result string Z) (t1 t2 t3 : SystemTime)
| OCancel (node : string) (t1 t2 t3 : SystemTime)
| OCleanup (node : string) (started : SystemTime)
| OCap (order : list (string * ReconnectJob)) (max : Z)
| OBegin (node : string)
| ORetry (node : string) (delay : Duration) (detail : string) (now : SystemTime)
| OUpdate (node : string) (update : ReconnectSnapshot -> ReconnectSnapshot).

Definition store_exec (s : ReconnectOrchestratorStore) (op : StoreOp) : ReconnectOrchestratorStore :=
  match op with
  | OConfigure t max => configure s t max
  | OSchedule node name sn uuid t1 t2 t3 => fst (schedule s node name sn uuid t1 t2 t3)
  | OAdvance node phase now => fst (advance s node phase now)
  | OComplete node r detail now => fst (complete_phase s node r detail now)
  | OFinish node r t1 t2 t3 => fst (finish s node r t1 t2 t3)
  | OCancel node t1 t2 t3 => fst (cancel s node t1 t2 t3)
  | OCleanup node started => fst (cleanup_terminal_job s node started)
  | OCap order max => enforce_terminal_job_cap s order max
  | OBegin node => fst (begin_ssh_attempt s node)
  | ORetry node delay detail now => fst (schedule_retry s node delay detail now)
  | OUpdate node update => fst (update_snapshot s node update)
  end.

Definition run (ops : list StoreOp) (s : ReconnectOrchestratorStore) : ReconnectOrchestratorStore :=
  fold_left store_exec ops s.

Definition history_ok (h : list PhaseEvent) : Prop := (1 <= length h <= 64)%nat.

(** How one operation changes the job of a node: it drops it, schedules a new
    one, or keeps its identity. *)
Inductive job_step (s : ReconnectOrchestratorStore) (op : StoreOp) (n : string)
    : option ReconnectJob -> option ReconnectJob -> Prop :=
| js_same o : job_step s op n o o
| js_drop j : job_step s op n (Some j) None
| js_new name sn uuid t1 t2 t3 o :
    op = OSchedule n name sn uuid t1 t2 t3 -> (forall j, o = Some j -> ended_at j <> None) ->
    job_step s op n o
      (Some (push_phase (mkJob uuid n name Queued 0 (store_max_attempts s) t2 None None
                           (stamp_snapshot sn n t1) 0 []) Queued PRunning None t3 t3))
| js_keep j j' :
    job_id j' = job_id j -> node_id j' = node_id j -> max_attempts j' = max_attempts j ->
    started_at j' = started_at j ->
    (ended_at j <> None -> ended_at j' <> None) ->
    (attempt j' = attempt j
     \/ (ended_at j = None /\ attempt j' = Z.min (Z.min (attempt j + 1) (2 ^ 32 - 1)) (max_attempts j))) ->
    (history_ok (phase_history j) -> history_ok (phase_history j')) ->
    job_step s op n (Some j) (Some j').

Lemma push_phase_history j p r d t t' :
  (length (phase_history j) <= 64)%nat -> history_ok (phase_history (push_phase j p r d t t')).
Proof.
  intros Hj. unfold push_phase, history_ok. cbn [phase_history]. set (ev := mkEvent _ _ _ _ _).
  destruct (Z.ltb_spec 64 (zlen (phase_history j ++ [ev]))) as [H|H];
    unfold zlen in H; rewrite length_app in H; cbn [length] in H.
  - rewrite length_drop, length_app. cbn [length]. lia.
  - rewrite length_app. cbn [length]. lia.
Qed.

Lemma pushed_history j j0 p r d t t' :
  phase_history j0 = phase_history j -> history_ok (phase_history j) ->
  history_ok (phase_history (push_phase j0 p r d t t')).
Proof. intros He [_ H]. apply push_phase_history. by rewrite He. Qed.

Lemma close_last_length h r d t : length (close_last h r d t) = length h.
Proof.
  unfold close_last. destruct h as [|x h _] using rev_ind; [done|]. rewrite last_snoc, removelast_last.
  by rewrite !length_app.
Qed.

Lemma with_job_lookup s node f n :
  jobs (fst (with_job s node f)) !! n = if decide (n = node) then f <$> jobs s !! n else jobs s !! n.
Proof.
  unfold with_job. destruct (decide (n = node)) as [->|Hn].
  - destruct (jobs s !! node) as [j|] eqn:Hj; cbn; [by rewrite lookup_insert_eq|by rewrite Hj].
  - destruct (jobs s !! node); cbn; [|done]. by rewrite lookup_insert_ne.
Qed.

Lemma with_job_step s op node f n :
  (forall j, jobs s !! node = Some j -> job_step s op node (Some j) (Some (f j))) ->
  job_step s op n (jobs s !! n) (jobs (fst (with_job s node f)) !! n).
Proof.
  intros Hf. rewrite with_job_lookup. destruct (decide (n = node)) as [->|_]; [|constructor].
  destruct (jobs s !! node) as [j|]; [by apply Hf|constructor].
Qed.

Lemma delete_all_lookup {A} (es : list (string * A)) (m : gmap string ReconnectJob) n :
  fold_left (fun m e => delete (fst e) m) es m !! n = if decide (n ∈ map fst es) then None else m !! n.
Proof.
  revert m. induction es as [|e es IH]; intros m; cbn [fold_left map];
    [by rewrite decide_False by set_solver|]. rewrite IH.
  destruct (decide (n ∈ map fst es)) as [Hn|Hn]; [by rewrite decide_True by set_solver|].
  destruct (decide (n = fst e)) as [->|Hne].
  - rewrite lookup_delete_eq. by rewrite decide_True by set_solver.
  - rewrite lookup_delete_ne by done. by rewrite decide_False by set_solver.
Qed.

Lemma exec_step s op n : job_step s op n (jobs s !! n) (jobs (store_exec s op) !! n).
Proof.
  destruct op as [t mx|node name sn uuid t1 t2 t3|node p now|node r d now|node r t1 t2 t3|node t1 t2 t3
    |node st|order mx|node|node dl d now|node upd]; cbn [store_exec].
  - constructor.
  - unfold schedule. destruct (jobs s !! node) as [j|] eqn:Hj.
    + case_bool_decide as He; [constructor|]. cbn. destruct (decide (n = node)) as [->|Hn].
      * rewrite lookup_insert_eq, Hj. eapply js_new; [done|]. by intros ? [= <-].
      * rewrite lookup_insert_ne, lookup_delete_ne by done. constructor.
    + cbn. destruct (decide (n = node)) as [->|Hn].
      * rewrite lookup_insert_eq, Hj. by eapply js_new.
      * rewrite lookup_insert_ne by done. constructor.
  - apply with_job_step. intros j _. constructor; cbn; try done; [by left|]. by apply pushed_history.
  - apply with_job_step. intros j _. constructor; cbn; try done; [by left|].
    unfold history_ok. by rewrite close_last_length.
  - apply with_job_step. intros j _. destruct r; constructor; cbn; try done; [by left| |by left|]; by apply pushed_history.
  - apply with_job_step. intros j _. constructor; cbn; try done; [by left|]. by apply pushed_history.
  - unfold cleanup_terminal_job. cbn [fst]. destruct (jobs s !! node) as [j|] eqn:Hj; [|constructor].
    destruct (_ && _); [|constructor]. cbn. destruct (decide (n = node)) as [->|Hn].
    + rewrite lookup_delete_eq, Hj. constructor.
    + rewrite lookup_delete_ne by done. constructor.
  - unfold enforce_terminal_job_cap. destruct (_ <=? mx); [constructor|]. cbn. rewrite delete_all_lookup.
    destruct (decide _); [|constructor]. destruct (jobs s !! n); constructor.
  - unfold begin_ssh_attempt. destruct (jobs s !! node) as [j|] eqn:Hj; [|constructor].
    case_bool_decide as He; [constructor|]. cbn. destruct (decide (n = node)) as [->|Hn].
    + rewrite lookup_insert_eq, Hj. constructor; cbn; try done. right. by split.
    + rewrite lookup_insert_ne by done. constructor.
  - unfold schedule_retry. destruct (jobs s !! node) as [j|] eqn:Hj; [|constructor].
    destruct (_ || _); [constructor|]. cbn. destruct (decide (n = node)) as [->|Hn].
    + rewrite lookup_insert_eq, Hj. constructor; cbn; try done; [by left|]. by apply pushed_history.
    + rewrite lookup_insert_ne by done. constructor.
  - apply with_job_step. intros j _. constructor; cbn; try done. by left.
Qed.

(** ** The store's invariant *)

Definition job_ok (n : string) (j : ReconnectJob) : Prop :=
  node_id j = n /\ history_ok (phase_history j)
  /\ 0 <= attempt j <= max_attempts j /\ 1 <= max_attempts j <= 2 ^ 32 - 1.

Definition store_ok (s : ReconnectOrchestratorStore) : Prop :=
  map_Forall job_ok (jobs s) /\ 1 <= store_max_attempts s <= 2 ^ 32 - 1.

(** The limits handed over are [u32]s. *)
Definition store_op_ok (op : StoreOp) : Prop :=
  match op with OConfigure _ max => is_u32 max | _ => True end.

Lemma new_job_ok n uuid name mx t2 sn t3 :
  1 <= mx <= 2 ^ 32 - 1 ->
  job_ok n (push_phase (mkJob uuid n name Queued 0 mx t2 None None sn 0 []) Queued PRunning None t3 t3).
Proof.
  intros. unfold job_ok. split; [done|]. split; [by apply push_phase_history, le_0_n|]. cbn [push_phase attempt max_attempts]. lia.
Qed.

Lemma store_step_ok s op : store_ok s -> store_op_ok op -> store_ok (store_exec s op).
Proof.
  intros [Hj Hm] Hop. split.
  - intros n j' Hn. pose proof (exec_step s op n) as Hs. rewrite Hn in Hs. clear Hn.
    destruct (jobs s !! n) as [j|] eqn:Hl.
    + pose proof (Hj _ _ Hl) as (J1 & J2 & J3 & J4).
      inversion Hs as [o Ho Ho'| |name sn uuid t1 t2 t3 o _ _ Ho Hj'|j1 j2 H1 H2 H3 H4 H5 H6 H7 Hl' Hj'];
        [by simplify_eq|by apply new_job_ok|]. subst.
      split; [congruence|]. split; [by apply H7|]. rewrite H3. destruct H6 as [-> |[_ ->]]; lia.
    + inversion Hs; by apply new_job_ok.
  - destruct op as [t mx|node name sn uuid t1 t2 t3|node p now|node r d now|node r t1 t2 t3|node t1 t2 t3
    |node st|order mx|node|node dl d now|node upd]; cbn [store_exec];
    unfold configure, schedule, advance, complete_phase, finish, cancel, cleanup_terminal_job, update_snapshot,
      enforce_terminal_job_cap, begin_ssh_attempt, schedule_retry, with_job; repeat case_match; try done.
    cbn in *. unfold in_width in Hop. lia.
Qed.

(** The store's invariant.  From a new store and after any operations,
    every job is stored under its own node, its phase history has between one
    and 64 events, and its attempts never exceed its limit, which is at least
    one. *)
Theorem reconnect_store_invariant (t : ReconnectTiming) (max : Z) (ops : list StoreOp) (n : string) (j : ReconnectJob) :
  is_u32 max -> Forall store_op_ok ops -> jobs (run ops (Store_new t max)) !! n = Some j ->
  node_id j = n /\ (1 <= length (phase_history j) <= 64)%nat
  /\ 0 <= attempt j <= max_attempts j /\ 1 <= max_attempts j.
Proof.
  intros Hm Hops Hj. assert (H0 : store_ok (Store_new t max)).
  { split; [apply map_Forall_empty|]. cbn. unfold in_width in Hm. lia. }
  assert (Hok : store_ok (run ops (Store_new t max))).
  { unfold run. clear Hj. revert H0. generalize (Store_new t max). induction Hops as [|op ops Hop _ IH]; intros s Hs; [done|].
    by apply IH, store_step_ok. }
  destruct (proj1 Hok _ _ Hj) as (H1 & H2 & H3 & H4). split_and!; (done || lia || by destruct H2).
Qed.

(** ** Jobs that ended *)

(** No operation of a sequence schedules a job under the identifier [id]. *)
Definition fresh_for (id : string) (op : StoreOp) : Prop :=
  match op with OSchedule _ _ _ uuid _ _ _ => uuid <> id | _ => True end.

Lemma not_current_step s op n id :
  fresh_for id op -> is_current s n id = false -> is_current (store_exec s op) n id = false.
Proof.
  unfold is_current. intros Hf. pose proof (exec_step s op n) as Hs. revert Hs.
  generalize (jobs (store_exec s op) !! n). intros o' Hs.
  destruct Hs as [|j|name sn uuid t1 t2 t3 o -> Ho|j j' H1 H2 H3 H4 H5 H6 H7]; [done|done| |].
  - intros _. cbn [fresh_for] in Hf. cbn. rewrite (bool_decide_eq_false_2 (uuid = id)) by done. done.
  - rewrite H1. intros [H|H]%andb_false_iff; apply andb_false_iff; [left|by right].
    apply bool_decide_eq_false in H. apply bool_decide_eq_false. by apply H5.
Qed.

(** an ended job stays ended.  A job identifier that is not the current one
    of a node (the job was finished, cancelled, cleaned up or replaced) never
    becomes current again through any operations, as long as new jobs get new
    identifiers; so a worker that checks [is_current] before it acts cannot
    revive it.  And while a node's job is active, scheduling the node again
    hands out that same job and changes nothing. *)
Theorem ended_job_stays_ended (s : ReconnectOrchestratorStore) (ops : list StoreOp) (n id : string) :
  is_current s n id = false -> Forall (fresh_for id) ops ->
  is_current (run ops s) n id = false
  /\ (forall j name sn uuid t1 t2 t3, is_active s n = true -> jobs s !! n = Some j ->
       schedule s n name sn uuid t1 t2 t3 = (s, j)).
Proof.
  intros H Hops. split.
  - unfold run. revert s H. induction Hops as [|op ops Hop _ IH]; intros s H; [done|]. by apply IH, not_current_step.
  - intros j name sn uuid t1 t2 t3 Ha Hj. unfold is_active, schedule in *. rewrite Hj in *. by rewrite Ha.
Qed.

(** ** Retries *)

(** One round of connecting: an attempt begins, fails, and a retry is asked
    for.  The result is the attempt's number and the one announced next. *)
Definition round (s : ReconnectOrchestratorStore) (n : string) (delay : Duration) (detail : string) (now : SystemTime)
    : ReconnectOrchestratorStore * (option Z * option Z) :=
  let '(s, began) := begin_ssh_attempt s n in
  let '(s, retry) := schedule_retry s n delay detail now in
  (s, (attempt <$> began, rt_attempt <$> retry)).

(** Rounds until no retry is granted; [None] when the fuel runs out. *)
Fixpoint rounds (fuel : nat) (s : ReconnectOrchestratorStore) (n : string) (delay : Duration) (detail : string)
    (now : SystemTime) : option (list (option Z * option Z)) :=
  match fuel with
  | O => None
  | S fuel =>
      let '(s, r) := round s n delay detail now in
      match snd r with
      | None => Some [r]
      | Some _ => (fun l => r :: l) <$> rounds fuel s n delay detail now
      end
  end.

Lemma round_ok s n delay detail now j :
  jobs s !! n = Some j -> ended_at j = None -> 0 <= attempt j -> attempt j < max_attempts j -> max_attempts j <= 2 ^ 32 - 1 ->
  let a := attempt j + 1 in
  exists s' j', round s n delay detail now = (s', (Some a, if a <? max_attempts j then Some (a + 1) else None))
    /\ jobs s' !! n = Some j' /\ ended_at j' = None /\ attempt j' = a /\ max_attempts j' = max_attempts j.
Proof.
  intros Hj He H0 Ha Hm a. unfold round, begin_ssh_attempt. rewrite Hj, bool_decide_eq_false_2 by (rewrite He; tauto).
  rewrite !Z.min_l by lia. unfold schedule_retry. cbn [jobs set_jobs]. rewrite lookup_insert_eq. cbn [ended_at set_attempt].
  rewrite bool_decide_eq_false_2 by (rewrite He; tauto). cbn [orb max_attempts attempt set_attempt]. fold a.
  destruct (Z.leb_spec (max_attempts j) a).
  - rewrite (proj2 (Z.ltb_ge _ _)) by done. eexists _, _. split; [reflexivity|]. cbn [jobs set_jobs]. rewrite lookup_insert_eq.
    split; [done|]. cbn. by rewrite He.
  - rewrite (proj2 (Z.ltb_lt _ _)) by done. eexists _, _. split; [reflexivity|]. cbn [jobs set_jobs]. rewrite lookup_insert_eq.
    split; [done|]. cbn. by rewrite He.
Qed.

Lemma rounds_ok k s n delay detail now j :
  jobs s !! n = Some j -> ended_at j = None -> 0 <= attempt j -> max_attempts j <= 2 ^ 32 - 1 ->
  max_attempts j - attempt j = Z.of_nat (S k) ->
  rounds (S k) s n delay detail now
  = Some (map (fun a => (Some a, if a <? max_attempts j then Some (a + 1) else None))
            (seqZ (attempt j + 1) (Z.of_nat (S k)))).
Proof.
  revert s j. induction k as [|k IH]; intros s j Hj He H0 Hm Hk.
  - destruct (round_ok s n delay detail now j Hj He H0 ltac:(lia) Hm) as (s' & j' & R & _). cbn [rounds]. rewrite R.
    rewrite (proj2 (Z.ltb_ge (attempt j + 1) (max_attempts j))) by lia. cbn [snd].
    change (Z.of_nat 1) with 1. rewrite seqZ_cons, seqZ_nil by lia. cbn [map].
    by rewrite (proj2 (Z.ltb_ge (attempt j + 1) (max_attempts j))) by lia.
  - destruct (round_ok s n delay detail now j Hj He H0 ltac:(lia) Hm) as (s' & j' & R & Hj' & He' & Ha' & Hm').
    remember (S k) as k1 eqn:Hk1. cbn [rounds]. rewrite R. rewrite (proj2 (Z.ltb_lt (attempt j + 1) (max_attempts j))) by lia.
    cbn [snd]. subst k1. rewrite (IH s' j') by (done || lia). rewrite Ha', Hm'.
    rewrite (seqZ_cons (attempt j + 1) (Z.of_nat (S (S k)))) by lia. cbn [map fmap option_fmap option_map].
    rewrite (proj2 (Z.ltb_lt (attempt j + 1) (max_attempts j))) by lia. do 4 f_equal; lia.
Qed.

(** the retry budget.  When every attempt of a newly scheduled job fails,
    the rounds of attempt and retry end by themselves after exactly as many
    attempts as the store's limit: they are numbered 1 to the limit, every
    granted retry announces the number of the next attempt, and the last one is
    granted none. *)
Theorem retry_budget (s : ReconnectOrchestratorStore) (n name : string) (sn : ReconnectSnapshot) (uuid : string)
    (t1 t2 t3 : SystemTime) (delay : Duration) (detail : string) (now : SystemTime) :
  is_active s n = false -> 1 <= store_max_attempts s <= 2 ^ 32 - 1 ->
  let s1 := fst (schedule s n name sn uuid t1 t2 t3) in
  let m := store_max_attempts s in
  is_current s1 n uuid = true
  /\ rounds (Z.to_nat m) s1 n delay detail now
     = Some (map (fun a => (Some a, if a <? m then Some (a + 1) else None)) (seqZ 1 m)).
Proof.
  intros Ha Hm s1 m. assert (Hj : exists j, jobs s1 !! n = Some j /\ ended_at j = None /\ job_id j = uuid
    /\ attempt j = 0 /\ max_attempts j = m).
  { unfold s1, schedule, is_active in *. destruct (jobs s !! n) as [j|]; [rewrite Ha|]; cbn; rewrite lookup_insert_eq; by eexists. }
  destruct Hj as (j & Hj & He & Hid & Hat & Hmx). split.
  - unfold is_current. rewrite Hj, He, Hid. by rewrite !bool_decide_eq_true_2.
  - destruct (Z.to_nat m) as [|k] eqn:Hk; [lia|].
    rewrite (rounds_ok k s1 n delay detail now j) by (done || lia). rewrite Hat, Hmx.
    by replace (Z.of_nat (S k)) with m by lia.
Qed.

(** ** The cap on ended jobs *)

Definition is_terminal (j : ReconnectJob) : Prop := is_terminal_phase (status j) = true.
#[export] Instance is_terminal_dec j : Decision (is_terminal j).
Proof. unfold is_terminal. apply _. Defined.

(** The nodes whose job is in a terminal phase. *)
Definition terminal_nodes (m : gmap string ReconnectJob) : gset string := dom (filter (fun kv => is_terminal (snd kv)) m).

Lemma elem_terminal_nodes m n : n ∈ terminal_nodes m <-> exists j, m !! n = Some j /\ is_terminal j.
Proof.
  unfold terminal_nodes. rewrite elem_of_dom. split.
  - intros [j [H1 H2]%map_lookup_filter_Some]. by exists j.
  - intros (j & H1 & H2). exists j. by apply map_lookup_filter_Some.
Qed.

Lemma insert_entry_perm x l : insert_entry x l ≡ₚ x :: l.
Proof. induction l as [|y l IH]; simpl; [done|]. destruct (decide _); [done|]. rewrite IH. constructor. Qed.

Lemma sort_entries_perm l : sort_entries l ≡ₚ l.
Proof. induction l as [|x l IH]; simpl; [done|]. by rewrite insert_entry_perm, IH. Qed.

Lemma sort_entries_sorted l : StronglySorted key_le (sort_entries l).
Proof.
  induction l as [|x l IH]; simpl; [constructor|]. generalize dependent (sort_entries l). clear l.
  induction 1 as [|y l Hs IH Hy]; simpl; [by repeat constructor|]. destruct (decide (key_le x y)) as [Hle|Hn].
  - constructor; [by constructor|]. constructor; [done|]. eapply Forall_impl; [exact Hy|].
    unfold key_le in *. simpl. intros z. lia.
  - constructor; [done|]. rewrite insert_entry_perm. constructor; [|done]. unfold key_le in *. lia.
Qed.

Section Cap.
Context (s : ReconnectOrchestratorStore) (order : list (string * ReconnectJob)).
Hypothesis Horder : order ≡ₚ map_to_list (jobs s).

Definition terminal_jobs : list (string * (SystemTime * SystemTime)) :=
  map terminal_entry (List.filter (fun kv => is_terminal_phase (status (snd kv))) order).

Lemma elem_terminal_jobs n k :
  (n, k) ∈ terminal_jobs <-> exists j, jobs s !! n = Some j /\ is_terminal j /\ (n, k) = terminal_entry (n, j).
Proof.
  unfold terminal_jobs. rewrite list_elem_of_In, in_map_iff. split.
  - intros ([n' j] & He & [Hin Ht]%List.filter_In). exists j. injection He as -> <-.
    apply list_elem_of_In in Hin. rewrite Horder in Hin. apply elem_of_map_to_list in Hin. by split_and!.
  - intros (j & Hj & Ht & He). exists (n, j). split; [done|]. apply List.filter_In. split; [|done].
    apply list_elem_of_In. rewrite Horder. by apply elem_of_map_to_list.
Qed.

Lemma terminal_jobs_nodup : NoDup (map fst terminal_jobs).
Proof.
  unfold terminal_jobs. rewrite map_map. cbn [terminal_entry fst].
  assert (Hn : NoDup (map fst order)) by (rewrite Horder; apply NoDup_fst_map_to_list).
  clear Horder. induction order as [|[n j] l IH]; simpl in *; [constructor|].
  apply NoDup_cons in Hn as [Hn1 Hn2]. specialize (IH Hn2). destruct (is_terminal_phase (status j)); [|done].
  simpl. constructor; [|done]. intros Hin. apply Hn1.
  apply list_elem_of_In, in_map_iff in Hin as (kv & <- & [Hin _]%List.filter_In).
  by apply list_elem_of_In, in_map.
Qed.

Lemma terminal_nodes_list : terminal_nodes (jobs s) = list_to_set (map fst terminal_jobs).
Proof.
  apply set_eq. intros n. rewrite elem_terminal_nodes, elem_of_list_to_set. split.
  - intros (j & Hj & Ht). apply list_elem_of_In, in_map_iff. exists (terminal_entry (n, j)). split; [done|].
    apply list_elem_of_In, (elem_terminal_jobs n (snd (terminal_entry (n, j)))). by exists j.
  - intros Hin. apply list_elem_of_In, in_map_iff in Hin as ([n' k] & <- & Hin). apply list_elem_of_In in Hin.
    apply elem_terminal_jobs in Hin as (j & Hj & Ht & _). by exists j.
Qed.

Lemma cap_lookup max n :
  max < zlen terminal_jobs ->
  jobs (enforce_terminal_job_cap s order max) !! n
  = if decide (n ∈ map fst (ztake (zlen terminal_jobs - max) (sort_entries terminal_jobs))) then None
    else jobs s !! n.
Proof.
  intros H. unfold enforce_terminal_job_cap. fold terminal_jobs. rewrite (proj2 (Z.leb_gt _ _)) by done.
  cbn [jobs set_jobs]. apply delete_all_lookup.
Qed.

Lemma cap_nodes max :
  max < zlen terminal_jobs ->
  terminal_nodes (jobs (enforce_terminal_job_cap s order max))
  = list_to_set (map fst (zdrop (zlen terminal_jobs - max) (sort_entries terminal_jobs))).
Proof.
  intros H. set (k := zlen terminal_jobs - max). set (S0 := sort_entries terminal_jobs).
  assert (Hnd : NoDup (map fst S0)) by (unfold S0; rewrite sort_entries_perm; apply terminal_jobs_nodup).
  assert (Hsplit : map fst S0 = map fst (ztake k S0) ++ map fst (zdrop k S0)).
  { rewrite <-map_app. unfold ztake, zdrop. by rewrite take_drop. }
  rewrite Hsplit in Hnd. apply NoDup_app in Hnd as (_ & Hdis & _).
  assert (Hset : forall n, n ∈ terminal_nodes (jobs s) <-> n ∈ map fst (ztake k S0) \/ n ∈ map fst (zdrop k S0)).
  { intros n. rewrite terminal_nodes_list, elem_of_list_to_set, <-elem_of_app, <-Hsplit. unfold S0.
    by rewrite sort_entries_perm. }
  apply set_eq. intros n. rewrite elem_of_list_to_set, elem_terminal_nodes.
  rewrite cap_lookup by done. fold k S0. specialize (Hset n). rewrite elem_terminal_nodes in Hset. split.
  - intros (j & Hj & Ht). destruct (decide _) as [Hin|Hin]; [done|]. destruct (proj1 Hset); [by exists j|done|done].
  - intros Hin. destruct (proj2 Hset) as (j & Hj & Ht); [by right|]. exists j.
    rewrite decide_False; [done|]. intros Hin'. by apply (Hdis n).
Qed.
End Cap.

(** The cap.  Whatever the order in which the map is iterated, the cap
    leaves at most [max_retained] jobs in a terminal phase (all of them when
    there are no more), keeps every other job untouched, and removes the oldest:
    each removed job ended before or with every terminal job it keeps, and of
    those that ended together the ones that started first go first. *)
Theorem terminal_cap (s : ReconnectOrchestratorStore) (order : list (string * ReconnectJob)) (max : Z) :
  order ≡ₚ map_to_list (jobs s) -> 0 <= max ->
  let s' := enforce_terminal_job_cap s order max in
  Z.of_nat (size (terminal_nodes (jobs s'))) = Z.min max (Z.of_nat (size (terminal_nodes (jobs s))))
  /\ jobs s' ⊆ jobs s
  /\ (forall n j, jobs s !! n = Some j -> ~ is_terminal j -> jobs s' !! n = Some j)
  /\ (forall n j n' j', jobs s !! n = Some j -> jobs s' !! n = None -> jobs s' !! n' = Some j' -> is_terminal j' ->
        key_le (terminal_entry (n, j)) (terminal_entry (n', j'))).
Proof.
  intros Ho Hmax s'.
  assert (Hsz : size (terminal_nodes (jobs s)) = length (terminal_jobs order)).
  { rewrite (terminal_nodes_list s order Ho), size_list_to_set by (by eapply terminal_jobs_nodup). apply length_map. }
  destruct (Z.le_gt_cases (zlen (terminal_jobs order)) max) as [Hle|Hgt].
  { assert (Hs : s' = s) by (unfold s', enforce_terminal_job_cap; fold (terminal_jobs order); by rewrite (proj2 (Z.leb_le _ _))).
    rewrite Hs, Hsz. unfold zlen in Hle. split_and!; [lia|done|done|]. intros; congruence. }
  pose proof (fun n => cap_lookup s order max n Hgt) as Hl. fold s' in Hl.
  set (k := zlen (terminal_jobs order) - max) in *. set (S0 := sort_entries (terminal_jobs order)) in *.
  assert (HlenS : length S0 = length (terminal_jobs order)) by (unfold S0; by rewrite sort_entries_perm).
  assert (Hnd : NoDup (map fst S0)) by (unfold S0; rewrite sort_entries_perm; by eapply terminal_jobs_nodup).
  assert (HS : forall n k0, (n, k0) ∈ S0 <-> exists j, jobs s !! n = Some j /\ is_terminal j /\ (n, k0) = terminal_entry (n, j)).
  { intros. unfold S0. rewrite sort_entries_perm. by apply elem_terminal_jobs. }
  assert (Hsort : StronglySorted key_le (ztake k S0 ++ zdrop k S0)).
  { unfold ztake, zdrop. rewrite take_drop. apply sort_entries_sorted. }
  assert (Hnode : forall n, n ∈ map fst (ztake k S0) -> exists k0, (n, k0) ∈ ztake k S0).
  { intros n Hin. apply list_elem_of_In, in_map_iff in Hin as ([n0 k0] & <- & Hin). exists k0. by apply list_elem_of_In. }
  assert (Htake : forall x, x ∈ ztake k S0 -> x ∈ S0) by (intros x Hx; rewrite <-(take_drop (Z.to_nat k) S0); by apply elem_of_app; left).
  split_and!.
  - unfold s'. rewrite (cap_nodes s order Ho max Hgt), Hsz. fold k S0.
    rewrite size_list_to_set, length_map; [unfold zdrop; rewrite length_drop, HlenS; unfold k, zlen in *; lia|].
    unfold zdrop. rewrite <-(take_drop (Z.to_nat k) S0), map_app in Hnd.
    by apply NoDup_app in Hnd as (_ & _ & Hnd).
  - apply map_subseteq_spec. intros n j. rewrite Hl. by destruct (decide _).
  - intros n j Hj Hn. rewrite Hl, decide_False; [done|]. intros (k0 & Hin)%Hnode.
    apply Htake, HS in Hin as (j0 & Hj0 & Ht & _). by simplify_eq.
  - intros n j n' j' Hj Hnone Hj' Ht'. rewrite Hl in Hnone, Hj'. destruct (decide (n ∈ _)) as [Hin|]; [|congruence].
    destruct (decide (n' ∈ _)) as [|Hnin]; [done|]. apply Hnode in Hin as (k0 & Hin).
    pose proof (proj1 (HS _ _) (Htake _ Hin)) as (j0 & Hj0 & _ & He). assert (j0 = j) as -> by congruence. rewrite <-He.
    eapply StronglySorted_app_1_elem_of; [exact Hsort|exact Hin|].
    assert (Hin' : terminal_entry (n', j') ∈ S0) by (apply HS; by exists j').
    rewrite <-(take_drop (Z.to_nat k) S0), elem_of_app in Hin'. destruct Hin' as [Hin'|]; [|done].
    exfalso. apply Hnin. apply list_elem_of_In, in_map_iff. exists (terminal_entry (n', j')). split; [done|].
    by apply list_elem_of_In.
Qed.

(** ** Concrete runs *)

Definition run_ops : list StoreOp :=
  [OSchedule "a" "A" default_snapshot "id-1" 1 2 3; OBegin "a"; OAdvance "a" SshConnect 4;
   ORetry "a" 500 "retry" 5; OBegin "a"; OFinish "a" (Ok 3) 6 7 8;
   OSchedule "b" "B" default_snapshot "id-2" 9 10 11; OCancel "b" 12 13 14].
Definition run_store : ReconnectOrchestratorStore := run run_ops (Store_new default_timing 3).

Lemma reconnect_store_invariant_witness : exists j, jobs run_store !! "a" = Some j /\ 0 <= attempt j <= max_attempts j.
Proof.
  eexists. split; [vm_compute; reflexivity|].
  refine (proj1 (proj2 (proj2 (reconnect_store_invariant default_timing 3 run_ops "a" _ _ _ _)))).
  - unfold in_width. lia.
  - unfold run_ops. repeat constructor.
  - vm_compute. reflexivity.
Defined.

(** The cancelled job of ["b"], after it is advanced and scheduled anew. *)
Lemma ended_job_stays_ended_witness :
  is_current (run [OAdvance "b" SshConnect 15; OSchedule "b" "B" default_snapshot "id-3" 16 17 18] run_store) "b" "id-2" = false.
Proof.
  refine (proj1 (ended_job_stays_ended run_store _ "b" "id-2" _ _)); [vm_compute; reflexivity|].
  repeat constructor. discriminate.
Defined.

Lemma retry_budget_witness :
  rounds 3 (fst (schedule run_store "c" "C" default_snapshot "id-4" 1 2 3)) "c" 500 "retry" 4
  = Some [(Some 1, Some 2); (Some 2, Some 3); (Some 3, None)].
Proof.
  refine (proj2 (retry_budget run_store "c" "C" default_snapshot "id-4" 1 2 3 500 "retry" 4 _ _));
    [vm_compute; reflexivity|vm_compute; intuition congruence].
Defined.

(** Of the two ended jobs, ["a"] ended first. *)
Lemma terminal_cap_witness :
  let s' := enforce_terminal_job_cap run_store (map_to_list (jobs run_store)) 1 in
  jobs s' !! "a" = None /\ is_Some (jobs s' !! "b") /\ Z.of_nat (size (terminal_nodes (jobs s'))) = 1.
Proof.
  split; [vm_compute; reflexivity|]. split; [vm_compute; by eexists|].
  exact (proj1 (terminal_cap run_store (map_to_list (jobs run_store)) 1 ltac:(reflexivity) ltac:(lia))).
Defined.
