(* ===== verification/Telnet.v ===== *)
(** * Telnet

    Model of the Telnet part of
    [crates/hapcli-terminal/src/session/telnet.rs]: the codec that separates the
    server's text from Telnet commands, answers option negotiation and escapes
    the user's input, and the worker that runs it between the socket and the
    session.  The codec is compared with the Telnet protocol (RFC 854, 855,
    1073, 1091) written as a receiver that works byte by byte. *)
From S2P Require Import Prelude.
From stdpp Require Import prelude list numbers list_numbers.
Open Scope Z_scope.

(** ** The code *)

Definition TELNET_TERMINAL_TYPE : list Z :=
  [120; 116; 101; 114; 109; 45; 50; 53; 54; 99; 111; 108; 111; 114].
Definition TELNET_COMMAND_IAC : Z := 255.
Definition TELNET_COMMAND_DONT : Z := 254.
Definition TELNET_COMMAND_DO : Z := 253.
Definition TELNET_COMMAND_WONT : Z := 252.
Definition TELNET_COMMAND_WILL : Z := 251.
Definition TELNET_COMMAND_SB : Z := 250.
Definition TELNET_COMMAND_GA : Z := 249.
Definition TELNET_COMMAND_EL : Z := 248.
Definition TELNET_COMMAND_EC : Z := 247.
Definition TELNET_COMMAND_AYT : Z := 246.
Definition TELNET_COMMAND_AO : Z := 245.
Definition TELNET_COMMAND_IP : Z := 244.
Definition TELNET_COMMAND_BRK : Z := 243.
Definition TELNET_COMMAND_NOP : Z := 241.
Definition TELNET_COMMAND_SE : Z := 240.
Definition TELNET_OPTION_BINARY : Z := 0.
Definition TELNET_OPTION_ECHO : Z := 1.
Definition TELNET_OPTION_SUPPRESS_GO_AHEAD : Z := 3.
Definition TELNET_OPTION_TERMINAL_TYPE : Z := 24.
Definition TELNET_OPTION_NAWS : Z := 31.
Definition TELNET_TERMINAL_TYPE_IS : Z := 0.
Definition TELNET_TERMINAL_TYPE_SEND : Z := 1.

Inductive TelnetControlCommand :=
| NoOperation | Break | InterruptProcess | AbortOutput | AreYouThere | EraseCharacter
| EraseLine | GoAhead.

Inductive TelnetCommand :=
| Data (bytes : list Z)
| Control (command : TelnetControlCommand)
| Resize (cols rows : Z)
| Close.

(** An error carries its text. *)
Inductive TelnetWorkerEvent :=
| Connected
| Output (data : list Z)
| Failed (message : list Z)
| Closed.

Record TelnetCodec := mkCodec { tc_cols : Z; tc_rows : Z }.

Definition TelnetCodec_new (cols rows : Z) : TelnetCodec := mkCodec cols rows.

Definition set_window_size (cols rows : Z) (c : TelnetCodec) : TelnetCodec :=
  mkCodec (Z.max cols 2) (Z.max rows 2).

Fixpoint telnet_escape_iac_payload (bytes : list Z) : list Z :=
  match bytes with
  | [] => []
  | byte :: bytes =>
      byte :: (if byte =? TELNET_COMMAND_IAC then [TELNET_COMMAND_IAC] else [])
      ++ telnet_escape_iac_payload bytes
  end.

Fixpoint encode_client_data (bytes : list Z) : list Z :=
  match bytes with
  | [] => []
  | byte :: bytes =>
      byte :: (if byte =? TELNET_COMMAND_IAC then [TELNET_COMMAND_IAC] else [])
      ++ encode_client_data bytes
  end.

(** The message is built with the plain payload, which is then replaced
    ([splice]) by the escaped one. *)
Definition naws_message (c : TelnetCodec) : list Z :=
  let bytes :=
    [TELNET_COMMAND_IAC; TELNET_COMMAND_SB; TELNET_OPTION_NAWS;
     wrap 8 (Z.shiftr (tc_cols c) 8); wrap 8 (tc_cols c);
     wrap 8 (Z.shiftr (tc_rows c) 8); wrap 8 (tc_rows c);
     TELNET_COMMAND_IAC; TELNET_COMMAND_SE] in
  let payload := ztake 4 (zdrop 3 bytes) in
  ztake 3 bytes ++ telnet_escape_iac_payload payload ++ zdrop 7 bytes.

Definition negotiation_responses (c : TelnetCodec) (command option : Z) : list (list Z) :=
  if command =? TELNET_COMMAND_DO then
    if (option =? TELNET_OPTION_BINARY) || (option =? TELNET_OPTION_SUPPRESS_GO_AHEAD)
       || (option =? TELNET_OPTION_TERMINAL_TYPE) || (option =? TELNET_OPTION_NAWS) then
      [TELNET_COMMAND_IAC; TELNET_COMMAND_WILL; option]
      :: (if option =? TELNET_OPTION_NAWS then [naws_message c] else [])
    else [[TELNET_COMMAND_IAC; TELNET_COMMAND_WONT; option]]
  else if command =? TELNET_COMMAND_WILL then
    if (option =? TELNET_OPTION_BINARY) || (option =? TELNET_OPTION_ECHO)
       || (option =? TELNET_OPTION_SUPPRESS_GO_AHEAD) then
      [[TELNET_COMMAND_IAC; TELNET_COMMAND_DO; option]]
    else [[TELNET_COMMAND_IAC; TELNET_COMMAND_DONT; option]]
  else if command =? TELNET_COMMAND_DONT then [[TELNET_COMMAND_IAC; TELNET_COMMAND_WONT; option]]
  else if command =? TELNET_COMMAND_WONT then [[TELNET_COMMAND_IAC; TELNET_COMMAND_DONT; option]]
  else [].

Definition subnegotiation_responses (bytes : list Z) : list (list Z) :=
  if bool_decide (bytes !! 0%nat = Some TELNET_OPTION_TERMINAL_TYPE)
     && bool_decide (bytes !! 1%nat = Some TELNET_TERMINAL_TYPE_SEND) then
    [[TELNET_COMMAND_IAC; TELNET_COMMAND_SB; TELNET_OPTION_TERMINAL_TYPE; TELNET_TERMINAL_TYPE_IS]
     ++ TELNET_TERMINAL_TYPE ++ [TELNET_COMMAND_IAC; TELNET_COMMAND_SE]]
  else [].

(** The search for the end of a subnegotiation: the bytes passed over and the
    rest, [bytes[index..]] where the search stops. *)
Fixpoint scan_subnegotiation (bytes : list Z) : list Z * list Z :=
  match bytes with
  | a :: (b :: _) as tail =>
      if (a =? TELNET_COMMAND_IAC) && (b =? TELNET_COMMAND_SE) then ([], bytes)
      else let '(body, rest) := scan_subnegotiation tail in (a :: body, rest)
  | _ => ([], bytes)
  end.

(** The loop of [filter_server_bytes] on the bytes from [index] on; a turn
    consumes at least one of them. *)
Fixpoint filter_loop (fuel : nat) (c : TelnetCodec) (bytes : list Z) : list Z * list (list Z) :=
  match fuel with
  | O => ([], [])
  | S fuel =>
      match bytes with
      | [] => ([], [])
      | byte :: bytes =>
          if negb (byte =? TELNET_COMMAND_IAC) then
            let '(data, responses) := filter_loop fuel c bytes in (byte :: data, responses)
          else
            match bytes with
            | [] => ([], [])
            | command :: bytes =>
                if command =? TELNET_COMMAND_IAC then
                  let '(data, responses) := filter_loop fuel c bytes in (TELNET_COMMAND_IAC :: data, responses)
                else if (command =? TELNET_COMMAND_DO) || (command =? TELNET_COMMAND_DONT)
                        || (command =? TELNET_COMMAND_WILL) || (command =? TELNET_COMMAND_WONT) then
                  match bytes with
                  | [] => ([], [])
                  | option :: bytes =>
                      let '(data, responses) := filter_loop fuel c bytes in
                      (data, negotiation_responses c command option ++ responses)
                  end
                else if command =? TELNET_COMMAND_SB then
                  let '(subnegotiation, rest) := scan_subnegotiation bytes in
                  let bytes := if 1 <? zlen rest then zdrop 2 rest else rest in
                  let '(data, responses) := filter_loop fuel c bytes in
                  (data, subnegotiation_responses subnegotiation ++ responses)
                else filter_loop fuel c bytes
            end
      end
  end.

Definition filter_server_bytes (c : TelnetCodec) (bytes : list Z) : list Z * list (list Z) :=
  filter_loop (length bytes) c bytes.

Definition control_command_byte (command : TelnetControlCommand) : Z :=
  match command with
  | NoOperation => TELNET_COMMAND_NOP
  | Break => TELNET_COMMAND_BRK
  | InterruptProcess => TELNET_COMMAND_IP
  | AbortOutput => TELNET_COMMAND_AO
  | AreYouThere => TELNET_COMMAND_AYT
  | EraseCharacter => TELNET_COMMAND_EC
  | EraseLine => TELNET_COMMAND_EL
  | GoAhead => TELNET_COMMAND_GA
  end.

(** *** The worker *)

(** What the socket and the session do in a turn of the worker's loop:
    [write_stops bytes] is [None] when [write_all] of these bytes succeeds and
    otherwise the number of bytes that went out before it failed; [send_ok]
    tells whether the session still takes output. *)
Record TelnetPeer := mkPeer { write_stops : list Z -> option Z; send_ok : bool }.

(** The branch of [select!] that is taken: a read of the socket (nothing read
    is the end of the stream), or a command of the session ([None] when the
    session has dropped its end). *)
Inductive TelnetTurn :=
| ReadResult (r : result (list Z) (list Z))
| CommandReceived (command : option TelnetCommand).

(** The worker: its codec, what it wrote to the socket, the events it sent to
    the session, and whether its loop still runs. *)
Record TelnetWorker := mkWorker {
  tw_codec : TelnetCodec;
  tw_written : list Z;
  tw_sent : list TelnetWorkerEvent;
  tw_running : bool
}.

Definition worker_send (e : TelnetWorkerEvent) (w : TelnetWorker) : TelnetWorker :=
  mkWorker (tw_codec w) (tw_written w) (tw_sent w ++ [e]) (tw_running w).
Definition worker_break (w : TelnetWorker) : TelnetWorker :=
  mkWorker (tw_codec w) (tw_written w) (tw_sent w) false.
Definition worker_wrote (bytes : list Z) (w : TelnetWorker) : TelnetWorker :=
  mkWorker (tw_codec w) (tw_written w ++ bytes) (tw_sent w) (tw_running w).
Definition worker_set_codec (c : TelnetCodec) (w : TelnetWorker) : TelnetWorker :=
  mkWorker c (tw_written w) (tw_sent w) (tw_running w).

(** [writer.write_all], and the end of the worker when it fails. *)
Definition worker_write_all (peer : TelnetPeer) (bytes : list Z) (w : TelnetWorker) : TelnetWorker :=
  match write_stops peer bytes with
  | None => worker_wrote bytes w
  | Some n => worker_break (worker_send Closed (worker_wrote (ztake n bytes) w))
  end.

(** The responses, one write each; a failure returns from the worker. *)
Fixpoint write_responses (peer : TelnetPeer) (responses : list (list Z)) (w : TelnetWorker) : TelnetWorker :=
  match responses with
  | [] => w
  | response :: responses =>
      let w := worker_write_all peer response w in
      if tw_running w then write_responses peer responses w else w
  end.

Definition worker_turn (peer : TelnetPeer) (turn : TelnetTurn) (w : TelnetWorker) : TelnetWorker :=
  match turn with
  | ReadResult (Ok []) => worker_break (worker_send Closed w)
  | ReadResult (Ok bytes) =>
      let '(data, responses) := filter_server_bytes (tw_codec w) bytes in
      let w := write_responses peer responses w in
      if negb (tw_running w) then w
      else if bool_decide (data = []) then w
      else if send_ok peer then worker_send (Output data) w
      else worker_break w
  | ReadResult (Err error) => worker_break (worker_send (Failed error) w)
  | CommandReceived (Some (Data bytes)) => worker_write_all peer (encode_client_data bytes) w
  | CommandReceived (Some (Control command)) =>
      worker_write_all peer [TELNET_COMMAND_IAC; control_command_byte command] w
  | CommandReceived (Some (Resize cols rows)) =>
      let codec := set_window_size cols rows (tw_codec w) in
      worker_write_all peer (naws_message codec) (worker_set_codec codec w)
  | CommandReceived (Some Close) | CommandReceived None => worker_break (worker_send Closed w)
  end.

Fixpoint worker_loop (turns : list (TelnetPeer * TelnetTurn)) (w : TelnetWorker) : TelnetWorker :=
  match turns with
  | [] => w
  | (peer, turn) :: turns => if tw_running w then worker_loop turns (worker_turn peer turn w) else w
  end.

(** How the connection attempt ends; an error or the timeout gives the message
    that is sent. *)
Inductive ConnectResult := ConnectOk | ConnectFailed (message : list Z).

Definition run_telnet_worker (connect : ConnectResult) (cols rows : Z)
    (turns : list (TelnetPeer * TelnetTurn)) : TelnetWorker :=
  let w := mkWorker (TelnetCodec_new (wrap 16 cols) (wrap 16 rows)) [] [] true in
  match connect with
  | ConnectFailed message => worker_break (worker_send (Failed message) w)
  | ConnectOk => worker_loop turns (worker_send Connected w)
  end.

(** ** The protocol *)

(** A Telnet stream as a sequence of items, and its encoding. *)
Inductive item :=
| IText (bytes : list Z)
| INegotiate (verb option : Z)
| ISub (payload : list Z)
| ICommand (command : Z).

Definition escape (bytes : list Z) : list Z := mjoin (map (fun b => if b =? 255 then [255; 255] else [b]) bytes).
Definition encode_item (i : item) : list Z :=
  match i with
  | IText bytes => escape bytes
  | INegotiate verb option => [255; verb; option]
  | ISub payload => [255; 250] ++ escape payload ++ [255; 240]
  | ICommand command => [255; command]
  end.
Definition encode_items (l : list item) : list Z := mjoin (map encode_item l).

Definition item_ok (i : item) : Prop :=
  match i with
  | INegotiate verb _ => 251 <= verb <= 254
  | ICommand command => 241 <= command <= 249
  | _ => True
  end.

(** A receiver of the protocol, byte by byte: it may be cut anywhere. *)
Inductive rfc_state :=
| RData | RIac | RVerb (verb : Z) | RSub (acc : list Z) | RSubIac (acc : list Z).

Definition rfc_step (s : rfc_state) (b : Z) : rfc_state * list item :=
  match s with
  | RData => if b =? 255 then (RIac, []) else (RData, [IText [b]])
  | RIac =>
      if b =? 255 then (RData, [IText [255]])
      else if (251 <=? b) && (b <=? 254) then (RVerb b, [])
      else if b =? 250 then (RSub [], [])
      else (RData, [ICommand b])
  | RVerb verb => (RData, [INegotiate verb b])
  | RSub acc => if b =? 255 then (RSubIac acc, []) else (RSub (acc ++ [b]), [])
  | RSubIac acc =>
      if b =? 255 then (RSub (acc ++ [255]), [])
      else if b =? 240 then (RData, [ISub acc])
      else (RSub acc, [])
  end.

Fixpoint rfc_run (s : rfc_state) (bytes : list Z) : rfc_state * list item :=
  match bytes with
  | [] => (s, [])
  | b :: bytes =>
      let '(s, out) := rfc_step s b in
      let '(s, outs) := rfc_run s bytes in (s, out ++ outs)
  end.

(** Text byte by byte, as the receiver delivers it. *)
Definition split_text (i : item) : list item :=
  match i with IText bytes => map (fun b => IText [b]) bytes | _ => [i] end.

(** The text of a stream, and what a client with codec [c] answers to it. *)
Definition item_text (i : item) : list Z := match i with IText bytes => bytes | _ => [] end.
Definition item_responses (c : TelnetCodec) (i : item) : list (list Z) :=
  match i with
  | INegotiate verb option => negotiation_responses c verb option
  | ISub payload => subnegotiation_responses payload
  | _ => []
  end.
Definition items_text (l : list item) : list Z := mjoin (map item_text l).

(** The end mark of a subnegotiation inside its payload. *)
Fixpoint no_end_mark (payload : list Z) : bool :=
  match payload with
  | a :: (b :: _) as tail => negb ((a =? 255) && (b =? 240)) && no_end_mark tail
  | _ => true
  end.
Definition payload_ok (i : item) : Prop :=
  match i with ISub payload => no_end_mark payload = true | _ => True end.

(** ** Encoding and the reference receiver *)

Lemma mjoin_cons {A} (x : list A) l : mjoin (x :: l) = x ++ mjoin l.
Proof. done. Qed.

Lemma escape_cons b bytes : escape (b :: bytes) = (if b =? 255 then [255; 255] else [b]) ++ escape bytes.
Proof. done. Qed.

Lemma encode_client_data_escape bytes : encode_client_data bytes = escape bytes.
Proof.
  induction bytes as [|b bytes IH]; [done|]. rewrite escape_cons. simpl. rewrite IH.
  unfold TELNET_COMMAND_IAC. destruct (Z.eqb_spec b 255); simpl; by subst.
Qed.

Lemma escape_payload_escape bytes : telnet_escape_iac_payload bytes = escape bytes.
Proof. rewrite <-encode_client_data_escape. induction bytes as [|b bytes IH]; [done|]. simpl. by rewrite IH. Qed.

Lemma rfc_run_app s l k :
  rfc_run s (l ++ k)
  = let '(s1, o1) := rfc_run s l in let '(s2, o2) := rfc_run s1 k in (s2, o1 ++ o2).
Proof.
  revert s. induction l as [|b l IH]; intros s; simpl; [by destruct (rfc_run s k)|].
  destruct (rfc_step s b) as [s1 o1]. rewrite IH. destruct (rfc_run s1 l) as [s2 o2].
  destruct (rfc_run s2 k) as [s3 o3]. by rewrite app_assoc.
Qed.

Lemma rfc_run_text bytes : rfc_run RData (escape bytes) = (RData, map (fun b => IText [b]) bytes).
Proof.
  induction bytes as [|b bytes IH]; [done|]. rewrite escape_cons, rfc_run_app.
  destruct (Z.eqb_spec b 255) as [->|Hb]; simpl; [by rewrite IH|].
  rewrite (proj2 (Z.eqb_neq _ _)) by done. simpl. by rewrite IH.
Qed.

Lemma rfc_run_sub acc payload : rfc_run (RSub acc) (escape payload) = (RSub (acc ++ payload), []).
Proof.
  revert acc. induction payload as [|b bytes IH]; intros acc; [by rewrite app_nil_r|].
  rewrite escape_cons, rfc_run_app.
  destruct (Z.eqb_spec b 255) as [->|Hb]; simpl.
  - rewrite IH. by rewrite <-app_assoc.
  - rewrite (proj2 (Z.eqb_neq _ _)) by done. simpl. rewrite IH. by rewrite <-app_assoc.
Qed.

Lemma rfc_run_item i : item_ok i -> rfc_run RData (encode_item i) = (RData, split_text i).
Proof.
  destruct i as [bytes|verb option|payload|command]; simpl; intros Hok.
  - apply rfc_run_text.
  - rewrite (proj2 (Z.eqb_neq _ _)), !(proj2 (Z.leb_le _ _)) by lia. done.
  - rewrite rfc_run_app, rfc_run_sub. done.
  - rewrite (proj2 (Z.eqb_neq command 255)), (proj2 (Z.leb_gt 251 command)) by lia. simpl.
    by rewrite (proj2 (Z.eqb_neq command 250)) by lia.
Qed.

Lemma rfc_run_items l : Forall item_ok l -> rfc_run RData (encode_items l) = (RData, mjoin (map split_text l)).
Proof.
  induction 1 as [|i l Hi Hl IH]; [done|]. unfold encode_items in *. simpl.
  rewrite rfc_run_app, rfc_run_item by done. by rewrite IH.
Qed.

Lemma encode_items_app l k : encode_items (l ++ k) = encode_items l ++ encode_items k.
Proof. unfold encode_items. by rewrite map_app, join_app. Qed.

Lemma items_text_app l k : items_text (l ++ k) = items_text l ++ items_text k.
Proof. unfold items_text. by rewrite map_app, join_app. Qed.

Lemma items_text_split l : items_text (mjoin (map split_text l)) = items_text l.
Proof.
  induction l as [|i l IH]; [done|]. cbn [map]. rewrite mjoin_cons, items_text_app, IH.
  unfold items_text. simpl. f_equal. destruct i; simpl; try done.
  induction bytes as [|b bytes IHb]; [done|]. simpl. by rewrite IHb.
Qed.

(** ** The codec's filter *)

Lemma scan_cons a b bytes :
  scan_subnegotiation (a :: b :: bytes)
  = if (a =? 255) && (b =? 240) then ([], a :: b :: bytes)
    else (a :: (scan_subnegotiation (b :: bytes)).1, (scan_subnegotiation (b :: bytes)).2).
Proof. cbn [scan_subnegotiation]. destruct (_ && _); [done|]. by destruct (match bytes with [] => _ | _ => _ end). Qed.

Lemma scan_shorter bytes : (length (scan_subnegotiation bytes).2 <= length bytes)%nat.
Proof.
  induction bytes as [|a [|b bytes] IH]; [done|done|]. rewrite scan_cons.
  destruct (_ && _); [done|]. cbn [snd length] in *. lia.
Qed.

(** Fuel for every byte is enough. *)
Lemma filter_loop_fuel n m c bytes :
  (length bytes <= n)%nat -> (length bytes <= m)%nat -> filter_loop n c bytes = filter_loop m c bytes.
Proof.
  revert m bytes. induction n as [|n IH]; intros m bytes Hn Hm.
  { destruct bytes; [|simpl in Hn; lia]. by destruct m. }
  destruct m as [|m]; [destruct bytes; [done|simpl in Hm; lia]|].
  destruct bytes as [|b bytes]; [done|]. cbn [filter_loop]. simpl in Hn, Hm.
  destruct (negb _); [by rewrite (IH m) by lia|].
  destruct bytes as [|command bytes]; [done|]. simpl in Hn, Hm.
  destruct (command =? TELNET_COMMAND_IAC); [by rewrite (IH m) by lia|].
  destruct (_ || _); [destruct bytes; [done|]; simpl in Hn, Hm; by rewrite (IH m) by lia|].
  destruct (command =? TELNET_COMMAND_SB); [|apply IH; lia].
  pose proof (scan_shorter bytes) as Hs. destruct (scan_subnegotiation bytes) as [body rest]. simpl in Hs.
  rewrite (IH m); [done| |]; destruct (1 <? zlen rest); unfold zdrop; rewrite ?length_drop; lia.
Qed.

Lemma filter_nil c : filter_server_bytes c [] = ([], []).
Proof. done. Qed.

(** One turn of the loop on each kind of input. *)
Lemma filter_plain c b bytes : b <> 255 ->
  filter_server_bytes c (b :: bytes)
  = (b :: (filter_server_bytes c bytes).1, (filter_server_bytes c bytes).2).
Proof.
  intros Hb. unfold filter_server_bytes. cbn [length filter_loop]. unfold TELNET_COMMAND_IAC.
  rewrite (proj2 (Z.eqb_neq _ _)) by done. simpl. by destruct (filter_loop _ _ _).
Qed.

Lemma filter_iac_iac c bytes :
  filter_server_bytes c (255 :: 255 :: bytes)
  = (255 :: (filter_server_bytes c bytes).1, (filter_server_bytes c bytes).2).
Proof.
  unfold filter_server_bytes. cbn [length]. remember (S (length bytes)) as n eqn:Hn.
  cbn [filter_loop Z.eqb Pos.eqb negb TELNET_COMMAND_IAC].
  rewrite (filter_loop_fuel n (length bytes)) by lia. by destruct (filter_loop _ _ _).
Qed.

Lemma filter_negotiate c verb option bytes : 251 <= verb <= 254 ->
  filter_server_bytes c (255 :: verb :: option :: bytes)
  = ((filter_server_bytes c bytes).1, negotiation_responses c verb option ++ (filter_server_bytes c bytes).2).
Proof.
  intros Hv. unfold filter_server_bytes. cbn [length]. remember (S (S (length bytes))) as n eqn:Hn.
  assert (verb = 251 \/ verb = 252 \/ verb = 253 \/ verb = 254) as [-> | [-> | [-> | ->]]] by lia;
    cbn [filter_loop Z.eqb Pos.eqb negb orb TELNET_COMMAND_IAC TELNET_COMMAND_DO TELNET_COMMAND_DONT TELNET_COMMAND_WILL TELNET_COMMAND_WONT];
    rewrite (filter_loop_fuel n (length bytes)) by lia; by destruct (filter_loop _ _ _).
Qed.

Lemma filter_command c command bytes : 241 <= command <= 249 ->
  filter_server_bytes c (255 :: command :: bytes) = filter_server_bytes c bytes.
Proof.
  intros Hc. unfold filter_server_bytes. cbn [length]. remember (S (length bytes)) as n eqn:Hn.
  cbn [filter_loop]. unfold TELNET_COMMAND_IAC, TELNET_COMMAND_DO, TELNET_COMMAND_DONT, TELNET_COMMAND_WILL, TELNET_COMMAND_WONT,
    TELNET_COMMAND_SB. rewrite !(proj2 (Z.eqb_neq command _)) by lia. simpl.
  apply filter_loop_fuel; simpl; lia.
Qed.

Lemma scan_escape payload rest :
  no_end_mark payload = true ->
  scan_subnegotiation (escape payload ++ 255 :: 240 :: rest) = (escape payload, 255 :: 240 :: rest).
Proof.
  induction payload as [|b p IH]; intros Hno; [done|]. rewrite escape_cons.
  assert (Hp : no_end_mark p = true) by (destruct p; [done|]; simpl in Hno; by apply andb_prop in Hno as [_ ?]).
  specialize (IH Hp). destruct (Z.eqb_spec b 255) as [->|Hb].
  - assert (Hstep : exists x k, escape p ++ 255 :: 240 :: rest = x :: k /\ x <> 240).
    { destruct p as [|y p]; [by exists 255, (240 :: rest)|]. rewrite escape_cons.
      destruct (Z.eqb_spec y 255) as [->|Hy]; [by eexists 255, _|]. eexists y, _. split; [done|]. intros ->. done. }
    destruct Hstep as (x & k & Hk & Hx). cbn [app]. rewrite Hk in IH |- *. rewrite !scan_cons.
    rewrite (proj2 (Z.eqb_neq x 240)) by done. cbn [Z.eqb Pos.eqb andb fst snd]. by rewrite IH.
  - cbn [app]. destruct (escape p ++ 255 :: 240 :: rest) as [|x k] eqn:Hk.
    { by apply app_eq_nil in Hk as [_ ?]. }
    rewrite scan_cons, (proj2 (Z.eqb_neq b 255)) by done. cbn [andb]. by rewrite IH.
Qed.

Lemma subnegotiation_responses_escape p : subnegotiation_responses (escape p) = subnegotiation_responses p.
Proof.
  unfold subnegotiation_responses. destruct p as [|a p]; [done|]. rewrite escape_cons.
  destruct (Z.eqb_spec a 255) as [->|Ha]; [done|]. destruct p as [|b p]; [done|]. rewrite escape_cons.
  destruct (Z.eqb_spec b 255) as [->|Hb]; done.
Qed.

Lemma filter_sub c payload bytes : no_end_mark payload = true ->
  filter_server_bytes c (255 :: 250 :: escape payload ++ 255 :: 240 :: bytes)
  = ((filter_server_bytes c bytes).1, subnegotiation_responses payload ++ (filter_server_bytes c bytes).2).
Proof.
  intros Hno. rewrite <-subnegotiation_responses_escape. unfold filter_server_bytes. cbn [length].
  remember (S (length (escape payload ++ 255 :: 240 :: bytes))) as n eqn:Hn.
  cbn [filter_loop Z.eqb Pos.eqb negb orb TELNET_COMMAND_IAC TELNET_COMMAND_DO TELNET_COMMAND_DONT TELNET_COMMAND_WILL
    TELNET_COMMAND_WONT TELNET_COMMAND_SB].
  rewrite scan_escape by done. rewrite !zlen_cons, (proj2 (Z.ltb_lt _ _)) by (pose proof (zlen_nonneg bytes); lia).
  change (zdrop 2 (255 :: 240 :: bytes)) with bytes.
  rewrite (filter_loop_fuel n (length bytes)) by (rewrite ?Hn, ?length_app; simpl; lia). by destruct (filter_loop _ _ _).
Qed.

Lemma filter_text c text bytes :
  filter_server_bytes c (escape text ++ bytes)
  = (text ++ (filter_server_bytes c bytes).1, (filter_server_bytes c bytes).2).
Proof.
  induction text as [|b text IH]; [simpl; by destruct (filter_server_bytes c bytes)|].
  rewrite escape_cons. destruct (Z.eqb_spec b 255) as [->|Hb]; cbn [app].
  - by rewrite filter_iac_iac, IH.
  - by rewrite filter_plain, IH.
Qed.

Lemma filter_item c i bytes : item_ok i -> payload_ok i ->
  filter_server_bytes c (encode_item i ++ bytes)
  = (item_text i ++ (filter_server_bytes c bytes).1, item_responses c i ++ (filter_server_bytes c bytes).2).
Proof.
  destruct i as [text|verb option|payload|command]; cbn [item_ok payload_ok encode_item]; intros Hok Hp; cbn [app].
  - apply filter_text.
  - by apply filter_negotiate.
  - rewrite <-app_assoc. by apply filter_sub.
  - rewrite filter_command by done. by destruct (filter_server_bytes c bytes).
Qed.

Lemma filter_items c l : Forall item_ok l -> Forall payload_ok l ->
  filter_server_bytes c (encode_items l) = (items_text l, mjoin (map (item_responses c) l)).
Proof.
  induction l as [|i l IH]; intros Hok Hp; [done|]. inversion Hok; inversion Hp; subst.
  unfold encode_items. cbn [map]. rewrite mjoin_cons, filter_item by done.
  fold (encode_items l). by rewrite IH.
Qed.

(** ** What the worker writes *)

Definition size_item (c : TelnetCodec) : item :=
  ISub [31; wrap 8 (Z.shiftr (tc_cols c) 8); wrap 8 (tc_cols c);
        wrap 8 (Z.shiftr (tc_rows c) 8); wrap 8 (tc_rows c)].
Definition type_item : item := ISub (24 :: 0 :: TELNET_TERMINAL_TYPE).

(** What may be written in answer to the server. *)
Definition answer (c : TelnetCodec) (i : item) : Prop :=
  (exists verb option, i = INegotiate verb option /\ 251 <= verb <= 254) \/ i = size_item c \/ i = type_item.

(** The window size that a server reads from an item (RFC 1073). *)
Definition item_size (i : item) : option (Z * Z) :=
  match i with
  | ISub [31; a; b; c; d] => Some (a * 256 + b, c * 256 + d)
  | _ => None
  end.
Definition item_command (i : item) : option Z := match i with ICommand command => Some command | _ => None end.
Definition codec_size (c : TelnetCodec) : Z * Z := (tc_cols c, tc_rows c).
Definition codec_ok (c : TelnetCodec) : Prop := is_u16 (tc_cols c) /\ is_u16 (tc_rows c).

Lemma naws_message_item c : naws_message c = encode_item (size_item c).
Proof.
  unfold naws_message. rewrite escape_payload_escape. unfold size_item, encode_item.
  rewrite escape_cons. done.
Qed.

Lemma wrap_bytes_u16 x : is_u16 x -> wrap 8 (Z.shiftr x 8) * 256 + wrap 8 x = x.
Proof.
  intros [H0 H1]. rewrite wrap_small.
  - unfold wrap. rewrite Z.shiftr_div_pow2 by lia. change (2 ^ 8) with 256.
    pose proof (Z.div_mod x 256). lia.
  - apply (in_width_shiftr 16 8 x); [lia|done].
Qed.

Lemma size_item_size c : codec_ok c -> item_size (size_item c) = Some (codec_size c).
Proof. intros [Hc Hr]. unfold codec_size. cbn [item_size size_item]. by rewrite !wrap_bytes_u16. Qed.

Lemma answers_negotiation c command option :
  exists its, map encode_item its = negotiation_responses c command option /\ Forall (answer c) its.
Proof.
  assert (Hone : forall verb, 251 <= verb <= 254 ->
    exists its, map encode_item its = [[255; verb; option]] /\ Forall (answer c) its).
  { intros verb ?. exists [INegotiate verb option]. split; [done|]. constructor; [|done]. left. by exists verb, option. }
  unfold negotiation_responses. repeat case_match; try (apply Hone; unfold TELNET_COMMAND_WILL,
    TELNET_COMMAND_WONT, TELNET_COMMAND_DO, TELNET_COMMAND_DONT; lia); [|by exists []].
  exists [INegotiate 251 option; size_item c]. split; [by rewrite naws_message_item|].
  constructor; [left; exists 251, option; split; [done|lia]|]. constructor; [right; by left|done].
Qed.

Lemma answers_sub c bytes :
  exists its, map encode_item its = subnegotiation_responses bytes /\ Forall (answer c) its.
Proof.
  unfold subnegotiation_responses. destruct (_ && _); [|by exists []].
  exists [type_item]. split; [done|]. constructor; [right; by right|done].
Qed.

Lemma answers_app c r1 r2 :
  (exists its, map encode_item its = r1 /\ Forall (answer c) its) ->
  (exists its, map encode_item its = r2 /\ Forall (answer c) its) ->
  exists its, map encode_item its = r1 ++ r2 /\ Forall (answer c) its.
Proof.
  intros (i1 & <- & H1) (i2 & <- & H2). exists (i1 ++ i2). split; [apply map_app|]. by apply Forall_app.
Qed.

(** Whatever the server sends, well-formed or not, the answers are well-formed
    items of the kinds above. *)
Lemma answers_filter fuel c bytes :
  exists its, map encode_item its = (filter_loop fuel c bytes).2 /\ Forall (answer c) its.
Proof.
  revert bytes. induction fuel as [|n IH]; intros bytes; [by exists []|].
  destruct bytes as [|b bytes]; [by exists []|]. cbn [filter_loop].
  destruct (negb _); [specialize (IH bytes); by destruct (filter_loop n c bytes)|].
  destruct bytes as [|command bytes]; [by exists []|].
  destruct (command =? TELNET_COMMAND_IAC); [specialize (IH bytes); by destruct (filter_loop n c bytes)|].
  destruct (_ || _).
  { destruct bytes as [|option bytes]; [by exists []|]. specialize (IH bytes).
    destruct (filter_loop n c bytes). apply answers_app; [apply answers_negotiation|done]. }
  destruct (command =? TELNET_COMMAND_SB); [|apply IH].
  destruct (scan_subnegotiation bytes) as [body rest].
  specialize (IH (if 1 <? zlen rest then zdrop 2 rest else rest)).
  destruct (filter_loop n c _). apply answers_app; [apply answers_sub|done].
Qed.

Lemma answer_silent c i : answer c i -> item_ok i /\ item_text i = [] /\ item_command i = None.
Proof. intros [(v & o & -> & ?) | [-> | ->]]; done. Qed.

Lemma answer_size c i s : codec_ok c -> answer c i -> item_size i = Some s -> s = codec_size c.
Proof.
  intros Hc [(v & o & -> & ?) | [-> | ->]]; [done| |done]. rewrite size_item_size by done. by intros [= <-].
Qed.

(** What the user asked for in a turn. *)
Definition turn_data (turn : TelnetTurn) : list Z :=
  match turn with CommandReceived (Some (Data bytes)) => bytes | _ => [] end.
Definition turn_controls (turn : TelnetTurn) : list Z :=
  match turn with CommandReceived (Some (Control command)) => [control_command_byte command] | _ => [] end.
Definition turn_codec (c : TelnetCodec) (turn : TelnetTurn) : TelnetCodec :=
  match turn with CommandReceived (Some (Resize cols rows)) => mkCodec (Z.max cols 2) (Z.max rows 2) | _ => c end.
Definition is_resize (turn : TelnetTurn) : bool :=
  match turn with CommandReceived (Some (Resize _ _)) => true | _ => false end.
(** A window size is a [u16]. *)
Definition turn_ok (turn : TelnetTurn) : Prop :=
  match turn with CommandReceived (Some (Resize cols rows)) => is_u16 cols /\ is_u16 rows | _ => True end.

(** The items written in a turn. *)
Definition turn_writes (c : TelnetCodec) (turn : TelnetTurn) (its : list item) : Prop :=
  match turn with
  | CommandReceived (Some (Data bytes)) => its = [IText bytes]
  | CommandReceived (Some (Control command)) => its = [ICommand (control_command_byte command)]
  | CommandReceived (Some (Resize _ _)) => its = [size_item (turn_codec c turn)]
  | ReadResult (Ok _) => Forall (answer c) its
  | _ => its = []
  end.

Definition writes_work (peer : TelnetPeer) : Prop := forall bytes, write_stops peer bytes = None.

Lemma worker_write_ok peer bytes w : writes_work peer -> worker_write_all peer bytes w = worker_wrote bytes w.
Proof. intros H. unfold worker_write_all. by rewrite H. Qed.

Lemma write_responses_ok peer responses w : writes_work peer -> tw_running w = true ->
  write_responses peer responses w = worker_wrote (mjoin responses) w.
Proof.
  intros Hp. revert w. induction responses as [|r responses IH]; intros w Hw; cbn [write_responses].
  - unfold worker_wrote. destruct w. simpl. by rewrite app_nil_r.
  - rewrite worker_write_ok by done. unfold worker_wrote at 1. cbn [tw_running]. rewrite Hw.
    rewrite IH by done. unfold worker_wrote. cbn. by rewrite <-app_assoc.
Qed.

Lemma worker_turn_writes peer turn w : writes_work peer -> tw_running w = true ->
  exists its, turn_writes (tw_codec w) turn its
    /\ tw_written (worker_turn peer turn w) = tw_written w ++ encode_items its
    /\ tw_codec (worker_turn peer turn w) = turn_codec (tw_codec w) turn.
Proof.
  intros Hp Hw.
  assert (Hnil : tw_written w = tw_written w ++ encode_items []) by (by rewrite app_nil_r).
  destruct turn as [[[|b bytes]|error]|[[bytes|command|cols rows|]|]]; cbn [worker_turn];
    rewrite ?worker_write_ok by done; unfold worker_wrote, worker_break, worker_send.
  - exists []. split_and!; [constructor|done|done].
  - destruct (answers_filter (length (b :: bytes)) (tw_codec w) (b :: bytes)) as (its & Hits & Hans).
    unfold filter_server_bytes. destruct (filter_loop _ _ _) as [data responses]. cbn [snd] in Hits.
    exists its. split; [exact Hans|]. rewrite write_responses_ok by done. unfold worker_wrote.
    unfold encode_items. rewrite Hits. cbn [tw_running]. rewrite Hw. cbn [negb].
    by case_bool_decide; [|destruct (send_ok peer)].
  - by exists [].
  - exists [IText bytes]. split_and!; [done| |done]. unfold encode_items. cbn. by rewrite encode_client_data_escape, app_nil_r.
  - by exists [ICommand (control_command_byte command)].
  - eexists. split_and!; [done| |done]. rewrite naws_message_item. unfold encode_items. cbn [map].
    rewrite mjoin_cons. cbn [mjoin list_join]. by rewrite app_nil_r.
  - by exists [].
  - by exists [].
Qed.

(** What a server has read of a worker's stream, after the turns [executed]. *)
Record stream_spec (c0 : TelnetCodec) (executed : list TelnetTurn) (c : TelnetCodec) (its : list item) : Prop :=
  mkStreamSpec {
    ss_text : items_text its = mjoin (map turn_data executed);
    ss_commands : omap item_command its = mjoin (map turn_controls executed);
    ss_codec : c = fold_left turn_codec executed c0;
    ss_size : match last (omap item_size its) with
              | Some s => s = codec_size c
              | None => forallb (fun t => negb (is_resize t)) executed = true
              end
  }.

Lemma omap_none {A B} (f : A -> option B) l : Forall (fun a => f a = None) l -> omap f l = [].
Proof. induction 1 as [|a l Ha _ IH]; [done|]. simpl. by rewrite Ha. Qed.

Lemma items_text_silent l : Forall (fun i => item_text i = []) l -> items_text l = [].
Proof. induction 1 as [|i l Hi _ IH]; [done|]. unfold items_text in *. simpl. by rewrite Hi, IH. Qed.

Lemma turn_writes_ok c turn its : turn_writes c turn its -> Forall item_ok its.
Proof.
  destruct turn as [[bytes|error]|[[bytes|command|cols rows|]|]]; cbn [turn_writes]; intros H; subst;
    try by repeat constructor.
  - eapply Forall_impl; [exact H|]. intros i Hi. by apply answer_silent in Hi as [? _].
  - constructor; [destruct command; cbv; split; discriminate|done].
Qed.

Lemma turn_writes_text c turn its : turn_writes c turn its -> items_text its = turn_data turn.
Proof.
  destruct turn as [[bytes|error]|[[bytes|command|cols rows|]|]]; cbn [turn_writes]; intros H; subst; try done.
  - apply items_text_silent. eapply Forall_impl; [exact H|]. intros i Hi. by apply answer_silent in Hi as (_ & ? & _).
  - unfold items_text. simpl. by rewrite app_nil_r.
Qed.

Lemma turn_writes_commands c turn its : turn_writes c turn its -> omap item_command its = turn_controls turn.
Proof.
  destruct turn as [[bytes|error]|[[bytes|command|cols rows|]|]]; cbn [turn_writes]; intros H; subst; try done.
  apply omap_none. eapply Forall_impl; [exact H|]. intros i Hi. by apply answer_silent in Hi as (_ & _ & ?).
Qed.

Lemma turn_codec_ok c turn : codec_ok c -> turn_ok turn -> codec_ok (turn_codec c turn).
Proof.
  destruct turn as [?|[[?|?|cols rows|]|]]; try done. cbn. unfold codec_ok, in_width. cbn. lia.
Qed.

Lemma answers_last_size c its s : codec_ok c -> Forall (answer c) its ->
  last (omap item_size its) = Some s -> s = codec_size c.
Proof.
  intros Hc Ha Hs. apply last_Some_elem_of in Hs. apply list_elem_of_omap in Hs as (i & Hi & Hs).
  rewrite Forall_forall in Ha. by eapply answer_size; eauto.
Qed.

Lemma turn_writes_size c turn its : codec_ok c -> turn_ok turn -> turn_writes c turn its ->
  match last (omap item_size its) with
  | Some s => s = codec_size (turn_codec c turn)
  | None => is_resize turn = false /\ turn_codec c turn = c
  end.
Proof.
  intros Hc Ht. destruct turn as [[bytes|error]|[[bytes|command|cols rows|]|]]; cbn [turn_writes]; intros H; subst; try done.
  - destruct (last _) eqn:Hl; [|done]. by eapply answers_last_size.
  - cbn [omap list_omap]. by rewrite (size_item_size _ (turn_codec_ok _ _ Hc Ht)).
Qed.

Lemma stream_spec_turn c0 executed c its turn k :
  stream_spec c0 executed c its -> codec_ok c -> turn_ok turn -> turn_writes c turn k ->
  stream_spec c0 (executed ++ [turn]) (turn_codec c turn) (its ++ k).
Proof.
  intros [Ht Hc Hco Hs] Hok Hto Hk. split.
  - rewrite items_text_app, map_app, join_app, Ht, (turn_writes_text _ _ _ Hk). cbn. by rewrite app_nil_r.
  - rewrite omap_app, map_app, join_app, Hc, (turn_writes_commands _ _ _ Hk). cbn. by rewrite app_nil_r.
  - rewrite fold_left_app. cbn. by rewrite <-Hco.
  - rewrite omap_app, last_app. pose proof (turn_writes_size _ _ _ Hok Hto Hk) as Hz.
    destruct (last (omap item_size k)); [done|]. destruct Hz as [Hr ->].
    destruct (last (omap item_size its)); [done|]. rewrite forallb_app, Hs. cbn. by rewrite Hr.
Qed.

Lemma worker_loop_stream turns c0 executed w its :
  Forall (fun t => writes_work t.1 /\ turn_ok t.2) turns -> codec_ok (tw_codec w) ->
  Forall item_ok its -> tw_written w = encode_items its -> stream_spec c0 executed (tw_codec w) its ->
  exists done its', done `prefix_of` map snd turns
    /\ (tw_running (worker_loop turns w) = true -> done = map snd turns)
    /\ Forall item_ok its' /\ tw_written (worker_loop turns w) = encode_items its'
    /\ stream_spec c0 (executed ++ done) (tw_codec (worker_loop turns w)) its'.
Proof.
  revert executed w its. induction turns as [|[peer turn] turns IH]; intros executed w its Hall Hok Hits Hw Hss.
  { exists [], its. rewrite app_nil_r. by split_and!. }
  inversion Hall as [|? ? [Hp Ht] Hrest]; subst. cbn [worker_loop map]. cbn in Hp, Ht.
  destruct (tw_running w) eqn:Hr.
  - destruct (worker_turn_writes peer turn w Hp Hr) as (k & Hk & Hkw & Hkc).
    destruct (IH (executed ++ [turn]) (worker_turn peer turn w) (its ++ k)) as (done & its' & D1 & D2 & D3 & D4 & D5).
    + done.
    + rewrite Hkc. by apply turn_codec_ok.
    + apply Forall_app. split; [done|by eapply turn_writes_ok].
    + by rewrite Hkw, Hw, encode_items_app.
    + rewrite Hkc. by apply stream_spec_turn.
    + exists (turn :: done), its'. rewrite <-app_assoc in D5. split_and!; try done.
      * by apply prefix_cons.
      * intros Hrun. cbn. by rewrite D2.
  - exists [], its. rewrite app_nil_r. split_and!; try done; [apply prefix_nil|]. by rewrite Hr.
Qed.

Lemma split_text_spec c0 executed c its :
  stream_spec c0 executed c its -> stream_spec c0 executed c (mjoin (map split_text its)).
Proof.
  intros [Ht Hc Hco Hs].
  assert (Hom : forall (B : Type) (f : item -> option B), (forall b, f (IText b) = None) ->
    omap f (mjoin (map split_text its)) = omap f its).
  { intros B f Hf. clear -Hf. induction its as [|i l IH]; [done|]. cbn [map]. rewrite mjoin_cons, omap_app, IH.
    destruct i; cbn; rewrite ?Hf; try done; [|by case_match..].
    rewrite omap_none; [done|]. apply Forall_forall. intros x Hx. apply list_elem_of_In, in_map_iff in Hx as (y & <- & _). done. }
  split; rewrite ?Hom by done; [by rewrite items_text_split|done|done|done].
Qed.

(** ** What the worker delivers *)

(** The text of a chunk; it does not depend on the window size. *)
Definition turn_output (turn : TelnetTurn) : list Z :=
  match turn with ReadResult (Ok bytes) => (filter_server_bytes (mkCodec 0 0) bytes).1 | _ => [] end.

Lemma filter_loop_text fuel c c' bytes : (filter_loop fuel c bytes).1 = (filter_loop fuel c' bytes).1.
Proof.
  revert bytes. induction fuel as [|n IH]; intros bytes; [done|]. destruct bytes as [|b bytes]; [done|].
  assert (Hcase : forall (f : list Z -> list Z) (r r' : list (list Z) -> list (list Z)) k,
    (let '(data, responses) := filter_loop n c k in (f data, r responses)).1
    = (let '(data, responses) := filter_loop n c' k in (f data, r' responses)).1).
  { intros f r r' k. specialize (IH k). destruct (filter_loop n c k), (filter_loop n c' k). simpl in *. by subst. }
  cbn [filter_loop]. destruct (negb _); [apply (Hcase (cons b) id id)|].
  destruct bytes as [|command bytes]; [done|].
  destruct (command =? TELNET_COMMAND_IAC); [apply (Hcase (cons TELNET_COMMAND_IAC) id id)|].
  destruct (_ || _).
  { destruct bytes as [|o bytes]; [done|].
    apply (Hcase id (app (negotiation_responses c command o)) (app (negotiation_responses c' command o))). }
  destruct (command =? TELNET_COMMAND_SB); [|apply IH]. destruct (scan_subnegotiation bytes) as [body rest].
  apply (Hcase id (app (subnegotiation_responses body)) (app (subnegotiation_responses body))).
Qed.

(** The events of a worker: the connection, the outputs [outs], none of them
    empty, and at most one event that ends it. *)
Definition sent_spec (w : TelnetWorker) (outs : list (list Z)) : Prop :=
  exists ending, tw_sent w = Connected :: map Output outs ++ ending
    /\ (ending = [] \/ ending = [Closed] \/ exists message, ending = [Failed message])
    /\ (tw_running w = true -> ending = []) /\ Forall (fun out => out <> []) outs.

Lemma sent_spec_break w outs e : sent_spec w outs -> tw_running w = true ->
  e = Closed \/ (exists message, e = Failed message) -> sent_spec (worker_break (worker_send e w)) outs.
Proof.
  intros (ending & Hs & _ & Hr & Hne) Hw He. exists [e]. cbn. rewrite Hs, (Hr Hw), app_nil_r. split_and!; try done.
  destruct He as [-> | [m ->]]; [right; by left|right; right; by exists m].
Qed.

Lemma sent_spec_frame w w' outs : tw_sent w' = tw_sent w -> (tw_running w' = true -> tw_running w = true) ->
  sent_spec w outs -> sent_spec w' outs.
Proof. intros Hs Hr (ending & H1 & H2 & H3 & H4). exists ending. rewrite Hs. split_and!; try done. auto. Qed.

Lemma write_all_sent peer bytes w outs : tw_running w = true ->
  sent_spec w outs -> sent_spec (worker_write_all peer bytes w) outs.
Proof.
  intros Hw Hs. unfold worker_write_all. destruct (write_stops peer bytes) as [n|].
  - apply sent_spec_break; [|done|by left]. by eapply sent_spec_frame; [| |exact Hs].
  - by eapply sent_spec_frame; [| |exact Hs].
Qed.

Lemma write_responses_sent peer responses w outs : tw_running w = true ->
  sent_spec w outs -> sent_spec (write_responses peer responses w) outs.
Proof.
  revert w. induction responses as [|r responses IH]; intros w Hw Hs; cbn [write_responses]; [done|].
  pose proof (write_all_sent peer r w outs Hw Hs) as H1.
  destruct (tw_running (worker_write_all peer r w)) eqn:Hr; [by apply IH|done].
Qed.

(** A turn delivers the text of its chunk, all of it or, when it ends the
    worker, nothing. *)
Lemma worker_turn_sent peer turn w outs : tw_running w = true -> sent_spec w outs ->
  exists more, sent_spec (worker_turn peer turn w) (outs ++ more)
    /\ (mjoin more = turn_output turn \/ (more = [] /\ tw_running (worker_turn peer turn w) = false)).
Proof.
  intros Hw Hs.
  assert (Hnone : forall w', sent_spec w' outs ->
    exists more, sent_spec w' (outs ++ more) /\ (mjoin more = [] \/ (more = [] /\ tw_running w' = false))).
  { intros w' H. exists []. rewrite app_nil_r. split; [done|by left]. }
  destruct turn as [[[|b bytes]|error]|[[bytes|command|cols rows|]|]]; cbn [worker_turn turn_output].
  - apply Hnone, sent_spec_break; [done|done|by left].
  - pose proof (filter_loop_text (length (b :: bytes)) (tw_codec w) (mkCodec 0 0) (b :: bytes)) as Ht.
    unfold filter_server_bytes. destruct (filter_loop _ (tw_codec w) _) as [data responses]. cbn [fst] in Ht.
    rewrite <-Ht. pose proof (write_responses_sent peer responses w outs Hw Hs) as H1.
    destruct (tw_running (write_responses peer responses w)) eqn:Hr; cbn [negb].
    + case_bool_decide as Hd; [rewrite Hd; by apply Hnone|].
      destruct (send_ok peer).
      * exists [data]. split; [|left; cbn; by rewrite app_nil_r].
        destruct H1 as (ending & E1 & E2 & E3 & E4). exists []. cbn. rewrite E1, (E3 Hr), map_app, !app_nil_r.
        split_and!; [done|by left|done|]. apply Forall_app. split; [done|by constructor].
      * exists []. rewrite app_nil_r. split; [|by right]. by eapply sent_spec_frame; [| |exact H1].
    + exists []. rewrite app_nil_r. split; [done|right; done].
  - apply Hnone, sent_spec_break; [done|done|right; by exists error].
  - by apply Hnone, write_all_sent.
  - by apply Hnone, write_all_sent.
  - apply Hnone, write_all_sent; [done|]. by eapply sent_spec_frame; [| |exact Hs].
  - apply Hnone, sent_spec_break; [done|done|by left].
  - apply Hnone, sent_spec_break; [done|done|by left].
Qed.

Lemma worker_loop_sent turns w outs : sent_spec w outs ->
  exists more, sent_spec (worker_loop turns w) (outs ++ more)
    /\ mjoin more `prefix_of` mjoin (map (fun t => turn_output t.2) turns)
    /\ (tw_running (worker_loop turns w) = true -> mjoin more = mjoin (map (fun t => turn_output t.2) turns)).
Proof.
  revert w outs. induction turns as [|[peer turn] turns IH]; intros w outs Hs; cbn [worker_loop map].
  { exists []. rewrite app_nil_r. by split_and!. }
  destruct (tw_running w) eqn:Hw.
  - destruct (worker_turn_sent peer turn w outs Hw Hs) as (more & Hm & Hout).
    destruct (IH _ _ Hm) as (rest & R1 & R2 & R3). rewrite mjoin_cons. cbn [snd].
    destruct Hout as [<- | [-> Hstop]].
    + exists (more ++ rest). rewrite app_assoc, join_app. split_and!; [done|by apply prefix_app|].
      intros H. by rewrite (R3 H).
    + exists []. rewrite app_nil_r in *.
      assert (Hend : worker_loop turns (worker_turn peer turn w) = worker_turn peer turn w)
        by (destruct turns as [|[? ?] ?]; [done|]; cbn [worker_loop]; by rewrite Hstop).
      rewrite Hend in *. split_and!; [done|apply prefix_nil|by rewrite Hstop].
  - exists []. rewrite app_nil_r. split_and!; [done|apply prefix_nil|by rewrite Hw].
Qed.

(** ** Theorems *)

(** on a complete server stream, that is any sequence of text (with every byte
    value), option negotiations, commands and subnegotiations as the protocol
    encodes them, [filter_server_bytes] returns exactly the text and, in order,
    the responses to the negotiations and subnegotiations, provided no
    subnegotiation payload contains the pair 255, 240. *)
Theorem telnet_filter_exact (c : TelnetCodec) (l : list item) :
  Forall item_ok l -> Forall payload_ok l ->
  filter_server_bytes c (encode_items l) = (items_text l, mjoin (map (item_responses c) l)).
Proof. apply filter_items. Qed.

Lemma telnet_filter_exact_witness :
  filter_server_bytes (mkCodec 80 24)
    [104; 255; 253; 31; 255; 255; 255; 250; 24; 1; 255; 240; 255; 249; 105]
  = ([104; 255; 105], [[255; 251; 31]; [255; 250; 31; 0; 80; 0; 24; 255; 240];
      [255; 250; 24; 0; 120; 116; 101; 114; 109; 45; 50; 53; 54; 99; 111; 108; 111; 114; 255; 240]]).
Proof.
  exact (telnet_filter_exact (mkCodec 80 24)
    [IText [104]; INegotiate 253 31; IText [255]; ISub [24; 1]; ICommand 249; IText [105]]
    ltac:(repeat constructor; discriminate) ltac:(repeat constructor)).
Defined.

(** whatever the server sends, a worker whose writes succeed produces a
    stream that a byte-by-byte receiver of the protocol reads as follows: no
    item is left open, its text is exactly the user's input in order (255
    included), its commands are the user's control commands, and the last
    window size reported is the size the codec holds, which is the one of the
    last resize; a resize is always reported. *)
Theorem telnet_worker_stream (cols rows : Z) (turns : list (TelnetPeer * TelnetTurn)) :
  Forall (fun t => writes_work t.1 /\ turn_ok t.2) turns ->
  let w := run_telnet_worker ConnectOk cols rows turns in
  exists executed received,
    executed `prefix_of` map snd turns /\ (tw_running w = true -> executed = map snd turns)
    /\ rfc_run RData (tw_written w) = (RData, received)
    /\ stream_spec (mkCodec (wrap 16 cols) (wrap 16 rows)) executed (tw_codec w) received.
Proof.
  intros Hall w.
  destruct (worker_loop_stream turns (mkCodec (wrap 16 cols) (wrap 16 rows)) []
    (mkWorker (mkCodec (wrap 16 cols) (wrap 16 rows)) [] [Connected] true) []) as (executed & its & E1 & E2 & E3 & E4 & E5);
    [done|split; by apply in_width_wrap|done|done|by split|].
  exists executed, (mjoin (map split_text its)). split_and!; [done|done| |by apply split_text_spec].
  change (rfc_run RData (tw_written (worker_loop turns
    (mkWorker (mkCodec (wrap 16 cols) (wrap 16 rows)) [] [Connected] true))) = (RData, mjoin (map split_text its))).
  rewrite E4. by apply rfc_run_items.
Qed.

Lemma telnet_worker_stream_witness :
  let ok := mkPeer (fun _ => None) true in
  let turns := [(ok, ReadResult (Ok [255; 253; 31])); (ok, CommandReceived (Some (Data [108; 255])));
                (ok, CommandReceived (Some (Resize 255 1))); (ok, CommandReceived (Some (Control Break)))] in
  exists executed received,
    executed `prefix_of` map snd turns /\ (true = true -> executed = map snd turns)
    /\ rfc_run RData [255; 251; 31; 255; 250; 31; 0; 80; 0; 24; 255; 240; 108; 255; 255;
         255; 250; 31; 0; 255; 255; 0; 2; 255; 240; 255; 243] = (RData, received)
    /\ stream_spec (mkCodec 80 24) executed (mkCodec 255 2) received.
Proof.
  intros ok turns. refine (telnet_worker_stream 80 24 turns _).
  repeat constructor; discriminate.
Defined.

(** For all behaviours of the socket and the session, write failures included:
    the session receives [Connected], then non-empty outputs, then at most one
    closing event, and nothing after it; the outputs are, in order and without
    loss, the text of the chunks read up to the end of the worker, and of all
    chunks while it runs. *)
Theorem telnet_worker_delivers (cols rows : Z) (turns : list (TelnetPeer * TelnetTurn)) :
  let w := run_telnet_worker ConnectOk cols rows turns in
  let text := mjoin (map (fun t => turn_output t.2) turns) in
  exists outs, sent_spec w outs /\ mjoin outs `prefix_of` text /\ (tw_running w = true -> mjoin outs = text).
Proof.
  apply (worker_loop_sent turns (mkWorker (mkCodec (wrap 16 cols) (wrap 16 rows)) [] [Connected] true) []).
  exists []. split_and!; [done|by left|done|done].
Qed.

(** The codec keeps no state between reads.  A command that is cut by the end
    of a read is lost, and the rest of it shows up as text: the option byte of
    [IAC DO NAWS] here. *)
Example split_command_leaks_text :
  filter_server_bytes (mkCodec 80 24) [255; 253] = ([], [])
  /\ filter_server_bytes (mkCodec 80 24) [31; 104] = ([31; 104], [])
  /\ filter_server_bytes (mkCodec 80 24) [255; 253; 31; 104]
     = ([104], [[255; 251; 31]; [255; 250; 31; 0; 80; 0; 24; 255; 240]]).
Proof. by vm_compute. Qed.

(** A payload that contains 240 after an escaped 255 ends early: the rest of it
    is shown as text, which a receiver of the protocol does not do. *)
Example escaped_end_mark :
  let bytes := encode_items [ISub [5; 255; 240; 65]] in
  (filter_server_bytes (mkCodec 80 24) bytes).1 = [65]
  /\ rfc_run RData bytes = (RData, [ISub [5; 255; 240; 65]]).
Proof. by vm_compute. Qed.
