(* ===== verification/SftpManager.v ===== *)
(** * The SFTP transfer manager

    Model of [crates/hapcli-sftp/src/transfer_manager.rs]: the controls by which
    transfers are cancelled, paused and interrupted, the snapshots of
    background transfers, the limit on concurrent transfers and the shutdown of
    a session.  The manager is shared between threads: the critical sections of
    its methods (each under one lock, or one atomic access) are functions, the
    methods compose them, and a step relation interleaves the sections of
    several threads.  A control is an [Arc] that a running transfer keeps after
    it was unregistered, so controls live in a store and the registry holds
    references to them.  Clock readings are arguments. *)
From S2P Require Import Prelude.
From stdpp Require Import prelude list numbers gmap strings sorting.
Open Scope Z_scope.

(** ** Data *)

Definition DEFAULT_SFTP_CONCURRENT_TRANSFERS : Z := 3.
Definition DEFAULT_SFTP_DIRECTORY_PARALLELISM : Z := 4.
Definition MAX_SFTP_CONCURRENT_TRANSFERS : Z := 10.
Definition MAX_SFTP_DIRECTORY_PARALLELISM : Z := 16.
Definition FINISHED_BACKGROUND_TRANSFER_RETENTION_MS : Z := 5 * 60 * 1000.
Definition TRANSFER_MANAGER_RUNNING : Z := 0.
Definition TRANSFER_MANAGER_SHUTTING_DOWN : Z := 1.
Definition TRANSFER_MANAGER_STOPPED : Z := 2.

Inductive TransferProtocol := ProtocolSftp | ProtocolScp.
Inductive TransferStrategy := StrategyFile | DirectoryRecursive | DirectoryTar.
Inductive BackgroundTransferDirection := Upload | Download.
Inductive BackgroundTransferKind := File | Directory.
Inductive BackgroundTransferState := Pending | Active | Paused | Completed | Cancelled | Error.
#[export] Instance BackgroundTransferState_eq_dec : EqDecision BackgroundTransferState.
Proof. solve_decision. Defined.

Definition is_finished (s : BackgroundTransferState) : bool :=
  match s with Completed | Cancelled | Error => true | _ => false end.

Record BackgroundTransferSnapshot := mkTransfer {
  bt_id : string;
  bt_node_id : string;
  bt_name : string;
  bt_local_path : string;
  bt_remote_path : string;
  bt_direction : BackgroundTransferDirection;
  bt_kind : BackgroundTransferKind;
  bt_protocol : TransferProtocol;
  bt_strategy : TransferStrategy;
  bt_state : BackgroundTransferState;
  bt_size : Z;
  bt_transferred : Z;
  bt_backend_speed : option Z;
  bt_error : option string;
  bt_start_time : Z;
  bt_end_time : option Z;
  bt_item_count : option Z
}.

Definition BackgroundTransferSnapshot_new (now_ms : Z) (id node_id name local_path remote_path : string)
    (direction : BackgroundTransferDirection) (kind : BackgroundTransferKind) (strategy : TransferStrategy)
    (size transferred : Z) : BackgroundTransferSnapshot :=
  mkTransfer id node_id name local_path remote_path direction kind ProtocolSftp strategy Pending size transferred
    None None now_ms None None.

(** The fields that operations assign: state, sizes, speed, error, end time and
    item count; the others are kept. *)
Definition assign (state : BackgroundTransferState) (size transferred : Z) (speed : option Z) (error : option string)
    (end_time item_count : option Z) (t : BackgroundTransferSnapshot) : BackgroundTransferSnapshot :=
  mkTransfer (bt_id t) (bt_node_id t) (bt_name t) (bt_local_path t) (bt_remote_path t) (bt_direction t) (bt_kind t)
    (bt_protocol t) (bt_strategy t) state size transferred speed error (bt_start_time t) end_time item_count.

Record SftpTransferRuntimeSettings := mkSettings {
  max_concurrent_transfers : Z; speed_limit_kbps : Z; directory_parallelism_setting : Z }.
Definition default_settings : SftpTransferRuntimeSettings :=
  mkSettings DEFAULT_SFTP_CONCURRENT_TRANSFERS 0 DEFAULT_SFTP_DIRECTORY_PARALLELISM.

Record SftpTransferStats := mkStats { st_active : Z; st_queued : Z; st_completed : Z }.
Record SftpTransferShutdownReport := mkReport {
  started : bool; drained : bool; cancelled_transfers : Z; remaining_transfers : Z }.

(** The three watch channels of a control. *)
Record SftpTransferControl := mkControl { ctl_cancel : bool; ctl_pause : bool; ctl_interrupt : option string }.
Definition SftpTransferControl_new : SftpTransferControl := mkControl false false None.
Definition control_cancel (c : SftpTransferControl) := mkControl true (ctl_pause c) (ctl_interrupt c).
Definition control_pause (c : SftpTransferControl) := mkControl (ctl_cancel c) true (ctl_interrupt c).
Definition control_resume (c : SftpTransferControl) := mkControl (ctl_cancel c) false (ctl_interrupt c).
Definition control_interrupt (reason : string) (c : SftpTransferControl) :=
  mkControl (ctl_cancel c) (ctl_pause c) (Some reason).

Record RegisteredTransferControl := mkRegistered {
  rc_control : nat; rc_owner_count : Z; rc_node_id : option string }.

Inductive TarCompression := CompressionNone | Zstd | Gzip.
Record TarCapabilities := mkTar { supports_tar : bool; compression : TarCompression }.
Record ScpCapabilities := mkScp { supports_scp : bool; supports_recursive : bool }.

(** The manager; [arena] holds the controls that [Arc]s point to and
    [next_ref] is the next free reference. *)
Record SftpTransferManager := mkManager {
  arena : gmap nat SftpTransferControl;
  next_ref : nat;
  semaphore : Z;
  controls : gmap string RegisteredTransferControl;
  active_count : Z;
  max_concurrent : Z;
  directory_parallelism : Z;
  speed_limit_bps : Z;
  shutdown_state : Z;
  background_transfers : gmap string BackgroundTransferSnapshot;
  tar_capability_probes : gmap string TarCapabilities;
  scp_capability_probes : gmap string ScpCapabilities
}.

Definition SftpTransferManager_new : SftpTransferManager :=
  mkManager ∅ 0 MAX_SFTP_CONCURRENT_TRANSFERS ∅ 0 DEFAULT_SFTP_CONCURRENT_TRANSFERS
    DEFAULT_SFTP_DIRECTORY_PARALLELISM 0 TRANSFER_MANAGER_RUNNING ∅ ∅ ∅.

Section Setters.
Implicit Type m : SftpTransferManager.

Definition set_arena a m := mkManager a (next_ref m) (semaphore m) (controls m) (active_count m) (max_concurrent m)
  (directory_parallelism m) (speed_limit_bps m) (shutdown_state m) (background_transfers m)
  (tar_capability_probes m) (scp_capability_probes m).
Definition set_controls c m := mkManager (arena m) (next_ref m) (semaphore m) c (active_count m) (max_concurrent m)
  (directory_parallelism m) (speed_limit_bps m) (shutdown_state m) (background_transfers m)
  (tar_capability_probes m) (scp_capability_probes m).
Definition set_permits s a m := mkManager (arena m) (next_ref m) s (controls m) a (max_concurrent m)
  (directory_parallelism m) (speed_limit_bps m) (shutdown_state m) (background_transfers m)
  (tar_capability_probes m) (scp_capability_probes m).
Definition set_limits mx dp sp m := mkManager (arena m) (next_ref m) (semaphore m) (controls m) (active_count m) mx
  dp sp (shutdown_state m) (background_transfers m) (tar_capability_probes m) (scp_capability_probes m).
Definition set_shutdown s m := mkManager (arena m) (next_ref m) (semaphore m) (controls m) (active_count m)
  (max_concurrent m) (directory_parallelism m) (speed_limit_bps m) s (background_transfers m)
  (tar_capability_probes m) (scp_capability_probes m).
Definition set_background b m := mkManager (arena m) (next_ref m) (semaphore m) (controls m) (active_count m)
  (max_concurrent m) (directory_parallelism m) (speed_limit_bps m) (shutdown_state m) b
  (tar_capability_probes m) (scp_capability_probes m).
Definition set_probes t s m := mkManager (arena m) (next_ref m) (semaphore m) (controls m) (active_count m)
  (max_concurrent m) (directory_parallelism m) (speed_limit_bps m) (shutdown_state m) (background_transfers m) t s.

(** [Arc::new] of a control. *)
Definition alloc_control (c : SftpTransferControl) m : nat * SftpTransferManager :=
  (next_ref m, mkManager (<[next_ref m := c]> (arena m)) (S (next_ref m)) (semaphore m) (controls m) (active_count m)
     (max_concurrent m) (directory_parallelism m) (speed_limit_bps m) (shutdown_state m) (background_transfers m)
     (tar_capability_probes m) (scp_capability_probes m)).
End Setters.

(** A call on the control behind a reference. *)
Definition on_control (f : SftpTransferControl -> SftpTransferControl) (r : nat) (m : SftpTransferManager) :=
  set_arena (alter f r (arena m)) m.

(** ** Settings, statistics, probes *)

Definition clamp (x lo hi : Z) : Z := Z.max lo (Z.min x hi).
Definition set_max_concurrent (max : Z) (m : SftpTransferManager) : SftpTransferManager :=
  set_limits (clamp max 1 MAX_SFTP_CONCURRENT_TRANSFERS) (directory_parallelism m) (speed_limit_bps m) m.
Definition set_directory_parallelism (parallelism : Z) (m : SftpTransferManager) : SftpTransferManager :=
  set_limits (max_concurrent m) (clamp parallelism 1 MAX_SFTP_DIRECTORY_PARALLELISM) (speed_limit_bps m) m.
Definition sat_mul (x y : Z) : Z := Z.min (x * y) U64_MAX.
Definition set_speed_limit_kbps (kbps : Z) (m : SftpTransferManager) : SftpTransferManager :=
  set_limits (max_concurrent m) (directory_parallelism m) (sat_mul kbps 1024) m.
Definition apply_settings (s : SftpTransferRuntimeSettings) (m : SftpTransferManager) : SftpTransferManager :=
  set_directory_parallelism (directory_parallelism_setting s)
    (set_speed_limit_kbps (speed_limit_kbps s) (set_max_concurrent (max_concurrent_transfers s) m)).

Definition registered_count (m : SftpTransferManager) : Z := Z.of_nat (size (controls m)).
Definition transfer_stats (m : SftpTransferManager) : SftpTransferStats :=
  let active := active_count m in
  let registered := registered_count m in
  mkStats active (sat_sub registered active) 0.

(** [probe] is the result the probe would give; it is used only when the cell
    of the connection is still empty. *)
Definition cached_tar_capabilities (connection_id : string) (probe : TarCapabilities) (m : SftpTransferManager)
    : TarCapabilities * SftpTransferManager :=
  match tar_capability_probes m !! connection_id with
  | Some c => (c, m)
  | None => (probe, set_probes (<[connection_id := probe]> (tar_capability_probes m)) (scp_capability_probes m) m)
  end.
Definition cached_scp_capabilities (connection_id : string) (probe : ScpCapabilities) (m : SftpTransferManager)
    : ScpCapabilities * SftpTransferManager :=
  match scp_capability_probes m !! connection_id with
  | Some c => (c, m)
  | None => (probe, set_probes (tar_capability_probes m) (<[connection_id := probe]> (scp_capability_probes m)) m)
  end.

(** ** Registration *)

(** The whole method runs under the write lock of [controls]. *)
Definition register_owned (transfer_id : string) (node_id : option string) (m : SftpTransferManager)
    : nat * SftpTransferManager :=
  match controls m !! transfer_id with
  | Some registered =>
      let node := match rc_node_id registered with None => node_id | Some n => Some n end in
      (rc_control registered,
       set_controls (<[transfer_id := mkRegistered (rc_control registered) (rc_owner_count registered + 1) node]>
                       (controls m)) m)
  | None =>
      let control := if negb (shutdown_state m =? TRANSFER_MANAGER_RUNNING)
                     then control_cancel SftpTransferControl_new else SftpTransferControl_new in
      let '(r, m) := alloc_control control m in
      (r, set_controls (<[transfer_id := mkRegistered r 1 node_id]> (controls m)) m)
  end.
Definition register (transfer_id : string) (m : SftpTransferManager) : nat * SftpTransferManager :=
  register_owned transfer_id None m.
Definition register_for_node (transfer_id node_id : string) (m : SftpTransferManager) : nat * SftpTransferManager :=
  register_owned transfer_id (Some node_id) m.

Definition get_control (transfer_id : string) (m : SftpTransferManager) : option nat :=
  rc_control <$> controls m !! transfer_id.

Definition unregister (transfer_id : string) (m : SftpTransferManager) : SftpTransferManager :=
  match controls m !! transfer_id with
  | None => m
  | Some registered =>
      let count := sat_sub (rc_owner_count registered) 1 in
      if count =? 0 then set_controls (delete transfer_id (controls m)) m
      else set_controls (<[transfer_id := mkRegistered (rc_control registered) count (rc_node_id registered)]>
                           (controls m)) m
  end.

(** Dropping a guard. *)
Definition drop_guard (transfer_id : string) (m : SftpTransferManager) : SftpTransferManager := unregister transfer_id m.

(** ** Background transfers *)

Definition retained (now : Z) (t : BackgroundTransferSnapshot) : bool :=
  negb (is_finished (bt_state t))
  || match bt_end_time t with
     | Some end_ => sat_sub now end_ <=? FINISHED_BACKGROUND_TRANSFER_RETENTION_MS
     | None => true
     end.
Definition cleanup_background_transfers (now : Z) (m : SftpTransferManager) : SftpTransferManager :=
  set_background (filter (fun p => retained now p.2 = true) (background_transfers m)) m.

(** The snapshot that a registration inserts, by the state it reads. *)
Definition prepare_background (now : Z) (t : BackgroundTransferSnapshot) (m : SftpTransferManager)
    : BackgroundTransferSnapshot :=
  if shutdown_state m =? TRANSFER_MANAGER_RUNNING then
    assign Pending (bt_size t) (bt_transferred t) (bt_backend_speed t) (bt_error t) (bt_end_time t) (bt_item_count t) t
  else
    assign Cancelled (bt_size t) (bt_transferred t) (Some 0) (bt_error t) (Some now) (bt_item_count t) t.
Definition insert_background (t : BackgroundTransferSnapshot) (m : SftpTransferManager) : SftpTransferManager :=
  set_background (<[bt_id t := t]> (background_transfers m)) m.
Definition register_background_transfer (now : Z) (t : BackgroundTransferSnapshot) (m : SftpTransferManager)
    : SftpTransferManager :=
  let m := cleanup_background_transfers now m in
  insert_background (prepare_background now t m) m.

(** [get_mut] on the snapshot of a transfer, under the write lock. *)
Definition on_background (f : BackgroundTransferSnapshot -> BackgroundTransferSnapshot) (transfer_id : string)
    (m : SftpTransferManager) : SftpTransferManager :=
  set_background (alter f transfer_id (background_transfers m)) m.
(** With the guard that the transfer is not finished. *)
Definition unless_finished (f : BackgroundTransferSnapshot -> BackgroundTransferSnapshot)
    (t : BackgroundTransferSnapshot) : BackgroundTransferSnapshot :=
  if negb (is_finished (bt_state t)) then f t else t.

Definition update_background_transfer_strategy (transfer_id : string) (strategy : TransferStrategy)
    (m : SftpTransferManager) : SftpTransferManager :=
  on_background (fun t => mkTransfer (bt_id t) (bt_node_id t) (bt_name t) (bt_local_path t) (bt_remote_path t)
    (bt_direction t) (bt_kind t) (bt_protocol t) strategy (bt_state t) (bt_size t) (bt_transferred t)
    (bt_backend_speed t) (bt_error t) (bt_start_time t) (bt_end_time t) (bt_item_count t)) transfer_id m.

Definition mark_background_transfer_active (transfer_id : string) (m : SftpTransferManager) : SftpTransferManager :=
  on_background (unless_finished (fun t => assign Active (bt_size t) (bt_transferred t) (bt_backend_speed t)
    (bt_error t) (bt_end_time t) (bt_item_count t) t)) transfer_id m.

Definition update_background_transfer_progress (transfer_id : string) (transferred total speed : Z)
    (m : SftpTransferManager) : SftpTransferManager :=
  on_background (unless_finished (fun t => assign Active (if 0 <? total then total else bt_size t) transferred
    (Some speed) (bt_error t) (bt_end_time t) (bt_item_count t) t)) transfer_id m.

(** The new value of a snapshot that is being finished. *)
Definition finished_snapshot (now shutdown : Z) (state : BackgroundTransferState) (error : option string)
    (item_count : option Z) (t : BackgroundTransferSnapshot) : BackgroundTransferSnapshot :=
  let shutdown_cancelled :=
    negb (shutdown =? TRANSFER_MANAGER_RUNNING) && bool_decide (bt_state t = Cancelled) in
  let state := if shutdown_cancelled then Cancelled else state in
  let error := if shutdown_cancelled then None else error in
  let transferred := if bool_decide (state = Completed) && (0 <? bt_size t) then bt_size t else bt_transferred t in
  assign state (bt_size t) transferred (bt_backend_speed t) error (Some now) item_count t.
Definition finish_background_transfer (now : Z) (transfer_id : string) (state : BackgroundTransferState)
    (error : option string) (item_count : option Z) (m : SftpTransferManager)
    : option BackgroundTransferSnapshot * SftpTransferManager :=
  match background_transfers m !! transfer_id with
  | None => (None, m)
  | Some t =>
      let t := finished_snapshot now (shutdown_state m) state error item_count t in
      (Some t, set_background (<[transfer_id := t]> (background_transfers m)) m)
  end.

Definition get_background_transfer (now : Z) (transfer_id : string) (m : SftpTransferManager)
    : option BackgroundTransferSnapshot * SftpTransferManager :=
  let m := cleanup_background_transfers now m in (background_transfers m !! transfer_id, m).

Definition starts_before (s t : BackgroundTransferSnapshot) : Prop := bt_start_time s <= bt_start_time t.
#[export] Instance starts_before_dec s t : Decision (starts_before s t).
Proof. unfold starts_before. apply _. Defined.
Definition list_background_transfers (now : Z) (node_id : option string) (m : SftpTransferManager)
    : list BackgroundTransferSnapshot * SftpTransferManager :=
  let m := cleanup_background_transfers now m in
  let snapshots := List.filter (fun t => match node_id with
                                         | None => true
                                         | Some id => bool_decide (bt_node_id t = id)
                                         end) (map snd (map_to_list (background_transfers m))) in
  (merge_sort starts_before snapshots, m).

(** The loop of [wait_background_transfer_finished]; each turn after a
    notification sees the manager as other threads have left it, at the times
    given. *)
Fixpoint wait_background_transfer_finished (transfer_id : string) (observed : list (Z * SftpTransferManager))
    : option (option BackgroundTransferSnapshot) :=
  match observed with
  | [] => None
  | (now, m) :: observed =>
      match fst (get_background_transfer now transfer_id m) with
      | Some t => if is_finished (bt_state t) then Some (Some t)
                  else wait_background_transfer_finished transfer_id observed
      | None => Some None
      end
  end.

(** ** Controlling transfers *)

(** Each of these methods looks the control up, calls it, and then changes the
    snapshot under another lock. *)
Definition pause_snapshot (transfer_id : string) (m : SftpTransferManager) : SftpTransferManager :=
  on_background (unless_finished (fun t => assign Paused (bt_size t) (bt_transferred t) (Some 0) (bt_error t)
    (bt_end_time t) (bt_item_count t) t)) transfer_id m.
Definition resume_snapshot (transfer_id : string) (m : SftpTransferManager) : SftpTransferManager :=
  on_background (fun t => if bool_decide (bt_state t = Paused) then
    assign Pending (bt_size t) (bt_transferred t) (bt_backend_speed t) (bt_error t) (bt_end_time t) (bt_item_count t) t
    else t) transfer_id m.
Definition interrupt_snapshot (now : Z) (transfer_id reason : string) (m : SftpTransferManager) : SftpTransferManager :=
  on_background (unless_finished (fun t => assign Error (bt_size t) (bt_transferred t) (Some 0) (Some reason)
    (Some now) (bt_item_count t) t)) transfer_id m.
Definition unfinished (transfer_id : string) (m : SftpTransferManager) : bool :=
  match background_transfers m !! transfer_id with Some t => negb (is_finished (bt_state t)) | None => false end.

Definition cancel (transfer_id : string) (m : SftpTransferManager) : bool * SftpTransferManager :=
  match get_control transfer_id m with
  | Some r => (true, on_control control_cancel r m)
  | None => (false, m)
  end.
Definition pause (transfer_id : string) (m : SftpTransferManager) : bool * SftpTransferManager :=
  match get_control transfer_id m with
  | Some r => (true, pause_snapshot transfer_id (on_control control_pause r m))
  | None => (false, m)
  end.
Definition resume (transfer_id : string) (m : SftpTransferManager) : bool * SftpTransferManager :=
  match get_control transfer_id m with
  | Some r => (true, resume_snapshot transfer_id (on_control control_resume r m))
  | None => (false, m)
  end.
Definition interrupt (now : Z) (transfer_id reason : string) (m : SftpTransferManager) : bool * SftpTransferManager :=
  let '(had_control, m) := match get_control transfer_id m with
                           | Some r => (true, on_control (control_interrupt reason) r m)
                           | None => (false, m)
                           end in
  (unfinished transfer_id m || had_control, interrupt_snapshot now transfer_id reason m).

Definition string_le (s t : string) : Prop := String.leb s t = true.
#[export] Instance string_le_dec s t : Decision (string_le s t).
Proof. unfold string_le. apply _. Defined.
Definition interrupt_node (now : Z) (node_id reason : string) (m : SftpTransferManager)
    : list string * SftpTransferManager :=
  let transfer_ids := map fst (List.filter (fun p => bool_decide (rc_node_id (snd p) = Some node_id))
                                 (map_to_list (controls m))) in
  let transfer_ids := merge_sort string_le transfer_ids in
  (transfer_ids, fold_left (fun m id => snd (interrupt now id reason m)) transfer_ids m).

(** The calls on the registered controls, in the order of the map. *)
Definition registered_refs (m : SftpTransferManager) : list nat :=
  map (fun p => rc_control (snd p)) (map_to_list (controls m)).
Definition cancel_all (m : SftpTransferManager) : SftpTransferManager :=
  fold_left (fun m r => on_control control_cancel r m) (registered_refs m) m.

(** ** Shutdown *)

(** The compare-and-exchange, the two sweeps and the final store. *)
Definition shutdown_begin (m : SftpTransferManager) : option SftpTransferManager :=
  if shutdown_state m =? TRANSFER_MANAGER_RUNNING then Some (set_shutdown TRANSFER_MANAGER_SHUTTING_DOWN m) else None.
Definition shutdown_snapshot (now : Z) : BackgroundTransferSnapshot -> BackgroundTransferSnapshot :=
  unless_finished (fun t => assign Cancelled (bt_size t) (bt_transferred t) (Some 0) None (Some now) (bt_item_count t) t).
Definition shutdown_background (now : Z) (m : SftpTransferManager) : SftpTransferManager :=
  set_background (shutdown_snapshot now <$> background_transfers m) m.
Definition shutdown_stop (m : SftpTransferManager) : SftpTransferManager := set_shutdown TRANSFER_MANAGER_STOPPED m.

(** [waiting] is what other threads do during the grace period, [drained_in_time]
    whether the registry was seen empty before it ended. *)
Definition shutdown_session_transfers (now : Z) (waiting : SftpTransferManager -> SftpTransferManager)
    (drained_in_time : bool) (m : SftpTransferManager) : SftpTransferShutdownReport * SftpTransferManager :=
  match shutdown_begin m with
  | None => let remaining := registered_count m in (mkReport false (remaining =? 0) 0 remaining, m)
  | Some m =>
      let refs := registered_refs m in
      let m := waiting (shutdown_background now (fold_left (fun m r => on_control control_cancel r m) refs m)) in
      (mkReport true drained_in_time (zlen refs) (registered_count m), shutdown_stop m)
  end.

(** ** The running transfer *)

Inductive SftpError := TransferCancelled | TransferInterrupted (reason : string).

(** One look at a control: an error, [None] while paused, or go on. *)
Definition look (c : SftpTransferControl) : option (result SftpError unit) :=
  if ctl_cancel c then Some (Err TransferCancelled)
  else match ctl_interrupt c with
       | Some reason => Some (Err (TransferInterrupted reason))
       | None => if ctl_pause c then None else Some (Ok tt)
       end.
(** [check_control] of a registered transfer looks at its control until it is not
    paused; [observed] is what it sees after each sleep. *)
Fixpoint check_control_loop (c : SftpTransferControl) (observed : list SftpTransferControl)
    : option (result SftpError unit) :=
  match look c with
  | Some r => Some r
  | None => match observed with [] => None | c :: observed => check_control_loop c observed end
  end.
Definition check_control (transfer_id : string) (observed : list SftpTransferControl) (m : SftpTransferManager)
    : option (result SftpError unit) :=
  match get_control transfer_id m with
  | None => Some (Ok tt)
  | Some r => match arena m !! r with
              | Some c => check_control_loop c observed
              | None => None
              end
  end.

(** [acquire_permit]: the check, the semaphore, the count; and the drop of a
    permit: the count ([Drop::drop]), then its field. *)
Definition permit_check (m : SftpTransferManager) : bool := active_count m <? max_concurrent m.
Definition permit_acquire (m : SftpTransferManager) : option SftpTransferManager :=
  if 0 <? semaphore m then Some (set_permits (semaphore m - 1) (active_count m) m) else None.
Definition permit_count (m : SftpTransferManager) : SftpTransferManager :=
  set_permits (semaphore m) (active_count m + 1) m.
Definition drop_count (m : SftpTransferManager) : SftpTransferManager :=
  set_permits (semaphore m) (sat_sub (active_count m) 1) m.
Definition drop_release (m : SftpTransferManager) : SftpTransferManager :=
  set_permits (semaphore m + 1) (active_count m) m.
(** [acquire_permit] without interruption: [None] when it waits. *)
Definition acquire_permit (m : SftpTransferManager) : option SftpTransferManager :=
  if permit_check m then permit_count <$> permit_acquire m else None.

(** ** Threads *)

(** The manager and its callers: the numbers of threads in [acquire_permit] that
    have passed the check ([checked]) or hold the semaphore but are not counted
    yet ([acquired]), of permits that are [held] or half dropped ([dropping]),
    the snapshots that registrations are about to insert ([prepared]), and the
    shutdown: [phase] counts the sections it has passed (1: the
    compare-and-exchange, 2: the controls are collected, 3: the snapshots are
    swept, 4: stopped) and [to_cancel] are the controls it has still to
    cancel. *)
Record World := mkWorld {
  mgr : SftpTransferManager;
  checked : nat; acquired : nat; held : nat; dropping : nat;
  prepared : list BackgroundTransferSnapshot;
  phase : nat;
  to_cancel : list nat
}.
Definition World_new : World := mkWorld SftpTransferManager_new 0 0 0 0 [] 0 [].

Inductive section :=
| SApplySettings (s : SftpTransferRuntimeSettings)
| SRegister (transfer_id : string) (node_id : option string)
| SUnregister (transfer_id : string)
| SCleanup (now : Z)
| SPrepare (now : Z) (t : BackgroundTransferSnapshot)
| SInsert
| SStrategy (transfer_id : string) (strategy : TransferStrategy)
| SMarkActive (transfer_id : string)
| SProgress (transfer_id : string) (transferred total speed : Z)
| SFinish (now : Z) (transfer_id : string) (state : BackgroundTransferState) (error : option string) (items : option Z)
| SControlCancel (r : nat)
| SControlPause (r : nat)
| SControlResume (r : nat)
| SControlInterrupt (r : nat) (reason : string)
| SPauseSnapshot (transfer_id : string)
| SResumeSnapshot (transfer_id : string)
| SInterruptSnapshot (now : Z) (transfer_id reason : string)
| SPermitCheck | SPermitAcquire | SPermitCount | SDropCount | SDropRelease
| SShutdownBegin | SShutdownCollect | SShutdownCancelOne | SShutdownBackground (now : Z) | SShutdownStop.

Definition on_mgr (f : SftpTransferManager -> SftpTransferManager) (w : World) : World :=
  mkWorld (f (mgr w)) (checked w) (acquired w) (held w) (dropping w) (prepared w) (phase w) (to_cancel w).
Definition with_threads (c a h d : nat) (w : World) : World :=
  mkWorld (mgr w) c a h d (prepared w) (phase w) (to_cancel w).
Definition with_phase (p : nat) (k : list nat) (w : World) : World :=
  mkWorld (mgr w) (checked w) (acquired w) (held w) (dropping w) (prepared w) p k.
Definition with_prepared (l : list BackgroundTransferSnapshot) (w : World) : World :=
  mkWorld (mgr w) (checked w) (acquired w) (held w) (dropping w) l (phase w) (to_cancel w).

(** One section of some thread; [None] when no thread is ready for it. *)
Definition run_section (s : section) (w : World) : option World :=
  match s with
  | SApplySettings s => Some (on_mgr (apply_settings s) w)
  | SRegister id node => Some (on_mgr (fun m => snd (register_owned id node m)) w)
  | SUnregister id => Some (on_mgr (unregister id) w)
  | SCleanup now => Some (on_mgr (cleanup_background_transfers now) w)
  | SPrepare now t => Some (with_prepared (prepare_background now t (mgr w) :: prepared w) w)
  | SInsert => match prepared w with
               | [] => None
               | t :: rest => Some (with_prepared rest (on_mgr (insert_background t) w))
               end
  | SStrategy id st => Some (on_mgr (update_background_transfer_strategy id st) w)
  | SMarkActive id => Some (on_mgr (mark_background_transfer_active id) w)
  | SProgress id a b c => Some (on_mgr (update_background_transfer_progress id a b c) w)
  | SFinish now id st e n => Some (on_mgr (fun m => snd (finish_background_transfer now id st e n m)) w)
  | SControlCancel r => Some (on_mgr (on_control control_cancel r) w)
  | SControlPause r => Some (on_mgr (on_control control_pause r) w)
  | SControlResume r => Some (on_mgr (on_control control_resume r) w)
  | SControlInterrupt r reason => Some (on_mgr (on_control (control_interrupt reason) r) w)
  | SPauseSnapshot id => Some (on_mgr (pause_snapshot id) w)
  | SResumeSnapshot id => Some (on_mgr (resume_snapshot id) w)
  | SInterruptSnapshot now id reason => Some (on_mgr (interrupt_snapshot now id reason) w)
  | SPermitCheck => if permit_check (mgr w) then Some (with_threads (S (checked w)) (acquired w) (held w) (dropping w) w)
                    else None
  | SPermitAcquire => match checked w, permit_acquire (mgr w) with
                      | S c, Some m => Some (with_threads c (S (acquired w)) (held w) (dropping w) (on_mgr (fun _ => m) w))
                      | _, _ => None
                      end
  | SPermitCount => match acquired w with
                    | S a => Some (with_threads (checked w) a (S (held w)) (dropping w) (on_mgr permit_count w))
                    | O => None
                    end
  | SDropCount => match held w with
                  | S h => Some (with_threads (checked w) (acquired w) h (S (dropping w)) (on_mgr drop_count w))
                  | O => None
                  end
  | SDropRelease => match dropping w with
                    | S d => Some (with_threads (checked w) (acquired w) (held w) d (on_mgr drop_release w))
                    | O => None
                    end
  | SShutdownBegin => match shutdown_begin (mgr w) with
                      | Some m => Some (with_phase 1 [] (on_mgr (fun _ => m) w))
                      | None => None
                      end
  | SShutdownCollect => if (phase w =? 1)%nat then Some (with_phase 2 (registered_refs (mgr w)) w) else None
  | SShutdownCancelOne => match to_cancel w with
                          | [] => None
                          | r :: rest => Some (with_phase (phase w) rest (on_mgr (on_control control_cancel r) w))
                          end
  | SShutdownBackground now =>
      match phase w, to_cancel w with
      | 2%nat, [] => Some (with_phase 3 [] (on_mgr (shutdown_background now) w))
      | _, _ => None
      end
  | SShutdownStop => if (phase w =? 3)%nat then Some (with_phase 4 [] (on_mgr shutdown_stop w)) else None
  end.

Fixpoint run_sections (l : list section) (w : World) : option World :=
  match l with
  | [] => Some w
  | s :: l => match run_section s w with Some w => run_sections l w | None => None end
  end.

(** The callers finish a transfer with a finished state. *)
Definition section_ok (s : section) : Prop :=
  match s with SFinish _ _ st _ _ => is_finished st = true | _ => True end.

(** The branch a section took: what its guards say, and the state after it. *)
Ltac run_inv H :=
  cbn [run_section] in H; unfold permit_acquire, shutdown_begin in H;
  repeat (match type of H with
    | context [match (if ?b then _ else _) with _ => _ end] => destruct b eqn:?
    | context [match ?x with _ => _ end] => is_var x; destruct x eqn:?
    | context [match ?f ?y with _ => _ end] => destruct (f y) eqn:?
    | context [if ?b then _ else _] => destruct b eqn:?
    end; try discriminate H);
  try (injection H as <-).

Lemma run_sections_invariant (I : World -> Prop) (P : section -> Prop) l w w' :
  (forall s w w', P s -> I w -> run_section s w = Some w' -> I w') ->
  Forall P l -> I w -> run_sections l w = Some w' -> I w'.
Proof.
  intros Hstep Hl. revert w. induction Hl as [|s l Hs Hl IH]; intros w Hw; simpl; [by intros [= <-]|].
  destruct (run_section s w) as [w1|] eqn:H1; [|done]. apply IH. by eapply Hstep.
Qed.

(** ** Permits *)

Record permits_ok (w : World) : Prop := mkPermitsOk {
  po_semaphore : semaphore (mgr w) + Z.of_nat (acquired w) + Z.of_nat (held w) + Z.of_nat (dropping w)
                 = MAX_SFTP_CONCURRENT_TRANSFERS;
  po_free : 0 <= semaphore (mgr w);
  po_active : active_count (mgr w) = Z.of_nat (held w);
  po_max : 1 <= max_concurrent (mgr w) <= MAX_SFTP_CONCURRENT_TRANSFERS;
  po_parallelism : 1 <= directory_parallelism (mgr w) <= MAX_SFTP_DIRECTORY_PARALLELISM
}.

Lemma permits_ok_frame w m :
  semaphore m = semaphore (mgr w) -> active_count m = active_count (mgr w) ->
  max_concurrent m = max_concurrent (mgr w) -> directory_parallelism m = directory_parallelism (mgr w) ->
  permits_ok w -> permits_ok (on_mgr (fun _ => m) w).
Proof. intros H1 H2 H3 H4 []. split; cbn; congruence. Qed.

Lemma register_owned_frame id node m :
  let m' := snd (register_owned id node m) in
  semaphore m' = semaphore m /\ active_count m' = active_count m /\ max_concurrent m' = max_concurrent m
  /\ directory_parallelism m' = directory_parallelism m /\ background_transfers m' = background_transfers m
  /\ shutdown_state m' = shutdown_state m.
Proof. unfold register_owned. by destruct (controls m !! id). Qed.

Lemma unregister_frame id m :
  let m' := unregister id m in
  semaphore m' = semaphore m /\ active_count m' = active_count m /\ max_concurrent m' = max_concurrent m
  /\ directory_parallelism m' = directory_parallelism m /\ background_transfers m' = background_transfers m
  /\ shutdown_state m' = shutdown_state m /\ arena m' = arena m /\ next_ref m' = next_ref m.
Proof. unfold unregister. destruct (controls m !! id); [|done]. by destruct (_ =? _). Qed.

Lemma finish_frame now id st e n m :
  let m' := snd (finish_background_transfer now id st e n m) in
  semaphore m' = semaphore m /\ active_count m' = active_count m /\ max_concurrent m' = max_concurrent m
  /\ directory_parallelism m' = directory_parallelism m /\ controls m' = controls m
  /\ shutdown_state m' = shutdown_state m /\ arena m' = arena m /\ next_ref m' = next_ref m.
Proof. unfold finish_background_transfer. by destruct (background_transfers m !! id). Qed.

Lemma permits_ok_step s w w' : permits_ok w -> run_section s w = Some w' -> permits_ok w'.
Proof.
  intros Hok H. destruct s; run_inv H; try (by apply permits_ok_frame); try (by destruct Hok);
    try (destruct Hok; split; cbn; unfold clamp, sat_sub, MAX_SFTP_CONCURRENT_TRANSFERS,
      MAX_SFTP_DIRECTORY_PARALLELISM in *; lia).
  - destruct (register_owned_frame transfer_id node_id (mgr w)) as (? & ? & ? & ? & _). by apply permits_ok_frame.
  - destruct (unregister_frame transfer_id (mgr w)) as (? & ? & ? & ? & _). by apply permits_ok_frame.
  - destruct (finish_frame now transfer_id state error items (mgr w)) as (? & ? & ? & ? & _). by apply permits_ok_frame.
Qed.

Lemma permits_ok_reachable l w : run_sections l World_new = Some w -> permits_ok w.
Proof.
  apply (run_sections_invariant permits_ok (fun _ => True)); [intros s w1 w2 _; apply permits_ok_step|by apply Forall_true|].
  by split.
Qed.

(** ** The registry *)

Record registry_ok (w : World) : Prop := mkRegistryOk {
  ro_entry : forall id r, controls (mgr w) !! id = Some r ->
    1 <= rc_owner_count r /\ is_Some (arena (mgr w) !! rc_control r);
  ro_fresh : forall r, is_Some (arena (mgr w) !! r) -> (r < next_ref (mgr w))%nat;
  ro_distinct : forall i j r s, controls (mgr w) !! i = Some r -> controls (mgr w) !! j = Some s ->
    rc_control r = rc_control s -> i = j;
  ro_phase : shutdown_state (mgr w) = TRANSFER_MANAGER_RUNNING <-> phase w = 0%nat;
  ro_cancelled : (2 <= phase w)%nat -> forall id r c, controls (mgr w) !! id = Some r ->
    arena (mgr w) !! rc_control r = Some c -> ctl_cancel c = true \/ rc_control r ∈ to_cancel w;
  ro_swept : (3 <= phase w)%nat -> to_cancel w = []
}.

Lemma registry_ok_frame w m :
  arena m = arena (mgr w) -> next_ref m = next_ref (mgr w) -> controls m = controls (mgr w) ->
  shutdown_state m = shutdown_state (mgr w) -> registry_ok w -> registry_ok (on_mgr (fun _ => m) w).
Proof. intros H1 H2 H3 H4 []. split; cbn; rewrite ?H1, ?H2, ?H3, ?H4; done. Qed.

Lemma registry_ok_threads c a h d w : registry_ok w -> registry_ok (with_threads c a h d w).
Proof. intros []. by split. Qed.

(** Calls on a control never clear the cancellation. *)
Definition keeps_cancel (f : SftpTransferControl -> SftpTransferControl) : Prop :=
  forall c, ctl_cancel c = true -> ctl_cancel (f c) = true.

Lemma registry_ok_control f r w : keeps_cancel f -> registry_ok w -> registry_ok (on_mgr (on_control f r) w).
Proof.
  intros Hf [He Hfr Hd Hp Hc Hs]. split; cbn.
  - intros id e H. destruct (He id e H) as [? ?]. split; [done|]. by apply lookup_alter_is_Some.
  - intros k Hk. apply Hfr. by apply lookup_alter_is_Some in Hk.
  - done.
  - done.
  - intros H2 id e c H. destruct (decide (rc_control e = r)) as [<-|Hne].
    + rewrite lookup_alter_eq. intros (c0 & H0 & ->)%fmap_Some.
      destruct (Hc H2 id e c0 H H0) as [?|?]; [left; by apply Hf|by right].
    + rewrite lookup_alter_ne by done. by apply (Hc H2 id).
  - done.
Qed.

Lemma registry_ok_register id node w :
  registry_ok w -> registry_ok (on_mgr (fun m => snd (register_owned id node m)) w).
Proof.
  intros [He Hfr Hd Hp Hc Hs]. unfold register_owned, on_mgr. destruct (controls (mgr w) !! id) as [e|] eqn:Hid.
  - destruct (He id e Hid) as [H1 H2]. split; cbn; try done.
    + intros i r. destruct (decide (i = id)) as [->|Hi]; [rewrite lookup_insert_eq|rewrite lookup_insert_ne by done; by apply He].
      intros [= <-]. cbn. split; [lia|done].
    + intros i j r s Hi Hj Hrs.
      assert (Hback : forall k x, <[id:=mkRegistered (rc_control e) (rc_owner_count e + 1)
          (match rc_node_id e with None => node | Some n => Some n end)]> (controls (mgr w)) !! k = Some x ->
          exists y, controls (mgr w) !! k = Some y /\ rc_control y = rc_control x).
      { intros k x. destruct (decide (k = id)) as [->|Hk].
        - rewrite lookup_insert_eq. intros [= <-]. by exists e.
        - rewrite lookup_insert_ne by done. by exists x. }
      apply Hback in Hi as (ri & Hi & Hri). apply Hback in Hj as (rj & Hj & Hrj).
      apply (Hd i j ri rj Hi Hj). congruence.
    + intros Hph i r c. destruct (decide (i = id)) as [->|Hi]; [rewrite lookup_insert_eq|rewrite lookup_insert_ne by done; by apply (Hc Hph i)].
      intros [= <-]. cbn. by apply (Hc Hph id).
  - assert (Hnew : arena (mgr w) !! next_ref (mgr w) = None).
    { destruct (arena (mgr w) !! next_ref (mgr w)) eqn:Hn; [|done].
      assert (Hx := Hfr _ (mk_is_Some _ _ Hn)). lia. }
    assert (Hold : forall i r, controls (mgr w) !! i = Some r -> rc_control r <> next_ref (mgr w)).
    { intros i r Hi Hr. destruct (He i r Hi) as [_ Hsome]. rewrite Hr, Hnew in Hsome. by destruct Hsome. }
    split; cbn; try done.
    + intros i r. destruct (decide (i = id)) as [->|Hi].
      * rewrite lookup_insert_eq. intros [= <-]. cbn. rewrite lookup_insert_eq. split; [lia|by eexists].
      * rewrite lookup_insert_ne by done. intros Hr. rewrite lookup_insert_ne by (intros Hx; by apply (Hold i r)). by apply (He i r).
    + intros r. destruct (decide (r = next_ref (mgr w))) as [->|Hr]; [lia|].
      rewrite lookup_insert_ne by done. intros Hx. apply Hfr in Hx. lia.
    + intros i j r s. destruct (decide (i = id)) as [->|Hi], (decide (j = id)) as [->|Hj];
        rewrite ?lookup_insert_eq, ?lookup_insert_ne by done.
      * done.
      * intros [= <-] Hjs. cbn. intros Hx. symmetry in Hx. by apply (Hold j s) in Hx.
      * intros His [= <-]. cbn. intros Hx. by apply (Hold i r) in Hx.
      * by apply Hd.
    + intros Hph i r c. destruct (decide (i = id)) as [->|Hi].
      * rewrite lookup_insert_eq. intros [= <-]. cbn. rewrite lookup_insert_eq. intros [= <-]. left.
        assert (shutdown_state (mgr w) <> TRANSFER_MANAGER_RUNNING) by (intros Hz%Hp; lia).
        by rewrite (proj2 (Z.eqb_neq _ _)).
      * rewrite lookup_insert_ne by done. intros Hr. rewrite lookup_insert_ne by (intros Hx; by apply (Hold i r)). by apply (Hc Hph i).
Qed.

Lemma registry_ok_unregister id w : registry_ok w -> registry_ok (on_mgr (unregister id) w).
Proof.
  intros [He Hfr Hd Hp Hc Hs].
  destruct (unregister_frame id (mgr w)) as (_ & _ & _ & _ & _ & Hsh & Har & Hnx).
  assert (Hback : forall k x, controls (unregister id (mgr w)) !! k = Some x ->
    exists y, controls (mgr w) !! k = Some y /\ rc_control y = rc_control x /\ 1 <= rc_owner_count x).
  { intros k x. unfold unregister. destruct (controls (mgr w) !! id) as [e|] eqn:Hid; [|intros H; exists x; split_and!; [done|done|by apply (He k)]].
    destruct (Z.eqb_spec (sat_sub (rc_owner_count e) 1) 0) as [H0|H0]; cbn; destruct (decide (k = id)) as [->|Hk].
    - by rewrite lookup_delete_eq.
    - rewrite lookup_delete_ne by done. intros H. exists x. split_and!; [done|done|by apply (He k)].
    - rewrite lookup_insert_eq. intros [= <-]. exists e. cbn. split_and!; [done|done|]. unfold sat_sub in *. lia.
    - rewrite lookup_insert_ne by done. intros H. exists x. split_and!; [done|done|by apply (He k)]. }
  split; cbn [mgr on_mgr phase to_cancel]; rewrite ?Har, ?Hnx, ?Hsh; try done.
  - intros k x (y & Hy & Hxy & H1)%Hback. rewrite <-Hxy. split; [done|by apply (He k)].
  - intros i j r s (y & Hy & Hry & _)%Hback (z & Hz & Hsz & _)%Hback Hrs. apply (Hd i j y z); congruence.
  - intros Hph k x c (y & Hy & Hxy & _)%Hback. rewrite <-Hxy. by apply (Hc Hph k).
Qed.

Lemma registered_refs_elem id r m : controls m !! id = Some r -> rc_control r ∈ registered_refs m.
Proof.
  intros H. unfold registered_refs. apply list_elem_of_In, in_map_iff. exists (id, r). split; [done|].
  by apply list_elem_of_In, elem_of_map_to_list.
Qed.

Lemma registry_ok_step s w w' : registry_ok w -> run_section s w = Some w' -> registry_ok w'.
Proof.
  intros Hok H. destruct s; run_inv H;
    try (by apply registry_ok_frame); try (by apply registry_ok_threads, registry_ok_frame);
    try (by apply registry_ok_threads); try (apply registry_ok_control; [by intros c|done]);
    try (destruct Hok; by split).
  - by apply registry_ok_register.
  - by apply registry_ok_unregister.
  - destruct (finish_frame now transfer_id state error items (mgr w)) as (_ & _ & _ & _ & ? & ? & ? & ?).
    by apply registry_ok_frame.
  - destruct Hok. by split; cbn; try done; lia.
  - apply Nat.eqb_eq in Heqb. destruct Hok as [He Hfr Hd Hph Hc Hs].
    split; cbn; try done; [rewrite Hph, Heqb; done| |lia].
    intros _ id r c Hr _. right. by eapply registered_refs_elem.
  - pose proof (registry_ok_control control_cancel n w ltac:(by intros c) Hok) as [He Hfr Hd Hph Hc Hs].
    cbn in He, Hfr, Hd, Hph, Hc, Hs. split; cbn; try done.
    + intros Hp id e c H1 H2. destruct (Hc Hp id e c H1 H2) as [?|Hin]; [by left|]. rewrite Heql in Hin.
      apply elem_of_cons in Hin as [Heq|?]; [|by right]. left. rewrite Heq, lookup_alter_eq in H2.
      apply fmap_Some in H2 as (c0 & _ & ->). done.
    + intros Hp. specialize (Hs Hp). congruence.
  - destruct Hok as [He Hfr Hd Hph Hc Hs]. rewrite Heqn, Heql in *. split; cbn; try done; [rewrite Hph; lia|].
    intros _. by apply Hc.
  - apply Nat.eqb_eq in Heqb. destruct Hok as [He Hfr Hd Hph Hc Hs]. rewrite Heqb in *. rewrite Hs in Hc by lia.
    split; cbn; try done. intros _. apply Hc. lia.
Qed.

Lemma registry_ok_reachable l w : run_sections l World_new = Some w -> registry_ok w.
Proof.
  apply (run_sections_invariant registry_ok (fun _ => True)); [intros s w1 w2 _; apply registry_ok_step|by apply Forall_true|].
  split; cbn; try done; try lia. intros r Hr. rewrite lookup_empty in Hr. by destruct Hr.
Qed.

(** The number of owners of a transfer, as a counter that registrations and
    guards move. *)
Definition owners (id : string) (m : SftpTransferManager) : Z :=
  match controls m !! id with Some r => rc_owner_count r | None => 0 end.
Definition count_section (id : string) (n : Z) (s : section) : Z :=
  match s with
  | SRegister i _ => if bool_decide (i = id) then n + 1 else n
  | SUnregister i => if bool_decide (i = id) then sat_sub n 1 else n
  | _ => n
  end.

Lemma owners_register id i node m :
  owners id (snd (register_owned i node m)) = if bool_decide (i = id) then owners id m + 1 else owners id m.
Proof.
  unfold owners, register_owned. case_bool_decide as H; [subst id|]; destruct (controls m !! i) as [e|] eqn:He; cbn.
  - by rewrite lookup_insert_eq.
  - by rewrite lookup_insert_eq.
  - by rewrite lookup_insert_ne.
  - by rewrite lookup_insert_ne.
Qed.

Lemma owners_unregister id i m :
  (forall k r, controls m !! k = Some r -> 1 <= rc_owner_count r) ->
  owners id (unregister i m) = if bool_decide (i = id) then sat_sub (owners id m) 1 else owners id m.
Proof.
  intros Hok. unfold owners, unregister. case_bool_decide as H; [subst id|];
    (destruct (controls m !! i) as [e|] eqn:He; [|by rewrite ?He]).
  - destruct (Z.eqb_spec (sat_sub (rc_owner_count e) 1) 0) as [->|H0]; cbn.
    + by rewrite lookup_delete_eq.
    + by rewrite lookup_insert_eq.
  - destruct (_ =? _); cbn; [by rewrite lookup_delete_ne|by rewrite lookup_insert_ne].
Qed.

(** The sections other than registration and its guard leave the registry. *)
Lemma section_controls s w w' : run_section s w = Some w' ->
  match s with SRegister _ _ | SUnregister _ => True | _ => controls (mgr w') = controls (mgr w) end.
Proof.
  intros H. destruct s; run_inv H; try done.
  by destruct (finish_frame now transfer_id state error items (mgr w)) as (_ & _ & _ & _ & ? & _).
Qed.

Lemma owners_step id s w w' : registry_ok w -> run_section s w = Some w' ->
  owners id (mgr w') = count_section id (owners id (mgr w)) s.
Proof.
  intros Hok H. pose proof (section_controls s w w' H) as Hc.
  destruct s; try (unfold owners; by rewrite Hc); injection H as <-.
  - apply owners_register.
  - apply owners_unregister. intros k r Hr. by apply (ro_entry _ Hok k r).
Qed.

Lemma owners_trace id l w w' : registry_ok w -> run_sections l w = Some w' ->
  owners id (mgr w') = fold_left (count_section id) l (owners id (mgr w)).
Proof.
  revert w. induction l as [|s l IH]; intros w Hok; cbn [run_sections fold_left]; [by intros [= <-]|].
  destruct (run_section s w) as [w1|] eqn:H1; [|done]. intros H.
  rewrite (IH w1) by (done || by eapply registry_ok_step). by rewrite (owners_step id s w w1).
Qed.

(** A request to stop: the control behind a registered transfer is cancelled or
    interrupted. *)
Definition stop_requested (c : SftpTransferControl) : Prop := ctl_cancel c = true \/ is_Some (ctl_interrupt c).
Definition must_stop (id : string) (r : nat) (m : SftpTransferManager) : Prop :=
  get_control id m = Some r /\ exists c, arena m !! r = Some c /\ stop_requested c.

Lemma must_stop_frame id r m m' :
  controls m' !! id = controls m !! id -> arena m' = arena m -> must_stop id r m -> must_stop id r m'.
Proof. unfold must_stop, get_control. intros -> ->. done. Qed.

Lemma must_stop_control id r k f m :
  (forall c, stop_requested c -> stop_requested (f c)) -> must_stop id r m -> must_stop id r (on_control f k m).
Proof.
  intros Hf [Hg (c & Hc & Hs)]. split; [done|]. cbn. destruct (decide (r = k)) as [<-|Hne].
  - exists (f c). rewrite lookup_alter_eq, Hc. split; [done|by apply Hf].
  - exists c. by rewrite lookup_alter_ne.
Qed.

Lemma stop_cancel c : stop_requested c -> stop_requested (control_cancel c).
Proof. intros _. by left. Qed.
Lemma stop_pause c : stop_requested c -> stop_requested (control_pause c).
Proof. done. Qed.
Lemma stop_resume c : stop_requested c -> stop_requested (control_resume c).
Proof. done. Qed.
Lemma stop_interrupt reason c : stop_requested c -> stop_requested (control_interrupt reason c).
Proof. intros _. right. by eexists. Qed.

Lemma must_stop_register id r i node m :
  (forall k, is_Some (arena m !! k) -> (k < next_ref m)%nat) ->
  must_stop id r m -> must_stop id r (snd (register_owned i node m)).
Proof.
  intros Hfr [Hg (c & Hc & Hs)]. unfold register_owned, must_stop, get_control in *.
  destruct (decide (i = id)) as [->|Hi].
  - destruct (controls m !! id) as [e|]; [|done]. cbn. rewrite lookup_insert_eq. split; [done|by exists c].
  - destruct (controls m !! i) as [e|]; cbn; rewrite lookup_insert_ne by done; (split; [done|exists c]); [done|].
    rewrite lookup_insert_ne; [done|]. intros Hx. assert (Hl := Hfr r (mk_is_Some _ _ Hc)). lia.
Qed.

Lemma must_stop_step id r s w w' : s <> SUnregister id -> registry_ok w -> must_stop id r (mgr w) ->
  run_section s w = Some w' -> must_stop id r (mgr w').
Proof.
  intros Hs Hok Hm H. destruct s; run_inv H; try done;
    try (apply must_stop_control; [auto using stop_cancel, stop_pause, stop_resume, stop_interrupt|done]).
  - apply must_stop_register; [apply Hok|done].
  - destruct (unregister_frame transfer_id (mgr w)) as (_ & _ & _ & _ & _ & _ & Har & _).
    eapply must_stop_frame; [|exact Har|exact Hm]. cbn. unfold unregister.
    destruct (controls (mgr w) !! transfer_id) as [e|]; [|done].
    assert (transfer_id <> id) by congruence.
    destruct (_ =? _); cbn; [by rewrite lookup_delete_ne|by rewrite lookup_insert_ne].
  - destruct (finish_frame now transfer_id state error items (mgr w)) as (_ & _ & _ & _ & Hc & _ & Ha & _).
    by eapply must_stop_frame; [cbn; by rewrite Hc|exact Ha|exact Hm].
Qed.

Lemma check_control_stops id r m observed : must_stop id r m ->
  exists e, check_control id observed m = Some (Err e).
Proof.
  intros [Hg (c & Hc & Hs)]. unfold check_control. rewrite Hg, Hc.
  destruct observed; cbn [check_control_loop]; unfold look; destruct Hs as [->|[x Hx]]; try (by eexists);
    destruct (ctl_cancel c); rewrite ?Hx; by eexists.
Qed.

(** ** The shutdown *)

Definition all_finished (m : SftpTransferManager) : Prop :=
  forall id t, background_transfers m !! id = Some t -> is_finished (bt_state t) = true.
Record sealed (w : World) : Prop := mkSealed {
  se_registry : registry_ok w;
  se_phase : (3 <= phase w)%nat;
  se_prepared : Forall (fun t => is_finished (bt_state t) = true) (prepared w);
  se_snapshots : all_finished (mgr w)
}.

Lemma all_finished_alter f id m :
  (forall t, is_finished (bt_state t) = true -> is_finished (bt_state (f t)) = true) ->
  all_finished m -> all_finished (on_background f id m).
Proof.
  intros Hf Hall i t. cbn. destruct (decide (i = id)) as [->|Hi].
  - rewrite lookup_alter_eq. intros (t0 & H0 & ->)%fmap_Some. eauto.
  - rewrite lookup_alter_ne by done. apply Hall.
Qed.

Lemma all_finished_guard f id m : all_finished m -> all_finished (on_background (unless_finished f) id m).
Proof. apply all_finished_alter. intros t Ht. unfold unless_finished. by rewrite Ht. Qed.

Lemma all_finished_insert t id m : is_finished (bt_state t) = true -> all_finished m ->
  all_finished (set_background (<[id := t]> (background_transfers m)) m).
Proof.
  intros Ht Hall i x. cbn. destruct (decide (i = id)) as [->|Hi].
  - rewrite lookup_insert_eq. by intros [= <-].
  - rewrite lookup_insert_ne by done. apply Hall.
Qed.

Lemma all_finished_section s w w' : section_ok s -> Forall (fun t => is_finished (bt_state t) = true) (prepared w) ->
  run_section s w = Some w' -> all_finished (mgr w) -> all_finished (mgr w').
Proof.
  intros Hs Hp H Hall. destruct s; run_inv H; try done; try (by apply all_finished_guard); try (by apply all_finished_alter).
  - intros i t Ht. apply (Hall i t). by destruct (register_owned_frame transfer_id node_id (mgr w)) as (_ & _ & _ & _ & <- & _).
  - intros i t Ht. apply (Hall i t). by destruct (unregister_frame transfer_id (mgr w)) as (_ & _ & _ & _ & <- & _).
  - intros i t. cbn. intros (Ht & _)%map_lookup_filter_Some. by apply (Hall i).
  - inversion Hp. by apply all_finished_insert.
  - cbn. unfold finish_background_transfer.
    destruct (background_transfers (mgr w) !! transfer_id) as [t|]; [|done]. apply all_finished_insert; [|done].
    cbn. by destruct (_ && _).
  - apply all_finished_alter; [|done]. intros t Ht. case_bool_decide as Hx; [by rewrite Hx in Ht|done].
  - intros i t. cbn. rewrite lookup_fmap. intros (t0 & H0 & ->)%fmap_Some. unfold shutdown_snapshot, unless_finished.
    rewrite (Hall i t0 H0). by apply (Hall i).
Qed.

Lemma sealed_step s w w' : section_ok s -> sealed w -> run_section s w = Some w' -> sealed w'.
Proof.
  intros Hs [Hr Hph Hp Hall] H.
  assert (Hz : (shutdown_state (mgr w) =? TRANSFER_MANAGER_RUNNING) = false)
    by (apply Z.eqb_neq; intros Hz%Hr; lia).
  split; [by eapply registry_ok_step| | |by eapply all_finished_section].
  - destruct s; run_inv H; cbn [on_mgr with_threads with_phase with_prepared phase]; try done; try lia; try congruence.
    apply Nat.eqb_eq in Heqb. lia.
  - destruct s; run_inv H; try done.
    + constructor; [|done]. unfold prepare_background. by rewrite Hz.
    + by inversion Hp.
Qed.

Lemma sealed_begin l w now w1 :
  run_sections l World_new = Some w -> Forall (fun t => is_finished (bt_state t) = true) (prepared w) ->
  run_section (SShutdownBackground now) w = Some w1 -> sealed w1.
Proof.
  intros Hl Hp H. assert (Hr : registry_ok w) by (by eapply registry_ok_reachable). split.
  - by eapply registry_ok_step.
  - run_inv H. cbn. lia.
  - by run_inv H.
  - run_inv H. intros i t. cbn. rewrite lookup_fmap. intros (t0 & _ & ->)%fmap_Some.
    unfold shutdown_snapshot, unless_finished. by destruct (is_finished (bt_state t0)) eqn:Hf.
Qed.

Lemma sealed_check id r observed w : sealed w -> get_control id (mgr w) = Some r ->
  check_control id observed (mgr w) = Some (Err TransferCancelled).
Proof.
  intros [Hr Hph _ _] Hg. unfold check_control. rewrite Hg. unfold get_control in Hg.
  apply fmap_Some in Hg as (e & He & ->). destruct (ro_entry _ Hr id e He) as [_ [c Hc]]. rewrite Hc.
  destruct (ro_cancelled _ Hr ltac:(lia) id e c He Hc) as [Hx|Hin];
    [|rewrite (ro_swept _ Hr Hph) in Hin; by apply not_elem_of_nil in Hin].
  destruct observed; cbn [check_control_loop]; unfold look; by rewrite Hx.
Qed.

(** ** The methods as runs of sections *)

Lemma run_sections_app l k w :
  run_sections (l ++ k) w = match run_sections l w with Some w => run_sections k w | None => None end.
Proof. revert w. induction l as [|s l IH]; intros w; [done|]. simpl. destruct (run_section s w); [apply IH|done]. Qed.

Lemma run_cancel_each refs w : to_cancel w = refs ->
  run_sections (replicate (length refs) SShutdownCancelOne) w
  = Some (with_phase (phase w) [] (on_mgr (fun m => fold_left (fun m r => on_control control_cancel r m) refs m) w)).
Proof.
  revert w. induction refs as [|r refs IH]; intros w Hw; cbn [length replicate run_sections fold_left].
  - unfold with_phase, on_mgr. destruct w. simpl in *. by subst.
  - cbn [run_section]. rewrite Hw. rewrite IH by done. done.
Qed.

Definition shutdown_sections (now : Z) (m : SftpTransferManager) : list section :=
  [SShutdownBegin; SShutdownCollect] ++ replicate (length (registered_refs m)) SShutdownCancelOne
  ++ [SShutdownBackground now; SShutdownStop].

Lemma shutdown_runs now w drained_in_time :
  shutdown_state (mgr w) = TRANSFER_MANAGER_RUNNING ->
  mgr <$> run_sections (shutdown_sections now (mgr w)) w
  = Some (snd (shutdown_session_transfers now (fun m => m) drained_in_time (mgr w))).
Proof.
  intros Hs. unfold shutdown_sections, shutdown_session_transfers, shutdown_begin.
  cbn [app run_sections run_section]. unfold shutdown_begin. rewrite Hs. cbn [Z.eqb TRANSFER_MANAGER_RUNNING].
  cbn [with_phase on_mgr phase mgr Nat.eqb run_sections run_section].
  change (registered_refs (set_shutdown TRANSFER_MANAGER_SHUTTING_DOWN (mgr w))) with (registered_refs (mgr w)).
  rewrite run_sections_app, run_cancel_each by done. done.
Qed.

(** ** Theorems *)

(** in every interleaving of the threads, the transfers that hold a permit
    are counted exactly and never exceed the semaphore's ten; the configured
    limits stay in their ranges; and a thread that finds the count below the
    limit while no other is between the check and the count gets a permit at
    once, which raises the count by one. *)
Theorem sftp_permits_bounded (l : list section) (w : World) :
  run_sections l World_new = Some w ->
  active_count (mgr w) = Z.of_nat (held w) /\ 0 <= active_count (mgr w) <= 10
  /\ semaphore (mgr w) = 10 - Z.of_nat (acquired w) - Z.of_nat (held w) - Z.of_nat (dropping w)
  /\ 1 <= max_concurrent (mgr w) <= 10 /\ 1 <= directory_parallelism (mgr w) <= 16
  /\ (acquired w = 0%nat -> dropping w = 0%nat -> permit_check (mgr w) = true ->
      exists m, acquire_permit (mgr w) = Some m /\ active_count m = active_count (mgr w) + 1).
Proof.
  intros [H1 H2 H3 H4 H5]%permits_ok_reachable. unfold MAX_SFTP_CONCURRENT_TRANSFERS, MAX_SFTP_DIRECTORY_PARALLELISM in *.
  repeat (split; [lia|]). intros Ha Hd Hc. unfold acquire_permit. rewrite Hc. unfold permit_acquire.
  unfold permit_check in Hc. apply Z.ltb_lt in Hc. rewrite (proj2 (Z.ltb_lt _ _)) by lia. by eexists.
Qed.

Lemma sftp_permits_bounded_witness :
  exists w, run_sections [SPermitCheck; SPermitAcquire; SPermitCount; SPermitCheck; SPermitAcquire] World_new = Some w
    /\ active_count (mgr w) = 1 /\ semaphore (mgr w) = 8.
Proof.
  eexists. split; [reflexivity|].
  pose proof (sftp_permits_bounded [SPermitCheck; SPermitAcquire; SPermitCount; SPermitCheck; SPermitAcquire] _ eq_refl)
    as (H1 & _ & H3 & _). exact (conj H1 H3).
Defined.

(** C38: once the shutdown has swept the snapshots, with no registration of a
    background transfer in flight, it is final in every interleaving of the
    threads that follows (in which a caller that finishes a transfer gives a
    finished state for it): the manager does not run again, every background
    transfer is finished, late registrations included, and every transfer that
    is or gets registered is told that it was cancelled. *)
Theorem sftp_shutdown_final (l l' : list section) (now : Z) (w w1 w' : World) :
  run_sections l World_new = Some w -> Forall (fun t => is_finished (bt_state t) = true) (prepared w) ->
  run_section (SShutdownBackground now) w = Some w1 ->
  Forall section_ok l' -> run_sections l' w1 = Some w' ->
  shutdown_state (mgr w') <> TRANSFER_MANAGER_RUNNING /\ all_finished (mgr w')
  /\ forall id r observed, get_control id (mgr w') = Some r ->
       check_control id observed (mgr w') = Some (Err TransferCancelled).
Proof.
  intros Hl Hp H1 Hok Hl'. assert (Hs : sealed w').
  { eapply (run_sections_invariant sealed section_ok); [intros; by eapply sealed_step|done| |done].
    by eapply sealed_begin. }
  split; [intros Hz; apply (ro_phase _ (se_registry _ Hs)) in Hz; pose proof (se_phase _ Hs); lia|].
  split; [apply Hs|]. intros id r observed Hg. by eapply sealed_check.
Qed.

Definition sample_transfer : BackgroundTransferSnapshot :=
  BackgroundTransferSnapshot_new 1 "t" "n" "f" "/l" "/r" Upload File StrategyFile 10 0.

Lemma sftp_shutdown_final_witness :
  exists w', run_sections [SRegister "late" None; SPrepare 9 sample_transfer; SInsert; SMarkActive "t"]
    (default World_new (run_sections [SRegister "x" None; SPrepare 1 sample_transfer; SInsert; SShutdownBegin;
       SShutdownCollect; SShutdownCancelOne; SShutdownBackground 5] World_new)) = Some w'
    /\ check_control "late" [] (mgr w') = Some (Err TransferCancelled) /\ all_finished (mgr w').
Proof.
  set (w := default World_new (run_sections [SRegister "x" None; SPrepare 1 sample_transfer; SInsert; SShutdownBegin;
       SShutdownCollect; SShutdownCancelOne] World_new)).
  set (w1 := default World_new (run_section (SShutdownBackground 5) w)).
  set (w' := default World_new (run_sections [SRegister "late" None; SPrepare 9 sample_transfer; SInsert; SMarkActive "t"] w1)).
  destruct (sftp_shutdown_final [SRegister "x" None; SPrepare 1 sample_transfer; SInsert; SShutdownBegin;
       SShutdownCollect; SShutdownCancelOne]
     [SRegister "late" None; SPrepare 9 sample_transfer; SInsert; SMarkActive "t"] 5 w w1 w')
     as (_ & H2 & H3); [vm_compute; reflexivity|constructor|vm_compute; reflexivity|repeat constructor|vm_compute; reflexivity|].
  exists w'. split; [vm_compute; reflexivity|]. split; [|exact H2]. apply (H3 "late"%string 1%nat). vm_compute; reflexivity.
Defined.

(** The registry counts owners: after any run, a transfer's owner count is
    the number of its registrations less the guards dropped (a drop without an
    owner does nothing), and it is in the registry exactly when that number is
    positive. *)
Theorem sftp_owner_count (id : string) (l : list section) (w : World) :
  run_sections l World_new = Some w ->
  owners id (mgr w) = fold_left (count_section id) l 0
  /\ (is_Some (get_control id (mgr w)) <-> 0 < fold_left (count_section id) l 0).
Proof.
  intros H. assert (Hr : registry_ok w) by (by eapply registry_ok_reachable).
  assert (Ho : owners id (mgr w) = fold_left (count_section id) l 0).
  { rewrite (owners_trace id l World_new); [done| |done]. by apply (registry_ok_reachable []). }
  split; [done|]. rewrite <-Ho. unfold owners, get_control.
  destruct (controls (mgr w) !! id) as [e|] eqn:He; cbn.
  - destruct (ro_entry _ Hr id e He) as [? _]. split; [lia|]. by eexists.
  - split; [by intros []|lia].
Qed.

Lemma sftp_owner_count_witness :
  exists w, run_sections [SRegister "a" None; SRegister "a" (Some "n"%string); SUnregister "a"] World_new = Some w
    /\ owners "a" (mgr w) = 1.
Proof.
  set (w := default World_new (run_sections [SRegister "a" None; SRegister "a" (Some "n"%string); SUnregister "a"] World_new)).
  exists w. split; [vm_compute; reflexivity|].
  exact (proj1 (sftp_owner_count "a" [SRegister "a" None; SRegister "a" (Some "n"%string); SUnregister "a"] w
    ltac:(vm_compute; reflexivity))).
Defined.

(** A request to stop is not lost: once the control of a registered transfer
    is cancelled or interrupted, then as long as no guard of that transfer is
    dropped, whatever the other threads do (register it again, pause, resume,
    shut down), the transfer's control stays the same and [check_control]
    returns an error at its next look, paused or not. *)
Theorem sftp_stop_request_sticky (id : string) (r : nat) (l l' : list section) (w w' : World) :
  run_sections l World_new = Some w -> must_stop id r (mgr w) ->
  Forall (fun s => s <> SUnregister id) l' -> run_sections l' w = Some w' ->
  must_stop id r (mgr w') /\ forall observed, exists e, check_control id observed (mgr w') = Some (Err e).
Proof.
  intros Hl Hm Hn Hl'.
  assert (Hboth : registry_ok w' /\ must_stop id r (mgr w')).
  { eapply (run_sections_invariant (fun w => registry_ok w /\ must_stop id r (mgr w))); [|exact Hn| |exact Hl'].
    - intros s w1 w2 Hs [H1 H2] H. split; [by eapply registry_ok_step|exact (must_stop_step id r s w1 w2 Hs H1 H2 H)].
    - split; [by eapply registry_ok_reachable|done]. }
  split; [apply Hboth|]. intros observed. eapply check_control_stops. apply Hboth.
Qed.

Lemma sftp_stop_request_sticky_witness :
  exists w', run_sections [SRegister "a" None; SControlInterrupt 0 "lost"; SRegister "a" None; SControlPause 0] World_new = Some w'
    /\ exists e, check_control "a" [] (mgr w') = Some (Err e).
Proof.
  set (w := default World_new (run_sections [SRegister "a" None; SControlInterrupt 0 "lost"] World_new)).
  set (w' := default World_new (run_sections [SRegister "a" None; SControlPause 0] w)).
  exists w'. split; [vm_compute; reflexivity|].
  refine (proj2 (sftp_stop_request_sticky "a" 0 [SRegister "a" None; SControlInterrupt 0 "lost"]
    [SRegister "a" None; SControlPause 0] w w' _ _ _ _) []); [vm_compute; reflexivity| |repeat constructor; discriminate|vm_compute; reflexivity].
  split; [vm_compute; reflexivity|]. exists (mkControl false false (Some "lost"%string)).
  split; [vm_compute; reflexivity|right; by eexists].
Defined.

(** Two threads that both pass the check before either is counted: with a limit
    of one, two transfers run. *)
Example permits_exceed_limit :
  let w := default World_new (run_sections [SApplySettings (mkSettings 1 0 4); SPermitCheck; SPermitCheck;
    SPermitAcquire; SPermitCount; SPermitAcquire; SPermitCount] World_new) in
  max_concurrent (mgr w) = 1 /\ active_count (mgr w) = 2.
Proof. by vm_compute. Qed.

(** A registration that read the state before the shutdown and inserts after its
    sweep leaves a pending transfer in a manager that has stopped. *)
Example late_registration_pending :
  let w := default World_new (run_sections [SPrepare 1 sample_transfer; SShutdownBegin; SShutdownCollect;
    SShutdownBackground 2; SShutdownStop; SInsert] World_new) in
  shutdown_state (mgr w) = TRANSFER_MANAGER_STOPPED
  /\ bt_state <$> background_transfers (mgr w) !! "t"%string = Some Pending.
Proof. by vm_compute. Qed.
