(* ===== verification/NodeEvents.v ===== *)
(** * Node events

    Model of [crates/hapcli-ssh/src/router/events.rs], with the event and
    readiness types of [router.rs] and the states of
    [connection_registry.rs]: the per-node generation counters, the map from
    connections to nodes and the delivery of events to subscribers.  A
    subscriber with a bounded mailbox gets "level" events coalesced and dropped
    when it is slow, and "reliable" ones always.  A [NodeId] is its string; the
    clock reading of a time stamp is an argument. *)
From S2P Require Import Prelude.
From stdpp Require Import prelude list numbers gmap strings sorting.
Open Scope Z_scope.

(** ** Data *)

Inductive ConnectionState :=
| Connecting | Active | Idle | LinkDown | Reconnecting | Disconnecting | Disconnected
| CsError (error : string).
#[export] Instance ConnectionState_eq_dec : EqDecision ConnectionState.
Proof. solve_decision. Defined.

Inductive NodeReadiness := NrReady | NrConnecting | NrError | NrDisconnected.
#[export] Instance NodeReadiness_eq_dec : EqDecision NodeReadiness.
Proof. solve_decision. Defined.

Inductive NodeStateEvent :=
| ConnectionStatusChanged (connection_id status : string) (affected_children : list string) (timestamp : Z)
| ConnectionStateChanged (node_id : string) (generation : Z) (state : NodeReadiness) (reason : string)
| SftpReady (node_id : string) (generation : Z) (ready : bool) (cwd : option string)
| SharedSftpSessionChanged (node_id : string) (generation : Z) (connection_id : string)
    (session_generation : option Z) (ready : bool)
| TerminalEndpointChanged (node_id : string) (generation : Z) (available : bool).
#[export] Instance NodeStateEvent_eq_dec : EqDecision NodeStateEvent.
Proof. solve_decision. Defined.

Definition readiness_for_connection_state (state : ConnectionState) : NodeReadiness :=
  match state with
  | Active | Idle => NrReady
  | Connecting | Reconnecting => NrConnecting
  | CsError _ | LinkDown => NrError
  | Disconnecting | Disconnected => NrDisconnected
  end.

Definition node_event_coalesce_key (event : NodeStateEvent) : string * Z :=
  match event with
  | ConnectionStatusChanged connection_id _ _ _ => (connection_id, 0)
  | ConnectionStateChanged node_id _ _ _ => (node_id, 1)
  | SftpReady node_id _ _ _ => (node_id, 2)
  | TerminalEndpointChanged node_id _ _ => (node_id, 3)
  | SharedSftpSessionChanged node_id _ _ _ _ => (node_id, 4)
  end.

Definition node_event_requires_reliable_delivery (event : NodeStateEvent) : bool :=
  match event with
  | ConnectionStatusChanged _ status _ _ =>
      bool_decide (status = "link_down"%string) || bool_decide (status = "disconnected"%string)
  | ConnectionStateChanged _ _ state _ => bool_decide (state = NrError) || bool_decide (state = NrDisconnected)
  | SharedSftpSessionChanged _ _ _ _ _ => true
  | SftpReady _ _ _ _ | TerminalEndpointChanged _ _ _ => false
  end.

(** A bounded mailbox; its wake-up callback is not modelled. *)
Record NodeEventMailbox := mkMailbox { mb_queue : list NodeStateEvent; mb_capacity : Z }.

(** An [mpsc] subscriber: whether its receiver is alive, and what it was sent. *)
Record Listener := mkListener { ls_alive : bool; ls_sent : list NodeStateEvent }.

(** The emitter.  A mailbox is kept alive by its receiver; the emitter holds a
    weak reference, so [mailboxes] are those whose receiver lives and
    [mailbox_listeners] the subscriptions. *)
Record NodeEventEmitter := mkEmitter {
  generations : gmap string Z;
  connection_nodes : gmap string string;
  listeners : list Listener;
  mailbox_listeners : gset nat;
  mailboxes : gmap nat NodeEventMailbox;
  next_listener_id : nat
}.

Definition NodeEventEmitter_new : NodeEventEmitter := mkEmitter ∅ ∅ [] ∅ ∅ 0.

(** ** The sequencer *)

Definition sequencer_current (node_id : string) (e : NodeEventEmitter) : Z := default 0 (generations e !! node_id).
Definition sequencer_next (node_id : string) (e : NodeEventEmitter) : Z * NodeEventEmitter :=
  let generation := sequencer_current node_id e + 1 in
  (generation, mkEmitter (<[node_id := generation]> (generations e)) (connection_nodes e) (listeners e)
                 (mailbox_listeners e) (mailboxes e) (next_listener_id e)).
Definition sequencer_reset (node_id : string) (e : NodeEventEmitter) : NodeEventEmitter :=
  mkEmitter (delete node_id (generations e)) (connection_nodes e) (listeners e) (mailbox_listeners e) (mailboxes e)
    (next_listener_id e).

(** ** Subscriptions *)

Definition subscribe (e : NodeEventEmitter) : NodeEventEmitter :=
  mkEmitter (generations e) (connection_nodes e) (listeners e ++ [mkListener true []]) (mailbox_listeners e)
    (mailboxes e) (next_listener_id e).

(** [None] is the failed assertion. *)
Definition subscribe_bounded (capacity : Z) (e : NodeEventEmitter) : option (nat * NodeEventEmitter) :=
  if 0 <? capacity then
    let id := next_listener_id e in
    Some (id, mkEmitter (generations e) (connection_nodes e) (listeners e) ({[id]} ∪ mailbox_listeners e)
                (<[id := mkMailbox [] capacity]> (mailboxes e)) (S id))
  else None.

(** Dropping the subscription and dropping the receiver. *)
Definition drop_subscription (id : nat) (e : NodeEventEmitter) : NodeEventEmitter :=
  mkEmitter (generations e) (connection_nodes e) (listeners e) (mailbox_listeners e ∖ {[id]}) (mailboxes e)
    (next_listener_id e).
Definition drop_receiver (id : nat) (e : NodeEventEmitter) : NodeEventEmitter :=
  mkEmitter (generations e) (connection_nodes e) (listeners e) (mailbox_listeners e) (delete id (mailboxes e))
    (next_listener_id e).

Definition mailbox_try_recv (m : NodeEventMailbox) : option NodeStateEvent * NodeEventMailbox :=
  match mb_queue m with
  | [] => (None, m)
  | event :: queue => (Some event, mkMailbox queue (mb_capacity m))
  end.
Definition try_recv (id : nat) (e : NodeEventEmitter) : option NodeStateEvent * NodeEventEmitter :=
  match mailboxes e !! id with
  | None => (None, e)
  | Some m => let '(event, m) := mailbox_try_recv m in
      (event, mkEmitter (generations e) (connection_nodes e) (listeners e) (mailbox_listeners e)
                (<[id := m]> (mailboxes e)) (next_listener_id e))
  end.

(** ** Dispatch *)

(** [VecDeque::remove] of the first element that satisfies a test, if any. *)
Fixpoint remove_first {A} (p : A -> bool) (l : list A) : list A :=
  match l with
  | [] => []
  | a :: l => if p a then l else a :: remove_first p l
  end.

(** The test by which a queued event is replaced by a new one. *)
Definition coalesces (event queued : NodeStateEvent) : bool :=
  negb (node_event_requires_reliable_delivery queued)
  && bool_decide (node_event_coalesce_key queued = node_event_coalesce_key event).

Definition mailbox_dispatch (event : NodeStateEvent) (m : NodeEventMailbox) : NodeEventMailbox :=
  let queue := mb_queue m in
  if existsb (fun queued => bool_decide (queued = event)) queue then m
  else
    let queue := if negb (node_event_requires_reliable_delivery event)
                 then remove_first (coalesces event) queue else queue in
    let queue := if mb_capacity m <=? zlen queue
                 then remove_first (fun queued => negb (node_event_requires_reliable_delivery queued)) queue
                 else queue in
    mkMailbox (queue ++ [event]) (mb_capacity m).

Definition dispatch (event : NodeStateEvent) (e : NodeEventEmitter) : NodeEventEmitter :=
  mkEmitter (generations e) (connection_nodes e)
    (map (fun l => mkListener true (ls_sent l ++ [event])) (List.filter ls_alive (listeners e)))
    (filter (fun id => is_Some (mailboxes e !! id)) (mailbox_listeners e))
    (map_imap (fun id m => Some (if decide (id ∈ mailbox_listeners e) then mailbox_dispatch event m else m)) (mailboxes e))
    (next_listener_id e).

Definition emit (event : NodeStateEvent) (e : NodeEventEmitter) : NodeEventEmitter := dispatch event e.

Definition register (connection_id node_id : string) (e : NodeEventEmitter) : NodeEventEmitter :=
  mkEmitter (generations e) (<[connection_id := node_id]> (connection_nodes e)) (listeners e) (mailbox_listeners e)
    (mailboxes e) (next_listener_id e).
Definition unregister (connection_id : string) (e : NodeEventEmitter) : option string * NodeEventEmitter :=
  (connection_nodes e !! connection_id,
   mkEmitter (generations e) (delete connection_id (connection_nodes e)) (listeners e) (mailbox_listeners e)
     (mailboxes e) (next_listener_id e)).
Definition node_id_for_connection (connection_id : string) (e : NodeEventEmitter) : option string :=
  connection_nodes e !! connection_id.

(** An event of the node of a connection: the next generation, and delivery. *)
Definition emit_for_node (connection_id : string) (event : string -> Z -> NodeStateEvent) (e : NodeEventEmitter)
    : option NodeStateEvent * NodeEventEmitter :=
  match node_id_for_connection connection_id e with
  | None => (None, e)
  | Some node_id =>
      let '(generation, e) := sequencer_next node_id e in
      (Some (event node_id generation), dispatch (event node_id generation) e)
  end.

Definition emit_connection_state_changed (connection_id : string) (state : NodeReadiness) (reason : string)
    (e : NodeEventEmitter) : option NodeStateEvent * NodeEventEmitter :=
  emit_for_node connection_id (fun node generation => ConnectionStateChanged node generation state reason) e.

Definition emit_state_from_connection (connection_id : string) (connection_state : ConnectionState) (reason : string)
    (e : NodeEventEmitter) : option NodeStateEvent * NodeEventEmitter :=
  let reason := match connection_state with
                | CsError error => if bool_decide (reason = ""%string) then error
                                   else (reason ++ ": " ++ error)%string
                | LinkDown => if bool_decide (reason = ""%string) then "link down"%string else reason
                | _ => reason
                end in
  emit_connection_state_changed connection_id (readiness_for_connection_state connection_state) reason e.

Definition emit_connection_status_changed (now_ms : Z) (connection_id status : string)
    (affected_children : list string) (e : NodeEventEmitter) : NodeStateEvent * NodeEventEmitter :=
  let event := ConnectionStatusChanged connection_id status affected_children now_ms in (event, dispatch event e).

Definition emit_sftp_ready (connection_id : string) (ready : bool) (cwd : option string) (e : NodeEventEmitter)
    : option NodeStateEvent * NodeEventEmitter :=
  emit_for_node connection_id (fun node generation => SftpReady node generation ready cwd) e.

Definition emit_terminal_endpoint_changed (connection_id : string) (available : bool) (e : NodeEventEmitter)
    : option NodeStateEvent * NodeEventEmitter :=
  emit_for_node connection_id (fun node generation => TerminalEndpointChanged node generation available) e.

(** ** A mailbox over time *)

Abbreviation reliable := node_event_requires_reliable_delivery.
Abbreviation level := (fun event => negb (node_event_requires_reliable_delivery event)).

Section RemoveFirst.
Context {A : Type} (p : A -> bool).

Lemma remove_first_sublist l : remove_first p l `sublist_of` l.
Proof.
  induction l as [|a l IH]; simpl; [done|]. destruct (p a); [by apply sublist_cons|by apply sublist_skip].
Qed.

Lemma remove_first_keeps l a : a ∈ l -> p a = false -> a ∈ remove_first p l.
Proof.
  induction l as [|b l IH]; simpl; intros Hin Ha; [done|]. apply elem_of_cons in Hin as [->|Hin].
  - rewrite Ha. apply elem_of_cons. by left.
  - destruct (p b); [done|]. apply elem_of_cons. right. by apply IH.
Qed.

Lemma remove_first_none l : existsb p l = false -> remove_first p l = l.
Proof. induction l as [|a l IH]; simpl; [done|]. destruct (p a); [done|]. intros H. by rewrite IH. Qed.

Lemma remove_first_length l :
  length (remove_first p l) = if existsb p l then (length l - 1)%nat else length l.
Proof.
  induction l as [|a l IH]; [done|]. simpl. destruct (p a); simpl; [lia|]. rewrite IH.
  destruct (existsb p l) eqn:He; [|done]. destruct l; [done|simpl; lia].
Qed.

Lemma remove_first_filter (q : A -> bool) l : (forall a, p a = true -> q a = true) ->
  length (List.filter q (remove_first p l))
  = if existsb p l then (length (List.filter q l) - 1)%nat else length (List.filter q l).
Proof.
  intros Hpq. induction l as [|a l IH]; [done|]. simpl. destruct (p a) eqn:Hp; simpl.
  - rewrite (Hpq a Hp). simpl. lia.
  - destruct (q a) eqn:Hq; simpl; rewrite IH; destruct (existsb p l) eqn:He; try done.
    assert (length (List.filter q l) <> 0)%nat; [|lia].
    apply existsb_exists in He as (x & Hx & Hpx). intros H0. apply length_zero_iff_nil in H0.
    assert (Hin : In x (List.filter q l)) by (apply filter_In; auto). rewrite H0 in Hin. done.
Qed.
End RemoveFirst.

Lemma sublist_filter {A} (q : A -> bool) (l k : list A) :
  l `sublist_of` k -> List.filter q l `sublist_of` List.filter q k.
Proof.
  induction 1 as [|x l k H IH|x l k H IH]; simpl; [done| |]; destruct (q x);
    [by apply sublist_skip|done|by apply sublist_cons|done].
Qed.

Lemma sublist_map {A B} (f : A -> B) (l k : list A) : l `sublist_of` k -> map f l `sublist_of` map f k.
Proof. induction 1; simpl; [done|by apply sublist_skip|by apply sublist_cons]. Qed.

(** What happened to a mailbox: deliveries and receipts. *)
Inductive mailbox_op := MDispatch (event : NodeStateEvent) | MRecv.

Fixpoint run_mailbox (ops : list mailbox_op) (m : NodeEventMailbox) : list NodeStateEvent * NodeEventMailbox :=
  match ops with
  | [] => ([], m)
  | MDispatch event :: ops => run_mailbox ops (mailbox_dispatch event m)
  | MRecv :: ops =>
      let '(event, m) := mailbox_try_recv m in
      let '(received, m) := run_mailbox ops m in (option_list event ++ received, m)
  end.
Definition dispatched (ops : list mailbox_op) : list NodeStateEvent :=
  omap (fun op => match op with MDispatch event => Some event | MRecv => None end) ops.

Definition level_keys (queue : list NodeStateEvent) : list (string * Z) :=
  map node_event_coalesce_key (List.filter level queue).

Record queue_ok (m : NodeEventMailbox) : Prop := mkQueueOk {
  qo_keys : NoDup (level_keys (mb_queue m));
  qo_bound : zlen (mb_queue m) <= mb_capacity m \/ (length (List.filter level (mb_queue m)) <= 1)%nat;
  qo_capacity : 0 < mb_capacity m
}.

(** The queue that a new event is appended to. *)
Definition room_for (event : NodeStateEvent) (m : NodeEventMailbox) : list NodeStateEvent :=
  let queue := if level event then remove_first (coalesces event) (mb_queue m) else mb_queue m in
  if mb_capacity m <=? zlen queue then remove_first level queue else queue.

Lemma mailbox_dispatch_cases event m :
  (event ∈ mb_queue m /\ mailbox_dispatch event m = m)
  \/ (~ (event ∈ mb_queue m) /\ mailbox_dispatch event m = mkMailbox (room_for event m ++ [event]) (mb_capacity m)).
Proof.
  unfold mailbox_dispatch, room_for. destruct (existsb _ (mb_queue m)) eqn:He.
  - left. apply existsb_exists in He as (x & Hx & <-%bool_decide_eq_true). split; [by apply list_elem_of_In|done].
  - right. split; [|done]. intros Hin. apply not_true_iff_false in He. apply He, existsb_exists.
    exists event. split; [by apply list_elem_of_In|by apply bool_decide_eq_true].
Qed.

Lemma room_for_sublist event m : room_for event m `sublist_of` mb_queue m.
Proof.
  unfold room_for. destruct (level event); destruct (_ <=? _); try done; try apply remove_first_sublist.
  etrans; apply remove_first_sublist.
Qed.

Lemma room_for_reliable event m x : x ∈ mb_queue m -> reliable x = true -> x ∈ room_for event m.
Proof.
  intros Hx Hr. unfold room_for.
  assert (H1 : x ∈ (if level event then remove_first (coalesces event) (mb_queue m) else mb_queue m)).
  { destruct (level event); [|done]. apply remove_first_keeps; [done|]. unfold coalesces. by rewrite Hr. }
  destruct (_ <=? _); [|done]. apply remove_first_keeps; [done|]. by rewrite Hr.
Qed.

Lemma coalesced_key_gone event queue :
  NoDup (level_keys queue) -> node_event_coalesce_key event ∉ level_keys (remove_first (coalesces event) queue).
Proof.
  unfold level_keys. induction queue as [|x queue IH]; intros Hnd; [by apply not_elem_of_nil|].
  cbn [remove_first]. cbn [List.filter] in Hnd. unfold coalesces at 1. destruct (level x) eqn:Hx; cbn [andb].
  - cbn [map] in Hnd. apply NoDup_cons in Hnd as [Hni Hnd]. case_bool_decide as Hk.
    + by rewrite <-Hk.
    + cbn [List.filter]. rewrite Hx. cbn [map]. apply not_elem_of_cons. split; [by intros ?|by apply IH].
  - cbn [List.filter]. rewrite Hx. by apply IH.
Qed.

Lemma queue_ok_dispatch event m : queue_ok m -> queue_ok (mailbox_dispatch event m).
Proof.
  intros Hok. destruct (mailbox_dispatch_cases event m) as [[_ ->]|[_ ->]]; [done|].
  destruct Hok as [Hk Hb Hc]. split; cbn [mb_queue mb_capacity]; [| |done].
  - unfold level_keys. rewrite List.filter_app, map_app. cbn [List.filter].
    assert (Hsub : NoDup (level_keys (room_for event m))).
    { eapply sublist_NoDup; [exact Hk|]. apply sublist_map, sublist_filter, room_for_sublist. }
    destruct (level event) eqn:Hl; cbn [map]; [|by rewrite app_nil_r].
    apply NoDup_app. split; [done|]. split; [|apply NoDup_singleton].
    intros k Hk1 Hk2. apply list_elem_of_singleton in Hk2 as ->.
    eapply (coalesced_key_gone event (mb_queue m)); [done|].
    eapply elem_of_sublist; [exact Hk1|]. apply sublist_map, sublist_filter. unfold room_for. rewrite Hl.
    destruct (_ <=? _); [apply remove_first_sublist|done].
  - unfold room_for. set (q := if level event then remove_first (coalesces event) (mb_queue m) else mb_queue m).
    assert (Hq : zlen q <= mb_capacity m \/ (length (List.filter level q) <= 1)%nat).
    { assert (Hsub : q `sublist_of` mb_queue m) by (unfold q; destruct (level event); [apply remove_first_sublist|done]).
      destruct Hb as [Hb|Hb].
      - left. apply sublist_length in Hsub. unfold zlen in *. lia.
      - right. apply (sublist_filter level), sublist_length in Hsub. lia. }
    clearbody q.
    rewrite List.filter_app, !zlen_app. cbn [List.filter]. destruct (Z.leb_spec (mb_capacity m) (zlen q)) as [Hfull|Hroom].
    + rewrite length_app. pose proof (remove_first_length level q) as Hlen.
      pose proof (remove_first_filter level level q ltac:(done)) as Hfl.
      destruct (existsb level q) eqn:He.
      * assert (length q <> 0)%nat by (by destruct q). destruct Hq as [Hq|Hq].
        -- left. unfold zlen in *. rewrite Hlen. simpl. lia.
        -- right. destruct (level event); simpl; lia.
      * right. assert (length (List.filter level q) = 0%nat).
        { apply length_zero_iff_nil. destruct (List.filter level q) as [|x k] eqn:Hx; [done|].
          assert (Hin : In x (List.filter level q)) by (rewrite Hx; by left). apply filter_In in Hin as [Hin Hlx].
          apply not_true_iff_false in He. exfalso. apply He, existsb_exists. by exists x. }
        destruct (level event); simpl; lia.
    + left. unfold zlen in *. simpl. lia.
Qed.

Lemma mailbox_dispatch_sublist event m : mb_queue (mailbox_dispatch event m) `sublist_of` mb_queue m ++ [event].
Proof.
  destruct (mailbox_dispatch_cases event m) as [[_ ->]|[_ ->]]; [by apply sublist_inserts_r|].
  apply sublist_app; [apply room_for_sublist|done].
Qed.

Lemma mailbox_dispatch_newest event m : event ∈ mb_queue (mailbox_dispatch event m).
Proof.
  destruct (mailbox_dispatch_cases event m) as [[H ->]|[_ ->]]; [done|].
  apply elem_of_app. right. by apply list_elem_of_singleton.
Qed.

Lemma mailbox_dispatch_reliable event m x :
  x ∈ mb_queue m -> reliable x = true -> x ∈ mb_queue (mailbox_dispatch event m).
Proof.
  intros Hx Hr. destruct (mailbox_dispatch_cases event m) as [[_ ->]|[_ ->]]; [done|].
  apply elem_of_app. left. by apply room_for_reliable.
Qed.

Lemma run_mailbox_spec ops m :
  let '(received, m') := run_mailbox ops m in
  received ++ mb_queue m' `sublist_of` mb_queue m ++ dispatched ops
  /\ (forall x, x ∈ mb_queue m ++ dispatched ops -> reliable x = true -> x ∈ received ++ mb_queue m')
  /\ (queue_ok m -> queue_ok m').
Proof.
  revert m. induction ops as [|[event|] ops IH]; intros m; cbn [run_mailbox].
  - split_and!; [by rewrite app_nil_r|intros x; by rewrite app_nil_r|done].
  - specialize (IH (mailbox_dispatch event m)). destruct (run_mailbox ops _) as [received m'].
    destruct IH as (H1 & H2 & H3). change (dispatched (MDispatch event :: ops)) with (event :: dispatched ops). split_and!.
    + etrans; [exact H1|]. rewrite (cons_middle event). rewrite (app_assoc (mb_queue m)).
      apply sublist_app; [apply mailbox_dispatch_sublist|done].
    + intros x Hx Hr. apply H2; [|done]. apply elem_of_app in Hx as [Hx|Hx]; apply elem_of_app.
      * left. by apply mailbox_dispatch_reliable.
      * apply elem_of_cons in Hx as [->|Hx]; [left; apply mailbox_dispatch_newest|by right].
    + intros Hok. by apply H3, queue_ok_dispatch.
  - unfold mailbox_try_recv. change (dispatched (MRecv :: ops)) with (dispatched ops).
    destruct (mb_queue m) as [|h queue] eqn:Hq.
    + specialize (IH m). destruct (run_mailbox ops m) as [received m']. rewrite Hq in IH. exact IH.
    + specialize (IH (mkMailbox queue (mb_capacity m))). destruct (run_mailbox ops _) as [received m']. cbn [mb_queue] in IH.
      destruct IH as (H1 & H2 & H3). cbn [option_list app]. split_and!.
      * by apply sublist_skip.
      * intros x [->|Hx]%elem_of_cons Hr; apply elem_of_cons; [by left|right; by apply H2].
      * intros [Hk Hb Hc]. apply H3. rewrite Hq in *. split; cbn [mb_queue mb_capacity]; [| |done].
        -- unfold level_keys in *. simpl in Hk. destruct (level h); [by inversion Hk|done].
        -- destruct Hb as [Hb|Hb]; [left; rewrite zlen_cons in Hb; lia|right].
           simpl in Hb. destruct (level h); simpl in Hb; lia.
Qed.

(** ** The emitter over time *)

Inductive emitter_op :=
| EState (connection_id : string) (state : ConnectionState) (reason : string)
| EStatus (now_ms : Z) (connection_id status : string) (children : list string)
| ESftpReady (connection_id : string) (ready : bool) (cwd : option string)
| ETerminal (connection_id : string) (available : bool)
| ERegister (connection_id node_id : string)
| EUnregister (connection_id : string)
| ESubscribe
| ESubscribeBounded (capacity : Z)
| EDropSubscription (id : nat)
| EDropReceiver (id : nat)
| ERecv (id : nat).

(** The operation, and what it hands to a receiver. *)
Definition run_emitter_op (op : emitter_op) (e : NodeEventEmitter) : option (nat * NodeStateEvent) * NodeEventEmitter :=
  match op with
  | EState c s r => (None, snd (emit_state_from_connection c s r e))
  | EStatus now c s k => (None, snd (emit_connection_status_changed now c s k e))
  | ESftpReady c r d => (None, snd (emit_sftp_ready c r d e))
  | ETerminal c a => (None, snd (emit_terminal_endpoint_changed c a e))
  | ERegister c n => (None, register c n e)
  | EUnregister c => (None, snd (unregister c e))
  | ESubscribe => (None, subscribe e)
  | ESubscribeBounded capacity => (None, match subscribe_bounded capacity e with Some (_, e) => e | None => e end)
  | EDropSubscription id => (None, drop_subscription id e)
  | EDropReceiver id => (None, drop_receiver id e)
  | ERecv id => let '(event, e) := try_recv id e in (pair id <$> event, e)
  end.
Fixpoint run_emitter (ops : list emitter_op) (e : NodeEventEmitter) : list (nat * NodeStateEvent) * NodeEventEmitter :=
  match ops with
  | [] => ([], e)
  | op :: ops =>
      let '(got, e) := run_emitter_op op e in
      let '(rest, e) := run_emitter ops e in (option_list got ++ rest, e)
  end.

(** The events that the receiver of a mailbox has got or will get. *)
Definition got_by (id : nat) (log : list (nat * NodeStateEvent)) : list NodeStateEvent :=
  omap (fun p => if decide (p.1 = id) then Some p.2 else None) log.
Definition queue_of (id : nat) (e : NodeEventEmitter) : list NodeStateEvent :=
  match mailboxes e !! id with Some m => mb_queue m | None => [] end.
(** The generations of a node's events. *)
Definition event_generation (node : string) (event : NodeStateEvent) : option Z :=
  match event with
  | ConnectionStatusChanged _ _ _ _ => None
  | ConnectionStateChanged n g _ _ | SftpReady n g _ _ | SharedSftpSessionChanged n g _ _ _
  | TerminalEndpointChanged n g _ => if decide (n = node) then Some g else None
  end.
Definition node_generations (node : string) (l : list NodeStateEvent) : list Z := omap (event_generation node) l.

(** Strictly increasing, and not above the node's counter. *)
Definition generations_ok (seen : list NodeStateEvent) (e : NodeEventEmitter) : Prop :=
  forall node, StronglySorted Z.lt (node_generations node seen)
    /\ Forall (fun g => g <= sequencer_current node e) (node_generations node seen).

Lemma sublist_omap {A B} (f : A -> option B) (l k : list A) : l `sublist_of` k -> omap f l `sublist_of` omap f k.
Proof.
  induction 1 as [|x l k H IH|x l k H IH]; simpl; [done| |]; destruct (f x);
    [by apply sublist_skip|done|by apply sublist_cons|done].
Qed.

Lemma sublist_sorted (l k : list Z) : l `sublist_of` k -> StronglySorted Z.lt k -> StronglySorted Z.lt l.
Proof.
  induction 1 as [|x l k H IH|x l k H IH]; intros Hs; [done| |]; inversion Hs as [|? ? H1 H2]; subst; [|by apply IH].
  constructor; [by apply IH|]. apply Forall_forall; intros y Hy; rewrite Forall_forall in H2; apply H2; by eapply elem_of_sublist.
Qed.

Lemma generations_ok_sublist l k e : l `sublist_of` k -> generations_ok k e -> generations_ok l e.
Proof.
  intros Hs Hok node. destruct (Hok node) as [H1 H2]. split.
  - eapply sublist_sorted; [by apply sublist_omap|done].
  - apply Forall_forall. intros y Hy. rewrite Forall_forall in H2. apply H2. eapply elem_of_sublist; [exact Hy|by apply sublist_omap].
Qed.

(** A new event of a node, with the next generation. *)
Lemma generations_ok_next l e n event :
  event_generation n event = Some (sequencer_current n e + 1) ->
  (forall m, m <> n -> event_generation m event = None) ->
  generations_ok l e -> generations_ok (l ++ [event]) (snd (sequencer_next n e)).
Proof.
  intros Hn Hm Hok node. destruct (Hok node) as [H1 H2]. unfold node_generations. rewrite omap_app. simpl.
  unfold sequencer_current, sequencer_next. cbn [snd generations]. destruct (decide (node = n)) as [->|Hne].
  - rewrite Hn, lookup_insert_eq. cbn [default]. split.
    + apply StronglySorted_app_2; [|done|by repeat constructor]. intros x1 x2 Hx1 ->%list_elem_of_singleton.
      rewrite Forall_forall in H2. specialize (H2 x1 Hx1). unfold sequencer_current in *. lia.
    + apply Forall_app. split; [|constructor; [unfold sequencer_current; cbn; lia|done]].
      eapply Forall_impl; [exact H2|]. unfold sequencer_current. cbn. lia.
  - rewrite Hm by done. rewrite lookup_insert_ne, app_nil_r by done. done.
Qed.

Lemma dispatch_queue id event e : queue_of id (dispatch event e) `sublist_of` queue_of id e ++ [event].
Proof.
  unfold queue_of. cbn [dispatch mailboxes]. rewrite map_lookup_imap.
  destruct (mailboxes e !! id) as [m|]; cbn; [|by apply sublist_nil_l].
  destruct (decide _); [apply mailbox_dispatch_sublist|by apply sublist_inserts_r].
Qed.

Lemma generations_ok_same l e e' : generations e' = generations e -> generations_ok l e -> generations_ok l e'.
Proof. intros Hg Hok node. unfold sequencer_current. rewrite Hg. apply Hok. Qed.

Lemma generations_ok_dispatch R id event e e1 :
  generations_ok ((R ++ queue_of id e) ++ [event]) e1 ->
  mailboxes e1 = mailboxes e -> generations_ok (R ++ queue_of id (dispatch event e1)) (dispatch event e1).
Proof.
  intros Hok Hm. apply (generations_ok_same _ e1); [done|]. eapply generations_ok_sublist; [|exact Hok].
  rewrite <-app_assoc. apply sublist_app; [done|]. etrans; [apply dispatch_queue|]. unfold queue_of. by rewrite Hm.
Qed.

Lemma emit_for_node_ok R id c f e :
  (forall n g, event_generation n (f n g) = Some g) -> (forall n m g, m <> n -> event_generation m (f n g) = None) ->
  generations_ok (R ++ queue_of id e) e ->
  generations_ok (R ++ queue_of id (snd (emit_for_node c f e))) (snd (emit_for_node c f e)).
Proof.
  intros Hf Hf' Hok. unfold emit_for_node. destruct (node_id_for_connection c e) as [n|]; [|done].
  apply (generations_ok_dispatch R id _ e (snd (sequencer_next n e))); [|done].
  apply generations_ok_next; [apply Hf|intros m Hm; by apply Hf'|done].
Qed.

Ltac by_event := intros; cbn [event_generation]; by destruct (decide _).

Lemma emitter_op_ok R id op e : generations_ok (R ++ queue_of id e) e ->
  let '(got, e') := run_emitter_op op e in generations_ok (R ++ got_by id (option_list got) ++ queue_of id e') e'.
Proof.
  intros Hok. destruct op; cbn [run_emitter_op option_list got_by app]; try done.
  - by apply emit_for_node_ok; [by_event|by_event|].
  - apply (generations_ok_dispatch R id _ e e); [|done]. intros node. destruct (Hok node) as [H1 H2].
    unfold node_generations. rewrite omap_app, app_nil_r. by split.
  - by apply emit_for_node_ok; [by_event|by_event|].
  - by apply emit_for_node_ok; [by_event|by_event|].
  - unfold subscribe_bounded. destruct (_ <? _); [|done]. eapply generations_ok_same; [|eapply generations_ok_sublist; [|exact Hok]]; [done|].
    apply sublist_app; [done|]. unfold queue_of. cbn [mailboxes].
    destruct (decide (id = next_listener_id e)) as [->|Hne]; [rewrite lookup_insert_eq; apply sublist_nil_l|].
    by rewrite lookup_insert_ne.
  - eapply generations_ok_same; [|eapply generations_ok_sublist; [|exact Hok]]; [done|].
    apply sublist_app; [done|]. unfold queue_of. cbn [mailboxes drop_receiver].
    destruct (decide (id = id0)) as [->|Hne]; [rewrite lookup_delete_eq; apply sublist_nil_l|].
    by rewrite lookup_delete_ne.
  - unfold try_recv. destruct (mailboxes e !! id0) as [m|] eqn:Hm; [|done].
    unfold mailbox_try_recv. destruct (mb_queue m) as [|h queue] eqn:Hq;
      (eapply generations_ok_same; [|eapply generations_ok_sublist; [|exact Hok]]; [done|]); cbn [fmap option_fmap option_map option_list].
    + apply sublist_app; [done|]. unfold queue_of. cbn. destruct (decide (id = id0)) as [->|Hne];
        [by rewrite lookup_insert_eq, Hm|by rewrite lookup_insert_ne].
    + apply sublist_app; [done|]. unfold queue_of, got_by. cbn. destruct (decide (id0 = id)) as [->|Hne].
      * by rewrite lookup_insert_eq, Hm, Hq.
      * by rewrite lookup_insert_ne.
Qed.

Lemma run_emitter_ok R id ops e : generations_ok (R ++ queue_of id e) e ->
  let '(log, e') := run_emitter ops e in generations_ok (R ++ got_by id log ++ queue_of id e') e'.
Proof.
  revert R e. induction ops as [|op ops IH]; intros R e Hok; cbn [run_emitter]; [done|].
  pose proof (emitter_op_ok R id op e Hok) as H1. destruct (run_emitter_op op e) as [got e1].
  rewrite app_assoc in H1. specialize (IH _ _ H1). destruct (run_emitter ops e1) as [log e2].
  unfold got_by in *. rewrite omap_app, <-!app_assoc in *. done.
Qed.

(** ** Theorems *)

(** what a bounded mailbox delivers, for every sequence of deliveries and
    receipts: the events received and still queued are a subsequence, in order,
    of those dispatched; no reliable event (link down, disconnect, error, shared
    session change) is ever lost; at most one level event per subject is queued;
    and the queue stays within its capacity unless it holds reliable events
    beyond it, with at most one level event. *)
Theorem mailbox_delivery (capacity : Z) (ops : list mailbox_op) :
  0 < capacity ->
  let '(received, m) := run_mailbox ops (mkMailbox [] capacity) in
  received ++ mb_queue m `sublist_of` dispatched ops
  /\ (forall event, event ∈ dispatched ops -> reliable event = true -> event ∈ received ++ mb_queue m)
  /\ queue_ok m.
Proof.
  intros Hc. pose proof (run_mailbox_spec ops (mkMailbox [] capacity)) as H.
  destruct (run_mailbox ops _) as [received m]. destruct H as (H1 & H2 & H3).
  split; [exact H1|]. split; [exact H2|]. apply H3. split; cbn; [constructor|left; unfold zlen; simpl; lia|done].
Qed.

Lemma mailbox_delivery_witness :
  let ops := [MDispatch (ConnectionStateChanged "a" 1 NrError "x"); MDispatch (ConnectionStateChanged "a" 2 NrConnecting "");
              MDispatch (SftpReady "a" 3 true None); MRecv; MDispatch (ConnectionStateChanged "a" 4 NrReady "")] in
  run_mailbox ops (mkMailbox [] 1)
    = ([ConnectionStateChanged "a" 1 NrError "x"], mkMailbox [ConnectionStateChanged "a" 4 NrReady ""] 1)
  /\ queue_ok (mkMailbox [ConnectionStateChanged "a" 4 NrReady ""] 1).
Proof.
  intros ops. split; [vm_compute; reflexivity|].
  exact (proj2 (proj2 (mailbox_delivery 1 ops eq_refl))).
Defined.

(** the events of a node that a subscriber has received or has waiting carry
    strictly increasing generations, across all kinds of events, whatever
    operations the emitter performs and however slowly the subscriber reads. *)
Theorem node_events_ordered (ops : list emitter_op) (id : nat) (node : string) :
  let '(log, e) := run_emitter ops NodeEventEmitter_new in
  StronglySorted Z.lt (node_generations node (got_by id log ++ queue_of id e)).
Proof.
  pose proof (run_emitter_ok [] id ops NodeEventEmitter_new) as H.
  destruct (run_emitter ops NodeEventEmitter_new) as [log e]. apply H. intros n. split; constructor.
Qed.
