(* ===== verification/ConnRegistry.v ===== *)
(** * The SSH connection registry

    Model of [crates/hapcli-ssh/src/connection_registry.rs]: the pool of SSH
    connections, the consumers that own them, their states, the idle timers and
    the parent links of tunnelled connections.  Entries are [Arc]s that handles
    and tasks keep, so they live in a store and the maps hold references; the
    tasks given to the runtime (idle timers, environment detection) are kept in
    lists until they run.  Events go to the emitter of [NodeEvents].  The clock,
    fresh UUIDs, results of probes and the iteration order of the concurrent map
    are arguments; a [SshConfig] enters with the fields the registry reads and
    the value of its [connection_key]. *)
From S2P Require Import Prelude NodeEvents.
From stdpp Require Import prelude list numbers gmap strings.
Open Scope Z_scope.

(** ** Data *)

(** Durations in milliseconds. *)
Definition DEFAULT_IDLE_TIMEOUT : Z := 30 * 60 * 1000.
Definition HEARTBEAT_FAIL_THRESHOLD : Z := 2.

Inductive ConnectionConsumer :=
| Terminal (id : string) | Sftp (id : string) | PortForward (id : string) | X11Forward (id : string)
| Ide (id : string) | NodeRouter (id : string).
#[export] Instance ConnectionConsumer_eq_dec : EqDecision ConnectionConsumer.
Proof. solve_decision. Defined.

Record RemoteEnvInfo := mkEnv {
  os_type : string; os_version : option string; kernel : option string; arch : option string;
  shell : option string; home : option string; zdotdir : option string; xdg_config_home : option string;
  detected_at : Z }.

Inductive ProbeConnectionStatus := Alive | Dead | NotFound | NotApplicable.
Inductive KeepaliveProbeResult := KpOk | KpTimeout | KpIoError.

Record SftpSessionState := mkSftpState { ss_ready : bool; ss_cwd : option string }.
Definition SftpSessionState_default : SftpSessionState := mkSftpState false None.

(** The shared session: nothing, an initialisation begun under a generation, or
    a session. *)
Inductive SharedSftpState := Empty | Initializing (generation : Z) | Ready (session : nat).

Record SshConfig := mkConfig { cfg_host : string; cfg_port : Z; cfg_username : string; connection_key : string }.
Record ConnectionPoolConfig := mkPool { pool_idle_timeout : option Z; max_connections : Z; protect_on_exit : bool }.
Definition ConnectionPoolConfig_default : ConnectionPoolConfig := mkPool (Some DEFAULT_IDLE_TIMEOUT) 128 true.
Record ConnectionPoolStats := mkPoolStats {
  ps_total : Z; ps_active : Z; ps_idle : Z; ps_link_down : Z; ps_reconnecting : Z; ps_disconnected : Z; ps_errored : Z }.

Record ConnectionInfo := mkInfo {
  ci_connection_id : string; ci_key : string; ci_host : string; ci_port : Z; ci_username : string;
  ci_parent_connection_id : option string; ci_state : ConnectionState; ci_ref_count : Z; ci_keep_alive : bool;
  ci_consumers : list ConnectionConsumer; ci_created_at : Z; ci_last_active_at : Z;
  ci_idle_timeout_secs : option Z; ci_remote_env : option RemoteEnvInfo }.

Record ConnectionEntry := mkEntry {
  ce_connection_id : string;
  ce_key : string;
  ce_config : SshConfig;
  ce_parent_connection_id : option string;
  ce_parent_connection_consumer : option ConnectionConsumer;
  ce_state : ConnectionState;
  ce_ref_count : Z;
  ce_keep_alive : bool;
  ce_consumers : list ConnectionConsumer;
  ce_physical : option nat;
  ce_sftp : SharedSftpState;
  ce_sftp_generation : Z;
  ce_sftp_state : SftpSessionState;
  ce_remote_env : option RemoteEnvInfo;
  ce_remote_env_detection_started : bool;
  ce_first_visible_terminal_started : bool;
  ce_heartbeat_failures : Z;
  ce_idle_generation : Z;
  ce_last_emitted_status : option string;
  ce_created_at : Z;
  ce_last_active_at : Z;
  ce_idle_timeout : option Z;
  ce_retire_when_unused : bool
}.

(** Field assignments. *)
Definition with_parent_connection_id v (e : ConnectionEntry) : ConnectionEntry :=
  mkEntry (ce_connection_id e) (ce_key e) (ce_config e) v (ce_parent_connection_consumer e) (ce_state e)
    (ce_ref_count e) (ce_keep_alive e) (ce_consumers e) (ce_physical e) (ce_sftp e) (ce_sftp_generation e)
    (ce_sftp_state e) (ce_remote_env e) (ce_remote_env_detection_started e)
    (ce_first_visible_terminal_started e) (ce_heartbeat_failures e) (ce_idle_generation e)
    (ce_last_emitted_status e) (ce_created_at e) (ce_last_active_at e) (ce_idle_timeout e)
    (ce_retire_when_unused e).
Definition with_parent_connection_consumer v (e : ConnectionEntry) : ConnectionEntry :=
  mkEntry (ce_connection_id e) (ce_key e) (ce_config e) (ce_parent_connection_id e) v (ce_state e)
    (ce_ref_count e) (ce_keep_alive e) (ce_consumers e) (ce_physical e) (ce_sftp e) (ce_sftp_generation e)
    (ce_sftp_state e) (ce_remote_env e) (ce_remote_env_detection_started e)
    (ce_first_visible_terminal_started e) (ce_heartbeat_failures e) (ce_idle_generation e)
    (ce_last_emitted_status e) (ce_created_at e) (ce_last_active_at e) (ce_idle_timeout e)
    (ce_retire_when_unused e).
Definition with_state v (e : ConnectionEntry) : ConnectionEntry :=
  mkEntry (ce_connection_id e) (ce_key e) (ce_config e) (ce_parent_connection_id e)
    (ce_parent_connection_consumer e) v (ce_ref_count e) (ce_keep_alive e) (ce_consumers e) (ce_physical e)
    (ce_sftp e) (ce_sftp_generation e) (ce_sftp_state e) (ce_remote_env e) (ce_remote_env_detection_started e)
    (ce_first_visible_terminal_started e) (ce_heartbeat_failures e) (ce_idle_generation e)
    (ce_last_emitted_status e) (ce_created_at e) (ce_last_active_at e) (ce_idle_timeout e)
    (ce_retire_when_unused e).
Definition with_ownership v0 v1 (e : ConnectionEntry) : ConnectionEntry :=
  mkEntry (ce_connection_id e) (ce_key e) (ce_config e) (ce_parent_connection_id e)
    (ce_parent_connection_consumer e) (ce_state e) v1 (ce_keep_alive e) v0 (ce_physical e) (ce_sftp e)
    (ce_sftp_generation e) (ce_sftp_state e) (ce_remote_env e) (ce_remote_env_detection_started e)
    (ce_first_visible_terminal_started e) (ce_heartbeat_failures e) (ce_idle_generation e)
    (ce_last_emitted_status e) (ce_created_at e) (ce_last_active_at e) (ce_idle_timeout e)
    (ce_retire_when_unused e).
Definition with_keep_alive v (e : ConnectionEntry) : ConnectionEntry :=
  mkEntry (ce_connection_id e) (ce_key e) (ce_config e) (ce_parent_connection_id e)
    (ce_parent_connection_consumer e) (ce_state e) (ce_ref_count e) v (ce_consumers e) (ce_physical e)
    (ce_sftp e) (ce_sftp_generation e) (ce_sftp_state e) (ce_remote_env e) (ce_remote_env_detection_started e)
    (ce_first_visible_terminal_started e) (ce_heartbeat_failures e) (ce_idle_generation e)
    (ce_last_emitted_status e) (ce_created_at e) (ce_last_active_at e) (ce_idle_timeout e)
    (ce_retire_when_unused e).
Definition with_physical v (e : ConnectionEntry) : ConnectionEntry :=
  mkEntry (ce_connection_id e) (ce_key e) (ce_config e) (ce_parent_connection_id e)
    (ce_parent_connection_consumer e) (ce_state e) (ce_ref_count e) (ce_keep_alive e) (ce_consumers e) v
    (ce_sftp e) (ce_sftp_generation e) (ce_sftp_state e) (ce_remote_env e) (ce_remote_env_detection_started e)
    (ce_first_visible_terminal_started e) (ce_heartbeat_failures e) (ce_idle_generation e)
    (ce_last_emitted_status e) (ce_created_at e) (ce_last_active_at e) (ce_idle_timeout e)
    (ce_retire_when_unused e).
Definition with_sftp v0 v1 v2 (e : ConnectionEntry) : ConnectionEntry :=
  mkEntry (ce_connection_id e) (ce_key e) (ce_config e) (ce_parent_connection_id e)
    (ce_parent_connection_consumer e) (ce_state e) (ce_ref_count e) (ce_keep_alive e) (ce_consumers e)
    (ce_physical e) v0 v1 v2 (ce_remote_env e) (ce_remote_env_detection_started e)
    (ce_first_visible_terminal_started e) (ce_heartbeat_failures e) (ce_idle_generation e)
    (ce_last_emitted_status e) (ce_created_at e) (ce_last_active_at e) (ce_idle_timeout e)
    (ce_retire_when_unused e).
Definition with_remote_env v (e : ConnectionEntry) : ConnectionEntry :=
  mkEntry (ce_connection_id e) (ce_key e) (ce_config e) (ce_parent_connection_id e)
    (ce_parent_connection_consumer e) (ce_state e) (ce_ref_count e) (ce_keep_alive e) (ce_consumers e)
    (ce_physical e) (ce_sftp e) (ce_sftp_generation e) (ce_sftp_state e) v (ce_remote_env_detection_started e)
    (ce_first_visible_terminal_started e) (ce_heartbeat_failures e) (ce_idle_generation e)
    (ce_last_emitted_status e) (ce_created_at e) (ce_last_active_at e) (ce_idle_timeout e)
    (ce_retire_when_unused e).
Definition with_remote_env_detection_started v (e : ConnectionEntry) : ConnectionEntry :=
  mkEntry (ce_connection_id e) (ce_key e) (ce_config e) (ce_parent_connection_id e)
    (ce_parent_connection_consumer e) (ce_state e) (ce_ref_count e) (ce_keep_alive e) (ce_consumers e)
    (ce_physical e) (ce_sftp e) (ce_sftp_generation e) (ce_sftp_state e) (ce_remote_env e) v
    (ce_first_visible_terminal_started e) (ce_heartbeat_failures e) (ce_idle_generation e)
    (ce_last_emitted_status e) (ce_created_at e) (ce_last_active_at e) (ce_idle_timeout e)
    (ce_retire_when_unused e).
Definition with_first_visible_terminal_started v (e : ConnectionEntry) : ConnectionEntry :=
  mkEntry (ce_connection_id e) (ce_key e) (ce_config e) (ce_parent_connection_id e)
    (ce_parent_connection_consumer e) (ce_state e) (ce_ref_count e) (ce_keep_alive e) (ce_consumers e)
    (ce_physical e) (ce_sftp e) (ce_sftp_generation e) (ce_sftp_state e) (ce_remote_env e)
    (ce_remote_env_detection_started e) v (ce_heartbeat_failures e) (ce_idle_generation e)
    (ce_last_emitted_status e) (ce_created_at e) (ce_last_active_at e) (ce_idle_timeout e)
    (ce_retire_when_unused e).
Definition with_heartbeat_failures v (e : ConnectionEntry) : ConnectionEntry :=
  mkEntry (ce_connection_id e) (ce_key e) (ce_config e) (ce_parent_connection_id e)
    (ce_parent_connection_consumer e) (ce_state e) (ce_ref_count e) (ce_keep_alive e) (ce_consumers e)
    (ce_physical e) (ce_sftp e) (ce_sftp_generation e) (ce_sftp_state e) (ce_remote_env e)
    (ce_remote_env_detection_started e) (ce_first_visible_terminal_started e) v (ce_idle_generation e)
    (ce_last_emitted_status e) (ce_created_at e) (ce_last_active_at e) (ce_idle_timeout e)
    (ce_retire_when_unused e).
Definition with_idle_generation v (e : ConnectionEntry) : ConnectionEntry :=
  mkEntry (ce_connection_id e) (ce_key e) (ce_config e) (ce_parent_connection_id e)
    (ce_parent_connection_consumer e) (ce_state e) (ce_ref_count e) (ce_keep_alive e) (ce_consumers e)
    (ce_physical e) (ce_sftp e) (ce_sftp_generation e) (ce_sftp_state e) (ce_remote_env e)
    (ce_remote_env_detection_started e) (ce_first_visible_terminal_started e) (ce_heartbeat_failures e) v
    (ce_last_emitted_status e) (ce_created_at e) (ce_last_active_at e) (ce_idle_timeout e)
    (ce_retire_when_unused e).
Definition with_last_emitted_status v (e : ConnectionEntry) : ConnectionEntry :=
  mkEntry (ce_connection_id e) (ce_key e) (ce_config e) (ce_parent_connection_id e)
    (ce_parent_connection_consumer e) (ce_state e) (ce_ref_count e) (ce_keep_alive e) (ce_consumers e)
    (ce_physical e) (ce_sftp e) (ce_sftp_generation e) (ce_sftp_state e) (ce_remote_env e)
    (ce_remote_env_detection_started e) (ce_first_visible_terminal_started e) (ce_heartbeat_failures e)
    (ce_idle_generation e) v (ce_created_at e) (ce_last_active_at e) (ce_idle_timeout e)
    (ce_retire_when_unused e).
Definition with_last_active_at v (e : ConnectionEntry) : ConnectionEntry :=
  mkEntry (ce_connection_id e) (ce_key e) (ce_config e) (ce_parent_connection_id e)
    (ce_parent_connection_consumer e) (ce_state e) (ce_ref_count e) (ce_keep_alive e) (ce_consumers e)
    (ce_physical e) (ce_sftp e) (ce_sftp_generation e) (ce_sftp_state e) (ce_remote_env e)
    (ce_remote_env_detection_started e) (ce_first_visible_terminal_started e) (ce_heartbeat_failures e)
    (ce_idle_generation e) (ce_last_emitted_status e) (ce_created_at e) v (ce_idle_timeout e)
    (ce_retire_when_unused e).

(** ** Entries *)

Definition new_with_key (now : Z) (uuid : string) (config : SshConfig) (key : string) (pool : ConnectionPoolConfig)
    (retire_when_unused : bool) : ConnectionEntry :=
  mkEntry uuid key config None None Connecting 0 false [] None Empty 0 SftpSessionState_default None false false 0 0
    None now now (pool_idle_timeout pool) retire_when_unused.
Definition ConnectionEntry_new (now : Z) (uuid : string) (config : SshConfig) (pool : ConnectionPoolConfig)
    : ConnectionEntry :=
  new_with_key now uuid config (connection_key config) pool false.

Definition info (e : ConnectionEntry) : ConnectionInfo :=
  mkInfo (ce_connection_id e) (ce_key e) (cfg_host (ce_config e)) (cfg_port (ce_config e)) (cfg_username (ce_config e))
    (ce_parent_connection_id e) (ce_state e) (ce_ref_count e) (ce_keep_alive e) (ce_consumers e) (ce_created_at e)
    (ce_last_active_at e) ((fun ms => ms / 1000) <$> ce_idle_timeout e) (ce_remote_env e).

Definition touch (now : Z) (e : ConnectionEntry) : ConnectionEntry := with_last_active_at now e.

Definition ascii_lower (c : Ascii.ascii) : Ascii.ascii :=
  let n := Ascii.N_of_ascii c in if (N.leb 65 n && N.leb n 90)%bool then Ascii.ascii_of_N (n + 32) else c.
Fixpoint string_lower (s : string) : string :=
  match s with String.EmptyString => String.EmptyString | String.String c s => String.String (ascii_lower c) (string_lower s) end.
Definition eq_ignore_ascii_case (s t : string) : bool := bool_decide (string_lower s = string_lower t).

Definition set_remote_env (env : RemoteEnvInfo) (e : ConnectionEntry) : bool * ConnectionEntry :=
  if eq_ignore_ascii_case (os_type env) "unknown" then (false, with_remote_env_detection_started false e)
  else match ce_remote_env e with
       | Some _ => (false, e)
       | None => (true, with_remote_env (Some env) e)
       end.

(** The flag is swapped only when nothing is cached. *)
Definition try_begin_remote_env_detection (e : ConnectionEntry) : bool * ConnectionEntry :=
  match ce_remote_env e with
  | Some _ => (false, e)
  | None => (negb (ce_remote_env_detection_started e), with_remote_env_detection_started true e)
  end.
Definition mark_first_visible_terminal_started (e : ConnectionEntry) : bool * ConnectionEntry :=
  (negb (ce_first_visible_terminal_started e), with_first_visible_terminal_started true e).

Definition reset_heartbeat_failures (e : ConnectionEntry) : ConnectionEntry := with_heartbeat_failures 0 e.
Definition increment_heartbeat_failures (e : ConnectionEntry) : Z * ConnectionEntry :=
  (ce_heartbeat_failures e + 1, with_heartbeat_failures (ce_heartbeat_failures e + 1) e).
Definition cancel_idle_timer (e : ConnectionEntry) : ConnectionEntry := with_idle_generation (ce_idle_generation e + 1) e.

(** ** Handles *)

Definition has_physical (e : ConnectionEntry) : bool := match ce_physical e with Some _ => true | None => false end.
Definition set_physical (now : Z) (physical : nat) (e : ConnectionEntry) : ConnectionEntry :=
  touch now (with_physical (Some physical) e).
Definition clear_physical (now : Z) (e : ConnectionEntry) : ConnectionEntry :=
  touch now (with_sftp Empty (ce_sftp_generation e + 1) SftpSessionState_default (with_physical None e)).
Definition clear_sftp (now : Z) (e : ConnectionEntry) : ConnectionEntry :=
  touch now (with_sftp Empty (ce_sftp_generation e + 1) SftpSessionState_default e).
Definition invalidate_sftp (now : Z) (e : ConnectionEntry) : bool * ConnectionEntry :=
  match ce_sftp e with
  | Empty => (false, with_sftp Empty (ce_sftp_generation e + 1) (ce_sftp_state e) e)
  | Initializing _ | Ready _ =>
      (true, touch now (with_sftp Empty (ce_sftp_generation e + 1) SftpSessionState_default e))
  end.
Definition acquire_existing_sftp_generation (expected : Z) (e : ConnectionEntry) : option nat :=
  if negb (ce_sftp_generation e =? expected) then None
  else match ce_sftp e with Ready session => Some session | Empty | Initializing _ => None end.

(** ** The registry *)

Record SshConnectionRegistry := mkRegistry {
  rg_config : ConnectionPoolConfig;
  rg_arena : gmap nat ConnectionEntry;
  rg_next : nat;
  by_key : gmap string nat;
  by_id : gmap string string;
  rg_runtime : bool;
  rg_emitter : option NodeEventEmitter;
  rg_timers : list (string * Z);
  rg_detections : list nat
}.

Definition Registry_new (config : ConnectionPoolConfig) : SshConnectionRegistry :=
  mkRegistry config ∅ 0 ∅ ∅ false None [] [].

Section RegistrySetters.
Implicit Type r : SshConnectionRegistry.

Definition with_config v r := mkRegistry v (rg_arena r) (rg_next r) (by_key r) (by_id r) (rg_runtime r) (rg_emitter r)
  (rg_timers r) (rg_detections r).
Definition with_arena v r := mkRegistry (rg_config r) v (rg_next r) (by_key r) (by_id r) (rg_runtime r) (rg_emitter r)
  (rg_timers r) (rg_detections r).
Definition with_maps k i r := mkRegistry (rg_config r) (rg_arena r) (rg_next r) k i (rg_runtime r) (rg_emitter r)
  (rg_timers r) (rg_detections r).
Definition with_runtime v r := mkRegistry (rg_config r) (rg_arena r) (rg_next r) (by_key r) (by_id r) v (rg_emitter r)
  (rg_timers r) (rg_detections r).
Definition with_emitter v r := mkRegistry (rg_config r) (rg_arena r) (rg_next r) (by_key r) (by_id r) (rg_runtime r) v
  (rg_timers r) (rg_detections r).
Definition with_timers v r := mkRegistry (rg_config r) (rg_arena r) (rg_next r) (by_key r) (by_id r) (rg_runtime r)
  (rg_emitter r) v (rg_detections r).
Definition with_detections v r := mkRegistry (rg_config r) (rg_arena r) (rg_next r) (by_key r) (by_id r) (rg_runtime r)
  (rg_emitter r) (rg_timers r) v.
(** [Arc::new] of an entry. *)
Definition alloc_entry (e : ConnectionEntry) r := (rg_next r, mkRegistry (rg_config r) (<[rg_next r := e]> (rg_arena r))
  (S (rg_next r)) (by_key r) (by_id r) (rg_runtime r) (rg_emitter r) (rg_timers r) (rg_detections r)).
End RegistrySetters.

(** A change of the entry behind a reference. *)
Definition on_entry (f : ConnectionEntry -> ConnectionEntry) (p : nat) (r : SshConnectionRegistry) : SshConnectionRegistry :=
  with_arena (alter f p (rg_arena r)) r.
(** A call on the emitter, if one is set. *)
Definition on_emitter (f : NodeEventEmitter -> NodeEventEmitter) (r : SshConnectionRegistry) : SshConnectionRegistry :=
  with_emitter (f <$> rg_emitter r) r.

(** The entry of a connection: its reference and its value. *)
Definition get (connection_id : string) (r : SshConnectionRegistry) : option (nat * ConnectionEntry) :=
  match by_id r !! connection_id with
  | None => None
  | Some key => match by_key r !! key with
                | None => None
                | Some p => pair p <$> rg_arena r !! p
                end
  end.

Definition emit_state (connection_id : string) (state : ConnectionState) (reason : string) : SshConnectionRegistry -> SshConnectionRegistry :=
  on_emitter (fun em => snd (emit_state_from_connection connection_id state reason em)).

(** *** Idle timers and ownership *)

Definition start_idle_timer_for_entry (now : Z) (p : nat) (r : SshConnectionRegistry) : SshConnectionRegistry :=
  match rg_arena r !! p with
  | None => r
  | Some e =>
      let e := cancel_idle_timer e in
      let generation := ce_idle_generation e in
      let e := touch now (with_state Idle e) in
      let r := emit_state (ce_connection_id e) Idle "idle (timer started)" (with_arena (<[p := e]> (rg_arena r)) r) in
      match ce_idle_timeout e with
      | None => r
      | Some timeout =>
          if timeout =? 0 then r
          else if rg_runtime r then with_timers (rg_timers r ++ [(ce_connection_id e, generation)]) r else r
      end
  end.

Definition connection_entry_is_registered (connection_id key : string) (r : SshConnectionRegistry) : bool :=
  bool_decide (by_id r !! connection_id = Some key)
  && match by_key r !! key with
     | Some p => match rg_arena r !! p with Some e => bool_decide (ce_connection_id e = connection_id) | None => false end
     | None => false
     end.

(** The parent and the consumer to release, and the entry without it. *)
Definition take_parent_ownership (e : ConnectionEntry) : option (string * ConnectionConsumer) * ConnectionEntry :=
  (match ce_parent_connection_consumer e with
   | Some consumer => (fun parent => (parent, consumer)) <$> ce_parent_connection_id e
   | None => None
   end, with_parent_connection_consumer None e).

(** [retire_connection], with the release of the parent's consumer as an
    argument: the two functions call each other. *)
Definition retire_with (release : string -> ConnectionConsumer -> SshConnectionRegistry -> option SshConnectionRegistry)
    (connection_id : string) (r : SshConnectionRegistry) : option (option ConnectionInfo * SshConnectionRegistry) :=
  match by_id r !! connection_id with
  | None => Some (None, r)
  | Some key =>
      match by_key r !! key with
      | None => Some (None, r)
      | Some p =>
          match rg_arena r !! p with
          | None => Some (None, r)
          | Some e =>
              if negb (connection_entry_is_registered connection_id key r) then Some (None, r)
              else
                let e := cancel_idle_timer e in
                let i := info e in
                let '(ownership, e) := take_parent_ownership e in
                let r := with_arena (<[p := e]> (rg_arena r)) r in
                let keys := if bool_decide (ce_connection_id e = connection_id)
                            then delete key (by_key r) else by_key r in
                let r := with_maps keys (delete connection_id (by_id r)) r in
                match ownership with
                | None => Some (Some i, r)
                | Some (parent, consumer) => (fun r => (Some i, r)) <$> release parent consumer r
                end
          end
      end
  end.

(** Fuel for each connection that can be retired on the way. *)
Fixpoint release (fuel : nat) (now : Z) (connection_id : string) (consumer : ConnectionConsumer)
    (r : SshConnectionRegistry) : option SshConnectionRegistry :=
  match fuel with
  | O => None
  | S fuel =>
      match get connection_id r with
      | None => Some r
      | Some (p, e) =>
          let consumers := List.filter (fun existing => negb (bool_decide (existing = consumer))) (ce_consumers e) in
          let removed := negb (length consumers =? length (ce_consumers e))%nat in
          let count := if removed then sat_sub (ce_ref_count e) 1 else ce_ref_count e in
          let e := touch now (with_ownership consumers count e) in
          let r := with_arena (<[p := e]> (rg_arena r)) r in
          if count =? 0 then
            if ce_retire_when_unused e then snd <$> retire_with (release fuel now) connection_id r
            else if ce_keep_alive e then
              Some (on_entry (fun e => with_state Idle (cancel_idle_timer e)) p r)
            else Some (start_idle_timer_for_entry now p r)
          else Some r
      end
  end.
Definition release_connection (now : Z) (connection_id : string) (consumer : ConnectionConsumer)
    (r : SshConnectionRegistry) : option SshConnectionRegistry :=
  release (S (size (by_key r))) now connection_id consumer r.
Definition retire_connection (now : Z) (connection_id : string) (r : SshConnectionRegistry)
    : option (option ConnectionInfo * SshConnectionRegistry) :=
  retire_with (release (S (size (by_key r))) now) connection_id r.

(** A consumer joins an entry; the second component is the count before. *)
Definition join_consumer (consumer : ConnectionConsumer) (e : ConnectionEntry) : ConnectionEntry :=
  if bool_decide (consumer ∈ ce_consumers e) then e
  else with_ownership (ce_consumers e ++ [consumer]) (ce_ref_count e + 1) e.

Definition acquire (now : Z) (uuid : string) (config : SshConfig) (consumer : ConnectionConsumer)
    (r : SshConnectionRegistry) : nat * SshConnectionRegistry :=
  let key := connection_key config in
  let '(p, r) := match by_key r !! key with
                 | Some p => (p, r)
                 | None =>
                     let '(p, r) := alloc_entry (ConnectionEntry_new now uuid config (rg_config r)) r in
                     (p, with_maps (<[key := p]> (by_key r)) (<[uuid := key]> (by_id r)) r)
                 end in
  (p, on_entry (fun e => join_consumer consumer (touch now (cancel_idle_timer e))) p r).

(** [uuid] and [key_uuid] are the two fresh identifiers. *)
Definition acquire_dedicated (now : Z) (uuid key_uuid : string) (config : SshConfig) (consumer : ConnectionConsumer)
    (r : SshConnectionRegistry) : nat * SshConnectionRegistry :=
  let pool_key := (connection_key config ++ "|dedicated=" ++ key_uuid)%string in
  let e := with_ownership [consumer] 1 (new_with_key now uuid config pool_key (rg_config r) true) in
  let '(p, r) := alloc_entry e r in
  (p, with_maps (<[pool_key := p]> (by_key r)) (<[uuid := pool_key]> (by_id r)) r).

Definition acquire_consumer_for_connection (now : Z) (connection_id : string) (consumer : ConnectionConsumer)
    (r : SshConnectionRegistry) : option nat * SshConnectionRegistry :=
  match get connection_id r with
  | None => (None, r)
  | Some (p, e) =>
      let e := if bool_decide (consumer ∈ ce_consumers e) then e
               else
                 let previous := ce_ref_count e in
                 let e := with_ownership (ce_consumers e ++ [consumer]) (previous + 1) e in
                 if previous =? 0 then
                   let e := cancel_idle_timer e in
                   if bool_decide (ce_state e = Idle) && has_physical e then with_state Active e else e
                 else e in
      (Some p, with_arena (<[p := touch now e]> (rg_arena r)) r)
  end.
Definition acquire_sftp_session (now : Z) (connection_id consumer_id : string) (r : SshConnectionRegistry)
    : option nat * SshConnectionRegistry :=
  acquire_consumer_for_connection now connection_id (Sftp consumer_id) r.

Definition set_keep_alive (now : Z) (connection_id : string) (keep_alive : bool) (r : SshConnectionRegistry)
    : option ConnectionInfo * SshConnectionRegistry :=
  match get connection_id r with
  | None => (None, r)
  | Some (p, e) =>
      let r := on_entry (with_keep_alive keep_alive) p r in
      let r := if keep_alive then on_entry cancel_idle_timer p r
               else if bool_decide (ce_state e = Idle) && (ce_ref_count e =? 0)
                    then start_idle_timer_for_entry now p r else r in
      let r := on_entry (touch now) p r in
      (info <$> rg_arena r !! p, r)
  end.

(** *** States and events *)

Definition set_task_runtime (r : SshConnectionRegistry) : SshConnectionRegistry := with_runtime true r.
Definition set_node_event_emitter (em : NodeEventEmitter) (r : SshConnectionRegistry) : SshConnectionRegistry :=
  with_emitter (Some em) r.

Definition maybe_spawn_remote_env_detection (p : nat) (r : SshConnectionRegistry) : SshConnectionRegistry :=
  if rg_runtime r then
    match rg_arena r !! p with
    | None => r
    | Some e =>
        let '(begun, e) := try_begin_remote_env_detection e in
        let r := with_arena (<[p := e]> (rg_arena r)) r in
        if begun then with_detections (rg_detections r ++ [p]) r else r
    end
  else r.
(** The end of the first detection that was spawned. *)
Definition finish_detection (env : RemoteEnvInfo) (r : SshConnectionRegistry) : SshConnectionRegistry :=
  match rg_detections r with
  | [] => r
  | p :: rest => with_detections rest (on_entry (fun e => snd (set_remote_env env e)) p r)
  end.

Definition mark_state_inner (now : Z) (connection_id : string) (state : ConnectionState) (emit_node_event : bool)
    (reason : string) (r : SshConnectionRegistry) : option ConnectionInfo * SshConnectionRegistry :=
  match get connection_id r with
  | None => (None, r)
  | Some (p, e) =>
      let became_active := bool_decide (state = Active) in
      let e := touch now (with_state state e) in
      let r := with_arena (<[p := e]> (rg_arena r)) r in
      let i := info e in
      let r := if emit_node_event then emit_state (ci_connection_id i) (ci_state i) reason r else r in
      let r := if became_active && ce_first_visible_terminal_started e && negb (ce_retire_when_unused e)
               then maybe_spawn_remote_env_detection p r else r in
      (Some i, r)
  end.
Definition mark_state (now : Z) (connection_id : string) (state : ConnectionState) (r : SshConnectionRegistry) :=
  mark_state_inner now connection_id state true "connection state changed" r.
Definition mark_state_without_event (now : Z) (connection_id : string) (state : ConnectionState)
    (r : SshConnectionRegistry) :=
  mark_state_inner now connection_id state false "" r.

Definition mark_visible_terminal_ready (connection_id : string) (r : SshConnectionRegistry)
    : option bool * SshConnectionRegistry :=
  match get connection_id r with
  | None => (None, r)
  | Some (p, e) =>
      let '(first, e) := mark_first_visible_terminal_started e in
      let r := with_arena (<[p := e]> (rg_arena r)) r in
      let r := if first && negb (ce_retire_when_unused e) then maybe_spawn_remote_env_detection p r else r in
      (Some first, r)
  end.

Definition registry_emit_status_changed (now_ms : Z) (connection_id status : string) (affected_children : list string)
    (r : SshConnectionRegistry) : bool * SshConnectionRegistry :=
  match get connection_id r with
  | None => (false, r)
  | Some (p, e) =>
      if bool_decide (ce_last_emitted_status e = Some status) then (false, r)
      else
        let r := on_entry (with_last_emitted_status (Some status)) p r in
        (true, on_emitter (fun em => snd (emit_connection_status_changed now_ms connection_id status affected_children em)) r)
  end.

Definition mark_sftp_session (now : Z) (connection_id : string) (ready : bool) (cwd : option string)
    (r : SshConnectionRegistry) : option SftpSessionState * SshConnectionRegistry :=
  match get connection_id r with
  | None => (None, r)
  | Some (p, e) =>
      let state := mkSftpState ready cwd in
      (Some state, on_entry (fun e => touch now (with_sftp (ce_sftp e) (ce_sftp_generation e) state e)) p r)
  end.
Definition sftp_session_state (connection_id : string) (r : SshConnectionRegistry) : option SftpSessionState :=
  (fun pe => ce_sftp_state pe.2) <$> get connection_id r.

(** *** Parents *)

Definition set_parent_connection_id (now : Z) (connection_id : string) (parent : option string)
    (r : SshConnectionRegistry) : option (option ConnectionInfo * SshConnectionRegistry) :=
  match get connection_id r with
  | None => Some (None, r)
  | Some (p, e) =>
      if negb (connection_entry_is_registered connection_id (default ""%string (by_id r !! connection_id)) r)
      then Some (None, r)
      else
        let '(released, e) := match parent with
                              | None => take_parent_ownership e
                              | Some _ => (None, e)
                              end in
        let r := with_arena (<[p := touch now (with_parent_connection_id parent e)]> (rg_arena r)) r in
        match released with
        | None => Some (info <$> rg_arena r !! p, r)
        | Some (parent, consumer) =>
            (fun r => (info <$> rg_arena r !! p, r)) <$> release_connection now parent consumer r
        end
  end.

Definition set_parent_connection_ownership (now : Z) (connection_id parent : string) (consumer : ConnectionConsumer)
    (r : SshConnectionRegistry) : option ConnectionInfo * SshConnectionRegistry :=
  match get connection_id r with
  | None => (None, r)
  | Some (p, e) =>
      if negb (connection_entry_is_registered connection_id (default ""%string (by_id r !! connection_id)) r)
      then (None, r)
      else
        let e := touch now (with_parent_connection_consumer (Some consumer) (with_parent_connection_id (Some parent) e)) in
        (Some (info e), with_arena (<[p := e]> (rg_arena r)) r)
  end.

(** *** Operations over all connections *)

Section Iteration.
(** The order in which the concurrent map is iterated. *)
Context (iter : gmap string nat -> list (string * nat)).

Definition entries (r : SshConnectionRegistry) : list ConnectionEntry :=
  omap (fun kp => rg_arena r !! kp.2) (iter (by_key r)).
Definition list_connections (r : SshConnectionRegistry) : list ConnectionInfo := map info (entries r).

Definition set_idle_timeout (now : Z) (idle_timeout : option Z) (r : SshConnectionRegistry) : SshConnectionRegistry :=
  let r := with_config (mkPool idle_timeout (max_connections (rg_config r)) (protect_on_exit (rg_config r))) r in
  fold_left (fun r kp =>
    let p := snd kp in
    let r := on_entry cancel_idle_timer p r in
    match rg_arena r !! p with
    | Some e => if bool_decide (ce_state e = Idle) && (ce_ref_count e =? 0) && negb (ce_keep_alive e)
                then start_idle_timer_for_entry now p r else r
    | None => r
    end) (iter (by_key r)) r.

Definition children (parent_id : string) (r : SshConnectionRegistry) : list string :=
  map ce_connection_id (List.filter (fun e => bool_decide (ce_parent_connection_id e = Some parent_id)) (entries r)).

(** The loop over the stack, whose top is its head; children are pushed in
    order, so the last one is popped first. *)
Fixpoint descendants_loop (fuel : nat) (r : SshConnectionRegistry) (stack : list string) (found : list ConnectionInfo)
    : option (list ConnectionInfo) :=
  match fuel with
  | O => None
  | S fuel =>
      match stack with
      | [] => Some found
      | parent_id :: stack =>
          let cs := children parent_id r in
          descendants_loop fuel r (reverse cs ++ stack)
            (found ++ omap (fun c => (fun pe => info pe.2) <$> get c r) cs)
      end
  end.
Definition descendant_connection_infos (fuel : nat) (root : string) (r : SshConnectionRegistry) : option (list ConnectionInfo) :=
  match get root r with
  | None => Some []
  | Some _ => descendants_loop fuel r [root] []
  end.

Definition can_link_down (s : ConnectionState) : bool :=
  match s with Active | Idle | Connecting | Reconnecting | LinkDown => true | _ => false end.

(** The loop that marks the connections. *)
Fixpoint link_down_each (now : Z) (ids : list string) (r : SshConnectionRegistry)
    : list ConnectionInfo * SshConnectionRegistry :=
  match ids with
  | [] => ([], r)
  | id :: ids =>
      match get id r with
      | None => link_down_each now ids r
      | Some (_, e) =>
          if can_link_down (ce_state e) then
            let '(i, r) := mark_state_inner now id LinkDown false "" r in
            let '(rest, r) := link_down_each now ids r in (option_list i ++ rest, r)
          else link_down_each now ids r
      end
  end.

Definition mark_link_down_cascade (fuel : nat) (now : Z) (root : string) (r : SshConnectionRegistry)
    : option (list ConnectionInfo * SshConnectionRegistry) :=
  match get root r with
  | None => Some ([], r)
  | Some _ =>
      match descendant_connection_infos fuel root r with
      | None => None
      | Some infos =>
          let affected := map ci_connection_id infos in
          let '(changed, r) := link_down_each now (root :: affected) r in
          let r := match changed with
                   | [] => r
                   | _ => let '(emitted, r) := registry_emit_status_changed now root "link_down" affected r in
                          if emitted then emit_state root LinkDown "link down" r else r
                   end in
          Some (changed, r)
      end
  end.

Definition mark_transport_lost_cascade (fuel : nat) (now : Z) (root reason : string) (r : SshConnectionRegistry)
    : option (list ConnectionInfo * SshConnectionRegistry) :=
  match mark_link_down_cascade fuel now root r with
  | None => None
  | Some (changed, r) =>
      let r := fold_left (fun r i => match get (ci_connection_id i) r with
                                     | Some (p, _) => on_entry (clear_physical now) p r
                                     | None => r
                                     end) changed r in
      Some (changed, emit_state root LinkDown reason r)
  end.

(** *** The idle timeout *)

Definition disconnect_idle_timed_out_connection (now : Z) (connection_id reason : string) (r : SshConnectionRegistry)
    : option SshConnectionRegistry :=
  match get connection_id r with
  | None => Some r
  | Some (p, e) =>
      match ce_state e with
      | Disconnected | Disconnecting => Some r
      | _ =>
          let r := on_entry cancel_idle_timer p r in
          let released :=
            match ce_parent_connection_id e, rg_emitter r with
            | Some parent, Some em =>
                match node_id_for_connection connection_id em with
                | Some node => release_connection now parent (NodeRouter (node ++ ":ancestor")%string) r
                | None => Some r
                end
            | _, _ => Some r
            end in
          match released with
          | None => None
          | Some r =>
              let r := on_entry (clear_physical now) p r in
              let r := snd (mark_state_without_event now connection_id Disconnected r) in
              let r := on_emitter (fun em => snd (emit_sftp_ready connection_id false None em)) r in
              let r := emit_state connection_id Disconnected reason r in
              let r := on_emitter (fun em => snd (unregister connection_id em)) r in
              snd <$> retire_connection now connection_id r
          end
      end
  end.

Fixpoint disconnect_each (now : Z) (ids : list string) (r : SshConnectionRegistry) : option SshConnectionRegistry :=
  match ids with
  | [] => Some r
  | id :: ids => match disconnect_idle_timed_out_connection now id "ancestor idle timeout cascade" r with
                 | Some r => disconnect_each now ids r
                 | None => None
                 end
  end.

(** The body of a timer task, after its sleep. *)
Definition disconnect_if_idle_timeout (fuel : nat) (now : Z) (root : string) (generation : Z) (r : SshConnectionRegistry)
    : option SshConnectionRegistry :=
  match get root r with
  | None => Some r
  | Some (p, e) =>
      if negb (ce_idle_generation e =? generation) || negb (ce_ref_count e =? 0) || ce_keep_alive e
         || negb (bool_decide (ce_state e = Idle)) then Some r
      else
        match descendant_connection_infos fuel root r with
        | None => None
        | Some infos =>
            let affected := map ci_connection_id infos in
            match disconnect_each now (reverse affected) r with
            | None => None
            | Some r =>
                let r := on_emitter (fun em => snd (emit_connection_status_changed now root "disconnected" affected em)) r in
                disconnect_idle_timed_out_connection now root "idle timeout" r
            end
        end
  end.

(** *** Probes *)

(** [first] and [second] are the results of the probes; [state_after] is the
    state of the connection as it is seen between them. *)
Definition probe_active_connection (now : Z) (connection_id : string) (first second : KeepaliveProbeResult)
    (state_after : ConnectionState) (r : SshConnectionRegistry) : ProbeConnectionStatus * SshConnectionRegistry :=
  match get connection_id r with
  | None => (NotFound, r)
  | Some (p, e) =>
      let alive := (Alive, on_entry (fun e => touch now (reset_heartbeat_failures e)) p r) in
      match ce_state e with
      | Active | Idle =>
          match first with
          | KpOk => alive
          | KpTimeout =>
              let '(failures, e) := increment_heartbeat_failures e in
              let r := with_arena (<[p := e]> (rg_arena r)) r in
              if failures <? HEARTBEAT_FAIL_THRESHOLD then (Alive, r) else (Dead, r)
          | KpIoError =>
              match state_after with
              | Disconnecting | Disconnected => (NotApplicable, r)
              | _ => match second with KpOk => alive | KpTimeout | KpIoError => (Dead, r) end
              end
          end
      | _ => (NotApplicable, r)
      end
  end.

(** The outcomes of the probes of a connection are given by [probes]. *)
Fixpoint probe_each (fuel : nat) (now : Z)
    (probes : string -> KeepaliveProbeResult * KeepaliveProbeResult * ConnectionState) (ids : list string)
    (r : SshConnectionRegistry) : option (list ConnectionInfo * SshConnectionRegistry) :=
  match ids with
  | [] => Some ([], r)
  | id :: ids =>
      let '(first, second, after) := probes id in
      let '(status, r) := probe_active_connection now id first second after r in
      match status with
      | Dead =>
          match mark_transport_lost_cascade fuel now id "keepalive probe failed" r with
          | None => None
          | Some (changed, r) =>
              match probe_each fuel now probes ids r with
              | None => None
              | Some (rest, r) => Some (changed ++ rest, r)
              end
          end
      | _ => probe_each fuel now probes ids r
      end
  end.
Definition probe_active_connections (fuel : nat) (now : Z)
    (probes : string -> KeepaliveProbeResult * KeepaliveProbeResult * ConnectionState) (r : SshConnectionRegistry)
    : option (list ConnectionInfo * SshConnectionRegistry) :=
  let ids := map ci_connection_id
    (List.filter (fun i => match ci_state i with Active | Idle => true | _ => false end) (list_connections r)) in
  probe_each fuel now probes ids r.

Definition count_state (p : ConnectionState -> bool) (r : SshConnectionRegistry) : Z :=
  zlen (List.filter (fun e => p (ce_state e)) (entries r)).
Definition stats (r : SshConnectionRegistry) : ConnectionPoolStats :=
  mkPoolStats (Z.of_nat (size (by_key r)))
    (count_state (fun s => match s with Active => true | _ => false end) r)
    (count_state (fun s => match s with Idle => true | _ => false end) r)
    (count_state (fun s => match s with LinkDown => true | _ => false end) r)
    (count_state (fun s => match s with Reconnecting => true | _ => false end) r)
    (count_state (fun s => match s with Disconnected | Disconnecting => true | _ => false end) r)
    (count_state (fun s => match s with CsError _ => true | _ => false end) r).

Definition probe_single_connection (now : Z) (connection_id : string) (first second : KeepaliveProbeResult)
    (r : SshConnectionRegistry) : ProbeConnectionStatus * SshConnectionRegistry :=
  match get connection_id r with
  | None => (NotFound, r)
  | Some (p, e) =>
      let state := ce_state e in
      let revive :=
        if bool_decide (state = LinkDown) then
          let r := on_entry (fun e => touch now (reset_heartbeat_failures e)) p r in
          let r := snd (mark_state_without_event now connection_id Active r) in
          (Alive, snd (registry_emit_status_changed now connection_id "connected" [] r))
        else (Alive, r) in
      match state with
      | Active | Idle | LinkDown =>
          match first with
          | KpOk => revive
          | KpTimeout =>
              match state with
              | Active | Idle => (Dead, r)
              | _ => match second with
                     | KpOk => revive
                     | KpTimeout | KpIoError => (Dead, snd (mark_state_without_event now connection_id LinkDown r))
                     end
              end
          | KpIoError => (Dead, r)
          end
      | _ => (NotApplicable, r)
      end
  end.
End Iteration.

(** ** The invariant *)

(** The count is the number of consumers, and no consumer is counted twice. *)
Definition entry_ok (e : ConnectionEntry) : Prop := ce_ref_count e = zlen (ce_consumers e) /\ NoDup (ce_consumers e).

Record reg_ok (r : SshConnectionRegistry) : Prop := mkRegOk {
  ri_key : forall key p, by_key r !! key = Some p ->
    exists e, rg_arena r !! p = Some e /\ ce_key e = key /\ by_id r !! ce_connection_id e = Some key;
  ri_id : forall id key, by_id r !! id = Some key ->
    exists p e, by_key r !! key = Some p /\ rg_arena r !! p = Some e /\ ce_connection_id e = id;
  ri_fresh : forall p, is_Some (rg_arena r !! p) -> (p < rg_next r)%nat;
  ri_unique : forall p q e f, rg_arena r !! p = Some e -> rg_arena r !! q = Some f ->
    ce_connection_id e = ce_connection_id f -> p = q;
  ri_owner : forall p e, rg_arena r !! p = Some e -> entry_ok e;
  ri_timer : forall id g, (id, g) ∈ rg_timers r ->
    exists p e, rg_arena r !! p = Some e /\ ce_connection_id e = id /\ g <= ce_idle_generation e
}.

(** How an entry may change: its identity stays, its timer generation grows. *)
Definition later (e e' : ConnectionEntry) : Prop :=
  ce_connection_id e' = ce_connection_id e /\ ce_key e' = ce_key e /\ ce_idle_generation e <= ce_idle_generation e'.
Definition change_ok (e e' : ConnectionEntry) : Prop := later e e' /\ entry_ok e'.
(** How the store may change: entries are never dropped and only get later. *)
Definition evolves (r r' : SshConnectionRegistry) : Prop :=
  forall p e, rg_arena r !! p = Some e -> exists e', rg_arena r' !! p = Some e' /\ later e e'.
Definition good (r r' : SshConnectionRegistry) : Prop := reg_ok r -> reg_ok r' /\ evolves r r'.

Lemma later_refl e : later e e.
Proof. split_and!; [done|done|lia]. Qed.
Lemma evolves_refl r : evolves r r.
Proof. intros p e H. exists e. split; [done|apply later_refl]. Qed.
Lemma evolves_trans r1 r2 r3 : evolves r1 r2 -> evolves r2 r3 -> evolves r1 r3.
Proof.
  intros H1 H2 p e H. destruct (H1 p e H) as (e1 & He1 & A1 & B1 & C1).
  destruct (H2 p e1 He1) as (e2 & He2 & A2 & B2 & C2). exists e2. split; [done|].
  split_and!; [congruence|congruence|lia].
Qed.
Lemma good_refl r : good r r.
Proof. intros H. split; [done|apply evolves_refl]. Qed.
Lemma good_trans r2 r1 r3 : good r1 r2 -> good r2 r3 -> good r1 r3.
Proof.
  intros H1 H2 H. destruct (H1 H) as [A B]. destruct (H2 A) as [C D]. split; [done|by eapply evolves_trans].
Qed.

(** Changes of anything but the entries, the maps and the timers. *)
Lemma good_frame r r' : rg_arena r' = rg_arena r -> rg_next r' = rg_next r -> by_key r' = by_key r ->
  by_id r' = by_id r -> rg_timers r' = rg_timers r -> good r r'.
Proof.
  intros H1 H2 H3 H4 H5 [A B C D E F]. split.
  - split; rewrite ?H1, ?H2, ?H3, ?H4, ?H5; done.
  - intros p e. rewrite H1. apply evolves_refl.
Qed.

Lemma good_insert r p e e' : rg_arena r !! p = Some e -> (entry_ok e -> change_ok e e') ->
  good r (with_arena (<[p := e']> (rg_arena r)) r).
Proof.
  intros He Hch [A B C D E F]. destruct (Hch (E p e He)) as [(L1 & L2 & L3) Hok].
  assert (Hback : forall q f', <[p := e']> (rg_arena r) !! q = Some f' ->
    exists f, rg_arena r !! q = Some f /\ later f f' /\ entry_ok f').
  { intros q f'. destruct (decide (q = p)) as [->|Hq].
    - rewrite lookup_insert_eq. intros [= <-]. exists e. done.
    - rewrite lookup_insert_ne by done. intros Hf. exists f'. split_and!; [done|apply later_refl|by apply (E q)]. }
  assert (Hforth : forall q f, rg_arena r !! q = Some f -> exists f', <[p := e']> (rg_arena r) !! q = Some f' /\ later f f').
  { intros q f Hf. destruct (decide (q = p)) as [->|Hq].
    - rewrite lookup_insert_eq. exists e'. split; [done|]. by assert (f = e) as -> by congruence.
    - rewrite lookup_insert_ne by done. exists f. split; [done|apply later_refl]. }
  split; [|exact Hforth]. split; cbn.
  - intros key q Hq. destruct (A key q Hq) as (f & Hf & Hk & Hi). destruct (Hforth q f Hf) as (f' & Hf' & M1 & M2 & _).
    exists f'. split_and!; [done|congruence|by rewrite M1].
  - intros id key Hi. destruct (B id key Hi) as (q & f & Hk & Hf & Hid). destruct (Hforth q f Hf) as (f' & Hf' & M1 & _).
    exists q, f'. split_and!; [done|done|congruence].
  - intros q [f' Hf']. destruct (Hback q f' Hf') as (f & Hf & _). apply C. by eexists.
  - intros q1 q2 f1 f2 H1 H2 Heq. destruct (Hback q1 f1 H1) as (g1 & G1 & (M1 & _) & _).
    destruct (Hback q2 f2 H2) as (g2 & G2 & (M2 & _) & _). apply (D q1 q2 g1 g2); congruence.
  - intros q f Hf. by destruct (Hback q f Hf) as (_ & _ & _ & ?).
  - intros id g Hin. destruct (F id g Hin) as (q & f & Hf & Hid & Hg). destruct (Hforth q f Hf) as (f' & Hf' & M1 & _ & M3).
    exists q, f'. split_and!; [done|congruence|lia].
Qed.

Lemma good_on_entry f p r : (forall e, entry_ok e -> change_ok e (f e)) -> good r (on_entry f p r).
Proof.
  intros Hf. unfold on_entry. destruct (rg_arena r !! p) as [e|] eqn:He.
  - assert (Ha : alter f p (rg_arena r) = <[p := f e]> (rg_arena r)).
    { apply map_eq. intros q. destruct (decide (q = p)) as [->|Hq].
      - by rewrite lookup_alter_eq, lookup_insert_eq, He.
      - by rewrite lookup_alter_ne, lookup_insert_ne. }
    rewrite Ha. eapply good_insert; [exact He|]. apply Hf.
  - apply good_frame; try done. cbn. apply map_eq. intros q. destruct (decide (q = p)) as [->|Hq].
    + by rewrite lookup_alter_eq, He.
    + by rewrite lookup_alter_ne.
Qed.

Lemma good_emitter f r : good r (on_emitter f r).
Proof. by apply good_frame. Qed.

Lemma good_timer r p e : rg_arena r !! p = Some e ->
  good r (with_timers (rg_timers r ++ [(ce_connection_id e, ce_idle_generation e)]) r).
Proof.
  intros He [A B C D E F]. split; [|exact (evolves_refl r)]. split; cbn; try done.
  intros id g Hin. apply elem_of_app in Hin as [Hin|Hin]; [by apply F|].
  apply list_elem_of_singleton in Hin as [= -> ->]. exists p, e. split_and!; [done|done|lia].
Qed.

(** Removing a connection from the maps. *)
Lemma good_unlink r key p e : by_key r !! key = Some p -> rg_arena r !! p = Some e ->
  good r (with_maps (delete key (by_key r)) (delete (ce_connection_id e) (by_id r)) r).
Proof.
  intros Hk He [A B C D E F]. destruct (A key p Hk) as (e0 & He0 & Hkey & Hid).
  assert (e0 = e) as -> by congruence. split; [|exact (evolves_refl r)]. split; cbn; try done.
  - intros k q Hq. apply lookup_delete_Some in Hq as [Hne Hq]. destruct (A k q Hq) as (f & Hf & Hfk & Hfi).
    exists f. split_and!; [done|done|]. rewrite lookup_delete_ne; [done|]. intros Heq.
    rewrite Heq in Hid. congruence.
  - intros id k Hi. apply lookup_delete_Some in Hi as [Hne Hi]. destruct (B id k Hi) as (q & f & Hq & Hf & Hfid).
    exists q, f. split_and!; [|done|done]. rewrite lookup_delete_ne; [done|]. intros <-.
    rewrite Hk in Hq. injection Hq as <-. congruence.
Qed.

(** A new entry under a fresh identifier and key. *)
Lemma good_alloc r key e :
  entry_ok e -> ce_key e = key -> by_key r !! key = None ->
  (forall p f, rg_arena r !! p = Some f -> ce_connection_id f <> ce_connection_id e) ->
  let '(p, r1) := alloc_entry e r in
  good r (with_maps (<[key := p]> (by_key r1)) (<[ce_connection_id e := key]> (by_id r1)) r1).
Proof.
  intros Hok Hkey Hnk Huniq. cbn. intros [A B C D E F].
  assert (Hnone : rg_arena r !! rg_next r = None).
  { destruct (rg_arena r !! rg_next r) eqn:Hx; [|done]. assert (H := C _ (mk_is_Some _ _ Hx)). lia. }
  assert (Hold : forall q f, rg_arena r !! q = Some f -> q <> rg_next r) by (intros q f Hf ->; congruence).
  split.
  - split; cbn.
    + intros k q. destruct (decide (k = key)) as [->|Hne].
      * rewrite lookup_insert_eq. intros [= <-]. exists e. rewrite !lookup_insert_eq. done.
      * rewrite lookup_insert_ne by done. intros Hq. destruct (A k q Hq) as (f & Hf & Hfk & Hfi). exists f.
        rewrite !lookup_insert_ne; [done|intros Heq; by apply (Huniq q f)|intros ?; by apply (Hold q f)].
    + intros id k. destruct (decide (id = ce_connection_id e)) as [->|Hne].
      * rewrite lookup_insert_eq. intros [= <-]. exists (rg_next r), e. by rewrite !lookup_insert_eq.
      * rewrite lookup_insert_ne by done. intros Hi. destruct (B id k Hi) as (q & f & Hq & Hf & Hfid).
        exists q, f. rewrite !lookup_insert_ne; [done|intros ?; by apply (Hold q f)|intros ->; congruence].
    + intros q Hq. destruct (decide (q = rg_next r)) as [->|Hne]; [lia|]. rewrite lookup_insert_ne in Hq by done.
      apply C in Hq. lia.
    + intros q1 q2 f1 f2. destruct (decide (q1 = rg_next r)) as [->|H1], (decide (q2 = rg_next r)) as [->|H2];
        rewrite ?lookup_insert_eq, ?lookup_insert_ne by done; [done| | |by apply D].
      * intros [= <-] Hf2 Heq. symmetry in Heq. by apply (Huniq q2 f2) in Hf2.
      * intros Hf1 [= <-] Heq. by apply (Huniq q1 f1) in Hf1.
    + intros q f. destruct (decide (q = rg_next r)) as [->|Hne];
        [rewrite lookup_insert_eq; by intros [= <-]|rewrite lookup_insert_ne by done; apply E].
    + intros id g Hin. destruct (F id g Hin) as (q & f & Hf & Hid & Hg). exists q, f.
      rewrite lookup_insert_ne by (intros ?; by apply (Hold q f)). done.
  - intros q f Hf. exists f. cbn. rewrite lookup_insert_ne by (intros ?; by apply (Hold q f)). split; [done|apply later_refl].
Qed.

(** ** The operations keep it *)

Lemma get_spec id r p e : get id r = Some (p, e) ->
  exists key, by_id r !! id = Some key /\ by_key r !! key = Some p /\ rg_arena r !! p = Some e.
Proof.
  unfold get. destruct (by_id r !! id) as [key|]; [|done]. destruct (by_key r !! key) as [q|] eqn:Hk; [|done].
  intros (e0 & He & [= -> ->])%fmap_Some. by exists key.
Qed.

Lemma get_id id r p e : reg_ok r -> get id r = Some (p, e) -> ce_connection_id e = id.
Proof.
  intros Hok (key & Hi & Hk & He)%get_spec. destruct (ri_id _ Hok id key Hi) as (q & f & Hq & Hf & <-). congruence.
Qed.

Lemma change_same e e' :
  ce_connection_id e' = ce_connection_id e -> ce_key e' = ce_key e -> ce_idle_generation e <= ce_idle_generation e' ->
  ce_ref_count e' = ce_ref_count e -> ce_consumers e' = ce_consumers e -> entry_ok e -> change_ok e e'.
Proof. unfold change_ok, later, entry_ok. intros -> -> ? -> ->. done. Qed.
Ltac by_same := apply change_same; first [done | cbn; lia].

Lemma good_start_idle now p r : good r (start_idle_timer_for_entry now p r).
Proof.
  unfold start_idle_timer_for_entry. destruct (rg_arena r !! p) as [e|] eqn:He; [|apply good_refl].
  set (e' := touch now (with_state Idle (cancel_idle_timer e))).
  assert (H1 : good r (with_arena (<[p := e']> (rg_arena r)) r)) by (eapply good_insert; [exact He|intros; by_same]).
  set (r1 := emit_state (ce_connection_id e') Idle "idle (timer started)" (with_arena (<[p := e']> (rg_arena r)) r)).
  assert (H2 : good r r1) by (eapply good_trans; [exact H1|apply good_emitter]).
  cbn [ce_idle_timeout]. destruct (ce_idle_timeout _) as [timeout|]; [|done].
  destruct (timeout =? 0); [done|]. destruct (rg_runtime _); [|done].
  eapply good_trans; [exact H2|]. apply (good_timer r1 p e'). cbn. by rewrite lookup_insert_eq.
Qed.

Definition remove_consumer (consumer : ConnectionConsumer) (l : list ConnectionConsumer) : list ConnectionConsumer :=
  List.filter (fun existing => negb (bool_decide (existing = consumer))) l.

Lemma remove_consumer_not_in consumer l : consumer ∉ l -> remove_consumer consumer l = l.
Proof.
  induction l as [|x l IH]; [done|]. intros H. apply not_elem_of_cons in H as [H1 H2]. unfold remove_consumer in *. cbn.
  rewrite bool_decide_eq_false_2 by done. cbn. by rewrite IH.
Qed.

Lemma remove_consumer_length consumer l : NoDup l ->
  length (remove_consumer consumer l) = if bool_decide (consumer ∈ l) then (length l - 1)%nat else length l.
Proof.
  induction 1 as [|x l Hx Hnd IH]; [done|]. unfold remove_consumer in *. cbn [List.filter].
  destruct (decide (x = consumer)) as [->|Hne].
  - rewrite (bool_decide_eq_true_2 (consumer = consumer)) by done. cbn [negb].
    rewrite (bool_decide_eq_true_2 (consumer ∈ consumer :: l)) by (apply elem_of_cons; by left).
    change (length (remove_consumer consumer l) = (length (consumer :: l) - 1)%nat).
    rewrite remove_consumer_not_in by done. simpl. lia.
  - rewrite (bool_decide_eq_false_2 (x = consumer)) by done. cbn [negb length]. rewrite IH.
    destruct (decide (consumer ∈ l)) as [Hin|Hin].
    + rewrite !bool_decide_eq_true_2 by (done || (apply elem_of_cons; by right)). destruct l; [by apply elem_of_nil in Hin|simpl; lia].
    + rewrite !bool_decide_eq_false_2; [done| |done]. intros [?|?]%elem_of_cons; [by subst|done].
Qed.

Lemma remove_consumer_NoDup consumer l : NoDup l -> NoDup (remove_consumer consumer l).
Proof. intros H. eapply sublist_NoDup; [exact H|]. unfold remove_consumer. induction l as [|x l IH]; cbn; [done|].
  inversion H. destruct (negb _); [apply sublist_skip; by apply IH|apply sublist_cons; by apply IH]. Qed.

(** The entry after a consumer has left. *)
Definition left_entry (now : Z) (consumer : ConnectionConsumer) (e : ConnectionEntry) : ConnectionEntry :=
  touch now (with_ownership (remove_consumer consumer (ce_consumers e))
    (if negb (length (remove_consumer consumer (ce_consumers e)) =? length (ce_consumers e))%nat
     then sat_sub (ce_ref_count e) 1 else ce_ref_count e) e).

Lemma left_entry_ok now consumer e : entry_ok e -> change_ok e (left_entry now consumer e).
Proof.
  intros [Hc Hnd]. split; [split_and!; cbn; [done|done|lia]|]. split; cbn; [|by apply remove_consumer_NoDup].
  pose proof (remove_consumer_length consumer (ce_consumers e) Hnd) as Hl. case_bool_decide as Hin.
  - assert (length (ce_consumers e) <> 0)%nat by (intros H0; apply nil_length_inv in H0; rewrite H0 in Hin; by apply elem_of_nil in Hin).
    rewrite (proj2 (Nat.eqb_neq _ _)) by lia. cbn. unfold sat_sub, zlen in *. lia.
  - rewrite Hl, Nat.eqb_refl. cbn. unfold zlen in *. lia.
Qed.

(** What a release or a retirement is shown to do: it ends, within the fuel, and
    keeps the invariant; the map of connections does not grow. *)
Definition ends_well {A} (r : SshConnectionRegistry) (reg : A -> SshConnectionRegistry) (o : option A) : Prop :=
  exists a, o = Some a /\ reg_ok (reg a) /\ evolves r (reg a) /\ (size (by_key (reg a)) <= size (by_key r))%nat.

Lemma ends_well_good {A} (r r1 : SshConnectionRegistry) (reg : A -> SshConnectionRegistry) o :
  good r r1 -> reg_ok r -> (size (by_key r1) <= size (by_key r))%nat -> (reg_ok r1 -> ends_well r1 reg o) -> ends_well r reg o.
Proof.
  intros Hg Hok Hs Ho. destruct (Hg Hok) as [H1 H2]. destruct (Ho H1) as (a & E1 & E2 & E3 & E4).
  exists a. split_and!; [done|done|by eapply evolves_trans|lia].
Qed.

Lemma ends_well_done (r r1 : SshConnectionRegistry) : good r r1 -> by_key r1 = by_key r -> reg_ok r ->
  ends_well r (fun r => r) (Some r1).
Proof. intros Hg Hk Hok. destruct (Hg Hok). exists r1. rewrite Hk. by split_and!. Qed.

Lemma start_idle_maps now p r : by_key (start_idle_timer_for_entry now p r) = by_key r
  /\ by_id (start_idle_timer_for_entry now p r) = by_id r.
Proof.
  unfold start_idle_timer_for_entry. destruct (rg_arena r !! p); [|done].
  cbn. destruct (ce_idle_timeout _) as [t|]; [|done]. destruct (t =? 0); [done|]. by destruct (rg_runtime _).
Qed.

Lemma retire_with_ok rel id r :
  reg_ok r ->
  (forall parent consumer r1, reg_ok r1 -> (size (by_key r1) < size (by_key r))%nat ->
     ends_well r1 (fun r => r) (rel parent consumer r1)) ->
  ends_well r snd (retire_with rel id r).
Proof.
  intros Hok Hrel. unfold retire_with.
  assert (Hnone : ends_well r snd (Some (@None ConnectionInfo, r)))
    by (eexists; split_and!; [done|done|apply evolves_refl|done]).
  destruct (by_id r !! id) as [key|] eqn:Hi; [|done]. destruct (by_key r !! key) as [p|] eqn:Hk; [|done].
  destruct (rg_arena r !! p) as [e|] eqn:He; [|done].
  destruct (ri_id _ Hok id key Hi) as (q & f & Hq & Hf & Hid).
  assert (q = p) as -> by congruence. assert (f = e) as -> by congruence. subst id.
  destruct (negb _); [done|]. cbn [take_parent_ownership].
  set (e' := with_parent_connection_consumer None (cancel_idle_timer e)).
  cbn [with_arena by_key by_id]. rewrite bool_decide_eq_true_2 by done.
  set (r1 := with_maps (delete key (by_key r)) (delete (ce_connection_id e) (by_id r)) (with_arena (<[p:=e']> (rg_arena r)) r)).
  assert (Hsize : (size (by_key r1) < size (by_key r))%nat).
  { cbn. pose proof (map_size_ne_0_lookup_2 (by_key r) key (mk_is_Some _ _ Hk)).
    rewrite map_size_delete_Some by (by eexists). lia. }
  assert (Hg : good r r1).
  { eapply good_trans; [eapply (good_insert r p e e'); [exact He|intros; by_same]|].
    apply (good_unlink (with_arena (<[p:=e']> (rg_arena r)) r) key p e'); [done|].
    cbn. by rewrite lookup_insert_eq. }
  destruct (match ce_parent_connection_consumer (cancel_idle_timer e) with Some _ => _ | None => _ end) as [[parent consumer]|].
  - apply (ends_well_good r r1); [done|done|lia|]. intros H1. destruct (Hrel parent consumer r1 H1 Hsize) as (a & Ha & A1 & A2 & A3).
    rewrite Ha. eexists. by split_and!.
  - destruct (Hg Hok). eexists. split_and!; [done|done|done|cbn [snd]; lia].
Qed.

Lemma release_ok fuel now id consumer r : reg_ok r -> (size (by_key r) < fuel)%nat ->
  ends_well r (fun r => r) (release fuel now id consumer r).
Proof.
  revert id consumer r. induction fuel as [|fuel IH]; intros id consumer r Hok Hf; [lia|]. cbn [release].
  destruct (get id r) as [[p e]|] eqn:Hget; [|by apply ends_well_done; [apply good_refl|done|done]].
  destruct (get_spec id r p e Hget) as (key & Hi & Hk & He).
  change (touch now (with_ownership _ _ e)) with (left_entry now consumer e).
  set (e' := left_entry now consumer e).
  set (r1 := with_arena (<[p:=e']> (rg_arena r)) r).
  assert (Hg : good r r1) by (eapply good_insert; [exact He|apply left_entry_ok]).
  destruct (_ =? 0); [|by apply ends_well_done].
  destruct (ce_retire_when_unused e'); [|destruct (ce_keep_alive e')].
  - apply (ends_well_good r r1); [done|done|done|]. intros H1.
    destruct (retire_with_ok (release fuel now) id r1 H1) as (a & Ha & A1 & A2 & A3).
    { intros parent c r2 H2 Hs. apply IH; [done|]. cbn in Hs. lia. }
    rewrite Ha. exists (snd a). by split_and!.
  - apply ends_well_done; [|done|done]. eapply good_trans; [exact Hg|]. apply good_on_entry. intros. by_same.
  - apply ends_well_done; [|by destruct (start_idle_maps now p r1)|done]. eapply good_trans; [exact Hg|apply good_start_idle].
Qed.

Lemma join_consumer_ok now consumer e : entry_ok e -> change_ok e (join_consumer consumer (touch now (cancel_idle_timer e))).
Proof.
  intros [Hc Hnd]. unfold join_consumer. case_bool_decide as Hin; [by_same; by split|].
  split; [split_and!; cbn; [done|done|lia]|]. split; cbn.
  - rewrite zlen_app. unfold zlen in *. simpl. lia.
  - apply NoDup_app. split_and!; [done| |apply NoDup_singleton]. intros x Hx ->%list_elem_of_singleton. by apply Hin.
Qed.

(** A fresh UUID is not the identifier of any entry. *)
Definition fresh_id (uuid : string) (r : SshConnectionRegistry) : Prop :=
  forall p e, rg_arena r !! p = Some e -> ce_connection_id e <> uuid.

Lemma good_acquire now uuid config consumer r : fresh_id uuid r -> good r (snd (acquire now uuid config consumer r)).
Proof.
  intros Hfresh. unfold acquire. destruct (by_key r !! connection_key config) as [p|] eqn:Hk.
  - apply good_on_entry. intros. by apply join_consumer_ok.
  - pose proof (good_alloc r (connection_key config) (ConnectionEntry_new now uuid config (rg_config r))
      ltac:(split; [done|apply NoDup_nil_2]) eq_refl Hk Hfresh) as Hg.
    eapply good_trans; [exact Hg|]. apply good_on_entry. intros. by apply join_consumer_ok.
Qed.

Definition dedicated_key (key_uuid : string) (config : SshConfig) : string :=
  (connection_key config ++ "|dedicated=" ++ key_uuid)%string.

Lemma good_acquire_dedicated now uuid key_uuid config consumer r :
  fresh_id uuid r -> by_key r !! dedicated_key key_uuid config = None ->
  good r (snd (acquire_dedicated now uuid key_uuid config consumer r)).
Proof.
  intros Hfresh Hk. unfold acquire_dedicated. fold (dedicated_key key_uuid config).
  apply (good_alloc r (dedicated_key key_uuid config)
    (with_ownership [consumer] 1 (new_with_key now uuid config (dedicated_key key_uuid config) (rg_config r) true)));
    [split; [done|apply NoDup_singleton]|done|done|exact Hfresh].
Qed.

Lemma good_acquire_for now id consumer r : good r (snd (acquire_consumer_for_connection now id consumer r)).
Proof.
  unfold acquire_consumer_for_connection. destruct (get id r) as [[p e]|] eqn:Hget; [|apply good_refl].
  destruct (get_spec id r p e Hget) as (key & Hi & Hk & He). eapply good_insert; [exact He|]. intros [Hc Hnd].
  case_bool_decide as Hin; [by_same; by split|].
  assert (Hnd' : NoDup (ce_consumers e ++ [consumer])).
  { apply NoDup_app. split_and!; [done| |apply NoDup_singleton]. intros x Hx ->%list_elem_of_singleton. by apply Hin. }
  assert (Hc' : ce_ref_count e + 1 = zlen (ce_consumers e ++ [consumer])) by (rewrite zlen_app; unfold zlen in *; simpl; lia).
  destruct (ce_ref_count e =? 0); [destruct (_ && _)|]; (split; [split_and!; cbn; [done|done|lia]|by split]).
Qed.

Lemma good_set_keep_alive now id b r : good r (snd (set_keep_alive now id b r)).
Proof.
  unfold set_keep_alive. destruct (get id r) as [[p e]|]; [|apply good_refl]. cbn [snd].
  eapply good_trans; [|apply good_on_entry; intros; by_same].
  eapply good_trans; [apply (good_on_entry (with_keep_alive b) p r); intros; by_same|].
  destruct b; [apply good_on_entry; intros; by_same|]. destruct (_ && _); [apply good_start_idle|apply good_refl].
Qed.

Lemma good_spawn p r : good r (maybe_spawn_remote_env_detection p r).
Proof.
  unfold maybe_spawn_remote_env_detection. destruct (rg_runtime r); [|apply good_refl].
  destruct (rg_arena r !! p) as [e|] eqn:He; [|apply good_refl].
  unfold try_begin_remote_env_detection. destruct (ce_remote_env e).
  - eapply good_insert; [exact He|]. intros. by_same.
  - assert (H : good r (with_arena (<[p:=with_remote_env_detection_started true e]> (rg_arena r)) r))
      by (eapply good_insert; [exact He|intros; by_same]).
    destruct (negb _); [|exact H]. eapply good_trans; [exact H|]. by apply good_frame.
Qed.

Lemma good_mark_state now id state b reason r : good r (snd (mark_state_inner now id state b reason r)).
Proof.
  unfold mark_state_inner. destruct (get id r) as [[p e]|] eqn:Hget; [|apply good_refl].
  destruct (get_spec id r p e Hget) as (key & Hi & Hk & He). cbn [snd].
  set (e' := touch now (with_state state e)). set (r1 := with_arena (<[p:=e']> (rg_arena r)) r).
  assert (H1 : good r r1) by (eapply good_insert; [exact He|intros; by_same]).
  set (r2 := if b then emit_state _ _ reason r1 else r1).
  assert (H2 : good r r2) by (subst r2; destruct b; [eapply good_trans; [exact H1|apply good_emitter]|exact H1]).
  destruct (_ && _); [|exact H2]. eapply good_trans; [exact H2|apply good_spawn].
Qed.

Lemma good_visible id r : good r (snd (mark_visible_terminal_ready id r)).
Proof.
  unfold mark_visible_terminal_ready. destruct (get id r) as [[p e]|] eqn:Hget; [|apply good_refl].
  destruct (get_spec id r p e Hget) as (key & Hi & Hk & He). cbn [snd mark_first_visible_terminal_started].
  set (r1 := with_arena (<[p:=with_first_visible_terminal_started true e]> (rg_arena r)) r).
  assert (H1 : good r r1) by (eapply good_insert; [exact He|intros; by_same]).
  destruct (_ && _); [|exact H1]. eapply good_trans; [exact H1|apply good_spawn].
Qed.

Lemma good_finish_detection env r : good r (finish_detection env r).
Proof.
  unfold finish_detection. destruct (rg_detections r) as [|p rest]; [apply good_refl|].
  apply (good_trans (on_entry (fun e => snd (set_remote_env env e)) p r)); [|by apply good_frame]. apply good_on_entry. intros e. unfold set_remote_env.
  destruct (eq_ignore_ascii_case _ _); [|destruct (ce_remote_env e)]; intros; by_same.
Qed.

Lemma good_emit_status now id status kids r : good r (snd (registry_emit_status_changed now id status kids r)).
Proof.
  unfold registry_emit_status_changed. destruct (get id r) as [[p e]|]; [|apply good_refl].
  case_bool_decide; [apply good_refl|]. eapply good_trans; [|apply good_emitter]. apply good_on_entry. intros. by_same.
Qed.

Lemma good_mark_sftp now id ready cwd r : good r (snd (mark_sftp_session now id ready cwd r)).
Proof.
  unfold mark_sftp_session. destruct (get id r) as [[p e]|]; [|apply good_refl]. apply good_on_entry. intros. by_same.
Qed.

Lemma good_set_parent now id parent r a :
  reg_ok r -> set_parent_connection_id now id parent r = Some a -> reg_ok (snd a) /\ evolves r (snd a).
Proof.
  intros Hok. unfold set_parent_connection_id.
  destruct (get id r) as [[p e]|] eqn:Hget; [|intros [= <-]; by apply good_refl].
  destruct (get_spec id r p e Hget) as (key & Hi & Hk & He).
  destruct (negb _); [intros [= <-]; by apply good_refl|].
  assert (Hgood : forall e1, (entry_ok e -> change_ok e e1) ->
    good r (with_arena (<[p:=touch now (with_parent_connection_id parent e1)]> (rg_arena r)) r)).
  { intros e1 H1. eapply good_insert; [exact He|]. intros Heo. destruct (H1 Heo) as [H2 H3]. by split. }
  destruct parent as [parent|]; [intros [= <-]; apply Hgood; [intros; by_same|done]|]. cbn [take_parent_ownership].
  destruct (match ce_parent_connection_consumer e with Some _ => _ | None => _ end) as [[pa co]|].
  - intros (r2 & Hr2 & ->)%fmap_Some.
    destruct (Hgood (with_parent_connection_consumer None e) ltac:(intros; by_same) Hok) as [H1 H2].
    destruct (release_ok (S (size (by_key r))) now pa co _ H1 ltac:(cbn; lia)) as (r3 & H3 & A1 & A2 & _).
    unfold release_connection in Hr2. cbn [with_arena by_key] in Hr2. rewrite H3 in Hr2. injection Hr2 as <-.
    split; [done|by eapply evolves_trans].
  - intros [= <-]. apply Hgood; [intros; by_same|done].
Qed.

Lemma good_set_parent_ownership now id parent consumer r :
  good r (snd (set_parent_connection_ownership now id parent consumer r)).
Proof.
  unfold set_parent_connection_ownership. destruct (get id r) as [[p e]|] eqn:Hget; [|apply good_refl].
  destruct (get_spec id r p e Hget) as (key & Hi & Hk & He). destruct (negb _); [apply good_refl|].
  eapply good_insert; [exact He|]. intros. by_same.
Qed.

Lemma good_release now id consumer r r' :
  reg_ok r -> release_connection now id consumer r = Some r' -> reg_ok r' /\ evolves r r'.
Proof.
  intros Hok H. destruct (release_ok (S (size (by_key r))) now id consumer r Hok ltac:(lia)) as (a & Ha & H1 & H2 & _).
  unfold release_connection in H. rewrite Ha in H. by injection H as <-.
Qed.

Lemma good_retire now id r a : reg_ok r -> retire_connection now id r = Some a -> reg_ok (snd a) /\ evolves r (snd a).
Proof.
  intros Hok H. destruct (retire_with_ok (release (S (size (by_key r))) now) id r Hok) as (b & Hb & H1 & H2 & _).
  - intros parent c r1 H1 Hs. apply release_ok; [done|lia].
  - unfold retire_connection in H. rewrite Hb in H. by injection H as <-.
Qed.

Lemma good_fold {A} (f : SshConnectionRegistry -> A -> SshConnectionRegistry) l r :
  (forall r a, good r (f r a)) -> good r (fold_left f l r).
Proof.
  intros Hf. revert r. induction l as [|a l IH]; intros r; cbn; [apply good_refl|].
  eapply good_trans; [apply Hf|apply IH].
Qed.

Section IterationGood.
Context (iter : gmap string nat -> list (string * nat)).

Lemma good_set_idle_timeout now t r : good r (set_idle_timeout iter now t r).
Proof.
  unfold set_idle_timeout. eapply good_trans; [|apply good_fold]; [by apply good_frame|].
  intros r1 [k p]. cbn [snd]. apply (good_trans (on_entry cancel_idle_timer p r1)); [apply good_on_entry; intros; by_same|].
  destruct (rg_arena (on_entry cancel_idle_timer p r1) !! p); [|apply good_refl].
  destruct (_ && _); [apply good_start_idle|apply good_refl].
Qed.

Lemma good_link_down_each now ids r : good r (snd (link_down_each now ids r)).
Proof.
  revert r. induction ids as [|id ids IH]; intros r; cbn [link_down_each]; [apply good_refl|].
  destruct (get id r) as [[p e]|]; [|apply IH]. destruct (can_link_down _); [|apply IH].
  pose proof (good_mark_state now id LinkDown false "" r) as H1.
  destruct (mark_state_inner now id LinkDown false "" r) as [i r1]. cbn [snd] in H1.
  specialize (IH r1). destruct (link_down_each now ids r1) as [rest r2]. by eapply good_trans.
Qed.

Lemma good_link_down fuel now root r a : reg_ok r ->
  mark_link_down_cascade iter fuel now root r = Some a -> reg_ok (snd a) /\ evolves r (snd a).
Proof.
  intros Hok. unfold mark_link_down_cascade. destruct (get root r); [|intros [= <-]; by apply good_refl].
  destruct (descendant_connection_infos iter fuel root r) as [infos|]; [|done].
  pose proof (good_link_down_each now (root :: map ci_connection_id infos) r) as H1.
  destruct (link_down_each now (root :: map ci_connection_id infos) r) as [changed r1]. cbn [snd] in H1.
  intros [= <-]. cbn [snd]. destruct changed as [|c cs]; [by apply H1|].
  pose proof (good_emit_status now root "link_down" (map ci_connection_id infos) r1) as H2.
  destruct (registry_emit_status_changed now root "link_down" _ r1) as [emitted r2]. cbn [snd] in H2.
  assert (H3 : good r r2) by (by eapply good_trans).
  destruct emitted; [|by apply H3]. revert Hok. eapply good_trans; [exact H3|apply good_emitter].
Qed.

Lemma good_transport_lost fuel now root reason r a : reg_ok r ->
  mark_transport_lost_cascade iter fuel now root reason r = Some a -> reg_ok (snd a) /\ evolves r (snd a).
Proof.
  intros Hok. unfold mark_transport_lost_cascade.
  destruct (mark_link_down_cascade iter fuel now root r) as [[changed r1]|] eqn:H1; [|done].
  apply good_link_down in H1 as [H2 H3]; [|done]. intros [= <-]. cbn [snd fst] in *.
  set (f := fun r i => match get (ci_connection_id i) r with Some (p, _) => on_entry (clear_physical now) p r | None => r end).
  assert (Hg : good r1 (emit_state root LinkDown reason (fold_left f changed r1))).
  { apply (good_trans (fold_left f changed r1)); [|apply good_emitter]. apply good_fold. intros r2 i. unfold f.
    destruct (get _ r2) as [[p e]|]; [|apply good_refl]. apply good_on_entry. intros. by_same. }
  destruct (Hg H2). split; [done|by eapply evolves_trans].
Qed.

Lemma good_disconnect_one now id reason r r' : reg_ok r ->
  disconnect_idle_timed_out_connection now id reason r = Some r' -> reg_ok r' /\ evolves r r'.
Proof.
  intros Hok. unfold disconnect_idle_timed_out_connection.
  destruct (get id r) as [[p e]|]; [|intros [= <-]; by apply good_refl].
  set (r0 := on_entry cancel_idle_timer p r).
  assert (H0 : good r r0) by (apply good_on_entry; intros; by_same). destruct (H0 Hok) as [A0 B0].
  assert (Hmain : (match (match ce_parent_connection_id e, rg_emitter r0 with
      | Some parent, Some em =>
          match node_id_for_connection id em with
          | Some node => release_connection now parent (NodeRouter (node ++ ":ancestor")%string) r0
          | None => Some r0
          end
      | _, _ => Some r0
      end) with
    | None => None
    | Some r => snd <$> retire_connection now id
        (on_emitter (fun em => snd (unregister id em)) (emit_state id Disconnected reason
          (on_emitter (fun em => snd (emit_sftp_ready id false None em))
            (snd (mark_state_without_event now id Disconnected (on_entry (clear_physical now) p r))))))
    end) = Some r' -> reg_ok r' /\ evolves r r').
  { set (rel := match ce_parent_connection_id e, rg_emitter r0 with Some _, Some _ => _ | _, _ => _ end).
    assert (Hrel : forall r1, rel = Some r1 -> reg_ok r1 /\ evolves r0 r1).
    { intros r1. unfold rel. assert (Hr0 : Some r0 = Some r1 -> reg_ok r1 /\ evolves r0 r1)
        by (intros [= <-]; split; [done|apply evolves_refl]).
      destruct (ce_parent_connection_id e); [|done]. destruct (rg_emitter r0) as [em|]; [|done].
      destruct (node_id_for_connection id em); [|done]. by apply good_release. }
    destruct rel as [r1|]; [|done]. destruct (Hrel r1 eq_refl) as [A1 B1].
    intros (a & Ha & ->)%fmap_Some.
    assert (H2 : good r1 (on_emitter (fun em => snd (unregister id em)) (emit_state id Disconnected reason
          (on_emitter (fun em => snd (emit_sftp_ready id false None em))
            (snd (mark_state_without_event now id Disconnected (on_entry (clear_physical now) p r1))))))).
    { eapply good_trans; [|apply good_emitter]. eapply good_trans; [|apply good_emitter].
      eapply good_trans; [|apply good_emitter]. eapply good_trans; [|apply good_mark_state].
      apply good_on_entry. intros. by_same. }
    destruct (H2 A1) as [A2 B2]. apply good_retire in Ha as [A3 B3]; [|done]. split; [done|].
    eapply evolves_trans; [exact B0|]. eapply evolves_trans; [exact B1|]. by eapply evolves_trans. }
  destruct (ce_state e); try exact Hmain; intros [= <-]; by apply good_refl.
Qed.

Lemma good_disconnect_each now ids r r' : reg_ok r -> disconnect_each now ids r = Some r' -> reg_ok r' /\ evolves r r'.
Proof.
  revert r. induction ids as [|id ids IH]; intros r Hok; cbn; [intros [= <-]; by apply good_refl|].
  destruct (disconnect_idle_timed_out_connection _ id _ r) as [r1|] eqn:H1; [|done].
  apply good_disconnect_one in H1 as [A B]; [|done]. intros H2. destruct (IH r1 A H2). split; [done|by eapply evolves_trans].
Qed.

Lemma good_timeout fuel now root g r r' : reg_ok r ->
  disconnect_if_idle_timeout iter fuel now root g r = Some r' -> reg_ok r' /\ evolves r r'.
Proof.
  intros Hok. unfold disconnect_if_idle_timeout. destruct (get root r) as [[p e]|]; [|intros [= <-]; by apply good_refl].
  destruct (_ || _); [intros [= <-]; by apply good_refl|].
  destruct (descendant_connection_infos iter fuel root r) as [infos|]; [|done].
  destruct (disconnect_each now _ r) as [r1|] eqn:H1; [|done]. apply good_disconnect_each in H1 as [A B]; [|done].
  intros H2. destruct (good_emitter (fun em => snd (emit_connection_status_changed now root "disconnected"
    (map ci_connection_id infos) em)) r1 A) as [A1 B1].
  apply good_disconnect_one in H2 as [A2 B2]; [|done]. split; [done|].
  eapply evolves_trans; [exact B|]. by eapply evolves_trans.
Qed.

Lemma good_probe_active now id first second after r : good r (snd (probe_active_connection now id first second after r)).
Proof.
  unfold probe_active_connection. destruct (get id r) as [[p e]|] eqn:Hget; [|apply good_refl].
  destruct (get_spec id r p e Hget) as (key & Hi & Hk & He).
  assert (Ha : good r (on_entry (fun e => touch now (reset_heartbeat_failures e)) p r)) by (apply good_on_entry; intros; by_same).
  assert (Hb : good r (with_arena (<[p:=snd (increment_heartbeat_failures e)]> (rg_arena r)) r))
    by (eapply good_insert; [exact He|intros; by_same]).
  destruct (ce_state e); try apply good_refl; destruct first; try exact Ha; cbn [increment_heartbeat_failures];
    try (destruct (_ <? _); exact Hb); destruct after; try apply good_refl; destruct second; try apply good_refl; exact Ha.
Qed.

Lemma good_probe_single now id first second r : good r (snd (probe_single_connection now id first second r)).
Proof.
  unfold probe_single_connection. destruct (get id r) as [[p e]|] eqn:Hget; [|apply good_refl].
  set (revive := if bool_decide (ce_state e = LinkDown) then _ else _).
  assert (Hr : good r (snd revive)).
  { unfold revive. case_bool_decide; [|apply good_refl]. cbn [snd].
    eapply good_trans; [|apply good_emit_status]. eapply good_trans; [|apply good_mark_state].
    apply good_on_entry. intros. by_same. }
  assert (Hd : good r (snd (mark_state_without_event now id LinkDown r))) by apply good_mark_state.
  destruct (ce_state e); try apply good_refl; destruct first; try exact Hr; try apply good_refl;
    destruct second; first [exact Hr|exact Hd|apply good_refl].
Qed.

Lemma good_probe_each fuel now probes ids r a : reg_ok r ->
  probe_each iter fuel now probes ids r = Some a -> reg_ok (snd a) /\ evolves r (snd a).
Proof.
  revert r a. induction ids as [|id ids IH]; intros r a Hok; cbn [probe_each]; [intros [= <-]; by apply good_refl|].
  destruct (probes id) as [[first second] after].
  destruct (good_probe_active now id first second after r Hok) as [A1 B1].
  destruct (probe_active_connection now id first second after r) as [status r1]. cbn [snd] in A1, B1.
  assert (Hskip : probe_each iter fuel now probes ids r1 = Some a -> reg_ok (snd a) /\ evolves r (snd a)).
  { intros H. destruct (IH r1 a A1 H). split; [done|by eapply evolves_trans]. }
  destruct status; try exact Hskip.
  destruct (mark_transport_lost_cascade _ _ _ _ _ r1) as [[changed r2]|] eqn:H2; [|done].
  apply good_transport_lost in H2 as [A2 B2]; [|done].
  destruct (probe_each iter fuel now probes ids r2) as [[rest r3]|] eqn:H3; [|done]. intros [= <-].
  destruct (IH r2 _ A2 H3) as [A3 B3]. split; [done|]. cbn in *.
  eapply evolves_trans; [exact B1|]. by eapply evolves_trans.
Qed.

(** ** Histories *)

Inductive reg_op :=
| OSetRuntime | OSetEmitter (em : NodeEventEmitter)
| OAcquire (now : Z) (uuid : string) (config : SshConfig) (consumer : ConnectionConsumer)
| OAcquireDedicated (now : Z) (uuid key_uuid : string) (config : SshConfig) (consumer : ConnectionConsumer)
| OAcquireFor (now : Z) (id : string) (consumer : ConnectionConsumer)
| ORelease (now : Z) (id : string) (consumer : ConnectionConsumer)
| ORetire (now : Z) (id : string)
| OKeepAlive (now : Z) (id : string) (keep_alive : bool)
| OMarkState (now : Z) (id : string) (state : ConnectionState) (emit : bool) (reason : string)
| OVisible (id : string) | OFinishDetection (env : RemoteEnvInfo)
| OMarkSftp (now : Z) (id : string) (ready : bool) (cwd : option string)
| OSetParent (now : Z) (id : string) (parent : option string)
| OSetParentOwnership (now : Z) (id parent : string) (consumer : ConnectionConsumer)
| OSetIdleTimeout (now : Z) (timeout : option Z)
| OLinkDown (now : Z) (root : string) | OTransportLost (now : Z) (root reason : string)
| OTimer (now : Z) (id : string) (generation : Z)
| OProbeActive (now : Z) (id : string) (first second : KeepaliveProbeResult) (after : ConnectionState)
| OProbeAll (now : Z) (probes : string -> KeepaliveProbeResult * KeepaliveProbeResult * ConnectionState)
| OProbeSingle (now : Z) (id : string) (first second : KeepaliveProbeResult)
| OSetPhysical (now : Z) (p physical : nat) | OClearPhysical (now : Z) (p : nat)
| OClearSftp (now : Z) (p : nat) | OInvalidateSftp (now : Z) (p : nat).

(** [None] only when the descent into the children does not end. *)
Definition run_op (fuel : nat) (op : reg_op) (r : SshConnectionRegistry) : option SshConnectionRegistry :=
  match op with
  | OSetRuntime => Some (set_task_runtime r)
  | OSetEmitter em => Some (set_node_event_emitter em r)
  | OAcquire now uuid config consumer => Some (snd (acquire now uuid config consumer r))
  | OAcquireDedicated now uuid key_uuid config consumer => Some (snd (acquire_dedicated now uuid key_uuid config consumer r))
  | OAcquireFor now id consumer => Some (snd (acquire_consumer_for_connection now id consumer r))
  | ORelease now id consumer => release_connection now id consumer r
  | ORetire now id => snd <$> retire_connection now id r
  | OKeepAlive now id b => Some (snd (set_keep_alive now id b r))
  | OMarkState now id state emit reason => Some (snd (mark_state_inner now id state emit reason r))
  | OVisible id => Some (snd (mark_visible_terminal_ready id r))
  | OFinishDetection env => Some (finish_detection env r)
  | OMarkSftp now id ready cwd => Some (snd (mark_sftp_session now id ready cwd r))
  | OSetParent now id parent => snd <$> set_parent_connection_id now id parent r
  | OSetParentOwnership now id parent consumer => Some (snd (set_parent_connection_ownership now id parent consumer r))
  | OSetIdleTimeout now timeout => Some (set_idle_timeout iter now timeout r)
  | OLinkDown now root => snd <$> mark_link_down_cascade iter fuel now root r
  | OTransportLost now root reason => snd <$> mark_transport_lost_cascade iter fuel now root reason r
  | OTimer now id generation => disconnect_if_idle_timeout iter fuel now id generation r
  | OProbeActive now id first second after => Some (snd (probe_active_connection now id first second after r))
  | OProbeAll now probes => snd <$> probe_active_connections iter fuel now probes r
  | OProbeSingle now id first second => Some (snd (probe_single_connection now id first second r))
  | OSetPhysical now p physical => Some (on_entry (set_physical now physical) p r)
  | OClearPhysical now p => Some (on_entry (clear_physical now) p r)
  | OClearSftp now p => Some (on_entry (clear_sftp now) p r)
  | OInvalidateSftp now p => Some (on_entry (fun e => snd (invalidate_sftp now e)) p r)
  end.

(** The identifiers that an operation generates are new. *)
Definition op_ok (op : reg_op) (r : SshConnectionRegistry) : Prop :=
  match op with
  | OAcquire _ uuid _ _ => fresh_id uuid r
  | OAcquireDedicated _ uuid key_uuid config _ => fresh_id uuid r /\ by_key r !! dedicated_key key_uuid config = None
  | _ => True
  end.

(** Histories: operations one after the other. *)
Inductive history (fuel : nat) : SshConnectionRegistry -> SshConnectionRegistry -> Prop :=
| history_nil r : history fuel r r
| history_op op r r1 r2 : op_ok op r -> run_op fuel op r = Some r1 -> history fuel r1 r2 -> history fuel r r2.

Lemma run_op_good fuel op r r' : op_ok op r -> reg_ok r -> run_op fuel op r = Some r' -> reg_ok r' /\ evolves r r'.
Proof.
  intros Hop Hok. destruct op; cbn [run_op op_ok] in *;
    try (intros [= <-]; revert Hok; first
      [ by apply good_frame | by apply good_acquire | by apply good_acquire_dedicated | apply good_acquire_for
      | apply good_set_keep_alive | apply good_mark_state | apply good_visible | apply good_finish_detection
      | apply good_mark_sftp | apply good_set_parent_ownership | apply good_set_idle_timeout | apply good_probe_active
      | apply good_probe_single | apply good_on_entry; intros; by_same ]).
  - destruct Hop. intros [= <-]. by apply good_acquire_dedicated.
  - by apply good_release.
  - intros (a & Ha & ->)%fmap_Some. by eapply good_retire.
  - intros (a & Ha & ->)%fmap_Some. by eapply good_set_parent.
  - intros (a & Ha & ->)%fmap_Some. by eapply good_link_down.
  - intros (a & Ha & ->)%fmap_Some. by eapply good_transport_lost.
  - by apply good_timeout.
  - intros (a & Ha & ->)%fmap_Some. by eapply good_probe_each.
  - intros [= <-]. revert Hok. apply good_on_entry. intros e. unfold invalidate_sftp. destruct (ce_sftp e); intros; by_same.
Qed.

Lemma history_good fuel r r' : history fuel r r' -> reg_ok r -> reg_ok r' /\ evolves r r'.
Proof.
  induction 1 as [r|op r r1 r2 Hop Hrun _ IH]; intros Hok; [by apply good_refl|].
  destruct (run_op_good fuel op r r1 Hop Hok Hrun) as [A B]. destruct (IH A) as [C D].
  split; [done|by eapply evolves_trans].
Qed.
End IterationGood.

Lemma reg_ok_new config : reg_ok (Registry_new config).
Proof.
  split; cbn; try done. intros p Hp. rewrite lookup_empty in Hp. by destruct Hp. intros id g Hin. by apply elem_of_nil in Hin.
Qed.

(** ** Descendants *)

Definition parent_of (r : SshConnectionRegistry) (id : string) : option string :=
  match get id r with Some (_, e) => ce_parent_connection_id e | None => None end.

Inductive descendant (r : SshConnectionRegistry) (root : string) : string -> Prop :=
| descendant_child c : parent_of r c = Some root -> descendant r root c
| descendant_step p c : descendant r root p -> parent_of r c = Some p -> descendant r root c.

(** No connection is its own ancestor. *)
Definition acyclic (r : SshConnectionRegistry) : Prop :=
  exists rank : string -> nat, forall c p, parent_of r c = Some p -> (rank p < rank c)%nat.

Section Descendants.
Context (iter : gmap string nat -> list (string * nat)).
(** The iteration visits every binding once. *)
Context (iter_perm : forall m, iter m ≡ₚ map_to_list m).
Context (r : SshConnectionRegistry) (Hok : reg_ok r).

Lemma entries_elem e : e ∈ entries iter r <-> exists p, get (ce_connection_id e) r = Some (p, e).
Proof.
  unfold entries. rewrite list_elem_of_omap. split.
  - intros ([k p] & Hin & He). rewrite iter_perm in Hin. apply elem_of_map_to_list in Hin.
    destruct (ri_key _ Hok k p Hin) as (e0 & He0 & Hk & Hi). cbn in He. assert (e0 = e) as -> by congruence.
    exists p. unfold get. by rewrite Hi, Hin, He0.
  - intros (p & Hg). destruct (get_spec _ _ _ _ Hg) as (key & Hi & Hk & He). exists (key, p).
    split; [|done]. rewrite iter_perm. by apply elem_of_map_to_list.
Qed.

Lemma entries_NoDup : NoDup (map ce_connection_id (entries iter r)).
Proof.
  unfold entries. assert (Hnd : NoDup (iter (by_key r))) by (rewrite iter_perm; apply NoDup_map_to_list).
  assert (Hin : forall kp, kp ∈ iter (by_key r) -> by_key r !! kp.1 = Some kp.2).
  { intros [k p] H. rewrite iter_perm in H. by apply elem_of_map_to_list in H. }
  revert Hin. induction Hnd as [|[k p] l Hni Hnd IH]; intros Hin; cbn; [constructor|].
  assert (IH' : NoDup (map ce_connection_id (omap (fun kp => rg_arena r !! kp.2) l)))
    by (apply IH; intros kp Hkp; apply Hin; apply elem_of_cons; by right).
  assert (Hkp : by_key r !! k = Some p) by (apply (Hin (k, p)); apply elem_of_cons; by left).
  destruct (ri_key _ Hok k p Hkp) as (e & He & Hk & Hi). rewrite He. cbn. constructor; [|done].
  intros Hx. apply list_elem_of_In, in_map_iff in Hx as (f & Hf & Hfin%list_elem_of_In).
  apply list_elem_of_omap in Hfin as ([k' p'] & Hin' & Hf'). cbn in Hf'.
  assert (Hk' : by_key r !! k' = Some p') by (apply (Hin (k', p')); apply elem_of_cons; by right).
  assert (p' = p) as -> by (eapply (ri_unique _ Hok); eauto). assert (f = e) as -> by congruence.
  destruct (ri_key _ Hok k' p Hk') as (e' & He' & Hk'' & _). assert (k' = k) as -> by congruence. done.
Qed.

Lemma children_elem p c : c ∈ children iter p r <-> parent_of r c = Some p.
Proof.
  unfold children, parent_of. rewrite list_elem_of_In, in_map_iff. split.
  - intros (e & <- & He). apply filter_In in He as [He Hp]. apply list_elem_of_In, entries_elem in He as (q & Hq).
    rewrite Hq. by apply bool_decide_eq_true in Hp.
  - destruct (get c r) as [[q e]|] eqn:Hg; [|done]. intros Hp. pose proof (get_id _ _ _ _ Hok Hg) as Hid.
    exists e. split; [done|]. apply filter_In. split; [|by apply bool_decide_eq_true].
    apply list_elem_of_In, entries_elem. exists q. by rewrite Hid.
Qed.

Lemma children_NoDup p : NoDup (children iter p r).
Proof.
  unfold children. eapply sublist_NoDup; [exact entries_NoDup|]. apply sublist_map.
  induction (entries iter r) as [|e l IH]; cbn; [done|]. case_bool_decide; [by apply sublist_skip|by apply sublist_cons].
Qed.

Lemma children_infos p :
  map ci_connection_id (omap (fun c => (fun pe => info pe.2) <$> get c r) (children iter p r)) = children iter p r.
Proof.
  assert (H : forall c, c ∈ children iter p r -> exists q e, get c r = Some (q, e) /\ ce_connection_id e = c).
  { intros c Hc. apply children_elem in Hc. unfold parent_of in Hc. destruct (get c r) as [[q e]|] eqn:Hg; [|done].
    exists q, e. split; [done|by eapply get_id]. }
  induction (children iter p r) as [|c cs IH]; [done|]. cbn.
  destruct (H c) as (q & e & Hg & Hid); [apply elem_of_cons; by left|]. rewrite Hg. cbn. rewrite Hid. f_equal.
  apply IH. intros x Hx. apply H. apply elem_of_cons. by right.
Qed.

(** The state of the loop: [popped] were taken from the stack. *)
Record descent (rank : string -> nat) (root : string) (popped stack : list string) : Prop := mkDescent {
  de_nodup : NoDup (popped ++ stack);
  de_known : forall x, x ∈ popped ++ stack -> is_Some (by_id r !! x);
  de_origin : forall x, x ∈ popped ++ stack ->
    x = root \/ (descendant r root x /\ exists p, p ∈ popped /\ parent_of r x = Some p);
  de_rank : forall x, x ∈ popped ++ stack -> (rank root <= rank x)%nat;
  de_root : root ∈ popped ++ stack;
  de_closed : forall x c, x ∈ popped -> parent_of r c = Some x -> c ∈ popped ++ stack
}.

Lemma parent_known c p : parent_of r c = Some p -> is_Some (by_id r !! c).
Proof. unfold parent_of, get. by destruct (by_id r !! c). Qed.

Lemma descent_step rank root popped p stack :
  (forall c p, parent_of r c = Some p -> (rank p < rank c)%nat) ->
  descent rank root popped (p :: stack) ->
  descent rank root (popped ++ [p]) (reverse (children iter p r) ++ stack).
Proof.
  intros Hrank [Hnd Hkn Hor Hrk Hro Hcl].
  assert (Hp : p ∈ popped ++ p :: stack) by (apply elem_of_app; right; apply elem_of_cons; by left).
  assert (Hpn : p ∉ popped).
  { intros Hin. apply NoDup_app in Hnd as (_ & Hd & _). apply (Hd p Hin). apply elem_of_cons. by left. }
  assert (Hnew : forall c, c ∈ children iter p r -> c ∉ popped ++ p :: stack).
  { intros c Hc Hin. apply children_elem in Hc. destruct (Hor c Hin) as [->|(_ & q & Hq & Hpq)].
    - pose proof (Hrank root p Hc). pose proof (Hrk p Hp). lia.
    - rewrite Hc in Hpq. injection Hpq as <-. done. }
  assert (Hmem : forall x, x ∈ (popped ++ [p]) ++ reverse (children iter p r) ++ stack
    <-> x ∈ popped ++ p :: stack \/ parent_of r x = Some p).
  { intros x. rewrite <-children_elem, !elem_of_app, !elem_of_cons, elem_of_reverse.
    assert (x ∉ []) by apply not_elem_of_nil. tauto. }
  split.
  - rewrite <-app_assoc. cbn [app]. apply NoDup_app in Hnd as (N1 & N2 & N3). apply NoDup_cons in N3 as [N3 N4].
    apply NoDup_app. split; [done|]. split.
    + intros x Hx Hin. apply elem_of_cons in Hin as [->|Hin]; [done|].
      apply elem_of_app in Hin as [Hin|Hin]; [rewrite elem_of_reverse in Hin; apply (Hnew x Hin), elem_of_app; by left|].
      apply (N2 x Hx). apply elem_of_cons. by right.
    + apply NoDup_cons. split.
      * intros Hin. apply elem_of_app in Hin as [Hin|Hin]; [|done]. rewrite elem_of_reverse in Hin. by apply (Hnew p Hin).
      * apply NoDup_app. split; [rewrite reverse_Permutation; apply children_NoDup|]. split; [|done].
        intros x Hin Hx. rewrite elem_of_reverse in Hin. apply (Hnew x Hin), elem_of_app. right. apply elem_of_cons. by right.
  - intros x [Hx|Hx]%Hmem; [by apply Hkn|by eapply parent_known].
  - intros x [Hx|Hx]%Hmem.
    + destruct (Hor x Hx) as [->|(Hd & q & Hq & Hpq)]; [by left|right]. split; [done|]. exists q.
      split; [apply elem_of_app; by left|done].
    + right. split; [|exists p; split; [apply elem_of_app; right; by apply list_elem_of_singleton|done]].
      destruct (Hor p Hp) as [->|[Hd _]]; [by apply descendant_child|by eapply descendant_step].
  - intros x [Hx|Hx]%Hmem; [by apply Hrk|]. pose proof (Hrank x p Hx). pose proof (Hrk p Hp). lia.
  - apply Hmem. by left.
  - intros x c Hx Hc. apply Hmem. apply elem_of_app in Hx as [Hx|Hx]; [left; by eapply Hcl|].
    apply list_elem_of_singleton in Hx as ->. by right.
Qed.

Lemma descent_length rank root popped stack :
  descent rank root popped stack -> (length popped + length stack <= size (by_id r))%nat.
Proof.
  intros [Hnd Hkn _ _ _ _]. rewrite <-length_app, <-(size_list_to_set (C := gset string)) by done.
  rewrite <-(size_dom (D := gset string)). apply subseteq_size. intros x Hx. apply elem_of_list_to_set in Hx.
  apply elem_of_dom. by apply Hkn.
Qed.

Lemma descendants_loop_ends rank root fuel popped stack found :
  (forall c p, parent_of r c = Some p -> (rank p < rank c)%nat) ->
  descent rank root popped stack -> (size (by_id r) < fuel + length popped)%nat ->
  exists all out, descendants_loop iter fuel r stack found = Some (found ++ out)
    /\ all ≡ₚ popped ++ stack ++ map ci_connection_id out /\ descent rank root all [].
Proof.
  intros Hrank. revert popped stack found. induction fuel as [|fuel IH]; intros popped stack found Hd Hf.
  { pose proof (descent_length _ _ _ _ Hd). lia. }
  destruct stack as [|p stack]; cbn [descendants_loop].
  - exists popped, []. rewrite !app_nil_r. split_and!; done.
  - destruct (IH (popped ++ [p]) (reverse (children iter p r) ++ stack)
      (found ++ omap (fun c => (fun pe => info pe.2) <$> get c r) (children iter p r))) as (all & out & H1 & H2 & H3).
    + by apply descent_step.
    + rewrite length_app. simpl. lia.
    + eexists all, (_ ++ out). rewrite app_assoc. split_and!; [exact H1| |done].
      rewrite H2, map_app, children_infos, reverse_Permutation. solve_Permutation.
Qed.
End Descendants.

Lemma descendants_spec iter root n r : (forall m, iter m ≡ₚ map_to_list m) -> reg_ok r -> acyclic r ->
  is_Some (get root r) -> (size (by_id r) < n)%nat ->
  exists out, descendant_connection_infos iter n root r = Some out
    /\ NoDup (root :: map ci_connection_id out)
    /\ forall x, x ∈ map ci_connection_id out <-> descendant r root x.
Proof.
  intros Hit Hok [rank Hrank] [[p e] Hg] Hn. unfold descendant_connection_infos. rewrite Hg.
  destruct (get_spec _ _ _ _ Hg) as (key & Hi & _).
  assert (Hd : descent r rank root [] [root]).
  { split; cbn [app].
    - apply NoDup_singleton.
    - intros x ->%list_elem_of_singleton. by eexists.
    - intros x ->%list_elem_of_singleton. by left.
    - by intros x ->%list_elem_of_singleton.
    - by apply list_elem_of_singleton.
    - intros x c Hx. by apply elem_of_nil in Hx. }
  destruct (descendants_loop_ends iter Hit r Hok rank root n [] [root] [] Hrank Hd ltac:(simpl; lia))
    as (all & out & H1 & H2 & [Hnd Hkn Hor Hrk Hro Hcl]). rewrite app_nil_r in *. cbn [app] in H1, H2.
  assert (Hall : NoDup (root :: map ci_connection_id out)) by (by rewrite <-H2). exists out. split_and!; [done|done|].
  assert (Hin : forall x, x ∈ all <-> x = root \/ x ∈ map ci_connection_id out) by (intros x; by rewrite H2, elem_of_cons).
  intros x. split.
  - intros Hx. destruct (Hor x) as [->|[Hd' _]]; [apply Hin; by right| |done]. by apply NoDup_cons in Hall as [? _].
  - assert (Hfwd : descendant r root x -> x ∈ all).
    { induction 1 as [c Hc|q c Hq IHq Hc]; [by apply (Hcl root)|by apply (Hcl q)]. }
    intros Hx. destruct (proj1 (Hin x) (Hfwd Hx)) as [->|?]; [|done]. exfalso.
    assert (Hlt : forall y, descendant r root y -> (rank root < rank y)%nat).
    { induction 1 as [c Hc|q c Hq IHq Hc]; [by apply Hrank|]. pose proof (Hrank c q Hc). lia. }
    specialize (Hlt root Hx). lia.
Qed.

(** ** The link-down cascade *)

Definition state_of (r : SshConnectionRegistry) (id : string) : option ConnectionState :=
  (fun pe => ce_state pe.2) <$> get id r.
(** What a lost link makes of a state. *)
Definition link_lost (s : ConnectionState) : ConnectionState := if can_link_down s then LinkDown else s.

Lemma get_insert r id p e e' x : reg_ok r -> get id r = Some (p, e) -> ce_connection_id e' = ce_connection_id e ->
  get x (with_arena (<[p := e']> (rg_arena r)) r) = if decide (x = id) then Some (p, e') else get x r.
Proof.
  intros Hok Hg He'. destruct (get_spec _ _ _ _ Hg) as (key & Hi & Hk & He). unfold get. cbn.
  destruct (decide (x = id)) as [->|Hne]; [by rewrite Hi, Hk, lookup_insert_eq|].
  destruct (by_id r !! x) as [kx|] eqn:Hx; [|done]. destruct (by_key r !! kx) as [q|] eqn:Hq; [|done].
  rewrite lookup_insert_ne; [done|]. intros <-. destruct (ri_id _ Hok x kx Hx) as (q' & f & Hq' & Hf & Hfx).
  assert (q' = p) as -> by congruence. assert (f = e) as -> by congruence. apply Hne.
  by rewrite <-Hfx, (get_id _ _ _ _ Hok Hg).
Qed.

Lemma mark_link_down_one now id p e r x : reg_ok r -> get id r = Some (p, e) ->
  state_of (snd (mark_state_inner now id LinkDown false "" r)) x = if decide (x = id) then Some LinkDown else state_of r x.
Proof.
  intros Hok Hg. unfold state_of, mark_state_inner. rewrite Hg. cbn [snd andb].
  rewrite bool_decide_eq_false_2 by done. cbn [andb].
  rewrite (get_insert r id p e _ x Hok Hg) by done. by destruct (decide (x = id)).
Qed.

Lemma link_down_each_states now ids r x : reg_ok r -> NoDup ids ->
  state_of (snd (link_down_each now ids r)) x = if decide (x ∈ ids) then link_lost <$> state_of r x else state_of r x.
Proof.
  revert r. induction ids as [|id ids IH]; intros r Hok Hnd; cbn [link_down_each].
  { destruct (decide _) as [Hx|]; [by apply elem_of_nil in Hx|done]. }
  apply NoDup_cons in Hnd as [Hni Hnd].
  assert (Hskip : forall r1, reg_ok r1 -> (forall y, y <> id -> state_of r1 y = state_of r y) ->
     state_of r1 id = link_lost <$> state_of r id ->
     state_of (snd (link_down_each now ids r1)) x = if decide (x ∈ id :: ids) then link_lost <$> state_of r x else state_of r x).
  { intros r1 H1 Hne Heq. rewrite (IH r1 H1 Hnd). destruct (decide (x = id)) as [->|Hx].
    - rewrite decide_False by done. rewrite decide_True by (apply elem_of_cons; by left). done.
    - rewrite (Hne x Hx). destruct (decide (x ∈ ids)) as [Hin|Hin].
      + by rewrite decide_True by (apply elem_of_cons; by right).
      + rewrite decide_False; [done|]. intros [?|?]%elem_of_cons; done. }
  destruct (get id r) as [[p e]|] eqn:Hg.
  - destruct (can_link_down (ce_state e)) eqn:Hc.
    + pose proof (mark_link_down_one now id p e r) as Hm. pose proof (good_mark_state now id LinkDown false "" r Hok) as [H1 _].
      destruct (mark_state_inner now id LinkDown false "" r) as [i r1]. cbn [snd] in Hm, H1.
      assert (Hgoal := Hskip r1 H1). destruct (link_down_each now ids r1) as [rest r2]. cbn [snd] in *. apply Hgoal.
      * intros y Hy. rewrite Hm by done. by rewrite decide_False.
      * rewrite Hm by done. rewrite decide_True by done. unfold state_of. rewrite Hg. cbn. unfold link_lost. by rewrite Hc.
    + apply Hskip; [done|done|]. unfold state_of. rewrite Hg. cbn. unfold link_lost. by rewrite Hc.
  - apply Hskip; [done|done|]. unfold state_of. by rewrite Hg.
Qed.

Lemma emit_status_states now id status kids r x : reg_ok r ->
  state_of (snd (registry_emit_status_changed now id status kids r)) x = state_of r x.
Proof.
  intros Hok. unfold registry_emit_status_changed. destruct (get id r) as [[p e]|] eqn:Hg; [|done].
  case_bool_decide; [done|]. destruct (get_spec _ _ _ _ Hg) as (key & Hi & Hk & He).
  change (state_of (on_entry (with_last_emitted_status (Some status)) p r) x = state_of r x).
  unfold state_of, get. cbn. destruct (by_id r !! x) as [kx|]; [|done]. destruct (by_key r !! kx) as [q|]; [|done].
  destruct (decide (q = p)) as [->|Hne]; [by rewrite lookup_alter_eq, He|by rewrite lookup_alter_ne].
Qed.

(** ** Cycles of parents *)

Lemma descent_needs_end iter (Hit : forall m, iter m ≡ₚ map_to_list m) r (C : string -> Prop) fuel stack found :
  reg_ok r -> (forall x, C x -> exists c, C c /\ parent_of r c = Some x) -> (exists x, x ∈ stack /\ C x) ->
  descendants_loop iter fuel r stack found = None.
Proof.
  intros Hok HC. revert stack found. induction fuel as [|fuel IH]; intros stack found (x & Hx & Cx); [done|].
  cbn [descendants_loop]. destruct stack as [|p stack]; [by apply elem_of_nil in Hx|]. apply IH.
  apply elem_of_cons in Hx as [->|Hx].
  - destruct (HC p Cx) as (c & Cc & Hc). exists c. split; [|done]. apply elem_of_app. left.
    apply elem_of_reverse. by apply (children_elem iter Hit r Hok).
  - exists x. split; [apply elem_of_app; by right|done].
Qed.

(** ** Checking concrete histories *)

Definition fresh_idb (uuid : string) (r : SshConnectionRegistry) : bool :=
  forallb (fun pe => negb (bool_decide (ce_connection_id (snd pe) = uuid))) (map_to_list (rg_arena r)).
Definition op_okb (op : reg_op) (r : SshConnectionRegistry) : bool :=
  match op with
  | OAcquire _ uuid _ _ => fresh_idb uuid r
  | OAcquireDedicated _ uuid key_uuid config _ =>
      fresh_idb uuid r && bool_decide (by_key r !! dedicated_key key_uuid config = None)
  | _ => true
  end.
Fixpoint run_ops (iter : gmap string nat -> list (string * nat)) (fuel : nat) (ops : list reg_op)
    (r : SshConnectionRegistry) : option SshConnectionRegistry :=
  match ops with
  | [] => Some r
  | op :: ops => if op_okb op r then
      match run_op iter fuel op r with Some r => run_ops iter fuel ops r | None => None end
    else None
  end.

Lemma fresh_idb_ok uuid r : fresh_idb uuid r = true -> fresh_id uuid r.
Proof.
  unfold fresh_idb. rewrite forallb_forall. intros H p e He.
  specialize (H (p, e) ltac:(by apply list_elem_of_In, elem_of_map_to_list)). cbn in H.
  by apply negb_true_iff, bool_decide_eq_false in H.
Qed.

Lemma run_ops_history iter fuel ops r r' : run_ops iter fuel ops r = Some r' -> history iter fuel r r'.
Proof.
  revert r. induction ops as [|op ops IH]; intros r; cbn [run_ops]; [intros [= <-]; apply history_nil|].
  destruct (op_okb op r) eqn:Hop; [|done]. destruct (run_op iter fuel op r) as [r1|] eqn:Hrun; [|done].
  intros H. eapply history_op; [|exact Hrun|by apply IH]. destruct op; try done; cbn in *.
  - by apply fresh_idb_ok.
  - apply andb_prop in Hop as [H1 H2]. split; [by apply fresh_idb_ok|by apply bool_decide_eq_true in H2].
Qed.

Definition ranked (rank : string -> nat) (r : SshConnectionRegistry) : bool :=
  forallb (fun kv => match parent_of r (fst kv) with Some p => (rank p <? rank (fst kv))%nat | None => true end)
    (map_to_list (by_id r)).
Lemma ranked_acyclic rank r : ranked rank r = true -> acyclic r.
Proof.
  unfold ranked. rewrite forallb_forall. intros H. exists rank. intros c p Hp.
  destruct (parent_known r c p Hp) as [k Hk].
  specialize (H (c, k) ltac:(by apply list_elem_of_In, elem_of_map_to_list)). cbn in H. rewrite Hp in H.
  by apply Nat.ltb_lt.
Qed.

(** ** Theorems *)

(** C37: over every history of operations (acquisitions, releases, retirements
    and the parent releases they cause, state changes, cascades, timers,
    probes), the two maps of the pool stay inverse to each other and point to
    live entries, identifiers stay unique, and the reference count of an entry
    is the number of its consumers, each counted once. *)
Theorem registry_invariant iter fuel config r :
  history iter fuel (Registry_new config) r -> reg_ok r.
Proof. intros H. apply (history_good iter fuel (Registry_new config)); [done|apply reg_ok_new]. Qed.

Definition sample_config : SshConfig := mkConfig "h" 22 "u" "u@h:22".
Definition sample_pool : ConnectionPoolConfig := mkPool (Some 1000) 4 true.

Definition sample_ops : list reg_op :=
  [OSetRuntime; OAcquire 1 "c1" sample_config (Terminal "t"); OMarkState 2 "c1" Active true "up";
   OAcquireDedicated 3 "c2" "k" sample_config (Terminal "d"); OAcquireFor 4 "c1" (NodeRouter "n:ancestor");
   OSetParentOwnership 5 "c2" "c1" (NodeRouter "n:ancestor"); ORelease 6 "c1" (Terminal "t")].
Definition sample_registry : SshConnectionRegistry :=
  default (Registry_new sample_pool) (run_ops map_to_list 10 sample_ops (Registry_new sample_pool)).

Lemma registry_invariant_witness :
  reg_ok sample_registry /\ (ce_ref_count <$> rg_arena sample_registry !! 0%nat) = Some 1.
Proof.
  split; [|vm_compute; reflexivity]. apply (registry_invariant map_to_list 10 sample_pool).
  apply (run_ops_history map_to_list 10 sample_ops). vm_compute. reflexivity.
Defined.

(** releases end: with fuel for the registered connections, releasing a
    consumer (which may retire a dedicated connection, release its parent's
    consumer, retire the parent, and so on) always gives a result, and so does
    retiring a connection; a consumer that is not an owner changes no count. *)
Theorem release_terminates iter fuel config r now id consumer :
  history iter fuel (Registry_new config) r ->
  is_Some (release_connection now id consumer r) /\ is_Some (retire_connection now id r)
  /\ (forall p e, get id r = Some (p, e) -> consumer ∉ ce_consumers e -> ce_ref_count e <> 0 ->
        exists e', release_connection now id consumer r = Some (with_arena (<[p := e']> (rg_arena r)) r)
          /\ ce_ref_count e' = ce_ref_count e /\ ce_consumers e' = ce_consumers e).
Proof.
  intros H. assert (Hok : reg_ok r) by (apply (history_good iter fuel (Registry_new config)); [done|apply reg_ok_new]).
  split_and!.
  - destruct (release_ok (S (size (by_key r))) now id consumer r Hok ltac:(lia)) as (a & Ha & _). by eexists.
  - destruct (retire_with_ok (release (S (size (by_key r))) now) id r Hok) as (a & Ha & _); [|by eexists].
    intros parent c r1 H1 Hs. apply release_ok; [done|lia].
  - intros p e Hg Hni Hrc. unfold release_connection. cbn [release]. rewrite Hg.
    fold (remove_consumer consumer (ce_consumers e)). rewrite remove_consumer_not_in by done.
    rewrite Nat.eqb_refl. cbn [negb]. rewrite (proj2 (Z.eqb_neq _ _)) by done. eexists. by split_and!.
Qed.

(** The terminal of the dedicated child closes: the child is retired, its parent
    loses its last consumer and goes idle. *)
Lemma release_terminates_witness :
  is_Some (release_connection 7 "c2" (Terminal "d") sample_registry)
  /\ ((fun r => (state_of r "c1", state_of r "c2", rg_timers r)) <$> release_connection 7 "c2" (Terminal "d") sample_registry)
     = Some (Some Idle, None, [("c1"%string, 2)]).
Proof.
  split; [|vm_compute; reflexivity].
  refine (proj1 (release_terminates map_to_list 10 sample_pool sample_registry 7 "c2"%string (Terminal "d") _)).
  apply (run_ops_history map_to_list 10 sample_ops). vm_compute. reflexivity.
Defined.

(** An idle timer that was overtaken does nothing: when a connection is
    acquired again, or pinned, after its timer was started, then whatever happens
    later (even its release and a new timer) the old timer, when it fires,
    leaves the registry as it is. *)
Theorem stale_idle_timer_harmless iter fuel fuel' config r r1 r2 id g op now :
  history iter fuel (Registry_new config) r -> (id, g) ∈ rg_timers r ->
  match op with
  | OAcquire _ _ cfg _ => by_key r !! connection_key cfg = fst <$> get id r /\ is_Some (get id r)
  | OKeepAlive _ i b => i = id /\ b = true /\ is_Some (get id r)
  | _ => False
  end ->
  op_ok op r -> run_op iter fuel op r = Some r1 -> history iter fuel r1 r2 ->
  disconnect_if_idle_timeout iter fuel' now id g r2 = Some r2.
Proof.
  intros H Hin Hop Hopok Hrun H2.
  assert (Hok : reg_ok r) by (apply (history_good iter fuel (Registry_new config)); [done|apply reg_ok_new]).
  destruct (run_op_good iter fuel op r r1 Hopok Hok Hrun) as [Hok1 _].
  destruct (history_good iter fuel r1 r2 H2 Hok1) as [Hok2 Hev].
  assert (Hgen : exists p e1, rg_arena r1 !! p = Some e1 /\ ce_connection_id e1 = id /\ g < ce_idle_generation e1).
  { destruct (ri_timer _ Hok id g Hin) as (q & f & Hf & Hfid & Hfg).
    assert (Hsame : forall p e, get id r = Some (p, e) -> p = q /\ e = f).
    { intros p e Hg. destruct (get_spec _ _ _ _ Hg) as (key & _ & _ & He).
      assert (p = q) as -> by (eapply (ri_unique _ Hok); [exact He|exact Hf|]; rewrite (get_id _ _ _ _ Hok Hg); done).
      split; [done|congruence]. }
    destruct op; try done.
    - destruct Hop as [Hk [[p e] Hg]]. destruct (Hsame p e Hg) as [-> ->]. rewrite Hg in Hk. cbn in Hk.
      injection Hrun as <-. unfold acquire. rewrite Hk. cbn. exists q, (join_consumer consumer (touch now0 (cancel_idle_timer f))).
      rewrite lookup_alter_eq, Hf. split; [done|]. unfold join_consumer. case_bool_decide; cbn; split; [done|lia|done|lia].
    - destruct Hop as (-> & -> & [[p e] Hg]). destruct (Hsame p e Hg) as [-> ->]. injection Hrun as <-.
      unfold set_keep_alive. rewrite Hg. cbn. exists q.
      eexists. rewrite !lookup_alter_eq, Hf. split; [reflexivity|]. cbn. split; [done|lia]. }
  destruct Hgen as (p & e1 & He1 & Hid1 & Hg1). destruct (Hev p e1 He1) as (e2 & He2 & L1 & _ & L3).
  unfold disconnect_if_idle_timeout. destruct (get id r2) as [[q f]|] eqn:Hg; [|done].
  destruct (get_spec _ _ _ _ Hg) as (key & _ & _ & Hf).
  assert (q = p) as -> by (eapply (ri_unique _ Hok2); [exact Hf|exact He2|]; rewrite (get_id _ _ _ _ Hok2 Hg); congruence).
  assert (f = e2) as -> by congruence. by rewrite (proj2 (Z.eqb_neq (ce_idle_generation e2) g)) by lia.
Qed.

Lemma stale_idle_timer_harmless_witness :
  let ops := [OSetRuntime; OAcquire 1 "c1" sample_config (Terminal "t"); ORelease 2 "c1" (Terminal "t")] in
  let r := default (Registry_new sample_pool) (run_ops map_to_list 10 ops (Registry_new sample_pool)) in
  let op := OAcquire 3 "c9" sample_config (Terminal "u") in
  let r1 := default r (run_op map_to_list 10 op r) in
  let r2 := default r (run_ops map_to_list 10 [ORelease 4 "c1" (Terminal "u")] r1) in
  rg_timers r2 = [("c1"%string, 2); ("c1"%string, 4)]
  /\ disconnect_if_idle_timeout map_to_list 10 9 "c1" 2 r2 = Some r2.
Proof.
  intros ops r op r1 r2. split; [vm_compute; reflexivity|].
  apply (stale_idle_timer_harmless map_to_list 10 10 sample_pool r r1 r2 "c1" 2 op 9).
  - apply (run_ops_history map_to_list 10 ops). vm_compute. reflexivity.
  - assert (Ht : rg_timers r = [("c1"%string, 2)]) by (vm_compute; reflexivity). rewrite Ht. by apply list_elem_of_singleton.
  - split; [vm_compute; reflexivity|]. assert (Hg : is_Some (get "c1" r)) by (vm_compute; eexists; reflexivity). exact Hg.
  - apply fresh_idb_ok. vm_compute. reflexivity.
  - vm_compute. reflexivity.
  - apply (run_ops_history map_to_list 10 [ORelease 4 "c1" (Terminal "u")]). vm_compute. reflexivity.
Defined.

(** on a forest of parent links, the search for descendants ends after one
    turn per connection and returns every transitive child of the root, each
    exactly once, and nothing else, whatever the iteration order of the map. *)
Theorem descendants_exact iter fuel config r root n :
  (forall m, iter m ≡ₚ map_to_list m) -> history iter fuel (Registry_new config) r -> acyclic r ->
  is_Some (get root r) -> (size (by_id r) < n)%nat ->
  exists out, descendant_connection_infos iter n root r = Some out
    /\ NoDup (root :: map ci_connection_id out)
    /\ forall x, x ∈ map ci_connection_id out <-> descendant r root x.
Proof.
  intros Hit H. apply descendants_spec; [done|].
  apply (history_good iter fuel (Registry_new config)); [done|apply reg_ok_new].
Qed.

Lemma sample_registry_history : history map_to_list 10 (Registry_new sample_pool) sample_registry.
Proof. apply (run_ops_history map_to_list 10 sample_ops). vm_compute. reflexivity. Qed.
Lemma sample_registry_acyclic : acyclic sample_registry.
Proof. apply (ranked_acyclic (fun x => if bool_decide (x = "c2"%string) then 1%nat else 0%nat)). vm_compute. reflexivity. Qed.

Lemma descendants_exact_witness :
  exists out, descendant_connection_infos map_to_list 5 "c1" sample_registry = Some out
    /\ NoDup ("c1"%string :: map ci_connection_id out)
    /\ forall x, x ∈ map ci_connection_id out <-> descendant sample_registry "c1" x.
Proof.
  apply (descendants_exact map_to_list 10 sample_pool sample_registry "c1" 5); [done|exact sample_registry_history|
    exact sample_registry_acyclic|vm_compute; eexists; reflexivity|vm_compute; lia].
Defined.

(** a lost link marks exactly the root and its descendants: those that were
    connecting, reconnecting, active, idle or already down become [LinkDown];
    every other connection, and those that were disconnecting, disconnected or
    failed, keep their state. *)
Theorem link_down_cascade_exact iter fuel config r root n now :
  (forall m, iter m ≡ₚ map_to_list m) -> history iter fuel (Registry_new config) r -> acyclic r ->
  is_Some (get root r) -> (size (by_id r) < n)%nat ->
  exists changed r', mark_link_down_cascade iter n now root r = Some (changed, r')
    /\ (forall x, x = root \/ descendant r root x -> state_of r' x = link_lost <$> state_of r x)
    /\ (forall x, x <> root -> ~ descendant r root x -> state_of r' x = state_of r x).
Proof.
  intros Hit H Hac Hroot Hn.
  assert (Hok : reg_ok r) by (apply (history_good iter fuel (Registry_new config)); [done|apply reg_ok_new]).
  destruct (descendants_spec iter root n r Hit Hok Hac Hroot Hn) as (out & Hout & Hnd & Hmem).
  unfold mark_link_down_cascade. destruct Hroot as [pe Hg]. rewrite Hg, Hout.
  set (ids := root :: map ci_connection_id out) in *.
  pose proof (fun x => link_down_each_states now ids r x Hok Hnd) as Hst.
  destruct (good_link_down_each now ids r Hok) as [Hok1 _].
  destruct (link_down_each now ids r) as [changed r1]. cbn [snd] in Hst, Hok1.
  assert (Hids : forall x, x ∈ ids <-> x = root \/ descendant r root x) by (intros x; unfold ids; by rewrite elem_of_cons, Hmem).
  set (r2 := match changed with [] => r1 | _ => _ end). exists changed, r2. split; [done|].
  assert (Hsame : forall x, state_of r2 x = state_of r1 x).
  { intros x. unfold r2. destruct changed as [|c cs]; [done|].
    pose proof (emit_status_states now root "link_down" (map ci_connection_id out) r1 x Hok1) as He.
    destruct (registry_emit_status_changed now root "link_down" _ r1) as [[] r3]; exact He. }
  split; intros x Hx; rewrite Hsame, Hst.
  - by rewrite decide_True by (by apply Hids).
  - intros Hnd'. rewrite decide_False; [done|]. intros [?|?]%Hids; done.
Qed.

Lemma link_down_cascade_exact_witness :
  exists changed r', mark_link_down_cascade map_to_list 5 9 "c1" sample_registry = Some (changed, r')
    /\ (forall x, x = "c1"%string \/ descendant sample_registry "c1" x ->
          state_of r' x = link_lost <$> state_of sample_registry x)
    /\ (forall x, x <> "c1"%string -> ~ descendant sample_registry "c1" x -> state_of r' x = state_of sample_registry x).
Proof.
  apply (link_down_cascade_exact map_to_list 10 sample_pool sample_registry "c1" 5 9); [done|exact sample_registry_history|
    exact sample_registry_acyclic|vm_compute; eexists; reflexivity|vm_compute; lia].
Defined.

(** the same search has no end on a cycle of parent links: from a connection
    on a set of connections each of which is the parent of another one of the
    set, no amount of fuel suffices.  Nothing in the registry refuses such links. *)
Theorem descendants_diverge_on_cycle iter r root (C : string -> Prop) n :
  (forall m, iter m ≡ₚ map_to_list m) -> reg_ok r -> is_Some (get root r) -> C root ->
  (forall x, C x -> exists c, C c /\ parent_of r c = Some x) ->
  descendant_connection_infos iter n root r = None.
Proof.
  intros Hit Hok [pe Hg] Hroot HC. unfold descendant_connection_infos. rewrite Hg.
  apply (descent_needs_end iter Hit r C); [done|done|]. exists root. split; [by apply list_elem_of_singleton|done].
Qed.

Lemma descendants_diverge_on_cycle_witness :
  let ops := [OAcquire 1 "c1" sample_config (Terminal "t"); OSetParent 2 "c1" (Some "c1"%string)] in
  let r := default (Registry_new sample_pool) (run_ops map_to_list 10 ops (Registry_new sample_pool)) in
  descendant_connection_infos map_to_list 1000 "c1" r = None.
Proof.
  intros ops r. apply (descendants_diverge_on_cycle map_to_list r "c1" (fun x => x = "c1"%string) 1000); [done| | |done|].
  - apply (history_good map_to_list 10 (Registry_new sample_pool)); [|apply reg_ok_new].
    apply (run_ops_history map_to_list 10 ops). vm_compute. reflexivity.
  - vm_compute. eexists. reflexivity.
  - intros x ->. exists "c1"%string. split; [done|vm_compute; reflexivity].
Defined.

(** A new idle timeout does not reach the connections that exist: the pool has
    no timeout any more, and the release of the connection still starts its
    timer. *)
Example idle_timeout_not_updated :
  let r := default (Registry_new sample_pool) (run_ops map_to_list 10
    [OSetRuntime; OAcquire 1 "c1" sample_config (Terminal "t"); OSetIdleTimeout 2 None; ORelease 3 "c1" (Terminal "t")]
    (Registry_new sample_pool)) in
  pool_idle_timeout (rg_config r) = None /\ rg_timers r = [("c1"%string, 3)].
Proof. by vm_compute. Qed.
