(* ===== verification/SftpSlot.v ===== *)
(** * The shared SFTP session of a connection

    Model of [SshConnectionHandle::acquire_sftp_with_meta] and of the operations
    that invalidate the shared session
    ([crates/hapcli-ssh/src/connection_registry.rs]).  Opening a session takes
    time, so the slot is unlocked meanwhile and other tasks run: the sections
    between the locks are functions on the entry, and a step function
    interleaves several tasks.  A session is a token; the generation tells which
    invalidation it follows. *)
From stdpp Require Import prelude list numbers strings.
From S2P Require Import Prelude NodeEvents ConnRegistry.
Open Scope Z_scope.

(** ** The sections *)

Inductive sftp_outcome :=
| Returned (session : nat) (was_new : bool) (generation : Z)
| Waits
| Begins (generation : Z)
| Retries.

Definition set_slot (s : SharedSftpState) (e : ConnectionEntry) : ConnectionEntry :=
  with_sftp s (ce_sftp_generation e) (ce_sftp_state e) e.

(** The top of the loop, under the lock. *)
Definition sftp_enter (e : ConnectionEntry) : sftp_outcome * ConnectionEntry :=
  match ce_sftp e with
  | Ready session => (Returned session false (ce_sftp_generation e), e)
  | Initializing _ => (Waits, e)
  | Empty => (Begins (ce_sftp_generation e), set_slot (Initializing (ce_sftp_generation e)) e)
  end.

(** After a session was opened, under the lock again. *)
Definition sftp_created (now : Z) (session : nat) (e : ConnectionEntry) : sftp_outcome * ConnectionEntry :=
  match ce_sftp e with
  | Ready existing => (Returned existing false (ce_sftp_generation e), e)
  | Initializing generation =>
      if generation =? ce_sftp_generation e then
        (Returned session true generation, touch now (set_slot (Ready session) e))
      else (Retries, set_slot Empty e)
  | Empty => (Retries, e)
  end.

(** After the opening failed. *)
Definition sftp_failed (e : ConnectionEntry) : ConnectionEntry :=
  match ce_sftp e with Initializing _ => set_slot Empty e | _ => e end.

(** [clear_physical] raises the generation before it takes the lock. *)
Definition clear_physical_bump (e : ConnectionEntry) : ConnectionEntry :=
  with_sftp (ce_sftp e) (ce_sftp_generation e + 1) (ce_sftp_state e) (with_physical None e).
Definition clear_physical_locked (now : Z) (e : ConnectionEntry) : ConnectionEntry :=
  touch now (with_sftp Empty (ce_sftp_generation e) SftpSessionState_default e).

Lemma clear_physical_sections now e : clear_physical_locked now (clear_physical_bump e) = clear_physical now e.
Proof. done. Qed.

(** ** Tasks *)

(** The entry; the generations under which the openings in flight began; the
    next session token; the sessions published, with their generation; what
    callers were given. *)
Record slot_world := mkSlotWorld {
  sw_entry : ConnectionEntry;
  sw_openings : list Z;
  sw_next : nat;
  sw_published : list (nat * Z);
  sw_given : list (nat * Z)
}.

Inductive slot_step :=
| TEnter
| TCreated (now : Z) (i : nat)
| TFailed (i : nat)
| TClearBump | TClearLocked (now : Z)
| TClearSftp (now : Z) | TInvalidate (now : Z).

Definition given_of (o : sftp_outcome) : list (nat * Z) :=
  match o with Returned session _ generation => [(session, generation)] | _ => [] end.
Definition published_of (o : sftp_outcome) : list (nat * Z) :=
  match o with Returned session true generation => [(session, generation)] | _ => [] end.

Definition run_slot (s : slot_step) (w : slot_world) : option slot_world :=
  match s with
  | TEnter =>
      let '(o, e) := sftp_enter (sw_entry w) in
      Some (mkSlotWorld e (match o with Begins g => sw_openings w ++ [g] | _ => sw_openings w end) (sw_next w)
              (sw_published w) (sw_given w ++ given_of o))
  | TCreated now i =>
      match sw_openings w !! i with
      | None => None
      | Some _ =>
          let '(o, e) := sftp_created now (sw_next w) (sw_entry w) in
          Some (mkSlotWorld e (delete i (sw_openings w)) (S (sw_next w)) (sw_published w ++ published_of o)
                  (sw_given w ++ given_of o))
      end
  | TFailed i =>
      match sw_openings w !! i with
      | None => None
      | Some _ => Some (mkSlotWorld (sftp_failed (sw_entry w)) (delete i (sw_openings w)) (sw_next w)
                          (sw_published w) (sw_given w))
      end
  | TClearBump => Some (mkSlotWorld (clear_physical_bump (sw_entry w)) (sw_openings w) (sw_next w)
                          (sw_published w) (sw_given w))
  | TClearLocked now => Some (mkSlotWorld (clear_physical_locked now (sw_entry w)) (sw_openings w) (sw_next w)
                                (sw_published w) (sw_given w))
  | TClearSftp now => Some (mkSlotWorld (clear_sftp now (sw_entry w)) (sw_openings w) (sw_next w)
                              (sw_published w) (sw_given w))
  | TInvalidate now => Some (mkSlotWorld (snd (invalidate_sftp now (sw_entry w))) (sw_openings w) (sw_next w)
                               (sw_published w) (sw_given w))
  end.
Fixpoint run_slots (l : list slot_step) (w : slot_world) : option slot_world :=
  match l with [] => Some w | s :: l => match run_slot s w with Some w => run_slots l w | None => None end end.

Definition slot_new (e : ConnectionEntry) : slot_world := mkSlotWorld e [] 0 [] [].

Lemma run_slots_invariant (I : slot_world -> Prop) (P : slot_step -> Prop) l w w' :
  (forall s w w', P s -> I w -> run_slot s w = Some w' -> I w') ->
  Forall P l -> I w -> run_slots l w = Some w' -> I w'.
Proof.
  intros Hstep Hl. revert w. induction Hl as [|s l Hs Hl IH]; intros w Hw; cbn; [by intros [= <-]|].
  destruct (run_slot s w) as [w1|] eqn:H1; [|done]. apply IH. by eapply Hstep.
Qed.

(** ** Waiters *)

(** While the slot is being initialised, an opening is in flight. *)
Definition waits_for_opening (w : slot_world) : Prop :=
  match ce_sftp (sw_entry w) with Initializing _ => sw_openings w <> [] | _ => True end.

Lemma waits_step s w w' : waits_for_opening w -> run_slot s w = Some w' -> waits_for_opening w'.
Proof.
  unfold waits_for_opening. intros Hw. destruct s; cbn [run_slot].
  - unfold sftp_enter. destruct (ce_sftp (sw_entry w)) eqn:Hs; intros [= <-]; cbn; rewrite ?Hs; try done.
    intros H. by apply app_eq_nil in H as [_ ?].
  - destruct (sw_openings w !! i) as [g|]; [|done]. unfold sftp_created.
    destruct (ce_sftp (sw_entry w)) eqn:Hs; [|destruct (_ =? _)|]; intros [= <-]; cbn; by rewrite ?Hs.
  - destruct (sw_openings w !! i) as [g|]; [|done]. unfold sftp_failed.
    intros [= <-]; cbn. by destruct (ce_sftp (sw_entry w)) eqn:Hs; cbn; rewrite ?Hs.
  - intros [= <-]. exact Hw.
  - by intros [= <-].
  - by intros [= <-].
  - unfold invalidate_sftp. by destruct (ce_sftp (sw_entry w)); intros [= <-].
Qed.

(** ** Sessions and generations *)

Record slot_ok (w : slot_world) : Prop := mkSlotOk {
  so_ready : forall s, ce_sftp (sw_entry w) = Ready s -> (s, ce_sftp_generation (sw_entry w)) ∈ sw_published w;
  so_given : forall p, p ∈ sw_given w -> p ∈ sw_published w
}.

Definition locked (s : slot_step) : Prop := match s with TClearBump => False | _ => True end.

Lemma slot_ok_step s w w' : locked s -> slot_ok w -> run_slot s w = Some w' -> slot_ok w'.
Proof.
  intros Hl [Hr Hg]. destruct s; cbn [run_slot]; try done.
  - unfold sftp_enter. destruct (ce_sftp (sw_entry w)) eqn:Hs; intros [= <-]; split; cbn; rewrite ?Hs, ?app_nil_r; try done.
    intros p Hp. apply elem_of_app in Hp as [Hp|Hp]; [by apply Hg|]. apply list_elem_of_singleton in Hp as ->. by apply Hr.
  - destruct (sw_openings w !! i) as [g|]; [|done]. unfold sftp_created.
    destruct (ce_sftp (sw_entry w)) eqn:Hs; [|destruct (Z.eqb_spec generation (ce_sftp_generation (sw_entry w))) as [->|]|];
      intros [= <-]; split; cbn; rewrite ?Hs, ?app_nil_r; try done.
    + intros s [= <-]. apply elem_of_app. right. by apply list_elem_of_singleton.
    + intros p Hp. apply elem_of_app in Hp as [Hp|Hp]; apply elem_of_app; [left; by apply Hg|by right].
    + intros p Hp. apply elem_of_app in Hp as [Hp|Hp]; [by apply Hg|]. apply list_elem_of_singleton in Hp as ->. by apply Hr.
  - destruct (sw_openings w !! i) as [g|]; [|done]. unfold sftp_failed. intros [= <-].
    destruct (ce_sftp (sw_entry w)) eqn:Hs; split; cbn; rewrite ?Hs; done.
  - intros [= <-]. by split.
  - intros [= <-]. by split.
  - unfold invalidate_sftp. destruct (ce_sftp (sw_entry w)) eqn:Hs; intros [= <-]; by split.
Qed.

(** no caller waits in vain: in every interleaving of openings, failures and
    invalidations, as long as the slot says that a session is being opened some
    task is opening one, and its end takes the slot out of that state. *)
Theorem sftp_slot_never_stuck (e : ConnectionEntry) (l : list slot_step) (w : slot_world) :
  ce_sftp e = Empty -> run_slots l (slot_new e) = Some w ->
  waits_for_opening w
  /\ forall now session, (forall g, ce_sftp (snd (sftp_created now session (sw_entry w))) <> Initializing g)
       /\ (forall g, ce_sftp (sftp_failed (sw_entry w)) <> Initializing g).
Proof.
  intros He Hl. split.
  - eapply (run_slots_invariant waits_for_opening (fun _ => True)); [intros s w1 w2 _; apply waits_step|by apply Forall_true| |exact Hl].
    unfold waits_for_opening. cbn. by rewrite He.
  - intros now session. unfold sftp_created, sftp_failed. split; intros g.
    + destruct (ce_sftp (sw_entry w)) eqn:Hs; cbn [snd]; [congruence|by destruct (_ =? _)|congruence].
    + destruct (ce_sftp (sw_entry w)) eqn:Hs; [congruence|done|congruence].
Qed.

Definition sample_entry : ConnectionEntry := ConnectionEntry_new 0 "c" sample_config sample_pool.

Lemma sftp_slot_never_stuck_witness :
  exists w, run_slots [TEnter; TEnter; TClearSftp 1; TEnter] (slot_new sample_entry) = Some w
    /\ ce_sftp (sw_entry w) = Initializing 1 /\ waits_for_opening w.
Proof.
  eexists. split; [reflexivity|]. split; [reflexivity|].
  exact (proj1 (sftp_slot_never_stuck sample_entry [TEnter; TEnter; TClearSftp 1; TEnter] _ eq_refl eq_refl)).
Defined.

(** as long as generations are raised under the slot's lock (as [clear_sftp]
    and [invalidate_sftp] do), a session is handed out, or found again by its
    generation, only with a generation under which it was published, in every
    interleaving. *)
Theorem sftp_generations_match (e : ConnectionEntry) (l : list slot_step) (w : slot_world) :
  ce_sftp e = Empty -> Forall locked l -> run_slots l (slot_new e) = Some w ->
  (forall s g, (s, g) ∈ sw_given w -> (s, g) ∈ sw_published w)
  /\ (forall s g, acquire_existing_sftp_generation g (sw_entry w) = Some s -> (s, g) ∈ sw_published w).
Proof.
  intros He Hlk Hl. assert (Hok : slot_ok w).
  { eapply (run_slots_invariant slot_ok locked); [intros; by eapply slot_ok_step|exact Hlk| |exact Hl].
    split; cbn; [by rewrite He|]. intros p Hp. by apply elem_of_nil in Hp. }
  split; [intros s g; apply (so_given _ Hok)|]. intros s g. unfold acquire_existing_sftp_generation.
  destruct (Z.eqb_spec (ce_sftp_generation (sw_entry w)) g) as [<-|]; [|done]. cbn.
  destruct (ce_sftp (sw_entry w)) eqn:Hs; try done. intros [= <-]. by apply (so_ready _ Hok).
Qed.

Lemma sftp_generations_match_witness :
  let steps := [TEnter; TCreated 1 0; TClearSftp 2; TEnter; TCreated 3 0] in
  let w := default (slot_new sample_entry) (run_slots steps (slot_new sample_entry)) in
  acquire_existing_sftp_generation 1 (sw_entry w) = Some 1%nat /\ (1%nat, 1) ∈ sw_published w.
Proof.
  intros steps w. assert (H : acquire_existing_sftp_generation 1 (sw_entry w) = Some 1%nat) by (vm_compute; reflexivity).
  split; [exact H|].
  apply (proj2 (sftp_generations_match sample_entry steps w ltac:(vm_compute; reflexivity) ltac:(repeat constructor)
    ltac:(vm_compute; reflexivity)) 1%nat 1). exact H.
Defined.

(** The check on completion compares the slot's generation with the current one,
    not with the one under which this opening began.  A session whose opening
    began before an invalidation, under generation 0, is published as the one of
    generation 1 when another task has begun an opening since; that task then
    gets the old session too. *)
Example stale_session_published :
  let w := default (slot_new sample_entry)
    (run_slots [TEnter; TClearBump; TClearLocked 1; TEnter; TCreated 2 0; TCreated 3 0] (slot_new sample_entry)) in
  sw_published w = [(0%nat, 1)] /\ sw_given w = [(0%nat, 1); (0%nat, 1)].
Proof. by vm_compute. Qed.

(** [clear_physical] raises the generation before it takes the lock: a caller in
    between is given the session that is being dropped, under the new
    generation, which the next session then bears too. *)
Example dropped_session_given_new_generation :
  let w := default (slot_new sample_entry)
    (run_slots [TEnter; TCreated 1 0; TClearBump; TEnter; TClearLocked 2; TEnter; TCreated 3 0] (slot_new sample_entry)) in
  sw_published w = [(0%nat, 0); (1%nat, 1)] /\ sw_given w = [(0%nat, 0); (0%nat, 1); (1%nat, 1)].
Proof. by vm_compute. Qed.
