(* ===== verification/Utf16.v ===== *)
(** * UTF-16 offsets and words (hapcli-editor-core: utf16.rs, word.rs)

    Platform text APIs count UTF-16 units, the editor counts bytes.  A [str] is
    the list of its characters ([Text]); a byte offset is a sum of
    [char_len_utf8], a UTF-16 offset a sum of [char_len_utf16].  Rust panics when a
    slice does not start and end on character boundaries, or ends before it
    starts: slices give an [option], and the theorems say when the functions
    that slice have a result.  Every function is specified by [prefix16], the
    shortest prefix of a text that has a given number of UTF-16 units. *)
From S2P Require Import Prelude Text.
From stdpp Require Import prelude numbers list.
Open Scope Z_scope.

(** ** Strings *)

(** [char::len_utf16]. *)
Definition char_len_utf16 (c : Z) : Z := if c <? 0x10000 then 1 else 2.

Fixpoint zsum (l : list Z) : Z := match l with [] => 0 | x :: r => x + zsum r end.

(** [str::len]. *)
Definition str_len (s : list Z) : Z := zsum (map char_len_utf8 s).
(** [str::encode_utf16().count()]. *)
Definition utf16_len (s : list Z) : Z := zsum (map char_len_utf16 s).

(** [str::char_indices], for text that starts at byte [pos]. *)
Fixpoint char_indices_from (pos : Z) (s : list Z) : list (Z * Z) :=
  match s with
  | [] => []
  | c :: r => (pos, c) :: char_indices_from (pos + char_len_utf8 c) r
  end.
Definition char_indices (s : list Z) : list (Z * Z) := char_indices_from 0 s.

(** [str::is_char_boundary]. *)
Definition is_char_boundary (s : list Z) (byte : Z) : bool :=
  (byte =? str_len s) || existsb (fun ic => byte =? ic.1) (char_indices s).

(** [&s[..byte]] and [&s[byte..]]; [None] is a panic. *)
Fixpoint slice_to (s : list Z) (byte : Z) : option (list Z) :=
  if byte =? 0 then Some []
  else match s with
       | [] => None
       | c :: r => if char_len_utf8 c <=? byte
                   then cons c <$> slice_to r (byte - char_len_utf8 c) else None
       end.
Fixpoint slice_from (s : list Z) (byte : Z) : option (list Z) :=
  if byte =? 0 then Some s
  else match s with
       | [] => None
       | c :: r => if char_len_utf8 c <=? byte
                   then slice_from r (byte - char_len_utf8 c) else None
       end.
(** [&s[start..end]]. *)
Definition slice (s : list Z) (start end_ : Z) : option (list Z) :=
  if start <=? end_ then t ← slice_from s start; slice_to t (end_ - start) else None.

(** [String::replace_range]. *)
Definition replace_range (s : list Z) (start end_ : Z) (replacement : list Z) : option (list Z) :=
  if start <=? end_
  then p ← slice_to s start; q ← slice_from s end_; Some (p ++ replacement ++ q)
  else None.

(** ** Conversions *)

(** The loop of [byte_index_for_utf16]; [Some] is its early return. *)
Fixpoint byte_index_loop (cis : list (Z * Z)) (utf16_count offset : Z) : option Z :=
  match cis with
  | [] => None
  | (byte_index, ch) :: rest =>
      if offset <=? utf16_count then Some byte_index
      else byte_index_loop rest (utf16_count + char_len_utf16 ch) offset
  end.
Definition byte_index_for_utf16 (value : list Z) (offset : Z) : Z :=
  default (str_len value) (byte_index_loop (char_indices value) 0 offset).

Definition replace_utf16 (value : list Z) (range : option (Z * Z)) (replacement : list Z)
    : option (list Z) :=
  let '(range_start, range_end) :=
    match range with
    | Some r => r
    | None => let end_ := utf16_len value in (end_, end_)
    end in
  let start := byte_index_for_utf16 value range_start in
  let end_ := byte_index_for_utf16 value range_end in
  replace_range value start end_ replacement.

Definition utf16_slice (value : list Z) (range_start range_end : Z) : option (list Z) :=
  let start := byte_index_for_utf16 value range_start in
  let end_ := byte_index_for_utf16 value range_end in
  slice value start end_.

(** [while byte > 0 && !is_char_boundary(byte) { byte -= 1 }]: at most [byte]
    turns. *)
Fixpoint floor_char_boundary_loop (value : list Z) (byte_offset : nat) : Z :=
  match byte_offset with
  | O => 0
  | S k => if is_char_boundary value (Z.of_nat byte_offset) then Z.of_nat byte_offset
           else floor_char_boundary_loop value k
  end.
Definition floor_char_boundary (value : list Z) (byte_offset : Z) : Z :=
  floor_char_boundary_loop value (Z.to_nat byte_offset).

Definition utf16_offset_for_byte_index (value : list Z) (byte_offset : Z) : option Z :=
  let byte_offset := floor_char_boundary value (Z.min byte_offset (str_len value)) in
  utf16_len <$> slice_to value byte_offset.

Definition utf16_offset_for_char_index (value : list Z) (char_offset : Z) : Z :=
  zsum (map char_len_utf16 (take (Z.to_nat char_offset) value)).

Fixpoint char_index_loop (value : list Z) (char_index utf16_count offset : Z) : option Z :=
  match value with
  | [] => None
  | ch :: rest =>
      if offset <=? utf16_count then Some char_index
      else char_index_loop rest (char_index + 1) (utf16_count + char_len_utf16 ch) offset
  end.
Definition char_index_for_utf16 (value : list Z) (offset : Z) : Z :=
  default (zlen value) (char_index_loop value 0 0 offset).

(** ** Neighbouring boundaries *)

Fixpoint previous_boundary_loop (value : list Z) (previous utf16_count offset : Z) : Z :=
  match value with
  | [] => previous
  | ch :: rest =>
      if offset <=? utf16_count then previous
      else previous_boundary_loop rest utf16_count (utf16_count + char_len_utf16 ch) offset
  end.
Definition previous_utf16_boundary (value : list Z) (offset : Z) : Z :=
  previous_boundary_loop value 0 0 offset.

Fixpoint next_boundary_loop (value : list Z) (utf16_count offset : Z) : option Z :=
  match value with
  | [] => None
  | ch :: rest =>
      let next := utf16_count + char_len_utf16 ch in
      if offset <=? utf16_count then Some next else next_boundary_loop rest next offset
  end.
Definition next_utf16_boundary (value : list Z) (offset : Z) : Z :=
  default (utf16_len value) (next_boundary_loop value 0 offset).

(** ** Words *)

(** The backwards scan: [Some] is the early return, after the white space at
    [byte_index]; the argument is reversed. *)
Fixpoint previous_word_loop (prefix : list Z) (rcis : list (Z * Z)) (saw_word : bool) : option Z :=
  match rcis with
  | [] => Some 0
  | (byte_index, ch) :: rest =>
      if is_whitespace ch
      then if saw_word
           then utf16_len <$> slice_to prefix (byte_index + char_len_utf8 ch)
           else previous_word_loop prefix rest saw_word
      else previous_word_loop prefix rest true
  end.
Definition previous_word_boundary (value : list Z) (offset : Z) : option Z :=
  let current := byte_index_for_utf16 value offset in
  prefix ← slice_to value current;
  previous_word_loop prefix (reverse (char_indices prefix)) false.

Fixpoint next_word_loop (value : list Z) (current : Z) (cis : list (Z * Z)) (saw_word : bool) : option Z :=
  match cis with
  | [] => Some (utf16_len value)
  | (relative_byte, ch) :: rest =>
      if is_whitespace ch
      then if saw_word
           then utf16_len <$> slice_to value (current + relative_byte)
           else next_word_loop value current rest saw_word
      else next_word_loop value current rest true
  end.
Definition next_word_boundary (value : list Z) (offset : Z) : option Z :=
  let current := byte_index_for_utf16 value offset in
  suffix ← slice_from value current;
  next_word_loop value current (char_indices suffix) false.

Definition previous_char_start (value : list Z) (byte_index : Z) : option Z :=
  prefix ← slice_to value byte_index;
  Some (match last (char_indices prefix) with Some (index, _) => index | None => 0 end).

(** [value[byte..].chars().next()]. *)
Definition char_at (value : list Z) (byte : Z) : option (option Z) := head <$> slice_from value byte.

Definition is_space_at (value : list Z) (byte : Z) : option bool :=
  o ← char_at value byte; Some (match o with Some ch => is_whitespace ch | None => false end).

(** [while start > 0 { .. }] moves to the start of the word; each turn goes one
    character back. *)
Fixpoint word_start_loop (fuel : nat) (value : list Z) (start : Z) : option Z :=
  match fuel with
  | O => None
  | S k =>
      if 0 <? start
      then previous ← previous_char_start value start;
           o ← char_at value previous;
           match o with
           | None => Some start
           | Some ch => if is_whitespace ch then Some start else word_start_loop k value previous
           end
      else Some start
  end.
(** [while end < value.len() { .. }]. *)
Fixpoint word_end_loop (fuel : nat) (value : list Z) (end_ : Z) : option Z :=
  match fuel with
  | O => None
  | S k =>
      if end_ <? str_len value
      then o ← char_at value end_;
           match o with
           | None => Some end_
           | Some ch => if is_whitespace ch then Some end_
                        else word_end_loop k value (end_ + char_len_utf8 ch)
           end
      else Some end_
  end.

(** The character the word is looked for at: the last one at the end of the
    text, the one before white space that follows a word. *)
Definition word_anchor (value : list Z) (offset : Z) : option Z :=
  let text_len := utf16_len value in
  let byte_index := byte_index_for_utf16 value (Z.min offset text_len) in
  byte_index ← (if (byte_index =? str_len value) && (0 <? byte_index)
                then previous_char_start value byte_index else Some byte_index);
  space ← is_space_at value byte_index;
  if space && (0 <? byte_index)
  then previous ← previous_char_start value byte_index;
       space_before ← is_space_at value previous;
       Some (if negb space_before then previous else byte_index)
  else Some byte_index.

Definition word_range_for_utf16_offset (value : list Z) (offset : Z) : option (Z * Z) :=
  let text_len := utf16_len value in
  if text_len =? 0 then Some (0, 0)
  else byte_index ← word_anchor value offset;
       start ← word_start_loop (S (length value)) value byte_index;
       end_ ← word_end_loop (S (length value)) value byte_index;
       s ← utf16_offset_for_byte_index value start;
       e ← utf16_offset_for_byte_index value end_;
       Some (s, e).

(** ** Lines *)

Fixpoint line_ranges_loop (value : list Z) (start offset : Z) : list (Z * Z) :=
  match value with
  | [] => [(start, offset)]
  | ch :: rest =>
      if ch =? 10
      then (start, offset)
           :: line_ranges_loop rest (offset + char_len_utf16 ch) (offset + char_len_utf16 ch)
      else line_ranges_loop rest start (offset + char_len_utf16 ch)
  end.
Definition line_ranges_utf16 (value : list Z) : list (Z * Z) := line_ranges_loop value 0 0.

Definition line_range_for_utf16_offset (value : list Z) (offset : Z) : Z * Z :=
  let ranges := line_ranges_utf16 value in
  let text_len := utf16_len value in
  default (text_len, text_len) (List.find (fun range => offset <=? range.2) ranges).
Definition line_start_for_utf16_offset (value : list Z) (offset : Z) : Z :=
  (line_range_for_utf16_offset value offset).1.
Definition line_end_for_utf16_offset (value : list Z) (offset : Z) : Z :=
  (line_range_for_utf16_offset value offset).2.

Definition control_k_delete_end (value : list Z) (offset : Z) : Z :=
  let line_end := line_end_for_utf16_offset value offset in
  if offset <? line_end then line_end else next_utf16_boundary value offset.

(** [Iterator::position]. *)
Fixpoint position {A} (P : A -> bool) (l : list A) : option nat :=
  match l with
  | [] => None
  | x :: r => if P x then Some O else S <$> position P r
  end.

(** [ranges] is never empty; [None] would be the panic of an index out of
    range. *)
Definition vertical_line_navigation_destination (value : list Z) (offset : Z) (down : bool) : option Z :=
  let ranges := line_ranges_utf16 value in
  match ranges with
  | [] => Some 0
  | _ =>
      let line_index := default (Nat.pred (length ranges))
                          (position (fun range => offset <=? range.2) ranges) in
      current ← ranges !! line_index;
      let column := sat_sub offset current.1 in
      if down
      then match ranges !! S line_index with
           | None => Some (utf16_len value)
           | Some next => Some (next.1 + Z.min column (sat_sub next.2 next.1))
           end
      else match line_index with
           | O => Some 0
           | S k => previous ← ranges !! k;
                    Some (previous.1 + Z.min column (sat_sub previous.2 previous.1))
           end
  end.

(** ** Transposition *)

(** [chars.swap(i, j)] for indices in range. *)
Definition swap (l : list Z) (i j : nat) : option (list Z) :=
  x ← l !! i; y ← l !! j; Some (<[i := y]> (<[j := x]> l)).

(** The outer option is the panic of [swap], the inner one the function's
    result. *)
Definition transpose_text_at_utf16_offset (value : list Z) (offset : Z) : option (option (list Z * Z)) :=
  if (length value <? 2)%nat then Some None
  else
    let text_len := utf16_len value in
    let right := if text_len <=? offset then zlen value - 1
                 else Z.min (char_index_for_utf16 value offset) (zlen value - 1) in
    if right =? 0 then Some None
    else
      let left := right - 1 in
      chars ← swap value (Z.to_nat left) (Z.to_nat right);
      let next_caret := if text_len <=? offset then text_len
                        else utf16_offset_for_char_index chars (right + 1) in
      Some (Some (chars, next_caret)).

(** ** The word under the cursor (word.rs) *)

Section Word.
(** [char::is_alphanumeric], a Unicode table. *)
Context (is_alphanumeric : Z -> bool).

Definition is_word_char (ch : Z) : bool := (ch =? 95) || (ch =? 36) || is_alphanumeric ch.

Definition word_at (source : list Z) (offset : Z) : option (list Z) :=
  let offset := floor_char_boundary source (Z.min (Z.min offset (str_len source)) (str_len source)) in
  before ← slice_to source offset;
  after ← slice_from source offset;
  let start := match List.find (fun ic : Z * Z => negb (is_word_char ic.2)) (reverse (char_indices before)) with
               | Some (index, ch) => index + char_len_utf8 ch
               | None => 0
               end in
  let end_ := match List.find (fun ic : Z * Z => negb (is_word_char ic.2)) (char_indices after) with
              | Some (index, _) => offset + index
              | None => str_len source
              end in
  slice source start end_.
End Word.

(** ** Lengths *)

Lemma char_len_utf8_pos c : 1 <= char_len_utf8 c.
Proof. unfold char_len_utf8. repeat case_match; lia. Qed.
Lemma char_len_utf16_range c : 1 <= char_len_utf16 c <= 2.
Proof. unfold char_len_utf16. case_match; lia. Qed.

Lemma zsum_app l k : zsum (l ++ k) = zsum l + zsum k.
Proof. induction l; simpl; lia. Qed.
Lemma str_len_cons c s : str_len (c :: s) = char_len_utf8 c + str_len s.
Proof. done. Qed.
Lemma str_len_app s t : str_len (s ++ t) = str_len s + str_len t.
Proof. unfold str_len. by rewrite map_app, zsum_app. Qed.
Lemma utf16_len_cons c s : utf16_len (c :: s) = char_len_utf16 c + utf16_len s.
Proof. done. Qed.
Lemma str_len_nil : str_len [] = 0.
Proof. done. Qed.
Lemma utf16_len_nil : utf16_len [] = 0.
Proof. done. Qed.
Lemma utf16_len_app s t : utf16_len (s ++ t) = utf16_len s + utf16_len t.
Proof. unfold utf16_len. by rewrite map_app, zsum_app. Qed.
Create Rewrite HintDb len.
#[export] Hint Rewrite str_len_nil utf16_len_nil str_len_cons str_len_app utf16_len_cons utf16_len_app : len.

Lemma str_len_nonneg s : 0 <= str_len s.
Proof. induction s as [|c s IH]; [done|]. autorewrite with len. pose proof (char_len_utf8_pos c). lia. Qed.
Lemma utf16_len_nonneg s : 0 <= utf16_len s.
Proof. induction s as [|c s IH]; [done|]. autorewrite with len. pose proof (char_len_utf16_range c). lia. Qed.
Lemma str_len_pos s : s <> [] -> 0 < str_len s.
Proof.
  destruct s as [|c s]; [done|]. intros _. autorewrite with len.
  pose proof (char_len_utf8_pos c). pose proof (str_len_nonneg s). lia.
Qed.
Lemma utf16_len_pos s : s <> [] -> 0 < utf16_len s.
Proof.
  destruct s as [|c s]; [done|]. intros _. autorewrite with len.
  pose proof (char_len_utf16_range c). pose proof (utf16_len_nonneg s). lia.
Qed.

(** The byte length of a text is the length of its encoding. *)
Lemma str_len_encode s : str_len s = zlen (utf8_encode s).
Proof.
  induction s as [|c s IH]; [done|]. change (c :: s) with ([c] ++ s).
  rewrite utf8_encode_app, zlen_app, str_len_app, IH. f_equal.
  unfold str_len, utf8_encode, char_len_utf8, utf8_encode_char. simpl. rewrite app_nil_r.
  repeat case_match; done.
Qed.

(** ** Slices at boundaries *)

Lemma slice_to_app p q : slice_to (p ++ q) (str_len p) = Some p.
Proof.
  induction p as [|c p IH]; [by destruct q|]. pose proof (str_len_pos (c :: p)).
  cbn [app slice_to]. rewrite (proj2 (Z.eqb_neq _ _)) by naive_solver lia.
  rewrite str_len_cons. rewrite (proj2 (Z.leb_le _ _)) by (pose proof (str_len_nonneg p); lia).
  by replace (char_len_utf8 c + str_len p - char_len_utf8 c) with (str_len p) by lia; rewrite IH.
Qed.

Lemma slice_from_app p q : slice_from (p ++ q) (str_len p) = Some q.
Proof.
  induction p as [|c p IH]; [by destruct q|]. pose proof (str_len_pos (c :: p)).
  cbn [app slice_from]. rewrite (proj2 (Z.eqb_neq _ _)) by naive_solver lia.
  rewrite str_len_cons. rewrite (proj2 (Z.leb_le _ _)) by (pose proof (str_len_nonneg p); lia).
  by replace (char_len_utf8 c + str_len p - char_len_utf8 c) with (str_len p) by lia; rewrite IH.
Qed.

Lemma slice_to_eq s p q : s = p ++ q -> slice_to s (str_len p) = Some p.
Proof. intros ->. apply slice_to_app. Qed.
Lemma slice_from_eq s p q : s = p ++ q -> slice_from s (str_len p) = Some q.
Proof. intros ->. apply slice_from_app. Qed.

Lemma slice_app p m q : slice (p ++ m ++ q) (str_len p) (str_len (p ++ m)) = Some m.
Proof.
  unfold slice. rewrite str_len_app. pose proof (str_len_nonneg m).
  rewrite (proj2 (Z.leb_le _ _)) by lia. rewrite slice_from_app. cbn.
  replace (str_len p + str_len m - str_len p) with (str_len m) by lia. apply slice_to_app.
Qed.

Lemma replace_range_app p m q r :
  replace_range (p ++ m ++ q) (str_len p) (str_len (p ++ m)) r = Some (p ++ r ++ q).
Proof.
  unfold replace_range. rewrite str_len_app at 1. pose proof (str_len_nonneg m).
  rewrite (proj2 (Z.leb_le _ _)) by lia. rewrite slice_to_app. cbn.
  rewrite app_assoc, slice_from_app. done.
Qed.

Lemma char_indices_app_from pos p q :
  char_indices_from pos (p ++ q) = char_indices_from pos p ++ char_indices_from (pos + str_len p) q.
Proof.
  revert pos. induction p as [|c p IH]; intros pos; simpl; [by rewrite Z.add_0_r|].
  rewrite IH, str_len_cons. by rewrite Z.add_assoc.
Qed.
Lemma char_indices_snoc p c : char_indices (p ++ [c]) = char_indices p ++ [(str_len p, c)].
Proof. unfold char_indices. by rewrite char_indices_app_from. Qed.

Lemma is_char_boundary_app p q : is_char_boundary (p ++ q) (str_len p) = true.
Proof.
  unfold is_char_boundary. destruct q as [|c q]; [by rewrite app_nil_r, Z.eqb_refl|].
  apply orb_true_intro. right. apply existsb_exists. exists (str_len p, c). split; [|apply Z.eqb_refl].
  apply list_elem_of_In. unfold char_indices. rewrite char_indices_app_from, Z.add_0_l. cbn.
  rewrite elem_of_app. right. constructor.
Qed.

Lemma floor_char_boundary_app p q : floor_char_boundary (p ++ q) (str_len p) = str_len p.
Proof.
  unfold floor_char_boundary. pose proof (str_len_nonneg p) as Hp.
  destruct (Z.to_nat (str_len p)) as [|k] eqn:E; [simpl; lia|]. cbn [floor_char_boundary_loop].
  assert (HE : Z.of_nat (S k) = str_len p) by lia. by rewrite HE, is_char_boundary_app.
Qed.

(** Every boundary splits the text. *)
Lemma is_char_boundary_split s b :
  is_char_boundary s b = true -> exists p q, s = p ++ q /\ b = str_len p.
Proof.
  unfold is_char_boundary. intros [H|H]%orb_true_iff.
  - exists s, []. rewrite app_nil_r. split; [done|lia].
  - apply existsb_exists in H as ([i c] & Hin & Hb). apply Z.eqb_eq in Hb. simpl in Hb. subst b.
    unfold char_indices in Hin. apply list_elem_of_In in Hin.
    assert (Hgen : forall s pos, (i, c) ∈ char_indices_from pos s ->
              exists p q, s = p ++ q /\ i = pos + str_len p).
    { clear. intros s. induction s as [|d s IH]; intros pos H; cbn in H; [by apply not_elem_of_nil in H|].
      apply elem_of_cons in H as [[= -> ->]|H]; [by exists [], (d :: s); rewrite Z.add_0_r|].
      apply IH in H as (p & q & -> & ->). exists (d :: p), q. split; [done|].
      rewrite str_len_cons. lia. }
    destruct (Hgen _ _ Hin) as (p & q & -> & ->). by exists p, q.
Qed.

(** Rounding down always ends on a boundary at or before the offset. *)
Lemma floor_char_boundary_split s b : 0 <= b ->
  exists p q, s = p ++ q /\ floor_char_boundary s b = str_len p /\ str_len p <= b.
Proof.
  intros Hb. unfold floor_char_boundary. apply Z2Nat.id in Hb. revert Hb.
  generalize (Z.to_nat b). intros n <-. induction n as [|k IH].
  - by exists [], s.
  - cbn [floor_char_boundary_loop]. destruct (is_char_boundary s (Z.of_nat (S k))) eqn:E.
    + apply is_char_boundary_split in E as (p & q & -> & E). exists p, q. split; [done|lia].
    + destruct IH as (p & q & -> & ? & ?). exists p, q. split; [done|]. lia.
Qed.

(** ** The shortest prefix of a given UTF-16 length *)

Fixpoint prefix16 (s : list Z) (offset : Z) : list Z :=
  match s with
  | [] => []
  | c :: r => if offset <=? 0 then [] else c :: prefix16 r (offset - char_len_utf16 c)
  end.

Lemma prefix16_split s off :
  exists q, s = prefix16 s off ++ q /\ (q = [] \/ off <= utf16_len (prefix16 s off)).
Proof.
  revert off. induction s as [|c s IH]; intros off; simpl; [by exists []; auto|].
  destruct (Z.leb_spec off 0); [exists (c :: s); split; [done|right; simpl; done]|].
  destruct (IH (off - char_len_utf16 c)) as (q & Hq & H'). exists q. cbn [app]. rewrite <-Hq.
  split; [done|]. destruct H'; [auto|]. right. autorewrite with len. lia.
Qed.

Lemma prefix16_app p q : prefix16 (p ++ q) (utf16_len p) = p.
Proof.
  induction p as [|c p IH]; [by destruct q|]. cbn [app prefix16].
  pose proof (utf16_len_pos (c :: p)). rewrite (proj2 (Z.leb_gt _ _)) by naive_solver.
  rewrite utf16_len_cons. by replace (char_len_utf16 c + utf16_len p - char_len_utf16 c) with (utf16_len p) by lia; rewrite IH.
Qed.

Lemma prefix16_near s off : 0 <= off -> utf16_len (prefix16 s off) <= off + 1.
Proof.
  revert off. induction s as [|c s IH]; intros off H; cbn [prefix16]; [rewrite utf16_len_nil; lia|].
  destruct (Z.leb_spec off 0); [rewrite utf16_len_nil; lia|]. rewrite utf16_len_cons. pose proof (char_len_utf16_range c).
  destruct (Z.leb_spec (char_len_utf16 c) off).
  - specialize (IH (off - char_len_utf16 c) ltac:(lia)). lia.
  - replace (prefix16 s (off - char_len_utf16 c)) with (@nil Z); [rewrite utf16_len_nil; lia|].
    destruct s; simpl; [done|]. by rewrite (proj2 (Z.leb_le _ _)) by lia.
Qed.

Lemma prefix16_reaches s off : off <= utf16_len s -> off <= utf16_len (prefix16 s off).
Proof. destruct (prefix16_split s off) as (q & Hq & [->|H]); [|done]. by rewrite app_nil_r in Hq; rewrite <-Hq. Qed.

Lemma prefix16_mono s a b : a <= b -> exists m, prefix16 s b = prefix16 s a ++ m.
Proof.
  revert a b. induction s as [|c s IH]; intros a b H; simpl; [by exists []|].
  destruct (Z.leb_spec a 0); [eauto|]. rewrite (proj2 (Z.leb_gt _ _)) by lia.
  destruct (IH (a - char_len_utf16 c) (b - char_len_utf16 c)) as [m ->]; [lia|]. by exists m.
Qed.

Lemma prefix16_all s off : utf16_len s <= off -> prefix16 s off = s.
Proof.
  revert off. induction s as [|c s IH]; intros off H; [done|]. cbn [prefix16]. rewrite utf16_len_cons in H.
  pose proof (char_len_utf16_range c). pose proof (utf16_len_nonneg s).
  rewrite (proj2 (Z.leb_gt _ _)) by lia. by rewrite IH by lia.
Qed.

Lemma byte_index_prefix16 s off : byte_index_for_utf16 s off = str_len (prefix16 s off).
Proof.
  unfold byte_index_for_utf16, char_indices.
  assert (Hgen : forall pos cnt, default (pos + str_len s) (byte_index_loop (char_indices_from pos s) cnt off)
            = pos + str_len (prefix16 s (off - cnt))).
  { induction s as [|c s IH]; intros pos cnt; [done|].
    cbn [char_indices_from byte_index_loop char_index_loop next_boundary_loop previous_boundary_loop prefix16].
    replace (off - cnt <=? 0) with (off <=? cnt) by lia. destruct (off <=? cnt); cbn [default from_option id length drop take]; [autorewrite with len; lia|].
    autorewrite with len. rewrite Z.add_assoc, IH, Z.sub_add_distr. lia. }
  specialize (Hgen 0 0). by rewrite Z.sub_0_r, !Z.add_0_l in Hgen.
Qed.

Lemma char_index_prefix16 s off : char_index_for_utf16 s off = zlen (prefix16 s off).
Proof.
  unfold char_index_for_utf16.
  assert (Hgen : forall i cnt, default (i + zlen s) (char_index_loop s i cnt off)
            = i + zlen (prefix16 s (off - cnt))).
  { induction s as [|c s IH]; intros i cnt; [done|].
    cbn [char_indices_from byte_index_loop char_index_loop next_boundary_loop previous_boundary_loop prefix16].
    replace (off - cnt <=? 0) with (off <=? cnt) by lia. destruct (off <=? cnt); cbn [default from_option id length drop take]; [unfold zlen; simpl; lia|].
    rewrite !zlen_cons, Z.add_assoc, IH, Z.sub_add_distr. lia. }
  specialize (Hgen 0 0). by rewrite Z.sub_0_r, !Z.add_0_l in Hgen.
Qed.

Lemma utf16_offset_for_byte_app p q : utf16_offset_for_byte_index (p ++ q) (str_len p) = Some (utf16_len p).
Proof.
  unfold utf16_offset_for_byte_index. rewrite str_len_app. pose proof (str_len_nonneg q).
  rewrite Z.min_l by lia. by rewrite floor_char_boundary_app, slice_to_app.
Qed.

Lemma utf16_offset_for_char_app p q : utf16_offset_for_char_index (p ++ q) (zlen p) = utf16_len p.
Proof. unfold utf16_offset_for_char_index, zlen. by rewrite Nat2Z.id, take_app_length. Qed.

(** the converted offsets of a boundary agree in all three units; other
    offsets are rounded to a boundary: UTF-16 offsets by at most one unit,
    upwards, and byte offsets downwards. *)
Theorem utf16_offsets_roundtrip (s p q : list Z) (offset byte : Z) :
  s = p ++ q -> 0 <= offset <= utf16_len s -> 0 <= byte ->
  byte_index_for_utf16 s (utf16_len p) = str_len p
  /\ utf16_offset_for_byte_index s (str_len p) = Some (utf16_len p)
  /\ char_index_for_utf16 s (utf16_len p) = zlen p
  /\ utf16_offset_for_char_index s (zlen p) = utf16_len p
  /\ (exists u, utf16_offset_for_byte_index s (byte_index_for_utf16 s offset) = Some u
                /\ offset <= u <= offset + 1)
  /\ (exists p', p' `prefix_of` s /\ utf16_offset_for_byte_index s byte = Some (utf16_len p')
                 /\ str_len p' <= byte).
Proof.
  intros -> Hoff Hb.
  split_and!; rewrite ?byte_index_prefix16, ?char_index_prefix16, ?prefix16_app;
    eauto using utf16_offset_for_byte_app, utf16_offset_for_char_app.
  - destruct (prefix16_split (p ++ q) offset) as (q' & Hq & _).
    exists (utf16_len (prefix16 (p ++ q) offset)). split.
    + rewrite Hq at 1. apply utf16_offset_for_byte_app.
    + split; [apply prefix16_reaches; lia|apply prefix16_near; lia].
  - unfold utf16_offset_for_byte_index.
    destruct (floor_char_boundary_split (p ++ q) (Z.min byte (str_len (p ++ q)))) as (p' & q' & E & -> & ?).
    { pose proof (str_len_nonneg (p ++ q)). lia. }
    exists p'. rewrite E, slice_to_app. split_and!; [by apply prefix_app_r|done|lia].
Qed.

Lemma utf16_offsets_roundtrip_witness :
  byte_index_for_utf16 [97; 0x1f604; 98] 3 = 5 /\ utf16_offset_for_byte_index [97; 0x1f604; 98] 5 = Some 3
  /\ exists u, utf16_offset_for_byte_index [97; 0x1f604; 98] (byte_index_for_utf16 [97; 0x1f604; 98] 2) = Some u
              /\ 2 <= u <= 2 + 1.
Proof.
  destruct (utf16_offsets_roundtrip [97; 0x1f604; 98] [97; 0x1f604] [98] 2 3) as (H1 & H2 & _ & _ & H3 & _);
    [reflexivity|vm_compute; split; congruence|lia|].
  split; [exact H1|]. split; [exact H2|exact H3].
Defined.

(** ** Replacing and slicing *)

(** a range whose ends are in order selects the text between two boundaries:
    [utf16_slice] gives it, [replace_utf16] puts the replacement in its place,
    and the replacement can be read back.  Both panic when the range is
    reversed and its ends fall on different boundaries. *)
Theorem replace_utf16_exact (value replacement : list Z) (a b : Z) :
  0 <= a ->
  (a <= b -> exists p m q,
    value = p ++ m ++ q /\ p = prefix16 value a /\ p ++ m = prefix16 value b
    /\ utf16_slice value a b = Some m
    /\ replace_utf16 value (Some (a, b)) replacement = Some (p ++ replacement ++ q)
    /\ utf16_slice (p ++ replacement ++ q) (utf16_len p) (utf16_len (p ++ replacement)) = Some replacement)
  /\ (b < a -> prefix16 value b <> prefix16 value a ->
      utf16_slice value a b = None /\ replace_utf16 value (Some (a, b)) replacement = None)
  /\ replace_utf16 value None replacement = Some (value ++ replacement).
Proof.
  intros Ha. split_and!.
  - intros Hab. destruct (prefix16_mono value a b Hab) as [m Hm].
    destruct (prefix16_split value b) as (q & Hq & _). set (p := prefix16 value a) in *.
    assert (Hv : value = p ++ m ++ q) by (by rewrite app_assoc, <-Hm).
    exists p, m, q. split; [done|]. split; [done|]. split; [done|].
    unfold utf16_slice, replace_utf16. rewrite !byte_index_prefix16. fold p. rewrite Hm.
    split; [by rewrite Hv, slice_app|]. split; [by rewrite Hv, replace_range_app|].
    rewrite prefix16_app, app_assoc, prefix16_app, <-app_assoc. apply slice_app.
  - intros Hba Hne. destruct (prefix16_mono value b a) as [m Hm]; [lia|].
    assert (Hlt : (str_len (prefix16 value a) <=? str_len (prefix16 value b)) = false).
    { apply Z.leb_gt. rewrite Hm, str_len_app.
      destruct m; [by rewrite app_nil_r in Hm|]. pose proof (str_len_pos (z :: m)). naive_solver lia. }
    unfold utf16_slice, replace_utf16, slice, replace_range. rewrite !byte_index_prefix16. by rewrite Hlt.
  - unfold replace_utf16. rewrite byte_index_prefix16, prefix16_all by done.
    pose proof (replace_range_app value [] [] replacement) as H. by rewrite !app_nil_r in H.
Qed.

Lemma replace_utf16_exact_witness : exists p m q,
  [97; 0x1f604; 98] = p ++ m ++ q /\ utf16_slice [97; 0x1f604; 98] 1 3 = Some m
  /\ replace_utf16 [97; 0x1f604; 98] (Some (1, 3)) [120; 121] = Some (p ++ [120; 121] ++ q).
Proof.
  destruct (replace_utf16_exact [97; 0x1f604; 98] [120; 121] 1 3 ltac:(lia)) as (H & _).
  destruct (H ltac:(lia)) as (p & m & q & Hv & _ & _ & Hs & Hr & _).
  exists p, m, q. split; [exact Hv|]. split; [exact Hs|exact Hr].
Defined.

(** ** Boundaries *)

Lemma next_boundary_spec s off :
  next_utf16_boundary s off
  = match drop (length (prefix16 s off)) s with
    | c :: _ => utf16_len (prefix16 s off) + char_len_utf16 c
    | [] => utf16_len s
    end.
Proof.
  unfold next_utf16_boundary.
  assert (Hgen : forall cnt, default (cnt + utf16_len s) (next_boundary_loop s cnt off)
            = cnt + match drop (length (prefix16 s (off - cnt))) s with
                    | c :: _ => utf16_len (prefix16 s (off - cnt)) + char_len_utf16 c
                    | [] => utf16_len s
                    end).
  { induction s as [|c s IH]; intros cnt; [done|].
    cbn [char_indices_from byte_index_loop char_index_loop next_boundary_loop previous_boundary_loop prefix16].
    replace (off - cnt <=? 0) with (off <=? cnt) by lia. destruct (off <=? cnt); cbn [default from_option id length drop take]; [autorewrite with len; lia|].
    autorewrite with len. rewrite Z.add_assoc, IH, Z.sub_add_distr. case_match; lia. }
  specialize (Hgen 0). by rewrite Z.sub_0_r, !Z.add_0_l in Hgen.
Qed.

Lemma previous_boundary_spec s off :
  previous_utf16_boundary s off = utf16_len (take (Nat.pred (length (prefix16 s off))) s).
Proof.
  unfold previous_utf16_boundary.
  assert (Hgen : forall prev cnt, previous_boundary_loop s prev cnt off
            = match length (prefix16 s (off - cnt)) with
              | O => prev
              | S k => cnt + utf16_len (take k s)
              end).
  { induction s as [|c s IH]; intros prev cnt; [done|].
    cbn [char_indices_from byte_index_loop char_index_loop next_boundary_loop previous_boundary_loop prefix16].
    replace (off - cnt <=? 0) with (off <=? cnt) by lia. destruct (off <=? cnt); cbn [default from_option id length drop take]; [done|].
    rewrite IH, Z.sub_add_distr. destruct (length (prefix16 s _)); simpl; [autorewrite with len; lia|].
    autorewrite with len. lia. }
  rewrite Hgen, Z.sub_0_r. by destruct (length (prefix16 s off)).
Qed.

(** From a boundary, the next one is after one character and the previous one
    before it; the ends of the text are fixed points; [next] always makes
    progress. *)
Theorem utf16_boundaries (p q : list Z) (c offset : Z) :
  next_utf16_boundary (p ++ c :: q) (utf16_len p) = utf16_len (p ++ [c])
  /\ previous_utf16_boundary (p ++ c :: q) (utf16_len (p ++ [c])) = utf16_len p
  /\ next_utf16_boundary p (utf16_len p) = utf16_len p
  /\ previous_utf16_boundary p 0 = 0
  /\ (0 <= offset < utf16_len p -> offset < next_utf16_boundary p offset <= utf16_len p).
Proof.
  split_and!.
  - rewrite next_boundary_spec, prefix16_app, drop_app_length. autorewrite with len. lia.
  - rewrite previous_boundary_spec. replace (p ++ c :: q) with ((p ++ [c]) ++ q) by by rewrite <-app_assoc.
    rewrite prefix16_app, length_app, Nat.add_1_r, <-app_assoc. simpl. by rewrite take_app_length.
  - rewrite next_boundary_spec, prefix16_all, drop_ge; done.
  - rewrite previous_boundary_spec. by destruct p.
  - intros [H0 H1]. rewrite next_boundary_spec. destruct (prefix16_split p offset) as (r & Hr & Hor).
    assert (Hd : drop (length (prefix16 p offset)) p = r) by (rewrite Hr at 2; apply drop_app_length).
    rewrite Hd. pose proof (prefix16_reaches p offset ltac:(lia)).
    pose proof (f_equal utf16_len Hr) as HL. rewrite utf16_len_app in HL.
    destruct r as [|d r]; [lia|]. rewrite utf16_len_cons in HL.
    pose proof (char_len_utf16_range d). pose proof (utf16_len_nonneg r). lia.
Qed.

(** ** Words *)

(** [stops P o]: there is no character, or one outside the run of [P]. *)
Definition stops (P : Z -> bool) (o : option Z) : Prop :=
  match o with Some c => P c = false | None => True end.
(** [w] is a run of [P] between [a] and [b] that cannot be extended. *)
Definition maximal_run (P : Z -> bool) (a w b : list Z) : Prop :=
  Forall (fun c => P c = true) w /\ stops P (last a) /\ stops P (head b).
Definition solid (c : Z) : bool := negb (is_whitespace c).

Lemma find_run P pos s :
  exists w q, s = w ++ q /\ Forall (fun c => P c = true) w /\ stops P (head q)
  /\ List.find (fun ic : Z * Z => negb (P ic.2)) (char_indices_from pos s)
     = match q with c :: _ => Some (pos + str_len w, c) | [] => None end.
Proof.
  revert pos. induction s as [|c s IH]; intros pos; [by exists [], []|].
  cbn [char_indices_from List.find snd]. destruct (P c) eqn:E; cbn [negb].
  - destruct (IH (pos + char_len_utf8 c)) as (w & q & -> & Hw & Hq & ->). exists (c :: w), q.
    split_and!; [done|by constructor|done|]. rewrite str_len_cons, Z.add_assoc. done.
  - exists [], (c :: s). split_and!; [done..|]. by rewrite str_len_nil, Z.add_0_r.
Qed.

Lemma rfind_run P s :
  exists a w, s = a ++ w /\ Forall (fun c => P c = true) w /\ stops P (last a)
  /\ match List.find (fun ic : Z * Z => negb (P ic.2)) (reverse (char_indices s)) with
     | Some (index, ch) => index + char_len_utf8 ch
     | None => 0
     end = str_len a.
Proof.
  induction s as [|c s IH] using rev_ind; [by exists [], []|].
  rewrite char_indices_snoc, reverse_app. cbn [reverse rev_append app List.find snd].
  destruct (P c) eqn:E; cbn [negb].
  - destruct IH as (a & w & -> & Hw & Ha & ->). exists a, (w ++ [c]). rewrite app_assoc.
    split_and!; [done|by apply Forall_app; auto|done|done].
  - exists (s ++ [c]), []. rewrite app_nil_r, last_snoc. split_and!; [done..|].
    autorewrite with len. lia.
Qed.

Section WordAt.
Context (is_alphanumeric : Z -> bool).

(** [word_at] never panics; it gives the maximal run of word characters around
    the boundary at or before the offset. *)
Theorem word_at_maximal (source : list Z) (offset : Z) :
  0 <= offset ->
  exists a w1 w2 b,
    source = a ++ (w1 ++ w2) ++ b
    /\ word_at is_alphanumeric source offset = Some (w1 ++ w2)
    /\ maximal_run (is_word_char is_alphanumeric) a (w1 ++ w2) b
    /\ str_len (a ++ w1) = floor_char_boundary source (Z.min offset (str_len source))
    /\ str_len (a ++ w1) <= offset.
Proof.
  intros Hoff. pose proof (str_len_nonneg source) as HL. unfold word_at.
  rewrite (Z.min_l (Z.min offset _)) by lia.
  destruct (floor_char_boundary_split source (Z.min offset (str_len source)) ltac:(lia))
    as (p & q & E & Hf & Hle). rewrite Hf.
  rewrite (slice_to_eq source p q E), (slice_from_eq source p q E). cbn [mbind option_bind].
  destruct (rfind_run (is_word_char is_alphanumeric) p) as (a & w1 & Hp & Hw1 & Ha & ->).
  destruct (find_run (is_word_char is_alphanumeric) 0 q) as (w2 & b & Hq & Hw2 & Hb & Hfind).
  unfold char_indices. rewrite Hfind. exists a, w1, w2, b.
  assert (Hs : source = a ++ (w1 ++ w2) ++ b) by (rewrite E, Hp, Hq; by rewrite <-!app_assoc).
  split_and!; [done| |split_and!; [by apply Forall_app; auto|done|done]|by rewrite <-Hp|rewrite <-Hp; lia].
  rewrite <-(slice_app a (w1 ++ w2) b), <-Hs.
  destruct b as [|c b]; f_equal.
  - rewrite Hs. by rewrite app_nil_r.
  - rewrite Hp. autorewrite with len. lia.
Qed.
End WordAt.

Lemma previous_word_loop_run s t :
  exists a w, s = a ++ w /\ Forall (fun c => solid c = true) w /\ stops solid (last a)
  /\ previous_word_loop (s ++ t) (reverse (char_indices s)) true = Some (utf16_len a).
Proof.
  revert t. induction s as [|c s IH] using rev_ind; intros t; [by exists [], []|].
  rewrite char_indices_snoc, reverse_app. cbn [reverse rev_append app previous_word_loop].
  destruct (is_whitespace c) eqn:E.
  - exists (s ++ [c]), []. rewrite app_nil_r, last_snoc. split_and!; [done..|by cbn; unfold solid; rewrite E|].
    replace (str_len s + char_len_utf8 c) with (str_len (s ++ [c])) by (autorewrite with len; lia).
    by rewrite slice_to_app.
  - rewrite <-app_assoc. destruct (IH ([c] ++ t)) as (a & w & -> & Hw & Ha & ->). exists a, (w ++ [c]).
    rewrite app_assoc. split_and!; [done| |done|done].
    apply Forall_app. split; [done|]. constructor; [by unfold solid; rewrite E|done].
Qed.

Lemma next_word_loop_run p pre s :
  exists w q, s = w ++ q /\ Forall (fun c => solid c = true) w /\ stops solid (head q)
  /\ next_word_loop (p ++ pre ++ s) (str_len p) (char_indices_from (str_len pre) s) true
     = Some (utf16_len (p ++ pre ++ w)).
Proof.
  revert pre. induction s as [|c s IH]; intros pre; [by exists [], []|].
  cbn [char_indices_from next_word_loop]. destruct (is_whitespace c) eqn:E.
  - exists [], (c :: s). split_and!; [done..|by cbn; unfold solid; rewrite E|].
    rewrite <-str_len_app, app_assoc, slice_to_app, app_nil_r. done.
  - destruct (IH (pre ++ [c])) as (w & q & -> & Hw & Hq & Hrun). exists (c :: w), q.
    split_and!; [done|constructor; [by unfold solid; rewrite E|done]|done|].
    rewrite <-!app_assoc in Hrun. cbn [app] in Hrun. rewrite <-Hrun. f_equal.
    f_equal. autorewrite with len. lia.
Qed.

(** Moving by words: forwards past white space and then the word after it,
    backwards past white space and then the word before it; the position is
    that of [byte_index_for_utf16].  Neither panics. *)
Theorem word_boundaries (value : list Z) (offset : Z) :
  (exists p space w q,
    value = p ++ space ++ w ++ q /\ p = prefix16 value offset
    /\ Forall (fun c => is_whitespace c = true) space
    /\ Forall (fun c => solid c = true) w /\ stops solid (head q) /\ (w = [] -> q = [])
    /\ next_word_boundary value offset = Some (utf16_len (p ++ space ++ w)))
  /\ (exists a w space q,
    value = a ++ w ++ space ++ q /\ a ++ w ++ space = prefix16 value offset
    /\ Forall (fun c => is_whitespace c = true) space
    /\ Forall (fun c => solid c = true) w /\ stops solid (last a) /\ (w = [] -> a = [])
    /\ previous_word_boundary value offset = Some (utf16_len a)).
Proof.
  destruct (prefix16_split value offset) as (q & Hv & _). set (p := prefix16 value offset) in *. split.
  - unfold next_word_boundary. rewrite byte_index_prefix16. fold p.
    rewrite (slice_from_eq _ _ _ Hv). cbn [mbind option_bind].
    assert (Hgen : forall s pre, value = p ++ pre ++ s -> Forall (fun c => is_whitespace c = true) pre ->
      exists space w q, pre ++ s = space ++ w ++ q
      /\ Forall (fun c => is_whitespace c = true) space
      /\ Forall (fun c => solid c = true) w /\ stops solid (head q) /\ (w = [] -> q = [])
      /\ next_word_loop value (str_len p) (char_indices_from (str_len pre) s) false
         = Some (utf16_len (p ++ space ++ w))).
    { intros s. induction s as [|c s IH]; intros pre Hval Hpre.
      - exists pre, [], []. rewrite !app_nil_r in *. cbn. rewrite Hval. by split_and!.
      - cbn [char_indices_from next_word_loop]. destruct (is_whitespace c) eqn:E.
        + destruct (IH (pre ++ [c])) as (sp & w & q' & Hs & ?).
          { by rewrite <-app_assoc. } { by apply Forall_app; split; [|constructor]. }
          exists sp, w, q'. rewrite <-Hs, <-app_assoc. split; [done|].
          autorewrite with len in *. rewrite Z.add_0_r in *. done.
        + destruct (next_word_loop_run p (pre ++ [c]) s) as (w & q' & -> & Hw & Hq & Hrun).
          exists pre, (c :: w), q'. split_and!; [done|done|constructor; [by unfold solid; rewrite E|done]|done|done|].
          rewrite <-!app_assoc in Hrun. cbn [app] in Hrun. rewrite Hval, <-Hrun.
          f_equal. f_equal. autorewrite with len. lia. }
    destruct (Hgen q [] Hv (Forall_nil_2 _)) as (sp & w & q' & Hq & ? & ? & ? & ? & ?).
    exists p, sp, w, q'. cbn [app] in Hq. rewrite <-Hq. by split_and!.
  - unfold previous_word_boundary. rewrite byte_index_prefix16. fold p.
    rewrite (slice_to_eq _ _ _ Hv). cbn [mbind option_bind].
    assert (Hgen : forall s t, exists a w space, s = a ++ w ++ space
      /\ Forall (fun c => is_whitespace c = true) space
      /\ Forall (fun c => solid c = true) w /\ stops solid (last a) /\ (w = [] -> a = [])
      /\ previous_word_loop (s ++ t) (reverse (char_indices s)) false = Some (utf16_len a)).
    { intros s. induction s as [|c s IH] using rev_ind; intros t; [by exists [], [], []|].
      rewrite char_indices_snoc, reverse_app. cbn [reverse rev_append app previous_word_loop].
      rewrite <-app_assoc. destruct (is_whitespace c) eqn:E.
      - destruct (IH ([c] ++ t)) as (a & w & sp & -> & ? & ? & ? & ? & ->). exists a, w, (sp ++ [c]).
        rewrite <-!app_assoc. split_and!; [done| |done..]. by apply Forall_app; split; [|constructor].
      - destruct (previous_word_loop_run s ([c] ++ t)) as (a & w & -> & Hw & Ha & ->).
        exists a, (w ++ [c]), []. rewrite app_nil_r, <-app_assoc. split_and!; [done..| |done| |done].
        + apply Forall_app; split; [done|]. constructor; [by unfold solid; rewrite E|done].
        + by destruct w. }
    destruct (Hgen p []) as (a & w & sp & Hp & ? & ? & ? & ? & Hrun). rewrite app_nil_r in Hrun.
    exists a, w, sp, q. rewrite <-Hp. split_and!; [|done..]. rewrite Hv at 1. rewrite Hp. by rewrite <-!app_assoc.
Qed.

Lemma previous_char_start_snoc p c q :
  previous_char_start (p ++ c :: q) (str_len (p ++ [c])) = Some (str_len p).
Proof.
  unfold previous_char_start.
  rewrite (slice_to_eq _ (p ++ [c]) q) by by rewrite <-app_assoc. cbn [mbind option_bind].
  by rewrite char_indices_snoc, last_snoc.
Qed.

Lemma char_at_split p c q : char_at (p ++ c :: q) (str_len p) = Some (Some c).
Proof. unfold char_at. by rewrite slice_from_app. Qed.

Lemma is_space_at_app p c q : is_space_at (p ++ c :: q) (str_len p) = Some (is_whitespace c).
Proof. unfold is_space_at. by rewrite char_at_split. Qed.

Lemma word_start_loop_run fuel p q : (length p < fuel)%nat ->
  exists a w, p = a ++ w /\ Forall (fun c => solid c = true) w /\ stops solid (last a)
  /\ word_start_loop fuel (p ++ q) (str_len p) = Some (str_len a).
Proof.
  revert fuel q. induction p as [|c p IH] using rev_ind; intros fuel q Hf.
  { destruct fuel; [lia|]. by exists [], []. }
  rewrite length_app in Hf. simpl in Hf. destruct fuel as [|k]; [lia|]. cbn [word_start_loop].
  rewrite (proj2 (Z.ltb_lt _ _)) by (apply str_len_pos; by destruct p).
  rewrite <-app_assoc. cbn [app]. rewrite previous_char_start_snoc. cbn [mbind option_bind].
  rewrite char_at_split. cbn [mbind option_bind]. destruct (is_whitespace c) eqn:E.
  - exists (p ++ [c]), []. rewrite app_nil_r, last_snoc. split_and!; [done..|by cbn; unfold solid; rewrite E|done].
  - destruct (IH k (c :: q) ltac:(lia)) as (a & w & -> & Hw & Ha & ->). exists a, (w ++ [c]).
    rewrite app_assoc. split_and!; [done| |done|done].
    apply Forall_app. split; [done|]. constructor; [by unfold solid; rewrite E|done].
Qed.

Lemma word_end_loop_run fuel p q : (length q < fuel)%nat ->
  exists w b, q = w ++ b /\ Forall (fun c => solid c = true) w /\ stops solid (head b)
  /\ word_end_loop fuel (p ++ q) (str_len p) = Some (str_len (p ++ w)).
Proof.
  revert fuel p. induction q as [|c q IH]; intros fuel p Hf; simpl in Hf; (destruct fuel as [|k]; [lia|]);
    cbn [word_end_loop].
  { exists [], []. rewrite !app_nil_r. rewrite (proj2 (Z.ltb_ge _ _)) by lia. done. }
  rewrite (proj2 (Z.ltb_lt _ _)) by (rewrite str_len_app; pose proof (str_len_pos (c :: q)); naive_solver lia).
  rewrite char_at_split. cbn [mbind option_bind]. destruct (is_whitespace c) eqn:E.
  - exists [], (c :: q). rewrite app_nil_r. split_and!; [done..|by cbn; unfold solid; rewrite E|done].
  - destruct (IH k (p ++ [c]) ltac:(lia)) as (w & b & -> & Hw & Hb & Hrun). exists (c :: w), b.
    rewrite <-!app_assoc in Hrun. cbn [app] in Hrun.
    split_and!; [done|constructor; [by unfold solid; rewrite E|done]|done|].
    rewrite <-Hrun. f_equal. autorewrite with len. lia.
Qed.

Lemma whitespace_len16 c : is_whitespace c = true -> char_len_utf16 c = 1.
Proof.
  intros H. unfold char_len_utf16. destruct (Z.ltb_spec c 0x10000); [done|].
  unfold is_whitespace, in_range in H. lia.
Qed.

Lemma word_anchor_ok value offset : value <> [] -> 0 <= offset ->
  exists p c q, value = p ++ c :: q /\ word_anchor value offset = Some (str_len p)
  /\ utf16_len p <= Z.min offset (utf16_len value) + 1
  /\ Z.min offset (utf16_len value) <= utf16_len (if is_whitespace c then p else p ++ [c]) + 1.
Proof.
  intros Hne Hoff. unfold word_anchor. set (off := Z.min offset (utf16_len value)).
  pose proof (utf16_len_nonneg value) as HL.
  assert (Hlo : off <= utf16_len (prefix16 value off)) by (apply prefix16_reaches; lia).
  assert (Hhi : utf16_len (prefix16 value off) <= off + 1) by (apply prefix16_near; lia).
  rewrite byte_index_prefix16. destruct (prefix16_split value off) as (q0 & Hv & _).
  set (p0 := prefix16 value off) in *. clearbody p0 off.
  (* the character the search starts at *)
  assert (H1 : exists p c q, value = p ++ c :: q /\ utf16_len p <= off + 1 /\ off <= utf16_len (p ++ [c])
    /\ (if (str_len p0 =? str_len value) && (0 <? str_len p0)
        then previous_char_start value (str_len p0) else Some (str_len p0)) = Some (str_len p)).
  { subst value. destruct q0 as [|c q0].
    - rewrite app_nil_r in *. rewrite Z.eqb_refl. pose proof (str_len_pos p0 Hne).
      rewrite (proj2 (Z.ltb_lt _ _)) by lia. destruct p0 as [|c p _] using rev_ind; [done|].
      exists p, c, []. split_and!; [done| |done|].
      + rewrite utf16_len_app in Hhi. pose proof (utf16_len_nonneg [c]). lia.
      + apply previous_char_start_snoc.
    - exists p0, c, q0. split_and!; [done|done| |].
      + rewrite utf16_len_app. pose proof (utf16_len_nonneg [c]). lia.
      + rewrite (proj2 (Z.eqb_neq _ _)); [done|]. rewrite str_len_app.
        pose proof (str_len_pos (c :: q0)). naive_solver lia. }
  destruct H1 as (p & c & q & -> & Hp1 & Hp2 & ->). clear Hv Hlo Hhi p0. cbn [mbind option_bind].
  rewrite is_space_at_app. cbn [mbind option_bind].
  destruct (is_whitespace c) eqn:Ec; cbn [andb]; [|by exists p, c, q; rewrite Ec; split_and!; [..|lia]].
  assert (Hc : off <= utf16_len p + 1).
  { rewrite utf16_len_app, utf16_len_cons, whitespace_len16 in Hp2 by done.
    rewrite utf16_len_nil in Hp2. lia. }
  destruct p as [|d p _] using rev_ind; [by exists [], c, q; rewrite Ec|].
  rewrite (proj2 (Z.ltb_lt _ _)) by (apply str_len_pos; by destruct p).
  rewrite <-app_assoc. cbn [app]. rewrite previous_char_start_snoc. cbn [mbind option_bind].
  rewrite is_space_at_app. cbn [mbind option_bind]. destruct (is_whitespace d) eqn:Ed; cbn [negb].
  - exists (p ++ [d]), c, q. rewrite <-app_assoc, Ec. by split_and!.
  - exists p, d, (c :: q). rewrite Ed. split_and!; [done|done| |done].
    rewrite utf16_len_app in Hp1. pose proof (utf16_len_nonneg [d]). lia.
Qed.

(** A double click selects a maximal run without white space at the offset:
    the range is a pair of boundaries within one unit of it (an offset inside
    a surrogate pair is rounded up; between two white spaces the run is empty),
    and the function never panics. *)
Theorem word_range_maximal (value : list Z) (offset : Z) :
  value <> [] -> 0 <= offset ->
  exists a w b,
    value = a ++ w ++ b
    /\ word_range_for_utf16_offset value offset = Some (utf16_len a, utf16_len (a ++ w))
    /\ maximal_run solid a w b
    /\ utf16_len a <= Z.min offset (utf16_len value) + 1
    /\ Z.min offset (utf16_len value) <= utf16_len (a ++ w) + 1.
Proof.
  intros Hne Hoff. unfold word_range_for_utf16_offset.
  pose proof (utf16_len_pos value Hne). rewrite (proj2 (Z.eqb_neq _ _)) by lia.
  destruct (word_anchor_ok value offset Hne Hoff) as (p & c & q & Hv & -> & Hlo & Hhi).
  cbn [mbind option_bind]. set (fuel := S (length value)).
  assert (Hfp : (length p < fuel)%nat /\ (length (c :: q) < fuel)%nat).
  { subst fuel. rewrite Hv, length_app. lia. }
  destruct Hfp as [Hfp Hfq].
  destruct (word_start_loop_run fuel p (c :: q) Hfp) as (a & w1 & Hp & Hw1 & Ha & Hs).
  destruct (word_end_loop_run fuel p (c :: q) Hfq) as (w2 & b & Hq & Hw2 & Hb & He).
  rewrite <-Hv in Hs, He. rewrite Hs, He. cbn [mbind option_bind].
  assert (Hval : value = a ++ (w1 ++ w2) ++ b) by (by rewrite Hv, Hq, Hp, <-!app_assoc).
  exists a, (w1 ++ w2), b. split; [done|]. split_and!.
  - rewrite Hp. rewrite <-(app_assoc a). rewrite Hval. rewrite utf16_offset_for_byte_app. cbn [mbind option_bind].
    rewrite (app_assoc a (w1 ++ w2)), utf16_offset_for_byte_app. done.
  - split_and!; [by apply Forall_app|done|done].
  - subst p. rewrite utf16_len_app in Hlo. pose proof (utf16_len_nonneg w1). lia.
  - etrans; [apply Hhi|]. apply Zplus_le_compat_r. rewrite app_assoc, <-Hp.
    destruct (is_whitespace c) eqn:E; rewrite !(utf16_len_app p); [pose proof (utf16_len_nonneg w2); lia|].
    destruct w2 as [|c' w2]; simpl in Hq; simplify_eq.
    + cbn in Hb. unfold solid in Hb. by rewrite E in Hb.
    + rewrite !utf16_len_cons, utf16_len_nil. pose proof (utf16_len_nonneg w2). lia.
Qed.

(** ** Lines *)

Lemma utf16_slice_app p m q : utf16_slice (p ++ m ++ q) (utf16_len p) (utf16_len (p ++ m)) = Some m.
Proof.
  unfold utf16_slice. rewrite !byte_index_prefix16, prefix16_app, app_assoc, prefix16_app, <-app_assoc.
  apply slice_app.
Qed.

(** Ranges that follow each other with one unit, the newline, between them. *)
Fixpoint lines_chain (start : Z) (l : list (Z * Z)) (end_ : Z) : Prop :=
  match l with
  | [] => False
  | (a, b) :: r => a = start /\ a <= b
                   /\ match r with [] => b = end_ | _ => lines_chain (b + 1) r end_ end
  end.

Lemma line_ranges_not_nil v start offset : line_ranges_loop v start offset <> [].
Proof. revert start offset. induction v; intros; simpl; [done|]. case_match; done. Qed.

Lemma line_ranges_chain v start offset :
  start <= offset -> lines_chain start (line_ranges_loop v start offset) (offset + utf16_len v).
Proof.
  revert start offset. induction v as [|c v IH]; intros start offset H; cbn [line_ranges_loop].
  { split_and!; [done|done|]. rewrite utf16_len_nil. lia. }
  pose proof (char_len_utf16_range c). rewrite utf16_len_cons, Z.add_assoc. destruct (Z.eqb_spec c 10) as [->|].
  - change (char_len_utf16 10) with 1. cbn [lines_chain]. split_and!; [done|done|].
    destruct (line_ranges_loop v _ _) eqn:E; [by apply line_ranges_not_nil in E|].
    rewrite <-E. apply IH. lia.
  - apply IH. lia.
Qed.

Lemma line_ranges_slices value pre cur rest :
  value = pre ++ cur ++ rest ->
  mapM (fun r : Z * Z => utf16_slice value r.1 r.2)
    (line_ranges_loop rest (utf16_len pre) (utf16_len (pre ++ cur)))
  = Some (split_on 10 (reverse cur) rest).
Proof.
  revert pre cur. induction rest as [|c rest IH]; intros pre cur Hv; cbn [line_ranges_loop split_on].
  { cbn [mapM fst snd]. rewrite Hv, utf16_slice_app. cbn. by rewrite reverse_involutive. }
  destruct (Z.eqb_spec c 10) as [->|].
  - cbn [mapM fst snd]. rewrite Hv at 1. rewrite utf16_slice_app. cbn [mbind option_bind].
    replace (utf16_len (pre ++ cur) + char_len_utf16 10) with (utf16_len (pre ++ cur ++ [10]))
      by (autorewrite with len; change (char_len_utf16 10) with 1; lia).
    pose proof (IH (pre ++ cur ++ [10]) []) as IH'. rewrite app_nil_r in IH'. rewrite IH'.
    + cbn. by rewrite reverse_involutive.
    + by rewrite Hv, <-!app_assoc.
  - replace (utf16_len (pre ++ cur) + char_len_utf16 c) with (utf16_len (pre ++ cur ++ [c]))
      by (autorewrite with len; lia).
    rewrite IH; [by rewrite reverse_snoc|]. by rewrite Hv, <-!app_assoc.
Qed.

(** The line ranges cover the text, one newline apart, and slicing the text by
    them gives its lines. *)
Theorem line_ranges_exact (value : list Z) :
  lines_chain 0 (line_ranges_utf16 value) (utf16_len value)
  /\ mapM (fun r : Z * Z => utf16_slice value r.1 r.2) (line_ranges_utf16 value)
     = Some (split_on 10 [] value).
Proof.
  split; [by apply line_ranges_chain|]. by apply (line_ranges_slices value [] [] value).
Qed.

Lemma lines_chain_start st l en i r : lines_chain st l en -> l !! i = Some r -> st <= r.1 /\ r.1 <= r.2 <= en.
Proof.
  revert st i r. induction l as [|[a b] l IH]; intros st i r Hc Hi; [done|]. destruct Hc as (-> & Hab & Hc).
  destruct i as [|i]; simpl in Hi.
  - simplify_eq. simpl. destruct l as [|[a' b'] l]; [lia|].
    destruct (IH _ O _ Hc eq_refl). simpl in *. lia.
  - destruct l as [|x l]; [done|]. destruct (IH _ _ _ Hc Hi). lia.
Qed.

Lemma lines_chain_position st l en off i r :
  lines_chain st l en -> l !! i = Some r -> r.1 <= off <= r.2 ->
  position (fun range : Z * Z => off <=? range.2) l = Some i.
Proof.
  revert st i. induction l as [|[a b] l IH]; intros st i Hc Hi Hoff; [done|].
  destruct Hc as (-> & Hab & Hc). destruct i as [|i]; simpl in Hi |- *.
  - simplify_eq. by rewrite (proj2 (Z.leb_le _ _)) by (simpl in *; lia).
  - destruct l as [|x l]; [done|]. destruct (lines_chain_start _ _ _ _ _ Hc Hi).
    rewrite (proj2 (Z.leb_gt _ _)) by lia. by rewrite (IH _ _ Hc Hi).
Qed.

Lemma lines_chain_covers st l en off :
  lines_chain st l en -> st <= off <= en -> exists i r, l !! i = Some r /\ r.1 <= off <= r.2.
Proof.
  revert st. induction l as [|[a b] l IH]; intros st Hc Hoff; [done|]. destruct Hc as (-> & Hab & Hc).
  destruct (Z.le_gt_cases off b); [exists O, (st, b); simpl; split; [done|lia]|].
  destruct l as [|x l]; [lia|]. destruct (IH _ Hc) as (i & r & ? & ?); [lia|]. by exists (S i), r.
Qed.

Lemma vertical_in_line value offset i r down :
  line_ranges_utf16 value !! i = Some r -> r.1 <= offset <= r.2 ->
  vertical_line_navigation_destination value offset down
  = Some (if down
          then match line_ranges_utf16 value !! S i with
               | None => utf16_len value
               | Some next => next.1 + Z.min (offset - r.1) (next.2 - next.1)
               end
          else match i with
               | O => 0
               | S k => match line_ranges_utf16 value !! k with
                        | Some prev => prev.1 + Z.min (offset - r.1) (prev.2 - prev.1)
                        | None => 0
                        end
               end).
Proof.
  intros Hi Hoff. unfold vertical_line_navigation_destination.
  destruct (line_ranges_exact value) as [Hc _].
  rewrite (lines_chain_position _ _ _ _ _ _ Hc Hi Hoff). cbn [default from_option id].
  destruct (line_ranges_utf16 value) as [|x l] eqn:E; [done|]. rewrite <-E in *. rewrite Hi.
  cbn [mbind option_bind]. unfold sat_sub.
  assert (Hr : forall j r', line_ranges_utf16 value !! j = Some r' -> r'.1 <= r'.2)
    by (intros j r' Hj; destruct (lines_chain_start _ _ _ _ _ Hc Hj); lia).
  rewrite (Z.max_l (offset - r.1)) by lia. destruct down.
  - destruct (line_ranges_utf16 value !! S i) as [next|] eqn:En; [|done].
    specialize (Hr _ _ En). by rewrite Z.max_l by lia.
  - destruct i as [|k]; [done|]. destruct (line_ranges_utf16 value !! k) as [prev|] eqn:Ek.
    + specialize (Hr _ _ Ek). cbn [mbind option_bind]. by rewrite Z.max_l by lia.
    + apply lookup_lt_Some in Hi. apply lookup_ge_None in Ek. lia.
Qed.

(** Moving up or down stays inside the text; from a line to a neighbouring line
    that is long enough for the column, moving back returns to the same
    offset. *)
Theorem vertical_navigation (value : list Z) (offset : Z) (i : nat) (a b c d : Z) :
  0 <= offset <= utf16_len value ->
  (forall down, exists dest, vertical_line_navigation_destination value offset down = Some dest
                             /\ 0 <= dest <= utf16_len value)
  /\ (line_ranges_utf16 value !! i = Some (a, b) -> line_ranges_utf16 value !! S i = Some (c, d) ->
      a <= offset <= b -> offset - a <= d - c ->
      vertical_line_navigation_destination value offset true = Some (c + (offset - a))
      /\ vertical_line_navigation_destination value (c + (offset - a)) false = Some offset).
Proof.
  intros Hoff. destruct (line_ranges_exact value) as [Hc _]. split.
  - intros down. destruct (lines_chain_covers _ _ _ offset Hc ltac:(lia)) as (j & r & Hj & Hr).
    rewrite (vertical_in_line _ _ _ _ down Hj Hr). eexists. split; [done|].
    destruct down; repeat case_match; try lia;
      match goal with H : _ !! _ = Some _ |- context [?x.1 + _] =>
        destruct (lines_chain_start _ _ _ _ _ Hc H); lia end.
  - intros Hi HSi Hl Hlong.
    destruct (lines_chain_start _ _ _ _ _ Hc HSi) as [_ Hcd]. simpl in Hcd.
    rewrite (vertical_in_line _ _ _ _ _ Hi), HSi by (simpl; lia).
    rewrite (vertical_in_line _ _ _ _ _ HSi), Hi by (simpl; lia). simpl.
    split; f_equal; lia.
Qed.

(** A column counted in UTF-16 units can land inside a surrogate pair: one line
    down from the middle of [ab] is the middle of the pair of U+1F604. *)
Example vertical_navigation_splits_pair :
  let value := [97; 98; 10; 0x1f604] in
  vertical_line_navigation_destination value 1 true = Some 4
  /\ forall p, p `prefix_of` value -> utf16_len p <> 4.
Proof.
  split; [reflexivity|]. intros p [q Hq].
  do 5 (destruct p as [|? p]; [simplify_eq/=; vm_compute; congruence|]). simplify_eq/=.
Qed.

(** ** Transposition *)

(** Transposing swaps the two characters around the caret, or the last two at
    the end of the text, and puts the caret after them; nothing happens at the
    start of the text or when it has fewer than two characters. *)
Theorem transpose_exact (value : list Z) (offset : Z) :
  ((2 <= length value)%nat -> 0 < offset -> exists p x y q,
     value = p ++ x :: y :: q
     /\ transpose_text_at_utf16_offset value offset
        = Some (Some (p ++ y :: x :: q, utf16_len (p ++ [y; x]))))
  /\ ((length value < 2)%nat \/ offset <= 0 -> transpose_text_at_utf16_offset value offset = Some None).
Proof.
  unfold transpose_text_at_utf16_offset. split.
  - intros Hlen Hoff. rewrite (proj2 (Nat.ltb_ge _ _)) by lia.
    set (right := if utf16_len value <=? offset then zlen value - 1
                  else Z.min (char_index_for_utf16 value offset) (zlen value - 1)).
    assert (Hright : 1 <= right <= zlen value - 1
              /\ (utf16_len value <= offset -> right = zlen value - 1)).
    { subst right. unfold zlen in *. destruct (Z.leb_spec (utf16_len value) offset); [lia|].
      rewrite char_index_prefix16. unfold zlen. destruct value as [|c v]; simpl in Hlen; [lia|].
      cbn [prefix16]. rewrite (proj2 (Z.leb_gt _ _)) by lia. simpl. lia. }
    clearbody right. destruct Hright as [Hr Hend]. rewrite (proj2 (Z.eqb_neq _ _)) by lia.
    assert (Hsplit : exists p x y q, value = p ++ x :: y :: q /\ zlen p = right - 1).
    { pose proof (take_drop (Z.to_nat (right - 1)) value) as Htd. unfold zlen in *.
      assert (Hd : length (drop (Z.to_nat (right - 1)) value) = (length value - Z.to_nat (right - 1))%nat)
        by apply length_drop.
      destruct (drop (Z.to_nat (right - 1)) value) as [|x [|y q]]; simpl in Hd; [lia..|].
      exists (take (Z.to_nat (right - 1)) value), x, y, q. split; [done|]. rewrite length_take. lia. }
    destruct Hsplit as (p & x & y & q & -> & Hp). exists p, x, y, q. split; [done|].
    unfold zlen in *. replace (Z.to_nat (right - 1)) with (length p) by lia.
    replace (Z.to_nat right) with (S (length p)) by lia. unfold swap.
    rewrite (lookup_app_r p _ (length p)), (lookup_app_r p _ (S _)) by lia.
    rewrite Nat.sub_diag, Nat.sub_succ_l, Nat.sub_diag by done. cbn [lookup list_lookup mbind option_bind].
    rewrite !(insert_app_r_alt p) by lia. rewrite Nat.sub_diag, Nat.sub_succ_l, Nat.sub_diag by done.
    cbn [insert list_insert].
    do 2 f_equal. f_equal. destruct (Z.leb_spec (utf16_len (p ++ x :: y :: q)) offset) as [H|H].
    + specialize (Hend H). rewrite length_app in Hend. simpl in Hend. destruct q; [|simpl in Hend; lia].
      autorewrite with len. lia.
    + replace (p ++ y :: x :: q) with ((p ++ [y; x]) ++ q) by by rewrite <-app_assoc.
      replace (right + 1) with (zlen (p ++ [y; x])) by (unfold zlen; rewrite length_app; simpl; lia).
      apply utf16_offset_for_char_app.
  - intros [H|H]; [by rewrite (proj2 (Nat.ltb_lt _ _)) by lia|].
    destruct (Nat.ltb_spec (length value) 2); [done|].
    assert (Hpos : 0 < utf16_len value) by (apply utf16_len_pos; by destruct value; [simpl in *; lia|]).
    rewrite (proj2 (Z.leb_gt _ _)) by lia. rewrite char_index_prefix16.
    replace (prefix16 value offset) with (@nil Z).
    + rewrite Z.min_l by (unfold zlen; simpl; lia). done.
    + destruct value; [done|]. simpl. by rewrite (proj2 (Z.leb_le _ _)).
Qed.
