(* ===== verification/TrzszBuffer.v ===== *)
(** * trzsz input buffer and escaping (hapcli-trzsz: buffer.rs, escape.rs, error.rs)

    The transfer thread reads lines and binary blocks from a buffer that the
    terminal thread fills with chunks of whatever size the transport gives.  A
    reader that finds nothing sleeps on a condition variable: the call has no
    result until a chunk arrives or the buffer is stopped, which the model
    shows as [Waits].  The chunks that arrive are in the state from the start:
    a chunk that arrives while the reader sleeps is the next one it takes. *)
From S2P Require Import Prelude Text Utf16.
From Stdlib Require Import Ascii String.
From stdpp Require Import prelude numbers list.
Open Scope Z_scope.

(** The characters of an ASCII literal. *)
Fixpoint lit (s : string) : list Z :=
  match s with
  | EmptyString => []
  | String c r => Z.of_N (N_of_ascii c) :: lit r
  end.
Arguments lit s%_string.

(** ** Errors *)

Inductive TrzszError : Type :=
| InvalidApiVersion (expected got : Z)
| InvalidOwnerId
| InvalidPath (path : list Z)
| UnauthorizedPath (path : list Z)
| DirectoryNotAllowed (path : list Z)
| SymlinkNotAllowed (path : list Z)
| ReservedName (name : list Z)
| RootNotPrepared
| RootMismatch
| HandleNotFound (id : list Z)
| HandleOwnerMismatch
| AlreadyExists (path : list Z)
| MaxFileCountExceeded (selected max : Z)
| MaxTotalBytesExceeded (selected max : Z)
| InvalidState (message : list Z)
| InvalidOffset (offset size : Z)
| ChunkTooLarge (requested max : Z)
| IoError (text : list Z).

(** How a computation of the transfer thread can end early: with an error, in
    an endless wait for input, or by a panic. *)
Inductive halt : Type :=
| Fails (e : TrzszError)
| Waits
| Panics.

Definition fail {S A} (e : TrzszError) : M halt S A := throw (Fails e).

(** ** The buffer *)

Record BufferState := mkBuffer {
  queue : list (list Z);
  next_buffer : list Z;
  next_index : Z;
  stopped : bool
}.
Definition new_buffer : BufferState := mkBuffer [] [] 0 false.

Definition add_buffer (buffer : list Z) (st : BufferState) : BufferState :=
  mkBuffer (queue st ++ [buffer]) (next_buffer st) (next_index st) (stopped st).
Definition stop_buffer (st : BufferState) : BufferState :=
  mkBuffer (queue st) (next_buffer st) (next_index st) true.
Definition drain_buffer (st : BufferState) : BufferState :=
  mkBuffer [] [] 0 (stopped st).

(** [next_buffer]: what is left of the current chunk, or the next chunk that
    is not empty.  The loop takes a chunk from the queue on every turn. *)
Fixpoint next_chunk_loop (q : list (list Z)) (st : BufferState) : result halt (list Z) * BufferState :=
  if next_index st <? zlen (next_buffer st)
  then (Ok (zdrop (next_index st) (next_buffer st)), st)
  else if stopped st then (Err (Fails (InvalidState (lit "Stopped"))), st)
  else match q with
       | next :: q' => next_chunk_loop q' (mkBuffer q' next 0 (stopped st))
       | [] => (Err Waits, st)
       end.
Definition next_chunk : M halt BufferState (list Z) :=
  fun st => Some (next_chunk_loop (queue st) st).

Definition consume (length : Z) : M halt BufferState unit :=
  fun st => Some (Ok tt, mkBuffer (queue st) (next_buffer st) (sat_add (next_index st) length) (stopped st)).

Definition previous_chunk_had_newline : M halt BufferState bool :=
  fun st => Some (Ok ((0 <? next_index st)
                      && match next_buffer st !! Z.to_nat (sat_sub (next_index st) 1) with
                         | Some value => value =? 10
                         | None => false
                         end), st).

(** The start of a turn of both line readers: the chunk up to the separator,
    which is consumed with it; the flag says whether it was there. *)
Definition take_part (sep : Z) : M halt BufferState (list Z * bool) :=
  let* next := next_chunk in
  match position (fun value => value =? sep) next with
  | Some newline_index =>
      do* consume (Z.of_nat newline_index + 1) in ret (take newline_index next, true)
  | None => do* consume (zlen next) in ret (next, false)
  end.

(** One turn of [read_line]. *)
Definition read_line_body (buffer : list Z) : M halt BufferState (list Z + list Z) :=
  let* part := take_part 10 in
  let next := part.1 in
  if existsb (fun value => value =? 3) next then fail (InvalidState (lit "Interrupted"))
  else let* newline := previous_chunk_had_newline in
       let buffer := buffer ++ next in
       ret (if newline then inr (from_utf8_lossy buffer) else inl buffer).
Definition read_line (fuel : nat) : M halt BufferState (list Z) := loop fuel read_line_body [].

(** One turn of [read_binary]; the loop's condition comes first. *)
Definition read_binary_body (length : Z) (buffer : list Z) : M halt BufferState (list Z + list Z) :=
  if zlen buffer <? length
  then let remaining := length - zlen buffer in
       let* next := next_chunk in
       let next := if remaining <? zlen next then ztake remaining next else next in
       do* consume (zlen next) in
       ret (inl (buffer ++ next))
  else ret (inr buffer).
(** [Vec::with_capacity] panics above [isize::MAX]. *)
Definition ISIZE_MAX : Z := 2 ^ 63 - 1.
Definition read_binary (fuel : nat) (length : Z) : M halt BufferState (list Z) :=
  if ISIZE_MAX <? length then throw Panics else loop fuel (read_binary_body length) [].

(** *** Lines of a Windows console *)

Definition is_ascii_alphabetic (c : Z) : bool := in_range 65 90 c || in_range 97 122 c.
Definition is_trzsz_letter (char_code : Z) : bool :=
  is_ascii_alphanumeric char_code || (char_code =? 35) || (char_code =? 58) || (char_code =? 43)
  || (char_code =? 47) || (char_code =? 61).
Definition is_vt100_end (char_code : Z) : bool := is_ascii_alphabetic char_code.

(** The variables of [read_line_on_windows]. *)
Record WinLine := mkWinLine {
  w_buffer : list Z;
  last_byte : Z;
  skip_vt100 : bool;
  has_newline : bool;
  may_duplicate : bool;
  has_cursor_home : bool;
  previous_has_cursor_home : bool
}.
Definition win_start : WinLine := mkWinLine [] 0x1b false false false false false.

Definition set_last {A} (x : A) (l : list A) : list A := take (Nat.pred (length l)) l ++ [x].

(** The body of the [for] over one chunk; [None] is the interrupt. *)
Definition win_byte (w : WinLine) (char_code : Z) : option WinLine :=
  if char_code =? 3 then None
  else
    let nl := has_newline w || (char_code =? 10) in
    if skip_vt100 w then
      let ends := is_vt100_end char_code in
      Some (mkWinLine (w_buffer w) char_code (negb ends) nl
              (may_duplicate w || (ends && (char_code =? 72) && is_digit (last_byte w)))
              (has_cursor_home w || ((last_byte w =? 91) && (char_code =? 72)))
              (previous_has_cursor_home w))
    else if char_code =? 0x1b then
      Some (mkWinLine (w_buffer w) char_code true nl (may_duplicate w) (has_cursor_home w)
              (previous_has_cursor_home w))
    else if negb (is_trzsz_letter char_code) then
      Some (mkWinLine (w_buffer w) (last_byte w) false nl (may_duplicate w) (has_cursor_home w)
              (previous_has_cursor_home w))
    else if may_duplicate w && nl
            && match last (w_buffer w) with
               | Some b => (char_code =? b) || previous_has_cursor_home w
               | None => false
               end
    then Some (mkWinLine (set_last char_code (w_buffer w)) (last_byte w) false nl false
                 (has_cursor_home w) (previous_has_cursor_home w))
    else Some (mkWinLine (w_buffer w ++ [char_code]) (last_byte w) false false false false
                 (has_cursor_home w)).

Fixpoint win_chunk (w : WinLine) (next : list Z) : option WinLine :=
  match next with
  | [] => Some w
  | c :: r => w' ← win_byte w c; win_chunk w' r
  end.

Definition read_line_on_windows_body (w : WinLine) : M halt BufferState (WinLine + list Z) :=
  let* part := take_part 33 in
  match win_chunk w part.1 with
  | None => fail (InvalidState (lit "Interrupted"))
  | Some w' =>
      let had_bang := part.2 in
      if had_bang && negb (bool_decide (w_buffer w' = [])) && negb (skip_vt100 w')
      then ret (inr (from_utf8_lossy (w_buffer w')))
      else ret (inl w')
  end.
Definition read_line_on_windows (fuel : nat) : M halt BufferState (list Z) :=
  loop fuel read_line_on_windows_body win_start.

(** ** Escaping *)

(** [[u8; 3]]: a byte and the two bytes it is sent as. *)
Definition EscapeCode : Type := Z * (Z * Z).

(** The strings of the table are used by their bytes. *)
Definition escape_char_to_code (escape_char : list (list Z)) : option EscapeCode :=
  first ← head escape_char;
  from ← head (utf8_encode first);
  second ← escape_char !! 1%nat;
  match utf8_encode second with
  | to0 :: to1 :: _ => Some (from, (to0, to1))
  | _ => None
  end.
Definition escape_chars_to_codes (escape_chars : list (list (list Z))) : list EscapeCode :=
  omap escape_char_to_code escape_chars.

Definition escape_byte (escape_codes : list EscapeCode) (value : Z) : list Z :=
  match List.find (fun escape_code : EscapeCode => value =? escape_code.1) escape_codes with
  | Some escape_code => [escape_code.2.1; escape_code.2.2]
  | None => [value]
  end.
Definition escape_data (data : list Z) (escape_codes : list EscapeCode) : list Z :=
  if bool_decide (escape_codes = []) then data
  else List.concat (map (escape_byte escape_codes) data).

Definition find_escaped (escape_codes : list EscapeCode) (x y : Z) : option EscapeCode :=
  List.find (fun escape_code : EscapeCode => (x =? escape_code.2.1) && (y =? escape_code.2.2)) escape_codes.

Fixpoint unescape_loop (escape_codes : list EscapeCode) (data : list Z) : list Z :=
  match data with
  | [] => []
  | x :: rest =>
      match rest with
      | [] => [x]
      | y :: rest' =>
          match find_escaped escape_codes x y with
          | Some escape_code => escape_code.1 :: unescape_loop escape_codes rest'
          | None => x :: unescape_loop escape_codes rest
          end
      end
  end.
Definition unescape_data (data : list Z) (escape_codes : list EscapeCode) : list Z :=
  if bool_decide (escape_codes = []) then data else unescape_loop escape_codes data.

(** ** What is left to read *)

(** The bytes that have arrived and have not been consumed. *)
Definition pending (st : BufferState) : list Z :=
  zdrop (next_index st) (next_buffer st) ++ List.concat (queue st).

(** Chunks fit the machine's memory, and the index is never beyond the current
    chunk. *)
Record buffer_ok (st : BufferState) : Prop := {
  index_ok : 0 <= next_index st <= zlen (next_buffer st);
  chunk_ok : zlen (next_buffer st) <= U64_MAX;
  queue_ok : Forall (fun c : list Z => zlen c <= U64_MAX) (queue st)
}.

Lemma zdrop_all {A} (l : list A) n : zlen l <= n -> zdrop n l = [].
Proof. unfold zdrop, zlen. intros H. apply drop_ge. lia. Qed.

Lemma zlen_snoc {A} (l : list A) x : zlen (l ++ [x]) = zlen l + 1.
Proof. unfold zlen. rewrite length_app. simpl. lia. Qed.

Lemma zlen_zdrop_rest {A} (l : list A) n : 0 <= n <= zlen l -> zlen (zdrop n l) = zlen l - n.
Proof. unfold zdrop, zlen. rewrite length_drop. lia. Qed.

(** A chunk is a non-empty prefix of what is left, and taking it changes
    nothing; there is none only when everything has been read or the buffer is
    stopped. *)
Lemma next_chunk_run st :
  buffer_ok st ->
  exists st', buffer_ok st' /\ stopped st' = stopped st /\ pending st' = pending st
  /\ ((exists h, next_chunk st = Some (Err h, st') /\ (stopped st = false -> pending st = [] /\ h = Waits))
      \/ exists chunk, chunk <> [] /\ chunk = zdrop (next_index st') (next_buffer st')
           /\ next_chunk st = Some (Ok chunk, st')).
Proof.
  unfold next_chunk. destruct st as [q nb i sd]. revert nb i.
  induction q as [|c q IH]; intros nb i [Hi Hc Hq]; cbn [next_chunk_loop next_index next_buffer queue stopped] in *;
    destruct (Z.ltb_spec i (zlen nb)) as [Hlt|Hge].
  1,3: eexists (mkBuffer _ nb i sd); split_and!; [by constructor|done|done|];
    right; exists (zdrop i nb); split_and!; try done; intros E;
    apply (f_equal zlen) in E; rewrite zlen_zdrop_rest, zlen_nil in E by lia; lia.
  - exists (mkBuffer [] nb i sd). split_and!; [by constructor|done|done|]. left.
    destruct sd; eexists; (split; [reflexivity|]); intros Hsd; [done|]. split; [|done].
    unfold pending. simpl. by rewrite (zdrop_all nb) by lia.
  - apply Forall_cons in Hq as [Hc' Hq]. destruct sd.
    { exists (mkBuffer (c :: q) nb i true). split_and!; [by constructor; [..|constructor]|done|done|].
      left. eexists. split; [reflexivity|done]. }
    destruct (IH c 0) as (st' & Hok' & Hs & Hp & Hrun).
    { constructor; cbn [next_index next_buffer queue]; [pose proof (zlen_nonneg c); lia|done|done]. }
    assert (HE : pending (mkBuffer (c :: q) nb i false) = pending (mkBuffer q c 0 false)).
    { unfold pending. simpl. by rewrite (zdrop_all nb) by lia. }
    exists st'. rewrite HE. by split_and!.
Qed.

Lemma consume_run st n :
  buffer_ok st -> 0 <= n <= zlen (zdrop (next_index st) (next_buffer st)) ->
  exists st', consume n st = Some (Ok tt, st') /\ buffer_ok st' /\ stopped st' = stopped st
  /\ next_index st' = next_index st + n /\ next_buffer st' = next_buffer st /\ queue st' = queue st.
Proof.
  intros [Hi Hc Hq] Hn. rewrite zlen_zdrop_rest in Hn by done.
  exists (mkBuffer (queue st) (next_buffer st) (next_index st + n) (stopped st)). unfold consume, sat_add.
  rewrite Z.min_l by lia. split_and!; try done. constructor; cbn [next_index next_buffer queue]; [lia|done|done].
Qed.

Lemma zdrop_zdrop {A} (l : list A) i j : 0 <= i -> 0 <= j -> zdrop j (zdrop i l) = zdrop (i + j) l.
Proof. intros Hi Hj. unfold zdrop. rewrite drop_drop. f_equal. lia. Qed.

(** After [n] bytes of the chunk have been consumed. *)
Lemma take_chunk st chunk p q :
  buffer_ok st -> chunk = zdrop (next_index st) (next_buffer st) -> chunk = p ++ q ->
  exists st', consume (zlen p) st = Some (Ok tt, st') /\ buffer_ok st' /\ stopped st' = stopped st
  /\ pending st = p ++ pending st' /\ next_buffer st' = next_buffer st
  /\ zdrop (next_index st') (next_buffer st') = q
  /\ next_index st' = next_index st + zlen p.
Proof.
  intros Hok Hc Hpq. destruct (consume_run st (zlen p) Hok) as (st' & Hrun & Hok' & Hs & Hi & Hb & Hq).
  { rewrite <-Hc, Hpq, zlen_app. pose proof (zlen_nonneg p). pose proof (zlen_nonneg q). lia. }
  exists st'.
  assert (Hd : zdrop (next_index st') (next_buffer st') = q).
  { rewrite Hi, Hb, <-zdrop_zdrop, <-Hc, Hpq by (apply Hok || apply zlen_nonneg). by apply zdrop_app. }
  split_and!; try done. unfold pending. by rewrite Hd, Hq, <-Hc, Hpq, <-app_assoc.
Qed.

Lemma position_some (P : Z -> bool) l i :
  position P l = Some i -> exists p c q, l = p ++ c :: q /\ P c = true
  /\ Forall (fun c => P c = false) p /\ length p = i.
Proof.
  revert i. induction l as [|x l IH]; intros i H; [done|]. simpl in H. destruct (P x) eqn:E.
  - simplify_eq. by exists [], x, l.
  - destruct (position P l) as [j|] eqn:Ej; [|done]. simplify_eq/=.
    destruct (IH j eq_refl) as (p & c & q & -> & ? & ? & <-). exists (x :: p), c, q. split_and!; auto.
Qed.
Lemma position_absent (P : Z -> bool) l : position P l = None -> Forall (fun c => P c = false) l.
Proof.
  induction l as [|x l IH]; [done|]. simpl. destruct (P x) eqn:E; [done|].
  destruct (position P l); [done|]. auto.
Qed.

Lemma previous_newline st c :
  0 < next_index st -> next_buffer st !! Z.to_nat (next_index st - 1) = Some c ->
  previous_chunk_had_newline st = Some (Ok (c =? 10), st).
Proof.
  intros H E. unfold previous_chunk_had_newline, sat_sub. rewrite Z.max_l by lia. rewrite E.
  by rewrite (proj2 (Z.ltb_lt _ _)).
Qed.

Lemma zdrop_lookup {A} (l : list A) i p c q :
  0 <= i -> zdrop i l = p ++ c :: q -> l !! Z.to_nat (i + zlen p) = Some c.
Proof.
  intros Hi E. rewrite <-(take_drop (Z.to_nat i) l). unfold zdrop in E. rewrite E.
  assert (Hlen : (Z.to_nat i <= length l)%nat).
  { destruct (Nat.le_gt_cases (Z.to_nat i) (length l)); [done|].
    rewrite drop_ge in E by lia. by destruct p. }
  assert (Hl : Z.to_nat (i + zlen p) = (length (take (Z.to_nat i) l) + length p)%nat).
  { rewrite length_take. unfold zlen. lia. }
  rewrite Hl, lookup_app_r, Nat.add_sub' by lia. by apply list_lookup_middle.
Qed.

(** A part of a line, up to the separator or to the end of the chunk. *)
Lemma take_part_run sep st :
  buffer_ok st ->
  exists st', buffer_ok st' /\ stopped st' = stopped st
  /\ ((exists h, pending st' = pending st /\ take_part sep st = Some (Err h, st')
        /\ (stopped st = false -> pending st = [] /\ h = Waits))
      \/ exists p c last, Forall (fun c => c <> sep) p /\ take_part sep st = Some (Ok (p, c), st')
        /\ 0 < next_index st' /\ next_buffer st' !! Z.to_nat (next_index st' - 1) = Some last
        /\ (if c then pending st = p ++ sep :: pending st' /\ last = sep
            else p <> [] /\ pending st = p ++ pending st' /\ last <> sep)).
Proof.
  intros Hok. destruct (next_chunk_run st Hok) as (st1 & Hok1 & Hs1 & Hp1 & Hrun).
  unfold take_part. destruct Hrun as [(h & Hrun & Hh)|(chunk & Hcne & Hchunk & Hrun)].
  { exists st1. split_and!; [done..|]. left. exists h. by rewrite (bind_err _ _ _ _ _ Hrun). }
  rewrite (bind_ok _ _ _ _ _ Hrun). destruct (index_ok _ Hok1) as [Hi0 _].
  destruct (position (fun value => value =? sep) chunk) as [i|] eqn:Epos.
  - apply position_some in Epos as (p & c & q & Hsplit & Hc & Hp & <-). apply Z.eqb_eq in Hc. subst c.
    destruct (take_chunk st1 chunk (p ++ [sep]) q) as (st' & Hcons & Hok' & Hs' & Hpend & Hb & Hd & Hi);
      [done|done|by rewrite <-app_assoc|].
    replace (Z.of_nat (length p) + 1) with (zlen (p ++ [sep])) by (rewrite zlen_snoc; done).
    rewrite (bind_ok _ _ _ _ _ Hcons). replace (take (length p) chunk) with p by (by rewrite Hsplit, take_app_length).
    exists st'. split_and!; [done|by rewrite Hs', Hs1|]. right. exists p, true, sep. rewrite Hi, Hb, zlen_snoc.
    pose proof (zlen_nonneg p). split_and!; [eapply Forall_impl; [exact Hp|]; simpl; lia|done|lia| | |done].
    + replace (next_index st1 + (zlen p + 1) - 1) with (next_index st1 + zlen p) by lia.
      apply (zdrop_lookup _ _ p sep q); [done|]. by rewrite <-Hchunk.
    + by rewrite <-Hp1, Hpend, <-app_assoc.
  - apply position_absent in Epos.
    assert (Hps : Forall (fun c => c <> sep) chunk) by (eapply Forall_impl; [exact Epos|]; simpl; lia).
    destruct (take_chunk st1 chunk chunk []) as (st' & Hcons & Hok' & Hs' & Hpend & Hb & Hd & Hi);
      [done|done|by rewrite app_nil_r|].
    rewrite (bind_ok _ _ _ _ _ Hcons). exists st'. split_and!; [done|by rewrite Hs', Hs1|]. right.
    destruct chunk as [|c p _] using rev_ind; [done|]. apply Forall_app in Hps as [Hp Hc].
    inversion_clear Hc as [|? ? Hcs _]. exists (p ++ [c]), false, c. rewrite Hi, Hb, zlen_snoc.
    pose proof (zlen_nonneg p). split_and!; [by apply Forall_app; auto|done|lia| |done|by rewrite <-Hp1|done].
    replace (next_index st1 + (zlen p + 1) - 1) with (next_index st1 + zlen p) by lia.
    apply (zdrop_lookup _ _ p c []); [done|]. by rewrite <-Hchunk.
Qed.

(** One turn of [read_line]: it stops at the end of a line, or takes part of
    one, or finds nothing. *)
Lemma read_line_turn st buffer :
  buffer_ok st ->
  exists st' p, buffer_ok st' /\ stopped st' = stopped st /\ Forall (fun c => c <> 10) p
  /\ ((exists h, pending st' = pending st /\ read_line_body buffer st = Some (Err h, st')
        /\ (stopped st = false -> pending st = [] /\ h = Waits))
      \/ (exists rest, pending st = p ++ 10 :: rest /\ pending st' = rest
        /\ read_line_body buffer st
           = Some (if existsb (fun c => c =? 3) p then Err (Fails (InvalidState (lit "Interrupted")))
                   else Ok (inr (from_utf8_lossy (buffer ++ p))), st'))
      \/ (p <> [] /\ pending st = p ++ pending st'
        /\ read_line_body buffer st
           = Some (if existsb (fun c => c =? 3) p then Err (Fails (InvalidState (lit "Interrupted")))
                   else Ok (inl (buffer ++ p)), st'))).
Proof.
  intros Hok. unfold read_line_body.
  destruct (take_part_run 10 st Hok) as (st' & Hok' & Hs' & [(h & Hp & Hrun & Hh)|(p & c & last & Hp & Hrun & Hi & Hl & Hc)]).
  { exists st', []. split_and!; [done..|]. left. exists h. by rewrite (bind_err _ _ _ _ _ Hrun). }
  exists st', p. split_and!; [done..|]. right. rewrite (bind_ok _ _ _ _ _ Hrun). cbn [fst].
  pose proof (previous_newline st' last Hi Hl) as Hn. destruct c; destruct Hc as [Hc1 Hc2].
  - subst last. left. exists (pending st'). split_and!; [done..|].
    destruct (existsb _ p); [done|]. by rewrite (bind_ok _ _ _ _ _ Hn).
  - destruct Hc2 as [Hc2 Hc3]. right. split_and!; [done..|].
    destruct (existsb _ p); [done|]. rewrite (bind_ok _ _ _ _ _ Hn). by rewrite (proj2 (Z.eqb_neq _ _)).
Qed.

Lemma existsb_false (P : Z -> bool) l : Forall (fun c => P c = false) l -> existsb P l = false.
Proof. induction 1 as [|c l H _ IH]; [done|]. simpl. by rewrite H, IH. Qed.

(** ** Reading lines and blocks *)

Lemma split_newline (p rest p' rest' : list Z) :
  Forall (fun c => c <> 10) p -> Forall (fun c => c <> 10) p' ->
  p ++ 10 :: rest = p' ++ 10 :: rest' -> p = p' /\ rest = rest'.
Proof.
  intros Hp. revert p'. induction Hp as [|c p Hc Hp IH]; intros p' Hp' E.
  - destruct p' as [|c' p']; simplify_eq/=; [done|]. inversion_clear Hp'. done.
  - destruct p' as [|c' p']; simplify_eq/=. inversion_clear Hp'.
    by destruct (IH p') as [-> ->].
Qed.

Lemma read_line_ok fuel st line acc rest :
  buffer_ok st -> stopped st = false -> pending st = line ++ 10 :: rest ->
  Forall (fun c => c <> 10 /\ c <> 3) line -> (length line < fuel)%nat ->
  exists st', loop fuel read_line_body acc st = Some (Ok (from_utf8_lossy (acc ++ line)), st')
  /\ buffer_ok st' /\ stopped st' = false /\ pending st' = rest.
Proof.
  revert st line acc. induction fuel as [|fuel IH]; intros st line acc Hok Hs Hp Hl Hf; [lia|].
  assert (Hl10 : Forall (fun c => c <> 10) line) by (eapply Forall_impl; [exact Hl|]; simpl; tauto).
  assert (H3 : forall p, p `prefix_of` line -> existsb (fun c => c =? 3) p = false).
  { intros p [k ->]. apply existsb_false. apply Forall_app in Hl as [Hl _].
    eapply Forall_impl; [exact Hl|]. simpl. lia. }
  destruct (read_line_turn st acc Hok) as (st' & p & Hok' & Hs' & Hp10 & Hturn). rewrite Hs in Hs'.
  destruct Hturn as [(h & _ & _ & Hh)|[(rest' & Hp' & Hr & Hrun)|(Hne & Hp' & Hrun)]].
  - destruct (Hh Hs) as [E _]. rewrite E in Hp. by destruct line.
  - rewrite Hp in Hp'. apply split_newline in Hp' as [<- <-]; [|done|done]. exists st'. split_and!; [|done..].
    apply loop_break; [lia|]. by rewrite Hrun, H3.
  - assert (Hpre : exists line', line = p ++ line' /\ pending st' = line' ++ 10 :: rest).
    { rewrite Hp in Hp'. clear -Hp' Hp10. revert p Hp10 Hp'.
      induction line as [|c line IHl]; intros p Hp10 E; destruct p as [|c' p]; simplify_eq/=; eauto.
      - by inversion_clear Hp10.
      - inversion_clear Hp10. destruct (IHl p) as (l' & -> & ?); eauto. }
    destruct Hpre as (line' & -> & Hp2). apply Forall_app in Hl as [_ Hl].
    rewrite (loop_continue _ _ _ (acc ++ p) _ st'); [|by rewrite Hrun, H3 by by apply prefix_app_r].
    rewrite app_assoc. apply IH; [done..|]. rewrite length_app in Hf. destruct p; [done|]. simpl in Hf. lia.
Qed.

Lemma read_binary_ok fuel st data acc rest :
  buffer_ok st -> stopped st = false -> pending st = data ++ rest -> (length data < fuel)%nat ->
  exists st', loop fuel (read_binary_body (zlen (acc ++ data))) acc st = Some (Ok (acc ++ data), st')
  /\ buffer_ok st' /\ stopped st' = false /\ pending st' = rest.
Proof.
  revert st data acc. induction fuel as [|fuel IH]; intros st data acc Hok Hs Hp Hf; [lia|].
  destruct data as [|d data].
  { exists st. split_and!; [|done..]. rewrite app_nil_r. apply loop_break; [lia|].
    unfold read_binary_body. by rewrite (proj2 (Z.ltb_ge _ _)) by lia. }
  destruct (next_chunk_run st Hok) as (st1 & Hok1 & Hs1 & Hp1 & [(h & _ & Hh)|(chunk & Hne & Hchunk & Hrun)]).
  { destruct (Hh Hs) as [E _]. by rewrite E in Hp. }
  set (all := d :: data) in *.
  set (got := if zlen all <? zlen chunk then ztake (zlen all) chunk else chunk).
  assert (Hgot : exists k k', chunk = got ++ k /\ all = got ++ k' /\ got <> [] /\ (k = [] \/ k' = [])).
  { assert (Hc : all ++ rest = chunk ++ List.concat (queue st1)).
    { rewrite <-Hp, <-Hp1. unfold pending. by rewrite <-Hchunk. }
    subst got. destruct (Z.ltb_spec (zlen all) (zlen chunk)) as [Hlt|Hge]; unfold zlen in *.
    - apply app_eq_inv in Hc as [(k & -> & _)|(k & -> & _)].
      + rewrite length_app in Hlt. lia.
      + exists k, []. unfold ztake. rewrite Nat2Z.id, take_app_length, app_nil_r. by split_and!; [..|right].
    - apply app_eq_inv in Hc as [(k & E & _)|(k & E & _)].
      + exists [], k. rewrite app_nil_r. by split_and!; [..|left].
      + assert (k = []) as -> by (apply (f_equal length) in E; rewrite length_app in E;
          destruct k; [done|rewrite length_cons in E; lia]).
        rewrite app_nil_r in E. exists [], []. rewrite !app_nil_r. by split_and!; [..|left]. }
  destruct Hgot as (k & k' & Hk & Hk' & Hgne & Hor).
  destruct (take_chunk st1 chunk got k Hok1 Hchunk Hk) as (st2 & Hcons & Hok2 & Hs2 & Hpend & _).
  assert (Hbody : read_binary_body (zlen (acc ++ all)) acc st = Some (Ok (inl (acc ++ got)), st2)).
  { unfold read_binary_body. rewrite zlen_app, (proj2 (Z.ltb_lt _ _)) by (subst all; rewrite zlen_cons; pose proof (zlen_nonneg data); lia).
    replace (zlen acc + zlen all - zlen acc) with (zlen all) by lia.
    rewrite (bind_ok _ _ _ _ _ Hrun). cbv zeta. fold got. by rewrite (bind_ok _ _ _ _ _ Hcons). }
  rewrite (loop_continue _ _ _ _ _ _ Hbody). rewrite Hk', app_assoc. apply IH; [done|congruence| |].
  - apply (app_inv_head got). by rewrite <-Hpend, Hp1, Hp, Hk', <-app_assoc.
  - rewrite Hk', length_app in Hf. destruct got; [done|]. simpl in Hf. lia.
Qed.

(** *** Windows consoles *)

(** Plain output of a console: trzsz letters and newlines. *)
Definition win_plain (c : Z) : bool := is_trzsz_letter c || (c =? 10).

Lemma letter_facts c : is_trzsz_letter c = true -> c <> 3 /\ c <> 10 /\ c <> 27 /\ c <> 33 /\ c <> 13 /\ 0 <= c < 128.
Proof. unfold is_trzsz_letter, is_ascii_alphanumeric, in_range. lia. Qed.

Lemma win_chunk_plain w p :
  Forall (fun c => win_plain c = true) p -> skip_vt100 w = false -> may_duplicate w = false ->
  exists w', win_chunk w p = Some w' /\ w_buffer w' = w_buffer w ++ List.filter is_trzsz_letter p
  /\ skip_vt100 w' = false /\ may_duplicate w' = false.
Proof.
  intros Hp. revert w. induction Hp as [|c p Hc Hp IH]; intros w Hs Hm.
  { exists w. simpl. by rewrite app_nil_r. }
  cbn [win_chunk]. unfold win_plain in Hc. unfold win_byte. rewrite Hs, Hm.
  destruct (is_trzsz_letter c) eqn:El; cbn [orb] in Hc.
  - apply letter_facts in El as HF. rewrite (proj2 (Z.eqb_neq c 3)), (proj2 (Z.eqb_neq c 27)) by tauto. cbn [negb andb mbind option_bind].
    match goal with |- exists w', win_chunk ?w1 p = _ /\ _ => destruct (IH w1) as (w' & -> & Hb & ? & ?); [done..|] end.
    exists w'. split_and!; [done| |done..]. rewrite Hb. cbn [w_buffer]. cbn [List.filter]. rewrite El.
    by rewrite <-app_assoc.
  - apply Z.eqb_eq in Hc. subst c. cbn [negb andb mbind option_bind Z.eqb Pos.eqb].
    match goal with |- exists w', win_chunk ?w1 p = _ /\ _ => destruct (IH w1) as (w' & -> & Hb & ? & ?); [done..|] end.
    exists w'. split_and!; [done| |done..]. rewrite Hb. cbn [w_buffer]. cbn [List.filter]. by rewrite El.
Qed.

Lemma read_line_on_windows_ok fuel st text w rest :
  buffer_ok st -> stopped st = false -> pending st = text ++ 33 :: rest ->
  Forall (fun c => win_plain c = true) text -> (length text < fuel)%nat ->
  skip_vt100 w = false -> may_duplicate w = false -> w_buffer w ++ List.filter is_trzsz_letter text <> [] ->
  exists st', loop fuel read_line_on_windows_body w st
              = Some (Ok (from_utf8_lossy (w_buffer w ++ List.filter is_trzsz_letter text)), st')
  /\ buffer_ok st' /\ stopped st' = false /\ pending st' = rest.
Proof.
  revert st text w. induction fuel as [|fuel IH]; intros st text w Hok Hs Hp Ht Hf Hsk Hm Hne; [lia|].
  assert (H33 : Forall (fun c => c <> 33) text).
  { eapply Forall_impl; [exact Ht|]. intros c Hc ->. done. }
  destruct (take_part_run 33 st Hok) as (st' & Hok' & Hs' & [(h & _ & _ & Hh)|(p & c & l & Hp33 & Hrun & _ & _ & Hc)]).
  { destruct (Hh Hs) as [E _]. rewrite E in Hp. by destruct text. }
  assert (Hsplit : exists text', text = p ++ text' /\ (if c then text' = [] /\ pending st' = rest
                                                     else p <> [] /\ pending st' = text' ++ 33 :: rest)).
  { destruct c; destruct Hc as [Hc1 Hc2]; rewrite Hp in *.
    - exists []. rewrite app_nil_r. clear -Hc1 H33 Hp33. revert p Hc1 Hp33.
      induction H33 as [|x t Hx _ IHt]; intros [|y p] E Hp33; simplify_eq/=; auto.
      + by inversion_clear Hp33.
      + inversion_clear Hp33. destruct (IHt p) as (-> & _ & <-); auto.
    - destruct Hc2 as [Hc2 _]. clear -Hc1 Hc2 Hp33. revert p Hp33 Hc1 Hc2.
      induction text as [|x t IHt]; intros [|y p] Hp33 Hne E; simplify_eq/=.
      + by inversion_clear Hp33.
      + inversion_clear Hp33. destruct (decide (p = [])) as [->|Hn]; [by eauto|].
        destruct (IHt p) as (t' & -> & _ & ?); eauto. }
  destruct Hsplit as (text' & -> & Hc'). apply Forall_app in Ht as [Htp Ht'].
  destruct (win_chunk_plain w p Htp Hsk Hm) as (w' & Hw & Hb & Hsk' & Hm').
  rewrite List.filter_app in *. destruct c.
  - destruct Hc' as [-> Hr]. exists st'. split_and!; [|done|congruence|done]. apply loop_break; [lia|].
    unfold read_line_on_windows_body. rewrite (bind_ok _ _ _ _ _ Hrun). cbn [fst snd]. rewrite Hw, Hb, Hsk'.
    rewrite app_nil_r in *. by rewrite bool_decide_eq_false_2.
  - destruct Hc' as [Hpne Hr].
    rewrite (loop_continue _ _ _ w' _ st').
    2: { unfold read_line_on_windows_body. rewrite (bind_ok _ _ _ _ _ Hrun). cbn [fst snd]. by rewrite Hw. }
    rewrite app_assoc, <-Hb in *. apply IH; [done|congruence|done|done| |done..].
    rewrite length_app in Hf. destruct p; [done|]. simpl in Hf. lia.
Qed.

(** ** Termination and progress on every input *)

(** [polite]: from a buffer with at most [N] unread bytes, the computation
    ends and has read a prefix of them; [hungry]: when it succeeds it has read
    at least one byte. *)
Definition polite {A} (N : nat) (m : M halt BufferState A) : Prop :=
  forall st, buffer_ok st -> (length (pending st) <= N)%nat ->
  wp m (fun _ st' => buffer_ok st' /\ stopped st' = stopped st /\ pending st' `suffix_of` pending st) st.
Definition hungry {A} (N : nat) (m : M halt BufferState A) : Prop :=
  forall st, buffer_ok st -> (length (pending st) <= N)%nat ->
  wp m (fun r st' => buffer_ok st' /\ stopped st' = stopped st /\ pending st' `suffix_of` pending st
     /\ match r with Ok _ => length (pending st') < length (pending st) | Err _ => True end)%nat st.

Lemma hungry_polite {A} N (m : M halt BufferState A) : hungry N m -> polite N m.
Proof. intros H st Hok Hn. eapply wp_mono; [exact (H st Hok Hn)|]. simpl. tauto. Qed.

Lemma hungry_loop {A B} N fuel (body : A -> M halt BufferState (A + B)) a :
  (N < fuel)%nat -> (forall a, hungry N (body a)) -> hungry N (loop fuel body a).
Proof.
  intros Hf Hb st Hok Hn.
  apply (wp_loop (fun _ s => buffer_ok s /\ stopped s = stopped st /\ pending s `suffix_of` pending st)
           (fun _ s => length (pending s))); [|done|lia].
  intros a1 s1 (Hok1 & Hs1 & H1). apply suffix_length in H1 as Hl1.
  eapply wp_mono; [apply Hb; [done|lia]|].
  intros [[a2|b]|e] s2 (Hok2 & Hs2 & H2 & H3); simpl; rewrite Hs2; split_and!; try done; try lia; by etrans.
Qed.

Lemma take_part_hungry N sep : hungry N (take_part sep).
Proof.
  intros st Hok _. unfold wp.
  destruct (take_part_run sep st Hok) as (st' & Hok' & Hs' & [(h & Hp & -> & _)|(p & c & l & _ & -> & _ & _ & Hc)]).
  { by rewrite Hp. }
  destruct c; destruct Hc as [Hc Hc']; [|destruct Hc' as [Hc' _]].
  - rewrite Hc. split_and!; [done..|by apply suffix_app_r, suffix_cons_r|]. rewrite length_app. simpl. lia.
  - rewrite Hc'. split_and!; [done..|by apply suffix_app_r|]. rewrite length_app. destruct p; [done|]. simpl. lia.
Qed.

Lemma read_line_hungry N fuel : (N < fuel)%nat -> hungry N (read_line fuel).
Proof.
  intros Hf. apply hungry_loop; [done|]. intros acc st Hok Hn. unfold read_line_body. apply wp_bind.
  eapply wp_mono; [exact (take_part_hungry N _ st Hok Hn)|]. intros [part|h] st' H; simpl; [|done].
  destruct (existsb _ part.1); [apply wp_throw; tauto|]. apply wp_bind. done.
Qed.

Lemma read_line_on_windows_hungry N fuel : (N < fuel)%nat -> hungry N (read_line_on_windows fuel).
Proof.
  intros Hf. apply hungry_loop; [done|]. intros acc st Hok Hn. unfold read_line_on_windows_body. apply wp_bind.
  eapply wp_mono; [exact (take_part_hungry N _ st Hok Hn)|]. intros [part|h] st' H; simpl; [|done].
  destruct (win_chunk acc part.1) as [w'|]; [|apply wp_throw; tauto]. by case_match; apply wp_ret.
Qed.

Lemma read_binary_polite N fuel n : (N < fuel)%nat -> polite N (read_binary fuel n).
Proof.
  intros Hf st Hok Hn. unfold read_binary. destruct (ISIZE_MAX <? n); [by apply wp_throw|].
  apply (wp_loop (fun _ s => buffer_ok s /\ stopped s = stopped st /\ pending s `suffix_of` pending st)
           (fun _ s => length (pending s))); [|done|lia].
  intros acc s (Hoks & Hss & Hps). unfold read_binary_body.
  destruct (Z.ltb_spec (zlen acc) n); [|by apply wp_ret].
  destruct (next_chunk_run s Hoks) as (s1 & Hok1 & Hs1 & Hp1 & [(h & Hrun & _)|(chunk & Hne & Hchunk & Hrun)]);
    unfold wp; [by rewrite (bind_err _ _ _ _ _ Hrun), Hs1, Hp1|].
  rewrite (bind_ok _ _ _ _ _ Hrun). cbv zeta.
  set (got := if _ <? zlen chunk then _ else chunk).
  assert (Hk : exists k, chunk = got ++ k /\ got <> []).
  { subst got. destruct (Z.ltb_spec (n - zlen acc) (zlen chunk)).
    - exists (zdrop (n - zlen acc) chunk). split; [symmetry; apply take_drop|]. unfold ztake.
      destruct chunk; [done|]. destruct (Z.to_nat (n - zlen acc)) eqn:E; [lia|done].
    - exists []. by rewrite app_nil_r. }
  destruct Hk as (k & Hk & Hgne).
  destruct (take_chunk s1 chunk got k Hok1 Hchunk Hk) as (s2 & Hcons & Hok2 & Hs2 & Hpend & _).
  rewrite (bind_ok _ _ _ _ _ Hcons). simpl. rewrite Hp1 in Hpend.
  split_and!; [done|congruence| |].
  - etrans; [|exact Hps]. exists got. done.
  - rewrite Hpend, length_app. destruct got; [done|]. simpl. lia.
Qed.

(** ** The buffer's contract *)

(** However the transport cuts the stream into chunks, [read_line] gives the
    bytes up to the next newline and [read_binary] the next [n] bytes, and
    both leave exactly the rest. *)
Theorem trzsz_reads_stream (st : BufferState) (line data rest : list Z) (fuel : nat) :
  buffer_ok st -> stopped st = false -> (length (pending st) < fuel)%nat ->
  (pending st = line ++ 10 :: rest -> Forall (fun c => c <> 10 /\ c <> 3) line ->
   exists st', read_line fuel st = Some (Ok (from_utf8_lossy line), st')
               /\ buffer_ok st' /\ stopped st' = false /\ pending st' = rest)
  /\ (pending st = data ++ rest -> zlen data <= ISIZE_MAX ->
      exists st', read_binary fuel (zlen data) st = Some (Ok data, st')
                  /\ buffer_ok st' /\ stopped st' = false /\ pending st' = rest).
Proof.
  intros Hok Hs Hf. split; intros Hp.
  - intros Hl. apply (read_line_ok fuel st line [] rest); try done.
    rewrite Hp, length_app in Hf. lia.
  - intros Hd. unfold read_binary. rewrite (proj2 (Z.ltb_ge _ _)) by done.
    apply (read_binary_ok fuel st data [] rest); try done. rewrite Hp, length_app in Hf. lia.
Qed.

(** ** Escaping *)

(** A table whose escapes can be told from plain bytes and from each other:
    the byte that opens an escape is itself escaped, and an escape stands for
    one byte. *)
Definition table_ok (codes : list EscapeCode) : bool :=
  forallb (fun c => existsb (fun c' : EscapeCode => c'.1 =? c.2.1) codes) codes
  && forallb (fun c => forallb (fun c' : EscapeCode =>
       negb ((c.2.1 =? c'.2.1) && (c.2.2 =? c'.2.2)) || (c.1 =? c'.1)) codes) codes.

Lemma find_escaped_first codes x y c :
  table_ok codes = true -> c ∈ codes -> c.2 = (x, y) ->
  exists c', find_escaped codes x y = Some c' /\ c'.1 = c.1.
Proof.
  intros [_ Hu]%andb_true_iff Hin Hc. unfold find_escaped.
  destruct (List.find _ codes) as [c'|] eqn:Ef.
  - apply List.find_some in Ef as [Hin' Hm]. exists c'. split; [done|].
    rewrite forallb_forall in Hu. specialize (Hu c'). rewrite forallb_forall in Hu.
    apply list_elem_of_In in Hin. specialize (Hu Hin' c Hin). rewrite Hc in Hu. simpl in Hu, Hm. lia.
  - apply list_elem_of_In in Hin. apply (List.find_none _ _ Ef) in Hin. rewrite Hc in Hin. simpl in Hin.
    by rewrite !Z.eqb_refl in Hin.
Qed.

Lemma find_escaped_plain codes x y :
  table_ok codes = true -> List.find (fun c : EscapeCode => x =? c.1) codes = None ->
  find_escaped codes x y = None.
Proof.
  intros [Hl _]%andb_true_iff Hx. unfold find_escaped.
  destruct (List.find _ codes) as [c|] eqn:Ef in |- *; [|done]. exfalso.
  apply List.find_some in Ef as [Hin Hm]. rewrite forallb_forall in Hl. specialize (Hl c Hin).
  apply existsb_exists in Hl as (c' & Hin' & Hc'). apply (List.find_none _ _ Hx) in Hin'. lia.
Qed.

Lemma unescape_escaped codes data :
  table_ok codes = true ->
  unescape_loop codes (List.concat (map (escape_byte codes) data)) = data.
Proof.
  intros Hok. induction data as [|v data IH]; [done|]. cbn [map List.concat]. unfold escape_byte at 1.
  destruct (List.find _ codes) as [c|] eqn:Ef.
  - apply List.find_some in Ef as [Hin Hv]. apply list_elem_of_In in Hin.
    destruct (find_escaped_first codes c.2.1 c.2.2 c Hok Hin) as (c' & Hf & Hc'); [by destruct c as [? []]|].
    cbn [app unescape_loop]. rewrite Hf, IH. f_equal. lia.
  - cbn [app]. destruct (List.concat (map (escape_byte codes) data)) as [|y rest] eqn:Er.
    + cbn. by rewrite <-IH.
    + cbn [unescape_loop]. rewrite (find_escaped_plain codes v y Hok Ef). f_equal. exact IH.
Qed.

Lemma unescape_data_escape codes data :
  table_ok codes = true -> unescape_data (escape_data data codes) codes = data.
Proof.
  intros Hok. unfold unescape_data, escape_data. case_bool_decide; [done|]. by apply unescape_escaped.
Qed.

(** escaping loses nothing, whatever the data, for every table whose
    lead bytes are escaped themselves and whose escapes are distinct. *)
Theorem escape_roundtrip (codes : list EscapeCode) (data : list Z) :
  table_ok codes = true -> unescape_data (escape_data data codes) codes = data.
Proof. apply unescape_data_escape. Qed.

Lemma escape_roundtrip_witness :
  unescape_data (escape_data [126; 0xee; 49; 0xee] [(0xee, (0xee, 0xee)); (126, (0xee, 49))])
    [(0xee, (0xee, 0xee)); (126, (0xee, 49))] = [126; 0xee; 49; 0xee].
Proof. apply (escape_roundtrip [(0xee, (0xee, 0xee)); (126, (0xee, 49))]). reflexivity. Defined.

(** A table is read through the UTF-8 bytes of its strings, not through their
    characters: with U+00EE escaped as itself twice and a tilde as U+00EE and a
    digit, the lead byte is 0xC3 instead of 0xEE, both entries get the same
    escape, and a tilde does not survive. *)
Example escape_table_utf8 :
  let codes := escape_chars_to_codes [[[0xee]; [0xee; 0xee]]; [[126]; [0xee; 49]]] in
  codes = [(0xc3, (0xc3, 0xae)); (126, (0xc3, 0xae))]
  /\ table_ok codes = false
  /\ table_ok [(0xee, (0xee, 0xee)); (126, (0xee, 49))] = true
  /\ unescape_data (escape_data [126] codes) codes = [0xc3].
Proof. by vm_compute. Qed.
