(* ===== verification/TrzszTransfer.v ===== *)
(** * trzsz transfers (hapcli-trzsz: transfer.rs)

    The protocol: numbered lines [#KIND:payload], each answered by [#SUCC:..],
    text and file data packed with zlib and base64, or escaped binary blocks.
    Compression, base64, MD5 and JSON are third-party code and enter through
    the class [Codec], with the laws the protocol relies on in [CodecLaws].
    The progress bar only displays and is left out; so is [last_input_time],
    which the code sets and never reads.  Loops over the input have fuel; the
    theorems show that fuel linear in the unread input suffices. *)
From S2P Require Import Prelude Text Utf16 TrzszBuffer.
From Stdlib Require Import Ascii String.
From stdpp Require Import prelude numbers list.
Open Scope Z_scope.

(** ** Third-party code *)

(** A JSON value, as [serde_json::Value]. *)
Inductive Value : Type :=
| VNull
| VBool (b : bool)
| VNumber (n : Z)
| VReal (text : list Z)
| VString (s : list Z)
| VArray (l : list Value)
| VObject (fields : list (list Z * Value)).

(** [&value[key]]. *)
Definition value_index (v : Value) (key : list Z) : Value :=
  match v with
  | VObject fields =>
      match List.find (fun f : list Z * Value => bool_decide (f.1 = key)) fields with
      | Some f => f.2
      | None => VNull
      end
  | _ => VNull
  end.
Definition as_u64 (v : Value) : option Z :=
  match v with VNumber n => if (0 <=? n) && (n <=? U64_MAX) then Some n else None | _ => None end.
Definition as_array (v : Value) : option (list Value) :=
  match v with VArray l => Some l | _ => None end.
Definition as_str (v : Value) : option (list Z) :=
  match v with VString s => Some s | _ => None end.
Definition is_true (v : Value) : bool := match v with VBool b => b | _ => false end.

(** zlib, base64, MD5 and JSON; errors are their messages. *)
Class Codec := {
  deflate : list Z -> list Z;
  inflate : list Z -> result (list Z) (list Z);
  b64_encode : list Z -> list Z;
  b64_decode : list Z -> result (list Z) (list Z);
  md5 : list Z -> list Z;
  json_to_string : Value -> list Z;
  json_from_str : list Z -> result (list Z) Value
}.

(** The alphabet of base64, with padding. *)
Definition is_b64 (c : Z) : bool :=
  is_ascii_alphanumeric c || (c =? 43) || (c =? 47) || (c =? 61).

Class CodecLaws `{Codec} : Prop := {
  inflate_deflate b : bytes_ok b -> inflate (deflate b) = Ok b;
  deflate_bytes b : bytes_ok b -> bytes_ok (deflate b);
  b64_roundtrip b : bytes_ok b -> b64_decode (b64_encode b) = Ok b;
  b64_alphabet b : Forall (fun c => is_b64 c = true) (b64_encode b);
  md5_bytes b : bytes_ok (md5 b)
}.

(** ** Strings *)

Fixpoint is_prefix (p s : list Z) : bool :=
  match p, s with
  | [], _ => true
  | x :: p', y :: s' => (x =? y) && is_prefix p' s'
  | _ :: _, [] => false
  end.
(** [str::find] and [str::rfind] with a non-empty pattern, from byte [pos]. *)
Fixpoint str_find (p s : list Z) (pos : Z) : option Z :=
  match s with
  | [] => None
  | c :: r => if is_prefix p s then Some pos else str_find p r (pos + char_len_utf8 c)
  end.
Fixpoint str_rfind (p s : list Z) (pos : Z) : option Z :=
  match s with
  | [] => None
  | c :: r => match str_rfind p r (pos + char_len_utf8 c) with
              | Some i => Some i
              | None => if is_prefix p s then Some pos else None
              end
  end.

(** [String::from_utf8]: the bytes are valid when decoding them loses nothing. *)
Definition from_utf8 (l : list Z) : option (list Z) :=
  let s := from_utf8_lossy l in if decide (utf8_encode s = l) then Some s else None.

(** The message of the [ParseIntError] of a [u64]. *)
Fixpoint int_error (n : Z) (s : list Z) : list Z :=
  match s with
  | [] => []
  | c :: r =>
      if is_digit c
      then if 10 * n + (c - 48) <=? U64_MAX then int_error (10 * n + (c - 48)) r
           else lit "number too large to fit in target type"
      else lit "invalid digit found in string"
  end.
Definition parse_int_error (s : list Z) : list Z :=
  match s with
  | [] => lit "cannot parse integer from empty string"
  | c :: r => if (c =? 43) && negb (bool_decide (r = [])) then int_error 0 r else int_error 0 s
  end.

(** [loop { .. }] of [strip_tmux_status_line]: every turn removes at least
    eight bytes.  [None] would be a panic of a slice. *)
Fixpoint strip_tmux_loop (fuel : nat) (next_buffer : list Z) : option (list Z) :=
  match fuel with
  | O => None
  | S k =>
      match str_find [27; 80; 61] next_buffer 0 with
      | None => Some next_buffer
      | Some begin_index =>
          let buffer_index := begin_index + 3 in
          after ← slice_from next_buffer buffer_index;
          match str_find [27; 80; 61] after 0 with
          | None => slice_to next_buffer begin_index
          | Some mid_index =>
              let buffer_index := buffer_index + (mid_index + 3) in
              after ← slice_from next_buffer buffer_index;
              match str_find [27; 92] after 0 with
              | None => slice_to next_buffer begin_index
              | Some end_index =>
                  let buffer_index := buffer_index + (end_index + 2) in
                  before ← slice_to next_buffer begin_index;
                  after ← slice_from next_buffer buffer_index;
                  strip_tmux_loop k (before ++ after)
              end
          end
      end
  end.
Definition strip_tmux_status_line (buffer : list Z) : option (list Z) :=
  strip_tmux_loop (S (length buffer)) buffer.

(** ** The transfer *)

Record TrzszTransfer := mkTransfer {
  t_buffer : BufferState;
  written : list (list Z);
  is_windows_shell : bool;
  max_data_chunk_size : Z;
  remote_is_windows : bool;
  tmux_output_junk : bool;
  clean_timeout : Z;
  transfer_config : Value;
  t_stopped : bool;
  max_chunk_time : Z;
  protocol_newline : list Z
}.

(** Times are in nanoseconds. *)
Definition millis (n : Z) : Z := n * 1000000.

Definition new_transfer (windows_shell : bool) (max_chunk : Z) : TrzszTransfer :=
  mkTransfer new_buffer [] windows_shell max_chunk false false (millis 100) (VObject []) false 0 [10].

Definition set_buffer v (t : TrzszTransfer) : TrzszTransfer :=
  mkTransfer v (written t) (is_windows_shell t) (max_data_chunk_size t) (remote_is_windows t)
    (tmux_output_junk t) (clean_timeout t) (transfer_config t) (t_stopped t) (max_chunk_time t)
    (protocol_newline t).
Definition set_written v (t : TrzszTransfer) : TrzszTransfer :=
  mkTransfer (t_buffer t) v (is_windows_shell t) (max_data_chunk_size t) (remote_is_windows t)
    (tmux_output_junk t) (clean_timeout t) (transfer_config t) (t_stopped t) (max_chunk_time t)
    (protocol_newline t).
Definition set_config v junk (t : TrzszTransfer) : TrzszTransfer :=
  mkTransfer (t_buffer t) (written t) (is_windows_shell t) (max_data_chunk_size t) (remote_is_windows t)
    junk (clean_timeout t) v (t_stopped t) (max_chunk_time t) (protocol_newline t).
Definition set_chunk_time v (t : TrzszTransfer) : TrzszTransfer :=
  mkTransfer (t_buffer t) (written t) (is_windows_shell t) (max_data_chunk_size t) (remote_is_windows t)
    (tmux_output_junk t) (clean_timeout t) (transfer_config t) (t_stopped t) v (protocol_newline t).

Definition add_received_data (data : list Z) (t : TrzszTransfer) : TrzszTransfer :=
  if negb (t_stopped t) then set_buffer (add_buffer data (t_buffer t)) t else t.
(** The handle of [input_handle] shares the buffer and does not look at
    [stopped]. *)
Definition input_add_received_data (data : list Z) (t : TrzszTransfer) : TrzszTransfer :=
  set_buffer (add_buffer data (t_buffer t)) t.
Definition input_stop_transferring (t : TrzszTransfer) : TrzszTransfer :=
  set_buffer (stop_buffer (t_buffer t)) t.

Definition stop_transferring (t : TrzszTransfer) : TrzszTransfer :=
  mkTransfer (stop_buffer (t_buffer t)) (written t) (is_windows_shell t) (max_data_chunk_size t)
    (remote_is_windows t) (tmux_output_junk t) (Z.max (max_chunk_time t * 2) (millis 500))
    (transfer_config t) true (max_chunk_time t) (protocol_newline t).

Definition set_remote_platform (windows : bool) (t : TrzszTransfer) : TrzszTransfer :=
  if windows
  then mkTransfer (t_buffer t) (written t) (is_windows_shell t) (max_data_chunk_size t) true
         (tmux_output_junk t) (clean_timeout t) (transfer_config t) (t_stopped t) (max_chunk_time t)
         [33; 10]
  else t.

Definition clean_input (t : TrzszTransfer) : TrzszTransfer :=
  mkTransfer (drain_buffer (t_buffer t)) (written t) (is_windows_shell t) (max_data_chunk_size t)
    (remote_is_windows t) (tmux_output_junk t) (clean_timeout t) (transfer_config t) true
    (max_chunk_time t) (protocol_newline t).

Abbreviation TM := (M halt TrzszTransfer).

Definition modify (f : TrzszTransfer -> TrzszTransfer) : TM unit := fun t => Some (Ok tt, f t).
Definition get : TM TrzszTransfer := fun t => Some (Ok t, t).
Definition on_buffer {A} (m : M halt BufferState A) : TM A :=
  fun t => match m (t_buffer t) with
           | Some (r, b) => Some (r, set_buffer b t)
           | None => None
           end.
(** The [writer] callback. *)
Definition write (bytes : list Z) : TM unit := modify (fun t => set_written (written t ++ [bytes]) t).
(** A slice of a string: off a boundary it panics. *)
Definition or_panic {S A} (o : option A) : M halt S A :=
  match o with Some a => ret a | None => throw Panics end.
Definition try_ {S A} (f : list Z -> TrzszError) (r : result (list Z) A) : M halt S A :=
  lift (map_err (fun text => Fails (f text)) r).

(** ** Files *)

(** [trait TrzszFileReader]. *)
Class TrzszFileReader (F : Type) := {
  path_id : F -> Z;
  rel_path : F -> list (list Z);
  r_is_dir : F -> bool;
  reader_size : F -> Z;
  read_file : Z -> M halt F (list Z);
  r_close_file : F -> F
}.

(** [rel_path().join("/")]. *)
Definition path_text {F} `{TrzszFileReader F} (f : F) : list Z :=
  match rel_path f with
  | [] => []
  | p :: rest => p ++ List.concat (map (cons 47) rest)
  end.

(** [trait TrzszFileWriter]: [W] is a handle into the file system [FS]. *)
Class TrzszFileWriter (FS W : Type) := {
  local_name : W -> list Z;
  is_dir : W -> bool;
  write_file : W -> list Z -> M halt FS unit;
  close_file : W -> M halt FS unit;
  commit_file : W -> M halt FS unit;
  finish_file : W -> M halt FS unit;
  abort_file : W -> M halt FS unit
}.

Section Transfer.
Context `{Codec}.
(** The time the [k]-th chunk of a file takes. *)
Context (elapsed : nat -> Z).
(** The text of the standard library's [FromUtf8Error] for some bytes. *)
Context (utf8_error : list Z -> list Z).
(** Fuel for the loops over the input. *)
Context (fuel : nat).

Definition encode_buffer (buffer : list Z) : list Z := b64_encode (deflate buffer).
Definition decode_buffer (buffer : list Z) : TM (list Z) :=
  let* bytes := try_ InvalidState (b64_decode buffer) in
  try_ IoError (inflate bytes).

(** *** Lines *)

Definition tag (kind : list Z) : list Z := 35 :: kind ++ [58].

Definition send_line (kind buffer : list Z) : TM unit :=
  let* t := get in write (tag kind ++ buffer ++ protocol_newline t).

Definition recv_line (expect_type : list Z) (may_have_junk : bool) : TM (list Z) :=
  let* t := get in
  if t_stopped t then fail (InvalidState (lit "Stopped"))
  else if is_windows_shell t || remote_is_windows t then
    let* line := on_buffer (read_line_on_windows fuel) in
    match str_rfind (tag expect_type) line 0 with
    | Some index => or_panic (slice_from line index)
    | None =>
        match str_rfind [35] line 0 with
        | Some index => if 0 <? index then or_panic (slice_from line index) else ret line
        | None => ret line
        end
    end
  else
    let* line := on_buffer (read_line fuel) in
    if tmux_output_junk t || may_have_junk then
      let* line := loop fuel (fun line : list Z =>
        match last line with
        | Some c => if c =? 13
                    then let* more := on_buffer (read_line fuel) in
                         ret (inl (take (Nat.pred (length line)) line ++ more))
                    else ret (inr line)
        | None => ret (inr line)
        end) line in
      let* line :=
        match str_rfind (tag expect_type) line 0 with
        | Some index => or_panic (slice_from line index)
        | None =>
            match str_rfind [35] line 0 with
            | Some index => if 0 <? index then or_panic (slice_from line index) else ret line
            | None => ret line
            end
        end in
      or_panic (strip_tmux_status_line line)
    else ret line.

(** [line[1..separator]] panics when the first character of the line has more
    than one byte. *)
Definition recv_check (expect_type : list Z) (may_have_junk : bool) : TM (list Z) :=
  let* line := recv_line expect_type may_have_junk in
  match str_find [58] line 0 with
  | None => fail (InvalidState (lit "Missing colon in trzsz line: " ++ line))
  | Some separator_index =>
      if separator_index <? 1 then fail (InvalidState (lit "Invalid trzsz line: " ++ line))
      else
        let* kind := or_panic (slice line 1 separator_index) in
        let* buffer := or_panic (slice_from line (separator_index + 1)) in
        if decide (kind = expect_type) then ret buffer
        else fail (InvalidState (kind ++ lit ": " ++ buffer))
  end.

Definition send_integer (kind : list Z) (value : Z) : TM unit := send_line kind (u64_to_string value).
Definition recv_integer (kind : list Z) (may_have_junk : bool) : TM Z :=
  let* text := recv_check kind may_have_junk in
  match parse_u64 text with
  | Some n => ret n
  | None => fail (InvalidState (lit "Invalid integer: " ++ parse_int_error text))
  end.
Definition check_integer (expect : Z) : TM unit :=
  let* got := recv_integer (lit "SUCC") false in
  if got =? expect then ret tt
  else fail (InvalidState (lit "Integer check [" ++ u64_to_string got ++ lit "] <> ["
                           ++ u64_to_string expect ++ lit "]")).

Definition send_string (kind value : list Z) : TM unit := send_line kind (encode_buffer (utf8_encode value)).
Definition recv_string (kind : list Z) (may_have_junk : bool) : TM (list Z) :=
  let* text := recv_check kind may_have_junk in
  let* decoded := decode_buffer text in
  match from_utf8 decoded with
  | Some s => ret s
  | None => fail (InvalidState (utf8_error decoded))
  end.
Definition send_binary (kind buffer : list Z) : TM unit := send_line kind (encode_buffer buffer).
Definition recv_binary (kind : list Z) (may_have_junk : bool) : TM (list Z) :=
  let* text := recv_check kind may_have_junk in decode_buffer text.
Definition check_binary (expect : list Z) : TM unit :=
  let* got := recv_binary (lit "SUCC") false in
  if decide (got = expect) then ret tt else fail (InvalidState (lit "Binary check failed")).

Definition send_data (data : list Z) (binary : bool) (escape_codes : list EscapeCode) : TM unit :=
  if negb binary then send_binary (lit "DATA") data
  else let escaped := escape_data data escape_codes in
       do* send_line (lit "DATA") (u64_to_string (zlen escaped)) in write escaped.
Definition recv_data (binary : bool) (escape_codes : list EscapeCode) : TM (list Z) :=
  if negb binary then recv_binary (lit "DATA") false
  else let* size := recv_integer (lit "DATA") false in
       let* block := on_buffer (read_binary fuel size) in
       ret (unescape_data block escape_codes).

(** *** Sessions *)

Definition send_action (confirm remote_windows : bool) : TM unit :=
  let* t := get in
  let fields := [(lit "lang", VString (lit "js")); (lit "confirm", VBool confirm);
                 (lit "version", VString (lit "1.1.6")); (lit "support_dir", VBool true)] in
  let fields := if is_windows_shell t || remote_windows
                then fields ++ [(lit "binary", VBool false); (lit "newline", VString [33; 10])]
                else fields in
  do* (if remote_windows then modify (set_remote_platform true) else ret tt) in
  send_string (lit "ACT") (json_to_string (VObject fields)).

Definition recv_config : TM Value :=
  let* buffer := recv_string (lit "CFG") true in
  let* config := try_ InvalidState (json_from_str buffer) in
  do* modify (set_config config (is_true (value_index config (lit "tmux_output_junk")))) in
  ret config.

Definition client_exit (message : list Z) : TM unit := send_string (lit "EXIT") message.
(** [error.to_string()] is an argument. *)
Definition client_error (message : list Z) : TM unit :=
  do* modify clean_input in send_string (lit "FAIL") message.

Definition config_bool (t : TrzszTransfer) (key : list Z) : bool := is_true (value_index (transfer_config t) key).
Definition config_u64 (t : TrzszTransfer) (key : list Z) : option Z := as_u64 (value_index (transfer_config t) key).
Definition config_escape_codes (t : TrzszTransfer) : list EscapeCode :=
  match as_array (value_index (transfer_config t) (lit "escape_chars")) with
  | None => []
  | Some values => escape_chars_to_codes (omap (M := list) (fun value =>
        match as_array value with
        | Some items => Some (omap (M := list) as_str items)
        | None => None
        end) values)
  end.

(** *** Sending files *)

Section Send.
(** [trait TrzszFileReader]. *)
Context {F : Type} `{TrzszFileReader F}.

Abbreviation SM := (M halt (TrzszTransfer * F)).

Definition send_file_num (num : Z) : TM unit :=
  do* send_integer (lit "NUM") num in check_integer num.

Definition name_object (f : F) : Value :=
  VObject [(lit "path_id", VNumber (path_id f));
           (lit "path_name", VArray (map VString (rel_path f)));
           (lit "is_dir", VBool (r_is_dir f))].

Definition send_file_name (directory : bool) : SM (list Z) :=
  fun '(t, f) =>
    (let* file_name := lift (ok_or (last (rel_path f)) (Fails (InvalidPath (lit "empty trzsz rel path")))) in
     do* on_fst (send_string (lit "NAME")
           (if directory then json_to_string (name_object f) else file_name)) in
     on_fst (recv_string (lit "SUCC") false)) (t, f).

Definition send_file_size (size : Z) : TM unit :=
  do* send_integer (lit "SIZE") size in check_integer size.

(** The next size of the read buffer. *)
Definition next_buffer_size (got buffer_size max_buffer_size chunk_time : Z) : Z :=
  if (got =? buffer_size) && (chunk_time <? millis 500) && (buffer_size <? max_buffer_size)
  then Z.min (buffer_size * 2) max_buffer_size
  else if (millis 2000 <=? chunk_time) && (1024 <? buffer_size) then 1024
  else buffer_size.

(** The variables of the loop of [send_file_data]: the bytes sent, the buffer
    size, the data the MD5 context has consumed, the number of the chunk. *)
Definition send_chunk (size : Z) (binary : bool) (escape_codes : list EscapeCode) (max_buffer_size : Z)
    (v : Z * Z * list Z * nat) : SM ((Z * Z * list Z * nat) + list Z) :=
  let '(step, buffer_size, context, k) := v in
  if step <? size then
    let* data := on_snd (read_file buffer_size) in
    if bool_decide (data = []) then
      fun '(t, f) => fail (InvalidState (lit "Unexpected EOF while reading " ++ path_text f)) (t, f)
    else
      do* on_fst (send_data data binary escape_codes) in
      do* on_fst (check_integer (zlen data)) in
      let chunk_time := elapsed k in
      let buffer_size' := next_buffer_size (zlen data) buffer_size max_buffer_size chunk_time in
      do* on_fst (modify (fun t => set_chunk_time (Z.max (max_chunk_time t) chunk_time) t)) in
      ret (inl (step + zlen data, buffer_size', context ++ data, S k))
  else ret (inr (md5 context)).
Definition send_file_data (size : Z) (binary : bool) (escape_codes : list EscapeCode) (max_buffer_size : Z)
    : SM (list Z) :=
  loop fuel (send_chunk size binary escape_codes max_buffer_size) (0, 1024, [], O).

Definition send_file_md5 (digest : list Z) : TM unit :=
  do* send_binary (lit "MD5") digest in check_binary digest.

Definition push_unique (x : list Z) (l : list (list Z)) : list (list Z) :=
  if decide (x ∈ l) then l else l ++ [x].

(** One turn of the [for] over the files. *)
Definition send_file (binary directory : bool) (escape_codes : list EscapeCode) (max_buffer_size : Z)
    : SM (list Z) :=
  let* remote_name := send_file_name directory in
  fun '(t, f) =>
    if r_is_dir f then ret remote_name (t, f)
    else (let size := reader_size f in
          do* on_fst (send_file_size size) in
          let* digest := send_file_data size binary escape_codes max_buffer_size in
          do* (fun '(t, f) => Some (Ok tt, (t, r_close_file f))) in
          do* on_fst (send_file_md5 digest) in
          ret remote_name) (t, f).

Fixpoint send_each (binary directory : bool) (escape_codes : list EscapeCode) (max_buffer_size : Z)
    (files : list F) (remote_names : list (list Z)) : TM (list (list Z)) :=
  match files with
  | [] => ret remote_names
  | f :: rest =>
      let* remote_name := (fun t => match send_file binary directory escape_codes max_buffer_size (t, f) with
                                    | Some (r, (t', _)) => Some (r, t')
                                    | None => None
                                    end) in
      send_each binary directory escape_codes max_buffer_size rest (push_unique remote_name remote_names)
  end.

Definition max_buffer_size_of (t : TrzszTransfer) : Z :=
  Z.min (default (max_data_chunk_size t) (config_u64 t (lit "bufsize"))) (max_data_chunk_size t).

Definition send_files (files : list F) : TM (list (list Z)) :=
  let* t := get in
  let binary := config_bool t (lit "binary") in
  let directory := config_bool t (lit "directory") in
  let max_buffer_size := max_buffer_size_of t in
  let escape_codes := config_escape_codes t in
  do* send_file_num (zlen files) in
  send_each binary directory escape_codes max_buffer_size files [].
End Send.

(** *** Receiving files *)

Section Recv.
(** [trait TrzszFileWriter] and the closure [open_save_file] with its save
    parameter, over the file system [FS]. *)
Context {FS W : Type} `{TrzszFileWriter FS W}.
Context (open_save_file : list Z -> bool -> bool -> M halt FS W).

Abbreviation RM := (M halt (TrzszTransfer * FS)).

Definition recv_file_num : TM Z :=
  let* num := recv_integer (lit "NUM") false in
  do* send_integer (lit "SUCC") num in ret num.

Definition recv_file_name (directory overwrite : bool) : RM W :=
  let* file_name := on_fst (recv_string (lit "NAME") false) in
  let* file := on_snd (open_save_file file_name directory overwrite) in
  do* on_fst (send_string (lit "SUCC") (local_name file)) in ret file.

Definition recv_file_size : TM Z :=
  let* size := recv_integer (lit "SIZE") false in
  do* send_integer (lit "SUCC") size in ret size.

Definition recv_chunk (file : W) (size : Z) (binary : bool) (escape_codes : list EscapeCode)
    (v : Z * list Z * nat) : RM ((Z * list Z * nat) + list Z) :=
  let '(step, context, k) := v in
  if step <? size then
    let* data := on_fst (recv_data binary escape_codes) in
    do* on_snd (write_file file data) in
    do* on_fst (send_integer (lit "SUCC") (zlen data)) in
    do* on_fst (modify (fun t => set_chunk_time (Z.max (max_chunk_time t) (elapsed k)) t)) in
    ret (inl (step + zlen data, context ++ data, S k))
  else ret (inr (md5 context)).
Definition recv_file_data (file : W) (size : Z) (binary : bool) (escape_codes : list EscapeCode) : RM (list Z) :=
  loop fuel (recv_chunk file size binary escape_codes) (0, [], O).

Definition recv_file_md5 (digest : list Z) : TM unit :=
  let* expected_digest := recv_binary (lit "MD5") false in
  if decide (digest = expected_digest) then send_binary (lit "SUCC") digest
  else fail (InvalidState (lit "Check MD5 failed")).

(** The data of one file: it is aborted only when receiving the data fails. *)
Definition recv_file_body (file : W) (binary : bool) (escape_codes : list EscapeCode) : RM unit :=
  let* size := on_fst recv_file_size in
  let* got := attempt (recv_file_data file size binary escape_codes) in
  match got with
  | Ok digest =>
      do* on_snd (close_file file) in
      do* on_fst (recv_file_md5 digest) in
      on_snd (finish_file file)
  | Err (Fails error) =>
      do* attempt (on_snd (abort_file file)) in fail error
  | Err h => throw h
  end.

(** [for _ in 0..num]: the variables are the turns left, the names and the
    files created. *)
Definition recv_turn (binary directory : bool) (escape_codes : list EscapeCode)
    (v : Z * list (list Z) * list W) : RM ((Z * list (list Z) * list W) + (list (list Z) * list W)) :=
  let '(remaining, local_names, created_files) := v in
  if 0 <? remaining then
    let* file := recv_file_name directory false in
    let local_names := push_unique (local_name file) local_names in
    do* (if is_dir file then ret tt else recv_file_body file binary escape_codes) in
    ret (inl (remaining - 1, local_names, created_files ++ [file]))
  else ret (inr (local_names, created_files)).

Fixpoint commit_all (files : list W) : RM unit :=
  match files with
  | [] => ret tt
  | file :: rest => do* on_snd (commit_file file) in commit_all rest
  end.

Definition recv_files : RM (list (list Z)) :=
  let* t := on_fst get in
  let binary := config_bool t (lit "binary") in
  let directory := config_bool t (lit "directory") in
  let escape_codes := config_escape_codes t in
  let* num := on_fst recv_file_num in
  let* names := loop fuel (recv_turn binary directory escape_codes) (num, [], []) in
  do* commit_all names.2 in
  ret names.1.
End Recv.
End Transfer.

(** ** Strings on the wire *)

Lemma is_prefix_app p s : is_prefix p (p ++ s) = true.
Proof. induction p as [|c p IH]; [done|]. simpl. by rewrite Z.eqb_refl. Qed.

Lemma str_find_sep (c : Z) p q pos :
  Forall (fun x => x <> c) p -> str_find [c] (p ++ c :: q) pos = Some (pos + str_len p).
Proof.
  intros Hp. revert pos. induction Hp as [|x p Hx _ IH]; intros pos; cbn [app str_find is_prefix].
  - rewrite Z.eqb_refl. simpl. by rewrite str_len_nil, Z.add_0_r.
  - rewrite (proj2 (Z.eqb_neq _ _)) by congruence. simpl. rewrite IH, str_len_cons. f_equal. lia.
Qed.

Lemma str_find_absent (c : Z) s pos : Forall (fun x => x <> c) s -> str_find [c] s pos = None.
Proof.
  intros Hs. revert pos. induction Hs as [|x s Hx _ IH]; intros pos; [done|]. cbn [str_find is_prefix].
  rewrite (proj2 (Z.eqb_neq _ _)) by congruence. apply IH.
Qed.
(** The first occurrence of a character. *)
Lemma first_split (c : Z) s : Forall (fun x => x <> c) s \/ exists p q, s = p ++ c :: q /\ Forall (fun x => x <> c) p.
Proof.
  induction s as [|x s [IH|(p & q & -> & Hp)]]; [by left| |]; destruct (decide (x = c)) as [->|Hx].
  - right. by exists [], s.
  - left. by constructor.
  - right. by exists [], (p ++ c :: q).
  - right. exists (x :: p), q. split; [done|by constructor].
Qed.
Lemma first_split_inj (c : Z) p q p' q' :
  Forall (fun x => x <> c) p -> Forall (fun x => x <> c) p' -> p ++ c :: q = p' ++ c :: q' -> p = p' /\ q = q'.
Proof.
  intros Hp. revert p'. induction Hp as [|x p Hx _ IH]; intros [|y p'] Hp' E; simplify_eq/=; [done|..].
  - by inv Hp'.
  - inv Hp'. by destruct (IH p') as [-> ->].
Qed.

(** Text without a number sign has no tag in it. *)
Lemma str_rfind_none c p s pos : Forall (fun x => x <> c) s -> str_rfind (c :: p) s pos = None.
Proof.
  intros Hs. revert pos. induction Hs as [|x s Hx _ IH]; intros pos; [done|]. cbn [str_rfind is_prefix].
  rewrite IH. by rewrite (proj2 (Z.eqb_neq _ _)) by congruence.
Qed.

Lemma str_rfind_front c p s pos :
  Forall (fun x => x <> c) (p ++ s) -> str_rfind (c :: p) ((c :: p) ++ s) pos = Some pos.
Proof.
  intros H. cbn [app str_rfind]. rewrite str_rfind_none by done.
  change (c :: p ++ s) with ((c :: p) ++ s). by rewrite is_prefix_app.
Qed.

Lemma from_utf8_encode s : str_ok s -> from_utf8 (utf8_encode s) = Some s.
Proof. intros Hs. unfold from_utf8. rewrite utf8_roundtrip by done. by rewrite decide_True. Qed.

Lemma slice_from_0 s : slice_from s 0 = Some s.
Proof. by destruct s. Qed.

(** The kinds of the protocol's lines: capital letters and digits. *)
Definition is_kind (c : Z) : bool := in_range 65 90 c || in_range 48 57 c.

Lemma is_kind_b64 c : is_kind c = true -> is_b64 c = true.
Proof. unfold is_kind, is_b64, is_ascii_alphanumeric, in_range. lia. Qed.
Lemma is_digit_b64 c : 48 <= c <= 57 -> is_b64 c = true.
Proof. unfold is_b64, is_ascii_alphanumeric, in_range. lia. Qed.
Lemma is_b64_letter c : is_b64 c = true -> is_trzsz_letter c = true /\ c <> 35 /\ c <> 58.
Proof. unfold is_b64, is_trzsz_letter, is_ascii_alphanumeric, in_range. lia. Qed.

Lemma tag_letters kind payload :
  Forall (fun c => is_kind c = true) kind -> Forall (fun c => is_b64 c = true) payload ->
  Forall (fun c => is_trzsz_letter c = true) (tag kind ++ payload).
Proof.
  intros Hk Hp. unfold tag. cbn [app]. rewrite <-app_assoc. constructor; [done|]. apply Forall_app. split.
  - eapply Forall_impl; [exact Hk|]. intros c Hc. by apply is_b64_letter, is_kind_b64.
  - constructor; [done|]. eapply Forall_impl; [exact Hp|]. intros c Hc. by apply is_b64_letter.
Qed.

Lemma filter_letters l : Forall (fun c => is_trzsz_letter c = true) l -> List.filter is_trzsz_letter l = l.
Proof. induction 1 as [|c l Hc _ IH]; [done|]. simpl. by rewrite Hc, IH. Qed.

(** ** Dialogues *)

Definition nl (win : bool) : list Z := if win then [33; 10] else [10].
(** A line of the protocol. *)
Definition msg (win : bool) (kind payload : list Z) : list Z := tag kind ++ payload ++ nl win.

(** A running transfer with [l] left to read.  A Windows line ends with an
    exclamation mark and a newline, and the reader leaves the newline, which
    the next line skips. *)
Record ready (win : bool) (t : TrzszTransfer) (l : list Z) : Prop := {
  rd_ok : buffer_ok (t_buffer t);
  rd_open : stopped (t_buffer t) = false;
  rd_running : t_stopped t = false;
  rd_pending : pending (t_buffer t) = l \/ win = true /\ pending (t_buffer t) = 10 :: l;
  rd_win : is_windows_shell t || remote_is_windows t = win;
  rd_nl : protocol_newline t = nl win;
  rd_junk : tmux_output_junk t = false
}.

(** [m] reads exactly [i], writes exactly [o] and returns [a]. *)
Definition tells {A} (win : bool) (fuel : nat) (m : TM A) (a : A) (i o : list Z) : Prop :=
  forall t rest, ready win t (i ++ rest) -> (length (i ++ rest) + 1 < fuel)%nat ->
  exists t', m t = Some (Ok a, t') /\ ready win t' rest
  /\ List.concat (written t') = List.concat (written t) ++ o.
Definition talks {X A} (win : bool) (fuel : nat) (m : M halt (TrzszTransfer * X) A) (x : X) (a : A) (x' : X)
    (i o : list Z) : Prop :=
  forall t rest, ready win t (i ++ rest) -> (length (i ++ rest) + 1 < fuel)%nat ->
  exists t', m (t, x) = Some (Ok a, (t', x')) /\ ready win t' rest
  /\ List.concat (written t') = List.concat (written t) ++ o.

Section Dialogue.
Context (win : bool) (fuel : nat).

Lemma tells_ret {A} (a : A) : tells win fuel (ret a) a [] [].
Proof. intros t rest Ht _. exists t. by rewrite app_nil_r. Qed.

Lemma tells_bind {A B} (m : TM A) (f : A -> TM B) a b i1 o1 i2 o2 :
  tells win fuel m a i1 o1 -> tells win fuel (f a) b i2 o2 -> tells win fuel (bind m f) b (i1 ++ i2) (o1 ++ o2).
Proof.
  intros Hm Hf t rest Ht Hl. rewrite <-app_assoc in Ht, Hl.
  destruct (Hm t _ Ht Hl) as (t1 & Hrun1 & Ht1 & Ho1).
  destruct (Hf t1 rest Ht1) as (t2 & Hrun2 & Ht2 & Ho2); [rewrite !length_app in *; lia|].
  exists t2. rewrite (bind_ok _ _ _ _ _ Hrun1). split_and!; [done|done|]. by rewrite Ho2, Ho1, <-app_assoc.
Qed.

Lemma talks_fst {X A} (m : TM A) (x : X) a i o : tells win fuel m a i o -> talks win fuel (on_fst m) x a x i o.
Proof.
  intros Hm t rest Ht Hl. destruct (Hm t rest Ht Hl) as (t' & Hrun & ?). exists t'.
  by rewrite (on_fst_run _ _ _ _ _ Hrun).
Qed.

Lemma talks_snd {X A} (m : M halt X A) (x : X) a x' : m x = Some (Ok a, x') -> talks win fuel (on_snd m) x a x' [] [].
Proof.
  intros Hm t rest Ht Hl. exists t. rewrite (on_snd_run _ _ _ _ _ Hm). by rewrite app_nil_r.
Qed.

Lemma talks_ret {X A} (x : X) (a : A) : talks win fuel (ret a) x a x [] [].
Proof. intros t rest Ht _. exists t. by rewrite app_nil_r. Qed.

Lemma talks_bind {X A B} (m : M halt (TrzszTransfer * X) A) (f : A -> M halt (TrzszTransfer * X) B)
    x a x1 b x2 i1 o1 i2 o2 :
  talks win fuel m x a x1 i1 o1 -> talks win fuel (f a) x1 b x2 i2 o2 ->
  talks win fuel (bind m f) x b x2 (i1 ++ i2) (o1 ++ o2).
Proof.
  intros Hm Hf t rest Ht Hl. rewrite <-app_assoc in Ht, Hl.
  destruct (Hm t _ Ht Hl) as (t1 & Hrun1 & Ht1 & Ho1).
  destruct (Hf t1 rest Ht1) as (t2 & Hrun2 & Ht2 & Ho2); [rewrite !length_app in *; lia|].
  exists t2. rewrite (bind_ok _ _ _ _ _ Hrun1). split_and!; [done|done|]. by rewrite Ho2, Ho1, <-app_assoc.
Qed.

Lemma talks_eq {X A} (m : M halt (TrzszTransfer * X) A) x a x' i o i' o' :
  talks win fuel m x a x' i o -> i = i' -> o = o' -> talks win fuel m x a x' i' o'.
Proof. by intros H -> ->. Qed.
Lemma tells_eq {A} (m : TM A) a i o i' o' :
  tells win fuel m a i o -> i = i' -> o = o' -> tells win fuel m a i' o'.
Proof. by intros H -> ->. Qed.

(** *** Lines *)

Lemma tells_send_line kind payload : tells win fuel (send_line kind payload) tt [] (msg win kind payload).
Proof.
  intros t rest Ht Hl. eexists. split; [reflexivity|]. split.
  - destruct Ht. by constructor.
  - cbn. rewrite concat_app. cbn. rewrite app_nil_r. unfold msg. by rewrite (rd_nl _ _ _ Ht).
Qed.

Lemma recv_line_ok kind payload :
  Forall (fun c => is_kind c = true) kind -> Forall (fun c => is_b64 c = true) payload ->
  tells win fuel (recv_line fuel kind false) (tag kind ++ payload) (msg win kind payload) [].
Proof.
  intros Hk Hp t rest Ht Hl. pose proof (tag_letters kind payload Hk Hp) as Hletters.
  set (line := tag kind ++ payload) in *.
  assert (Hmsg : msg win kind payload ++ rest = line ++ nl win ++ rest).
  { unfold msg. subst line. by rewrite <-!app_assoc. }
  rewrite Hmsg in Ht, Hl. destruct Ht as [Hok Hop Hrun Hpend Hwin Hnl Hjunk].
  assert (Hlossy : from_utf8_lossy line = line).
  { apply from_utf8_lossy_ascii. eapply Forall_impl; [exact Hletters|]. intros c Hc. apply letter_facts in Hc. tauto. }
  unfold recv_line. cbn [bind get]. rewrite Hrun, Hwin, Hjunk.
  assert (Hfin : forall st, buffer_ok st -> stopped st = false ->
    pending st = rest \/ win = true /\ pending st = 10 :: rest -> ready win (set_buffer st t) rest).
  { intros st H1 H2 H3. by constructor. }
  rewrite app_nil_r. destruct win eqn:Ew; cbn [nl app] in *.
  - (* a Windows line, perhaps after a newline *)
    assert (Ht : exists text, pending (t_buffer t) = text ++ 33 :: 10 :: rest
               /\ Forall (fun c => win_plain c = true) text /\ List.filter is_trzsz_letter text = line
               /\ (length text <= length line + 1)%nat).
    { assert (Hpl : Forall (fun c => win_plain c = true) line)
        by (eapply Forall_impl; [exact Hletters|]; intros c Hc; unfold win_plain; by rewrite Hc).
      destruct Hpend as [Hpend|[_ Hpend]]; rewrite Hpend.
      - exists line. split_and!; [done|done|by apply filter_letters|lia].
      - exists (10 :: line). split_and!; [done|by constructor| |simpl; lia].
        change (List.filter is_trzsz_letter line = line). by apply filter_letters. }
    destruct Ht as (text & Hpt & Hplain & Hfilt & Hlen).
    destruct (read_line_on_windows_ok fuel (t_buffer t) text win_start (10 :: rest))
      as (st' & Hread & Hok' & Hop' & Hpend'); [done|done|done|done| |done|done| |].
    { rewrite length_app in Hl. lia. }
    { rewrite Hfilt. done. }
    exists (set_buffer st' t). rewrite (bind_ok _ _ _ line (set_buffer st' t)).
    + unfold line at 1, tag. rewrite str_rfind_front.
      * cbn [or_panic]. rewrite slice_from_0. split_and!; [done| |done]. apply Hfin; auto.
      * rewrite <-app_assoc. apply Forall_app. split.
        -- eapply Forall_impl; [exact Hk|]. intros c Hc. by apply is_b64_letter, is_kind_b64.
        -- constructor; [done|]. eapply Forall_impl; [exact Hp|]. intros c Hc. by apply is_b64_letter.
    + unfold on_buffer, read_line_on_windows. rewrite Hread. cbn [w_buffer win_start app]. by rewrite Hfilt, Hlossy.
  - destruct Hpend as [Hpend|[? _]]; [|done].
    destruct (read_line_ok fuel (t_buffer t) line [] rest) as (st' & Hread & Hok' & Hop' & Hpend'); [done|done|done| | |].
    { eapply Forall_impl; [exact Hletters|]. intros c Hc. apply letter_facts in Hc. tauto. }
    { rewrite length_app in Hl. lia. }
    exists (set_buffer st' t). rewrite (bind_ok _ _ _ line (set_buffer st' t)).
    + split_and!; [done| |done]. apply Hfin; auto.
    + unfold on_buffer, read_line. rewrite Hread. cbn [app]. by rewrite Hlossy.
Qed.
End Dialogue.

(** *** Messages *)

Ltac kind_ok := by repeat constructor.

Section Messages.
Context `{CodecLaws} (utf8_error : list Z -> list Z) (win : bool) (fuel : nat).

Abbreviation tells' := (tells win fuel).

Lemma recv_check_ok kind payload :
  Forall (fun c => is_kind c = true) kind -> Forall (fun c => is_b64 c = true) payload ->
  tells' (recv_check fuel kind false) payload (msg win kind payload) [].
Proof.
  intros Hk Hp t rest Ht Hl.
  destruct (recv_line_ok win fuel kind payload Hk Hp t rest Ht Hl) as (t' & Hrun & Ht' & Ho).
  exists t'. split_and!; [|done|done]. unfold recv_check. rewrite (bind_ok _ _ _ _ _ Hrun).
  assert (Hk58 : Forall (fun x => x <> 58) (35 :: kind)).
  { constructor; [done|]. eapply Forall_impl; [exact Hk|]. intros c Hc. by apply is_b64_letter, is_kind_b64. }
  assert (Hsep : str_find [58] (tag kind ++ payload) 0 = Some (str_len (35 :: kind))).
  { unfold tag. replace ((35 :: kind ++ [58]) ++ payload) with ((35 :: kind) ++ 58 :: payload)
      by (cbn [app]; by rewrite <-app_assoc). by rewrite str_find_sep. }
  rewrite Hsep. rewrite (proj2 (Z.ltb_ge _ _)).
  2: { rewrite str_len_cons. pose proof (char_len_utf8_pos 35). pose proof (str_len_nonneg kind). lia. }
  assert (H1 : slice (tag kind ++ payload) 1 (str_len (35 :: kind)) = Some kind).
  { unfold tag. replace ((35 :: kind ++ [58]) ++ payload) with ([35] ++ kind ++ 58 :: payload)
      by (cbn [app]; by rewrite <-app_assoc). apply (slice_app [35] kind (58 :: payload)). }
  assert (H2 : slice_from (tag kind ++ payload) (str_len (35 :: kind) + 1) = Some payload).
  { replace (str_len (35 :: kind) + 1) with (str_len (tag kind)); [apply slice_from_app|].
    unfold tag. change (35 :: kind ++ [58]) with ((35 :: kind) ++ [58]). rewrite str_len_app. done. }
  rewrite H1, H2. cbn [or_panic bind ret]. by rewrite decide_True.
Qed.

Lemma u64_text_b64 n : 0 <= n -> Forall (fun c => is_b64 c = true) (u64_to_string n).
Proof.
  intros Hn. eapply Forall_impl; [by apply dec_digits_range|]. intros c Hc. by apply is_digit_b64.
Qed.

Definition int_msg (kind : list Z) (n : Z) : list Z := msg win kind (u64_to_string n).
Definition packed_msg (kind bytes : list Z) : list Z := msg win kind (encode_buffer bytes).

Lemma recv_integer_ok kind n :
  Forall (fun c => is_kind c = true) kind -> is_u64 n ->
  tells' (recv_integer fuel kind false) n (int_msg kind n) [].
Proof.
  intros Hk Hn. unfold recv_integer. eapply tells_eq.
  - eapply tells_bind; [apply (recv_check_ok kind (u64_to_string n)); [done|apply u64_text_b64, Hn]|].
    rewrite u64_to_string_roundtrip by done. apply tells_ret.
  - by rewrite app_nil_r.
  - done.
Qed.

Lemma check_integer_ok n : is_u64 n -> tells' (check_integer fuel n) tt (int_msg (lit "SUCC") n) [].
Proof.
  intros Hn. unfold check_integer. eapply tells_eq.
  - eapply tells_bind; [apply recv_integer_ok; [kind_ok|done]|]. rewrite Z.eqb_refl. apply tells_ret.
  - by rewrite app_nil_r.
  - done.
Qed.

Lemma decode_buffer_ok bytes : bytes_ok bytes -> tells' (decode_buffer (encode_buffer bytes)) bytes [] [].
Proof.
  intros Hb t rest Ht _. exists t. rewrite app_nil_r. split_and!; [|done|done].
  unfold decode_buffer, encode_buffer. rewrite b64_roundtrip by by apply deflate_bytes. cbn.
  by rewrite inflate_deflate.
Qed.

Lemma recv_binary_ok kind bytes :
  Forall (fun c => is_kind c = true) kind -> bytes_ok bytes ->
  tells' (recv_binary fuel kind false) bytes (packed_msg kind bytes) [].
Proof.
  intros Hk Hb. unfold recv_binary. eapply tells_eq.
  - eapply tells_bind; [apply (recv_check_ok kind (encode_buffer bytes)); [done|apply b64_alphabet]|].
    by apply decode_buffer_ok.
  - by rewrite app_nil_r.
  - done.
Qed.

Lemma recv_string_ok kind s :
  Forall (fun c => is_kind c = true) kind -> str_ok s ->
  tells' (recv_string utf8_error fuel kind false) s (packed_msg kind (utf8_encode s)) [].
Proof.
  intros Hk Hs. unfold recv_string. eapply tells_eq.
  - eapply tells_bind; [apply (recv_check_ok kind (encode_buffer (utf8_encode s))); [done|apply b64_alphabet]|].
    eapply tells_bind; [by apply decode_buffer_ok, utf8_encode_ok|].
    rewrite from_utf8_encode by done. apply tells_ret.
  - by rewrite !app_nil_r.
  - done.
Qed.

Lemma check_binary_ok bytes : bytes_ok bytes -> tells' (check_binary fuel bytes) tt (packed_msg (lit "SUCC") bytes) [].
Proof.
  intros Hb. unfold check_binary. eapply tells_eq.
  - eapply tells_bind; [apply recv_binary_ok; [kind_ok|done]|]. rewrite decide_True by done. apply tells_ret.
  - by rewrite app_nil_r.
  - done.
Qed.

(** *** File data *)

(** A chunk that fits the mode: binary blocks need a lossless table and a line
    reader that leaves nothing behind. *)
Definition mode_ok (binary : bool) (codes : list EscapeCode) : Prop :=
  binary = true -> win = false /\ table_ok codes = true.

Definition data_msg (binary : bool) (codes : list EscapeCode) (data : list Z) : list Z :=
  if binary then int_msg (lit "DATA") (zlen (escape_data data codes)) ++ escape_data data codes
  else packed_msg (lit "DATA") data.

Lemma send_data_ok binary codes data : tells' (send_data data binary codes) tt [] (data_msg binary codes data).
Proof.
  unfold send_data, data_msg. destruct binary; cbn [negb]; [|apply tells_send_line].
  change (@nil Z) with (@nil Z ++ []). eapply tells_bind; [apply tells_send_line|].
  intros t rest Ht _. eexists. split; [reflexivity|]. split; [by destruct Ht|].
  cbn. rewrite concat_app. cbn. by rewrite app_nil_r.
Qed.

Lemma escape_data_length data codes : zlen data <= zlen (escape_data data codes) <= 2 * zlen data.
Proof.
  unfold escape_data. case_bool_decide; [pose proof (zlen_nonneg data); lia|].
  induction data as [|c data IH]; [done|]. cbn [map List.concat]. rewrite zlen_app, zlen_cons.
  assert (1 <= zlen (escape_byte codes c) <= 2); [|lia].
  unfold escape_byte. case_match; unfold zlen; simpl; lia.
Qed.

Lemma recv_data_ok binary codes data :
  mode_ok binary codes -> bytes_ok data -> 2 * zlen data <= ISIZE_MAX ->
  tells' (recv_data fuel binary codes) data (data_msg binary codes data) [].
Proof.
  intros Hmode Hb Hlen. unfold recv_data, data_msg.
  destruct binary; cbn [negb]; [|apply recv_binary_ok; [kind_ok|done]].
  destruct (Hmode eq_refl) as [Hwin Htab]. pose proof (escape_data_length data codes) as He.
  pose proof (zlen_nonneg data).
  eapply tells_eq with (o := [] ++ [] ++ []).
  - eapply (tells_bind _ _ _ _ (zlen (escape_data data codes))).
    { apply recv_integer_ok; [kind_ok|]. unfold in_width, ISIZE_MAX in *. lia. }
    eapply (tells_bind _ _ _ _ (escape_data data codes) data (escape_data data codes) [] [] []);
      [|cbv beta; rewrite unescape_data_escape by done; apply tells_ret].
    intros t rest Ht Hl. destruct Ht as [Hok Hop Hrun Hpend Hw Hnl Hjunk].
    destruct Hpend as [Hpend|[? _]]; [|congruence].
    destruct (read_binary_ok fuel (t_buffer t) (escape_data data codes) [] rest)
      as (st' & Hread & Hok' & Hop' & Hp'); [done|done|done| |].
    { rewrite length_app in Hl. lia. }
    exists (set_buffer st' t). split_and!.
    + unfold on_buffer, read_binary. rewrite (proj2 (Z.ltb_ge _ _)) by lia. cbn [app] in Hread. by rewrite Hread.
    + constructor; auto.
    + by rewrite app_nil_r.
  - by rewrite app_nil_r.
  - done.
Qed.
End Messages.

(** ** Lawful files *)

(** What a transfer relies on of a reader: it stands for the rest of a file,
    and reading gives a prefix of it, empty only at its end. *)
Class LawfulFileReader (F : Type) `{TrzszFileReader F} := {
  holds : F -> list Z -> Prop;
  read_file_prefix n f l : 0 < n -> holds f l ->
    exists got rest f', read_file n f = Some (Ok got, f') /\ holds f' rest /\ l = got ++ rest
      /\ (got = [] -> l = [])
}.

(** A file in memory: its path, its bytes and the read position. *)
Record MemoryReader := mkMemoryReader {
  mr_rel_path : list (list Z);
  mr_data : list Z;
  mr_offset : Z;
  mr_dir : bool
}.
Definition memory_read_file (max_len : Z) : M halt MemoryReader (list Z) :=
  fun f => let end_ := Z.min (mr_offset f + max_len) (zlen (mr_data f)) in
           Some (Ok (ztake (end_ - mr_offset f) (zdrop (mr_offset f) (mr_data f))),
                 mkMemoryReader (mr_rel_path f) (mr_data f) end_ (mr_dir f)).
#[export] Instance MemoryReader_reader : TrzszFileReader MemoryReader := {
  path_id _ := 1;
  rel_path := mr_rel_path;
  r_is_dir := mr_dir;
  reader_size f := zlen (mr_data f);
  read_file := memory_read_file;
  r_close_file f := f
}.
#[export] Program Instance MemoryReader_lawful : LawfulFileReader MemoryReader :=
  { holds f l := 0 <= mr_offset f <= zlen (mr_data f) /\ zdrop (mr_offset f) (mr_data f) = l }.
Next Obligation.
  intros n [path data off dir] l Hn [Hoff <-]. unfold read_file. cbn in *.
  set (end_ := Z.min (off + n) (zlen data)).
  exists (ztake (end_ - off) (zdrop off data)), (zdrop end_ data). eexists. split; [reflexivity|].
  split; [cbn; split; [lia|done]|]. split.
  - replace (zdrop end_ data) with (zdrop (end_ - off) (zdrop off data));
      [symmetry; apply take_drop|].
    rewrite zdrop_zdrop by lia. f_equal. lia.
  - intros E. apply (f_equal zlen) in E. rewrite zlen_nil in E. unfold ztake, zlen in E.
    rewrite length_take in E. pose proof (zlen_zdrop_rest data off Hoff) as Hd. unfold zlen in *.
    apply length_zero_iff_nil. lia.
Qed.

(** A file system that keeps every file a transfer opened. *)
Record SavedFile := mkSaved {
  sv_name : list Z;
  sv_dir : bool;
  sv_data : list Z;
  sv_finished : bool;
  sv_committed : bool;
  sv_aborted : bool
}.
Record SaveHandle := mkHandle { h_index : nat; h_name : list Z; h_dir : bool }.

Definition on_saved (g : SavedFile -> SavedFile) (h : SaveHandle) : M halt (list SavedFile) unit :=
  fun fs => Some (Ok tt, alter g (h_index h) fs).
#[export] Instance SavedFile_writer : TrzszFileWriter (list SavedFile) SaveHandle := {
  local_name := h_name;
  is_dir := h_dir;
  write_file h data := on_saved (fun f => mkSaved (sv_name f) (sv_dir f) (sv_data f ++ data) (sv_finished f)
                                            (sv_committed f) (sv_aborted f)) h;
  close_file h := ret tt;
  commit_file h := on_saved (fun f => mkSaved (sv_name f) (sv_dir f) (sv_data f) (sv_finished f) true (sv_aborted f)) h;
  finish_file h := on_saved (fun f => mkSaved (sv_name f) (sv_dir f) (sv_data f) true (sv_committed f) (sv_aborted f)) h;
  abort_file h := on_saved (fun f => mkSaved (sv_name f) (sv_dir f) (sv_data f) (sv_finished f) (sv_committed f) true) h
}.
(** [resolve] gives the local name of a received name and whether it is a
    directory. *)
Definition open_saved (resolve : list Z -> list Z * bool) (name : list Z) (directory overwrite : bool)
    : M halt (list SavedFile) SaveHandle :=
  fun fs => let '(local, dir) := resolve name in
            Some (Ok (mkHandle (length fs) local dir), fs ++ [mkSaved local dir [] false false false]).

Lemma on_saved_last g h fs f :
  h_index h = length fs -> on_saved g h (fs ++ [f]) = Some (Ok tt, fs ++ [g f]).
Proof. intros E. unfold on_saved. by rewrite E, alter_app_r_alt, Nat.sub_diag by lia. Qed.

(** ** One file *)

Section OneFile.
Context `{CodecLaws} (win : bool).
Context (binary directory : bool) (codes : list EscapeCode) (Hmode : mode_ok win binary codes).

Definition acks (cs : list (list Z)) : list Z :=
  List.concat (map (fun c => int_msg win (lit "SUCC") (zlen c)) cs).
Definition datas (cs : list (list Z)) : list Z := List.concat (map (data_msg win binary codes) cs).

Lemma tells_chunk_time fuel v : tells win fuel (modify (fun t => set_chunk_time (Z.max (max_chunk_time t) v) t)) tt [] [].
Proof.
  intros t rest Ht _. eexists. split; [reflexivity|]. rewrite app_nil_r. split; [|done]. destruct Ht. by constructor.
Qed.

(** The sender cuts the file into non-empty chunks, depending on the reader and
    on the times, and sends each after the last one was acknowledged. *)
Lemma send_loop_ok {F} `{LawfulFileReader F} (elapsed : nat -> Z) (max_size : Z) (data : list Z) :
  forall f step bs ctx k,
  holds f data -> 1 <= bs -> zlen data <= U64_MAX ->
  exists cs f', List.concat cs = data /\ Forall (fun c => c <> []) cs
  /\ forall n fuel, (length data < n)%nat ->
     talks win fuel (loop n (send_chunk elapsed fuel (step + zlen data) binary codes max_size) (step, bs, ctx, k))
       f (md5 (ctx ++ data)) f' (acks cs) (datas cs).
Proof.
  remember (length data) as len eqn:Elen. revert data Elen.
  induction len as [len IH] using lt_wf_ind. intros data -> f step bs ctx k Hf Hbs Hlen.
  destruct (decide (data = [])) as [->|Hne].
  { exists [], f. split_and!; [done|done|]. intros n fuel Hn. destruct n as [|n]; [lia|].
    intros t rest Ht _. exists t. cbn [loop bind send_chunk]. rewrite zlen_nil, Z.add_0_r, Z.ltb_irrefl.
    rewrite !app_nil_r. by split_and!. }
  destruct (read_file_prefix bs f data) as (got & rest & f1 & Hread & Hf1 & Hsplit & Hgot); [lia|done|].
  assert (Hgne : got <> []) by tauto. pose proof (zlen_nonneg rest).
  assert (Hglen : 0 < zlen got) by (destruct got; [done|]; rewrite zlen_cons; pose proof (zlen_nonneg got); lia).
  set (bs' := next_buffer_size (zlen got) bs max_size (elapsed k)).
  assert (Hbs' : 1 <= bs') by (subst bs'; unfold next_buffer_size; repeat case_match; lia).
  pose proof (f_equal length Hsplit) as HL. rewrite length_app in HL.
  assert (Hl1 : (0 < length got)%nat) by (unfold zlen in Hglen; lia).
  rewrite Hsplit, zlen_app in Hlen.
  destruct (IH (length rest) ltac:(lia) rest eq_refl f1 (step + zlen got) bs' (ctx ++ got) (S k) Hf1 Hbs' ltac:(lia))
    as (cs & f' & Hcs & Hcne & Hrun).
  exists (got :: cs), f'. split_and!; [by rewrite Hsplit, <-Hcs|by constructor|]. intros n fuel Hn.
  destruct n as [|n]; [lia|]. cbn [loop]. unfold acks, datas. cbn [map List.concat].
  eapply talks_bind.
  - cbn [send_chunk]. rewrite (proj2 (Z.ltb_lt _ _)) by (rewrite Hsplit, zlen_app; lia).
    eapply talks_eq.
    + eapply talks_bind; [by apply talks_snd|]. rewrite bool_decide_eq_false_2 by done.
      eapply talks_bind; [apply talks_fst, send_data_ok|].
      eapply talks_bind; [apply talks_fst, check_integer_ok; unfold in_width, U64_MAX in *; lia|].
      eapply talks_bind; [apply talks_fst, tells_chunk_time|]. apply talks_ret.
    + by rewrite !app_nil_r.
    + by rewrite !app_nil_r.
  - cbv beta iota. rewrite Hsplit, app_assoc, zlen_app, Z.add_assoc. apply Hrun. lia.
Qed.

(** The receiver writes the chunks and acknowledges each. *)
Lemma recv_loop_ok (elapsed : nat -> Z) fs h name dir (cs : list (list Z)) :
  h_index h = length fs ->
  forall n fuel step ctx k got,
  Forall (fun c => c <> [] /\ bytes_ok c /\ 2 * zlen c <= ISIZE_MAX) cs -> (length cs < n)%nat ->
  talks win fuel
    (loop n (recv_chunk elapsed fuel h (step + zlen (List.concat cs)) binary codes) (step, ctx, k))
    (fs ++ [mkSaved name dir got false false false]) (md5 (ctx ++ List.concat cs))
    (fs ++ [mkSaved name dir (got ++ List.concat cs) false false false]) (datas cs) (acks cs).
Proof.
  intros Hh n fuel step ctx k got Hcs. revert n step ctx k got.
  induction Hcs as [|c cs (Hne & Hb & Hlen) _ IH]; intros n step ctx k got Hn; (destruct n as [|n]; [simpl in Hn; lia|]);
    cbn [loop List.concat].
  { intros t rest Ht _. exists t. cbn [bind recv_chunk]. rewrite zlen_nil, Z.add_0_r, Z.ltb_irrefl.
    rewrite !app_nil_r. by split_and!. }
  assert (Hc0 : 0 < zlen c) by (destruct c; [done|]; rewrite zlen_cons; pose proof (zlen_nonneg c); lia).
  pose proof (zlen_nonneg (List.concat cs)). unfold acks, datas. cbn [map List.concat]. eapply talks_bind.
  - cbn [recv_chunk]. rewrite (proj2 (Z.ltb_lt _ _)) by (rewrite zlen_app; lia). eapply talks_eq.
    + eapply talks_bind; [by apply talks_fst, recv_data_ok|].
      eapply talks_bind; [by apply talks_snd, (on_saved_last _ h fs (mkSaved name dir got false false false))|].
      eapply talks_bind; [apply talks_fst, tells_send_line|].
      eapply talks_bind; [apply talks_fst, tells_chunk_time|]. apply talks_ret.
    + by rewrite !app_nil_r.
    + by rewrite !app_nil_r.
  - cbv beta iota. cbn [sv_name sv_dir sv_data sv_finished sv_committed sv_aborted].
    rewrite !app_assoc, zlen_app, Z.add_assoc. apply IH. simpl in Hn. lia.
Qed.
End OneFile.

(** ** Whole sessions *)

(** What is sent of a file: its data, the name in the [NAME] line, the name
    the receiver gives it, and whether it is a directory. *)
Record Item := mkItem { it_data : list Z; it_name : list Z; it_local : list Z; it_dir : bool }.
Definition it_bytes (e : Item) : list Z := if it_dir e then [] else it_data e.

Section Session.
Context `{CodecLaws} (utf8_error : list Z -> list Z) (win : bool).
Context (binary directory : bool) (codes : list EscapeCode) (Hmode : mode_ok win binary codes).
Context (resolve : list Z -> list Z * bool).
Context {F : Type} `{LawfulFileReader F}.

(** The file [f] can be sent as [e]. *)
Record sendable (f : F) (e : Item) : Prop := {
  sd_name : exists file_name, last (rel_path f) = Some file_name
            /\ it_name e = (if directory then json_to_string (name_object f) else file_name);
  sd_text : str_ok (it_name e) /\ str_ok (it_local e);
  sd_dir : r_is_dir f = it_dir e;
  sd_resolve : resolve (it_name e) = (it_local e, it_dir e);
  sd_data : it_dir e = false -> holds f (it_data e) /\ reader_size f = zlen (it_data e)
            /\ bytes_ok (it_data e) /\ 2 * zlen (it_data e) <= ISIZE_MAX
}.

Definition file_up (e : Item) (cs : list (list Z)) : list Z :=
  packed_msg win (lit "NAME") (utf8_encode (it_name e))
  ++ if it_dir e then []
     else int_msg win (lit "SIZE") (zlen (it_data e)) ++ datas win binary codes cs
          ++ packed_msg win (lit "MD5") (md5 (it_data e)).
Definition file_down (e : Item) (cs : list (list Z)) : list Z :=
  packed_msg win (lit "SUCC") (utf8_encode (it_local e))
  ++ if it_dir e then []
     else int_msg win (lit "SUCC") (zlen (it_data e)) ++ acks win cs
          ++ packed_msg win (lit "SUCC") (md5 (it_data e)).

(** A cut of a file that both sides accept. *)
Definition cut_of (e : Item) (cs : list (list Z)) : Prop :=
  if it_dir e then cs = [] else List.concat cs = it_data e /\ Forall (fun c => c <> []) cs.

Lemma isize_u64 n : 0 <= n -> 2 * n <= ISIZE_MAX -> is_u64 n.
Proof. unfold ISIZE_MAX, in_width. lia. Qed.

Lemma send_file_ok elapsed max_size f e : sendable f e ->
  exists cs, cut_of e cs /\ forall fuel, (length (it_data e) < fuel)%nat ->
  exists f', talks win fuel (send_file elapsed utf8_error fuel binary directory codes max_size) f (it_local e) f'
    (file_down e cs) (file_up e cs).
Proof.
  intros [(fname & Hlast & Hname) [Hn Hl] Hd Hres Hdata].
  assert (Htalk : forall fuel, talks win fuel (send_file_name utf8_error fuel directory) f (it_local e) f
            (packed_msg win (lit "SUCC") (utf8_encode (it_local e)))
            (packed_msg win (lit "NAME") (utf8_encode (it_name e)))).
  { intros fuel. unfold send_file_name. intros t rest Ht Hlen. rewrite Hlast. cbn [ok_or lift bind].
    rewrite <-Hname. revert t rest Ht Hlen. eapply talks_eq.
    - eapply talks_bind; [apply talks_fst, tells_send_line|]. by apply talks_fst, recv_string_ok; [kind_ok|].
    - done.
    - by rewrite app_nil_r. }
  destruct (it_dir e) eqn:Ed.
  { exists []. split; [by unfold cut_of; rewrite Ed|]. intros fuel _. exists f. unfold send_file, file_down, file_up. rewrite Ed.
    eapply talks_bind; [apply Htalk|]. intros t rest Ht _. rewrite Hd. exists t. by rewrite app_nil_r. }
  destruct (Hdata eq_refl) as (Hf & Hsize & Hb & Hlen). pose proof (zlen_nonneg (it_data e)) as Hnn.
  destruct (send_loop_ok win binary codes elapsed max_size (it_data e) f 0 1024 [] O Hf ltac:(lia))
    as (cs & f' & Hcs & Hne & Hrun).
  { pose proof (isize_u64 _ Hnn Hlen) as Hu. unfold in_width, U64_MAX in *. lia. }
  exists cs. split; [by unfold cut_of; rewrite Ed|]. intros fuel Hfuel. exists (r_close_file f').
  unfold send_file, file_down, file_up. rewrite Ed.
  eapply talks_bind; [apply Htalk|]. intros t rest Ht Hl'. rewrite Hd, Hsize. cbv zeta. revert t rest Ht Hl'.
  eapply talks_eq.
  - eapply talks_bind.
    { apply talks_fst. unfold send_file_size. eapply tells_bind; [apply tells_send_line|].
      by apply check_integer_ok, isize_u64. }
    eapply talks_bind; [apply Hrun, Hfuel|].
    eapply (talks_bind _ _ _ _ _ tt (r_close_file f') _ _ [] []).
    { intros t rest Ht _. exists t. by rewrite app_nil_r. }
    eapply talks_bind; [|apply talks_ret]. apply talks_fst. unfold send_file_md5.
    eapply tells_bind; [apply tells_send_line|]. apply check_binary_ok, md5_bytes.
  - cbn [app]. by rewrite !app_nil_r.
  - cbn [app]. by rewrite !app_nil_r.
Qed.

Definition saved (e : Item) (committed : bool) : SavedFile :=
  mkSaved (it_local e) (it_dir e) (it_bytes e) (negb (it_dir e)) committed false.

Lemma recv_file_body_ok elapsed fuel fs e cs :
  it_dir e = false -> bytes_ok (it_data e) -> 2 * zlen (it_data e) <= ISIZE_MAX ->
  cut_of e cs -> (length cs < fuel)%nat ->
  talks win fuel (recv_file_body elapsed fuel (mkHandle (length fs) (it_local e) (it_dir e)) binary codes)
    (fs ++ [mkSaved (it_local e) (it_dir e) [] false false false]) tt (fs ++ [saved e false])
    (int_msg win (lit "SIZE") (zlen (it_data e)) ++ datas win binary codes cs
     ++ packed_msg win (lit "MD5") (md5 (it_data e)))
    (int_msg win (lit "SUCC") (zlen (it_data e)) ++ acks win cs
     ++ packed_msg win (lit "SUCC") (md5 (it_data e))).
Proof.
  intros Ed Hb Hlen Hcut Hcs. unfold cut_of in Hcut. rewrite Ed in Hcut. destruct Hcut as [Hcat Hne]. unfold saved, it_bytes. rewrite Ed.
  set (h := mkHandle _ _ _).
  assert (Hchunks : Forall (fun c => c <> [] /\ bytes_ok c /\ 2 * zlen c <= ISIZE_MAX) cs).
  { rewrite <-Hcat in Hb, Hlen. clear -Hb Hlen Hne. induction Hne as [|c cs Hc _ IH]; [done|].
    cbn [List.concat] in *. apply Forall_app in Hb as [Hb1 Hb2]. rewrite zlen_app in Hlen.
    pose proof (zlen_nonneg c). pose proof (zlen_nonneg (List.concat cs)).
    constructor; [split_and!; [done|done|lia]|]. apply IH; [done|lia]. }
  unfold recv_file_body. eapply talks_eq.
  - eapply (talks_bind _ _ _ _ _ (zlen (it_data e))).
    { apply talks_fst. unfold recv_file_size. eapply (tells_bind _ _ _ _ (zlen (it_data e))).
      - apply recv_integer_ok; [kind_ok|]. apply isize_u64; [apply zlen_nonneg|done].
      - eapply tells_bind; [apply tells_send_line|apply tells_ret]. }
    eapply (talks_bind _ _ _ _ _ (Ok (md5 (it_data e))) (fs ++ [mkSaved (it_local e) false (it_data e) false false false])).
    { pose proof (recv_loop_ok win binary codes Hmode elapsed fs h (it_local e) false cs eq_refl fuel fuel 0 [] O [] Hchunks Hcs)
        as Hloop. rewrite Hcat in Hloop. cbn [app] in Hloop. rewrite Z.add_0_l in Hloop.
      intros t rest Ht Hl'. destruct (Hloop t rest Ht Hl') as (t' & Hrun & Hrest). exists t'.
      split; [|exact Hrest]. unfold recv_file_data. by rewrite (attempt_run _ _ _ _ Hrun). }
    cbv beta iota. eapply talks_bind; [by apply talks_snd|].
    eapply (talks_bind _ _ _ _ _ tt).
    { apply talks_fst. unfold recv_file_md5.
      eapply (tells_bind _ _ _ _ (md5 (it_data e))); [apply recv_binary_ok; [kind_ok|apply md5_bytes]|].
      rewrite decide_True by done. apply tells_send_line. }
    apply talks_snd. cbn [finish_file SavedFile_writer negb].
    by rewrite (on_saved_last _ h fs (mkSaved (it_local e) false (it_data e) false false false)).
  - cbn [app]. by rewrite !app_nil_r.
  - cbn [app]. by rewrite !app_nil_r.
Qed.

(** One turn of the receiver, for a file cut as the sender cut it. *)
Lemma recv_turn_ok elapsed fuel fs f e cs remaining names created :
  sendable f e -> cut_of e cs -> (length cs < fuel)%nat -> 0 < remaining ->
  talks win fuel (recv_turn elapsed utf8_error fuel (open_saved resolve) binary directory codes (remaining, names, created))
    fs (inl (remaining - 1, push_unique (it_local e) names,
             created ++ [mkHandle (length fs) (it_local e) (it_dir e)]))
    (fs ++ [saved e false]) (file_up e cs) (file_down e cs).
Proof.
  intros [_ [Hn Hl] _ Hres Hdata] Hcut Hcs Hrem. cbn [recv_turn]. rewrite (proj2 (Z.ltb_lt _ _)) by done.
  set (h := mkHandle (length fs) (it_local e) (it_dir e)). unfold file_up, file_down. eapply talks_bind.
  - unfold recv_file_name. eapply (talks_eq _ _ _ _ h (fs ++ [mkSaved (it_local e) (it_dir e) [] false false false])).
    + eapply (talks_bind _ _ _ _ _ (it_name e)); [by apply talks_fst, recv_string_ok; [kind_ok|]|].
      eapply talks_bind; [apply talks_snd; unfold open_saved; rewrite Hres; reflexivity|].
      eapply talks_bind; [apply talks_fst, tells_send_line|]. apply talks_ret.
    + by rewrite !app_nil_r.
    + by rewrite !app_nil_r.
  - eapply talks_eq; [eapply (talks_bind _ _ _ _ _ tt (fs ++ [saved e false])); [|apply talks_ret]| |]; [|by rewrite app_nil_r..].
    cbn [is_dir SavedFile_writer h h_dir]. destruct (it_dir e) eqn:Ed.
    + unfold saved, it_bytes. rewrite Ed. apply talks_ret.
    + destruct (Hdata eq_refl) as (_ & _ & Hb & Hlen). subst h.
      pose proof (recv_file_body_ok elapsed fuel fs e cs Ed Hb Hlen Hcut Hcs) as Hbody.
      rewrite Ed in Hbody. exact Hbody.
Qed.

(** *** All files *)

Definition session_up (es : list Item) (css : list (list (list Z))) : list Z :=
  List.concat (zip_with file_up es css).
Definition session_down (es : list Item) (css : list (list (list Z))) : list Z :=
  List.concat (zip_with file_down es css).
Definition locals (names : list (list Z)) (es : list Item) : list (list Z) :=
  fold_left (fun ns e => push_unique (it_local e) ns) es names.
Definition handles (base : nat) (es : list Item) : list SaveHandle :=
  imap (fun i e => mkHandle (base + i) (it_local e) (it_dir e)) es.

Lemma send_each_ok elapsed max_size fs es : Forall2 sendable fs es ->
  exists css, Forall2 cut_of es css /\ forall fuel names,
    Forall (fun e => length (it_data e) < fuel)%nat es ->
    tells win fuel (send_each elapsed utf8_error fuel binary directory codes max_size fs names) (locals names es)
      (session_down es css) (session_up es css).
Proof.
  induction 1 as [|f e fs es Hf _ (css & Hcut & IH)].
  { exists []. split; [constructor|]. intros fuel names _. apply tells_ret. }
  destruct (send_file_ok elapsed max_size f e Hf) as (cs & Hcs & Hrun). exists (cs :: css).
  split; [by constructor|]. intros fuel names Hlen. inversion_clear Hlen.
  destruct (Hrun fuel) as (f' & Htalk); [done|]. cbn [send_each]. unfold session_down, session_up.
  cbn [zip_with List.concat]. eapply tells_bind; [|by apply IH].
  intros t rest Ht Hl. destruct (Htalk t rest Ht Hl) as (t' & Hr & ?). exists t'. by rewrite Hr.
Qed.

Lemma recv_all_ok elapsed fuel es css fs :
  Forall2 sendable fs es -> Forall2 cut_of es css -> Forall (fun cs => length cs < fuel)%nat css ->
  forall n saves names created, (length es < n)%nat ->
  talks win fuel (loop n (recv_turn elapsed utf8_error fuel (open_saved resolve) binary directory codes)
      (zlen es, names, created))
    saves (locals names es, created ++ handles (length saves) es)
    (saves ++ map (fun e => saved e false) es) (session_up es css) (session_down es css).
Proof.
  intros Hs Hc Hl. revert css Hc Hl. induction Hs as [|f e fs es Hf _ IH]; intros css Hc Hl n saves names created Hn;
    inversion Hc; subst; (destruct n as [|n]; [simpl in Hn; lia|]); cbn [loop].
  { intros t rest Ht _. exists t. unfold handles. simpl. by rewrite !app_nil_r. }
  inversion_clear Hl. unfold session_up, session_down. cbn [zip_with List.concat map]. eapply talks_bind.
  - rewrite zlen_cons. apply (recv_turn_ok _ _ _ f); [done..|]. pose proof (zlen_nonneg es). lia.
  - cbv beta iota. replace (zlen (e :: es) - 1) with (zlen es) by (rewrite zlen_cons; lia).
    replace (1 + zlen es - 1) with (zlen es) by lia.
    assert (Hh : created ++ handles (length saves) (e :: es)
                 = (created ++ [mkHandle (length saves) (it_local e) (it_dir e)])
                   ++ handles (length (saves ++ [saved e false])) es).
    { unfold handles. rewrite imap_cons, <-app_assoc. cbn [app]. rewrite Nat.add_0_r, length_app. simpl.
      do 2 f_equal. apply imap_ext. intros i x _. cbn. f_equal. lia. }
    rewrite Hh. replace (saves ++ saved e false :: map (fun e => saved e false) es)
      with ((saves ++ [saved e false]) ++ map (fun e => saved e false) es) by by rewrite <-app_assoc.
    apply IH; [done|done|]. simpl in Hn. lia.
Qed.

Lemma commit_all_ok fuel pre es :
  talks win fuel (commit_all (handles (length pre) es)) (pre ++ map (fun e => saved e false) es) tt
    (pre ++ map (fun e => saved e true) es) [] [].
Proof.
  revert pre. induction es as [|e es IH]; intros pre; [apply talks_ret|].
  assert (Hh : handles (length pre) (e :: es)
               = mkHandle (length pre) (it_local e) (it_dir e) :: handles (length (pre ++ [saved e true])) es).
  { unfold handles. rewrite imap_cons, Nat.add_0_r, length_app. simpl. f_equal.
    apply imap_ext. intros i x _. cbn. f_equal. lia. }
  rewrite Hh. cbn [commit_all map]. change (@nil Z) with (@nil Z ++ []).
  eapply (talks_bind _ _ _ _ _ tt (pre ++ saved e true :: map (fun e => saved e false) es)).
  - apply talks_snd. cbn [commit_file SavedFile_writer]. unfold on_saved. cbn [h_index].
    rewrite alter_app_r_alt, Nat.sub_diag by lia. done.
  - replace (pre ++ saved e true :: map (fun e => saved e false) es)
      with ((pre ++ [saved e true]) ++ map (fun e => saved e false) es) by by rewrite <-app_assoc.
    replace (pre ++ saved e true :: map (fun e => saved e true) es)
      with ((pre ++ [saved e true]) ++ map (fun e => saved e true) es) by by rewrite <-app_assoc.
    apply IH.
Qed.
End Session.

Lemma cut_length e cs : cut_of e cs -> (length cs <= length (it_data e))%nat.
Proof.
  unfold cut_of. destruct (it_dir e); [intros ->; simpl; lia|]. intros [<- Hne].
  induction Hne as [|c cs Hc _ IH]; [done|]. cbn [List.concat]. rewrite length_app.
  destruct c; [done|]. simpl. lia.
Qed.

(** Both sides use the configuration of [t0]. *)
Definition same_setup (t0 t : TrzszTransfer) : Prop :=
  transfer_config t = transfer_config t0 /\ max_data_chunk_size t = max_data_chunk_size t0.

Section Loopback.
Context `{CodecLaws} (utf8_error : list Z -> list Z) (resolve : list Z -> list Z * bool).
Context {F : Type} `{LawfulFileReader F}.

Lemma session_ok (elapsed elapsed' : nat -> Z) (win : bool) (t0 : TrzszTransfer) (fs : list F) (es : list Item) :
  let binary := config_bool t0 (lit "binary") in
  let directory := config_bool t0 (lit "directory") in
  mode_ok win binary (config_escape_codes t0) ->
  Forall2 (sendable directory resolve) fs es -> zlen es <= U64_MAX ->
  exists up down, forall fuel ts tr,
    same_setup t0 ts -> same_setup t0 tr -> ready win ts down -> ready win tr up ->
    (length up + length down + length es + 1 < fuel)%nat ->
    Forall (fun e => length (it_data e) < fuel)%nat es ->
    exists ts' tr',
      send_files elapsed utf8_error fuel fs ts = Some (Ok (locals [] es), ts')
      /\ List.concat (written ts') = List.concat (written ts) ++ up
      /\ recv_files elapsed' utf8_error fuel (open_saved resolve) (tr, [])
         = Some (Ok (locals [] es), (tr', map (fun e => saved e true) es))
      /\ List.concat (written tr') = List.concat (written tr) ++ down.
Proof.
  intros binary directory Hmode Hs Hlen. set (codes := config_escape_codes t0) in *.
  destruct (send_each_ok utf8_error win binary directory codes resolve elapsed (max_buffer_size_of t0) fs es Hs)
    as (css & Hcut & Hsend).
  exists (int_msg win (lit "NUM") (zlen es) ++ session_up win binary codes es css),
         (int_msg win (lit "SUCC") (zlen es) ++ session_down win es css).
  intros fuel ts tr [Hts1 Hts2] [Htr1 Htr2] Hrs Hrr Hf Hd.
  assert (Hlen' : length fs = length es) by by eapply Forall2_length.
  assert (Hu : is_u64 (zlen es)) by (unfold in_width, U64_MAX in *; pose proof (zlen_nonneg es); lia).
  assert (Hcs : Forall (fun cs => length cs < fuel)%nat css).
  { clear -Hcut Hd. induction Hcut as [|e cs es css Hc _ IH]; [constructor|]. inversion_clear Hd.
    constructor; [apply cut_length in Hc; lia|]. by apply IH. }
  rewrite !length_app in Hf.
  assert (HS : tells win fuel (do* send_file_num fuel (zlen fs) in
      send_each elapsed utf8_error fuel binary directory codes (max_buffer_size_of t0) fs []) (locals [] es)
      (int_msg win (lit "SUCC") (zlen es) ++ session_down win es css)
      (int_msg win (lit "NUM") (zlen es) ++ session_up win binary codes es css)).
  { eapply tells_bind; [|by apply Hsend]. unfold send_file_num.
    replace (zlen fs) with (zlen es) by (unfold zlen; by rewrite Hlen').
    eapply tells_eq; [eapply tells_bind; [apply tells_send_line|by apply check_integer_ok]|done|by rewrite app_nil_r]. }
  destruct (HS ts []) as (ts' & Hrun & _ & Hout); [by rewrite app_nil_r|rewrite app_nil_r, length_app; lia|].
  assert (HR : talks win fuel (let* num := on_fst (recv_file_num fuel) in
      let* names := loop fuel (recv_turn elapsed' utf8_error fuel (open_saved resolve) binary directory codes) (num, [], []) in
      do* commit_all names.2 in ret names.1) [] (locals [] es) (map (fun e => saved e true) es)
      (int_msg win (lit "NUM") (zlen es) ++ session_up win binary codes es css)
      (int_msg win (lit "SUCC") (zlen es) ++ session_down win es css)).
  { eapply talks_bind.
    - apply talks_fst. unfold recv_file_num. eapply tells_eq.
      + eapply (tells_bind _ _ _ _ (zlen es)); [by apply recv_integer_ok; [kind_ok|]|].
        eapply tells_bind; [apply tells_send_line|apply tells_ret].
      + by rewrite !app_nil_r.
      + by rewrite app_nil_r.
    - eapply talks_eq.
      + eapply talks_bind; [by eapply (recv_all_ok utf8_error win binary directory codes Hmode resolve elapsed' fuel es css fs)
                              with (n := fuel); [..|lia]|].
        eapply talks_bind; [apply (commit_all_ok win fuel [] es)|]. apply talks_ret.
      + by rewrite !app_nil_r.
      + by rewrite !app_nil_r. }
  destruct (HR tr []) as (tr' & Hrun' & _ & Hout'); [by rewrite app_nil_r|rewrite app_nil_r, length_app; lia|].
  exists ts', tr'. unfold send_files, recv_files. cbn [bind get on_fst].
  unfold config_bool, config_escape_codes, max_buffer_size_of, config_u64 in *. rewrite Hts1, Hts2, Htr1.
  by split_and!.
Qed.
End Loopback.

(** ** Every input *)

(** [quiet]: from a transfer with at most [N] unread bytes the computation
    ends, has read a prefix of them and only added to what was written;
    [eager]: when it succeeds it has read at least one byte. *)
Definition follows (t t' : TrzszTransfer) : Prop :=
  buffer_ok (t_buffer t') /\ pending (t_buffer t') `suffix_of` pending (t_buffer t)
  /\ written t `prefix_of` written t'.
Definition unread_len (t : TrzszTransfer) : nat := length (pending (t_buffer t)).

Definition quiet {A} (N : nat) (m : TM A) : Prop :=
  forall t, buffer_ok (t_buffer t) -> (unread_len t <= N)%nat -> wp m (fun _ t' => follows t t') t.
Definition eager {A} (N : nat) (m : TM A) : Prop :=
  forall t, buffer_ok (t_buffer t) -> (unread_len t <= N)%nat ->
  wp m (fun r t' => follows t t' /\ match r with Ok _ => unread_len t' < unread_len t | Err _ => True end)%nat t.

Lemma follows_refl t : buffer_ok (t_buffer t) -> follows t t.
Proof. intros Hok. unfold follows. by split_and!. Qed.
Lemma follows_trans t1 t2 t3 : follows t1 t2 -> follows t2 t3 -> follows t1 t3.
Proof. intros (? & ? & ?) (? & ? & ?). unfold follows. split_and!; [done|by etrans|by etrans]. Qed.
Lemma follows_len t t' : follows t t' -> (unread_len t' <= unread_len t)%nat.
Proof. intros (_ & Hp & _). by apply suffix_length. Qed.

Section Quiet.
Context (N : nat).

Lemma eager_quiet {A} (m : TM A) : eager N m -> quiet N m.
Proof. intros Hm t Hok Hn. eapply wp_mono; [exact (Hm t Hok Hn)|]. by intros r t' [? _]. Qed.
Lemma quiet_ret {A} (a : A) : quiet N (ret a).
Proof. intros t Hok _. by apply wp_ret, follows_refl. Qed.
Lemma quiet_throw {A} h : quiet (A := A) N (throw h).
Proof. intros t Hok _. by apply wp_throw, follows_refl. Qed.
Lemma eager_throw {A} h : eager (A := A) N (throw h).
Proof. intros t Hok _. apply wp_throw. split; [by apply follows_refl|done]. Qed.
Lemma quiet_lift {A} (r : result halt A) : quiet N (lift r).
Proof. intros t Hok _. by apply wp_lift, follows_refl. Qed.
Lemma quiet_or_panic {A} (o : option A) : quiet N (or_panic o).
Proof. destruct o; [apply quiet_ret|apply quiet_throw]. Qed.

Lemma quiet_bind {A B} (m : TM A) (f : A -> TM B) :
  quiet N m -> (forall a, quiet N (f a)) -> quiet N (bind m f).
Proof.
  intros Hm Hf t Hok Hn. apply wp_bind. eapply wp_mono; [exact (Hm t Hok Hn)|]. intros [a|e] t' Ht; [|done].
  apply follows_len in Ht as Hlen. eapply wp_mono; [apply Hf; [apply Ht|lia]|].
  intros r t2 Ht2. by eapply follows_trans.
Qed.
Lemma eager_bind {A B} (m : TM A) (f : A -> TM B) :
  eager N m -> (forall a, quiet N (f a)) -> eager N (bind m f).
Proof.
  intros Hm Hf t Hok Hn. apply wp_bind. eapply wp_mono; [exact (Hm t Hok Hn)|]. intros [a|e] t' [Ht Hl]; [|done].
  eapply wp_mono; [apply Hf; [apply Ht|lia]|]. intros r t2 Ht2. split; [by eapply follows_trans|].
  apply follows_len in Ht2. destruct r; [lia|done].
Qed.
Lemma eager_get {A} (f : TrzszTransfer -> TM A) : (forall t, eager N (f t)) -> eager N (bind get f).
Proof. intros Hf t Hok Hn. exact (Hf t t Hok Hn). Qed.

Lemma quiet_on_buffer {A} (m : M halt BufferState A) : polite N m -> quiet N (on_buffer m).
Proof.
  intros Hm t Hok Hn. specialize (Hm (t_buffer t) Hok Hn). unfold wp, on_buffer in *.
  destruct (m (t_buffer t)) as [[r b]|]; [|done]. destruct Hm as (? & ? & ?). unfold follows. by split_and!.
Qed.
Lemma eager_on_buffer {A} (m : M halt BufferState A) : hungry N m -> eager N (on_buffer m).
Proof.
  intros Hm t Hok Hn. specialize (Hm (t_buffer t) Hok Hn). unfold wp, on_buffer in *.
  destruct (m (t_buffer t)) as [[r b]|]; [|done]. destruct Hm as (? & ? & ? & Hl). unfold follows. by split_and!.
Qed.
Lemma quiet_write bytes : quiet N (write bytes).
Proof. intros t Hok _. unfold wp, write, modify, follows. split_and!; [done|done|by apply prefix_app_r]. Qed.
Lemma quiet_send_line kind payload : quiet N (send_line kind payload).
Proof. intros t Hok Hn. unfold send_line. by apply quiet_write. Qed.

Context (fuel : nat) (Hfuel : (N < fuel)%nat).

Lemma quiet_read_line : eager N (on_buffer (read_line fuel)).
Proof. by apply eager_on_buffer, read_line_hungry. Qed.

Lemma quiet_cut (expect line : list Z) :
  quiet N (match str_rfind (tag expect) line 0 with
           | Some index => or_panic (slice_from line index)
           | None => match str_rfind [35] line 0 with
                     | Some index => if 0 <? index then or_panic (slice_from line index) else ret line
                     | None => ret line
                     end
           end).
Proof. repeat case_match; auto using quiet_or_panic, quiet_ret. Qed.

Lemma recv_line_eager expect junk : eager N (recv_line fuel expect junk).
Proof.
  unfold recv_line. apply eager_get. intros t. destruct (t_stopped t); [apply eager_throw|].
  destruct (is_windows_shell t || remote_is_windows t).
  { apply eager_bind; [by apply eager_on_buffer, read_line_on_windows_hungry|]. intros line. apply quiet_cut. }
  apply eager_bind; [apply quiet_read_line|]. intros line.
  destruct (tmux_output_junk t || junk); [|apply quiet_ret].
  apply quiet_bind; [|intros line1; apply quiet_bind; [apply quiet_cut|]; intros line2; apply quiet_or_panic].
  intros t1 Hok1 Hn1.
  apply (wp_loop (fun _ t2 => follows t1 t2) (fun _ t2 => unread_len t2)); [|by apply follows_refl|lia].
  intros l t2 Ht2. apply follows_len in Ht2 as Hl2.
  destruct (last l) as [c|]; [destruct (c =? 13)|]; [|by apply wp_ret..].
  apply wp_bind. eapply wp_mono; [apply quiet_read_line; [apply Ht2|lia]|].
  intros [more|h] t3 [H3 Hlt]; cbn.
  - split; [by eapply follows_trans|done].
  - by eapply follows_trans.
Qed.

Lemma recv_check_eager expect junk : eager N (recv_check fuel expect junk).
Proof.
  unfold recv_check. apply eager_bind; [apply recv_line_eager|]. intros line.
  destruct (str_find _ line 0); [|apply quiet_throw]. case_match; [apply quiet_throw|].
  apply quiet_bind; [apply quiet_or_panic|]. intros kind. apply quiet_bind; [apply quiet_or_panic|].
  intros payload. case_match; [apply quiet_ret|apply quiet_throw].
Qed.

Lemma recv_integer_eager kind junk : eager N (recv_integer fuel kind junk).
Proof.
  unfold recv_integer. apply eager_bind; [apply recv_check_eager|]. intros text.
  case_match; [apply quiet_ret|apply quiet_throw].
Qed.

Context `{Codec}.

Lemma decode_quiet text : quiet N (decode_buffer text).
Proof. unfold decode_buffer, try_. apply quiet_bind; [apply quiet_lift|]. intros b. apply quiet_lift. Qed.

Lemma recv_binary_eager kind junk : eager N (recv_binary fuel kind junk).
Proof. unfold recv_binary. apply eager_bind; [apply recv_check_eager|]. intros text. apply decode_quiet. Qed.

Lemma recv_string_eager utf8_error kind junk : eager N (recv_string utf8_error fuel kind junk).
Proof.
  unfold recv_string. apply eager_bind; [apply recv_check_eager|]. intros text.
  apply quiet_bind; [apply decode_quiet|]. intros b. case_match; [apply quiet_ret|apply quiet_throw].
Qed.

Lemma recv_data_eager binary codes : eager N (recv_data fuel binary codes).
Proof.
  unfold recv_data. destruct (negb binary); [apply recv_binary_eager|].
  apply eager_bind; [apply recv_integer_eager|]. intros size.
  apply quiet_bind; [by apply quiet_on_buffer, read_binary_polite|]. intros b. apply quiet_ret.
Qed.
End Quiet.

(** *** What is on disk *)

(** A file system whose calls may fail: [fault] says for each call by its
    number whether it fails, with which error, and how much of it was done
    before it failed. *)
Record Fault := mkFault { f_done : bool; f_bytes : Z; f_error : TrzszError }.
Record Disk := mkDisk { saves : list SavedFile; disk_calls : nat }.

Definition saved_write (data : list Z) (f : SavedFile) : SavedFile :=
  mkSaved (sv_name f) (sv_dir f) (sv_data f ++ data) (sv_finished f) (sv_committed f) (sv_aborted f).
Definition saved_finish (f : SavedFile) : SavedFile :=
  mkSaved (sv_name f) (sv_dir f) (sv_data f) true (sv_committed f) (sv_aborted f).
Definition saved_commit (f : SavedFile) : SavedFile :=
  mkSaved (sv_name f) (sv_dir f) (sv_data f) (sv_finished f) true (sv_aborted f).
Definition saved_abort (f : SavedFile) : SavedFile :=
  mkSaved (sv_name f) (sv_dir f) (sv_data f) (sv_finished f) (sv_committed f) true.

Section Disk.
Context (fault : nat -> option Fault).

Definition on_disk (full : SavedFile -> SavedFile) (part : Fault -> SavedFile -> SavedFile) (h : SaveHandle)
    : M halt Disk unit :=
  fun d => Some match fault (disk_calls d) with
                | None => (Ok tt, mkDisk (alter full (h_index h) (saves d)) (S (disk_calls d)))
                | Some e => (Err (Fails (f_error e)), mkDisk (alter (part e) (h_index h) (saves d)) (S (disk_calls d)))
                end.
Definition all_or_nothing (g : SavedFile -> SavedFile) (e : Fault) : SavedFile -> SavedFile :=
  if f_done e then g else id.
Definition Disk_writer : TrzszFileWriter Disk SaveHandle := {|
  local_name := h_name;
  is_dir := h_dir;
  write_file h data := on_disk (saved_write data) (fun e => saved_write (ztake (f_bytes e) data)) h;
  close_file h := ret tt;
  commit_file := on_disk saved_commit (all_or_nothing saved_commit);
  finish_file := on_disk saved_finish (all_or_nothing saved_finish);
  abort_file := on_disk saved_abort (all_or_nothing saved_abort)
|}.
Definition open_on_disk (resolve : list Z -> list Z * bool) (name : list Z) (directory overwrite : bool)
    : M halt Disk SaveHandle :=
  fun d => let '(local, dir) := resolve name in
           let made := saves d ++ [mkSaved local dir [] false false false] in
           Some match fault (disk_calls d) with
                | None => (Ok (mkHandle (length (saves d)) local dir), mkDisk made (S (disk_calls d)))
                | Some e => (Err (Fails (f_error e)), mkDisk (if f_done e then made else saves d) (S (disk_calls d)))
                end.

Lemma on_disk_last full part h fs f k :
  h_index h = length fs ->
  on_disk full part h (mkDisk (fs ++ [f]) k)
  = Some match fault k with
         | None => (Ok tt, mkDisk (fs ++ [full f]) (S k))
         | Some e => (Err (Fails (f_error e)), mkDisk (fs ++ [part e f]) (S k))
         end.
Proof.
  intros E. unfold on_disk. cbn [saves disk_calls]. rewrite E.
  destruct (fault k); by rewrite alter_app_r_alt, Nat.sub_diag by lia.
Qed.
End Disk.

Section Safety.
Context `{Codec} (utf8_error : list Z -> list Z) (resolve : list Z -> list Z * bool) (elapsed : nat -> Z).
Context (fault : nat -> option Fault) (fuel : nat).

(** Between [t] and [t'] the sender's MD5 line was read, and the digest in it
    is the one of exactly this data. *)
Definition vouched (t t' : TrzszTransfer) (data : list Z) : Prop :=
  exists t0 t1, follows t t0 /\ recv_binary fuel (lit "MD5") false t0 = Some (Ok (md5 data), t1) /\ follows t1 t'.
(** The receiver sent this digest back. *)
Definition confirmed (out : list (list Z)) (data : list Z) : Prop :=
  exists newline, tag (lit "SUCC") ++ encode_buffer (md5 data) ++ newline ∈ out.

(** A finished file was not aborted, and its contents are those the sender gave
    the digest of. *)
Definition sound (t t' : TrzszTransfer) (f : SavedFile) : Prop :=
  sv_finished f = true -> sv_aborted f = false /\ vouched t t' (sv_data f) /\ confirmed (written t') (sv_data f).
(** A file whose turn is over. *)
Definition complete (t t' : TrzszTransfer) (f : SavedFile) : Prop :=
  sound t t' f /\ sv_aborted f = false
  /\ if sv_dir f then sv_finished f = false /\ sv_data f = [] else sv_finished f = true.
Definition uncommitted (f : SavedFile) : Prop := sv_committed f = false.

Lemma sound_mono t t' t'' f : follows t' t'' -> sound t t' f -> sound t t'' f.
Proof.
  intros Ht Hf H1. destruct (Hf H1) as (Ha & (t0 & t1 & H0 & Hr & H2) & n & Hn). split_and!; [done| |].
  - exists t0, t1. split_and!; [done|done|by eapply follows_trans].
  - destruct Ht as (_ & _ & k & ->). exists n. apply elem_of_app. by left.
Qed.
Lemma complete_mono t t' t'' f : follows t' t'' -> complete t t' f -> complete t t'' f.
Proof. intros Ht (Hs & ?). split; [by eapply sound_mono|done]. Qed.

Context (N : nat) (Hfuel : (N < fuel)%nat) (binary directory : bool) (codes : list EscapeCode).
Let W : TrzszFileWriter Disk SaveHandle := Disk_writer fault.
#[local] Existing Instance W.

(** The data of a file is written as it is hashed. *)
Lemma recv_file_data_safe t fs k h name dir size :
  h_index h = length fs -> buffer_ok (t_buffer t) -> (unread_len t <= N)%nat ->
  wp (recv_file_data elapsed fuel h size binary codes)
    (fun r s => follows t s.1 /\ exists data, saves s.2 = fs ++ [mkSaved name dir data false false false]
       /\ match r with Ok digest => digest = md5 data | Err _ => True end)
    (t, mkDisk (fs ++ [mkSaved name dir [] false false false]) k).
Proof.
  intros Hh Hok Hn.
  apply (wp_loop (fun v s => follows t s.1 /\ saves s.2 = fs ++ [mkSaved name dir v.1.2 false false false])
           (fun _ s => unread_len s.1)); [|split; [by apply follows_refl|done]|simpl; lia].
  intros [[step ctx] j] [t1 [fs1 k1]] [Ht1 Hfs1]. cbn [fst snd saves] in *. subst fs1. apply follows_len in Ht1 as Hl1.
  cbn [recv_chunk]. destruct (step <? size); [|by apply wp_ret; eauto].
  apply wp_bind, wp_on_fst. eapply wp_mono; [apply (recv_data_eager N fuel Hfuel); [apply Ht1|lia]|].
  intros [data|e] t2 [Ht2 Hlt]; cbn [wp_then]; [|split; [by eapply follows_trans|eauto]].
  assert (Ht12 : follows t t2) by by eapply follows_trans. apply follows_len in Ht2 as Hl2.
  apply wp_bind, wp_on_snd. cbn [write_file W Disk_writer]. unfold wp at 1. rewrite (on_disk_last fault _ _ h fs) by done.
  destruct (fault k1) as [e|]; cbn [wp_then]; [split; [done|]; by eexists|].
  apply wp_bind, wp_on_fst. eapply wp_mono; [apply (quiet_send_line N); [apply Ht2|lia]|].
  intros [[]|e] t3 Ht3; cbn [wp_then].
  - apply wp_bind, wp_on_fst. unfold wp, modify. cbn [wp_then]. apply follows_len in Ht3 as Hl3.
    assert (Ht13 : follows t t3) by by eapply follows_trans.
    unfold wp, ret. cbn [fst snd]. split; [split; [|done]|].
    + by destruct Ht13 as (? & ? & ?).
    + change (unread_len (set_chunk_time _ t3)) with (unread_len t3). lia.
  - split; [by eapply follows_trans|]. by eexists.
Qed.

Lemma recv_file_size_quiet : quiet N (recv_file_size fuel).
Proof.
  apply eager_quiet, eager_bind; [by apply recv_integer_eager|]. intros n.
  apply quiet_bind; [apply quiet_send_line|]. intros _. apply quiet_ret.
Qed.

Lemma send_binary_run t kind bytes :
  exists t', send_binary kind bytes t = Some (Ok tt, t')
  /\ written t' = written t ++ [tag kind ++ encode_buffer bytes ++ protocol_newline t]
  /\ t_buffer t' = t_buffer t.
Proof. eexists. split; [reflexivity|done]. Qed.

(** The digest is confirmed only when it is the one the sender gave. *)
Lemma recv_file_md5_safe t data :
  buffer_ok (t_buffer t) -> (unread_len t <= N)%nat ->
  wp (recv_file_md5 fuel (md5 data))
    (fun r t' => follows t t'
       /\ match r with Ok _ => vouched t t' data /\ confirmed (written t') data | Err _ => True end) t.
Proof.
  intros Hok Hn. unfold recv_file_md5. apply wp_bind. pose proof (recv_binary_eager N fuel Hfuel (lit "MD5") false t Hok Hn) as Hr.
  apply wp_run in Hr as (r & t1 & Hrun & Ht1 & _). unfold wp at 1. rewrite Hrun.
  destruct r as [expected|e]; cbn [wp_then]; [|done].
  destruct (decide (md5 data = expected)) as [<-|]; [|by apply wp_throw].
  destruct (send_binary_run t1 (lit "SUCC") (md5 data)) as (t2 & Hsend & Hw & Hb). unfold wp at 1. rewrite Hsend.
  assert (Ht2 : follows t1 t2).
  { unfold follows. rewrite Hb, Hw. split_and!; [apply Ht1|done|by apply prefix_app_r]. }
  split_and!; [by eapply follows_trans| |].
  - exists t, t1. split_and!; [by apply follows_refl|done|done].
  - exists (protocol_newline t1). rewrite Hw. apply elem_of_app. right. by constructor.
Qed.

Lemma recv_file_body_safe t t0 fs k h name :
  h_index h = length fs -> follows t t0 -> (unread_len t <= N)%nat ->
  wp (recv_file_body elapsed fuel h binary codes)
    (fun r s => follows t0 s.1 /\ exists f, saves s.2 = fs ++ [f] /\ sv_name f = name /\ uncommitted f
       /\ match r with Ok _ => complete t s.1 f | Err _ => sound t s.1 f end)
    (t0, mkDisk (fs ++ [mkSaved name false [] false false false]) k).
Proof.
  intros Hh Ht0 Hn. apply follows_len in Ht0 as Hl0. unfold recv_file_body. apply wp_bind, wp_on_fst.
  eapply wp_mono; [apply recv_file_size_quiet; [apply Ht0|lia]|].
  assert (Hstop : forall t' data ab d, follows t0 t' -> saves d = fs ++ [mkSaved name false data false false ab] ->
    follows t0 t' /\ exists f, saves d = fs ++ [f] /\ sv_name f = name /\ uncommitted f /\ sound t t' f).
  { intros t' data ab d Ht' Hd. split; [done|]. by eexists. }
  intros [size|e] t1 Ht1; cbn [wp_then]; [|by eapply Hstop].
  apply follows_len in Ht1 as Hl1. apply wp_bind, wp_attempt.
  eapply wp_mono; [apply (recv_file_data_safe t1 fs k h name false size Hh); [apply Ht1|lia]|].
  intros r [t2 [fs2 k2]] [Ht2 (data & Hfs2 & Hr)]. cbn [fst snd wp_then saves] in *. subst fs2.
  assert (Ht02 : follows t0 t2) by by eapply follows_trans. apply follows_len in Ht2 as Hl2.
  destruct r as [digest|[e| |]]; [| |by eapply wp_throw, Hstop..].
  - subst digest. apply wp_bind, wp_on_snd. cbn [close_file W Disk_writer]. apply wp_ret. cbn [wp_then].
    apply wp_bind, wp_on_fst. eapply wp_mono; [apply recv_file_md5_safe; [apply Ht2|lia]|].
    assert (Htt2 : follows t t2) by by eapply follows_trans.
    intros [[]|e] t3 [Ht3 Hv]; cbn [wp_then]; [|by eapply Hstop; [eapply follows_trans|]].
    assert (Ht03 : follows t0 t3) by by eapply follows_trans. destruct Hv as [(ta & tb & Ha & Hrun & Hb) Hc].
    assert (Hsound : forall f, sv_data f = data -> sv_aborted f = false -> sound t t3 f).
    { intros f <- Hab _. split_and!; [done| |done]. exists ta, tb. split_and!; [by eapply follows_trans|done|done]. }
    apply wp_on_snd. cbn [finish_file W Disk_writer]. unfold wp. rewrite (on_disk_last fault _ _ h fs) by done.
    destruct (fault k2) as [e|]; cbn [fst snd]; (split; [done|]); eexists; (split; [reflexivity|]).
    + unfold all_or_nothing. destruct (f_done e); (split_and!; [done|done|]); by apply Hsound.
    + split_and!; [done|done|]. split; [by apply Hsound|done].
  - apply wp_bind, wp_attempt, wp_on_snd. cbn [abort_file W Disk_writer]. unfold wp at 1.
    rewrite (on_disk_last fault _ _ h fs) by done. unfold all_or_nothing.
    destruct (fault k2) as [e'|]; [destruct (f_done e')|]; cbn [wp_then]; by eapply wp_throw, Hstop.
Qed.

Definition names_of (fs : list SavedFile) : list (list Z) :=
  fold_left (fun ns f => push_unique (sv_name f) ns) fs [].

(** The state between two files. *)
Definition batch (t : TrzszTransfer) (names : list (list Z)) (created : list SaveHandle) (s : TrzszTransfer * Disk) : Prop :=
  follows t s.1 /\ Forall (complete t s.1) (saves s.2) /\ Forall uncommitted (saves s.2) /\ names = names_of (saves s.2)
  /\ map h_index created = seq 0 (length (saves s.2)).
(** Where a run may stop early. *)
Definition stopped_batch (t : TrzszTransfer) (s : TrzszTransfer * Disk) : Prop :=
  follows t s.1 /\ Forall (sound t s.1) (saves s.2) /\ Forall uncommitted (saves s.2).

Lemma batch_stop t names created t1 fs k t2 k2 l :
  batch t names created (t1, mkDisk fs k) -> follows t1 t2 -> Forall (sound t t2) l -> Forall uncommitted l ->
  stopped_batch t (t2, mkDisk (fs ++ l) k2).
Proof.
  intros (Ht & Hf & Hu & _) Ht2 Hl1 Hl2. unfold stopped_batch. cbn [fst snd saves] in *.
  split_and!; [by eapply follows_trans|apply Forall_app; split; [|done]|by apply Forall_app].
  eapply Forall_impl; [exact Hf|]. intros f [Hs _]. by eapply sound_mono.
Qed.

Lemma batch_snoc t names created t1 t2 fs k k2 f h :
  batch t names created (t1, mkDisk fs k) -> follows t1 t2 -> complete t t2 f -> uncommitted f ->
  h_index h = length fs -> h_name h = sv_name f ->
  batch t (push_unique (h_name h) names) (created ++ [h]) (t2, mkDisk (fs ++ [f]) k2).
Proof.
  intros (Ht & Hf & Hu & Hn & Hc) Ht2 Hcomp Hfu Hi Hname. unfold batch. cbn [fst snd saves] in *. split_and!.
  - by eapply follows_trans.
  - apply Forall_app. split; [|by constructor]. eapply Forall_impl; [exact Hf|]. intros g. by apply complete_mono.
  - apply Forall_app. split; [done|by constructor].
  - unfold names_of. rewrite fold_left_app. cbn. by rewrite Hname, Hn.
  - rewrite map_app, Hc, length_app, seq_app. cbn. by rewrite Hi.
Qed.

Lemma recv_turn_safe t t1 fs k remaining names created :
  batch t names created (t1, mkDisk fs k) -> (unread_len t <= N)%nat ->
  wp (recv_turn elapsed utf8_error fuel (open_on_disk fault resolve) binary directory codes (remaining, names, created))
    (fun r s => match r with
                | Ok (inl v) => batch t v.1.2 v.2 s /\ (unread_len s.1 < unread_len t1)%nat
                | Ok (inr v) => batch t v.1 v.2 s
                | Err _ => stopped_batch t s
                end) (t1, mkDisk fs k).
Proof.
  intros Hb Hn. pose proof Hb as (Ht1 & _). cbn [fst] in Ht1. apply follows_len in Ht1 as Hl1.
  pose proof (fun t2 k2 => batch_stop t names created t1 fs k t2 k2 [] Hb) as Hstop. setoid_rewrite app_nil_r in Hstop.
  pose proof (fun t2 k2 f => batch_stop t names created t1 fs k t2 k2 [f] Hb) as Hheld.
  cbn [recv_turn]. destruct (0 <? remaining); [|by apply wp_ret].
  apply wp_bind. unfold recv_file_name. apply wp_bind, wp_on_fst.
  eapply wp_mono; [apply (recv_string_eager N fuel Hfuel); [apply Ht1|lia]|].
  intros [name|e] t2 [Ht2 Hlt]; cbn [wp_then]; [|by apply Hstop].
  apply wp_bind, wp_on_snd. unfold open_on_disk, wp at 1. destruct (resolve name) as [local dir]. cbn [saves disk_calls].
  assert (Hnew : Forall (sound t t2) [mkSaved local dir [] false false false]) by by constructor.
  destruct (fault k) as [e|]; cbn [wp_then]; [destruct (f_done e); [by apply Hheld; [|done|constructor]|by apply Hstop]|].
  set (h := mkHandle (length fs) local dir). apply wp_bind, wp_on_fst. apply follows_len in Ht2 as Hl2.
  eapply wp_mono; [apply (quiet_send_line N); [apply Ht2|lia]|]. intros [[]|e] t3 Ht3; cbn [wp_then].
  2: { apply Hheld; [by eapply follows_trans|by constructor|by constructor]. }
  assert (Ht13 : follows t1 t3) by by eapply follows_trans. apply follows_len in Ht3 as Hl3.
  apply wp_ret. cbn [wp_then local_name is_dir W Disk_writer h h_name h_dir]. apply wp_bind. destruct dir.
  - apply wp_ret. cbn [wp_then]. apply wp_ret. cbn [fst snd]. split; [|lia].
    by apply (batch_snoc t names created t1 t3 fs k _ (mkSaved local true [] false false false) h).
  - eapply wp_mono; [apply (recv_file_body_safe t t3 fs (S k) h local eq_refl); [by eapply follows_trans|done]|].
    intros r [t4 [fs4 k4]] (Ht4 & f & Hfs4 & Hname & Hu & Hf). cbn [fst snd saves] in *. subst fs4.
    assert (Ht14 : follows t1 t4) by by eapply follows_trans. apply follows_len in Ht4 as Hl4.
    destruct r as [[]|e]; cbn [wp_then].
    + apply wp_ret. cbn [fst snd]. split; [|lia]. by apply (batch_snoc t names created t1 t4 fs k _ f h).
    + apply Hheld; [done|by constructor..].
Qed.

Lemma recv_file_num_quiet : quiet N (recv_file_num fuel).
Proof.
  apply eager_quiet, eager_bind; [by apply recv_integer_eager|]. intros n.
  apply quiet_bind; [apply quiet_send_line|]. intros _. apply quiet_ret.
Qed.

(** Committing stops at the first failure: each file is committed or as it
    was, and all are when it succeeds. *)
Lemma commit_all_safe t hs pre l k :
  map h_index hs = seq (length pre) (length l) ->
  wp (commit_all hs)
    (fun r s => s.1 = t /\ exists l', saves s.2 = pre ++ l' /\ Forall2 (fun f f' => f' = f \/ f' = saved_commit f) l l'
       /\ match r with Ok _ => l' = map saved_commit l | Err _ => True end)
    (t, mkDisk (pre ++ l) k).
Proof.
  revert hs pre k. induction l as [|f l IH]; intros hs pre k Hhs; destruct hs as [|h hs]; simplify_eq/=.
  - split; [done|]. exists []. by rewrite app_nil_r.
  - apply wp_bind, wp_on_snd. unfold wp at 1, on_disk. cbn [saves disk_calls].
    match goal with E : h_index h = _ |- _ => rewrite E end.
    rewrite !alter_app_r_alt, Nat.sub_diag by lia. cbn [alter list_alter].
    assert (Hsame : Forall2 (fun f f' => f' = f \/ f' = saved_commit f) l l) by (apply Forall_Forall2_diag, Forall_forall; by left).
    destruct (fault k) as [e|]; cbn [wp_then].
    + split; [done|]. exists (all_or_nothing saved_commit e f :: l). split_and!; [by rewrite alter_app_r_alt, Nat.sub_diag by lia| |done].
      constructor; [|done]. unfold all_or_nothing. destruct (f_done e); [by right|by left].
    + rewrite (cons_middle (saved_commit f)), app_assoc.
      eapply wp_mono; [apply IH; by rewrite length_app, Nat.add_comm|].
      intros r [t' d] (-> & l' & Hl' & Hl & Hr). cbn [fst snd] in *. split; [done|].
      exists (saved_commit f :: l'). split_and!; [by rewrite Hl', <-app_assoc|constructor; [by right|done]|].
      destruct r; [by rewrite Hr|done].
Qed.
End Safety.

Lemma names_of_commit l l' : Forall2 (fun f f' => f' = f \/ f' = saved_commit f) l l' -> names_of l' = names_of l.
Proof.
  unfold names_of. generalize (@nil (list Z)). intros ns Hl. revert ns.
  induction Hl as [|f f' l l' [->| ->] _ IH]; intros ns; [done|apply IH|apply IH].
Qed.
Lemma complete_commit `{Codec} fuel t t' l l' :
  Forall2 (fun f f' => f' = f \/ f' = saved_commit f) l l' -> Forall (complete fuel t t') l -> Forall (complete fuel t t') l'.
Proof. induction 1 as [|f f' l l' [->| ->] _ IH]; inversion 1; constructor; eauto. Qed.
Lemma complete_sound `{Codec} fuel t t' l : Forall (complete fuel t t') l -> Forall (sound fuel t t') l.
Proof. intros Hl. eapply Forall_impl; [exact Hl|]. by intros f [? _]. Qed.

(** What the receiver leaves behind. *)
Definition receiver_result `{Codec} (fuel : nat) (t t' : TrzszTransfer) (r : result halt (list (list Z))) (d : Disk) : Prop :=
  Forall (sound fuel t t') (saves d)
  /\ match r with
     | Ok names => names = names_of (saves d) /\ Forall (fun f => complete fuel t t' f /\ sv_committed f = true) (saves d)
     | Err _ => Forall uncommitted (saves d) \/ Forall (complete fuel t t') (saves d)
     end.

Lemma receiver_safe `{Codec} (utf8_error : list Z -> list Z) (resolve : list Z -> list Z * bool)
    (fault : nat -> option Fault) (elapsed : nat -> Z) (t : TrzszTransfer) (fuel : nat) :
  buffer_ok (t_buffer t) -> (unread_len t < fuel)%nat ->
  wp (recv_files (H0 := Disk_writer fault) elapsed utf8_error fuel (open_on_disk fault resolve))
    (fun r s => follows t s.1 /\ receiver_result fuel t s.1 r s.2) (t, mkDisk [] 0).
Proof.
  intros Hok Hf. unfold recv_files. apply wp_bind, wp_on_fst. unfold wp at 1, get. cbn [wp_then].
  set (binary := config_bool t _). set (directory := config_bool t _). set (codes := config_escape_codes t).
  apply wp_bind, wp_on_fst.
  eapply wp_mono; [exact (recv_file_num_quiet fuel (unread_len t) Hf t Hok (le_n _))|].
  intros [num|e] t1 Ht1; cbn [wp_then fst snd]; [|by split; [|split; [|left]]].
  apply wp_bind. apply follows_len in Ht1 as Hl1. eapply wp_mono.
  - apply (wp_loop (fun v s => batch fuel t v.1.2 v.2 s) (fun _ s => unread_len s.1)
             _ (fun r s => match r with Ok v => batch fuel t v.1 v.2 s | Err _ => stopped_batch fuel t s end));
      [|by split_and!; [..|constructor]|simpl; lia].
    intros [[remaining names] created] [t2 [fs k]] Hb. cbn [fst snd] in *.
    eapply wp_mono; [apply (recv_turn_safe utf8_error resolve elapsed fault fuel (unread_len t) Hf binary directory codes t);
                     [exact Hb|done]|].
    intros [[v|v]|e] s Hs; done.
  - intros [[names created]|e] [t2 [fs k]] Hs; cbn [wp_then fst snd] in *.
    2: { destruct Hs as (? & ? & ?). split; [done|]. split; [done|by left]. }
    destruct Hs as (Ht2 & Hcomp & _ & Hnames & Hidx). cbn [fst snd saves] in *. apply wp_bind.
    eapply wp_mono; [exact (commit_all_safe fault fuel (unread_len t) Hf t2 created [] fs k Hidx)|].
    intros r [t3 d] (Et & l' & Hd & Hl & Hr). cbn [fst snd app] in *. subst t3.
    pose proof (complete_commit _ _ _ _ _ Hl Hcomp) as Hcomp'. unfold receiver_result.
    destruct r as [[]|e]; cbn [wp_then]; [apply wp_ret|]; cbn [fst snd]; rewrite Hd; (split; [done|]); (split; [by apply complete_sound|]).
    + split; [by rewrite (names_of_commit _ _ Hl)|]. apply Forall_and. split; [done|]. rewrite Hr. apply Forall_fmap.
      by eapply Forall_impl; [exact Hcomp|].
    + by right.
Qed.

(** ** A codec for examples *)

Definition hex (n : Z) : Z := 65 + n mod 16.
Definition hex_encode (b : list Z) : list Z := List.concat (map (fun x => [hex (x / 16); hex x]) b).
Fixpoint hex_decode (s : list Z) : result (list Z) (list Z) :=
  match s with
  | [] => Ok []
  | [_] => Err (lit "odd length")
  | x :: y :: r => match hex_decode r with
                   | Ok b => Ok (((x - 65) * 16 + (y - 65)) :: b)
                   | Err e => Err e
                   end
  end.
#[export] Instance ToyCodec : Codec := {
  deflate b := b;
  inflate b := Ok b;
  b64_encode := hex_encode;
  b64_decode := hex_decode;
  md5 b := [Prelude.wrap 8 (zsum b)];
  json_to_string _ := [];
  json_from_str _ := Err (lit "no JSON")
}.
#[export] Instance ToyCodec_laws : CodecLaws.
Proof.
  constructor; cbn; [done|done| | |].
  - intros b Hb. induction Hb as [|x b Hx _ IH]; [done|]. unfold hex_encode in *. cbn. rewrite IH. unfold hex.
    do 2 f_equal. destruct Hx as [Hx0 Hx1]. change (2 ^ 8) with 256 in Hx1. Z.to_euclidean_division_equations. lia.
  - intros b. induction b as [|x b IH]; [constructor|]. unfold hex_encode. cbn.
    assert (Hhex : forall n, is_b64 (hex n) = true).
    { intros n. unfold is_b64, is_ascii_alphanumeric, in_range, hex. pose proof (Z.mod_pos_bound n 16). lia. }
    by repeat constructor.
  - intros b. constructor; [|constructor]. apply in_width_wrap. lia.
Qed.

(** A stream that arrives one byte at a time. *)
Definition feed (l : list Z) (t : TrzszTransfer) : TrzszTransfer :=
  set_buffer (mkBuffer (map (fun b => [b]) l) [] 0 false) t.

Lemma pending_feed l : pending (mkBuffer (map (fun b => [b]) l) [] 0 false) = l.
Proof.
  change (List.concat (map (fun b => [b]) l) = l). induction l as [|b l IH]; [done|]. cbn. by rewrite IH.
Qed.
Lemma buffer_ok_feed l : buffer_ok (mkBuffer (map (fun b => [b]) l) [] 0 false).
Proof.
  constructor; [done|done|]. cbn [queue]. apply Forall_fmap. apply Forall_true. intros b. cbn.
  unfold U64_MAX, zlen. simpl. lia.
Qed.
Lemma ready_feed l t :
  t_stopped t = false -> is_windows_shell t || remote_is_windows t = false -> protocol_newline t = [10] ->
  tmux_output_junk t = false -> ready false (feed l t) l.
Proof. intros. constructor; [apply buffer_ok_feed|done|done|left; apply pending_feed|done..]. Qed.

(** ** Properties *)

(** C3: over a faithful line the two ends of the protocol agree.  For any
    files, chunk sizes and times, any chunking of the streams by the transport
    and either kind of line ending, there are streams [up] and [down] such
    that the sender, reading [down], succeeds and writes exactly [up], and the
    receiver, reading [up], succeeds and writes exactly [down]; both return
    the same names, and every file is stored with its exact bytes, finished
    and committed.  Binary mode needs a lossless escape table and plain
    newlines. *)
Theorem trzsz_loopback `{CodecLaws} {F} `{LawfulFileReader F} (utf8_error : list Z -> list Z)
    (resolve : list Z -> list Z * bool) (elapsed elapsed' : nat -> Z) (win : bool) (t0 : TrzszTransfer)
    (fs : list F) (es : list Item) :
  mode_ok win (config_bool t0 (lit "binary")) (config_escape_codes t0) ->
  Forall2 (sendable (config_bool t0 (lit "directory")) resolve) fs es -> zlen es <= U64_MAX ->
  exists up down, forall fuel ts tr,
    same_setup t0 ts -> same_setup t0 tr -> ready win ts down -> ready win tr up ->
    (length up + length down + length es + 1 < fuel)%nat ->
    Forall (fun e => length (it_data e) < fuel)%nat es ->
    exists ts' tr',
      send_files elapsed utf8_error fuel fs ts = Some (Ok (locals [] es), ts')
      /\ List.concat (written ts') = List.concat (written ts) ++ up
      /\ recv_files elapsed' utf8_error fuel (open_saved resolve) (tr, [])
         = Some (Ok (locals [] es), (tr', map (fun e => saved e true) es))
      /\ List.concat (written tr') = List.concat (written tr) ++ down.
Proof. apply session_ok. Qed.

Definition demo_setup : TrzszTransfer :=
  set_config (VObject [(lit "binary", VBool true);
                       (lit "escape_chars", VArray [VArray [VString [33]; VString [33; 33]];
                                                    VArray [VString [126]; VString [33; 49]]])]) false
    (new_transfer false 4096).
Definition demo_item : Item := mkItem [1; 126; 33; 255] (lit "a.txt") (lit "a.txt") false.
Definition demo_reader : MemoryReader := mkMemoryReader [lit "dir"; lit "a.txt"] (it_data demo_item) 0 false.

Lemma trzsz_loopback_witness : exists up down fuel ts' tr',
  send_files (fun _ => 0) id fuel [demo_reader] (feed down demo_setup) = Some (Ok [lit "a.txt"], ts')
  /\ List.concat (written ts') = up
  /\ recv_files (fun _ => 0) id fuel (open_saved (fun n => (n, false))) (feed up demo_setup, [])
     = Some (Ok [lit "a.txt"], (tr', [mkSaved (lit "a.txt") false [1; 126; 33; 255] true true false]))
  /\ List.concat (written tr') = down.
Proof.
  destruct (trzsz_loopback id (fun n => (n, false)) (fun _ => 0) (fun _ => 0) false demo_setup
              [demo_reader] [demo_item]) as (up & down & Hrun).
  - intros _. split; reflexivity.
  - repeat constructor; try (by vm_compute); try (repeat constructor; by vm_compute).
    exists (lit "a.txt"). split; reflexivity.
  - by vm_compute.
  - exists up, down, (length up + length down + 100)%nat.
    destruct (Hrun (length up + length down + 100)%nat (feed down demo_setup) (feed up demo_setup))
      as (ts' & tr' & H1 & H2 & H3 & H4).
    + split; reflexivity.
    + split; reflexivity.
    + by apply ready_feed.
    + by apply ready_feed.
    + simpl. lia.
    + constructor; [simpl; lia|constructor].
    + exists ts', tr'. split; [exact H1|]. split; [exact H2|]. split; [exact H3|exact H4].
Defined.


(** A file of one byte with its digest, and a file system whose first commit
    fails. *)
Definition one_file : list Z :=
  int_msg false (lit "NUM") 1 ++ packed_msg false (lit "NAME") (lit "a") ++ int_msg false (lit "SIZE") 1
  ++ data_msg false true [] [7] ++ packed_msg false (lit "MD5") (md5 [7]).
Definition first_commit_fails (n : nat) : option Fault :=
  if (n =? 3)%nat then Some (mkFault false 0 (InvalidState (lit "full"))) else None.
Example failed_commit_runs :
  (fun run => match run with Some (r, (_, d)) => Some (r, map (fun f => (sv_data f, sv_finished f, sv_committed f)) (saves d)) | None => None end)
    (recv_files (H0 := Disk_writer first_commit_fails) (fun _ => 0) id 200 (open_on_disk first_commit_fails (fun n => (n, false)))
       (feed one_file demo_setup, mkDisk [] 0))
  = Some (Err (Fails (InvalidState (lit "full"))), [([7], true, false)]).
Proof. vm_compute. reflexivity. Qed.


(** What [recv_check] makes of a line with a first colon. *)
Lemma recv_check_colon `{Codec} fuel kind junk t t' (c : Z) p q :
  recv_line fuel kind junk t = Some (Ok ((c :: p) ++ 58 :: q), t') -> Forall (fun x => x <> 58) (c :: p) ->
  recv_check fuel kind junk t
  = Some (if 128 <=? c then Err Panics
          else if decide (p = kind) then Ok q else Err (Fails (InvalidState (p ++ lit ": " ++ q))), t').
Proof.
  intros Hline Hp. unfold recv_check. rewrite (bind_ok _ _ _ _ _ Hline), str_find_sep by done.
  pose proof (str_len_nonneg p) as Hn. rewrite Z.add_0_l, str_len_cons.
  assert (Hc1 : 1 <= char_len_utf8 c) by (unfold char_len_utf8; repeat case_match; lia).
  rewrite (proj2 (Z.ltb_ge _ _)) by lia. destruct (128 <=? c) eqn:Ec.
  - assert (Hc2 : 2 <= char_len_utf8 c) by (unfold char_len_utf8; repeat case_match; lia).
    unfold slice. rewrite (proj2 (Z.leb_le 1 _)) by lia. cbn [app slice_from Z.eqb Pos.eqb].
    by rewrite (proj2 (Z.leb_gt _ _)) by lia.
  - assert (Hc : char_len_utf8 c = 1) by (unfold char_len_utf8; rewrite (proj2 (Z.ltb_lt _ _)); [done|lia]).
    assert (Hs1 : slice ((c :: p) ++ 58 :: q) 1 (1 + str_len p) = Some p).
    { pose proof (slice_app [c] p (58 :: q)) as Hs. by rewrite str_len_app, !str_len_cons, str_len_nil, Hc, Z.add_0_r in Hs. }
    assert (Hs2 : slice_from ((c :: p) ++ 58 :: q) (1 + str_len p + 1) = Some q).
    { replace (1 + str_len p + 1) with (str_len ((c :: p) ++ [58])).
      - apply slice_from_eq. by rewrite <-app_assoc.
      - by rewrite str_len_app, !str_len_cons, str_len_nil, Hc. }
    rewrite Hc, Hs1. cbn [or_panic]. rewrite (bind_ok _ _ _ p t'), Hs2 by done. cbn [or_panic].
    rewrite (bind_ok _ _ _ q t') by done. by case_decide.
Qed.

(** C40: every line the reader delivers (of either shell, with or without
    tmux junk) and what [recv_check] makes of it.  The thread panics exactly on
    the lines whose first character has more than one byte and that have a colon
    after it: the line is sliced from byte 1, inside the character.  The payload
    is returned exactly for a one-byte character (not checked to be a number
    sign), the expected kind and the first colon.  On every other line it fails
    with an error, and nothing more is read or sent. *)
Theorem recv_check_panics `{Codec} (fuel : nat) (kind : list Z) (may_have_junk : bool) (t t' : TrzszTransfer) (line : list Z) :
  recv_line fuel kind may_have_junk t = Some (Ok line, t') ->
  exists r, recv_check fuel kind may_have_junk t = Some (r, t')
    /\ (r = Err Panics <-> exists c rest, line = c :: rest /\ 128 <= c /\ In 58 rest)
    /\ (forall text, r = Ok text <-> exists c, line = c :: kind ++ 58 :: text /\ c < 128 /\ c <> 58 /\ ~ In 58 kind)
    /\ r <> Err Waits.
Proof.
  intros Hline. assert (Hin : forall l, Forall (fun x => x <> 58) l <-> ~ In 58 l).
  { intros l. rewrite List.Forall_forall. split; [intros Hl Hi; by apply (Hl 58)|]. by intros Hi x Hx ->. }
  destruct (first_split 58 line) as [Hno|([|c p] & q & -> & Hp)].
  - unfold recv_check. rewrite (bind_ok _ _ _ _ _ Hline), str_find_absent by done. apply Hin in Hno.
    eexists. split; [done|]. split_and!; [split; [done|]|intros text; split; [done|]|done].
    + intros (c & rest & -> & _ & Hr). by destruct Hno; right.
    + intros (c & -> & _). destruct Hno. right. apply in_or_app. right. by left.
  - unfold recv_check. rewrite (bind_ok _ _ _ _ _ Hline). eexists. split; [done|].
    split_and!; [split; [done|]|intros text; split; [done|]|done].
    + intros (c & rest & [= <- <-] & Hc & _). lia.
    + by intros (c & [= <- E] & _ & Hc & _).
  - eexists. split; [by apply (recv_check_colon _ _ _ _ _ c p q)|].
    split_and!; [|intros text|by repeat case_match].
    + destruct (Z.leb_spec 128 c) as [Hc|Hc].
      * split; [|done]. intros _. exists c, (p ++ 58 :: q). split_and!; [done..|]. apply in_or_app. right. by left.
      * split; [by case_decide|]. intros (c' & rest & [= <- _] & ? & _). lia.
    + split.
      * destruct (Z.leb_spec 128 c) as [Hc|Hc]; [done|]. case_decide as Hk; [|done]. intros [= <-]. subst p. inv Hp.
        exists c. split_and!; [done..|]. by apply Hin.
      * intros (c' & [= <- E] & Hc & Hc' & Hk). rewrite (proj2 (Z.leb_gt _ _)) by done. inv Hp.
        destruct (first_split_inj 58 p q kind text) as [-> ->]; [done|by apply Hin|done|]. by rewrite decide_True.
Qed.

Lemma recv_check_panics_witness : exists t',
  recv_check 20 (lit "SUCC") false (feed [0xc3; 0xa9; 120; 58; 49; 58; 10] (new_transfer false 4096)) = Some (Err Panics, t').
Proof.
  assert (Hline : exists t', recv_line 20 (lit "SUCC") false (feed [0xc3; 0xa9; 120; 58; 49; 58; 10] (new_transfer false 4096))
    = Some (Ok [0xe9; 120; 58; 49; 58], t')) by (eexists; vm_compute; reflexivity).
  destruct Hline as [t' Hline]. exists t'.
  destruct (recv_check_panics _ _ _ _ _ _ Hline) as (r & Hr & [_ Hp] & _).
  rewrite <-(Hp (ex_intro _ 0xe9 (ex_intro _ [120; 58; 49; 58]
    (conj eq_refl (conj (Zle_bool_imp_le 128 0xe9 eq_refl) (or_intror (or_introl eq_refl))))))).
  exact Hr.
Defined.

(** A binary block announced longer than [isize::MAX] panics in
    [Vec::with_capacity]. *)
Example oversized_block_panics :
  let t := feed (int_msg false (lit "DATA") U64_MAX) (new_transfer false 4096) in
  fst <$> recv_data 60 true [] t = Some (Err Panics).
Proof. vm_compute. reflexivity. Qed.
