(* ===== verification/TrzszFilter.v ===== *)
(** * trzsz handshake filter and consumer (hapcli-trzsz: types.rs, filter.rs, consumer.rs)

    The filter looks for the handshake of a remote [trz] or [tsz] in the
    terminal output, and while a transfer runs takes the output away from the
    terminal.  The consumer owns the transfer; a worker thread can take it, and
    then the consumer reaches its buffer through a shared handle, so transfers
    live in a list and are named by their index.  The Unicode decimal digits
    of [\d] are a parameter. *)
From S2P Require Import Prelude Text Utf16 TrzszBuffer TrzszTransfer.
From Stdlib Require Import Ascii String.
From stdpp Require Import prelude numbers list gmap.
Open Scope Z_scope.

(** ** Handshakes *)

Inductive TrzszHandshakeMode := Send | Receive | Directory.
Inductive TrzszTransferDirection := Upload | Download.
Inductive TrzszTransferSelection := SelFile | SelDirectory.
#[export] Instance TrzszHandshakeMode_eq : EqDecision TrzszHandshakeMode.
Proof. solve_decision. Defined.
#[export] Instance TrzszTransferDirection_eq : EqDecision TrzszTransferDirection.
Proof. solve_decision. Defined.

Definition from_protocol_char (value : Z) : option TrzszHandshakeMode :=
  if value =? 83 then Some Send else if value =? 82 then Some Receive
  else if value =? 68 then Some Directory else None.
Definition as_protocol_char (mode : TrzszHandshakeMode) : Z :=
  match mode with Send => 83 | Receive => 82 | Directory => 68 end.

Record TrzszDetectedHandshake := mkHandshake {
  mode : TrzszHandshakeMode;
  version : list Z;
  unique_id : list Z;
  hs_remote_is_windows : bool;
  direction : TrzszTransferDirection;
  selection : TrzszTransferSelection
}.

(** [unique_id.len()] counts bytes. *)
Definition ends_with (s suffix : list Z) : bool := is_prefix (reverse suffix) (reverse s).
Definition from_parts (m : TrzszHandshakeMode) (version unique_id : list Z) (is_windows_shell : bool)
    : TrzszDetectedHandshake :=
  let remote_is_windows :=
    bool_decide (unique_id = [58; 49]) || ((str_len unique_id =? 14) && ends_with unique_id [49; 48]) in
  mkHandshake m version unique_id (remote_is_windows || is_windows_shell)
    (if decide (m = Send) then Download else Upload)
    (match m with Directory => SelDirectory | _ => SelFile end).

Record TrzszTransferPolicy := mkPolicy {
  allow_directory : bool;
  max_chunk_bytes : Z;
  max_file_count : Z;
  max_total_bytes : Z
}.
Definition default_policy : TrzszTransferPolicy := mkPolicy true (1024 * 1024) 1024 (10 * 1024 * 1024 * 1024).

Definition TRZSZ_MAGIC_KEY_PREFIX : list Z := lit "::TRZSZ:TRANSFER:".
Definition MAGIC_DETECT_BUFFER_BYTES : Z := 128.

(** The position of the last occurrence of [p] in bytes:
    [windows(p.len()).rposition(..)]. *)
Fixpoint rposition (p s : list Z) : option nat :=
  match s with
  | [] => None
  | _ :: r => match rposition p r with
              | Some i => Some (S i)
              | None => if is_prefix p s then Some O else None
              end
  end.
Definition find_trzsz_magic_key_bytes (output : list Z) : option (list Z) :=
  if zlen output <? zlen TRZSZ_MAGIC_KEY_PREFIX then None
  else index ← rposition TRZSZ_MAGIC_KEY_PREFIX output; Some (from_utf8_lossy (drop index output)).
Definition find_trzsz_magic_key_str (output : list Z) : option (list Z) :=
  index ← str_rfind TRZSZ_MAGIC_KEY_PREFIX output 0; slice_from output index.

Section Parse.
(** [\d] of the regex crate. *)
Context (is_decimal : Z -> bool).

(** The longest run of digits, and the rest. *)
Fixpoint span_digits (s : list Z) : list Z * list Z :=
  match s with
  | c :: r => if is_decimal c then let '(d, q) := span_digits r in (c :: d, q) else ([], s)
  | [] => ([], [])
  end.
(** [\d+] followed by the rest of the pattern: nothing else in the pattern
    matches a digit, so the greedy run is the only match. *)
Definition digits1 (s : list Z) : option (list Z * list Z) :=
  match span_digits s with ([], _) => None | dq => Some dq end.
Definition char_then (c : Z) (s : list Z) : option (list Z) :=
  match s with x :: r => if x =? c then Some r else None | [] => None end.
(** [(:\d+)?]. *)
Definition colon_digits (s : list Z) : option (list Z * list Z) :=
  match char_then 58 s with
  | Some r => match digits1 r with Some (d, q) => Some (58 :: d, q) | None => None end
  | None => None
  end.

(** The pattern at one position: mode, version, unique id and the rest. *)
Definition match_at (s : list Z) : option (TrzszHandshakeMode * list Z * list Z * list Z) :=
  if is_prefix TRZSZ_MAGIC_KEY_PREFIX s then
    match drop (length TRZSZ_MAGIC_KEY_PREFIX) s with
    | m :: r =>
        mode ← from_protocol_char m;
        r ← char_then 58 r;
        '(major, r) ← digits1 r; r ← char_then 46 r;
        '(minor, r) ← digits1 r; r ← char_then 46 r;
        '(patch, r) ← digits1 r;
        let version := major ++ [46] ++ minor ++ [46] ++ patch in
        let '(unique_id, r) := default ([], r) (colon_digits r) in
        let '(_, r) := default ([], r) (colon_digits r) in
        Some (mode, version, unique_id, r)
    | [] => None
    end
  else None.
(** [Regex::captures]: the leftmost match. *)
Fixpoint captures (s : list Z) : option (TrzszHandshakeMode * list Z * list Z * list Z) :=
  match s with
  | [] => None
  | _ :: r => match match_at s with Some m => Some m | None => captures r end
  end.

Definition parse_trzsz_handshake (output : list Z) (is_windows_shell : bool) : option TrzszDetectedHandshake :=
  '(mode, version, unique_id, rest) ← captures output;
  if match rest with c :: _ => is_digit c | [] => false end then None
  else Some (from_parts mode version unique_id is_windows_shell).
End Parse.

(** [strip_server_output]: without escape sequences and final line ends; too
    long an output is not stripped. *)
Fixpoint strip_vt100 (skip : bool) (output : list Z) : list Z :=
  match output with
  | [] => []
  | c :: r =>
      if skip then strip_vt100 (negb (is_vt100_end c)) r
      else if c =? 0x1b then strip_vt100 true r
      else c :: strip_vt100 false r
  end.
Fixpoint drop_line_ends (r : list Z) : list Z :=
  match r with
  | c :: r' => if (c =? 13) || (c =? 10) then drop_line_ends r' else r
  | [] => []
  end.
Definition strip_server_output (output : list Z) : option (list Z) :=
  let buffer := reverse (drop_line_ends (reverse (strip_vt100 false output))) in
  if 100 <? zlen buffer then None else Some (from_utf8_lossy buffer).

(** ** The filter *)

Inductive TrzszFilterOutput :=
| WriteTerminal (bytes : list Z)
| SendServer (bytes : list Z)
| TransferData (bytes : list Z)
| StartTransfer (handshake : TrzszDetectedHandshake)
| CancelTransfer
| UploadTimedOut (message : list Z).

Record TrzszFilter := mkFilter {
  detect_tail : list Z;
  pending_detect_buffers : list (list Z);
  unique_ids : gmap (list Z) Z;
  transfer_active : bool;
  disposed : bool;
  upload_interrupting : bool;
  upload_skip_trz_command : bool;
  upload_init_pending : bool;
  upload_init_has_directory : bool;
  terminal_columns : Z;
  transfer_policy : TrzszTransferPolicy
}.

Definition new_filter (policy : TrzszTransferPolicy) : TrzszFilter :=
  mkFilter [] [] ∅ false false false false false false 80 policy.

Definition set_policy v (f : TrzszFilter) : TrzszFilter :=
  mkFilter (detect_tail f) (pending_detect_buffers f) (unique_ids f) (transfer_active f) (disposed f)
    (upload_interrupting f) (upload_skip_trz_command f) (upload_init_pending f)
    (upload_init_has_directory f) (terminal_columns f) v.
Definition set_detect tail buffers (f : TrzszFilter) : TrzszFilter :=
  mkFilter tail buffers (unique_ids f) (transfer_active f) (disposed f)
    (upload_interrupting f) (upload_skip_trz_command f) (upload_init_pending f)
    (upload_init_has_directory f) (terminal_columns f) (transfer_policy f).
Definition set_ids v (f : TrzszFilter) : TrzszFilter :=
  mkFilter (detect_tail f) (pending_detect_buffers f) v (transfer_active f) (disposed f)
    (upload_interrupting f) (upload_skip_trz_command f) (upload_init_pending f)
    (upload_init_has_directory f) (terminal_columns f) (transfer_policy f).
Definition set_active v (f : TrzszFilter) : TrzszFilter :=
  mkFilter (detect_tail f) (pending_detect_buffers f) (unique_ids f) v (disposed f)
    (upload_interrupting f) (upload_skip_trz_command f) (upload_init_pending f)
    (upload_init_has_directory f) (terminal_columns f) (transfer_policy f).
Definition set_upload interrupting skip pend dir (f : TrzszFilter) : TrzszFilter :=
  mkFilter (detect_tail f) (pending_detect_buffers f) (unique_ids f) (transfer_active f) (disposed f)
    interrupting skip pend dir (terminal_columns f) (transfer_policy f).

Definition update_transfer_policy (policy : TrzszTransferPolicy) (f : TrzszFilter) : TrzszFilter := set_policy policy f.
Definition set_terminal_columns (columns : Z) (f : TrzszFilter) : TrzszFilter :=
  if 0 <? columns
  then mkFilter (detect_tail f) (pending_detect_buffers f) (unique_ids f) (transfer_active f) (disposed f)
         (upload_interrupting f) (upload_skip_trz_command f) (upload_init_pending f)
         (upload_init_has_directory f) columns (transfer_policy f)
  else f.

Definition begin_transfer_for_detected_handshake (hs : TrzszDetectedHandshake) (f : TrzszFilter) : TrzszFilter :=
  mkFilter [] [] (unique_ids f) true (disposed f) (upload_interrupting f) (upload_skip_trz_command f)
    (if decide (direction hs = Upload) then false else upload_init_pending f)
    (upload_init_has_directory f) (terminal_columns f) (transfer_policy f).

Definition filter_finish_transfer (f : TrzszFilter) : TrzszFilter := set_active false f.

Definition dispose (f : TrzszFilter) : list TrzszFilterOutput * TrzszFilter :=
  if disposed f then ([], f)
  else ((if transfer_active f then [CancelTransfer] else []),
        mkFilter (detect_tail f) (pending_detect_buffers f) (unique_ids f) false true
          (upload_interrupting f) (upload_skip_trz_command f) false
          (upload_init_has_directory f) (terminal_columns f) (transfer_policy f)).

Definition queue_magic_detection (output : list Z) (f : TrzszFilter) : TrzszFilter :=
  let buffer := detect_tail f ++ output in
  let buffers := match find_trzsz_magic_key_bytes buffer with
                 | Some magic => pending_detect_buffers f ++ [magic]
                 | None => pending_detect_buffers f
                 end in
  let tail := if MAGIC_DETECT_BUFFER_BYTES <? zlen buffer
              then zdrop (zlen buffer - MAGIC_DETECT_BUFFER_BYTES) buffer else buffer in
  set_detect tail buffers f.

Definition filter_server_output (output : list Z) (f : TrzszFilter) : list TrzszFilterOutput * TrzszFilter :=
  if disposed f then ([], f)
  else if transfer_active f then ([TransferData output], f)
  else if upload_interrupting f then ([], f)
  else if upload_skip_trz_command f then
    let f := set_upload (upload_interrupting f) false (upload_init_pending f) (upload_init_has_directory f) f in
    let stripped := strip_server_output output in
    if bool_decide (stripped = Some (lit "trz")) || bool_decide (stripped = Some (lit "trz -d"))
    then ([WriteTerminal [13; 10]], f)
    else let terminal_output := match stripped with Some value => utf8_encode value | None => output end in
         ([WriteTerminal terminal_output], queue_magic_detection terminal_output f)
  else ([WriteTerminal output], queue_magic_detection output f).

Definition unique_id_exists (unique_id : list Z) (is_windows_shell : bool) (f : TrzszFilter)
    : bool * TrzszFilter :=
  if bool_decide (unique_id = []) then (false, f)
  else if negb is_windows_shell && (str_len unique_id =? 14) && ends_with unique_id [48; 48] then (false, f)
  else if bool_decide (is_Some (unique_ids f !! unique_id)) then (true, f)
  else
    let ids := if 100 <=? Z.of_nat (size (unique_ids f))
               then (fun index => index - 50) <$> filter (fun kv => 50 <= kv.2) (unique_ids f)
               else unique_ids f in
    (false, set_ids (<[unique_id := Z.of_nat (size ids)]> ids) f).

Section Filter.
Context (is_decimal : Z -> bool).

(** The [for] over the taken buffers; it ends with the first transfer. *)
Fixpoint drain_buffers (buffers : list (list Z)) (is_windows_shell : bool) (f : TrzszFilter)
    : list TrzszFilterOutput * TrzszFilter :=
  match buffers with
  | [] => ([], f)
  | buffer :: rest =>
      match parse_trzsz_handshake is_decimal buffer is_windows_shell with
      | None => drain_buffers rest is_windows_shell f
      | Some handshake =>
          let '(exists_, f) := unique_id_exists (unique_id handshake) is_windows_shell f in
          if exists_ then drain_buffers rest is_windows_shell f
          else ([StartTransfer handshake], begin_transfer_for_detected_handshake handshake f)
      end
  end.
Definition filter_drain (is_windows_shell : bool) (f : TrzszFilter) : list TrzszFilterOutput * TrzszFilter :=
  if disposed f || transfer_active f then ([], set_detect (detect_tail f) [] f)
  else drain_buffers (pending_detect_buffers f) is_windows_shell (set_detect (detect_tail f) [] f).
End Filter.

Definition filter_terminal_input (input : list Z) (f : TrzszFilter) : option TrzszFilterOutput :=
  if disposed f then None
  else if transfer_active f then if bool_decide (input = [3]) then Some CancelTransfer else None
  else Some (SendServer (utf8_encode input)).
(** [value as u32 as u8]. *)
Definition filter_binary_input (input : list Z) (f : TrzszFilter) : option TrzszFilterOutput :=
  if disposed f || transfer_active f then None
  else Some (SendServer (map (Prelude.wrap 8) input)).

Definition begin_upload_interrupt (has_directory : bool) (f : TrzszFilter)
    : option TrzszFilterOutput * TrzszFilter :=
  if disposed f || transfer_active f || upload_init_pending f then (None, f)
  else (Some (SendServer [3]), set_upload true (upload_skip_trz_command f) true has_directory f).
Definition finish_upload_interrupt (f : TrzszFilter) : option TrzszFilterOutput * TrzszFilter :=
  if disposed f || negb (upload_init_pending f) then (None, f)
  else (Some (SendServer (if upload_init_has_directory f then lit "trz -d" ++ [13] else lit "trz" ++ [13])),
        set_upload false true (upload_init_pending f) (upload_init_has_directory f) f).
Definition upload_init_timed_out (f : TrzszFilter) : option TrzszFilterOutput * TrzszFilter :=
  if negb (upload_init_pending f) then (None, f)
  else (Some (UploadTimedOut (lit "Upload does not start")),
        set_upload false false false (upload_init_has_directory f) f).

(** ** The consumer *)

Inductive TrzszConsumerEvent :=
| EvWriteTerminal (bytes : list Z)
| EvSendServer (bytes : list Z)
| EvTransferStarted (handshake : TrzszDetectedHandshake)
| EvTransferDataQueued
| EvTransferCancelRequested
| EvUploadTimedOut (message : list Z).

(** [transfers] are the transfer objects; [c_transfer] is the one the consumer
    owns, [transfer_input] the one whose buffer it can reach. *)
Record TrzszConsumer := mkConsumer {
  c_filter : TrzszFilter;
  transfers : list TrzszTransfer;
  c_transfer : option nat;
  transfer_input : option nat;
  server_writes : list (list Z);
  c_is_windows_shell : bool;
  c_max_data_chunk_size : Z
}.

Definition DEFAULT_MAX_DATA_CHUNK_SIZE : Z := 10 * 1024 * 1024.
(** [Ord::clamp]. *)
Definition clamp (lo hi x : Z) : Z := Z.min (Z.max x lo) hi.

Definition new_with_platform (policy : TrzszTransferPolicy) (windows : bool) (max_chunk : Z) : TrzszConsumer :=
  mkConsumer (new_filter policy) [] None None [] windows max_chunk.
Definition new_consumer (policy : TrzszTransferPolicy) : TrzszConsumer :=
  new_with_platform policy false (clamp 1024 DEFAULT_MAX_DATA_CHUNK_SIZE (max_chunk_bytes policy)).

Definition set_filter v (c : TrzszConsumer) : TrzszConsumer :=
  mkConsumer v (transfers c) (c_transfer c) (transfer_input c) (server_writes c) (c_is_windows_shell c)
    (c_max_data_chunk_size c).
Definition set_transfers v (c : TrzszConsumer) : TrzszConsumer :=
  mkConsumer (c_filter c) v (c_transfer c) (transfer_input c) (server_writes c) (c_is_windows_shell c)
    (c_max_data_chunk_size c).
Definition set_slots owned input (c : TrzszConsumer) : TrzszConsumer :=
  mkConsumer (c_filter c) (transfers c) owned input (server_writes c) (c_is_windows_shell c)
    (c_max_data_chunk_size c).

Definition is_transferring (c : TrzszConsumer) : bool :=
  (bool_decide (is_Some (c_transfer c)) || bool_decide (is_Some (transfer_input c)))
  && transfer_active (c_filter c).

Definition finish_transfer (c : TrzszConsumer) : TrzszConsumer :=
  set_filter (filter_finish_transfer (c_filter c)) (set_slots None None c).

(** Both ways to stop: through the owned transfer and through its input. *)
Definition stop_both (c : TrzszConsumer) : TrzszConsumer :=
  let ts := match c_transfer c with
            | Some k => alter stop_transferring k (transfers c)
            | None => transfers c
            end in
  let ts := match transfer_input c with
            | Some k => alter input_stop_transferring k ts
            | None => ts
            end in
  set_transfers ts c.
Definition interrupt_transfer (c : TrzszConsumer) : TrzszConsumer := finish_transfer (stop_both c).

(** The worker thread takes the transfer; the input handle stays. *)
Definition take_active_transfer (c : TrzszConsumer) : option nat * TrzszConsumer :=
  (c_transfer c, set_slots None (transfer_input c) c).

Definition consumer_update_policy (policy : TrzszTransferPolicy) (c : TrzszConsumer) : TrzszConsumer :=
  mkConsumer (update_transfer_policy policy (c_filter c)) (transfers c) (c_transfer c) (transfer_input c)
    (server_writes c) (c_is_windows_shell c)
    (clamp 1024 DEFAULT_MAX_DATA_CHUNK_SIZE (max_chunk_bytes policy)).

Definition take_server_writes (c : TrzszConsumer) : list (list Z) * TrzszConsumer :=
  (server_writes c,
   mkConsumer (c_filter c) (transfers c) (c_transfer c) (transfer_input c) [] (c_is_windows_shell c)
     (c_max_data_chunk_size c)).

Definition start_transfer (hs : TrzszDetectedHandshake) (c : TrzszConsumer) : TrzszConsumer :=
  let t := set_remote_platform (hs_remote_is_windows hs)
             (new_transfer (c_is_windows_shell c) (c_max_data_chunk_size c)) in
  let k := length (transfers c) in
  set_slots (Some k) (Some k) (set_transfers (transfers c ++ [t]) c).

(** One turn of [consume_filter_outputs]. *)
Definition consume_output (c : TrzszConsumer) (out : TrzszFilterOutput) : TrzszConsumerEvent * TrzszConsumer :=
  match out with
  | WriteTerminal bytes => (EvWriteTerminal bytes, c)
  | SendServer bytes => (EvSendServer bytes, c)
  | TransferData bytes =>
      (EvTransferDataQueued,
       match c_transfer c with
       | Some k => set_transfers (alter (add_received_data bytes) k (transfers c)) c
       | None => match transfer_input c with
                 | Some k => set_transfers (alter (input_add_received_data bytes) k (transfers c)) c
                 | None => c
                 end
       end)
  | StartTransfer hs => (EvTransferStarted hs, start_transfer hs c)
  | CancelTransfer => (EvTransferCancelRequested, stop_both c)
  | UploadTimedOut m => (EvUploadTimedOut m, c)
  end.
Fixpoint consume_filter_outputs (outputs : list TrzszFilterOutput) (c : TrzszConsumer)
    : list TrzszConsumerEvent * TrzszConsumer :=
  match outputs with
  | [] => ([], c)
  | out :: rest =>
      let '(ev, c) := consume_output c out in
      let '(evs, c) := consume_filter_outputs rest c in
      (ev :: evs, c)
  end.

Definition process_server_output (output : list Z) (c : TrzszConsumer) : list TrzszConsumerEvent * TrzszConsumer :=
  let '(out, f) := filter_server_output output (c_filter c) in
  consume_filter_outputs out (set_filter f c).
Definition drain_detected_handshakes (is_decimal : Z -> bool) (c : TrzszConsumer)
    : list TrzszConsumerEvent * TrzszConsumer :=
  let '(out, f) := filter_drain is_decimal (c_is_windows_shell c) (c_filter c) in
  consume_filter_outputs out (set_filter f c).
Definition consume_option (out : option TrzszFilterOutput) (c : TrzszConsumer)
    : list TrzszConsumerEvent * TrzszConsumer :=
  match out with Some o => consume_filter_outputs [o] c | None => ([], c) end.
Definition process_terminal_input (input : list Z) (c : TrzszConsumer) : list TrzszConsumerEvent * TrzszConsumer :=
  consume_option (filter_terminal_input input (c_filter c)) c.
Definition process_binary_input (input : list Z) (c : TrzszConsumer) : list TrzszConsumerEvent * TrzszConsumer :=
  consume_option (filter_binary_input input (c_filter c)) c.
Definition consumer_begin_upload (has_directory : bool) (c : TrzszConsumer) : list TrzszConsumerEvent * TrzszConsumer :=
  let '(out, f) := begin_upload_interrupt has_directory (c_filter c) in consume_option out (set_filter f c).
Definition consumer_finish_upload (c : TrzszConsumer) : list TrzszConsumerEvent * TrzszConsumer :=
  let '(out, f) := finish_upload_interrupt (c_filter c) in consume_option out (set_filter f c).
Definition consumer_upload_timed_out (c : TrzszConsumer) : list TrzszConsumerEvent * TrzszConsumer :=
  let '(out, f) := upload_init_timed_out (c_filter c) in consume_option out (set_filter f c).

(** The worker runs part of the protocol on transfer [k]; what it writes goes
    to the shared list. *)
Definition worker_run {A} (k : nat) (m : TM A) (c : TrzszConsumer) : option (result halt A * TrzszConsumer) :=
  match transfers c !! k with
  | None => None
  | Some t =>
      match m t with
      | Some (r, t') =>
          Some (r, mkConsumer (c_filter c) (<[k := t']> (transfers c)) (c_transfer c) (transfer_input c)
                     (server_writes c ++ drop (length (written t)) (written t'))
                     (c_is_windows_shell c) (c_max_data_chunk_size c))
      | None => None
      end
  end.

(** ** The controller *)

Inductive TrzszControllerState := Active | Draining | Disposed.
#[export] Instance TrzszControllerState_eq : EqDecision TrzszControllerState.
Proof. solve_decision. Defined.

Record TrzszCapabilities := mkCapabilities { api_version : Z; provider : list Z }.
Inductive TrzszCapabilitiesProbeResult :=
| Available (c : TrzszCapabilities)
| Unavailable (reason : list Z) (detail : option (list Z)).

Definition TRZSZ_API_VERSION : Z := 1.

Record TrzszController := mkController {
  session_id : list Z;
  connection_id : list Z;
  runtime_id : list Z;
  owner_id : list Z;
  ctl_state : TrzszControllerState;
  capability_request_version : Z;
  capabilities : TrzszCapabilitiesProbeResult;
  capability_error : option TrzszError;
  allow_cleanup_protocol : bool;
  ctl_filter : TrzszFilter
}.
Definition new_controller (session connection runtime owner : list Z) (policy : TrzszTransferPolicy) : TrzszController :=
  mkController session connection runtime owner Active 0 (Unavailable (lit "invoke-failed") None) None false
    (new_filter policy).

Definition matches_runtime (connection runtime : list Z) (c : TrzszController) : bool :=
  bool_decide (connection_id c = connection) && bool_decide (runtime_id c = runtime).

Definition set_ctl_filter v (c : TrzszController) : TrzszController :=
  mkController (session_id c) (connection_id c) (runtime_id c) (owner_id c) (ctl_state c)
    (capability_request_version c) (capabilities c) (capability_error c) (allow_cleanup_protocol c) v.

Definition controller_set_columns (columns : Z) (c : TrzszController) : TrzszController :=
  if 0 <? columns then set_ctl_filter (set_terminal_columns columns (ctl_filter c)) c else c.
Definition controller_update_policy (policy : TrzszTransferPolicy) (c : TrzszController) : TrzszController :=
  set_ctl_filter (update_transfer_policy policy (ctl_filter c)) c.

Definition validate_capabilities (probe : TrzszCapabilitiesProbeResult) : option TrzszError :=
  match probe with
  | Available cap =>
      if negb (bool_decide (provider cap = lit "trzsz")) || negb (api_version cap =? TRZSZ_API_VERSION)
      then Some (InvalidApiVersion TRZSZ_API_VERSION (api_version cap)) else None
  | Unavailable _ _ => None
  end.

Definition refresh_capabilities (probe : TrzszCapabilitiesProbeResult) (c : TrzszController) : TrzszController :=
  if decide (ctl_state c = Disposed) then c
  else mkController (session_id c) (connection_id c) (runtime_id c) (owner_id c) (ctl_state c)
         (capability_request_version c + 1) probe (validate_capabilities probe)
         (allow_cleanup_protocol c) (ctl_filter c).

(** [clone_capability_error] with the messages of the errors. *)
Definition wait_for_transfer_ready (to_string : TrzszError -> list Z) (c : TrzszController)
    : result TrzszError unit :=
  match capability_error c with
  | Some (InvalidApiVersion expected got) => Err (InvalidApiVersion expected got)
  | Some e => Err (InvalidState (to_string e))
  | None => Ok tt
  end.

Definition can_process_io (c : TrzszController) : bool := bool_decide (ctl_state c = Active).
Definition controller_server_output (output : list Z) (c : TrzszController) : list TrzszFilterOutput * TrzszController :=
  if negb (can_process_io c) then ([], c)
  else let '(out, f) := filter_server_output output (ctl_filter c) in (out, set_ctl_filter f c).
Definition controller_terminal_input (input : list Z) (c : TrzszController) : option TrzszFilterOutput :=
  if negb (can_process_io c) then None else filter_terminal_input input (ctl_filter c).
Definition controller_binary_input (input : list Z) (c : TrzszController) : option TrzszFilterOutput :=
  if negb (can_process_io c) then None else filter_binary_input input (ctl_filter c).

Definition controller_stop (c : TrzszController) : list TrzszFilterOutput * TrzszController :=
  if decide (ctl_state c = Disposed) then ([], c)
  else let '(out, f) := dispose (ctl_filter c) in
       (out, mkController (session_id c) (connection_id c) (runtime_id c) (owner_id c) Draining
               (capability_request_version c) (capabilities c) (capability_error c) true f).
Definition controller_dispose (c : TrzszController) : list TrzszFilterOutput * TrzszController :=
  if decide (ctl_state c = Disposed) then ([], c)
  else let '(out, f) := dispose (ctl_filter c) in
       (out, mkController (session_id c) (connection_id c) (runtime_id c) (owner_id c) Disposed
               (capability_request_version c + 1) (capabilities c) (capability_error c) true f).
Definition finish_cleanup_protocol (c : TrzszController) : TrzszController :=
  mkController (session_id c) (connection_id c) (runtime_id c) (owner_id c) (ctl_state c)
    (capability_request_version c) (capabilities c) (capability_error c) false (ctl_filter c).
Definition can_send_cleanup_protocol (c : TrzszController) : bool :=
  bool_decide (ctl_state c = Active) || allow_cleanup_protocol c.

(** ** Remembered handshakes *)

(** The map as the list of its keys, oldest first: the value of a key is its
    position. *)
Definition ids_rep (ids : gmap (list Z) Z) (l : list (list Z)) : Prop :=
  NoDup l /\ forall k i, ids !! k = Some i <-> exists n, i = Z.of_nat n /\ l !! n = Some k.

(** The specification: a list of ids that forgets its older half when it holds
    a hundred. *)
Definition remember (l : list (list Z)) (k : list Z) : bool * list (list Z) :=
  if decide (k ∈ l) then (true, l)
  else (false, (if (100 <=? length l)%nat then drop 50 l else l) ++ [k]).
(** Ids that are not remembered at all. *)
Definition exempt (unique_id : list Z) (is_windows_shell : bool) : bool :=
  bool_decide (unique_id = [])
  || (negb is_windows_shell && (str_len unique_id =? 14) && ends_with unique_id [48; 48]).

Lemma ids_rep_dom ids l : ids_rep ids l -> dom ids = list_to_set l.
Proof.
  intros [_ Hl]. apply set_eq. intros k. rewrite elem_of_dom, elem_of_list_to_set, list_elem_of_lookup. split.
  - intros [i Hi]. apply Hl in Hi as (n & _ & Hn). eauto.
  - intros [n Hn]. exists (Z.of_nat n). apply Hl. eauto.
Qed.
Lemma ids_rep_size ids l : ids_rep ids l -> size ids = length l.
Proof.
  intros Hr. rewrite <-size_dom, (ids_rep_dom ids l Hr). apply size_list_to_set, Hr.
Qed.
Lemma ids_rep_in ids l k : ids_rep ids l -> is_Some (ids !! k) <-> k ∈ l.
Proof. intros Hr. rewrite <-elem_of_dom, (ids_rep_dom ids l Hr). apply elem_of_list_to_set. Qed.

Lemma ids_rep_insert ids l k :
  ids_rep ids l -> k ∉ l -> ids_rep (<[k := Z.of_nat (size ids)]> ids) (l ++ [k]).
Proof.
  intros Hr Hk. rewrite (ids_rep_size ids l Hr). destruct Hr as [Hnd Hl]. split.
  - apply NoDup_app. split_and!; [done| |apply NoDup_singleton].
    intros x Hx ->%list_elem_of_singleton. done.
  - intros k' i. destruct (decide (k' = k)) as [->|Hne].
    + rewrite lookup_insert_eq. split.
      * intros [= <-]. exists (length l). split; [done|]. by apply list_lookup_middle.
      * intros (n & -> & Hn). apply lookup_app_Some in Hn as [Hn|[Hge Hn]].
        -- by apply list_elem_of_lookup_2 in Hn.
        -- apply list_lookup_singleton_Some in Hn as [Hz _]. do 2 f_equal. lia.
    + rewrite lookup_insert_ne by done. rewrite Hl. split; intros (n & -> & Hn); exists n; (split; [done|]).
      * by apply lookup_app_l_Some.
      * apply lookup_app_Some in Hn as [Hn|[_ Hn]]; [done|].
        apply list_lookup_singleton_Some in Hn as [_ Hn]. congruence.
Qed.

Lemma ids_rep_purge ids l :
  ids_rep ids l -> ids_rep ((fun index => index - 50) <$> filter (fun kv => 50 <= kv.2) ids) (drop 50 l).
Proof.
  intros [Hnd Hl]. split; [by apply (sublist_NoDup _ l); [|apply sublist_drop]|].
  intros k i. rewrite lookup_fmap_Some. split.
  - intros (j & <- & Hj). apply map_lookup_filter_Some in Hj as [Hj Hge]. cbn in Hge.
    apply Hl in Hj as (n & -> & Hn). exists (n - 50)%nat. split; [lia|].
    rewrite lookup_drop. by replace (50 + (n - 50))%nat with n by lia.
  - intros (n & -> & Hn). rewrite lookup_drop in Hn. exists (Z.of_nat (50 + n)). split; [lia|].
    apply map_lookup_filter_Some. split; [apply Hl; eauto|]. cbn. lia.
Qed.

(** [unique_id_exists] implements the specification. *)
Lemma unique_id_refines f l k win :
  ids_rep (unique_ids f) l ->
  let '(seen, f') := unique_id_exists k win f in
  if exempt k win then seen = false /\ f' = f
  else let '(seen', l') := remember l k in seen = seen' /\ ids_rep (unique_ids f') l'.
Proof.
  intros Hr. unfold unique_id_exists, exempt. destruct (bool_decide (k = [])); [done|]. cbn [orb].
  destruct (negb win && (str_len k =? 14) && ends_with k [48; 48]); [done|].
  pose proof (ids_rep_in _ _ k Hr) as Hin. unfold remember. case_bool_decide as Hs.
  - by rewrite decide_True by tauto.
  - rewrite decide_False by tauto. cbn [unique_ids set_ids]. split; [done|].
    rewrite (ids_rep_size _ _ Hr). destruct (Nat.leb_spec 100 (length l)) as [Hge|Hlt].
    + rewrite (proj2 (Z.leb_le _ _)) by lia. apply ids_rep_insert; [by apply ids_rep_purge|].
      intros Hk. apply Hs, Hin. apply list_elem_of_lookup in Hk as [n Hn].
      rewrite lookup_drop in Hn. by apply list_elem_of_lookup_2 in Hn.
    + rewrite (proj2 (Z.leb_gt _ _)) by lia. apply ids_rep_insert; [done|]. tauto.
Qed.

(** The ids after a sequence of handshakes. *)
Definition remember_all (l : list (list Z)) (ks : list (list Z)) : list (list Z) :=
  fold_left (fun l x => (remember l x).2) ks l.

Lemma remember_length l x : (length l <= 100)%nat -> (length (remember l x).2 <= 100)%nat.
Proof.
  intros Hl. unfold remember. case_decide; [done|]. cbn [snd]. rewrite length_app. cbn [length].
  destruct (Nat.leb_spec 100 (length l)); [rewrite length_drop|]; lia.
Qed.

(** [k] is at most [a] places from the end. *)
Definition recent (k : list Z) (a : nat) (l : list (list Z)) : Prop :=
  exists n, l !! n = Some k /\ (length l <= n + a)%nat.

Lemma recent_remember k a l x :
  (length l <= 100)%nat -> (a <= 50)%nat -> recent k a l -> recent k (S a) (remember l x).2.
Proof.
  intros Hl Ha (n & Hn & Hlen). unfold remember. case_decide; cbn [snd]; [exists n; split; [done|lia]|].
  destruct (Nat.leb_spec 100 (length l)).
  - exists (n - 50)%nat. rewrite length_app, length_drop. cbn [length]. split; [|lia].
    apply lookup_app_l_Some. rewrite lookup_drop. by replace (50 + (n - 50))%nat with n by lia.
  - exists n. rewrite length_app. cbn [length]. split; [by apply lookup_app_l_Some|lia].
Qed.

Lemma recent_remember_all k ks : forall a l,
  (length l <= 100)%nat -> (a + length ks <= 51)%nat -> recent k a l -> recent k (a + length ks) (remember_all l ks).
Proof.
  induction ks as [|x ks IH]; intros a l Hl Ha Hr; cbn in *; [by rewrite Nat.add_0_r|].
  rewrite <-Nat.add_succ_comm. apply IH; [by apply remember_length|lia|]. apply recent_remember; [done|lia|done].
Qed.

(** A handshake that was accepted is refused when it comes again before fifty
    others have been accepted. *)
Lemma remember_replay l k l1 ks :
  (length l <= 100)%nat -> remember l k = (false, l1) -> (length ks <= 50)%nat ->
  (remember (remember_all l1 ks) k).1 = true.
Proof.
  intros Hl Hk Hks. assert (Hin : k ∈ remember_all l1 ks).
  { assert (Hr : recent k 1 l1).
    { unfold remember in Hk. case_decide; [done|]. simplify_eq.
      exists (length (if (100 <=? length l)%nat then drop 50 l else l)). split; [by apply list_lookup_middle|].
      rewrite length_app. cbn [length]. lia. }
    destruct (recent_remember_all k ks 1 l1) as (n & Hn & _); [|lia|done|by apply list_elem_of_lookup_2 in Hn].
    pose proof (remember_length l k Hl) as H1. by rewrite Hk in H1. }
  unfold remember. by rewrite decide_True.
Qed.

(** ** Detection across chunks *)

Lemma is_prefix_true p s : is_prefix p s = true <-> exists k, s = p ++ k.
Proof.
  split.
  - revert s. induction p as [|x p IH]; intros s Hp; [by exists s|]. destruct s as [|y s]; [done|]. cbn in Hp.
    apply andb_true_iff in Hp as [Hx%Z.eqb_eq Hp]. destruct (IH s Hp) as [k ->]. subst y. by exists k.
  - intros [k ->]. apply is_prefix_app.
Qed.

(** An occurrence found in a suffix is the one found in the whole. *)
Lemma rposition_suffix p a s i : rposition p s = Some i -> rposition p (a ++ s) = Some (length a + i)%nat.
Proof. intros Hs. induction a as [|x a IH]; [done|]. cbn. by rewrite IH. Qed.

Lemma rposition_drop p s i j :
  rposition p s = Some i -> (j <= i)%nat -> rposition p (drop j s) = Some (i - j)%nat.
Proof.
  revert i j. induction s as [|c s IH]; intros i j Hs Hj; [done|]. destruct j as [|j]; [by rewrite Nat.sub_0_r|].
  cbn in Hs |- *. destruct (rposition p s) as [i'|] eqn:E; [|case_match; simplify_eq; lia].
  simplify_eq. rewrite (IH i' j) by (done || lia). f_equal.
Qed.

Lemma rposition_prefix p s i : rposition p s = Some i -> exists k, drop i s = p ++ k.
Proof.
  revert i. induction s as [|c s IH]; intros i Hs; [done|]. cbn in Hs.
  destruct (rposition p s) as [i'|] eqn:E; [simplify_eq; cbn; by apply IH|].
  destruct (is_prefix p (c :: s)) eqn:Ep; [|done]. simplify_eq. by apply is_prefix_true in Ep.
Qed.

(** The filter is looking for handshakes. *)
Definition watching (f : TrzszFilter) : Prop :=
  disposed f = false /\ transfer_active f = false /\ upload_interrupting f = false
  /\ upload_skip_trz_command f = false.

(** The tail is the end of the stream since the filter last started afresh. *)
Definition tail_of (stream tail : list Z) : Prop :=
  exists a, stream = a ++ tail /\ (length tail <= 128)%nat /\ (a = [] \/ length tail = 128)%nat.

Lemma queue_magic_tail output f stream :
  tail_of stream (detect_tail f) ->
  tail_of (stream ++ output) (detect_tail (queue_magic_detection output f)).
Proof.
  intros (a & -> & Hlen & Ha). unfold queue_magic_detection. cbn [detect_tail set_detect].
  set (buffer := detect_tail f ++ output). unfold MAGIC_DETECT_BUFFER_BYTES.
  destruct (Z.ltb_spec 128 (zlen buffer)) as [Hlt|Hge]; unfold zlen in *.
  - exists (a ++ take (Z.to_nat (Z.of_nat (length buffer) - 128)) buffer). unfold zdrop.
    split_and!; [by rewrite <-!app_assoc, take_drop|rewrite length_drop; lia|right; rewrite length_drop; lia].
  - exists a. rewrite <-app_assoc. split_and!; [done|lia|]. destruct Ha as [->|Ha]; [by left|].
    right. subst buffer. rewrite length_app in *. lia.
Qed.

(** The last magic key of the whole stream is found when its key starts among
    the last 128 bytes before the output. *)
Lemma queue_magic_finds output f stream i :
  tail_of stream (detect_tail f) -> rposition TRZSZ_MAGIC_KEY_PREFIX (stream ++ output) = Some i ->
  (length stream <= i + 128)%nat ->
  pending_detect_buffers (queue_magic_detection output f)
  = pending_detect_buffers f ++ [from_utf8_lossy (drop i (stream ++ output))].
Proof.
  intros (a & -> & Hlen & Ha) Hr Hi. unfold queue_magic_detection. cbn [pending_detect_buffers set_detect].
  rewrite <-app_assoc in *. set (buffer := detect_tail f ++ output) in *.
  assert (Hai : (length a <= i)%nat).
  { destruct Ha as [->|Ha]; [simpl; lia|]. rewrite length_app in Hi. lia. }
  assert (Hb : rposition TRZSZ_MAGIC_KEY_PREFIX buffer = Some (i - length a)%nat).
  { rewrite <-(drop_app_length a buffer). by apply rposition_drop. }
  assert (Hd : drop i (a ++ buffer) = drop (i - length a) buffer) by by rewrite drop_app_ge by lia.
  unfold find_trzsz_magic_key_bytes.
  rewrite (proj2 (Z.ltb_ge _ _)).
  - rewrite Hb. cbn [mbind option_bind]. by rewrite Hd.
  - apply rposition_prefix in Hb as [k Hk]. apply (f_equal length) in Hk. rewrite length_drop, length_app in Hk.
    unfold zlen. lia.
Qed.

(** Output while watching: everything goes to the terminal. *)
Lemma watching_output output f :
  watching f -> filter_server_output output f = ([WriteTerminal output], queue_magic_detection output f)
  /\ watching (queue_magic_detection output f).
Proof.
  intros (H1 & H2 & H3 & H4). unfold filter_server_output. by rewrite H1, H2, H3, H4.
Qed.

(** ** Properties *)

(** The remembered ids are at most a hundred, each with its own position. *)
Definition ids_ok (f : TrzszFilter) : Prop :=
  exists l, ids_rep (unique_ids f) l /\ (length l <= 100)%nat.

Lemma ids_ok_new policy : ids_ok (new_filter policy).
Proof.
  exists []. split; [|simpl; lia]. split; [constructor|]. intros k i. cbn. rewrite lookup_empty.
  split; [done|]. by intros (n & _ & ?).
Qed.

Definition see_all (win : bool) (ks : list (list Z)) (f : TrzszFilter) : TrzszFilter :=
  fold_left (fun f k => (unique_id_exists k win f).2) ks f.

Lemma see_all_rep win ks : forall f l, ids_rep (unique_ids f) l -> (length l <= 100)%nat ->
  exists ks', (length ks' <= length ks)%nat /\ ids_rep (unique_ids (see_all win ks f)) (remember_all l ks')
  /\ (length (remember_all l ks') <= 100)%nat.
Proof.
  induction ks as [|k ks IH]; intros f l Hr Hl; [by exists []|].
  pose proof (unique_id_refines f l k win Hr) as Hu. cbn [see_all fold_left].
  destruct (unique_id_exists k win f) as [seen f'] eqn:E. destruct (exempt k win).
  - destruct Hu as [_ ->]. destruct (IH f l Hr Hl) as (ks' & ? & ?). exists ks'. cbn [snd length]. split; [lia|done].
  - destruct (remember l k) as [seen' l'] eqn:El. destruct Hu as [_ Hr'].
    pose proof (remember_length l k Hl) as Hl'. rewrite El in Hl'.
    destruct (IH f' l' Hr' Hl') as (ks' & ? & ?). exists (k :: ks'). cbn [snd length remember_all fold_left].
    rewrite El. split; [lia|done].
Qed.

(** a handshake is not replayed.  Once an id has been accepted, it is
    refused as long as no more than fifty other handshakes came in between,
    in whatever order they repeat, although the table is cut to its newer
    half when it holds a hundred. *)
Theorem trzsz_replay_refused (f : TrzszFilter) (k : list Z) (win : bool) (ks : list (list Z)) :
  ids_ok f -> exempt k win = false -> (unique_id_exists k win f).1 = false -> (length ks <= 50)%nat ->
  (unique_id_exists k win (see_all win ks (unique_id_exists k win f).2)).1 = true.
Proof.
  intros (l & Hr & Hl) Hex Hacc Hks. pose proof (unique_id_refines f l k win Hr) as Hu.
  destruct (unique_id_exists k win f) as [seen f1]. cbn [fst snd] in *. subst seen. rewrite Hex in Hu.
  destruct (remember l k) as [seen' l1] eqn:El. destruct Hu as [<- Hr1].
  pose proof (remember_length l k Hl) as Hl1. rewrite El in Hl1.
  destruct (see_all_rep win ks f1 l1 Hr1 Hl1) as (ks' & Hks' & Hr2 & Hl2).
  pose proof (unique_id_refines _ _ k win Hr2) as Hu2.
  destruct (unique_id_exists k win (see_all win ks f1)) as [seen2 f2]. rewrite Hex in Hu2.
  pose proof (remember_replay l k l1 ks' Hl El ltac:(lia)) as Hrep.
  destruct (remember (remember_all l1 ks') k) as [seen3 l3]. cbn [fst] in *. destruct Hu2 as [-> _]. done.
Qed.

Lemma trzsz_replay_refused_witness :
  (unique_id_exists (lit ":7") false
     (see_all false [lit ":8"; lit ":9"] (unique_id_exists (lit ":7") false (new_filter default_policy)).2)).1 = true.
Proof.
  apply (trzsz_replay_refused (new_filter default_policy) (lit ":7") false [lit ":8"; lit ":9"]).
  - apply ids_ok_new.
  - reflexivity.
  - reflexivity.
  - apply Nat.leb_le. reflexivity.
Defined.

(** the handshake is found however the output is cut.  While the filter
    watches, all output goes to the terminal unchanged; if the last magic key
    of the whole stream begins no more than 128 bytes before the latest chunk,
    draining parses the stream from that key on, and a handshake whose id is
    new starts a transfer, clears the tail and activates the filter. *)
Theorem trzsz_handshake_detected (is_decimal : Z -> bool) (f : TrzszFilter) (stream output : list Z) (i : nat)
    (win : bool) (hs : TrzszDetectedHandshake) :
  watching f -> tail_of stream (detect_tail f) -> pending_detect_buffers f = [] ->
  rposition TRZSZ_MAGIC_KEY_PREFIX (stream ++ output) = Some i -> (length stream <= i + 128)%nat ->
  parse_trzsz_handshake is_decimal (from_utf8_lossy (drop i (stream ++ output))) win = Some hs ->
  (unique_id_exists (unique_id hs) win f).1 = false ->
  exists f', filter_server_output output f = ([WriteTerminal output], f')
  /\ tail_of (stream ++ output) (detect_tail f')
  /\ exists f'', filter_drain is_decimal win f' = ([StartTransfer hs], f'')
     /\ transfer_active f'' = true /\ detect_tail f'' = [] /\ pending_detect_buffers f'' = [].
Proof.
  intros Hw Ht Hp Hr Hi Hparse Hnew. destruct (watching_output output f Hw) as [Hrun Hw'].
  exists (queue_magic_detection output f). split; [done|]. split; [by apply queue_magic_tail|].
  destruct Hw' as (Hd & Ha & _). unfold filter_drain. rewrite Hd, Ha. cbn [orb].
  rewrite (queue_magic_finds output f stream i Ht Hr Hi), Hp. cbn [app drain_buffers]. rewrite Hparse.
  unfold unique_id_exists in *. cbn [unique_ids set_detect queue_magic_detection].
  repeat case_match; simplify_eq/=; try done; eexists; split_and!; reflexivity.
Qed.

Lemma trzsz_handshake_detected_witness : exists f',
  filter_server_output (lit ":7 ok") (queue_magic_detection (lit "x ::TRZSZ:TRANSFER:R:1.1.6") (new_filter default_policy))
  = ([WriteTerminal (lit ":7 ok")], f').
Proof.
  set (f := set_detect (lit "x ::TRZSZ:TRANSFER:R:1.1.6") [] (new_filter default_policy)).
  destruct (trzsz_handshake_detected is_digit f (lit "x ::TRZSZ:TRANSFER:R:1.1.6") (lit ":7 ok") 2 false
              (from_parts Receive (lit "1.1.6") (lit ":7") false)) as (f' & Hrun & _).
  - by split_and!.
  - exists []. split_and!; [reflexivity|apply Nat.leb_le; reflexivity|by left].
  - reflexivity.
  - reflexivity.
  - apply Nat.leb_le. reflexivity.
  - reflexivity.
  - reflexivity.
  - eexists. vm_compute. reflexivity.
Defined.

(** ** One transfer at a time *)

(** The consumer's operations apart from ending a transfer. *)
Inductive consumer_op :=
| OpServer (output : list Z)
| OpDrain
| OpInput (input : list Z)
| OpBinary (input : list Z)
| OpBeginUpload (has_directory : bool)
| OpFinishUpload
| OpUploadTimeout
| OpTake
| OpTakeWrites
| OpPolicy (policy : TrzszTransferPolicy).

Section Ops.
Context (is_decimal : Z -> bool).

Definition run_op (op : consumer_op) (c : TrzszConsumer) : list TrzszConsumerEvent * TrzszConsumer :=
  match op with
  | OpServer output => process_server_output output c
  | OpDrain => drain_detected_handshakes is_decimal c
  | OpInput input => process_terminal_input input c
  | OpBinary input => process_binary_input input c
  | OpBeginUpload dir => consumer_begin_upload dir c
  | OpFinishUpload => consumer_finish_upload c
  | OpUploadTimeout => consumer_upload_timed_out c
  | OpTake => ([], (take_active_transfer c).2)
  | OpTakeWrites => ([], (take_server_writes c).2)
  | OpPolicy policy => ([], consumer_update_policy policy c)
  end.
Fixpoint run_ops (ops : list consumer_op) (c : TrzszConsumer) : list TrzszConsumerEvent * TrzszConsumer :=
  match ops with
  | [] => ([], c)
  | op :: rest => let '(evs, c) := run_op op c in
                  let '(evs', c) := run_ops rest c in (evs ++ evs', c)
  end.

Definition is_start (ev : TrzszConsumerEvent) : bool :=
  match ev with EvTransferStarted _ => true | _ => false end.
Definition starts (evs : list TrzszConsumerEvent) : nat := length (List.filter is_start evs).

(** What one operation does to the transfer: it starts one only from an idle
    filter, and never ends one. *)
Definition op_effect (c c' : TrzszConsumer) (evs : list TrzszConsumerEvent) : Prop :=
  (starts evs = 0%nat /\ (transfer_active (c_filter c) = true -> transfer_active (c_filter c') = true))
  \/ (starts evs = 1%nat /\ transfer_active (c_filter c) = false /\ transfer_active (c_filter c') = true).

Lemma drain_buffers_effect buffers win f :
  (exists f', drain_buffers is_decimal buffers win f = ([], f') /\ transfer_active f' = transfer_active f)
  \/ exists hs f', drain_buffers is_decimal buffers win f = ([StartTransfer hs], f') /\ transfer_active f' = true.
Proof.
  revert f. induction buffers as [|b buffers IH]; intros f; cbn [drain_buffers]; [by left; exists f|].
  destruct (parse_trzsz_handshake _ b win) as [hs|]; [|apply IH].
  destruct (unique_id_exists (unique_id hs) win f) as [seen f'] eqn:E.
  assert (Ha : transfer_active f' = transfer_active f).
  { unfold unique_id_exists in E. repeat case_match; simplify_eq/=; done. }
  destruct seen; [|right; by exists hs, (begin_transfer_for_detected_handshake hs f')].
  rewrite <-Ha. apply IH.
Qed.

Lemma consume_output_filter c out : c_filter (consume_output c out).2 = c_filter c.
Proof. destruct out; cbn; repeat case_match; done. Qed.
Lemma consume_option_effect out c c0 :
  (forall hs, out <> Some (StartTransfer hs)) ->
  (transfer_active (c_filter c0) = true -> transfer_active (c_filter c) = true) ->
  op_effect c0 (consume_option out c).2 (consume_option out c).1.
Proof.
  intros Hout Ha. left. destruct out as [o|]; [|done]. cbn [consume_option consume_filter_outputs].
  pose proof (consume_output_filter c o) as Hf. destruct (consume_output c o) as [ev c'] eqn:E.
  cbn [fst snd] in *. rewrite Hf. split; [|done].
  destruct o; simplify_eq/=; try done. by destruct (Hout handshake).
Qed.

Lemma run_op_effect op c : op_effect c (run_op op c).2 (run_op op c).1.
Proof.
  destruct op; cbn [run_op].
  - unfold process_server_output, filter_server_output. left.
    repeat case_match; simplify_eq/=; repeat case_match; simplify_eq/=; auto; by split.
  - unfold drain_detected_handshakes, filter_drain.
    destruct (disposed (c_filter c) || transfer_active (c_filter c)) eqn:Ed; [by left|].
    apply orb_false_iff in Ed as [_ Ea].
    destruct (drain_buffers_effect (pending_detect_buffers (c_filter c)) (c_is_windows_shell c)
                (set_detect (detect_tail (c_filter c)) [] (c_filter c)))
      as [(f' & -> & Hf)|(hs & f' & -> & Hf)]; cbn in *; [left|right];
      split_and?; try done; congruence.
  - apply consume_option_effect; [|done]. intros hs. unfold filter_terminal_input. repeat case_match; done.
  - apply consume_option_effect; [|done]. intros hs. unfold filter_binary_input. repeat case_match; done.
  - unfold consumer_begin_upload, begin_upload_interrupt.
    destruct (_ || upload_init_pending (c_filter c)); apply consume_option_effect; done.
  - unfold consumer_finish_upload, finish_upload_interrupt.
    destruct (_ || negb (upload_init_pending (c_filter c))); apply consume_option_effect; done.
  - unfold consumer_upload_timed_out, upload_init_timed_out.
    destruct (negb (upload_init_pending (c_filter c))); apply consume_option_effect; done.
  - by left.
  - by left.
  - by left.
Qed.

Lemma starts_app l k : starts (l ++ k) = (starts l + starts k)%nat.
Proof. unfold starts. by rewrite List.filter_app, length_app. Qed.

Lemma run_ops_starts ops : forall c,
  (starts (run_ops ops c).1 + (if transfer_active (c_filter c) then 1 else 0)
   <= if transfer_active (c_filter (run_ops ops c).2) then 1 else 0)%nat.
Proof.
  induction ops as [|op ops IH]; intros c; cbn [run_ops]; [cbn; lia|].
  pose proof (run_op_effect op c) as Hop. destruct (run_op op c) as [evs c1]. cbn [fst snd] in Hop.
  specialize (IH c1). destruct (run_ops ops c1) as [evs' c2]. cbn [fst snd] in *. rewrite starts_app.
  destruct Hop as [[H0 Ha]|(H1 & Hf & Ha)]; destruct (transfer_active (c_filter c)) eqn:E0;
    try rewrite Ha in IH by done; try done; lia.
Qed.

(** one transfer at a time.  Whatever the server and the user send and
    however often handshakes are drained, no second transfer starts until the
    first is finished: a sequence of operations starts at most one transfer,
    none if one is running, and a started transfer is running at the end. *)
Theorem trzsz_one_transfer (ops : list consumer_op) (c : TrzszConsumer) :
  (starts (run_ops ops c).1 <= 1)%nat
  /\ (transfer_active (c_filter c) = true ->
      starts (run_ops ops c).1 = 0%nat /\ transfer_active (c_filter (run_ops ops c).2) = true)
  /\ (starts (run_ops ops c).1 = 1%nat -> transfer_active (c_filter (run_ops ops c).2) = true).
Proof.
  pose proof (run_ops_starts ops c) as Hs.
  destruct (transfer_active (c_filter c)), (transfer_active (c_filter (run_ops ops c).2));
    split_and!; intros; try done; lia.
Qed.
End Ops.

(** ** The transfer gets the stream *)

(** A transfer [k] is running: the consumer owns it and it was not stopped, or a
    worker took it and the input handle is left. *)
Definition running (c : TrzszConsumer) (k : nat) (t : TrzszTransfer) : Prop :=
  disposed (c_filter c) = false /\ transfer_active (c_filter c) = true
  /\ transfers c !! k = Some t /\ transfer_input c = Some k
  /\ (c_transfer c = Some k /\ t_stopped t = false \/ c_transfer c = None).

(** Server output and the worker's taking of the transfer, in any order. *)
Definition feed_op (op : option (list Z)) : consumer_op :=
  match op with Some output => OpServer output | None => OpTake end.

Lemma pending_add_buffer data st : pending (add_buffer data st) = pending st ++ data.
Proof. unfold pending. cbn. rewrite concat_app, app_assoc. cbn. now rewrite app_nil_r. Qed.

Lemma alter_running c k t g :
  running c k t -> t_stopped (g t) = t_stopped t ->
  running (set_transfers (alter g k (transfers c)) c) k (g t).
Proof.
  intros (Hd & Ha & Ht & Hi & Ho) Hg. unfold running. cbn. rewrite list_lookup_alter_eq, Ht, Hg.
  split; [exact Hd|]. split; [exact Ha|]. split; [reflexivity|]. split; [exact Hi|exact Ho].
Qed.

Lemma feed_run is_decimal op c k t :
  running c k t -> exists t',
  running (run_op is_decimal (feed_op op) c).2 k t'
  /\ (run_op is_decimal (feed_op op) c).1 = (match op with Some _ => [EvTransferDataQueued] | None => [] end)
  /\ pending (t_buffer t') = pending (t_buffer t) ++ default [] op
  /\ stopped (t_buffer t') = stopped (t_buffer t).
Proof.
  intros Hr. pose proof Hr as (Hd & Ha & Ht & Hi & Ho). destruct op as [output|]; cbn [feed_op run_op].
  - unfold process_server_output, filter_server_output. rewrite Hd, Ha.
    cbn [consume_filter_outputs consume_output c_transfer transfer_input set_filter].
    assert (Hc : set_filter (c_filter c) c = c) by by destruct c. rewrite Hc, Hi.
    destruct Ho as [[Ho Hs]|Ho]; rewrite Ho; cbn [fst snd].
    + exists (add_received_data output t). unfold add_received_data. rewrite Hs. cbn [negb].
      split_and!; [|done|apply pending_add_buffer|done].
      pose proof (alter_running c k t (add_received_data output) Hr) as Hal.
      unfold add_received_data at 1 3 in Hal. rewrite Hs in Hal. by apply Hal.
    + exists (input_add_received_data output t). split_and!; [|done|apply pending_add_buffer|done].
      by apply (alter_running c k t (input_add_received_data output) Hr).
  - exists t. rewrite app_nil_r. split_and!; [|done..]. unfold running. cbn. split_and!; try done. by right.
Qed.

(** while a transfer runs, it gets every byte of the server's output in
    order, before and after a worker has taken it, and the terminal gets
    none. *)
Theorem trzsz_transfer_gets_stream (is_decimal : Z -> bool) (ops : list (option (list Z))) (c : TrzszConsumer)
    (k : nat) (t : TrzszTransfer) :
  running c k t ->
  exists t',
    running (run_ops is_decimal (map feed_op ops) c).2 k t'
    /\ pending (t_buffer t') = pending (t_buffer t) ++ List.concat (map (default []) ops)
    /\ stopped (t_buffer t') = stopped (t_buffer t)
    /\ Forall (fun ev => ev = EvTransferDataQueued) (run_ops is_decimal (map feed_op ops) c).1.
Proof.
  revert c t. induction ops as [|op ops IH]; intros c t Hr.
  { exists t. cbn. rewrite app_nil_r. by split_and!; [..|constructor]. }
  destruct (feed_run is_decimal op c k t Hr) as (t1 & Hr1 & Hev & Hp1 & Hs1). cbn [map run_ops].
  destruct (run_op is_decimal (feed_op op) c) as [evs c1]. cbn [fst snd] in *.
  destruct (IH c1 t1 Hr1) as (t2 & Hr2 & Hp2 & Hs2 & Hev2).
  destruct (run_ops is_decimal (map feed_op ops) c1) as [evs2 c2]. cbn [fst snd] in *.
  exists t2. split_and!; [done| |congruence|].
  - rewrite Hp2, Hp1. cbn [map List.concat]. by rewrite app_assoc.
  - rewrite Hev. apply Forall_app. split; [|done]. destruct op; by repeat constructor.
Qed.

Definition demo_consumer : TrzszConsumer :=
  (run_ops is_digit [OpServer (lit "::TRZSZ:TRANSFER:R:1.1.6:7" ++ [10]); OpDrain] (new_consumer default_policy)).2.

Lemma trzsz_transfer_gets_stream_witness : exists t',
  running (run_ops is_digit (map feed_op [Some [35; 65]; None; Some [10]]) demo_consumer).2 0 t'
  /\ pending (t_buffer t') = [35; 65; 10].
Proof.
  set (t := new_transfer false 1048576).
  destruct (trzsz_transfer_gets_stream is_digit [Some [35; 65]; None; Some [10]] demo_consumer 0 t)
    as (t' & Hr & Hp & _).
  - split; [reflexivity|]. split; [reflexivity|]. split; [reflexivity|]. split; [reflexivity|]. left. split; reflexivity.
  - exists t'. split; [exact Hr|exact Hp].
Defined.

(** A handshake that a chunk boundary cuts after its version is taken without
    its id: the first of the queued buffers wins, and here the remote Windows
    host is not recognised. *)
Example split_handshake_loses_id :
  let c := new_consumer default_policy in
  let split := (run_ops is_digit [OpServer (lit "::TRZSZ:TRANSFER:R:1.1.6"); OpServer (lit ":1" ++ [10]); OpDrain] c).1 in
  let whole := (run_ops is_digit [OpServer (lit "::TRZSZ:TRANSFER:R:1.1.6:1" ++ [10]); OpDrain] c).1 in
  last split = Some (EvTransferStarted (mkHandshake Receive (lit "1.1.6") [] false Upload SelFile))
  /\ last whole = Some (EvTransferStarted (mkHandshake Receive (lit "1.1.6") (lit ":1") true Upload SelFile)).
Proof. vm_compute. split; reflexivity. Qed.
