(* ===== verification/FileSystem.v ===== *)
(** * Paths and files (std::path, std::fs)

    What the sources use of [std::path] and [std::fs], for a POSIX system.  A
    path is its sequence of components, which is also what [Path] compares; the
    file system is a map from places (lists of names from the root) to
    directories, files and symbolic links, with the files' contents kept by
    inode, so that an open file survives a rename.  Resolution follows symbolic
    links; the lemmas show that on a path without links every operation acts
    at the place the path spells, and nowhere else.  Any operation that writes
    may also fail for reasons outside the model (permissions, a full disk):
    [fault] says which.  File names are Unicode text. *)
From S2P Require Import Prelude Text TrzszBuffer.
From Stdlib Require Import Ascii String.
From stdpp Require Import prelude numbers list gmap.
Open Scope Z_scope.

(** ** Paths *)

Abbreviation name := (list Z).
Abbreviation place := (list (list Z)).

Inductive Component := RootDir | CurDir | ParentDir | Normal (n : name).
#[export] Instance Component_eq : EqDecision Component.
Proof. solve_decision. Defined.
#[export] Instance Component_countable : Countable Component.
Proof.
  refine (inj_countable'
    (fun c => match c with Normal n => inl n | RootDir => inr 0%nat | CurDir => inr 1%nat | ParentDir => inr 2%nat end)
    (fun x => match x with inl n => Normal n | inr O => RootDir | inr 1%nat => CurDir | inr _ => ParentDir end) _).
  by intros [].
Defined.
Abbreviation PathBuf := (list Component).

(** One part between separators; an empty part and a dot say nothing. *)
Definition component_of (part : name) : option Component :=
  if bool_decide (part = []) then None
  else if bool_decide (part = [46]) then None
  else if bool_decide (part = [46; 46]) then Some ParentDir
  else Some (Normal part).
(** [Path::components]: a leading dot is kept. *)
Definition parse_path (s : list Z) : PathBuf :=
  let parts := split_on 47 [] s in
  if path_is_absolute s then RootDir :: omap component_of parts
  else if bool_decide (head parts = Some [46]) then CurDir :: omap component_of parts
  else omap component_of parts.

(** [PathBuf::push] and [Path::join]: an absolute path replaces. *)
Definition push (p : PathBuf) (s : list Z) : PathBuf :=
  match parse_path s with
  | (RootDir :: _) as q => q
  | q => if decide (p = []) then q else p ++ List.filter (fun c => negb (bool_decide (c = CurDir))) q
  end.
Definition parent (p : PathBuf) : option PathBuf :=
  match last p with
  | None | Some RootDir => None
  | Some _ => Some (take (Nat.pred (length p)) p)
  end.
Definition file_name (p : PathBuf) : option name :=
  match last p with Some (Normal n) => Some n | _ => None end.
Definition starts_with (p base : PathBuf) : bool := bool_decide (base `prefix_of` p).
Definition path_strip_prefix (p base : PathBuf) : option PathBuf :=
  if starts_with p base then Some (drop (length base) p) else None.

Definition component_text (c : Component) : name :=
  match c with RootDir => [47] | CurDir => [46] | ParentDir => [46; 46] | Normal n => n end.
Fixpoint join (sep : list Z) (parts : list (list Z)) : list Z :=
  match parts with
  | [] => []
  | [p] => p
  | p :: rest => p ++ sep ++ join sep rest
  end.
(** [Path::display], [to_string_lossy]. *)
Definition display (p : PathBuf) : list Z :=
  match p with
  | RootDir :: r => 47 :: join [47] (map component_text r)
  | _ => join [47] (map component_text p)
  end.

(** The path that spells a place. *)
Definition abs (k : place) : PathBuf := RootDir :: map Normal k.

(** ** The file system *)

Inductive Node := Dir | File (ino : nat) | Symlink (target : PathBuf).

Inductive IoErrorKind := NotFound | AlreadyThere | NotADirectory | IsADirectory | DirectoryNotEmpty | OtherKind.
#[export] Instance IoErrorKind_eq : EqDecision IoErrorKind.
Proof. solve_decision. Defined.
Record io_error := mkIo { kind : IoErrorKind; io_text : list Z }.

(** What was forced to the disk: the contents of a file, or a directory. *)
Inductive Synced := SyncedFile (ino : nat) (content : list Z) | SyncedDir (k : place).

(** [synced] lists the successful calls of [sync_all]. *)
Record FileSystem := mkFs {
  nodes : gmap place Node;
  inodes : gmap nat (list Z);
  next_ino : nat;
  cwd : place;
  calls : nat;
  synced : list Synced
}.

Definition set_nodes v (fs : FileSystem) : FileSystem := mkFs v (inodes fs) (next_ino fs) (cwd fs) (calls fs) (synced fs).
Definition set_inodes v (fs : FileSystem) : FileSystem := mkFs (nodes fs) v (next_ino fs) (cwd fs) (calls fs) (synced fs).
Definition set_synced v (fs : FileSystem) : FileSystem := mkFs (nodes fs) (inodes fs) (next_ino fs) (cwd fs) (calls fs) v.
Definition tick (fs : FileSystem) : FileSystem :=
  mkFs (nodes fs) (inodes fs) (next_ino fs) (cwd fs) (S (calls fs)) (synced fs).

Definition node_at (fs : FileSystem) (k : place) : option Node :=
  match k with [] => Some Dir | _ => nodes fs !! k end.

Definition ENOENT : io_error := mkIo NotFound (lit "No such file or directory (os error 2)").
Definition EEXIST : io_error := mkIo AlreadyThere (lit "File exists (os error 17)").
Definition ENOTDIR : io_error := mkIo NotADirectory (lit "Not a directory (os error 20)").
Definition EISDIR : io_error := mkIo IsADirectory (lit "Is a directory (os error 21)").
Definition ENOTEMPTY : io_error := mkIo DirectoryNotEmpty (lit "Directory not empty (os error 39)").
Definition ELOOP : io_error := mkIo OtherKind (lit "Too many levels of symbolic links (os error 40)").
Definition EBUSY : io_error := mkIo OtherKind (lit "Device or resource busy (os error 16)").
Definition EINVAL : io_error := mkIo OtherKind (lit "Invalid argument (os error 22)").
Definition MAX_LINKS : nat := 40.

(** Path resolution from a directory, following at most [links] links. *)
Fixpoint walk (links : nat) (fs : FileSystem) : place -> PathBuf -> result io_error place :=
  fix go (cur : place) (p : PathBuf) {struct p} :=
    match p with
    | [] => Ok cur
    | RootDir :: r => go [] r
    | CurDir :: r => go cur r
    | ParentDir :: r => go (take (Nat.pred (length cur)) cur) r
    | Normal n :: r =>
        match nodes fs !! (cur ++ [n]) with
        | None => Err ENOENT
        | Some Dir => go (cur ++ [n]) r
        | Some (File _) => match r with [] => Ok (cur ++ [n]) | _ => Err ENOTDIR end
        | Some (Symlink t) => match links with
                              | O => Err ELOOP
                              | S l => walk l fs cur (t ++ r)
                              end
        end
    end.
Definition resolve (fs : FileSystem) (p : PathBuf) : result io_error place :=
  if decide (p = []) then Err ENOENT else walk MAX_LINKS fs (cwd fs) p.
(** The place of the entry a path names, without following a final link. *)
Definition entry (fs : FileSystem) (p : PathBuf) : result io_error place :=
  match last p with
  | Some (Normal n) =>
      let? d := walk MAX_LINKS fs (cwd fs) (take (Nat.pred (length p)) p) in
      match node_at fs d with Some Dir => Ok (d ++ [n]) | _ => Err ENOTDIR end
  | Some _ => resolve fs p
  | None => Err ENOENT
  end.

(** ** std::fs *)

Abbreviation FM := (M io_error FileSystem).

(** [Metadata]: of the node itself. *)
Record Metadata := mkMeta { is_symlink : bool; is_directory : bool; is_file : bool; meta_len : Z }.
Definition metadata_of (fs : FileSystem) (n : Node) : Metadata :=
  match n with
  | Dir => mkMeta false true false 4096
  | File i => mkMeta false false true (zlen (default [] (inodes fs !! i)))
  | Symlink t => mkMeta true false false (zlen (utf8_encode (display t)))
  end.

Definition look (f : FileSystem -> PathBuf -> result io_error place) (p : PathBuf) (fs : FileSystem)
    : result io_error Metadata :=
  let? k := f fs p in
  match node_at fs k with Some n => Ok (metadata_of fs n) | None => Err ENOENT end.
Definition metadata (p : PathBuf) : FM Metadata := fun fs => Some (look resolve p fs, fs).
Definition symlink_metadata (p : PathBuf) : FM Metadata := fun fs => Some (look entry p fs, fs).
Definition canonicalize (p : PathBuf) : FM PathBuf :=
  fun fs => Some ((let? k := resolve fs p in Ok (abs k)), fs).

(** An open file: its inode and position; a directory, with its place, can be
    opened for reading. *)
Record OpenFile := mkOpen { f_node : option nat; f_pos : Z; f_dir : place }.

Section Fs.
(** The failures of writing operations, by the number of the call: how many
    bytes a failing write puts out, and the error. *)
Context (fault : nat -> option (Z * io_error)).

Definition faulty {A} (m : FM A) : FM A :=
  fun fs => match fault (calls fs) with
            | Some (_, e) => Some (Err e, tick fs)
            | None => m (tick fs)
            end.
(** A change of the entry at a place. *)
Definition at_entry (p : PathBuf) (change : place -> option Node -> FileSystem -> result io_error FileSystem) : FM unit :=
  faulty (fun fs => match (let? k := entry fs p in change k (node_at fs k) fs) with
                    | Ok fs' => Some (Ok tt, fs')
                    | Err e => Some (Err e, fs)
                    end).

Definition create_dir (p : PathBuf) : FM unit :=
  at_entry p (fun k n fs => match n with
                            | None => Ok (set_nodes (<[k := Dir]> (nodes fs)) fs)
                            | Some _ => Err EEXIST
                            end).

Definition is_child (k q : place) : bool :=
  bool_decide (take (length k) q = k) && Nat.eqb (length q) (S (length k)).
Definition has_children (fs : FileSystem) (k : place) : bool :=
  existsb (fun e => is_child k e.1) (map_to_list (nodes fs)).
Definition remove_dir (p : PathBuf) : FM unit :=
  at_entry p (fun k n fs => match n with
                            | None => Err ENOENT
                            | Some Dir => if decide (k = []) then Err EBUSY
                                          else if has_children fs k then Err ENOTEMPTY
                                          else Ok (set_nodes (delete k (nodes fs)) fs)
                            | Some _ => Err ENOTDIR
                            end).
Definition remove_file (p : PathBuf) : FM unit :=
  at_entry p (fun k n fs => match n with
                            | None => Err ENOENT
                            | Some Dir => Err EISDIR
                            | Some _ => Ok (set_nodes (delete k (nodes fs)) fs)
                            end).

(** The entries of a directory move with it. *)
Definition move_tree (a b : place) (m : gmap place Node) : gmap place Node :=
  list_to_map (map (fun e : place * Node =>
    if bool_decide (take (length a) e.1 = a) then (b ++ drop (length a) e.1, e.2) else e) (map_to_list m)).
Definition rename (from to : PathBuf) : FM unit :=
  at_entry from (fun a n fs =>
    let? b := entry fs to in
    match n, node_at fs b with
    | None, _ => Err ENOENT
    | Some _, _ =>
        if decide (a = b) then Ok fs
        else match n, node_at fs b with
             | Some Dir, None | Some Dir, Some Dir =>
                 if decide (a = []) then Err EBUSY
                 else if bool_decide (take (length a) b = a) then Err EINVAL
                 else if has_children fs b then Err ENOTEMPTY
                 else Ok (set_nodes (move_tree a b (delete b (nodes fs))) fs)
             | Some Dir, Some _ => Err ENOTDIR
             | Some _, Some Dir => Err EISDIR
             | Some x, _ => Ok (set_nodes (<[b := x]> (delete a (nodes fs))) fs)
             | None, _ => Err ENOENT
             end
    end).

(** [OpenOptions::new().create_new(true).write(true).open(..)]. *)
Definition open_new (p : PathBuf) : FM OpenFile :=
  faulty (fun fs => match entry fs p with
                    | Err e => Some (Err e, fs)
                    | Ok k => match node_at fs k with
                              | Some _ => Some (Err EEXIST, fs)
                              | None =>
                                  let i := next_ino fs in
                                  Some (Ok (mkOpen (Some i) 0 []),
                                        mkFs (<[k := File i]> (nodes fs)) (<[i := []]> (inodes fs)) (S i)
                                          (cwd fs) (calls fs) (synced fs))
                              end
                    end).
(** [File::open]. *)
Definition open_read (p : PathBuf) : FM OpenFile :=
  fun fs => Some ((let? k := resolve fs p in
                   match node_at fs k with
                   | Some (File i) => Ok (mkOpen (Some i) 0 [])
                   | Some Dir => Ok (mkOpen None 0 k)
                   | _ => Err ENOENT
                   end), fs).

Definition store_at (pos : Z) (data content : list Z) : list Z :=
  ztake pos content ++ replicate (Z.to_nat (pos - zlen content)) 0 ++ data ++ zdrop (pos + zlen data) content.
(** [write_all]: a failing call may have written a part, and the position is
    after it. *)
Definition write_all (f : OpenFile) (data : list Z) : FM (OpenFile * result io_error unit) :=
  fun fs =>
    match f_node f with
    | None => Some (Ok (f, Err EISDIR), fs)
    | Some i =>
        let put d r := Some (Ok (mkOpen (f_node f) (f_pos f + zlen d) (f_dir f), r),
                             set_inodes (alter (store_at (f_pos f) d) i (inodes fs)) (tick fs)) in
        match fault (calls fs) with
        | Some (n, e) => put (ztake n data) (Err e)
        | None => put data (Ok tt)
        end
    end.
(** What a sync of an open file forces to the disk. *)
Definition to_sync (fs : FileSystem) (f : OpenFile) : Synced :=
  match f_node f with
  | Some i => SyncedFile i (default [] (inodes fs !! i))
  | None => SyncedDir (f_dir f)
  end.
Definition sync_all (f : OpenFile) : FM unit :=
  faulty (fun fs => Some (Ok tt, set_synced (synced fs ++ [to_sync fs f]) fs)).
(** [seek] to a position and one [read] of at most [length] bytes. *)
Definition read_at (f : OpenFile) (pos length : Z) : FM (list Z) :=
  fun fs => match f_node f with
            | None => Some (Err EISDIR, fs)
            | Some i => Some (Ok (ztake length (zdrop pos (default [] (inodes fs !! i)))), fs)
            end.
End Fs.

(** ** Paths without links *)

Definition no_links (fs : FileSystem) (k : place) : Prop :=
  forall q t, q `prefix_of` k -> node_at fs q <> Some (Symlink t).

Lemma walk_normal l fs cur n r :
  walk l fs cur (Normal n :: r)
  = match nodes fs !! (cur ++ [n]) with
    | None => Err ENOENT
    | Some Dir => walk l fs (cur ++ [n]) r
    | Some (File _) => match r with [] => Ok (cur ++ [n]) | _ => Err ENOTDIR end
    | Some (Symlink t) => match l with O => Err ELOOP | S l => walk l fs cur (t ++ r) end
    end.
Proof. by destruct l. Qed.

Lemma walk_root l fs cur r : walk l fs cur (RootDir :: r) = walk l fs [] r.
Proof. by destruct l. Qed.

Lemma walk_nil l fs cur : walk l fs cur [] = Ok cur.
Proof. by destruct l. Qed.

Lemma node_at_snoc fs k n : node_at fs (k ++ [n]) = nodes fs !! (k ++ [n]).
Proof. by destruct k. Qed.

Lemma walk_plain l fs cur k d :
  no_links fs (cur ++ k) -> walk l fs cur (map Normal k) = Ok d -> d = cur ++ k.
Proof.
  revert cur. induction k as [|n k IH]; intros cur Hn; cbn [map].
  - rewrite walk_nil, app_nil_r. congruence.
  - rewrite walk_normal. replace (cur ++ n :: k) with ((cur ++ [n]) ++ k) in * by by rewrite <-app_assoc.
    destruct (nodes fs !! (cur ++ [n])) as [[|i|t]|] eqn:E; try done.
    + by apply IH.
    + destruct k; cbn; [|done]. intros [= <-]. by rewrite app_nil_r.
    + destruct (Hn (cur ++ [n]) t); [by apply prefix_app_r|by rewrite node_at_snoc].
Qed.

Lemma take_snoc {A} (l : list A) x : take (Nat.pred (length (l ++ [x]))) (l ++ [x]) = l.
Proof. rewrite length_app, Nat.add_1_r. cbn [Nat.pred]. apply take_app_length. Qed.

#[export] Instance abs_inj : Inj (=) (=) abs.
Proof.
  intros k k' H. injection H as H. revert k' H.
  induction k as [|n k IH]; intros [|n' k'] H; simplify_eq/=; [done|]. f_equal. by apply IH.
Qed.

Lemma abs_snoc k n : abs (k ++ [n]) = abs k ++ [Normal n].
Proof. unfold abs. by rewrite map_app. Qed.

Lemma entry_snoc fs k n :
  entry fs (abs (k ++ [n]))
  = (let? d := walk MAX_LINKS fs [] (map Normal k) in
     match node_at fs d with Some Dir => Ok (d ++ [n]) | _ => Err ENOTDIR end).
Proof. unfold entry. by rewrite abs_snoc, last_snoc, take_snoc. Qed.

Lemma entry_plain fs k n d :
  no_links fs k -> entry fs (abs (k ++ [n])) = Ok d -> d = k ++ [n] /\ node_at fs k = Some Dir.
Proof.
  intros Hn. rewrite entry_snoc. destruct (walk _ _ _ _) as [d'|] eqn:E; [|done]. cbn.
  apply (walk_plain _ _ []) in E; [|done]. cbn in E. subst d'. by destruct (node_at fs k) as [[]|]; intros [= <-].
Qed.

(** A directory that a path without links spells is there. *)
Lemma no_links_snoc fs k n :
  no_links fs k -> (forall t, nodes fs !! (k ++ [n]) <> Some (Symlink t)) -> no_links fs (k ++ [n]).
Proof.
  intros Hk Hn q t [r Hq]. destruct r as [|x r _] using rev_ind.
  - rewrite app_nil_r in Hq. subst q. rewrite node_at_snoc. apply Hn.
  - rewrite app_assoc in Hq. apply app_inj_tail in Hq as [-> ->]. apply Hk. by apply prefix_app_r.
Qed.

Lemma no_links_prefix fs k q : no_links fs k -> q `prefix_of` k -> no_links fs q.
Proof. intros Hk Hq q' t Hq'. apply Hk. by trans q. Qed.

Lemma walk_tick l fs : forall cur p, walk l (tick fs) cur p = walk l fs cur p.
Proof.
  induction l as [|l IH]; intros cur p; revert cur; induction p as [|[| | |n] p IHp]; intros cur; try done;
    try exact (IHp _).
  rewrite !walk_normal. cbn [tick nodes]. by destruct (nodes fs !! _) as [[]|]; rewrite ?IHp, ?IH.
Qed.
Lemma entry_tick fs p : entry (tick fs) p = entry fs p.
Proof. unfold entry, resolve. cbn [cwd tick]. by rewrite !walk_tick. Qed.

Section FsLemmas.
Context (fault : nat -> option (Z * io_error)).

(** Every writing operation ends; on a path whose directories are no links it
    changes at most the entry it spells. *)
Lemma at_entry_plain k n change fs :
  no_links fs k ->
  (exists e, at_entry fault (abs (k ++ [n])) change fs = Some (Err e, tick fs))
  \/ exists fs', at_entry fault (abs (k ++ [n])) change fs = Some (Ok tt, fs')
                /\ node_at fs k = Some Dir
                /\ change (k ++ [n]) (nodes fs !! (k ++ [n])) (tick fs) = Ok fs'.
Proof.
  intros Hn. unfold at_entry, faulty. destruct (fault (calls fs)) as [[]|]; [left; by eexists|].
  rewrite entry_tick. destruct (entry fs (abs (k ++ [n]))) as [d|e] eqn:E; [|left; by eexists].
  apply entry_plain in E as [-> Hd]; [|done]. cbn [result_bind].
  rewrite node_at_snoc. cbn [nodes tick].
  destruct (change _ _ _) as [fs'|e]; [right; by exists fs'|left; by eexists].
Qed.

Lemma look_plain fs k n :
  no_links fs k ->
  match look entry (abs (k ++ [n])) fs with
  | Ok m => exists x, nodes fs !! (k ++ [n]) = Some x /\ m = metadata_of fs x /\ node_at fs k = Some Dir
  | Err e => entry fs (abs (k ++ [n])) = Ok (k ++ [n]) -> nodes fs !! (k ++ [n]) = None
  end.
Proof.
  intros Hn. unfold look. destruct (entry fs (abs (k ++ [n]))) as [d|] eqn:E; [|done].
  apply entry_plain in E as [-> Hd]; [|done]. cbn [result_bind]. rewrite node_at_snoc.
  destruct (nodes fs !! (k ++ [n])); eauto.
Qed.
End FsLemmas.
