(* ===== verification/TrzszState.v ===== *)
(** * trzsz files on this machine (hapcli-trzsz: lib.rs, path_guard.rs, download.rs, upload.rs)

    The owner-scoped handles of running transfers and the guards that keep
    downloads inside the folder the user chose.  A world is the file system,
    the state behind the mutex, the readings of the clock and the ids drawn so
    far; every function of the source is a computation over it.  Parameters:
    the clock, the ids, the failures of the file system, the order in which a
    hash map is iterated, and the third-party code: Unicode normalisation and
    the directory walker. *)
From S2P Require Import Prelude Text TrzszBuffer FileSystem.
From Stdlib Require Import Ascii String.
From stdpp Require Import prelude numbers list gmap.
Open Scope Z_scope.

(** ** State *)

Definition TRZSZ_API_VERSION : Z := 1.
Definition MAX_TRANSFER_CHUNK_SIZE : Z := 1024 * 1024.
Definition MAX_HANDLES_PER_OWNER : nat := 256.
Definition DEFAULT_HANDLE_TTL : Z := 15 * 60.

Record OwnerState := mkOwner {
  authorized_upload_paths : gset PathBuf;
  prepared_root : option PathBuf;
  o_uploads : gset (list Z);
  o_downloads : gset (list Z);
  download_directories : gset PathBuf;
  o_touched : Z
}.
Record UploadHandle := mkUpload { u_owner : list Z; u_size : Z; u_file : OpenFile; u_touched : Z }.
Record DownloadHandle := mkDownload {
  d_owner : list Z;
  d_root : PathBuf;
  d_final : PathBuf;
  d_temp : PathBuf;
  d_overwrite : bool;
  d_file : OpenFile;
  d_touched : Z
}.
Record TrzszStateInner := mkInner {
  owners : gmap (list Z) OwnerState;
  upload_handles : gmap (list Z) UploadHandle;
  download_handles : gmap (list Z) DownloadHandle
}.
Definition new_state : TrzszStateInner := mkInner ∅ ∅ ∅.
Definition new_owner (now : Z) : OwnerState := mkOwner ∅ None ∅ ∅ ∅ now.

Record World := mkWorld {
  w_fs : FileSystem;
  w_inner : TrzszStateInner;
  w_time : nat;
  w_ids : nat
}.
Abbreviation WM := (M halt World).

Definition set_fs v (w : World) : World := mkWorld v (w_inner w) (w_time w) (w_ids w).
Definition set_inner v (w : World) : World := mkWorld (w_fs w) v (w_time w) (w_ids w).
Definition set_owners v (s : TrzszStateInner) : TrzszStateInner := mkInner v (upload_handles s) (download_handles s).
Definition set_uploads v (s : TrzszStateInner) : TrzszStateInner := mkInner (owners s) v (download_handles s).
Definition set_downloads v (s : TrzszStateInner) : TrzszStateInner := mkInner (owners s) (upload_handles s) v.

Definition touch (now : Z) (o : OwnerState) : OwnerState :=
  mkOwner (authorized_upload_paths o) (prepared_root o) (o_uploads o) (o_downloads o) (download_directories o) now.
Definition set_authorized v (o : OwnerState) : OwnerState :=
  mkOwner v (prepared_root o) (o_uploads o) (o_downloads o) (download_directories o) (o_touched o).
Definition set_prepared v (o : OwnerState) : OwnerState :=
  mkOwner (authorized_upload_paths o) v (o_uploads o) (o_downloads o) (download_directories o) (o_touched o).
Definition set_o_uploads v (o : OwnerState) : OwnerState :=
  mkOwner (authorized_upload_paths o) (prepared_root o) v (o_downloads o) (download_directories o) (o_touched o).
Definition set_o_downloads v (o : OwnerState) : OwnerState :=
  mkOwner (authorized_upload_paths o) (prepared_root o) (o_uploads o) v (download_directories o) (o_touched o).
Definition set_directories v (o : OwnerState) : OwnerState :=
  mkOwner (authorized_upload_paths o) (prepared_root o) (o_uploads o) (o_downloads o) v (o_touched o).

Definition inner : WM TrzszStateInner := fun w => Some (Ok (w_inner w), w).
Definition modify_inner (f : TrzszStateInner -> TrzszStateInner) : WM unit :=
  fun w => Some (Ok tt, set_inner (f (w_inner w)) w).
(** An operation of [std::fs], its result as a value, and with [?]. *)
Definition on_fs {A} (m : FM A) : WM (result io_error A) :=
  fun w => match m (w_fs w) with Some (r, fs) => Some (Ok r, set_fs fs w) | None => None end.
Definition io {A} (m : FM A) : WM A :=
  let* r := on_fs m in
  match r with Ok a => ret a | Err e => fail (IoError (io_text e)) end.
Definition try_result {S A} (r : result TrzszError A) : M halt S A := lift (map_err Fails r).

Lemma set_fs_same w : set_fs (w_fs w) w = w.
Proof. by destruct w. Qed.

Fixpoint for_each {S A} (f : A -> M halt S unit) (l : list A) : M halt S unit :=
  match l with
  | [] => ret tt
  | x :: r => do* f x in for_each f r
  end.

(** ** Names *)

(** [char::is_control]. *)
Definition is_control (c : Z) : bool := in_range 0 31 c || in_range 127 159 c.
Definition contains {A} `{EqDecision A} (x : A) (l : list A) : bool := bool_decide (x ∈ l).
Definition to_ascii_uppercase (s : list Z) : list Z := map (fun c => if in_range 97 122 c then c - 32 else c) s.

Definition WINDOWS_RESERVED_NAMES : list (list Z) :=
  [lit "CON"; lit "PRN"; lit "AUX"; lit "NUL"; lit "COM1"; lit "COM2"; lit "COM3"; lit "COM4"; lit "COM5";
   lit "COM6"; lit "COM7"; lit "COM8"; lit "COM9"; lit "LPT1"; lit "LPT2"; lit "LPT3"; lit "LPT4"; lit "LPT5";
   lit "LPT6"; lit "LPT7"; lit "LPT8"; lit "LPT9"].
Definition WINDOWS_ILLEGAL_CHARS : list Z := [60; 62; 58; 34; 124; 63; 42; 0].

Definition validate_api_version (api_version : Z) : result TrzszError unit :=
  if api_version =? TRZSZ_API_VERSION then Ok tt else Err (InvalidApiVersion TRZSZ_API_VERSION api_version).
Definition validate_owner_id (owner_id : list Z) : result TrzszError unit :=
  if bool_decide (owner_id = []) || (256 <? zlen (utf8_encode owner_id)) then Err InvalidOwnerId
  else if existsb is_control owner_id then Err InvalidOwnerId
  else Ok tt.

Section Names.
(** [str::nfc] of the unicode-normalization crate, and [cfg!(windows)]. *)
Context (nfc : list Z -> list Z) (windows : bool).

Definition sanitize_component (component : list Z) : result TrzszError (list Z) :=
  if bool_decide (component = []) then Err (InvalidPath (lit "Empty path component"))
  else
    let normalized := nfc component in
    if bool_decide (normalized = []) then Err (InvalidPath (lit "Empty path component"))
    else if bool_decide (normalized = [46]) || bool_decide (normalized = [46; 46]) then
      Err (InvalidPath (lit "Relative path component is not allowed: " ++ normalized))
    else if existsb (fun ch => (ch =? 47) || (ch =? 92) || is_control ch) normalized then
      Err (InvalidPath (lit "Illegal path component: " ++ normalized))
    else if windows && existsb (fun ch => contains ch WINDOWS_ILLEGAL_CHARS) normalized then
      Err (InvalidPath (lit "Illegal path component: " ++ normalized))
    else if windows && (bool_decide (last normalized = Some 32) || bool_decide (last normalized = Some 46)) then
      Err (ReservedName normalized)
    else if windows && contains (to_ascii_uppercase normalized) WINDOWS_RESERVED_NAMES then
      Err (ReservedName normalized)
    else Ok normalized.

Fixpoint sanitize_all (parts : list (list Z)) : result TrzszError (list (list Z)) :=
  match parts with
  | [] => Ok []
  | p :: rest => let? c := sanitize_component p in let? cs := sanitize_all rest in Ok (c :: cs)
  end.
Definition sanitize_upload_rel_path (path : PathBuf) : result TrzszError (list (list Z)) :=
  sanitize_all (map component_text path).
Definition sanitize_download_rel_path (file_name : list Z) : result TrzszError (list (list Z)) :=
  let normalized := map (fun c => if c =? 92 then 47 else c) file_name in
  let? components := sanitize_all (split_on 47 [] normalized) in
  if bool_decide (components = []) then Err (InvalidPath (lit "Empty relative path")) else Ok components.
End Names.

Definition ensure_within_root (root candidate : PathBuf) : result TrzszError unit :=
  if starts_with candidate root then Ok tt
  else Err (InvalidPath (lit "Target escapes prepared root: " ++ display candidate)).

(** The number of handles of an owner. *)
Definition size_of (f : OwnerState -> gset (list Z)) (o : OwnerState) : nat := size (f o).

Section State.
(** The machine: failing file operations, the clock, the ids drawn. *)
Context (fault : nat -> option (Z * io_error)) (clock : nat -> Z) (uuid : nat -> list Z).
(** The orders in which hash maps and sets are iterated. *)
Context (map_order : forall A, gmap (list Z) A -> list (list Z * A)).
Context (id_order : gset (list Z) -> list (list Z)) (path_order : gset PathBuf -> list PathBuf).
(** Unicode normalisation, the platform, the life time of handles. *)
Context (nfc : list Z -> list Z) (windows : bool) (handle_ttl : Z).

Definition now : WM Z :=
  fun w => Some (Ok (clock (w_time w)), mkWorld (w_fs w) (w_inner w) (S (w_time w)) (w_ids w)).
Definition new_uuid : WM (list Z) :=
  fun w => Some (Ok (uuid (w_ids w)), mkWorld (w_fs w) (w_inner w) (w_time w) (S (w_ids w))).

(** ** Path guards *)

Definition canonicalize_existing_root (root_path : list Z) : WM PathBuf :=
  let root := parse_path root_path in
  let* meta := io (metadata root) in
  if is_directory meta then io (canonicalize root)
  else fail (InvalidPath (lit "Download root is not a directory: " ++ root_path)).

Definition symlink_error {A} (p : PathBuf) : WM A := fail (SymlinkNotAllowed (display p)).
Definition invalid {A} (message : String.string) (p : PathBuf) : WM A := fail (InvalidPath (lit message ++ display p)).

(** The loop over the parents of [build_download_target_path]. *)
Fixpoint build_parents (current : PathBuf) (components : list (list Z)) : WM unit :=
  match components with
  | [] => ret tt
  | component :: rest =>
      let current := push current component in
      let* meta := on_fs (symlink_metadata current) in
      do* match meta with
          | Ok m =>
              if is_symlink m then symlink_error current
              else if negb (is_directory m) then invalid "Parent path is not a directory: " current
              else ret tt
          | Err error =>
              if decide (kind error = NotFound) then io (create_dir fault current)
              else fail (IoError (io_text error))
          end in
      build_parents current rest
  end.
Definition build_download_target_path (root : PathBuf) (rel_components : list (list Z)) : WM PathBuf :=
  if bool_decide (rel_components = []) then fail (InvalidPath (lit "Empty relative path"))
  else
    do* build_parents root (take (Nat.pred (length rel_components)) rel_components) in
    let final_path := fold_left push rel_components root in
    let* meta := on_fs (symlink_metadata final_path) in
    match meta with
    | Ok m => if is_symlink m then symlink_error final_path else ret final_path
    | Err _ => ret final_path
    end.

Fixpoint validate_parents (current : PathBuf) (components : PathBuf) : WM unit :=
  match components with
  | [] => ret tt
  | component :: rest =>
      let current := push current (component_text component) in
      let* meta := on_fs (symlink_metadata current) in
      do* match meta with
          | Ok m =>
              if is_symlink m then symlink_error current
              else if negb (is_directory m) then invalid "Parent path is not a directory: " current
              else ret tt
          | Err error =>
              if decide (kind error = NotFound) then invalid "Parent path no longer exists: " current
              else fail (IoError (io_text error))
          end in
      validate_parents current rest
  end.
Definition validate_download_target_path (root final_path : PathBuf) : WM unit :=
  do* try_result (ensure_within_root root final_path) in
  match parent final_path with
  | None => invalid "Final path has no parent: " final_path
  | Some parent_path =>
      do* try_result (ensure_within_root root parent_path) in
      match path_strip_prefix parent_path root with
      | None => invalid "Target escapes prepared root: " final_path
      | Some relative_parent =>
          do* validate_parents root relative_parent in
          let* meta := on_fs (symlink_metadata final_path) in
          match meta with
          | Ok m =>
              if is_symlink m then symlink_error final_path
              else if is_directory m then invalid "Target path resolves to a directory: " final_path
              else ret tt
          | Err _ => ret tt
          end
      end
  end.

(** ** Clean-up *)

Record CleanupPlan := mkPlan { temp_paths : list PathBuf; directory_paths : list PathBuf }.

Definition component_rank (c : Component) : nat :=
  match c with RootDir => 0 | CurDir => 1 | ParentDir => 2 | Normal _ => 3 end.
Fixpoint bytes_cmp (a b : list Z) : comparison :=
  match a, b with
  | [], [] => Eq
  | [], _ => Lt
  | _, [] => Gt
  | x :: a, y :: b => match x ?= y with Eq => bytes_cmp a b | c => c end
  end.
Definition component_cmp (a b : Component) : comparison :=
  match a, b with
  | Normal x, Normal y => bytes_cmp x y
  | _, _ => Nat.compare (component_rank a) (component_rank b)
  end.
(** [Path::cmp]. *)
Fixpoint path_cmp (a b : PathBuf) : comparison :=
  match a, b with
  | [], [] => Eq
  | [], _ => Lt
  | _, [] => Gt
  | x :: a, y :: b => match component_cmp x y with Eq => path_cmp a b | c => c end
  end.
(** Deeper paths first. *)
Definition deeper_first (left right : PathBuf) : comparison :=
  match Nat.compare (length right) (length left) with Eq => path_cmp right left | c => c end.
Fixpoint insert_path (p : PathBuf) (l : list PathBuf) : list PathBuf :=
  match l with
  | [] => [p]
  | q :: r => match deeper_first q p with Gt => p :: l | _ => q :: insert_path p r end
  end.
Definition sort_paths (l : list PathBuf) : list PathBuf := fold_left (fun acc p => insert_path p acc) l [].

Fixpoint count_errors (m : PathBuf -> FM unit) (l : list PathBuf) : WM Z :=
  match l with
  | [] => ret 0
  | p :: rest =>
      let* r := on_fs (m p) in
      let* errors := count_errors m rest in
      ret (match r with Ok _ => errors | Err _ => errors + 1 end)
  end.
Definition execute (plan : CleanupPlan) : WM Z :=
  let* a := count_errors (remove_file fault) (temp_paths plan) in
  let* b := count_errors (remove_dir fault) (sort_paths (directory_paths plan)) in
  ret (a + b).

Definition on_owner (owner_id : list Z) (f : OwnerState -> OwnerState) : WM unit :=
  modify_inner (fun s => set_owners (alter f owner_id (owners s)) s).
(** [if let Some(owner) = inner.owners.get_mut(owner_id) { ..; owner.touched_at = Instant::now(); }]. *)
Definition touch_owner (owner_id : list Z) (f : OwnerState -> OwnerState) : WM unit :=
  let* s := inner in
  match owners s !! owner_id with
  | Some _ => let* t := now in on_owner owner_id (fun o => touch t (f o))
  | None => ret tt
  end.
Definition release_upload_handle (owner_id handle_id : list Z) : WM unit :=
  touch_owner owner_id (fun o => set_o_uploads (o_uploads o ∖ {[handle_id]}) o).
Definition release_download_handle (owner_id handle_id : list Z) : WM unit :=
  touch_owner owner_id (fun o => set_o_downloads (o_downloads o ∖ {[handle_id]}) o).

Definition expired (t touched : Z) : bool := handle_ttl <=? Z.max 0 (t - touched).
(** Removes the handle and gives it. *)
Definition take_download (id : list Z) : WM (option DownloadHandle) :=
  let* s := inner in
  do* modify_inner (fun s => set_downloads (delete id (download_handles s)) s) in
  ret (download_handles s !! id).

Fixpoint purge_downloads (l : list (list Z * list Z)) : WM (list PathBuf) :=
  match l with
  | [] => ret []
  | (handle_id, owner_id) :: rest =>
      let* h := take_download handle_id in
      do* release_download_handle owner_id handle_id in
      let* paths := purge_downloads rest in
      ret (match h with Some h => d_temp h :: paths | None => paths end)
  end.
Fixpoint purge_owners (l : list (list Z)) : WM (list PathBuf) :=
  match l with
  | [] => ret []
  | owner_id :: rest =>
      let* s := inner in
      do* modify_inner (fun s => set_owners (delete owner_id (owners s)) s) in
      let* paths := purge_owners rest in
      ret (match owners s !! owner_id with
           | Some o => path_order (download_directories o) ++ paths
           | None => paths
           end)
  end.
Definition collect_expired_cleanup : WM CleanupPlan :=
  let* t := now in
  let* s := inner in
  let expired_uploads :=
    omap (fun e : list Z * UploadHandle => if expired t (u_touched e.2) then Some (e.1, u_owner e.2) else None)
      (map_order _ (upload_handles s)) in
  do* for_each (fun e : list Z * list Z =>
                  do* modify_inner (fun s => set_uploads (delete e.1 (upload_handles s)) s) in
                  release_upload_handle e.2 e.1) expired_uploads in
  let* s := inner in
  let expired_downloads :=
    omap (fun e : list Z * DownloadHandle => if expired t (d_touched e.2) then Some (e.1, d_owner e.2) else None)
      (map_order _ (download_handles s)) in
  let* temps := purge_downloads expired_downloads in
  let* s := inner in
  let expired_owners :=
    omap (fun e : list Z * OwnerState =>
            if bool_decide (o_uploads e.2 = ∅) && bool_decide (o_downloads e.2 = ∅) && expired t (o_touched e.2)
            then Some e.1 else None)
      (map_order _ (owners s)) in
  let* directories := purge_owners expired_owners in
  ret (mkPlan temps directories).
Definition purge_expired : WM unit :=
  let* plan := collect_expired_cleanup in do* execute plan in ret tt.

(** ** The operations of the state *)

(** [inner.owners.entry(owner_id).or_insert_with(..)], then a change. *)
Definition with_owner (t : Z) (owner_id : list Z) (f : OwnerState -> OwnerState) : WM unit :=
  modify_inner (fun s => set_owners (<[owner_id := f (default (new_owner t) (owners s !! owner_id))]> (owners s)) s).

Definition set_authorized_upload_paths (owner_id : list Z) (paths : gset PathBuf) : WM unit :=
  do* purge_expired in
  let* t := now in
  with_owner t owner_id (fun o => touch t (set_authorized paths o)).
Definition is_upload_path_authorized (owner_id : list Z) (path : PathBuf) : WM bool :=
  do* purge_expired in
  let* s := inner in
  match owners s !! owner_id with
  | None => ret false
  | Some o => let* t := now in
              do* on_owner owner_id (touch t) in
              ret (bool_decide (path ∈ authorized_upload_paths o))
  end.

Record TrzszUploadHandleDto := mkUploadDto { handle_id : list Z; dto_size : Z }.
Definition register_upload_handle (owner_id : list Z) (file : OpenFile) (size : Z) : WM TrzszUploadHandleDto :=
  do* purge_expired in
  let* id := new_uuid in
  let* t := now in
  do* with_owner t owner_id (fun o => o) in
  let* s := inner in
  let o := default (new_owner t) (owners s !! owner_id) in
  if Nat.leb MAX_HANDLES_PER_OWNER (size_of o_uploads o)
  then fail (InvalidState (lit "Too many active upload handles for owner: " ++ owner_id))
  else
    do* on_owner owner_id (fun o => touch t (set_o_uploads (o_uploads o ∪ {[id]}) o)) in
    do* modify_inner (fun s => set_uploads (<[id := mkUpload owner_id size file t]> (upload_handles s)) s) in
    ret (mkUploadDto id size).

Definition touch_at (t : Z) (owner_id : list Z) : WM unit := on_owner owner_id (touch t).

Definition read_upload_chunk (owner_id id : list Z) (offset length : Z) : WM (list Z) :=
  do* purge_expired in
  let* t := now in
  do* touch_at t owner_id in
  let* s := inner in
  match upload_handles s !! id with
  | None => fail (HandleNotFound id)
  | Some h =>
      if decide (u_owner h = owner_id) then
        if u_size h <? offset then fail (InvalidOffset offset (u_size h))
        else
          do* modify_inner (fun s => set_uploads
                 (<[id := mkUpload (u_owner h) (u_size h) (u_file h) t]> (upload_handles s)) s) in
          io (read_at (u_file h) offset length)
      else fail HandleOwnerMismatch
  end.

Definition close_upload_handle (owner_id id : list Z) : WM unit :=
  do* purge_expired in
  let* s := inner in
  match upload_handles s !! id with
  | None => fail (HandleNotFound id)
  | Some h =>
      if decide (u_owner h = owner_id) then
        do* modify_inner (fun s => set_uploads (delete id (upload_handles s)) s) in
        release_upload_handle owner_id id
      else fail HandleOwnerMismatch
  end.

Definition prepare_download_root (owner_id : list Z) (root_path : PathBuf) : WM (list Z) :=
  do* purge_expired in
  let* t := now in
  do* with_owner t owner_id (fun o => touch t (set_prepared (Some root_path) o)) in
  ret (display root_path).
Definition prepared_download_root (owner_id : list Z) : WM (option PathBuf) :=
  do* purge_expired in
  let* s := inner in
  match owners s !! owner_id with
  | None => ret None
  | Some o => let* t := now in do* on_owner owner_id (touch t) in ret (prepared_root o)
  end.

Record TrzszDownloadOpenDto := mkOpenDto {
  writer_id : list Z;
  dto_local_name : list Z;
  dto_display_name : list Z;
  dto_temp_path : list Z;
  dto_final_path : list Z
}.
Definition register_download_handle (owner_id local_name display_name : list Z)
    (root_path final_path temp_path : PathBuf) (overwrite : bool) (file : OpenFile) : WM TrzszDownloadOpenDto :=
  do* purge_expired in
  let* id := new_uuid in
  let* t := now in
  do* with_owner t owner_id (fun o => o) in
  let* s := inner in
  let o := default (new_owner t) (owners s !! owner_id) in
  if Nat.leb MAX_HANDLES_PER_OWNER (size_of o_downloads o)
  then fail (InvalidState (lit "Too many active download handles for owner: " ++ owner_id))
  else
    do* on_owner owner_id (fun o => touch t (set_o_downloads (o_downloads o ∪ {[id]}) o)) in
    do* modify_inner (fun s => set_downloads
           (<[id := mkDownload owner_id root_path final_path temp_path overwrite file t]> (download_handles s)) s) in
    ret (mkOpenDto id local_name display_name (display temp_path) (display final_path)).

Definition register_download_directory (owner_id : list Z) (directory_path : PathBuf) : WM unit :=
  do* purge_expired in
  let* t := now in
  with_owner t owner_id (fun o => touch t (set_directories (download_directories o ∪ {[directory_path]}) o)).
Definition commit_directory (owner_id : list Z) (directory_path : PathBuf) : WM unit :=
  do* purge_expired in
  touch_owner owner_id (fun o => set_directories (download_directories o ∖ {[directory_path]}) o).

Definition set_file t (f : OpenFile) (h : DownloadHandle) : DownloadHandle :=
  mkDownload (d_owner h) (d_root h) (d_final h) (d_temp h) (d_overwrite h) f t.
Definition write_chunk (owner_id id data : list Z) : WM unit :=
  do* purge_expired in
  let* t := now in
  do* touch_at t owner_id in
  let* s := inner in
  match download_handles s !! id with
  | None => fail (HandleNotFound id)
  | Some h =>
      if decide (d_owner h = owner_id) then
        let* r := on_fs (write_all fault (d_file h) data) in
        match r with
        | Ok (f, r) =>
            do* modify_inner (fun s => set_downloads (<[id := set_file t f h]> (download_handles s)) s) in
            match r with Ok _ => ret tt | Err e => fail (IoError (io_text e)) end
        | Err e => fail (IoError (io_text e))
        end
      else fail HandleOwnerMismatch
  end.

(** The first block of [finish_download_handle] and [abort_download_handle]. *)
Definition claim_download (owner_id id : list Z) : WM DownloadHandle :=
  let* s := inner in
  match download_handles s !! id with
  | None => fail (HandleNotFound id)
  | Some h =>
      if decide (d_owner h = owner_id) then
        do* modify_inner (fun s => set_downloads (delete id (download_handles s)) s) in
        do* release_download_handle owner_id id in
        ret h
      else fail HandleOwnerMismatch
  end.
(** The closure of [finish_download_handle]. *)
Definition put_in_place (h : DownloadHandle) : WM unit :=
  do* io (sync_all fault (d_file h)) in
  do* validate_download_target_path (d_root h) (d_final h) in
  let* meta := on_fs (symlink_metadata (d_final h)) in
  do* match meta with
      | Ok m =>
          if is_symlink m then symlink_error (d_final h)
          else if is_directory m then invalid "Cannot replace existing directory: " (d_final h)
          else if negb (d_overwrite h) then fail (AlreadyExists (display (d_final h)))
          else io (remove_file fault (d_final h))
      | Err _ => ret tt
      end in
  io (rename fault (d_temp h) (d_final h)).
Definition finish_download_handle (owner_id id : list Z) : WM unit :=
  do* purge_expired in
  let* h := claim_download owner_id id in
  let* r := attempt (put_in_place h) in
  match r with
  | Ok _ => ret tt
  | Err e => do* on_fs (remove_file fault (d_temp h)) in throw e
  end.
Definition abort_download_handle (owner_id id : list Z) : WM unit :=
  let* h := claim_download owner_id id in
  do* on_fs (remove_file fault (d_temp h)) in ret tt.

Record TrzszOwnerCleanupDto := mkCleanup {
  cleaned_owner : list Z;
  cleaned_uploads : Z;
  cleaned_downloads : Z;
  cleanup_errors : Z
}.
Fixpoint take_temps (ids : list (list Z)) : WM (list PathBuf) :=
  match ids with
  | [] => ret []
  | id :: rest =>
      let* h := take_download id in
      let* paths := take_temps rest in
      ret (match h with Some h => d_temp h :: paths | None => paths end)
  end.
Definition cleanup_owner (owner_id : list Z) : WM TrzszOwnerCleanupDto :=
  do* purge_expired in
  let* s := inner in
  match owners s !! owner_id with
  | None => ret (mkCleanup owner_id 0 0 0)
  | Some o =>
      do* modify_inner (fun s => set_owners (delete owner_id (owners s)) s) in
      do* for_each (fun id => modify_inner (fun s => set_uploads (delete id (upload_handles s)) s))
            (id_order (o_uploads o)) in
      let* temps := take_temps (id_order (o_downloads o)) in
      let* errors := execute (mkPlan temps (path_order (download_directories o))) in
      ret (mkCleanup owner_id (Z.of_nat (size_of o_uploads o)) (Z.of_nat (size_of o_downloads o)) errors)
  end.

(** ** Downloads *)

Definition download_prepare_root (owner_id : list Z) (api_version : Z) (root_path : list Z) : WM (list Z) :=
  do* try_result (validate_api_version api_version) in
  do* try_result (validate_owner_id owner_id) in
  let* canonical_root := canonicalize_existing_root root_path in
  prepare_download_root owner_id canonical_root.

(** The beginning of every operation below a prepared root. *)
Definition checked_root (owner_id : list Z) (api_version : Z) (root_path : list Z) : WM PathBuf :=
  do* try_result (validate_api_version api_version) in
  do* try_result (validate_owner_id owner_id) in
  let* prepared := prepared_download_root owner_id in
  match prepared with
  | None => fail RootNotPrepared
  | Some prepared_root =>
      let* requested_root := canonicalize_existing_root root_path in
      if decide (prepared_root = requested_root) then ret prepared_root else fail RootMismatch
  end.
Definition target_path (prepared_root : PathBuf) (rel_components : list (list Z)) : WM PathBuf :=
  let* final_path := build_download_target_path prepared_root rel_components in
  do* try_result (ensure_within_root prepared_root final_path) in
  ret final_path.

Definition build_temp_path (final_path : PathBuf) (local_name : list Z) : WM PathBuf :=
  match parent final_path with
  | None => invalid "Final path has no parent: " final_path
  | Some parent_path =>
      let* id := new_uuid in
      ret (push parent_path ([46] ++ local_name ++ lit ".oxide-trzsz-" ++ id ++ lit ".part"))
  end.

Definition open_save_file (owner_id : list Z) (api_version : Z) (root_path file_name : list Z) (overwrite : bool)
    : WM TrzszDownloadOpenDto :=
  let* prepared_root := checked_root owner_id api_version root_path in
  let* rel_components := try_result (sanitize_download_rel_path nfc windows file_name) in
  let* final_path := target_path prepared_root rel_components in
  let* meta := on_fs (symlink_metadata final_path) in
  do* match meta with
      | Ok m =>
          if is_symlink m then symlink_error final_path
          else if is_directory m then invalid "Target path resolves to a directory: " final_path
          else if negb overwrite then fail (AlreadyExists (display final_path))
          else ret tt
      | Err _ => ret tt
      end in
  match last rel_components with
  | None => fail (InvalidPath (lit "Empty file name"))
  | Some local_name =>
      let* temp_path := build_temp_path final_path local_name in
      let* file := io (open_new fault temp_path) in
      register_download_handle owner_id local_name local_name prepared_root final_path temp_path overwrite file
  end.

(** The check of the parents in [create_download_directory]. *)
Fixpoint check_parents (parent_path : PathBuf) (components : list (list Z)) : WM unit :=
  match components with
  | [] => ret tt
  | component :: rest =>
      let parent_path := push parent_path component in
      let* meta := on_fs (symlink_metadata parent_path) in
      do* match meta with
          | Ok m =>
              if is_symlink m then symlink_error parent_path
              else if negb (is_directory m) then invalid "Parent path is not a directory: " parent_path
              else ret tt
          | Err error =>
              if decide (kind error = NotFound) then invalid "Parent directory does not exist: " parent_path
              else fail (IoError (io_text error))
          end in
      check_parents parent_path rest
  end.
Definition create_download_directory (owner_id : list Z) (api_version : Z) (root_path directory_path : list Z)
    (must_create : bool) : WM bool :=
  let* prepared_root := checked_root owner_id api_version root_path in
  let* rel_components := try_result (sanitize_download_rel_path nfc windows directory_path) in
  do* (if Nat.ltb 1 (length rel_components)
       then check_parents prepared_root (take (Nat.pred (length rel_components)) rel_components)
       else ret tt) in
  let* final_path := target_path prepared_root rel_components in
  let* meta := on_fs (symlink_metadata final_path) in
  match meta with
  | Ok m =>
      if is_symlink m then symlink_error final_path
      else if is_directory m then
        if must_create then fail (AlreadyExists (display final_path)) else ret false
      else invalid "Target path resolves to a file: " final_path
  | Err error =>
      if decide (kind error = NotFound) then
        do* io (create_dir fault final_path) in
        do* register_download_directory owner_id final_path in
        ret true
      else fail (IoError (io_text error))
  end.

Definition commit_download_directory (owner_id : list Z) (api_version : Z) (root_path directory_path : list Z)
    : WM unit :=
  let* prepared_root := checked_root owner_id api_version root_path in
  let* rel_components := try_result (sanitize_download_rel_path nfc windows directory_path) in
  let* final_path := target_path prepared_root rel_components in
  commit_directory owner_id final_path.

Definition remove_download_directory (owner_id : list Z) (api_version : Z) (root_path directory_path : list Z)
    : WM unit :=
  let* prepared_root := checked_root owner_id api_version root_path in
  let* rel_components := try_result (sanitize_download_rel_path nfc windows directory_path) in
  let* final_path := target_path prepared_root rel_components in
  let* meta := on_fs (symlink_metadata final_path) in
  match meta with
  | Ok m =>
      if is_symlink m then symlink_error final_path
      else if negb (is_directory m) then invalid "Target path is not a directory: " final_path
      else
        let* r := on_fs (remove_dir fault final_path) in
        match r with
        | Ok _ => commit_directory owner_id final_path
        | Err error =>
            if decide (kind error = DirectoryNotEmpty) then ret tt
            else if decide (kind error = NotFound) then commit_directory owner_id final_path
            else fail (IoError (io_text error))
        end
  | Err error =>
      if decide (kind error = NotFound) then commit_directory owner_id final_path
      else fail (IoError (io_text error))
  end.

Definition remove_download_file (owner_id : list Z) (api_version : Z) (root_path file_path : list Z) : WM unit :=
  let* prepared_root := checked_root owner_id api_version root_path in
  let* rel_components := try_result (sanitize_download_rel_path nfc windows file_path) in
  let* final_path := target_path prepared_root rel_components in
  let* meta := on_fs (symlink_metadata final_path) in
  match meta with
  | Ok m =>
      if is_symlink m then symlink_error final_path
      else if is_directory m then invalid "Target path is a directory: " final_path
      else
        let* r := on_fs (remove_file fault final_path) in
        match r with
        | Ok _ => ret tt
        | Err error => if decide (kind error = NotFound) then ret tt else fail (IoError (io_text error))
        end
  | Err error => if decide (kind error = NotFound) then ret tt else fail (IoError (io_text error))
  end.

Definition write_download_chunk (owner_id : list Z) (api_version : Z) (id data : list Z) : WM unit :=
  do* try_result (validate_api_version api_version) in
  do* try_result (validate_owner_id owner_id) in
  if MAX_TRANSFER_CHUNK_SIZE <? zlen data then fail (ChunkTooLarge (zlen data) MAX_TRANSFER_CHUNK_SIZE)
  else write_chunk owner_id id data.
Definition finish_download_file (owner_id : list Z) (api_version : Z) (id : list Z) : WM unit :=
  do* try_result (validate_api_version api_version) in
  do* try_result (validate_owner_id owner_id) in
  finish_download_handle owner_id id.
Definition abort_download_file (owner_id : list Z) (api_version : Z) (id : list Z) : WM unit :=
  do* try_result (validate_api_version api_version) in
  do* try_result (validate_owner_id owner_id) in
  abort_download_handle owner_id id.

(** ** Uploads *)

(** [fs::symlink_metadata] of a path as the user wrote it: a final separator or
    dot asks for the directory behind a link. *)
Definition raw_metadata (s : list Z) : FM Metadata :=
  let last_part := last (split_on 47 [] s) in
  if bool_decide (last_part = Some []) || bool_decide (last_part = Some [46])
  then fun fs => Some ((let? m := look resolve (parse_path s) fs in
                        if is_directory m then Ok m else Err ENOTDIR), fs)
  else symlink_metadata (parse_path s).

Record TrzszUploadEntryDto := mkEntry {
  e_path_id : Z;
  e_path : list Z;
  e_rel_path : list (list Z);
  e_size : Z;
  e_is_dir : bool
}.
Section Walk.
(** [WalkDir::new(..).follow_links(false)] of the walkdir crate: the entries
    below a directory, or errors. *)
Context (walkdir : FileSystem -> PathBuf -> list (result (list Z) PathBuf)).

(** The body of the loop over the walked entries. *)
Definition walk_entry (path_id : Z) (canonical_root : PathBuf) (rel_root : list (list Z))
    (e : result (list Z) PathBuf) : WM (PathBuf * TrzszUploadEntryDto) :=
  match e with
  | Err text => fail (InvalidPath text)
  | Ok path =>
      let* meta := io (symlink_metadata path) in
      if is_symlink meta then symlink_error path
      else
        match path_strip_prefix path canonical_root with
        | None => fail (InvalidPath (lit "prefix not found"))
        | Some relative =>
            let* rel_path :=
              (if bool_decide (relative = []) then ret rel_root
               else let* rest := try_result (sanitize_upload_rel_path nfc windows relative) in
                    ret (rel_root ++ rest)) in
            ret (path, mkEntry path_id (display path) rel_path (if is_file meta then meta_len meta else 0)
                         (is_directory meta))
        end
  end.
Fixpoint walk_entries (path_id : Z) (canonical_root : PathBuf) (rel_root : list (list Z))
    (l : list (result (list Z) PathBuf)) : WM (list (PathBuf * TrzszUploadEntryDto)) :=
  match l with
  | [] => ret []
  | e :: rest =>
      let* x := walk_entry path_id canonical_root rel_root e in
      let* xs := walk_entries path_id canonical_root rel_root rest in
      ret (x :: xs)
  end.
Definition upload_root (path_id : Z) (raw_path : list Z) (allow_directory : bool)
    : WM (list (PathBuf * TrzszUploadEntryDto)) :=
  let root := parse_path raw_path in
  let* meta := io (raw_metadata raw_path) in
  if is_symlink meta then fail (SymlinkNotAllowed raw_path)
  else if is_directory meta && negb allow_directory then fail (DirectoryNotAllowed raw_path)
  else
    let* canonical_root := io (canonicalize root) in
    match file_name root with
    | None => fail (InvalidPath raw_path)
    | Some last_name =>
        let* rel_root := try_result (sanitize_upload_rel_path nfc windows (parse_path last_name)) in
        if is_file meta then
          ret [(canonical_root, mkEntry path_id (display canonical_root) rel_root (meta_len meta) false)]
        else
          let* l := (fun w => Some (Ok (walkdir (w_fs w) canonical_root), w)) in
          walk_entries path_id canonical_root rel_root l
    end.
Fixpoint upload_roots (path_id : Z) (paths : list (list Z)) (allow_directory : bool)
    : WM (list (PathBuf * TrzszUploadEntryDto)) :=
  match paths with
  | [] => ret []
  | p :: rest =>
      let* x := upload_root path_id p allow_directory in
      let* xs := upload_roots (path_id + 1) rest allow_directory in
      ret (x ++ xs)
  end.
Definition build_upload_entries (owner_id : list Z) (api_version : Z) (paths : list (list Z)) (allow_directory : bool)
    : WM (list TrzszUploadEntryDto) :=
  do* try_result (validate_api_version api_version) in
  do* try_result (validate_owner_id owner_id) in
  if bool_decide (paths = []) then fail (InvalidPath (lit "At least one upload path is required"))
  else
    let* found := upload_roots 1 paths allow_directory in
    do* set_authorized_upload_paths owner_id (list_to_set (map fst found)) in
    ret (map snd found).
End Walk.

Definition open_upload_file (owner_id : list Z) (api_version : Z) (path : list Z) : WM TrzszUploadHandleDto :=
  do* try_result (validate_api_version api_version) in
  do* try_result (validate_owner_id owner_id) in
  let* meta := io (raw_metadata path) in
  if is_symlink meta then fail (SymlinkNotAllowed path)
  else if negb (is_file meta) then fail (InvalidPath (lit "Upload target is not a regular file: " ++ path))
  else
    let* canonical := io (canonicalize (parse_path path)) in
    let* authorized := is_upload_path_authorized owner_id canonical in
    if negb authorized then fail (UnauthorizedPath (display canonical))
    else
      let* file := io (open_read canonical) in
      register_upload_handle owner_id file (meta_len meta).
Definition upload_read_chunk (owner_id : list Z) (api_version : Z) (id : list Z) (offset length : Z) : WM (list Z) :=
  do* try_result (validate_api_version api_version) in
  do* try_result (validate_owner_id owner_id) in
  if MAX_TRANSFER_CHUNK_SIZE <? length then fail (ChunkTooLarge length MAX_TRANSFER_CHUNK_SIZE)
  else read_upload_chunk owner_id id offset length.
Definition close_upload_file (owner_id : list Z) (api_version : Z) (id : list Z) : WM unit :=
  do* try_result (validate_api_version api_version) in
  do* try_result (validate_owner_id owner_id) in
  close_upload_handle owner_id id.
End State.
