(* ===== verification/TrzszConfine.v ===== *)
(** * Downloads stay in the chosen folder

    The proofs about [TrzszState]: from a snapshot of the file system, all that
    the operations of one owner do, on whatever names the server sends, is to
    add entries below the owner's root.  Nothing that existed is changed,
    removed or reached through a link. *)
From S2P Require Import Prelude Text TrzszBuffer FileSystem TrzszState.
From Stdlib Require Import Ascii String.
From stdpp Require Import prelude numbers list gmap.
Open Scope Z_scope.

(** ** Names that are one component *)

Definition plain_name (n : name) : Prop :=
  n <> [] /\ n <> [46] /\ n <> [46; 46] /\ Forall (fun c => c <> 47) n.

Lemma split_on_plain s cur : Forall (fun c => c <> 47) s -> split_on 47 cur s = [reverse cur ++ s].
Proof.
  intros Hs. revert cur. induction Hs as [|c s Hc _ IH]; intros cur; cbn [split_on]; [by rewrite app_nil_r|].
  rewrite (proj2 (Z.eqb_neq c 47) Hc), IH, reverse_cons, <-app_assoc. done.
Qed.

Lemma parse_plain n : plain_name n -> parse_path n = [Normal n].
Proof.
  intros (H0 & H1 & H2 & Hs). assert (Hc : component_of n = Some (Normal n)).
  { unfold component_of. by rewrite !bool_decide_eq_false_2. }
  pose proof (split_on_plain n [] Hs) as Hp. rewrite reverse_nil in Hp. cbn [app] in Hp.
  unfold parse_path. rewrite Hp. cbn [head omap list_omap]. rewrite Hc, bool_decide_eq_false_2 by congruence.
  destruct Hs as [|c s Hc47]; [done|]. cbn [path_is_absolute]. by rewrite (proj2 (Z.eqb_neq c 47) Hc47).
Qed.

Lemma push_plain k n : plain_name n -> push (abs k) n = abs (k ++ [n]).
Proof. intros Hn. unfold push. rewrite (parse_plain n Hn). by rewrite abs_snoc. Qed.

Lemma push_all_plain k ns : Forall plain_name ns -> fold_left push ns (abs k) = abs (k ++ ns).
Proof.
  intros Hn. revert k. induction Hn as [|n ns Hn _ IH]; intros k; cbn; [by rewrite app_nil_r|].
  by rewrite push_plain, IH, <-app_assoc.
Qed.

Section Sanitize.
Context (nfc : list Z -> list Z) (windows : bool).

Lemma sanitize_component_plain c n : sanitize_component nfc windows c = Ok n -> plain_name n.
Proof.
  unfold sanitize_component. case_bool_decide as H0; [done|]. case_bool_decide as H1; [done|].
  destruct (bool_decide (nfc c = [46]) || _) eqn:E2; [done|]. apply orb_false_iff in E2 as [H2 H3].
  apply bool_decide_eq_false in H2, H3. destruct (existsb _ (nfc c)) eqn:E4; [done|].
  destruct (windows && _); [done|]. destruct (windows && _); [done|]. destruct (windows && _); [done|].
  intros [= <-]. split_and!; [done..|]. apply Forall_forall. intros x Hx ->.
  assert (existsb (fun ch => (ch =? 47) || (ch =? 92) || is_control ch) (nfc c) = true); [|congruence].
  apply existsb_exists. exists 47. split; [by apply list_elem_of_In|done].
Qed.

Lemma sanitize_all_plain l ns : sanitize_all nfc windows l = Ok ns -> Forall plain_name ns.
Proof.
  revert ns. induction l as [|c l IH]; intros ns; cbn [sanitize_all]; [intros [= <-]; constructor|].
  destruct (sanitize_component _ _ c) as [n|] eqn:E; [|done]. cbn.
  destruct (sanitize_all _ _ l) as [ns'|]; [|done]. intros [= <-].
  constructor; [by eapply sanitize_component_plain|by apply IH].
Qed.

Lemma sanitize_download_plain f ns :
  sanitize_download_rel_path nfc windows f = Ok ns -> Forall plain_name ns /\ ns <> [].
Proof.
  unfold sanitize_download_rel_path. destruct (sanitize_all _ _ _) as [l|] eqn:E; [|done]. cbn.
  case_bool_decide; [done|]. intros [= <-]. split; [by eapply sanitize_all_plain|done].
Qed.
End Sanitize.

(** ** Invariants of computations *)

(** [m] always ends, keeps [I], and its value has [P]. *)
Definition holds {E S A} (I : S -> Prop) (m : M E S A) (P : A -> Prop) : Prop :=
  forall s, I s -> wp m (fun r s' => I s' /\ match r with Ok a => P a | Err _ => True end) s.

Section Holds.
Context {S : Type} (I : S -> Prop).

Lemma holds_ret {A} (a : A) (P : A -> Prop) : P a -> holds I (ret (E := halt) a) P.
Proof. intros HP s HI. by apply wp_ret. Qed.
Lemma holds_throw {A} (e : halt) (P : A -> Prop) : holds I (throw e) P.
Proof. intros s HI. by apply wp_throw. Qed.
Lemma holds_bind {A B} (m : M halt S A) (f : A -> M halt S B) (P : A -> Prop) (Q : B -> Prop) :
  holds I m P -> (forall a, P a -> holds I (f a) Q) -> holds I (bind m f) Q.
Proof.
  intros Hm Hf s HI. apply wp_bind. eapply wp_mono; [by apply Hm|].
  intros [a|e] s' [HI' HP]; cbn; [by apply Hf|done].
Qed.
(** The same step in a proof that does not keep [I] to the end. *)
Lemma wp_holds {A B} (m : M halt S A) (f : A -> M halt S B) (P : A -> Prop) (Q : result halt B -> S -> Prop) s :
  holds I m P -> I s -> (forall e s', I s' -> Q (Err e) s') ->
  (forall a s', P a -> I s' -> wp (f a) Q s') -> wp (bind m f) Q s.
Proof.
  intros Hm HI He Hf. apply wp_bind. eapply wp_mono; [by apply Hm|]. intros [a|e] s' [H' HP]; cbn; auto.
Qed.
Lemma holds_mono {A} (m : M halt S A) (P Q : A -> Prop) : holds I m P -> (forall a, P a -> Q a) -> holds I m Q.
Proof. intros Hm HPQ s HI. eapply wp_mono; [by apply Hm|]. intros [a|e] s' [HI' HP]; split; auto. Qed.
Lemma holds_attempt {A} (m : M halt S A) (P : A -> Prop) :
  holds I m P -> holds I (attempt m) (fun r => match r with Ok a => P a | Err _ => True end).
Proof. intros Hm s HI. apply wp_attempt. eapply wp_mono; [by apply Hm|]. by intros [] s' H. Qed.
Lemma holds_try {A} (r : result TrzszError A) (P : A -> Prop) :
  (forall a, r = Ok a -> P a) -> holds I (try_result r) P.
Proof. intros Hr s HI. apply wp_lift. destruct r; cbn; auto. Qed.
Lemma holds_for_each {A} (f : A -> M halt S unit) l :
  (forall x, x ∈ l -> holds I (f x) (fun _ => True)) -> holds I (for_each f l) (fun _ => True).
Proof.
  induction l as [|x l IH]; intros Hf; cbn; [by apply holds_ret|].
  eapply holds_bind; [apply Hf; left|]. intros _ _. apply IH. intros y Hy. apply Hf. by right.
Qed.
End Holds.

Lemma insert_path_elem p q l : p ∈ insert_path q l -> p = q \/ p ∈ l.
Proof.
  induction l as [|x l IH]; cbn; [rewrite list_elem_of_singleton; auto|].
  destruct (deeper_first x q); rewrite !elem_of_cons; intuition.
Qed.
Lemma sort_paths_elem p l : p ∈ sort_paths l -> p ∈ l.
Proof.
  unfold sort_paths. enough (H : forall acc, p ∈ fold_left (fun acc p => insert_path p acc) l acc -> p ∈ l \/ p ∈ acc).
  { intros Hp. by destruct (H [] Hp) as [?|?%not_elem_of_nil]. }
  induction l as [|x l IH]; intros acc Hp; cbn in Hp; [by right|].
  destruct (IH _ Hp) as [?|[->|?]%insert_path_elem]; [left; by right|left; left|by right].
Qed.

(** ** The invariant of a download *)

(** Every place on the way is a directory. *)
Definition dir_chain (fs : FileSystem) (k : place) : Prop :=
  forall q, q `prefix_of` k -> node_at fs q = Some Dir.

Section Confine.
Context (fault : nat -> option (Z * io_error)) (clock : nat -> Z) (uuid : nat -> list Z).
Context (map_order : forall A, gmap (list Z) A -> list (list Z * A)).
Context (id_order : gset (list Z) -> list (list Z)) (path_order : gset PathBuf -> list PathBuf).
Context (nfc : list Z -> list Z) (windows : bool) (handle_ttl : Z).
(** Iterating over a hash set gives its elements. *)
Context (path_order_elem : forall (X : gset PathBuf) p, p ∈ path_order X -> p ∈ X).
(** Ids are text without separators. *)
Context (uuid_plain : forall i, Forall (fun c => c <> 47) (uuid i)).

(** The snapshot, the root, its owner. *)
Context (fs0 : FileSystem) (R : place) (me : list Z).
Context (R_dir : dir_chain fs0 R).

(** Nothing of the snapshot has changed; what is new is below the root, is no
    link and shares no data with the snapshot. *)
Record safe_fs (fs : FileSystem) : Prop := {
  sf_old : forall k x, nodes fs0 !! k = Some x -> nodes fs !! k = Some x;
  sf_data : forall i c, inodes fs0 !! i = Some c -> inodes fs !! i = Some c;
  sf_new : forall k x, nodes fs !! k = Some x -> nodes fs0 !! k = None ->
    (exists n r, k = R ++ n :: r) /\ (forall t, x <> Symlink t) /\ (forall i, x = File i -> inodes fs0 !! i = None);
  sf_fresh : forall i c, inodes fs0 !! i = Some c -> (i < next_ino fs)%nat
}.

(** A path of a new entry: its directories are below the root and are no
    links. *)
Definition new_path (p : PathBuf) : Prop :=
  exists k n, p = abs (R ++ k ++ [n]) /\ no_links fs0 (R ++ k) /\ nodes fs0 !! (R ++ k ++ [n]) = None.
Definition target (p : PathBuf) : Prop := exists k, k <> [] /\ p = abs (R ++ k) /\ Forall plain_name k.

Record handle_ok (fs : FileSystem) (h : DownloadHandle) : Prop := {
  hk_root : d_root h = abs R;
  hk_keep : d_overwrite h = false;
  hk_final : target (d_final h);
  hk_temp : new_path (d_temp h);
  hk_file : exists k i, d_temp h = abs k /\ f_node (d_file h) = Some i
                        /\ nodes fs !! k = Some (File i) /\ inodes fs0 !! i = None
}.

(** [held] is a handle that an operation is creating or finishing, [gone] are
    temporary files that it is about to remove. *)
Record Inv (held : option DownloadHandle) (gone : list PathBuf) (w : World) : Prop := {
  inv_fs : safe_fs (w_fs w);
  inv_handles : forall id h, download_handles (w_inner w) !! id = Some h ->
    handle_ok (w_fs w) h /\ (d_temp h ∉ gone) /\ (forall h', held = Some h' -> ~ d_temp h = d_temp h');
  inv_distinct : forall id id' h h', download_handles (w_inner w) !! id = Some h ->
    download_handles (w_inner w) !! id' = Some h' -> id <> id' -> d_temp h <> d_temp h';
  inv_held : forall h, held = Some h -> handle_ok (w_fs w) h /\ d_temp h ∉ gone;
  inv_gone : Forall new_path gone;
  inv_dirs : forall o ow p, owners (w_inner w) !! o = Some ow -> p ∈ download_directories ow -> new_path p;
  inv_root : forall ow p, owners (w_inner w) !! me = Some ow -> prepared_root ow = Some p -> p = abs R
}.

(** *** Paths in the snapshot and now *)

Lemma node_at_old fs k x : safe_fs fs -> node_at fs0 k = Some x -> node_at fs k = Some x.
Proof. intros Hs. destruct k; [done|]. apply (sf_old _ Hs). Qed.

Lemma no_links_now fs k : safe_fs fs -> no_links fs0 k -> no_links fs k.
Proof.
  intros Hs Hk q t Hq Hn. destruct (node_at fs0 q) as [x|] eqn:E.
  - pose proof (node_at_old _ _ _ Hs E). simplify_eq. by apply (Hk q t).
  - destruct q as [|y q]; [done|]. destruct (sf_new _ Hs _ _ Hn E) as (_ & H & _). by apply (H t).
Qed.
Lemma no_links_then fs k n :
  safe_fs fs -> no_links fs0 k -> (forall t, nodes fs !! (k ++ [n]) <> Some (Symlink t)) -> no_links fs0 (k ++ [n]).
Proof.
  intros Hs Hk Hn. apply no_links_snoc; [done|]. intros t E. apply (Hn t). by apply (sf_old _ Hs).
Qed.
Lemma R_links : no_links fs0 R.
Proof. intros q t Hq. by rewrite (R_dir q Hq). Qed.

(** *** Changes of the file system that keep it safe *)

Lemma safe_tick fs : safe_fs fs -> safe_fs (tick fs).
Proof. by intros []. Qed.
Lemma safe_synced fs l : safe_fs fs -> safe_fs (set_synced l fs).
Proof. by intros []. Qed.

Lemma safe_delete fs k : safe_fs fs -> nodes fs0 !! k = None -> safe_fs (set_nodes (delete k (nodes fs)) fs).
Proof.
  intros [Ho Hd Hn Hf] Hk. constructor; cbn; [|done| |done].
  - intros q x Hq. rewrite lookup_delete_ne by congruence. by apply Ho.
  - intros q x Hq. apply lookup_delete_Some in Hq as [_ Hq]. by apply Hn.
Qed.

Lemma safe_insert fs k n x :
  safe_fs fs -> nodes fs !! (R ++ k ++ [n]) = None -> (forall t, x <> Symlink t) ->
  (forall i, x = File i -> inodes fs0 !! i = None) -> safe_fs (set_nodes (<[R ++ k ++ [n] := x]> (nodes fs)) fs).
Proof.
  intros [Ho Hd Hn Hf] Hk Hx Hi. constructor; cbn; [|done| |done].
  - intros q y Hq. rewrite lookup_insert_ne; [by apply Ho|]. intros <-. by rewrite (Ho _ _ Hq) in Hk.
  - intros q y Hq H0. apply lookup_insert_Some in Hq as [[<- <-]|[_ Hq]]; [|by apply Hn].
    split_and!; [|done|done]. destruct k as [|m k]; cbn; eauto.
Qed.

Lemma absent_then fs k : safe_fs fs -> nodes fs !! k = None -> nodes fs0 !! k = None.
Proof. intros Hs Hk. destruct (nodes fs0 !! k) eqn:E; [|done]. by rewrite (sf_old _ Hs _ _ E) in Hk. Qed.

(** *** Steps of the world *)

Definition alive (w : World) (held : option DownloadHandle) (h : DownloadHandle) : Prop :=
  (exists id, download_handles (w_inner w) !! id = Some h) \/ held = Some h.

Lemma handle_ok_fs fs fs' h :
  handle_ok fs h -> (forall k i, d_temp h = abs k -> nodes fs !! k = Some (File i) -> nodes fs' !! k = Some (File i)) ->
  handle_ok fs' h.
Proof.
  intros [Hr Hk Hf Ht (k & i & Hp & Hi & Hn & H0)] Hsame. constructor; [done..|]. exists k, i. eauto.
Qed.

Lemma Inv_fs held gone w fs' :
  Inv held gone w -> safe_fs fs' ->
  (forall h k i, alive w held h -> d_temp h = abs k -> nodes (w_fs w) !! k = Some (File i) -> nodes fs' !! k = Some (File i)) ->
  Inv held gone (set_fs fs' w).
Proof.
  intros [Hf Hh Hd He Hg Ho Hr] Hs Hsame. constructor; cbn; try done.
  - intros id h Hid. destruct (Hh id h Hid) as (Hok & Hng & Hne). split_and!; [|done|done].
    eapply handle_ok_fs; [done|]. intros k i Hk. apply (Hsame h); [by left; exists id|done].
  - intros h Hh'. destruct (He h Hh') as [Hok Hng]. split; [|done].
    eapply handle_ok_fs; [done|]. intros k i Hk. apply (Hsame h); [by right|done].
Qed.

(** Adding entries keeps the invariant. *)
Lemma Inv_grow held gone w fs' :
  Inv held gone w -> safe_fs fs' -> (forall k x, nodes (w_fs w) !! k = Some x -> nodes fs' !! k = Some x) ->
  Inv held gone (set_fs fs' w).
Proof. intros HI Hs Hg. apply Inv_fs; [done..|]. intros h k i _ _ Hk. by apply Hg. Qed.

Definition owners_ok (m : gmap (list Z) OwnerState) : Prop :=
  (forall o ow p, m !! o = Some ow -> p ∈ download_directories ow -> new_path p)
  /\ (forall ow p, m !! me = Some ow -> prepared_root ow = Some p -> p = abs R).

Lemma Inv_owners_ok held gone w : Inv held gone w -> owners_ok (owners (w_inner w)).
Proof. intros []. by split. Qed.

Lemma Inv_inner held gone w s :
  Inv held gone w -> download_handles s = download_handles (w_inner w) -> owners_ok (owners s) ->
  Inv held gone (set_inner s w).
Proof. intros [] Hd [? ?]. constructor; cbn; rewrite ?Hd; done. Qed.

Abbreviation keep held gone := (holds (Inv held gone)).

Section Keep.
Context (held : option DownloadHandle) (gone : list PathBuf).

Lemma keep_inner : keep held gone inner (fun s => owners_ok (owners s)).
Proof. intros w HI. split; [done|]. by eapply Inv_owners_ok. Qed.
Lemma keep_now : keep held gone (now clock) (fun _ => True).
Proof. intros w []. split; [|done]. by constructor. Qed.
Lemma keep_uuid : keep held gone (new_uuid uuid) (fun id => exists i, id = uuid i).
Proof. intros w []. split; [by constructor|eauto]. Qed.
Lemma keep_read {A} (m : FM A) :
  (forall fs, exists r, m fs = Some (r, fs)) -> keep held gone (on_fs m) (fun _ => True).
Proof.
  intros Hm w HI. unfold wp, on_fs. destruct (Hm (w_fs w)) as [r ->]. split; [|done]. by destruct w.
Qed.
Lemma keep_owners (f : TrzszStateInner -> TrzszStateInner) :
  (forall s, download_handles (f s) = download_handles s) -> (forall s, owners_ok (owners s) -> owners_ok (owners (f s))) ->
  keep held gone (modify_inner f) (fun _ => True).
Proof.
  intros Hd Ho w HI. split; [|done]. apply Inv_inner; [done|by apply Hd|]. apply Ho. by eapply Inv_owners_ok.
Qed.
Lemma keep_io {A} (m : FM A) (P : A -> Prop) :
  keep held gone (on_fs m) (fun r => match r with Ok a => P a | Err _ => True end) -> keep held gone (io m) P.
Proof.
  intros Hm. eapply holds_bind; [done|]. intros [a|e] Ha; [by apply holds_ret|apply holds_throw].
Qed.
End Keep.

(** *** File operations *)

Section Files.
Context (held : option DownloadHandle) (gone : list PathBuf).

Lemma keep_look p : keep held gone (on_fs (symlink_metadata p)) (fun _ => True).
Proof. apply keep_read. intros fs. by eexists. Qed.

(** What the metadata of a path below the root says about the snapshot. *)
Lemma keep_look_dir k n :
  no_links fs0 (R ++ k) ->
  keep held gone (on_fs (symlink_metadata (abs (R ++ k ++ [n]))))
    (fun r => match r with Ok m => is_symlink m = false -> no_links fs0 (R ++ k ++ [n]) | Err _ => True end).
Proof.
  intros Hk w HI. pose proof (inv_fs _ _ _ HI) as Hs. unfold wp, on_fs, symlink_metadata.
  split; [by destruct w|]. rewrite app_assoc.
  pose proof (look_plain (w_fs w) (R ++ k) n (no_links_now _ _ Hs Hk)) as Hl.
  destruct (look _ _ _) as [m|]; [|done]. destruct Hl as (x & Hx & -> & _). intros Hm.
  eapply no_links_then; [done..|]. intros t Ht. by simplify_eq.
Qed.

Lemma keep_create_dir k n :
  no_links fs0 (R ++ k) ->
  keep held gone (on_fs (create_dir fault (abs (R ++ k ++ [n]))))
    (fun r => match r with
              | Ok _ => no_links fs0 (R ++ k ++ [n]) /\ new_path (abs (R ++ k ++ [n]))
              | Err _ => True
              end).
Proof.
  intros Hk w HI. pose proof (inv_fs _ _ _ HI) as Hs. unfold wp, on_fs, create_dir. rewrite !(app_assoc R).
  destruct (at_entry_plain fault (R ++ k) n (fun k n fs => match n with
              | None => Ok (set_nodes (<[k := Dir]> (nodes fs)) fs)
              | Some _ => Err EEXIST end) (w_fs w) (no_links_now _ _ Hs Hk)) as [[e ->]|(fs' & -> & _ & Hc)].
  - split; [|done]. apply Inv_grow; [done|by apply safe_tick|done].
  - destruct (nodes (w_fs w) !! _) eqn:E; [done|]. injection Hc as <-.
    assert (E0 : nodes fs0 !! ((R ++ k) ++ [n]) = None) by by eapply absent_then.
    split.
    + apply Inv_grow; [done| |].
      * rewrite <-app_assoc in E |- *. by apply (safe_insert (tick (w_fs w))); [by apply safe_tick|..].
      * intros q x Hq. cbn. rewrite lookup_insert_ne; [done|]. congruence.
    + split; [|exists k, n; rewrite <-app_assoc in *; done].
      apply no_links_snoc; [done|]. intros t. by rewrite E0.
Qed.

Lemma keep_remove_dir p : new_path p -> keep held gone (on_fs (remove_dir fault p)) (fun _ => True).
Proof.
  intros (k & n & -> & Hk & H0) w HI. pose proof (inv_fs _ _ _ HI) as Hs.
  unfold wp, on_fs, remove_dir. rewrite app_assoc in H0 |- *.
  match goal with |- context [at_entry fault ?p ?change] =>
    destruct (at_entry_plain fault (R ++ k) n change (w_fs w) (no_links_now _ _ Hs Hk)) as [[e ->]|(fs' & -> & _ & Hc)] end.
  - split; [|done]. apply Inv_grow; [done|by apply safe_tick|done].
  - split; [|done]. destruct (nodes (w_fs w) !! _) as [[]|] eqn:E; try done.
    destruct (decide _); [done|]. destruct (has_children _ _); [done|]. injection Hc as <-.
    apply Inv_fs; [done|by apply (safe_delete (tick (w_fs w))); [apply safe_tick|]|].
    intros h q i _ _ Hq. cbn. rewrite lookup_delete_ne; [done|]. congruence.
Qed.

(** A file that is not, or no longer, the temporary file of a handle. *)
Lemma keep_remove_file p :
  new_path p -> (forall w h, Inv held gone w -> alive w held h -> d_temp h <> p) ->
  keep held gone (on_fs (remove_file fault p)) (fun _ => True).
Proof.
  intros (k & n & -> & Hk & H0) Hp w HI. pose proof (inv_fs _ _ _ HI) as Hs.
  unfold wp, on_fs, remove_file. rewrite app_assoc in H0, Hp |- *.
  match goal with |- context [at_entry fault ?p ?change] =>
    destruct (at_entry_plain fault (R ++ k) n change (w_fs w) (no_links_now _ _ Hs Hk)) as [[e ->]|(fs' & -> & _ & Hc)] end.
  - split; [|done]. apply Inv_grow; [done|by apply safe_tick|done].
  - split; [|done].
    assert (fs' = set_nodes (delete ((R ++ k) ++ [n]) (nodes (w_fs w))) (tick (w_fs w))) as ->.
    { destruct (nodes (w_fs w) !! _) as [[]|]; by simplify_eq. }
    apply Inv_fs; [done|by apply (safe_delete (tick (w_fs w))); [apply safe_tick|]|].
    intros h q i Ha Ht Hq. cbn. rewrite lookup_delete_ne; [done|]. intros <-. by apply (Hp w h HI Ha).
Qed.
Lemma keep_remove_gone p :
  p ∈ gone -> keep held gone (on_fs (remove_file fault p)) (fun _ => True).
Proof.
  intros Hp w HI. apply keep_remove_file; [|  |done].
  - pose proof (inv_gone _ _ _ HI) as Hg. rewrite Forall_forall in Hg. by apply Hg.
  - intros w' h HI' [[id Hid]|Hh] <-.
    + by destruct (inv_handles _ _ _ HI' _ _ Hid) as (_ & ? & _).
    + by destruct (inv_held _ _ _ HI' _ Hh).
Qed.

Lemma keep_count_errors m l :
  (forall p, p ∈ l -> keep held gone (on_fs (m p)) (fun _ => True)) ->
  keep held gone (count_errors m l) (fun _ => True).
Proof.
  induction l as [|p l IH]; intros Hm; cbn; [by apply holds_ret|].
  eapply holds_bind; [apply Hm; left|]. intros r _.
  eapply holds_bind; [apply IH; intros q Hq; apply Hm; by right|]. intros e _. by apply holds_ret.
Qed.
End Files.

Lemma keep_execute held gone temps dirs :
  Forall (fun p => p ∈ gone) temps -> Forall new_path dirs -> keep held gone (execute fault (mkPlan temps dirs)) (fun _ => True).
Proof.
  intros Ht Hd. rewrite Forall_forall in Ht, Hd. unfold execute. cbn [temp_paths directory_paths].
  eapply holds_bind; [apply keep_count_errors; intros p Hp; apply keep_remove_gone; by apply Ht|]. intros a _.
  eapply holds_bind; [apply keep_count_errors; intros p Hp; apply keep_remove_dir; by apply Hd, sort_paths_elem|].
  intros b _. by apply holds_ret.
Qed.

(** *** Clean-up *)

Lemma Inv_shrink held gone gone' w : Inv held gone' w -> gone ⊆ gone' -> Inv held gone w.
Proof.
  intros [Hf Hh Hd He Hg Ho Hr] Hsub. constructor; try done.
  - intros id h Hid. destruct (Hh id h Hid) as (? & Hn & ?). split_and!; [done| |done]. intros Hin. by apply Hn, Hsub.
  - intros h Hh'. destruct (He h Hh') as [? Hn]. split; [done|]. intros Hin. by apply Hn, Hsub.
  - rewrite Forall_forall in Hg |- *. intros p Hp. by apply Hg, Hsub.
Qed.

Lemma Inv_delete held gone id w :
  Inv held gone w -> Inv held gone (set_inner (set_downloads (delete id (download_handles (w_inner w))) (w_inner w)) w).
Proof.
  intros [Hf Hh Hd He Hg Ho Hr]. constructor; cbn; try done.
  - intros i h [_ Hi]%lookup_delete_Some. by apply (Hh i).
  - intros i i' h h' [_ Hi]%lookup_delete_Some [_ Hi']%lookup_delete_Some. by apply (Hd i i').
Qed.

Lemma Inv_delete_gone held gone id h w :
  Inv held gone w -> download_handles (w_inner w) !! id = Some h ->
  Inv held (d_temp h :: gone) (set_inner (set_downloads (delete id (download_handles (w_inner w))) (w_inner w)) w).
Proof.
  intros HI Hid. pose proof (Inv_delete held gone id w HI) as HI'.
  destruct (inv_handles _ _ _ HI _ _ Hid) as (Hok & Hng & Hne).
  destruct HI' as [Hf Hh Hd He Hg Ho Hr]. constructor; try done.
  - intros i h' Hi. destruct (Hh i h' Hi) as (? & ? & ?). split_and!; [done| |done].
    apply not_elem_of_cons. split; [|done]. cbn in Hi. apply lookup_delete_Some in Hi as [Hii Hi].
    by apply (inv_distinct _ _ _ HI i id).
  - intros h' Hh'. destruct (He h' Hh') as [? ?]. split; [done|]. apply not_elem_of_cons. split; [|done].
    intros E. by apply (Hne h' Hh').
  - constructor; [apply (hk_temp _ _ Hok)|done].
Qed.

Lemma keep_touch_owner held gone o f :
  (forall ow, prepared_root (f ow) = prepared_root ow /\ download_directories (f ow) ⊆ download_directories ow) ->
  keep held gone (touch_owner clock o f) (fun _ => True).
Proof.
  intros Hf. unfold touch_owner. eapply holds_bind; [apply keep_inner|]. intros s _.
  destruct (owners s !! o); [|by apply holds_ret]. eapply holds_bind; [apply keep_now|]. intros t _.
  apply keep_owners; [done|]. intros s' [Ho Hr]. cbn. split.
  - intros o' ow p [[-> (ow' & Hl & ->)]|[_ Hl]]%lookup_alter_Some Hp; [|by apply (Ho o' ow)].
    apply (Ho o' ow'); [done|]. cbn in Hp. by apply (Hf ow').
  - intros ow p [[<- (ow' & Hl & ->)]|[_ Hl]]%lookup_alter_Some Hp; [|by apply (Hr ow)].
    apply (Hr ow'); [done|]. rewrite <-Hp. cbn. symmetry. apply Hf.
Qed.

(** A computation that may take handles out of the state. *)
Definition sheds {A} (held : option DownloadHandle) (m : WM A) (P : A -> list PathBuf -> Prop) : Prop :=
  forall gone w, Inv held gone w ->
  wp m (fun r w' => exists gone', gone ⊆ gone' /\ Inv held gone' w'
                                  /\ match r with Ok a => P a gone' | Err _ => True end) w.

Lemma sheds_bind {A B} held (m : WM A) (f : A -> WM B) P Q :
  sheds held m P ->
  (forall a gone, P a gone -> forall gone' w, gone ⊆ gone' -> Inv held gone' w ->
     wp (f a) (fun r w' => exists gone'', gone' ⊆ gone'' /\ Inv held gone'' w'
                                  /\ match r with Ok b => Q b gone'' | Err _ => True end) w) ->
  sheds held (bind m f) Q.
Proof.
  intros Hm Hf gone w HI. apply wp_bind. eapply wp_mono; [by apply Hm|].
  intros [a|e] w' (gone' & Hsub & HI' & HP); cbn; [|by exists gone'].
  eapply wp_mono; [by apply (Hf a gone')|]. intros r w'' (gone'' & Hsub' & H). exists gone''. split; [by trans gone'|done].
Qed.
Lemma sheds_keep_bind {A B} held (m : WM A) (f : A -> WM B) P Q :
  (forall gone, keep held gone m P) -> (forall a, P a -> sheds held (f a) Q) -> sheds held (bind m f) Q.
Proof.
  intros Hm Hf gone w HI. apply wp_bind. eapply wp_mono; [by apply (Hm gone)|].
  intros [a|e] w' [HI' HP]; cbn; [by apply Hf|by exists gone].
Qed.

Lemma take_download_sheds held id :
  sheds held (take_download id) (fun h gone => match h with Some h => d_temp h ∈ gone | None => True end).
Proof.
  intros gone w HI. unfold wp, take_download, inner, modify_inner, bind, ret.
  destruct (download_handles (w_inner w) !! id) as [h|] eqn:E.
  - exists (d_temp h :: gone). split_and!; [by apply list_subseteq_cons|by apply Inv_delete_gone|left].
  - exists gone. split_and!; [done|by apply Inv_delete|done].
Qed.

Lemma purge_downloads_sheds held l :
  sheds held (purge_downloads clock l) (fun L gone => Forall (fun p => p ∈ gone) L).
Proof.
  induction l as [|[id o] l IH]; cbn [purge_downloads].
  { intros gone w HI. exists gone. by split_and!. }
  eapply sheds_bind; [apply take_download_sheds|]. intros h g1 Hh g2 w Hsub HI.
  apply wp_bind. eapply wp_mono; [apply (keep_touch_owner held g2); [by split|done]|].
  intros [[]|e] w' [HI' _]; cbn; [|by exists g2]. apply wp_bind. eapply wp_mono; [by apply IH|].
  intros [L|e] w'' (g3 & Hsub' & HI'' & HL); cbn; exists g3; split_and!; try done.
  destruct h; [|done]. constructor; [by apply Hsub', Hsub|done].
Qed.

Lemma keep_purge_owners held gone l : keep held gone (purge_owners path_order l) (Forall new_path).
Proof.
  induction l as [|o l IH]; cbn [purge_owners]; [apply holds_ret; constructor|].
  intros w HI. apply wp_bind. cbn. apply wp_bind.
  eapply wp_mono; [apply (keep_owners held gone); [done| |done]|].
  { intros s [Ho Hr]. split; cbn; intros; [eapply Ho|eapply Hr]; try done; by eapply lookup_delete_Some. }
  intros [[]|e] w' [HI' _]; cbn; [|done]. apply wp_bind. eapply wp_mono; [by apply IH|].
  intros [L|e] w'' [HI'' HL]; cbn; [|done]. split; [done|].
  destruct (owners (w_inner w) !! o) as [ow|] eqn:E; [|done]. apply Forall_app. split; [|done].
  apply Forall_forall. intros p Hp. eapply (inv_dirs _ _ _ HI); [done|by apply path_order_elem].
Qed.

Abbreviation collect := (collect_expired_cleanup clock map_order path_order handle_ttl).
Lemma collect_sheds held :
  sheds held collect (fun plan gone => Forall (fun p => p ∈ gone) (temp_paths plan) /\ Forall new_path (directory_paths plan)).
Proof.
  unfold collect_expired_cleanup.
  eapply sheds_keep_bind; [intros; apply keep_now|]. intros t _.
  eapply sheds_keep_bind; [intros; apply keep_inner|]. intros s _.
  eapply sheds_keep_bind.
  { intros gone. apply holds_for_each. intros e _. eapply holds_bind; [by apply keep_owners|]. intros _ _.
    by apply keep_touch_owner. }
  intros _ _. eapply sheds_keep_bind; [intros; apply keep_inner|]. intros s' _.
  eapply sheds_bind; [apply purge_downloads_sheds|]. intros L g1 HL g2 w Hsub HI.
  eapply wp_mono.
  - eapply (holds_bind (Inv held g2)); [apply keep_inner| |done]. intros s'' _.
    eapply holds_bind; [apply keep_purge_owners|]. intros D HD.
    apply (holds_ret _ _ (fun plan => temp_paths plan = L /\ Forall new_path (directory_paths plan))). done.
  - intros r w' [HI' HP]. exists g2. split_and!; [done..|]. destruct r as [plan|]; [|done]. destruct HP as [-> HD].
    split; [|done]. apply (Forall_impl _ _ _ HL). intros p Hp. by apply Hsub.
Qed.

Abbreviation purge := (purge_expired fault clock map_order path_order handle_ttl).
Lemma keep_purge held gone : keep held gone purge (fun _ => True).
Proof.
  intros w HI. apply wp_bind. eapply wp_mono; [by apply collect_sheds|].
  intros [plan|e] w' (gone' & Hsub & HI' & HP); cbn; [|split; [by eapply Inv_shrink|done]].
  destruct HP as [Ht Hd]. destruct plan as [temps dirs]. apply wp_bind.
  eapply wp_mono; [by apply (keep_execute held gone' temps dirs)|].
  intros [n|e] w'' [HI'' _]; cbn; (split; [by eapply Inv_shrink|done]).
Qed.

(** *** Operations of the state *)

Section StateOps.
Context (held : option DownloadHandle) (gone : list PathBuf).

Lemma keep_with_owner t o f :
  (forall ow p, p ∈ download_directories (f ow) -> p ∈ download_directories ow \/ new_path p) ->
  (forall ow p, prepared_root (f ow) = Some p -> prepared_root ow = Some p \/ p = abs R) ->
  keep held gone (with_owner t o f) (fun _ => True).
Proof.
  intros Hd Hr. apply keep_owners; [done|]. intros s [Ho Hp]. cbn. split.
  - intros o' ow p [[<- <-]|[_ Hl]]%lookup_insert_Some Hin; [|by eapply Ho].
    destruct (Hd _ _ Hin) as [Hin'|]; [|done]. destruct (owners s !! o) as [ow|] eqn:E; cbn in Hin'; [by eapply Ho|].
    by apply not_elem_of_empty in Hin'.
  - intros ow p [[-> <-]|[_ Hl]]%lookup_insert_Some Hin; [|by eapply Hp].
    destruct (Hr _ _ Hin) as [Hin'|]; [|done]. by destruct (owners s !! me) as [ow|] eqn:E; cbn in Hin'; [eapply Hp|].
Qed.

Lemma keep_on_owner o f :
  (forall ow, prepared_root (f ow) = prepared_root ow /\ download_directories (f ow) ⊆ download_directories ow) ->
  keep held gone (on_owner o f) (fun _ => True).
Proof.
  intros Hf. apply keep_owners; [done|]. intros s' [Ho Hr]. cbn. split.
  - intros o' ow p [[-> (ow' & Hl & ->)]|[_ Hl]]%lookup_alter_Some Hp; [|by apply (Ho o' ow)].
    apply (Ho o' ow'); [done|]. by apply (Hf ow').
  - intros ow p [[<- (ow' & Hl & ->)]|[_ Hl]]%lookup_alter_Some Hp; [|by apply (Hr ow)].
    apply (Hr ow'); [done|]. rewrite <-Hp. symmetry. apply Hf.
Qed.

Lemma keep_prepared_root :
  keep held gone (prepared_download_root fault clock map_order path_order handle_ttl me)
    (fun o => forall p, o = Some p -> p = abs R).
Proof.
  unfold prepared_download_root. eapply holds_bind; [apply keep_purge|]. intros _ _.
  eapply holds_bind; [apply keep_inner|]. intros s [_ Hr]. destruct (owners s !! me) as [ow|] eqn:E; [|by apply holds_ret].
  eapply holds_bind; [apply keep_now|]. intros t _. eapply holds_bind; [by apply keep_on_owner|]. intros _ _.
  apply holds_ret. intros p Hp. by eapply Hr.
Qed.

Lemma keep_canonicalize root : keep held gone (canonicalize_existing_root root) (fun _ => True).
Proof.
  unfold canonicalize_existing_root. eapply (holds_bind _ _ _ (fun _ => True)).
  - apply keep_io. eapply holds_mono; [apply keep_read; intros fs; by eexists|]. by intros [].
  - intros m _. destruct (is_directory m); [|apply holds_throw].
    apply keep_io. eapply holds_mono; [apply keep_read; intros fs; by eexists|]. by intros [].
Qed.

Abbreviation checked := (checked_root fault clock map_order path_order handle_ttl).
Lemma keep_checked_root api root : keep held gone (checked me api root) (fun p => p = abs R).
Proof.
  unfold checked_root. eapply holds_bind; [by apply (holds_try _ _ (fun _ => True))|]. intros _ _.
  eapply holds_bind; [by apply (holds_try _ _ (fun _ => True))|]. intros _ _.
  eapply holds_bind; [apply keep_prepared_root|]. intros [p|] Hp; [|apply holds_throw].
  eapply holds_bind; [apply keep_canonicalize|]. intros q _. destruct (decide (p = q)); [|apply holds_throw].
  apply holds_ret. by apply Hp.
Qed.

(** *** Path guards *)

Lemma keep_build_parents cs : forall k,
  no_links fs0 (R ++ k) -> Forall plain_name cs ->
  keep held gone (build_parents fault (abs (R ++ k)) cs) (fun _ => no_links fs0 (R ++ k ++ cs)).
Proof.
  induction cs as [|c cs IH]; intros k Hk Hcs; cbn [build_parents].
  { rewrite app_nil_r. by apply holds_ret. }
  inversion Hcs as [|? ? Hc Hcs']; subst. rewrite push_plain, <-app_assoc by done.
  eapply holds_bind; [by apply keep_look_dir|]. intros r Hr.
  eapply (holds_bind _ _ _ (fun _ => no_links fs0 (R ++ k ++ [c]))).
  - destruct r as [m|e].
    + destruct (is_symlink m) eqn:E; [apply holds_throw|]. destruct (negb (is_directory m)); [apply holds_throw|].
      apply holds_ret. by apply Hr.
    + destruct (decide _); [|apply holds_throw]. apply keep_io.
      eapply holds_mono; [by apply keep_create_dir|]. by intros [|] []; cbn.
  - intros _ Hkc. replace (k ++ c :: cs) with ((k ++ [c]) ++ cs) by by rewrite <-app_assoc. by apply IH.
Qed.

Lemma keep_validate_parents cs : forall k,
  no_links fs0 (R ++ k) -> Forall plain_name cs ->
  keep held gone (validate_parents (abs (R ++ k)) (map Normal cs)) (fun _ => no_links fs0 (R ++ k ++ cs)).
Proof.
  induction cs as [|c cs IH]; intros k Hk Hcs; cbn [map validate_parents component_text].
  { rewrite app_nil_r. by apply holds_ret. }
  inversion Hcs as [|? ? Hc Hcs']; subst. rewrite push_plain, <-app_assoc by done.
  eapply holds_bind; [by apply keep_look_dir|]. intros r Hr.
  eapply (holds_bind _ _ _ (fun _ => no_links fs0 (R ++ k ++ [c]))).
  - destruct r as [m|e].
    + destruct (is_symlink m) eqn:E; [apply holds_throw|]. destruct (negb (is_directory m)); [apply holds_throw|].
      apply holds_ret. by apply Hr.
    + destruct (decide _); apply holds_throw.
  - intros _ Hkc. replace (k ++ c :: cs) with ((k ++ [c]) ++ cs) by by rewrite <-app_assoc. by apply IH.
Qed.

(** The target of a sanitised name: below the root, its directories are no
    links. *)
Definition spelled (cs : list name) (p : PathBuf) : Prop :=
  exists k n, cs = k ++ [n] /\ p = abs (R ++ cs) /\ no_links fs0 (R ++ k).

Lemma keep_target_path cs :
  Forall plain_name cs -> cs <> [] -> keep held gone (target_path fault (abs R) cs) (spelled cs).
Proof.
  intros Hcs Hne. destruct cs as [|n k _] using rev_ind; [done|]. clear Hne.
  pose proof Hcs as [Hk _]%Forall_app. unfold target_path.
  eapply (holds_bind _ _ _ (spelled (k ++ [n]))).
  - unfold build_download_target_path. rewrite bool_decide_eq_false_2 by by destruct k.
    rewrite take_snoc, push_all_plain by done.
    eapply (holds_bind _ _ _ (fun _ => no_links fs0 (R ++ k))).
    { pose proof (keep_build_parents k []) as Hb. rewrite app_nil_r in Hb. apply Hb; [apply R_links|done]. }
    intros _ Hl.
    assert (Hsp : spelled (k ++ [n]) (abs (R ++ k ++ [n]))) by by exists k, n.
    eapply holds_bind; [apply keep_look|]. intros [m|e] _; [|by apply holds_ret].
    destruct (is_symlink m); [apply holds_throw|by apply holds_ret].
  - intros p Hp. eapply holds_bind; [by apply (holds_try _ _ (fun _ => True))|]. intros _ _. by apply holds_ret.
Qed.
End StateOps.

(** *** Opening a file *)

Definition handle_for (final temp : PathBuf) (f : OpenFile) : DownloadHandle :=
  mkDownload me (abs R) final temp false f 0.

Lemma open_new_held k n final w :
  Inv None [] w -> no_links fs0 (R ++ k) -> target final ->
  wp (on_fs (open_new fault (abs (R ++ k ++ [n]))))
    (fun r w' => match r with
                 | Ok (Ok f) => Inv (Some (handle_for final (abs (R ++ k ++ [n])) f)) [] w'
                 | _ => Inv None [] w'
                 end) w.
Proof.
  intros HI Hk Hfin. pose proof (inv_fs _ _ _ HI) as Hs. unfold wp, on_fs, open_new, faulty. rewrite (app_assoc R).
  assert (Ht : Inv None [] (set_fs (tick (w_fs w)) w)) by (apply Inv_grow; [done|by apply safe_tick|done]).
  destruct (fault (calls (w_fs w))) as [[]|]; [done|]. rewrite entry_tick.
  destruct (entry (w_fs w) _) as [d|e] eqn:E; [|done].
  apply entry_plain in E as [-> _]; [|by apply no_links_now]. rewrite node_at_snoc. cbn [nodes tick].
  destruct (nodes (w_fs w) !! _) eqn:En; [done|]. cbn [next_ino tick inodes cwd calls].
  set (i := next_ino (w_fs w)). set (key := (R ++ k) ++ [n]) in *.
  assert (Hi : inodes fs0 !! i = None).
  { destruct (inodes fs0 !! i) eqn:E; [|done]. pose proof (sf_fresh _ Hs _ _ E). lia. }
  set (fs' := mkFs _ _ _ _ _ _).
  assert (Hgrow : forall q x, nodes (w_fs w) !! q = Some x -> nodes fs' !! q = Some x).
  { intros q x Hq. cbn. rewrite lookup_insert_ne; [done|]. congruence. }
  assert (Hs' : safe_fs fs').
  { assert (Hins : safe_fs (set_nodes (<[key := File i]> (nodes (w_fs w))) (w_fs w))).
    { subst key. rewrite <-app_assoc in En |- *. apply safe_insert; [done..|]. by intros ? [= <-]. }
    destruct Hins as [H1 H2 H3 H4]. constructor; cbn; [done| |done|].
    - intros j c Hj. rewrite lookup_insert_ne; [by apply (sf_data _ Hs)|]. congruence.
    - intros j c Hj. pose proof (sf_fresh _ Hs _ _ Hj). lia. }
  pose proof (Inv_grow _ _ _ _ HI Hs' Hgrow) as [Hf' Hh Hd He Hg Ho Hr]. constructor; try done.
  - intros id h Hid. destruct (Hh id h Hid) as (Hok & Hng & _). split_and!; [done..|]. intros h' [= <-] Heq. cbn in Heq.
    destruct (inv_handles _ _ _ HI _ _ Hid) as ([_ _ _ _ (q & j & Hp & _ & Hn & _)] & _ & _).
    rewrite Hp in Heq. apply (inj abs) in Heq. congruence.
  - intros h [= <-]. split; [|by apply not_elem_of_nil]. constructor; cbn; [done..| |].
    + exists k, n. rewrite (app_assoc R). split_and!; [done..|]. exact (absent_then _ _ Hs En).
    + exists key, i. split_and!; [done..| |done]. by rewrite lookup_insert_eq.
Qed.

Lemma Inv_insert id h gone w :
  Inv (Some h) gone w -> forall t,
  Inv None gone (set_inner (set_downloads (<[id := set_file t (d_file h) h]> (download_handles (w_inner w))) (w_inner w)) w).
Proof.
  intros [Hf Hh Hd He Hg Ho Hr] t. destruct (He h eq_refl) as [Hok Hng].
  assert (Hok' : handle_ok (w_fs w) (set_file t (d_file h) h)) by (destruct Hok; by constructor).
  constructor; cbn; try done.
  - intros i h' [[<- <-]|[_ Hi]]%lookup_insert_Some; [by split_and!|].
    destruct (Hh i h' Hi) as (? & ? & _). by split_and!.
  - intros i i' h1 h2 [[<- <-]|[Hi1 Hl1]]%lookup_insert_Some [[<- <-]|[Hi2 Hl2]]%lookup_insert_Some Hne; try done.
    + cbn. intros E. destruct (Hh i' h2 Hl2) as (_ & _ & H). by apply (H h).
    + cbn. destruct (Hh i h1 Hl1) as (_ & _ & H). by apply (H h).
    + by apply (Hd i i').
Qed.

Abbreviation register := (register_download_handle fault clock uuid map_order path_order handle_ttl).
Lemma register_held final temp f name1 name2 w :
  Inv (Some (handle_for final temp f)) [] w ->
  wp (register me name1 name2 (abs R) final temp false f) (fun _ w' => Inv None [] w') w.
Proof.
  set (h := handle_for final temp f). intros HI.
  assert (Hdrop : forall w, Inv (Some h) [] w -> Inv None [] w).
  { intros w' [Hf Hh Hd He Hg Ho Hr]. constructor; try done. intros i h' Hi. by destruct (Hh i h' Hi) as (? & ? & _). }
  unfold register_download_handle.
  eapply wp_holds; [apply keep_purge|done|auto|]. intros _ w1 _ H1.
  eapply wp_holds; [apply keep_uuid|done|auto|]. intros id w2 _ H2.
  eapply wp_holds; [apply keep_now|done|auto|]. intros t w3 _ H3.
  eapply wp_holds; [by apply keep_with_owner; auto|done|auto|]. intros _ w4 _ H4.
  eapply wp_holds; [apply keep_inner|done|auto|]. intros s w5 _ H5.
  destruct (Nat.leb _ _); [apply wp_throw; auto|].
  eapply wp_holds; [by apply keep_on_owner|done|auto|]. intros _ w6 _ H6.
  exact (Inv_insert id h [] w6 H6 t).
Qed.

Lemma stem_plain n i : plain_name n -> plain_name ([46] ++ n ++ lit ".oxide-trzsz-" ++ uuid i ++ lit ".part").
Proof.
  intros (Hn & _ & _ & Hs). split_and!; [done| | |].
  - by destruct n.
  - destruct n as [|a [|b n]]; done.
  - apply Forall_app. split; [by repeat constructor|]. apply Forall_app. split; [done|].
    apply Forall_app. split; [by repeat constructor|]. apply Forall_app. split; [done|by repeat constructor].
Qed.

Lemma keep_sanitize held gone file :
  keep held gone (try_result (sanitize_download_rel_path nfc windows file)) (fun cs => Forall plain_name cs /\ cs <> []).
Proof. apply holds_try. intros cs. apply sanitize_download_plain. Qed.

Abbreviation open_save := (open_save_file fault clock uuid map_order path_order nfc windows handle_ttl).
Lemma keep_open_save_file api root file : keep None [] (open_save me api root file false) (fun _ => True).
Proof.
  unfold open_save_file. eapply holds_bind; [apply keep_checked_root|]. intros ? ->.
  eapply holds_bind; [apply keep_sanitize|]. intros cs [Hcs Hne].
  eapply holds_bind; [by apply keep_target_path|]. intros p (k & n & -> & -> & Hk).
  pose proof Hcs as [_ Hn]%Forall_app. apply Forall_inv in Hn.
  eapply holds_bind; [apply keep_look|]. intros meta _.
  eapply (holds_bind _ _ _ (fun _ => True)).
  { destruct meta as [m|]; [|by apply holds_ret]. destruct (is_symlink m), (is_directory m); apply holds_throw. }
  intros _ _. rewrite last_snoc. eapply (holds_bind _ _ _ (fun p => exists s, plain_name s /\ p = abs (R ++ k ++ [s]))).
  { unfold build_temp_path, parent. rewrite app_assoc, abs_snoc, last_snoc, take_snoc.
    eapply holds_bind; [apply keep_uuid|]. intros ? [i ->]. apply holds_ret.
    rewrite push_plain by by apply stem_plain. eexists. split; [by apply (stem_plain n i)|]. by rewrite <-app_assoc. }
  intros ? (s & Hs & ->) w HI. assert (Hfin : target (abs (R ++ k ++ [n]))).
  { exists (k ++ [n]). split_and!; [by destruct k|done..]. }
  apply wp_bind, wp_bind. eapply wp_mono; [by eapply open_new_held|].
  intros [[f|e]|e] w' H; cbn; try by split. eapply wp_mono; [by apply register_held|].
  intros r w'' H''. split; [done|]. by destruct r.
Qed.

(** *** Writing, finishing, aborting *)

Lemma safe_write fs i g :
  safe_fs fs -> inodes fs0 !! i = None -> safe_fs (set_inodes (alter g i (inodes fs)) fs).
Proof.
  intros [Ho Hd Hn Hf] Hi. constructor; cbn; try done. intros j c Hj. rewrite lookup_alter_ne by congruence. by apply Hd.
Qed.

Lemma Inv_update id h t f w :
  Inv None [] w -> download_handles (w_inner w) !! id = Some h -> f_node f = f_node (d_file h) ->
  Inv None [] (set_inner (set_downloads (<[id := set_file t f h]> (download_handles (w_inner w))) (w_inner w)) w).
Proof.
  intros [Hf Hh Hd He Hg Ho Hr] Hid Hn. constructor; cbn; try done.
  - intros i h' [[<- <-]|[_ Hi]]%lookup_insert_Some; [|by apply (Hh i)].
    destruct (Hh id h Hid) as ([? ? ? ? Hfile] & ? & ?). split_and!; [|done|done]. constructor; cbn; try done. by rewrite Hn.
  - intros i i' h1 h2 [[<- <-]|[Hi1 Hl1]]%lookup_insert_Some [[<- <-]|[Hi2 Hl2]]%lookup_insert_Some Hne; try done; cbn.
    + by apply (Hd id i').
    + by apply (Hd i id).
    + by apply (Hd i i').
Qed.

Lemma keep_write_chunk o id data :
  keep None [] (write_chunk fault clock map_order path_order handle_ttl o id data) (fun _ => True).
Proof.
  unfold write_chunk. eapply holds_bind; [apply keep_purge|]. intros _ _.
  eapply holds_bind; [apply keep_now|]. intros t _. eapply holds_bind; [by apply keep_on_owner|]. intros _ _ w HI.
  apply wp_bind. cbn. destruct (download_handles (w_inner w) !! id) as [h|] eqn:E; [|done].
  destruct (decide _); [|done]. apply wp_bind. unfold wp, on_fs, write_all.
  destruct (inv_handles _ _ _ HI _ _ E) as ([_ _ _ _ (k & i & Hp & Hi & Hk & H0)] & _ & _). rewrite Hi.
  pose proof (inv_fs _ _ _ HI) as Hs.
  assert (Hw : forall d, Inv None [] (set_fs (set_inodes (alter (store_at (f_pos (d_file h)) d) i (inodes (w_fs w))) (tick (w_fs w))) w)).
  { intros d. apply Inv_grow; [done| |done]. apply (safe_write (tick (w_fs w))); [by apply safe_tick|done]. }
  destruct (fault (calls (w_fs w))) as [[n err]|]; cbn; (split; [|done]).
  - apply (Inv_update id h t (mkOpen _ _ _) _ (Hw (ztake n data)) E). by rewrite Hi.
  - apply (Inv_update id h t (mkOpen _ _ _) _ (Hw data) E). by rewrite Hi.
Qed.

Lemma Inv_release h gone w : Inv (Some h) gone w -> Inv None (d_temp h :: gone) w.
Proof.
  intros [Hf Hh Hd He Hg Ho Hr]. destruct (He h eq_refl) as [Hok Hn]. constructor; try done.
  - intros id h' Hid. destruct (Hh id h' Hid) as (? & ? & Hne). split_and!; [done| |done].
    apply not_elem_of_cons. split; [by apply Hne|done].
  - constructor; [apply (hk_temp _ _ Hok)|done].
Qed.

Lemma claim_download_held o id w :
  Inv None [] w ->
  wp (claim_download clock o id)
    (fun r w' => match r with Ok h => Inv (Some h) [] w' | Err _ => Inv None [] w' end) w.
Proof.
  intros HI. apply wp_bind. cbn. destruct (download_handles (w_inner w) !! id) as [h|] eqn:E; [|done].
  destruct (decide _); [|done]. apply wp_bind. cbn.
  set (w1 := set_inner _ w). assert (HI1 : Inv (Some h) [] w1).
  { destruct (inv_handles _ _ _ HI _ _ E) as (Hok & _ & _).
    destruct (Inv_delete _ _ id _ HI) as [Hf Hh Hd He Hg Ho Hr]. constructor; try done.
    - intros i h' Hi. destruct (Hh i h' Hi) as (? & ? & _). split_and!; [done..|]. intros ? [= <-].
      cbn in Hi. apply lookup_delete_Some in Hi as [Hii Hi]. by apply (inv_distinct _ _ _ HI i id).
    - intros ? [= <-]. split; [done|by apply not_elem_of_nil]. }
  apply wp_bind. eapply wp_mono; [by eapply keep_touch_owner|].
  intros [[]|err] w' [H' _]; cbn; [done|]. eapply Inv_shrink; [by apply Inv_release|]. by intros ? ?%not_elem_of_nil.
Qed.

Lemma keep_sync held gone f : keep held gone (io (sync_all fault f)) (fun _ => True).
Proof.
  apply keep_io. intros w HI. unfold wp, on_fs, sync_all, faulty.
  assert (Ht : Inv held gone (set_fs (tick (w_fs w)) w)).
  { apply Inv_grow; [done|apply safe_tick, (inv_fs _ _ _ HI)|done]. }
  destruct (fault (calls (w_fs w))) as [[]|]; [done|]. split; [|done].
  apply Inv_grow; [done|apply safe_synced, safe_tick, (inv_fs _ _ _ HI)|done].
Qed.

Lemma keep_validate held gone final :
  target final ->
  keep held gone (validate_download_target_path (abs R) final)
    (fun _ => exists k n, final = abs (R ++ k ++ [n]) /\ no_links fs0 (R ++ k)).
Proof.
  intros (cs & Hne & -> & Hcs). destruct cs as [|n k _] using rev_ind; [done|]. apply Forall_app in Hcs as [Hk _].
  unfold validate_download_target_path. eapply holds_bind; [by apply (holds_try _ _ (fun _ => True))|]. intros _ _.
  unfold parent. rewrite app_assoc, abs_snoc, last_snoc, take_snoc, <-abs_snoc, <-app_assoc.
  eapply holds_bind; [by apply (holds_try _ _ (fun _ => True))|]. intros _ _.
  assert (path_strip_prefix (abs (R ++ k)) (abs R) = Some (map Normal k)) as ->.
  { unfold path_strip_prefix, starts_with, abs. rewrite map_app. rewrite bool_decide_eq_true_2 by by exists (map Normal k).
    f_equal. cbn. by rewrite drop_app_length. }
  eapply (holds_bind _ _ _ (fun _ => no_links fs0 (R ++ k))).
  { pose proof (keep_validate_parents held gone k []) as Hv. rewrite app_nil_r in Hv. apply Hv; [apply R_links|done]. }
  intros _ Hl. eapply holds_bind; [apply keep_look|]. intros [m|] _; [|apply holds_ret; eauto].
  destruct (is_symlink m); [apply holds_throw|]. destruct (is_directory m); [apply holds_throw|apply holds_ret; eauto].
Qed.

(** The rename moves the temporary file to a free place. *)
Lemma rename_held h w k n :
  Inv (Some h) [] w -> d_final h = abs (R ++ k ++ [n]) -> no_links fs0 (R ++ k) ->
  (entry (w_fs w) (d_final h) = Ok (R ++ k ++ [n]) -> nodes (w_fs w) !! (R ++ k ++ [n]) = None) ->
  wp (on_fs (rename fault (d_temp h) (d_final h)))
    (fun r w' => match r with Ok (Ok _) => Inv None [] w' | _ => Inv (Some h) [] w' end) w.
Proof.
  intros HI Hfin Hk Hfree. pose proof (inv_fs _ _ _ HI) as Hs.
  destruct (inv_held _ _ _ HI h eq_refl) as [[_ _ _ (kt & nt & Ht & Hkt & Ht0) (q & i & Hq & _ & Hqi & Hi0)] _].
  assert (q = R ++ kt ++ [nt]) as -> by (apply (inj abs); congruence).
  unfold wp, on_fs, rename. rewrite Ht, (app_assoc R).
  match goal with |- context [at_entry fault ?p ?change] =>
    destruct (at_entry_plain fault (R ++ kt) nt change (w_fs w) (no_links_now _ _ Hs Hkt)) as [[e ->]|(fs' & -> & _ & Hc)] end.
  { apply Inv_grow; [done|by apply safe_tick|done]. }
  rewrite <-(app_assoc R) in Hc. rewrite Hqi, entry_tick in Hc.
  destruct (entry (w_fs w) (d_final h)) as [b|] eqn:Eb; [|done]. cbn [result_bind] in Hc.
  pose proof Eb as Hb. rewrite Hfin, (app_assoc R) in Hb.
  apply entry_plain in Hb as [-> _]; [|by apply no_links_now]. rewrite <-(app_assoc R) in *.
  specialize (Hfree eq_refl). set (a := R ++ kt ++ [nt]) in *. set (b := R ++ k ++ [n]) in *.
  assert (Hab : a <> b) by congruence.
  assert (Hnb : node_at (tick (w_fs w)) b = None).
  { subst b. rewrite (app_assoc R), node_at_snoc, <-(app_assoc R). done. }
  rewrite Hnb, (decide_False (P := a = b)) in Hc by done. injection Hc as <-.
  assert (Hs' : safe_fs (set_nodes (<[b := File i]> (delete a (nodes (w_fs w)))) (tick (w_fs w)))).
  { assert (Hd : safe_fs (set_nodes (delete a (nodes (w_fs w))) (tick (w_fs w)))).
    { apply (safe_delete (tick (w_fs w))); [by apply safe_tick|done]. }
    refine (safe_insert _ k n (File i) Hd _ _ _); [|done|by intros j [= <-]]. cbn. by rewrite lookup_delete_ne. }
  assert (Hno : Inv None [] w).
  { eapply Inv_shrink; [by apply Inv_release|]. by intros ? ?%not_elem_of_nil. }
  apply Inv_fs; [done..|]. intros h' c j [[id Hid]|] Hc Hn; [|done]. cbn.
  assert (a <> c).
  { intros <-. destruct (inv_handles _ _ _ HI _ _ Hid) as (_ & _ & Hne). apply (Hne h eq_refl). congruence. }
  rewrite lookup_insert_ne by congruence. by rewrite lookup_delete_ne.
Qed.

Lemma put_in_place_held h w :
  Inv (Some h) [] w ->
  wp (put_in_place fault h) (fun r w' => match r with Ok _ => Inv None [] w' | Err _ => Inv (Some h) [] w' end) w.
Proof.
  intros HI. destruct (inv_held _ _ _ HI h eq_refl) as [[Hr Hk Hf _ _] _]. unfold put_in_place.
  eapply wp_holds; [apply keep_sync|done|done|]. intros _ w1 _ H1. rewrite Hr.
  eapply wp_holds; [by apply keep_validate|done|done|]. intros _ w2 (k & n & Hfin & Hl) H2.
  apply wp_bind. unfold on_fs at 1, symlink_metadata, wp at 1. cbn [wp_then].
  replace (set_fs (w_fs w2) w2) with w2 by by destruct w2.
  pose proof (look_plain (w_fs w2) (R ++ k) n (no_links_now _ _ (inv_fs _ _ _ H2) Hl)) as Hlook.
  rewrite <-(app_assoc R) in Hlook. rewrite Hfin, Hk in *.
  destruct (look entry _ (w_fs w2)) as [m|e].
  - destruct (is_symlink m), (is_directory m); exact H2.
  - apply wp_bind. cbn [wp_then]. apply wp_ret. cbn [wp_then]. apply wp_bind.
    rewrite <-Hfin in *. eapply wp_mono; [by eapply rename_held|]. intros [[[]|]|] w' H; exact H.
Qed.

Lemma keep_finish o id :
  keep None [] (finish_download_handle fault clock map_order path_order handle_ttl o id) (fun _ => True).
Proof.
  unfold finish_download_handle. eapply holds_bind; [apply keep_purge|]. intros _ _ w HI.
  apply wp_bind. eapply wp_mono; [by apply claim_download_held|]. intros [h|e] w1 H1; cbn; [|done].
  apply wp_bind, wp_attempt. eapply wp_mono; [by apply put_in_place_held|]. intros [[]|e] w2 H2; cbn; [by split|].
  apply Inv_release in H2. apply wp_bind.
  eapply wp_mono; [apply (keep_remove_gone None [d_temp h]); [left|done]|].
  intros [r|e'] w3 [H3 _]; cbn; (split; [|done]); (eapply Inv_shrink; [done|]; by intros ? ?%not_elem_of_nil).
Qed.

Lemma keep_abort o id : keep None [] (abort_download_handle fault clock o id) (fun _ => True).
Proof.
  intros w HI. apply wp_bind. eapply wp_mono; [by apply claim_download_held|]. intros [h|e] w1 H1; cbn; [|done].
  apply Inv_release in H1. apply wp_bind.
  eapply wp_mono; [apply (keep_remove_gone None [d_temp h]); [left|done]|].
  intros [r|e'] w3 [H3 _]; cbn; (split; [|done]); (eapply Inv_shrink; [done|]; by intros ? ?%not_elem_of_nil).
Qed.

Lemma keep_write_download o api id data :
  keep None [] (write_download_chunk fault clock map_order path_order handle_ttl o api id data) (fun _ => True).
Proof.
  unfold write_download_chunk. eapply holds_bind; [by apply (holds_try _ _ (fun _ => True))|]. intros _ _.
  eapply holds_bind; [by apply (holds_try _ _ (fun _ => True))|]. intros _ _.
  destruct (_ <? _); [apply holds_throw|apply keep_write_chunk].
Qed.
Lemma keep_finish_download o api id :
  keep None [] (finish_download_file fault clock map_order path_order handle_ttl o api id) (fun _ => True).
Proof.
  unfold finish_download_file. eapply holds_bind; [by apply (holds_try _ _ (fun _ => True))|]. intros _ _.
  eapply holds_bind; [by apply (holds_try _ _ (fun _ => True))|]. intros _ _. apply keep_finish.
Qed.
Lemma keep_abort_download o api id :
  keep None [] (abort_download_file fault clock o api id) (fun _ => True).
Proof.
  unfold abort_download_file. eapply holds_bind; [by apply (holds_try _ _ (fun _ => True))|]. intros _ _.
  eapply holds_bind; [by apply (holds_try _ _ (fun _ => True))|]. intros _ _. apply keep_abort.
Qed.

(** *** Directories *)

Lemma keep_commit_directory held gone o p :
  keep held gone (commit_directory fault clock map_order path_order handle_ttl o p) (fun _ => True).
Proof.
  unfold commit_directory. eapply holds_bind; [apply keep_purge|]. intros _ _.
  apply keep_touch_owner. intros ow. split; [done|]. by intros x [? _]%elem_of_difference.
Qed.

Lemma keep_check_parents held gone cs : forall p, keep held gone (check_parents p cs) (fun _ => True).
Proof.
  induction cs as [|c cs IH]; intros p; cbn [check_parents]; [by apply holds_ret|].
  eapply holds_bind; [apply keep_look|]. intros r _. eapply (holds_bind _ _ _ (fun _ => True)); [|intros _ _; apply IH].
  destruct r as [m|]; [|destruct (decide _); apply holds_throw].
  destruct (is_symlink m); [apply holds_throw|]. destruct (negb _); [apply holds_throw|by apply holds_ret].
Qed.

Abbreviation create_directory := (create_download_directory fault clock map_order path_order nfc windows handle_ttl).
(** A directory that is reported as created is new. *)
Lemma keep_create_directory api root dir must :
  keep None [] (create_directory me api root dir must)
    (fun created => created = true -> exists cs, sanitize_download_rel_path nfc windows dir = Ok cs /\ new_path (abs (R ++ cs))).
Proof.
  unfold create_download_directory. eapply holds_bind; [apply keep_checked_root|]. intros ? ->.
  eapply (holds_bind _ _ _ (fun cs => sanitize_download_rel_path nfc windows dir = Ok cs)); [by apply holds_try|].
  intros cs Hd. destruct (sanitize_download_plain _ _ _ _ Hd) as [Hcs Hne].
  eapply (holds_bind _ _ _ (fun _ => True)); [destruct (Nat.ltb _ _); [apply keep_check_parents|by apply holds_ret]|].
  intros _ _. eapply holds_bind; [by apply keep_target_path|]. intros p (k & n & -> & -> & Hk).
  eapply holds_bind; [apply keep_look|]. intros [m|e] _.
  - destruct (is_symlink m); [apply holds_throw|]. destruct (is_directory m); [|apply holds_throw].
    destruct must; [apply holds_throw|by apply holds_ret].
  - destruct (decide _); [|apply holds_throw].
    eapply (holds_bind _ _ _ (fun _ => new_path (abs (R ++ k ++ [n])))).
    { apply keep_io. eapply holds_mono; [by apply keep_create_dir|]. by intros [] []. }
    intros _ Hnew. eapply (holds_bind _ _ _ (fun _ => True)); [|intros _ _; apply holds_ret; eauto].
    unfold register_download_directory. eapply holds_bind; [apply keep_purge|]. intros _ _.
    eapply holds_bind; [apply keep_now|]. intros t _. apply keep_with_owner; [|auto].
    intros ow p Hp. cbn in Hp. apply elem_of_union in Hp as [?|Hp%elem_of_singleton]; [by left|right; by subst].
Qed.

Lemma keep_commit_download api root dir :
  keep None [] (commit_download_directory fault clock map_order path_order nfc windows handle_ttl me api root dir) (fun _ => True).
Proof.
  unfold commit_download_directory. eapply holds_bind; [apply keep_checked_root|]. intros ? ->.
  eapply holds_bind; [apply keep_sanitize|]. intros cs [Hcs Hne].
  eapply holds_bind; [by apply keep_target_path|]. intros p _. apply keep_commit_directory.
Qed.

(** A directory that was created in this download may be removed again. *)
Lemma keep_remove_directory api root dir cs :
  sanitize_download_rel_path nfc windows dir = Ok cs -> new_path (abs (R ++ cs)) ->
  keep None [] (remove_download_directory fault clock map_order path_order nfc windows handle_ttl me api root dir) (fun _ => True).
Proof.
  intros Hd Hnew. unfold remove_download_directory. eapply holds_bind; [apply keep_checked_root|]. intros ? ->.
  destruct (sanitize_download_plain _ _ _ _ Hd) as [Hcs Hne]. rewrite Hd.
  eapply (holds_bind _ _ _ (fun cs' => cs' = cs)); [apply holds_try; by intros ? [= <-]|]. intros ? ->.
  eapply holds_bind; [by apply keep_target_path|]. intros p (k & n & Hk & -> & _).
  eapply holds_bind; [apply keep_look|]. intros [m|e] _.
  - destruct (is_symlink m); [apply holds_throw|]. destruct (negb _); [apply holds_throw|].
    eapply holds_bind; [by apply keep_remove_dir|]. intros [|e] _; [apply keep_commit_directory|].
    destruct (decide _); [by apply holds_ret|]. destruct (decide _); [apply keep_commit_directory|apply holds_throw].
  - destruct (decide _); [apply keep_commit_directory|apply holds_throw].
Qed.

(** *** The end of a transfer *)

Lemma take_temps_sheds held l : sheds held (take_temps l) (fun L gone => Forall (fun p => p ∈ gone) L).
Proof.
  induction l as [|id l IH]; cbn [take_temps]; [intros gone w HI; exists gone; by split_and!|].
  eapply sheds_bind; [apply take_download_sheds|]. intros h g1 Hh g2 w Hsub HI.
  apply wp_bind. eapply wp_mono; [by apply IH|].
  intros [L|e] w'' (g3 & Hsub' & HI'' & HL); cbn; exists g3; split_and!; try done.
  destruct h; [|done]. constructor; [by apply Hsub', Hsub|done].
Qed.

Lemma keep_cleanup_owner o :
  keep None [] (cleanup_owner fault clock map_order id_order path_order handle_ttl o) (fun _ => True).
Proof.
  unfold cleanup_owner. eapply holds_bind; [apply keep_purge|]. intros _ _.
  eapply holds_bind; [apply keep_inner|]. intros s Hs. destruct (owners s !! o) as [ow|] eqn:E; [|by apply holds_ret].
  eapply (holds_bind _ _ _ (fun _ => True)).
  { apply keep_owners; [done|]. intros s' [Ho Hr]. split; cbn; intros; [eapply Ho|eapply Hr]; try done; by eapply lookup_delete_Some. }
  intros _ _. eapply holds_bind; [apply holds_for_each; intros; by apply keep_owners|]. intros _ _ w HI.
  apply wp_bind. eapply wp_mono; [by apply take_temps_sheds|].
  intros [L|e] w' (gone & Hsub & HI' & HL); cbn; [|split; [by eapply Inv_shrink|done]].
  apply wp_bind. eapply wp_mono; [apply (keep_execute None gone L (path_order (download_directories ow))); [done| |done]|].
  - apply Forall_forall. intros p Hp. by apply (proj1 Hs o ow), path_order_elem.
  - intros [n|e] w'' [HI'' _]; cbn; (split; [by eapply Inv_shrink|done]).
Qed.

Lemma keep_prepare_root :
  keep None [] (prepare_download_root fault clock map_order path_order handle_ttl me (abs R)) (fun _ => True).
Proof.
  unfold prepare_download_root. eapply holds_bind; [apply keep_purge|]. intros _ _.
  eapply holds_bind; [apply keep_now|]. intros t _.
  eapply holds_bind; [apply keep_with_owner; cbn; [by left|]|intros _ _; by apply holds_ret].
  intros ow p [= <-]. by right.
Qed.
End Confine.

(** ** Where a download starts *)

(** Inodes are numbered below the counter and the working directory exists. *)
Definition fs_wf (fs : FileSystem) : Prop :=
  (forall i c, inodes fs !! i = Some c -> (i < next_ino fs)%nat) /\ dir_chain fs (cwd fs).
(** No download of any terminal is open, the owner is new, and no terminal
    remembers directories of an earlier download.  The state is shared by all
    terminals, and an operation of one removes the expired partial files of the
    others. *)
Definition idle (me : list Z) (w : World) : Prop :=
  download_handles (w_inner w) = ∅ /\ owners (w_inner w) !! me = None
  /\ forall o ow, owners (w_inner w) !! o = Some ow -> download_directories ow = ∅.

Lemma dir_chain_snoc fs k n : dir_chain fs k -> nodes fs !! (k ++ [n]) = Some Dir -> dir_chain fs (k ++ [n]).
Proof.
  intros Hk Hn q [r Hq]. destruct r as [|x r _] using rev_ind.
  - rewrite app_nil_r in Hq. subst q. by rewrite node_at_snoc.
  - rewrite app_assoc in Hq. apply app_inj_tail in Hq as [-> ->]. apply Hk. by apply prefix_app_r.
Qed.

(** A folder that was resolved is reached through directories only. *)
Lemma walk_chain l fs : forall p cur d,
  dir_chain fs cur -> walk l fs cur p = Ok d -> node_at fs d = Some Dir -> dir_chain fs d.
Proof.
  induction l as [l IHl] using lt_wf_ind. intros p.
  induction p as [|[| | |n] p IHp]; intros cur d Hc Hw Hd.
  - rewrite walk_nil in Hw. by injection Hw as <-.
  - rewrite walk_root in Hw. eapply IHp; [|done..]. by intros q ->%prefix_nil_inv.
  - eapply (IHp cur); [done| |done]. by destruct l.
  - eapply (IHp (take (Nat.pred (length cur)) cur)); [|by destruct l|done].
    intros q Hq. apply Hc. trans (take (Nat.pred (length cur)) cur); [done|apply prefix_take].
  - rewrite walk_normal in Hw. destruct (nodes fs !! (cur ++ [n])) as [[|i|t]|] eqn:E; [| | |done].
    + eapply IHp; [by apply dir_chain_snoc|done..].
    + destruct p; [|done]. simplify_eq. by rewrite node_at_snoc, E in Hd.
    + destruct l as [|l]; [done|]. eapply (IHl l); [lia|done..].
Qed.

Lemma Inv_start w R me : fs_wf (w_fs w) -> idle me w -> Inv (w_fs w) R me None [] w.
Proof.
  intros [Hi _] (Hh & Ho & Hd). constructor.
  - constructor; [done|done|congruence|done].
  - intros id h. by rewrite Hh.
  - intros id id' h h'. by rewrite Hh.
  - done.
  - constructor.
  - intros o ow p Hl Hp. rewrite (Hd _ _ Hl) in Hp. by apply not_elem_of_empty in Hp.
  - intros ow p. by rewrite Ho.
Qed.

(** What a download may do to the file system: nothing that existed is
    changed, what is new is below the folder and is no link. *)
Definition only_adds_below (R : place) (fs fs' : FileSystem) : Prop :=
  (forall k x, nodes fs !! k = Some x -> nodes fs' !! k = Some x)
  /\ (forall i c, inodes fs !! i = Some c -> inodes fs' !! i = Some c)
  /\ (forall k x, nodes fs' !! k = Some x -> nodes fs !! k = None ->
        (exists n r, k = R ++ n :: r) /\ forall t, x <> Symlink t).

Lemma Inv_adds fs0 R me w : Inv fs0 R me None [] w -> only_adds_below R fs0 (w_fs w).
Proof.
  intros HI. destruct (inv_fs _ _ _ _ _ _ HI) as [Ho Hd Hn _]. split_and!; [done|done|].
  intros k x Hk H0. by destruct (Hn k x Hk H0) as (? & ? & _).
Qed.
