(* ===== verification/TrzszSave.v ===== *)
(** * Saving what a trzsz transfer receives (hapcli-egui-app: trzsz.rs)

    The download half of the transfer worker: the limits of the user's policy,
    the choice of free names, the writers that the protocol of [TrzszTransfer]
    drives, and the worker around them, over the state and files of
    [TrzszState].  Progress output is left out.  The theorems compose the parts:
    whatever a server sends, a download only adds entries below the chosen
    folder, and writes at most the bytes the policy allows. *)
From S2P Require Import Prelude Text Utf16 TrzszBuffer TrzszTransfer TrzszFilter FileSystem TrzszState TrzszConfine.
From Stdlib Require Import Ascii String.
From stdpp Require Import prelude numbers list gmap.
Open Scope Z_scope.

(** ** Writers *)

(** [NativeDirectoryWriter] and [NativeDownloadFileWriter]. *)
Inductive Writer :=
| DirectoryWriter (cleanup : list (list Z)) (dir_name dir_local : list Z)
| FileWriter (id relative_path file_name file_local : list Z) (cleanup : list (list Z))
    (finished aborted finish_started : bool) (total_limit : Z).

(** [NativeSaveRoot], [DownloadConstraintTracker] (its byte counter is shared
    with the writers) and the writers. *)
Record SaveState := mkSave {
  save_root : list Z;
  maps : gmap Z (list Z);
  file_count : Z;
  total_bytes : Z;
  writers : list Writer
}.
Definition new_save (root : list Z) : SaveState := mkSave root ∅ 0 0 [].
Definition set_maps v (s : SaveState) : SaveState := mkSave (save_root s) v (file_count s) (total_bytes s) (writers s).
Definition set_count v (s : SaveState) : SaveState := mkSave (save_root s) (maps s) v (total_bytes s) (writers s).
Definition set_bytes v (s : SaveState) : SaveState := mkSave (save_root s) (maps s) (file_count s) v (writers s).
Definition set_writers v (s : SaveState) : SaveState := mkSave (save_root s) (maps s) (file_count s) (total_bytes s) v.

Abbreviation DM := (M halt (World * SaveState)).

Definition save_state : DM SaveState := fun s => Some (Ok s.2, s).
Definition modify_save (f : SaveState -> SaveState) : DM unit := fun s => Some (Ok tt, (s.1, f s.2)).
(** [match m { Ok(..) => .., Err(error) => .. }] on the code's own errors. *)
Definition attempt_error {S A} (m : M halt S A) : M halt S (result TrzszError A) :=
  let* r := attempt m in
  match r with
  | Ok a => ret (Ok a)
  | Err (Fails e) => ret (Err e)
  | Err h => throw h
  end.
(** A [Vec] of the caller that a closure changes. *)
Definition with_local {S L A} (init : L) (m : M halt (S * L) A) : M halt S (result halt A * L) :=
  fun s => match m (s, init) with
           | Some (r, (s', l)) => Some (Ok (r, l), s')
           | None => None
           end.

(** ** Names and limits *)

Definition next_collision_name (base_name : list Z) (attempt : nat) : list Z :=
  match attempt with
  | O => base_name
  | S n => base_name ++ [46] ++ u64_to_string (Z.of_nat n)
  end.
Definition is_retryable_collision (e : TrzszError) : bool :=
  match e with
  | AlreadyExists _ => true
  | InvalidPath message =>
      bool_decide (is_Some (str_find (lit "resolves to a directory") message 0))
      || bool_decide (is_Some (str_find (lit "resolves to a file") message 0))
      || bool_decide (is_Some (str_find (lit "Target path is a directory") message 0))
  | _ => false
  end.
Definition is_cancelled_transfer (e : TrzszError) : bool :=
  match e with InvalidState message => bool_decide (message = lit "Stopped") | _ => false end.
Definition join_path (parts : list (list Z)) : list Z := FileSystem.join [47] parts.

Definition format_saved_files (file_names : list (list Z)) (dest_path : list Z) : list Z :=
  let message := lit "Saved " ++ u64_to_string (Z.of_nat (length file_names)) ++ [32]
                 ++ (if Nat.ltb 1 (length file_names) then lit "files/directories" else lit "file/directory") in
  let message := if bool_decide (dest_path = []) then message else message ++ lit " to " ++ dest_path in
  FileSystem.join ([13; 10] ++ lit "- ") (message :: file_names).

(** The texts of the [#[error(..)]] attributes. *)
Definition error_to_string (e : TrzszError) : list Z :=
  match e with
  | InvalidApiVersion expected got =>
      lit "Unsupported trzsz apiVersion " ++ u64_to_string got ++ lit ", expected " ++ u64_to_string expected
  | InvalidOwnerId => lit "Invalid ownerId"
  | InvalidPath p => lit "Invalid path: " ++ p
  | UnauthorizedPath p => lit "Path is not authorized for this owner: " ++ p
  | DirectoryNotAllowed p => lit "Directory upload is not allowed: " ++ p
  | SymlinkNotAllowed p => lit "Symlink is not allowed: " ++ p
  | ReservedName n => lit "Reserved file name is not allowed: " ++ n
  | RootNotPrepared => lit "Download root is not prepared for this owner"
  | RootMismatch => lit "Download root does not match the prepared root"
  | HandleNotFound id => lit "Handle not found: " ++ id
  | HandleOwnerMismatch => lit "Handle does not belong to the specified owner"
  | AlreadyExists p => lit "Target already exists and overwrite is disabled: " ++ p
  | MaxFileCountExceeded selected max =>
      lit "Selected " ++ u64_to_string selected ++ lit " files, which exceeds the current limit of " ++ u64_to_string max
  | MaxTotalBytesExceeded selected max =>
      lit "Selected " ++ u64_to_string selected ++ lit " bytes, which exceeds the current limit of " ++ u64_to_string max
  | InvalidState m => lit "Invalid trzsz state: " ++ m
  | InvalidOffset offset size =>
      lit "Invalid read offset " ++ u64_to_string offset ++ lit " for file of size " ++ u64_to_string size
  | ChunkTooLarge requested max =>
      lit "Requested chunk length " ++ u64_to_string requested ++ lit " exceeds the maximum " ++ u64_to_string max
  | IoError text => lit "IO error: " ++ text
  end.

(** [struct TrzszDirectoryEntry]. *)
Record DirectoryEntry := mkDirEntry { de_id : Z; de_name : list (list Z); de_is_dir : bool }.
Definition parse_directory_entry `{Codec} (raw : list Z) : result TrzszError DirectoryEntry :=
  match json_from_str raw with
  | Err text => Err (InvalidPath text)
  | Ok payload =>
      match as_array (value_index payload (lit "path_name")) with
      | None => Err (InvalidPath (lit "Invalid directory entry: " ++ raw))
      | Some values =>
          let path_name := map (fun v => default [] (as_str v)) values in
          if bool_decide (path_name = []) then Err (InvalidPath (lit "Invalid directory entry: " ++ raw))
          else Ok (mkDirEntry (default 0 (as_u64 (value_index payload (lit "path_id")))) path_name
                     (is_true (value_index payload (lit "is_dir"))))
      end
  end.

Section Save.
Context (fault : nat -> option (Z * io_error)) (clock : nat -> Z) (uuid : nat -> list Z).
Context (map_order : forall A, gmap (list Z) A -> list (list Z * A)).
Context (id_order : gset (list Z) -> list (list Z)) (path_order : gset PathBuf -> list PathBuf).
Context (nfc : list Z -> list Z) (windows : bool) (handle_ttl : Z).
(** The owner of the transfer and the user's policy. *)
Context (owner_id : list Z) (policy : TrzszTransferPolicy).

Abbreviation open_download := (open_save_file fault clock uuid map_order path_order nfc windows handle_ttl).
Abbreviation create_directory := (create_download_directory fault clock map_order path_order nfc windows handle_ttl).
Abbreviation commit_download := (commit_download_directory fault clock map_order path_order nfc windows handle_ttl).
Abbreviation remove_directory := (remove_download_directory fault clock map_order path_order nfc windows handle_ttl).
Abbreviation remove_download := (remove_download_file fault clock map_order path_order nfc windows handle_ttl).
Abbreviation write_download := (write_download_chunk fault clock map_order path_order handle_ttl).
Abbreviation finish_download := (finish_download_file fault clock map_order path_order handle_ttl).
Abbreviation abort_download := (abort_download_file fault clock).

Definition ensure_directory_allowed : result TrzszError unit :=
  if allow_directory policy then Ok tt else Err (DirectoryNotAllowed (lit "terminal settings")).
Definition assert_can_add_file (s : SaveState) : result TrzszError unit :=
  if max_file_count policy <? file_count s + 1
  then Err (MaxFileCountExceeded (file_count s + 1) (max_file_count policy)) else Ok tt.
(** [constraints.commit_file()]. *)
Definition count_file (s : SaveState) : SaveState := set_count (Z.min U64_MAX (file_count s + 1)) s.

(** A new writer and its handle. *)
Definition add_writer (w : Writer) (local_name : list Z) (dir : bool) : DM SaveHandle :=
  fun s => Some (Ok (mkHandle (length (writers s.2)) local_name dir),
                 (s.1, set_writers (writers s.2 ++ [w]) s.2)).

Definition try_open_download_file (relative_path file_name local_name : list Z) (cleanup : list (list Z))
    (overwrite : bool) : DM SaveHandle :=
  let* s := save_state in
  let* dto := on_fst (open_download owner_id TRZSZ_API_VERSION (save_root s) relative_path overwrite) in
  do* modify_save count_file in
  add_writer (FileWriter (writer_id dto) relative_path file_name local_name cleanup false false false
                (max_total_bytes policy)) local_name false.

(** [for attempt in 0..1000] of [open_flat_save_file]. *)
Fixpoint flat_attempts (more attempt : nat) (file_name : list Z) (overwrite : bool) (last_error : option TrzszError)
    : DM SaveHandle :=
  match more with
  | O => fail (default (InvalidPath file_name) last_error)
  | S more =>
      let candidate := if overwrite then file_name else next_collision_name file_name attempt in
      let* r := attempt_error (try_open_download_file candidate file_name candidate [] overwrite) in
      match r with
      | Ok writer => ret writer
      | Err error =>
          if negb overwrite && is_retryable_collision error
          then flat_attempts more (S attempt) file_name overwrite (Some error)
          else fail error
      end
  end.
Definition open_flat_save_file (file_name : list Z) (overwrite : bool) : DM SaveHandle :=
  flat_attempts 1000 0 file_name overwrite None.

(** Over the caller's list of directories to clean up. *)
Abbreviation CM := (M halt (World * SaveState * list (list Z))).

Definition ensure_download_directory (directory_path : list Z) (must_create : bool) : CM unit :=
  let* s := on_fst save_state in
  let* created := on_fst (on_fst (create_directory owner_id TRZSZ_API_VERSION (save_root s) directory_path must_create)) in
  if created then (fun st => Some (Ok tt, (st.1, st.2 ++ [directory_path]))) else ret tt.

(** The paths [local_root/rest[..=index]]. *)
Definition prefixes (local_root : list Z) (rest_path : list (list Z)) (n : nat) : list (list Z) :=
  map (fun index => join_path (local_root :: take (S index) rest_path)) (seq 0 n).

(** The closure of [try_open_with_root]. *)
Definition open_entry (entry : DirectoryEntry) (rest_path : list (list Z)) (local_root : list Z)
    (claim_top_level overwrite : bool) : CM SaveHandle :=
  let nested := de_is_dir entry || negb (bool_decide (rest_path = [])) in
  do* (if nested then try_result ensure_directory_allowed else ret tt) in
  do* (if claim_top_level && nested then ensure_download_directory local_root (negb overwrite) else ret tt) in
  let relative_path := join_path (local_root :: rest_path) in
  let file_name := default local_root (last (de_name entry)) in
  if de_is_dir entry then
    do* for_each (fun path => ensure_download_directory path false) (prefixes local_root rest_path (length rest_path)) in
    let* cleanup := (fun st => Some (Ok st.2, st)) in
    on_fst (add_writer (DirectoryWriter cleanup file_name local_root) local_root true)
  else
    let* s := on_fst save_state in
    do* try_result (assert_can_add_file s) in
    do* for_each (fun path => ensure_download_directory path false)
          (prefixes local_root rest_path (Nat.pred (length rest_path))) in
    let* cleanup := (fun st => Some (Ok st.2, st)) in
    on_fst (try_open_download_file relative_path file_name local_root cleanup overwrite).

Definition try_open_with_root (entry : DirectoryEntry) (rest_path : list (list Z)) (local_root : list Z)
    (claim_top_level overwrite : bool) : DM SaveHandle :=
  let* out := with_local [] (open_entry entry rest_path local_root claim_top_level overwrite) in
  match out.1 with
  | Ok writer => ret writer
  | Err (Fails error) =>
      let* s := save_state in
      do* for_each (fun directory_path =>
             do* attempt_error (on_fst (remove_directory owner_id TRZSZ_API_VERSION (save_root s) directory_path)) in ret tt)
           (reverse out.2) in
      fail error
  | Err h => throw h
  end.

Fixpoint entry_attempts (more attempt : nat) (entry : DirectoryEntry) (top : list Z) (rest_path : list (list Z))
    (overwrite : bool) (last_error : option TrzszError) : DM SaveHandle :=
  match more with
  | O => fail (default (InvalidPath (FileSystem.join [47] (de_name entry))) last_error)
  | S more =>
      let local_root := if overwrite then top else next_collision_name top attempt in
      let* r := attempt_error (try_open_with_root entry rest_path local_root true overwrite) in
      match r with
      | Ok writer => do* modify_save (fun s => set_maps (<[de_id entry := local_root]> (maps s)) s) in ret writer
      | Err error =>
          if negb overwrite && is_retryable_collision error
          then entry_attempts more (S attempt) entry top rest_path overwrite (Some error)
          else fail error
      end
  end.
(** [path_name[0]] of an empty list would panic; [parse_directory_entry] gives
    none. *)
Definition open_directory_save_entry (entry : DirectoryEntry) (overwrite : bool) : DM SaveHandle :=
  match de_name entry with
  | [] => throw Panics
  | top :: rest_path =>
      let* s := save_state in
      match (if overwrite then Some top else maps s !! de_id entry) with
      | Some local_root => try_open_with_root entry rest_path local_root false overwrite
      | None => entry_attempts 1000 0 entry top rest_path overwrite None
      end
  end.

Definition open_save `{Codec} (file_name : list Z) (directory overwrite : bool) : DM SaveHandle :=
  if negb directory then open_flat_save_file file_name overwrite
  else let* entry := try_result (parse_directory_entry file_name) in
       open_directory_save_entry entry overwrite.

(** *** [impl TrzszFileWriter] *)

Definition with_writer {A} (h : SaveHandle) (f : Writer -> DM A) : DM A :=
  let* s := save_state in
  match writers s !! h_index h with Some w => f w | None => throw Panics end.
Definition set_writer (h : SaveHandle) (w : Writer) : DM unit :=
  modify_save (fun s => set_writers (<[h_index h := w]> (writers s)) s).

Definition writer_write (h : SaveHandle) (data : list Z) : DM unit :=
  with_writer h (fun w =>
    match w with
    | DirectoryWriter _ file_name _ => fail (InvalidState (lit "Cannot write data into directory: " ++ file_name))
    | FileWriter id _ file_name _ _ finished aborted _ total_limit =>
        if finished || aborted
        then fail (InvalidState (lit "Download writer is no longer active: " ++ file_name))
        else
          do* modify_save (fun s => set_bytes (Z.min U64_MAX (total_bytes s + zlen data)) s) in
          let* s := save_state in
          if total_limit <? total_bytes s then fail (MaxTotalBytesExceeded (total_bytes s) total_limit)
          else on_fst (write_download owner_id TRZSZ_API_VERSION id data)
    end).

Definition commit_directories (cleanup : list (list Z)) : DM unit :=
  let* s := save_state in
  for_each (fun directory_path => on_fst (commit_download owner_id TRZSZ_API_VERSION (save_root s) directory_path)) cleanup.
Definition remove_directories (cleanup : list (list Z)) : DM unit :=
  let* s := save_state in
  for_each (fun directory_path => on_fst (remove_directory owner_id TRZSZ_API_VERSION (save_root s) directory_path))
    (reverse cleanup).

Definition writer_commit (h : SaveHandle) : DM unit :=
  with_writer h (fun w =>
    match w with
    | DirectoryWriter cleanup _ _ | FileWriter _ _ _ _ cleanup _ _ _ _ => commit_directories cleanup
    end).

(** The trait's default for a directory. *)
Definition writer_finish (h : SaveHandle) : DM unit :=
  with_writer h (fun w =>
    match w with
    | DirectoryWriter _ _ _ => ret tt
    | FileWriter id path file_name local cleanup finished aborted _ limit =>
        if finished || aborted then ret tt
        else
          do* set_writer h (FileWriter id path file_name local cleanup finished aborted true limit) in
          do* on_fst (finish_download owner_id TRZSZ_API_VERSION id) in
          set_writer h (FileWriter id path file_name local cleanup true aborted true limit)
    end).

Definition writer_abort (h : SaveHandle) : DM unit :=
  with_writer h (fun w =>
    match w with
    | DirectoryWriter cleanup _ _ => remove_directories cleanup
    | FileWriter id path file_name local cleanup finished aborted started limit =>
        if finished || aborted then ret tt
        else
          do* on_fst (abort_download owner_id TRZSZ_API_VERSION id) in
          set_writer h (FileWriter id path file_name local cleanup finished true started limit)
    end).

Definition writer_delete (h : SaveHandle) : DM (list Z) :=
  with_writer h (fun w =>
    match w with
    | DirectoryWriter _ _ _ => do* writer_abort h in ret []
    | FileWriter id path _ _ cleanup finished _ started _ =>
        let* s := save_state in
        let remove := on_fst (remove_download owner_id TRZSZ_API_VERSION (save_root s) path) in
        do* (if finished then remove
             else
               let* r := attempt_error (writer_abort h) in
               match r with
               | Ok _ => ret tt
               | Err (HandleNotFound id') => if started then remove else fail (HandleNotFound id')
               | Err error => fail error
               end) in
        do* remove_directories cleanup in
        ret []
    end).

#[local] Instance Native_writer : TrzszFileWriter (World * SaveState) SaveHandle := {
  local_name := h_name;
  is_dir := h_dir;
  write_file := writer_write;
  close_file h := ret tt;
  commit_file := writer_commit;
  finish_file := writer_finish;
  abort_file := writer_abort
}.

(** ** The worker *)

Section Worker.
Context `{Codec} (elapsed : nat -> Z) (utf8_error : list Z -> list Z) (fuel : nat).

Abbreviation XM := (M halt (TrzszTransfer * (World * SaveState))).

(** [run_download]; [None] is a selection that is no download folder. *)
Definition run_download (request_windows : bool) (selection : option (list Z)) : XM unit :=
  match selection with
  | None =>
      do* on_fst (send_action false request_windows) in fail (InvalidState (lit "Stopped"))
  | Some root_path =>
      let* prepared := on_snd (on_fst (download_prepare_root fault clock map_order path_order handle_ttl
                                         owner_id TRZSZ_API_VERSION root_path)) in
      do* on_fst (send_action true request_windows) in
      let* config := on_fst (recv_config utf8_error fuel) in
      if is_true (value_index config (lit "directory")) && negb (allow_directory policy)
      then fail (DirectoryNotAllowed (lit "terminal settings"))
      else
        do* on_snd (modify_save (fun _ => new_save prepared)) in
        let* local_names := recv_files elapsed utf8_error fuel open_save in
        on_fst (client_exit (format_saved_files local_names prepared))
  end.

Inductive TrzszWorkerEvent := Completed | Cancelled | Failed (message : list Z).

(** [run_trzsz_worker] of a download: a panic or an endless wait ends it
    without the clean-up. *)
Definition run_trzsz_download (request_windows : bool) (selection : option (list Z)) : XM TrzszWorkerEvent :=
  let* r := attempt_error (run_download request_windows selection) in
  do* match r with
      | Err error => if is_cancelled_transfer error then ret tt
                     else do* attempt_error (on_fst (client_error (error_to_string error))) in ret tt
      | Ok _ => ret tt
      end in
  do* on_snd (on_fst (cleanup_owner fault clock map_order id_order path_order handle_ttl owner_id)) in
  ret (match r with
       | Ok _ => Completed
       | Err error => if is_cancelled_transfer error then Cancelled else Failed (error_to_string error)
       end).
End Worker.
End Save.

(** ** A download only adds entries below its folder *)

(** *** The protocol over any writer *)

(** Steps of the transfer thread over a further state: the input is used up
    and [I] is kept; [keen] steps read something when they succeed. *)
Section Driven.
Context {X : Type} (I : X -> Prop) (N : nat).

Definition calm {A} (m : M halt (TrzszTransfer * X) A) : Prop :=
  forall t x, buffer_ok (t_buffer t) -> (unread_len t <= N)%nat -> I x ->
  wp m (fun _ s => follows t s.1 /\ I s.2) (t, x).
Definition keen {A} (m : M halt (TrzszTransfer * X) A) : Prop :=
  forall t x, buffer_ok (t_buffer t) -> (unread_len t <= N)%nat -> I x ->
  wp m (fun r s => follows t s.1 /\ I s.2
          /\ match r with Ok _ => unread_len s.1 < unread_len t | Err _ => True end)%nat (t, x).

Lemma calm_fst {A} (m : TM A) : quiet N m -> calm (on_fst m).
Proof. intros Hm t x Hok Hn HI. apply wp_on_fst. eapply wp_mono; [by apply Hm|]. by intros r t' Ht. Qed.
Lemma keen_fst {A} (m : TM A) : eager N m -> keen (on_fst m).
Proof. intros Hm t x Hok Hn HI. apply wp_on_fst. eapply wp_mono; [by apply Hm|]. by intros r t' [Ht Hl]. Qed.
Lemma calm_snd {A} (m : M halt X A) P : holds I m P -> calm (on_snd m).
Proof.
  intros Hm t x Hok Hn HI. apply wp_on_snd. eapply wp_mono; [by apply Hm|]. intros r x' [HI' _].
  split; [by apply follows_refl|done].
Qed.
Lemma calm_ret {A} (a : A) : calm (ret a).
Proof. intros t x Hok Hn HI. apply wp_ret. split; [by apply follows_refl|done]. Qed.
Lemma calm_throw {A} h : calm (A := A) (throw h).
Proof. intros t x Hok Hn HI. apply wp_throw. split; [by apply follows_refl|done]. Qed.
Lemma calm_attempt {A} (m : M halt (TrzszTransfer * X) A) : calm m -> calm (attempt m).
Proof. intros Hm t x Hok Hn HI. apply wp_attempt. by apply Hm. Qed.
Lemma keen_calm {A} (m : M halt (TrzszTransfer * X) A) : keen m -> calm m.
Proof. intros Hm t x Hok Hn HI. eapply wp_mono; [by apply Hm|]. by intros r s (? & ? & _). Qed.
Lemma calm_bind {A B} (m : M halt (TrzszTransfer * X) A) (f : A -> M halt (TrzszTransfer * X) B) :
  calm m -> (forall a, calm (f a)) -> calm (bind m f).
Proof.
  intros Hm Hf t x Hok Hn HI. apply wp_bind. eapply wp_mono; [by apply Hm|].
  intros [a|e] [t' x'] [Ht HI']; cbn in *; [|done]. apply follows_len in Ht as Hl.
  eapply wp_mono; [apply Hf; [apply Ht|lia|done]|]. intros r s [Hs HIs]. split; [by eapply follows_trans|done].
Qed.
Lemma keen_bind {A B} (m : M halt (TrzszTransfer * X) A) (f : A -> M halt (TrzszTransfer * X) B) :
  keen m -> (forall a, calm (f a)) -> keen (bind m f).
Proof.
  intros Hm Hf t x Hok Hn HI. apply wp_bind. eapply wp_mono; [by apply Hm|].
  intros [a|e] [t' x'] (Ht & HI' & Hlt); cbn in *; [|done]. apply follows_len in Ht as Hl.
  eapply wp_mono; [apply Hf; [apply Ht|lia|done]|]. intros r s [Hs HIs].
  split_and!; [by eapply follows_trans|done|]. apply follows_len in Hs. destruct r; [lia|done].
Qed.
Lemma calm_get {A} (f : TrzszTransfer -> M halt (TrzszTransfer * X) A) :
  (forall t, calm (f t)) -> calm (let* t := on_fst TrzszTransfer.get in f t).
Proof. intros Hf t x Hok Hn HI. exact (Hf t t x Hok Hn HI). Qed.

Context (fuel : nat) (Hfuel : (N < fuel)%nat).

(** A loop whose turns read something before they go on. *)
Lemma calm_loop {V B} (body : V -> M halt (TrzszTransfer * X) (V + B)) v :
  (forall v, keen (body v) \/ exists b, body v = ret (inr b)) -> calm (loop fuel body v).
Proof.
  intros Hbody t x Hok Hn HI.
  apply (wp_loop (fun _ s => follows t s.1 /\ I s.2) (fun _ s => unread_len s.1));
    [|split; [by apply follows_refl|done]|cbn; lia].
  intros v' [t' x'] [Ht HI']. cbn in *. apply follows_len in Ht as Hl.
  destruct (Hbody v') as [Hk|[b ->]]; [|by apply wp_ret].
  eapply wp_mono; [apply Hk; [apply Ht|lia|done]|].
  intros r s (Hs & HIs & Hlt). assert (Hts : follows t s.1) by by eapply follows_trans.
  by destruct r as [[v2|b]|e].
Qed.

(** [recv_files] with a writer all of whose operations keep [I]. *)
Context `{Codec} (elapsed : nat -> Z) (utf8_error : list Z -> list Z).
Context {W : Type} `{TrzszFileWriter X W} (open_file : list Z -> bool -> bool -> M halt X W).
Context (open_ok : forall name dir, holds I (open_file name dir false) (fun _ => True)).
Context (write_ok : forall w data, holds I (write_file w data) (fun _ => True)).
Context (close_ok : forall w, holds I (close_file w) (fun _ => True)).
Context (commit_ok : forall w, holds I (commit_file w) (fun _ => True)).
Context (finish_ok : forall w, holds I (finish_file w) (fun _ => True)).
Context (abort_ok : forall w, holds I (abort_file w) (fun _ => True)).

Lemma calm_recv_data w size binary codes : calm (recv_file_data elapsed fuel w size binary codes).
Proof.
  apply calm_loop. intros [[step ctx] k]. cbn [recv_chunk]. destruct (step <? size); [left|right; by eexists].
  apply keen_bind; [by apply keen_fst, recv_data_eager|]. intros data.
  apply calm_bind; [by eapply calm_snd, write_ok|]. intros _.
  apply calm_bind; [apply calm_fst, quiet_send_line|]. intros _.
  apply calm_bind; [|intros _; apply calm_ret]. apply calm_fst. by intros t Hok _.
Qed.

Lemma calm_recv_body w binary codes : calm (recv_file_body elapsed fuel w binary codes).
Proof.
  apply calm_bind; [by apply calm_fst, recv_file_size_quiet|]. intros size.
  apply calm_bind; [apply calm_attempt, calm_recv_data|]. intros [digest|[e| |]]; try apply calm_throw.
  - apply calm_bind; [by eapply calm_snd, close_ok|]. intros _.
    apply calm_bind; [|intros _; by eapply calm_snd, finish_ok]. apply calm_fst.
    apply quiet_bind; [by apply eager_quiet, recv_binary_eager|]. intros expected.
    destruct (decide _); [apply quiet_send_line|apply quiet_throw].
  - apply calm_bind; [by eapply calm_attempt, calm_snd, abort_ok|]. intros _. apply calm_throw.
Qed.

Lemma calm_commit_all ws : calm (commit_all ws).
Proof.
  induction ws as [|w ws IH]; cbn [commit_all]; [apply calm_ret|].
  apply calm_bind; [by eapply calm_snd, commit_ok|]. intros _. exact IH.
Qed.

Lemma calm_recv_files : calm (recv_files elapsed utf8_error fuel open_file).
Proof.
  unfold recv_files. apply calm_get. intros t.
  apply calm_bind; [by apply calm_fst, recv_file_num_quiet|]. intros num.
  apply calm_bind.
  - apply calm_loop. intros [[remaining names] created]. cbn [recv_turn].
    destruct (0 <? remaining); [left|right; by eexists].
    apply keen_bind.
    + apply keen_bind; [by apply keen_fst, recv_string_eager|]. intros file_name.
      apply calm_bind; [by eapply calm_snd, open_ok|]. intros w.
      apply calm_bind; [apply calm_fst, quiet_send_line|]. intros _. apply calm_ret.
    + intros w. apply calm_bind; [destruct (is_dir w); [apply calm_ret|apply calm_recv_body]|].
      intros _. apply calm_ret.
  - intros names. apply calm_bind; [apply calm_commit_all|]. intros _. apply calm_ret.
Qed.
End Driven.

(** *** The writers of a download *)

Section Confined.
Context (fault : nat -> option (Z * io_error)) (clock : nat -> Z) (uuid : nat -> list Z).
Context (map_order : forall A, gmap (list Z) A -> list (list Z * A)).
Context (id_order : gset (list Z) -> list (list Z)) (path_order : gset PathBuf -> list PathBuf).
Context (nfc : list Z -> list Z) (windows : bool) (handle_ttl : Z).
Context (owner_id : list Z) (policy : TrzszTransferPolicy).
Context (path_order_elem : forall (X : gset PathBuf) p, p ∈ path_order X -> p ∈ X).
Context (uuid_plain : forall i, Forall (fun c => c <> 47) (uuid i)).
Context (fs0 : FileSystem) (R : place) (R_dir : dir_chain fs0 R).

Abbreviation Inv0 := (Inv fs0 R owner_id None []).

(** A directory that this download created. *)
Definition made (d : list Z) : Prop :=
  exists cs, sanitize_download_rel_path nfc windows d = Ok cs /\ new_path fs0 R (abs (R ++ cs)).
Definition cleanup_of (w : Writer) : list (list Z) :=
  match w with DirectoryWriter c _ _ => c | FileWriter _ _ _ _ c _ _ _ _ => c end.
Definition saving (s : World * SaveState) : Prop :=
  Inv0 s.1 /\ Forall (fun w => Forall made (cleanup_of w)) (writers s.2).

Lemma saving_fst {A} (m : WM A) (P : A -> Prop) : holds Inv0 m P -> holds saving (on_fst m) P.
Proof.
  intros Hm [w s] [HI Hs]. apply wp_on_fst. eapply wp_mono; [by apply Hm|]. intros r w' [HI' HP]. by split.
Qed.
Lemma saving_state : holds saving save_state (fun _ => True).
Proof. intros [w s] H. done. Qed.
Lemma saving_modify f : (forall s, writers (f s) = writers s) -> holds saving (modify_save f) (fun _ => True).
Proof. intros Hf [w s] [HI Hs]. split; [|done]. split; [done|]. cbn. by rewrite Hf. Qed.
Lemma holds_attempt_error {S A} (I : S -> Prop) (m : M halt S A) (P : A -> Prop) :
  holds I m P -> holds I (attempt_error m) (fun r => match r with Ok a => P a | Err _ => True end).
Proof.
  intros Hm. eapply holds_bind; [by apply holds_attempt|].
  intros [a|[e| |]] Ha; [by apply holds_ret|by apply holds_ret|apply holds_throw..].
Qed.

Lemma saving_add_writer w local dir :
  Forall made (cleanup_of w) -> holds saving (add_writer w local dir) (fun _ => True).
Proof. intros Hw [w0 s] [HI Hs]. split; [|done]. split; [done|]. cbn. apply Forall_app. split; [done|by constructor]. Qed.

Abbreviation try_open := (try_open_download_file fault clock uuid map_order path_order nfc windows handle_ttl owner_id policy).
Lemma saving_try_open path name local cleanup :
  Forall made cleanup -> holds saving (try_open path name local cleanup false) (fun _ => True).
Proof.
  intros Hc. eapply holds_bind; [apply saving_state|]. intros s _.
  eapply holds_bind; [by apply saving_fst, keep_open_save_file|]. intros dto _.
  eapply holds_bind; [by apply saving_modify|]. intros _ _. by apply saving_add_writer.
Qed.

Lemma saving_flat n : forall i file last,
  holds saving (flat_attempts fault clock uuid map_order path_order nfc windows handle_ttl owner_id policy n i file false last)
    (fun _ => True).
Proof.
  induction n as [|n IH]; intros i file last; cbn [flat_attempts]; [apply holds_throw|].
  eapply holds_bind; [by apply holds_attempt_error, saving_try_open|]. intros [h|e] _; [by apply holds_ret|].
  destruct (_ && _); [apply IH|apply holds_throw].
Qed.

(** With the list of directories to clean up. *)
Definition saving_dirs (s : World * SaveState * list (list Z)) : Prop := saving s.1 /\ Forall made s.2.

Lemma dirs_fst {A} (m : DM A) (P : A -> Prop) : holds saving m P -> holds saving_dirs (on_fst m) P.
Proof.
  intros Hm [s l] [HI Hl]. apply wp_on_fst. eapply wp_mono; [by apply Hm|]. intros r s' [HI' HP]. by split.
Qed.
Lemma dirs_ensure path must :
  holds saving_dirs (ensure_download_directory fault clock map_order path_order nfc windows handle_ttl owner_id path must)
    (fun _ => True).
Proof.
  eapply holds_bind; [apply dirs_fst, saving_state|]. intros s _.
  eapply (holds_bind _ _ _ (fun created : bool => created = true -> made path)).
  - apply dirs_fst, saving_fst. eapply holds_mono; [by apply keep_create_directory|]. done.
  - intros [] Hm; [|by apply holds_ret]. intros [s' l] [HI Hl]. split; [|done]. split; [done|]. cbn.
    apply Forall_app. split; [done|]. constructor; [by apply Hm|done].
Qed.

Abbreviation open_one := (open_entry fault clock uuid map_order path_order nfc windows handle_ttl owner_id policy).
Lemma dirs_cleanup : holds saving_dirs (fun st => Some (Ok (E := halt) st.2, st)) (Forall made).
Proof. intros [s l] [HI Hl]. by split. Qed.
Lemma dirs_open_entry entry rest root claim : holds saving_dirs (open_one entry rest root claim false) (fun _ => True).
Proof.
  unfold open_entry.
  eapply (holds_bind _ _ _ (fun _ => True)); [destruct (_ || _); [by apply holds_try|by apply holds_ret]|]. intros _ _.
  eapply (holds_bind _ _ _ (fun _ => True)); [destruct (_ && _); [apply dirs_ensure|by apply holds_ret]|]. intros _ _.
  destruct (de_is_dir entry).
  - eapply holds_bind; [apply holds_for_each; intros; apply dirs_ensure|]. intros _ _.
    eapply holds_bind; [apply dirs_cleanup|]. intros c Hc. by apply dirs_fst, saving_add_writer.
  - eapply holds_bind; [apply dirs_fst, saving_state|]. intros s _.
    eapply (holds_bind _ _ _ (fun _ => True)); [by apply holds_try|]. intros _ _.
    eapply holds_bind; [apply holds_for_each; intros; apply dirs_ensure|]. intros _ _.
    eapply holds_bind; [apply dirs_cleanup|]. intros c Hc. by apply dirs_fst, saving_try_open.
Qed.

Lemma saving_remove root d : made d ->
  holds saving (on_fst (remove_download_directory fault clock map_order path_order nfc windows handle_ttl
                          owner_id TRZSZ_API_VERSION root d)) (fun _ => True).
Proof. intros (cs & Hd & Hnew). apply saving_fst. by eapply keep_remove_directory. Qed.

Lemma saving_open_root entry rest root claim :
  holds saving (try_open_with_root fault clock uuid map_order path_order nfc windows handle_ttl owner_id policy
                  entry rest root claim false) (fun _ => True).
Proof.
  eapply (holds_bind _ _ _ (fun out => Forall made out.2)).
  - intros s HI. unfold wp, with_local.
    pose proof (dirs_open_entry entry rest root claim (s, []) (conj HI (Forall_nil_2 _))) as Hw. unfold wp in Hw.
    destruct (open_one _ _ _ _ _ _) as [[r [s' l]]|]; [|done]. destruct Hw as [[HI' Hl] _]. by split.
  - intros [[h|[e| |]] l] Hl; cbn [fst snd] in *; [by apply holds_ret| |apply holds_throw..].
    eapply holds_bind; [apply saving_state|]. intros s _.
    eapply holds_bind; [|intros _ _; apply holds_throw]. apply holds_for_each. intros d Hd.
    eapply holds_bind; [apply holds_attempt_error, saving_remove|intros _ _; by apply holds_ret].
    rewrite Forall_forall in Hl. by apply Hl, elem_of_reverse.
Qed.

Lemma saving_entry n : forall i entry top rest last,
  holds saving (entry_attempts fault clock uuid map_order path_order nfc windows handle_ttl owner_id policy n i
                  entry top rest false last) (fun _ => True).
Proof.
  induction n as [|n IH]; intros i entry top rest last; cbn [entry_attempts]; [apply holds_throw|].
  eapply holds_bind; [by apply holds_attempt_error, saving_open_root|]. intros [h|e] _.
  - eapply holds_bind; [by apply saving_modify|]. intros _ _. by apply holds_ret.
  - destruct (_ && _); [apply IH|apply holds_throw].
Qed.

Abbreviation open_file := (open_save fault clock uuid map_order path_order nfc windows handle_ttl owner_id policy).
Lemma saving_open `{Codec} name dir : holds saving (open_file name dir false) (fun _ => True).
Proof.
  unfold open_save. destruct (negb dir); [apply saving_flat|].
  eapply (holds_bind _ _ _ (fun _ => True)); [by apply holds_try|]. intros entry _.
  unfold open_directory_save_entry. destruct (de_name entry) as [|top rest]; [apply holds_throw|].
  eapply holds_bind; [apply saving_state|]. intros s _. cbv match.
  destruct (maps s !! de_id entry); [apply saving_open_root|apply saving_entry].
Qed.

Lemma saving_with_writer {A} h (f : Writer -> DM A) :
  (forall w, Forall made (cleanup_of w) -> holds saving (f w) (fun _ => True)) ->
  holds saving (with_writer h f) (fun _ => True).
Proof.
  intros Hf [w0 s] [HI Hs]. apply wp_bind. cbn. destruct (writers s !! h_index h) as [w|] eqn:E; [|done].
  apply Hf; [|done]. rewrite Forall_lookup in Hs. by eapply Hs.
Qed.
Lemma saving_set_writer h w : Forall made (cleanup_of w) -> holds saving (set_writer h w) (fun _ => True).
Proof. intros Hw [w0 s] [HI Hs]. split; [|done]. split; [done|]. cbn. by apply Forall_insert. Qed.

Lemma saving_write h data :
  holds saving (writer_write fault clock map_order path_order handle_ttl owner_id h data) (fun _ => True).
Proof.
  apply saving_with_writer. intros w Hw. destruct w as [|id path name local c fin ab st limit]; [apply holds_throw|].
  destruct (fin || ab); [apply holds_throw|]. eapply holds_bind; [by apply saving_modify|]. intros _ _.
  eapply holds_bind; [apply saving_state|]. intros s _. destruct (_ <? _); [apply holds_throw|].
  by apply saving_fst, keep_write_download.
Qed.
Lemma saving_commit h :
  holds saving (writer_commit fault clock map_order path_order nfc windows handle_ttl owner_id h) (fun _ => True).
Proof.
  apply saving_with_writer. intros w Hw.
  assert (Hc : forall c, holds saving (commit_directories fault clock map_order path_order nfc windows handle_ttl owner_id c)
                           (fun _ => True)).
  { intros c. eapply holds_bind; [apply saving_state|]. intros s _. apply holds_for_each. intros d _.
    by apply saving_fst, keep_commit_download. }
  by destruct w; apply Hc.
Qed.
Lemma saving_finish h :
  holds saving (writer_finish fault clock map_order path_order handle_ttl owner_id h) (fun _ => True).
Proof.
  apply saving_with_writer. intros w Hw. destruct w as [|id path name local c fin ab st limit]; [by apply holds_ret|].
  destruct (fin || ab); [by apply holds_ret|]. eapply holds_bind; [by apply saving_set_writer|]. intros _ _.
  eapply holds_bind; [by apply saving_fst, keep_finish_download|]. intros _ _. by apply saving_set_writer.
Qed.
Lemma saving_abort h :
  holds saving (writer_abort fault clock map_order path_order nfc windows handle_ttl owner_id h) (fun _ => True).
Proof.
  apply saving_with_writer. intros w Hw. destruct w as [c name local|id path name local c fin ab st limit].
  - eapply holds_bind; [apply saving_state|]. intros s _. apply holds_for_each. intros d Hd. apply saving_remove.
    cbn in Hw. rewrite Forall_forall in Hw. by apply Hw, elem_of_reverse.
  - destruct (fin || ab); [by apply holds_ret|].
    eapply holds_bind; [by apply saving_fst, keep_abort_download|]. intros _ _. by apply saving_set_writer.
Qed.
End Confined.

Lemma quiet_modify N f :
  (forall t, buffer_ok (t_buffer t) -> follows t (f t)) -> quiet N (TrzszTransfer.modify f).
Proof. intros Hf t Hok _. by apply Hf. Qed.

Lemma quiet_get N {A} (f : TrzszTransfer -> TM A) : (forall t, quiet N (f t)) -> quiet N (bind TrzszTransfer.get f).
Proof. intros Hf t Hok Hn. exact (Hf t t Hok Hn). Qed.

Lemma quiet_send_action N `{Codec} confirm win : quiet N (send_action confirm win).
Proof.
  apply quiet_get. intros t. apply quiet_bind; [|intros _; apply quiet_send_line].
  destruct win; [|apply quiet_ret]. apply quiet_modify. intros t' Hok. by apply (follows_refl t').
Qed.
Lemma quiet_recv_config N fuel `{Codec} utf8_error : (N < fuel)%nat -> quiet N (recv_config utf8_error fuel).
Proof.
  intros Hf. apply quiet_bind; [by apply eager_quiet, recv_string_eager|]. intros text.
  apply quiet_bind; [apply quiet_lift|]. intros config. apply quiet_bind; [|intros _; apply quiet_ret].
  apply quiet_modify. intros t Hok. by apply (follows_refl t).
Qed.
Lemma quiet_client_error N `{Codec} message : quiet N (client_error message).
Proof.
  apply quiet_bind; [|intros _; apply quiet_send_line]. apply quiet_modify. intros t Hok. unfold follows.
  split_and!; [by constructor|apply suffix_nil|done].
Qed.
Lemma calm_attempt_error {X} (I : X -> Prop) N {A} (m : M halt (TrzszTransfer * X) A) :
  calm I N m -> calm I N (attempt_error m).
Proof.
  intros Hm. apply calm_bind; [by apply calm_attempt|].
  intros [a|[e| |]]; [apply calm_ret|apply calm_ret|apply calm_throw..].
Qed.

(** What the worker does after the transfer. *)
Lemma calm_wind_up {X C} `{Codec} (I : X -> Prop) N (cleanup : M halt X C) (e : result TrzszError unit) (k : TrzszWorkerEvent) :
  holds I cleanup (fun _ => True) ->
  calm I N
    (do* match e with
         | Err error => if is_cancelled_transfer error then ret tt
                        else do* attempt_error (on_fst (client_error (error_to_string error))) in ret tt
         | Ok _ => ret tt
         end in
     do* on_snd cleanup in ret k).
Proof.
  intros Hc. apply calm_bind; [|intros _].
  - destruct e as [|e]; [apply calm_ret|]. destruct (is_cancelled_transfer e); [apply calm_ret|].
    apply calm_bind; [|intros _; apply calm_ret]. apply calm_attempt_error, calm_fst, quiet_client_error.
  - apply calm_bind; [by eapply calm_snd|intros _; apply calm_ret].
Qed.
Lemma wp_attempt_error {S A B} (m : M halt S A) (f : result TrzszError A -> M halt S B) Q s :
  wp m (fun r s' => match r with
                    | Ok a => wp (f (Ok a)) Q s'
                    | Err (Fails e) => wp (f (Err e)) Q s'
                    | Err h => Q (Err h) s'
                    end) s -> wp (bind (attempt_error m) f) Q s.
Proof.
  intros Hm. apply wp_bind. unfold attempt_error. apply wp_bind, wp_attempt. eapply wp_mono; [exact Hm|].
  intros [a|[e| |]] s' H; cbn [wp_then]; [by apply wp_ret|by apply wp_ret|done|done].
Qed.

Lemma resolve_chain fs p d : fs_wf fs -> resolve fs p = Ok d -> node_at fs d = Some Dir -> dir_chain fs d.
Proof. intros [_ Hc]. unfold resolve. destruct (decide _); [done|]. by apply walk_chain. Qed.

(** ** The whole download *)

Section Theorems.
Context (fault : nat -> option (Z * io_error)) (clock : nat -> Z) (uuid : nat -> list Z).
Context (map_order : forall A, gmap (list Z) A -> list (list Z * A)).
Context (id_order : gset (list Z) -> list (list Z)) (path_order : gset PathBuf -> list PathBuf).
Context (nfc : list Z -> list Z) (windows : bool) (handle_ttl : Z).
Context (owner_id : list Z) (policy : TrzszTransferPolicy).
Context `{Codec} (elapsed : nat -> Z) (utf8_error : list Z -> list Z) (fuel : nat).
Context (path_order_elem : forall (X : gset PathBuf) p, p ∈ path_order X -> p ∈ X).
Context (uuid_plain : forall i, Forall (fun c => c <> 47) (uuid i)).

Abbreviation download :=
  (run_download fault clock uuid map_order path_order nfc windows handle_ttl owner_id policy elapsed utf8_error fuel).
Abbreviation worker :=
  (run_trzsz_download fault clock uuid map_order id_order path_order nfc windows handle_ttl owner_id policy elapsed
     utf8_error fuel).

(** The root is prepared as the place the folder resolves to. *)
Lemma prepare_root_ok api root R w :
  dir_chain (w_fs w) R -> resolve (w_fs w) (parse_path root) = Ok R -> node_at (w_fs w) R = Some Dir ->
  Inv (w_fs w) R owner_id None [] w ->
  wp (download_prepare_root fault clock map_order path_order handle_ttl owner_id api root)
    (fun _ w' => Inv (w_fs w) R owner_id None [] w') w.
Proof.
  intros HR Hres Hdir HI. unfold download_prepare_root. apply wp_bind.
  destruct (validate_api_version api) as [[]|]; [|done]. apply wp_ret. cbn [wp_then].
  apply wp_bind. destruct (validate_owner_id owner_id) as [[]|]; [|done]. apply wp_ret. cbn [wp_then].
  apply wp_bind. assert (canonicalize_existing_root root w = Some (Ok (abs R), w)) as Hc.
  { unfold canonicalize_existing_root, io, on_fs, metadata, canonicalize, look, bind. rewrite Hres. cbn [result_bind].
    rewrite Hdir. cbn [metadata_of is_directory]. rewrite set_fs_same. cbn. by rewrite Hres, set_fs_same. }
  unfold wp at 1. rewrite Hc. cbn [wp_then].
  eapply wp_mono; [by apply keep_prepare_root|]. by intros r w' [? _].
Qed.

Section Run.
Context (fs0 : FileSystem) (R : place) (R_dir : dir_chain fs0 R) (N : nat) (Hfuel : (N < fuel)%nat).

Abbreviation Inv1 := (fun s : World * SaveState => Inv fs0 R owner_id None [] s.1).

Lemma calm_saving {A} (m : M halt (TrzszTransfer * (World * SaveState)) A) root :
  calm (saving nfc windows owner_id fs0 R) N m -> calm Inv1 N (do* on_snd (modify_save (fun _ => new_save root)) in m).
Proof.
  intros Hm t [w sv] Hok Hn HI. apply wp_bind. cbn. eapply wp_mono; [apply Hm; [done..|by split]|].
  intros r s [Ht [HI' _]]. by split.
Qed.

Lemma calm_save_files : calm (saving nfc windows owner_id fs0 R) N
  (recv_files (H0 := Native_writer fault clock map_order path_order nfc windows handle_ttl owner_id) elapsed utf8_error fuel
     (open_save fault clock uuid map_order path_order nfc windows handle_ttl owner_id policy)).
Proof.
  apply calm_recv_files; [done| | | | | |].
  - intros. by apply saving_open.
  - intros. by apply saving_write.
  - intros. by apply holds_ret.
  - intros. by apply saving_commit.
  - intros. by apply saving_finish.
  - intros. by apply saving_abort.
Qed.

Lemma calm_after_prepare win prepared :
  calm Inv1 N
    (do* on_fst (send_action true win) in
     let* config := on_fst (recv_config utf8_error fuel) in
     if is_true (value_index config (lit "directory")) && negb (allow_directory policy)
     then fail (DirectoryNotAllowed (lit "terminal settings"))
     else
       do* on_snd (modify_save (fun _ => new_save prepared)) in
       let* local_names := recv_files (H0 := Native_writer fault clock map_order path_order nfc windows handle_ttl owner_id)
                             elapsed utf8_error fuel
                             (open_save fault clock uuid map_order path_order nfc windows handle_ttl owner_id policy) in
       on_fst (client_exit (format_saved_files local_names prepared))).
Proof.
  apply calm_bind; [apply calm_fst, quiet_send_action|]. intros _.
  apply calm_bind; [by apply calm_fst, quiet_recv_config|]. intros config.
  destruct (_ && _); [apply calm_throw|]. apply calm_saving.
  apply calm_bind; [apply calm_save_files|]. intros names. apply calm_fst, quiet_send_line.
Qed.
End Run.

(** From the chosen folder on, the invariant of the handles is kept; without
    a folder nothing is touched. *)
Lemma download_keeps win root R t w sv :
  buffer_ok (t_buffer t) -> (unread_len t < fuel)%nat -> fs_wf (w_fs w) -> idle owner_id w ->
  resolve (w_fs w) (parse_path root) = Ok R -> node_at (w_fs w) R = Some Dir ->
  wp (download win (Some root))
    (fun _ s => follows t s.1 /\ Inv (w_fs w) R owner_id None [] s.2.1) (t, (w, sv)).
Proof.
  intros Hok Hf Hwf Hidle Hres Hdir.
  assert (HR : dir_chain (w_fs w) R) by by eapply resolve_chain.
  cbn [run_download]. apply wp_bind, wp_on_snd, wp_on_fst. eapply wp_mono; [by eapply prepare_root_ok, Inv_start|].
  intros [prepared|e] w' HI; cbn [wp_then].
  - by eapply (calm_after_prepare (w_fs w) R HR _ Hf win prepared).
  - split; [by apply follows_refl|done].
Qed.

Lemma worker_keeps win root R t w sv :
  buffer_ok (t_buffer t) -> (unread_len t < fuel)%nat -> fs_wf (w_fs w) -> idle owner_id w ->
  resolve (w_fs w) (parse_path root) = Ok R -> node_at (w_fs w) R = Some Dir ->
  wp (worker win (Some root)) (fun _ s => Inv (w_fs w) R owner_id None [] s.2.1) (t, (w, sv)).
Proof.
  intros Hok Hf Hwf Hidle Hres Hdir.
  assert (HR : dir_chain (w_fs w) R) by by eapply resolve_chain.
  unfold run_trzsz_download. apply wp_attempt_error. eapply wp_mono; [by eapply download_keeps|].
  intros r [t' [w' sv']] [Ht HI]. cbn [fst snd] in *.
  set (I := fun s : World * SaveState => Inv (w_fs w) R owner_id None [] s.1).
  assert (Hc : holds I (on_fst (cleanup_owner fault clock map_order id_order path_order handle_ttl owner_id))
                 (fun _ => True)).
  { intros [v sv''] HI'. apply wp_on_fst. eapply wp_mono; [by eapply keep_cleanup_owner|].
    intros ? v' [HI2 ?]. by split. }
  destruct r as [a|[e| |]]; [| |done|done].
  - eapply wp_mono; [apply (calm_wind_up I (unread_len t') _ (Ok a)); [done|apply Ht|done|done]|]. by intros ? ? [].
  - eapply wp_mono; [apply (calm_wind_up I (unread_len t') _ (Err e)); [done|apply Ht|done|done]|]. by intros ? ? [].
Qed.

(** C4: a download into an existing folder, when no other download of the
    program is open or remembered (the [idle] state: the worker shares its state
    with the downloads of other terminals and cleans up their expired partial
    files) and on a well-formed file system.  Whatever bytes the server sends,
    the worker comes to a stop: it returns, waits for more input in the middle of
    the transfer, or panics on a malformed line.  In each of these cases the file
    system then holds everything it held before, unchanged, and every new entry
    is below the folder the user chose and is no symbolic link.  This includes
    names with separators or parent references, existing links inside the folder,
    failing file-system calls and the clean-up at the end. *)
Theorem trzsz_download_confined (win : bool) (root : list Z) (R : place) (t : TrzszTransfer) (w : World) (sv : SaveState) :
  buffer_ok (t_buffer t) -> (unread_len t < fuel)%nat -> fs_wf (w_fs w) -> idle owner_id w ->
  resolve (w_fs w) (parse_path root) = Ok R -> node_at (w_fs w) R = Some Dir ->
  exists r t' w' sv',
    run_trzsz_download fault clock uuid map_order id_order path_order nfc windows handle_ttl owner_id policy elapsed
      utf8_error fuel win (Some root) (t, (w, sv)) = Some (r, (t', (w', sv')))
    /\ only_adds_below R (w_fs w) (w_fs w').
Proof.
  intros Hok Hf Hwf Hidle Hres Hdir. pose proof (worker_keeps win root R t w sv Hok Hf Hwf Hidle Hres Hdir) as Hw.
  unfold wp in Hw. destruct (worker win (Some root) (t, (w, sv))) as [[r [t' [w' sv']]]|]; [|done].
  exists r, t', w', sv'. split; [done|]. by eapply Inv_adds.
Qed.
End Theorems.

(** ** A download on a concrete machine *)

(** A codec whose every JSON text is the same configuration. *)
Definition DemoCodec : Codec := {|
  deflate b := b;
  inflate b := Ok b;
  b64_encode := hex_encode;
  b64_decode := hex_decode;
  md5 b := [Prelude.wrap 8 (zsum b)];
  json_to_string _ := [];
  json_from_str _ := Ok (VObject [(lit "binary", VBool false)])
|}.
(** /home/d holds a file b and a link a.txt to /etc/passwd. *)
Definition demo_fs : FileSystem :=
  mkFs (list_to_map [([lit "etc"], Dir); ([lit "etc"; lit "passwd"], File 0); ([lit "home"], Dir);
                     ([lit "home"; lit "d"], Dir); ([lit "home"; lit "d"; lit "b"], File 1);
                     ([lit "home"; lit "d"; lit "a.txt"], Symlink (abs [lit "etc"; lit "passwd"]))])
    (list_to_map [(0%nat, [7]); (1%nat, [8])]) 2 [] 0 [].
Definition demo_world : World := mkWorld demo_fs new_state 0 0.
(** At most no file and 1000 bytes. *)
Definition demo_policy : TrzszTransferPolicy := mkPolicy true 4096 0 1000.
Definition demo_stream (name data : list Z) (digest : Z) : list Z :=
  packed_msg (H := DemoCodec) false (lit "CFG") (lit "{}") ++ int_msg false (lit "NUM") 1
  ++ packed_msg (H := DemoCodec) false (lit "NAME") name ++ int_msg false (lit "SIZE") (zlen data)
  ++ packed_msg (H := DemoCodec) false (lit "DATA") data
  ++ packed_msg (H := DemoCodec) false (lit "MD5") [digest].
Definition demo_download (name data : list Z) (digest : Z) :=
  run_trzsz_download (H := DemoCodec) (fun _ => None) (fun _ => 0) (fun _ => [48]) (fun A => map_to_list) elements
    elements id false 900 (lit "me") demo_policy (fun _ => 0) id 1000 false (Some (lit "/home/d"))
    (feed (demo_stream name data digest) (new_transfer false 4096), (demo_world, new_save [])).
(** What a run leaves in the folder, and how it ended. *)
Definition left_behind {A} (run : option (A * (TrzszTransfer * (World * SaveState)))) (name : list Z) : option (A * option (list Z)) :=
  match run with
  | Some (r, (_, (w, _))) =>
      Some (r, match nodes (w_fs w) !! [lit "home"; lit "d"; name] with
               | Some (File i) => inodes (w_fs w) !! i
               | _ => None
               end)
  | None => None
  end.

(** The name is taken, so the file is saved under the next free one, also
    where the policy allows no file: only directory entries are counted. *)
Example download_beside_existing :
  left_behind (demo_download (lit "b") [1; 2; 3] 6) (lit "b.0") = Some (Ok Completed, Some [1; 2; 3]).
Proof. vm_compute. reflexivity. Qed.
(** A link is not followed, and a path that leaves the folder is refused. *)
Example download_refuses_link :
  left_behind (demo_download (lit "a.txt") [1; 2; 3] 6) (lit "b")
  = Some (Ok (Failed (lit "Symlink is not allowed: /home/d/a.txt")), Some [8]).
Proof. vm_compute. reflexivity. Qed.
Example download_refuses_parent :
  left_behind (demo_download (lit "../x") [1; 2; 3] 6) (lit "b")
  = Some (Ok (Failed (lit "Invalid path: Relative path component is not allowed: ..")), Some [8]).
Proof. vm_compute. reflexivity. Qed.
(** A wrong digest leaves nothing behind. *)
Example download_wrong_digest :
  left_behind (demo_download (lit "c") [1; 2; 3] 7) (lit "c")
  = Some (Ok (Failed (lit "Invalid trzsz state: Check MD5 failed")), None).
Proof. vm_compute. reflexivity. Qed.

(** The parents that a flat name makes are not cleaned up when the transfer
    fails. *)
Example parent_left_behind :
  (fun run => match run with
              | Some (Ok (Failed _), (_, (w, _))) => nodes (w_fs w) !! [lit "home"; lit "d"; lit "x"]
              | _ => None
              end) (demo_download (lit "x/y") [1; 2; 3] 7) = Some Dir.
Proof. vm_compute. reflexivity. Qed.
(** With 256 open downloads the next one is refused, and its temporary file
    stays: no handle and no clean-up knows it. *)
Definition busy_owner : OwnerState :=
  mkOwner ∅ (Some (abs [lit "home"; lit "d"])) ∅ (list_to_set (map (fun n => [Z.of_nat n]) (seq 0 256))) ∅ 0.
Example temp_file_left_behind :
  (fun run => match run with
              | Some (Err (Fails (InvalidState _)), w) =>
                  (nodes (w_fs w) !! [lit "home"; lit "d"; lit ".c.oxide-trzsz-0.part"], size (download_handles (w_inner w)))
              | _ => (None, 1%nat)
              end)
    (open_save_file (fun _ => None) (fun _ => 0) (fun _ => [48]) (fun A => map_to_list) elements id false 900
       (lit "me") TRZSZ_API_VERSION (lit "/home/d") (lit "c") false
       (mkWorld demo_fs (mkInner {[lit "me" := busy_owner]} ∅ ∅) 0 0))
  = (Some (File 2), 0%nat).
Proof. vm_compute. reflexivity. Qed.

Lemma demo_fs_wf : fs_wf demo_fs.
Proof.
  split.
  - intros i c Hi. change (inodes demo_fs) with (list_to_map [(0%nat, [7]); (1%nat, [8])] : gmap nat (list Z)) in Hi.
    apply elem_of_list_to_map_2 in Hi. cbn.
    apply elem_of_cons in Hi as [[= -> ->]|Hi]; [lia|]. apply list_elem_of_singleton in Hi as [= -> ->]. lia.
  - by intros q ->%prefix_nil_inv.
Qed.

Lemma trzsz_download_confined_witness : exists r t' w' sv',
  demo_download (lit "b") [1; 2; 3] 6 = Some (r, (t', (w', sv')))
  /\ only_adds_below [lit "home"; lit "d"] demo_fs (w_fs w').
Proof.
  unfold demo_download.
  apply (trzsz_download_confined (H := DemoCodec) (fun _ => None) (fun _ => 0) (fun _ => [48]) (fun A => map_to_list)
           elements elements id false 900 (lit "me") demo_policy (fun _ => 0) id 1000).
  - intros X p. by rewrite elem_of_elements.
  - intros _. by repeat constructor.
  - apply buffer_ok_feed.
  - apply Nat.ltb_lt. vm_compute. reflexivity.
  - exact demo_fs_wf.
  - split_and!; [reflexivity|reflexivity|]. by intros o ow Ho.
  - vm_compute. reflexivity.
  - vm_compute. reflexivity.
Defined.
