(* ===== verification/TrzszLimit.v ===== *)
(** * A download writes no more than the policy allows

    The proofs about the byte limit of [TrzszSave]: through every operation of
    the handles the contents of all files stay bounded, because only
    [write_chunk] adds bytes, it appends at the position of a handle that is
    inside its file, and the writers count a block against the limit before
    they pass it on. *)
From S2P Require Import Prelude Text Utf16 TrzszBuffer TrzszTransfer TrzszFilter FileSystem TrzszState TrzszConfine TrzszSave.
From Stdlib Require Import Ascii String.
From stdpp Require Import prelude numbers list gmap fin_maps.
Open Scope Z_scope.

Create HintDb steady.

(** ** Bytes on disk *)

Definition bytes_in (m : gmap nat (list Z)) : Z := map_fold (fun _ c n => zlen c + n) 0 m.

Lemma bytes_in_delete m i c : m !! i = Some c -> bytes_in m = zlen c + bytes_in (delete i m).
Proof. intros Hi. unfold bytes_in. apply (map_fold_delete_L (fun _ c n => zlen c + n)); [lia|done]. Qed.
Lemma bytes_in_insert_new m i : m !! i = None -> bytes_in (<[i := []]> m) = bytes_in m.
Proof.
  intros Hi. unfold bytes_in. rewrite map_fold_insert_L; [|lia|done]. unfold zlen. cbn. lia.
Qed.
Lemma bytes_in_alter m i f k :
  0 <= k -> (forall c, m !! i = Some c -> zlen (f c) <= zlen c + k) -> bytes_in (alter f i m) <= bytes_in m + k.
Proof.
  intros Hk Hf. destruct (m !! i) as [c|] eqn:E.
  - rewrite (bytes_in_delete m i c E), (bytes_in_delete (alter f i m) i (f c)) by by rewrite lookup_alter, decide_True, E.
    rewrite delete_alter, decide_True by done. specialize (Hf c eq_refl). lia.
  - replace (alter f i m) with m; [lia|]. symmetry. apply alter_id. congruence.
Qed.

Lemma zlen_store_at pos d c : 0 <= pos <= zlen c -> zlen c <= zlen (store_at pos d c) <= zlen c + zlen d
  /\ pos + zlen d <= zlen (store_at pos d c).
Proof.
  intros Hp. unfold store_at, ztake, zdrop, zlen in *.
  rewrite !length_app, length_take, length_replicate, length_drop. lia.
Qed.

(** An open file is at a position inside its contents. *)
Definition file_ok (fs : FileSystem) (f : OpenFile) : Prop :=
  forall i, f_node f = Some i ->
    (i < next_ino fs)%nat /\ exists c, inodes fs !! i = Some c /\ 0 <= f_pos f <= zlen c.

(** No more than [D] bytes, and every open download (and every file in
    [held]) is fine. *)
Record within (D : Z) (held : list OpenFile) (w : World) : Prop := {
  in_bytes : bytes_in (inodes (w_fs w)) <= D;
  in_fresh : forall i c, inodes (w_fs w) !! i = Some c -> (i < next_ino (w_fs w))%nat;
  in_held : Forall (file_ok (w_fs w)) held;
  in_files : forall id h, download_handles (w_inner w) !! id = Some h -> file_ok (w_fs w) (d_file h)
}.

(** A computation that adds no bytes. *)
Definition steady {A} (m : WM A) : Prop := forall D held, holds (within D held) m (fun _ => True).

Lemma steady_bind {A B} (m : WM A) (f : A -> WM B) : steady m -> (forall a, steady (f a)) -> steady (bind m f).
Proof. intros Hm Hf D held. eapply holds_bind; [apply Hm|]. intros a _. apply Hf. Qed.
Lemma steady_ret {A} (a : A) : steady (ret a).
Proof. intros D held. by apply holds_ret. Qed.
Lemma steady_throw {A} h : steady (A := A) (throw h).
Proof. intros D held. apply holds_throw. Qed.
Lemma steady_try {A} (r : result TrzszError A) : steady (try_result r).
Proof. intros D held. by apply holds_try. Qed.
Lemma steady_attempt {A} (m : WM A) : steady m -> steady (attempt m).
Proof. intros Hm D held. eapply holds_mono; [apply holds_attempt, Hm|]. done. Qed.
Lemma steady_for_each {A} (f : A -> WM unit) l : (forall x, steady (f x)) -> steady (for_each f l).
Proof. intros Hf D held. apply holds_for_each. intros x _. apply Hf. Qed.

Lemma steady_inner : steady inner.
Proof. intros D held w []. split; [|done]. by constructor. Qed.
Lemma steady_now clock : steady (now clock).
Proof. intros D held w []. split; [|done]. by constructor. Qed.
Lemma steady_uuid uuid : steady (new_uuid uuid).
Proof. intros D held w []. split; [|done]. by constructor. Qed.

(** A change that opens no download. *)
Lemma steady_modify f : (forall s, download_handles (f s) ⊆ download_handles s) -> steady (modify_inner f).
Proof.
  intros Hf D held w []. split; [|done]. constructor; [done..|]. intros id h Hh. cbn in Hh.
  eapply in_files0, lookup_weaken; [exact Hh|apply Hf].
Qed.

(** A file operation that leaves the contents alone. *)
Definition idle_fs {A} (m : FM A) : Prop := forall fs,
  exists r fs', m fs = Some (r, fs') /\ inodes fs' = inodes fs /\ next_ino fs' = next_ino fs.
Lemma steady_on_fs {A} (m : FM A) : idle_fs m -> steady (on_fs m).
Proof.
  intros Hm D held w [Hb Hf Hh Hi]. unfold wp, on_fs. destruct (Hm (w_fs w)) as (r & fs' & -> & Hin & Hnext).
  split; [|done]. destruct w as [fs s t n]. cbn in *.
  assert (Hok : forall f, file_ok fs f -> file_ok fs' f) by (intros f; unfold file_ok; by rewrite Hin, Hnext).
  constructor; cbn; [by rewrite Hin|by rewrite Hin, Hnext|by eapply Forall_impl|eauto].
Qed.
Lemma steady_io {A} (m : FM A) : idle_fs m -> steady (io m).
Proof.
  intros Hm. apply steady_bind; [by apply steady_on_fs|]. intros [a|e]; [apply steady_ret|apply steady_throw].
Qed.

Lemma idle_read {A} (m : FM A) : (forall fs, exists r, m fs = Some (r, fs)) -> idle_fs m.
Proof. intros Hm fs. destruct (Hm fs) as [r ->]. eauto. Qed.
Lemma idle_metadata p : idle_fs (metadata p).
Proof. apply idle_read. by eexists. Qed.
Lemma idle_symlink_metadata p : idle_fs (symlink_metadata p).
Proof. apply idle_read. by eexists. Qed.
Lemma idle_canonicalize p : idle_fs (canonicalize p).
Proof. apply idle_read. by eexists. Qed.
Lemma idle_at_entry fault p change :
  (forall k n fs fs', change k n fs = Ok fs' -> inodes fs' = inodes fs /\ next_ino fs' = next_ino fs) ->
  idle_fs (at_entry fault p change).
Proof.
  intros Hc fs. unfold at_entry, faulty. destruct (fault (calls fs)) as [[n e]|]; [by eexists _, _|].
  destruct (entry (tick fs) p) as [k|e]; cbn; [|by eexists _, _].
  destruct (change k _ (tick fs)) as [fs'|e] eqn:E; [|by eexists _, _].
  apply Hc in E. by eexists _, _.
Qed.
Lemma idle_create_dir fault p : idle_fs (create_dir fault p).
Proof. apply idle_at_entry. intros k [] fs fs'; by intros [= <-]. Qed.
Lemma idle_remove_dir fault p : idle_fs (remove_dir fault p).
Proof. apply idle_at_entry. intros k [[| |]|] fs fs' H; repeat case_match; by simplify_eq. Qed.
Lemma idle_remove_file fault p : idle_fs (remove_file fault p).
Proof. apply idle_at_entry. intros k [[| |]|] fs fs' H; by simplify_eq. Qed.
Lemma idle_rename fault p q : idle_fs (rename fault p q).
Proof.
  apply idle_at_entry. intros k n fs fs'. destruct (entry fs q) as [b|]; cbn; [|done].
  intros H. repeat case_match; by simplify_eq.
Qed.
Lemma idle_sync fault f : idle_fs (sync_all fault f).
Proof. intros fs. unfold sync_all, faulty. destruct (fault (calls fs)) as [[n e]|]; by eexists _, _. Qed.

#[export] Hint Resolve steady_ret steady_throw steady_try steady_inner steady_now steady_uuid idle_metadata
  idle_symlink_metadata idle_canonicalize idle_create_dir idle_remove_dir idle_remove_file idle_rename idle_sync
  steady_on_fs steady_io : steady.

(** Follows the structure of a computation. *)
Ltac steady :=
  repeat first
    [ solve [auto 3 with steady]
    | progress intros
    | apply steady_bind
    | apply steady_for_each
    | apply steady_attempt
    | apply steady_modify; intros []; cbn; (done || apply delete_subseteq)
    | case_match ].

(** ** The operations of the handles *)

Section Steady.
Context (fault : nat -> option (Z * io_error)) (clock : nat -> Z) (uuid : nat -> list Z).
Context (map_order : forall A, gmap (list Z) A -> list (list Z * A)).
Context (id_order : gset (list Z) -> list (list Z)) (path_order : gset PathBuf -> list PathBuf).
Context (nfc : list Z -> list Z) (windows : bool) (handle_ttl : Z).

Lemma steady_touch_owner o f : steady (touch_owner clock o f).
Proof. unfold touch_owner, on_owner. steady. Qed.
Lemma steady_on_owner o f : steady (on_owner o f).
Proof. unfold on_owner. steady. Qed.
Lemma steady_with_owner t o f : steady (with_owner t o f).
Proof. unfold with_owner. steady. Qed.
Lemma steady_take id : steady (take_download id).
Proof. unfold take_download. steady. Qed.
Hint Resolve steady_touch_owner steady_on_owner steady_with_owner steady_take : steady.

Lemma steady_count_errors m l : (forall p, idle_fs (m p)) -> steady (count_errors m l).
Proof. intros Hm. induction l as [|p l IH]; cbn [count_errors]; steady. Qed.
Hint Resolve steady_count_errors : steady.
Lemma steady_execute plan : steady (execute fault plan).
Proof. unfold execute. steady. Qed.
Lemma steady_purge_downloads l : steady (purge_downloads clock l).
Proof. induction l as [|[id o] l IH]; cbn [purge_downloads]; unfold release_download_handle; steady. Qed.
Lemma steady_purge_owners l : steady (purge_owners path_order l).
Proof. induction l as [|o l IH]; cbn [purge_owners]; steady. Qed.
Lemma steady_take_temps l : steady (take_temps l).
Proof. induction l as [|id l IH]; cbn [take_temps]; steady. Qed.
Hint Resolve steady_execute steady_purge_downloads steady_purge_owners steady_take_temps : steady.
Lemma steady_purge : steady (purge_expired fault clock map_order path_order handle_ttl).
Proof. unfold purge_expired, collect_expired_cleanup, release_upload_handle. steady. Qed.
Hint Resolve steady_purge : steady.

Lemma steady_canonicalize root : steady (canonicalize_existing_root root).
Proof. unfold canonicalize_existing_root. steady. Qed.
Lemma steady_build_parents cs : forall p, steady (build_parents fault p cs).
Proof. induction cs as [|c cs IH]; intros p; cbn [build_parents]; unfold symlink_error, invalid; steady. Qed.
Lemma steady_validate_parents cs : forall p, steady (validate_parents p cs).
Proof. induction cs as [|c cs IH]; intros p; cbn [validate_parents]; unfold symlink_error, invalid; steady. Qed.
Lemma steady_check_parents cs : forall p, steady (check_parents p cs).
Proof. induction cs as [|c cs IH]; intros p; cbn [check_parents]; unfold symlink_error, invalid; steady. Qed.
Hint Resolve steady_canonicalize steady_build_parents steady_validate_parents steady_check_parents : steady.
Lemma steady_target root cs : steady (target_path fault root cs).
Proof. unfold target_path, build_download_target_path, symlink_error. steady. Qed.
Lemma steady_validate root final : steady (validate_download_target_path root final).
Proof. unfold validate_download_target_path, symlink_error, invalid. steady. Qed.
Lemma steady_checked_root o api root : steady (checked_root fault clock map_order path_order handle_ttl o api root).
Proof. unfold checked_root, prepared_download_root. steady. Qed.
Lemma steady_commit_directory o p : steady (commit_directory fault clock map_order path_order handle_ttl o p).
Proof. unfold commit_directory. steady. Qed.
Lemma steady_claim o id : steady (claim_download clock o id).
Proof. unfold claim_download, release_download_handle. steady. Qed.
Hint Resolve steady_target steady_validate steady_checked_root steady_commit_directory steady_claim : steady.
Lemma steady_put h : steady (put_in_place fault h).
Proof. unfold put_in_place, symlink_error, invalid. steady. Qed.
Hint Resolve steady_put : steady.

Lemma steady_finish o api id : steady (finish_download_file fault clock map_order path_order handle_ttl o api id).
Proof. unfold finish_download_file, finish_download_handle. steady. Qed.
Lemma steady_abort o api id : steady (abort_download_file fault clock o api id).
Proof. unfold abort_download_file, abort_download_handle. steady. Qed.
Lemma steady_create_directory o api root dir must :
  steady (create_download_directory fault clock map_order path_order nfc windows handle_ttl o api root dir must).
Proof. unfold create_download_directory, register_download_directory, symlink_error, invalid. steady. Qed.
Lemma steady_commit_download o api root dir :
  steady (commit_download_directory fault clock map_order path_order nfc windows handle_ttl o api root dir).
Proof. unfold commit_download_directory. steady. Qed.
Lemma steady_remove_directory o api root dir :
  steady (remove_download_directory fault clock map_order path_order nfc windows handle_ttl o api root dir).
Proof. unfold remove_download_directory, symlink_error, invalid. steady. Qed.
Lemma steady_prepare_root o api root :
  steady (download_prepare_root fault clock map_order path_order handle_ttl o api root).
Proof. unfold download_prepare_root, prepare_download_root. steady. Qed.
Lemma steady_cleanup o : steady (cleanup_owner fault clock map_order id_order path_order handle_ttl o).
Proof. unfold cleanup_owner. steady. Qed.

(** A new file is held until it is registered. *)
Lemma within_open p w D held :
  within D held w ->
  wp (on_fs (open_new fault p))
    (fun r w' => match r with
                 | Ok (Ok f) => within D (f :: held) w'
                 | _ => within D held w'
                 end) w.
Proof.
  intros [Hb Hf Hh Hi]. unfold wp, on_fs, open_new, faulty. destruct w as [fs s t n]. cbn in *.
  destruct (fault (calls fs)) as [[m e]|]; [by constructor|].
  destruct (entry (tick fs) p) as [k|e]; [|by constructor].
  destruct (node_at (tick fs) k); [by constructor|].
  assert (Hnew : inodes fs !! next_ino fs = None).
  { destruct (inodes fs !! next_ino fs) eqn:E; [|done]. apply Hf in E. lia. }
  set (fs' := mkFs _ _ _ _ _ _).
  assert (Hok : forall f, file_ok fs f -> file_ok fs' f).
  { intros f H i Hn. destruct (H i Hn) as (Hlt & c & Hc & Hp). cbn. split; [lia|]. exists c.
    by rewrite lookup_insert_ne by lia. }
  constructor; cbn.
  - by rewrite bytes_in_insert_new.
  - intros i c. rewrite lookup_insert_Some. intros [[<- _]|[_ Hc]]; [lia|]. apply Hf in Hc. lia.
  - constructor; [|by eapply Forall_impl]. intros i [= <-]. cbn. split; [lia|]. exists [].
    rewrite lookup_insert, decide_True by done. by split.
  - eauto.
Qed.

(** Registering moves the held file to its handle. *)
Lemma steady_register D held o local disp root final temp overwrite file :
  holds (within D (file :: held))
    (register_download_handle fault clock uuid map_order path_order handle_ttl o local disp root final temp overwrite file)
    (fun _ => True).
Proof.
  unfold register_download_handle.
  eapply holds_bind; [apply steady_purge|]. intros _ _. eapply holds_bind; [apply steady_uuid|]. intros id _.
  eapply holds_bind; [apply steady_now|]. intros t _. eapply holds_bind; [apply steady_with_owner|]. intros _ _.
  eapply holds_bind; [apply steady_inner|]. intros s _. destruct (Nat.leb _ _); [apply holds_throw|].
  eapply holds_bind; [apply steady_on_owner|]. intros _ _.
  eapply (holds_bind _ _ _ (fun _ => True)); [|intros _ _; by apply holds_ret].
  intros w [Hb Hf Hh Hi]. split; [|done]. constructor; [done..|]. cbn.
  intros id' h. rewrite lookup_insert_Some. intros [[_ <-]|[_ Hh']]; [|eauto]. by apply Forall_cons_1 in Hh as [].
Qed.

Lemma steady_open_save o api root file overwrite :
  steady (open_save_file fault clock uuid map_order path_order nfc windows handle_ttl o api root file overwrite).
Proof.
  unfold open_save_file. apply steady_bind; [apply steady_checked_root|]. intros prepared.
  apply steady_bind; [apply steady_try|]. intros cs. apply steady_bind; [apply steady_target|]. intros final.
  apply steady_bind; [auto with steady|]. intros meta. apply steady_bind; [unfold symlink_error, invalid; steady|].
  intros _. destruct (last cs) as [local|]; [|apply steady_throw].
  apply steady_bind; [unfold build_temp_path, invalid; steady|]. intros temp D held w Hw.
  apply wp_bind, wp_bind. eapply wp_mono; [by apply within_open|].
  intros [[f|e]|e] w' Hw'; cbn [wp_then]; [apply wp_ret|by apply wp_throw|done]. cbn [wp_then].
  eapply wp_mono; [by apply steady_register|]. intros r w2 [[? ? Hh ?] _]. split; [|by destruct r].
  apply Forall_cons_1 in Hh as [_ Hh]. by constructor.
Qed.

(** Putting out bytes at the position of an open file. *)
Lemma within_put D i pos k data fs s t n :
  within D [mkOpen (Some i) pos k] (mkWorld fs s t n) ->
  within (D + zlen data) [mkOpen (Some i) (pos + zlen data) k]
    (mkWorld (set_inodes (alter (store_at pos data) i (inodes fs)) (tick fs)) s t n).
Proof.
  intros [Hb Hf Hh Hi]. cbn in *. apply Forall_cons_1 in Hh as [Hh _]. pose proof (zlen_nonneg data) as Hlen.
  destruct (Hh i eq_refl) as (Hlt & c & Hc & Hp). cbn in Hp. pose proof (zlen_store_at pos data c Hp) as [[H1 H2] H3].
  set (fs' := set_inodes _ _).
  assert (Hok : forall f, file_ok fs f -> file_ok fs' f).
  { intros f H j Hn. destruct (H j Hn) as (Hlt' & c' & Hc' & Hp'). cbn. split; [done|].
    destruct (decide (i = j)) as [<-|Hne].
    - exists (store_at pos data c'). rewrite lookup_alter, decide_True, Hc' by done. split; [done|].
      rewrite Hc in Hc'. simplify_eq. lia.
    - exists c'. by rewrite lookup_alter_ne. }
  constructor; cbn.
  - pose proof (bytes_in_alter (inodes fs) i (store_at pos data) (zlen data) Hlen) as Ha.
    enough (bytes_in (alter (store_at pos data) i (inodes fs)) <= bytes_in (inodes fs) + zlen data) by lia.
    apply Ha. intros c' Hc'. rewrite Hc in Hc'. simplify_eq. lia.
  - intros j c' Hj. rewrite lookup_alter_Some in Hj. destruct Hj as [(<- & x & Hx & _)|[_ Hj]]; eauto.
  - constructor; [|constructor]. intros j [= <-]. cbn. split; [done|]. exists (store_at pos data c).
    rewrite lookup_alter, decide_True, Hc by done. split; [done|]. lia.
  - eauto.
Qed.

Lemma within_write_all D f data w :
  within D [f] w ->
  wp (on_fs (write_all fault f data))
    (fun r w' => match r with Ok (Ok (f', _)) => within (D + zlen data) [f'] w' | _ => within (D + zlen data) [] w' end) w.
Proof.
  intros Hw. pose proof (zlen_nonneg data) as Hlen. unfold wp, on_fs, write_all. destruct w as [fs s t n], f as [[i|] pos k].
  - cbn. destruct (fault (calls fs)) as [[m e]|]; cbn; [|by apply within_put].
    pose proof (within_put D i pos k (ztake m data) _ _ _ _ Hw) as [Hb ? ? ?]. cbn in Hb. constructor; cbn; [|done..].
    enough (zlen (ztake m data) <= zlen data) by (etrans; [exact Hb|lia]). unfold ztake, zlen. rewrite length_take. lia.
  - cbn. destruct Hw. constructor; cbn in *; [lia|done..].
Qed.

Lemma within_drop D held w : within D held w -> within D [] w.
Proof. intros []. by constructor. Qed.

(** Writing adds at most the bytes of the block. *)
Lemma within_write D o api id data w :
  within D [] w ->
  wp (write_download_chunk fault clock map_order path_order handle_ttl o api id data)
    (fun _ w' => within (D + zlen data) [] w') w.
Proof.
  intros Hw0. pose proof (zlen_nonneg data) as Hlen.
  assert (Hgrow : forall v, within D [] v -> within (D + zlen data) [] v).
  { intros v []. constructor; [lia|done..]. }
  assert (Hstep : forall {A B} (m : WM A) (f : A -> WM B) v, steady m -> within D [] v ->
    (forall a v', within D [] v' -> wp (f a) (fun _ w' => within (D + zlen data) [] w') v') ->
    wp (bind m f) (fun _ w' => within (D + zlen data) [] w') v).
  { intros A B m f v Hm Hv Hf. eapply (wp_holds (within D [])); [apply Hm|done|intros; by apply Hgrow|]. auto. }
  unfold write_download_chunk. apply Hstep; [apply steady_try|done|]. intros _ w1 Hw1.
  apply Hstep; [apply steady_try|done|]. intros _ w2 Hw2. destruct (_ <? _); [by apply wp_throw, Hgrow|].
  apply Hstep; [apply steady_purge|done|]. intros _ w3 Hw3. apply Hstep; [apply steady_now|done|]. intros t w4 Hw4.
  apply Hstep; [apply steady_on_owner|done|]. intros _ w5 Hw5. apply wp_bind. unfold wp, inner. cbn [wp_then].
  destruct (download_handles (w_inner w5) !! id) as [h|] eqn:Eh; [|by apply wp_throw, Hgrow].
  destruct (decide _); [|by apply wp_throw, Hgrow]. apply wp_bind.
  assert (Hf : within D [d_file h] w5) by (destruct Hw5; constructor; eauto).
  eapply wp_mono; [by apply within_write_all|]. intros [[[f r]|e']|e'] w6 Hw6; cbn [wp_then]; [|by apply wp_throw|done].
  apply wp_bind. unfold wp at 1, modify_inner. cbn [wp_then].
  assert (within (D + zlen data) [] (set_inner (set_downloads (<[id := set_file t f h]> (download_handles (w_inner w6)))
            (w_inner w6)) w6)).
  { destruct Hw6 as [Hb Hfr Hh Hi]. constructor; [done|done|done|]. cbn. apply Forall_cons_1 in Hh as [Hh _].
    intros id' h'. rewrite lookup_insert_Some. intros [[_ <-]|[_ Hh']]; eauto. }
  destruct r; [by apply wp_ret|by apply wp_throw].
Qed.
End Steady.

(** ** The writers *)

Section Limit.
Context (fault : nat -> option (Z * io_error)) (clock : nat -> Z) (uuid : nat -> list Z).
Context (map_order : forall A, gmap (list Z) A -> list (list Z * A)).
Context (id_order : gset (list Z) -> list (list Z)) (path_order : gset PathBuf -> list PathBuf).
Context (nfc : list Z -> list Z) (windows : bool) (handle_ttl : Z).
Context (owner_id : list Z) (policy : TrzszTransferPolicy) (D : Z).
Context (limit_ok : 0 <= max_total_bytes policy < U64_MAX).

(** Every writer has the limit of the policy. *)
Definition limited (w : Writer) : Prop :=
  match w with DirectoryWriter _ _ _ => True | FileWriter _ _ _ _ _ _ _ _ l => l = max_total_bytes policy end.
(** The bytes counted so far, up to the limit, are all that was added. *)
Definition counted (s : World * SaveState) : Prop :=
  within (D + Z.min (total_bytes s.2) (max_total_bytes policy)) [] s.1
  /\ 0 <= total_bytes s.2 /\ Forall limited (writers s.2).
(** Also with the list of directories to clean up. *)
Definition counted_dirs (s : World * SaveState * list (list Z)) : Prop := counted s.1.

Definition counts {A} (m : DM A) : Prop := holds counted m (fun _ => True).
Definition counts_dirs {A} (m : M halt (World * SaveState * list (list Z)) A) : Prop :=
  holds counted_dirs m (fun _ => True).

Lemma counts_fst {A} (m : WM A) : steady m -> counts (on_fst m).
Proof.
  intros Hm [w s] (HI & Hs). apply wp_on_fst. eapply wp_mono; [by apply Hm|]. intros r w' [HI' _].
  split; [by split|by destruct r].
Qed.
Lemma counts_state : counts save_state.
Proof. intros [w s] H. by split. Qed.
Lemma counts_modify f :
  (forall s, writers (f s) = writers s /\ total_bytes (f s) = total_bytes s) -> counts (modify_save f).
Proof.
  intros Hf [w s] (HI & H0 & Hs). split; [|done]. destruct (Hf s) as [Hw Ht]. unfold counted. cbn. by rewrite Hw, Ht.
Qed.
Lemma counts_add_writer w local dir : limited w -> counts (add_writer w local dir).
Proof.
  intros Hw [w0 s] (HI & H0 & Hs). split; [|done]. split_and!; [done..|]. cbn. apply Forall_app. by repeat constructor.
Qed.
Lemma counts_dirs_fst {A} (m : DM A) : counts m -> counts_dirs (on_fst m).
Proof. intros Hm [s l] HI. apply wp_on_fst. eapply wp_mono; [by apply Hm|]. by intros r s' [HI' HP]. Qed.
Lemma counts_attempt_error {A} (m : DM A) : counts m -> counts (attempt_error m).
Proof. intros Hm. eapply holds_mono; [by apply holds_attempt_error|]. done. Qed.

Lemma counts_try_open path name local cleanup overwrite :
  counts (try_open_download_file fault clock uuid map_order path_order nfc windows handle_ttl owner_id policy
            path name local cleanup overwrite).
Proof.
  eapply holds_bind; [apply counts_state|]. intros s _.
  eapply holds_bind; [apply counts_fst, steady_open_save|]. intros dto _.
  eapply holds_bind; [by apply counts_modify|]. intros _ _. by apply counts_add_writer.
Qed.
Lemma counts_flat n : forall i file overwrite last,
  counts (flat_attempts fault clock uuid map_order path_order nfc windows handle_ttl owner_id policy n i file overwrite last).
Proof.
  induction n as [|n IH]; intros i file overwrite last; cbn [flat_attempts]; [apply holds_throw|].
  eapply holds_bind; [by apply counts_attempt_error, counts_try_open|]. intros [h|e] _; [by apply holds_ret|].
  destruct (_ && _); [apply IH|apply holds_throw].
Qed.
Lemma counts_ensure path must :
  counts_dirs (ensure_download_directory fault clock map_order path_order nfc windows handle_ttl owner_id path must).
Proof.
  eapply holds_bind; [apply counts_dirs_fst, counts_state|]. intros s _.
  eapply holds_bind; [apply counts_dirs_fst, counts_fst, steady_create_directory|].
  intros [] _; [|by apply holds_ret]. by intros [s' l] HI.
Qed.
Lemma counts_open_entry entry rest root claim overwrite :
  counts_dirs (open_entry fault clock uuid map_order path_order nfc windows handle_ttl owner_id policy
                 entry rest root claim overwrite).
Proof.
  unfold open_entry.
  eapply (holds_bind _ _ _ (fun _ => True)); [destruct (_ || _); [by apply holds_try|by apply holds_ret]|]. intros _ _.
  eapply (holds_bind _ _ _ (fun _ => True)); [destruct (_ && _); [apply counts_ensure|by apply holds_ret]|]. intros _ _.
  destruct (de_is_dir entry).
  - eapply holds_bind; [apply holds_for_each; intros; apply counts_ensure|]. intros _ _.
    eapply (holds_bind _ _ _ (fun _ => True)); [by intros [s l]|]. intros c _. by apply counts_dirs_fst, counts_add_writer.
  - eapply holds_bind; [apply counts_dirs_fst, counts_state|]. intros s _.
    eapply (holds_bind _ _ _ (fun _ => True)); [by apply holds_try|]. intros _ _.
    eapply holds_bind; [apply holds_for_each; intros; apply counts_ensure|]. intros _ _.
    eapply (holds_bind _ _ _ (fun _ => True)); [by intros [s' l]|]. intros c _. by apply counts_dirs_fst, counts_try_open.
Qed.
Lemma counts_open_root entry rest root claim overwrite :
  counts (try_open_with_root fault clock uuid map_order path_order nfc windows handle_ttl owner_id policy
            entry rest root claim overwrite).
Proof.
  eapply (holds_bind _ _ _ (fun _ => True)).
  - intros s HI. unfold wp, with_local. pose proof (counts_open_entry entry rest root claim overwrite (s, []) HI) as Hw.
    unfold wp in Hw. destruct (open_entry _ _ _ _ _ _ _ _ _ _ _ _ _ _ _ _) as [[r [s' l]]|]; [|done]. by destruct Hw.
  - intros [[h|[e| |]] l] _; cbn [fst snd]; [by apply holds_ret| |apply holds_throw..].
    eapply holds_bind; [apply counts_state|]. intros s _.
    eapply holds_bind; [|intros _ _; apply holds_throw]. apply holds_for_each. intros d _.
    eapply holds_bind; [apply counts_attempt_error, counts_fst, steady_remove_directory|intros _ _; by apply holds_ret].
Qed.
Lemma counts_entry n : forall i entry top rest overwrite last,
  counts (entry_attempts fault clock uuid map_order path_order nfc windows handle_ttl owner_id policy n i
            entry top rest overwrite last).
Proof.
  induction n as [|n IH]; intros i entry top rest overwrite last; cbn [entry_attempts]; [apply holds_throw|].
  eapply holds_bind; [by apply counts_attempt_error, counts_open_root|]. intros [h|e] _.
  - eapply holds_bind; [by apply counts_modify|]. intros _ _. by apply holds_ret.
  - destruct (_ && _); [apply IH|apply holds_throw].
Qed.
Lemma counts_open `{Codec} name dir overwrite :
  counts (open_save fault clock uuid map_order path_order nfc windows handle_ttl owner_id policy name dir overwrite).
Proof.
  unfold open_save. destruct (negb dir); [apply counts_flat|].
  eapply (holds_bind _ _ _ (fun _ => True)); [by apply holds_try|]. intros entry _.
  unfold open_directory_save_entry. destruct (de_name entry) as [|top rest]; [apply holds_throw|].
  eapply holds_bind; [apply counts_state|]. intros s _. cbv match.
  destruct (if overwrite then _ else _); [apply counts_open_root|apply counts_entry].
Qed.

Lemma counts_with_writer {A} h (f : Writer -> DM A) :
  (forall w, limited w -> counts (f w)) -> counts (with_writer h f).
Proof.
  intros Hf [w0 s] HI. apply wp_bind. cbn. destruct (writers s !! h_index h) as [w|] eqn:E; [|by split].
  apply Hf; [|done]. destruct HI as (_ & _ & Hs). rewrite Forall_lookup in Hs. by eapply Hs.
Qed.
Lemma counts_set_writer h w : limited w -> counts (set_writer h w).
Proof. intros Hw [w0 s] (HI & H0 & Hs). split; [|done]. split_and!; [done..|]. cbn. by apply Forall_insert. Qed.

(** A block is counted first, and only passed on while the count is within the
    limit. *)
Lemma counts_write h data : counts (writer_write fault clock map_order path_order handle_ttl owner_id h data).
Proof.
  apply counts_with_writer. intros w Hw. destruct w as [|id path name local c fin ab st limit]; [apply holds_throw|].
  cbn in Hw. subst limit. destruct (fin || ab); [apply holds_throw|]. intros [w s] (HI & H0 & Hs). cbn in *.
  pose proof (zlen_nonneg data) as Hlen. apply wp_bind. unfold wp, modify_save. cbn [wp_then fst snd].
  apply wp_bind. unfold wp, save_state. cbn [wp_then fst snd total_bytes set_bytes].
  destruct (Z.ltb_spec (max_total_bytes policy) (Z.min U64_MAX (total_bytes s + zlen data))) as [Hgt|Hle].
  - apply wp_throw. split; [|done]. split_and!; cbn; [|unfold U64_MAX; lia|done]. destruct HI. constructor; [lia|done..].
  - apply wp_on_fst. eapply wp_mono; [by apply within_write|]. intros r w' Hw'. split; [|by destruct r].
    split_and!; cbn; [|unfold U64_MAX; lia|done]. destruct Hw'. constructor; [lia|done..].
Qed.
Lemma counts_commit h : counts (writer_commit fault clock map_order path_order nfc windows handle_ttl owner_id h).
Proof.
  apply counts_with_writer. intros w Hw.
  assert (Hc : forall c, counts (commit_directories fault clock map_order path_order nfc windows handle_ttl owner_id c)).
  { intros c. eapply holds_bind; [apply counts_state|]. intros s _. apply holds_for_each. intros d _.
    apply counts_fst, steady_commit_download. }
  by destruct w; apply Hc.
Qed.
Lemma counts_finish h : counts (writer_finish fault clock map_order path_order handle_ttl owner_id h).
Proof.
  apply counts_with_writer. intros w Hw. destruct w as [|id path name local c fin ab st limit]; [by apply holds_ret|].
  destruct (fin || ab); [by apply holds_ret|]. eapply holds_bind; [by apply counts_set_writer|]. intros _ _.
  eapply holds_bind; [apply counts_fst, steady_finish|]. intros _ _. by apply counts_set_writer.
Qed.
Lemma counts_abort h : counts (writer_abort fault clock map_order path_order nfc windows handle_ttl owner_id h).
Proof.
  apply counts_with_writer. intros w Hw. destruct w as [c name local|id path name local c fin ab st limit].
  - eapply holds_bind; [apply counts_state|]. intros s _. apply holds_for_each. intros d _.
    apply counts_fst, steady_remove_directory.
  - destruct (fin || ab); [by apply holds_ret|].
    eapply holds_bind; [apply counts_fst, steady_abort|]. intros _ _. by apply counts_set_writer.
Qed.

(** ** The whole download *)

Section Run.
Context `{Codec} (elapsed : nat -> Z) (utf8_error : list Z -> list Z) (fuel N : nat) (Hfuel : (N < fuel)%nat).

(** From [I] a computation ends in [J]. *)
Definition leads {A} (I J : World * SaveState -> Prop) (m : M halt (TrzszTransfer * (World * SaveState)) A) : Prop :=
  forall t x, buffer_ok (t_buffer t) -> (unread_len t <= N)%nat -> I x -> wp m (fun _ s => follows t s.1 /\ J s.2) (t, x).
Lemma leads_calm {A} I (J : World * SaveState -> Prop) (m : M halt (TrzszTransfer * (World * SaveState)) A) :
  calm I N m -> (forall x, I x -> J x) -> leads I J m.
Proof. intros Hm HJ t x Hok Hn HI. eapply wp_mono; [by apply Hm|]. intros r s [Ht Hs]. auto. Qed.
Lemma leads_bind {A B} I J (m : M halt (TrzszTransfer * (World * SaveState)) A) (f : A -> M halt _ B) :
  calm I N m -> (forall x, I x -> J x) -> (forall a, leads I J (f a)) -> leads I J (bind m f).
Proof.
  intros Hm HJ Hf t x Hok Hn HI. apply wp_bind. eapply wp_mono; [by apply Hm|].
  intros [a|e] [t' x'] [Ht HI']; cbn in *; [|auto]. apply follows_len in Ht as Hl.
  eapply wp_mono; [apply Hf; [apply Ht|lia|done]|]. intros r s [Hs HIs]. split; [by eapply follows_trans|done].
Qed.

Definition before (s : World * SaveState) : Prop := within D [] s.1.
Definition after (s : World * SaveState) : Prop := within (D + max_total_bytes policy) [] s.1.
Lemma before_after x : before x -> after x.
Proof. intros []. constructor; [lia|done..]. Qed.
Lemma counted_after x : counted x -> after x.
Proof. intros [[] _]. constructor; [lia|done..]. Qed.

Lemma calm_receive : calm counted N
  (recv_files (H0 := Native_writer fault clock map_order path_order nfc windows handle_ttl owner_id) elapsed utf8_error fuel
     (open_save fault clock uuid map_order path_order nfc windows handle_ttl owner_id policy)).
Proof.
  apply calm_recv_files; [done| | | | | |]; intros.
  - apply counts_open.
  - apply counts_write.
  - by apply holds_ret.
  - apply counts_commit.
  - apply counts_finish.
  - apply counts_abort.
Qed.

Lemma download_leads win selection : leads before after
  (run_download fault clock uuid map_order path_order nfc windows handle_ttl owner_id policy elapsed utf8_error fuel
     win selection).
Proof.
  destruct selection as [root|]; cbn [run_download].
  - apply leads_bind; [|apply before_after|intros prepared].
    { apply (calm_snd _ _ _ (fun _ => True)). intros [w sv] Hw. apply wp_on_fst.
      eapply wp_mono; [by apply steady_prepare_root|]. by intros r w' [Hw' ?]. }
    apply leads_bind; [apply calm_fst, quiet_send_action|apply before_after|intros _].
    apply leads_bind; [by apply calm_fst, quiet_recv_config|apply before_after|intros config].
    destruct (_ && _); [apply leads_calm; [apply calm_throw|apply before_after]|].
    intros t [w sv] Hok Hn Hw. apply wp_bind. cbn.
    apply (leads_calm counted after); [|apply counted_after|done|done|].
    + apply calm_bind; [apply calm_receive|]. intros names. apply calm_fst, quiet_send_line.
    + split_and!; [|done|constructor]. cbn. rewrite Z.min_l, Z.add_0_r by lia. done.
  - apply leads_calm; [|apply before_after]. apply calm_bind; [apply calm_fst, quiet_send_action|].
    intros _. apply calm_throw.
Qed.

Lemma worker_leads win selection : leads before after
  (run_trzsz_download fault clock uuid map_order id_order path_order nfc windows handle_ttl owner_id policy elapsed
     utf8_error fuel win selection).
Proof.
  intros t x Hok Hn Hx. unfold run_trzsz_download. apply wp_attempt_error. eapply wp_mono; [by apply download_leads|].
  intros r [t' x'] [Ht HI]. cbn [fst snd] in *. apply follows_len in Ht as Hl.
  assert (Hc : holds after (on_fst (cleanup_owner fault clock map_order id_order path_order handle_ttl owner_id))
                 (fun _ => True)).
  { intros [v sv] HI'. apply wp_on_fst. eapply wp_mono; [by apply steady_cleanup|]. by intros ? v' [HI2 ?]. }
  pose proof (fun e k => calm_wind_up after N _ e k Hc) as Hend.
  destruct r as [a|[e| |]]; [| |done|done].
  - eapply wp_mono; [apply (Hend (Ok a)); [apply Ht|lia|done]|]. intros ? s [Hs Ha]. split; [by eapply follows_trans|done].
  - eapply wp_mono; [apply (Hend (Err e)); [apply Ht|lia|done]|]. intros ? s [Hs Ha]. split; [by eapply follows_trans|done].
Qed.
End Run.
End Limit.

(** C5: whatever bytes the server sends and whichever folder is chosen, the
    download worker comes to a stop (it returns, waits for more input in the
    middle of the transfer, or panics on a malformed line), and by then the
    contents of all files together have grown by at most the limit of the policy:
    [max_total_bytes] bounds what a server can put on the disk, also over many
    files, failing calls and the clean-up.  Downloads of other terminals may be
    open in the shared state, as long as their files are at the positions the
    program leaves them at (not beyond the end of the contents); the limit is
    below the largest [u64], where the count could not exceed it. *)
Theorem trzsz_download_bounded `{Codec} (fault : nat -> option (Z * io_error)) (clock : nat -> Z) (uuid : nat -> list Z)
    (map_order : forall A, gmap (list Z) A -> list (list Z * A)) (id_order : gset (list Z) -> list (list Z))
    (path_order : gset PathBuf -> list PathBuf) (nfc : list Z -> list Z) (windows : bool) (handle_ttl : Z)
    (owner_id : list Z) (policy : TrzszTransferPolicy) (elapsed : nat -> Z) (utf8_error : list Z -> list Z) (fuel : nat)
    (win : bool) (selection : option (list Z)) (t : TrzszTransfer) (w : World) (sv : SaveState) :
  0 <= max_total_bytes policy < U64_MAX -> buffer_ok (t_buffer t) -> (unread_len t < fuel)%nat ->
  fs_wf (w_fs w) -> (forall id h, download_handles (w_inner w) !! id = Some h -> file_ok (w_fs w) (d_file h)) ->
  exists r t' w' sv',
    run_trzsz_download fault clock uuid map_order id_order path_order nfc windows handle_ttl owner_id policy elapsed
      utf8_error fuel win selection (t, (w, sv)) = Some (r, (t', (w', sv')))
    /\ bytes_in (inodes (w_fs w')) <= bytes_in (inodes (w_fs w)) + max_total_bytes policy.
Proof.
  intros Hlim Hok Hf [Hwf _] Hopen.
  assert (Hw : within (bytes_in (inodes (w_fs w))) [] w).
  { constructor; [lia|done|constructor|done]. }
  pose proof (worker_leads fault clock uuid map_order id_order path_order nfc windows handle_ttl owner_id policy
    (bytes_in (inodes (w_fs w))) Hlim elapsed utf8_error fuel _ Hf win selection t (w, sv) Hok (le_n _) Hw) as Hrun.
  unfold wp in Hrun. destruct (run_trzsz_download _ _ _ _ _ _ _ _ _ _ _ _ _ _ _ _ _) as [[r [t' [w' sv']]]|]; [|done].
  exists r, t', w', sv'. split; [done|]. apply Hrun.
Qed.

Lemma trzsz_download_bounded_witness : exists r t' w' sv',
  demo_download (lit "b") [1; 2; 3] 6 = Some (r, (t', (w', sv')))
  /\ bytes_in (inodes (w_fs w')) <= bytes_in (inodes demo_fs) + 1000.
Proof.
  unfold demo_download.
  apply (trzsz_download_bounded (H := DemoCodec) (fun _ => None) (fun _ => 0) (fun _ => [48]) (fun A => map_to_list)
           elements elements id false 900 (lit "me") demo_policy (fun _ => 0) id 1000).
  - cbn. unfold U64_MAX. lia.
  - apply buffer_ok_feed.
  - apply Nat.ltb_lt. vm_compute. reflexivity.
  - exact demo_fs_wf.
  - by intros id h Hh.
Defined.
