(* ===== verification/Backpressure.v ===== *)
(** * Bounded output of a session (hapcli-terminal: backpressure.rs)

    Between the worker of a session and the session itself: a channel that
    charges data events against a limit of bytes and lets the worker's thread
    sleep until there is room, the guard that keeps the bytes of a cut UTF-8
    character for the next read, and the window that looks for a transfer's
    marker across reads.  The channel is modelled with the thread that sends on
    it, its condition variable and the events the receiver still holds, as
    critical sections that are taken in any order.  The channel's [Notify] of
    tokio, which wakes [send_async], is outside; a turn of [send_async] is the
    same section as a turn of [send]. *)
From S2P Require Import Prelude Text.
From Stdlib Require Import Ascii String.
From stdpp Require Import prelude list numbers.
Open Scope Z_scope.

(** ** Budgets and reports *)

Definition UTF8_RESIDUAL_MAX_BYTES : nat := 4.
Definition MAGIC_DETECT_OVERLAP_BYTES : nat := 128.

(** [max_duration] in nanoseconds; [None] is [Duration::MAX]. *)
Record TerminalDrainBudget := mkBudget { max_bytes : Z; max_events : Z; max_duration : option Z }.
Definition new_budget (bytes events : Z) : TerminalDrainBudget := mkBudget bytes events None.
Definition with_max_duration (b : TerminalDrainBudget) (d : Z) : TerminalDrainBudget :=
  mkBudget (max_bytes b) (max_events b) (Some d).
(** [elapsed] is [started.elapsed()]. *)
Definition time_exhausted (b : TerminalDrainBudget) (elapsed : Z) : bool :=
  match max_duration b with Some d => d <=? elapsed | None => false end.

Record TerminalDrainReport := mkReport {
  changed : bool;
  drained_bytes : Z;
  pending_bytes : Z;
  events_drained : Z;
  drain_duration : Z;
  budget_exhausted : bool
}.
Definition default_report : TerminalDrainReport := mkReport false 0 0 0 0 false.
Definition mark_changed (r : TerminalDrainReport) : TerminalDrainReport :=
  mkReport true (drained_bytes r) (pending_bytes r) (events_drained r) (drain_duration r) (budget_exhausted r).
Definition combine (r other : TerminalDrainReport) : TerminalDrainReport :=
  mkReport (changed r || changed other) (sat_add (drained_bytes r) (drained_bytes other))
    (sat_add (pending_bytes r) (pending_bytes other)) (sat_add (events_drained r) (events_drained other))
    (drain_duration r + drain_duration other) (budget_exhausted r || budget_exhausted other).

(** ** The channel *)

Section Channel.
Context {T : Type}.

Record ByteBoundedState := mkState {
  queue : list (T * Z);
  outstanding_bytes : Z;
  sender_open : bool;
  receiver_open : bool
}.
Definition byte_bounded_state : ByteBoundedState := mkState [] 0 true true.

Fixpoint bytes_of (l : list (T * Z)) : Z := match l with [] => 0 | e :: r => e.2 + bytes_of r end.

Definition enqueue (s : ByteBoundedState) (value : T) (byte_len : Z) : ByteBoundedState :=
  mkState (queue s ++ [(value, byte_len)]) (sat_add (outstanding_bytes s) byte_len) (sender_open s) (receiver_open s).

(** One look at the state in the loop of [send] and [send_async]. *)
Inductive SendTurn := Refused | Sent | Full.
Definition send_turn (limit : Z) (value : T) (byte_len : Z) (s : ByteBoundedState) : SendTurn * ByteBoundedState :=
  if negb (receiver_open s) then (Refused, s)
  else if sat_add (outstanding_bytes s) byte_len <=? limit then (Sent, enqueue s value byte_len)
  else (Full, s).
Definition send_control (value : T) (s : ByteBoundedState) : bool * ByteBoundedState :=
  if negb (receiver_open s) then (false, s) else (true, enqueue s value 0).
Definition drop_sender (s : ByteBoundedState) : ByteBoundedState :=
  mkState (queue s) (outstanding_bytes s) false (receiver_open s).

Inductive TryRecvError := Empty | Disconnected.
Definition try_recv (s : ByteBoundedState) : result TryRecvError (T * Z) * ByteBoundedState :=
  match queue s with
  | queued :: rest => (Ok queued, mkState rest (outstanding_bytes s) (sender_open s) (receiver_open s))
  | [] => (Err (if sender_open s then Empty else Disconnected), s)
  end.
Definition is_empty (s : ByteBoundedState) : bool := match queue s with [] => true | _ => false end.
(** Also [Drop] of the receiver; the flag says that the waiters are woken. *)
Definition close (s : ByteBoundedState) : bool * ByteBoundedState :=
  if negb (receiver_open s) then (false, s)
  else (true, mkState [] (sat_sub (outstanding_bytes s) (bytes_of (queue s))) (sender_open s) false).
(** [Drop] of a received event; the flag says that a waiter is woken. *)
Definition drop_item (byte_len : Z) (s : ByteBoundedState) : bool * ByteBoundedState :=
  if byte_len =? 0 then (false, s)
  else (true, mkState (queue s) (sat_sub (outstanding_bytes s) byte_len) (sender_open s) (receiver_open s)).

(** *** The worker's thread and the receiver *)

(** The thread in [send]: outside, holding or about to take the lock, or
    waiting on [blocking_space]. *)
Inductive Thread := Outside | Looking (value : T) (byte_len : Z) | Asleep (value : T) (byte_len : Z).

(** [held]: the events received and not yet dropped.  [accepted] and
    [delivered]: what was queued and what was received, in order. *)
Record World := mkWorld {
  chan : ByteBoundedState;
  thread : Thread;
  held : list (T * Z);
  accepted : list T;
  delivered : list T
}.
Definition start : World := mkWorld byte_bounded_state Outside [] [] [].

Definition wake (t : Thread) : Thread := match t with Asleep v n => Looking v n | _ => t end.

Inductive Op :=
| Send (value : T) (byte_len : Z)
| Turn
| Spurious
| Control (value : T)
| DropSender
| Receive
| DropItem (index : nat)
| Close.

Definition step (limit : Z) (op : Op) (w : World) : World :=
  let '(mkWorld c t h a d) := w in
  match op with
  | Send value byte_len =>
      match t with
      | Outside => if limit <? byte_len then w else mkWorld c (Looking value byte_len) h a d
      | _ => w
      end
  | Turn =>
      match t with
      | Looking value byte_len =>
          match send_turn limit value byte_len c with
          | (Refused, c') => mkWorld c' Outside h a d
          | (Sent, c') => mkWorld c' Outside h (a ++ [value]) d
          | (Full, c') => mkWorld c' (Asleep value byte_len) h a d
          end
      | _ => w
      end
  | Spurious => mkWorld c (wake t) h a d
  | Control value => let '(sent, c') := send_control value c in mkWorld c' t h (if sent then a ++ [value] else a) d
  | DropSender => match t with Outside => mkWorld (drop_sender c) t h a d | _ => w end
  | Receive =>
      match try_recv c with
      | (Ok e, c') => mkWorld c' t (h ++ [e]) a (d ++ [e.1])
      | (Err _, _) => w
      end
  | DropItem i =>
      match h !! i with
      | Some e => let '(notify, c') := drop_item e.2 c in
                  mkWorld c' (if notify then wake t else t) (delete i h) a d
      | None => w
      end
  | Close => let '(notify, c') := close c in mkWorld c' (if notify then wake t else t) h a d
  end.
Definition run (limit : Z) (ops : list Op) (w : World) : World := fold_left (fun w op => step limit op w) ops w.
(** The lengths a program passes. *)
Definition op_ok (op : Op) : Prop := match op with Send _ n => 0 <= n <= U64_MAX | _ => True end.

(** *** The invariant *)

Record fine (limit : Z) (w : World) : Prop := {
  fine_bytes : outstanding_bytes (chan w) = bytes_of (queue (chan w)) + bytes_of (held w);
  fine_limit : outstanding_bytes (chan w) <= limit;
  fine_lens : Forall (fun e => 0 <= e.2) (queue (chan w)) /\ Forall (fun e => 0 <= e.2) (held w);
  fine_order : if receiver_open (chan w) then accepted w = delivered w ++ map fst (queue (chan w))
               else queue (chan w) = [] /\ delivered w `prefix_of` accepted w;
  fine_thread : match thread w with
                | Outside => True
                | Looking _ n => 0 <= n <= limit
                | Asleep _ n => 0 <= n <= limit /\ receiver_open (chan w) = true /\ limit < outstanding_bytes (chan w) + n
                end
}.

Lemma bytes_of_app l k : bytes_of (l ++ k) = bytes_of l + bytes_of k.
Proof. induction l as [|e l IH]; cbn; [done|]. rewrite IH. lia. Qed.
Lemma bytes_of_nonneg l : Forall (fun e => 0 <= e.2) l -> 0 <= bytes_of l.
Proof. induction 1; cbn; lia. Qed.
Lemma bytes_of_delete l i e : l !! i = Some e -> bytes_of l = e.2 + bytes_of (delete i l).
Proof.
  revert i. induction l as [|x l IH]; intros [|i] H; simplify_eq/=; [done|]. rewrite (IH _ H). lia.
Qed.

Lemma start_fine limit : 0 < limit -> fine limit start.
Proof. intros. constructor; cbn; [done|lia|by split|done|done]. Qed.

Lemma wake_fine limit w : fine limit w ->
  match wake (thread w) with Asleep _ _ => False | Looking _ n => 0 <= n <= limit | Outside => True end.
Proof. intros [_ _ _ _ Ht]. destruct (thread w); cbn; [done|done|]. by destruct Ht. Qed.

Lemma step_fine limit op w : 0 < limit < U64_MAX -> op_ok op -> fine limit w -> fine limit (step limit op w).
Proof.
  intros Hl Hop Hw. pose proof (wake_fine limit w Hw) as Hwake. destruct Hw as [Hb Hlim [Hq Hh] Ho Ht].
  destruct w as [[q o so ro] t h a d]. cbn in *. pose proof (bytes_of_nonneg q Hq). pose proof (bytes_of_nonneg h Hh).
  assert (Hsame : forall t', match t' with Asleep _ _ => t' = t | Looking _ n => 0 <= n <= limit | Outside => True end ->
    fine limit (mkWorld (mkState q o so ro) t' h a d)).
  { intros t' Ht'. constructor; cbn; [done|done|by split|done|]. destruct t'; [done|done|]. by subst t. }
  assert (Hid : match t with Asleep _ _ => t = t | Looking _ n => 0 <= n <= limit | Outside => True end) by by destruct t.
  destruct op as [v n| | |v| | |i| ]; cbn.
  - destruct t; [|by apply Hsame, Hid..]. destruct (Z.ltb_spec limit n); apply Hsame; cbn in *; [done|lia].
  - destruct t as [|v n|]; [by apply Hsame, Hid| |by apply Hsame, Hid]. unfold send_turn. cbn.
    destruct ro; cbn; [|by apply Hsame]. unfold sat_add.
    destruct (Z.leb_spec (Z.min (o + n) U64_MAX) limit) as [Hle|Hgt].
    + constructor; cbn; unfold sat_add.
      * rewrite bytes_of_app. cbn. lia.
      * lia.
      * split; [|done]. apply Forall_app. split; [done|]. repeat constructor; cbn; lia.
      * rewrite Ho, map_app, app_assoc. done.
      * done.
    + constructor; cbn; [done|done|by split|done|lia].
  - apply Hsame. revert Hwake. by destruct (wake t).
  - unfold send_control. destruct ro; cbn; [|by apply Hsame, Hid]. constructor; cbn; unfold sat_add.
    + rewrite bytes_of_app. cbn. lia.
    + lia.
    + split; [|done]. apply Forall_app. by repeat constructor.
    + by rewrite Ho, map_app, app_assoc.
    + destruct t; [done|done|]. rewrite Z.min_l by lia. lia.
  - destruct t; [|by apply Hsame, Hid..]. constructor; cbn; [done|done|by split|done|done].
  - destruct q as [|e q]; cbn; [by apply Hsame, Hid|]. apply Forall_cons_1 in Hq as [He Hq].
    constructor; cbn in *; [rewrite bytes_of_app; cbn; lia|done| | |done].
    + split; [done|]. apply Forall_app. by repeat constructor.
    + destruct ro; [by rewrite Ho, <-app_assoc|by destruct Ho].
  - destruct (h !! i) as [e|] eqn:E; [|by apply Hsame, Hid]. pose proof (bytes_of_delete h i e E) as Hd.
    assert (He : 0 <= e.2) by (rewrite Forall_lookup in Hh; by eapply Hh).
    assert (Hh' : Forall (fun e => 0 <= e.2) (delete i h)) by by apply Forall_delete.
    pose proof (bytes_of_nonneg _ Hh'). unfold drop_item, sat_sub.
    destruct (Z.eqb_spec e.2 0); (constructor; cbn; [lia|lia|by split|done|]); [done|]. revert Hwake. by destruct (wake t).
  - unfold close. destruct ro; cbn; [|by apply Hsame, Hid]. unfold sat_sub. constructor; cbn; [lia|lia|by split| |].
    + split; [done|]. rewrite Ho. by apply prefix_app_r.
    + revert Hwake. by destruct (wake t).
Qed.

Lemma run_fine limit ops w :
  0 < limit < U64_MAX -> Forall op_ok ops -> fine limit w -> fine limit (run limit ops w).
Proof.
  intros Hl Hops. revert w. induction Hops as [|op ops Hop _ IH]; intros w Hw; [done|]. by apply IH, step_fine.
Qed.
End Channel.
Arguments World : clear implicits.
Arguments Op : clear implicits.

(** ** The UTF-8 guard *)

Definition is_utf8_continuation (byte : Z) : bool := in_range 0x80 0xbf byte.
(** [utf8_char_width]; the width of a byte that starts no character is 0. *)
Definition utf8_width (byte : Z) : nat :=
  if in_range 0 0x7f byte then 1 else if in_range 0xc2 0xdf byte then 2
  else if in_range 0xe0 0xef byte then 3 else if in_range 0xf0 0xf4 byte then 4 else 0.

(** The [for] loop, with [more] lengths of the tail left to try. *)
Fixpoint split_loop (more tail_len : nat) (bytes : list Z) : nat :=
  match more with
  | O => length bytes
  | S more =>
      let start := (length bytes - tail_len)%nat in
      match bytes !! start with
      | None => length bytes
      | Some first =>
          let width := utf8_width first in
          if Nat.eqb width 0 then split_loop more (S tail_len) bytes
          else if Nat.ltb tail_len width && forallb is_utf8_continuation (drop (S start) bytes) then start
          else length bytes
      end
  end.
Definition split_before_incomplete_utf8_tail (bytes : list Z) : nat :=
  split_loop (Nat.min (length bytes) (UTF8_RESIDUAL_MAX_BYTES - 1)) 1 bytes.

(** The state is the residual. *)
Definition Utf8ResidualGuard_push (residual bytes : list Z) : option (list Z) * list Z :=
  if bool_decide (bytes = []) && bool_decide (residual = []) then (None, residual)
  else
    let combined := residual ++ bytes in
    let split := split_before_incomplete_utf8_tail combined in
    let residual := drop split combined in
    let combined := take split combined in
    let '(combined, residual) :=
      if Nat.leb UTF8_RESIDUAL_MAX_BYTES (length residual) then (combined ++ residual, []) else (combined, residual) in
    (if bool_decide (combined = []) then None else Some combined, residual).
Definition Utf8ResidualGuard_flush (residual : list Z) : option (list Z) * list Z :=
  (if bool_decide (residual = []) then None else Some residual, []).

(** What a series of reads gives: the chunks passed on, and the residual. *)
Fixpoint push_all (residual : list Z) (chunks : list (list Z)) : list (list Z) * list Z :=
  match chunks with
  | [] => ([], residual)
  | c :: rest =>
      let '(out, residual) := Utf8ResidualGuard_push residual c in
      let '(outs, residual) := push_all residual rest in
      ((match out with Some o => [o] | None => [] end) ++ outs, residual)
  end.

(** *** Where the tail is cut *)

Lemma split_loop_skip k : forall m j bytes,
  (forall t, (j < t <= j + k)%nat -> exists x, bytes !! (length bytes - t)%nat = Some x /\ utf8_width x = 0%nat) ->
  split_loop (k + m) (S j) bytes = split_loop m (S (j + k)) bytes.
Proof.
  induction k as [|k IH]; intros m j bytes Hx; [by rewrite Nat.add_0_r|]. cbn [Nat.add split_loop].
  destruct (Hx (S j)) as (x & Hl & Hw); [lia|]. rewrite Hl, Hw. cbn [Nat.eqb].
  rewrite IH by (intros t Ht; apply Hx; lia). f_equal. lia.
Qed.

Definition continuations (l : list Z) : Prop := Forall (fun b => utf8_width b = 0%nat /\ is_utf8_continuation b = true) l.

Lemma split_at_lead pre lead conts m :
  continuations conts ->
  split_loop (length conts + m) 1 (pre ++ lead :: conts)
  = split_loop m (S (length conts)) (pre ++ lead :: conts).
Proof.
  intros Hc. apply split_loop_skip. intros t Ht. rewrite length_app. cbn [length].
  destruct (lookup_lt_is_Some_2 conts (length conts - t)%nat) as [x Hx]; [lia|]. exists x. split.
  - rewrite lookup_app_r by lia. replace (_ - _)%nat with (S (length conts - t)) by lia. done.
  - eapply Forall_lookup_1 in Hc; [|exact Hx]. apply Hc.
Qed.

Lemma split_complete pre lead conts :
  continuations conts -> utf8_width lead = S (length conts) -> (length conts <= 3)%nat ->
  split_before_incomplete_utf8_tail (pre ++ lead :: conts) = length (pre ++ lead :: conts).
Proof.
  intros Hc Hw Hl. unfold split_before_incomplete_utf8_tail, UTF8_RESIDUAL_MAX_BYTES.
  set (n := length (pre ++ lead :: conts)). assert (Hn : (S (length conts) <= n)%nat) by (subst n; rewrite length_app; cbn; lia).
  assert (exists m, (Nat.min n (4 - 1) = length conts + m)%nat) as [m Hm]; [exists (Nat.min n 3 - length conts)%nat; lia|].
  rewrite Hm, split_at_lead by done. destruct m as [|m]; [done|]. cbn [split_loop].
  fold n. replace (n - S (length conts))%nat with (length pre) by (subst n; rewrite length_app; cbn; lia).
  rewrite lookup_app_r, Nat.sub_diag by lia. cbn [lookup list_lookup]. rewrite Hw, Nat.ltb_irrefl. done.
Qed.

Lemma split_partial pre lead conts :
  continuations conts -> (S (length conts) < utf8_width lead)%nat ->
  split_before_incomplete_utf8_tail (pre ++ lead :: conts) = length pre.
Proof.
  intros Hc Hw. assert (utf8_width lead <= 4)%nat by (unfold utf8_width; repeat case_match; lia).
  unfold split_before_incomplete_utf8_tail, UTF8_RESIDUAL_MAX_BYTES.
  set (n := length (pre ++ lead :: conts)). assert (Hn : (S (length conts) <= n)%nat) by (subst n; rewrite length_app; cbn; lia).
  assert (exists m, (Nat.min n (4 - 1) = length conts + S m)%nat) as [m Hm]; [exists (Nat.min n 3 - S (length conts))%nat; lia|].
  rewrite Hm, split_at_lead by done. cbn [split_loop].
  fold n. replace (n - S (length conts))%nat with (length pre) by (subst n; rewrite length_app; cbn; lia).
  rewrite lookup_app_r, Nat.sub_diag by lia. cbn [lookup list_lookup].
  rewrite (proj2 (Nat.eqb_neq _ 0)) by lia. rewrite (proj2 (Nat.ltb_lt _ _)) by lia.
  replace (drop (S (length pre)) (pre ++ lead :: conts)) with conts.
  - replace (forallb is_utf8_continuation conts) with true; [done|]. symmetry. apply List.forallb_forall.
    intros b Hb. unfold continuations in Hc. rewrite Forall_forall in Hc. by apply Hc in Hb as [_ Hb].
  - change (lead :: conts) with ([lead] ++ conts). rewrite app_assoc.
    replace (S (length pre)) with (length (pre ++ [lead])) by (rewrite length_app; cbn; lia). by rewrite drop_app_length.
Qed.

(** *** Characters *)

Lemma in_range_true lo hi x : lo <= x <= hi -> in_range lo hi x = true.
Proof. unfold in_range. lia. Qed.
Lemma in_range_false lo hi x : x < lo \/ hi < x -> in_range lo hi x = false.
Proof. unfold in_range. lia. Qed.

Lemma continuation_byte x : 0 <= x < 64 -> utf8_width (0x80 + x) = 0%nat /\ is_utf8_continuation (0x80 + x) = true.
Proof.
  intros Hx. unfold utf8_width, is_utf8_continuation. rewrite !in_range_false by lia. rewrite in_range_true by lia. done.
Qed.

Lemma encode_char_shape c : is_scalar c -> exists lead conts,
  utf8_encode_char c = lead :: conts /\ utf8_width lead = S (length conts) /\ continuations conts
  /\ (length conts <= 3)%nat.
Proof.
  unfold is_scalar, is_scalarb. intros Hc. unfold utf8_encode_char.
  destruct (Z.ltb_spec c 0x80); [|destruct (Z.ltb_spec c 0x800); [|destruct (Z.ltb_spec c 0x10000)]];
    (eexists _, _; split; [reflexivity|]); (split; [|split; [|cbn; lia]]).
  all: try (repeat constructor; apply continuation_byte, Z.mod_pos_bound; lia).
  all: unfold utf8_width; cbn [length].
  - by rewrite in_range_true by lia.
  - rewrite in_range_false by (euclid; lia). by rewrite in_range_true by (euclid; lia).
  - rewrite !in_range_false by (euclid; lia). by rewrite in_range_true by (euclid; lia).
  - rewrite !in_range_false by (euclid; lia). by rewrite in_range_true by (euclid; lia).
Qed.

(** A part of a character: not empty, not all of it. *)
Definition cut (q : list Z) (s : list Z) : Prop :=
  q = [] \/ exists c s' q', s = c :: s' /\ utf8_encode_char c = q ++ q' /\ q <> [] /\ q' <> [].

Lemma utf8_prefix s p rest : str_ok s -> utf8_encode s = p ++ rest ->
  exists s1 s2 q, s = s1 ++ s2 /\ p = utf8_encode s1 ++ q /\ cut q s2.
Proof.
  intros Hs. revert p. induction Hs as [|c s Hc Hs IH]; intros p Hp.
  - symmetry in Hp. apply app_eq_nil in Hp as [-> ->]. exists [], [], []. split_and!; [done|done|by left].
  - change (utf8_encode (c :: s)) with (utf8_encode_char c ++ utf8_encode s) in Hp.
    destruct (decide (length (utf8_encode_char c) <= length p)%nat) as [Hle|Hgt].
    + assert (Hpre : exists p', p = utf8_encode_char c ++ p').
      { exists (drop (length (utf8_encode_char c)) p).
        rewrite <-(take_drop (length (utf8_encode_char c)) p) at 1. f_equal.
        apply (f_equal (take (length (utf8_encode_char c)))) in Hp.
        rewrite take_app_length, take_app_le in Hp by done. congruence. }
      destruct Hpre as [p' ->]. rewrite <-app_assoc in Hp. apply app_inv_head in Hp.
      destruct (IH _ Hp) as (s1 & s2 & q & -> & -> & Hq). exists (c :: s1), s2, q. split_and!; [done| |done].
      change (utf8_encode (c :: s1)) with (utf8_encode_char c ++ utf8_encode s1). by rewrite app_assoc.
    + exists [], (c :: s), p. split_and!; [done|done|]. destruct (decide (p = [])) as [->|Hne]; [by left|right].
      exists c, s, (drop (length p) (utf8_encode_char c)). split; [done|].
      apply (f_equal (take (length p))) in Hp. rewrite take_app_length, take_app_le in Hp by lia.
      split; [by rewrite <-Hp at 1; rewrite take_drop|]. split; [done|].
      intros H0. apply (f_equal length) in H0. rewrite length_drop in H0. cbn in H0. lia.
Qed.

Lemma split_whole s1 s2 q : str_ok (s1 ++ s2) -> cut q s2 ->
  split_before_incomplete_utf8_tail (utf8_encode s1 ++ q) = length (utf8_encode s1).
Proof.
  intros Hs Hq. apply Forall_app in Hs as [Hs1 Hs2].
  destruct Hq as [->|(c & s' & q' & -> & Henc & Hne & Hq')].
  - rewrite app_nil_r. destruct s1 as [|c s1 _] using rev_ind; [done|]. apply Forall_app in Hs1 as [_ Hc].
    apply Forall_cons_1 in Hc as [Hc _]. destruct (encode_char_shape c Hc) as (lead & conts & Henc & Hw & Hco & Hl).
    rewrite utf8_encode_app. change (utf8_encode [c]) with (utf8_encode_char c ++ []). rewrite app_nil_r, Henc.
    by apply split_complete.
  - apply Forall_cons_1 in Hs2 as [Hc _]. destruct (encode_char_shape c Hc) as (lead & conts & Henc' & Hw & Hco & Hl).
    destruct q as [|b q]; [done|]. rewrite Henc' in Henc. injection Henc as <- ->.
    apply Forall_app in Hco as [Hco _]. apply split_partial; [done|]. rewrite Hw, length_app. destruct q'; [done|]. cbn. lia.
Qed.

Lemma cut_short q s : str_ok s -> cut q s -> (length q <= 3)%nat.
Proof.
  intros Hs [->|(c & s' & q' & -> & Henc & _ & Hq')]; [cbn; lia|]. apply Forall_cons_1 in Hs as [Hc _].
  destruct (encode_char_shape c Hc) as (lead & conts & Henc' & _ & _ & Hl). rewrite Henc in Henc'.
  apply (f_equal length) in Henc'. rewrite length_app in Henc'. destruct q'; [done|]. cbn in Henc'. lia.
Qed.

(** Nothing is lost, and little is kept back. *)
Lemma push_conserves residual bytes :
  let '(out, residual') := Utf8ResidualGuard_push residual bytes in
  default [] out ++ residual' = residual ++ bytes /\ (residual' = residual \/ (length residual' <= 3)%nat).
Proof.
  unfold Utf8ResidualGuard_push. destruct (bool_decide (bytes = []) && bool_decide (residual = [])) eqn:E.
  - apply andb_true_iff in E as [->%bool_decide_eq_true ->%bool_decide_eq_true]. by split; [|left].
  - clear E. set (split := split_before_incomplete_utf8_tail _). unfold UTF8_RESIDUAL_MAX_BYTES.
    destruct (Nat.leb_spec 4 (length (drop split (residual ++ bytes)))); rewrite ?take_drop.
    + case_bool_decide as Hn; cbn; rewrite ?app_nil_r; (split; [congruence|right; lia]).
    + pose proof (take_drop split (residual ++ bytes)) as Htd.
      case_bool_decide as Hn; cbn; (split; [|right; lia]); [by rewrite <-Htd at 2; rewrite Hn|done].
Qed.
Lemma push_all_conserves chunks : forall residual, (length residual <= 3)%nat ->
  List.concat (push_all residual chunks).1 ++ (push_all residual chunks).2 = residual ++ List.concat chunks
  /\ (length (push_all residual chunks).2 <= 3)%nat.
Proof.
  induction chunks as [|c chunks IH]; intros residual Hr; cbn [push_all]; [by rewrite app_nil_r|].
  pose proof (push_conserves residual c) as Hp. destruct (Utf8ResidualGuard_push residual c) as [out r].
  destruct Hp as [Hp Hl]. assert (Hr' : (length r <= 3)%nat) by (destruct Hl; [by subst|done]).
  destruct (IH r Hr') as [Hc Hd]. destruct (push_all r chunks) as [outs r2]. cbn in *. split; [|done].
  rewrite concat_app, <-app_assoc, Hc, !app_assoc. f_equal. rewrite <-Hp. destruct out; cbn; by rewrite ?app_nil_r.
Qed.

(** On text, whole characters are passed on. *)
Lemma push_whole residual c rest s :
  str_ok s -> utf8_encode s = (residual ++ c) ++ rest -> cut residual s ->
  exists s1 s2 q, s = s1 ++ s2 /\ cut q s2 /\ q ++ rest = utf8_encode s2
    /\ Utf8ResidualGuard_push residual c = (if bool_decide (s1 = []) then None else Some (utf8_encode s1), q).
Proof.
  intros Hs Henc Hcut. unfold Utf8ResidualGuard_push.
  destruct (bool_decide (c = []) && bool_decide (residual = [])) eqn:E.
  - apply andb_true_iff in E as [->%bool_decide_eq_true ->%bool_decide_eq_true]. exists [], s, [].
    split_and!; [done|by left|by rewrite Henc|done].
  - destruct (utf8_prefix s _ rest Hs Henc) as (s1 & s2 & q & -> & Hp & Hq). exists s1, s2, q.
    rewrite Hp. rewrite (split_whole s1 s2 q Hs Hq). rewrite drop_app_length, take_app_length.
    apply Forall_app in Hs as [Hs1 Hs2]. pose proof (cut_short q s2 Hs2 Hq). unfold UTF8_RESIDUAL_MAX_BYTES.
    rewrite (proj2 (Nat.leb_gt _ _)) by lia. split_and!; [done|done| |].
    + rewrite utf8_encode_app, Hp, <-app_assoc in Henc. apply app_inv_head in Henc. done.
    + f_equal. clear E. destruct (decide (s1 = [])) as [->|Hne]; [done|].
      pose proof (utf8_encode_not_empty s1 Hs1 Hne) as H0. rewrite !bool_decide_eq_false_2; [done|done|].
      intros Hn. by rewrite Hn in H0.
Qed.

Lemma push_all_whole chunks : forall residual s,
  str_ok s -> cut residual s -> utf8_encode s = residual ++ List.concat chunks ->
  exists parts, push_all residual chunks = (map utf8_encode parts, []) /\ List.concat parts = s.
Proof.
  induction chunks as [|c chunks IH]; intros residual s Hs Hcut Henc; cbn [push_all].
  - cbn in Henc. rewrite app_nil_r in Henc. destruct Hcut as [->|(ch & s' & q' & -> & Hch & Hne & Hq')].
    + exists []. split; [done|]. destruct s as [|c s]; [done|]. exfalso.
      pose proof (utf8_encode_not_empty (c :: s) Hs) as H0. by rewrite Henc in H0; apply H0.
    + exfalso. change (utf8_encode (ch :: s')) with (utf8_encode_char ch ++ utf8_encode s') in Henc.
      rewrite Hch in Henc. apply (f_equal length) in Henc. rewrite !length_app in Henc. destruct q'; [done|]. cbn in Henc. lia.
  - cbn [List.concat] in Henc. rewrite app_assoc in Henc.
    destruct (push_whole residual c _ s Hs Henc Hcut) as (s1 & s2 & q & -> & Hq & Hrest & ->).
    apply Forall_app in Hs as [Hs1 Hs2]. destruct (IH q s2 Hs2 Hq) as (parts & -> & Hparts); [done|].
    case_bool_decide as Hn.
    + subst s1. by exists parts.
    + exists (s1 :: parts). split; [done|]. cbn. by rewrite Hparts.
Qed.

(** ** The marker of a transfer *)

Inductive TerminalMagicKind := TrzszTransfer.
Definition marker (kind : TerminalMagicKind) : list Z :=
  match kind with TrzszTransfer => map (fun c => Z.of_nat (nat_of_ascii c)) (list_ascii_of_string "::TRZSZ:TRANSFER:") end.

Record MagicScanWindow := mkWindow { tail : list Z; patterns : list TerminalMagicKind }.
Definition default_window : MagicScanWindow := mkWindow [] [TrzszTransfer].

(** The loop over the positions [index ..] of the window. *)
Fixpoint scan_positions (m window : list Z) (current_start index n : nat) : bool :=
  match n with
  | O => false
  | S n =>
      if bool_decide (take (length m) (drop index window) = m) && Nat.ltb current_start (index + length m) then true
      else scan_positions m window current_start (S index) n
  end.
Definition scan_kind (window : list Z) (current_start : nat) (kind : TerminalMagicKind) : list TerminalMagicKind :=
  let m := marker kind in
  if bool_decide (m = []) || Nat.ltb (length window) (length m) then []
  else if scan_positions m window current_start 0 (S (length window - length m)) then [kind] else [].
Definition scan (s : MagicScanWindow) (chunk : list Z) : list TerminalMagicKind * MagicScanWindow :=
  if bool_decide (chunk = []) then ([], s)
  else
    let window := tail s ++ chunk in
    let matches := List.concat (map (scan_kind window (length (tail s))) (patterns s)) in
    let keep := Nat.min MAGIC_DETECT_OVERLAP_BYTES (length window) in
    (matches, mkWindow (drop (length window - keep) window) (patterns s)).

(** The reports of a series of reads. *)
Fixpoint scan_all (s : MagicScanWindow) (chunks : list (list Z)) : list (list TerminalMagicKind) :=
  match chunks with
  | [] => []
  | c :: rest => let '(matches, s') := scan s c in matches :: scan_all s' rest
  end.

Definition occurs_at (m l : list Z) (i : nat) : Prop := exists r, drop i l = m ++ r.

(** The marker ends within the chunk that follows [before]. *)
Definition ends_in (kind : TerminalMagicKind) (before chunk : list Z) : Prop :=
  exists i, occurs_at (marker kind) (before ++ chunk) i /\ (length before < i + length (marker kind))%nat.

Lemma occurs_take m l i : occurs_at m l i <-> take (length m) (drop i l) = m.
Proof.
  split.
  - intros [r ->]. apply take_app_length.
  - intros H. exists (drop (length m) (drop i l)). by rewrite <-H at 1; rewrite take_drop.
Qed.
Lemma occurs_bound m l i : m <> [] -> occurs_at m l i -> (i + length m <= length l)%nat.
Proof.
  intros Hm [r Hr]. apply (f_equal length) in Hr. rewrite length_drop, length_app in Hr. destruct m; [done|]. cbn in *. lia.
Qed.

Lemma scan_positions_true m window start n : forall index,
  scan_positions m window start index n = true <->
  exists i, (index <= i < index + n)%nat /\ occurs_at m window i /\ (start < i + length m)%nat.
Proof.
  induction n as [|n IH]; intros index; cbn [scan_positions].
  - split; [done|]. intros (i & ? & _). lia.
  - destruct (bool_decide _ && _) eqn:E.
    + split; [|done]. intros _. apply andb_true_iff in E as [Ht%bool_decide_eq_true Hl%Nat.ltb_lt].
      exists index. split_and!; [lia|lia|by apply occurs_take|done].
    + rewrite IH. split.
      * intros (i & Hi & Ho). exists i. split; [lia|done].
      * intros (i & Hi & Ho & Hs). exists i. split_and!; [|lia|done|done].
        destruct (decide (i = index)) as [->|]; [|lia]. exfalso.
        apply occurs_take in Ho. rewrite (bool_decide_eq_true_2 _ Ho) in E. cbn in E. apply Nat.ltb_ge in E. lia.
Qed.

Lemma scan_kind_exact window start kind :
  scan_kind window start kind = [kind] /\ (exists i, occurs_at (marker kind) window i /\ (start < i + length (marker kind))%nat)
  \/ scan_kind window start kind = [] /\ ~ (exists i, occurs_at (marker kind) window i /\ (start < i + length (marker kind))%nat).
Proof.
  unfold scan_kind. assert (Hne : marker kind <> []) by by destruct kind.
  rewrite (bool_decide_eq_false_2 _ Hne). cbn [orb].
  destruct (Nat.ltb_spec (length window) (length (marker kind))) as [Hlt|Hge].
  - right. split; [done|]. intros (i & Ho & _). apply occurs_bound in Ho; [lia|done].
  - destruct (scan_positions _ _ _ _ _) eqn:E.
    + left. split; [done|]. apply scan_positions_true in E as (i & _ & Ho). by exists i.
    + right. split; [done|]. intros (i & Ho & Hs). apply not_true_iff_false in E. apply E, scan_positions_true.
      exists i. apply occurs_bound in Ho as Hb; [|done]. split_and!; [lia|lia|done|done].
Qed.

(** The window keeps the end of the stream. *)
Definition remembers (s : MagicScanWindow) (before : list Z) : Prop :=
  patterns s = [TrzszTransfer] /\ tail s = drop (length before - Nat.min MAGIC_DETECT_OVERLAP_BYTES (length before)) before.

Lemma window_ends s before chunk kind : remembers s before ->
  ((exists i, occurs_at (marker kind) (tail s ++ chunk) i /\ (length (tail s) < i + length (marker kind))%nat)
   <-> ends_in kind before chunk).
Proof.
  intros [_ Ht]. set (k := (length before - Nat.min MAGIC_DETECT_OVERLAP_BYTES (length before))%nat) in *.
  assert (Hw : tail s ++ chunk = drop k (before ++ chunk)).
  { rewrite Ht, drop_app_le by (subst k; lia). done. }
  assert (Hlen : length (tail s) = (length before - k)%nat) by (rewrite Ht, length_drop; done).
  assert (Hm : (length (marker kind) = 17)%nat) by by destruct kind.
  unfold ends_in, occurs_at. rewrite Hw, Hlen, Hm. unfold MAGIC_DETECT_OVERLAP_BYTES in k. split.
  - intros (i & [r Hr] & Hi). exists (k + i)%nat. split; [exists r; by rewrite <-drop_drop|]. subst k. lia.
  - intros (i & [r Hr] & Hi). exists (i - k)%nat. split; [|subst k; lia]. exists r. rewrite drop_drop, <-Hr. f_equal.
    subst k. lia.
Qed.

Lemma scan_remembers s before chunk : remembers s before -> remembers (scan s chunk).2 (before ++ chunk).
Proof.
  intros Hs. unfold scan. case_bool_decide as Hc; [by rewrite Hc, app_nil_r|]. destruct Hs as [Hp Ht]. split; [done|].
  cbn [snd tail]. rewrite Ht. unfold MAGIC_DETECT_OVERLAP_BYTES.
  rewrite <-drop_app_le by lia. rewrite drop_drop. rewrite !length_drop, length_app. f_equal. lia.
Qed.

Lemma scan_exact s before chunk : remembers s before ->
  (scan s chunk).1 = [TrzszTransfer] /\ ends_in TrzszTransfer before chunk
  \/ (scan s chunk).1 = [] /\ ~ ends_in TrzszTransfer before chunk.
Proof.
  intros Hs. unfold scan. case_bool_decide as Hc.
  - right. split; [done|]. subst chunk. rewrite <-(window_ends s before [] TrzszTransfer Hs), app_nil_r.
    intros (i & Ho & Hi). apply occurs_bound in Ho; [lia|done].
  - cbn [fst]. destruct Hs as [Hp Ht]. rewrite Hp. cbn [map List.concat]. rewrite app_nil_r.
    rewrite <-(window_ends s before chunk TrzszTransfer (conj Hp Ht)). apply scan_kind_exact.
Qed.

Lemma scan_all_at before chunk after : forall s seen, remembers s seen ->
  exists m, scan_all s (before ++ chunk :: after) !! length before = Some m
    /\ (m = [TrzszTransfer] /\ ends_in TrzszTransfer (seen ++ List.concat before) chunk
        \/ m = [] /\ ~ ends_in TrzszTransfer (seen ++ List.concat before) chunk).
Proof.
  induction before as [|b before IH]; intros s seen Hs; cbn [app scan_all].
  - exists (scan s chunk).1. rewrite app_nil_r. split; [by destruct (scan s chunk)|]. by apply scan_exact.
  - pose proof (scan_remembers s seen b Hs) as Hs'. destruct (scan s b) as [m s']. cbn [List.concat] in *.
    rewrite app_assoc. by apply IH.
Qed.

(** ** Properties *)

(** However the output of a session is cut into reads, the marker of a trzsz
    transfer is reported for exactly the reads in which an occurrence ends. *)
Theorem magic_scan_exact (before : list (list Z)) (chunk : list Z) (after : list (list Z)) :
  exists m, scan_all default_window (before ++ chunk :: after) !! length before = Some m
    /\ (m = [TrzszTransfer] /\ ends_in TrzszTransfer (List.concat before) chunk
        \/ m = [] /\ ~ ends_in TrzszTransfer (List.concat before) chunk).
Proof. apply (scan_all_at before chunk after default_window []). by split. Qed.

(** C39: a channel between a worker and its session never holds more than its
    limit, counting the events that wait and those the session has taken and
    not yet dropped; events come out in the order they went in and none is lost
    before the session closes the channel; and no wake-up is lost: a worker
    sleeps only while its event does not fit, so it is woken as soon as
    dropped events make room, and at the latest when all are dropped. *)
Theorem byte_channel_safe {T : Type} (limit : Z) (ops : list (Op T)) :
  0 < limit < U64_MAX -> Forall op_ok ops ->
  let w := run limit ops start in
  outstanding_bytes (chan w) = bytes_of (queue (chan w)) + bytes_of (held w)
  /\ 0 <= outstanding_bytes (chan w) <= limit
  /\ delivered w `prefix_of` accepted w
  /\ (receiver_open (chan w) = true -> accepted w = delivered w ++ map fst (queue (chan w)))
  /\ (forall value byte_len, thread w = Asleep value byte_len ->
        receiver_open (chan w) = true /\ limit < outstanding_bytes (chan w) + byte_len
        /\ (queue (chan w) <> [] \/ held w <> [])).
Proof.
  intros Hl Hops w. destruct (run_fine limit ops start Hl Hops (start_fine limit (proj1 Hl))) as [Hb Hlim [Hq Hh] Ho Ht].
  fold w in Hb, Hlim, Hq, Hh, Ho, Ht. pose proof (bytes_of_nonneg _ Hq). pose proof (bytes_of_nonneg _ Hh).
  split_and!; [done|lia|done| | |].
  - destruct (receiver_open (chan w)); [|by destruct Ho]. rewrite Ho. by apply prefix_app_r.
  - intros Hr. by rewrite Hr in Ho.
  - intros v n Hs. rewrite Hs in Ht. destruct Ht as (Hn & Hr & Hf). split_and!; [done|done|].
    destruct (queue (chan w)) eqn:E; [|by left]. right. intros E'. rewrite E' in Hb. cbn in Hb. lia.
Qed.

(** The worker fills the channel and sleeps, is woken by a drop, and finishes. *)
Definition demo_ops : list (Op Z) :=
  [Send 1 6; Turn; Send 2 6; Turn; Control 3; Receive; Receive; DropItem 0; Turn; Receive].
Lemma byte_channel_safe_witness :
  let w := run 10 demo_ops start in
  (thread (run 10 (take 4 demo_ops) start) = Asleep 2 6 /\ delivered w = [1; 3; 2])
  /\ outstanding_bytes (chan w) = bytes_of (queue (chan w)) + bytes_of (held w)
  /\ 0 <= outstanding_bytes (chan w) <= 10.
Proof.
  split; [split; reflexivity|].
  destruct (byte_channel_safe 10 demo_ops) as (H1 & H2 & _).
  - unfold U64_MAX. lia.
  - unfold demo_ops. repeat (apply Forall_cons_2; [cbn; unfold U64_MAX; first [exact I|lia]|]). apply Forall_nil_2.
  - split; [exact H1|exact H2].
Defined.

(** the reads of a session pass through the UTF-8 guard unchanged and in
    order, with at most three bytes kept back; and when the session writes
    text, however it is cut into reads, every chunk that is passed on consists
    of whole characters and nothing is left at the end. *)
Theorem utf8_guard_whole (chunks : list (list Z)) (s : list Z) :
  str_ok s -> List.concat chunks = utf8_encode s ->
  (forall any, List.concat (push_all [] any).1 ++ (push_all [] any).2 = List.concat any
     /\ (length (push_all [] any).2 <= 3)%nat)
  /\ exists parts, push_all [] chunks = (map utf8_encode parts, []) /\ List.concat parts = s.
Proof.
  intros Hs Hc. split.
  - intros any. apply (push_all_conserves any []). cbn. lia.
  - apply push_all_whole; [done|by left|by rewrite Hc].
Qed.

Lemma utf8_guard_whole_witness : exists parts,
  push_all [] [[104; 0xc3]; [0xa9; 0xf0; 0x9f]; [0x98]; [0x80; 33]] = (map utf8_encode parts, [])
  /\ List.concat parts = [104; 0xe9; 0x1f600; 33].
Proof.
  apply (utf8_guard_whole [[104; 0xc3]; [0xa9; 0xf0; 0x9f]; [0x98]; [0x80; 33]] [104; 0xe9; 0x1f600; 33]).
  - by repeat constructor.
  - reflexivity.
Defined.
