(* ===== verification/AtomicFile.v ===== *)
(** * Replacing files atomically (hapcli-atomic-file)

    [durable_write], through which settings, connections, forwards and key
    stores are saved: the new contents are written to a temporary file beside
    the destination, synced, and renamed over it.  Over the file system of
    [FileSystem], where any writing call may fail; a program that stops between
    two calls leaves the files as a run in which all later calls fail does.  A
    path is one without a final separator.  The Windows replacement is not
    modelled. *)
From S2P Require Import Prelude Text TrzszBuffer FileSystem TrzszConfine.
From Stdlib Require Import Ascii String.
From stdpp Require Import prelude numbers list gmap.
Open Scope Z_scope.

(** ** Definitions *)

Definition MAX_TEMPORARY_FILE_ATTEMPTS : nat := 128.

Definition parent_directory (path : PathBuf) : PathBuf :=
  match parent path with
  | Some p => if decide (p = []) then [CurDir] else p
  | None => [CurDir]
  end.

(** The files and [TEMPORARY_FILE_SEQUENCE], which wraps around. *)
Abbreviation AM := (M io_error (FileSystem * Z)).

Definition invalid_input (text : list Z) : io_error := mkIo OtherKind text.

Section Atomic.
Context (fault : nat -> option (Z * io_error)) (process_id : Z).

(** [fs::create_dir_all], a path component at a time. *)
Definition is_dir_path (p : PathBuf) (fs : FileSystem) : bool :=
  match look resolve p fs with Ok m => is_directory m | Err _ => false end.
Fixpoint create_dir_all_loop (fuel : nat) (p : PathBuf) : FM unit :=
  if decide (p = []) then ret tt
  else
    let* r := attempt (create_dir fault p) in
    match r with
    | Ok _ => ret tt
    | Err e =>
        if decide (kind e = NotFound) then
          match fuel, parent p with
          | S fuel, Some q =>
              do* create_dir_all_loop fuel q in
              let* r := attempt (create_dir fault p) in
              match r with
              | Ok _ => ret tt
              | Err e => fun fs => if is_dir_path p fs then Some (Ok tt, fs) else Some (Err e, fs)
              end
          | _, _ => throw (mkIo OtherKind (lit "failed to create whole tree"))
          end
        else fun fs => if is_dir_path p fs then Some (Ok tt, fs) else Some (Err e, fs)
    end.
Definition create_dir_all (p : PathBuf) : FM unit := create_dir_all_loop (length p) p.

Definition fetch_add : AM Z := fun s => Some (Ok s.2, (s.1, Prelude.wrap 64 (s.2 + 1))).
Definition temporary_name (file_name : name) (sequence : Z) : name :=
  [46] ++ file_name ++ [46] ++ u64_to_string process_id ++ [46] ++ u64_to_string sequence ++ lit ".tmp".

(** [(0..MAX_TEMPORARY_FILE_ATTEMPTS).find_map(..)]. *)
Fixpoint try_temporary (attempts : nat) (parent : PathBuf) (file_name : name) : AM (PathBuf * OpenFile) :=
  match attempts with
  | O => throw (mkIo AlreadyThere (lit "atomic temporary path attempts exhausted"))
  | S attempts =>
      let* sequence := fetch_add in
      let temporary_path := push parent (temporary_name file_name sequence) in
      let* r := attempt (on_fst (open_new fault temporary_path)) in
      match r with
      | Ok file => ret (temporary_path, file)
      | Err e => if decide (kind e = AlreadyThere) then try_temporary attempts parent file_name else throw e
      end
  end.
Definition create_temporary_file (path : PathBuf) : AM (PathBuf * OpenFile) :=
  match file_name path with
  | None => throw (invalid_input (lit "atomic write path has no file name"))
  | Some n => try_temporary MAX_TEMPORARY_FILE_ATTEMPTS (parent_directory path) n
  end.

Definition atomic_replace (source destination : PathBuf) : FM unit := rename fault source destination.
Definition sync_directory (directory : PathBuf) : FM unit :=
  let* file := open_read directory in sync_all fault file.
Definition replace_and_sync_parent (source destination parent : PathBuf) : FM unit :=
  do* atomic_replace source destination in sync_directory parent.

(** The closure of [durable_write_with_before_replace]; [flush] does nothing
    for a file. *)
Definition write_and_replace (temporary_path path parent : PathBuf) (file : OpenFile) (contents : list Z)
    (before_replace : FM unit) : FM unit :=
  let* written := write_all fault file contents in
  do* lift written.2 in
  do* sync_all fault written.1 in
  do* before_replace in
  replace_and_sync_parent temporary_path path parent.
Definition durable_write_with_before_replace (path : PathBuf) (contents : list Z) (before_replace : FM unit) : AM unit :=
  let parent := parent_directory path in
  do* on_fst (create_dir_all parent) in
  let* temporary := create_temporary_file path in
  let* r := attempt (on_fst (write_and_replace temporary.1 path parent temporary.2 contents before_replace)) in
  match r with
  | Ok _ => ret tt
  | Err e => do* attempt (on_fst (remove_file fault temporary.1)) in throw e
  end.
Definition durable_write (path : PathBuf) (contents : list Z) : AM unit :=
  durable_write_with_before_replace path contents (ret tt).

Definition durable_replace (source destination : PathBuf) : FM unit :=
  let destination_parent := parent_directory destination in
  if negb (bool_decide (parent_directory source = destination_parent))
  then throw (invalid_input (lit "durable replacement requires source and destination in the same directory"))
  else
    let* file := open_read source in
    do* sync_all fault file in
    replace_and_sync_parent source destination destination_parent.
Definition durable_remove (path : PathBuf) : FM unit :=
  let* r := attempt (remove_file fault path) in
  match r with
  | Ok _ => sync_directory (parent_directory path)
  | Err e => if decide (kind e = NotFound) then ret tt else throw e
  end.
End Atomic.

(** ** Paths whose directory exists *)

(** A new entry disturbs no path that can be followed. *)
Lemma walk_insert l fs q x :
  nodes fs !! q = None -> forall p cur d, walk l fs cur p = Ok d -> walk l (set_nodes (<[q := x]> (nodes fs)) fs) cur p = Ok d.
Proof.
  intros Hq. induction l as [l IHl] using lt_wf_ind. intros p.
  induction p as [|[| | |n] p IHp]; intros cur d Hw.
  - rewrite walk_nil in *. done.
  - rewrite walk_root in *. by apply IHp.
  - assert (Hw' : walk l fs cur p = Ok d) by by destruct l. apply IHp in Hw'. by destruct l.
  - assert (Hw' : walk l fs (take (Nat.pred (length cur)) cur) p = Ok d) by by destruct l.
    apply IHp in Hw'. by destruct l.
  - rewrite walk_normal in *. cbn [nodes set_nodes].
    rewrite lookup_insert_ne by (intros ->; by rewrite Hq in Hw).
    destruct (nodes fs !! (cur ++ [n])) as [[|i|t]|]; [by apply IHp|done| |done].
    destruct l as [|l]; [done|]. apply IHl; [lia|done].
Qed.

(** Where a file takes the place of an entry, a path leads where it led, to the
    file, or nowhere. *)
Lemma walk_file l fs k i fs' : nodes fs' = <[k := File i]> (nodes fs) -> forall p cur d, walk l fs cur p = Ok d ->
  walk l fs' cur p = Ok d \/ walk l fs' cur p = Ok k \/ exists e, walk l fs' cur p = Err e.
Proof.
  intros Hn. induction l as [l IHl] using lt_wf_ind. intros p.
  induction p as [|[| | |n] p IHp]; intros cur d Hw.
  - rewrite walk_nil in *. by left.
  - rewrite walk_root in *. by apply IHp.
  - assert (Hw' : walk l fs cur p = Ok d) by by destruct l. apply IHp in Hw'. by destruct l.
  - assert (Hw' : walk l fs (take (Nat.pred (length cur)) cur) p = Ok d) by by destruct l.
    apply IHp in Hw'. by destruct l.
  - rewrite walk_normal in *. rewrite Hn. destruct (decide (k = cur ++ [n])) as [->|Hne].
    + rewrite lookup_insert, decide_True by done. destruct p; eauto.
    + rewrite lookup_insert_ne by done. destruct (nodes fs !! (cur ++ [n])) as [[|j|t]|]; [by apply IHp|by left| |done].
      destruct l as [|l]; [done|]. apply IHl; [lia|done].
Qed.

Lemma walk_app l fs r : forall p cur d, walk l fs cur (p ++ r) = Ok d ->
  exists d' l', walk l fs cur p = Ok d' /\ walk l' fs d' r = Ok d.
Proof.
  induction l as [l IHl] using lt_wf_ind. intros p.
  induction p as [|[| | |n] p IHp]; intros cur d Hw; cbn [app] in Hw.
  - exists cur, l. by rewrite walk_nil.
  - rewrite walk_root in *. by apply IHp.
  - assert (Hw' : walk l fs cur (p ++ r) = Ok d) by by destruct l.
    destruct (IHp _ _ Hw') as (d' & l' & ? & ?). exists d', l'. by destruct l.
  - assert (Hw' : walk l fs (take (Nat.pred (length cur)) cur) (p ++ r) = Ok d) by by destruct l.
    destruct (IHp _ _ Hw') as (d' & l' & ? & ?). exists d', l'. by destruct l.
  - rewrite walk_normal in *. destruct (nodes fs !! (cur ++ [n])) as [[|i|t]|] eqn:E; [by apply IHp| | |done].
    + destruct p as [|c p]; cbn [app] in Hw; [|done]. destruct r as [|c r]; [|done]. exists (cur ++ [n]), l. by rewrite walk_nil.
    + destruct l as [|l]; [done|]. rewrite app_assoc in Hw. by apply IHl in Hw; [|lia].
Qed.

(** One step further. *)
Lemma walk_into l fs n x : (forall t, x <> Symlink t) -> forall p cur d, walk l fs cur p = Ok d -> node_at fs d = Some Dir ->
  nodes fs !! (d ++ [n]) = Some x -> walk l fs cur (p ++ [Normal n]) = Ok (d ++ [n]).
Proof.
  intros Hx. induction l as [l IHl] using lt_wf_ind. intros p. induction p as [|[| | |m] p IHp]; intros cur d Hw Hd Hf; cbn [app].
  - rewrite walk_nil in Hw. injection Hw as ->. rewrite walk_normal, Hf. destruct x as [| |t]; [by rewrite walk_nil|done|by destruct (Hx t)].
  - rewrite walk_root in *. by apply IHp.
  - assert (Hw' : walk l fs cur p = Ok d) by by destruct l. apply IHp in Hw'; [|done..]. by destruct l.
  - assert (Hw' : walk l fs (take (Nat.pred (length cur)) cur) p = Ok d) by by destruct l.
    apply IHp in Hw'; [|done..]. by destruct l.
  - rewrite walk_normal in *. destruct (nodes fs !! (cur ++ [m])) as [[|j|t]|] eqn:E; [by apply IHp| | |done].
    + destruct p; [|done]. injection Hw as <-. by rewrite node_at_snoc, E in Hd.
    + destruct l as [|l]; [done|]. rewrite app_assoc. by apply IHl; [lia|..].
Qed.

(** Only the number of calls differs. *)
Definition at_calls (c : nat) (fs : FileSystem) : FileSystem := mkFs (nodes fs) (inodes fs) (next_ino fs) (cwd fs) c (synced fs).

Lemma walk_nodes l fs fs' : nodes fs' = nodes fs -> forall p cur, walk l fs' cur p = walk l fs cur p.
Proof.
  intros Hn. induction l as [|l IHl]; intros p; induction p as [|[| | |n] p IHp]; intros cur; try done; try exact (IHp _).
  - rewrite !walk_normal, Hn. by destruct (nodes fs !! _) as [[]|]; rewrite ?IHp.
  - rewrite !walk_normal, Hn. by destruct (nodes fs !! _) as [[]|]; rewrite ?IHp, ?IHl.
Qed.
Lemma node_at_nodes fs fs' k : nodes fs' = nodes fs -> node_at fs' k = node_at fs k.
Proof. intros Hn. unfold node_at. by rewrite Hn. Qed.

(** The directory that a path leads to. *)
Definition leads_to (fs : FileSystem) (p : PathBuf) (d : place) : Prop :=
  p <> [] /\ walk MAX_LINKS fs (cwd fs) p = Ok d /\ node_at fs d = Some Dir.

Lemma leads_nodes fs fs' p d : nodes fs' = nodes fs -> cwd fs' = cwd fs -> leads_to fs p d -> leads_to fs' p d.
Proof.
  intros Hn Hc (? & ? & ?). split_and!; [done| |by rewrite (node_at_nodes fs)].
  by rewrite (walk_nodes _ fs), Hc.
Qed.
Lemma leads_insert fs p d q x : nodes fs !! q = None -> leads_to fs p d -> leads_to (set_nodes (<[q := x]> (nodes fs)) fs) p d.
Proof.
  intros Hq (? & ? & Hd). split_and!; [done|by apply walk_insert|].
  destruct d as [|n d]; [done|]. cbn in *. rewrite lookup_insert_ne; [done|]. intros ->. by rewrite Hq in Hd.
Qed.
Lemma entry_leads fs p d n : leads_to fs p d -> entry fs (p ++ [Normal n]) = Ok (d ++ [n]).
Proof. intros (Hp & Hw & Hd). unfold entry. rewrite last_snoc, take_snoc, Hw. cbn. by rewrite Hd. Qed.
Lemma parent_leads fs path k : entry fs path = Ok k -> file_name path <> None ->
  exists d n, k = d ++ [n] /\ file_name path = Some n /\ leads_to fs (parent_directory path) d.
Proof.
  intros He Hf. unfold file_name in Hf. unfold entry in He.
  destruct path as [|c path _] using rev_ind; [done|]. rewrite last_snoc in He, Hf. destruct c as [| | |n]; [done..|].
  rewrite take_snoc in He. destruct (walk _ _ _ _) as [d|] eqn:Hw; [|done]. cbn in He.
  destruct (node_at fs d) as [[]|] eqn:Hd; [|done..]. injection He as <-. exists d, n.
  split; [done|]. split; [unfold file_name; by rewrite last_snoc|].
  unfold parent_directory, parent. rewrite last_snoc, take_snoc.
  destruct (decide (path = [])) as [->|Hne]; [|done]. split_and!; [done| |done]. rewrite <-Hw. done.
Qed.
Lemma entry_path fs path d n : leads_to fs (parent_directory path) d -> file_name path = Some n -> entry fs path = Ok (d ++ [n]).
Proof.
  intros Hl Hf. unfold file_name in Hf. destruct path as [|c path _] using rev_ind; [done|]. rewrite last_snoc in Hf.
  destruct c as [| | |m]; [done..|]. injection Hf as ->. unfold parent_directory, parent in Hl. rewrite last_snoc, take_snoc in Hl.
  destruct (decide (path = [])) as [->|Hne]; [|by apply entry_leads]. destruct Hl as (_ & Hw & Hd).
  unfold entry. cbn [app last length Nat.pred take]. rewrite walk_nil. change (walk MAX_LINKS fs (cwd fs) [CurDir]) with (Ok (E := io_error) (cwd fs)) in Hw.
  injection Hw as ->. cbn. by rewrite Hd.
Qed.

Section Proofs.
Context (fault : nat -> option (Z * io_error)) (process_id : Z).
Context (pid_ok : 0 <= process_id).

(** *** The parent directories *)

(** [fs'] is [fs] with directories added, each of them the place that a prefix
    of the path leads to. *)
Record adds_dirs (path : PathBuf) (fs fs' : FileSystem) : Prop := {
  ad_old : forall q x, nodes fs !! q = Some x -> nodes fs' !! q = Some x;
  ad_new : forall q x, nodes fs' !! q = Some x -> nodes fs !! q = None ->
    x = Dir /\ exists p, p `prefix_of` path /\ walk MAX_LINKS fs' (cwd fs') p = Ok q;
  ad_inodes : inodes fs' = inodes fs;
  ad_next : next_ino fs' = next_ino fs;
  ad_cwd : cwd fs' = cwd fs;
  ad_synced : synced fs' = synced fs
}.

Lemma adds_dirs_refl path fs fs' : nodes fs' = nodes fs -> inodes fs' = inodes fs -> next_ino fs' = next_ino fs -> cwd fs' = cwd fs ->
  synced fs' = synced fs -> adds_dirs path fs fs'.
Proof. intros Hn Hi Hx Hc Hs. constructor; [by rewrite Hn|rewrite Hn; congruence|done..]. Qed.

Lemma adds_dirs_insert path fs fs1 fs' q p : adds_dirs path fs fs1 -> nodes fs1 !! q = None -> p `prefix_of` path ->
  fs' = set_nodes (<[q := Dir]> (nodes fs1)) fs1 -> walk MAX_LINKS fs' (cwd fs') p = Ok q -> adds_dirs path fs fs'.
Proof.
  intros [Ho Hn Hi Hx Hc Hs] Hq Hp -> Hw. constructor; cbn [nodes inodes next_ino cwd synced set_nodes]; [| |done..].
  - intros r x Hr. rewrite lookup_insert_ne; [by apply Ho|]. intros ->. apply Ho in Hr. congruence.
  - intros r x. rewrite lookup_insert_Some. intros [[<- <-]|[_ Hr]] Hr0; [split; [reflexivity|]; exists p; split; [exact Hp|exact Hw]|].
    destruct (Hn r x Hr Hr0) as (Hd & p' & Hp' & Hw'). split; [done|]. exists p'. split; [done|]. by apply walk_insert.
Qed.

(** A new directory is where its path leads. *)
Lemma create_dir_place fs p k : entry fs p = Ok k -> node_at fs k = None ->
  let fs' := set_nodes (<[k := Dir]> (nodes fs)) fs in walk MAX_LINKS fs' (cwd fs') p = Ok k /\ node_at fs' k = Some Dir.
Proof.
  intros He Hk. cbv zeta. set (fs' := set_nodes _ fs). assert (Hq : nodes fs !! k = None) by (destruct k; done).
  assert (Hd : node_at fs' k = Some Dir) by (destruct k; [done|]; cbn; by rewrite lookup_insert, decide_True).
  split; [|done]. unfold entry in He. destruct p as [|c p _] using rev_ind; [done|]. rewrite last_snoc, take_snoc in He.
  assert (Hres : forall c, resolve fs (p ++ [c]) = Ok k -> walk MAX_LINKS fs' (cwd fs') (p ++ [c]) = Ok k).
  { intros c'. unfold resolve. rewrite decide_False by by destruct p. by apply walk_insert. }
  destruct c as [| | |n]; [by apply Hres..|]. destruct (walk MAX_LINKS fs (cwd fs) p) as [d|] eqn:Hw; [|done]. cbn in He.
  destruct (node_at fs d) as [[]|] eqn:Hdd; [|done..]. injection He as <-.
  apply (walk_into _ fs' n Dir); [done|by apply walk_insert| |cbn; by rewrite lookup_insert, decide_True].
  destruct d as [|x d]; [done|]. cbn in *. rewrite lookup_insert_ne; [done|]. intros E. rewrite <-E in Hdd. congruence.
Qed.

Lemma create_dir_adds path fs fs1 p : adds_dirs path fs fs1 -> p `prefix_of` path ->
  wp (create_dir fault p)
    (fun r s => adds_dirs path fs s /\ match r with Ok _ => exists k, leads_to s p k | Err _ => True end) fs1.
Proof.
  intros Ha Hp. assert (Ht : adds_dirs path fs (tick fs1)).
  { destruct Ha as [Ho Hn Hi Hx Hc Hs]. constructor; [done| |done..]. cbn [nodes tick]. intros q x Hq Hq0.
    destruct (Hn q x Hq Hq0) as (? & p' & ? & Hw). split; [done|]. exists p'. cbn [cwd tick]. by rewrite walk_tick. }
  unfold wp, create_dir, at_entry, faulty. destruct (fault (calls fs1)) as [[m e]|]; [done|].
  destruct (entry (tick fs1) p) as [k|e] eqn:He; cbn [result_bind]; [|done].
  destruct (node_at (tick fs1) k) eqn:Hk; [done|]. destruct (create_dir_place _ _ _ He Hk) as [Hw Hd].
  assert (Hq : nodes fs1 !! k = None) by (by destruct k). split.
  - by apply (adds_dirs_insert path fs (tick fs1) _ k p).
  - exists k. split; [|done]. intros ->. unfold entry in He. done.
Qed.

Lemma is_dir_leads p fs : p <> [] -> is_dir_path p fs = true -> exists k, leads_to fs p k.
Proof.
  intros Hp. unfold is_dir_path, look, resolve. rewrite decide_False by done.
  destruct (walk _ _ _ _) as [k|] eqn:Hw; cbn [result_bind]; [|done]. destruct (node_at fs k) as [[]|] eqn:Hk; cbn; [|done..].
  intros _. by exists k.
Qed.

(** Only directories are added, and on success the path leads to one. *)
Lemma create_dir_all_adds path fs : forall fuel p fs1, adds_dirs path fs fs1 -> p `prefix_of` path ->
  wp (create_dir_all_loop fault fuel p)
    (fun r s => adds_dirs path fs s /\ match r with Ok _ => p = [] \/ exists k, leads_to s p k | Err _ => True end) fs1.
Proof.
  induction fuel as [|fuel IH]; intros p fs1 Ha Hp; cbn [create_dir_all_loop];
    (destruct (decide (p = [])) as [->|Hne]; [by apply wp_ret; auto|]).
  all: assert (Hdir : forall (e : io_error) (s : FileSystem), adds_dirs path fs s ->
         wp (fun fs => if is_dir_path p fs then Some (Ok tt, fs) else Some (Err e, fs))
           (fun r s => adds_dirs path fs s /\ match r with Ok _ => p = [] \/ exists k, leads_to s p k | Err _ => True end) s)
         by (intros e s Hs; unfold wp; destruct (is_dir_path p s) eqn:E; [|done]; split; [done|]; right; by apply is_dir_leads).
  all: apply wp_bind, wp_attempt; eapply wp_mono; [by apply create_dir_adds|]; intros [[]|e] s [Hs Hk]; cbn [wp_then];
    [by apply wp_ret; auto|]; destruct (decide (kind e = NotFound)); [|by apply Hdir].
  - by apply wp_throw.
  - destruct (parent p) as [q|] eqn:Hq; [|by apply wp_throw]. apply wp_bind.
    assert (Hqp : q `prefix_of` path).
    { etrans; [|exact Hp]. unfold parent in Hq. destruct p as [|c p _] using rev_ind; [done|]. rewrite last_snoc, take_snoc in Hq.
      destruct c; simplify_eq; by apply prefix_app_r. }
    eapply wp_mono; [by apply IH|]. intros [[]|e'] s' [Hs' _]; cbn [wp_then]; [|done].
    apply wp_bind, wp_attempt. eapply wp_mono; [by apply create_dir_adds|]. intros [[]|e'] s2 [Hs2 Hk2]; cbn [wp_then];
      [by apply wp_ret; auto|by apply Hdir].
Qed.

Lemma create_dir_existing fs p d : (forall i n e, fault i = Some (n, e) -> kind e <> NotFound) -> leads_to fs p d ->
  exists e, create_dir fault p fs = Some (Err e, tick fs) /\ kind e <> NotFound.
Proof.
  intros fault_kind Hl. unfold create_dir, at_entry, faulty. destruct (fault (calls fs)) as [[n e]|] eqn:Hf.
  { exists e. split; [done|]. by apply (fault_kind _ _ _ Hf). }
  rewrite entry_tick. destruct Hl as (Hp & Hw & Hd). unfold entry. destruct p as [|c p _] using rev_ind; [done|].
  rewrite last_snoc, take_snoc.
  assert (Hres : resolve fs (p ++ [c]) = Ok d) by (unfold resolve; by rewrite decide_False by by destruct p).
  destruct c as [| | |n]; rewrite ?Hres; cbn [result_bind]; try (rewrite (node_at_nodes fs), Hd by done; by eexists).
  destruct (walk_app _ _ _ _ _ _ Hw) as (d' & l' & -> & Hl'). cbn [result_bind].
  destruct (node_at fs d') as [[]|]; [|by eexists..]. cbn [result_bind].
  rewrite (node_at_nodes fs), node_at_snoc by done. rewrite walk_normal in Hl'.
  destruct (nodes fs !! (d' ++ [n])); [by eexists|done].
Qed.

Lemma create_dir_all_existing fs p d : (forall i n e, fault i = Some (n, e) -> kind e <> NotFound) -> leads_to fs p d ->
  create_dir_all fault p fs = Some (Ok tt, tick fs).
Proof.
  intros fault_kind Hl. destruct (create_dir_existing fs p d fault_kind Hl) as (e & He & Hk). pose proof Hl as (Hp & Hw & Hd).
  unfold create_dir_all. destruct p as [|c p]; [done|]. cbn [length create_dir_all_loop].
  rewrite decide_False by done. unfold attempt, bind. rewrite He. rewrite decide_False by done.
  unfold is_dir_path, look, resolve. cbn [cwd tick]. rewrite walk_tick, decide_False by done. rewrite Hw. cbn [result_bind].
  by rewrite (node_at_nodes fs), Hd.
Qed.

(** *** The temporary file *)

Lemma digits_plain n : 0 <= n -> Forall (fun c => c <> 47) (u64_to_string n).
Proof.
  intros Hn. unfold u64_to_string. enough (H : Forall (fun c => 48 <= c <= 57) (dec_digits 20 n)).
  - eapply Forall_impl; [exact H|]. intros c Hc. cbn in Hc. lia.
  - by apply dec_digits_range.
Qed.

Lemma temporary_plain n seq : 0 <= seq -> Forall (fun c => c <> 47) n -> n <> [] -> plain_name (temporary_name process_id n seq).
Proof.
  intros Hseq Hn Hne. destruct n as [|x n]; [done|]. unfold temporary_name. split_and!; [done|done| |].
  - intros H. apply (f_equal length) in H. rewrite !length_app in H. cbn in H. lia.
  - repeat (apply Forall_app; split); try (by apply digits_plain); try done; repeat constructor; discriminate.
Qed.
Lemma temporary_other n seq : temporary_name process_id n seq <> n.
Proof. intros H. apply (f_equal length) in H. unfold temporary_name in H. rewrite !length_app in H. cbn in H. lia. Qed.

Lemma push_leads fs p d t : leads_to fs p d -> plain_name t -> push p t = p ++ [Normal t].
Proof.
  intros (Hp & _) Ht. unfold push. rewrite (parse_plain t Ht). by rewrite decide_False.
Qed.

(** A new file [i] beside the destination. *)
Definition with_temporary (fs : FileSystem) (q : place) (content : list Z) (c : nat) (log : list Synced) : FileSystem :=
  mkFs (<[q := File (next_ino fs)]> (nodes fs)) (<[next_ino fs := content]> (inodes fs)) (S (next_ino fs)) (cwd fs) c log.

Lemma try_temporary_ok n p d : Forall (fun c => c <> 47) n -> n <> [] -> forall attempts fs seq, 0 <= seq -> leads_to fs p d ->
  wp (try_temporary fault process_id attempts p n)
    (fun r s => match r with
                | Ok (path, file) => exists k c, let t := temporary_name process_id n k in
                    path = p ++ [Normal t] /\ nodes fs !! (d ++ [t]) = None /\ (calls fs <= c)%nat
                    /\ file = mkOpen (Some (next_ino fs)) 0 [] /\ s.1 = with_temporary fs (d ++ [t]) [] c (synced fs)
                | Err _ => exists c, s.1 = at_calls c fs
                end) (fs, seq).
Proof.
  intros Hn Hne. induction attempts as [|attempts IH]; intros fs seq Hseq Hl; cbn [try_temporary].
  { apply wp_throw. exists (calls fs). by destruct fs. }
  apply wp_bind. unfold wp, fetch_add. cbn [wp_then fst snd]. set (t := temporary_name process_id n seq).
  pose proof (temporary_plain n seq Hseq Hn Hne) as Ht. fold t in Ht.
  assert (Hagain : forall seq', 0 <= seq' -> wp (try_temporary fault process_id attempts p n)
    (fun r s => match r with
                | Ok (path, file) => exists k c, let t := temporary_name process_id n k in
                    path = p ++ [Normal t] /\ nodes fs !! (d ++ [t]) = None /\ (calls fs <= c)%nat
                    /\ file = mkOpen (Some (next_ino fs)) 0 [] /\ s.1 = with_temporary fs (d ++ [t]) [] c (synced fs)
                | Err _ => exists c, s.1 = at_calls c fs
                end) (tick fs, seq')).
  { intros seq' Hs'. eapply wp_mono; [apply (IH (tick fs)); [done|by apply (leads_nodes fs)]|].
    intros [[path file]|e] [fs' seq2] H; [|done]. destruct H as (k & c & ? & ? & Hc & ? & ?). cbn in Hc.
    exists k, c. split_and!; [done|done|lia|done|done]. }
  rewrite (push_leads fs p d t Hl Ht). apply wp_bind, wp_attempt, wp_on_fst. unfold wp, open_new, faulty.
  destruct (fault (calls fs)) as [[m e]|] eqn:Hf.
  - cbn [wp_then]. destruct (decide (kind e = AlreadyThere)); [apply Hagain, Z.mod_pos_bound; lia|].
    apply wp_throw. by exists (S (calls fs)).
  - rewrite entry_tick, (entry_leads fs p d t Hl), node_at_snoc. cbn [nodes tick].
    destruct (nodes fs !! (d ++ [t])) eqn:Hq.
    + cbn [wp_then]. rewrite decide_True by done. apply Hagain, Z.mod_pos_bound; lia.
    + cbn [wp_then]. apply wp_ret. exists seq, (S (calls fs)). split_and!; [done|done|lia|done|done].
Qed.

(** *** Writing and replacing *)

(** The destination holds the new contents and the temporary file is gone. *)
Definition replaced (fs : FileSystem) (k : place) (contents : list Z) (c : nat) (log : list Synced) : FileSystem :=
  with_temporary fs k contents c log.

(** A call with a number in this range failed. *)
Definition failed_between (a b : nat) : Prop := exists j m e, (a <= j < b)%nat /\ fault j = Some (m, e).

Section Replace.
Context (fs : FileSystem) (path : PathBuf) (d : place) (n t : name) (contents : list Z).
Abbreviation p := (parent_directory path).
Context (named : file_name path = Some n) (lead : leads_to fs p d) (fresh : nodes fs !! (d ++ [t]) = None) (other : t <> n).

Abbreviation file := (mkOpen (Some (next_ino fs)) 0 []).
Abbreviation q := (d ++ [t]).
Abbreviation k := (d ++ [n]).

Lemma leads_temporary content c log : leads_to (with_temporary fs q content c log) p d.
Proof. apply (leads_nodes (set_nodes (<[q := File (next_ino fs)]> (nodes fs)) fs)); [done|done|]. by apply leads_insert. Qed.

Lemma write_all_temporary data c log :
  wp (write_all fault file data)
    (fun r s => exists f res content, r = Ok (f, res) /\ s = with_temporary fs q content (S c) log /\ f_node f = Some (next_ino fs)
       /\ match res with Ok _ => content = data | Err e => exists m, fault c = Some (m, e) end) (with_temporary fs q [] c log).
Proof.
  assert (Hput : forall dd, alter (store_at 0 dd) (next_ino fs) (<[next_ino fs := []]> (inodes fs)) = <[next_ino fs := dd]> (inodes fs)).
  { intros dd. rewrite alter_insert, decide_True by done. f_equal. unfold store_at, ztake, zdrop. cbn.
    by rewrite drop_nil, app_nil_r. }
  unfold wp, write_all. cbn [f_node f_pos with_temporary calls inodes].
  destruct (fault c) as [[m e]|]; eexists _, _, _; (split; [reflexivity|]); (split; [|]).
  1,3: unfold set_inodes, with_temporary; cbn; by rewrite Hput.
  all: split; [done|by eauto].
Qed.

Lemma sync_temporary f content c log : f_node f = Some (next_ino fs) ->
  wp (sync_all fault f)
    (fun r s => match r with
                | Ok _ => s = with_temporary fs q content (S c) (log ++ [SyncedFile (next_ino fs) content])
                | Err e => s = with_temporary fs q content (S c) log /\ exists m, fault c = Some (m, e)
                end) (with_temporary fs q content c log).
Proof.
  intros Hf. unfold wp, sync_all, faulty. cbn [calls with_temporary]. destruct (fault c) as [[m e]|]; [by eauto|].
  unfold to_sync. rewrite Hf. cbn. by rewrite lookup_insert, decide_True.
Qed.

Lemma rename_temporary content c log :
  wp (rename fault (p ++ [Normal t]) path)
    (fun r s => match r with
                | Ok _ => s = replaced fs k content (S c) log
                | Err e => s = with_temporary fs q content (S c) log
                           /\ ((exists m, fault c = Some (m, e)) \/ nodes fs !! k = Some Dir)
                end) (with_temporary fs q content c log).
Proof.
  set (fs2 := with_temporary fs q content c log). pose proof (leads_temporary content c log) as Hl. fold fs2 in Hl.
  unfold wp, rename, at_entry, faulty. destruct (fault (calls fs2)) as [[m e]|] eqn:Hf; [by eauto|].
  rewrite entry_tick, (entry_leads _ _ _ _ Hl). cbn [result_bind]. rewrite entry_tick, (entry_path _ _ _ _ Hl named).
  cbn [result_bind]. rewrite !node_at_snoc. cbn [nodes tick]. assert (Hqk : q <> k).
  { intros Hqk. apply app_inj_tail in Hqk as [_ Hqk]. done. }
  assert (Hq : nodes fs2 !! q = Some (File (next_ino fs))) by (subst fs2; cbn; by rewrite lookup_insert, decide_True).
  assert (Hk : nodes fs2 !! k = nodes fs !! k) by (subst fs2; cbn; by rewrite lookup_insert_ne).
  rewrite Hq. rewrite decide_False by done.
  assert (Hdel : <[k := File (next_ino fs)]> (delete q (nodes fs2)) = <[k := File (next_ino fs)]> (nodes fs)).
  { subst fs2. cbn. by rewrite delete_insert_eq, delete_id. }
  rewrite Hk. destruct (nodes fs !! k) as [[| |]|]; [by split; [|right]|..]; unfold set_nodes; cbn [nodes tick inodes next_ino cwd calls synced];
    rewrite Hdel; done.
Qed.

(** Syncing the directory after the replacement. *)
Lemma sync_directory_replaced c log :
  wp (sync_directory fault p)
    (fun r s => match r with
                | Ok _ => exists what, s = replaced fs k contents (S c) (log ++ [what]) /\ (leads_to s p d -> what = SyncedDir d)
                | Err e => exists c', s = replaced fs k contents c' log
                           /\ (c' = S c /\ (exists m, fault c = Some (m, e)) \/ ~ leads_to s p d)
                end) (replaced fs k contents c log).
Proof.
  set (fs2 := replaced fs k contents c log). unfold sync_directory. apply wp_bind. unfold wp at 1, open_read.
  destruct (let? k := resolve fs2 p in _) as [f|e] eqn:Hopen; cbn [wp_then].
  - unfold wp, sync_all, faulty. cbn [calls fs2 replaced with_temporary]. destruct (fault c) as [[m e]|].
    + exists (S c). by eauto.
    + exists (to_sync (tick fs2) f). split; [done|]. intros (Hp & Hw & Hd). unfold resolve in Hopen.
      rewrite decide_False in Hopen by done. rewrite (walk_nodes _ fs2) in Hw by done. change (cwd _) with (cwd fs2) in Hw.
      rewrite Hw in Hopen. cbn [result_bind] in Hopen. rewrite (node_at_nodes fs2) in Hd by done. rewrite Hd in Hopen. by simplify_eq.
  - exists c. split; [done|]. right. intros (Hp & Hw & Hd). unfold resolve in Hopen. rewrite decide_False, Hw in Hopen by done.
    cbn [result_bind] in Hopen. by rewrite Hd in Hopen.
Qed.

(** The file's contents are synced before it replaces the destination. *)
Definition write_result (a : nat) (r : result io_error unit) (s : FileSystem) : Prop :=
  let log := synced fs ++ [SyncedFile (next_ino fs) contents] in
  match r with
  | Ok _ => exists c what, s = replaced fs k contents c (log ++ [what]) /\ (leads_to s p d -> what = SyncedDir d)
  | Err e => (exists content c l, s = with_temporary fs q content c l /\ (failed_between a c \/ nodes fs !! k = Some Dir))
             \/ exists c, s = replaced fs k contents c log
                /\ ((exists j m, c = S j /\ fault j = Some (m, e)) \/ ~ leads_to s p d)
  end.

Lemma write_and_replace_ok c :
  wp (write_and_replace fault (p ++ [Normal t]) path p file contents (ret tt)) (write_result c)
    (with_temporary fs q [] c (synced fs)).
Proof.
  assert (Hfail : forall e content c' l, failed_between c c' -> write_result c (Err e) (with_temporary fs q content c' l)).
  { intros e content c' l Hf. left. eexists _, _, _. by split; [|left]. }
  unfold write_and_replace. apply wp_bind. eapply wp_mono; [apply write_all_temporary|].
  intros r s (f & res & content & -> & -> & Hf & Hc). cbn [wp_then]. apply wp_bind, wp_lift. cbn [snd fst].
  destruct res as [[]|e]; cbn [wp_then]; [|destruct Hc as [m Hc]; apply Hfail; exists c, m, e; by split; [lia|]].
  rewrite Hc. clear Hc. apply wp_bind. eapply wp_mono; [by apply sync_temporary|].
  intros [[]|e] s Hs; cbn [wp_then]; [subst s|destruct Hs as [-> [m Hm]]; apply Hfail; exists (S c), m, e; by split; [lia|]].
  apply wp_bind, wp_ret. cbn [wp_then]. unfold replace_and_sync_parent. apply wp_bind. eapply wp_mono; [apply rename_temporary|].
  intros [[]|e] s Hs; cbn [wp_then].
  2: { destruct Hs as [-> [[m Hm]|Hd]]; [apply Hfail; exists (S (S c)), m, e; by split; [lia|]|].
       left. eexists _, _, _. by split; [|right]. }
  subst s. eapply wp_mono; [apply sync_directory_replaced|]. intros [[]|e] s Hs.
  - destruct Hs as (what & -> & Hwhat). by eexists _, what.
  - destruct Hs as (c' & -> & Hwhy). right. exists c'. split; [done|]. destruct Hwhy as [[-> [m Hm]]|?]; [left; by eauto|by right].
Qed.

(** Removing the temporary file. *)
Lemma remove_temporary content c l :
  wp (remove_file fault (p ++ [Normal t]))
    (fun _ s => (nodes s = nodes fs
                 \/ nodes s = <[q := File (next_ino fs)]> (nodes fs) /\ calls s = S c /\ exists m e, fault c = Some (m, e))
                /\ inodes s = <[next_ino fs := content]> (inodes fs) /\ next_ino s = S (next_ino fs) /\ cwd s = cwd fs)
    (with_temporary fs q content c l).
Proof.
  set (fs2 := with_temporary fs q content c l). pose proof (leads_temporary content c l) as Hl. fold fs2 in Hl.
  unfold wp, remove_file, at_entry, faulty. destruct (fault (calls fs2)) as [[m e]|] eqn:Hf; [split; [right; split_and!; [done|done|by eauto]|done]|].
  rewrite entry_tick, (entry_leads _ _ _ _ Hl). cbn [result_bind]. rewrite !node_at_snoc. cbn [nodes tick].
  assert (Hq : nodes fs2 !! q = Some (File (next_ino fs))) by (subst fs2; cbn; by rewrite lookup_insert, decide_True).
  rewrite Hq. split; [left|done]. subst fs2. cbn. by rewrite delete_insert_eq, delete_id.
Qed.
(** After the replacement there is nothing to remove. *)
Lemma remove_replaced c l :
  wp (remove_file fault (p ++ [Normal t])) (fun _ s => s = replaced fs k contents (S c) l) (replaced fs k contents c l).
Proof.
  set (fs2 := replaced fs k contents c l).
  unfold wp, remove_file, at_entry, faulty. destruct (fault (calls fs2)) as [[m e]|]; [done|].
  rewrite entry_tick. unfold entry. rewrite last_snoc, take_snoc. change (cwd fs2) with (cwd fs).
  destruct lead as (Hp & Hw & Hd). destruct (walk_file _ fs k (next_ino fs) fs2 eq_refl p _ _ Hw) as [->|[->|[e ->]]];
    cbn [result_bind]; [| |done].
  - destruct (node_at fs2 d) as [[]|]; cbn [result_bind]; [|done..].
    rewrite (node_at_nodes fs2), node_at_snoc by done.
    replace (nodes fs2 !! q) with (@None Node); [done|]. subst fs2. cbn.
    rewrite lookup_insert_ne; [done|]. intros Hqk. by apply app_inj_tail in Hqk as [_ ->].
  - rewrite node_at_snoc. subst fs2. cbn. by rewrite lookup_insert, decide_True by done.
Qed.
End Replace.

(** What a write to the file [n] in the directory [d], the parent of [path], may
    leave behind. *)
Definition write_outcome (path : PathBuf) (fs : FileSystem) (d : place) (n : name) (contents : list Z) (r : result io_error unit)
    (fs' : FileSystem) : Prop :=
  let k := d ++ [n] in
  let i := next_ino fs in
  let temporary seq := d ++ [temporary_name process_id n seq] in
  (forall j c, inodes fs !! j = Some c -> inodes fs' !! j = Some c)
  /\ cwd fs' = cwd fs /\ (forall j c, inodes fs' !! j = Some c -> (j < next_ino fs')%nat)
  /\ match r with
     | Ok _ =>
         nodes fs' = <[k := File i]> (nodes fs) /\ inodes fs' !! i = Some contents
         /\ exists what, synced fs' = synced fs ++ [SyncedFile i contents; what]
              /\ (leads_to fs' (parent_directory path) d -> what = SyncedDir d)
     | Err e =>
         nodes fs' = nodes fs
         \/ (exists seq j m e', nodes fs !! temporary seq = None /\ nodes fs' = <[temporary seq := File i]> (nodes fs)
              /\ calls fs' = S j /\ fault j = Some (m, e') /\ (failed_between (calls fs) j \/ nodes fs !! k = Some Dir))
         \/ nodes fs' = <[k := File i]> (nodes fs) /\ inodes fs' !! i = Some contents
            /\ synced fs' = synced fs ++ [SyncedFile i contents]
            /\ ((exists j m, calls fs' = S (S j) /\ fault j = Some (m, e)) \/ ~ leads_to fs' (parent_directory path) d)
     end.

(** From the existing directory on. *)
Lemma write_outcome_in path d n contents fs seq :
  (forall i c, inodes fs !! i = Some c -> (i < next_ino fs)%nat) ->
  leads_to fs (parent_directory path) d -> file_name path = Some n -> Forall (fun c => c <> 47) n -> n <> [] -> 0 <= seq ->
  wp (let* temporary := create_temporary_file fault process_id path in
      let* r := attempt (on_fst (write_and_replace fault temporary.1 path (parent_directory path) temporary.2 contents (ret tt))) in
      match r with
      | Ok _ => ret tt
      | Err e => do* attempt (on_fst (remove_file fault temporary.1)) in throw e
      end)
    (fun r s => write_outcome path fs d n contents r s.1) (fs, seq).
Proof.
  intros Hwf Hl Hn Hplain Hne Hseq.
  assert (Hfresh : forall dd i c, inodes fs !! i = Some c -> <[next_ino fs := dd]> (inodes fs) !! i = Some c).
  { intros dd i c Hi. rewrite lookup_insert_ne; [done|]. apply Hwf in Hi. lia. }
  assert (Hbound : forall dd i c, <[next_ino fs := dd]> (inodes fs) !! i = Some c -> (i < S (next_ino fs))%nat).
  { intros dd i c. rewrite lookup_insert_Some. intros [[<- _]|[_ Hi]]; [lia|]. apply Hwf in Hi. lia. }
  assert (Hnew : <[next_ino fs := contents]> (inodes fs) !! next_ino fs = Some contents) by by rewrite lookup_insert, decide_True.
  apply wp_bind. unfold create_temporary_file. rewrite Hn.
  eapply wp_mono; [by apply (try_temporary_ok n _ d Hplain Hne)|]. intros [[tp f]|e] [fs1 seq1]; cbn [wp_then fst snd].
  2: { intros [c ->]. split_and!; [done|done|exact Hwf|by left]. }
  intros (m & c & -> & Hq & Hc & -> & ->). set (t := temporary_name process_id n m) in *.
  apply wp_bind, wp_attempt, wp_on_fst.
  pose proof (temporary_other n m) as Hother. fold t in Hother.
  eapply wp_mono; [by apply (write_and_replace_ok fs path d n t contents Hn Hl Hq Hother)|].
  intros [[]|e] s Hs; cbn [wp_then].
  - destruct Hs as (c' & what & -> & Hwhat). apply wp_ret. split; [by apply Hfresh|]. split; [done|]. split; [by apply Hbound|].
    split_and!; [done|done|]. exists what. split; [by cbn; rewrite <-app_assoc|done].
  - apply wp_bind, wp_attempt, wp_on_fst. destruct Hs as [(content & c' & l & -> & Hwhy)|(c' & -> & Hwhy)].
    + eapply wp_mono; [by apply (remove_temporary fs path d t)|]. intros r s (Hnodes & Hin & Hnext & Hcwd).
      cbn [wp_then]. apply wp_throw. cbn [fst]. split_and!; [rewrite Hin; by apply Hfresh|done|rewrite Hin, Hnext; by apply Hbound|].
      destruct Hnodes as [Hnodes|(Hnodes & Hcalls & m' & e' & Hf)]; [by left|]. right. left. exists m, c', m', e'. split_and!; [done..|].
      destruct Hwhy as [(j & m2 & e2 & Hj & Hf2)|Hd]; [left; exists j, m2, e2; split; [lia|done]|by right].
    + eapply wp_mono; [by apply (remove_replaced fs path d n t)|]. intros r s ->. cbn [wp_then]. apply wp_throw.
      cbn [fst]. split; [by apply Hfresh|]. split; [done|]. split; [by apply Hbound|]. right. right. split_and!; [done|done|done|].
      destruct Hwhy as [(j & m' & -> & Hf)|Hw]; [left; by exists j, m'|right]. intros Hl'. apply Hw. by eapply leads_nodes; [..|exact Hl'].
Qed.

(** The whole write where the directory exists: nothing is added for it. *)
Lemma write_outcome_ok path d n contents fs seq :
  (forall i m e, fault i = Some (m, e) -> kind e <> NotFound) ->
  (forall i c, inodes fs !! i = Some c -> (i < next_ino fs)%nat) ->
  leads_to fs (parent_directory path) d -> file_name path = Some n -> Forall (fun c => c <> 47) n -> n <> [] -> 0 <= seq ->
  wp (durable_write_with_before_replace fault process_id path contents (ret tt))
    (fun r s => write_outcome path (tick fs) d n contents r s.1) (fs, seq).
Proof.
  intros Hk Hwf Hl Hn Hplain Hne Hseq. unfold durable_write_with_before_replace.
  apply wp_bind, wp_on_fst. unfold wp at 1. rewrite (create_dir_all_existing fs _ d Hk Hl). cbn [wp_then].
  apply write_outcome_in; [done|by apply (leads_nodes fs)|done..].
Qed.

(** What the whole write may leave behind: the directories made for it, and
    then either nothing else or the outcome of the write in them. *)
Definition durable_outcome (path : PathBuf) (n : name) (contents : list Z) (fs : FileSystem) (r : result io_error unit)
    (fs' : FileSystem) : Prop :=
  let parent := parent_directory path in
  exists fs1, adds_dirs parent fs fs1
    /\ ((exists d, leads_to fs parent d) -> (forall i m e, fault i = Some (m, e) -> kind e <> NotFound) -> nodes fs1 = nodes fs)
    /\ ((exists e, r = Err e) /\ fs' = fs1 \/ exists d, leads_to fs1 parent d /\ write_outcome path fs1 d n contents r fs').

Lemma durable_outcome_ok path n contents fs seq :
  (forall i c, inodes fs !! i = Some c -> (i < next_ino fs)%nat) ->
  file_name path = Some n -> Forall (fun c => c <> 47) n -> n <> [] -> 0 <= seq ->
  wp (durable_write fault process_id path contents) (fun r s => durable_outcome path n contents fs r s.1) (fs, seq).
Proof.
  intros Hwf Hn Hplain Hne Hseq. unfold durable_write, durable_write_with_before_replace. apply wp_bind, wp_on_fst.
  pose proof (create_dir_all_adds (parent_directory path) fs (length (parent_directory path)) (parent_directory path) fs) as Hc.
  assert (Hsame : (exists d, leads_to fs (parent_directory path) d) -> (forall i m e, fault i = Some (m, e) -> kind e <> NotFound) ->
    forall r fs1, create_dir_all fault (parent_directory path) fs = Some (r, fs1) -> nodes fs1 = nodes fs).
  { intros [d Hd] Hk r fs1. rewrite (create_dir_all_existing fs _ d Hk Hd). by intros [= <- <-]. }
  unfold wp at 1 in Hc. unfold create_dir_all in Hsame |- *. unfold wp at 1.
  destruct (create_dir_all_loop _ _ _ _) as [[r fs1]|]; [|by apply Hc; [apply adds_dirs_refl|]].
  destruct Hc as [Ha Hr]; [by apply adds_dirs_refl|done|].
  destruct r as [[]|e]; cbn [wp_then].
  2: { exists fs1. split_and!; [done|intros Hd Hk; by eapply Hsame|]. left. by eauto. }
  destruct Hr as [Hp|[d Hd]].
  { exfalso. unfold parent_directory in Hp. destruct (parent path); [|done]. by case_decide. }
  eapply wp_mono; [apply (write_outcome_in path d n contents fs1); [|done..]; by rewrite (ad_inodes _ _ _ Ha), (ad_next _ _ _ Ha)|].
  intros r [fs' seq'] Hw. exists fs1. split_and!; [done|intros Hd' Hk; by eapply Hsame|]. right. by exists d.
Qed.
End Proofs.

(** ** Properties *)

(** C15: saving under a path that ends in a name is atomic whatever calls fail,
    for whatever reason, hence also when the program stops in between (inodes
    that are made are new, counters are not negative).  First the missing parent directories
    are made: nothing is made where the parent exists (and no call fails for want
    of a file), what is made are directories to which prefixes of the parent's
    path lead, and if this fails nothing else happens.  Then every file that
    existed keeps its contents, and: on success the destination is a new file
    with exactly the new contents, no other entry has changed, and both the file
    with these contents and (unless the new file itself is part of the parent's
    path) the directory were synced, in this order.  After a failure, either no
    entry has changed; or one temporary file is left, and then the clean-up, the
    last call, failed too, after an earlier call failed or the destination was
    found to be a directory; or the destination has its new contents, synced, and
    the error is that of syncing the directory (or the parent's path no longer
    leads to it). *)
Theorem durable_write_atomic (fault : nat -> option (Z * io_error)) (process_id seq : Z) (path : PathBuf)
    (n : name) (contents : list Z) (fs : FileSystem) :
  0 <= process_id -> 0 <= seq ->
  (forall i c, inodes fs !! i = Some c -> (i < next_ino fs)%nat) ->
  file_name path = Some n -> n <> [] -> Forall (fun c => c <> 47) n ->
  exists r fs' seq', durable_write fault process_id path contents (fs, seq) = Some (r, (fs', seq'))
    /\ durable_outcome fault process_id path n contents fs r fs'.
Proof.
  intros Hpid Hseq Hwf Hn Hne Hplain.
  pose proof (durable_outcome_ok fault process_id Hpid path n contents fs seq Hwf Hn Hplain Hne Hseq) as Hw.
  apply wp_run in Hw as (r & [fs' seq'] & Hrun & Hw). by exists r, fs', seq'.
Qed.

(** /etc/app holds "old"; its directory is reached through a link. *)
Definition sample_fs : FileSystem :=
  mkFs (list_to_map [([lit "etc"], Dir); ([lit "etc"; lit "app"], File 0); ([lit "conf"], Symlink (abs [lit "etc"]))])
    {[0%nat := lit "old"]} 1 [] 0 [].
Definition sample_path : PathBuf := parse_path (lit "/conf/app").
Definition fail_at (n : nat) : nat -> option (Z * io_error) :=
  fun i => if Nat.eqb i n then Some (1, mkIo OtherKind (lit "No space left on device (os error 28)")) else None.
Definition content_of (fs : FileSystem) (p : PathBuf) : option (list Z) :=
  match resolve fs p with
  | Ok k => match node_at fs k with Some (File i) => inodes fs !! i | _ => None end
  | Err _ => None
  end.

(** Each call in turn fails: mkdir, open, write, sync, rename, sync of the
    directory.  Whether the write succeeded, what the file holds, and how many
    entries there are. *)
Example durable_write_sweep :
  map (fun n => match durable_write (fail_at n) 7 sample_path (lit "new") (sample_fs, 0) with
                | Some (r, (fs, _)) => (match r with Ok _ => true | Err _ => false end, content_of fs sample_path, size (nodes fs))
                | None => (false, None, 0%nat)
                end) (seq 0 7)
  = [(true, Some (lit "new"), 3%nat); (false, Some (lit "old"), 3%nat); (false, Some (lit "old"), 3%nat);
     (false, Some (lit "old"), 3%nat); (false, Some (lit "old"), 3%nat); (false, Some (lit "new"), 3%nat);
     (true, Some (lit "new"), 3%nat)].
Proof. vm_compute. reflexivity. Qed.

(** A directory that is missing is made, once the first attempt to make it has
    shown that its parent is missing too. *)
Example durable_write_nested :
  match durable_write (fun _ => None) 7 (parse_path (lit "/conf/a/b/app")) (lit "new") (sample_fs, 0) with
  | Some (Ok _, (fs, _)) => (content_of fs (parse_path (lit "/etc/a/b/app")), size (nodes fs), synced fs)
  | _ => (None, 0%nat, [])
  end = (Some (lit "new"), 6%nat, [SyncedFile 1 (lit "new"); SyncedDir [lit "etc"; lit "a"; lit "b"]]).
Proof. vm_compute. reflexivity. Qed.

Lemma durable_write_atomic_witness : exists r fs' seq',
  durable_write (fail_at 3) 7 (parse_path (lit "/conf/a/app")) (lit "new") (sample_fs, 0) = Some (r, (fs', seq'))
  /\ durable_outcome (fail_at 3) 7 (parse_path (lit "/conf/a/app")) (lit "app") (lit "new") sample_fs r fs'.
Proof.
  apply durable_write_atomic.
  - lia.
  - lia.
  - intros i c Hi. change (inodes sample_fs) with ({[0%nat := lit "old"]} : gmap nat (list Z)) in Hi.
    apply lookup_singleton_Some in Hi as [<- _]. cbn. lia.
  - reflexivity.
  - discriminate.
  - repeat constructor; discriminate.
Defined.
