(* ===== verification/TextOps.v ===== *)
(** * Strings, continued

    The functions of [str] that the known_hosts file and the X11 authority
    sources use beside those of [Text]: trimming, splitting at a character or a
    text, numbers of sixteen bits; with the lemmas by which words, fields and
    lines are put together and taken apart again. *)
From S2P Require Import Prelude Text TrzszBuffer FileSystem.
From Stdlib Require Import Ascii String.
From stdpp Require Import prelude numbers list.
Open Scope Z_scope.

(** ** Definitions *)

Definition trim (s : list Z) : list Z := trim_matches is_whitespace s.
Definition trim_end_matches (p : Z -> bool) (s : list Z) : list Z := reverse (trim_start_matches p (reverse s)).
Definition split_char (sep : Z) (s : list Z) : list (list Z) := split_on sep [] s.
Definition starts_with_char (c : Z) (s : list Z) : bool := match s with x :: _ => x =? c | [] => false end.
(** [str::split_once]. *)
Fixpoint split_once (pat s : list Z) : option (list Z * list Z) :=
  if bool_decide (take (length pat) s = pat) then Some ([], drop (length pat) s)
  else match s with
       | [] => None
       | c :: s => match split_once pat s with Some (a, b) => Some (c :: a, b) | None => None end
       end.
(** [str::rsplit_once] and [str::split_once] at a character. *)
Fixpoint rsplit_once (c : Z) (s : list Z) : option (list Z * list Z) :=
  match s with
  | [] => None
  | x :: r => match rsplit_once c r with
              | Some (a, b) => Some (x :: a, b)
              | None => if x =? c then Some ([], r) else None
              end
  end.
Fixpoint split_once_char (c : Z) (s : list Z) : option (list Z * list Z) :=
  match s with
  | [] => None
  | x :: r => if x =? c then Some ([], r)
              else match split_once_char c r with Some (a, b) => Some (x :: a, b) | None => None end
  end.
(** [str::parse::<u16>]. *)
Definition parse_u16 (s : list Z) : option Z :=
  match parse_u64 s with Some n => if n <=? 65535 then Some n else None | None => None end.

(** ** Text lemmas *)

Section TextLemmas.
Implicit Types s w l : list Z.

Definition word_ok w : Prop := w <> [] /\ Forall (fun c => is_whitespace c = false) w.

Lemma ws_aux_snoc s cur c : is_whitespace c = true -> split_whitespace_aux cur (s ++ [c]) = split_whitespace_aux cur s.
Proof.
  intros Hc. revert cur. induction s as [|x s IH]; intros cur; simpl.
  - rewrite Hc. by destruct cur.
  - destruct (is_whitespace x); [destruct cur|]; by rewrite IH.
Qed.
Lemma ws_snoc s c : is_whitespace c = true -> split_whitespace (s ++ [c]) = split_whitespace s.
Proof. apply ws_aux_snoc. Qed.
Lemma ws_trim_start s : split_whitespace (trim_start_matches is_whitespace s) = split_whitespace s.
Proof.
  induction s as [|c s IH]; simpl; [done|]. unfold split_whitespace in *. simpl.
  destruct (is_whitespace c) eqn:E; [done|]. simpl. by rewrite E.
Qed.
Lemma trim_start_snoc p s c : p c = false -> trim_start_matches p (s ++ [c]) = trim_start_matches p s ++ [c].
Proof. intros Hc. induction s as [|x s IH]; simpl; [by rewrite Hc|]. by destruct (p x). Qed.
Lemma ws_trim_end s : split_whitespace (trim_end_matches is_whitespace s) = split_whitespace s.
Proof.
  unfold trim_end_matches. induction s as [|c s IH] using rev_ind; [done|]. rewrite reverse_snoc. simpl.
  destruct (is_whitespace c) eqn:E; [by rewrite ws_snoc|]. by rewrite reverse_cons, reverse_involutive.
Qed.
Lemma ws_trim s : split_whitespace (trim s) = split_whitespace s.
Proof. unfold trim, trim_matches. fold (trim_end_matches is_whitespace (trim_start_matches is_whitespace s)).
  by rewrite ws_trim_end, ws_trim_start. Qed.

Lemma trim_start_head p s c t : trim_start_matches p s = c :: t -> p c = false.
Proof. induction s as [|x s IH]; simpl; [done|]. destruct (p x) eqn:E; [done|]. intros [= -> _]. done. Qed.
Lemma trim_head s : trim s = [] /\ split_whitespace s = []
  \/ exists c t, trim s = c :: t /\ is_whitespace c = false.
Proof.
  unfold trim, trim_matches. destruct (trim_start_matches is_whitespace s) as [|c t] eqn:E.
  - left. split; [done|]. by rewrite <-ws_trim_start, E.
  - right. pose proof (trim_start_head _ _ _ _ E) as Hc. rewrite reverse_cons, trim_start_snoc by done.
    rewrite reverse_snoc. eauto.
Qed.
Lemma trim_start_fixed p c s : p c = false -> trim_start_matches p (c :: s) = c :: s.
Proof. intros Hc. simpl. by rewrite Hc. Qed.
Lemma trim_idem s : trim (trim s) = trim s.
Proof.
  unfold trim, trim_matches. set (u := trim_start_matches is_whitespace s).
  destruct (trim_start_matches is_whitespace (reverse u)) as [|c t] eqn:Ht; [done|].
  pose proof (trim_start_head _ _ _ _ Ht) as Hc. rewrite reverse_cons.
  assert (Hs : trim_start_matches is_whitespace (reverse t ++ [c]) = reverse t ++ [c]).
  { rewrite trim_start_snoc by done. f_equal. subst u. destruct (trim_start_matches is_whitespace s) as [|x u] eqn:Hu; [done|].
    apply trim_start_head in Hu as Hx. rewrite reverse_cons, trim_start_snoc in Ht by done.
    destruct (trim_start_matches is_whitespace (reverse u)) as [|y v] eqn:Hv; cbn in Ht; injection Ht as <- <-; [done|].
    rewrite reverse_snoc. by apply trim_start_fixed. }
  by rewrite Hs, reverse_snoc, reverse_involutive, trim_start_fixed, reverse_cons.
Qed.
Lemma ws_aux_head s cur : cur <> [] -> exists w rest, split_whitespace_aux cur s = (reverse cur ++ w) :: rest.
Proof.
  revert cur. induction s as [|c s IH]; intros cur Hcur; simpl.
  - exists [], []. rewrite app_nil_r. by destruct cur.
  - destruct (is_whitespace c).
    + exists []. eexists. rewrite app_nil_r. by destruct cur.
    + destruct (IH (c :: cur)) as (w & rest & ->); [done|]. rewrite reverse_cons, <-app_assoc. eauto.
Qed.
Lemma ws_head c s : is_whitespace c = false -> exists w rest, split_whitespace (c :: s) = (c :: w) :: rest.
Proof. intros Hc. unfold split_whitespace. simpl. rewrite Hc. by apply (ws_aux_head s [c]). Qed.

Lemma ws_word_app w s cur : Forall (fun c => is_whitespace c = false) w ->
  split_whitespace_aux cur (w ++ s) = split_whitespace_aux (reverse w ++ cur) s.
Proof.
  intros Hw. revert cur. induction Hw as [|c w Hc Hw IH]; intros cur; simpl; [done|].
  rewrite Hc, IH, reverse_cons, <-app_assoc. done.
Qed.
Lemma ws_join ws : Forall word_ok ws -> split_whitespace (FileSystem.join [32] ws) = ws.
Proof.
  unfold split_whitespace. induction 1 as [|w ws [Hne Hw] Hws IH]; [done|]. destruct ws as [|w2 ws]; simpl.
  - rewrite <-(app_nil_r w), ws_word_app by done. simpl. rewrite app_nil_r.
    destruct (reverse w) eqn:E; [apply (f_equal reverse) in E; by rewrite reverse_involutive in E|].
    by rewrite <-E, reverse_involutive, app_nil_r.
  - rewrite ws_word_app by done. simpl. rewrite app_nil_r.
    destruct (reverse w) eqn:E; [apply (f_equal reverse) in E; by rewrite reverse_involutive in E|].
    rewrite <-E, reverse_involutive. f_equal. exact IH.
Qed.
Lemma ws_words s : Forall word_ok (split_whitespace s).
Proof.
  unfold split_whitespace. assert (Hc : Forall (fun c => is_whitespace c = false) (@nil Z)) by constructor.
  revert Hc. generalize (@nil Z). induction s as [|c s IH]; intros cur Hcur; simpl.
  - destruct cur; [done|]. repeat constructor; [|by apply Forall_reverse].
    intros E. by apply (f_equal length) in E; rewrite length_reverse in E.
  - destruct (is_whitespace c) eqn:E; [|by apply IH; constructor].
    destruct cur; [by apply IH|]. constructor; [|by apply IH]. split; [|by apply Forall_reverse].
    intros E'. by apply (f_equal length) in E'; rewrite length_reverse in E'.
Qed.

(** Splitting at a separator. *)
Lemma split_aux_app sep a s cur : Forall (fun c => c <> sep) a -> split_on sep cur (a ++ s) = split_on sep (reverse a ++ cur) s.
Proof.
  intros Ha. revert cur. induction Ha as [|c a Hc Ha IH]; intros cur; simpl; [done|].
  rewrite (proj2 (Z.eqb_neq c sep)), IH, reverse_cons, <-app_assoc by done. done.
Qed.
Lemma split_one sep a : Forall (fun c => c <> sep) a -> split_char sep a = [a].
Proof.
  intros Ha. unfold split_char. rewrite <-(app_nil_r a), split_aux_app by done. simpl. by rewrite app_nil_r, reverse_involutive, app_nil_r.
Qed.
Lemma split_join sep ps : ps <> [] -> Forall (Forall (fun c => c <> sep)) ps -> split_char sep (FileSystem.join [sep] ps) = ps.
Proof.
  unfold split_char. intros Hne Hps. induction Hps as [|p ps Hp Hps IH]; [done|]. destruct ps as [|p2 ps].
  - by apply (split_one sep p).
  - cbn [FileSystem.join]. rewrite split_aux_app by done. simpl. rewrite Z.eqb_refl, app_nil_r, reverse_involutive.
    f_equal. by apply IH.
Qed.
Lemma split_pieces sep s : Forall (Forall (fun c => c <> sep)) (split_char sep s).
Proof.
  unfold split_char. assert (Hc : Forall (fun c => c <> sep) (@nil Z)) by constructor.
  revert Hc. generalize (@nil Z). induction s as [|c s IH]; intros cur Hcur; simpl.
  - repeat constructor. by apply Forall_reverse.
  - destruct (Z.eqb_spec c sep) as [->|Hne]; [|by apply IH; constructor].
    constructor; [by apply Forall_reverse|by apply IH].
Qed.
Lemma split_not_nil sep s : split_char sep s <> [].
Proof. unfold split_char. generalize (@nil Z). induction s as [|c s IH]; intros cur; simpl; [done|]. by destruct (c =? sep). Qed.

(** Lines. *)
Definition chomp l : list Z := strip_cr (reverse l).
Lemma lines_aux_line l s cur : Forall (fun c => c <> 10) l ->
  lines_aux cur (l ++ 10 :: s) = chomp (reverse cur ++ l) :: lines s.
Proof.
  intros Hl. revert cur. induction Hl as [|c l Hc Hl IH]; intros cur; simpl.
  - unfold chomp. by rewrite app_nil_r, reverse_involutive.
  - rewrite (proj2 (Z.eqb_neq c 10)), IH, reverse_cons, <-app_assoc by done. done.
Qed.
Lemma lines_line l s : Forall (fun c => c <> 10) l -> lines (l ++ 10 :: s) = chomp l :: lines s.
Proof. intros Hl. unfold lines at 1. by rewrite lines_aux_line. Qed.
Lemma ws_chomp l : split_whitespace (chomp l) = split_whitespace l.
Proof.
  unfold chomp. destruct l as [|c l _] using rev_ind; [done|]. rewrite reverse_snoc. cbn [strip_cr].
  destruct (Z.eqb_spec c 13) as [->|_]; [by rewrite reverse_involutive, ws_snoc|].
  by rewrite reverse_cons, reverse_involutive.
Qed.
Lemma lines_join ls : ls <> [] -> Forall (Forall (fun c => c <> 10)) ls ->
  lines (FileSystem.join [10] ls ++ [10]) = map chomp ls.
Proof.
  intros Hne Hls. induction Hls as [|l ls Hl Hls IH]; [done|]. destruct ls as [|l2 ls].
  - simpl. by rewrite lines_line.
  - cbn [FileSystem.join map]. rewrite <-app_assoc. cbn [app]. rewrite lines_line by done. f_equal. by apply IH.
Qed.
Lemma lines_aux_pieces (P : Z -> Prop) s : Forall P s -> forall cur, Forall P cur -> Forall (Forall P) (lines_aux cur s).
Proof.
  induction 1 as [|c s Hc Hs IH]; intros cur Hcur; simpl.
  - destruct cur; [done|]. repeat constructor. by apply Forall_reverse.
  - destruct (c =? 10); [|by apply IH; constructor]. constructor; [|by apply IH].
    destruct Hcur as [|x cur Hx Hcur]; [done|]. cbn [strip_cr].
    destruct (x =? 13); apply Forall_reverse; [done|by constructor].
Qed.
Lemma lines_no_nl_aux s : forall cur, Forall (fun c => c <> 10) cur -> Forall (Forall (fun c => c <> 10)) (lines_aux cur s).
Proof.
  induction s as [|c s IH]; intros cur Hcur; simpl.
  - destruct cur; [done|]. repeat constructor. by apply Forall_reverse.
  - destruct (Z.eqb_spec c 10); [|by apply IH; constructor]. constructor; [|by apply IH].
    destruct Hcur as [|x cur Hx Hcur]; [done|]. cbn [strip_cr].
    destruct (x =? 13); apply Forall_reverse; [done|by constructor].
Qed.
Lemma lines_no_nl s : Forall (Forall (fun c => c <> 10)) (lines s).
Proof. by apply lines_no_nl_aux. Qed.
Lemma lines_append s l : (s = [] \/ last s = Some 10) -> lines (s ++ l) = lines s ++ lines l.
Proof.
  intros [->|Hs]; [done|]. destruct s as [|c s _] using rev_ind; [done|]. rewrite last_snoc in Hs. injection Hs as ->.
  enough (H : forall cur, lines_aux cur ((s ++ [10]) ++ l) = lines_aux cur (s ++ [10]) ++ lines_aux [] l) by exact (H []).
  induction s as [|c s IH]; intros cur; simpl; [done|]. destruct (c =? 10); simpl; by rewrite IH.
Qed.
Lemma Forall_joined (P : Z -> Prop) sep ps : Forall P sep -> Forall (Forall P) ps -> Forall P (FileSystem.join sep ps).
Proof.
  intros Hsep. induction 1 as [|p ps Hp Hps IH]; [constructor|]. destruct ps; [done|].
  cbn [FileSystem.join]. repeat (apply Forall_app; split); done.
Qed.
Lemma Forall_split (P : Z -> Prop) sep s : Forall P s -> Forall (Forall P) (split_char sep s).
Proof.
  unfold split_char. assert (Hc : Forall P (@nil Z)) by constructor. revert Hc. generalize (@nil Z).
  intros cur Hcur Hs. revert cur Hcur. induction Hs as [|c s Hc Hs IH]; intros cur Hcur; simpl.
  - repeat constructor. by apply Forall_reverse.
  - destruct (c =? sep); [|by apply IH; constructor]. constructor; [by apply Forall_reverse|by apply IH].
Qed.
Lemma Forall_words (P : Z -> Prop) s : Forall P s -> Forall (Forall P) (split_whitespace s).
Proof.
  unfold split_whitespace. assert (Hc : Forall P (@nil Z)) by constructor. revert Hc. generalize (@nil Z).
  intros cur Hcur Hs. revert cur Hcur. induction Hs as [|c s Hc Hs IH]; intros cur Hcur; simpl.
  - destruct cur; [done|]. repeat constructor. by apply Forall_reverse.
  - destruct (is_whitespace c); [|by apply IH; constructor].
    destruct cur; [by apply IH|]. constructor; [by apply Forall_reverse|by apply IH].
Qed.

Lemma split_once_none pat s x : pat = x :: tail pat -> Forall (fun c => c <> x) s -> split_once pat s = None.
Proof.
  intros -> Hs. induction Hs as [|c s Hc Hs IH]; [done|]. cbn [split_once].
  rewrite bool_decide_eq_false_2; [by rewrite IH|]. intros [= E _]. done.
Qed.
Lemma split_once_found pat a b x : pat = x :: tail pat -> Forall (fun c => c <> x) a -> split_once pat (a ++ pat ++ b) = Some (a, b).
Proof.
  intros Hp Ha. induction Ha as [|c a Hc Ha IH].
  - rewrite Hp. cbn [app split_once]. rewrite <-Hp.
    rewrite bool_decide_eq_true_2; [|by rewrite (app_comm_cons _ _ x), <-Hp, take_app_length].
    by rewrite (app_comm_cons _ _ x), <-Hp, drop_app_length.
  - cbn [app split_once]. rewrite bool_decide_eq_false_2; [by rewrite IH|]. rewrite Hp. cbn. intros [= E _]. done.
Qed.
Lemma trim_start_none p s : Forall (fun c => p c = false) s -> trim_start_matches p s = s.
Proof. by destruct 1 as [|c s Hc _]; simpl; rewrite ?Hc. Qed.
Lemma trim_end_none p s : Forall (fun c => p c = false) s -> trim_end_matches p s = s.
Proof. intros Hs. unfold trim_end_matches. by rewrite trim_start_none, reverse_involutive by by apply Forall_reverse. Qed.
Lemma trim_none s : Forall (fun c => is_whitespace c = false) s -> trim s = s.
Proof. intros Hs. unfold trim, trim_matches. rewrite (trim_start_none _ s) by done. by apply trim_end_none. Qed.
End TextLemmas.
