(* ===== verification/IpAddr.v ===== *)
(** * Internet addresses

    What the sources use of [std::net]: the type [IpAddr], [str::parse] for
    addresses and [Display] for them.  The parser is the recursive-descent one of
    the standard library ([core::net::parser]) over the characters of a string;
    an address is its octets, most significant first.  Printing and parsing are
    inverse ([ip_roundtrip]). *)
From S2P Require Import Prelude Text TrzszBuffer FileSystem TextOps.
From Stdlib Require Import String.
From stdpp Require Import prelude numbers list.
Open Scope Z_scope.

Inductive IpAddr := V4 (octets : list Z) | V6 (octets : list Z).
#[export] Instance IpAddr_eq : EqDecision IpAddr.
Proof. solve_decision. Defined.

Definition ip_ok (a : IpAddr) : Prop :=
  match a with
  | V4 octets => length octets = 4%nat /\ bytes_ok octets
  | V6 octets => length octets = 16%nat /\ bytes_ok octets
  end.

(** ** Parsing *)

(** [char::to_digit]. *)
Definition to_digit (radix c : Z) : option Z :=
  let d := if in_range 48 57 c then c - 48
           else if in_range 97 122 c then c - 87 else if in_range 65 90 c then c - 55 else radix in
  if d <? radix then Some d else None.

Fixpoint read_digits (radix : Z) (max_digits count : nat) (acc : Z) (s : list Z) : option (Z * nat * list Z) :=
  match s with
  | [] => Some (acc, count, [])
  | c :: t =>
      match to_digit radix c with
      | Some d => if (max_digits <? S count)%nat then None else read_digits radix max_digits (S count) (acc * radix + d) t
      | None => Some (acc, count, s)
      end
  end.
Definition read_number (radix : Z) (max_digits : nat) (allow_zero_prefix : bool) (max : Z) (s : list Z) : option (Z * list Z) :=
  match read_digits radix max_digits 0 0 s with
  | Some (n, count, rest) =>
      if (count =? 0)%nat then None
      else if negb allow_zero_prefix && starts_with_char 48 s && (1 <? count)%nat then None
      else if n <=? max then Some (n, rest) else None
  | None => None
  end.
Definition read_separator {A} (sep : Z) (index : nat) (inner : list Z -> option (A * list Z)) (s : list Z) : option (A * list Z) :=
  match index with
  | O => inner s
  | S _ => match s with c :: t => if c =? sep then inner t else None | [] => None end
  end.
Fixpoint read_octets (slots index : nat) (s : list Z) : option (list Z * list Z) :=
  match slots with
  | O => Some ([], s)
  | S slots =>
      match read_separator 46 index (read_number 10 3 false 255) s with
      | Some (o, s) => match read_octets slots (S index) s with Some (os, s) => Some (o :: os, s) | None => None end
      | None => None
      end
  end.
Definition read_ipv4_addr (s : list Z) : option (list Z * list Z) := read_octets 4 0 s.

(** [read_groups]: the groups that were read, and whether the last two are an
    embedded IPv4 address. *)
Definition pair_groups (octets : list Z) : list Z :=
  match octets with [a; b; c; d] => [u16_from_be a b; u16_from_be c d] | _ => [] end.
Fixpoint read_groups (slots index : nat) (s : list Z) : list Z * bool * list Z :=
  match slots with
  | O => ([], false, s)
  | S slots =>
      match (if (slots =? 0)%nat then None else read_separator 58 index read_ipv4_addr s) with
      | Some (octets, rest) => (pair_groups octets, true, rest)
      | None =>
          match read_separator 58 index (read_number 16 4 true 65535) s with
          | Some (g, rest) => let '(gs, v4, rest) := read_groups slots (S index) rest in (g :: gs, v4, rest)
          | None => ([], false, s)
          end
      end
  end.
Definition read_ipv6_addr (s : list Z) : option (list Z * list Z) :=
  let '(head, head_v4, s) := read_groups 8 0 s in
  if (length head =? 8)%nat then Some (head, s)
  else if head_v4 then None
  else match s with
       | 58 :: 58 :: s =>
           let '(tail, _, s) := read_groups (8 - (length head + 1)) 0 s in
           Some (head ++ replicate (8 - length head - length tail) 0 ++ tail, s)
       | _ => None
       end.

Definition octets_of (groups : list Z) : list Z := concat (map u16_to_be groups).
Definition complete {A} (r : option (A * list Z)) : option A :=
  match r with Some (a, []) => Some a | _ => None end.
(** [str::parse::<Ipv6Addr>] and [str::parse::<IpAddr>]. *)
Definition parse_ipv6 (s : list Z) : option IpAddr := V6 ∘ octets_of <$> complete (read_ipv6_addr s).
Definition parse_ip (s : list Z) : option IpAddr :=
  match read_ipv4_addr s with
  | Some r => V4 <$> complete (Some r)
  | None => parse_ipv6 s
  end.

(** ** Printing *)

Definition hex_char (d : Z) : Z := if d <? 10 then 48 + d else 87 + d.
Fixpoint hex_digits (fuel : nat) (n : Z) : list Z :=
  match fuel with
  | O => []
  | S fuel => if n <? 16 then [hex_char n] else hex_digits fuel (n / 16) ++ [hex_char (n mod 16)]
  end.
(** [{:x}] of a [u16]. *)
Definition u16_hex (n : Z) : list Z := hex_digits 4 n.

Definition fmt_v4 (octets : list Z) : list Z := FileSystem.join [46] (map u64_to_string octets).
Definition fmt_subslice (groups : list Z) : list Z := FileSystem.join [58] (map u16_hex groups).
Fixpoint groups_of (octets : list Z) : list Z :=
  match octets with a :: b :: rest => u16_from_be a b :: groups_of rest | _ => [] end.
(** The longest run of zeros: [(start, length)]. *)
Fixpoint zero_span (i : nat) (current longest : nat * nat) (groups : list Z) : nat * nat :=
  match groups with
  | [] => longest
  | g :: groups =>
      if g =? 0 then
        let current := ((if (current.2 =? 0)%nat then i else current.1), S current.2) in
        zero_span (S i) current (if (longest.2 <? current.2)%nat then current else longest) groups
      else zero_span (S i) (0%nat, 0%nat) longest groups
  end.
Definition fmt_v6 (octets : list Z) : list Z :=
  let groups := groups_of octets in
  if bool_decide (take 6 groups = [0; 0; 0; 0; 0; 65535]) then lit "::ffff:" ++ fmt_v4 (drop 12 octets)
  else
    let '(start, len) := zero_span 0 (0%nat, 0%nat) (0%nat, 0%nat) groups in
    if (1 <? len)%nat then fmt_subslice (take start groups) ++ lit "::" ++ fmt_subslice (drop (start + len) groups)
    else fmt_subslice groups.
(** [IpAddr::to_string]. *)
Definition ip_to_string (a : IpAddr) : list Z :=
  match a with V4 octets => fmt_v4 octets | V6 octets => fmt_v6 octets end.

Example parse_v6 : parse_ip (lit "fe80::1:2") = Some (V6 [254; 128; 0; 0; 0; 0; 0; 0; 0; 0; 0; 0; 0; 1; 0; 2]).
Proof. reflexivity. Qed.
Example parse_mapped : parse_ip (lit "::ffff:10.0.0.1") = Some (V6 [0; 0; 0; 0; 0; 0; 0; 0; 0; 0; 255; 255; 10; 0; 0; 1]).
Proof. reflexivity. Qed.
Example print_mapped : ip_to_string (V6 [0; 0; 0; 0; 0; 0; 0; 0; 0; 0; 255; 255; 10; 0; 0; 1]) = lit "::ffff:10.0.0.1".
Proof. reflexivity. Qed.
Example print_v6 : ip_to_string (V6 [254; 128; 0; 0; 0; 1; 0; 0; 0; 0; 0; 0; 0; 1; 0; 2]) = lit "fe80:0:1::1:2".
Proof. reflexivity. Qed.
Example parse_octal_refused : parse_ip (lit "010.0.0.1") = None /\ parse_ip (lit "1.2.3") = None /\ parse_ip (lit "1::2::3") = None.
Proof. repeat split. Qed.

(** ** Round trip *)

(** The text after a number does not go on with a digit. *)
Definition stops (radix : Z) (s : list Z) : Prop := match s with c :: _ => to_digit radix c = None | [] => True end.
Definition digit_value (radix acc c : Z) : Z := acc * radix + default 0 (to_digit radix c).

Lemma read_digits_app radix max ds rest : stops radix rest -> Forall (fun c => is_Some (to_digit radix c)) ds ->
  forall count acc, (count + length ds <= max)%nat ->
  read_digits radix max count acc (ds ++ rest) = Some (fold_left (digit_value radix) ds acc, (count + length ds)%nat, rest).
Proof.
  intros Hr. induction 1 as [|c ds [d Hd] _ IH]; intros count acc Hmax; simpl in *.
  - rewrite Nat.add_0_r. destruct rest as [|c rest]; [done|]. simpl in *. by rewrite Hr.
  - rewrite Hd. case_match eqn:E; [apply Nat.ltb_lt in E; lia|]. rewrite IH by lia.
    unfold digit_value at 3. rewrite Hd. simpl. by replace (S (count + length ds)) with (count + S (length ds))%nat by lia.
Qed.

(** A number as it is printed. *)
Definition prints (radix : Z) (max_digits : nat) (allow : bool) (max n : Z) (ds : list Z) : bool :=
  forallb (fun c => bool_decide (is_Some (to_digit radix c)) && negb (c =? 46) && negb (c =? 58)) ds
  && negb (length ds =? 0)%nat && (length ds <=? max_digits)%nat
  && (allow || negb (starts_with_char 48 ds) || (length ds =? 1)%nat) && (fold_left (digit_value radix) ds 0 =? n) && (n <=? max).
Lemma read_number_app radix max_digits allow max n ds rest :
  prints radix max_digits allow max n ds = true -> stops radix rest ->
  read_number radix max_digits allow max (ds ++ rest) = Some (n, rest).
Proof.
  unfold prints. rewrite !andb_true_iff. intros (((((Hd & Hn) & Hl) & Hz) & Hv) & Hm) Hr. unfold read_number.
  apply Nat.leb_le in Hl. rewrite read_digits_app; [|done| |lia].
  2: { apply Forall_forall. intros c Hc. rewrite forallb_forall in Hd.
       apply list_elem_of_In in Hc. specialize (Hd c Hc). rewrite !andb_true_iff, bool_decide_eq_true in Hd. apply Hd. }
  apply negb_true_iff in Hn. rewrite Nat.add_0_l, Hn. apply Z.eqb_eq in Hv. rewrite Hv, Hm.
  destruct ds as [|c ds]; [done|]. simpl in *. destruct allow; [done|]. simpl in *.
  destruct (c =? 48); [|done]. simpl in *. by destruct ds.
Qed.

Lemma octet_prints n : is_u8 n -> prints 10 3 false 255 n (u64_to_string n) = true.
Proof.
  intros Hn. pose proof (byte_forallb (fun n => prints 10 3 false 255 n (u64_to_string n))) as H.
  apply H; [vm_compute; reflexivity|done].
Qed.
Fixpoint all_from (P : Z -> bool) (k : nat) (n : Z) : bool :=
  match k with O => true | S k => P n && all_from P k (n + 1) end.
Lemma all_from_spec P k n m : all_from P k n = true -> n <= m < n + Z.of_nat k -> P m = true.
Proof.
  revert n. induction k as [|k IH]; intros n H Hm; [lia|]. simpl in H. apply andb_true_iff in H as [H1 H2].
  destruct (decide (m = n)) as [->|]; [done|]. apply (IH (n + 1)); [done|lia].
Qed.
Lemma group_prints n : is_u16 n -> prints 16 4 true 65535 n (u16_hex n) = true.
Proof.
  intros Hn. apply (all_from_spec (fun n => prints 16 4 true 65535 n (u16_hex n)) (Z.to_nat 65536) 0); [vm_compute; reflexivity|].
  unfold in_width in Hn. lia.
Qed.
Lemma prints_chars radix k allow max n ds c : prints radix k allow max n ds = true -> c ∈ ds -> c <> 46 /\ c <> 58.
Proof.
  unfold prints. rewrite !andb_true_iff. intros (((((Hd & _) & _) & _) & _) & _) Hc. rewrite forallb_forall in Hd.
  apply list_elem_of_In in Hc. specialize (Hd c Hc). lia.
Qed.

Lemma stops_sep radix c s : to_digit radix c = None -> stops radix (c :: s).
Proof. done. Qed.

Lemma read_octets_tail os i rest : Forall is_u8 os -> stops 10 rest ->
  read_octets (length os) (S i) (concat (map (fun o => 46 :: u64_to_string o) os) ++ rest) = Some (os, rest).
Proof.
  revert i. induction os as [|o os IH]; intros i Ho Hr; [done|]. inversion Ho; subst. simpl. rewrite <-app_assoc.
  rewrite read_number_app with (n := o); [|by apply octet_prints|by destruct os]. by rewrite IH.
Qed.
Lemma join_cons sep p ps : FileSystem.join sep (p :: ps) = p ++ concat (map (fun q => sep ++ q) ps).
Proof.
  revert p. induction ps as [|q ps IH]; intros p; [simpl; by rewrite app_nil_r|].
  change (p ++ sep ++ FileSystem.join sep (q :: ps) = p ++ (sep ++ q) ++ concat (map (fun q => sep ++ q) ps)).
  by rewrite IH, <-app_assoc.
Qed.
Lemma read_ipv4_app os rest : length os = 4%nat -> bytes_ok os -> stops 10 rest ->
  read_ipv4_addr (fmt_v4 os ++ rest) = Some (os, rest).
Proof.
  intros Hl Ho Hr. destruct os as [|o os]; [done|]. injection Hl as Hl. inversion Ho; subst.
  unfold fmt_v4, read_ipv4_addr. change (map u64_to_string (o :: os)) with (u64_to_string o :: map u64_to_string os).
  rewrite join_cons, map_map, <-app_assoc. replace 4%nat with (S (length os)) by lia. cbn [read_octets read_separator].
  rewrite read_number_app with (n := o); [|by apply octet_prints|by destruct os].
  change (fun x => [46] ++ u64_to_string x) with (fun x => 46 :: u64_to_string x). by rewrite read_octets_tail.
Qed.

(** No IPv4 address starts with digits that something other than a dot follows. *)
Fixpoint skip_digits (radix : Z) (s : list Z) : list Z :=
  match s with c :: t => if to_digit radix c then skip_digits radix t else s | [] => [] end.
Lemma read_digits_rest radix max s : forall count acc n k rest,
  read_digits radix max count acc s = Some (n, k, rest) -> rest = skip_digits radix s.
Proof.
  induction s as [|c s IH]; intros count acc n k rest; simpl; [by intros [= _ _ <-]|].
  destruct (to_digit radix c); [|by intros [= _ _ <-]]. destruct (_ <? _)%nat; [done|]. apply IH.
Qed.
Lemma read_number_rest radix k allow max s n rest : read_number radix k allow max s = Some (n, rest) -> rest = skip_digits radix s.
Proof.
  unfold read_number. destruct (read_digits radix k 0 0 s) as [[[m c] r]|] eqn:E; [|done].
  repeat (case_match; try done). intros [= _ <-]. by eapply read_digits_rest.
Qed.
Lemma read_ipv4_none s : head (skip_digits 10 s) <> Some 46 -> read_ipv4_addr s = None.
Proof.
  intros H. unfold read_ipv4_addr. cbn [read_octets read_separator].
  destruct (read_number 10 3 false 255 s) as [[n rest]|] eqn:E; [|done]. apply read_number_rest in E as ->.
  destruct (skip_digits 10 s) as [|c t]; [done|]. simpl in H. destruct (c =? 46) eqn:Hc; [|done]. apply Z.eqb_eq in Hc. congruence.
Qed.
Lemma skip_digits_app radix ds rest : Forall (fun c => c <> 46) ds -> head (skip_digits radix rest) <> Some 46 ->
  head (skip_digits radix (ds ++ rest)) <> Some 46.
Proof. induction 1 as [|c ds Hc _ IH]; intros Hr; simpl; [done|]. destruct (to_digit radix c); [by apply IH|]. simpl. congruence. Qed.

(** What may follow a list of groups. *)
Definition groups_end (s : list Z) : Prop := s = [] \/ exists t, s = 58 :: 58 :: t.
Definition groups_text (index : nat) (gs : list Z) : list Z :=
  match index with O => fmt_subslice gs | S _ => concat (map (fun g => 58 :: u16_hex g) gs) end.

Lemma groups_text_S i gs : groups_text (S i) gs = concat (map (fun g => 58 :: u16_hex g) gs).
Proof. done. Qed.
Lemma groups_text_0 g gs : groups_text 0 (g :: gs) = u16_hex g ++ groups_text 1 gs.
Proof. unfold groups_text, fmt_subslice. simpl map. by rewrite join_cons, map_map. Qed.
Lemma groups_after gs rest : groups_end rest ->
  groups_text 1 gs ++ rest = [] \/ exists t, groups_text 1 gs ++ rest = 58 :: t.
Proof. intros [->|[t ->]]; destruct gs as [|g gs]; simpl; eauto. Qed.

Lemma ends_sep s i : groups_end s -> forall k allow max, read_separator 58 i (read_number 16 k allow max) s = None.
Proof. intros [->|[t ->]] k allow max; destruct i; reflexivity. Qed.
Lemma ends_sep4 s i : groups_end s -> read_separator 58 i read_ipv4_addr s = None.
Proof. intros [->|[t ->]]; destruct i; reflexivity. Qed.

Lemma read_groups_app gs : forall slots index rest, (length gs <= slots)%nat -> Forall is_u16 gs -> groups_end rest ->
  read_groups slots index (groups_text index gs ++ rest) = (gs, false, rest).
Proof.
  induction gs as [|g gs IH]; intros slots index rest Hl Hg Hr.
  - replace (groups_text index []) with (@nil Z) by (by destruct index). destruct slots as [|slots]; [done|]. simpl app. cbn [read_groups].
    rewrite ends_sep, ends_sep4 by done. by destruct (_ =? _)%nat.
  - inversion Hg; subst. simpl in Hl. destruct slots as [|slots]; [lia|]. cbn [read_groups].
    assert (Htext : exists pre, groups_text index (g :: gs) = pre ++ u16_hex g ++ groups_text 1 gs
        /\ (forall A (inner : list Z -> option (A * list Z)) s, read_separator 58 index inner (pre ++ s) = inner s)).
    { destruct index as [|i]; [exists []; by rewrite groups_text_0|]. exists [58]. by rewrite groups_text_S. }
    destruct Htext as (pre & -> & Hsep). rewrite <-!app_assoc, !Hsep.
    assert (Hnum : prints 16 4 true 65535 g (u16_hex g) = true) by (by apply group_prints).
    assert (Hnone : read_ipv4_addr (u16_hex g ++ groups_text 1 gs ++ rest) = None).
    { apply read_ipv4_none, skip_digits_app.
      - apply Forall_forall. intros c Hc. by apply (prints_chars _ _ _ _ _ _ _ Hnum Hc).
      - destruct (groups_after gs rest Hr) as [->|[t ->]]; done. }
    rewrite Hnone. rewrite read_number_app with (n := g); [|done|destruct (groups_after gs rest Hr) as [->|[t ->]]; done].
    replace (groups_text 1 gs) with (groups_text (S index) gs) by done.
    rewrite (IH slots (S index)) by (done || lia). by destruct (_ =? _)%nat.
Qed.

(** The run of zeros that is left out. *)
Lemma zero_span_spec gs : forall (pre : list Z) (current longest : nat * nat),
  (exists a, pre = a ++ replicate current.2 0 /\ (current.2 <> 0%nat -> length a = current.1)) ->
  (longest.1 + longest.2 <= length pre)%nat -> (forall k, (longest.1 <= k < longest.1 + longest.2)%nat -> pre !! k = Some 0) ->
  let span := zero_span (length pre) current longest gs in
  (span.1 + span.2 <= length (pre ++ gs))%nat /\ forall k, (span.1 <= k < span.1 + span.2)%nat -> (pre ++ gs) !! k = Some 0.
Proof.
  induction gs as [|g gs IH]; intros pre current longest Hc Hl Hz; simpl; [by rewrite app_nil_r|].
  replace (pre ++ g :: gs) with ((pre ++ [g]) ++ gs) by (by rewrite <-app_assoc).
  replace (S (length pre)) with (length (pre ++ [g])) by (rewrite length_app; simpl; lia).
  assert (Hz' : forall k, (longest.1 <= k < longest.1 + longest.2)%nat -> (pre ++ [g]) !! k = Some 0).
  { intros k Hk. rewrite lookup_app_l by lia. by apply Hz. }
  destruct (g =? 0) eqn:Eg; [apply Z.eqb_eq in Eg as ->|].
  - destruct Hc as (a & Ha & Hac).
    assert (Hcur : exists a', pre ++ [0] = a' ++ replicate (S current.2) 0
        /\ length a' = (if (current.2 =? 0)%nat then length pre else current.1)).
    { exists a. rewrite Ha, <-app_assoc, <-replicate_S_end. split; [done|].
      destruct (current.2 =? 0)%nat eqn:E; [|apply Nat.eqb_neq in E; auto].
      apply Nat.eqb_eq in E. rewrite E. simpl. by rewrite app_nil_r. }
    destruct Hcur as (a' & Ha' & Hl'). apply IH; simpl.
    + exists a'. split; [done|]. by intros _.
    + destruct (_ <? _)%nat; simpl; [|rewrite length_app; simpl; lia]. rewrite <-Hl', Ha', length_app, length_replicate. lia.
    + destruct (_ <? _)%nat; simpl; [|done]. intros k Hk. rewrite Ha', lookup_app_r by lia. apply lookup_replicate_2. lia.
  - apply IH; [|rewrite length_app; simpl; lia|done]. exists (pre ++ [g]). simpl. by rewrite app_nil_r.
Qed.
Lemma span_split (gs : list Z) (start len : nat) :
  (start + len <= length gs)%nat -> (forall k, (start <= k < start + len)%nat -> gs !! k = Some 0) ->
  gs = take start gs ++ replicate len 0 ++ drop (start + len) gs.
Proof.
  intros Hl Hz. rewrite <-(take_drop start gs) at 1. f_equal. rewrite <-(take_drop len (drop start gs)), drop_drop. f_equal.
  apply list_eq. intros k. destruct (decide (k < len)%nat) as [Hk|Hk].
  - rewrite lookup_take_lt, lookup_drop, Hz, lookup_replicate_2 by lia. done.
  - rewrite lookup_take_ge by lia. symmetry. apply lookup_replicate_None. lia.
Qed.

Lemma parse_ipv6_groups gs : length gs = 8%nat -> Forall is_u16 gs ->
  read_ipv6_addr (fmt_subslice gs) = Some (gs, []).
Proof.
  intros Hl Hg. unfold read_ipv6_addr. rewrite <-(app_nil_r (fmt_subslice gs)).
  change (fmt_subslice gs) with (groups_text 0 gs). rewrite read_groups_app; [|lia|done|by left]. by rewrite Hl.
Qed.
Lemma parse_ipv6_span head tail len : Forall is_u16 head -> Forall is_u16 tail ->
  (1 < len)%nat -> (length head + len + length tail = 8)%nat ->
  read_ipv6_addr (fmt_subslice head ++ lit "::" ++ fmt_subslice tail) = Some (head ++ replicate len 0 ++ tail, []).
Proof.
  intros Hh Ht Hlen Hl. unfold read_ipv6_addr. change (fmt_subslice head) with (groups_text 0 head).
  rewrite read_groups_app; [|lia|done|right; by eexists]. rewrite (proj2 (Nat.eqb_neq _ _)) by lia. simpl app.
  rewrite <-(app_nil_r (fmt_subslice tail)). change (fmt_subslice tail) with (groups_text 0 tail).
  rewrite read_groups_app; [|lia|done|by left]. repeat f_equal. lia.
Qed.

Lemma groups_of_spec octets k : length octets = (2 * k)%nat -> bytes_ok octets ->
  length (groups_of octets) = k /\ Forall is_u16 (groups_of octets) /\ octets_of (groups_of octets) = octets.
Proof.
  revert octets. induction k as [|k IH]; intros octets Hl Ho; [by destruct octets|].
  destruct octets as [|a [|b octets]]; [simpl in Hl; lia..|]. inversion Ho as [|? ? Ha Ho1]; subst. inversion Ho1 as [|? ? Hb Ho2]; subst.
  destruct (IH octets) as (H1 & H2 & H3); [simpl in Hl; lia|done|]. simpl. split_and!; [by rewrite H1| |].
  - constructor; [by apply u16_from_be_width|done].
  - change (u16_to_be (u16_from_be a b) ++ octets_of (groups_of octets) = a :: b :: octets).
    by rewrite u16_from_be_to_be, H3.
Qed.

(** An IPv6 text is not an IPv4 text. *)
Lemma v6_not_v4 (gs rest : list Z) : Forall is_u16 gs -> groups_end rest -> read_ipv4_addr (fmt_subslice gs ++ rest) = None.
Proof.
  intros Hg Hr. apply read_ipv4_none. destruct gs as [|g gs].
  - destruct Hr as [->|[t ->]]; done.
  - change (fmt_subslice (g :: gs)) with (groups_text 0 (g :: gs)). rewrite groups_text_0, <-app_assoc. inversion Hg; subst.
    apply skip_digits_app; [|by destruct (groups_after gs rest Hr) as [->|[t ->]]].
    apply Forall_forall. intros c Hc. by apply (prints_chars _ _ _ _ _ _ _ (group_prints g ltac:(done)) Hc).
Qed.

Lemma parse_v6_text s gs : read_ipv4_addr s = None -> read_ipv6_addr s = Some (gs, []) -> parse_ip s = Some (V6 (octets_of gs)).
Proof. intros H4 H6. unfold parse_ip, parse_ipv6. by rewrite H4, H6. Qed.

Lemma read_embedded os : length os = 4%nat -> bytes_ok os -> read_groups 6 1 (58 :: fmt_v4 os) = (pair_groups os, true, []).
Proof.
  intros Hl Ho. cbn [read_groups read_separator]. change (58 =? 58) with true. change (5 =? 0)%nat with false. cbn iota.
  rewrite <-(app_nil_r (fmt_v4 os)). by rewrite read_ipv4_app.
Qed.
Lemma mapped_groups octets : length octets = 16%nat -> bytes_ok octets -> take 6 (groups_of octets) = [0; 0; 0; 0; 0; 65535] ->
  read_ipv6_addr (lit "::ffff:" ++ fmt_v4 (drop 12 octets)) = Some (groups_of octets, []).
Proof.
  intros Hl Ho Hm. set (os := drop 12 octets).
  assert (Hos : length os = 4%nat /\ bytes_ok os) by (split; [unfold os; rewrite length_drop; lia|by apply Forall_drop]).
  assert (Hg : groups_of octets = [0; 0; 0; 0; 0; 65535] ++ pair_groups os).
  { rewrite <-Hm. etransitivity; [symmetry; apply (take_drop 6)|]. f_equal. unfold os. clear -Hl.
    do 16 (destruct octets as [|? octets]; [done|]). destruct octets; done. }
  rewrite Hg. unfold read_ipv6_addr.
  change (read_groups 8 0 (lit "::ffff:" ++ fmt_v4 os)) with (@nil Z, false, lit "::ffff:" ++ fmt_v4 os). cbn iota beta.
  change (lit "::ffff:" ++ fmt_v4 os) with (58 :: 58 :: lit "ffff:" ++ fmt_v4 os). cbn iota beta.
  change (read_groups (8 - (length (@nil Z) + 1)) 0 (lit "ffff:" ++ fmt_v4 os))
    with (let '(gs, v4, rest) := read_groups 6 1 (58 :: fmt_v4 os) in (65535 :: gs, v4, rest)).
  rewrite read_embedded by apply Hos. destruct Hos as [Hl4 _]. destruct os as [|a [|b [|c [|d []]]]]; done.
Qed.

(** Reading a printed address gives the address. *)
Lemma ip_roundtrip a : ip_ok a -> parse_ip (ip_to_string a) = Some a.
Proof.
  destruct a as [octets|octets]; intros [Hl Ho]; unfold ip_to_string.
  - unfold parse_ip. rewrite <-(app_nil_r (fmt_v4 octets)). by rewrite read_ipv4_app.
  - destruct (groups_of_spec octets 8 Hl Ho) as (Hg8 & Hg16 & Hoct). unfold fmt_v6.
    replace (V6 octets) with (V6 (octets_of (groups_of octets))) by (by rewrite Hoct). case_bool_decide as Hm.
    + apply parse_v6_text; [|by apply mapped_groups]. apply read_ipv4_none. done.
    + pose proof (zero_span_spec (groups_of octets) [] (0%nat, 0%nat) (0%nat, 0%nat)) as Hz.
      destruct Hz as [Hz1 Hz2]; [by exists []|done|simpl; lia|]. simpl in Hz1, Hz2.
      destruct (zero_span 0 (0%nat, 0%nat) (0%nat, 0%nat) (groups_of octets)) as [start len]. simpl in Hz1, Hz2.
      destruct (1 <? len)%nat eqn:Elen.
      * apply Nat.ltb_lt in Elen. pose proof (span_split _ _ _ Hz1 Hz2) as Hsplit. apply parse_v6_text.
        -- apply v6_not_v4; [by apply Forall_take|right; by eexists].
        -- rewrite Hsplit at 3. apply parse_ipv6_span; [by apply Forall_take|by apply Forall_drop|done|].
           rewrite length_take, length_drop. lia.
      * apply parse_v6_text; [|by apply parse_ipv6_groups]. rewrite <-(app_nil_r (fmt_subslice _)). apply v6_not_v4; [done|by left].
Qed.

(** ** What is read is an address *)

Lemma to_digit_nonneg radix c d : 0 <= radix -> to_digit radix c = Some d -> 0 <= d.
Proof.
  intros Hr. unfold to_digit, in_range.
  destruct (Z.leb_spec 48 c), (Z.leb_spec c 57), (Z.leb_spec 97 c), (Z.leb_spec c 122), (Z.leb_spec 65 c), (Z.leb_spec c 90); simpl;
    case_match; intros [= <-]; lia.
Qed.
Lemma read_digits_nonneg radix max s : 0 <= radix -> forall count acc n k rest, 0 <= acc ->
  read_digits radix max count acc s = Some (n, k, rest) -> 0 <= n.
Proof.
  intros Hr. induction s as [|c s IH]; intros count acc n k rest Ha; simpl; [by intros [= <- _ _]|].
  destruct (to_digit radix c) as [d|] eqn:Hd; [|by intros [= <- _ _]]. destruct (_ <? _)%nat; [done|]. apply IH.
  apply to_digit_nonneg in Hd; [nia|done].
Qed.
Lemma read_number_range radix k allow max s n rest : 0 <= radix -> read_number radix k allow max s = Some (n, rest) -> 0 <= n <= max.
Proof.
  intros Hr. unfold read_number. destruct (read_digits radix k 0 0 s) as [[[m c] r]|] eqn:E; [|done].
  apply read_digits_nonneg in E; [|done..]. destruct (c =? 0)%nat; [done|]. destruct (_ && _); [done|].
  destruct (Z.leb_spec m max); [|done]. by intros [= <- _].
Qed.
Lemma read_separator_some {A} sep i (inner : list Z -> option (A * list Z)) s r :
  read_separator sep i inner s = Some r -> exists s', inner s' = Some r.
Proof. destruct i; simpl; [eauto|]. destruct s as [|c s]; [done|]. destruct (c =? sep); [eauto|done]. Qed.
Lemma read_octets_ok slots i s os rest : read_octets slots i s = Some (os, rest) -> length os = slots /\ bytes_ok os.
Proof.
  revert i s os rest. induction slots as [|slots IH]; intros i s os rest; simpl; [by intros [= <- _]|].
  destruct (read_separator _ _ _ _) as [[o s1]|] eqn:E; [|done]. destruct (read_octets slots (S i) s1) as [[os' s2]|] eqn:E2; [|done].
  intros [= <- _]. apply read_separator_some in E as (s' & E). apply read_number_range in E; [|done].
  apply IH in E2 as [Hl H]. split; [simpl; lia|]. constructor; [unfold in_width; lia|done].
Qed.
Lemma pair_groups_ok os : length os = 4%nat -> bytes_ok os -> length (pair_groups os) = 2%nat /\ Forall is_u16 (pair_groups os).
Proof.
  intros Hl Ho. destruct os as [|a [|b [|c [|d []]]]]; try done. inversion_clear Ho as [|? ? Ha Ho1]. inversion_clear Ho1 as [|? ? Hb Ho2].
  inversion_clear Ho2 as [|? ? Hc Ho3]. inversion_clear Ho3 as [|? ? Hd _]. split; [done|]. simpl.
  repeat constructor; by apply u16_from_be_width.
Qed.
Lemma read_groups_ok slots i s gs v4 rest : read_groups slots i s = (gs, v4, rest) -> (length gs <= slots)%nat /\ Forall is_u16 gs.
Proof.
  revert i s gs v4 rest. induction slots as [|slots IH]; intros i s gs v4 rest; cbn [read_groups]; [by intros [= <- _ _]|].
  destruct (if (slots =? 0)%nat then None else read_separator 58 i read_ipv4_addr s) as [[os r]|] eqn:E.
  - destruct (Nat.eqb_spec slots 0) as [|Hslots]; [done|]. apply read_separator_some in E as (s' & E). apply read_octets_ok in E as [Hl Ho].
    destruct (pair_groups_ok os Hl Ho) as [Hl2 Hg]. intros [= <- _ _]. split; [lia|done].
  - destruct (read_separator 58 i (read_number 16 4 true 65535) s) as [[g r]|] eqn:E2; [|intros [= <- _ _]; split; [simpl; lia|done]].
    destruct (read_groups slots (S i) r) as [[gs' v] r'] eqn:E3. intros [= <- _ _]. apply IH in E3 as [Hl Hg]. split; [simpl; lia|].
    apply read_separator_some in E2 as (s' & E2). apply read_number_range in E2; [|done]. constructor; [unfold in_width; lia|done].
Qed.
Lemma read_ipv6_ok s gs rest : read_ipv6_addr s = Some (gs, rest) -> length gs = 8%nat /\ Forall is_u16 gs.
Proof.
  unfold read_ipv6_addr. destruct (read_groups 8 0 s) as [[head v4] s1] eqn:E. apply read_groups_ok in E as [Hl Hg].
  destruct (Nat.eqb_spec (length head) 8) as [H8|H8]; [by intros [= <- _]|]. destruct v4; [done|].
  destruct s1 as [|c1 [|c2 s2]]; [done|by destruct (decide (c1 = 58)) as [->|]; repeat case_match|].
  destruct (decide (c1 = 58)) as [->|]; [|by repeat case_match]. destruct (decide (c2 = 58)) as [->|]; [|by repeat case_match].
  destruct (read_groups _ 0 s2) as [[tail v] s3] eqn:E2. apply read_groups_ok in E2 as [Hl2 Hg2]. intros [= <- _]. split.
  - rewrite !length_app, length_replicate. lia.
  - apply Forall_app. split; [done|]. apply Forall_app. split; [|done]. apply Forall_replicate. unfold in_width. lia.
Qed.
Lemma octets_of_ok gs : Forall is_u16 gs -> length (octets_of gs) = (2 * length gs)%nat /\ bytes_ok (octets_of gs).
Proof.
  induction 1 as [|g gs Hg _ [IH1 IH2]]; [done|]. unfold octets_of in *. cbn [map concat]. rewrite length_app, IH1. split; [simpl; lia|].
  apply Forall_app. split; [by apply u16_to_be_ok|done].
Qed.
Lemma parse_ip_ok s ip : parse_ip s = Some ip -> ip_ok ip.
Proof.
  unfold parse_ip, parse_ipv6, complete. destruct (read_ipv4_addr s) as [[os [|c r]]|] eqn:E; simpl; [|done|].
  - intros [= <-]. by apply read_octets_ok in E.
  - destruct (read_ipv6_addr s) as [[gs [|c r]]|] eqn:E6; simpl; [|done..]. intros [= <-]. apply read_ipv6_ok in E6 as [Hl Hg].
    destruct (octets_of_ok gs Hg) as [Hl2 Ho]. split; [by rewrite Hl2, Hl|done].
Qed.
