(* ===== verification/HostKey.v ===== *)
(** * Host keys (hapcli-ssh, host_key.rs, and the connection handler)

    The known_hosts file and the session cache that decide whether a server is
    the one it was: [KnownHostsStore] (load, verify, add, remove), the cache of
    verified hosts with its expiry and eviction, [verify_host_key],
    [learn_host_key], [remove_host_key], the handler's [check_server_key], and
    the preflight.  Keys are the SSH library's: their algorithm, base64 form and
    fingerprint are parameters with the laws of [KeyLaws]; so is the Unicode
    [to_lowercase], of which only the ASCII case is used.  The file is its
    bytes; every access to it may fail, as [fault] says by the number of the
    access.  The clock is read once per operation. *)
From S2P Require Import Prelude Text TrzszBuffer TrzszTransfer FileSystem TextOps.
From Stdlib Require Import Ascii String.
From stdpp Require Import prelude numbers list gmap sorting.
Open Scope Z_scope.

(** ** Data *)

Definition CACHE_TTL_SECS : Z := 3600.
Definition MAX_CACHE_ENTRIES : nat := 500.

Inductive HostKeyVerification :=
  | Verified
  | Unknown (fingerprint key_type : list Z)
  | Changed (expected_fingerprint actual_fingerprint key_type : list Z).

Inductive HostKeyStatus :=
  | SVerified
  | SUnknown (fingerprint key_type : list Z)
  | SChanged (expected_fingerprint actual_fingerprint key_type : list Z)
  | SError (message : list Z).

(** The transport errors that these functions raise; the others are [OtherError]
    with their text. *)
Inductive SshTransportError :=
  | HostKeyUnknown (host : list Z) (port : Z) (fingerprint : list Z)
  | HostKeyChanged (host : list Z) (port : Z) (expected_fingerprint actual_fingerprint : list Z)
  | HostKeyCheckFailed (message : list Z)
  | PreflightComplete
  | OtherError (message : list Z).

Definition error_to_string (e : SshTransportError) : list Z :=
  match e with
  | HostKeyUnknown host port fp =>
      lit "SSH host key is unknown for " ++ host ++ lit ":" ++ u64_to_string port ++ lit ": " ++ fp
  | HostKeyChanged host port expected actual =>
      lit "SSH host key changed for " ++ host ++ lit ":" ++ u64_to_string port
        ++ lit ": expected " ++ expected ++ lit ", got " ++ actual
  | HostKeyCheckFailed m => lit "SSH host key check failed: " ++ m
  | PreflightComplete => lit "SSH preflight complete"
  | OtherError m => m
  end.

(** Times are in nanoseconds. *)
Record CacheEntry := mkCached { cached_fingerprint : list Z; verified_at : Z }.
Abbreviation HostKeyCache := (gmap (list Z) CacheEntry).

Record HostKeyEntry := mkEntry { key_type : list Z; key_data : list Z }.
#[export] Instance HostKeyEntry_eq : EqDecision HostKeyEntry.
Proof. solve_decision. Defined.
Abbreviation KnownHosts := (gmap (list Z) (list HostKeyEntry)).

(** What the functions share: the file, [HOST_KEY_CACHE], the accesses to the
    file so far, and the time. *)
Record World := mkWorld {
  known_hosts : option (list Z);
  cache : HostKeyCache;
  io_calls : nat;
  now : Z
}.
Definition set_known_hosts v (w : World) : World := mkWorld v (cache w) (io_calls w) (now w).
Definition set_cache v (w : World) : World := mkWorld (known_hosts w) v (io_calls w) (now w).
Definition io_tick (w : World) : World := mkWorld (known_hosts w) (cache w) (S (io_calls w)) (now w).
Abbreviation HM := (M SshTransportError World).

(** The SSH library's keys. *)
Class KeyLib (PublicKey : Type) := {
  algorithm : PublicKey -> list Z;
  public_key_base64 : PublicKey -> list Z;
  fingerprint : PublicKey -> list Z;
  parse_public_key_base64 : list Z -> option PublicKey
}.

(** The order of [sort_by_key] on the cache's entries. *)
Definition older (a b : list Z * Z) : Prop := a.2 <= b.2.
#[export] Instance older_dec : RelDecision older.
Proof. intros a b. unfold older. apply _. Defined.

(** ** The session cache *)

Section HostKey.
Context {PublicKey : Type} `{KeyLib PublicKey}.
Context (to_lowercase : list Z -> list Z).
(** The order in which the cache is iterated. *)
Context (cache_iter : HostKeyCache -> list (list Z * CacheEntry)).
(** A failed access to the file: the error, and how much a failed write had
    written, if it came as far as opening the file. *)
Context (fault : nat -> option (option nat * list Z)).

Definition public_key_fingerprint (key : PublicKey) : list Z := fingerprint key.
Definition public_key_type (key : PublicKey) : list Z :=
  let a := algorithm key in
  if bool_decide (a = lit "ssh-ed25519") then lit "ssh-ed25519"
  else if bool_decide (a = lit "ssh-rsa") then lit "ssh-rsa"
  else if bool_decide (a = lit "ecdsa-sha2-nistp256") then lit "ecdsa-sha2-nistp256"
  else if bool_decide (a = lit "ecdsa-sha2-nistp384") then lit "ecdsa-sha2-nistp384"
  else if bool_decide (a = lit "ecdsa-sha2-nistp521") then lit "ecdsa-sha2-nistp521"
  else lit "ssh-rsa".

Definition host_key_cache_key (host : list Z) (port : Z) : list Z :=
  to_lowercase host ++ lit ":" ++ u64_to_string port.

(** [SystemTime::elapsed], in seconds; an error when the clock went back. *)
Definition elapsed_secs (now since : Z) : option Z :=
  if since <=? now then Some ((now - since) / 1000000000) else None.

Definition get_verified (host : list Z) (port : Z) (w : World) : option (list Z) * World :=
  let key := host_key_cache_key host port in
  match cache w !! key with
  | None => (None, w)
  | Some entry =>
      match elapsed_secs (now w) (verified_at entry) with
      | None => (None, w)
      | Some elapsed =>
          if elapsed <? CACHE_TTL_SECS then (Some (cached_fingerprint entry), w)
          else (None, set_cache (delete key (cache w)) w)
      end
  end.

Definition is_expired (now : Z) (entry : CacheEntry) : bool :=
  match elapsed_secs now (verified_at entry) with
  | Some elapsed => CACHE_TTL_SECS <=? elapsed
  | None => true
  end.
Definition remove_keys (keys : list (list Z)) (c : HostKeyCache) : HostKeyCache :=
  fold_left (fun c key => delete key c) keys c.
Definition evict_expired (now : Z) (c : HostKeyCache) : HostKeyCache :=
  remove_keys (map fst (List.filter (fun e => is_expired now e.2) (cache_iter c))) c.

Definition evict_oldest (c : HostKeyCache) : HostKeyCache :=
  let entries := merge_sort older (map (fun e => (e.1, verified_at e.2)) (cache_iter c)) in
  remove_keys (map fst (take (MAX_CACHE_ENTRIES / 4) entries)) c.
Definition set_verified (host : list Z) (port : Z) (fp : list Z) (w : World) : World :=
  let c := cache w in
  let c := if decide (MAX_CACHE_ENTRIES <= size c)%nat then evict_expired (now w) c else c in
  let c := if decide (MAX_CACHE_ENTRIES <= size c)%nat then evict_oldest c else c in
  set_cache (<[host_key_cache_key host port := mkCached fp (now w)]> c) w.
Definition invalidate (host : list Z) (port : Z) (w : World) : World :=
  set_cache (delete (host_key_cache_key host port) (cache w)) w.

(** ** Access to the file *)

(** [Path::exists]: an error is a no. *)
Definition path_exists : HM bool :=
  fun w => Some (Ok (match fault (io_calls w), known_hosts w with None, Some _ => true | _, _ => false end), io_tick w).
(** Reading the file as text; as a line break is never inside a character, the
    lines are valid exactly when the whole is. *)
Definition read_to_string : HM (list Z) :=
  fun w => Some ((match fault (io_calls w), known_hosts w with
                  | Some (_, e), _ => Err (HostKeyCheckFailed e)
                  | None, None => Err (HostKeyCheckFailed (io_text ENOENT))
                  | None, Some bytes => match from_utf8 bytes with
                                        | Some text => Ok text
                                        | None => Err (HostKeyCheckFailed (lit "stream did not contain valid UTF-8"))
                                        end
                  end), io_tick w).
Definition create_parent : HM unit :=
  fun w => Some (match fault (io_calls w) with Some (_, e) => Err (HostKeyCheckFailed e) | None => Ok tt end, io_tick w).
(** Opening with [append] and [create], and writing. *)
Definition append_file (bytes : list Z) : HM unit :=
  fun w => let old := default [] (known_hosts w) in
  match fault (io_calls w) with
  | None => Some (Ok tt, io_tick (set_known_hosts (Some (old ++ bytes)) w))
  | Some (Some n, e) => Some (Err (HostKeyCheckFailed e), io_tick (set_known_hosts (Some (old ++ take n bytes)) w))
  | Some (None, e) => Some (Err (HostKeyCheckFailed e), io_tick w)
  end.
(** [fs::write]: truncates first. *)
Definition write_file (bytes : list Z) : HM unit :=
  fun w => match fault (io_calls w) with
  | None => Some (Ok tt, io_tick (set_known_hosts (Some bytes) w))
  | Some (Some n, e) => Some (Err (HostKeyCheckFailed e), io_tick (set_known_hosts (Some (take n bytes)) w))
  | Some (None, e) => Some (Err (HostKeyCheckFailed e), io_tick w)
  end.

(** ** The known hosts *)

Definition make_key (host : list Z) (port : Z) : list Z :=
  let host := to_lowercase host in
  if port =? 22 then host else lit "[" ++ host ++ lit "]:" ++ u64_to_string port.
Definition normalize_hostname (host : list Z) : list Z :=
  let host := trim_start_matches (Z.eqb 91) host in
  match split_once (lit "]:") host with
  | Some (before, _) => to_lowercase before
  | None => to_lowercase (trim_end_matches (Z.eqb 93) host)
  end.
Definition canonical_host_entry (hostname : list Z) : list Z :=
  let hostname := trim hostname in
  match hostname with
  | c :: stripped =>
      if c =? 91 then
        match split_once (lit "]:") stripped with
        | Some (host, port_str) =>
            match parse_u16 port_str with
            | Some port => make_key host port
            | None => normalize_hostname hostname
            end
        | None => normalize_hostname hostname
        end
      else normalize_hostname hostname
  | [] => normalize_hostname hostname
  end.

Definition push_entry (name : list Z) (entry : HostKeyEntry) (hosts : KnownHosts) : KnownHosts :=
  <[name := default [] (hosts !! name) ++ [entry]]> hosts.
Definition load_hostname (entry : HostKeyEntry) (hosts : KnownHosts) (hostname : list Z) : KnownHosts :=
  if starts_with_char 124 hostname then hosts else push_entry (canonical_host_entry hostname) entry hosts.
Definition load_line (hosts : KnownHosts) (line : list Z) : KnownHosts :=
  let line := trim line in
  if bool_decide (line = []) || starts_with_char 35 line then hosts
  else match split_whitespace line with
       | names :: kt :: kd :: _ => fold_left (load_hostname (mkEntry kt kd)) (split_char 44 names) hosts
       | _ => hosts
       end.
Definition load_text (hosts : KnownHosts) (text : list Z) : KnownHosts := fold_left load_line (lines text) hosts.
Definition load (hosts : KnownHosts) : HM KnownHosts :=
  let* there := path_exists in
  if negb there then ret hosts
  else let* text := read_to_string in ret (load_text hosts text).
(** [KnownHostsStore::new]. *)
Definition new_store : HM KnownHosts := load ∅.

Definition fingerprint_from_known_hosts_key_data (data : list Z) : list Z :=
  match parse_public_key_base64 data with
  | Some key => public_key_fingerprint key
  | None => lit "unknown"
  end.
Fixpoint check_entries_loop (expected : option (list Z)) (entries : list HostKeyEntry)
    (actual_key_type actual_key_b64 actual_fingerprint : list Z) : option HostKeyVerification :=
  match entries with
  | [] => match expected with
          | Some e => Some (Changed e actual_fingerprint actual_key_type)
          | None => None
          end
  | entry :: rest =>
      if negb (bool_decide (key_type entry = actual_key_type))
      then check_entries_loop expected rest actual_key_type actual_key_b64 actual_fingerprint
      else if bool_decide (key_data entry = actual_key_b64) then Some Verified
      else
        let expected := match expected with
                        | None => Some (fingerprint_from_known_hosts_key_data (key_data entry))
                        | Some e => Some e
                        end in
        check_entries_loop expected rest actual_key_type actual_key_b64 actual_fingerprint
  end.
Definition check_known_host_entries := check_entries_loop None.

Definition verify (hosts : KnownHosts) (host : list Z) (port : Z) (key : PublicKey) : HostKeyVerification :=
  let actual_key_b64 := public_key_base64 key in
  let actual_key_type := public_key_type key in
  let fp := public_key_fingerprint key in
  match hosts !! make_key host port with
  | Some entries => default (Unknown fp actual_key_type)
                      (check_known_host_entries entries actual_key_type actual_key_b64 fp)
  | None =>
      match hosts !! to_lowercase host with
      | Some entries => default (Unknown fp actual_key_type)
                          (check_known_host_entries entries actual_key_type actual_key_b64 fp)
      | None => Unknown fp actual_key_type
      end
  end.

Definition append_known_host_line (host kt kd : list Z) : HM unit :=
  do* create_parent in
  append_file (utf8_encode (host ++ lit " " ++ kt ++ lit " " ++ kd ++ [10])).
Definition add_host (hosts : KnownHosts) (host : list Z) (port : Z) (key : PublicKey) : HM KnownHosts :=
  let lookup_key := make_key host port in
  let kt := public_key_type key in
  let kd := public_key_base64 key in
  let hosts := push_entry lookup_key (mkEntry kt kd) hosts in
  do* append_known_host_line lookup_key kt kd in ret hosts.

(** The closure of [rewrite_without_host_key]: the line to keep, if any, and
    whether a host was removed from it. *)
Definition rewrite_line (remove_hosts : list (list Z)) (remove_key_type remove_fingerprint line : list Z)
    : option (list Z) * bool :=
  match split_whitespace line with
  | hostnames :: kt :: kd :: rest =>
      if negb (bool_decide (kt = remove_key_type))
         || negb (bool_decide (fingerprint_from_known_hosts_key_data kd = remove_fingerprint))
      then (Some line, false)
      else
        let kept := List.filter (fun hostname =>
          negb (existsb (fun h => bool_decide (canonical_host_entry hostname = h)) remove_hosts)) (split_char 44 hostnames) in
        if Nat.eqb (length kept) (length (split_char 44 hostnames)) then (Some line, false)
        else match kept with
             | [] => (None, true)
             | _ => (Some (FileSystem.join (lit " ") (FileSystem.join (lit ",") kept :: kt :: kd :: rest)), true)
             end
  | _ => (Some line, false)
  end.
Definition rewrite_text (remove_hosts : list (list Z)) (remove_key_type remove_fingerprint content : list Z)
    : list Z * bool :=
  let remove_hosts := map to_lowercase remove_hosts in
  let done := map (rewrite_line remove_hosts remove_key_type remove_fingerprint) (lines content) in
  (FileSystem.join [10] (omap fst done) ++ [10], existsb snd done).
Definition rewrite_without_host_key (remove_hosts : list (list Z)) (remove_key_type remove_fingerprint : list Z) : HM bool :=
  let* there := path_exists in
  if negb there then ret false
  else
    let* content := read_to_string in
    let filtered := rewrite_text remove_hosts remove_key_type remove_fingerprint content in
    do* write_file (utf8_encode filtered.1) in
    ret filtered.2.

(** The names under which a host's key is looked up. *)
Definition lookup_keys (host : list Z) (port : Z) : list (list Z) :=
  let lookup_key := make_key host port in
  let host_only_key := normalize_hostname host in
  if bool_decide (host_only_key = lookup_key) then [lookup_key] else [lookup_key; host_only_key].
Definition store_remove_host_key (hosts : KnownHosts) (host : list Z) (port : Z) (kt expected : list Z) : HM KnownHosts :=
  let* removed_any := rewrite_without_host_key (lookup_keys host port) kt expected in
  if negb removed_any
  then throw (HostKeyCheckFailed (lit "No saved host key matched " ++ make_key host port ++ lit " (type: " ++ kt
                                    ++ lit ", fingerprint: " ++ expected ++ lit ")"))
  else
    let* hosts := load ∅ in
    fun w => Some (Ok hosts, invalidate host port w).

(** ** The public operations *)

Definition verify_host_key (host : list Z) (port : Z) (key : PublicKey) : HM HostKeyVerification :=
  fun w => match get_verified host port w with
           | (Some _, w) => Some (Ok Verified, w)
           | (None, w) => (let* hosts := new_store in ret (verify hosts host port key)) w
           end.
Definition accept_host_key_for_session (host : list Z) (port : Z) (fp : list Z) : HM unit :=
  fun w => Some (Ok tt, set_verified host port fp w).
Definition learn_host_key (host : list Z) (port : Z) (key : PublicKey) : HM unit :=
  let* hosts := new_store in
  do* add_host hosts host port key in
  accept_host_key_for_session host port (public_key_fingerprint key).
Definition remove_host_key (host : list Z) (port : Z) (kt expected : list Z) : HM unit :=
  let* hosts := new_store in
  do* store_remove_host_key hosts host port kt expected in ret tt.

(** The fields of the connection handler that [check_server_key] reads. *)
Record NativeClientHandler := mkHandler {
  h_host : list Z; h_port : Z; strict : bool; trust_host_key : option bool;
  expected_host_key_fingerprint : option (list Z)
}.
Definition accept_by_policy (h : NativeClientHandler) (key : PublicKey) (fp : list Z) (persist : bool) : HM bool :=
  do* accept_host_key_for_session (h_host h) (h_port h) fp in
  do* (if persist then learn_host_key (h_host h) (h_port h) key else ret tt) in
  ret true.
Definition check_known_server_key (h : NativeClientHandler) (key : PublicKey) : HM bool :=
  let* v := verify_host_key (h_host h) (h_port h) key in
  match v with
  | Verified => ret true
  | Unknown fp _ =>
      match trust_host_key h with
      | Some persist => accept_by_policy h key fp persist
      | None =>
          if strict h then throw (HostKeyUnknown (h_host h) (h_port h) fp)
          else do* learn_host_key (h_host h) (h_port h) key in ret true
      end
  | Changed expected actual _ => throw (HostKeyChanged (h_host h) (h_port h) expected actual)
  end.
Definition check_server_key (h : NativeClientHandler) (key : PublicKey) : HM bool :=
  let actual := public_key_fingerprint key in
  match expected_host_key_fingerprint h with
  | Some expected =>
      if negb (bool_decide (expected = actual))
      then throw (HostKeyChanged (h_host h) (h_port h) expected actual)
      else match trust_host_key h with
           | Some persist => accept_by_policy h key actual persist
           | None => check_known_server_key h key
           end
  | None => check_known_server_key h key
  end.

(** *** The preflight *)

Definition status_of (v : HostKeyVerification) : HostKeyStatus :=
  match v with
  | Verified => SVerified
  | Unknown fp kt => SUnknown fp kt
  | Changed e a kt => SChanged e a kt
  end.
(** The handler: the status it records, and the error that ends the
    connection. *)
Definition preflight_check_server_key (host : list Z) (port : Z) (key : PublicKey)
    : World -> option (option HostKeyStatus * SshTransportError * World) :=
  fun w => match verify_host_key host port key w with
           | Some (Ok v, w) => Some (Some (status_of v), PreflightComplete, w)
           | Some (Err e, w) => Some (None, e, w)
           | None => None
           end.

(** What the network does: no connection, an end before a key is shown (with
    the connection's result, or none in time), or a key; the handler's error
    ends the connection, perhaps too late. *)
Inductive Attempt :=
  | DialFailed (error : SshTransportError)
  | NoKey (outcome : option (result SshTransportError unit))
  | Shows (key : PublicKey) (in_time : bool).

Definition preflight_result (tunneled : bool) (timeout_secs : Z) (outcome : option (result SshTransportError unit)) : HostKeyStatus :=
  match outcome with
  | Some (Ok _) => SError (if tunneled then lit "Unexpectedly completed tunneled SSH preflight"
                           else lit "Unexpectedly completed SSH preflight")
  | Some (Err PreflightComplete) =>
      SError (if tunneled then lit "Tunneled SSH preflight completed without a captured host key"
              else lit "SSH preflight completed without a captured host key")
  | Some (Err e) => SError (error_to_string e)
  | None => SError (lit "Connection timeout after " ++ u64_to_string timeout_secs ++ lit "s")
  end.
(** [check_host_key_with_upstream_proxy], and [check_host_key_via_stream] when
    tunneled, where there is no dialing. *)
Definition check_host_key (tunneled : bool) (host : list Z) (port timeout_secs : Z) (net : Attempt)
    : World -> option (HostKeyStatus * World) :=
  fun w => match get_verified host port w with
  | (Some _, w) => Some (SVerified, w)
  | (None, w) =>
      match net with
      | DialFailed e => Some (SError (error_to_string e), w)
      | NoKey outcome => Some (preflight_result tunneled timeout_secs outcome, w)
      | Shows key in_time =>
          match preflight_check_server_key host port key w with
          | Some (Some status, _, w) => Some (status, w)
          | Some (None, e, w) => Some (preflight_result tunneled timeout_secs (if in_time then Some (Err e) else None), w)
          | None => None
          end
      end
  end.
End HostKey.

(** ** Hosts and the lines that name them *)

Definition ascii_lowercase (c : Z) : Z := if (65 <=? c) && (c <=? 90) then c + 32 else c.
Definition ascii (s : list Z) : Prop := Forall (fun c => 0 <= c < 128) s.

(** What is assumed of [str::to_lowercase]: ASCII text becomes its ASCII lower
    case. *)
Class LowerLaw (to_lowercase : list Z -> list Z) : Prop :=
  lower_ascii : forall s, ascii s -> to_lowercase s = map ascii_lowercase s.
(** Of the library's keys: the base64 form is a word that decodes to the key. *)
Class KeyLaws (PublicKey : Type) `{KeyLib PublicKey} : Prop := {
  base64_word : forall key : PublicKey, word_ok (public_key_base64 key) /\ ascii (public_key_base64 key);
  base64_parse : forall key : PublicKey, parse_public_key_base64 (public_key_base64 key) = Some key
}.

(** A host name or address as it is dialled: ASCII without blanks, commas and
    brackets, and neither a comment nor a hashed name. *)
Definition host_char (c : Z) : bool :=
  (33 <=? c) && (c <=? 126) && negb (c =? 44) && negb (c =? 91) && negb (c =? 93).
Definition host_okb (host : list Z) : bool :=
  match host with
  | c :: _ => negb (c =? 35) && negb (c =? 124) && forallb host_char host
  | [] => false
  end.
Definition host_ok (host : list Z) : Prop := host_okb host = true.

Section Hosts.
Context (to_lowercase : list Z -> list Z) {LL : LowerLaw to_lowercase}.
Implicit Types host s : list Z.

Lemma lower_char c : host_char c = true -> host_char (ascii_lowercase c) = true
  /\ ascii_lowercase (ascii_lowercase c) = ascii_lowercase c
  /\ (ascii_lowercase c = 35 -> c = 35) /\ (ascii_lowercase c = 124 -> c = 124).
Proof.
  intros Hc. assert (Hu : is_u8 c) by (unfold host_char in Hc; unfold in_width; lia).
  unfold ascii_lowercase, host_char in *. destruct (Z.leb_spec 65 c), (Z.leb_spec c 90); simpl; split_and!; try lia;
    try (destruct (Z.leb_spec 65 (c + 32)), (Z.leb_spec (c + 32) 90); simpl; lia);
    try (destruct (Z.leb_spec 65 c), (Z.leb_spec c 90); simpl; lia).
Qed.
Lemma host_chars host : host_ok host -> Forall (fun c => host_char c = true) host.
Proof.
  unfold host_ok, host_okb. destruct host as [|c host]; [done|]. rewrite !andb_true_iff.
  intros [_ H]. apply List.Forall_forall. by apply forallb_forall.
Qed.
Lemma host_ascii host : host_ok host -> ascii host.
Proof. intros H. eapply Forall_impl; [by apply host_chars|]. intros c Hc. unfold host_char in Hc. lia. Qed.
Lemma lower_host host : host_ok host -> to_lowercase host = map ascii_lowercase host.
Proof. intros Hh. by apply LL, host_ascii. Qed.
Lemma lower_ok host : host_ok host -> host_ok (to_lowercase host).
Proof.
  intros Hh. rewrite lower_host by done. pose proof (host_chars _ Hh) as Hc.
  unfold host_ok, host_okb in *. destruct host as [|c host]; [done|]. rewrite !andb_true_iff in Hh. destruct Hh as [[H1 H2] _].
  simpl. inversion_clear Hc as [|? ? Hx Hcs]. destruct (lower_char c Hx) as (Hlc & _ & H35 & H124).
  rewrite Hlc, !andb_true_iff. split_and!; [destruct (Z.eqb_spec (ascii_lowercase c) 35); [|done]; by rewrite (H35 e) in H1
    |destruct (Z.eqb_spec (ascii_lowercase c) 124); [|done]; by rewrite (H124 e) in H2|done|].
  apply forallb_forall. intros x Hin. apply in_map_iff in Hin as (y & <- & Hy).
  apply lower_char. by eapply (proj1 (List.Forall_forall _ _)) in Hcs.
Qed.
Lemma lower_idem host : host_ok host -> to_lowercase (to_lowercase host) = to_lowercase host.
Proof.
  intros Hh. pose proof (lower_ok _ Hh) as Hl. rewrite (lower_host (to_lowercase host)) by done.
  rewrite (lower_host host) by done. rewrite map_map. apply map_ext_in. intros c Hin.
  apply lower_char. pose proof (host_chars _ Hh) as Hc. by eapply (proj1 (List.Forall_forall _ _)) in Hc.
Qed.

Lemma host_not_ws c : host_char c = true -> is_whitespace c = false.
Proof.
  intros Hc. assert (Hr : 33 <= c <= 126) by (unfold host_char in Hc; lia).
  unfold is_whitespace, in_range. lia.
Qed.
Lemma digit_word n : is_u64 n -> Forall (fun c => 48 <= c <= 57) (u64_to_string n).
Proof. intros [Hn _]. by apply dec_digits_range. Qed.

Lemma lower_not_nil host : host_ok host -> host <> [].
Proof. by intros H ->. Qed.
Lemma host_without host x : host_ok host -> host_char x = false -> Forall (fun c => c <> x) host.
Proof. intros Hh Hx. eapply Forall_impl; [by apply host_chars|]. intros c Hc ->. cbn in Hc. congruence. Qed.

(** The characters of a looked-up name. *)
Lemma make_key_chars host port : host_ok host -> is_u16 port ->
  Forall (fun c => 33 <= c <= 126 /\ c <> 44) (make_key to_lowercase host port).
Proof.
  intros Hh Hp. apply lower_ok in Hh. unfold make_key.
  assert (H : Forall (fun c => 33 <= c <= 126 /\ c <> 44) (to_lowercase host)).
  { eapply Forall_impl; [by apply host_chars|]. intros c Hc. unfold host_char in Hc. lia. }
  destruct (port =? 22); [done|]. assert (Hd : Forall (fun c => 33 <= c <= 126 /\ c <> 44) (u64_to_string port)).
  { eapply Forall_impl; [apply digit_word; unfold in_width in *; lia|]. intros c Hc. cbn in Hc. lia. }
  rewrite !Forall_app. split_and!; try done; repeat constructor; cbn; lia.
Qed.
Lemma make_key_head host port : host_ok host ->
  exists c t, make_key to_lowercase host port = c :: t /\ c <> 35 /\ c <> 124.
Proof.
  intros Hh. apply lower_ok in Hh. unfold make_key. destruct (port =? 22); [|by eexists _, _].
  unfold host_ok, host_okb in Hh. destruct (to_lowercase host) as [|c t]; [done|]. exists c, t. split; [done|]. lia.
Qed.
Lemma make_key_word host port : host_ok host -> is_u16 port -> word_ok (make_key to_lowercase host port).
Proof.
  intros Hh Hp. split; [by destruct (make_key_head host port Hh) as (? & ? & -> & _)|].
  eapply Forall_impl; [by apply make_key_chars|]. intros c Hc. cbn in Hc. unfold is_whitespace, in_range. lia.
Qed.

Lemma normalize_host host : host_ok host -> normalize_hostname to_lowercase host = to_lowercase host.
Proof.
  intros Hh. unfold normalize_hostname.
  assert (H : forall x, host_char x = false -> Forall (fun c => (x =? c) = false) host).
  { intros x Hx. eapply Forall_impl; [by apply (host_without host x)|]. intros c Hc. cbn in Hc. lia. }
  rewrite trim_start_none by by apply H. rewrite (split_once_none _ _ 93) by (done || by apply host_without).
  by rewrite trim_end_none by by apply H.
Qed.
(** A looked-up name is read back as itself. *)
Lemma canonical_make_key host port : host_ok host -> is_u16 port ->
  canonical_host_entry to_lowercase (make_key to_lowercase host port) = make_key to_lowercase host port.
Proof.
  intros Hh Hp. unfold canonical_host_entry. rewrite trim_none by by apply make_key_word.
  pose proof (lower_ok _ Hh) as Hl. unfold make_key. destruct (Z.eqb_spec port 22) as [->|Hne].
  - rewrite normalize_host, lower_idem by done. destruct (to_lowercase host) as [|c t] eqn:E; [done|].
    destruct (Z.eqb_spec c 91) as [->|]; [|done]. apply host_chars in Hl. by inversion Hl.
  - change (lit "[") with [91]. cbn [app]. change (91 =? 91) with true. cbn iota.
    rewrite (split_once_found _ _ _ 93) by (done || by apply host_without).
    unfold parse_u16. rewrite u64_to_string_roundtrip by (unfold in_width in *; lia).
    rewrite (proj2 (Z.leb_le port 65535)) by (unfold in_width in *; lia).
    rewrite lower_idem by done. by rewrite (proj2 (Z.eqb_neq port 22)).
Qed.
End Hosts.

(** ** What a file says *)

Section Files.
Context {PublicKey : Type} `{KL : KeyLib PublicKey}.
Context (to_lowercase : list Z -> list Z) {LL : LowerLaw to_lowercase}.

(** The names a line gives a key to, with the key. *)
Definition name_entries (e : HostKeyEntry) (hostname : list Z) : list (list Z * HostKeyEntry) :=
  if starts_with_char 124 hostname then [] else [(canonical_host_entry to_lowercase hostname, e)].
Definition line_entries (line : list Z) : list (list Z * HostKeyEntry) :=
  match split_whitespace line with
  | names :: kt :: kd :: _ =>
      if starts_with_char 35 names then [] else flat_map (name_entries (mkEntry kt kd)) (split_char 44 names)
  | _ => []
  end.
Definition text_entries (text : list Z) : list (list Z * HostKeyEntry) := flat_map line_entries (lines text).
(** The keys recorded for a name, in the order of the file. *)
Definition keys_for (name : list Z) (l : list (list Z * HostKeyEntry)) : list HostKeyEntry :=
  map snd (List.filter (fun p => bool_decide (p.1 = name)) l).
Definition push_pair (hosts : KnownHosts) (p : list Z * HostKeyEntry) : KnownHosts := push_entry p.1 p.2 hosts.

Lemma load_hostnames e names hosts :
  fold_left (load_hostname to_lowercase e) names hosts = fold_left push_pair (flat_map (name_entries e) names) hosts.
Proof.
  revert hosts. induction names as [|n names IH]; intros hosts; simpl; [done|]. rewrite fold_left_app, IH. f_equal.
  unfold load_hostname, name_entries. by destruct (starts_with_char 124 n).
Qed.
Lemma load_line_entries hosts line : load_line to_lowercase hosts line = fold_left push_pair (line_entries line) hosts.
Proof.
  unfold load_line, line_entries. rewrite ws_trim. destruct (trim_head line) as [[-> ->]|(c & t & Ht & Hc)]; [done|].
  rewrite Ht. rewrite bool_decide_eq_false_2 by done. cbn [orb starts_with_char].
  destruct (ws_head c t Hc) as (w & rest & Hw). rewrite <-Ht, ws_trim in Hw. rewrite Hw. cbn [starts_with_char].
  destruct rest as [|kt [|kd rest]]; [by destruct (c =? 35)..|]. destruct (c =? 35); [done|]. apply load_hostnames.
Qed.
Lemma load_text_entries hosts text : load_text to_lowercase hosts text = fold_left push_pair (text_entries text) hosts.
Proof.
  unfold load_text, text_entries. revert hosts. induction (lines text) as [|l ls IH]; intros hosts; simpl; [done|].
  by rewrite fold_left_app, IH, load_line_entries.
Qed.
Lemma pushed_lookup l name hosts :
  default [] (fold_left push_pair l hosts !! name) = default [] (hosts !! name) ++ keys_for name l.
Proof.
  revert hosts. induction l as [|[n e] l IH]; intros hosts; simpl; [by rewrite app_nil_r|]. rewrite IH.
  unfold keys_for, push_pair, push_entry. cbn [List.filter fst snd]. case_bool_decide as E.
  - subst n. rewrite lookup_insert, decide_True by done. cbn. by rewrite <-app_assoc.
  - by rewrite lookup_insert_ne.
Qed.
(** No name is recorded without a key. *)
Lemma pushed_not_nil l hosts name : (forall n, hosts !! n <> Some []) -> fold_left push_pair l hosts !! name <> Some [].
Proof.
  revert hosts. induction l as [|[n e] l IH]; intros hosts Hh; simpl; [done|]. apply IH. intros m.
  unfold push_pair, push_entry. destruct (decide (m = n)) as [->|]; [|by rewrite lookup_insert_ne].
  rewrite lookup_insert, decide_True by done. cbn. intros [= E]. by destruct (default [] _).
Qed.
Lemma load_lookup text name : load_text to_lowercase ∅ text !! name =
  match keys_for name (text_entries text) with [] => None | es => Some es end.
Proof.
  rewrite load_text_entries. pose proof (pushed_lookup (text_entries text) name ∅) as H.
  pose proof (pushed_not_nil (text_entries text) ∅ name) as Hn. rewrite lookup_empty in H. cbn in H.
  destruct (fold_left _ _ _ !! name) as [es|]; cbn in H; rewrite <-H; [|done].
  destruct es; [|done]. by destruct Hn; [intros n; rewrite lookup_empty|].
Qed.

(** The keys that [verify] consults. *)
Definition consulted (text host : list Z) (port : Z) : list HostKeyEntry :=
  match keys_for (make_key to_lowercase host port) (text_entries text) with
  | [] => keys_for (to_lowercase host) (text_entries text)
  | es => es
  end.
Definition of_type (kt : list Z) (es : list HostKeyEntry) : list HostKeyEntry :=
  List.filter (fun e => bool_decide (key_type e = kt)) es.

(** The answer, from the consulted keys of the key's type. *)
Definition verify_spec (es : list HostKeyEntry) (key : PublicKey) : HostKeyVerification :=
  match of_type (public_key_type key) es with
  | [] => Unknown (fingerprint key) (public_key_type key)
  | (e :: _) as same =>
      if existsb (fun e => bool_decide (key_data e = public_key_base64 key)) same then Verified
      else Changed (fingerprint_from_known_hosts_key_data (key_data e)) (fingerprint key) (public_key_type key)
  end.

Lemma check_loop_spec expected es kt b64 fp :
  check_entries_loop expected es kt b64 fp =
  if existsb (fun e => bool_decide (key_data e = b64)) (of_type kt es) then Some Verified
  else match expected, of_type kt es with
       | Some x, _ => Some (Changed x fp kt)
       | None, e :: _ => Some (Changed (fingerprint_from_known_hosts_key_data (key_data e)) fp kt)
       | None, [] => None
       end.
Proof.
  revert expected. induction es as [|e es IH]; intros expected; [by destruct expected|].
  cbn [check_entries_loop of_type List.filter]. fold (of_type kt es).
  destruct (bool_decide (key_type e = kt)); cbn [negb]; [|by rewrite IH].
  cbn [existsb]. destruct (bool_decide (key_data e = b64)); [done|]. rewrite IH. cbn [orb].
  destruct (existsb _ _); [done|]. by destruct expected.
Qed.
Lemma check_spec es key : default (Unknown (fingerprint key) (public_key_type key))
    (check_known_host_entries es (public_key_type key) (public_key_base64 key) (fingerprint key)) = verify_spec es key.
Proof.
  unfold check_known_host_entries, verify_spec. rewrite check_loop_spec. destruct (of_type _ _) as [|e l]; [done|].
  by destruct (existsb _ _).
Qed.
Lemma verify_consulted text host port key :
  verify to_lowercase (load_text to_lowercase ∅ text) host port key = verify_spec (consulted text host port) key.
Proof.
  unfold verify, consulted, public_key_fingerprint. rewrite !load_lookup.
  destruct (keys_for (make_key _ _ _) _); [|by rewrite check_spec].
  destruct (keys_for (to_lowercase host) _); [done|]. by rewrite check_spec.
Qed.
End Files.

(** ** Removing a key *)

(** A line whose names the removal can take apart: no name is empty, no name but
    the first looks like a comment, and a comment or a hashed name is a single
    ASCII word. *)
Definition asciib (s : list Z) : bool := forallb (fun c => (0 <=? c) && (c <? 128)) s.
Definition name_okb (n : list Z) : bool :=
  match n with
  | [] => false
  | c :: _ => negb (c =? 35) && (negb (c =? 124) || asciib n)
  end.
Definition line_okb (line : list Z) : bool :=
  match split_whitespace line with
  | names :: _ :: _ :: _ =>
      if starts_with_char 35 names then asciib names && forallb (fun c => negb (c =? 44)) names
      else forallb name_okb (split_char 44 names)
  | _ => true
  end.
Definition text_okb (text : list Z) : bool := forallb line_okb (lines text).

Lemma asciib_ascii s : asciib s = true -> ascii s.
Proof.
  unfold asciib. rewrite forallb_forall. intros H. apply List.Forall_forall. intros x Hx. apply H in Hx. lia.
Qed.
Lemma filter_id {A} (p : A -> bool) l : (forall x, In x l -> p x = true) -> List.filter p l = l.
Proof.
  induction l as [|x l IH]; intros H; simpl; [done|]. rewrite (H x) by by left. f_equal. apply IH. intros y Hy. apply H. by right.
Qed.
Lemma filter_length_id {A} (p : A -> bool) l : length (List.filter p l) = length l -> List.filter p l = l.
Proof.
  induction l as [|x l IH]; simpl; [done|]. destruct (p x); simpl; [intros [= H]; by rewrite IH|].
  intros H. pose proof (List.filter_length_le p l). lia.
Qed.
Lemma filter_flat_map {A B} (p : B -> bool) (f : A -> list B) l :
  List.filter p (flat_map f l) = flat_map (fun x => List.filter p (f x)) l.
Proof. induction l as [|x l IH]; simpl; [done|]. by rewrite List.filter_app, IH. Qed.
Lemma existsb_flat_map {A B} (p : B -> bool) (f : A -> list B) l :
  existsb p (flat_map f l) = existsb (fun x => existsb p (f x)) l.
Proof. induction l as [|x l IH]; simpl; [done|]. by rewrite existsb_app, IH. Qed.

Section Removal.
Context {PublicKey : Type} `{KL : KeyLib PublicKey}.
Context (to_lowercase : list Z -> list Z) {LL : LowerLaw to_lowercase}.
Context (R : list (list Z)) (kt fp : list Z).
Context (R_heads : forall h, In h R -> exists c t, h = c :: t /\ c <> 35 /\ c <> 124).

Definition key_matches (e : HostKeyEntry) : bool :=
  bool_decide (key_type e = kt) && bool_decide (fingerprint_from_known_hosts_key_data (key_data e) = fp).
Definition goes (p : list Z * HostKeyEntry) : bool :=
  existsb (fun h => bool_decide (p.1 = h)) R && key_matches p.2.
Definition stays (p : list Z * HostKeyEntry) : bool := negb (goes p).

Lemma split_once_head c s a b : split_once (lit "]:") (c :: s) = Some (a, b) -> c <> 93 ->
  exists a', a = c :: a' /\ exists s', s = a' ++ s'.
Proof.
  cbn [split_once]. intros Hs Hc. destruct (bool_decide _) eqn:E.
  { apply bool_decide_eq_true in E. assert (Some c = Some 93) as [= ->] by exact (f_equal head E). done. }
  destruct (split_once (lit "]:") s) as [[a1 b1]|] eqn:E1; [|done]. injection Hs as <- <-. exists a1. split; [done|].
  clear E Hc. revert a1 b1 E1. induction s as [|x s IH]; intros a1 b1; cbn [split_once].
  - by case_bool_decide.
  - case_bool_decide; [intros [= <- <-]; by eexists|].
    destruct (split_once _ s) as [[a2 b2]|]; [|done]. intros [= <- <-]. destruct (IH _ _ eq_refl) as [s' ->]. by exists s'.
Qed.
(** A name that is read as itself keeps its first character. *)
Lemma canonical_head c s : ascii (c :: s) -> Forall (fun x => is_whitespace x = false) (c :: s) -> c = 35 \/ c = 124 ->
  exists t, canonical_host_entry to_lowercase (c :: s) = c :: t.
Proof.
  intros Ha Hw Hc. unfold canonical_host_entry. rewrite trim_none by done.
  rewrite (proj2 (Z.eqb_neq c 91)) by lia. unfold normalize_hostname. cbn [trim_start_matches].
  rewrite (proj2 (Z.eqb_neq 91 c)) by lia.
  assert (Hl : forall t, ascii (c :: t) -> exists t', to_lowercase (c :: t) = c :: t').
  { intros t Ht. rewrite (LL _ Ht). cbn [map]. exists (map ascii_lowercase t). f_equal. unfold ascii_lowercase.
    destruct (Z.leb_spec 65 c), (Z.leb_spec c 90); simpl; lia. }
  destruct (split_once (lit "]:") (c :: s)) as [[a b]|] eqn:E.
  - destruct (split_once_head _ _ _ _ E) as (a' & -> & s' & ->); [lia|]. apply Hl. apply (Forall_app _ (c :: a') s'), Ha.
  - unfold trim_end_matches. rewrite reverse_cons, trim_start_snoc by lia. rewrite reverse_snoc. apply Hl.
    inversion_clear Ha. constructor; [done|]. apply Forall_reverse.
    assert (Hr : ascii (reverse s)) by by apply Forall_reverse. revert Hr. generalize (reverse s).
    clear. intros l Hr. unfold ascii in Hr. induction Hr as [|x l Hx Hr IH]; cbn [trim_start_matches]; [constructor|].
    destruct (93 =? x); [done|]. by constructor.
Qed.
Lemma special_stays c s : ascii (c :: s) -> Forall (fun x => is_whitespace x = false) (c :: s) -> c = 35 \/ c = 124 ->
  existsb (fun h => bool_decide (canonical_host_entry to_lowercase (c :: s) = h)) R = false.
Proof.
  intros Ha Hw Hc. destruct (canonical_head c s Ha Hw Hc) as [t ->]. apply not_true_iff_false. intros H.
  apply existsb_exists in H as (h & Hin & Hh). apply bool_decide_eq_true in Hh. subst h.
  destruct (R_heads _ Hin) as (? & ? & [= <- <-] & ?). lia.
Qed.

(** The names of a removed key's line. *)
Definition keeps (hostname : list Z) : bool :=
  negb (existsb (fun h => bool_decide (canonical_host_entry to_lowercase hostname = h)) R).
Lemma hashed_kept n : name_okb n = true -> Forall (fun x => is_whitespace x = false) n ->
  starts_with_char 124 n = true -> keeps n = true.
Proof.
  intros Hn Hw Hs. destruct n as [|c n]; [done|]. cbn in Hs. apply Z.eqb_eq in Hs. subst c. unfold keeps.
  rewrite special_stays; [done| |done|by right]. apply asciib_ascii. cbn in Hn. done.
Qed.
Lemma kept_entries e names : key_matches e = true -> Forall (fun n => name_okb n = true) names ->
  Forall (Forall (fun x => is_whitespace x = false)) names ->
  flat_map (name_entries to_lowercase e) (List.filter keeps names)
    = List.filter stays (flat_map (name_entries to_lowercase e) names)
  /\ existsb goes (flat_map (name_entries to_lowercase e) names)
     = negb (Nat.eqb (length (List.filter keeps names)) (length names)).
Proof.
  intros He Hn Hw. induction Hn as [|n names Hn Hns IH]; [done|]. inversion_clear Hw as [|? ? Hwn Hws].
  destruct (IH Hws) as [IH1 IH2]. cbn [flat_map List.filter length]. rewrite List.filter_app, existsb_app, IH2.
  assert (H : (keeps n = true /\ List.filter stays (name_entries to_lowercase e n) = name_entries to_lowercase e n
                /\ existsb goes (name_entries to_lowercase e n) = false)
    \/ (keeps n = false /\ List.filter stays (name_entries to_lowercase e n) = []
                /\ existsb goes (name_entries to_lowercase e n) = true)).
  { unfold name_entries. destruct (starts_with_char 124 n) eqn:Hs; [left; by rewrite hashed_kept|].
    cbn [List.filter existsb]. unfold stays, goes, keeps. cbn [fst snd]. rewrite He.
    destruct (existsb _ R); [right|left]; done. }
  pose proof (List.filter_length_le keeps names) as Hle.
  destruct H as [(-> & -> & ->)|(-> & -> & ->)]; cbn [flat_map length app orb]; rewrite IH1; (split; [done|]).
  - done.
  - symmetry. apply negb_true_iff, Nat.eqb_neq. lia.
Qed.

Definition kept_lines (o : option (list Z)) : list (list Z) := match o with Some l => [l] | None => [] end.
Lemma word_parts (P : Z -> Prop) line : Forall P line -> Forall (fun w => Forall P w /\ word_ok w) (split_whitespace line).
Proof. intros H. apply Forall_and. split; [by apply Forall_words|apply ws_words]. Qed.

(** A line whose key is another one is kept. *)
Lemma other_key_stays e names : key_matches e = false ->
  List.filter stays (flat_map (name_entries to_lowercase e) names) = flat_map (name_entries to_lowercase e) names
  /\ existsb goes (flat_map (name_entries to_lowercase e) names) = false.
Proof.
  intros He. induction names as [|n names [IH1 IH2]]; [done|]. cbn [flat_map].
  rewrite List.filter_app, existsb_app, IH1, IH2. unfold name_entries at 1 3 5. destruct (starts_with_char 124 n); [done|].
  cbn [List.filter existsb]. unfold stays, goes. cbn [fst snd]. by rewrite He, andb_false_r.
Qed.
Lemma rebuilt_entries kept kd rest : kept <> [] -> Forall (fun n => name_okb n = true) kept ->
  Forall (Forall (fun x => is_whitespace x = false)) kept -> Forall (Forall (fun x => x <> 44)) kept ->
  word_ok kt -> word_ok kd -> Forall word_ok rest ->
  line_entries to_lowercase (FileSystem.join (lit " ") (FileSystem.join (lit ",") kept :: kt :: kd :: rest))
  = flat_map (name_entries to_lowercase (mkEntry kt kd)) kept.
Proof.
  intros Hne Hn Hw Hc Hkt Hkd Hrest. unfold line_entries. change (lit " ") with [32]. change (lit ",") with [44].
  assert (Hhead : exists c t, FileSystem.join [44] kept = c :: t /\ c <> 35).
  { destruct kept as [|n kept]; [done|]. inversion_clear Hn as [|? ? Hn1 _]. destruct n as [|c n]; [done|]. cbn in Hn1.
    assert (c <> 35) by lia. destruct kept; cbn [FileSystem.join app]; eauto. }
  destruct Hhead as (c & t & Hj & H35). rewrite ws_join.
  - rewrite Hj. cbn [starts_with_char]. rewrite (proj2 (Z.eqb_neq c 35)) by done. by rewrite <-Hj, split_join.
  - constructor; [split; [by rewrite Hj|apply Forall_joined; [by repeat constructor|done]]|].
    constructor; [done|]. by constructor.
Qed.
Lemma rewrite_line_entries line : line_okb line = true ->
  flat_map (line_entries to_lowercase) (kept_lines (rewrite_line to_lowercase R kt fp line).1)
    = List.filter stays (line_entries to_lowercase line)
  /\ (rewrite_line to_lowercase R kt fp line).2 = existsb goes (line_entries to_lowercase line).
Proof.
  intros Hok. assert (Hsame : flat_map (line_entries to_lowercase) (kept_lines (Some line)) = line_entries to_lowercase line)
    by (cbn; by rewrite app_nil_r).
  unfold rewrite_line, line_okb in *. unfold line_entries in *. pose proof (ws_words line) as Hws.
  destruct (split_whitespace line) as [|names [|kt1 [|kd rest]]] eqn:Ews; [done..|].
  cbn [kept_lines flat_map] in Hsame. rewrite Ews in Hsame.
  inversion_clear Hws as [|? ? [_ Hnw] Hws1]. inversion_clear Hws1 as [|? ? Hkt Hws2]. inversion_clear Hws2 as [|? ? Hkd Hrest].
  assert (Hkm : negb (bool_decide (kt1 = kt)) || negb (bool_decide (fingerprint_from_known_hosts_key_data kd = fp))
                = negb (key_matches (mkEntry kt1 kd))) by (unfold key_matches; cbn; by rewrite negb_andb).
  rewrite Hkm. destruct (key_matches (mkEntry kt1 kd)) eqn:Hm; cbn [negb].
  2:{ cbn [fst snd kept_lines flat_map]. rewrite Ews, Hsame. destruct (starts_with_char 35 names); [done|].
      destruct (other_key_stays (mkEntry kt1 kd) (split_char 44 names) Hm) as [-> ->]. done. }
  assert (kt1 = kt) as -> by (unfold key_matches in Hm; cbn in Hm; apply andb_true_iff in Hm as [Hm _]; by apply bool_decide_eq_true in Hm).
  fold keeps. destruct (starts_with_char 35 names) eqn:H35.
  { destruct names as [|c names]; [done|]. cbn in H35. apply Z.eqb_eq in H35. subst c. apply andb_true_iff in Hok as [Ha Hc].
    rewrite split_one. 2:{ apply List.Forall_forall. rewrite forallb_forall in Hc. intros x Hx. apply Hc in Hx. lia. }
    cbn [List.filter]. unfold keeps. rewrite special_stays by (done || by apply asciib_ascii || by left).
    cbn [negb length Nat.eqb fst snd kept_lines flat_map]. rewrite Ews. done. }
  assert (Hns : Forall (fun n => name_okb n = true) (split_char 44 names))
    by (apply List.Forall_forall; by apply forallb_forall).
  assert (Hwns : Forall (Forall (fun x => is_whitespace x = false)) (split_char 44 names)) by by apply Forall_split.
  destruct (kept_entries (mkEntry kt kd) (split_char 44 names) Hm Hns Hwns) as [Hk1 Hk2]. rewrite Hk2, <-Hk1.
  change (List.filter (fun hostname => negb (existsb (fun h => bool_decide (canonical_host_entry to_lowercase hostname = h)) R)) (split_char 44 names))
    with (List.filter keeps (split_char 44 names)).
  destruct (Nat.eqb_spec (length (List.filter keeps (split_char 44 names))) (length (split_char 44 names))) as [Hlen|Hlen].
  { cbn [fst snd kept_lines flat_map]. rewrite Ews, H35, (filter_length_id _ _ Hlen). by rewrite app_nil_r. }
  destruct (List.filter keeps (split_char 44 names)) as [|n kept] eqn:Ek; [done|]. cbn [fst snd kept_lines flat_map negb].
  rewrite app_nil_r. split; [|done]. refine (rebuilt_entries (n :: kept) kd rest _ _ _ _ Hkt Hkd Hrest); [done|..];
    rewrite <-Ek; apply List.Forall_forall; intros x Hx; apply filter_In in Hx as [Hx _].
  - by eapply (proj1 (List.Forall_forall _ _)) in Hns.
  - by eapply (proj1 (List.Forall_forall _ _)) in Hwns.
  - pose proof (split_pieces 44 names) as Hp. by eapply (proj1 (List.Forall_forall _ _)) in Hp.
Qed.

Lemma rewrite_line_chars (P : Z -> Prop) line : P 32 -> P 44 -> Forall P line ->
  Forall (Forall P) (kept_lines (rewrite_line to_lowercase R kt fp line).1).
Proof.
  intros H32 H44 Hl. unfold rewrite_line. pose proof (Forall_words P line Hl) as Hw.
  assert (Hsame : Forall (Forall P) (kept_lines (Some line))) by by repeat constructor.
  destruct (split_whitespace line) as [|names [|kt1 [|kd rest]]]; [done..|]. destruct (negb _ || _); [done|].
  destruct (Nat.eqb _ _); [done|]. destruct (List.filter _ _) as [|n kept] eqn:Ek; [constructor|].
  inversion_clear Hw as [|? ? Hn Hw1]. cbn [fst kept_lines]. repeat constructor.
  apply Forall_joined; [repeat constructor; exact H32|]. constructor; [|done]. apply Forall_joined; [repeat constructor; exact H44|].
  rewrite <-Ek. apply List.Forall_forall. intros x Hx. apply filter_In in Hx as [Hx _].
  pose proof (Forall_split P 44 names Hn) as Hs. by eapply (proj1 (List.Forall_forall _ _)) in Hs.
Qed.
Lemma line_entries_chomp ls : flat_map (line_entries to_lowercase) (map chomp ls) = flat_map (line_entries to_lowercase) ls.
Proof. induction ls as [|l ls IH]; simpl; [done|]. rewrite IH. unfold line_entries at 1. by rewrite ws_chomp. Qed.
Lemma entries_join ls : Forall (Forall (fun c => c <> 10)) ls ->
  text_entries to_lowercase (FileSystem.join [10] ls ++ [10]) = flat_map (line_entries to_lowercase) ls.
Proof.
  intros Hls. unfold text_entries. destruct ls as [|l ls]; [done|]. rewrite lines_join by done. apply line_entries_chomp.
Qed.

Lemma kept_of_done (ls : list (list Z)) :
  omap fst (map (rewrite_line to_lowercase R kt fp) ls) = flat_map (fun l => kept_lines (rewrite_line to_lowercase R kt fp l).1) ls.
Proof. induction ls as [|l ls IH]; [done|]. cbn. rewrite <-IH. by destruct (rewrite_line to_lowercase R kt fp l).1. Qed.
Lemma Forall_flat_map {A B} (P : B -> Prop) (f : A -> list B) l : Forall (fun x => Forall P (f x)) l -> Forall P (flat_map f l).
Proof. induction 1 as [|x l Hx Hl IH]; cbn; [constructor|]. by apply Forall_app. Qed.

Lemma rewrite_text_entries hosts text : map to_lowercase hosts = R -> text_okb text = true -> str_ok text ->
  text_entries to_lowercase (rewrite_text to_lowercase hosts kt fp text).1 = List.filter stays (text_entries to_lowercase text)
  /\ (rewrite_text to_lowercase hosts kt fp text).2 = existsb goes (text_entries to_lowercase text)
  /\ str_ok (rewrite_text to_lowercase hosts kt fp text).1.
Proof.
  intros HR Hok Hs. unfold rewrite_text. rewrite HR. cbn [fst snd]. rewrite kept_of_done.
  assert (Hchars : forall P : Z -> Prop, P 32 -> P 44 -> Forall (Forall P) (lines text) ->
    Forall (Forall P) (flat_map (fun l => kept_lines (rewrite_line to_lowercase R kt fp l).1) (lines text))).
  { intros P H32 H44 HP. apply Forall_flat_map. eapply Forall_impl; [exact HP|]. intros l Hl. by apply rewrite_line_chars. }
  split_and!.
  - rewrite entries_join by (apply Hchars; [done|done|apply lines_no_nl]). unfold text_entries. rewrite filter_flat_map.
    unfold text_okb in Hok. induction (lines text) as [|l ls IH]; [done|]. cbn [forallb] in Hok. apply andb_true_iff in Hok as [Hl Hls].
    cbn [flat_map]. rewrite flat_map_app, (proj1 (rewrite_line_entries l Hl)). f_equal. apply IH; [done|].
    intros P H32 H44 HP. apply Forall_flat_map. eapply Forall_impl; [exact HP|]. intros x Hx. by apply rewrite_line_chars.
  - unfold text_entries. rewrite existsb_flat_map. unfold text_okb in Hok. clear Hchars.
    induction (lines text) as [|l ls IH]; [done|]. cbn [forallb] in Hok. apply andb_true_iff in Hok as [Hl Hls].
    cbn [map existsb]. by rewrite IH, (proj2 (rewrite_line_entries l Hl)).
  - unfold str_ok. apply Forall_app; split; [|by repeat constructor]. apply Forall_joined; [by repeat constructor|].
    apply Hchars; [done|done|]. by apply lines_aux_pieces.
Qed.
End Removal.

(** ** The operations on a file that can be accessed *)

Class IterLaw (cache_iter : HostKeyCache -> list (list Z * CacheEntry)) : Prop :=
  iter_perm : forall c, cache_iter c ≡ₚ map_to_list c.

(** The text of the file; a missing file is an empty one. *)
Definition file_text (w : World) (text : list Z) : Prop :=
  known_hosts w = None /\ text = [] \/ known_hosts w = Some (utf8_encode text) /\ str_ok text.
(** The names of a host's keys, and the keys that a removal takes from them. *)
Definition taken {PublicKey : Type} `{KeyLib PublicKey} (to_lowercase : list Z -> list Z) (host : list Z) (port : Z)
    (kt fp name : list Z) (e : HostKeyEntry) : bool :=
  (bool_decide (name = make_key to_lowercase host port) || bool_decide (name = to_lowercase host)) && key_matches kt fp e.

Section Worlds.
Context {PublicKey : Type} `{KL : KeyLib PublicKey} {KW : KeyLaws PublicKey}.
Context (to_lowercase : list Z -> list Z) {LL : LowerLaw to_lowercase}.
Context (cache_iter : HostKeyCache -> list (list Z * CacheEntry)) {IL : IterLaw cache_iter}.
Context (fault : nat -> option (option nat * list Z)) (no_fault : forall i, fault i = None).
Abbreviation hosts_of text := (load_text to_lowercase ∅ text).

Lemma load_file w text : file_text w text ->
  exists n, load to_lowercase fault ∅ w = Some (Ok (hosts_of text), mkWorld (known_hosts w) (cache w) n (now w)).
Proof.
  intros [[Hk ->]|[Hk Hs]]; unfold load, path_exists, bind; rewrite no_fault, Hk; cbn [negb].
  - eexists. unfold ret, io_tick. cbn. by rewrite Hk.
  - unfold read_to_string. rewrite no_fault. cbn [known_hosts io_tick]. rewrite Hk, from_utf8_encode by done.
    eexists. unfold ret, io_tick. cbn. by rewrite Hk.
Qed.

Lemma type_word key : word_ok (public_key_type key) /\ ascii (public_key_type key).
Proof.
  unfold public_key_type. repeat case_bool_decide; by repeat (split || constructor).
Qed.
Lemma lookup_key_lower host port : host_ok host -> is_u16 port ->
  to_lowercase (make_key to_lowercase host port) = make_key to_lowercase host port.
Proof.
  intros Hh Hp. pose proof (make_key_chars to_lowercase host port Hh Hp) as Hc.
  rewrite LL by (eapply Forall_impl; [exact Hc|]; intros c Hx; cbn in Hx; lia). clear Hc. unfold make_key.
  pose proof (lower_idem to_lowercase host Hh) as Hi. rewrite (LL (to_lowercase host)) in Hi by by apply host_ascii, lower_ok.
  destruct (port =? 22); [done|]. rewrite !map_app, Hi. enough (Hd : map ascii_lowercase (u64_to_string port) = u64_to_string port).
  { by rewrite Hd. }
  assert (Hd : Forall (fun c => 48 <= c <= 57) (u64_to_string port)) by (apply digit_word; unfold in_width in *; lia).
  induction Hd as [|c s Hx Hd IH]; [done|]. cbn [map]. rewrite IH. f_equal.
  unfold ascii_lowercase. destruct (Z.leb_spec 65 c); [lia|done].
Qed.
Lemma lookup_keys_spec host port : host_ok host -> is_u16 port ->
  map to_lowercase (lookup_keys to_lowercase host port) = lookup_keys to_lowercase host port
  /\ forall h, In h (lookup_keys to_lowercase host port) <-> h = make_key to_lowercase host port \/ h = to_lowercase host.
Proof.
  intros Hh Hp. unfold lookup_keys. rewrite normalize_host by done. case_bool_decide as E; cbn [map In].
  - rewrite lookup_key_lower by done. split; [done|]. intros h. rewrite E. intuition.
  - rewrite lookup_key_lower, lower_idem by done. split; [done|]. intros h. intuition.
Qed.

(** *** Learning *)

Lemma learned_line host port key : host_ok host -> is_u16 port ->
  let line := make_key to_lowercase host port ++ lit " " ++ public_key_type key ++ lit " " ++ public_key_base64 key ++ [10] in
  str_ok line /\ text_entries to_lowercase line
    = [(make_key to_lowercase host port, mkEntry (public_key_type key) (public_key_base64 key))].
Proof.
  intros Hh Hp line. pose proof (make_key_word to_lowercase host port Hh Hp) as Hmw.
  pose proof (make_key_chars to_lowercase host port Hh Hp) as Hmc.
  destruct (type_word key) as [Htw Hta]. destruct (base64_word key) as [Hbw Hba].
  set (mk := make_key to_lowercase host port) in *. set (kt := public_key_type key) in *. set (kd := public_key_base64 key) in *.
  assert (Hline : line = FileSystem.join [32] [mk; kt; kd] ++ [10])
    by (unfold line; cbn [FileSystem.join]; by rewrite <-!app_assoc).
  assert (Hm : ascii mk) by (eapply Forall_impl; [exact Hmc|]; intros c Hc; cbn in Hc; lia).
  assert (Ha : ascii (FileSystem.join [32] [mk; kt; kd])) by (apply Forall_joined; by repeat constructor).
  split; [rewrite Hline; apply ascii_scalar, Forall_app; by repeat constructor|].
  assert (Hws : split_whitespace (FileSystem.join [32] [mk; kt; kd]) = [mk; kt; kd]) by (apply ws_join; by repeat (constructor; [done|])).
  assert (Hnl : Forall (fun c => c <> 10) (FileSystem.join [32] [mk; kt; kd])).
  { assert (Hw : forall w, word_ok w -> Forall (fun c => c <> 10) w)
      by (intros w [_ Hw]; eapply Forall_impl; [exact Hw|]; by intros c Hc ->).
    apply Forall_joined; [by repeat constructor|]. repeat constructor; by apply Hw. }
  rewrite Hline. change (FileSystem.join [32] [mk; kt; kd] ++ [10]) with (FileSystem.join [10] [FileSystem.join [32] [mk; kt; kd]] ++ [10]).
  rewrite entries_join by by repeat constructor. cbn [flat_map]. rewrite app_nil_r. unfold line_entries. rewrite Hws.
  destruct (make_key_head to_lowercase host port Hh) as (c & t & Hmk & H35 & H124). fold mk in Hmk.
  assert (starts_with_char 35 mk = false) as -> by (rewrite Hmk; cbn; lia).
  rewrite split_one by (eapply Forall_impl; [exact Hmc|]; intros x Hx; cbn in Hx; lia). cbn [flat_map]. rewrite app_nil_r.
  unfold name_entries. assert (starts_with_char 124 mk = false) as -> by (rewrite Hmk; cbn; lia).
  unfold mk at 1. by rewrite canonical_make_key.
Qed.

Lemma entries_append text line : text = [] \/ last text = Some 10 ->
  text_entries to_lowercase (text ++ line) = text_entries to_lowercase text ++ text_entries to_lowercase line.
Proof. intros Ht. unfold text_entries. by rewrite lines_append, flat_map_app. Qed.
Lemma hosts_lookup text name : default [] (hosts_of text !! name) = keys_for name (text_entries to_lowercase text).
Proof. rewrite load_lookup by done. by destruct (keys_for _ _). Qed.
Lemma keys_for_app name l1 l2 : keys_for name (l1 ++ l2) = keys_for name l1 ++ keys_for name l2.
Proof. unfold keys_for. by rewrite List.filter_app, map_app. Qed.
Lemma set_verified_hit host port fp w : get_verified to_lowercase host port (set_verified to_lowercase cache_iter host port fp w)
  = (Some fp, set_verified to_lowercase cache_iter host port fp w).
Proof.
  unfold get_verified, set_verified. cbn [cache set_cache]. rewrite lookup_insert, decide_True by done.
  unfold elapsed_secs. cbn [verified_at now set_cache]. by rewrite Z.leb_refl, Z.sub_diag.
Qed.

(** *** The cache *)

Lemma remove_keys_lookup ks c k : remove_keys ks c !! k = if decide (k ∈ ks) then None else c !! k.
Proof.
  revert c. induction ks as [|x ks IH]; intros c; cbn; [done|]. rewrite IH. destruct (decide (k ∈ ks)).
  - rewrite decide_True by by right. done.
  - destruct (decide (k = x)) as [->|]; [rewrite lookup_delete, !decide_True by (done || left); done|].
    rewrite lookup_delete_ne by done. rewrite decide_False; [done|]. by intros [?|?]%elem_of_cons.
Qed.
Lemma remove_keys_size ks c : NoDup ks -> (forall k, k ∈ ks -> is_Some (c !! k)) ->
  size (remove_keys ks c) = (size c - length ks)%nat.
Proof.
  intros Hnd. revert c. induction Hnd as [|k ks Hk Hnd IH]; intros c Hc; cbn; [lia|]. rewrite IH.
  - rewrite map_size_delete_Some by (apply Hc; left). lia.
  - intros k' Hk'. rewrite lookup_delete_ne by (intros ->; done). apply Hc. by right.
Qed.
Lemma iter_in c k e : (k, e) ∈ cache_iter c <-> c !! k = Some e.
Proof. rewrite (IL c). apply elem_of_map_to_list. Qed.

Abbreviation ages c := (merge_sort older (map (fun e => (e.1, verified_at e.2)) (cache_iter c))).
Lemma older_total : Total older.
Proof. intros a b. unfold older. lia. Qed.
Lemma older_trans : Transitive older.
Proof. intros a b d. unfold older. lia. Qed.
Lemma ages_perm c : ages c ≡ₚ map (fun e => (e.1, verified_at e.2)) (map_to_list c).
Proof. rewrite merge_sort_Permutation. by rewrite (IL c). Qed.
Lemma ages_in c k t : (k, t) ∈ ages c <-> exists e, c !! k = Some e /\ verified_at e = t.
Proof.
  rewrite ages_perm, list_elem_of_fmap. split.
  - intros ([k' e] & [= -> ->] & Hin). exists e. by apply elem_of_map_to_list in Hin.
  - intros (e & He & <-). exists (k, e). split; [done|]. by apply elem_of_map_to_list.
Qed.
Lemma ages_nodup c : NoDup (map fst (ages c)).
Proof.
  rewrite (fmap_Permutation fst _ _ (ages_perm c) : map fst _ ≡ₚ map fst _). rewrite map_map. cbn.
  apply NoDup_fst_map_to_list.
Qed.
Lemma taken_ages c n k : k ∈ map fst (take n (ages c)) -> is_Some (c !! k).
Proof.
  intros Hk. apply list_elem_of_fmap in Hk as ([k' t] & -> & Hin).
  assert (Hi : (k', t) ∈ ages c) by (rewrite <-(take_drop n (ages c)); apply elem_of_app; by left).
  apply ages_in in Hi as (e & He & _). by exists e.
Qed.
Lemma evict_oldest_size c : (MAX_CACHE_ENTRIES <= size c)%nat -> (size (evict_oldest cache_iter c) = size c - 125)%nat.
Proof.
  intros Hc. unfold evict_oldest. rewrite remove_keys_size.
  - rewrite length_map, length_take, (Permutation_length (ages_perm c)), length_map.
    rewrite length_map_to_list. unfold MAX_CACHE_ENTRIES in *. change (500 / 4)%nat with 125%nat. lia.
  - eapply sublist_NoDup; [apply ages_nodup|]. apply fmap_sublist, sublist_take.
  - apply taken_ages.
Qed.
Lemma evict_oldest_order c k e k' e' : c !! k = Some e -> evict_oldest cache_iter c !! k = None ->
  evict_oldest cache_iter c !! k' = Some e' -> verified_at e <= verified_at e'.
Proof.
  intros Hk Hgone Hkept. unfold evict_oldest in *. rewrite remove_keys_lookup in Hgone, Hkept.
  destruct (decide (k ∈ _)) as [Hin|]; [|congruence]. destruct (decide (k' ∈ _)) as [|Hout]; [done|].
  apply list_elem_of_fmap in Hin as ([k1 t] & -> & Hin).
  assert (Hi : (k1, t) ∈ ages c) by (rewrite <-(take_drop (MAX_CACHE_ENTRIES / 4) (ages c)); apply elem_of_app; by left).
  apply ages_in in Hi as (e1 & He1 & <-). cbn in Hk. assert (e1 = e) as -> by congruence.
  assert (Hd : (k', verified_at e') ∈ drop (MAX_CACHE_ENTRIES / 4) (ages c)).
  { assert (Hi : (k', verified_at e') ∈ ages c) by (apply ages_in; eauto).
    rewrite <-(take_drop (MAX_CACHE_ENTRIES / 4) (ages c)) in Hi. apply elem_of_app in Hi as [Hi|]; [|done].
    destruct Hout. apply list_elem_of_fmap. by exists (k', verified_at e'). }
  pose proof older_trans. pose proof older_total.
  assert (Hs : StronglySorted older (ages c)) by by apply StronglySorted_merge_sort.
  rewrite <-(take_drop (MAX_CACHE_ENTRIES / 4) (ages c)) in Hs.
  by apply (StronglySorted_app_1_elem_of _ _ _ (k1, verified_at e) (k', verified_at e') Hs Hin Hd).
Qed.

Lemma evict_expired_lookup t c k e : c !! k = Some e ->
  evict_expired cache_iter t c !! k = if is_expired t e then None else Some e.
Proof.
  intros Hk. unfold evict_expired. rewrite remove_keys_lookup.
  assert (Hin : k ∈ map fst (List.filter (fun e => is_expired t e.2) (cache_iter c)) <-> is_expired t e = true).
  { rewrite list_elem_of_fmap. split.
    - intros ([k' e'] & -> & Hin). apply list_elem_of_In, filter_In in Hin as [Hin Hx]. apply list_elem_of_In, iter_in in Hin.
      cbn in *. congruence.
    - intros Hx. exists (k, e). split; [done|]. apply list_elem_of_In, filter_In. split; [|done]. by apply list_elem_of_In, iter_in. }
  destruct (is_expired t e); [by rewrite decide_True by by apply Hin|]. rewrite decide_False; [done|]. by intros ?%Hin.
Qed.
Lemma remove_keys_shrinks ks c : remove_keys ks c ⊆ c.
Proof.
  apply map_subseteq_spec. intros k e. rewrite remove_keys_lookup. by destruct (decide _).
Qed.

(** What [set_verified] keeps of the cache it finds. *)
Definition evicted (t : Z) (c : HostKeyCache) : HostKeyCache :=
  let c := if decide (MAX_CACHE_ENTRIES <= size c)%nat then evict_expired cache_iter t c else c in
  if decide (MAX_CACHE_ENTRIES <= size c)%nat then evict_oldest cache_iter c else c.
Lemma evicted_size t c : (size c <= MAX_CACHE_ENTRIES)%nat -> (size (evicted t c) < MAX_CACHE_ENTRIES)%nat.
Proof.
  intros Hc. unfold evicted. set (c1 := if decide _ then evict_expired _ _ _ else _).
  assert (H1 : (size c1 <= MAX_CACHE_ENTRIES)%nat).
  { unfold c1. destruct (decide _); [|done]. etrans; [|exact Hc]. apply map_subseteq_size, remove_keys_shrinks. }
  destruct (decide (MAX_CACHE_ENTRIES <= size c1)%nat) as [H|H]; [|lia]. rewrite evict_oldest_size by done.
  unfold MAX_CACHE_ENTRIES in *. lia.
Qed.
Lemma evicted_old t c k e : c !! k = Some e -> evicted t c !! k = None ->
  is_expired t e = true \/ forall k' e', evicted t c !! k' = Some e' -> verified_at e <= verified_at e'.
Proof.
  intros Hk Hgone. unfold evicted in *. set (c1 := if decide _ then evict_expired _ _ _ else _) in *.
  assert (H1 : is_expired t e = true \/ c1 !! k = Some e).
  { unfold c1. destruct (decide _); [|by right]. rewrite (evict_expired_lookup _ _ _ e) by done.
    destruct (is_expired t e); [by left|by right]. }
  destruct H1 as [|H1]; [by left|]. right. intros k' e' Hk'.
  destruct (decide (MAX_CACHE_ENTRIES <= size c1)%nat); [|congruence]. by eapply evict_oldest_order.
Qed.
Lemma evicted_kept t c k e : evicted t c !! k = Some e -> c !! k = Some e.
Proof.
  intros Hk. apply (lookup_weaken _ _ _ _ Hk). unfold evicted.
  set (c1 := if decide _ then evict_expired _ _ _ else _). trans c1.
  - destruct (decide (MAX_CACHE_ENTRIES <= size c1)%nat); [apply remove_keys_shrinks|done].
  - unfold c1. destruct (decide _); [apply remove_keys_shrinks|done].
Qed.

(** After a host is verified for the session the cache holds at most 500
    hosts, the host is found with its fingerprint until an hour has passed, the
    other entries are as before, and an entry that was dropped had expired, or
    was verified no later than any that stayed. *)
Theorem host_key_cache_bounded host port fp w : (size (cache w) <= MAX_CACHE_ENTRIES)%nat ->
  let w' := set_verified to_lowercase cache_iter host port fp w in
  let own := host_key_cache_key to_lowercase host port in
  (size (cache w') <= MAX_CACHE_ENTRIES)%nat
  /\ (forall later, now w <= later ->
        (get_verified to_lowercase host port (mkWorld (known_hosts w') (cache w') (io_calls w') later)).1
        = if later - now w <? 3600 * 1000000000 then Some fp else None)
  /\ (forall k e, k <> own -> cache w' !! k = Some e -> cache w !! k = Some e)
  /\ (forall k e, k <> own -> cache w !! k = Some e -> cache w' !! k = None ->
        is_expired (now w) e = true
        \/ forall k' e', k' <> own -> cache w' !! k' = Some e' -> verified_at e <= verified_at e').
Proof.
  intros Hc w' own.
  assert (Hw : cache w' = <[own := mkCached fp (now w)]> (evicted (now w) (cache w))) by done.
  split_and!.
  - rewrite Hw. pose proof (evicted_size (now w) (cache w) Hc).
    rewrite map_size_insert. destruct (evicted (now w) (cache w) !! own); cbn; lia.
  - intros later Hl. unfold get_verified. cbn [cache HostKey.now]. rewrite Hw. fold own. rewrite lookup_insert, decide_True by done.
    unfold elapsed_secs. cbn [verified_at cached_fingerprint]. rewrite (proj2 (Z.leb_le _ _)) by done.
    unfold CACHE_TTL_SECS. destruct (Z.ltb_spec ((later - now w) / 1000000000) 3600), (Z.ltb_spec (later - now w) (3600 * 1000000000)); try done.
    + pose proof (Z.div_le_lower_bound (later - now w) 1000000000 3600). lia.
    + pose proof (Z.div_lt_upper_bound (later - now w) 1000000000 3600). lia.
  - intros k e Hk. rewrite Hw, lookup_insert_ne by done. apply evicted_kept.
  - intros k e Hk. rewrite Hw, lookup_insert_ne by done. intros He Hgone.
    destruct (evicted_old _ _ _ _ He Hgone) as [|H]; [by left|]. right. intros k' e' Hk'.
    rewrite lookup_insert_ne by done. apply H.
Qed.

(** *** The operations *)

Lemma verify_uncached w text host port key : file_text w text -> (get_verified to_lowercase host port w).1 = None ->
  exists w', verify_host_key to_lowercase fault host port key w
    = Some (Ok (verify_spec (consulted to_lowercase text host port) key), w')
    /\ known_hosts w' = known_hosts w /\ cache w' = cache (get_verified to_lowercase host port w).2.
Proof.
  intros Hf Hg. unfold verify_host_key. destruct (get_verified to_lowercase host port w) as [[?|] w1] eqn:Eg; [done|].
  assert (Hf1 : file_text w1 text /\ known_hosts w1 = known_hosts w).
  { unfold get_verified in Eg. destruct (cache w !! _) as [e|]; [|by simplify_eq].
    destruct (elapsed_secs _ _) as [t|]; [|by simplify_eq]. destruct (t <? CACHE_TTL_SECS); [done|]. by injection Eg as <-. }
  destruct Hf1 as [Hf1 Hk1]. destruct (load_file w1 text Hf1) as [n Hl]. unfold new_store, bind. rewrite Hl.
  eexists. split; [unfold ret; by rewrite verify_consulted|]. done.
Qed.

Lemma learn_ok w text host port key : file_text w text -> text = [] \/ last text = Some 10 -> host_ok host -> is_u16 port ->
  exists w' line, learn_host_key to_lowercase cache_iter fault host port key w = Some (Ok tt, w')
    /\ known_hosts w' = Some (utf8_encode (text ++ line)) /\ str_ok (text ++ line)
    /\ text_entries to_lowercase (text ++ line) = text_entries to_lowercase text
         ++ [(make_key to_lowercase host port, mkEntry (public_key_type key) (public_key_base64 key))]
    /\ get_verified to_lowercase host port w' = (Some (fingerprint key), w').
Proof.
  intros Hf Ht Hh Hp. destruct (load_file w text Hf) as [n Hl]. destruct (learned_line host port key Hh Hp) as [Hs He].
  unfold learn_host_key, new_store, bind. rewrite Hl. unfold add_host, append_known_host_line, create_parent, append_file, bind.
  rewrite !no_fault. unfold accept_host_key_for_session, ret.
  eexists _, (make_key to_lowercase host port ++ lit " " ++ public_key_type key ++ lit " " ++ public_key_base64 key ++ [10]).
  split; [done|]. cbn [known_hosts set_verified set_cache].
  split_and!; [|..|by rewrite entries_append, He|apply set_verified_hit].
  - unfold set_verified, io_tick, set_known_hosts, set_cache. cbn [known_hosts].
    destruct Hf as [[Hk ->]|[Hk _]]; rewrite Hk; [done|]. by rewrite (utf8_encode_app text).
  - apply Forall_app. split; [|done]. destruct Hf as [[_ ->]|[_ Hf]]; [constructor|done].
Qed.

Lemma consulted_last text host port e name : keys_for name (text_entries to_lowercase text) = e ->
  name = make_key to_lowercase host port -> e <> [] -> consulted to_lowercase text host port = e.
Proof. intros He -> Hne. unfold consulted. rewrite He. by destruct e. Qed.

(** C9: With a readable and writable known_hosts file that is missing, empty or
    ends with a line break, learning a host's key succeeds; the file then
    records every key it recorded before, in the same order, and the new key
    for that host and port, and nothing else; the host is in the session cache
    with the key's fingerprint; and a later session, with an empty cache, finds
    the key verified from the file alone. *)
Theorem learned_key_verifies w text host port key : file_text w text -> text = [] \/ last text = Some 10 ->
  host_ok host -> is_u16 port ->
  exists w' text', learn_host_key to_lowercase cache_iter fault host port key w = Some (Ok tt, w')
    /\ known_hosts w' = Some (utf8_encode text')
    /\ (forall name, default [] (hosts_of text' !! name) = default [] (hosts_of text !! name)
          ++ if bool_decide (name = make_key to_lowercase host port)
             then [mkEntry (public_key_type key) (public_key_base64 key)] else [])
    /\ get_verified to_lowercase host port w' = (Some (fingerprint key), w')
    /\ forall calls later, exists w'', verify_host_key to_lowercase fault host port key
          (mkWorld (known_hosts w') ∅ calls later) = Some (Ok Verified, w'').
Proof.
  intros Hf Ht Hh Hp. destruct (learn_ok w text host port key Hf Ht Hh Hp) as (w' & line & Hr & Hk & Hs & He & Hg).
  exists w', (text ++ line). split_and!; [done|done| |done|].
  - intros name. rewrite !hosts_lookup, He, keys_for_app. f_equal. unfold keys_for. cbn [List.filter fst].
    by destruct (decide (name = make_key to_lowercase host port)) as [->|Hne];
      [rewrite !bool_decide_eq_true_2|rewrite !bool_decide_eq_false_2].
  - intros calls later. set (w0 := mkWorld _ _ _ _). assert (Hf0 : file_text w0 (text ++ line)) by by right.
    destruct (verify_uncached w0 _ host port key Hf0) as (w'' & -> & _ & _).
    { unfold get_verified, w0. cbn [cache]. by rewrite lookup_empty. }
    exists w''. do 3 f_equal. erewrite consulted_last; [|done|done|].
    + unfold verify_spec. rewrite He, keys_for_app. unfold keys_for at 2. cbn [List.filter fst].
      rewrite bool_decide_eq_true_2 by done. cbn [map snd]. unfold of_type. rewrite List.filter_app. cbn [List.filter key_type].
      rewrite bool_decide_eq_true_2 by done. set (l := List.filter _ (keys_for _ _)).
      assert (Hx : existsb (fun e => bool_decide (key_data e = public_key_base64 key)) (l ++ [mkEntry (public_key_type key) (public_key_base64 key)]) = true).
      { rewrite existsb_app. cbn [existsb key_data]. rewrite bool_decide_eq_true_2 by done. by destruct (existsb _ l). }
      destruct (l ++ _) eqn:E; [by destruct l|]. by rewrite Hx.
    + rewrite He, keys_for_app. unfold keys_for at 2. cbn [List.filter fst]. rewrite bool_decide_eq_true_2 by done.
      cbn. by destruct (keys_for _ _).
Qed.

Lemma goes_taken host port kt fp name e : host_ok host -> is_u16 port ->
  goes (lookup_keys to_lowercase host port) kt fp (name, e) = taken to_lowercase host port kt fp name e.
Proof.
  intros Hh Hp. unfold goes, taken. cbn [fst snd]. f_equal. apply eq_true_iff_eq.
  rewrite existsb_exists, orb_true_iff, !bool_decide_eq_true. destruct (lookup_keys_spec host port Hh Hp) as [_ Hin].
  split; [intros (h & Hh1 & ->%bool_decide_eq_true); by apply Hin|].
  intros H. exists name. split; [by apply Hin|by apply bool_decide_eq_true].
Qed.
Lemma keys_for_filter (p : list Z * HostKeyEntry -> bool) name l :
  keys_for name (List.filter p l) = List.filter (fun e => p (name, e)) (keys_for name l).
Proof.
  unfold keys_for. induction l as [|[n e] l IH]; [done|]. cbn [List.filter fst]. destruct (decide (n = name)) as [->|Hne].
  - rewrite (bool_decide_eq_true_2 (name = name)) by done. cbn [map snd List.filter]. destruct (p (name, e)); [|done].
    cbn [List.filter fst]. rewrite bool_decide_eq_true_2 by done. cbn [map snd]. by rewrite IH.
  - rewrite (bool_decide_eq_false_2 (n = name)) by done. destruct (p (n, e)); [|done].
    cbn [List.filter fst]. by rewrite bool_decide_eq_false_2.
Qed.
Lemma keys_for_in name e l : In e (keys_for name l) <-> In (name, e) l.
Proof.
  unfold keys_for. rewrite in_map_iff. split.
  - intros ([n e'] & <- & Hin). apply filter_In in Hin as [Hin Hn]. cbn in Hn. by apply bool_decide_eq_true in Hn as ->.
  - intros Hin. exists (name, e). split; [done|]. apply filter_In. split; [done|]. by apply bool_decide_eq_true.
Qed.

(** C8: With a readable and writable known_hosts file whose lines the removal
    can take apart, removing a host's key (by its type and fingerprint) drops
    exactly the keys of that type and fingerprint recorded under the host's name
    with the port or under its name alone, and keeps every other key of every
    name, in order; it succeeds when there was such a key, and then the session
    cache forgets the host; otherwise it fails and the cache is as before. *)
Theorem removed_key_gone w text host port kt fp : known_hosts w = Some (utf8_encode text) -> str_ok text ->
  text_okb text = true -> host_ok host -> is_u16 port ->
  exists r w' text', remove_host_key to_lowercase fault host port kt fp w = Some (r, w')
    /\ known_hosts w' = Some (utf8_encode text')
    /\ (forall name, default [] (hosts_of text' !! name)
          = List.filter (fun e => negb (taken to_lowercase host port kt fp name e)) (default [] (hosts_of text !! name)))
    /\ match r with
        | Ok _ => (exists name e, In e (default [] (hosts_of text !! name)) /\ taken to_lowercase host port kt fp name e = true)
                  /\ cache w' = delete (host_key_cache_key to_lowercase host port) (cache w)
        | Err _ => (forall name e, In e (default [] (hosts_of text !! name)) -> taken to_lowercase host port kt fp name e = false)
                   /\ cache w' = cache w
        end.
Proof.
  intros Hk Hs Hok Hh Hp. destruct (lookup_keys_spec host port Hh Hp) as [Hlow Hin].
  assert (Hheads : forall h, In h (lookup_keys to_lowercase host port) -> exists c t, h = c :: t /\ c <> 35 /\ c <> 124).
  { intros h Hx. apply Hin in Hx as [->| ->]; [by apply make_key_head|]. exact (make_key_head to_lowercase host 22 Hh). }
  destruct (rewrite_text_entries to_lowercase _ kt fp Hheads _ text Hlow Hok Hs) as (He & Hany & Hs').
  set (new := (rewrite_text to_lowercase (lookup_keys to_lowercase host port) kt fp text).1) in *.
  assert (Hnames : forall name, default [] (hosts_of new !! name)
    = List.filter (fun e => negb (taken to_lowercase host port kt fp name e)) (default [] (hosts_of text !! name))).
  { intros name. rewrite !hosts_lookup, He, keys_for_filter. apply filter_ext. intros e. unfold stays. by rewrite goes_taken. }
  destruct (load_file w text) as [n Hl]; [by right|].
  unfold remove_host_key, new_store, bind. rewrite Hl. unfold store_remove_host_key, rewrite_without_host_key, bind, path_exists.
  rewrite no_fault. cbn [known_hosts]. rewrite Hk. cbn [negb]. unfold read_to_string. rewrite no_fault. cbn [known_hosts io_tick].
  rewrite from_utf8_encode by done. unfold write_file. rewrite no_fault. fold new. unfold ret. rewrite Hany. cbn [negb].
  set (w2 := io_tick (set_known_hosts _ _)).
  destruct (existsb _ (text_entries to_lowercase text)) eqn:Eany; cbn [negb].
  - destruct (load_file w2 new) as [m Hl2]; [by right|]. rewrite Hl2. eexists _, _, new. split; [done|]. split_and!; [done|exact Hnames| |done].
    apply existsb_exists in Eany as ([name e] & Hin1 & Hg). exists name, e. rewrite hosts_lookup, keys_for_in. split; [done|].
    by rewrite <-goes_taken.
  - eexists _, _, new. split; [done|]. split_and!; [done|exact Hnames| |done]. intros name e. rewrite hosts_lookup, keys_for_in.
    intros Hx. rewrite <-goes_taken by done. apply not_true_iff_false. intros Hg.
    assert (existsb (goes (lookup_keys to_lowercase host port) kt fp) (text_entries to_lowercase text) = true)
      by (apply existsb_exists; eauto). congruence.
Qed.

End Worlds.

(** ** Two keys *)

#[export] Instance two_keys : KeyLib bool := {|
  algorithm (_ : bool) := lit "ssh-ed25519";
  public_key_base64 (k : bool) := if k then lit "AAAAC3one" else lit "AAAAC3two";
  fingerprint (k : bool) := if k then lit "SHA256:one" else lit "SHA256:two";
  parse_public_key_base64 (s : list Z) := if bool_decide (s = lit "AAAAC3one") then Some true
                               else if bool_decide (s = lit "AAAAC3two") then Some false else None
|}.
#[export] Instance two_keys_laws : KeyLaws bool.
Proof. split; intros []; try done; split; by repeat (split || constructor). Qed.
#[export] Instance lower_map : LowerLaw (map ascii_lowercase).
Proof. by intros s _. Qed.
#[export] Instance iter_map_to_list : IterLaw map_to_list.
Proof. by intros c. Qed.

Abbreviation run_lower := (map ascii_lowercase).
Abbreviation no_faults := (fun _ : nat => @None (option nat * list Z)).
Definition two_hosts : list Z :=
  lit "Alpha.example,[beta.example]:2222 ssh-ed25519 AAAAC3one me" ++ [10] ++ lit "# a comment" ++ [10].
Definition empty_cache (text : list Z) : World := mkWorld (Some (utf8_encode text)) ∅ 0 0.
Definition handler (host : list Z) (port : Z) : NativeClientHandler := mkHandler host port true None None.

(** Learning after a last line without a line break joins the two lines: the new
    key is not recorded, and the old one is damaged. *)
Example learn_joins_lines :
  match learn_host_key run_lower map_to_list no_faults (lit "gamma") 22 false (empty_cache (lit "alpha ssh-ed25519 AAAAC3one")) with
  | Some (Ok _, w) =>
      let w := set_cache ∅ w in
      (match verify_host_key run_lower no_faults (lit "gamma") 22 false w with Some (Ok (Unknown _ _), _) => true | _ => false end)
      && (match verify_host_key run_lower no_faults (lit "alpha") 22 true w with Some (Ok (Changed _ _ _), _) => true | _ => false end)
  | _ => false
  end = true.
Proof. vm_compute. reflexivity. Qed.

Lemma host_key_cache_bounded_witness :
  (size (cache (set_verified run_lower map_to_list (lit "alpha") 22 (lit "SHA256:one") (empty_cache []))) <= MAX_CACHE_ENTRIES)%nat.
Proof.
  apply (host_key_cache_bounded run_lower map_to_list (lit "alpha") 22 (lit "SHA256:one") (empty_cache [])).
  change (size (cache (empty_cache []))) with 0%nat. unfold MAX_CACHE_ENTRIES. lia.
Defined.
Lemma learned_key_verifies_witness :
  exists w', learn_host_key run_lower map_to_list no_faults (lit "Gamma") 2200 false (empty_cache two_hosts) = Some (Ok tt, w').
Proof.
  destruct (learned_key_verifies run_lower map_to_list no_faults (fun _ => eq_refl) (empty_cache two_hosts) two_hosts (lit "Gamma") 2200 false)
    as (w' & text' & Hr & _).
  - right. split; [reflexivity|]. repeat constructor.
  - right. reflexivity.
  - reflexivity.
  - unfold in_width. lia.
  - exists w'. exact Hr.
Defined.
Lemma removed_key_gone_witness :
  exists r w', remove_host_key run_lower no_faults (lit "beta.example") 2222 (lit "ssh-ed25519") (lit "SHA256:one")
    (empty_cache two_hosts) = Some (r, w').
Proof.
  destruct (removed_key_gone run_lower no_faults (fun _ => eq_refl) (empty_cache two_hosts) two_hosts
    (lit "beta.example") 2222 (lit "ssh-ed25519") (lit "SHA256:one")) as (r & w' & text' & Hr & _).
  - reflexivity.
  - repeat constructor.
  - reflexivity.
  - reflexivity.
  - unfold in_width. lia.
  - exists r, w'. exact Hr.
Defined.
(** The recorded host answers with another key: refused, but accepted when any
    key of the host was verified within the hour. *)
Example changed_key_runs :
  match check_server_key run_lower map_to_list no_faults (handler (lit "alpha.example") 22) false (empty_cache two_hosts),
        check_server_key run_lower map_to_list no_faults (handler (lit "alpha.example") 22) false
          (set_verified run_lower map_to_list (lit "alpha.example") 22 (lit "SHA256:one") (empty_cache two_hosts)) with
  | Some (Err (HostKeyChanged _ _ _ _), _), Some (Ok true, _) => true
  | _, _ => false
  end = true.
Proof. vm_compute. reflexivity. Qed.
Example removed_key_runs :
  match remove_host_key run_lower no_faults (lit "beta.example") 2222 (lit "ssh-ed25519") (lit "SHA256:one") (empty_cache two_hosts) with
  | Some (Ok _, w) => bool_decide (known_hosts w = Some (lit "Alpha.example ssh-ed25519 AAAAC3one me" ++ [10] ++ lit "# a comment" ++ [10]))
  | _ => false
  end = true.
Proof. vm_compute. reflexivity. Qed.
