(* ===== verification/X11.v ===== *)
(** * X11 forwarding (hapcli-x11-forwarding, and hapcli-ssh's dispatcher)

    A server-opened X11 channel begins with an untrusted setup packet that must
    carry the fake cookie of a registered route; only then is the local X server
    dialled, and it sees the packet with the real cookie in its place.  Here are
    the cookies ([auth.rs]), the setup packet and its rewriting ([protocol.rs]),
    the buffer that collects it ([setup_buffer.rs]), the registry of fake cookies
    ([registry.rs]), the bridge of one stream ([runtime.rs]) and the dispatcher
    that shares routes between channels ([transport/x11.rs]), whose critical
    sections many bridges interleave.  A random cookie is an argument; a
    comparison in constant time is a comparison. *)
From S2P Require Import Prelude Text TrzszBuffer.
From Stdlib Require Import Ascii String.
From stdpp Require Import prelude numbers list gmap.
Open Scope Z_scope.

(** ** Errors and cookies *)

Inductive X11ForwardingError :=
  | EmptyDisplay
  | MissingDisplay
  | InvalidDisplay (s : list Z)
  | DisplayPortOutOfRange (display : Z)
  | InvalidAuthCookie (s : list Z)
  | UnsupportedAuthProtocol (s : list Z)
  | InvalidXauthRecord (s : list Z)
  | MissingAuthEntry
  | AuthorityFileUnavailable (s : list Z)
  | XauthUnavailable (s : list Z)
  | XauthTimedOut
  | XauthFailed (s : list Z)
  | XauthOutputTooLarge (limit : Z)
  | RemoteDisplayUnavailable
  | AuthCookieMismatch
  | IncompleteSetupPacket
  | SetupPacketTooLarge (max : Z)
  | UnsupportedByteOrder (b : Z)
  | InvalidSetupPacketLength.
Abbreviation X11Result := (result X11ForwardingError).

Inductive X11AuthProtocol := MitMagicCookie1.
#[export] Instance X11AuthProtocol_eq : EqDecision X11AuthProtocol.
Proof. solve_decision. Defined.
Definition ssh_name (p : X11AuthProtocol) : list Z := lit "MIT-MAGIC-COOKIE-1".
Definition parse_protocol (input : list Z) : X11Result X11AuthProtocol :=
  let s := trim_matches is_whitespace input in
  if bool_decide (s = lit "MIT-MAGIC-COOKIE-1") then Ok MitMagicCookie1 else Err (UnsupportedAuthProtocol s).

(** A cookie is its bytes. *)
Abbreviation X11AuthCookie := (list Z).
(** [random_with_len] over the random bytes it draws. *)
Definition random_with_len (random : nat -> Z) (len : Z) : X11AuthCookie :=
  map random (seq 0 (Z.to_nat (Z.max len 1))).
Definition cookie_from_bytes (bytes : list Z) : X11Result X11AuthCookie :=
  if bool_decide (bytes = []) then Err (InvalidAuthCookie (lit "cookie bytes must not be empty")) else Ok bytes.
Definition decode_hex_nibble (byte : Z) : X11Result Z :=
  if in_range 48 57 byte then Ok (byte - 48)
  else if in_range 97 102 byte then Ok (byte - 97 + 10)
  else if in_range 65 70 byte then Ok (byte - 65 + 10)
  else Err (InvalidAuthCookie (lit "hex cookie contains a non-hex digit")).
Fixpoint decode_pairs (hex : list Z) : X11Result (list Z) :=
  match hex with
  | a :: b :: rest =>
      let? high := decode_hex_nibble a in
      let? low := decode_hex_nibble b in
      let? bytes := decode_pairs rest in
      Ok (Z.lor (wrap 8 (Z.shiftl high 4)) low :: bytes)
  | _ => Ok []
  end.
Definition cookie_from_hex (input : list Z) : X11Result X11AuthCookie :=
  let hex := utf8_encode (trim_matches is_whitespace input) in
  if bool_decide (hex = []) then Err (InvalidAuthCookie (lit "hex cookie must not be empty"))
  else if negb (zlen hex mod 2 =? 0) then Err (InvalidAuthCookie (lit "hex cookie must contain an even number of digits"))
  else let? bytes := decode_pairs hex in cookie_from_bytes bytes.
Definition hex_digit (n : Z) : Z := if n <? 10 then 48 + n else 87 + n.
Definition push_hex_byte (byte : Z) : list Z := [hex_digit (Z.shiftr byte 4); hex_digit (Z.land byte 0x0f)].
Definition to_hex (cookie : X11AuthCookie) : list Z := concat (map push_hex_byte cookie).

Record X11AuthMaterial := mkAuth { protocol : X11AuthProtocol; fake_cookie : X11AuthCookie; local_cookie : X11AuthCookie }.
Definition mit_magic_cookie (random : nat -> Z) (local : X11AuthCookie) : X11AuthMaterial :=
  mkAuth MitMagicCookie1 (random_with_len random (zlen local)) local.
Definition ssh_auth_cookie (a : X11AuthMaterial) : list Z := to_hex (fake_cookie a).

(** Where the local X server listens. *)
Inductive X11LocalEndpoint := UnixSocket (path : list Z) | Tcp (host : list Z) (port : Z).
Definition unix_socket_for_display (display : Z) : X11LocalEndpoint :=
  UnixSocket (lit "/tmp/.X11-unix/X" ++ u64_to_string display).
Definition is_loopback_tcp (e : X11LocalEndpoint) : bool :=
  match e with
  | Tcp host _ => bool_decide (host = lit "localhost") || bool_decide (host = lit "127.0.0.1") || bool_decide (host = lit "::1")
  | UnixSocket _ => false
  end.

(** ** The setup packet *)

Definition SETUP_HEADER_LEN : Z := 12.
Inductive X11ByteOrder := BigEndian | LittleEndian.
Record X11SetupRequest := mkRequest {
  byte_order : X11ByteOrder; protocol_major : Z; protocol_minor : Z; auth_protocol : list Z; auth_data_len : Z
}.
Record ParsedSetup := mkParsed {
  request : X11SetupRequest; auth_protocol_bytes : list Z; data_start : Z; data_end : Z; auth_data_padded_end : Z
}.

(** [l[a..b]], and writing it. *)
Definition slice (a b : Z) (l : list Z) : list Z := ztake (b - a) (zdrop a l).
Definition set_slice (a : Z) (v l : list Z) : list Z := ztake a l ++ v ++ zdrop (a + zlen v) l.

Definition parse_byte_order (byte : Z) : X11Result X11ByteOrder :=
  if byte =? 66 then Ok BigEndian else if byte =? 108 then Ok LittleEndian else Err (UnsupportedByteOrder byte).
Definition read_u16 (bytes : list Z) (order : X11ByteOrder) : Z :=
  match bytes, order with
  | b0 :: b1 :: _, BigEndian => u16_from_be b0 b1
  | b0 :: b1 :: _, LittleEndian => u16_from_le b0 b1
  | _, _ => 0
  end.
Definition u16_bytes (value : Z) (order : X11ByteOrder) : list Z :=
  match order with
  | BigEndian => u16_to_be value
  | LittleEndian => [wrap 8 value; Z.shiftr value 8]
  end.
Definition padded_len (len : Z) : X11Result Z :=
  if len + 3 <=? U64_MAX then Ok (Z.land (len + 3) (bitnot 64 3)) else Err InvalidSetupPacketLength.
Definition checked_add (a b : Z) : X11Result Z :=
  if a + b <=? U64_MAX then Ok (a + b) else Err InvalidSetupPacketLength.

Definition setup_packet_total_len (packet : list Z) : X11Result (option Z) :=
  if zlen packet <? SETUP_HEADER_LEN then Ok None
  else
    let? order := parse_byte_order (default 0 (head packet)) in
    let auth_protocol_len := read_u16 (slice 6 8 packet) order in
    let auth_data_len := read_u16 (slice 8 10 packet) order in
    let? auth_protocol_padded_len := padded_len auth_protocol_len in
    let? auth_data_padded_len := padded_len auth_data_len in
    let? a := checked_add SETUP_HEADER_LEN auth_protocol_padded_len in
    let? total := checked_add a auth_data_padded_len in
    Ok (Some total).
Definition required_setup_packet_len (packet : list Z) : X11Result (option Z) := setup_packet_total_len packet.

Definition parse_setup_packet (packet : list Z) : X11Result ParsedSetup :=
  let? total := setup_packet_total_len packet in
  match total with
  | None => Err IncompleteSetupPacket
  | Some packet_min_len =>
      if zlen packet <? packet_min_len then Err IncompleteSetupPacket
      else
        let? order := parse_byte_order (default 0 (head packet)) in
        let major := read_u16 (slice 2 4 packet) order in
        let minor := read_u16 (slice 4 6 packet) order in
        let auth_protocol_len := read_u16 (slice 6 8 packet) order in
        let data_len := read_u16 (slice 8 10 packet) order in
        let auth_protocol_start := SETUP_HEADER_LEN in
        let? auth_protocol_padded_len := padded_len auth_protocol_len in
        let? auth_protocol_end := checked_add auth_protocol_start auth_protocol_len in
        let? auth_data_start := checked_add auth_protocol_start auth_protocol_padded_len in
        let? auth_data_end := checked_add auth_data_start data_len in
        let bytes := slice auth_protocol_start auth_protocol_end packet in
        Ok (mkParsed (mkRequest order major minor (from_utf8_lossy bytes) data_len) bytes auth_data_start auth_data_end
              packet_min_len)
  end.
Definition inspect_setup_request (packet : list Z) : X11Result X11SetupRequest :=
  let? parsed := parse_setup_packet packet in Ok (request parsed).

Record X11SetupAuthentication := mkSetupAuth {
  sa_request : X11SetupRequest; sa_protocol : X11AuthProtocol; sa_fake_cookie : X11AuthCookie
}.
Definition inspect_setup_authentication (packet : list Z) : X11Result X11SetupAuthentication :=
  let? parsed := parse_setup_packet packet in
  let? protocol := parse_protocol (auth_protocol (request parsed)) in
  let? cookie := cookie_from_bytes (slice (data_start parsed) (data_end parsed) packet) in
  Ok (mkSetupAuth (request parsed) protocol cookie).

Definition rewrite_auth_data (packet : list Z) (parsed : ParsedSetup) (replacement : list Z) : X11Result (list Z) :=
  if 65535 <? zlen replacement then Err InvalidSetupPacketLength
  else
    let packet := set_slice 8 (u16_bytes (zlen replacement) (byte_order (request parsed))) packet in
    if zlen replacement =? data_end parsed - data_start parsed
    then Ok (set_slice (data_start parsed) replacement packet)
    else
      let tail := zdrop (auth_data_padded_end parsed) packet in
      let? padded := padded_len (zlen replacement) in
      Ok (ztake (data_start parsed) packet ++ replacement
            ++ replicate (Z.to_nat (padded - zlen replacement)) 0 ++ tail).
(** The packet is changed in place; it is used only on success. *)
Definition rewrite_setup_authentication (packet : list Z) (auth : X11AuthMaterial) : X11Result (X11SetupRequest * list Z) :=
  let? parsed := parse_setup_packet packet in
  if negb (bool_decide (auth_protocol_bytes parsed = ssh_name (protocol auth)))
  then Err (UnsupportedAuthProtocol (from_utf8_lossy (auth_protocol_bytes parsed)))
  else
    let supplied_cookie := slice (data_start parsed) (data_end parsed) packet in
    if negb (bool_decide (supplied_cookie = fake_cookie auth)) then Err AuthCookieMismatch
    else let? packet := rewrite_auth_data packet parsed (local_cookie auth) in Ok (request parsed, packet).

Definition build_auth_failure_response (r : X11SetupRequest) (reason : list Z) : X11Result (list Z) :=
  if 255 <? zlen reason then Err InvalidSetupPacketLength
  else
    let? padded_reason_len := padded_len (zlen reason) in
    let length_units := padded_reason_len / 4 in
    if 65535 <? length_units then Err InvalidSetupPacketLength
    else Ok ([0; wrap 8 (zlen reason)]
               ++ u16_bytes (protocol_major r) (byte_order r) ++ u16_bytes (protocol_minor r) (byte_order r)
               ++ u16_bytes length_units (byte_order r)
               ++ reason ++ replicate (Z.to_nat (padded_reason_len - zlen reason)) 0).

(** ** The registry of fake cookies *)

Section Registry.
Context {ChannelId : Type} `{EqDecision ChannelId}.

Record X11SpoofedAuth := mkSpoofed { channel_id : ChannelId; auth : X11AuthMaterial; single_connection : bool }.
Abbreviation X11AuthSpoofRegistry := (list X11SpoofedAuth).

(** [position] and [remove]: the first entry that satisfies the test, and the
    others. *)
Fixpoint take_first (p : X11SpoofedAuth -> bool) (l : X11AuthSpoofRegistry) : option (X11SpoofedAuth * X11AuthSpoofRegistry) :=
  match l with
  | [] => None
  | e :: r => if p e then Some (e, r)
              else match take_first p r with Some (x, r') => Some (x, e :: r') | None => None end
  end.
Definition insert (entry : X11SpoofedAuth) (l : X11AuthSpoofRegistry) : option X11SpoofedAuth * X11AuthSpoofRegistry :=
  match take_first (fun e => bool_decide (fake_cookie (auth e) = fake_cookie (auth entry))) l with
  | Some (old, r) => (Some old, r ++ [entry])
  | None => (None, l ++ [entry])
  end.
Definition register_mit_magic_cookie (random : nat -> Z) (channel : ChannelId) (local : X11AuthCookie) (single : bool)
    (l : X11AuthSpoofRegistry) : X11AuthMaterial * X11AuthSpoofRegistry :=
  let a := mit_magic_cookie random local in
  (a, (insert (mkSpoofed channel a single) l).2).
Definition resolve (p : X11AuthProtocol) (cookie : X11AuthCookie) (l : X11AuthSpoofRegistry)
    : option X11SpoofedAuth * X11AuthSpoofRegistry :=
  match take_first (fun e => bool_decide (protocol (auth e) = p) && bool_decide (fake_cookie (auth e) = cookie)) l with
  | None => (None, l)
  | Some (e, r) => if single_connection e then (Some e, r) else (Some e, l)
  end.
Definition resolve_setup_packet (packet : list Z) (l : X11AuthSpoofRegistry)
    : X11Result (option X11SpoofedAuth) * X11AuthSpoofRegistry :=
  match inspect_setup_authentication packet with
  | Err e => (Err e, l)
  | Ok sa => let r := resolve (sa_protocol sa) (sa_fake_cookie sa) l in (Ok r.1, r.2)
  end.
Definition remove_channel (channel : ChannelId) (l : X11AuthSpoofRegistry) : list X11SpoofedAuth * X11AuthSpoofRegistry :=
  (List.filter (fun e => bool_decide (channel_id e = channel)) l,
   List.filter (fun e => negb (bool_decide (channel_id e = channel))) l).
End Registry.
Arguments X11SpoofedAuth : clear implicits.

(** ** The setup buffer *)

Definition DEFAULT_MAX_SETUP_PACKET_BYTES : Z := 1024 * 1024.
Inductive X11SetupBufferState := WaitingForHeader (buffered : Z) | WaitingForBody (buffered required : Z) | Complete.
Record X11SetupRewrite := mkRewrite { rw_request : X11SetupRequest; rewritten_setup : list Z; trailing_data : list Z }.
Inductive X11SetupRejectReason := RejectCookieMismatch | RejectUnsupportedProtocol.
Record X11SetupReject := mkReject { rj_request : X11SetupRequest; reason : X11SetupRejectReason; failure_response : list Z }.
Inductive X11SetupDecision := Forward (r : X11SetupRewrite) | Reject (r : X11SetupReject).
Inductive X11RegisteredSetupDecision (ChannelId : Type) :=
  | RegisteredForward (channel : ChannelId) (r : X11SetupRewrite)
  | RegisteredReject (r : X11SetupReject).
Arguments RegisteredForward {_} _ _.
Arguments RegisteredReject {_} _.

Record X11SetupBuffer := mkBuffer { bytes : list Z; max_setup_bytes : Z; complete : bool }.
Definition with_max_setup_bytes (max : Z) : X11SetupBuffer := mkBuffer [] max false.
Definition new_buffer : X11SetupBuffer := with_max_setup_bytes DEFAULT_MAX_SETUP_PACKET_BYTES.
Definition buffer_state (b : X11SetupBuffer) : X11Result X11SetupBufferState :=
  if complete b then Ok Complete
  else
    let? required := required_setup_packet_len (bytes b) in
    Ok (match required with
        | Some n => WaitingForBody (zlen (bytes b)) n
        | None => WaitingForHeader (zlen (bytes b))
        end).

Definition push_complete_setup (chunk : list Z) (b : X11SetupBuffer) : X11Result (option (list Z * list Z)) * X11SetupBuffer :=
  if complete b then (Err InvalidSetupPacketLength, b)
  else
    let b := mkBuffer (bytes b ++ chunk) (max_setup_bytes b) false in
    if max_setup_bytes b <? zlen (bytes b) then (Err (SetupPacketTooLarge (max_setup_bytes b)), b)
    else match required_setup_packet_len (bytes b) with
         | Err e => (Err e, b)
         | Ok None => (Ok None, b)
         | Ok (Some required) =>
             if zlen (bytes b) <? required then (Ok None, b)
             else (Ok (Some (ztake required (bytes b), zdrop required (bytes b))), mkBuffer [] (max_setup_bytes b) true)
         end.
Definition reject_setup_packet (setup : list Z) (why : X11SetupRejectReason) (message : list Z) : X11Result X11SetupReject :=
  let? request := inspect_setup_request setup in
  let? response := build_auth_failure_response request message in
  Ok (mkReject request why response).
Definition decide_setup (auth : X11AuthMaterial) (setup trailing : list Z) : X11Result X11SetupDecision :=
  match rewrite_setup_authentication setup auth with
  | Ok (request, setup) => Ok (Forward (mkRewrite request setup trailing))
  | Err AuthCookieMismatch =>
      let? reject := reject_setup_packet setup RejectCookieMismatch (lit "X11 forwarding authentication failed") in
      Ok (Reject reject)
  | Err (UnsupportedAuthProtocol _) =>
      let? reject := reject_setup_packet setup RejectUnsupportedProtocol (lit "Unsupported X11 auth protocol") in
      Ok (Reject reject)
  | Err e => Err e
  end.
Definition push_decision (chunk : list Z) (auth : X11AuthMaterial) (b : X11SetupBuffer)
    : X11Result (option X11SetupDecision) * X11SetupBuffer :=
  match push_complete_setup chunk b with
  | (Err e, b) => (Err e, b)
  | (Ok None, b) => (Ok None, b)
  | (Ok (Some (setup, trailing)), b) => (let? d := decide_setup auth setup trailing in Ok (Some d), b)
  end.
Definition push (chunk : list Z) (auth : X11AuthMaterial) (b : X11SetupBuffer)
    : X11Result (option X11SetupRewrite) * X11SetupBuffer :=
  match push_decision chunk auth b with
  | (Err e, b) => (Err e, b)
  | (Ok None, b) => (Ok None, b)
  | (Ok (Some (Forward rewrite)), b) => (Ok (Some rewrite), b)
  | (Ok (Some (Reject reject)), b) =>
      (Err (match reason reject with
            | RejectCookieMismatch => AuthCookieMismatch
            | RejectUnsupportedProtocol => UnsupportedAuthProtocol (auth_protocol (rj_request reject))
            end), b)
  end.

Section RegistryDecision.
Context {ChannelId : Type} `{EqDecision ChannelId}.
Definition decide_registered (setup trailing : list Z) (l : list (X11SpoofedAuth ChannelId))
    : X11Result (X11RegisteredSetupDecision ChannelId) * list (X11SpoofedAuth ChannelId) :=
  match resolve_setup_packet setup l with
  | (Ok (Some entry), l) =>
      (let? r := rewrite_setup_authentication setup (auth entry) in
       Ok (RegisteredForward (channel_id entry) (mkRewrite r.1 r.2 trailing)), l)
  | (Ok None, l) =>
      (let? reject := reject_setup_packet setup RejectCookieMismatch (lit "X11 forwarding authentication failed") in
       Ok (RegisteredReject reject), l)
  | (Err (UnsupportedAuthProtocol _), l) =>
      (let? reject := reject_setup_packet setup RejectUnsupportedProtocol (lit "Unsupported X11 auth protocol") in
       Ok (RegisteredReject reject), l)
  | (Err (InvalidAuthCookie _), l) =>
      (let? reject := reject_setup_packet setup RejectCookieMismatch (lit "X11 forwarding authentication failed") in
       Ok (RegisteredReject reject), l)
  | (Err e, l) => (Err e, l)
  end.
Definition push_registry_decision (chunk : list Z) (b : X11SetupBuffer) (l : list (X11SpoofedAuth ChannelId))
    : X11Result (option (X11RegisteredSetupDecision ChannelId)) * X11SetupBuffer * list (X11SpoofedAuth ChannelId) :=
  match push_complete_setup chunk b with
  | (Err e, b) => (Err e, b, l)
  | (Ok None, b) => (Ok None, b, l)
  | (Ok (Some (setup, trailing)), b) =>
      let d := decide_registered setup trailing l in
      (let? d := d.1 in Ok (Some d), b, d.2)
  end.
End RegistryDecision.

(** ** The layout of a setup packet *)

Definition up4 (n : Z) : Z := 4 * ((n + 3) / 4).
Definition marker (o : X11ByteOrder) : Z := match o with BigEndian => 66 | LittleEndian => 108 end.
(** The two unused bytes of the header are [u] and [v]; [pad1] and [pad2] fill up
    the fields before them. *)
Definition setup_packet (o : X11ByteOrder) (u major minor : Z) (v name pad1 data pad2 : list Z) : list Z :=
  [marker o; u] ++ u16_bytes major o ++ u16_bytes minor o ++ u16_bytes (zlen name) o ++ u16_bytes (zlen data) o ++ v
    ++ name ++ pad1 ++ data ++ pad2.
Definition layout_ok (u major minor : Z) (v name pad1 data pad2 : list Z) : Prop :=
  is_u16 major /\ is_u16 minor /\ zlen v = 2 /\ zlen name <= 65535 /\ zlen data <= 65535
  /\ zlen pad1 = up4 (zlen name) - zlen name /\ zlen pad2 = up4 (zlen data) - zlen data.

Lemma up4_bounds n : 0 <= n -> n <= up4 n < n + 4.
Proof. unfold up4. intros Hn. pose proof (Z.div_mod (n + 3) 4). pose proof (Z.mod_pos_bound (n + 3) 4). lia. Qed.
Lemma land_not3 x : 0 <= x < 2 ^ 64 -> Z.land x (bitnot 64 3) = 4 * (x / 4).
Proof.
  intros Hx. change (bitnot 64 3) with (Z.shiftl (Z.ones 62) 2). replace (4 * (x / 4)) with (Z.shiftl (Z.shiftr x 2) 2)
    by (rewrite Z.shiftl_mul_pow2, Z.shiftr_div_pow2 by lia; change (2 ^ 2) with 4; lia).
  apply Z.bits_inj'. intros n Hn. rewrite Z.land_spec, !Z.shiftl_spec by lia. destruct (Z.lt_ge_cases n 2).
  - rewrite !(Z.testbit_neg_r _ (n - 2)) by lia. by rewrite andb_false_r.
  - rewrite Z.shiftr_spec by lia. replace (n - 2 + 2) with n by lia. destruct (Z.lt_ge_cases n 64).
    + rewrite Z.ones_spec_low by lia. by rewrite andb_true_r.
    + rewrite (testbit_width 64 x n) by (unfold in_width; lia). done.
Qed.
Lemma padded_len_up4 n : 0 <= n <= U64_MAX - 3 -> padded_len n = Ok (up4 n).
Proof.
  intros Hn. unfold padded_len. rewrite (proj2 (Z.leb_le _ _)) by lia.
  rewrite land_not3 by (unfold U64_MAX in Hn; lia). done.
Qed.
Lemma u16_bytes_pair x o : exists b0 b1, u16_bytes x o = [b0; b1].
Proof. destruct o; by eexists _, _. Qed.
Lemma read_u16_bytes x o : is_u16 x -> read_u16 (u16_bytes x o) o = x.
Proof.
  intros Hx. destruct o; cbn [u16_bytes read_u16 u16_to_be]; [by apply u16_be_roundtrip|].
  unfold u16_from_le. rewrite Z.lor_comm. by apply u16_be_roundtrip.
Qed.
Lemma read_u16_range b0 b1 o : is_u8 b0 -> is_u8 b1 -> is_u16 (read_u16 [b0; b1] o).
Proof.
  intros H0 H1. assert (H : forall hi lo, is_u8 hi -> is_u8 lo -> is_u16 (Z.lor (Z.shiftl hi 8) lo)).
  { intros hi lo Hhi Hlo. apply in_width_lor; [lia|by apply (in_width_shiftl 8 8); lia || done|by apply (in_width_mono 8); [lia|]]. }
  destruct o; cbn [read_u16]; [by apply H|]. unfold u16_from_le. rewrite Z.lor_comm. by apply H.
Qed.
Lemma u16_parts hi lo : is_u8 hi -> is_u8 lo ->
  Z.shiftr (Z.lor (Z.shiftl hi 8) lo) 8 = hi /\ wrap 8 (Z.lor (Z.shiftl hi 8) lo) = lo.
Proof. intros Hhi Hlo. split; bitwise n. Qed.
Lemma u16_bytes_read b0 b1 o : is_u8 b0 -> is_u8 b1 -> u16_bytes (read_u16 [b0; b1] o) o = [b0; b1].
Proof.
  intros H0 H1. destruct o; cbn [read_u16 u16_bytes]; unfold u16_to_be, u16_from_be, u16_from_le;
    [|rewrite Z.lor_comm]; [destruct (u16_parts b0 b1) as [-> ->]|destruct (u16_parts b1 b0) as [-> ->]]; done.
Qed.
Lemma parse_marker o : parse_byte_order (marker o) = Ok o.
Proof. by destruct o. Qed.
Lemma parse_byte_order_marker b o : parse_byte_order b = Ok o -> b = marker o.
Proof.
  unfold parse_byte_order. destruct (Z.eqb_spec b 66); [by intros [= <-]|]. destruct (Z.eqb_spec b 108); [by intros [= <-]|done].
Qed.
Lemma result_bind_ok {E A B} (a : A) (f : A -> result E B) : result_bind (Ok a) f = f a.
Proof. done. Qed.

(** A packet of at least twelve bytes, by its header. *)
Section Header.
Context (m u a0 a1 b0 b1 c0 c1 d0 d1 v0 v1 : Z) (body : list Z) (o : X11ByteOrder).
Context (Hm : parse_byte_order m = Ok o) (Hc0 : is_u8 c0) (Hc1 : is_u8 c1) (Hd0 : is_u8 d0) (Hd1 : is_u8 d1).
Abbreviation packet := (m :: u :: a0 :: a1 :: b0 :: b1 :: c0 :: c1 :: d0 :: d1 :: v0 :: v1 :: body).
Abbreviation pl := (read_u16 [c0; c1] o).
Abbreviation dl := (read_u16 [d0; d1] o).

Lemma header_long : (zlen packet <? SETUP_HEADER_LEN) = false.
Proof. rewrite !zlen_cons. pose proof (zlen_nonneg body). unfold SETUP_HEADER_LEN. lia. Qed.
Lemma lens_range : 0 <= pl <= 65535 /\ 0 <= dl <= 65535.
Proof. pose proof (read_u16_range c0 c1 o Hc0 Hc1). pose proof (read_u16_range d0 d1 o Hd0 Hd1). unfold in_width in *. lia. Qed.
Lemma checked_add_ok a b : a + b <= U64_MAX -> checked_add a b = Ok (a + b).
Proof. intros H. unfold checked_add. by rewrite (proj2 (Z.leb_le _ _)). Qed.
Lemma total_len_header : setup_packet_total_len packet = Ok (Some (12 + up4 pl + up4 dl)).
Proof.
  unfold setup_packet_total_len. rewrite header_long. cbn [head]. change (default 0 (Some m)) with m. rewrite Hm, result_bind_ok.
  change (slice 6 8 packet) with [c0; c1]. change (slice 8 10 packet) with [d0; d1]. cbv zeta.
  pose proof lens_range. pose proof (up4_bounds pl). pose proof (up4_bounds dl).
  rewrite !padded_len_up4 by (unfold U64_MAX; lia). rewrite !result_bind_ok.
  rewrite checked_add_ok by (unfold U64_MAX, SETUP_HEADER_LEN; lia). rewrite result_bind_ok.
  rewrite checked_add_ok by (unfold U64_MAX, SETUP_HEADER_LEN; lia). done.
Qed.
Lemma parse_header : parse_setup_packet packet =
  if zlen body <? up4 pl + up4 dl then Err IncompleteSetupPacket
  else Ok (mkParsed (mkRequest o (read_u16 [a0; a1] o) (read_u16 [b0; b1] o) (from_utf8_lossy (ztake pl body)) dl)
             (ztake pl body) (12 + up4 pl) (12 + up4 pl + dl) (12 + up4 pl + up4 dl)).
Proof.
  unfold parse_setup_packet. rewrite total_len_header, result_bind_ok.
  assert (Hlen : (zlen packet <? 12 + up4 pl + up4 dl) = (zlen body <? up4 pl + up4 dl)).
  { rewrite !zlen_cons. destruct (Z.ltb_spec (zlen body) (up4 pl + up4 dl)); lia. }
  rewrite Hlen. destruct (zlen body <? up4 pl + up4 dl); [done|].
  cbn [head]. change (default 0 (Some m)) with m. rewrite Hm, result_bind_ok.
  change (slice 2 4 packet) with [a0; a1]. change (slice 4 6 packet) with [b0; b1].
  change (slice 6 8 packet) with [c0; c1]. change (slice 8 10 packet) with [d0; d1]. cbv zeta.
  pose proof lens_range. pose proof (up4_bounds pl). pose proof (up4_bounds dl).
  rewrite padded_len_up4 by (unfold U64_MAX; lia). rewrite result_bind_ok.
  rewrite !checked_add_ok by (unfold U64_MAX, SETUP_HEADER_LEN; lia). rewrite !result_bind_ok.
  rewrite checked_add_ok by (unfold U64_MAX, SETUP_HEADER_LEN; lia). rewrite result_bind_ok.
  unfold SETUP_HEADER_LEN. replace (slice 12 (12 + pl) packet) with (ztake pl body); [done|].
  unfold slice. replace (12 + pl - 12) with pl by lia. done.
Qed.
End Header.

Definition parsed_of (o : X11ByteOrder) (major minor : Z) (name data : list Z) : ParsedSetup :=
  mkParsed (mkRequest o major minor (from_utf8_lossy name) (zlen data)) name (12 + up4 (zlen name))
    (12 + up4 (zlen name) + zlen data) (12 + up4 (zlen name) + up4 (zlen data)).

Lemma u16_bytes_ok x o : is_u16 x -> bytes_ok (u16_bytes x o).
Proof.
  intros Hx. pose proof (u16_to_be_ok x Hx) as Hb. destruct o; [done|]. cbn in *. inversion_clear Hb as [|? ? H1 Hb1].
  inversion_clear Hb1. constructor; [done|]. by constructor.
Qed.
Lemma zlen_u16_bytes x o : zlen (u16_bytes x o) = 2.
Proof. by destruct o. Qed.
Lemma layout_len_u16 {A} (l : list A) : zlen l <= 65535 -> is_u16 (zlen l).
Proof. pose proof (zlen_nonneg l). unfold in_width. lia. Qed.

(** The header's bytes and what follows. *)
Definition setup_header (o : X11ByteOrder) (u major minor : Z) (v : list Z) (name_len data_len : Z) : list Z :=
  [marker o; u] ++ u16_bytes major o ++ u16_bytes minor o ++ u16_bytes name_len o ++ u16_bytes data_len o ++ v.
Lemma setup_packet_header o u major minor v name pad1 data pad2 :
  setup_packet o u major minor v name pad1 data pad2
  = setup_header o u major minor v (zlen name) (zlen data) ++ name ++ pad1 ++ data ++ pad2.
Proof. unfold setup_packet, setup_header. by rewrite <-!app_assoc. Qed.
Lemma zlen_setup_header o u major minor v n d : zlen v = 2 -> zlen (setup_header o u major minor v n d) = 12.
Proof. intros Hv. unfold setup_header. rewrite !zlen_app, !zlen_u16_bytes, Hv. done. Qed.

Lemma zlen_two (v : list Z) : zlen v = 2 -> exists a b, v = [a; b].
Proof. destruct v as [|a [|b [|c v]]]; unfold zlen; cbn; intros H; try lia. by eexists _, _. Qed.
Lemma parse_layout o u major minor v name pad1 data pad2 rest : layout_ok u major minor v name pad1 data pad2 ->
  parse_setup_packet (setup_packet o u major minor v name pad1 data pad2 ++ rest) = Ok (parsed_of o major minor name data).
Proof.
  intros (Hmaj & Hmin & Hv & Hn & Hd & Hp1 & Hp2). unfold setup_packet.
  destruct (u16_bytes_pair major o) as (a0 & a1 & Ea), (u16_bytes_pair minor o) as (b0 & b1 & Eb).
  destruct (u16_bytes_pair (zlen name) o) as (c0 & c1 & Ec), (u16_bytes_pair (zlen data) o) as (d0 & d1 & Ed).
  destruct (zlen_two v Hv) as (v0 & v1 & ->).
  pose proof (read_u16_bytes major o Hmaj) as Ra. pose proof (read_u16_bytes minor o Hmin) as Rb.
  pose proof (read_u16_bytes _ o (layout_len_u16 name Hn)) as Rc. pose proof (read_u16_bytes _ o (layout_len_u16 data Hd)) as Rd.
  pose proof (u16_bytes_ok _ o (layout_len_u16 name Hn)) as Bc. pose proof (u16_bytes_ok _ o (layout_len_u16 data Hd)) as Bd.
  rewrite Ea in Ra. rewrite Eb in Rb. rewrite Ec in Rc, Bc. rewrite Ed in Rd, Bd. rewrite Ea, Eb, Ec, Ed. cbn [app].
  inversion_clear Bc as [|? ? Hc0 Bc1]. inversion_clear Bc1 as [|? ? Hc1 _].
  inversion_clear Bd as [|? ? Hd0 Bd1]. inversion_clear Bd1 as [|? ? Hd1 _].
  rewrite (parse_header _ _ _ _ _ _ _ _ _ _ _ _ _ o (parse_marker o) Hc0 Hc1 Hd0 Hd1), Ra, Rb, Rc, Rd.
  rewrite (proj2 (Z.ltb_ge _ _)) by (rewrite !zlen_app; pose proof (zlen_nonneg rest); lia).
  rewrite <-!app_assoc, ztake_app by done. done.
Qed.

Lemma split_field (l : list Z) n : 0 <= n -> up4 n <= zlen l ->
  exists field pad rest, l = field ++ pad ++ rest /\ zlen field = n /\ zlen pad = up4 n - n.
Proof.
  intros Hn Hl. pose proof (up4_bounds n Hn). exists (ztake n l), (ztake (up4 n - n) (zdrop n l)), (zdrop (up4 n - n) (zdrop n l)).
  unfold ztake, zdrop, zlen in *. rewrite !take_drop. split; [done|]. rewrite !length_take, length_drop. lia.
Qed.
(** A packet that parses has the layout. *)
Lemma parsed_layout packet p : bytes_ok packet -> parse_setup_packet packet = Ok p ->
  exists o u major minor v name pad1 data pad2 rest,
    packet = setup_packet o u major minor v name pad1 data pad2 ++ rest
    /\ layout_ok u major minor v name pad1 data pad2 /\ p = parsed_of o major minor name data.
Proof.
  intros Hb Hp. destruct (Z.ltb_spec (zlen packet) SETUP_HEADER_LEN) as [Hs|Hl].
  { unfold parse_setup_packet, setup_packet_total_len in Hp. rewrite (proj2 (Z.ltb_lt _ _)) in Hp by done. done. }
  unfold SETUP_HEADER_LEN in Hl.
  destruct packet as [|m [|u [|a0 [|a1 [|b0 [|b1 [|c0 [|c1 [|d0 [|d1 [|v0 [|v1 body]]]]]]]]]]]]; try (unfold zlen in Hl; cbn in Hl; lia).
  repeat match goal with H : bytes_ok (_ :: _) |- _ => inversion_clear H end.
  destruct (parse_byte_order m) as [o|e] eqn:Em.
  2:{ unfold parse_setup_packet, setup_packet_total_len in Hp. rewrite header_long in Hp. cbn [head] in Hp.
      change (default 0 (Some m)) with m in Hp. rewrite Em in Hp. done. }
  rewrite (parse_header _ _ _ _ _ _ _ _ _ _ _ _ _ o) in Hp by done.
  pose proof (lens_range c0 c1 d0 d1 o) as Hr. destruct Hr as [Hr1 Hr2]; [done..|].
  destruct (Z.ltb_spec (zlen body) (up4 (read_u16 [c0; c1] o) + up4 (read_u16 [d0; d1] o))); [done|].
  pose proof (up4_bounds (read_u16 [c0; c1] o)). pose proof (up4_bounds (read_u16 [d0; d1] o)).
  destruct (split_field body (read_u16 [c0; c1] o)) as (name & pad1 & rest1 & -> & Hn & Hp1); [lia..|].
  rewrite !zlen_app in *. destruct (split_field rest1 (read_u16 [d0; d1] o)) as (data & pad2 & rest & -> & Hd & Hp2); [lia..|].
  exists o, u, (read_u16 [a0; a1] o), (read_u16 [b0; b1] o), [v0; v1], name, pad1, data, pad2, rest.
  rewrite ztake_app in Hp by done. injection Hp as <-.
  split_and!; [|unfold layout_ok; rewrite Hn, Hd; split_and!; try (by apply read_u16_range); done || lia|unfold parsed_of; by rewrite Hn, Hd].
  unfold setup_packet. rewrite Hn, Hd, !u16_bytes_read by done. rewrite (parse_byte_order_marker m o Em). cbn [app].
  by rewrite <-!app_assoc.
Qed.

Lemma slice_middle (x y z : list Z) a b : a = zlen x -> b = zlen x + zlen y -> slice a b (x ++ y ++ z) = y.
Proof. intros -> ->. unfold slice. rewrite zdrop_app by done. by apply ztake_app; lia. Qed.
Lemma set_slice_app (x y z v : list Z) a : a = zlen x -> zlen v = zlen y -> set_slice a v (x ++ y ++ z) = x ++ v ++ z.
Proof.
  intros -> Hv. unfold set_slice. rewrite ztake_app by done. do 2 f_equal. rewrite (app_assoc x y z), zdrop_app; [done|].
  rewrite zlen_app. lia.
Qed.
Lemma layout_cookie o u major minor v name pad1 data pad2 rest : layout_ok u major minor v name pad1 data pad2 ->
  slice (data_start (parsed_of o major minor name data)) (data_end (parsed_of o major minor name data))
    (setup_packet o u major minor v name pad1 data pad2 ++ rest) = data.
Proof.
  intros (_ & _ & Hv & _ & _ & Hp1 & _). rewrite setup_packet_header. cbn [data_start data_end parsed_of].
  rewrite <-!app_assoc. rewrite (app_assoc name), (app_assoc (setup_header _ _ _ _ _ _ _)).
  apply slice_middle; rewrite !zlen_app, zlen_setup_header by done; lia.
Qed.

Definition new_padding (data pad2 replacement : list Z) : list Z :=
  if zlen replacement =? zlen data then pad2 else replicate (Z.to_nat (up4 (zlen replacement) - zlen replacement)) 0.

Lemma set_data_len o u major minor v n d d' tail : 
  set_slice 8 (u16_bytes d' o) (setup_header o u major minor v n d ++ tail) = setup_header o u major minor v n d' ++ tail.
Proof.
  unfold setup_header. set (h := [marker o; u] ++ u16_bytes major o ++ u16_bytes minor o ++ u16_bytes n o).
  assert (Hh : forall x, ([marker o; u] ++ u16_bytes major o ++ u16_bytes minor o ++ u16_bytes n o ++ u16_bytes x o ++ v) ++ tail
    = h ++ u16_bytes x o ++ v ++ tail) by (intros x; unfold h; by rewrite <-!app_assoc).
  rewrite !Hh. apply set_slice_app; [|by rewrite !zlen_u16_bytes]. unfold h. by rewrite !zlen_app, !zlen_u16_bytes.
Qed.
Lemma rewrite_layout o u major minor v name pad1 data pad2 rest replacement :
  layout_ok u major minor v name pad1 data pad2 -> zlen replacement <= 65535 ->
  rewrite_auth_data (setup_packet o u major minor v name pad1 data pad2 ++ rest) (parsed_of o major minor name data) replacement
  = Ok (setup_packet o u major minor v name pad1 replacement (new_padding data pad2 replacement) ++ rest).
Proof.
  intros (_ & _ & Hv & Hn & Hd & Hp1 & Hp2) Hr. unfold rewrite_auth_data. rewrite (proj2 (Z.ltb_ge _ _)) by lia.
  cbn [request byte_order parsed_of data_start data_end auth_data_padded_end]. rewrite !setup_packet_header, <-!app_assoc, set_data_len.
  set (h := setup_header o u major minor v (zlen name) (zlen replacement)).
  assert (Hh : zlen (h ++ name ++ pad1) = 12 + up4 (zlen name))
    by (unfold h; rewrite !zlen_app, zlen_setup_header by done; lia).
  assert (Hsh : forall x, h ++ name ++ pad1 ++ x = (h ++ name ++ pad1) ++ x) by (intros x; by rewrite <-!app_assoc).
  rewrite !Hsh. unfold new_padding. replace (12 + up4 (zlen name) + zlen data - (12 + up4 (zlen name))) with (zlen data) by lia.
  destruct (Z.eqb_spec (zlen replacement) (zlen data)) as [He|He].
  - rewrite set_slice_app by done. done.
  - rewrite padded_len_up4 by (pose proof (zlen_nonneg replacement); unfold U64_MAX; lia). rewrite result_bind_ok.
    rewrite ztake_app by done.
    assert (Ht : zdrop (12 + up4 (zlen name) + up4 (zlen data)) ((h ++ name ++ pad1) ++ data ++ pad2 ++ rest) = rest).
    { rewrite (app_assoc data), (app_assoc (h ++ name ++ pad1)). apply zdrop_app. rewrite !zlen_app in *. lia. }
    by rewrite Ht.
Qed.

(** *** What a rewritten packet is *)

Lemma rewrite_forward packet auth r packet' : bytes_ok packet -> zlen (local_cookie auth) <= 65535 ->
  rewrite_setup_authentication packet auth = Ok (r, packet') ->
  exists o u major minor v pad1 pad2 rest,
    layout_ok u major minor v (ssh_name (protocol auth)) pad1 (fake_cookie auth) pad2
    /\ packet = setup_packet o u major minor v (ssh_name (protocol auth)) pad1 (fake_cookie auth) pad2 ++ rest
    /\ packet' = setup_packet o u major minor v (ssh_name (protocol auth)) pad1 (local_cookie auth)
                   (new_padding (fake_cookie auth) pad2 (local_cookie auth)) ++ rest
    /\ r = mkRequest o major minor (from_utf8_lossy (ssh_name (protocol auth))) (zlen (fake_cookie auth)).
Proof.
  intros Hb Hl. unfold rewrite_setup_authentication. destruct (parse_setup_packet packet) as [p|e] eqn:Hp; [|done]. rewrite result_bind_ok.
  destruct (parsed_layout packet p Hb Hp) as (o & u & major & minor & v & name & pad1 & data & pad2 & rest & -> & Hok & ->).
  cbn [auth_protocol_bytes parsed_of]. case_bool_decide as Hn; cbn [negb]; [|done]. subst name.
  rewrite (layout_cookie o) by done. case_bool_decide as Hd; cbn [negb]; [|done]. subst data.
  rewrite rewrite_layout, result_bind_ok by done. intros [= <- <-]. by eexists o, u, major, minor, v, pad1, pad2, rest.
Qed.
Lemma forward_rewrite o u major minor v pad1 pad2 rest auth : zlen (local_cookie auth) <= 65535 ->
  layout_ok u major minor v (ssh_name (protocol auth)) pad1 (fake_cookie auth) pad2 ->
  rewrite_setup_authentication (setup_packet o u major minor v (ssh_name (protocol auth)) pad1 (fake_cookie auth) pad2 ++ rest) auth
  = Ok (mkRequest o major minor (from_utf8_lossy (ssh_name (protocol auth))) (zlen (fake_cookie auth)),
        setup_packet o u major minor v (ssh_name (protocol auth)) pad1 (local_cookie auth)
          (new_padding (fake_cookie auth) pad2 (local_cookie auth)) ++ rest).
Proof.
  intros Hl Hok. unfold rewrite_setup_authentication. rewrite parse_layout, result_bind_ok by done.
  cbn [auth_protocol_bytes parsed_of]. rewrite bool_decide_eq_true_2 by done. cbn [negb].
  rewrite (layout_cookie o) by done. rewrite bool_decide_eq_true_2 by done. cbn [negb].
  by rewrite rewrite_layout.
Qed.
