(* ===== verification/X11Bridge.v ===== *)
(** * Bridging X11 channels (runtime.rs, transport/x11.rs)

    The loop that carries one channel to the local X server, over the results of
    its reads; and the dispatcher, whose routes and cookies are shared by the
    channels of an SSH connection: its critical sections, and a step function
    that interleaves registrations, removals and the sections of any number of
    bridges.  The local server's bytes, the leases of connections and the
    dialling are given from outside; writes succeed. *)
From S2P Require Import Prelude Text TrzszBuffer X11.
From Stdlib Require Import Ascii String.
From stdpp Require Import prelude numbers list gmap.
Open Scope Z_scope.

(** ** One stream *)

Definition X11_RUNTIME_READ_BUFFER_BYTES : Z := 32 * 1024.
Inductive X11RuntimeError := Forwarding (e : X11ForwardingError) | Io (text : list Z) | UnsupportedEndpoint (text : list Z).

(** What a bridge wrote to either side when it ended. *)
Record BridgeEnd := mkEnd { to_ssh : list Z; to_local : option (list Z); outcome : result X11RuntimeError unit }.

(** A read gives bytes (none at the end of the stream) or an error. *)
Abbreviation Reads := (list (result (list Z) (list Z))).
(** [copy_bidirectional], from the channel: what is copied, and how it ends. *)
Fixpoint copied (reads : Reads) : list Z :=
  match reads with
  | Ok ((_ :: _) as chunk) :: rest => chunk ++ copied rest
  | _ => []
  end.
Fixpoint copy_outcome (reads : Reads) : result X11RuntimeError unit :=
  match reads with
  | Ok (_ :: _) :: rest => copy_outcome rest
  | Err e :: _ => Err (Io e)
  | _ => Ok tt
  end.

Section Stream.
Context (connect : result X11RuntimeError unit) (server : list Z) (auth : X11AuthMaterial).
Fixpoint bridge_loop (setup : X11SetupBuffer) (reads : Reads) : option BridgeEnd :=
  match reads with
  | [] => None
  | Err e :: _ => Some (mkEnd [] None (Err (Io e)))
  | Ok [] :: _ => Some (mkEnd [] None (Err (Io (lit "X11 channel closed before setup packet completed"))))
  | Ok chunk :: rest =>
      match push_decision chunk auth setup with
      | (Err e, _) => Some (mkEnd [] None (Err (Forwarding e)))
      | (Ok None, setup) => bridge_loop setup rest
      | (Ok (Some (Forward rewrite)), _) =>
          match connect with
          | Err e => Some (mkEnd [] None (Err e))
          | Ok _ => Some (mkEnd server (Some (rewritten_setup rewrite ++ trailing_data rewrite ++ copied rest)) (copy_outcome rest))
          end
      | (Ok (Some (Reject reject)), _) => Some (mkEnd (failure_response reject) None (Ok tt))
      end
  end.
Definition bridge_x11_stream_to_endpoint (reads : Reads) : option BridgeEnd := bridge_loop new_buffer reads.
End Stream.

(** ** The dispatcher *)

Abbreviation route_id := (list Z).
Record X11ForwardRoute := mkRoute { endpoint : X11LocalEndpoint; expires_at : option Z }.
Record X11ForwardDispatcherState := mkDispatcher {
  auth_registry : list (X11SpoofedAuth route_id);
  routes : gmap route_id X11ForwardRoute
}.
Definition new_dispatcher : X11ForwardDispatcherState := mkDispatcher [] ∅.

Definition remove (id : route_id) (st : X11ForwardDispatcherState) : X11ForwardDispatcherState :=
  mkDispatcher (remove_channel id (auth_registry st)).2 (delete id (routes st)).
Definition route_expired (now : Z) (r : X11ForwardRoute) : bool :=
  match expires_at r with Some t => t <=? now | None => false end.
Definition prune_expired_x11_routes (now : Z) (st : X11ForwardDispatcherState) : X11ForwardDispatcherState :=
  let expired := map fst (List.filter (fun e => route_expired now e.2) (map_to_list (routes st))) in
  fold_left (fun st id => remove id st) expired st.
Definition register (now : Z) (id : route_id) (e : X11LocalEndpoint) (a : X11AuthMaterial) (single : bool)
    (acceptance_timeout : option Z) (st : X11ForwardDispatcherState) : X11ForwardDispatcherState :=
  let expires_at := match acceptance_timeout with Some d => Some (now + d) | None => None end in
  let st := prune_expired_x11_routes now st in
  mkDispatcher (X11.insert (mkSpoofed id a single) (auth_registry st)).2 (<[id := mkRoute e expires_at]> (routes st)).
Definition has_active_routes (now : Z) (st : X11ForwardDispatcherState) : bool * X11ForwardDispatcherState :=
  let st := prune_expired_x11_routes now st in
  (negb (bool_decide (routes st = ∅)), st).

(** The sections of [bridge]: deciding on what was read, and finding the route. *)
Definition decide_section (now : Z) (chunk : list Z) (setup : X11SetupBuffer) (st : X11ForwardDispatcherState)
    : X11Result (option (X11RegisteredSetupDecision route_id)) * X11SetupBuffer * X11ForwardDispatcherState :=
  let st := prune_expired_x11_routes now st in
  let r := push_registry_decision chunk setup (auth_registry st) in
  (r.1.1, r.1.2, mkDispatcher r.2 (routes st)).
Definition route_section (now : Z) (id : route_id) (st : X11ForwardDispatcherState)
    : option X11ForwardRoute * X11ForwardDispatcherState :=
  let st := prune_expired_x11_routes now st in (routes st !! id, st).

(** One bridge between its sections: reading the setup packet, admitted with
    the rewritten packet, open to the local server, ended.  [seen] is what the
    channel sent so far. *)
Inductive Bridge :=
  | Reading (setup : X11SetupBuffer) (seen : list Z)
  | Granted (id : route_id) (rewrite : X11SetupRewrite) (seen : list Z)
  | Opened (id : route_id) (e : X11LocalEndpoint) (written seen : list Z)
  | Ended (answer : list Z).

Record World := mkWorld {
  dispatcher : X11ForwardDispatcherState;
  bridges : gmap nat Bridge;
  registered : list (route_id * X11LocalEndpoint * X11AuthMaterial)
}.
Definition start : World := mkWorld new_dispatcher ∅ [].
Definition set_bridge (n : nat) (b : Bridge) (w : World) : World :=
  mkWorld (dispatcher w) (<[n := b]> (bridges w)) (registered w).

Inductive Step :=
  | SRegister (now : Z) (id : route_id) (e : X11LocalEndpoint) (a : X11AuthMaterial) (single : bool) (timeout : option Z)
  | SRemove (id : route_id)
  | SActive (now : Z)
  | SChannel (n : nat)
  | SRead (n : nat) (now : Z) (chunk : list Z)
  | SRoute (n : nat) (now : Z) (lease connect : bool)
  | SCopy (n : nat) (chunk : list Z)
  | SFail (n : nat).

Definition step (w : World) (s : Step) : World :=
  match s with
  | SRegister now id e a single timeout =>
      mkWorld (register now id e a single timeout (dispatcher w)) (bridges w) ((id, e, a) :: registered w)
  | SRemove id => mkWorld (remove id (dispatcher w)) (bridges w) (registered w)
  | SActive now => mkWorld (has_active_routes now (dispatcher w)).2 (bridges w) (registered w)
  | SChannel n => match bridges w !! n with None => set_bridge n (Reading new_buffer []) w | Some _ => w end
  | SRead n now chunk =>
      match bridges w !! n with
      | Some (Reading setup seen) =>
          match decide_section now chunk setup (dispatcher w) with
          | (d, setup, st) =>
              let w := mkWorld st (bridges w) (registered w) in
              match d with
              | Err _ => set_bridge n (Ended []) w
              | Ok None => set_bridge n (Reading setup (seen ++ chunk)) w
              | Ok (Some (RegisteredForward id rewrite)) => set_bridge n (Granted id rewrite (seen ++ chunk)) w
              | Ok (Some (RegisteredReject reject)) => set_bridge n (Ended (failure_response reject)) w
              end
          end
      | _ => w
      end
  | SRoute n now lease connect =>
      match bridges w !! n with
      | Some (Granted id rewrite seen) =>
          match route_section now id (dispatcher w) with
          | (r, st) =>
              let w := mkWorld st (bridges w) (registered w) in
              match r with
              | Some route =>
                  if lease && connect
                  then set_bridge n (Opened id (endpoint route) (rewritten_setup rewrite ++ trailing_data rewrite) seen) w
                  else set_bridge n (Ended []) w
              | None => set_bridge n (Ended []) w
              end
          end
      | _ => w
      end
  | SCopy n chunk =>
      match bridges w !! n with
      | Some (Opened id e written seen) => set_bridge n (Opened id e (written ++ chunk) (seen ++ chunk)) w
      | _ => w
      end
  | SFail n => match bridges w !! n with Some _ => set_bridge n (Ended []) w | None => w end
  end.
Definition run (steps : list Step) (w : World) : World := fold_left step steps w.

(** ** One stream: lemmas *)

(** [seen] begins with a setup packet that carries the fake cookie, and
    [written] is the same with the real one. *)
Definition carries (a : X11AuthMaterial) (seen written : list Z) : Prop :=
  exists o u major minor v pad1 pad2 rest,
    layout_ok u major minor v (ssh_name (protocol a)) pad1 (fake_cookie a) pad2
    /\ seen = setup_packet o u major minor v (ssh_name (protocol a)) pad1 (fake_cookie a) pad2 ++ rest
    /\ written = setup_packet o u major minor v (ssh_name (protocol a)) pad1 (local_cookie a)
                   (new_padding (fake_cookie a) pad2 (local_cookie a)) ++ rest.

Lemma carries_app a seen written more : carries a seen written -> carries a (seen ++ more) (written ++ more).
Proof.
  intros (o & u & major & minor & v & pad1 & pad2 & rest & Hok & -> & ->).
  exists o, u, major, minor, v, pad1, pad2, (rest ++ more). rewrite <-!app_assoc. done.
Qed.
Lemma rewrite_carries a setup trailing r setup' : bytes_ok setup -> zlen (local_cookie a) <= 65535 ->
  rewrite_setup_authentication setup a = Ok (r, setup') -> carries a (setup ++ trailing) (setup' ++ trailing).
Proof.
  intros Hb Hl Hr. apply carries_app.
  destruct (rewrite_forward setup a r setup' Hb Hl Hr) as (o & u & major & minor & v & pad1 & pad2 & rest & Hok & -> & -> & _).
  by exists o, u, major, minor, v, pad1, pad2, rest.
Qed.
Lemma decide_forward a setup trailing rw : bytes_ok setup -> zlen (local_cookie a) <= 65535 ->
  decide_setup a setup trailing = Ok (Forward rw) -> carries a (setup ++ trailing) (rewritten_setup rw ++ trailing_data rw).
Proof.
  intros Hb Hl. unfold decide_setup. destruct (rewrite_setup_authentication setup a) as [[r setup']|e] eqn:E.
  - intros [= <-]. cbn. by eapply rewrite_carries.
  - destruct e; try done; destruct (reject_setup_packet _ _ _); done.
Qed.

Lemma push_some chunk b setup trailing b' : push_complete_setup chunk b = (Ok (Some (setup, trailing)), b') ->
  setup ++ trailing = bytes b ++ chunk.
Proof.
  unfold push_complete_setup. destruct (complete b); [done|]. cbn [bytes max_setup_bytes]. destruct (_ <? _); [done|].
  destruct (required_setup_packet_len _) as [[n|]|]; try done. destruct (_ <? _); [done|]. intros [= <- <- <-]. apply take_drop.
Qed.
Lemma push_none chunk b b' : push_complete_setup chunk b = (Ok None, b') ->
  b' = mkBuffer (bytes b ++ chunk) (max_setup_bytes b) false.
Proof.
  unfold push_complete_setup. destruct (complete b); [done|]. cbn [bytes max_setup_bytes]. destruct (_ <? _); [done|].
  destruct (required_setup_packet_len _) as [[n|]|]; try done; [destruct (_ <? _); [|done]|]; by intros [= <-].
Qed.

(** The length of the packet is told by its first twelve bytes. *)
Lemma total_len_app a b : 12 <= zlen a -> setup_packet_total_len (a ++ b) = setup_packet_total_len a.
Proof.
  intros Ha. destruct a as [|m [|u [|a0 [|a1 [|b0 [|b1 [|c0 [|c1 [|d0 [|d1 [|v0 [|v1 body]]]]]]]]]]]]; try (unfold zlen in Ha; cbn in Ha; lia).
  cbn [app]. unfold setup_packet_total_len. by rewrite !header_long.
Qed.
Lemma packet_len o u major minor v name pad1 data pad2 : layout_ok u major minor v name pad1 data pad2 ->
  zlen (setup_packet o u major minor v name pad1 data pad2) = 12 + up4 (zlen name) + up4 (zlen data).
Proof.
  intros (_ & _ & Hv & _ & _ & Hp1 & Hp2). rewrite setup_packet_header, !zlen_app, zlen_setup_header by done. lia.
Qed.
Lemma total_len_layout o u major minor v name pad1 data pad2 rest : layout_ok u major minor v name pad1 data pad2 ->
  setup_packet_total_len (setup_packet o u major minor v name pad1 data pad2 ++ rest)
  = Ok (Some (12 + up4 (zlen name) + up4 (zlen data))).
Proof.
  intros Hok. pose proof (parse_layout o u major minor v name pad1 data pad2 rest Hok) as Hp. unfold parse_setup_packet in Hp.
  destruct (setup_packet_total_len _) as [[n|]|]; [|done..]. rewrite result_bind_ok in Hp. destruct (_ <? _); [done|].
  do 2 f_equal. repeat match type of Hp with result_bind ?x _ = _ => destruct x; [rewrite result_bind_ok in Hp|done] end.
  by injection Hp.
Qed.

Lemma up4_max n : n <= 65535 -> up4 n <= 65536.
Proof. intros Hn. unfold up4. assert ((n + 3) / 4 < 16385) by (apply Z.div_lt_upper_bound; lia). lia. Qed.
Lemma up4_nonneg {A} (l : list A) : 0 <= up4 (zlen l).
Proof. pose proof (zlen_nonneg l). pose proof (up4_bounds (zlen l)). lia. Qed.

Section Whole.
Context (connect : result X11RuntimeError unit) (server : list Z) (a : X11AuthMaterial).
Context (local_ok : zlen (local_cookie a) <= 65535).

Lemma bridge_sound setup reads e : bytes_ok (bytes setup) -> bytes_ok (copied reads) -> complete setup = false ->
  bridge_loop connect server a setup reads = Some e ->
  match to_local e with Some written => carries a (bytes setup ++ copied reads) written | None => True end.
Proof.
  revert setup. induction reads as [|[[|c chunk]|x] reads IH]; intros setup Hs Hr Hc Hb; cbn [bridge_loop] in Hb; [done|by injection Hb as <-| |by injection Hb as <-].
  cbn [copied] in *. set (k := c :: chunk) in *. apply Forall_app in Hr as [Hk Hr]. unfold push_decision in Hb.
  destruct (push_complete_setup k setup) as [[[[s t]|]|err] b'] eqn:Ep.
  - pose proof (push_some _ _ _ _ _ Ep) as Hst. destruct (decide_setup a s t) as [[rw|rj]|err] eqn:Ed; cbn [result_bind] in Hb.
    + destruct connect; injection Hb as <-; [|done]. cbn [to_local]. rewrite (app_assoc (bytes setup)), <-Hst, app_assoc.
      apply carries_app. apply decide_forward in Ed; [done| |done]. assert (Hall : bytes_ok (s ++ t)) by (rewrite Hst; by apply Forall_app).
      by apply Forall_app in Hall as [? _].
    + by injection Hb as <-.
    + by injection Hb as <-.
  - pose proof (push_none _ _ _ Ep) as ->. apply IH in Hb; [|cbn; by apply Forall_app|done|done]. cbn [bytes] in Hb.
    destruct (to_local e); [|done]. by rewrite <-app_assoc in Hb.
  - by injection Hb as <-.
Qed.

Lemma bridge_complete o u major minor v pad1 pad2 rest reads acc : 
  layout_ok u major minor v (ssh_name (protocol a)) pad1 (fake_cookie a) pad2 ->
  let packet := setup_packet o u major minor v (ssh_name (protocol a)) pad1 (fake_cookie a) pad2 in
  acc ++ copied reads = packet ++ rest -> zlen acc < zlen packet -> connect = Ok tt ->
  Forall (fun r => match r with Ok chunk => zlen chunk <= X11_RUNTIME_READ_BUFFER_BYTES | Err _ => True end) reads ->
  exists e, bridge_loop connect server a (mkBuffer acc DEFAULT_MAX_SETUP_PACKET_BYTES false) reads = Some e
    /\ to_local e = Some (setup_packet o u major minor v (ssh_name (protocol a)) pad1 (local_cookie a)
                           (new_padding (fake_cookie a) pad2 (local_cookie a)) ++ rest)
    /\ to_ssh e = server.
Proof.
  intros Hok packet. revert acc. induction reads as [|[[|c chunk]|x] reads IH]; intros acc Hs Ha Hcon Hch; cbn [copied] in Hs.
  1,2,4: rewrite app_nil_r in Hs; subst acc; rewrite zlen_app in Ha; pose proof (zlen_nonneg rest); lia.
  cbn [bridge_loop]. set (k := c :: chunk) in *. inversion_clear Hch as [|? ? Hk Hchs]. unfold push_decision, push_complete_setup.
  cbn [complete bytes max_setup_bytes]. pose proof (packet_len o u major minor v _ pad1 _ pad2 Hok) as Hpl. fold packet in Hpl.
  assert (Hmax : zlen packet <= 12 + 65536 + 65536).
  { destruct Hok as (_ & _ & _ & Hn & Hd & _). rewrite Hpl. pose proof (up4_max _ Hn). pose proof (up4_max _ Hd). lia. }
  rewrite (proj2 (Z.ltb_ge _ _)) by (rewrite zlen_app; unfold DEFAULT_MAX_SETUP_PACKET_BYTES, X11_RUNTIME_READ_BUFFER_BYTES in *; lia).
  unfold required_setup_packet_len.
  destruct (Z.ltb_spec (zlen (acc ++ k)) 12) as [Hshort|Hlong].
  - unfold setup_packet_total_len at 1. rewrite (proj2 (Z.ltb_lt _ _)) by done. apply IH; try done; [by rewrite <-app_assoc|].
    pose proof (up4_nonneg (ssh_name (protocol a))). pose proof (up4_nonneg (fake_cookie a)). lia.
  - assert (Ht : setup_packet_total_len (acc ++ k) = Ok (Some (zlen packet))).
    { rewrite <-(total_len_app (acc ++ k) (copied reads)) by done. rewrite <-app_assoc, Hs, Hpl.
      by apply total_len_layout. }
    rewrite Ht. destruct (Z.ltb_spec (zlen (acc ++ k)) (zlen packet)) as [Hless|Hmore].
    { apply IH; try done. by rewrite <-app_assoc. }
    assert (Hcut : ztake (zlen packet) (acc ++ k) = packet /\ packet ++ zdrop (zlen packet) (acc ++ k) ++ copied reads = packet ++ rest).
    { assert (Htk : ztake (zlen packet) (acc ++ k) = packet).
      { transitivity (ztake (zlen packet) (packet ++ rest)); [|by apply ztake_app]. rewrite <-Hs, app_assoc. unfold ztake.
        rewrite (take_app_le (acc ++ k)); [done|]. unfold zlen in *. lia. }
      split; [done|]. rewrite <-Hs. rewrite <-Htk at 1. rewrite !app_assoc. f_equal. apply take_drop. }
    destruct Hcut as [-> Hrest]. apply app_inv_head in Hrest. set (t := zdrop (zlen packet) (acc ++ k)) in *. unfold decide_setup. rewrite <-(app_nil_r packet).
    unfold packet at 1. rewrite forward_rewrite by done. cbn [result_bind]. rewrite Hcon. eexists. split; [done|]. cbn [to_local to_ssh rewritten_setup trailing_data].
    split; [|done]. by rewrite <-Hrest, app_nil_r.
Qed.
End Whole.

Definition chunks_ok (reads : Reads) : Prop :=
  Forall (fun r => match r with
                   | Ok chunk => zlen chunk <= X11_RUNTIME_READ_BUFFER_BYTES /\ bytes_ok chunk
                   | Err _ => True
                   end) reads.
Lemma copied_ok reads : chunks_ok reads -> bytes_ok (copied reads).
Proof.
  unfold chunks_ok. induction 1 as [|[[|c k]|e] reads Hr Hrs IH]; cbn [copied]; [constructor|constructor| |constructor].
  apply Forall_app. by destruct Hr.
Qed.

(** C11: However the channel's bytes are cut into reads, the local X server is
    reached only by a channel whose bytes begin with a setup packet for
    MIT-MAGIC-COOKIE-1 that carries the fake cookie, and then it is sent exactly
    the channel's bytes with the real cookie in the fake one's place; every such
    channel gets there if the server can be dialled. *)
Theorem x11_bridge_guard connect server a reads : zlen (local_cookie a) <= 65535 -> chunks_ok reads ->
  (forall e written, bridge_x11_stream_to_endpoint connect server a reads = Some e -> to_local e = Some written ->
     carries a (copied reads) written)
  /\ (forall written, connect = Ok tt -> carries a (copied reads) written ->
        exists e, bridge_x11_stream_to_endpoint connect server a reads = Some e /\ to_local e = Some written).
Proof.
  intros Hl Hch. split.
  - intros e written Hb Hw. pose proof (bridge_sound connect server a Hl new_buffer reads e (List.Forall_nil _) (copied_ok _ Hch) eq_refl Hb) as H.
    by rewrite Hw in H.
  - intros written Hc (o & u & major & minor & v & pad1 & pad2 & rest & Hok & Hs & ->).
    destruct (bridge_complete connect server a Hl o u major minor v pad1 pad2 rest reads [] Hok) as (e & He & Hw & _); [exact Hs| |exact Hc| |].
    + rewrite (packet_len o) by done. pose proof (up4_nonneg (ssh_name (protocol a))). pose proof (up4_nonneg (fake_cookie a)).
      rewrite zlen_nil. lia.
    + eapply Forall_impl; [exact Hch|]. intros [k|x]; cbn; [by intros [? _]|done].
    + exists e. split; [exact He|exact Hw].
Qed.

(** ** The registry *)

Section RegistryFacts.
Context {C : Type} `{EqDecision C}.
Implicit Types l : list (X11SpoofedAuth C).
Lemma take_first_perm (p : X11SpoofedAuth C -> bool) l e r : take_first p l = Some (e, r) -> p e = true /\ l ≡ₚ e :: r.
Proof.
  revert r. induction l as [|x l IH]; intros r; cbn; [done|]. destruct (p x) eqn:E; [by intros [= <- <-]|].
  destruct (take_first p l) as [[y r']|]; [|done]. intros [= <- <-]. destruct (IH r' eq_refl) as [? ->]. split; [done|]. apply Permutation_swap.
Qed.
Lemma take_first_none (p : X11SpoofedAuth C -> bool) l : take_first p l = None -> Forall (fun e => p e = false) l.
Proof.
  induction l as [|x l IH]; cbn; [by constructor|]. destruct (p x) eqn:E; [done|].
  destruct (take_first p l) as [[y r']|]; [done|]. intros _. constructor; [done|by apply IH].
Qed.
Lemma insert_in entry l e : e ∈ (X11.insert entry l).2 -> e = entry \/ e ∈ l.
Proof.
  unfold X11.insert. destruct (take_first _ l) as [[old r]|] eqn:E; cbn [snd]; rewrite elem_of_app, list_elem_of_singleton; [|tauto].
  apply take_first_perm in E as [_ ->]. rewrite elem_of_cons. tauto.
Qed.
Lemma resolve_in p cookie l : match (resolve p cookie l).1 with
    | Some e => e ∈ l /\ protocol (auth e) = p /\ fake_cookie (auth e) = cookie
    | None => True
    end /\ forall e, e ∈ (resolve p cookie l).2 -> e ∈ l.
Proof.
  unfold resolve. destruct (take_first _ l) as [[x r]|] eqn:E; [|done]. apply take_first_perm in E as [Hp Hl].
  apply andb_true_iff in Hp as [Hp1%bool_decide_eq_true Hp2%bool_decide_eq_true].
  assert (Hin : x ∈ l) by (rewrite Hl; by left).
  destruct (single_connection x); cbn [fst snd]; (split; [done|]); [|done]. intros e He. rewrite Hl. by right.
Qed.
Lemma remove_channel_in c l e : e ∈ (remove_channel c l).2 <-> e ∈ l /\ channel_id e <> c.
Proof.
  cbn. rewrite !list_elem_of_In, filter_In, negb_true_iff, bool_decide_eq_false. done.
Qed.
(** No two entries have the same fake cookie, so a cookie for a single connection
    admits one. *)
Definition distinct l : Prop := NoDup (map (fun e => fake_cookie (auth e)) l).
Lemma insert_distinct entry l : distinct l -> distinct (X11.insert entry l).2.
Proof.
  unfold distinct, X11.insert. intros Hd. destruct (take_first _ l) as [[old r]|] eqn:E; cbn [snd].
  - apply take_first_perm in E as [Ho Hl]. apply bool_decide_eq_true in Ho. rewrite map_app, Permutation_app_comm. cbn.
    rewrite Hl in Hd. cbn in Hd. by rewrite Ho in Hd.
  - apply take_first_none in E. rewrite map_app, Permutation_app_comm. cbn. constructor; [|done].
    intros Hin. apply list_elem_of_fmap in Hin as (e & He & Hin). eapply list.Forall_forall in E; [|done].
    by apply bool_decide_eq_false in E.
Qed.
Lemma resolve_single p cookie l e : distinct l -> (resolve p cookie l).1 = Some e -> single_connection e = true ->
  distinct (resolve p cookie l).2 /\ (resolve p cookie (resolve p cookie l).2).1 = None.
Proof.
  unfold resolve. intros Hd. destruct (take_first _ l) as [[x r]|] eqn:E; [|done]. apply take_first_perm in E as [Hp Hl].
  destruct (single_connection x) eqn:Hx; cbn [fst snd]; intros [= <-] Hs; [|congruence].
  unfold distinct in *. rewrite Hl in Hd. cbn in Hd. apply NoDup_cons in Hd as [Hni Hd]. split; [done|].
  apply andb_true_iff in Hp as [_ Hp2%bool_decide_eq_true].
  destruct (take_first _ r) as [[y r']|] eqn:E2; [|done]. destruct Hni. apply take_first_perm in E2 as [Hy Hr].
  apply andb_true_iff in Hy as [_ Hy%bool_decide_eq_true]. apply list_elem_of_fmap. exists y. split; [congruence|]. rewrite Hr. by left.
Qed.
End RegistryFacts.

(** ** The dispatcher: lemmas *)

Lemma removed_routes ids st id r : routes (fold_left (fun st id => remove id st) ids st) !! id = Some r <->
  routes st !! id = Some r /\ id ∉ ids.
Proof.
  revert st. induction ids as [|x ids IH]; intros st; cbn.
  { split; [|tauto]. intros H. split; [done|apply not_elem_of_nil]. }
  rewrite IH. cbn [routes remove]. rewrite lookup_delete_Some, not_elem_of_cons.
  split; [intros [[? ?] ?]; by split_and!|intros (? & ? & ?); by split_and!].
Qed.
Lemma removed_registry ids st e : e ∈ auth_registry (fold_left (fun st id => remove id st) ids st) -> e ∈ auth_registry st.
Proof.
  revert st. induction ids as [|x ids IH]; intros st; cbn; [done|]. intros He. apply IH in He. cbn [auth_registry remove] in He.
  by apply remove_channel_in in He as [? _].
Qed.
Lemma pruned_route now st id r : routes (prune_expired_x11_routes now st) !! id = Some r <->
  routes st !! id = Some r /\ route_expired now r = false.
Proof.
  unfold prune_expired_x11_routes. rewrite removed_routes. split; intros [Hr Hx]; (split; [done|]).
  - apply not_true_iff_false. intros He. apply Hx. apply list_elem_of_fmap. exists (id, r). split; [done|].
    apply list_elem_of_In, filter_In. split; [|done]. by apply list_elem_of_In, elem_of_map_to_list.
  - intros Hin. apply list_elem_of_fmap in Hin as ([id' r'] & -> & Hin). apply list_elem_of_In, filter_In in Hin as [Hin He].
    apply list_elem_of_In, elem_of_map_to_list in Hin. cbn in *. congruence.
Qed.
Lemma pruned_registry now st e : e ∈ auth_registry (prune_expired_x11_routes now st) -> e ∈ auth_registry st.
Proof. apply removed_registry. Qed.

Abbreviation History := (list (route_id * X11LocalEndpoint * X11AuthMaterial)).
Definition known (h : History) (st : X11ForwardDispatcherState) : Prop :=
  (forall e, e ∈ auth_registry st -> exists ep, (channel_id e, ep, auth e) ∈ h)
  /\ (forall id r, routes st !! id = Some r -> exists a, (id, endpoint r, a) ∈ h).
Lemma known_mono h h' st : (forall x, x ∈ h -> x ∈ h') -> known h st -> known h' st.
Proof. intros Hh [H1 H2]. split; [intros e He; destruct (H1 e He); eauto|intros id r Hr; destruct (H2 id r Hr); eauto]. Qed.
Lemma known_prune h now st : known h st -> known h (prune_expired_x11_routes now st).
Proof.
  intros [H1 H2]. split; [intros e He; by apply H1, (pruned_registry now)|]. intros id r Hr. by apply pruned_route in Hr as [Hr _]; apply H2.
Qed.
Lemma known_remove h id st : known h st -> known h (remove id st).
Proof.
  intros [H1 H2]. split; cbn [auth_registry routes remove].
  - intros e He. apply remove_channel_in in He as [He _]. by apply H1.
  - intros id' r Hr. apply lookup_delete_Some in Hr as [_ Hr]. by apply H2.
Qed.
Lemma known_register h now id ep a single timeout st : known h st ->
  known ((id, ep, a) :: h) (register now id ep a single timeout st).
Proof.
  intros Hk. apply (known_prune h now) in Hk as [H1 H2]. split; cbn [auth_registry routes register].
  - intros e He. apply insert_in in He as [->|He]; [exists ep; by left|]. destruct (H1 e He) as [ep' ?]. exists ep'. by right.
  - intros id' r Hr. apply lookup_insert_Some in Hr as [[<- <-]|[_ Hr]]; [exists a; by left|].
    destruct (H2 id' r Hr) as [a' ?]. exists a'. by right.
Qed.

(** What a decision takes from the registry. *)
Lemma decide_registered_ok (l : list (X11SpoofedAuth route_id)) setup trailing d l' : bytes_ok setup ->
  (forall e, e ∈ l -> zlen (local_cookie (auth e)) <= 65535) ->
  decide_registered setup trailing l = (d, l') ->
  (forall e, e ∈ l' -> e ∈ l)
  /\ match d with
     | Ok (RegisteredForward id rw) =>
         exists e, e ∈ l /\ channel_id e = id /\ carries (auth e) (setup ++ trailing) (rewritten_setup rw ++ trailing_data rw)
     | _ => True
     end.
Proof.
  intros Hb Hl. unfold decide_registered, resolve_setup_packet.
  destruct (inspect_setup_authentication setup) as [sa|e].
  2:{ intros Hd. assert (l' = l /\ match d with Ok (RegisteredForward _ _) => False | _ => True end) as [-> Hd'].
      { destruct e; try (by injection Hd as <- <-); destruct (reject_setup_packet _ _ _); by injection Hd as <- <-. }
      split; [done|]. by destruct d as [[]|]. }
  destruct (resolve_in (sa_protocol sa) (sa_fake_cookie sa) l) as [Hres Hsub].
  destruct (resolve (sa_protocol sa) (sa_fake_cookie sa) l) as [[e|] l1]; cbn [fst snd] in *.
  - destruct (rewrite_setup_authentication setup (auth e)) as [[r setup']|x] eqn:Er; intros [= <- <-]; (split; [done|]); cbn; [|done].
    destruct Hres as (Hin & _ & _). exists e. split_and!; [done|done|]. eapply rewrite_carries; [done|by apply Hl|done].
  - destruct (reject_setup_packet _ _ _); intros [= <- <-]; (split; [done|]); done.
Qed.
Lemma decide_section_ok now chunk setup st d setup' st' h : known h st -> complete setup = false -> bytes_ok (bytes setup ++ chunk) ->
  (forall x, x ∈ h -> zlen (local_cookie x.2) <= 65535) ->
  decide_section now chunk setup st = (d, setup', st') ->
  known h st'
  /\ match d with
     | Ok None => setup' = mkBuffer (bytes setup ++ chunk) (max_setup_bytes setup) false
     | Ok (Some (RegisteredForward id rw)) =>
         exists ep a, (id, ep, a) ∈ h /\ carries a (bytes setup ++ chunk) (rewritten_setup rw ++ trailing_data rw)
     | _ => True
     end.
Proof.
  intros Hk Hc Hb Hh. apply (known_prune h now) in Hk. unfold decide_section, push_registry_decision.
  set (p := prune_expired_x11_routes now st) in *.
  destruct (push_complete_setup chunk setup) as [[[[s t]|]|err] b'] eqn:Ep; cbn [fst snd].
  - pose proof (push_some _ _ _ _ _ Ep) as Hst. destruct (decide_registered s t (auth_registry p)) as [d1 l1] eqn:Ed. cbn [fst snd].
    intros [= <- <- <-]. destruct Hk as [H1 H2].
    destruct (decide_registered_ok (auth_registry p) s t d1 l1) as [Hsub Hd]; [| |done|].
    { rewrite <-Hst in Hb. by apply Forall_app in Hb as [? _]. }
    { intros e He. destruct (H1 e He) as [ep Hin]. exact (Hh _ Hin). }
    split; [split; cbn [auth_registry routes]; [intros e He; by apply H1, Hsub|done]|].
    destruct d1 as [[id rw|rj]|x]; cbn; [|done..]. destruct Hd as (e & He & <- & Hcar). destruct (H1 e He) as [ep Hin].
    exists ep, (auth e). by rewrite <-Hst.
  - intros [= <- <- <-]. split; [by destruct p|]. by apply push_none.
  - intros [= <- <- <-]. by destruct p.
Qed.

(** ** All interleavings *)

Definition bridge_ok (h : History) (b : Bridge) : Prop :=
  match b with
  | Reading setup seen => complete setup = false /\ bytes setup = seen /\ bytes_ok seen
  | Granted id rw seen => exists ep a, (id, ep, a) ∈ h /\ carries a seen (rewritten_setup rw ++ trailing_data rw)
  | Opened id e written seen => (exists ep a, (id, ep, a) ∈ h /\ carries a seen written) /\ exists a, (id, e, a) ∈ h
  | Ended _ => True
  end.
Lemma bridge_ok_mono h h' b : (forall x, x ∈ h -> x ∈ h') -> bridge_ok h b -> bridge_ok h' b.
Proof.
  intros Hh. destruct b as [| | |]; cbn; [done| | |done].
  - intros (ep & a & Hin & Hc). eauto.
  - intros [(ep & a & Hin & Hc) (a' & Hin')]. eauto 10.
Qed.
Record fine (w : World) : Prop := {
  fine_known : known (registered w) (dispatcher w);
  fine_local : forall x, x ∈ registered w -> zlen (local_cookie x.2) <= 65535;
  fine_bridges : forall n b, bridges w !! n = Some b -> bridge_ok (registered w) b
}.
Definition step_ok (s : Step) : Prop :=
  match s with
  | SRegister _ _ _ a _ _ => zlen (local_cookie a) <= 65535
  | SRead _ _ chunk => bytes_ok chunk
  | _ => True
  end.

Lemma fine_dispatcher w st : fine w -> known (registered w) st -> fine (mkWorld st (bridges w) (registered w)).
Proof. by intros [H1 H2 H3]. Qed.
Lemma fine_set w n b : fine w -> bridge_ok (registered w) b -> fine (set_bridge n b w).
Proof.
  intros [H1 H2 H3] Hb. split; [done|done|]. cbn [bridges registered set_bridge]. intros m b'.
  rewrite lookup_insert_Some. intros [[_ <-]|[_ ?]]; [done|by apply (H3 m)].
Qed.
Lemma fine_step w s : fine w -> step_ok s -> fine (step w s).
Proof.
  intros Hw Hs. pose proof Hw as [Hk Hl Hb].
  destruct s as [now id e a single timeout|id|now|n|n now chunk|n now lease connect|n chunk|n]; cbn [step].
  - split; cbn [registered dispatcher bridges].
    + by apply known_register.
    + intros x Hx. apply elem_of_cons in Hx as [->|Hx]; [exact Hs|by apply Hl].
    + intros n b Hn. eapply bridge_ok_mono; [|by eapply Hb]. intros x Hx. by right.
  - by apply fine_dispatcher, known_remove.
  - by apply fine_dispatcher, known_prune.
  - destruct (bridges w !! n); [done|]. apply fine_set; [done|]. split_and!; [done|done|constructor].
  - destruct (bridges w !! n) as [[setup seen| | |]|] eqn:En; [|done..]. destruct (Hb _ _ En) as (Hc & <- & Hbs).
    destruct (decide_section now chunk setup (dispatcher w)) as [[d setup'] st'] eqn:Ed.
    assert (Hbc : bytes_ok (bytes setup ++ chunk)) by by apply Forall_app.
    destruct (decide_section_ok _ _ _ _ _ _ _ (registered w) Hk Hc Hbc Hl Ed) as [Hk' Hd].
    destruct d as [[[id rw|rj]|]|x]; (apply fine_set; [by apply fine_dispatcher|]); [exact Hd|done| |done].
    subst setup'. done.
  - destruct (bridges w !! n) as [[| id rw seen| |]|] eqn:En; [done| |done..]. destruct (Hb _ _ En) as (ep & a & Hin & Hcar).
    cbn [route_section]. pose proof (known_prune (registered w) now _ Hk) as Hkp.
    destruct (routes (prune_expired_x11_routes now (dispatcher w)) !! id) as [r|] eqn:Er;
      [destruct (lease && connect)|]; (apply fine_set; [by apply fine_dispatcher|]); [|done..].
    split; [by exists ep, a|]. by apply (proj2 Hkp) in Er.
  - destruct (bridges w !! n) as [[| |id e written seen|]|] eqn:En; [done..| |done|done].
    destruct (Hb _ _ En) as [(ep & a & Hin & Hcar) Ha]. apply fine_set; [done|]. split; [|done].
    exists ep, a. split; [done|by apply carries_app].
  - destruct (bridges w !! n); [|done]. by apply fine_set.
Qed.
Lemma fine_run steps w : fine w -> Forall step_ok steps -> fine (run steps w).
Proof.
  intros Hw Hs. revert w Hw. induction Hs as [|s steps Hs1 Hs IH]; intros w Hw; cbn; [done|]. by apply IH, fine_step.
Qed.
Lemma fine_start : fine start.
Proof.
  split; [split|..]; cbn.
  - intros e He. by apply not_elem_of_nil in He.
  - intros id r. by rewrite lookup_empty.
  - intros x Hx. by apply not_elem_of_nil in Hx.
  - intros n b. by rewrite lookup_empty.
Qed.

(** C10: Over every interleaving of registrations, removals, expiry and any
    number of channels: an open bridge belongs to a route that was registered at
    some time (that a removed or expired one opens no further bridge is
    [x11_revoked_route_refused]) and whose fake cookie its channel's setup
    packet carries; the endpoint it was connected to is one registered for that
    route; and what the local server got is the channel's bytes with that
    registration's real cookie in the fake one's place. *)
Theorem x11_channels_admitted steps n id e written seen : Forall step_ok steps ->
  bridges (run steps start) !! n = Some (Opened id e written seen) ->
  (exists ep a, (id, ep, a) ∈ registered (run steps start) /\ carries a seen written)
  /\ exists a, (id, e, a) ∈ registered (run steps start).
Proof. intros Hs Hn. exact (fine_bridges _ (fine_run steps start fine_start Hs) n _ Hn). Qed.

(** *** Removed and expired routes *)

Definition dead (t : Z) (id : route_id) (st : X11ForwardDispatcherState) : Prop :=
  match routes st !! id with None => True | Some r => route_expired t r = true end.
Definition step_time (s : Step) : option Z :=
  match s with
  | SRegister now _ _ _ _ _ | SActive now | SRead _ now _ | SRoute _ now _ _ => Some now
  | _ => None
  end.
Definition later_step (t : Z) (id : route_id) (s : Step) : Prop :=
  (forall now, step_time s = Some now -> t <= now) /\ match s with SRegister _ id' _ _ _ _ => id' <> id | _ => True end.

Lemma expired_later t now r : t <= now -> route_expired t r = true -> route_expired now r = true.
Proof. unfold route_expired. destruct (expires_at r); [|done]. lia. Qed.
Lemma dead_routes t id st st' : (forall r, routes st' !! id = Some r -> routes st !! id = Some r) -> dead t id st -> dead t id st'.
Proof. unfold dead. intros H. destruct (routes st' !! id) as [r|]; [|done]. by rewrite (H r eq_refl). Qed.
Lemma dead_prune t id now st : dead t id st -> dead t id (prune_expired_x11_routes now st).
Proof. apply dead_routes. intros r Hr. by apply pruned_route in Hr as [? _]. Qed.
Lemma dead_step t id w s : later_step t id s -> dead t id (dispatcher w) -> dead t id (dispatcher (step w s)).
Proof.
  intros [_ Hs] Hd. destruct s as [now id' e a single timeout|id'|now|n|n now chunk|n now lease connect|n chunk|n]; cbn [step].
  - apply (dead_prune t id now) in Hd. eapply dead_routes; [|exact Hd]. intros r. cbn. by rewrite lookup_insert_ne.
  - eapply dead_routes; [|exact Hd]. intros r Hr. cbn in Hr. by apply lookup_delete_Some in Hr as [_ ?].
  - by apply dead_prune.
  - by destruct (bridges w !! n).
  - destruct (bridges w !! n) as [[| | |]|]; [|done..]. destruct (decide_section _ _ _ _) as [[d b] st'] eqn:Ed.
    assert (Hst : dead t id st').
    { unfold decide_section in Ed. injection Ed as _ _ <-. exact (dead_prune t id now _ Hd). }
    by destruct d as [[[]|]|].
  - destruct (bridges w !! n) as [[| | |]|]; [done| |done..]. cbn [route_section].
    apply (dead_prune t id now) in Hd. destruct (routes _ !! _); [destruct (lease && connect)|]; done.
  - by destruct (bridges w !! n) as [[]|].
  - by destruct (bridges w !! n).
Qed.
Lemma opened_step t id w s n e written seen : later_step t id s -> dead t id (dispatcher w) ->
  bridges (step w s) !! n = Some (Opened id e written seen) -> exists written0 seen0, bridges w !! n = Some (Opened id e written0 seen0).
Proof.
  intros [Ht _] Hd. destruct s as [now id' e' a single timeout|id'|now|m|m now chunk|m now lease connect|m chunk|m]; cbn [step]; try by eauto.
  - destruct (bridges w !! m); [by eauto|]. cbn. rewrite lookup_insert_Some. intros [[_ ?]|[_ ?]]; [done|by eauto].
  - destruct (bridges w !! m) as [[| | |]|]; [|by eauto..]. destruct (decide_section _ _ _ _) as [[d b] st'].
    destruct d as [[[]|]|]; cbn; rewrite lookup_insert_Some; (intros [[_ ?]|[_ ?]]; [done|by eauto]).
  - destruct (bridges w !! m) as [[|id' rw seen'| |]|]; [by eauto| |by eauto..]. cbn [route_section].
    destruct (routes (prune_expired_x11_routes now (dispatcher w)) !! id') as [r|] eqn:Er; [destruct (lease && connect)|];
      cbn; rewrite lookup_insert_Some; (intros [[_ Ho]|[_ ?]]; [|by eauto]); [|done..].
    injection Ho as -> <- <- <-. apply pruned_route in Er as [Er Hx]. unfold dead in Hd. rewrite Er in Hd.
    pose proof (expired_later t now r (Ht now eq_refl) Hd). congruence.
  - destruct (bridges w !! m) as [[| |id' e' written' seen'|]|] eqn:Em; [by eauto..| |by eauto|by eauto].
    cbn. rewrite lookup_insert_Some. intros [[-> Ho]|[_ ?]]; [|by eauto]. injection Ho as -> -> _ _. by eauto.
  - destruct (bridges w !! m); [|by eauto]. cbn. rewrite lookup_insert_Some. intros [[_ ?]|[_ ?]]; [done|by eauto].
Qed.

(** Once a route has been removed, or its acceptance time has passed, and
    until it is registered again, no further channel is opened for it: a bridge
    that is open for it was open before. *)
Theorem x11_revoked_route_refused t id w steps n e written seen : dead t id (dispatcher w) -> Forall (later_step t id) steps ->
  bridges (run steps w) !! n = Some (Opened id e written seen) ->
  exists written0 seen0, bridges w !! n = Some (Opened id e written0 seen0).
Proof.
  intros Hd Hs. revert w Hd. induction Hs as [|s steps Hs1 Hs IH]; intros w Hd; cbn; [by eauto|]. intros Hn.
  destruct (IH (step w s) (dead_step _ _ _ _ Hs1 Hd) Hn) as (w0 & s0 & H0). by eapply opened_step.
Qed.

(** ** A channel *)

Definition demo_auth : X11AuthMaterial := mkAuth MitMagicCookie1 (replicate 16 0xaa) (replicate 16 0xbb).
Definition demo_packet (o : X11ByteOrder) (name cookie : list Z) : list Z :=
  setup_packet o 0 11 0 [0; 0] name (replicate (Z.to_nat (up4 (zlen name) - zlen name)) 0) cookie
    (replicate (Z.to_nat (up4 (zlen cookie) - zlen cookie)) 0).
Definition demo_name : list Z := lit "MIT-MAGIC-COOKIE-1".
Definition demo_stream : list Z := demo_packet LittleEndian demo_name (replicate 16 0xaa) ++ lit "hello".
Definition demo_reads : Reads := [Ok (take 7 demo_stream); Ok (drop 7 demo_stream); Ok (lit "more"); Ok []].
Definition demo_id : route_id := lit "terminal".
Definition demo_steps : list Step :=
  [SRegister 0 demo_id (unix_socket_for_display 0) demo_auth false (Some 100); SChannel 1; SChannel 2;
   SRead 1 10 (take 7 demo_stream); SRead 1 11 (drop 7 demo_stream); SRoute 1 12 true true; SCopy 1 (lit "more");
   SRead 2 13 demo_stream].

Example demo_forwarded :
  match bridge_x11_stream_to_endpoint (Ok tt) [] demo_auth demo_reads with
  | Some e => bool_decide (to_local e = Some (demo_packet LittleEndian demo_name (replicate 16 0xbb) ++ lit "hellomore"))
  | None => false
  end = true.
Proof. vm_compute. reflexivity. Qed.
(** A wrong cookie is answered, and the server is not dialled. *)
Example demo_rejected :
  match bridge_x11_stream_to_endpoint (Ok tt) [] demo_auth [Ok (demo_packet BigEndian demo_name (replicate 16 0xcc))] with
  | Some e => bool_decide (to_local e = None) && bool_decide (take 2 (to_ssh e) = [0; 36])
  | None => false
  end = true.
Proof. vm_compute. reflexivity. Qed.
(** The registry trims the protocol's name, the rewriting does not: a name with a
    blank uses up a cookie for a single connection and ends in an error. *)
Example blank_name_consumes_cookie :
  let entry := mkSpoofed demo_id demo_auth true in
  match push_registry_decision (demo_packet LittleEndian (demo_name ++ [32]) (replicate 16 0xaa)) new_buffer [entry] with
  | (Err (UnsupportedAuthProtocol _), _, []) => true
  | _ => false
  end = true.
Proof. vm_compute. reflexivity. Qed.

Lemma demo_chunks : chunks_ok demo_reads.
Proof. repeat constructor; vm_compute; discriminate. Qed.
Lemma demo_steps_ok : Forall step_ok demo_steps.
Proof. repeat constructor; vm_compute; discriminate. Qed.
Definition demo_world : World := run demo_steps start.

Lemma x11_bridge_guard_witness : exists written, carries demo_auth (copied demo_reads) written.
Proof.
  assert (Hl : zlen (local_cookie demo_auth) <= 65535) by (vm_compute; discriminate).
  destruct (bridge_x11_stream_to_endpoint (Ok tt) [] demo_auth demo_reads) as [e|] eqn:E; [|vm_compute in E; discriminate].
  destruct (to_local e) as [written|] eqn:Ew.
  - exists written. exact (proj1 (x11_bridge_guard (Ok tt) [] demo_auth demo_reads Hl demo_chunks) e written E Ew).
  - exfalso. vm_compute in E. injection E as <-. vm_compute in Ew. discriminate.
Defined.
Lemma x11_channels_admitted_witness : exists a, (demo_id, unix_socket_for_display 0, a) ∈ registered (run demo_steps start).
Proof.
  destruct (bridges (run demo_steps start) !! 1%nat) as [[| |id e written seen|]|] eqn:E; try (vm_compute in E; discriminate).
  destruct (x11_channels_admitted demo_steps 1 id e written seen demo_steps_ok E) as [_ [a Ha]].
  vm_compute in E. injection E as <- <- <- <-. exists a. exact Ha.
Defined.
Lemma x11_revoked_route_refused_witness :
  bridges (run [SRoute 2 20 true true] (step demo_world (SRemove demo_id))) !! 2%nat <> Some (Opened demo_id (unix_socket_for_display 0) [] []).
Proof.
  intros H. destruct (x11_revoked_route_refused 20 demo_id (step demo_world (SRemove demo_id)) [SRoute 2 20 true true] 2
    (unix_socket_for_display 0) [] []) as (w0 & s0 & H0).
  - vm_compute. exact I.
  - repeat constructor. intros now [= <-]. lia.
  - exact H.
  - vm_compute in H0. discriminate.
Defined.
