(* ===== verification/X11Authority.v ===== *)
(** * X11 displays and authority records (hapcli-x11-forwarding)

    Where the cookie of the local X server comes from: DISPLAY values
    ([display.rs]), the environment ([authority.rs]), the binary authority file
    ([xauthority.rs]), the output of xauth ([xauth.rs]), the choice of an entry and
    the plan made of it ([plan.rs], [config.rs], [policy.rs], the arguments of
    [prepare.rs]), the display on the remote side ([allocation.rs]) and the
    command that installs the fake cookie there ([remote_xauth.rs]).  IP
    addresses are those of [IpAddr]. *)
From S2P Require Import Prelude Text TrzszBuffer TrzszTransfer FileSystem TextOps IpAddr X11.
From Stdlib Require Import Ascii String.
From stdpp Require Import prelude numbers list.
Open Scope Z_scope.

(** ** Displays *)

Inductive X11DisplayTransport := Unix | UnixSocketAt (path : list Z) | TcpHost (host : list Z).
Record X11Display := mkDisplay { transport : X11DisplayTransport; display : Z; screen : Z }.

Definition ends_with (suffix s : list Z) : bool := bool_decide (drop (length s - length suffix) s = suffix).
Definition strip_suffix_char (c : Z) (s : list Z) : option (list Z) :=
  match reverse s with x :: r => if x =? c then Some (reverse r) else None | [] => None end.

Definition parse_u16_component (value label : list Z) : X11Result Z :=
  if bool_decide (value = []) || negb (forallb is_digit value)
  then Err (InvalidDisplay (label ++ lit " must be a non-negative integer"))
  else match parse_u16 value with
       | Some n => Ok n
       | None => Err (InvalidDisplay (label ++ lit " is too large for X11 forwarding"))
       end.
Definition parse_display_and_screen (value : list Z) : X11Result (Z * Z) :=
  let parts := match split_once_char 46 value with Some p => p | None => (value, lit "0") end in
  let? d := parse_u16_component parts.1 (lit "display number") in
  let? s := parse_u16_component parts.2 (lit "screen number") in
  Ok (d, s).
Definition is_tcp_protocol (value : list Z) : bool :=
  bool_decide (value = lit "tcp") || bool_decide (value = lit "inet") || bool_decide (value = lit "inet6").
Definition normalize_host (host : list Z) : X11Result (list Z) :=
  let host := trim host in
  match host with
  | [] => Err (InvalidDisplay (lit "TCP display host must not be empty"))
  | c :: value =>
      Ok (if c =? 91 then default host (strip_suffix_char 93 value) else host)
  end.
Definition parse_transport (prefix : list Z) : X11Result X11DisplayTransport :=
  let tcp host := let? h := normalize_host host in Ok (TcpHost h) in
  if bool_decide (prefix = []) || bool_decide (prefix = lit "unix") || bool_decide (prefix = lit "unix/")
     || ends_with (lit "/unix") prefix
  then Ok Unix
  else if starts_with_char 47 prefix then Ok (UnixSocketAt prefix)
  else match split_once_char 47 prefix with
       | Some (before, after) =>
           if bool_decide (before = lit "unix") && bool_decide (after = []) then Ok Unix
           else if is_tcp_protocol before then tcp after
           else if is_tcp_protocol after then tcp before
           else if bool_decide (after = lit "unix") then Ok Unix
           else tcp prefix
       | None => tcp prefix
       end.
Definition parse_display (input : list Z) : X11Result X11Display :=
  let value := trim input in
  if bool_decide (value = []) then Err EmptyDisplay
  else match rsplit_once 58 value with
       | None => Err (InvalidDisplay (lit "missing display separator ':'"))
       | Some (prefix, suffix) =>
           let? ds := parse_display_and_screen suffix in
           let? t := parse_transport prefix in
           Ok (mkDisplay t ds.1 ds.2)
       end.

Definition tcp_port (d : X11Display) : X11Result Z :=
  if 6000 + display d <=? 65535 then Ok (6000 + display d) else Err (DisplayPortOutOfRange (display d)).
Definition local_endpoint (d : X11Display) : X11Result X11LocalEndpoint :=
  match transport d with
  | Unix => Ok (unix_socket_for_display (display d))
  | UnixSocketAt path => Ok (UnixSocket (path ++ lit ":" ++ u64_to_string (display d)))
  | TcpHost host => let? port := tcp_port d in Ok (Tcp host port)
  end.
Definition remote_display_value (d : X11Display) (remote_display : Z) : list Z :=
  lit "localhost:" ++ u64_to_string remote_display ++ lit "." ++ u64_to_string (screen d).
Definition xauth_query_display (d : X11Display) : list Z :=
  match transport d with
  | Unix => lit ":" ++ u64_to_string (display d)
  | UnixSocketAt path => path ++ lit ":" ++ u64_to_string (display d)
  | TcpHost host => host ++ lit ":" ++ u64_to_string (display d)
  end.

(** ** xauth *)

Inductive X11AuthorityFile := DefaultFile | PathFile (path : list Z).
Record X11AuthCommand := mkCommand { program : list Z; args : list (list Z) }.
Definition xauth_list (d : X11Display) (file : X11AuthorityFile) : X11AuthCommand :=
  mkCommand (lit "xauth")
    ((match file with PathFile path => [lit "-f"; path] | DefaultFile => [] end) ++ [lit "list"; xauth_query_display d]).
Definition xauth_nlist (d : X11Display) (file : X11AuthorityFile) : X11AuthCommand :=
  let command := xauth_list d file in
  mkCommand (program command) (<[(length (args command) - 2)%nat := lit "nlist"]> (args command)).

Record X11AuthEntry := mkAuthEntry { display_name : list Z; entry_protocol : X11AuthProtocol; cookie : X11AuthCookie }.

(** An entry for another protocol is no entry. *)
Definition supported (r : X11Result X11AuthProtocol) : X11Result (option X11AuthProtocol) :=
  match r with
  | Ok p => Ok (Some p)
  | Err (UnsupportedAuthProtocol _) => Ok None
  | Err e => Err e
  end.
Definition parse_list_line (line : list Z) : X11Result (option X11AuthEntry) :=
  let trimmed := trim line in
  if bool_decide (trimmed = []) || starts_with_char 35 trimmed then Ok None
  else match split_whitespace trimmed with
       | [] => Err (InvalidXauthRecord (lit "missing display"))
       | [_] => Err (InvalidXauthRecord (lit "missing protocol"))
       | [_; _] => Err (InvalidXauthRecord (lit "missing cookie"))
       | [name; p; c] =>
           let? p := supported (parse_protocol p) in
           match p with
           | None => Ok None
           | Some p => let? c := cookie_from_hex c in Ok (Some (mkAuthEntry name p c))
           end
       | _ => Err (InvalidXauthRecord (lit "too many fields in xauth record"))
       end.

Definition hex_value (c : Z) : option Z :=
  if in_range 48 57 c then Some (c - 48)
  else if in_range 97 102 c then Some (c - 97 + 10)
  else if in_range 65 70 c then Some (c - 65 + 10)
  else None.
(** [usize::from_str_radix(s, 16)]: an optional plus sign, at least one digit. *)
Definition parse_hex_digit (acc : option Z) (c : Z) : option Z :=
  match acc, hex_value c with
  | Some n, Some v => let n' := 16 * n + v in if n' <=? U64_MAX then Some n' else None
  | _, _ => None
  end.
Definition from_str_radix16 (s : list Z) : option Z :=
  match s with
  | [] => None
  | c :: ds => if c =? 43 then match ds with [] => None | _ => fold_left parse_hex_digit ds (Some 0) end
               else fold_left parse_hex_digit s (Some 0)
  end.
(** The product wraps around in a build without overflow checks. *)
Definition checked_nlist_hex_field (len_hex data_hex label : list Z) : X11Result (list Z) :=
  match from_str_radix16 len_hex with
  | None => Err (InvalidXauthRecord (lit "invalid nlist length"))
  | Some len =>
      let n := zlen (utf8_encode data_hex) in
      if negb (n =? wrap 64 (len * 2)) || negb (n mod 2 =? 0) then Err (InvalidXauthRecord label) else Ok data_hex
  end.
Definition hex_nibble (byte : Z) : X11Result Z :=
  match hex_value byte with Some v => Ok v | None => Err (InvalidXauthRecord (lit "non-hex nlist data")) end.
(** The bytes, each as a character. *)
Fixpoint nlist_chars (hex : list Z) : X11Result (list Z) :=
  match hex with
  | a :: b :: rest =>
      let? high := hex_nibble a in
      let? low := hex_nibble b in
      let? chars := nlist_chars rest in
      Ok (Z.lor (wrap 8 (Z.shiftl high 4)) low :: chars)
  | _ => Ok []
  end.
Definition decode_nlist_field (len_hex data_hex label : list Z) : X11Result (list Z) :=
  let? hex := checked_nlist_hex_field len_hex data_hex label in nlist_chars (utf8_encode hex).
Definition parse_nlist_line (line : list Z) : X11Result (option X11AuthEntry) :=
  let trimmed := trim line in
  if bool_decide (trimmed = []) || starts_with_char 35 trimmed then Ok None
  else match split_whitespace trimmed with
       | _ :: al :: a :: nl :: n :: pl :: p :: cl :: c :: _ =>
           let? address := decode_nlist_field al a (lit "address") in
           let? number := decode_nlist_field nl n (lit "display number") in
           let? protocol := decode_nlist_field pl p (lit "protocol") in
           let? cookie_hex := checked_nlist_hex_field cl c (lit "cookie") in
           let? p := supported (parse_protocol protocol) in
           match p with
           | None => Ok None
           | Some p => let? c := cookie_from_hex cookie_hex in Ok (Some (mkAuthEntry (address ++ lit ":" ++ number) p c))
           end
       | _ => Err (InvalidXauthRecord (lit "nlist record has too few fields"))
       end.
(** [filter_map(.. transpose()).collect()]. *)
Fixpoint collect_entries (parse : list Z -> X11Result (option X11AuthEntry)) (ls : list (list Z)) : X11Result (list X11AuthEntry) :=
  match ls with
  | [] => Ok []
  | l :: r =>
      let? e := parse l in
      let? es := collect_entries parse r in
      Ok (match e with Some e => e :: es | None => es end)
  end.
Definition parse_xauth_list (output : list Z) : X11Result (list X11AuthEntry) := collect_entries parse_list_line (lines output).
Definition parse_xauth_nlist (output : list Z) : X11Result (list X11AuthEntry) := collect_entries parse_nlist_line (lines output).

Definition parse_xauth_display_suffix (value : list Z) : option (Z * option Z) :=
  match rsplit_once 58 value with
  | None => None
  | Some (_, suffix) =>
      let parts := match split_once_char 46 suffix with Some (d, s) => (d, Some s) | None => (suffix, None) end in
      match parse_u16 parts.1 with
      | None => None
      | Some d => Some (d, match parts.2 with Some s => parse_u16 s | None => None end)
      end
  end.
Definition matches_display (e : X11AuthEntry) (d : X11Display) : bool :=
  match parse_xauth_display_suffix (display_name e) with
  | Some (ed, es) => (ed =? display d) && (default (screen d) es =? screen d)
  | None => false
  end.
Definition match_score (e : X11AuthEntry) (d : X11Display) : option Z :=
  match parse_xauth_display_suffix (display_name e) with
  | None => None
  | Some (ed, es) =>
      if negb (ed =? display d) then None
      else match es with
           | Some s => if s =? screen d then Some 3 else None
           | None => Some 2
           end
  end.

(** [filter_map], then [max_by_key], which gives the last of the greatest. *)
Fixpoint best_by {A} (score : A -> option Z) (best : option (Z * A)) (l : list A) : option (Z * A) :=
  match l with
  | [] => best
  | x :: r =>
      match score x with
      | None => best_by score best r
      | Some s => best_by score (match best with
                                 | Some (t, y) => if t <=? s then Some (s, x) else Some (t, y)
                                 | None => Some (s, x)
                                 end) r
      end
  end.
Definition select_xauth_entry (entries : list X11AuthEntry) (d : X11Display) : option X11AuthEntry :=
  match best_by (fun e => match_score e d) None entries with Some (_, e) => Some e | None => None end.

(** ** The authority file *)

Inductive X11AuthorityFamily := Internet | Decnet | Internet6 | Local | Wild | Other (code : Z).
Definition from_code (code : Z) : X11AuthorityFamily :=
  if code =? 0 then Internet else if code =? 1 then Decnet else if code =? 6 then Internet6
  else if code =? 256 then Local else if code =? 65535 then Wild else Other code.
Definition code (f : X11AuthorityFamily) : Z :=
  match f with Internet => 0 | Decnet => 1 | Internet6 => 6 | Local => 256 | Wild => 65535 | Other c => c end.
Record X11BinaryAuthorityEntry := mkBinary {
  family : X11AuthorityFamily; address : list Z; display_number : list Z; b_protocol : X11AuthProtocol; b_cookie : X11AuthCookie
}.
Definition is_loopback (a : IpAddr) : bool :=
  match a with
  | V4 octets => bool_decide (head octets = Some 127)
  | V6 octets => bool_decide (octets = replicate 15 0 ++ [1])
  end.
Record X11AuthorityMatchContext := mkContext { local_hostname : option (list Z); resolved_addresses : list IpAddr }.
Definition new_context : X11AuthorityMatchContext := mkContext None [].

(** A reader's argument is what follows the cursor, and so is its second
    result. *)
Definition take_u16 (bytes : list Z) : X11Result (Z * list Z) :=
  match bytes with
  | b0 :: b1 :: rest => Ok (u16_from_be b0 b1, rest)
  | _ => Err (InvalidXauthRecord (lit "truncated xauthority record"))
  end.
Definition read_field (bytes : list Z) : X11Result (list Z * list Z) :=
  let? r := take_u16 bytes in
  let (len, rest) := r in
  if zlen rest <? len then Err (InvalidXauthRecord (lit "truncated xauthority field"))
  else Ok (ztake len rest, zdrop len rest).
Definition read_text_field (bytes : list Z) : X11Result (list Z * list Z) :=
  let? r := read_field bytes in Ok (from_utf8_lossy r.1, r.2).
(** One turn of the loop: the entry, if it is of the supported protocol. *)
Definition read_record (bytes : list Z) : X11Result (option X11BinaryAuthorityEntry * list Z) :=
  let? f := take_u16 bytes in
  let? address := read_field f.2 in
  let? number := read_text_field address.2 in
  let? name := read_text_field number.2 in
  let? c := read_field name.2 in
  let? p := supported (parse_protocol name.1) in
  match p with
  | None => Ok (None, c.2)
  | Some p => let? k := cookie_from_bytes c.1 in Ok (Some (mkBinary (from_code f.1) address.1 number.1 p k), c.2)
  end.
Fixpoint parse_records (fuel : nat) (bytes : list Z) : option (X11Result (list X11BinaryAuthorityEntry)) :=
  match bytes with
  | [] => Some (Ok [])
  | _ =>
      match fuel with
      | O => None
      | S fuel =>
          match read_record bytes with
          | Err e => Some (Err e)
          | Ok (e, rest) =>
              match parse_records fuel rest with
              | Some (Ok es) => Some (Ok (match e with Some e => e :: es | None => es end))
              | other => other
              end
          end
      end
  end.
Definition parse_xauthority_file (bytes : list Z) : option (X11Result (list X11BinaryAuthorityEntry)) :=
  parse_records (length bytes) bytes.


Definition display_looks_local (d : X11Display) : bool :=
  match transport d with
  | Unix | UnixSocketAt _ => true
  | TcpHost host => bool_decide (host = lit "localhost") || bool_decide (host = lit "127.0.0.1") || bool_decide (host = lit "::1")
  end.
Definition local_family_score (address : list Z) (d : X11Display) (context : X11AuthorityMatchContext) : option Z :=
  if negb (display_looks_local d) then None
  else if bool_decide (address = []) || bool_decide (address = lit "localhost")
          || match local_hostname context with Some h => bool_decide (address = utf8_encode h) | None => false end
  then Some 4 else Some 2.
Definition internet_family_score (address : list Z) (d : X11Display) (context : X11AuthorityMatchContext) (v6 : bool) : option Z :=
  let expected := if v6 then (if zlen address =? 16 then Some (V6 address) else None)
                  else (if zlen address =? 4 then Some (V4 address) else None) in
  match expected with
  | None => None
  | Some expected =>
      let host_ip := match transport d with TcpHost host => parse_ip host | _ => None end in
      if bool_decide (host_ip = Some expected) || bool_decide (expected ∈ resolved_addresses context) then Some 5
      else if display_looks_local d && is_loopback expected then Some 3
      else None
  end.
Definition binary_match_score (e : X11BinaryAuthorityEntry) (d : X11Display) (context : X11AuthorityMatchContext) : option Z :=
  if negb (bool_decide (display_number e = u64_to_string (display d))) then None
  else match family e with
       | Wild => Some 1
       | Local => local_family_score (address e) d context
       | Internet => internet_family_score (address e) d context false
       | Internet6 => internet_family_score (address e) d context true
       | Decnet | Other _ => None
       end.
Definition select_xauthority_entry (entries : list X11BinaryAuthorityEntry) (d : X11Display) (context : X11AuthorityMatchContext)
    : option X11BinaryAuthorityEntry :=
  match best_by (fun e => binary_match_score e d context) None entries with Some (_, e) => Some e | None => None end.

(** ** Policy, plan and preparation *)

Definition DEFAULT_X11_UNTRUSTED_TIMEOUT_MILLIS : Z := 20 * 60 * 1000.
Definition XAUTH_EXPIRY_GRACE_SECONDS : Z := 60.
Definition MAX_XAUTH_TIMEOUT_SECONDS : Z := 2 ^ 32 - 1.
Inductive X11ForwardTrust := Trusted | Untrusted.
Inductive X11AuthFallbackMode := RequireRealAuth | GenerateSyntheticCookie.
Record X11ForwardPolicy := mkPolicy { trust : X11ForwardTrust; timeout_millis : option Z; fallback : X11AuthFallbackMode }.
Definition trusted : X11ForwardPolicy := mkPolicy Trusted None RequireRealAuth.
Definition untrusted : X11ForwardPolicy := mkPolicy Untrusted (Some DEFAULT_X11_UNTRUSTED_TIMEOUT_MILLIS) RequireRealAuth.

Record X11ForwardConfig := mkConfig { local_display : X11Display; remote_display : Z; config_single : bool; policy : X11ForwardPolicy }.
Definition new_config (d : X11Display) : X11ForwardConfig := mkConfig d 10 false untrusted.
Definition with_policy (c : X11ForwardConfig) (p : X11ForwardPolicy) : X11ForwardConfig :=
  mkConfig (local_display c) (remote_display c) (config_single c) p.
Record X11SshRequest := mkSshRequest { r_single : bool; r_protocol : X11AuthProtocol; auth_cookie_hex : list Z; screen_number : Z }.
Definition ssh_request (c : X11ForwardConfig) (a : X11AuthMaterial) : X11SshRequest :=
  mkSshRequest (config_single c) (protocol a) (ssh_auth_cookie a) (screen (local_display c)).

Record X11ForwardPlan := mkPlan { config : X11ForwardConfig; plan_auth : X11AuthMaterial }.
Definition from_xauth_entries (random : nat -> Z) (c : X11ForwardConfig) (entries : list X11AuthEntry) : X11Result X11ForwardPlan :=
  match select_xauth_entry entries (local_display c) with
  | Some e => Ok (mkPlan c (mit_magic_cookie random (cookie e)))
  | None => Err MissingAuthEntry
  end.
Definition from_binary_authority_entries (random : nat -> Z) (c : X11ForwardConfig)
    (entries : list X11BinaryAuthorityEntry) (context : X11AuthorityMatchContext) : X11Result X11ForwardPlan :=
  match select_xauthority_entry entries (local_display c) context with
  | Some e => Ok (mkPlan c (mit_magic_cookie random (b_cookie e)))
  | None => Err MissingAuthEntry
  end.
Definition xauth_expiry_seconds (timeout_millis : option Z) : option Z :=
  match timeout_millis with
  | None => None
  | Some millis => Some (Z.min (sat_add (Z.max ((millis + 999) / 1000) 1) XAUTH_EXPIRY_GRACE_SECONDS) MAX_XAUTH_TIMEOUT_SECONDS)
  end.
Definition untrusted_generate_args (authority_path : list Z) (d : X11Display) (timeout_seconds : option Z) : list (list Z) :=
  [lit "-f"; authority_path; lit "generate"; xauth_query_display d; lit "MIT-MAGIC-COOKIE-1"; lit "untrusted"]
  ++ match timeout_seconds with Some t => [lit "timeout"; u64_to_string t] | None => [] end.

(** ** The environment *)

Record X11AuthorityEnvironment := mkEnvironment { env_display : option (list Z); authority_file : X11AuthorityFile }.
Definition non_empty_string (value : list Z) : option (list Z) :=
  let trimmed := trim value in if bool_decide (trimmed = []) then None else Some trimmed.
Definition from_values (d xauthority : option (list Z)) : X11AuthorityEnvironment :=
  mkEnvironment (match d with Some s => non_empty_string s | None => None end)
    (match match xauthority with Some s => non_empty_string s | None => None end with
     | Some path => PathFile path
     | None => DefaultFile
     end).
Definition env_parse_display (e : X11AuthorityEnvironment) : X11Result X11Display :=
  match env_display e with Some d => parse_display d | None => Err MissingDisplay end.
Definition xauth_list_command (e : X11AuthorityEnvironment) : X11Result X11AuthCommand :=
  let? d := env_parse_display e in Ok (xauth_list d (authority_file e)).
Definition xauth_nlist_command (e : X11AuthorityEnvironment) : X11Result X11AuthCommand :=
  let? d := env_parse_display e in Ok (xauth_nlist d (authority_file e)).

(** [prepare_x11_forwarding], over what the machine answers: the authority file's
    bytes if it can be read, the runs of xauth, the temporary directory. *)
Definition XAUTH_OUTPUT_LIMIT_BYTES : Z := 256 * 1024.
Definition read_bounded_output (output : list Z) : X11Result (list Z) :=
  let output := ztake (XAUTH_OUTPUT_LIMIT_BYTES + 1) output in
  if XAUTH_OUTPUT_LIMIT_BYTES <? zlen output then Err (XauthOutputTooLarge XAUTH_OUTPUT_LIMIT_BYTES) else Ok output.
Definition plan_from_output (random : nat -> Z) (c : X11ForwardConfig) (output : list Z) : X11Result X11ForwardPlan :=
  match from_utf8 output with
  | None => Err (XauthFailed (lit "invalid utf-8"))
  | Some text => let? entries := parse_xauth_list text in from_xauth_entries random c entries
  end.
Record Machine := mkMachine {
  file_bytes : option (list Z);
  run_xauth : X11AuthCommand -> X11Result (list Z);
  temp_dir : X11Result (list Z);
  set_permissions : X11Result unit
}.
Definition prepare_trusted_plan (random : nat -> Z) (m : Machine) (c : X11ForwardConfig)
    (env : X11AuthorityEnvironment) : X11Result X11ForwardPlan :=
  let from_file := match file_bytes m with
                   | Some bytes => match parse_xauthority_file bytes with
                                   | Some (Ok entries) => match from_binary_authority_entries random c entries new_context with
                                                          | Ok plan => Some plan
                                                          | Err _ => None
                                                          end
                                   | _ => None
                                   end
                   | None => None
                   end in
  match from_file with
  | Some plan => Ok plan
  | None =>
      let? command := xauth_list_command env in
      let? output := run_xauth m command in
      plan_from_output random c output
  end.
Definition prepare_untrusted_plan (random : nat -> Z) (m : Machine) (c : X11ForwardConfig) : X11Result X11ForwardPlan :=
  let? dir := temp_dir m in
  let authority_path := dir ++ lit "/authority" in
  let expiry_seconds := xauth_expiry_seconds (timeout_millis (policy c)) in
  let? _ := run_xauth m (mkCommand (lit "xauth") (untrusted_generate_args authority_path (local_display c) expiry_seconds)) in
  let? _ := set_permissions m in
  let? output := run_xauth m (xauth_list (local_display c) (PathFile authority_path)) in
  plan_from_output random c output.
Record X11PreparedForwarding := mkPrepared {
  p_endpoint : X11LocalEndpoint; p_auth : X11AuthMaterial; p_request : X11SshRequest; acceptance_timeout : option Z
}.
Definition prepare_x11_forwarding (random : nat -> Z) (m : Machine)
    (display_value : X11Result (list Z)) (xauthority : option (list Z)) (p : X11ForwardPolicy) : X11Result X11PreparedForwarding :=
  let? value := display_value in
  let env := from_values (Some value) xauthority in
  let? d := env_parse_display env in
  let? endpoint := local_endpoint d in
  let c := with_policy (new_config d) p in
  let? plan := match trust p with
               | Trusted => prepare_trusted_plan random m c env
               | Untrusted => prepare_untrusted_plan random m c
               end in
  Ok (mkPrepared endpoint (plan_auth plan) (ssh_request (config plan) (plan_auth plan)) (timeout_millis p)).

(** ** The remote side *)

Record X11RemoteDisplayAllocator := mkAllocator { bind_host : list Z; start_display : Z; max_displays : Z; alloc_screen : Z }.
Definition localhost : X11RemoteDisplayAllocator := mkAllocator (lit "localhost") 10 64 0.
(** [u16::saturating_add]. *)
Definition sat_add_u16 (a b : Z) : Z := Z.min (a + b) 65535.
Definition is_candidate (al : X11RemoteDisplayAllocator) (d : Z) : bool :=
  (start_display al <=? d) && (d <? sat_add_u16 (start_display al) (max_displays al)).
Definition display_value (al : X11RemoteDisplayAllocator) (d : Z) : list Z :=
  bind_host al ++ lit ":" ++ u64_to_string d ++ lit "." ++ u64_to_string (alloc_screen al).
Definition parse_probe_output (al : X11RemoteDisplayAllocator) (output : list Z) : X11Result Z :=
  match List.find (fun l => negb (bool_decide (l = []))) (map trim (lines output)) with
  | None => Err RemoteDisplayUnavailable
  | Some value =>
      match parse_u16 value with
      | None => Err (InvalidDisplay (lit "remote display probe"))
      | Some d => if is_candidate al d then Ok d else Err RemoteDisplayUnavailable
      end
  end.

Definition quote_char (c : Z) : list Z := if c =? 39 then [39; 92; 39; 39] else [c].
Definition shell_quote (value : list Z) : list Z := [39] ++ flat_map quote_char value ++ [39].
Definition remote_xauth_command (display_value : list Z) (a : X11AuthMaterial) : list Z :=
  let d := shell_quote display_value in
  let p := shell_quote (ssh_name (protocol a)) in
  let c := shell_quote (to_hex (fake_cookie a)) in
  lit "set -eu; command -v xauth >/dev/null 2>&1; authfile=${XAUTHORITY:-$HOME/.Xauthority}; xauth -f " ++ [34]
  ++ lit "$authfile" ++ [34] ++ lit " remove " ++ d ++ lit " >/dev/null 2>&1 || true; xauth -f " ++ [34] ++ lit "$authfile" ++ [34]
  ++ lit " add " ++ d ++ lit " " ++ p ++ lit " " ++ c.

(** ** The authority file is its records *)

Record RawRecord := mkRaw { raw_family : Z; raw_address : list Z; raw_number : list Z; raw_name : list Z; raw_cookie : list Z }.
Definition encode_field (f : list Z) : list Z := u16_to_be (zlen f) ++ f.
Definition encode_record (r : RawRecord) : list Z :=
  u16_to_be (raw_family r) ++ encode_field (raw_address r) ++ encode_field (raw_number r) ++ encode_field (raw_name r)
  ++ encode_field (raw_cookie r).
(** The entry a record makes, if it is for MIT-MAGIC-COOKIE-1. *)
Definition entry_of (r : RawRecord) : option X11BinaryAuthorityEntry :=
  match parse_protocol (from_utf8_lossy (raw_name r)) with
  | Ok p => Some (mkBinary (from_code (raw_family r)) (raw_address r) (from_utf8_lossy (raw_number r)) p (raw_cookie r))
  | Err _ => None
  end.
Definition raw_ok (r : RawRecord) : Prop :=
  is_u16 (raw_family r) /\ zlen (raw_address r) <= 65535 /\ zlen (raw_number r) <= 65535 /\ zlen (raw_name r) <= 65535
  /\ zlen (raw_cookie r) <= 65535 /\ (entry_of r <> None -> raw_cookie r <> []).

Lemma take_u16_be n rest : is_u16 n -> take_u16 (u16_to_be n ++ rest) = Ok (n, rest).
Proof. intros Hn. cbn. by rewrite u16_be_roundtrip. Qed.
Lemma take_u16_inv bytes n rest : bytes_ok bytes -> take_u16 bytes = Ok (n, rest) -> bytes = u16_to_be n ++ rest /\ is_u16 n /\ bytes_ok rest.
Proof.
  intros Hb. destruct bytes as [|b0 [|b1 r]]; cbn; [done..|]. intros [= <- <-].
  inversion_clear Hb as [|? ? H0 Hb1]. inversion_clear Hb1 as [|? ? H1 Hr]. unfold u16_to_be, u16_from_be.
  destruct (u16_parts b0 b1 H0 H1) as [-> ->]. split_and!; [done| |done].
  exact (read_u16_range b0 b1 BigEndian H0 H1).
Qed.
Lemma read_field_encode f rest : zlen f <= 65535 -> read_field (encode_field f ++ rest) = Ok (f, rest).
Proof.
  intros Hf. unfold read_field, encode_field. rewrite <-app_assoc, take_u16_be by (by apply layout_len_u16). cbn [result_bind].
  rewrite (proj2 (Z.ltb_ge _ _)) by (rewrite zlen_app; pose proof (zlen_nonneg rest); lia).
  by rewrite ztake_app, zdrop_app by done.
Qed.
Lemma read_field_inv bytes f rest : bytes_ok bytes -> read_field bytes = Ok (f, rest) ->
  bytes = encode_field f ++ rest /\ zlen f <= 65535 /\ bytes_ok rest.
Proof.
  intros Hb. unfold read_field. destruct (take_u16 bytes) as [[n r]|] eqn:E; [|done]. cbn [result_bind].
  destruct (take_u16_inv _ _ _ Hb E) as (-> & Hn & Hr). unfold in_width in Hn. destruct (Z.ltb_spec (zlen r) n); [done|]. intros [= <- <-].
  assert (Hlen : zlen (ztake n r) = n) by (unfold ztake, zlen in *; rewrite length_take; lia).
  unfold encode_field. rewrite Hlen, <-app_assoc. unfold ztake, zdrop. rewrite take_drop. split_and!; [done|lia|by apply Forall_drop].
Qed.
Lemma parse_protocol_cases s : parse_protocol s = Ok MitMagicCookie1 \/ exists x, parse_protocol s = Err (UnsupportedAuthProtocol x).
Proof. unfold parse_protocol. case_bool_decide; eauto. Qed.

Lemma read_record_encode r rest : raw_ok r -> read_record (encode_record r ++ rest) = Ok (entry_of r, rest).
Proof.
  intros (Hf & Ha & Hn & Hp & Hc & Hk). unfold read_record, encode_record. rewrite <-!app_assoc, take_u16_be by done.
  cbn [result_bind fst snd]. rewrite read_field_encode by done. cbn [result_bind fst snd]. unfold read_text_field.
  rewrite read_field_encode by done. cbn [result_bind fst snd]. rewrite read_field_encode by done. cbn [result_bind fst snd].
  rewrite read_field_encode by done. cbn [result_bind fst snd]. unfold entry_of in *.
  destruct (parse_protocol_cases (from_utf8_lossy (raw_name r))) as [Hq|[x Hq]]; rewrite Hq in *; cbn [supported result_bind]; [|done].
  unfold cookie_from_bytes. rewrite bool_decide_eq_false_2 by by apply Hk. done.
Qed.
Lemma read_record_inv bytes e rest : bytes_ok bytes -> read_record bytes = Ok (e, rest) ->
  exists r, raw_ok r /\ bytes = encode_record r ++ rest /\ e = entry_of r /\ bytes_ok rest.
Proof.
  intros Hb. unfold read_record. destruct (take_u16 bytes) as [[f b1]|] eqn:E1; [|done]. cbn [result_bind fst snd].
  destruct (take_u16_inv _ _ _ Hb E1) as (-> & Hf & Hb1).
  destruct (read_field b1) as [[a b2]|] eqn:E2; [|done]. cbn [result_bind fst snd].
  destruct (read_field_inv _ _ _ Hb1 E2) as (-> & Ha & Hb2). unfold read_text_field.
  destruct (read_field b2) as [[n b3]|] eqn:E3; [|done]. cbn [result_bind fst snd].
  destruct (read_field_inv _ _ _ Hb2 E3) as (-> & Hn & Hb3).
  destruct (read_field b3) as [[p b4]|] eqn:E4; [|done]. cbn [result_bind fst snd].
  destruct (read_field_inv _ _ _ Hb3 E4) as (-> & Hp & Hb4).
  destruct (read_field b4) as [[c b5]|] eqn:E5; [|done]. cbn [result_bind fst snd].
  destruct (read_field_inv _ _ _ Hb4 E5) as (-> & Hc & Hb5). intros He. exists (mkRaw f a n p c).
  unfold raw_ok, entry_of, encode_record. cbn [raw_family raw_address raw_number raw_name raw_cookie]. rewrite <-!app_assoc.
  destruct (parse_protocol_cases (from_utf8_lossy p)) as [Hq|[x Hq]]; rewrite Hq in *; cbn [supported result_bind] in He.
  - unfold cookie_from_bytes in He. case_bool_decide as Hcn; [done|]. injection He as <- <-. by split_and!.
  - injection He as <- <-. by split_and!.
Qed.
Lemma encode_record_long r : (1 <= length (encode_record r))%nat.
Proof. unfold encode_record. rewrite length_app. cbn. lia. Qed.

Lemma parse_records_encode rs : Forall raw_ok rs -> forall fuel, (length (concat (map encode_record rs)) <= fuel)%nat ->
  parse_records fuel (concat (map encode_record rs)) = Some (Ok (omap entry_of rs)).
Proof.
  induction 1 as [|r rs Hr Hrs IH]; intros fuel Hf; [by destruct fuel|]. cbn [map concat] in *. rewrite length_app in Hf.
  pose proof (encode_record_long r). destruct fuel as [|fuel]; [lia|].
  pose proof (read_record_encode r (concat (map encode_record rs)) Hr) as Hread.
  destruct (encode_record r ++ concat (map encode_record rs)) as [|b bs] eqn:E.
  { apply (f_equal length) in E. rewrite length_app in E. cbn in E. lia. }
  cbn [parse_records]. rewrite Hread, IH by lia. cbn. by destruct (entry_of r).
Qed.
Lemma parse_records_inv fuel bytes : bytes_ok bytes -> (length bytes <= fuel)%nat ->
  exists res, parse_records fuel bytes = Some res
  /\ forall es, res = Ok es -> exists rs, Forall raw_ok rs /\ bytes = concat (map encode_record rs) /\ es = omap entry_of rs.
Proof.
  revert bytes. induction fuel as [|fuel IH]; intros bytes Hb Hf.
  { destruct bytes; [|cbn in Hf; lia]. exists (Ok []). split; [done|]. intros es [= <-]. by exists []. }
  destruct bytes as [|b bs]; [exists (Ok []); split; [done|]; intros es [= <-]; by exists []|]. cbn [parse_records].
  destruct (read_record (b :: bs)) as [[e rest]|x] eqn:E; [|by eexists].
  destruct (read_record_inv _ _ _ Hb E) as (r & Hr & Hbs & -> & Hrest). rewrite Hbs in Hf |- *.
  rewrite length_app in Hf. pose proof (encode_record_long r).
  destruct (IH rest Hrest) as (res & -> & Hres); [lia|]. destruct res as [es|x]; [|by eexists].
  eexists. split; [done|]. intros es' [= <-]. destruct (Hres es eq_refl) as (rs & Hrs & -> & ->). exists (r :: rs).
  split_and!; [by constructor|done|]. cbn. by destruct (entry_of r).
Qed.

(** Reading an authority file always comes to an end, and it gives entries
    exactly when the file is a sequence of whole records (whose cookie is not
    empty where the protocol is MIT-MAGIC-COOKIE-1): the entries are those
    records' for that protocol, in order; in every other case it is refused. *)
Theorem xauthority_file_exact bytes : bytes_ok bytes ->
  exists res, parse_xauthority_file bytes = Some res
  /\ forall es, res = Ok es <-> exists rs, Forall raw_ok rs /\ bytes = concat (map encode_record rs) /\ es = omap entry_of rs.
Proof.
  intros Hb. unfold parse_xauthority_file. destruct (parse_records_inv (length bytes) bytes Hb) as (res & Hres & H); [lia|].
  exists res. split; [done|]. intros es. split; [apply H|]. intros (rs & Hrs & -> & ->).
  rewrite parse_records_encode in Hres by done. congruence.
Qed.
Definition demo_records : list RawRecord :=
  [mkRaw 256 (lit "workstation") (lit "0") (lit "MIT-MAGIC-COOKIE-1") [1; 2; 3]; mkRaw 65535 [] (lit "10") (lit "XDM-AUTHORIZATION-1") []].
Lemma xauthority_file_exact_witness :
  exists res, parse_xauthority_file (concat (map encode_record demo_records)) = Some res.
Proof.
  destruct (xauthority_file_exact (concat (map encode_record demo_records))) as (res & Hres & _).
  - apply (Forall_impl (fun b => (0 <=? b) && (b <? 256) = true)).
    + apply List.Forall_forall. apply forallb_forall. vm_compute. reflexivity.
    + intros b Hb. unfold in_width. lia.
  - exists res. exact Hres.
Defined.
Example demo_records_parsed :
  match parse_xauthority_file (concat (map encode_record demo_records)) with
  | Some (Ok [e]) => bool_decide (address e = lit "workstation") && bool_decide (b_cookie e = [1; 2; 3])
  | _ => false
  end = true.
Proof. vm_compute. reflexivity. Qed.

(** ** The chosen entry *)

(** [e] has the greatest score, and the last of those with it. *)
Definition is_best {A} (score : A -> option Z) (l : list A) (e : A) : Prop :=
  exists s l1 l2, l = l1 ++ e :: l2 /\ score e = Some s
    /\ Forall (fun x => forall t, score x = Some t -> t <= s) l1 /\ Forall (fun x => forall t, score x = Some t -> t < s) l2.
Lemma best_by_spec {A} (score : A -> option Z) l : forall seen best,
  match best with
  | Some (s, e) => exists l1 l2, seen = l1 ++ e :: l2 /\ score e = Some s
      /\ Forall (fun x => forall t, score x = Some t -> t <= s) l1 /\ Forall (fun x => forall t, score x = Some t -> t < s) l2
  | None => Forall (fun x => score x = None) seen
  end ->
  match best_by score best l with
  | Some (s, e) => is_best score (seen ++ l) e
  | None => Forall (fun x => score x = None) (seen ++ l)
  end.
Proof.
  induction l as [|x l IH]; intros seen best Hb; cbn [best_by].
  { rewrite app_nil_r. destruct best as [[s e]|]; [|done]. destruct Hb as (l1 & l2 & ? & ? & ? & ?). by exists s, l1, l2. }
  replace (seen ++ x :: l) with ((seen ++ [x]) ++ l) by by rewrite <-app_assoc.
  destruct (score x) as [s|] eqn:Ex; apply IH.
  - destruct best as [[t y]|].
    + destruct Hb as (l1 & l2 & Hseen & Hy & H1 & H2). destruct (Z.leb_spec t s) as [Hle|Hlt].
      * exists seen, []. split_and!; [done|done| |constructor]. subst seen. apply Forall_app. split.
        { eapply Forall_impl; [exact H1|]. cbn. intros z Hz u Hu. specialize (Hz u Hu). lia. }
        { constructor; [intros u Hu; rewrite Hy in Hu; injection Hu as <-; done|].
          eapply Forall_impl; [exact H2|]. cbn. intros z Hz u Hu. specialize (Hz u Hu). lia. }
      * exists l1, (l2 ++ [x]). split_and!; [subst seen; by rewrite <-app_assoc|done|done|]. apply Forall_app. split; [done|].
        constructor; [|constructor]. intros u Hu. rewrite Ex in Hu. injection Hu as <-. done.
    + exists seen, []. split_and!; [done|done| |constructor]. eapply Forall_impl; [exact Hb|]. cbn. intros z Hz u Hu. congruence.
  - destruct best as [[t y]|].
    + destruct Hb as (l1 & l2 & Hseen & Hy & H1 & H2). exists l1, (l2 ++ [x]). split_and!; [subst seen; by rewrite <-app_assoc|done|done|].
      apply Forall_app. split; [done|]. constructor; [|constructor]. intros u Hu. congruence.
    + apply Forall_app. split; [done|]. by constructor.
Qed.
(** The entry that is used has the best score of the file, the last among equals;
    there is none only if no entry matches. *)
Theorem xauthority_selection_best entries d context :
  match select_xauthority_entry entries d context with
  | Some e => is_best (fun e => binary_match_score e d context) entries e
  | None => Forall (fun e => binary_match_score e d context = None) entries
  end.
Proof.
  unfold select_xauthority_entry. pose proof (best_by_spec (fun e => binary_match_score e d context) entries [] None (List.Forall_nil _)) as H.
  by destruct (best_by _ None entries) as [[s e]|].
Qed.
Theorem xauth_selection_best entries d :
  match select_xauth_entry entries d with
  | Some e => is_best (fun e => match_score e d) entries e
  | None => Forall (fun e => match_score e d = None) entries
  end.
Proof.
  unfold select_xauth_entry. pose proof (best_by_spec (fun e => match_score e d) entries [] None (List.Forall_nil _)) as H.
  by destruct (best_by _ None entries) as [[s e]|].
Qed.

(** ** Quoting for the remote shell *)

(** How a POSIX shell reads a word: text between single quotes is literal, a
    backslash outside them makes the next character literal; a blank or the end
    ends the word.  Any other character with a meaning of its own is refused. *)
Definition is_blank (c : Z) : bool := (c =? 32) || (c =? 9) || (c =? 10).
Definition is_plain (c : Z) : bool := is_ascii_alphanumeric c || (c =? 45) || (c =? 46) || (c =? 47) || (c =? 58) || (c =? 95).
Fixpoint sh_word (quoted : bool) (s : list Z) : option (list Z * list Z) :=
  match s with
  | [] => if quoted then None else Some ([], [])
  | c :: r =>
      let literal x k := match k with Some (w, rest) => Some (x :: w, rest) | None => None end in
      if quoted then (if c =? 39 then sh_word false r else literal c (sh_word true r))
      else if c =? 39 then sh_word true r
      else if c =? 92 then match r with x :: r => literal x (sh_word false r) | [] => None end
      else if is_blank c then Some ([], s)
      else if is_plain c then literal c (sh_word false r) else None
  end.
Lemma sh_word_quoted v rest w rest' : sh_word false rest = Some (w, rest') ->
  sh_word true (flat_map quote_char v ++ [39] ++ rest) = Some (v ++ w, rest').
Proof.
  intros Hr. induction v as [|c v IH]; [by cbn|]. cbn [flat_map]. unfold quote_char at 1. destruct (Z.eqb_spec c 39) as [->|Hc].
  - cbn [app sh_word Z.eqb Pos.eqb]. change (flat_map quote_char v ++ 39 :: rest) with (flat_map quote_char v ++ [39] ++ rest).
    by rewrite IH.
  - rewrite <-app_assoc. cbn [app sh_word]. rewrite (proj2 (Z.eqb_neq c 39)) by done.
    change (flat_map quote_char v ++ 39 :: rest) with (flat_map quote_char v ++ [39] ++ rest). by rewrite IH.
Qed.
(** Whatever a value contains, a POSIX shell reads its quoted form as exactly
    one word, the value itself, and goes on with what follows: no character of a
    display name is executed or splits the command. *)
Theorem shell_quote_one_word value rest : (rest = [] \/ exists c r, rest = c :: r /\ is_blank c = true) ->
  sh_word false (shell_quote value ++ rest) = Some (value, rest).
Proof.
  intros Hr. assert (Hw : sh_word false rest = Some ([], rest)).
  { destruct Hr as [->|(c & r & -> & Hc)]; [done|]. cbn [sh_word]. unfold is_blank in Hc.
    rewrite (proj2 (Z.eqb_neq c 39)), (proj2 (Z.eqb_neq c 92)) by lia. unfold is_blank. by rewrite Hc. }
  unfold shell_quote. rewrite <-!app_assoc. cbn [app sh_word Z.eqb Pos.eqb].
  change (flat_map quote_char value ++ 39 :: rest) with (flat_map quote_char value ++ [39] ++ rest).
  rewrite (sh_word_quoted value rest [] rest) by done. by rewrite app_nil_r.
Qed.
Lemma shell_quote_one_word_witness :
  sh_word false (shell_quote (lit "a'; rm -rf $HOME #") ++ lit " next") = Some (lit "a'; rm -rf $HOME #", lit " next").
Proof.
  apply (shell_quote_one_word (lit "a'; rm -rf $HOME #") (lit " next")). right. exists 32, (lit "next"). split; reflexivity.
Defined.

(** ** Cookies and displays as text *)

Lemma push_hex_decode b rest : is_u8 b ->
  decode_pairs (push_hex_byte b ++ rest) = let? bytes := decode_pairs rest in Ok (b :: bytes).
Proof.
  intros Hb.
  by_bytes (fun b => match push_hex_byte b with
                     | [h; l] => match decode_hex_nibble h, decode_hex_nibble l with
                                 | Ok x, Ok y => Z.lor (wrap 8 (Z.shiftl x 4)) y =? b
                                 | _, _ => false
                                 end
                     | _ => false
                     end) b Hb.
  unfold push_hex_byte in *. cbn [app decode_pairs]. destruct (decode_hex_nibble (hex_digit (Z.shiftr b 4))) as [x|]; [|done].
  destruct (decode_hex_nibble (hex_digit (Z.land b 15))) as [y|]; [|done]. cbn [result_bind]. apply Z.eqb_eq in H. by rewrite H.
Qed.
Lemma hex_chars b : is_u8 b -> Forall (fun c => 48 <= c < 128) (push_hex_byte b).
Proof.
  intros Hb. by_bytes (fun b => forallb (fun c => (48 <=? c) && (c <? 128)) (push_hex_byte b)) b Hb.
  apply List.Forall_forall. rewrite forallb_forall in H. intros c Hc. apply H in Hc. lia.
Qed.
Lemma to_hex_chars c : bytes_ok c -> Forall (fun x => 48 <= x < 128) (to_hex c).
Proof. unfold to_hex. induction 1 as [|b c Hb Hc IH]; [constructor|]. cbn. by apply (Forall_app _ (push_hex_byte b)); split; [apply hex_chars|]. Qed.
Lemma to_hex_decode c : bytes_ok c -> decode_pairs (to_hex c) = Ok c.
Proof.
  unfold to_hex. induction 1 as [|b c Hb Hc IH]; [done|]. cbn [map concat]. by rewrite push_hex_decode, IH.
Qed.
Lemma to_hex_len c : zlen (to_hex c) = 2 * zlen c.
Proof. unfold to_hex. induction c as [|b c IH]; [done|]. cbn [map concat]. rewrite zlen_app, IH, zlen_cons. unfold zlen at 1. cbn. lia. Qed.
(** The fake cookie is sent to the server as text and read back as itself. *)
Theorem cookie_hex_roundtrip c : bytes_ok c -> c <> [] -> cookie_from_hex (to_hex c) = Ok c.
Proof.
  intros Hb Hc. pose proof (to_hex_chars c Hb) as Hx. unfold cookie_from_hex.
  assert (Ht : trim_matches is_whitespace (to_hex c) = to_hex c).
  { apply trim_none. eapply Forall_impl; [exact Hx|]. intros x Hr. cbn in Hr. unfold is_whitespace, in_range. lia. }
  rewrite Ht, utf8_encode_ascii by (eapply Forall_impl; [exact Hx|]; intros x Hr; cbn in Hr; lia).
  pose proof (to_hex_len c) as Hl. rewrite bool_decide_eq_false_2.
  - rewrite Hl, Z.mul_comm, Z_mod_mult. cbn [negb Z.eqb]. rewrite to_hex_decode by done. cbn. unfold cookie_from_bytes.
    by rewrite bool_decide_eq_false_2.
  - intros E. rewrite E in Hl. destruct c; [done|]. rewrite zlen_cons in Hl. pose proof (zlen_nonneg c). change (zlen []) with 0 in Hl. lia.
Qed.

Lemma rsplit_last c a b : Forall (fun x => x <> c) b -> rsplit_once c (a ++ c :: b) = Some (a, b).
Proof.
  intros Hb. assert (Hn : rsplit_once c b = None).
  { induction Hb as [|x b Hx Hb IH]; [done|]. cbn. by rewrite IH, (proj2 (Z.eqb_neq x c)). }
  induction a as [|x a IH]; cbn; [by rewrite Hn, Z.eqb_refl|]. by rewrite IH.
Qed.
Lemma split_first c a b : Forall (fun x => x <> c) a -> split_once_char c (a ++ c :: b) = Some (a, b).
Proof. induction 1 as [|x a Hx Ha IH]; cbn; [by rewrite Z.eqb_refl|]. by rewrite (proj2 (Z.eqb_neq x c)), IH. Qed.
Lemma split_none c a : Forall (fun x => x <> c) a -> split_once_char c a = None.
Proof. induction 1 as [|x a Hx Ha IH]; cbn; [done|]. by rewrite (proj2 (Z.eqb_neq x c)), IH. Qed.
Lemma digits n : 0 <= n -> Forall (fun c => 48 <= c <= 57) (u64_to_string n).
Proof. intros Hn. by apply dec_digits_range. Qed.
Lemma parse_component n label : is_u16 n -> parse_u16_component (u64_to_string n) label = Ok n.
Proof.
  intros Hn. unfold in_width in Hn. pose proof (digits n) as Hd. unfold parse_u16_component.
  rewrite bool_decide_eq_false_2 by apply (dec_digits_not_nil 19 n). assert (forallb is_digit (u64_to_string n) = true) as ->.
  { apply forallb_forall. intros c Hc. eapply (proj1 (List.Forall_forall _ _)) in Hc; [|apply Hd; lia]. unfold is_digit, in_range. cbn in Hc. lia. }
  cbn [orb negb]. unfold parse_u16. rewrite u64_to_string_roundtrip by (unfold in_width; lia). by rewrite (proj2 (Z.leb_le _ _)) by lia.
Qed.

(** A transport that its own text names. *)
Definition transport_ok (t : X11DisplayTransport) : Prop :=
  match t with
  | Unix => True
  | UnixSocketAt path => (exists p, path = 47 :: p) /\ ends_with (lit "/unix") path = false
      /\ Forall (fun c => is_whitespace c = false) path
  | TcpHost host => host <> [] /\ host <> lit "unix" /\ head host <> Some 91 /\ Forall (fun c => is_whitespace c = false /\ c <> 47) host
  end.
Definition transport_text (t : X11DisplayTransport) : list Z :=
  match t with Unix => [] | UnixSocketAt path => path | TcpHost host => host end.

Lemma ends_with_in suffix s : ends_with suffix s = true -> forall c, c ∈ suffix -> c ∈ s.
Proof.
  intros H%bool_decide_eq_true c Hc. rewrite <-H in Hc. rewrite <-(take_drop (length s - length suffix) s). apply elem_of_app. by right.
Qed.
Lemma parse_transport_text t : transport_ok t -> parse_transport (transport_text t) = Ok t.
Proof.
  destruct t as [|path|host]; cbn [transport_ok transport_text]; [done| |].
  - intros ((p & ->) & He & _). unfold parse_transport. rewrite !bool_decide_eq_false_2 by done. by rewrite He.
  - intros (Hne & Hu & Hb & Hc). unfold parse_transport. rewrite (bool_decide_eq_false_2 (host = [])), (bool_decide_eq_false_2 (host = lit "unix")) by done.
    assert (Hs : forall c, c ∈ host -> c <> 47) by (intros c Hin; eapply list.Forall_forall in Hc; [|exact Hin]; by destruct Hc).
    rewrite bool_decide_eq_false_2 by (intros ->; by apply (Hs 47); [set_solver|]).
    destruct (ends_with (lit "/unix") host) eqn:He.
    { exfalso. apply (Hs 47); [|done]. apply (ends_with_in (lit "/unix")); [done|]. by left. }
    cbn [orb]. destruct host as [|c host]; [done|]. cbn [starts_with_char]. rewrite (proj2 (Z.eqb_neq c 47)) by (apply Hs; by left).
    rewrite split_none by (eapply Forall_impl; [exact Hc|]; by intros x [_ ?]). unfold normalize_host.
    rewrite trim_none by (eapply Forall_impl; [exact Hc|]; by intros x [? _]). cbn in Hb.
    rewrite (proj2 (Z.eqb_neq c 91)) by congruence. done.
Qed.
(** A display's text, with its screen, is read back as the display. *)
Theorem display_roundtrip d : transport_ok (transport d) -> is_u16 (display d) -> is_u16 (screen d) ->
  parse_display (xauth_query_display d ++ lit "." ++ u64_to_string (screen d)) = Ok d.
Proof.
  intros Ht Hd Hs. pose proof (digits (display d)) as Hdd. pose proof (digits (screen d)) as Hds. unfold in_width in *.
  assert (Htext : xauth_query_display d = transport_text (transport d) ++ 58 :: u64_to_string (display d)) by by destruct d as [[]].
  rewrite Htext, <-app_assoc. cbn [app]. change (lit "." ++ u64_to_string (screen d)) with (46 :: u64_to_string (screen d)).
  unfold parse_display. rewrite trim_none.
  - rewrite bool_decide_eq_false_2 by by destruct (transport_text _). rewrite rsplit_last.
    + unfold parse_display_and_screen. rewrite split_first by (eapply Forall_impl; [apply Hdd; lia|]; intros c Hc; cbn in Hc; lia).
      cbn [fst snd]. rewrite !parse_component by (unfold in_width; lia). cbn [result_bind fst snd].
      rewrite parse_transport_text by done. cbn [result_bind]. by destruct d.
    + apply Forall_app. split; [|constructor; [done|]]; (eapply Forall_impl; [apply Hdd || apply Hds; lia|]; intros c Hc; cbn in Hc; lia).
  - apply Forall_app. split.
    + destruct (transport d) as [|path|host]; cbn in *; [constructor|by destruct Ht as (_ & _ & ?)|].
      destruct Ht as (_ & _ & _ & Ht). eapply Forall_impl; [exact Ht|]. by intros c [? _].
    + assert (Hws : forall c, 48 <= c <= 57 -> is_whitespace c = false) by (intros c Hc; unfold is_whitespace, in_range; lia).
      constructor; [done|]. apply Forall_app. split; [|constructor; [done|]]; (eapply Forall_impl; [apply Hdd || apply Hds; lia|]; apply Hws).
Qed.

(** *** What the server is told *)

Lemma plan_of_cookie random c entries plan : from_xauth_entries random c entries = Ok plan ->
  config plan = c /\ exists local, plan_auth plan = mit_magic_cookie random local.
Proof. unfold from_xauth_entries. destruct (select_xauth_entry _ _); [|done]. intros [= <-]. eauto. Qed.
Lemma plan_of_output random c output plan : plan_from_output random c output = Ok plan ->
  config plan = c /\ exists local, plan_auth plan = mit_magic_cookie random local.
Proof.
  unfold plan_from_output. destruct (from_utf8 output); [|done]. destruct (parse_xauth_list _); [|done]. apply plan_of_cookie.
Qed.
Lemma trusted_plan random m c env plan : prepare_trusted_plan random m c env = Ok plan ->
  config plan = c /\ exists local, plan_auth plan = mit_magic_cookie random local.
Proof.
  unfold prepare_trusted_plan. set (from_file := match file_bytes m with Some _ => _ | None => _ end).
  destruct from_file as [plan0|] eqn:E.
  - intros [= <-]. subst from_file. destruct (file_bytes m); [|done]. destruct (parse_xauthority_file _) as [[entries|]|]; [|done..].
    unfold from_binary_authority_entries in E. destruct (select_xauthority_entry _ _ _); [|done]. injection E as <-. eauto.
  - destruct (xauth_list_command env); [|done]. cbn [result_bind]. destruct (run_xauth m _); [|done]. apply plan_of_output.
Qed.
Lemma untrusted_plan random m c plan : prepare_untrusted_plan random m c = Ok plan ->
  config plan = c /\ exists local, plan_auth plan = mit_magic_cookie random local.
Proof.
  unfold prepare_untrusted_plan. destruct (temp_dir m); [|done]. cbn [result_bind]. destruct (run_xauth m _); [|done]. cbn [result_bind].
  destruct (set_permissions m); [|done]. cbn [result_bind]. destruct (run_xauth m _); [|done]. apply plan_of_output.
Qed.
(** The cookie in the request to the SSH server is the random one, of the local
    cookie's length, and reads back as the fake cookie that a channel must
    carry; nothing else of the local cookie is in the request. *)
Theorem x11_request_shows_fake_cookie random m display_value xauthority p prepared : (forall i, is_u8 (random i)) ->
  prepare_x11_forwarding random m display_value xauthority p = Ok prepared ->
  fake_cookie (p_auth prepared) = random_with_len random (zlen (local_cookie (p_auth prepared)))
  /\ cookie_from_hex (auth_cookie_hex (p_request prepared)) = Ok (fake_cookie (p_auth prepared)).
Proof.
  intros Hr. unfold prepare_x11_forwarding. destruct display_value as [value|]; [|done]. cbn [result_bind].
  destruct (env_parse_display _) as [d|]; [|done]. cbn [result_bind]. destruct (local_endpoint d) as [ep|]; [|done]. cbn [result_bind].
  destruct (match trust p with Trusted => _ | Untrusted => _ end) as [plan|] eqn:E; [|done]. intros [= <-]. cbn [p_auth p_request ssh_request auth_cookie_hex].
  assert (Hp : exists local, plan_auth plan = mit_magic_cookie random local)
    by (destruct (trust p); [by apply trusted_plan in E as [_ ?]|by apply untrusted_plan in E as [_ ?]]).
  destruct Hp as [local ->]. cbn [fake_cookie local_cookie mit_magic_cookie]. split; [done|]. unfold ssh_auth_cookie. cbn [fake_cookie].
  apply cookie_hex_roundtrip; unfold random_with_len.
  - apply List.Forall_forall. intros x Hx. apply in_map_iff in Hx as (i & <- & _). apply Hr.
  - intros H. apply (f_equal length) in H. rewrite length_map, length_seq in H. cbn in H. lia.
Qed.
