(* ===== verification/SshConfigs.v ===== *)
(** * SSH configurations and the identity of a pooled connection

    Model of [crates/hapcli-ssh/src/config.rs], of the agent endpoints of
    [agent_endpoint.rs] (on Linux) and of the proxy types of
    [upstream_proxy.rs].  Strings are Rocq strings of bytes; the environment
    variables and the existence of sockets are read from an [AgentEnv], and
    [sha256] is the lower-case hexadecimal digest of the [sha2] crate. *)
From S2P Require Import Prelude X11 X11Authority.
From Stdlib Require Import Ascii.
From stdpp Require Import prelude list numbers strings pretty.
Open Scope Z_scope.

(** ** Data *)

#[export] Instance X11ForwardTrust_eq_dec : EqDecision X11ForwardTrust.
Proof. solve_decision. Defined.
#[export] Instance X11AuthFallbackMode_eq_dec : EqDecision X11AuthFallbackMode.
Proof. solve_decision. Defined.
#[export] Instance X11ForwardPolicy_eq_dec : EqDecision X11ForwardPolicy.
Proof. solve_decision. Defined.

Inductive AuthMethod :=
| APassword (password : string)
| AKey (key_path : string) (passphrase : option string)
| AAgent
| AManagedKey (key_id : string) (passphrase : option string)
| ACertificate (key_path cert_path : string) (passphrase : option string)
| AKeyboardInteractive.
#[export] Instance AuthMethod_eq_dec : EqDecision AuthMethod.
Proof. solve_decision. Defined.

Record ProxyHopConfig := mkHop {
  hop_host : string; hop_port : Z; hop_username : string; hop_auth : AuthMethod; hop_agent_forwarding : bool;
  hop_identity_agent : option string; hop_agent_forwarding_socket : option string;
  hop_legacy_ssh_compatibility : bool; hop_strict_host_key_checking : bool; hop_trust_host_key : option bool;
  hop_expected_host_key_fingerprint : option string }.

Inductive ProxyCommandConfig :=
| AuthorizationRequired
| Unavailable
| Direct (program : string) (args : list string).

Inductive UpstreamProxyProtocol := Socks5 | HttpConnect.
#[export] Instance UpstreamProxyProtocol_eq_dec : EqDecision UpstreamProxyProtocol.
Proof. solve_decision. Defined.
Inductive UpstreamProxyAuth := PaNone | PaPassword (username password : string).
#[export] Instance UpstreamProxyAuth_eq_dec : EqDecision UpstreamProxyAuth.
Proof. solve_decision. Defined.
Record UpstreamProxyConfig := mkProxy {
  up_protocol : UpstreamProxyProtocol; up_host : string; up_port : Z; up_auth : UpstreamProxyAuth;
  up_remote_dns : bool; up_no_proxy : string }.
#[export] Instance UpstreamProxyConfig_eq_dec : EqDecision UpstreamProxyConfig.
Proof. solve_decision. Defined.

Record SshConfig := mkSsh {
  host : string; port : Z; username : string; auth : AuthMethod; timeout_secs : Z; cols : Z; rows : Z;
  proxy_chain : option (list ProxyHopConfig); upstream_proxy : option UpstreamProxyConfig;
  proxy_command : option ProxyCommandConfig; strict_host_key_checking : bool; trust_host_key : option bool;
  expected_host_key_fingerprint : option string; agent_forwarding : bool; identity_agent : option string;
  agent_forwarding_socket : option string; legacy_ssh_compatibility : bool;
  x11_forwarding : option X11ForwardPolicy; post_connect_command : option string }.

(** ** Constructors *)

Definition ProxyCommandConfig_direct (words : list string) : option ProxyCommandConfig :=
  match words with [] => None | program :: args => Some (Direct program args) end.

Definition default_port : Z := 22.
Definition default_timeout : Z := 30.
Definition default_cols : Z := 80.
Definition default_rows : Z := 24.
Definition default_config : SshConfig :=
  mkSsh "" default_port "" (APassword "") default_timeout default_cols default_rows None None None false None None
    false None None false None None.
Definition password_config (h : string) (p : Z) (user pw : string) : SshConfig :=
  mkSsh h p user (APassword pw) default_timeout default_cols default_rows None None None false None None
    false None None false None None.

(** ** Secrets *)

Definition has_runtime_secret (a : AuthMethod) : bool :=
  match a with
  | APassword _ => true
  | AKey _ passphrase | AManagedKey _ passphrase | ACertificate _ _ passphrase => bool_decide (is_Some passphrase)
  | AAgent | AKeyboardInteractive => false
  end.
Definition has_runtime_auth_secret (c : SshConfig) : bool :=
  has_runtime_secret (auth c)
  || match proxy_chain c with
     | Some chain => existsb (fun hop => has_runtime_secret (hop_auth hop)) chain
     | None => false
     end.

(** ** Agent endpoints *)

Record AgentEnv := mkEnv { env_var : string -> option string; unix_socket_exists : string -> bool }.

Definition strip_prefix (p s : string) : option string :=
  if String.prefix p s then Some (String.substring (String.length p) (String.length s - String.length p) s) else None.
Definition strip_suffix_char (c : Ascii.ascii) (s : string) : option string :=
  match String.get (String.length s - 1) s with
  | Some d => if bool_decide (d = c) then Some (String.substring 0 (String.length s - 1) s) else None
  | None => None
  end.
Definition ascii_lower_string (s : string) : string :=
  String.string_of_list_ascii (map (fun c =>
    let n := Ascii.N_of_ascii c in if (N.leb 65 n && N.leb n 90)%bool then Ascii.ascii_of_N (n + 32) else c)
    (String.list_ascii_of_string s)).

Definition configured_environment_variable (value : string) : option string :=
  match strip_prefix "${" value with
  | Some rest => match strip_suffix_char "}"%char rest with
                 | Some name => Some name
                 | None => strip_prefix "$" value
                 end
  | None => strip_prefix "$" value
  end.

Section Agent.
Context (env : AgentEnv).

Definition default_unix_agent_socket : option string :=
  match env_var env "SSH_AUTH_SOCK" with
  | Some socket => if unix_socket_exists env socket then Some socket else None
  | None => None
  end.
Definition resolve_ssh_agent_endpoint_with_policy (configured : option string) (none_disables_agent : bool)
    : result string string :=
  if none_disables_agent
     && match configured with Some value => bool_decide (ascii_lower_string value = "none"%string) | None => false end
  then Err "SSH agent is disabled by IdentityAgent"%string
  else
    let? socket := ok_or match configured with
                         | None => default_unix_agent_socket
                         | Some value =>
                             if bool_decide (value = "SSH_AUTH_SOCK"%string) then env_var env "SSH_AUTH_SOCK"
                             else match configured_environment_variable value with
                                  | Some variable => env_var env variable
                                  | None => Some value
                                  end
                         end "SSH agent socket is not configured"%string in
    if negb (unix_socket_exists env socket) then Err "SSH agent socket is unavailable"%string else Ok socket.
Definition resolve_ssh_agent_endpoint (configured : option string) : result string string :=
  resolve_ssh_agent_endpoint_with_policy configured true.
Definition resolve_ssh_agent_forwarding_endpoint (configured : option string) : result string string :=
  resolve_ssh_agent_endpoint_with_policy configured false.
Definition pool_identity (path : string) : string := ("unix:" ++ path)%string.
Definition ssh_agent_endpoint_pool_identity (configured : option string) : string :=
  match resolve_ssh_agent_endpoint configured with
  | Ok endpoint => pool_identity endpoint
  | Err _ => ("unavailable:" ++ default "default" configured)%string
  end.
Definition ssh_agent_forwarding_endpoint_pool_identity (configured : option string) : string :=
  match resolve_ssh_agent_forwarding_endpoint configured with
  | Ok endpoint => pool_identity endpoint
  | Err _ => ("unavailable:" ++ default "default" configured)%string
  end.
Definition ssh_agent_available (configured : option string) : option bool :=
  Some (match resolve_ssh_agent_endpoint configured with Ok _ => true | Err _ => false end).

(** ** The key of a pooled connection *)

Context (sha256 : string -> string).

Definition agent_endpoint_key_suffix (label : string) (endpoint : option string) : string :=
  (":" ++ label ++ "=" ++ sha256 (ssh_agent_endpoint_pool_identity endpoint))%string.
Definition agent_forwarding_endpoint_key_suffix (label : string) (forwarding_endpoint identity_endpoint : option string)
    : string :=
  let endpoint := match forwarding_endpoint with
                  | None => ssh_agent_endpoint_pool_identity identity_endpoint
                  | Some endpoint => ssh_agent_forwarding_endpoint_pool_identity (Some endpoint)
                  end in
  (":" ++ label ++ "=" ++ sha256 endpoint)%string.

Definition proxy_command_key_suffix (c : ProxyCommandConfig) : string :=
  match c with
  | AuthorizationRequired => "|proxy-command=authorization-required"%string
  | Unavailable => "|proxy-command=unavailable"%string
  | Direct program args =>
      ("|proxy-command=" ++ sha256 (fold_left (fun s argument => s ++ String.String Ascii.zero argument) args program))%string
  end.

Definition hop_key (hop : ProxyHopConfig) : string :=
  let legacy_suffix := if hop_legacy_ssh_compatibility hop then ":legacy"%string else ""%string in
  let agent_forwarding_suffix := if hop_agent_forwarding hop then ":agent-forwarding"%string else ""%string in
  let identity_agent_suffix := match hop_identity_agent hop with
                               | None => ""%string
                               | Some endpoint => agent_endpoint_key_suffix "identity-agent" (Some endpoint)
                               end in
  let forwarding_socket_suffix :=
    if hop_agent_forwarding hop
    then agent_forwarding_endpoint_key_suffix "forwarding-agent" (hop_agent_forwarding_socket hop) (hop_identity_agent hop)
    else ""%string in
  (hop_username hop ++ "@" ++ hop_host hop ++ ":" ++ pretty (hop_port hop) ++ legacy_suffix
   ++ agent_forwarding_suffix ++ identity_agent_suffix ++ forwarding_socket_suffix)%string.

Definition protocol_debug (p : UpstreamProxyProtocol) : string :=
  match p with Socks5 => "Socks5"%string | HttpConnect => "HttpConnect"%string end.

Definition connection_key (c : SshConfig) : string :=
  let proxy_key := match proxy_chain c with None => ""%string | Some chain => String.concat ">" (map hop_key chain) end in
  let legacy_key := if legacy_ssh_compatibility c then "|legacy_ssh=true"%string else ""%string in
  let agent_forwarding_key := if agent_forwarding c then "|agent_forwarding=true"%string else ""%string in
  let identity_agent_key := match identity_agent c with
                            | None => ""%string
                            | Some endpoint => agent_endpoint_key_suffix "identity_agent" (Some endpoint)
                            end in
  let agent_forwarding_socket_key :=
    if agent_forwarding c
    then agent_forwarding_endpoint_key_suffix "agent_forwarding_socket" (agent_forwarding_socket c) (identity_agent c)
    else ""%string in
  let upstream_proxy_key :=
    match upstream_proxy c with
    | None => ""%string
    | Some proxy => ("|upstream=" ++ protocol_debug (up_protocol proxy) ++ ":" ++ up_host proxy ++ ":"
                     ++ pretty (up_port proxy) ++ ":" ++ (if up_remote_dns proxy then "true" else "false"))%string
    end in
  let proxy_command_key := match proxy_command c with None => ""%string | Some p => proxy_command_key_suffix p end in
  (username c ++ "@" ++ host c ++ ":" ++ pretty (port c) ++ "|" ++ proxy_key ++ upstream_proxy_key ++ legacy_key
   ++ agent_forwarding_key ++ identity_agent_key ++ agent_forwarding_socket_key ++ proxy_command_key)%string.
End Agent.

(** ** What the key tells apart *)

Definition lacks (c : Ascii.ascii) (s : string) : Prop := c ∉ String.list_ascii_of_string s.

Lemma ascii_list_app s t :
  String.list_ascii_of_string (s ++ t)%string = String.list_ascii_of_string s ++ String.list_ascii_of_string t.
Proof.
  induction s as [|c s IH]; [done|].
  change (c :: String.list_ascii_of_string (s ++ t)%string = c :: (String.list_ascii_of_string s ++ String.list_ascii_of_string t)).
  by rewrite IH.
Qed.

Lemma split_at_char {A} (c : A) (u u' s s' : list A) :
  c ∉ u -> c ∉ u' -> u ++ c :: s = u' ++ c :: s' -> u = u' /\ s = s'.
Proof.
  revert u'. induction u as [|a u IH]; intros [|a' u'] Hu Hu' He; cbn in He; simplify_eq; [done|set_solver..|].
  destruct (IH u') as [-> ->]; set_solver.
Qed.

(** The same from the right. *)
Lemma split_at_last_char {A} (c : A) (u u' s s' : list A) :
  c ∉ s -> c ∉ s' -> u ++ c :: s = u' ++ c :: s' -> u = u' /\ s = s'.
Proof.
  intros Hs Hs' He. apply (f_equal reverse) in He. rewrite !reverse_app, !reverse_cons, <-!app_assoc in He.
  apply split_at_char in He as [H1 H2]; rewrite ?elem_of_reverse; [|done..].
  apply (inj reverse) in H1, H2. done.
Qed.

Lemma ascii_list_inj s t : String.list_ascii_of_string s = String.list_ascii_of_string t -> s = t.
Proof. intros H. rewrite <-(String.string_of_list_ascii_of_string s), <-(String.string_of_list_ascii_of_string t). by rewrite H. Qed.

(** Decimal numbers hold no separator. *)
Lemma pretty_N_go_digits (c : Ascii.ascii) n s :
  (forall d, pretty_N_char d <> c) -> lacks c s -> lacks c (pretty_N_go n s).
Proof.
  intros Hd. revert s. induction (N.lt_wf_0 n) as [n _ IH]; intros s Hs.
  destruct (decide (n = 0)%N) as [->|Hn]; [by rewrite pretty_N_go_0|].
  rewrite pretty_N_go_step by lia. apply IH; [apply N.div_lt; lia|].
  unfold lacks in *. cbn. intros Hin. apply list_elem_of_In in Hin as [H|H]; [by apply (Hd _ H)|].
  apply Hs. by apply list_elem_of_In.
Qed.

Lemma pretty_port_lacks c p : 0 <= p -> c = ":"%char \/ c = "|"%char -> lacks c (pretty p).
Proof.
  intros Hp Hc. assert (Hd : forall d, pretty_N_char d <> c).
  { intros d Hd. unfold pretty_N_char in Hd. destruct Hc as [-> | ->]; repeat case_match; discriminate. }
  destruct p as [|p|p]; [|..].
  - unfold lacks. destruct Hc as [-> | ->]; vm_compute; set_solver.
  - change (lacks c (pretty (Npos p))). unfold pretty, pretty_N. case_decide; [done|].
    apply pretty_N_go_digits; [done|]. unfold lacks. cbn. set_solver.
  - lia.
Qed.

Lemma key_head (c : SshConfig) (rest : string) :
  String.list_ascii_of_string (username c ++ "@" ++ host c ++ ":" ++ pretty (port c) ++ "|" ++ rest)%string
  = String.list_ascii_of_string (username c)
    ++ "@"%char :: (String.list_ascii_of_string (host c) ++ ":"%char :: String.list_ascii_of_string (pretty (port c)))
    ++ "|"%char :: String.list_ascii_of_string rest.
Proof. rewrite !ascii_list_app. cbn. by rewrite <-!app_assoc. Qed.

(** Two configurations of the same key address the same account on the same
    host and port, whatever the proxies, agents and secrets: a pooled connection
    is never given to a session for another target.  A user name holds no [@]
    and neither holds a bar. *)
Theorem connection_key_separates_targets env sha256 (c d : SshConfig) :
  lacks "@" (username c) -> lacks "@" (username d) -> lacks "|" (host c) -> lacks "|" (host d) ->
  0 <= port c -> 0 <= port d ->
  connection_key env sha256 c = connection_key env sha256 d ->
  username c = username d /\ host c = host d /\ port c = port d.
Proof.
  intros Huc Hud Hhc Hhd Hpc Hpd Hk. unfold connection_key in Hk.
  apply (f_equal String.list_ascii_of_string) in Hk. rewrite !key_head in Hk.
  apply split_at_char in Hk as [Hu Hk]; [|done..].
  pose proof (pretty_port_lacks "|" (port c) Hpc ltac:(auto)) as Hbc.
  pose proof (pretty_port_lacks "|" (port d) Hpd ltac:(auto)) as Hbd. unfold lacks in *.
  apply split_at_char in Hk as [Hk _]; [|set_solver..].
  apply split_at_last_char in Hk as [Hh Hp]; [|by apply pretty_port_lacks; auto..].
  apply ascii_list_inj in Hu, Hh, Hp. split_and!; [done..|]. by apply (inj pretty).
Qed.
