(* ===== verification/NodeTree.v ===== *)
(** * The node tree

    Model of [NodeRuntimeStore] ([crates/hapcli-ssh/src/router/runtime_store.rs])
    with the types of [router.rs]: the forest of SSH nodes that sessions open
    through one another, the connections, terminals and SFTP sessions they are
    bound to, and the snapshots by which the tree is saved and restored.  Each
    operation runs by itself over the store.  A [NodeId] is its string; the
    clock, fresh UUIDs and the iteration order of the concurrent map are
    arguments.  Generation counters wrap as [u64] does. *)
From S2P Require Import Prelude NodeEvents X11 X11Authority SshConfigs.
From stdpp Require Import prelude list numbers gmap strings sorting.
Open Scope Z_scope.

(** ** Data *)

Inductive RouteError :=
| NodeNotFound (node : string)
| NotConnected (what : string)
| ConnectionError (what : string)
| CapabilityUnavailable (what : string)
| ConnectionTimeout (what : string)
| ParentNotConnected (node : string)
| MaxDepthExceeded (depth : Z).
#[export] Instance RouteError_eq_dec : EqDecision RouteError.
Proof. solve_decision. Defined.

Inductive NodeOrigin :=
| ManualPreset (saved_connection_id : string) (hop_index : Z)
| AutoRoute (target_host route_id : string) (hop_index : Z)
| DrillDown (timestamp : Z)
| DirectNode
| Restored (saved_connection_id : string).

Definition origin_type (o : NodeOrigin) : string :=
  match o with
  | ManualPreset _ _ => "manual_preset"
  | AutoRoute _ _ _ => "auto_route"
  | DrillDown _ => "drill_down"
  | DirectNode => "direct"
  | Restored _ => "restored"
  end%string.
Definition saved_connection_id (o : NodeOrigin) : option string :=
  match o with
  | ManualPreset id _ | Restored id => Some id
  | AutoRoute _ _ _ | DrillDown _ | DirectNode => None
  end.

Record TerminalEndpoint := mkEndpoint { ws_port : Z; ws_token : string; te_session_id : string }.

Record NodeState := mkState {
  readiness : NodeReadiness; ns_error : option string; sftp_ready : bool; sftp_cwd : option string;
  ws_endpoint : option TerminalEndpoint }.
Definition NodeState_default : NodeState := mkState NrDisconnected None false None None.

Record NodeRuntimeEntry := mkNode {
  nr_config : SshConfig;
  nr_parent_id : option string;
  nr_children_ids : list string;
  nr_depth : Z;
  nr_origin : NodeOrigin;
  nr_connection_id : option string;
  nr_terminal_session_id : option string;
  nr_terminal_endpoints : list TerminalEndpoint;
  nr_sftp_session_id : option string;
  nr_state : NodeState;
  nr_created_at_ms : Z;
  nr_generation : Z
}.

Record NodeRuntimeSnapshot := mkRuntimeSnapshot {
  rs_config : SshConfig; rs_parent_id : option string; rs_children_ids : list string; rs_depth : Z;
  rs_origin : NodeOrigin; rs_connection_id : option string; rs_terminal_session_id : option string;
  rs_sftp_session_id : option string; rs_state : NodeState; rs_created_at_ms : Z; rs_generation : Z }.

Record NodeMetadataSnapshot := mkMetadata {
  md_id : string; md_parent_id : option string; md_children_ids : list string; md_depth : Z; md_origin : NodeOrigin;
  md_host : string; md_port : Z; md_username : string; md_readiness : NodeReadiness; md_error : option string;
  md_connection_id : option string; md_terminal_session_id : option string; md_sftp_session_id : option string;
  md_created_at_ms : Z }.

Record NodeTreeSnapshotNode := mkSnapshotNode {
  sn_id : string; sn_parent_id : option string; sn_children_ids : list string; sn_depth : Z; sn_config : SshConfig;
  sn_origin : NodeOrigin; sn_state : NodeState; sn_connection_id : option string;
  sn_terminal_session_id : option string; sn_terminal_endpoints : list TerminalEndpoint;
  sn_sftp_session_id : option string; sn_created_at_ms : Z; sn_generation : Z }.
Record NodeTreeSnapshot := mkTreeSnapshot {
  ts_version : Z; ts_exported_at_ms : Z; ts_root_ids : list string; ts_nodes : list NodeTreeSnapshotNode }.

Record NodeTreePersistenceNode := mkPersistenceNode {
  pn_id : string; pn_parent_id : option string; pn_children_ids : list string; pn_depth : Z; pn_origin : NodeOrigin;
  pn_config : option SshConfig; pn_created_at_ms : Z; pn_generation : Z }.
Record NodeTreePersistenceSnapshot := mkPersistenceSnapshot {
  ps_version : Z; ps_exported_at_ms : Z; ps_root_ids : list string; ps_nodes : list NodeTreePersistenceNode }.

Record NodeTreeExpansion := mkExpansion { target_node_id : string; path_node_ids : list string; chain_depth : Z }.

Record FlatNode := mkFlat {
  fn_id : string; fn_parent_id : option string; fn_depth : Z; fn_host : string; fn_port : Z; fn_username : string;
  fn_display_name : option string; fn_state : NodeReadiness; fn_error : option string; fn_has_children : bool;
  fn_is_last_child : bool; fn_origin_type : string; fn_terminal_session_id : option string;
  fn_sftp_session_id : option string; fn_ssh_connection_id : option string }.

Record SessionTreeSummary := mkSummary { total_nodes : Z; root_count : Z; connected_count : Z; max_depth : Z }.

Record NodeConnectionRuntime := mkConnectionRuntime {
  cr_connection_id : string; cr_terminal_session_id : option string; cr_sftp_session_id : option string }.

Definition MAX_SESSION_TREE_DEPTH : Z := 10.

(** The store; [node_index] is its map [connection_nodes]. *)
Record NodeRuntimeStore := mkStore {
  nodes : gmap string NodeRuntimeEntry;
  root_ids : list string;
  node_index : gmap string string
}.
Definition NodeRuntimeStore_default : NodeRuntimeStore := mkStore ∅ [] ∅.

(** Field assignments. *)
Definition set_nodes n (st : NodeRuntimeStore) : NodeRuntimeStore := mkStore n (root_ids st) (node_index st).
Definition set_roots r (st : NodeRuntimeStore) : NodeRuntimeStore := mkStore (nodes st) r (node_index st).
Definition set_index i (st : NodeRuntimeStore) : NodeRuntimeStore := mkStore (nodes st) (root_ids st) i.

Definition set_config config origin (e : NodeRuntimeEntry) : NodeRuntimeEntry :=
  mkNode config (nr_parent_id e) (nr_children_ids e) (nr_depth e) origin (nr_connection_id e)
    (nr_terminal_session_id e) (nr_terminal_endpoints e) (nr_sftp_session_id e) (nr_state e) (nr_created_at_ms e)
    (nr_generation e).
Definition set_parent parent depth (e : NodeRuntimeEntry) : NodeRuntimeEntry :=
  mkNode (nr_config e) parent (nr_children_ids e) depth (nr_origin e) (nr_connection_id e)
    (nr_terminal_session_id e) (nr_terminal_endpoints e) (nr_sftp_session_id e) (nr_state e) (nr_created_at_ms e)
    (nr_generation e).
Definition set_children children (e : NodeRuntimeEntry) : NodeRuntimeEntry :=
  mkNode (nr_config e) (nr_parent_id e) children (nr_depth e) (nr_origin e) (nr_connection_id e)
    (nr_terminal_session_id e) (nr_terminal_endpoints e) (nr_sftp_session_id e) (nr_state e) (nr_created_at_ms e)
    (nr_generation e).
Definition set_connection connection (e : NodeRuntimeEntry) : NodeRuntimeEntry :=
  mkNode (nr_config e) (nr_parent_id e) (nr_children_ids e) (nr_depth e) (nr_origin e) connection
    (nr_terminal_session_id e) (nr_terminal_endpoints e) (nr_sftp_session_id e) (nr_state e) (nr_created_at_ms e)
    (nr_generation e).
Definition set_terminals session endpoints (e : NodeRuntimeEntry) : NodeRuntimeEntry :=
  mkNode (nr_config e) (nr_parent_id e) (nr_children_ids e) (nr_depth e) (nr_origin e) (nr_connection_id e)
    session endpoints (nr_sftp_session_id e) (nr_state e) (nr_created_at_ms e) (nr_generation e).
Definition set_sftp session (e : NodeRuntimeEntry) : NodeRuntimeEntry :=
  mkNode (nr_config e) (nr_parent_id e) (nr_children_ids e) (nr_depth e) (nr_origin e) (nr_connection_id e)
    (nr_terminal_session_id e) (nr_terminal_endpoints e) session (nr_state e) (nr_created_at_ms e) (nr_generation e).
Definition set_state state (e : NodeRuntimeEntry) : NodeRuntimeEntry :=
  mkNode (nr_config e) (nr_parent_id e) (nr_children_ids e) (nr_depth e) (nr_origin e) (nr_connection_id e)
    (nr_terminal_session_id e) (nr_terminal_endpoints e) (nr_sftp_session_id e) state (nr_created_at_ms e)
    (nr_generation e).
Definition set_generation generation (e : NodeRuntimeEntry) : NodeRuntimeEntry :=
  mkNode (nr_config e) (nr_parent_id e) (nr_children_ids e) (nr_depth e) (nr_origin e) (nr_connection_id e)
    (nr_terminal_session_id e) (nr_terminal_endpoints e) (nr_sftp_session_id e) (nr_state e) (nr_created_at_ms e)
    generation.
Definition bump (e : NodeRuntimeEntry) : NodeRuntimeEntry := set_generation (wrap 64 (nr_generation e + 1)) e.
Definition bump_saturating (e : NodeRuntimeEntry) : NodeRuntimeEntry :=
  set_generation (Z.min (nr_generation e + 1) (2 ^ 64 - 1)) e.
Definition set_readiness r error (s : NodeState) : NodeState := mkState r error (sftp_ready s) (sftp_cwd s) (ws_endpoint s).
Definition set_sftp_state ready cwd (s : NodeState) : NodeState := mkState (readiness s) (ns_error s) ready cwd (ws_endpoint s).
Definition set_ws_endpoint endpoint (s : NodeState) : NodeState :=
  mkState (readiness s) (ns_error s) (sftp_ready s) (sftp_cwd s) endpoint.

Definition fresh_entry (config : SshConfig) (parent : option string) (depth : Z) (origin : NodeOrigin) (now_ms : Z)
    : NodeRuntimeEntry :=
  mkNode config parent [] depth origin None None [] None NodeState_default now_ms 0.

Definition generated_tree_node_id (prefix uuid : string) : string := (prefix ++ "-" ++ uuid)%string.
Definition as_i64 (z : Z) : Z := let w := wrap 64 z in if 2 ^ 63 <=? w then w - 2 ^ 64 else w.

(** Keys [(depth, created_at_ms, id)] and [(depth, id)] in lexicographic order. *)
Definition key_le (k l : Z * Z * string) : bool :=
  let '(d, t, i) := k in let '(d', t', i') := l in
  (d <? d') || ((d =? d') && ((t <? t') || ((t =? t') && bool_decide (String.le i i')))).
Definition depth_key_le (k l : Z * string) : bool :=
  (k.1 <? l.1) || ((k.1 =? l.1) && bool_decide (String.le k.2 l.2)).

(** ** Operations on the store *)

Definition Route := M RouteError NodeRuntimeStore.

Definition modify (f : NodeRuntimeStore -> NodeRuntimeStore) : Route unit := fun st => Some (Ok tt, f st).
Definition gets {A} (f : NodeRuntimeStore -> A) : Route A := fun st => Some (Ok (f st), st).

(** [nodes.get_mut(id).ok_or(NodeNotFound)], and the entry it leaves. *)
Definition update_node (node_id : string) (f : NodeRuntimeEntry -> NodeRuntimeEntry) : Route NodeRuntimeEntry :=
  fun st => match nodes st !! node_id with
            | None => Some (Err (NodeNotFound node_id), st)
            | Some e => Some (Ok (f e), set_nodes (<[node_id := f e]> (nodes st)) st)
            end.
Definition get_node (node_id : string) : Route NodeRuntimeEntry :=
  fun st => match nodes st !! node_id with
            | None => Some (Err (NodeNotFound node_id), st)
            | Some e => Some (Ok e, st)
            end.

(** *** Nodes *)

Definition upsert_node_with_origin (now_ms : Z) (node_id : string) (config : SshConfig) (origin : NodeOrigin)
    (st : NodeRuntimeStore) : NodeRuntimeStore :=
  match nodes st !! node_id with
  | Some route => set_nodes (<[node_id := bump (set_config config origin route)]> (nodes st)) st
  | None =>
      let st := set_nodes (<[node_id := fresh_entry config None 0 origin now_ms]> (nodes st)) st in
      if bool_decide (node_id ∈ root_ids st) then st else set_roots (root_ids st ++ [node_id]) st
  end.
Definition upsert_node (now_ms : Z) (node_id : string) (config : SshConfig) : NodeRuntimeStore -> NodeRuntimeStore :=
  upsert_node_with_origin now_ms node_id config DirectNode.

Definition snapshot (node_id : string) (st : NodeRuntimeStore) : option NodeRuntimeSnapshot :=
  route ← nodes st !! node_id;
  Some (mkRuntimeSnapshot (nr_config route) (nr_parent_id route) (nr_children_ids route) (nr_depth route)
          (nr_origin route) (nr_connection_id route) (nr_terminal_session_id route) (nr_sftp_session_id route)
          (nr_state route) (nr_created_at_ms route) (nr_generation route)).

Definition connection_runtime (node_id : string) (st : NodeRuntimeStore) : result RouteError NodeConnectionRuntime :=
  let? route := ok_or (nodes st !! node_id) (NodeNotFound node_id) in
  let? connection_id := ok_or (nr_connection_id route) (NotConnected node_id) in
  Ok (mkConnectionRuntime connection_id (nr_terminal_session_id route) (nr_sftp_session_id route)).

(** A child is added once to its parent's list. *)
Definition add_child (node_id : string) (parent : NodeRuntimeEntry) : NodeRuntimeEntry :=
  if bool_decide (node_id ∈ nr_children_ids parent) then parent
  else bump (set_children (nr_children_ids parent ++ [node_id]) parent).

Definition upsert_child_node_with_origin (now_ms : Z) (parent_id node_id : string) (config : SshConfig)
    (origin : NodeOrigin) : Route unit :=
  let* parent := update_node parent_id (add_child node_id) in
  let depth := nr_depth parent + 1 in
  do* modify (fun st =>
    set_nodes (<[node_id := match nodes st !! node_id with
                            | Some route => bump (set_config config origin (set_parent (Some parent_id) depth route))
                            | None => fresh_entry config (Some parent_id) depth origin now_ms
                            end]> (nodes st)) st) in
  modify (fun st => set_roots (List.filter (fun id => negb (bool_decide (id = node_id))) (root_ids st)) st).
Definition upsert_child_node (now_ms : Z) (parent_id node_id : string) (config : SshConfig) : Route unit :=
  upsert_child_node_with_origin now_ms parent_id node_id config DirectNode.

Definition is_ready (e : NodeRuntimeEntry) : bool := bool_decide (readiness (nr_state e) = NrReady).

(** [now_origin] and [now_ms] are the two readings of the clock. *)
Definition drill_down (uuid : string) (now_origin now_ms : Z) (parent_id : string) (config : SshConfig) : Route string :=
  let* parent := get_node parent_id in
  if negb (is_ready parent) then throw (ParentNotConnected parent_id)
  else if MAX_SESSION_TREE_DEPTH <? nr_depth parent + 1 then throw (MaxDepthExceeded MAX_SESSION_TREE_DEPTH)
  else
    let node_id := generated_tree_node_id "drill" uuid in
    do* upsert_child_node_with_origin now_ms parent_id node_id config (DrillDown (Z.quot (as_i64 now_origin) 1000)) in
    ret node_id.

(** *** Chains of hops *)

Section Expand.
(** The UUID and the clock of the i-th node that is made. *)
Context (uuid : nat -> string) (now : nat -> Z) (origin_for_hop : Z -> NodeOrigin).

(** The loop over the hops from index [i] on. *)
Fixpoint expand_hops (i : nat) (hops : list SshConfig) (current_id : string) (path : list string)
    : Route (string * list string) :=
  match hops with
  | [] => ret (current_id, path)
  | hop :: hops =>
      let node_id := generated_tree_node_id "hop" (uuid i) in
      do* upsert_child_node_with_origin (now i) current_id node_id hop (origin_for_hop (Z.of_nat i)) in
      expand_hops (S i) hops node_id (path ++ [node_id])
  end.

Definition hop_count (hops : list SshConfig) : Z := wrap 32 (wrap 32 (zlen hops) + 1).

Definition expand_preset_chain_internal (hops : list SshConfig) (target : SshConfig) : Route NodeTreeExpansion :=
  match hops with
  | [] =>
      let target_id := generated_tree_node_id "direct" (uuid 0) in
      do* modify (upsert_node_with_origin (now 0) target_id target DirectNode) in
      ret (mkExpansion target_id [target_id] 1)
  | first :: rest =>
      let chain_depth := hop_count hops in
      if MAX_SESSION_TREE_DEPTH <? chain_depth then throw (MaxDepthExceeded MAX_SESSION_TREE_DEPTH)
      else
        let root_id := generated_tree_node_id "hop" (uuid 0) in
        do* modify (upsert_node_with_origin (now 0) root_id first (origin_for_hop 0)) in
        let* chain := expand_hops 1 rest root_id [root_id] in
        let target_id := generated_tree_node_id "target" (uuid (length hops)) in
        do* upsert_child_node_with_origin (now (length hops)) chain.1 target_id target (origin_for_hop (chain_depth - 1)) in
        ret (mkExpansion target_id (chain.2 ++ [target_id]) chain_depth)
  end.

Definition expand_preset_chain_under_parent_internal (parent_id : string) (hops : list SshConfig) (target : SshConfig)
    : Route NodeTreeExpansion :=
  let* parent := get_node parent_id in
  if negb (is_ready parent) then throw (ParentNotConnected parent_id)
  else
    let chain_depth := hop_count hops in
    if MAX_SESSION_TREE_DEPTH <? nr_depth parent + chain_depth then throw (MaxDepthExceeded MAX_SESSION_TREE_DEPTH)
    else
      let* chain := expand_hops 0 hops parent_id [] in
      let target_id := generated_tree_node_id (match chain.2 with [] => "direct" | _ => "target" end)
                         (uuid (length hops)) in
      do* upsert_child_node_with_origin (now (length hops)) chain.1 target_id target (origin_for_hop (chain_depth - 1)) in
      ret (mkExpansion target_id (chain.2 ++ [target_id]) chain_depth).
End Expand.

Definition expand_manual_preset (uuid : nat -> string) (now : nat -> Z) (saved : string) (hops : list SshConfig)
    (target : SshConfig) : Route NodeTreeExpansion :=
  expand_preset_chain_internal uuid now (ManualPreset saved) hops target.
Definition expand_manual_preset_under_parent (uuid : nat -> string) (now : nat -> Z) (parent_id saved : string)
    (hops : list SshConfig) (target : SshConfig) : Route NodeTreeExpansion :=
  expand_preset_chain_under_parent_internal uuid now (ManualPreset saved) parent_id hops target.

(** *** Walks; one unit of fuel per turn or level *)

Fixpoint path_loop (fuel : nat) (st : NodeRuntimeStore) (current_id : option string) (path : list string)
    : option (result RouteError (list string)) :=
  match fuel with
  | O => None
  | S fuel =>
      match current_id with
      | None => Some (Ok (reverse path))
      | Some id =>
          match nodes st !! id with
          | None => Some (Err (NodeNotFound id))
          | Some node => path_loop fuel st (nr_parent_id node) (path ++ [id])
          end
      end
  end.
Definition path_to_node (fuel : nat) (node_id : string) (st : NodeRuntimeStore) : option (result RouteError (list string)) :=
  path_loop fuel st (Some node_id) [].

Fixpoint descendant_loop (fuel : nat) (st : NodeRuntimeStore) (ancestor_id : string) (current_id : option string) : option bool :=
  match fuel with
  | O => None
  | S fuel =>
      match current_id with
      | None => Some false
      | Some candidate_id =>
          if bool_decide (candidate_id = ancestor_id) then Some true
          else descendant_loop fuel st ancestor_id (nodes st !! candidate_id ≫= nr_parent_id)
      end
  end.
Definition node_is_descendant_or_same (fuel : nat) (node_id ancestor_id : string) (st : NodeRuntimeStore) : option bool :=
  descendant_loop fuel st ancestor_id (Some node_id).

(** [roots.iter().any(..)] stops at the first that holds. *)
Fixpoint any_ancestor (fuel : nat) (node_id : string) (roots : list string) (st : NodeRuntimeStore) : option bool :=
  match roots with
  | [] => Some false
  | root_id :: roots =>
      match node_is_descendant_or_same fuel node_id root_id st with
      | None => None
      | Some true => Some true
      | Some false => any_ancestor fuel node_id roots st
      end
  end.
Fixpoint subtree_roots_loop (fuel : nat) (st : NodeRuntimeStore) (candidates roots : list string) : option (list string) :=
  match candidates with
  | [] => Some roots
  | node_id :: candidates =>
      match any_ancestor fuel node_id roots st with
      | None => None
      | Some true => subtree_roots_loop fuel st candidates roots
      | Some false => subtree_roots_loop fuel st candidates (roots ++ [node_id])
      end
  end.
Definition depth_key (st : NodeRuntimeStore) (node_id : string) : Z * string :=
  match nodes st !! node_id with Some node => (nr_depth node, node_id) | None => (2 ^ 32 - 1, node_id) end.
Definition minimal_subtree_roots (fuel : nat) (candidates : list string) (st : NodeRuntimeStore) : option (list string) :=
  let candidates := List.filter (fun id => bool_decide (is_Some (nodes st !! id))) candidates in
  subtree_roots_loop fuel st (sort_by (fun a b => depth_key_le (depth_key st a) (depth_key st b)) candidates) [].

Fixpoint postorder_collect (fuel : nat) (st : NodeRuntimeStore) (node_id : string) : option (list string) :=
  match fuel with
  | O => None
  | S fuel =>
      let children := default [] (nr_children_ids <$> nodes st !! node_id) in
      below ← mapM (postorder_collect fuel st) children;
      Some (concat below ++ [node_id])
  end.
Definition subtree_postorder (fuel : nat) (node_id : string) (st : NodeRuntimeStore) : option (list string) :=
  postorder_collect fuel st node_id.

Definition remove_node (removed_id : string) (st : NodeRuntimeStore) : NodeRuntimeStore :=
  match nodes st !! removed_id with
  | None => st
  | Some removed =>
      let st := set_nodes (delete removed_id (nodes st)) st in
      match nr_connection_id removed with
      | Some connection_id => set_index (delete connection_id (node_index st)) st
      | None => st
      end
  end.

Definition detach (node_id : string) (st : NodeRuntimeStore) : NodeRuntimeStore :=
  match nodes st !! node_id ≫= nr_parent_id with
  | Some parent_id =>
      match nodes st !! parent_id with
      | Some parent =>
          let children := List.filter (fun id => negb (bool_decide (id = node_id))) (nr_children_ids parent) in
          set_nodes (<[parent_id := bump (set_children children parent)]> (nodes st)) st
      | None => st
      end
  | None => set_roots (List.filter (fun id => negb (bool_decide (id = node_id))) (root_ids st)) st
  end.
Definition remove_subtree (fuel : nat) (node_id : string) (st : NodeRuntimeStore)
    : option (list string * NodeRuntimeStore) :=
  removed ← subtree_postorder fuel node_id st;
  match removed with
  | [] => Some ([], st)
  | _ => Some (removed, fold_left (fun st id => remove_node id st) removed (detach node_id st))
  end.

Definition flat_node (st : NodeRuntimeStore) (node_id : string) (route : NodeRuntimeEntry) : FlatNode :=
  let is_last_child :=
    match nr_parent_id route with
    | Some parent_id => match nodes st !! parent_id with
                        | None => true
                        | Some parent => bool_decide (last (nr_children_ids parent) = Some node_id)
                        end
    | None => bool_decide (last (root_ids st) = Some node_id)
    end in
  mkFlat node_id (nr_parent_id route) (nr_depth route) (host (nr_config route)) (port (nr_config route))
    (username (nr_config route)) None (readiness (nr_state route)) (ns_error (nr_state route))
    (match nr_children_ids route with [] => false | _ => true end) is_last_child (origin_type (nr_origin route))
    (nr_terminal_session_id route) (nr_sftp_session_id route) (nr_connection_id route).
Fixpoint flatten_collect (fuel : nat) (st : NodeRuntimeStore) (node_id : string) : option (list FlatNode) :=
  match fuel with
  | O => None
  | S fuel =>
      match nodes st !! node_id with
      | None => Some []
      | Some route =>
          below ← mapM (flatten_collect fuel st) (nr_children_ids route);
          Some (flat_node st node_id route :: concat below)
      end
  end.
Definition flatten (fuel : nat) (st : NodeRuntimeStore) : option (list FlatNode) :=
  trees ← mapM (flatten_collect fuel st) (root_ids st); Some (concat trees).

(** *** Bindings *)

Definition contains_node (node_id : string) (st : NodeRuntimeStore) : bool := bool_decide (is_Some (nodes st !! node_id)).
Definition node_x11_forwarding (node_id : string) (st : NodeRuntimeStore) : result RouteError (option X11ForwardPolicy) :=
  ok_or ((fun route => x11_forwarding (nr_config route)) <$> nodes st !! node_id) (NodeNotFound node_id).
Definition update_origin (node_id : string) (origin : NodeOrigin) : Route unit :=
  do* update_node node_id (fun route => bump_saturating (set_config (nr_config route) origin route)) in ret tt.

Definition connection_error (state : ConnectionState) : option string :=
  match state with CsError error => Some error | LinkDown => Some "Link down"%string | _ => None end.

Definition bind_connection (node_id connection_id : string) (state : ConnectionState) : Route NodeStateEvent :=
  let* route := get_node node_id in
  do* modify (fun st => match nr_connection_id route with
                        | Some previous_id => if bool_decide (previous_id = connection_id) then st
                                              else set_index (delete previous_id (node_index st)) st
                        | None => st
                        end) in
  do* modify (fun st => set_index (<[connection_id := node_id]> (node_index st)) st) in
  let* route := update_node node_id (fun route =>
    let route := bump (set_connection (Some connection_id) route) in
    set_state (set_readiness (readiness_for_connection_state state) (connection_error state) (nr_state route)) route) in
  ret (ConnectionStateChanged node_id (nr_generation route) (readiness (nr_state route)) "connection bound").

(** The entry without its live sessions. *)
Definition unbound (route : NodeRuntimeEntry) : NodeRuntimeEntry :=
  set_state (mkState NrDisconnected None false None None)
    (set_sftp None (set_terminals None [] (set_connection None route))).
Definition disconnect_node (node_id reason : string) : Route NodeStateEvent :=
  let* route := get_node node_id in
  do* modify (fun st => match nr_connection_id route with
                        | Some connection_id => set_index (delete connection_id (node_index st)) st
                        | None => st
                        end) in
  let* route := update_node node_id (fun route => bump (unbound route)) in
  ret (ConnectionStateChanged node_id (nr_generation route) NrDisconnected reason).

Definition bind_terminal_session (node_id session_id : string) : Route unit :=
  do* update_node node_id (fun route => bump match nr_terminal_session_id route with
    | None => set_state (set_ws_endpoint None (nr_state route))
                (set_terminals (Some session_id) (nr_terminal_endpoints route) route)
    | Some _ => route
    end) in ret tt.

(** Replaces the endpoint of the same session, or is added at the end. *)
Fixpoint put_endpoint (endpoint : TerminalEndpoint) (l : list TerminalEndpoint) : list TerminalEndpoint :=
  match l with
  | [] => [endpoint]
  | existing :: l => if bool_decide (te_session_id existing = te_session_id endpoint) then endpoint :: l
                     else existing :: put_endpoint endpoint l
  end.
Definition bind_terminal_endpoint (node_id : string) (endpoint : TerminalEndpoint) : Route NodeStateEvent :=
  let* route := update_node node_id (fun route =>
    let route := set_terminals (nr_terminal_session_id route) (put_endpoint endpoint (nr_terminal_endpoints route)) route in
    let primary := match nr_terminal_session_id route with
                   | None => true
                   | Some session => bool_decide (session = te_session_id endpoint)
                   end in
    bump (if primary then
            set_state (set_ws_endpoint None (nr_state route))
              (set_terminals (Some (te_session_id endpoint)) (nr_terminal_endpoints route) route)
          else route)) in
  ret (TerminalEndpointChanged node_id (nr_generation route) true).
Definition unbind_terminal_session (node_id session_id : string) : Route unit :=
  do* update_node node_id (fun route =>
    let endpoints := List.filter (fun e => negb (bool_decide (te_session_id e = session_id))) (nr_terminal_endpoints route) in
    if bool_decide (nr_terminal_session_id route = Some session_id) then
      bump (set_state (set_ws_endpoint None (nr_state route))
              (set_terminals (te_session_id <$> head endpoints) endpoints route))
    else if negb (length endpoints =? length (nr_terminal_endpoints route))%nat then
      bump (set_terminals (nr_terminal_session_id route) endpoints route)
    else set_terminals (nr_terminal_session_id route) endpoints route) in ret tt.
Definition primary_terminal_endpoint (node_id : string) (st : NodeRuntimeStore) : result RouteError (option TerminalEndpoint) :=
  let? route := ok_or (nodes st !! node_id) (NodeNotFound node_id) in
  Ok (primary ← nr_terminal_session_id route;
      List.find (fun e => bool_decide (te_session_id e = primary)) (nr_terminal_endpoints route)).

Definition bind_sftp_session (node_id session_id : string) (cwd : option string) : Route NodeStateEvent :=
  let* route := update_node node_id (fun route =>
    set_state (set_sftp_state true cwd (nr_state route)) (bump (set_sftp (Some session_id) route))) in
  ret (SftpReady node_id (nr_generation route) (sftp_ready (nr_state route)) (sftp_cwd (nr_state route))).
Definition set_node_sftp_ready (node_id : string) (ready : bool) (cwd : option string) : Route NodeStateEvent :=
  let* route := update_node node_id (fun route =>
    let route := if ready then route else set_sftp None route in
    bump (set_state (set_sftp_state ready (if ready then cwd else None) (nr_state route)) route)) in
  ret (SftpReady node_id (nr_generation route) (sftp_ready (nr_state route)) (sftp_cwd (nr_state route))).
Definition shared_sftp_session_changed (node_id connection_id : string) (session_generation : option Z) (ready : bool)
    : Route NodeStateEvent :=
  let* route := update_node node_id bump in
  ret (SharedSftpSessionChanged node_id (nr_generation route) connection_id session_generation ready).

Definition update_connection_state_from_parts (node_id : string) (state : ConnectionState) (reason : string)
    : Route NodeStateEvent :=
  let* route := update_node node_id (fun route =>
    set_state (set_readiness (readiness_for_connection_state state) (connection_error state) (nr_state route)) (bump route)) in
  ret (ConnectionStateChanged node_id (nr_generation route) (readiness (nr_state route)) reason).
Definition apply_node_readiness (node_id : string) (r : NodeReadiness) (reason : string) : Route NodeStateEvent :=
  let* route := update_node node_id (fun route =>
    let error := match r with
                 | NrError => if bool_decide (reason = ""%string) then None else Some reason
                 | NrDisconnected | NrReady | NrConnecting => None
                 end in
    set_state (set_readiness r error (nr_state route)) (bump route)) in
  ret (ConnectionStateChanged node_id (nr_generation route) (readiness (nr_state route))
         (default ""%string (ns_error (nr_state route)))).

Definition runtime_node_id_for_connection (connection_id : string) (st : NodeRuntimeStore) : option string :=
  node_index st !! connection_id.
Definition connection_id_for_node (node_id : string) (st : NodeRuntimeStore) : option string :=
  nodes st !! node_id ≫= nr_connection_id.
Definition clear_store (st : NodeRuntimeStore) : NodeRuntimeStore := NodeRuntimeStore_default.

(** ** The invariant *)

(** [n] is a child of [p]. *)
Definition child_of (st : NodeRuntimeStore) (n p : string) : Prop :=
  exists e, nodes st !! n = Some e /\ nr_parent_id e = Some p.
(** [n] is [a] or below it. *)
Definition under (st : NodeRuntimeStore) : string -> string -> Prop := rtc (child_of st).

Record forest_ok (st : NodeRuntimeStore) : Prop := mkForest {
  fo_parent : forall n e p, nodes st !! n = Some e -> nr_parent_id e = Some p ->
    exists pe, nodes st !! p = Some pe /\ n ∈ nr_children_ids pe /\ nr_depth e = nr_depth pe + 1;
  fo_root : forall n e, nodes st !! n = Some e -> nr_parent_id e = None -> n ∈ root_ids st /\ nr_depth e = 0;
  fo_child : forall p pe c, nodes st !! p = Some pe -> c ∈ nr_children_ids pe -> child_of st c p;
  fo_roots : forall r, r ∈ root_ids st -> exists e, nodes st !! r = Some e /\ nr_parent_id e = None;
  fo_nodup : forall p pe, nodes st !! p = Some pe -> NoDup (nr_children_ids pe);
  fo_nodup_roots : NoDup (root_ids st);
  fo_depth : forall n e, nodes st !! n = Some e -> 0 <= nr_depth e <= MAX_SESSION_TREE_DEPTH
}.

(** The index only leads to nodes bound to the connection; the slot of older
    snapshots is empty. *)
Record bindings_ok (st : NodeRuntimeStore) : Prop := mkBindings {
  bo_index : forall c n, node_index st !! c = Some n -> connection_id_for_node n st = Some c;
  bo_ws : forall n e, nodes st !! n = Some e -> ws_endpoint (nr_state e) = None
}.
Definition tree_ok (st : NodeRuntimeStore) : Prop := forest_ok st /\ bindings_ok st.

(** *** Changes that leave the forest alone *)

Definition shape (e : NodeRuntimeEntry) : option string * list string * Z := (nr_parent_id e, nr_children_ids e, nr_depth e).

Lemma shape_lookup st st' n e' :
  shape <$> nodes st = shape <$> nodes st' -> nodes st' !! n = Some e' ->
  exists e, nodes st !! n = Some e /\ shape e = shape e'.
Proof.
  intros Hs He. pose proof (f_equal (.!! n) Hs) as H. rewrite !lookup_fmap, He in H.
  destruct (nodes st !! n) as [e|] eqn:Hn; cbn in H; [|done]. exists e. split; [done|]. congruence.
Qed.

Lemma forest_ok_shapes st st' :
  shape <$> nodes st = shape <$> nodes st' -> root_ids st = root_ids st' -> forest_ok st -> forest_ok st'.
Proof.
  intros Hs Hr [Hp Hro Hc Hrs Hn Hnr Hd].
  assert (Hto : forall n e, nodes st !! n = Some e -> exists e', nodes st' !! n = Some e' /\ shape e' = shape e)
    by (intros n e; by apply shape_lookup).
  assert (Hfrom : forall n e, nodes st' !! n = Some e -> exists e', nodes st !! n = Some e' /\ shape e' = shape e)
    by (intros n e; by apply shape_lookup).
  unfold shape in *. constructor.
  - intros n e p He Hpe. destruct (Hfrom _ _ He) as (e0 & H0 & [= H1 H2 H3]).
    destruct (Hp n e0 p H0) as (pe & Hpe0 & Hin & Hdep); [congruence|].
    destruct (Hto _ _ Hpe0) as (pe' & Hpe' & [= E1 E2 E3]). exists pe'. rewrite E2, E3, <-H3. done.
  - intros n e He Hpe. destruct (Hfrom _ _ He) as (e0 & H0 & [= H1 H2 H3]).
    destruct (Hro n e0 H0); [congruence|]. rewrite <-Hr, <-H3. done.
  - intros p pe c He Hin. destruct (Hfrom _ _ He) as (e0 & H0 & [= H1 H2 H3]).
    destruct (Hc p e0 c H0) as (ce & Hce & Hcp); [congruence|].
    destruct (Hto _ _ Hce) as (ce' & Hce' & [= E1 E2 E3]). exists ce'. split; [done|congruence].
  - intros r Hin. rewrite <-Hr in Hin. destruct (Hrs r Hin) as (e & He & Hpe).
    destruct (Hto _ _ He) as (e' & He' & [= E1 E2 E3]). exists e'. split; [done|congruence].
  - intros p pe He. destruct (Hfrom _ _ He) as (e0 & H0 & [= H1 H2 H3]). rewrite <-H2. by eapply Hn.
  - by rewrite <-Hr.
  - intros n e He. destruct (Hfrom _ _ He) as (e0 & H0 & [= H1 H2 H3]). rewrite <-H3. by eapply Hd.
Qed.

Lemma shapes_insert st n e e' :
  nodes st !! n = Some e -> shape e' = shape e ->
  shape <$> nodes st = shape <$> (<[n := e']> (nodes st)).
Proof. intros He Hs. rewrite fmap_insert, Hs. symmetry. apply insert_id. by rewrite lookup_fmap, He. Qed.

Lemma connection_lookup st n e : nodes st !! n = Some e -> connection_id_for_node n st = nr_connection_id e.
Proof. unfold connection_id_for_node. by intros ->. Qed.

(** An update of one node that keeps its place in the tree and its connection. *)
Lemma tree_ok_update st n e e' :
  tree_ok st -> nodes st !! n = Some e -> shape e' = shape e -> nr_connection_id e' = nr_connection_id e ->
  ws_endpoint (nr_state e') = None -> tree_ok (set_nodes (<[n := e']> (nodes st)) st).
Proof.
  intros [Hf [Hi Hw]] He Hs Hc Hws. split.
  - eapply forest_ok_shapes; [| |done]; [by eapply shapes_insert|done].
  - constructor; cbn.
    + intros c x Hx. specialize (Hi c x Hx). unfold connection_id_for_node in *. cbn.
      destruct (decide (x = n)) as [->|Hne]; [rewrite lookup_insert_eq; cbn; rewrite He in Hi; cbn in Hi; congruence|].
      by rewrite lookup_insert_ne.
    + intros x ex. rewrite lookup_insert_Some. intros [[<- <-]|[_ H]]; [done|by eapply Hw].
Qed.

(** A computation that keeps the invariant, whatever its result. *)
Definition keeps {A} (m : Route A) : Prop := forall st, tree_ok st -> wp m (fun _ st' => tree_ok st') st.

Create HintDb keeps.
Lemma keeps_ret {A} (a : A) : keeps (ret a).
Proof. intros st H. by apply wp_ret. Qed.
Lemma keeps_throw {A} (e : RouteError) : keeps (A := A) (throw e).
Proof. intros st H. by apply wp_throw. Qed.
Lemma keeps_bind {A B} (m : Route A) (f : A -> Route B) : keeps m -> (forall a, keeps (f a)) -> keeps (bind m f).
Proof.
  intros Hm Hf st H. apply wp_bind. eapply wp_mono; [by apply Hm|]. intros [a|e] st' H'; cbn; [by apply Hf|done].
Qed.
Lemma keeps_get_node n : keeps (get_node n).
Proof. intros st H. unfold wp, get_node. by destruct (nodes st !! n). Qed.
Lemma keeps_update_node n f :
  (forall e, shape (f e) = shape e) -> (forall e, nr_connection_id (f e) = nr_connection_id e) ->
  (forall e, ws_endpoint (nr_state e) = None -> ws_endpoint (nr_state (f e)) = None) -> keeps (update_node n f).
Proof.
  intros Hs Hc Hw st H. unfold wp, update_node. destruct (nodes st !! n) as [e|] eqn:He; [|done].
  apply (tree_ok_update st n e); auto. apply Hw. by destruct H as [_ [_ ?]]; eauto.
Qed.
#[export] Hint Resolve keeps_ret keeps_throw keeps_bind keeps_get_node keeps_update_node : keeps.

(** Closes the conditions of [keeps_update_node] for an update that only
    assigns fields. *)
Ltac fields := intros; cbn in *; repeat case_match; cbn in *; done.
Ltac keep_fields := repeat (apply keeps_bind; [apply keeps_update_node; fields|intros]); apply keeps_ret.

Lemma keeps_update_origin n o : keeps (update_origin n o).
Proof. unfold update_origin. keep_fields. Qed.
Lemma keeps_bind_terminal_session n s : keeps (bind_terminal_session n s).
Proof. unfold bind_terminal_session. keep_fields. Qed.
Lemma keeps_bind_terminal_endpoint n ep : keeps (bind_terminal_endpoint n ep).
Proof. unfold bind_terminal_endpoint. keep_fields. Qed.
Lemma keeps_unbind_terminal_session n s : keeps (unbind_terminal_session n s).
Proof. unfold unbind_terminal_session. keep_fields. Qed.
Lemma keeps_bind_sftp_session n s cwd : keeps (bind_sftp_session n s cwd).
Proof. unfold bind_sftp_session. keep_fields. Qed.
Lemma keeps_set_node_sftp_ready n r cwd : keeps (set_node_sftp_ready n r cwd).
Proof. unfold set_node_sftp_ready. keep_fields. Qed.
Lemma keeps_shared_sftp_session_changed n c g r : keeps (shared_sftp_session_changed n c g r).
Proof. unfold shared_sftp_session_changed. keep_fields. Qed.
Lemma keeps_update_connection_state n s r : keeps (update_connection_state_from_parts n s r).
Proof. unfold update_connection_state_from_parts. keep_fields. Qed.
Lemma keeps_apply_node_readiness n r why : keeps (apply_node_readiness n r why).
Proof. unfold apply_node_readiness. keep_fields. Qed.
#[export] Hint Resolve keeps_update_origin keeps_bind_terminal_session keeps_bind_terminal_endpoint
  keeps_unbind_terminal_session keeps_bind_sftp_session keeps_set_node_sftp_ready keeps_shared_sftp_session_changed
  keeps_update_connection_state keeps_apply_node_readiness : keeps.

(** Binding and unbinding a connection. *)
Lemma keeps_bind_connection n c s : keeps (bind_connection n c s).
Proof.
  intros st [Hf [Hi Hw]]. unfold bind_connection, wp, bind, get_node, modify, update_node.
  destruct (nodes st !! n) as [e|] eqn:He; [|done]. cbn.
  set (old := match nr_connection_id e with Some _ => _ | None => st end).
  assert (Ho : nodes old = nodes st /\ root_ids old = root_ids st
    /\ forall k x, node_index old !! k = Some x -> node_index st !! k = Some x /\ (k <> c -> x <> n)).
  { unfold old. assert (Hn : forall k x, node_index st !! k = Some x -> x = n -> nr_connection_id e = Some k).
    { intros k x Hk ->. specialize (Hi _ _ Hk). by rewrite (connection_lookup _ _ _ He) in Hi. }
    destruct (nr_connection_id e) as [prev|] eqn:Hp; [case_bool_decide as Hpc|]; cbn; (split_and!; [done..|]).
    - intros k x Hk. split; [done|]. intros Hne ->. specialize (Hn _ _ Hk eq_refl). congruence.
    - intros k x. rewrite lookup_delete_Some. intros [Hne Hk]. split; [done|].
      intros _ ->. specialize (Hn _ _ Hk eq_refl). congruence.
    - intros k x Hk. split; [done|]. intros _ ->. by specialize (Hn _ _ Hk eq_refl). }
  clearbody old. destruct Ho as (Hn0 & Hr0 & Hi0). rewrite Hn0, He. cbn. split.
  - eapply forest_ok_shapes; [| |done]; cbn; [by eapply shapes_insert|done].
  - constructor; cbn.
    + intros k x. unfold connection_id_for_node. cbn. rewrite lookup_insert_Some. intros [[<- <-]|[Hne Hk]].
      { by rewrite lookup_insert_eq. }
      apply Hi0 in Hk as [Hk Hx]. rewrite lookup_insert_ne by (intros ->; by apply Hx). by apply Hi in Hk.
    + intros x ex. rewrite lookup_insert_Some. intros [[<- <-]|[_ H]]; [cbn; by eapply Hw|by eapply Hw].
Qed.

Lemma keeps_disconnect_node n why : keeps (disconnect_node n why).
Proof.
  intros st [Hf [Hi Hw]]. unfold disconnect_node, wp, bind, get_node, modify, update_node.
  destruct (nodes st !! n) as [e|] eqn:He; [|done]. cbn.
  set (old := match nr_connection_id e with Some _ => _ | None => st end).
  assert (Ho : nodes old = nodes st /\ root_ids old = root_ids st
    /\ forall k x, node_index old !! k = Some x -> node_index st !! k = Some x /\ x <> n).
  { unfold old. assert (Hn : forall k x, node_index st !! k = Some x -> x = n -> nr_connection_id e = Some k).
    { intros k x Hk ->. specialize (Hi _ _ Hk). by rewrite (connection_lookup _ _ _ He) in Hi. }
    destruct (nr_connection_id e) as [prev|] eqn:Hp; cbn; (split_and!; [done..|]).
    - intros k x. rewrite lookup_delete_Some. intros [Hne Hk]. split; [done|].
      intros ->. specialize (Hn _ _ Hk eq_refl). congruence.
    - intros k x Hk. split; [done|]. intros ->. by specialize (Hn _ _ Hk eq_refl). }
  clearbody old. destruct Ho as (Hn0 & Hr0 & Hi0). rewrite Hn0, He. cbn. split.
  - eapply forest_ok_shapes; [| |done]; cbn; [by eapply shapes_insert|done].
  - constructor; cbn.
    + intros k x Hk. unfold connection_id_for_node. cbn. apply Hi0 in Hk as [Hk Hx].
      rewrite lookup_insert_ne by done. by apply Hi in Hk.
    + intros x ex. rewrite lookup_insert_Some. intros [[<- <-]|[_ H]]; [done|by eapply Hw].
Qed.
#[export] Hint Resolve keeps_bind_connection keeps_disconnect_node : keeps.
