(* ===== verification/NodeForest.v ===== *)
(** * The forest of nodes: walks, growth and removal

    Lemmas on the operations of [NodeTree] that follow or change the links
    between nodes, under its invariant: what the walks find, what a new node, a
    chain of hops and the removal of a subtree leave. *)
From S2P Require Import Prelude NodeEvents X11 X11Authority SshConfigs NodeTree.
From stdpp Require Import prelude list numbers gmap strings sorting.
Open Scope Z_scope.

(** ** Walks over the forest *)

Definition depth_of (st : NodeRuntimeStore) (n : string) : Z := default 0 (nr_depth <$> nodes st !! n).

Section Forest.
Context (st : NodeRuntimeStore) (Hf : forest_ok st).

Lemma child_of_fun n p q : child_of st n p -> child_of st n q -> p = q.
Proof. intros (e & He & Hp) (e' & He' & Hq). congruence. Qed.

Lemma child_of_lookup n p :
  child_of st n p -> exists e pe, nodes st !! n = Some e /\ nr_parent_id e = Some p /\ nodes st !! p = Some pe
    /\ n ∈ nr_children_ids pe /\ nr_depth e = nr_depth pe + 1.
Proof. intros (e & He & Hp). destruct (fo_parent _ Hf n e p He Hp) as (pe & ? & ? & ?). eauto 10. Qed.

Lemma child_of_iff p pe c : nodes st !! p = Some pe -> c ∈ nr_children_ids pe <-> child_of st c p.
Proof.
  intros Hp. split; [by apply (fo_child _ Hf)|]. intros Hc. apply child_of_lookup in Hc as (e & pe' & _ & _ & Hp' & Hin & _).
  congruence.
Qed.

Lemma depth_child n p : child_of st n p -> depth_of st n = depth_of st p + 1.
Proof.
  intros Hc. apply child_of_lookup in Hc as (e & pe & He & _ & Hpe & _ & Hd). unfold depth_of.
  by rewrite He, Hpe.
Qed.

Lemma depth_under x a : under st x a -> x = a \/ depth_of st a < depth_of st x.
Proof.
  induction 1 as [|x y a Hxy Hya IH]; [by left|]. right. apply depth_child in Hxy. destruct IH as [->|]; lia.
Qed.

Lemma under_comparable x a b : under st x a -> under st x b -> under st a b \/ under st b a.
Proof.
  induction 1 as [|x y a Hxy Hya IH]; intros Hb; [by left|].
  inversion Hb as [|? z ? Hxz Hzb]; subst; [right; by eapply rtc_l|].
  apply IH. by rewrite (child_of_fun _ _ _ Hxy Hxz).
Qed.

(** Subtrees of different children of a node have nothing in common. *)
Lemma siblings_disjoint x p c d : child_of st c p -> child_of st d p -> under st x c -> under st x d -> c = d.
Proof.
  intros Hc Hd Hxc Hxd. apply depth_child in Hc, Hd.
  destruct (under_comparable _ _ _ Hxc Hxd) as [H|H]; apply depth_under in H as [->|]; (done || lia).
Qed.

(** Roots have nothing in common either. *)
Lemma roots_disjoint x r s : r ∈ root_ids st -> s ∈ root_ids st -> under st x r -> under st x s -> r = s.
Proof.
  intros Hr Hs Hxr Hxs. destruct (fo_roots _ Hf _ Hr) as (er & Her & Hpr). destruct (fo_roots _ Hf _ Hs) as (es & Hes & Hps).
  destruct (under_comparable _ _ _ Hxr Hxs) as [H|H]; inversion H as [|? y ? (e & He & Hp) _]; subst; congruence.
Qed.

Lemma under_split x p pe :
  nodes st !! p = Some pe -> under st x p <-> x = p \/ exists c, c ∈ nr_children_ids pe /\ under st x c.
Proof.
  intros Hp. split.
  - intros H. apply rtc_inv_r in H as [->|(c & Hxc & Hc)]; [by left|]. right. exists c.
    split; [by apply (child_of_iff p pe)|done].
  - intros [->|(c & Hc & Hxc)]; [done|]. eapply rtc_r; [done|]. by apply (child_of_iff p pe).
Qed.

Lemma under_known x a : under st x a -> is_Some (nodes st !! a) -> is_Some (nodes st !! x).
Proof. intros H Ha. inversion H as [|? y ? (e & He & _) _]; subst; [done|by eexists]. Qed.

(** Lists of the subtrees of disjoint nodes, one after the other. *)
Lemma concat_subtrees (cs : list string) (ls : list (list string)) :
  NoDup cs -> (forall x c d, c ∈ cs -> d ∈ cs -> under st x c -> under st x d -> c = d) ->
  Forall2 (fun c l => NoDup l /\ forall x, x ∈ l <-> under st x c) cs ls ->
  NoDup (concat ls) /\ forall x, x ∈ concat ls <-> exists c, c ∈ cs /\ under st x c.
Proof.
  intros Hn Hd H. induction H as [|c l cs ls [Hl Hx] H IH]; cbn.
  { split; [constructor|]. set_solver. }
  apply NoDup_cons in Hn as [Hc Hn].
  destruct IH as [IHn IHx]; [done|intros; eapply Hd; [by apply list_elem_of_further..|done|done]|]. split.
  - apply NoDup_app. split; [done|]. split; [|done]. intros x Hxl Hxc. apply Hx in Hxl. apply IHx in Hxc as (d & Hdc & Hxd).
    apply Hc. rewrite (Hd x c d); [done|apply list_elem_of_here|by apply list_elem_of_further|done|done].
  - intros x. rewrite elem_of_app, Hx, IHx. set_solver.
Qed.

(** Fuel for the levels below a node. *)
Definition levels (n : string) : nat := Z.to_nat (MAX_SESSION_TREE_DEPTH - depth_of st n).

Lemma levels_child c p fuel : child_of st c p -> (levels p < S fuel)%nat -> (levels c < fuel)%nat.
Proof.
  intros Hc Hl. pose proof (depth_child _ _ Hc) as Hd. apply child_of_lookup in Hc as (e & pe & He & _ & Hpe & _).
  pose proof (fo_depth _ Hf _ _ He). pose proof (fo_depth _ Hf _ _ Hpe). unfold levels, depth_of in *.
  rewrite He, Hpe in *. cbn in *. lia.
Qed.

(** Nodes of different subtrees are not parent and child. *)
Lemma concat_ordered (R : string -> string -> Prop) (cs : list string) (ls : list (list string)) :
  (forall x y, ~ child_of st x y -> ~ child_of st y x -> R x y) ->
  NoDup cs -> (forall x c d, c ∈ cs -> d ∈ cs -> under st x c -> under st x d -> c = d) ->
  Forall2 (fun c l => StronglySorted R l /\ forall x, x ∈ l -> under st x c) cs ls -> StronglySorted R (concat ls).
Proof.
  intros HR Hn Hd H. induction H as [|c l cs ls [Hl Hx] H IH]; cbn; [constructor|].
  apply NoDup_cons in Hn as [Hc Hn]. apply StronglySorted_app_2; [|done|].
  - intros x y Hxl Hy. apply Hx in Hxl. apply list_elem_of_In, in_concat in Hy as (l' & Hl' & Hy).
    apply list_elem_of_In, list_elem_of_lookup in Hl' as [i Hi]. apply list_elem_of_In in Hy.
    destruct (Forall2_lookup_r _ _ _ _ _ H Hi) as (d & Hdi & _ & Hdx). apply Hdx in Hy.
    apply list_elem_of_lookup_2 in Hdi.
    assert (Hcd : c <> d) by (by intros ->).
    apply HR; intros Hxy; apply Hcd.
    + apply (Hd x); [apply list_elem_of_here|by apply list_elem_of_further|done|by eapply rtc_l].
    + apply (Hd y); [apply list_elem_of_here|by apply list_elem_of_further|by eapply rtc_l|done].
  - apply IH; [done|]. intros x c' d' ? ?. by apply Hd; apply list_elem_of_further.
Qed.
End Forest.

(** Collecting the lists of all children. *)
Lemma mapM_total {A B} (f : A -> option B) (P : A -> B -> Prop) (l : list A) :
  (forall x, x ∈ l -> exists y, f x = Some y /\ P x y) -> exists k, mapM f l = Some k /\ Forall2 P l k.
Proof.
  intros H. induction l as [|x l IH]; [by exists []|].
  destruct (H x) as (y & Hy & Py); [apply list_elem_of_here|].
  destruct IH as (k & Hk & Pk); [intros; apply H; by apply list_elem_of_further|].
  exists (y :: k). cbn. rewrite Hy. cbn. rewrite Hk. split; [done|by constructor].
Qed.

Definition deepest_first (st : NodeRuntimeStore) (x y : string) : Prop := ~ child_of st y x.
Definition parent_first (st : NodeRuntimeStore) (x y : string) : Prop := ~ child_of st x y.

Lemma children_disjoint st p pe x c d :
  forest_ok st -> nodes st !! p = Some pe -> c ∈ nr_children_ids pe -> d ∈ nr_children_ids pe ->
  under st x c -> under st x d -> c = d.
Proof. intros Hf Hp Hc Hd. apply (siblings_disjoint st Hf x p); by apply (fo_child _ Hf p pe). Qed.

Lemma child_below st x c p : forest_ok st -> child_of st c p -> under st x c -> x <> p /\ ~ child_of st p x.
Proof.
  intros Hf Hc Hx. pose proof (depth_child st Hf _ _ Hc) as Hd. apply (depth_under st Hf) in Hx. split.
  - intros ->. destruct Hx as [->|]; lia.
  - intros Hp. apply (depth_child st Hf) in Hp. destruct Hx as [->|]; lia.
Qed.

(** [l] is the subtree of [c], each node once, in an order. *)
Definition lists_subtree (st : NodeRuntimeStore) (R : string -> string -> Prop) (c : string) (l : list string) : Prop :=
  NoDup l /\ (forall x, x ∈ l <-> under st x c) /\ StronglySorted R l.

Lemma concat_lists st R cs ls :
  forest_ok st -> (forall x y, ~ child_of st x y -> ~ child_of st y x -> R x y) ->
  NoDup cs -> (forall x c d, c ∈ cs -> d ∈ cs -> under st x c -> under st x d -> c = d) ->
  Forall2 (lists_subtree st R) cs ls ->
  NoDup (concat ls) /\ (forall x, x ∈ concat ls <-> exists c, c ∈ cs /\ under st x c) /\ StronglySorted R (concat ls).
Proof.
  intros Hf HR Hn Hd H. destruct (concat_subtrees st Hf cs ls) as [H1 H2]; [done..| |].
  { eapply Forall2_impl; [done|]. by intros c l (? & ? & _). }
  split_and!; [done..|]. apply (concat_ordered st _ cs); [done..|].
  eapply Forall2_impl; [done|]. intros c l (_ & Hx & Hs). split; [done|]. intros x. by rewrite Hx.
Qed.

(** The subtree of a node: every node below it once, children first. *)
Lemma postorder_spec st fuel n :
  forest_ok st -> is_Some (nodes st !! n) -> (levels st n < fuel)%nat ->
  exists l, postorder_collect fuel st n = Some l /\ lists_subtree st (deepest_first st) n l.
Proof.
  intros Hf. revert n. induction fuel as [|fuel IH]; intros n [e He] Hl; [lia|]. cbn. rewrite He. cbn.
  destruct (mapM_total (postorder_collect fuel st) (lists_subtree st (deepest_first st)) (nr_children_ids e)) as (ls & -> & Hls).
  { intros c Hc. apply (child_of_iff st Hf n e c He) in Hc.
    apply IH; [by destruct Hc as (ce & ? & _); eexists|by eapply levels_child]. }
  destruct (concat_lists st (deepest_first st) (nr_children_ids e) ls) as (Hn & Hx & Hs);
    [done|by unfold deepest_first|by eapply fo_nodup|intros ???; by eapply children_disjoint|done|].
  assert (Hbelow : forall x, x ∈ concat ls -> x <> n /\ ~ child_of st n x).
  { intros x (c & Hc & Hxc)%Hx. eapply child_below; [done| |done]. by apply (child_of_iff st Hf n e). }
  exists (concat ls ++ [n]). split; [done|]. split_and!.
  - apply NoDup_app. split; [done|]. split; [|by apply NoDup_singleton].
    intros x Hin ->%list_elem_of_singleton. by destruct (Hbelow n Hin).
  - intros x. rewrite elem_of_app, list_elem_of_singleton, Hx, (under_split st Hf x n e He). tauto.
  - apply StronglySorted_app_2; [|done|repeat constructor].
    intros x y Hin ->%list_elem_of_singleton. by apply Hbelow.
Qed.

(** Each line of the flat view shows its node. *)
Definition shows_nodes (st : NodeRuntimeStore) : list FlatNode -> Prop :=
  Forall (fun f => exists e, nodes st !! fn_id f = Some e /\ f = flat_node st (fn_id f) e).
Definition flat_subtree (st : NodeRuntimeStore) (c : string) (l : list FlatNode) : Prop :=
  shows_nodes st l /\ lists_subtree st (parent_first st) c (map fn_id l).

Lemma concat_flat st cs ls :
  forest_ok st -> NoDup cs -> (forall x c d, c ∈ cs -> d ∈ cs -> under st x c -> under st x d -> c = d) ->
  Forall2 (flat_subtree st) cs ls ->
  shows_nodes st (concat ls) /\ NoDup (map fn_id (concat ls))
  /\ (forall x, x ∈ map fn_id (concat ls) <-> exists c, c ∈ cs /\ under st x c)
  /\ StronglySorted (parent_first st) (map fn_id (concat ls)).
Proof.
  intros Hf Hn Hd H. rewrite concat_map. split.
  - apply Forall_concat. clear -H. induction H as [|c l cs ls [? _]]; by constructor.
  - apply concat_lists; [done|by unfold parent_first|done..|]. apply Forall2_fmap_r.
    eapply Forall2_impl; [done|]. by intros c l [_ ?].
Qed.

Lemma flatten_collect_spec st fuel n e :
  forest_ok st -> nodes st !! n = Some e -> (levels st n < fuel)%nat ->
  exists l, flatten_collect fuel st n = Some l /\ flat_subtree st n l.
Proof.
  intros Hf. revert n e. induction fuel as [|fuel IH]; intros n e He Hl; [lia|]. cbn. rewrite He.
  destruct (mapM_total (flatten_collect fuel st) (flat_subtree st) (nr_children_ids e)) as (ls & -> & Hls).
  { intros c Hc. apply (child_of_iff st Hf n e c He) in Hc. pose proof Hc as (ce & Hce & _).
    eapply IH; [done|by eapply levels_child]. }
  destruct (concat_flat st (nr_children_ids e) ls) as (Hsh & Hn & Hx & Hs);
    [done|by eapply fo_nodup|intros ???; by eapply children_disjoint|done|].
  assert (Hbelow : forall x, x ∈ map fn_id (concat ls) -> x <> n /\ ~ child_of st n x).
  { intros x (c & Hc & Hxc)%Hx. eapply child_below; [done| |done]. by apply (child_of_iff st Hf n e). }
  eexists. split; [done|]. split; [constructor; [by exists e|done]|]. cbn. split_and!.
  - constructor; [|done]. intros Hin. by destruct (Hbelow n Hin).
  - intros x. rewrite elem_of_cons, Hx, (under_split st Hf x n e He). tauto.
  - constructor; [done|]. apply Forall_forall. intros y Hy. by apply Hbelow in Hy as [_ ?].
Qed.

(** Every node is below a root. *)
Lemma under_root st n e : forest_ok st -> nodes st !! n = Some e -> exists r, r ∈ root_ids st /\ under st n r.
Proof.
  intros Hf. assert (H : forall k n e, nodes st !! n = Some e -> nr_depth e < Z.of_nat k ->
    exists r, r ∈ root_ids st /\ under st n r).
  { clear n e. induction k as [|k IH]; intros n e He Hk; [pose proof (fo_depth _ Hf _ _ He); lia|].
    destruct (nr_parent_id e) as [p|] eqn:Hp; [|exists n; split; [by eapply fo_root|done]].
    destruct (fo_parent _ Hf _ _ _ He Hp) as (pe & Hpe & _ & Hd).
    destruct (IH p pe Hpe) as (r & Hr & Hu); [lia|]. exists r. split; [done|]. eapply rtc_l; [by exists e|done]. }
  intros He. apply (H (S (Z.to_nat (nr_depth e))) n e He). lia.
Qed.

(** The whole tree as a list: every node once, parents first. *)
Lemma flatten_spec st fuel :
  forest_ok st -> (Z.to_nat MAX_SESSION_TREE_DEPTH < fuel)%nat ->
  exists l, flatten fuel st = Some l /\ shows_nodes st l
    /\ NoDup (map fn_id l) /\ (forall x, x ∈ map fn_id l <-> is_Some (nodes st !! x))
    /\ StronglySorted (parent_first st) (map fn_id l).
Proof.
  intros Hf Hfuel. unfold flatten.
  destruct (mapM_total (flatten_collect fuel st) (flat_subtree st) (root_ids st)) as (ls & -> & Hls).
  { intros r Hr. destruct (fo_roots _ Hf _ Hr) as (e & He & Hp). eapply flatten_collect_spec; [done..|].
    destruct (fo_root _ Hf _ _ He Hp) as [_ Hd]. unfold levels, depth_of. rewrite He. cbn. rewrite Hd. lia. }
  destruct (concat_flat st (root_ids st) ls) as (Hsh & Hn & Hx & Hs);
    [done|by apply fo_nodup_roots|intros ???; by apply roots_disjoint|done|].
  exists (concat ls). split_and!; [done..| |done].
  intros x. rewrite Hx. split; [|intros [e He]; by eapply under_root].
  intros (r & Hr & Hu). eapply under_known; [done|]. destruct (fo_roots _ Hf _ Hr) as (e & He & _). by eexists.
Qed.

(** The path from the root: each node is the parent of the next. *)
Fixpoint descends (st : NodeRuntimeStore) (path : list string) : Prop :=
  match path with
  | p :: ((n :: _) as rest) => child_of st n p /\ descends st rest
  | _ => True
  end.

(** A path from a root is what [path_to_node] finds. *)
Lemma descends_snoc st l n : descends st (l ++ [n]) <-> descends st l /\ (forall p, last l = Some p -> child_of st n p).
Proof.
  induction l as [|p l IH]; [by split; [split|]|]. destruct l as [|q l].
  - cbn. split; [intros [? _]; split; [done|by intros ? [= <-]]|]. intros [_ H]. split; [by apply H|done].
  - change (child_of st q p /\ descends st ((q :: l) ++ [n]) <-> (child_of st q p /\ descends st (q :: l)) /\
      (forall p0, last (q :: l) = Some p0 -> child_of st n p0)). rewrite IH. tauto.
Qed.

Lemma path_loop_descends st l n r re fuel acc :
  descends st l -> last l = Some n -> head l = Some r -> nodes st !! r = Some re -> nr_parent_id re = None ->
  (length l < fuel)%nat -> path_loop fuel st (Some n) acc = Some (Ok (l ++ reverse acc)).
Proof.
  intros Hd Hl Hr Hre Hp. revert n Hl fuel acc. induction l as [|x l IH] using rev_ind; intros n Hl fuel acc Hfuel; [done|].
  rewrite last_snoc in Hl. injection Hl as <-. rewrite length_app in Hfuel. cbn in Hfuel.
  destruct fuel as [|fuel]; [lia|]. cbn [path_loop]. apply descends_snoc in Hd as [Hd Hc].
  destruct l as [|y l'].
  - cbn in Hr. injection Hr as ->. rewrite Hre, Hp. destruct fuel; [cbn in Hfuel; lia|]. cbn. by rewrite reverse_snoc.
  - destruct (last (y :: l')) as [p|] eqn:Hlast; [|by apply last_None in Hlast].
    destruct (Hc p eq_refl) as (e & He & Hpe). rewrite He, Hpe. change (head (y :: l') = Some r) in Hr.
    rewrite (IH Hd Hr p eq_refl fuel (acc ++ [x])) by lia. by rewrite reverse_snoc, <-app_assoc.
Qed.

Lemma path_to_node_descends st l n r re fuel :
  descends st l -> last l = Some n -> head l = Some r -> nodes st !! r = Some re -> nr_parent_id re = None ->
  (length l < fuel)%nat -> path_to_node fuel n st = Some (Ok l).
Proof. intros. unfold path_to_node. erewrite path_loop_descends by done. by rewrite app_nil_r. Qed.

(** In a forest every node has its path. *)
Lemma path_exists st n e :
  forest_ok st -> nodes st !! n = Some e ->
  exists l r re, descends st l /\ last l = Some n /\ head l = Some r /\ nodes st !! r = Some re /\ nr_parent_id re = None
    /\ zlen l = nr_depth e + 1.
Proof.
  intros Hf. assert (H : forall k n e, nodes st !! n = Some e -> nr_depth e < Z.of_nat k ->
    exists l r re, descends st l /\ last l = Some n /\ head l = Some r /\ nodes st !! r = Some re /\ nr_parent_id re = None
      /\ zlen l = nr_depth e + 1).
  { clear n e. induction k as [|k IH]; intros n e He Hk; [pose proof (fo_depth _ Hf _ _ He); lia|].
    destruct (nr_parent_id e) as [p|] eqn:Hp.
    - destruct (fo_parent _ Hf _ _ _ He Hp) as (pe & Hpe & _ & Hd).
      destruct (IH p pe Hpe) as (l & r & re & Hdl & Hl & Hr & Hre & Hrp & Hlen); [lia|].
      exists (l ++ [n]), r, re. split_and!; [|by rewrite last_snoc| |done|done|by rewrite zlen_app, Hlen, Hd].
      + apply descends_snoc. split; [done|]. intros q Hq. exists e. split; [done|congruence].
      + by destruct l.
    - exists [n], n, e. destruct (fo_root _ Hf _ _ He Hp) as [_ ->]. by split_and!. }
  intros He. apply (H (S (Z.to_nat (nr_depth e))) n e He). lia.
Qed.

(** The walk upwards from a node finds its ancestors. *)
Lemma descendant_spec st fuel n e a :
  forest_ok st -> nodes st !! n = Some e -> (Z.to_nat (nr_depth e) + 1 < fuel)%nat ->
  exists b, node_is_descendant_or_same fuel n a st = Some b /\ (b = true <-> under st n a).
Proof.
  intros Hf. unfold node_is_descendant_or_same. revert n e. induction fuel as [|fuel IH]; intros n e He Hk; [lia|].
  cbn. case_bool_decide as Hna; [subst; by exists true|]. rewrite He. cbn.
  destruct (nr_parent_id e) as [p|] eqn:Hp.
  - destruct (fo_parent _ Hf _ _ _ He Hp) as (pe & Hpe & _ & Hd). pose proof (fo_depth _ Hf _ _ Hpe).
    destruct (IH p pe Hpe) as (b & Hb & Hbu); [lia|]. exists b. split; [done|]. rewrite Hbu.
    split; [intros Hu; eapply rtc_l; [by exists e|done]|]. intros Hu.
    inversion Hu as [|? q ? (e' & He' & Hq) Hqa]; subst; [done|]. by replace p with q by congruence.
  - destruct fuel as [|fuel]; [lia|]. exists false. cbn. split; [done|]. split; [done|].
    intros Hu. inversion Hu as [|? q ? (e' & He' & Hq) Hqa]; subst; congruence.
Qed.

(** *** Sorting *)

Lemma StronglySorted_impl_in {A} (R R' : relation A) l :
  StronglySorted R l -> (forall x y, x ∈ l -> y ∈ l -> R x y -> R' x y) -> StronglySorted R' l.
Proof.
  induction 1 as [|x l Hl IH Hx]; intros H; [constructor|]. apply StronglySorted_cons. rewrite Forall_forall in Hx |- *.
  split; [intros y Hy; apply H; [set_solver..|by apply Hx]|]. apply IH. set_solver.
Qed.

(** *** The topmost of some nodes *)

Definition antichain (st : NodeRuntimeStore) (l : list string) : Prop :=
  NoDup l /\ forall r s, r ∈ l -> s ∈ l -> under st r s -> r = s.

Lemma any_ancestor_spec st fuel n e roots :
  forest_ok st -> nodes st !! n = Some e -> (Z.to_nat MAX_SESSION_TREE_DEPTH + 1 < fuel)%nat ->
  exists b, any_ancestor fuel n roots st = Some b /\ (b = true <-> exists r, r ∈ roots /\ under st n r).
Proof.
  intros Hf He Hfuel. induction roots as [|r roots IH]; [exists false; set_solver|]. cbn.
  pose proof (fo_depth _ Hf _ _ He).
  destruct (descendant_spec st fuel n e r Hf He) as (b & -> & Hb); [lia|]. destruct b.
  - exists true. split; [done|]. split; [|done]. intros _. exists r. split; [apply list_elem_of_here|by apply Hb].
  - destruct IH as (b & Hb' & Hiff). exists b. split; [done|]. rewrite Hiff.
    split; [intros (s & ? & ?); exists s; by split; [apply list_elem_of_further|]|].
    intros (s & [->|Hs]%elem_of_cons & Hu); [by apply Hb in Hu|]. eauto.
Qed.

Lemma subtree_roots_spec st fuel candidates roots :
  forest_ok st -> (Z.to_nat MAX_SESSION_TREE_DEPTH + 1 < fuel)%nat -> antichain st roots ->
  (forall c, c ∈ candidates -> is_Some (nodes st !! c)) ->
  StronglySorted (fun a b => depth_of st a <= depth_of st b) candidates ->
  (forall r c, r ∈ roots -> c ∈ candidates -> depth_of st r <= depth_of st c) ->
  exists out, subtree_roots_loop fuel st candidates roots = Some out /\ antichain st out
    /\ (forall r, r ∈ out -> r ∈ roots \/ r ∈ candidates) /\ (forall r, r ∈ roots -> r ∈ out)
    /\ (forall c, c ∈ candidates -> exists r, r ∈ out /\ under st c r).
Proof.
  intros Hf Hfuel. revert roots. induction candidates as [|c cs IH]; intros roots Ha Hk Hs Hd.
  { exists roots. split_and!; [done|done|by left|done|]. set_solver. }
  apply StronglySorted_cons in Hs as [Hc Hs]. rewrite Forall_forall in Hc. cbn.
  destruct (Hk c (list_elem_of_here _ _)) as [e He].
  destruct (any_ancestor_spec st fuel c e roots Hf He Hfuel) as (b & -> & Hb). destruct b.
  - destruct (IH roots Ha) as (out & -> & Ho & Hin & Hkeep & Hcov); [set_solver..|]. exists out. split_and!; [done|done| |done|].
    + intros r Hr. apply Hin in Hr. set_solver.
    + intros x [->|Hx]%elem_of_cons; [|by apply Hcov]. destruct Hb as [Hb _]. destruct (Hb eq_refl) as (r & Hr & Hu). eauto.
  - assert (Hno : forall r, r ∈ roots -> ~ under st c r) by (intros r Hr Hu; enough (false = true) by done; apply Hb; by exists r).
    assert (Hup : forall r, r ∈ roots -> ~ under st r c).
    { intros r Hr Hu. apply (depth_under st Hf) in Hu as [->|Hu]; [by apply (Hno c)|].
      specialize (Hd r c Hr (list_elem_of_here _ _)). lia. }
    destruct (IH (roots ++ [c])) as (out & -> & Ho & Hin & Hkeep & Hcov).
    + destruct Ha as [Hn Ha]. split.
      * apply NoDup_app. split_and!; [done| |by apply NoDup_singleton]. intros x Hx ->%list_elem_of_singleton. by apply (Hno c).
      * intros r s. rewrite !elem_of_app, !list_elem_of_singleton. intros [Hr| ->] [Hs'| ->] Hu; [by apply Ha|..|done];
          exfalso; [by eapply Hup|by eapply Hno].
    + set_solver.
    + done.
    + intros r x. rewrite elem_of_app, list_elem_of_singleton. intros [Hr| ->] Hx; [|by apply Hc].
      apply Hd; [done|by apply list_elem_of_further].
    + exists out. split_and!; [done|done| | |].
      * intros r Hr. apply Hin in Hr. set_solver.
      * set_solver.
      * intros x [->|Hx]%elem_of_cons; [|by apply Hcov]. exists c. split; [set_solver|done].
Qed.

Lemma minimal_subtree_roots_spec st fuel candidates :
  forest_ok st -> (Z.to_nat MAX_SESSION_TREE_DEPTH + 1 < fuel)%nat ->
  exists out, minimal_subtree_roots fuel candidates st = Some out /\ antichain st out
    /\ (forall r, r ∈ out -> r ∈ candidates /\ is_Some (nodes st !! r))
    /\ (forall c, c ∈ candidates -> is_Some (nodes st !! c) -> exists r, r ∈ out /\ under st c r).
Proof.
  intros Hf Hfuel. unfold minimal_subtree_roots.
  set (known := List.filter _ candidates). set (sorted := sort_by _ known).
  assert (Hk : forall c, c ∈ sorted <-> c ∈ candidates /\ is_Some (nodes st !! c)).
  { intros c. unfold sorted. rewrite sort_by_perm. unfold known. rewrite list_elem_of_In, filter_In, <-list_elem_of_In.
    by rewrite bool_decide_eq_true. }
  assert (Hs : StronglySorted (fun a b => depth_of st a <= depth_of st b) (sort_by
    (fun a b => depth_key_le (depth_key st a) (depth_key st b)) known)).
  { apply (StronglySorted_impl_in (fun a b => (depth_key st a).1 <= (depth_key st b).1)).
    - apply sort_by_sorted; [intros ???; lia|..]; intros x y; unfold depth_key_le.
      + rewrite orb_true_iff, andb_true_iff, Z.ltb_lt, Z.eqb_eq. lia.
      + rewrite orb_false_iff, Z.ltb_ge. lia.
    - intros x y Hx Hy. change (x ∈ sorted) in Hx. change (y ∈ sorted) in Hy.
      apply Hk in Hx as [_ [ex Hx]]. apply Hk in Hy as [_ [ey Hy]]. unfold depth_key, depth_of. by rewrite Hx, Hy. }
  destruct (subtree_roots_spec st fuel sorted []) as (out & Hout & Ha & Hin & _ & Hcov); [done..| | |done|set_solver|].
  { split; [constructor|set_solver]. }
  { intros c Hc. by apply Hk. }
  exists out. split_and!; [done..| |].
  - intros r Hr. apply Hk. destruct (Hin r Hr) as [H|H]; [set_solver|done].
  - intros c Hc Hs'. apply Hcov. by apply Hk.
Qed.

(** ** New nodes *)

Lemma filter_all {A} (p : A -> bool) l : (forall x, x ∈ l -> p x = true) -> List.filter p l = l.
Proof.
  induction l as [|x l IH]; intros H; [done|]. cbn. rewrite (H x) by apply list_elem_of_here.
  f_equal. apply IH. intros y Hy. apply H. by apply list_elem_of_further.
Qed.
Lemma filter_elem {A} (p : A -> bool) l x : x ∈ List.filter p l <-> x ∈ l /\ p x = true.
Proof. by rewrite !list_elem_of_In, filter_In. Qed.
Lemma NoDup_filter_bool {A} (p : A -> bool) l : NoDup l -> NoDup (List.filter p l).
Proof. rewrite !NoDup_ListNoDup. apply List.NoDup_filter. Qed.

Lemma fresh_not_child st p pe n : forest_ok st -> nodes st !! n = None -> nodes st !! p = Some pe -> n ∉ nr_children_ids pe.
Proof. intros Hf Hn Hp Hin. destruct (fo_child _ Hf _ _ _ Hp Hin) as (e & He & _). congruence. Qed.
Lemma fresh_not_root st n : forest_ok st -> nodes st !! n = None -> n ∉ root_ids st.
Proof. intros Hf Hn Hin. destruct (fo_roots _ Hf _ Hin) as (e & He & _). congruence. Qed.

Lemma fresh_index st n e st' :
  bindings_ok st -> nodes st !! n = None -> ws_endpoint (nr_state e) = None ->
  (forall x, x <> n -> match nodes st !! x with
                       | Some ex => exists ex', nodes st' !! x = Some ex' /\ nr_connection_id ex' = nr_connection_id ex
                                                /\ nr_state ex' = nr_state ex
                       | None => nodes st' !! x = None
                       end) ->
  nodes st' !! n = Some e -> node_index st' = node_index st -> bindings_ok st'.
Proof.
  intros [Hi Hw] Hn He Hx Hn' Hidx. constructor.
  - intros c x. rewrite Hidx. intros Hc. apply Hi in Hc. unfold connection_id_for_node in *.
    destruct (nodes st !! x) as [ex|] eqn:Hsx; [|done]. specialize (Hx x ltac:(congruence)). rewrite Hsx in Hx.
    destruct Hx as (ex' & -> & Hcc & _). cbn in *. congruence.
  - intros x ex Hex. destruct (decide (x = n)) as [->|Hne]; [congruence|]. specialize (Hx x Hne).
    destruct (nodes st !! x) as [e0|] eqn:Hsx; [|congruence]. destruct Hx as (ex' & Hex' & _ & Hst).
    replace ex with ex' by congruence. rewrite Hst. by eapply Hw.
Qed.

Lemma tree_ok_upsert_node now n c o st : tree_ok st -> tree_ok (upsert_node_with_origin now n c o st).
Proof.
  intros [Hf Hb]. unfold upsert_node_with_origin. destruct (nodes st !! n) as [e|] eqn:He.
  { apply (tree_ok_update st n e); [done|done|done|done|]. cbn. by eapply (bo_ws _ Hb). }
  cbn. rewrite bool_decide_eq_false_2 by (by apply fresh_not_root). split.
  - constructor; cbn.
    + intros x ex p. rewrite lookup_insert_Some. intros [[<- <-]|[Hne Hx]] Hp; [done|].
      destruct (fo_parent _ Hf _ _ _ Hx Hp) as (pe & Hpe & H). exists pe. by rewrite lookup_insert_ne by congruence.
    + intros x ex. rewrite lookup_insert_Some, elem_of_app, list_elem_of_singleton. intros [[<- <-]|[Hne Hx]] Hp; [auto|].
      destruct (fo_root _ Hf _ _ Hx Hp). auto.
    + intros p pe x. rewrite lookup_insert_Some. intros [[<- <-]|[Hne Hx]] Hp; [set_solver|].
      destruct (fo_child _ Hf _ _ _ Hx Hp) as (ex & Hex & H). exists ex. cbn. by rewrite lookup_insert_ne by congruence.
    + intros x. rewrite elem_of_app, list_elem_of_singleton. intros [Hx| ->].
      * destruct (fo_roots _ Hf _ Hx) as (ex & Hex & H). exists ex. by rewrite lookup_insert_ne by congruence.
      * eexists. by rewrite lookup_insert_eq.
    + intros p pe. rewrite lookup_insert_Some. intros [[<- <-]|[Hne Hx]]; [constructor|by eapply fo_nodup].
    + apply NoDup_app. split_and!; [by apply fo_nodup_roots| |by apply NoDup_singleton].
      intros x Hx ->%list_elem_of_singleton. by eapply fresh_not_root.
    + intros x ex. rewrite lookup_insert_Some. intros [[<- <-]|[Hne Hx]]; [done|by eapply fo_depth].
  - apply (fresh_index st n (fresh_entry c None 0 o now)); [done..| |cbn; by rewrite lookup_insert_eq|done].
    intros x Hne. cbn. rewrite lookup_insert_ne by done. destruct (nodes st !! x); [eauto|done].
Qed.

(** The store after a new child was added below a known node. *)
Definition with_new_child (now : Z) (p n : string) (c : SshConfig) (o : NodeOrigin) (pe : NodeRuntimeEntry)
    (st : NodeRuntimeStore) : NodeRuntimeStore :=
  set_nodes (<[n := fresh_entry c (Some p) (nr_depth pe + 1) o now]>
    (<[p := bump (set_children (nr_children_ids pe ++ [n]) pe)]> (nodes st))) st.

Lemma upsert_new_child now p n c o pe st :
  forest_ok st -> nodes st !! p = Some pe -> nodes st !! n = None ->
  upsert_child_node_with_origin now p n c o st = Some (Ok tt, with_new_child now p n c o pe st).
Proof.
  intros Hf Hp Hn. unfold upsert_child_node_with_origin, bind, update_node, modify. rewrite Hp. cbn.
  unfold add_child. rewrite bool_decide_eq_false_2 by (by eapply fresh_not_child). cbn.
  rewrite lookup_insert_ne by congruence. rewrite Hn. unfold set_roots, set_nodes, with_new_child, set_nodes. cbn.
  rewrite filter_all; [done|]. intros x Hx. rewrite bool_decide_eq_false_2; [done|]. intros ->. by eapply fresh_not_root.
Qed.

Lemma forest_ok_new_child now p n c o pe st :
  forest_ok st -> nodes st !! p = Some pe -> nodes st !! n = None -> nr_depth pe < MAX_SESSION_TREE_DEPTH ->
  forest_ok (with_new_child now p n c o pe st).
Proof.
  intros Hf Hp Hn Hd. set (st' := with_new_child now p n c o pe st).
  assert (Hnp : n <> p) by congruence. pose proof (fo_depth _ Hf _ _ Hp) as Hd0.
  assert (Hl : forall x, nodes st' !! x = if bool_decide (x = n) then Some (fresh_entry c (Some p) (nr_depth pe + 1) o now)
    else if bool_decide (x = p) then Some (bump (set_children (nr_children_ids pe ++ [n]) pe)) else nodes st !! x).
  { intros x. cbn. case_bool_decide as H1; [by rewrite H1, lookup_insert_eq|]. rewrite lookup_insert_ne by done.
    case_bool_decide as H2; [by rewrite H2, lookup_insert_eq|]. by rewrite lookup_insert_ne. }
  (* Every old node keeps its parent and depth, and its children up to the new one. *)
  assert (Hto : forall x e, nodes st !! x = Some e -> exists e', nodes st' !! x = Some e' /\ nr_parent_id e' = nr_parent_id e
    /\ nr_depth e' = nr_depth e /\ forall y, y ∈ nr_children_ids e -> y ∈ nr_children_ids e').
  { intros x e Hx. rewrite Hl, bool_decide_eq_false_2 by congruence. case_bool_decide as H2; [|eauto 6].
    subst x. replace e with pe by congruence. eexists. split; [done|]. cbn. set_solver. }
  assert (Hfrom : forall x e', nodes st' !! x = Some e' -> x <> n -> exists e, nodes st !! x = Some e
    /\ nr_parent_id e' = nr_parent_id e /\ nr_depth e' = nr_depth e
    /\ (nr_children_ids e' = nr_children_ids e \/ x = p /\ nr_children_ids e' = nr_children_ids e ++ [n])).
  { intros x e' Hx Hne. rewrite Hl, bool_decide_eq_false_2 in Hx by done. case_bool_decide as H2; [|eauto 6].
    subst x. exists pe. injection Hx as <-. cbn. split_and!; [done..|by right]. }
  assert (Hnew : nodes st' !! n = Some (fresh_entry c (Some p) (nr_depth pe + 1) o now))
    by (by rewrite Hl, bool_decide_eq_true_2).
  constructor.
  - intros x e q Hx Hq. destruct (decide (x = n)) as [->|Hne].
    + rewrite Hnew in Hx. injection Hx as <-. injection Hq as <-. exists (bump (set_children (nr_children_ids pe ++ [n]) pe)).
      split; [by rewrite Hl, bool_decide_eq_false_2, bool_decide_eq_true_2 by congruence|]. cbn. set_solver.
    + destruct (Hfrom x e Hx Hne) as (e0 & He0 & Hp0 & Hd1 & _). rewrite Hp0 in Hq.
      destruct (fo_parent _ Hf _ _ _ He0 Hq) as (qe & Hqe & Hin & Hqd).
      destruct (Hto q qe Hqe) as (qe' & Hqe' & _ & Hqd' & Hch). exists qe'. rewrite Hd1, Hqd'. auto.
  - intros x e Hx Hq. destruct (decide (x = n)) as [->|Hne]; [rewrite Hnew in Hx; by injection Hx as <-|].
    destruct (Hfrom x e Hx Hne) as (e0 & He0 & Hp0 & Hd1 & _). rewrite Hd1. apply (fo_root _ Hf x e0); [done|congruence].
  - intros q qe x Hq Hx. destruct (decide (q = n)) as [->|Hne].
    { rewrite Hnew in Hq. injection Hq as <-. set_solver. }
    assert (Hold : forall qe0, nodes st !! q = Some qe0 -> x ∈ nr_children_ids qe0 -> child_of st' x q).
    { intros qe0 Hq0 Hx0. destruct (fo_child _ Hf q qe0 x Hq0 Hx0) as (xe & Hxe & Hxq).
      destruct (Hto x xe Hxe) as (xe' & Hxe' & Hxp & _). exists xe'. split; [done|congruence]. }
    destruct (Hfrom q qe Hq Hne) as (qe0 & Hq0 & _ & _ & [Hch|[-> Hch]]); rewrite Hch in Hx; [by eapply Hold|].
    apply elem_of_app in Hx as [Hx| ->%list_elem_of_singleton]; [by eapply Hold|]. by eexists.
  - intros r Hr. destruct (fo_roots _ Hf r Hr) as (e & He & Hpe). destruct (Hto r e He) as (e' & He' & Hp' & _).
    exists e'. split; [done|congruence].
  - intros q qe Hq. destruct (decide (q = n)) as [->|Hne]; [rewrite Hnew in Hq; injection Hq as <-; constructor|].
    destruct (Hfrom q qe Hq Hne) as (qe0 & Hq0 & _ & _ & [Hch|[-> Hch]]); rewrite Hch; [by eapply fo_nodup|].
    apply NoDup_app. split_and!; [by eapply fo_nodup| |by apply NoDup_singleton].
    intros y Hy ->%list_elem_of_singleton. by eapply fresh_not_child.
  - exact (fo_nodup_roots _ Hf).
  - intros x e Hx. destruct (decide (x = n)) as [->|Hne].
    { rewrite Hnew in Hx. injection Hx as <-. cbn. lia. }
    destruct (Hfrom x e Hx Hne) as (e0 & He0 & _ & -> & _). by eapply fo_depth.
Qed.

Lemma tree_ok_new_child now p n c o pe st :
  tree_ok st -> nodes st !! p = Some pe -> nodes st !! n = None -> nr_depth pe < MAX_SESSION_TREE_DEPTH ->
  tree_ok (with_new_child now p n c o pe st).
Proof.
  intros [Hf Hb] Hp Hn Hd. split; [by apply forest_ok_new_child|].
  apply (fresh_index st n (fresh_entry c (Some p) (nr_depth pe + 1) o now)); [done..| |cbn; by rewrite lookup_insert_eq|done].
  intros x Hne. cbn. rewrite lookup_insert_ne by done. destruct (decide (x = p)) as [->|Hxp].
  - rewrite Hp. eexists. by rewrite lookup_insert_eq.
  - rewrite lookup_insert_ne by done. destruct (nodes st !! x); [eauto|done].
Qed.

(** A node given again as a child of the parent it has keeps its place. *)
Lemma upsert_same_child now p n c o e st :
  tree_ok st -> nodes st !! n = Some e -> nr_parent_id e = Some p ->
  wp (upsert_child_node_with_origin now p n c o) (fun r st' => r = Ok tt /\ tree_ok st') st.
Proof.
  intros [Hf Hb] He Hp. destruct (fo_parent _ Hf _ _ _ He Hp) as (pe & Hpe & Hin & Hd).
  unfold wp, upsert_child_node_with_origin, bind, update_node, modify. rewrite Hpe. cbn.
  unfold add_child. rewrite bool_decide_eq_true_2 by done. rewrite (insert_id (nodes st) p pe Hpe), He. cbn.
  unfold set_roots, set_nodes. cbn. rewrite filter_all.
  - split; [done|]. apply (tree_ok_update st n e); [done|done| |done|cbn; by eapply bo_ws].
    unfold shape. cbn. by rewrite Hp, Hd.
  - intros x Hx. rewrite bool_decide_eq_false_2; [done|]. intros ->.
    destruct (fo_roots _ Hf _ Hx) as (e' & He' & Hp'). congruence.
Qed.

Lemma child_of_new_child now p n c o pe st x y :
  nodes st !! p = Some pe -> nodes st !! n = None -> child_of st x y -> child_of (with_new_child now p n c o pe st) x y.
Proof.
  intros Hp Hn (e & He & Hy). unfold child_of. cbn. rewrite lookup_insert_ne by congruence.
  destruct (decide (x = p)) as [->|Hxp]; [rewrite lookup_insert_eq; eexists; split; [done|cbn; congruence]|].
  rewrite lookup_insert_ne by done. eauto.
Qed.
Lemma new_child_of now p n c o pe st : child_of (with_new_child now p n c o pe st) n p.
Proof. eexists. cbn. by rewrite lookup_insert_eq. Qed.

Lemma descends_mono st st' l : (forall x y, child_of st x y -> child_of st' x y) -> descends st l -> descends st' l.
Proof. intros H. induction l as [|x [|y l] IH]; [done..|]. intros [H1 H2]. split; [by apply H|by apply IH]. Qed.

Lemma drill_down_ok uuid t now p c st :
  tree_ok st -> nodes st !! generated_tree_node_id "drill" uuid = None ->
  wp (drill_down uuid t now p c) (fun _ st' => tree_ok st') st.
Proof.
  intros Hok Hn. unfold wp, drill_down, bind, get_node. destruct (nodes st !! p) as [pe|] eqn:Hp; [|done].
  destruct (negb (is_ready pe)); [done|]. destruct (Z.ltb_spec MAX_SESSION_TREE_DEPTH (nr_depth pe + 1)); [done|].
  rewrite (upsert_new_child now p _ c _ pe st) by (done || apply Hok). cbn. apply tree_ok_new_child; [done..|lia].
Qed.

(** *** Chains *)

Section ExpandSpec.
Context (uuid : nat -> string) (now : nat -> Z) (origin_for_hop : Z -> NodeOrigin).

Definition hop_ids (i k : nat) : list string := map (fun j => generated_tree_node_id "hop" (uuid j)) (seq i k).

(** What an expansion does to the store: known nodes stay, with their places;
    those other than [p] are not touched. *)
Definition extends (ids : list string) (p : string) (st st' : NodeRuntimeStore) : Prop :=
  tree_ok st' /\ (forall x y, child_of st x y -> child_of st' x y)
  /\ (forall x, x ∉ ids -> x <> p -> nodes st' !! x = nodes st !! x)
  /\ (forall x e, nodes st !! x = Some e -> exists e', nodes st' !! x = Some e' /\ nr_parent_id e' = nr_parent_id e
        /\ nr_depth e' = nr_depth e).

Lemma extends_new_child t p n c o pe st :
  tree_ok st -> nodes st !! p = Some pe -> nodes st !! n = None -> nr_depth pe < MAX_SESSION_TREE_DEPTH ->
  extends [n] p st (with_new_child t p n c o pe st).
Proof.
  intros Hok Hp Hn Hd. split_and!.
  - by apply tree_ok_new_child.
  - intros x y. by apply child_of_new_child.
  - intros x Hx Hxp. cbn. rewrite list_elem_of_singleton in Hx. by rewrite !lookup_insert_ne.
  - intros x e He. cbn. rewrite lookup_insert_ne by congruence. destruct (decide (x = p)) as [->|Hxp].
    + eexists. rewrite lookup_insert_eq. split; [done|]. by replace e with pe by congruence.
    + rewrite lookup_insert_ne by done. eauto.
Qed.

Lemma extends_trans ids ids' p q st st1 st2 :
  extends ids p st st1 -> q ∈ p :: ids -> extends ids' q st1 st2 -> extends (ids ++ ids') p st st2.
Proof.
  intros (_ & Hc1 & Hk1 & Hs1) Hq (Hok & Hc2 & Hk2 & Hs2). split_and!; [done|auto|..].
  - intros x Hx Hxp. rewrite elem_of_app in Hx. rewrite Hk2, Hk1; [done|tauto|done|tauto|].
    intros ->. apply elem_of_cons in Hq. tauto.
  - intros x e He. destruct (Hs1 x e He) as (e1 & He1 & H1 & H2). destruct (Hs2 x e1 He1) as (e2 & He2 & H3 & H4).
    exists e2. split_and!; [done|congruence..].
Qed.

Lemma expand_hops_ok hops i p pe path st :
  tree_ok st -> nodes st !! p = Some pe -> nr_depth pe + zlen hops < MAX_SESSION_TREE_DEPTH ->
  NoDup (hop_ids i (length hops)) -> (forall x, x ∈ hop_ids i (length hops) -> nodes st !! x = None) ->
  exists last_id st' le, expand_hops uuid now origin_for_hop i hops p path st
      = Some (Ok (last_id, path ++ hop_ids i (length hops)), st')
    /\ last (p :: hop_ids i (length hops)) = Some last_id
    /\ nodes st' !! last_id = Some le /\ nr_depth le = nr_depth pe + zlen hops
    /\ extends (hop_ids i (length hops)) p st st' /\ descends st' (p :: hop_ids i (length hops)).
Proof.
  revert i p pe path st. induction hops as [|hop hops IH]; intros i p pe path st Hok Hp Hd Hn Hfresh.
  { exists p, st, pe. cbn. rewrite app_nil_r, Z.add_0_r. unfold extends. split_and!; eauto. }
  set (n := generated_tree_node_id "hop" (uuid i)) in *.
  change (hop_ids i (length (hop :: hops))) with (n :: hop_ids (S i) (length hops)) in *.
  apply NoDup_cons in Hn as [Hni Hn]. rewrite zlen_cons in Hd. pose proof (zlen_nonneg hops).
  assert (Hnn : nodes st !! n = None) by (apply Hfresh; apply list_elem_of_here).
  cbn [expand_hops]. unfold bind. fold n. rewrite (upsert_new_child _ p n hop _ pe st) by (done || apply Hok).
  set (st1 := with_new_child _ p n hop _ pe st).
  assert (He : extends [n] p st st1) by (apply extends_new_child; [done..|lia]).
  destruct (IH (S i) n (fresh_entry hop (Some p) (nr_depth pe + 1) (origin_for_hop (Z.of_nat i)) (now i)) (path ++ [n]) st1)
    as (l & st' & le & Hrun & Hlast & Hle & Hdep & Hext & Hdesc).
  - apply He.
  - unfold st1. cbn. by rewrite lookup_insert_eq.
  - cbn. lia.
  - done.
  - intros x Hx. destruct He as (_ & _ & Hk & _). rewrite Hk; [apply Hfresh; by apply list_elem_of_further|by intros ->%list_elem_of_singleton|].
    intros ->. rewrite (Hfresh p) in Hp; [done|by apply list_elem_of_further].
  - exists l, st', le. rewrite Hrun, <-app_assoc. split_and!; [done|done|done|cbn in Hdep; rewrite zlen_cons; lia|..].
    + by apply (extends_trans [n] _ p n st st1); [|apply list_elem_of_further, list_elem_of_here|].
    + split; [|done]. destruct Hext as (_ & Hc & _). apply Hc. apply new_child_of.
Qed.

(** The hops and the target below a known node. *)
Lemma expand_chain_ok hops target target_id o i p pe path st :
  tree_ok st -> nodes st !! p = Some pe -> nr_depth pe + zlen hops < MAX_SESSION_TREE_DEPTH ->
  NoDup (hop_ids i (length hops) ++ [target_id]) ->
  (forall x, x ∈ hop_ids i (length hops) ++ [target_id] -> nodes st !! x = None) ->
  exists last_id st1 st', expand_hops uuid now origin_for_hop i hops p path st
      = Some (Ok (last_id, path ++ hop_ids i (length hops)), st1)
    /\ upsert_child_node_with_origin (now (length hops + i)%nat) last_id target_id target o st1 = Some (Ok tt, st')
    /\ extends (hop_ids i (length hops) ++ [target_id]) p st st'
    /\ descends st' (p :: hop_ids i (length hops) ++ [target_id]).
Proof.
  intros Hok Hp Hd (Hn & Hdis & _)%NoDup_app Hfresh.
  destruct (expand_hops_ok hops i p pe path st) as (l & st1 & le & Hrun & Hlast & Hle & Hdep & Hext & Hdesc); [done..| |].
  { intros x Hx. apply Hfresh. rewrite elem_of_app. by left. }
  assert (Ht : nodes st1 !! target_id = None).
  { destruct Hext as (_ & _ & Hk & _).
    assert (Hts : nodes st !! target_id = None) by (apply Hfresh; rewrite elem_of_app, list_elem_of_singleton; by right).
    rewrite Hk; [done| |congruence]. intros Hin. by apply (Hdis _ Hin), list_elem_of_singleton. }
  pose proof (proj1 Hext) as Hok1.
  assert (Hext' := extends_new_child (now (length hops + i)) l target_id target o le st1 Hok1 Hle Ht ltac:(lia)).
  exists l, st1. eexists. split; [done|]. split; [apply upsert_new_child; [apply Hok1|done..]|]. split.
  - eapply extends_trans; [done| |done]. by apply last_Some_elem_of.
  - change (p :: hop_ids i (length hops) ++ [target_id]) with ((p :: hop_ids i (length hops)) ++ [target_id]).
    apply descends_snoc. split; [eapply descends_mono; [apply Hext'|done]|].
    intros q Hq. replace q with l by congruence. apply new_child_of.
Qed.
End ExpandSpec.

(** The ids that an expansion makes. *)
Definition preset_ids (uuid : nat -> string) (hops : nat) : list string :=
  match hops with
  | O => [generated_tree_node_id "direct" (uuid 0%nat)]
  | S _ => hop_ids uuid 0 hops ++ [generated_tree_node_id "target" (uuid hops)]
  end.

Lemma hop_count_small hops : zlen hops < 2 ^ 32 - 1 -> hop_count hops = zlen hops + 1.
Proof.
  intros H. pose proof (zlen_nonneg hops). unfold hop_count. rewrite (wrap_small 32 (zlen hops)) by (unfold in_width; lia).
  apply wrap_small. unfold in_width. lia.
Qed.

Lemma upsert_new_root now n c o st :
  forest_ok st -> nodes st !! n = None ->
  upsert_node_with_origin now n c o st
  = mkStore (<[n := fresh_entry c None 0 o now]> (nodes st)) (root_ids st ++ [n]) (node_index st).
Proof.
  intros Hf Hn. unfold upsert_node_with_origin. rewrite Hn. cbn.
  by rewrite bool_decide_eq_false_2 by (by apply fresh_not_root).
Qed.

(** Adding a root touches nothing else. *)
Lemma extends_new_root now n c o st :
  tree_ok st -> nodes st !! n = None -> extends [n] n st (upsert_node_with_origin now n c o st).
Proof.
  intros Hok Hn. pose proof (tree_ok_upsert_node now n c o st Hok) as Hok'.
  rewrite upsert_new_root in * by (done || apply Hok). split_and!; [done|..].
  - intros x y (e & He & Hy). exists e. cbn. by rewrite lookup_insert_ne by congruence.
  - intros x _ Hx. cbn. by rewrite lookup_insert_ne.
  - intros x e He. exists e. cbn. by rewrite lookup_insert_ne by congruence.
Qed.

(** What an expansion from a saved connection gives: the ids it made, the last
    one as the target, and the path to it. *)
Definition expanded (uuid : nat -> string) (hops : list SshConfig) (above : list string) (p : string)
    (st : NodeRuntimeStore) (run : option (result RouteError NodeTreeExpansion * NodeRuntimeStore)) : Prop :=
  exists t st', run = Some (Ok (mkExpansion t (preset_ids uuid (length hops)) (zlen hops + 1)), st')
    /\ last (preset_ids uuid (length hops)) = Some t
    /\ tree_ok st' /\ (forall x, x ∉ preset_ids uuid (length hops) -> x <> p -> nodes st' !! x = nodes st !! x)
    /\ forall fuel, (length above + length hops + 1 < fuel)%nat ->
         path_to_node fuel t st' = Some (Ok (above ++ preset_ids uuid (length hops))).

Lemma preset_ids_length uuid k : length (preset_ids uuid k) = (k + 1)%nat.
Proof. destruct k; [done|]. unfold preset_ids, hop_ids. rewrite length_app, length_map, length_seq. done. Qed.

(** A list that goes on below the end of a path. *)
Lemma descends_app st l p k : descends st l -> last l = Some p -> descends st (p :: k) -> descends st (l ++ k).
Proof.
  intros Hl Hp Hk. induction k as [|n k IH] using rev_ind; [by rewrite app_nil_r|].
  rewrite app_assoc. change (descends st ((p :: k) ++ [n])) in Hk. apply descends_snoc in Hk as [Hk Hn].
  apply descends_snoc. split; [by apply IH|]. intros q Hq. apply Hn. rewrite last_app in Hq. rewrite last_cons.
  destruct (last k); [done|]. congruence.
Qed.

Lemma preset_direct uuid now saved target st :
  tree_ok st -> (forall x, x ∈ preset_ids uuid 0 -> nodes st !! x = None) ->
  expanded uuid [] [] (generated_tree_node_id "direct" (uuid 0%nat)) st (expand_manual_preset uuid now saved [] target st).
Proof.
  intros Hok Hfresh. cbn in *. set (t := generated_tree_node_id "direct" (uuid 0%nat)) in *.
  assert (Hn : nodes st !! t = None) by (apply Hfresh; apply list_elem_of_here).
  exists t, (upsert_node_with_origin (now 0%nat) t target DirectNode st).
  split_and!; [done|done|by apply tree_ok_upsert_node|..]; rewrite upsert_new_root by (done || apply Hok); cbn.
  - intros x _ Hx. by rewrite lookup_insert_ne by done.
  - intros fuel Hfuel. eapply path_to_node_descends; [done|done|done|cbn; by rewrite lookup_insert_eq|done|cbn in *; lia].
Qed.

Lemma preset_chain uuid now saved first rest target st (hops := first :: rest) :
  tree_ok st -> zlen hops < MAX_SESSION_TREE_DEPTH -> NoDup (preset_ids uuid (length hops)) ->
  (forall x, x ∈ preset_ids uuid (length hops) -> nodes st !! x = None) ->
  expanded uuid hops [] (generated_tree_node_id "hop" (uuid 0%nat)) st (expand_manual_preset uuid now saved hops target st).
Proof.
  intros Hok Hlen Hnd Hfresh. subst hops. unfold expand_manual_preset, expand_preset_chain_internal.
  set (hops := first :: rest) in *.
  pose proof (zlen_nonneg rest). unfold MAX_SESSION_TREE_DEPTH in *.
  rewrite hop_count_small by lia. destruct (Z.ltb_spec 10 (zlen hops + 1)); [lia|].
  unfold bind, modify, expanded.
  pose proof (preset_ids_length uuid (length hops)) as Hplen. set (root := generated_tree_node_id "hop" (uuid 0%nat)).
  change (preset_ids uuid (length hops)) with
    (root :: hop_ids uuid 1 (length rest) ++ [generated_tree_node_id "target" (uuid (length hops))]) in *.
  set (t := generated_tree_node_id "target" (uuid (length hops))) in *. apply NoDup_cons in Hnd as [Hroot Hnd].
  assert (Hn : nodes st !! root = None) by (apply Hfresh; apply list_elem_of_here).
  assert (He := extends_new_root (now 0%nat) root first (ManualPreset saved 0) st Hok Hn).
  set (st0 := upsert_node_with_origin _ _ _ _ st) in *.
  assert (Hr : nodes st0 !! root = Some (fresh_entry first None 0 (ManualPreset saved 0) (now 0%nat))).
  { unfold st0. rewrite upsert_new_root by (done || apply Hok). cbn. by rewrite lookup_insert_eq. }
  assert (Hlast : last (root :: hop_ids uuid 1 (length rest) ++ [t]) = Some t)
    by (rewrite app_comm_cons; by rewrite last_snoc).
  destruct (expand_chain_ok uuid now (ManualPreset saved) rest target t (ManualPreset saved (zlen hops + 1 - 1)) 1 root _ [root] st0
    (proj1 He) Hr) as (l & st1 & st' & Hrun & Hup & Hext & Hdesc).
  - cbn. unfold hops in Hlen. rewrite zlen_cons in Hlen. unfold MAX_SESSION_TREE_DEPTH. lia.
  - done.
  - intros x Hx. destruct He as (_ & _ & Hk & _). assert (x <> root) by (by intros ->).
    rewrite Hk; [apply Hfresh; by apply list_elem_of_further|by rewrite list_elem_of_singleton|done].
  - rewrite Hrun. cbn [fst snd]. rewrite Nat.add_1_r in Hup. change (S (length rest)) with (length hops) in Hup. rewrite Hup.
    exists t, st'. cbn [app]. split_and!; [done|done|apply Hext|..].
    + intros x Hx Hxr. pose proof (extends_trans [root] _ root root st st0 st' He (list_elem_of_here _ _) Hext) as (_ & _ & Hk & _).
      by apply Hk.
    + destruct Hext as (_ & _ & _ & Hs). destruct (Hs _ _ Hr) as (re & Hre & Hrp & _). intros fuel Hfuel.
      eapply path_to_node_descends; [done|done|done|done|done|]. rewrite Hplen. cbn in Hfuel. cbn. lia.
Qed.

Lemma preset_under_parent uuid now parent pe saved hops target st :
  tree_ok st -> nodes st !! parent = Some pe -> is_ready pe = true ->
  nr_depth pe + zlen hops < MAX_SESSION_TREE_DEPTH -> NoDup (preset_ids uuid (length hops)) ->
  (forall x, x ∈ preset_ids uuid (length hops) -> nodes st !! x = None) ->
  exists above, zlen above = nr_depth pe + 1 /\ (forall fuel, (length above < fuel)%nat -> path_to_node fuel parent st = Some (Ok above))
    /\ expanded uuid hops above parent st (expand_manual_preset_under_parent uuid now parent saved hops target st).
Proof.
  intros Hok Hp Hready Hd Hnd Hfresh.
  destruct (path_exists st parent pe (proj1 Hok) Hp) as (above & r & re & Hab & Hlast & Hr & Hre & Hrp & Hlen).
  exists above. split; [done|]. split; [intros fuel; by eapply path_to_node_descends|].
  pose proof (zlen_nonneg hops). pose proof (fo_depth _ (proj1 Hok) _ _ Hp). pose proof (preset_ids_length uuid (length hops)) as Hplen.
  unfold expand_manual_preset_under_parent, expand_preset_chain_under_parent_internal, bind, get_node, expanded.
  rewrite Hp, Hready. unfold MAX_SESSION_TREE_DEPTH in *. cbn [negb]. rewrite hop_count_small by lia.
  destruct (Z.ltb_spec 10 (nr_depth pe + (zlen hops + 1))); [lia|].
  set (t := generated_tree_node_id (match hops with [] => "direct" | _ => "target" end) (uuid (length hops))).
  assert (Hids : preset_ids uuid (length hops) = hop_ids uuid 0 (length hops) ++ [t]) by (by destruct hops).
  rewrite Hids in *.
  destruct (expand_chain_ok uuid now (ManualPreset saved) hops target t (ManualPreset saved (zlen hops + 1 - 1)) 0 parent pe [] st)
    as (l & st1 & st' & Hrun & Hup & Hext & Hdesc); [done..|].
  rewrite Hrun. cbn [fst snd app]. rewrite Nat.add_0_r in Hup.
  replace (generated_tree_node_id (match hop_ids uuid 0 (length hops) with [] => "direct" | _ => "target" end) (uuid (length hops)))
    with t by (by destruct hops). rewrite Hup.
  exists t, st'. split_and!; [done|by rewrite last_snoc|apply Hext|apply Hext|].
  destruct Hext as (_ & Hc & _ & Hs). destruct (Hs _ _ Hre) as (re' & Hre' & Hrp' & _). intros fuel Hfuel.
  eapply (path_to_node_descends st' _ t r re'); [|rewrite last_app, last_snoc; done|by destruct above|done|congruence|].
  - eapply descends_app; [by eapply descends_mono|done|done].
  - rewrite length_app, Hplen. lia.
Qed.

(** ** Removing a subtree *)

Lemma remove_nodes_spec l st :
  let st' := fold_left (fun st id => remove_node id st) l st in
  (forall x, nodes st' !! x = if bool_decide (x ∈ l) then None else nodes st !! x) /\ root_ids st' = root_ids st
  /\ (forall c x, node_index st' !! c = Some x ->
        node_index st !! c = Some x /\ forall y, y ∈ l -> connection_id_for_node y st <> Some c).
Proof.
  revert st. induction l as [|n l IH]; intros st; cbn.
  { split_and!; [done|done|]. intros c x H. split; [done|]. intros y Hy. by apply not_elem_of_nil in Hy. }
  destruct (IH (remove_node n st)) as (Hn & Hr & Hi). clear IH.
  assert (H1 : forall x, nodes (remove_node n st) !! x = if bool_decide (x = n) then None else nodes st !! x).
  { intros x. unfold remove_node. destruct (nodes st !! n) as [e|] eqn:He.
    - destruct (nr_connection_id e); cbn; (case_bool_decide; [subst; apply lookup_delete_eq|by rewrite lookup_delete_ne]).
    - by case_bool_decide; subst. }
  assert (H2 : root_ids (remove_node n st) = root_ids st)
    by (unfold remove_node; destruct (nodes st !! n) as [e|]; [destruct (nr_connection_id e)|]; done).
  assert (H3 : forall c x, node_index (remove_node n st) !! c = Some x ->
    node_index st !! c = Some x /\ connection_id_for_node n st <> Some c).
  { intros c x. unfold remove_node, connection_id_for_node. destruct (nodes st !! n) as [e|]; [|done]. cbn.
    destruct (nr_connection_id e) as [d|]; [|done]. cbn. rewrite lookup_delete_Some. intros [Hne H].
    split; [done|congruence]. }
  split_and!.
  - intros x. rewrite Hn, H1. repeat case_bool_decide; try done; rewrite elem_of_cons in *; tauto.
  - by rewrite Hr.
  - intros c x Hx. apply Hi in Hx as [Hx Hne]. apply H3 in Hx as [Hx Hnn]. split; [done|].
    intros y [->|Hy]%elem_of_cons; [done|]. specialize (Hne y Hy). unfold connection_id_for_node in *.
    rewrite H1 in Hne. case_bool_decide as Hyn; [by subst|done].
Qed.

(** A node loses [n] from its children, and its generation grows. *)
Definition without_child (n : string) (e : NodeRuntimeEntry) : NodeRuntimeEntry :=
  bump (set_children (List.filter (fun id => negb (bool_decide (id = n))) (nr_children_ids e)) e).

Lemma detach_spec st n :
  forest_ok st ->
  let st' := detach n st in
  (forall x, nodes st' !! x = if bool_decide (nodes st !! n ≫= nr_parent_id = Some x)
                              then without_child n <$> nodes st !! x else nodes st !! x)
  /\ root_ids st' = List.filter (fun id => negb (bool_decide (id = n))) (root_ids st) /\ node_index st' = node_index st.
Proof.
  intros Hf. cbn. unfold detach. destruct (nodes st !! n ≫= nr_parent_id) as [p|] eqn:Hp; [|by split_and!].
  destruct (nodes st !! n) as [e|] eqn:He; [|done]. cbn in Hp.
  destruct (fo_parent _ Hf _ _ _ He Hp) as (pe & Hpe & _ & _). rewrite Hpe. cbn. split_and!; [| |done].
  - intros x. case_bool_decide as Hx; [injection Hx as <-; by rewrite lookup_insert_eq, Hpe|].
    by rewrite lookup_insert_ne by congruence.
  - symmetry. apply filter_all. intros x Hx. rewrite bool_decide_eq_false_2; [done|]. intros ->.
    destruct (fo_roots _ Hf _ Hx) as (e' & He' & Hp'). congruence.
Qed.

(** What is left: the nodes that are not below [n], as they were, except that
    the parent of [n] lost it. *)
Lemma remove_subtree_spec st fuel n e :
  tree_ok st -> nodes st !! n = Some e -> (Z.to_nat MAX_SESSION_TREE_DEPTH < fuel)%nat ->
  exists l st', remove_subtree fuel n st = Some (l, st') /\ lists_subtree st (deepest_first st) n l
    /\ (forall x, x ∈ l -> nodes st' !! x = None)
    /\ (forall x, x ∉ l -> nodes st' !! x = if bool_decide (nr_parent_id e = Some x) then without_child n <$> nodes st !! x
                                          else nodes st !! x)
    /\ root_ids st' = List.filter (fun id => negb (bool_decide (id = n))) (root_ids st)
    /\ (forall c x, node_index st' !! c = Some x -> node_index st !! c = Some x /\ x ∉ l).
Proof.
  intros [Hf Hb] He Hfuel. destruct (postorder_spec st fuel n Hf) as (l & Hl & Hls); [by eexists| |].
  { unfold levels, depth_of. rewrite He. cbn. pose proof (fo_depth _ Hf _ _ He). lia. }
  unfold remove_subtree, subtree_postorder. rewrite Hl. cbn.
  destruct (detach_spec st n Hf) as (Hd1 & Hd2 & Hd3). destruct (remove_nodes_spec l (detach n st)) as (Hr1 & Hr2 & Hr3).
  set (st' := fold_left _ l _) in *. exists l, st'.
  assert (Hne : l <> []).
  { intros ->. destruct Hls as (_ & Hx & _). by apply (not_elem_of_nil n), Hx. }
  split; [by destruct l|]. split_and!; [done|..].
  - intros x Hx. by rewrite Hr1, bool_decide_eq_true_2.
  - intros x Hx. rewrite Hr1, bool_decide_eq_false_2, Hd1, He by done. done.
  - by rewrite Hr2, Hd2.
  - intros c x Hx. apply Hr3 in Hx as [Hx Hy]. rewrite Hd3 in Hx. split; [done|]. intros Hin.
    apply (Hy x Hin). unfold connection_id_for_node. rewrite Hd1. pose proof (bo_index _ Hb _ _ Hx) as Hc.
    unfold connection_id_for_node in Hc. case_bool_decide; [|done]. by destruct (nodes st !! x).
Qed.

Section Removed.
(** [st'] is [st] without the nodes of [l]; the parent of [n] lost [n]. *)
Context (st st' : NodeRuntimeStore) (l : list string) (n : string) (e : NodeRuntimeEntry).
Context (Hin : forall x, x ∈ l -> nodes st' !! x = None).
Context (Hout : forall x, x ∉ l -> nodes st' !! x = if bool_decide (nr_parent_id e = Some x)
  then without_child n <$> nodes st !! x else nodes st !! x).

Lemma removed_from : forall x e', nodes st' !! x = Some e' -> x ∉ l /\ exists e0, nodes st !! x = Some e0
    /\ nr_parent_id e' = nr_parent_id e0 /\ nr_depth e' = nr_depth e0 /\ nr_connection_id e' = nr_connection_id e0
    /\ nr_state e' = nr_state e0
    /\ (nr_children_ids e' = nr_children_ids e0 /\ nr_parent_id e <> Some x
        \/ nr_children_ids e' = List.filter (fun id => negb (bool_decide (id = n))) (nr_children_ids e0)).
Proof.
  intros x e' Hx'. destruct (decide (x ∈ l)) as [H|H]; [by rewrite (Hin x H) in Hx'|]. split; [done|].
    rewrite (Hout x H) in Hx'. case_bool_decide as Hp; [|exists e'; by split_and!; auto].
    destruct (nodes st !! x) as [e0|]; [|done]. injection Hx' as <-. exists e0. by split_and!; auto.
Qed.

Lemma removed_to : forall x e0, nodes st !! x = Some e0 -> x ∉ l -> exists e', nodes st' !! x = Some e'
    /\ nr_parent_id e' = nr_parent_id e0 /\ nr_depth e' = nr_depth e0 /\ nr_connection_id e' = nr_connection_id e0
    /\ (forall c, c ∈ nr_children_ids e0 -> c <> n -> c ∈ nr_children_ids e').
Proof.
  intros x e0 H0 H. rewrite (Hout x H), H0. case_bool_decide; [|eauto 10]. eexists. split; [done|]. cbn. split_and!; [done..|].
    intros c Hc Hcn. rewrite filter_elem. by rewrite bool_decide_eq_false_2.
Qed.

Context (Hf : forest_ok st) (He : nodes st !! n = Some e) (Hx : forall x, x ∈ l <-> under st x n).
Context (Hr : root_ids st' = List.filter (fun id => negb (bool_decide (id = n))) (root_ids st)).

Lemma removed_forest : forest_ok st'.
Proof.
  pose proof removed_from as Hfrom. pose proof removed_to as Hto. assert (Hnl : n ∈ l) by (by apply Hx). constructor.
  - intros x e' p Hx' Hp. destruct (Hfrom x e' Hx') as (Hxl & e0 & He0 & Hp0 & Hd0 & _). rewrite Hp0 in Hp.
    destruct (fo_parent _ Hf _ _ _ He0 Hp) as (pe & Hpe & Hpc & Hpd).
    destruct (Hto p pe Hpe) as (pe' & Hpe' & _ & Hpd' & _ & Hch).
    { intros Hpl. apply Hxl, Hx. eapply rtc_l; [by exists e0|by apply Hx]. }
    exists pe'. rewrite Hd0, Hpd', Hpd. split_and!; [done| |done]. apply Hch; [done|]. by intros ->.
  - intros x e' Hx' Hp. destruct (Hfrom x e' Hx') as (Hxl & e0 & He0 & Hp0 & Hd0 & _).
    destruct (fo_root _ Hf _ _ He0 ltac:(congruence)) as [Hin0 Hd00]. rewrite Hr, filter_elem, Hd0. split; [|done].
    split; [done|]. rewrite bool_decide_eq_false_2; [done|]. by intros ->.
  - intros p pe' c Hp' Hc. destruct (Hfrom p pe' Hp') as (Hpl & pe & Hpe & _ & _ & _ & _ & Hch).
    assert (Hcc : c ∈ nr_children_ids pe /\ c <> n).
    { destruct Hch as [[Hch Hpn]|Hch]; rewrite Hch in Hc.
      - split; [done|]. intros ->. destruct (fo_child _ Hf _ _ _ Hpe Hc) as (e2 & He2 & Hp2). congruence.
      - rewrite filter_elem in Hc. destruct Hc as [? Hcn]. split; [done|]. by case_bool_decide. }
    destruct Hcc as [Hc0 Hcn]. pose proof (fo_child _ Hf _ _ _ Hpe Hc0) as Hco. pose proof Hco as (ce & Hce & Hcp).
    destruct (Hto c ce Hce) as (ce' & Hce' & Hcp' & _).
    { intros Hcl. apply Hx, rtc_inv in Hcl as [->|(q & (e2 & He2 & Hq) & Hqn)]; [done|].
      apply Hpl, Hx. by replace p with q by congruence. }
    exists ce'. split; [done|congruence].
  - intros r. rewrite Hr, filter_elem. intros [Hr0 Hrn]. destruct (fo_roots _ Hf _ Hr0) as (re & Hre & Hrp).
    destruct (Hto r re Hre) as (re' & Hre' & Hrp' & _); [|exists re'; split; [done|congruence]].
    intros Hrl. apply Hx, rtc_inv in Hrl as [->|(q & (e2 & He2 & Hq) & _)]; [by case_bool_decide|congruence].
  - intros p pe' Hp'. destruct (Hfrom p pe' Hp') as (_ & pe & Hpe & _ & _ & _ & _ & [[-> _]| ->]); [by eapply fo_nodup|].
    by eapply NoDup_filter_bool, fo_nodup.
  - rewrite Hr. apply NoDup_filter_bool. by apply fo_nodup_roots.
  - intros x e' Hx'. destruct (Hfrom x e' Hx') as (_ & e0 & He0 & _ & -> & _). by eapply fo_depth.
Qed.

Lemma removed_bindings :
  bindings_ok st -> (forall c x, node_index st' !! c = Some x -> node_index st !! c = Some x /\ x ∉ l) -> bindings_ok st'.
Proof.
  intros Hb Hi. pose proof removed_from as Hfrom. pose proof removed_to as Hto. constructor.
  - intros c x Hc. apply Hi in Hc as [Hc Hxl]. pose proof (bo_index _ Hb _ _ Hc) as Hcon. unfold connection_id_for_node in *.
    destruct (nodes st !! x) as [e0|] eqn:He0; [|done]. destruct (Hto x e0 He0 Hxl) as (e' & -> & _ & _ & Hcc & _).
    cbn in *. congruence.
  - intros x e' Hx'. destruct (Hfrom x e' Hx') as (_ & e0 & He0 & _ & _ & _ & -> & _). by eapply (bo_ws _ Hb).
Qed.
End Removed.

Lemma remove_subtree_ok st fuel n :
  tree_ok st -> (Z.to_nat MAX_SESSION_TREE_DEPTH < fuel)%nat ->
  exists l st', remove_subtree fuel n st = Some (l, st') /\ tree_ok st'.
Proof.
  intros [Hf Hb] Hfuel. destruct (nodes st !! n) as [e|] eqn:He.
  2: { destruct fuel as [|fuel]; [lia|]. unfold remove_subtree, subtree_postorder, detach. cbn. rewrite He. cbn.
       eexists _, _. split; [done|]. unfold remove_node. cbn. rewrite He. unfold set_roots.
       rewrite filter_all; [by destruct st|]. intros x Hx. rewrite bool_decide_eq_false_2; [done|].
       intros ->. by eapply fresh_not_root. }
  destruct (remove_subtree_spec st fuel n e (conj Hf Hb) He Hfuel) as (l & st' & Hrun & (_ & Hx & _) & Hin & Hout & Hr & Hi).
  exists l, st'. split; [done|].
  split; [by apply (removed_forest st st' l n e)|by apply (removed_bindings st st' l n e)].
Qed.
