(* ===== verification/NodeSnapshot.v ===== *)
(** * Snapshots of the node tree

    The operations of [NodeRuntimeStore] that go over all nodes
    ([crates/hapcli-ssh/src/router/runtime_store.rs]): export and import of a
    snapshot, the snapshot that is written to disk, reconciliation with the
    connections of the registry, summaries.  [iter] is the order in which the
    concurrent map is iterated, [keys] the order of the keys of a [HashMap]. *)
From S2P Require Import Prelude NodeEvents X11 X11Authority SshConfigs NodeTree NodeForest.
From stdpp Require Import prelude list numbers gmap strings sorting.
Open Scope Z_scope.

(** ** Import: checks on the given nodes *)

Definition parent_map (ns : list NodeTreeSnapshotNode) : gmap string (option string) :=
  fold_left (fun m n => <[sn_id n := sn_parent_id n]> m) ns ∅.

(** The walk from a node to its root; a node met twice is an error. *)
Fixpoint cycle_loop (fuel : nat) (m : gmap string (option string)) (path : gset string) (current : option string)
    : option (result RouteError unit) :=
  match fuel with
  | O => None
  | S fuel =>
      match current with
      | None => Some (Ok tt)
      | Some node_id =>
          if bool_decide (node_id ∈ path)
          then Some (Err (ConnectionError ("invalid node tree snapshot: parent cycle contains " ++ node_id)))
          else cycle_loop fuel m ({[node_id]} ∪ path) (mjoin (m !! node_id))
      end
  end.
Fixpoint validate_starts (fuel : nat) (m : gmap string (option string)) (starts : list string)
    : option (result RouteError unit) :=
  match starts with
  | [] => Some (Ok tt)
  | start :: starts =>
      match cycle_loop fuel m ∅ (Some start) with
      | Some (Ok _) => validate_starts fuel m starts
      | other => other
      end
  end.
Definition validate_snapshot_parent_graph (keys : gmap string (option string) -> list string) (fuel : nat)
    (m : gmap string (option string)) : option (result RouteError unit) :=
  validate_starts fuel m (keys m).

Fixpoint depth_loop (fuel : nat) (m : gmap string (option string)) (depth : Z) (current : option string) : option Z :=
  match fuel with
  | O => None
  | S fuel =>
      match current with
      | None => Some depth
      | Some parent_id => depth_loop fuel m (Z.min (depth + 1) (2 ^ 32 - 1)) (mjoin (m !! parent_id))
      end
  end.
Definition snapshot_node_depth (fuel : nat) (node_id : string) (m : gmap string (option string)) : option Z :=
  depth_loop fuel m 0 (mjoin (m !! node_id)).

(** Keeps the elements not seen before. *)
Fixpoint first_seen (seen : gset string) (l : list string) : list string * gset string :=
  match l with
  | [] => ([], seen)
  | id :: l => if bool_decide (id ∈ seen) then first_seen seen l
               else let '(rest, seen) := first_seen ({[id]} ∪ seen) l in (id :: rest, seen)
  end.
Definition ordered_snapshot_ids (preferred derived : list string) : list string :=
  let '(ordered, seen) := first_seen ∅ (List.filter (fun id => bool_decide (id ∈ derived)) preferred) in
  ordered ++ (first_seen seen derived).1.

Definition root_ids_from_nodes (ns : list NodeTreeSnapshotNode) : list string :=
  map sn_id (List.filter (fun n => bool_decide (sn_parent_id n = None)) ns).
Definition children_map (ns : list NodeTreeSnapshotNode) : gmap string (list string) :=
  fold_left (fun m n => match sn_parent_id n with
                        | Some p => <[p := default [] (m !! p) ++ [sn_id n]]> m
                        | None => m
                        end) ns ∅.
Definition ordered_children_map (ns : list NodeTreeSnapshotNode) (m : gmap string (list string)) : gmap string (list string) :=
  fold_left (fun m n => alter (ordered_snapshot_ids (sn_children_ids n)) (sn_id n) m) ns m.

Definition restored_terminal_endpoints (endpoints : list TerminalEndpoint) (legacy_primary : option TerminalEndpoint)
    : list TerminalEndpoint :=
  match endpoints with [] => option_list legacy_primary | _ => endpoints end.

Definition restored_entry (children : gmap string (list string)) (depth : Z) (n : NodeTreeSnapshotNode) : NodeRuntimeEntry :=
  mkNode (sn_config n) (sn_parent_id n) (default [] (children !! sn_id n)) depth (sn_origin n) (sn_connection_id n)
    (sn_terminal_session_id n) (restored_terminal_endpoints (sn_terminal_endpoints n) (ws_endpoint (sn_state n)))
    (sn_sftp_session_id n) (set_ws_endpoint None (sn_state n)) (sn_created_at_ms n) (sn_generation n).

Section Iteration.
Context (iter : gmap string NodeRuntimeEntry -> list (string * NodeRuntimeEntry)).
Context (keys : gmap string (option string) -> list string).

(** ** Reconciliation *)

Definition index_connections (l : list (string * NodeRuntimeEntry)) : gmap string string :=
  fold_left (fun m kv => match nr_connection_id kv.2 with Some c => <[c := kv.1]> m | None => m end) l ∅.
Definition rebuild_connection_index (st : NodeRuntimeStore) : NodeRuntimeStore :=
  set_index (index_connections (iter (nodes st))) st.

Definition reconcile_node (known : gset string) (route : NodeRuntimeEntry) : NodeRuntimeEntry :=
  let route := set_children (List.filter (fun id => bool_decide (id ∈ known)) (nr_children_ids route)) route in
  match nr_parent_id route with
  | Some p => if bool_decide (p ∈ known) then route else set_parent None 0 route
  | None => route
  end.
Definition created_at (st : NodeRuntimeStore) (id : string) : Z := default 0 (nr_created_at_ms <$> nodes st !! id).
Definition push_missing (roots : list string) (id : string) : list string :=
  if bool_decide (id ∈ roots) then roots else roots ++ [id].
Definition reconcile_topology (st : NodeRuntimeStore) : NodeRuntimeStore :=
  let known := dom (nodes st) in
  let st := set_nodes (reconcile_node known <$> nodes st) st in
  let computed := map fst (List.filter (fun kv => bool_decide (nr_parent_id kv.2 = None)) (iter (nodes st))) in
  let computed := sort_by (fun a b => created_at st a <=? created_at st b) computed in
  let roots := List.filter (fun id => bool_decide (id ∈ known) && bool_decide (id ∈ computed)) (root_ids st) in
  rebuild_connection_index (set_roots (fold_left push_missing computed roots) st).

Definition reconcile_connection (connections : gmap string ConnectionState) (route : NodeRuntimeEntry) : NodeRuntimeEntry :=
  match nr_connection_id route with
  | None => set_state (set_readiness NrDisconnected None (nr_state route)) route
  | Some connection_id =>
      bump match connections !! connection_id with
           | Some state =>
               set_state (set_readiness (readiness_for_connection_state state) (connection_error state) (nr_state route)) route
           | None => unbound route
           end
  end.
Definition reconcile_with_connections (connections : gmap string ConnectionState) (st : NodeRuntimeStore) : NodeRuntimeStore :=
  rebuild_connection_index (set_nodes (reconcile_connection connections <$> nodes st) st).

(** ** Import *)

Fixpoint insert_restored (fuel : nat) (parents : gmap string (option string)) (children : gmap string (list string))
    (ns : list NodeTreeSnapshotNode) (st : NodeRuntimeStore) : option NodeRuntimeStore :=
  match ns with
  | [] => Some st
  | n :: ns =>
      depth ← snapshot_node_depth fuel (sn_id n) parents;
      let st := match sn_connection_id n with
                | Some c => set_index (<[c := sn_id n]> (node_index st)) st
                | None => st
                end in
      insert_restored fuel parents children ns (set_nodes (<[sn_id n := restored_entry children depth n]> (nodes st)) st)
  end.

(** [any] over the keys. *)
Fixpoint any_too_deep (fuel : nat) (m : gmap string (option string)) (ids : list string) : option bool :=
  match ids with
  | [] => Some false
  | id :: ids =>
      depth ← snapshot_node_depth fuel id m;
      if MAX_SESSION_TREE_DEPTH <? depth then Some true else any_too_deep fuel m ids
  end.

(** The first node whose parent is not among the nodes. *)
Definition missing_parent (ns : list NodeTreeSnapshotNode) : option string :=
  head (omap (fun n => match sn_parent_id n with
                       | Some p => if bool_decide (p ∈ map sn_id ns) then None else Some p
                       | None => None
                       end) ns).

(** Fuel for a walk: every node once, and the last turn. *)
Definition walk_fuel (ns : list NodeTreeSnapshotNode) : nat := S (S (length ns)).

Definition apply_snapshot (s : NodeTreeSnapshot) : Route unit := fun st =>
  let ns := ts_nodes s in
  if negb (size (list_to_set (map sn_id ns) : gset string) =? length ns)%nat
  then Some (Err (ConnectionError "invalid node tree snapshot: duplicate node identifiers"), st)
  else match missing_parent ns with
  | Some p => Some (Err (NodeNotFound p), st)
  | None =>
      let parents := parent_map ns in
      valid ← validate_snapshot_parent_graph keys (walk_fuel ns) parents;
      match valid : result RouteError unit with
      | Err e => Some (Err e, st)
      | Ok _ =>
          too_deep ← any_too_deep (walk_fuel ns) parents (keys parents);
          if too_deep : bool then Some (Err (MaxDepthExceeded MAX_SESSION_TREE_DEPTH), st)
          else
            let children := ordered_children_map ns (children_map ns) in
            let roots := ordered_snapshot_ids (ts_root_ids s) (root_ids_from_nodes ns) in
            st ← insert_restored (walk_fuel ns) parents children ns (mkStore ∅ roots ∅);
            Some (Ok tt, reconcile_topology st)
      end
  end.

(** ** Export *)

Definition snapshot_node (kv : string * NodeRuntimeEntry) : NodeTreeSnapshotNode :=
  let '(id, route) := kv in
  mkSnapshotNode id (nr_parent_id route) (nr_children_ids route) (nr_depth route) (nr_config route) (nr_origin route)
    (nr_state route) (nr_connection_id route) (nr_terminal_session_id route) (nr_terminal_endpoints route)
    (nr_sftp_session_id route) (nr_created_at_ms route) (nr_generation route).
Definition snapshot_key (n : NodeTreeSnapshotNode) : Z * Z * string := (sn_depth n, sn_created_at_ms n, sn_id n).
Definition export_snapshot (now_ms : Z) (st : NodeRuntimeStore) : NodeTreeSnapshot :=
  mkTreeSnapshot 1 now_ms (root_ids st)
    (sort_by (fun a b => key_le (snapshot_key a) (snapshot_key b)) (map snapshot_node (iter (nodes st)))).

(** A node as it may be written to disk, if it may. *)
Definition persistence_node (kv : string * NodeRuntimeEntry) : option NodeTreePersistenceNode :=
  let '(id, route) := kv in
  let node config := mkPersistenceNode id (nr_parent_id route) (nr_children_ids route) (nr_depth route) (nr_origin route)
                       config (nr_created_at_ms route) (nr_generation route) in
  if bool_decide (is_Some (saved_connection_id (nr_origin route))) then Some (node None)
  else if has_runtime_auth_secret (nr_config route) then None
  else Some (node (Some (nr_config route))).
Definition parent_kept (ids : list string) (n : NodeTreePersistenceNode) : bool :=
  match pn_parent_id n with None => true | Some p => bool_decide (p ∈ ids) end.
Fixpoint prune_loop (fuel : nat) (ns : list NodeTreePersistenceNode) : option (list NodeTreePersistenceNode) :=
  match fuel with
  | O => None
  | S fuel =>
      let kept := List.filter (parent_kept (map pn_id ns)) ns in
      if (length kept =? length ns)%nat then Some kept else prune_loop fuel kept
  end.
Definition keep_children (ids : list string) (n : NodeTreePersistenceNode) : NodeTreePersistenceNode :=
  mkPersistenceNode (pn_id n) (pn_parent_id n) (List.filter (fun c => bool_decide (c ∈ ids)) (pn_children_ids n))
    (pn_depth n) (pn_origin n) (pn_config n) (pn_created_at_ms n) (pn_generation n).
Definition persistence_key (n : NodeTreePersistenceNode) : Z * Z * string := (pn_depth n, pn_created_at_ms n, pn_id n).
Definition export_persistence_snapshot (now_ms : Z) (st : NodeRuntimeStore) : option NodeTreePersistenceSnapshot :=
  let candidates := omap persistence_node (iter (nodes st)) in
  kept ← prune_loop (S (length candidates)) candidates;
  let retained := map pn_id kept in
  Some (mkPersistenceSnapshot 1 now_ms (List.filter (fun id => bool_decide (id ∈ retained)) (root_ids st))
          (sort_by (fun a b => key_le (persistence_key a) (persistence_key b)) (map (keep_children retained) kept))).

(** ** Views *)

Definition node_metadata_snapshot (node_id : string) (route : NodeRuntimeEntry) : NodeMetadataSnapshot :=
  mkMetadata node_id (nr_parent_id route) (nr_children_ids route) (nr_depth route) (nr_origin route)
    (host (nr_config route)) (port (nr_config route)) (username (nr_config route)) (readiness (nr_state route))
    (ns_error (nr_state route)) (nr_connection_id route) (nr_terminal_session_id route) (nr_sftp_session_id route)
    (nr_created_at_ms route).
Definition metadata_snapshot (node_id : string) (st : NodeRuntimeStore) : option NodeMetadataSnapshot :=
  node_metadata_snapshot node_id <$> nodes st !! node_id.
Definition metadata_key (n : NodeMetadataSnapshot) : Z * Z * string := (md_depth n, md_created_at_ms n, md_id n).
Definition metadata_snapshots (st : NodeRuntimeStore) : list NodeMetadataSnapshot :=
  sort_by (fun a b => key_le (metadata_key a) (metadata_key b))
    (map (fun kv => node_metadata_snapshot kv.1 kv.2) (iter (nodes st))).
Definition summary (st : NodeRuntimeStore) : SessionTreeSummary :=
  let ns := map snd (iter (nodes st)) in
  mkSummary (zlen ns) (zlen (root_ids st)) (zlen (List.filter is_ready ns)) (foldr Z.max 0 (map nr_depth ns)).

(** Every hop of a preset carries the preset's id; its target is the node
    without a child of the next index. *)
Definition materialized (saved : string) (kv : string * NodeRuntimeEntry) : option (string * option Z * list string) :=
  match nr_origin kv.2 with
  | Restored id => if bool_decide (id = saved) then Some (kv.1, None, nr_children_ids kv.2) else None
  | ManualPreset id hop_index => if bool_decide (id = saved) then Some (kv.1, Some hop_index, nr_children_ids kv.2) else None
  | AutoRoute _ _ _ | DrillDown _ | DirectNode => None
  end.
Definition preset_target (hops : list (string * Z)) (n : string * option Z * list string) : bool :=
  let '(_, hop_index, children) := n in
  match hop_index with
  | None => true
  | Some index =>
      let next := Z.min (index + 1) (2 ^ 32 - 1) in
      negb (existsb (fun child => existsb (fun h => bool_decide (h = (child, next))) hops) children)
  end.
Definition set_x11 (policy : option X11ForwardPolicy) (c : SshConfig) : SshConfig :=
  mkSsh (host c) (port c) (username c) (SshConfigs.auth c) (timeout_secs c) (cols c) (rows c) (proxy_chain c)
    (upstream_proxy c) (proxy_command c) (strict_host_key_checking c) (trust_host_key c)
    (expected_host_key_fingerprint c) (agent_forwarding c) (identity_agent c) (agent_forwarding_socket c)
    (legacy_ssh_compatibility c) policy (post_connect_command c).
Definition update_saved_connection_x11_forwarding (saved : string) (policy : option X11ForwardPolicy) (st : NodeRuntimeStore)
    : Z * NodeRuntimeStore :=
  let found := omap (materialized saved) (iter (nodes st)) in
  let hops := omap (fun n => pair n.1.1 <$> n.1.2) found in
  let targets := map (fun n => n.1.1) (List.filter (preset_target hops) found) in
  fold_left (fun acc id =>
    let '(updated, st) := acc in
    match nodes st !! id with
    | None => (updated, st)
    | Some route =>
        if bool_decide (x11_forwarding (nr_config route) = policy) then (updated, st)
        else (updated + 1,
              set_nodes (<[id := bump_saturating (set_config (set_x11 policy (nr_config route)) (nr_origin route) route)]>
                           (nodes st)) st)
    end) targets (0, st).
End Iteration.

(** ** Chains of parents *)

(** The ancestors of a node, nearest first. *)
Inductive up_chain (m : gmap string (option string)) : string -> list string -> Prop :=
| up_root n : m !! n = Some None -> up_chain m n []
| up_step n p l : m !! n = Some (Some p) -> up_chain m p l -> up_chain m n (p :: l).

Section Chains.
Context (m : gmap string (option string)).
(** Every parent is a node. *)
Context (closed : forall n p, m !! n = Some (Some p) -> is_Some (m !! p)).

Lemma up_chain_fun n l l' : up_chain m n l -> up_chain m n l' -> l = l'.
Proof.
  intros H. revert l'. induction H as [n H|n p l H Hl IH]; intros l' H'; inversion H'; subst; try congruence.
  f_equal; [congruence|]. apply IH. by replace p with p0 by congruence.
Qed.

(** The walk ends; it succeeds exactly on finite chains. *)
Lemma cycle_loop_spec fuel path n :
  path ⊆ dom m -> n ∈ dom m -> (size (dom m) < fuel + size path)%nat ->
  (forall x l, x ∈ path -> up_chain m x l -> exists l', up_chain m n l' /\ (length l' < length l)%nat) ->
  (exists l, up_chain m n l /\ (length l + 1 < fuel)%nat /\ cycle_loop fuel m path (Some n) = Some (Ok tt))
  \/ ((forall l, ~ up_chain m n l) /\ exists e, cycle_loop fuel m path (Some n) = Some (Err e)).
Proof.
  revert path n. induction fuel as [|fuel IH]; intros path n Hsub Hn Hfuel Hpath.
  { apply subseteq_size in Hsub. lia. }
  cbn. case_bool_decide as Hin.
  { right. split; [|by eexists]. intros l Hl. destruct (Hpath n l Hin Hl) as (l' & Hl' & Hlen).
    rewrite (up_chain_fun n l l' Hl Hl') in Hlen. lia. }
  assert (Hsub' : {[n]} ∪ path ⊆ dom m) by set_solver.
  assert (Hsize : size ({[n]} ∪ path) = S (size path)).
  { rewrite size_union by set_solver. by rewrite size_singleton. }
  pose proof (subseteq_size _ _ Hsub') as Hle. rewrite Hsize in Hle.
  apply elem_of_dom in Hn as [o Ho]. rewrite Ho. cbn. destruct o as [p|].
  - destruct (IH ({[n]} ∪ path) p) as [(l & Hl & Hlen & Hrun)|[Hno Hrun]].
    + done.
    + apply elem_of_dom. by eapply closed.
    + rewrite Hsize. lia.
    + intros x l Hx Hl. apply elem_of_union in Hx as [->%elem_of_singleton|Hx].
      * inversion Hl; subst; [congruence|]. eexists. split; [by replace p with p0 by congruence|]. cbn. lia.
      * destruct (Hpath x l Hx Hl) as (l' & Hl' & Hlen). inversion Hl'; subst; [congruence|].
        exists l0. split; [by replace p with p0 by congruence|]. cbn in Hlen. lia.
    + left. exists (p :: l). split; [by eapply up_step|]. split; [cbn; lia|done].
    + right. split; [|done]. intros l Hl. inversion Hl; subst; [congruence|]. eapply Hno. by replace p with p0 by congruence.
  - left. exists []. split; [by constructor|]. destruct fuel; [lia|]. split; [cbn; lia|done].
Qed.

Lemma depth_loop_spec fuel d n l :
  up_chain m n l -> (length l < fuel)%nat -> d <= 2 ^ 32 - 1 ->
  depth_loop fuel m d (mjoin (m !! n)) = Some (Z.min (d + zlen l) (2 ^ 32 - 1)).
Proof.
  intros H. revert fuel d. induction H as [n H|n p l H Hl IH]; intros fuel d Hfuel Hd; (destruct fuel as [|fuel]; [lia|]); rewrite H.
  - cbn. f_equal. rewrite zlen_nil. lia.
  - cbn [mjoin option_join depth_loop]. rewrite IH by (cbn in *; lia). rewrite zlen_cons. f_equal. pose proof (zlen_nonneg l). lia.
Qed.
Lemma snapshot_depth_spec fuel n l :
  up_chain m n l -> (length l < fuel)%nat -> snapshot_node_depth fuel n m = Some (Z.min (zlen l) (2 ^ 32 - 1)).
Proof. intros Hl Hf. unfold snapshot_node_depth. by rewrite (depth_loop_spec _ _ n l) by (done || lia). Qed.

(** All walks end. *)
Lemma validate_spec fuel starts :
  (size (dom m) < fuel)%nat -> (forall n, n ∈ starts -> n ∈ dom m) ->
  (validate_starts fuel m starts = Some (Ok tt) /\ forall n, n ∈ starts -> exists l, up_chain m n l /\ (length l < fuel)%nat)
  \/ ((exists n, n ∈ starts /\ forall l, ~ up_chain m n l) /\ exists e, validate_starts fuel m starts = Some (Err e)).
Proof.
  intros Hfuel. induction starts as [|n starts IH]; intros Hd; [left; split; [done|set_solver]|]. cbn.
  destruct (cycle_loop_spec fuel ∅ n) as [(l & Hl & Hlen & ->)|[Hno [e ->]]];
    [set_solver|apply Hd, list_elem_of_here|rewrite size_empty; lia|set_solver|..].
  - destruct IH as [[-> H]|[(x & Hx & Hno) He]]; [intros x Hx; apply Hd; by apply list_elem_of_further|..].
    + left. split; [done|]. intros x [->|Hx]%elem_of_cons; [exists l; split; [done|lia]|by apply H].
    + right. split; [|done]. exists x. split; [by apply list_elem_of_further|done].
  - right. split; [|by eexists]. exists n. split; [apply list_elem_of_here|done].
Qed.

Lemma too_deep_spec fuel ids :
  (forall n, n ∈ ids -> exists l, up_chain m n l /\ (length l < fuel)%nat) ->
  exists b, any_too_deep fuel m ids = Some b
    /\ (b = false <-> forall n l, n ∈ ids -> up_chain m n l -> zlen l <= MAX_SESSION_TREE_DEPTH).
Proof.
  induction ids as [|n ids IH]; intros H; [exists false; set_solver|]. cbn.
  destruct (H n (list_elem_of_here _ _)) as (l & Hl & Hlen). rewrite (snapshot_depth_spec fuel n l) by done. cbn.
  destruct IH as (b & Hb & Hiff); [intros x Hx; apply H; by apply list_elem_of_further|].
  unfold MAX_SESSION_TREE_DEPTH in *. destruct (Z.ltb_spec 10 (Z.min (zlen l) (2 ^ 32 - 1))).
  - exists true. split; [done|]. split; [done|]. intros Hall. specialize (Hall n l (list_elem_of_here _ _) Hl). lia.
  - exists b. split; [done|]. rewrite Hiff. split; [|intros Hall x l' Hx; apply Hall; by apply list_elem_of_further].
    intros Hall x l' [->|Hx]%elem_of_cons Hl'; [rewrite (up_chain_fun n l' l Hl' Hl); lia|by apply (Hall x)].
Qed.
End Chains.

(** ** Ordered lists of ids *)

Lemma first_seen_spec seen l :
  let '(out, seen') := first_seen seen l in
  NoDup out /\ (forall x, x ∈ out <-> x ∈ l /\ x ∉ seen) /\ (forall x, x ∈ seen' <-> x ∈ seen \/ x ∈ l).
Proof.
  revert seen. induction l as [|a l IH]; intros seen; cbn.
  { split; [constructor|]. set_solver. }
  case_bool_decide as Ha.
  - specialize (IH seen). destruct (first_seen seen l) as [out seen']. destruct IH as (Hn & Ho & Hs). split_and!; [done|..].
    + intros x. rewrite Ho, elem_of_cons. naive_solver.
    + intros x. rewrite Hs, elem_of_cons. naive_solver.
  - specialize (IH ({[a]} ∪ seen)). destruct (first_seen ({[a]} ∪ seen) l) as [out seen'].
    destruct IH as (Hn & Ho & Hs). split_and!.
    + constructor; [|done]. rewrite Ho. set_solver.
    + intros x. rewrite !elem_of_cons, Ho, not_elem_of_union, not_elem_of_singleton.
      destruct (decide (x = a)) as [->|]; naive_solver.
    + intros x. rewrite Hs, elem_of_union, elem_of_singleton, elem_of_cons. tauto.
Qed.

Lemma first_seen_fresh seen l : NoDup l -> (forall x, x ∈ l -> x ∉ seen) -> (first_seen seen l).1 = l.
Proof.
  revert seen. induction l as [|a l IH]; intros seen Hn Hs; [done|]. cbn. apply NoDup_cons in Hn as [Ha Hn].
  rewrite bool_decide_eq_false_2 by (apply Hs, list_elem_of_here).
  specialize (IH ({[a]} ∪ seen) Hn). destruct (first_seen _ l) as [out seen']. cbn in *. f_equal. apply IH.
  intros x Hx. rewrite not_elem_of_union, not_elem_of_singleton. split; [by intros ->|].
  apply Hs. by apply list_elem_of_further.
Qed.
Lemma first_seen_known seen l : (forall x, x ∈ l -> x ∈ seen) -> (first_seen seen l).1 = [].
Proof.
  induction l as [|a l IH]; intros Hs; [done|]. cbn. rewrite bool_decide_eq_true_2 by (apply Hs, list_elem_of_here).
  apply IH. intros x Hx. apply Hs. by apply list_elem_of_further.
Qed.

(** The ids of [derived], each once. *)
Lemma ordered_ids_spec preferred derived :
  NoDup (ordered_snapshot_ids preferred derived)
  /\ forall x, x ∈ ordered_snapshot_ids preferred derived <-> x ∈ derived.
Proof.
  unfold ordered_snapshot_ids. set (k := List.filter _ preferred).
  assert (Hk : forall x, x ∈ k -> x ∈ derived).
  { intros x Hx. unfold k in Hx. rewrite filter_elem in Hx. destruct Hx as [_ Hx]. by apply bool_decide_eq_true in Hx. }
  pose proof (first_seen_spec ∅ k) as H1. destruct (first_seen ∅ k) as [out seen] eqn:E1. destruct H1 as (Hn1 & Ho1 & Hs1).
  pose proof (first_seen_spec seen derived) as H2. destruct (first_seen seen derived) as [out2 seen2].
  destruct H2 as (Hn2 & Ho2 & _). cbn. split.
  - apply NoDup_app. split_and!; [done| |done]. intros x Hx Hx2. apply Ho2 in Hx2 as [_ Hns]. apply Hns, Hs1.
    right. by apply Ho1 in Hx as [? _].
  - intros x. rewrite elem_of_app, Ho1, Ho2, Hs1. split; [intros [[? _]|[? _]]; auto|].
    intros Hx. destruct (decide (x ∈ k)) as [Hxk|Hxk]; [left; split; [done|set_solver]|].
    right. split; [done|]. intros [?|?]; [set_solver|done].
Qed.

(** A list with the same ids keeps its order. *)
Lemma ordered_ids_same preferred derived :
  NoDup preferred -> (forall x, x ∈ preferred <-> x ∈ derived) -> ordered_snapshot_ids preferred derived = preferred.
Proof.
  intros Hn Hx. unfold ordered_snapshot_ids. rewrite filter_all.
  - pose proof (first_seen_spec ∅ preferred) as H. pose proof (first_seen_fresh ∅ preferred Hn) as H1.
    destruct (first_seen ∅ preferred) as [out seen]. cbn in H1. destruct H as (_ & _ & Hs).
    rewrite H1 by set_solver. rewrite first_seen_known; [apply app_nil_r|]. intros x Hd. apply Hs. right. by apply Hx.
  - intros x Hp. apply bool_decide_eq_true. by apply Hx.
Qed.

(** ** Import *)

(** A map built by inserting the nodes one by one. *)
Lemma fold_insert_lookup {A} (f : NodeTreeSnapshotNode -> A) ns id a :
  NoDup (map sn_id ns) ->
  fold_left (fun m n => <[sn_id n := f n]> m) ns (∅ : gmap string A) !! id = Some a
  <-> exists n, n ∈ ns /\ sn_id n = id /\ f n = a.
Proof.
  induction ns as [|n ns IH] using rev_ind; intros Hn; [cbn; set_solver|].
  rewrite map_app in Hn. apply NoDup_app in Hn as (Hn & Hd & _). specialize (IH Hn).
  rewrite fold_left_app. cbn. destruct (decide (id = sn_id n)) as [->|Hne].
  - rewrite lookup_insert_eq. split.
    + intros [= <-]. exists n. split_and!; [rewrite elem_of_app, list_elem_of_singleton; by right|done|done].
    + intros (n' & [Hin| ->%list_elem_of_singleton]%elem_of_app & Hid & <-); [|done].
      exfalso. apply (Hd (sn_id n)); [|apply list_elem_of_here]. rewrite <-Hid. by apply list_elem_of_fmap_2.
  - rewrite lookup_insert_ne by done. rewrite IH. split.
    + intros (n' & Hin & ? & ?). exists n'. rewrite elem_of_app. auto.
    + intros (n' & [Hin| ->%list_elem_of_singleton]%elem_of_app & ? & ?); [eauto|by subst].
Qed.
Lemma parent_map_lookup ns id o :
  NoDup (map sn_id ns) -> parent_map ns !! id = Some o <-> exists n, n ∈ ns /\ sn_id n = id /\ sn_parent_id n = o.
Proof. apply (fold_insert_lookup sn_parent_id). Qed.

Lemma node_by_id ns n n' : NoDup (map sn_id ns) -> n ∈ ns -> n' ∈ ns -> sn_id n = sn_id n' -> n = n'.
Proof.
  intros Hn H H' Hid. apply list_elem_of_lookup in H as [i Hi]. apply list_elem_of_lookup in H' as [j Hj].
  assert (i = j); [|congruence]. eapply (NoDup_lookup _ i j (sn_id n) Hn).
  - by rewrite list_lookup_fmap, Hi.
  - by rewrite list_lookup_fmap, Hj, Hid.
Qed.

(** The nodes that name [p] as their parent. *)
Definition derived_children (ns : list NodeTreeSnapshotNode) (p : string) : list string :=
  map sn_id (List.filter (fun n => bool_decide (sn_parent_id n = Some p)) ns).
Lemma derived_children_elem ns p x :
  x ∈ derived_children ns p <-> exists n, n ∈ ns /\ sn_id n = x /\ sn_parent_id n = Some p.
Proof.
  unfold derived_children. rewrite list_elem_of_fmap. split.
  - intros (n & -> & Hn). rewrite filter_elem, bool_decide_eq_true in Hn. exists n. tauto.
  - intros (n & Hn & <- & Hp). exists n. split; [done|]. by rewrite filter_elem, bool_decide_eq_true.
Qed.
Lemma root_ids_elem ns x :
  x ∈ root_ids_from_nodes ns <-> exists n, n ∈ ns /\ sn_id n = x /\ sn_parent_id n = None.
Proof.
  unfold root_ids_from_nodes. rewrite list_elem_of_fmap. split.
  - intros (n & -> & Hn). rewrite filter_elem, bool_decide_eq_true in Hn. exists n. tauto.
  - intros (n & Hn & <- & Hp). exists n. split; [done|]. by rewrite filter_elem, bool_decide_eq_true.
Qed.

Lemma children_map_lookup ns p : default [] (children_map ns !! p) = derived_children ns p.
Proof.
  unfold children_map, derived_children. induction ns as [|n ns IH] using rev_ind; [done|].
  rewrite fold_left_app, List.filter_app, map_app, <-IH. cbn. set (m := fold_left _ ns _).
  destruct (sn_parent_id n) as [q|] eqn:Hq.
  - destruct (decide (q = p)) as [->|Hne].
    + rewrite bool_decide_eq_true_2 by done. by rewrite lookup_insert_eq.
    + rewrite bool_decide_eq_false_2 by congruence. rewrite lookup_insert_ne by done. by rewrite app_nil_r.
  - rewrite bool_decide_eq_false_2 by done. by rewrite app_nil_r.
Qed.

Lemma ordered_children_lookup ns (m : gmap string (list string)) n :
  NoDup (map sn_id ns) -> n ∈ ns ->
  ordered_children_map ns m !! sn_id n = ordered_snapshot_ids (sn_children_ids n) <$> m !! sn_id n.
Proof.
  unfold ordered_children_map. assert (Hother : forall ns id, id ∉ map sn_id ns ->
    fold_left (fun m n => alter (ordered_snapshot_ids (sn_children_ids n)) (sn_id n) m) ns m !! id = m !! id).
  { clear ns n. intros ns id. induction ns as [|x ns IH] using rev_ind; intros Hid; [done|].
    rewrite map_app, elem_of_app in Hid. rewrite fold_left_app. cbn.
    rewrite lookup_alter_ne; [apply IH; tauto|]. intros <-. apply Hid. right. apply list_elem_of_here. }
  induction ns as [|x ns IH] using rev_ind; intros Hn Hin; [by apply not_elem_of_nil in Hin|].
  rewrite map_app in Hn. apply NoDup_app in Hn as (Hn & Hd & _). rewrite fold_left_app. cbn.
  apply elem_of_app in Hin as [Hin| ->%list_elem_of_singleton].
  - rewrite lookup_alter_ne; [by apply IH|]. intros He. apply (Hd (sn_id n)); [by apply list_elem_of_fmap_2|].
    rewrite <-He. apply list_elem_of_here.
  - rewrite lookup_alter_eq, Hother; [done|]. intros Hin. apply (Hd _ Hin), list_elem_of_here.
Qed.

Lemma restored_children ns n :
  NoDup (map sn_id ns) -> n ∈ ns ->
  default [] (ordered_children_map ns (children_map ns) !! sn_id n)
  = ordered_snapshot_ids (sn_children_ids n) (derived_children ns (sn_id n)).
Proof.
  intros Hn Hin. rewrite ordered_children_lookup by done. rewrite <-children_map_lookup.
  destruct (children_map ns !! sn_id n); [done|]. cbn. unfold ordered_snapshot_ids. cbn.
  destruct (first_seen ∅ _) as [out seen] eqn:E. cbn. rewrite app_nil_r.
  pose proof (first_seen_spec ∅ (List.filter (fun id => bool_decide (id ∈ [])) (sn_children_ids n))) as H.
  rewrite E in H. destruct H as (_ & Ho & _). destruct out as [|a out]; [done|].
  destruct (proj1 (Ho a) (list_elem_of_here _ _)) as [Ha _]. rewrite filter_elem, bool_decide_eq_true in Ha. set_solver.
Qed.

(** What makes a snapshot acceptable. *)
Record snapshot_valid (s : NodeTreeSnapshot) : Prop := mkValid {
  sv_nodup : NoDup (map sn_id (ts_nodes s));
  sv_parents : forall n p, n ∈ ts_nodes s -> sn_parent_id n = Some p -> p ∈ map sn_id (ts_nodes s);
  sv_depth : forall n, n ∈ ts_nodes s ->
    exists l, up_chain (parent_map (ts_nodes s)) (sn_id n) l /\ zlen l <= MAX_SESSION_TREE_DEPTH
}.

(** The entry that a node of the snapshot becomes. *)
Definition restores (s : NodeTreeSnapshot) (n : NodeTreeSnapshotNode) (e : NodeRuntimeEntry) : Prop :=
  exists l, up_chain (parent_map (ts_nodes s)) (sn_id n) l
    /\ e = mkNode (sn_config n) (sn_parent_id n)
             (ordered_snapshot_ids (sn_children_ids n) (derived_children (ts_nodes s) (sn_id n))) (zlen l) (sn_origin n)
             (sn_connection_id n) (sn_terminal_session_id n)
             (restored_terminal_endpoints (sn_terminal_endpoints n) (ws_endpoint (sn_state n))) (sn_sftp_session_id n)
             (set_ws_endpoint None (sn_state n)) (sn_created_at_ms n) (sn_generation n).

Lemma insert_restored_spec fuel parents children ns st :
  (forall n, n ∈ ns -> is_Some (snapshot_node_depth fuel (sn_id n) parents)) ->
  exists st', insert_restored fuel parents children ns st = Some st' /\ root_ids st' = root_ids st
    /\ nodes st' = fold_left (fun m n =>
         <[sn_id n := restored_entry children (default 0 (snapshot_node_depth fuel (sn_id n) parents)) n]> m) ns (nodes st).
Proof.
  revert st. induction ns as [|n ns IH]; intros st H; [by exists st|]. cbn.
  destruct (H n (list_elem_of_here _ _)) as [d ->]. cbn.
  destruct (IH (set_nodes (<[sn_id n := restored_entry children d n]>
    (nodes match sn_connection_id n with Some c => set_index (<[c := sn_id n]> (node_index st)) st | None => st end))
    match sn_connection_id n with Some c => set_index (<[c := sn_id n]> (node_index st)) st | None => st end)) as (st' & -> & Hr & Hn).
  - intros x Hx. apply H. by apply list_elem_of_further.
  - exists st'. split; [done|]. rewrite Hr, Hn. by destruct (sn_connection_id n).
Qed.

Lemma valid_closed s : snapshot_valid s ->
  forall n p, parent_map (ts_nodes s) !! n = Some (Some p) -> is_Some (parent_map (ts_nodes s) !! p).
Proof.
  intros [Hn Hp _] x p Hx. apply parent_map_lookup in Hx as (n & Hin & _ & Hpn); [|done].
  apply (Hp n p Hin), list_elem_of_fmap in Hpn as (q & -> & Hq). exists (sn_parent_id q). apply parent_map_lookup; eauto.
Qed.

(** A store that holds the nodes of a valid snapshot is a forest. *)
Lemma restored_forest s st :
  snapshot_valid s ->
  (forall id e, nodes st !! id = Some e <-> exists n, n ∈ ts_nodes s /\ sn_id n = id /\ restores s n e) ->
  root_ids st = ordered_snapshot_ids (ts_root_ids s) (root_ids_from_nodes (ts_nodes s)) -> forest_ok st.
Proof.
  intros Hv Hn Hr. pose proof Hv as [Hnd Hpar Hdep].
  assert (Hmake : forall n, n ∈ ts_nodes s -> exists e, nodes st !! sn_id n = Some e /\ restores s n e).
  { intros n Hin. destruct (Hdep n Hin) as (l & Hl & _). eexists. split; [apply Hn; exists n; split_and!; [done|done|]|]; exists l; done. }
  constructor.
  - intros x e p Hx Hp. apply Hn in Hx as (n & Hin & <- & l & Hl & ->). cbn in *.
    pose proof (Hpar n p Hin Hp) as Hpin. apply list_elem_of_fmap in Hpin as (q & -> & Hq).
    destruct (Hmake q Hq) as (pe & Hpe & lq & Hlq & ->). eexists. split; [done|]. cbn. split.
    + apply ordered_ids_spec, derived_children_elem. eauto.
    + assert (Hm : parent_map (ts_nodes s) !! sn_id n = Some (Some (sn_id q))) by (apply parent_map_lookup; eauto).
      rewrite (up_chain_fun _ _ _ _ Hl (up_step _ _ _ _ Hm Hlq)), zlen_cons. lia.
  - intros x e Hx Hp. apply Hn in Hx as (n & Hin & <- & l & Hl & ->). cbn in *. split.
    + rewrite Hr. apply ordered_ids_spec, root_ids_elem. eauto.
    + assert (Hm : parent_map (ts_nodes s) !! sn_id n = Some None) by (apply parent_map_lookup; eauto).
      by rewrite (up_chain_fun _ _ _ _ Hl (up_root _ _ Hm)).
  - intros p pe c Hp Hc. apply Hn in Hp as (q & Hq & <- & l & Hl & ->). cbn in Hc.
    apply ordered_ids_spec, derived_children_elem in Hc as (n & Hin & <- & Hnp).
    destruct (Hmake n Hin) as (e & He & ln & Hln & ->). eexists. split; [done|]. done.
  - intros r. rewrite Hr. intros (n & Hin & <- & Hp)%ordered_ids_spec%root_ids_elem.
    destruct (Hmake n Hin) as (e & He & ln & Hln & ->). by eexists.
  - intros p pe Hp. apply Hn in Hp as (q & Hq & <- & l & Hl & ->). apply ordered_ids_spec.
  - rewrite Hr. apply ordered_ids_spec.
  - intros x e Hx. apply Hn in Hx as (n & Hin & <- & l & Hl & ->). cbn.
    destruct (Hdep n Hin) as (l' & Hl' & Hle). rewrite (up_chain_fun _ _ _ _ Hl Hl'). pose proof (zlen_nonneg l'). lia.
Qed.

(** *** Reconciliation *)

Section Reconcile.
Context (iter : gmap string NodeRuntimeEntry -> list (string * NodeRuntimeEntry)).
Context (Hiter : forall m, iter m ≡ₚ map_to_list m).

Lemma iter_elem (m : gmap string NodeRuntimeEntry) k e : (k, e) ∈ iter m <-> m !! k = Some e.
Proof. by rewrite Hiter, elem_of_map_to_list. Qed.

Lemma index_connections_sound l c n : index_connections l !! c = Some n -> exists e, (n, e) ∈ l /\ nr_connection_id e = Some c.
Proof.
  unfold index_connections. induction l as [|[k e] l IH] using rev_ind; [done|]. rewrite fold_left_app. cbn.
  destruct (nr_connection_id e) as [d|] eqn:Hd.
  - rewrite lookup_insert_Some. intros [[<- <-]|[_ H]]; [exists e; rewrite elem_of_app, list_elem_of_singleton; auto|].
    destruct (IH H) as (e' & ? & ?). exists e'. rewrite elem_of_app. auto.
  - intros H. destruct (IH H) as (e' & ? & ?). exists e'. rewrite elem_of_app. auto.
Qed.
Lemma index_connections_complete l c k e : (k, e) ∈ l -> nr_connection_id e = Some c -> is_Some (index_connections l !! c).
Proof.
  unfold index_connections. induction l as [|[k' e'] l IH] using rev_ind; [by intros ?%not_elem_of_nil|].
  rewrite fold_left_app. cbn. intros [Hin|[= <- <-]%list_elem_of_singleton]%elem_of_app Hc.
  - destruct (nr_connection_id e') as [d|]; [|by apply IH].
    destruct (decide (d = c)) as [->|Hne]; [rewrite lookup_insert_eq; by eexists|]. rewrite lookup_insert_ne by done. by apply IH.
  - rewrite Hc, lookup_insert_eq. by eexists.
Qed.

Lemma rebuild_index_spec st :
  let st' := rebuild_connection_index iter st in
  nodes st' = nodes st /\ root_ids st' = root_ids st
  /\ (forall c n, node_index st' !! c = Some n -> connection_id_for_node n st' = Some c)
  /\ (forall c n, connection_id_for_node n st' = Some c -> is_Some (node_index st' !! c)).
Proof.
  cbn. split_and!; [done..| |].
  - intros c n Hc. apply index_connections_sound in Hc as (e & He & Hec). apply iter_elem in He.
    unfold connection_id_for_node. cbn. by rewrite He.
  - intros c n. unfold connection_id_for_node. cbn. destruct (nodes st !! n) as [e|] eqn:He; [|done]. cbn. intros Hc.
    eapply index_connections_complete; [by apply iter_elem|done].
Qed.

Lemma tree_ok_rebuild st :
  forest_ok st -> (forall n e, nodes st !! n = Some e -> ws_endpoint (nr_state e) = None) ->
  tree_ok (rebuild_connection_index iter st).
Proof.
  intros Hf Hw. destruct (rebuild_index_spec st) as (Hn & Hr & Hi & _). split.
  - by apply (forest_ok_shapes st).
  - constructor; [done|]. rewrite Hn. done.
Qed.

Lemma push_missing_id roots l : (forall x, x ∈ l -> x ∈ roots) -> fold_left push_missing l roots = roots.
Proof.
  induction l as [|x l IH]; intros H; [done|]. cbn. unfold push_missing at 2.
  rewrite bool_decide_eq_true_2 by apply H, list_elem_of_here. apply IH. intros y Hy. apply H. by apply list_elem_of_further.
Qed.

(** On a forest only the index is computed anew. *)
Lemma reconcile_topology_forest st : forest_ok st -> reconcile_topology iter st = rebuild_connection_index iter st.
Proof.
  intros Hf. unfold reconcile_topology.
  assert (Hsame : reconcile_node (dom (nodes st)) <$> nodes st = nodes st).
  { apply map_eq. intros x. rewrite lookup_fmap. destruct (nodes st !! x) as [e|] eqn:He; [|done]. cbn. f_equal.
    unfold reconcile_node. rewrite filter_all.
    - replace (set_children (nr_children_ids e) e) with e by (by destruct e).
      destruct (nr_parent_id e) as [p|] eqn:Hp; [|done]. destruct (fo_parent _ Hf _ _ _ He Hp) as (pe & Hpe & _).
      by rewrite bool_decide_eq_true_2 by (apply elem_of_dom; by eexists).
    - intros c Hc. destruct (fo_child _ Hf _ _ _ He Hc) as (ce & Hce & _). apply bool_decide_eq_true, elem_of_dom. by eexists. }
  rewrite Hsame. replace (set_nodes (nodes st) st) with st by (by destruct st). set (computed := sort_by _ _).
  assert (Hc : forall x, x ∈ computed <-> x ∈ root_ids st).
  { intros x. unfold computed. rewrite sort_by_perm, list_elem_of_fmap. split.
    - intros ([k e] & -> & Hk). rewrite filter_elem, bool_decide_eq_true in Hk. destruct Hk as [Hk Hp].
      apply iter_elem in Hk. by eapply fo_root.
    - intros Hx. destruct (fo_roots _ Hf _ Hx) as (e & He & Hp). exists (x, e). split; [done|].
      rewrite filter_elem, bool_decide_eq_true. split; [by apply iter_elem|done]. }
  rewrite filter_all.
  - rewrite push_missing_id by (intros x; apply Hc). by destruct st.
  - intros x Hx. rewrite !bool_decide_eq_true_2; [done|by apply Hc|]. destruct (fo_roots _ Hf _ Hx) as (e & He & _).
    apply elem_of_dom. by eexists.
Qed.

Lemma tree_ok_reconcile_connections connections st : tree_ok st -> tree_ok (reconcile_with_connections iter connections st).
Proof.
  intros [Hf [_ Hw]]. apply tree_ok_rebuild.
  - apply (forest_ok_shapes st); [|done|done]. cbn. rewrite <-map_fmap_compose. apply map_fmap_ext. intros x e _. cbn.
    unfold reconcile_connection. destruct (nr_connection_id e) as [c|]; [destruct (connections !! c)|]; done.
  - intros x e. cbn. rewrite lookup_fmap_Some. intros (e0 & <- & He0). apply Hw in He0. unfold reconcile_connection.
    destruct (nr_connection_id e0) as [c|]; [destruct (connections !! c)|]; done.
Qed.
End Reconcile.

Lemma size_ids_le (l : list string) : (size (list_to_set l : gset string) <= length l)%nat.
Proof.
  induction l as [|x l IH]; [done|]. cbn. destruct (decide (x ∈ (list_to_set l : gset string))).
  - replace ({[x]} ∪ list_to_set l : gset string) with (list_to_set l : gset string) by set_solver. lia.
  - rewrite size_union by set_solver. rewrite size_singleton. lia.
Qed.
Lemma ids_distinct (l : list string) : size (list_to_set l : gset string) = length l <-> NoDup l.
Proof.
  split; [|apply size_list_to_set]. induction l as [|x l IH]; [constructor|]. cbn. pose proof (size_ids_le l).
  destruct (decide (x ∈ (list_to_set l : gset string))) as [Hx|Hx].
  - replace ({[x]} ∪ list_to_set l : gset string) with (list_to_set l : gset string) by set_solver. lia.
  - rewrite size_union by set_solver. rewrite size_singleton. intros [= H']. rewrite elem_of_list_to_set in Hx.
    constructor; [done|by apply IH].
Qed.

Lemma missing_parent_spec ns :
  missing_parent ns = None <-> forall n p, n ∈ ns -> sn_parent_id n = Some p -> p ∈ map sn_id ns.
Proof.
  unfold missing_parent. set (f := fun n : NodeTreeSnapshotNode => _). split.
  - intros H n p Hn Hp. destruct (omap f ns) as [|x l] eqn:E; [|done].
    destruct (decide (p ∈ map sn_id ns)) as [?|Hno]; [done|]. assert (Hx : p ∈ omap f ns).
    { apply list_elem_of_omap. exists n. split; [done|]. unfold f. by rewrite Hp, bool_decide_eq_false_2. }
    rewrite E in Hx. by apply not_elem_of_nil in Hx.
  - intros H. destruct (omap f ns) as [|x l] eqn:E; [done|].
    assert (Hx : x ∈ omap f ns) by (rewrite E; apply list_elem_of_here).
    apply list_elem_of_omap in Hx as (n & Hn & Hf). unfold f in Hf. destruct (sn_parent_id n) as [p|] eqn:Hp; [|done].
    rewrite bool_decide_eq_true_2 in Hf by (by eapply H). done.
Qed.

Section ApplySnapshot.
Context (iter : gmap string NodeRuntimeEntry -> list (string * NodeRuntimeEntry)).
Context (keys : gmap string (option string) -> list string).
Context (Hiter : forall m, iter m ≡ₚ map_to_list m) (Hkeys : forall m x, x ∈ keys m <-> x ∈ dom m).

Lemma parent_map_dom ns x : NoDup (map sn_id ns) -> x ∈ dom (parent_map ns) <-> x ∈ map sn_id ns.
Proof.
  intros Hn. rewrite elem_of_dom, list_elem_of_fmap. split.
  - intros [o (n & Hin & <- & _)%parent_map_lookup]; eauto.
  - intros (n & -> & Hin). exists (sn_parent_id n). apply parent_map_lookup; eauto.
Qed.
Lemma parent_map_size ns : NoDup (map sn_id ns) -> size (dom (parent_map ns)) = length ns.
Proof.
  intros Hn. replace (dom (parent_map ns)) with (list_to_set (map sn_id ns) : gset string).
  - by rewrite size_list_to_set, length_map.
  - apply set_eq. intros x. by rewrite elem_of_list_to_set, parent_map_dom.
Qed.

(** The checks: they end, and accept exactly the valid snapshots. *)
Lemma checks_spec s st :
  (snapshot_valid s /\ apply_snapshot iter keys s st
     = (st ← insert_restored (walk_fuel (ts_nodes s)) (parent_map (ts_nodes s))
               (ordered_children_map (ts_nodes s) (children_map (ts_nodes s))) (ts_nodes s)
               (mkStore ∅ (ordered_snapshot_ids (ts_root_ids s) (root_ids_from_nodes (ts_nodes s))) ∅);
        Some (Ok tt, reconcile_topology iter st)))
  \/ (~ snapshot_valid s /\ exists e, apply_snapshot iter keys s st = Some (Err e, st)).
Proof.
  unfold apply_snapshot. set (ns := ts_nodes s). set (m := parent_map ns).
  destruct (Nat.eqb_spec (size (list_to_set (map sn_id ns) : gset string)) (length ns)) as [Hd|Hd]; cbn.
  2: { right. split; [|by eexists]. intros [Hn _ _]. apply Hd. rewrite <-(length_map sn_id ns). by apply ids_distinct. }
  assert (Hnd : NoDup (map sn_id ns)) by (apply ids_distinct; by rewrite length_map).
  destruct (missing_parent ns) as [p|] eqn:Hmp.
  { right. split; [|by eexists]. intros [_ Hp _]. apply missing_parent_spec in Hp. fold ns in Hp. congruence. }
  pose proof (proj1 (missing_parent_spec ns) Hmp) as Hpar.
  assert (Hclosed : forall n p, m !! n = Some (Some p) -> is_Some (m !! p)).
  { intros n p (x & Hx & _ & Hp)%parent_map_lookup; [|done]. apply elem_of_dom. apply parent_map_dom; [done|]. by eapply Hpar. }
  assert (Hsize : (size (dom m) < walk_fuel ns)%nat) by (unfold m, walk_fuel; rewrite parent_map_size by done; lia).
  assert (Hall : forall P : string -> Prop, (forall n, n ∈ keys m -> P n) <-> (forall n, n ∈ ns -> P (sn_id n))).
  { intros P. split.
    - intros H n Hn. apply H, Hkeys, parent_map_dom; [done|]. by apply list_elem_of_fmap_2.
    - intros H n Hn. apply Hkeys, parent_map_dom in Hn; [|done]. apply list_elem_of_fmap in Hn as (x & -> & Hx). by apply H. }
  unfold validate_snapshot_parent_graph.
  destruct (validate_spec m Hclosed (walk_fuel ns) (keys m) Hsize) as [[-> Hch]|[(x & Hx & Hno) [e ->]]]; [intros x; apply Hkeys|..]; cbn.
  2: { right. split; [|by eexists]. intros [_ _ Hdep]. apply Hkeys, parent_map_dom in Hx; [|done].
       apply list_elem_of_fmap in Hx as (n & -> & Hin). destruct (Hdep n Hin) as (l & Hl & _). by eapply Hno. }
  destruct (too_deep_spec m Hclosed (walk_fuel ns) (keys m) Hch) as (b & -> & Hb). cbn. destruct b.
  { right. split; [|by eexists]. intros [_ _ Hdep]. enough (true = false) by done. apply Hb. intros n l Hn Hl.
    apply Hkeys, parent_map_dom in Hn; [|done]. apply list_elem_of_fmap in Hn as (x & -> & Hin).
    destruct (Hdep x Hin) as (l' & Hl' & Hle). by rewrite (up_chain_fun _ _ _ _ Hl Hl'). }
  left. split; [|done]. constructor; [done..|]. apply (Hall (fun n => exists l, up_chain m n l /\ zlen l <= MAX_SESSION_TREE_DEPTH)).
  intros n Hn. destruct (Hch n Hn) as (l & Hl & _). exists l. split; [done|]. by apply (proj1 Hb eq_refl n).
Qed.

(** The import as a whole. *)
Lemma apply_snapshot_spec s st :
  (snapshot_valid s /\ exists st', apply_snapshot iter keys s st = Some (Ok tt, st') /\ tree_ok st'
     /\ (forall id e, nodes st' !! id = Some e <-> exists n, n ∈ ts_nodes s /\ sn_id n = id /\ restores s n e)
     /\ root_ids st' = ordered_snapshot_ids (ts_root_ids s) (root_ids_from_nodes (ts_nodes s))
     /\ (forall c n, connection_id_for_node n st' = Some c -> is_Some (node_index st' !! c)))
  \/ (~ snapshot_valid s /\ exists e, apply_snapshot iter keys s st = Some (Err e, st)).
Proof.
  destruct (checks_spec s st) as [[Hv Hrun]|H]; [left|by right]. split; [done|]. rewrite Hrun.
  pose proof Hv as [Hnd Hpar Hdep]. set (ns := ts_nodes s) in *. set (m := parent_map ns) in *.
  assert (Hd : forall n, n ∈ ns -> exists l, up_chain m (sn_id n) l /\ snapshot_node_depth (walk_fuel ns) (sn_id n) m = Some (zlen l)).
  { intros n Hin. destruct (Hdep n Hin) as (l & Hl & Hle). exists l. split; [done|].
    destruct (validate_spec m (valid_closed s Hv) (walk_fuel ns) [sn_id n]) as [[_ H]|[(x & Hx & Hno) _]].
    - unfold m, walk_fuel. rewrite parent_map_size by done. lia.
    - intros x ->%list_elem_of_singleton. apply parent_map_dom; [done|]. by apply list_elem_of_fmap_2.
    - destruct (H _ (list_elem_of_here _ _)) as (l' & Hl' & Hf). rewrite (up_chain_fun _ _ _ _ Hl Hl') in *.
      rewrite (snapshot_depth_spec m _ _ l') by done. f_equal. unfold MAX_SESSION_TREE_DEPTH in Hle. lia.
    - apply list_elem_of_singleton in Hx as ->. by apply Hno in Hl. }
  destruct (insert_restored_spec (walk_fuel ns) m (ordered_children_map ns (children_map ns)) ns
    (mkStore ∅ (ordered_snapshot_ids (ts_root_ids s) (root_ids_from_nodes ns)) ∅)) as (st1 & -> & Hr1 & Hn1).
  { intros n Hin. destruct (Hd n Hin) as (l & _ & ->). by eexists. }
  cbn in Hr1, Hn1 |- *.
  assert (Hl1 : forall id e, nodes st1 !! id = Some e <-> exists n, n ∈ ns /\ sn_id n = id /\ restores s n e).
  { intros id e. rewrite Hn1, fold_insert_lookup by done.
    assert (Hre : forall n e, n ∈ ns -> restored_entry (ordered_children_map ns (children_map ns))
      (default 0 (snapshot_node_depth (walk_fuel ns) (sn_id n) m)) n = e <-> restores s n e).
    { intros n e0 Hin. unfold restored_entry. rewrite (restored_children ns n) by done.
      destruct (Hd n Hin) as (l & Hl & ->). cbn. split; [intros <-; by exists l|].
      intros (l' & Hl' & ->). by rewrite (up_chain_fun _ _ _ _ Hl' Hl). }
    split; intros (n & Hin & Hid & H); exists n; (split_and!; [done..|by apply Hre]). }
  pose proof (restored_forest s st1 Hv Hl1 Hr1) as Hf. rewrite reconcile_topology_forest by done.
  exists (rebuild_connection_index iter st1). split; [done|]. destruct (rebuild_index_spec iter Hiter st1) as (_ & _ & _ & Hcomp).
  split_and!; [|done|done|done]. apply tree_ok_rebuild; [done|done|]. intros x e (n & _ & _ & l & _ & ->)%Hl1. done.
Qed.
End ApplySnapshot.

(** ** Export *)

Section Exported.
Context (iter : gmap string NodeRuntimeEntry -> list (string * NodeRuntimeEntry)).
Context (Hiter : forall m, iter m ≡ₚ map_to_list m).
Context (now_ms : Z) (st : NodeRuntimeStore) (Hok : tree_ok st).
Let s := export_snapshot iter now_ms st.

Lemma exported_perm : ts_nodes s ≡ₚ map snapshot_node (map_to_list (nodes st)).
Proof. unfold s, export_snapshot. cbn. by rewrite sort_by_perm, Hiter. Qed.

Lemma exported_elem n : n ∈ ts_nodes s <-> exists e, nodes st !! sn_id n = Some e /\ n = snapshot_node (sn_id n, e).
Proof.
  rewrite exported_perm, list_elem_of_fmap. split.
  - intros ([id e] & -> & H%elem_of_map_to_list). by exists e.
  - intros (e & He & Hn). exists (sn_id n, e). split; [done|]. by apply elem_of_map_to_list.
Qed.
Lemma exported_node id e : nodes st !! id = Some e -> snapshot_node (id, e) ∈ ts_nodes s.
Proof. intros He. apply exported_elem. by exists e. Qed.

Lemma exported_nodup : NoDup (map sn_id (ts_nodes s)).
Proof.
  rewrite exported_perm, map_map. erewrite map_ext; [apply (NoDup_fst_map_to_list (nodes st))|]. by intros [].
Qed.

Lemma exported_parent id e :
  nodes st !! id = Some e -> parent_map (ts_nodes s) !! id = Some (nr_parent_id e).
Proof.
  intros He. apply parent_map_lookup; [apply exported_nodup|]. exists (snapshot_node (id, e)).
  split_and!; [by apply exported_node|done|done].
Qed.

Lemma exported_chain id e :
  nodes st !! id = Some e -> exists l, up_chain (parent_map (ts_nodes s)) id l /\ zlen l = nr_depth e.
Proof.
  destruct Hok as [Hf _]. assert (H : forall k id e, nodes st !! id = Some e -> nr_depth e < Z.of_nat k ->
    exists l, up_chain (parent_map (ts_nodes s)) id l /\ zlen l = nr_depth e).
  { clear id e. induction k as [|k IH]; intros id e He Hk; [pose proof (fo_depth _ Hf _ _ He); lia|].
    pose proof (exported_parent id e He) as Hm. destruct (nr_parent_id e) as [p|] eqn:Hp.
    - destruct (fo_parent _ Hf _ _ _ He Hp) as (pe & Hpe & _ & Hd). destruct (IH p pe Hpe) as (l & Hl & Hlen); [lia|].
      exists (p :: l). split; [by eapply up_step|]. rewrite zlen_cons. lia.
    - exists []. split; [by constructor|]. by destruct (fo_root _ Hf _ _ He Hp) as [_ ->]. }
  intros He. apply (H (S (Z.to_nat (nr_depth e))) id e He). lia.
Qed.

Lemma exported_valid : snapshot_valid s.
Proof.
  constructor; [apply exported_nodup|..].
  - intros n p (e & He & ->)%exported_elem Hp. cbn in *. destruct Hok as [Hf _].
    destruct (fo_parent _ Hf _ _ _ He Hp) as (pe & Hpe & _). apply list_elem_of_fmap.
    exists (snapshot_node (p, pe)). split; [done|by apply exported_node].
  - intros n (e & He & ->)%exported_elem. cbn in *. destruct (exported_chain _ _ He) as (l & Hl & Hlen).
    exists l. split; [done|]. rewrite Hlen. by eapply fo_depth; [apply Hok|].
Qed.

(** An exported node is restored as it was. *)
Lemma exported_restores id e : nodes st !! id = Some e -> restores s (snapshot_node (id, e)) e.
Proof.
  intros He. destruct Hok as [Hf Hb]. destruct (exported_chain _ _ He) as (l & Hl & Hlen). exists l. split; [done|].
  assert (Hch : ordered_snapshot_ids (nr_children_ids e) (derived_children (ts_nodes s) id) = nr_children_ids e).
  { apply ordered_ids_same; [by eapply fo_nodup|]. intros x.
    rewrite derived_children_elem, (child_of_iff st Hf id e x He). split.
    - intros (ce & Hce & Hcp). exists (snapshot_node (x, ce)). split_and!; [by apply exported_node|done|done].
    - intros (n & (ce & Hce & ->)%exported_elem & <- & Hcp). by exists ce. }
  cbn [snapshot_node sn_id sn_children_ids]. rewrite Hch, Hlen. pose proof (bo_ws _ Hb _ _ He) as Hw.
  destruct e as [? ? ? ? ? ? ? eps ? [? ? ? ? ?] ? ?]. cbn in *. subst. by destruct eps.
Qed.

Lemma exported_roots :
  ordered_snapshot_ids (ts_root_ids s) (root_ids_from_nodes (ts_nodes s)) = root_ids st.
Proof.
  destruct Hok as [Hf _]. apply ordered_ids_same; [by apply fo_nodup_roots|]. intros x. rewrite root_ids_elem. split.
  - intros Hx. destruct (fo_roots _ Hf _ Hx) as (e & He & Hp). exists (snapshot_node (x, e)).
    split_and!; [by apply exported_node|done|done].
  - intros (n & (e & He & ->)%exported_elem & <- & Hp). by eapply fo_root.
Qed.
End Exported.

(** ** The snapshot on disk *)

(** What may be written of a node: it is made anew from a saved connection, or
    its configuration holds no secret. *)
Definition persistable (e : NodeRuntimeEntry) : bool :=
  bool_decide (is_Some (saved_connection_id (nr_origin e))) || negb (has_runtime_auth_secret (nr_config e)).


Lemma filter_same_length {A} (q : A -> bool) (l : list A) : length (List.filter q l) = length l -> List.filter q l = l.
Proof.
  induction l as [|x l IH]; [done|]. cbn. destruct (q x); cbn; [intros [= H]; by rewrite IH|].
  pose proof (sublist_length _ _ (filter_sublist q l)). lia.
Qed.

(** [good] ids are those whose parents are good too: they stay. *)
Lemma prune_loop_spec (good : string -> Prop) fuel ns :
  (length ns < fuel)%nat -> (forall n p, n ∈ ns -> good (pn_id n) -> pn_parent_id n = Some p -> good p /\ p ∈ map pn_id ns) ->
  exists kept, prune_loop fuel ns = Some kept /\ kept `sublist_of` ns
    /\ (forall n, n ∈ kept -> parent_kept (map pn_id kept) n = true) /\ (forall n, n ∈ ns -> good (pn_id n) -> n ∈ kept).
Proof.
  revert ns. induction fuel as [|fuel IH]; intros ns Hfuel Hg; [lia|]. cbn.
  set (kept := List.filter (parent_kept (map pn_id ns)) ns).
  assert (Hsub : kept `sublist_of` ns) by apply filter_sublist.
  assert (Hk : forall n, n ∈ ns -> good (pn_id n) -> n ∈ kept).
  { intros n Hn Hgn. unfold kept. rewrite filter_elem. split; [done|]. unfold parent_kept.
    destruct (pn_parent_id n) as [p|] eqn:Hp; [|done]. apply bool_decide_eq_true. by eapply Hg. }
  destruct (Nat.eqb_spec (length kept) (length ns)) as [Hl|Hl].
  - exists kept. split_and!; [done..| |done]. assert (He : kept = ns) by (by apply filter_same_length).
    intros n Hn. rewrite He. unfold kept in Hn. rewrite filter_elem in Hn. by destruct Hn.
  - apply sublist_length in Hsub as Hlen. destruct (IH kept) as (out & -> & Hs & Hc & Hgo); [lia| |].
    + intros n p Hn Hgn Hp. pose proof (elem_of_submseteq _ _ _ Hn (sublist_submseteq _ _ Hsub)) as Hin.
      destruct (Hg n p Hin Hgn Hp) as [Hgp Hpin]. split; [done|]. apply list_elem_of_fmap in Hpin as (q & -> & Hq).
      apply list_elem_of_fmap_2. by apply Hk.
    + exists out. split_and!; [done|by etrans|done|]. intros n Hn Hgn. apply Hgo; [by apply Hk|done].
Qed.

Section Persist.
Context (iter : gmap string NodeRuntimeEntry -> list (string * NodeRuntimeEntry)).
Context (Hiter : forall m, iter m ≡ₚ map_to_list m).
Context (st : NodeRuntimeStore) (Hok : tree_ok st).

(** [n] and every node above it may be written. *)
Definition restorable (n : string) : Prop :=
  is_Some (nodes st !! n) /\ forall a e, under st n a -> nodes st !! a = Some e -> persistable e = true.

Lemma persistence_node_spec id e pn :
  persistence_node (id, e) = Some pn ->
  persistable e = true /\ pn_id pn = id /\ pn_parent_id pn = nr_parent_id e /\ pn_children_ids pn = nr_children_ids e
  /\ pn_origin pn = nr_origin e
  /\ pn_config pn = (if bool_decide (is_Some (saved_connection_id (nr_origin e))) then None else Some (nr_config e)).
Proof.
  unfold persistence_node, persistable. case_bool_decide; [by intros [= <-]|].
  destruct (has_runtime_auth_secret (nr_config e)) eqn:Hs; [done|]. by intros [= <-].
Qed.
Lemma persistence_node_some id e : persistable e = true -> is_Some (persistence_node (id, e)).
Proof.
  unfold persistence_node, persistable. case_bool_decide; [by eexists|]. cbn. rewrite negb_true_iff. intros ->. by eexists.
Qed.

Lemma candidate_elem pn :
  pn ∈ omap persistence_node (iter (nodes st)) <-> exists e, nodes st !! pn_id pn = Some e /\ persistence_node (pn_id pn, e) = Some pn.
Proof.
  rewrite list_elem_of_omap. split.
  - intros ([id e] & Hin & Hpn). rewrite (iter_elem iter Hiter) in Hin.
    pose proof (persistence_node_spec _ _ _ Hpn) as (_ & -> & _). by exists e.
  - intros (e & He & Hpn). exists (pn_id pn, e). by rewrite (iter_elem iter Hiter).
Qed.

Lemma restorable_parent n e p : nodes st !! n = Some e -> nr_parent_id e = Some p -> restorable n -> restorable p.
Proof.
  intros He Hp [_ Hr]. destruct Hok as [Hf _]. destruct (fo_parent _ Hf _ _ _ He Hp) as (pe & Hpe & _).
  split; [by eexists|]. intros a ea Hu. apply Hr. eapply rtc_l; [by exists e|done].
Qed.

(** The kept nodes are the restorable ones. *)
Lemma kept_spec :
  exists kept, prune_loop (S (length (omap persistence_node (iter (nodes st))))) (omap persistence_node (iter (nodes st))) = Some kept
    /\ (forall pn, pn ∈ kept -> exists e, nodes st !! pn_id pn = Some e /\ persistence_node (pn_id pn, e) = Some pn)
    /\ (forall n, n ∈ map pn_id kept <-> restorable n).
Proof.
  set (ns := omap persistence_node (iter (nodes st))).
  assert (Hin : forall n, restorable n -> exists pn, pn ∈ ns /\ pn_id pn = n).
  { intros n [[e He] Hr]. destruct (persistence_node_some n e) as [pn Hpn]; [by apply (Hr n)|].
    pose proof (persistence_node_spec _ _ _ Hpn) as (_ & Hid & _). exists pn. split; [|done].
    apply candidate_elem. rewrite Hid. by exists e. }
  destruct (prune_loop_spec restorable (S (length ns)) ns) as (kept & Hrun & Hsub & Hc & Hg); [lia| |].
  { intros pn p (e & He & Hpn)%candidate_elem Hr Hp. pose proof (persistence_node_spec _ _ _ Hpn) as (_ & _ & Hpp & _).
    assert (Hrp : restorable p) by (eapply restorable_parent; [done|congruence|done]). split; [done|].
    destruct (Hin p Hrp) as (pn' & Hpn' & <-). by apply list_elem_of_fmap_2. }
  assert (Hk : forall pn, pn ∈ kept -> exists e, nodes st !! pn_id pn = Some e /\ persistence_node (pn_id pn, e) = Some pn).
  { intros pn Hpn. apply candidate_elem. eapply elem_of_submseteq; [done|by apply sublist_submseteq]. }
  exists kept. split_and!; [done..|]. intros n. split.
  - intros Hn. apply list_elem_of_fmap in Hn as (pn & -> & Hpn). destruct (Hk pn Hpn) as (e & He & _). split; [by eexists|].
    intros a ea Hu. assert (Ha : a ∈ map pn_id kept).
    { apply list_elem_of_fmap_2 with (f := pn_id) in Hpn. clear He. revert Hpn. induction Hu as [|x y z (ex & Hex & Hxy) _ IH]; [done|].
      intros Hx. apply IH. apply list_elem_of_fmap in Hx as (px & -> & Hpx). pose proof (Hc px Hpx) as Hpk.
      destruct (Hk px Hpx) as (e' & He' & Hp'). pose proof (persistence_node_spec _ _ _ Hp') as (_ & _ & Hpp & _).
      unfold parent_kept in Hpk. rewrite Hpp in Hpk. replace e' with ex in Hpk by congruence. rewrite Hxy in Hpk.
      by apply bool_decide_eq_true in Hpk. }
    intros Hea. apply list_elem_of_fmap in Ha as (pa & -> & Hpa). destruct (Hk pa Hpa) as (e' & He' & Hp').
    pose proof (persistence_node_spec _ _ _ Hp') as (Hper & _). by replace ea with e' by congruence.
  - intros Hr. destruct (Hin n Hr) as (pn & Hpn & <-). apply list_elem_of_fmap_2. by apply Hg.
Qed.
End Persist.
