(* ===== verification/NodeHistory.v ===== *)
(** * Histories of the node tree

    The operations of [NodeTree] and [NodeSnapshot] in any order, and the
    theorems about the trees they make: the forest stays well formed, imports
    accept exactly well-formed snapshots, an export restores the tree it was
    taken from, what is written to disk holds no secret, a removal takes exactly
    the subtree. *)
From S2P Require Import Prelude NodeEvents X11 X11Authority SshConfigs NodeTree NodeForest NodeSnapshot.
From stdpp Require Import prelude list numbers gmap strings sorting.
Open Scope Z_scope.

(** Operations that change no link between nodes. *)
Inductive field_op : forall {A}, Route A -> Prop :=
| fop_origin n o : field_op (update_origin n o)
| fop_bind n c s : field_op (bind_connection n c s)
| fop_disconnect n why : field_op (disconnect_node n why)
| fop_terminal n s : field_op (bind_terminal_session n s)
| fop_endpoint n ep : field_op (bind_terminal_endpoint n ep)
| fop_unbind n s : field_op (unbind_terminal_session n s)
| fop_sftp n s cwd : field_op (bind_sftp_session n s cwd)
| fop_sftp_ready n r cwd : field_op (set_node_sftp_ready n r cwd)
| fop_shared_sftp n c g r : field_op (shared_sftp_session_changed n c g r)
| fop_state n s why : field_op (update_connection_state_from_parts n s why)
| fop_readiness n r why : field_op (apply_node_readiness n r why).

Section History.
Context (iter : gmap string NodeRuntimeEntry -> list (string * NodeRuntimeEntry)).
Context (keys : gmap string (option string) -> list string).

(** One operation.  UUIDs are fresh.  The program adds children by drilling down
    and by expanding saved connections, which check the depth and draw new ids;
    the public [upsert_child_node_with_origin] by itself checks neither, and is
    taken here only under a parent less than ten deep, for a child that is new or
    already a child of this parent. *)
Inductive tree_step (st : NodeRuntimeStore) : NodeRuntimeStore -> Prop :=
| step_upsert now n c o : tree_step st (upsert_node_with_origin now n c o st)
| step_new_child now p n c o r st' :
    nodes st !! n = None -> (forall pe, nodes st !! p = Some pe -> nr_depth pe < MAX_SESSION_TREE_DEPTH) ->
    upsert_child_node_with_origin now p n c o st = Some (r, st') -> tree_step st st'
| step_same_child now p n c o r st' :
    child_of st n p -> upsert_child_node_with_origin now p n c o st = Some (r, st') -> tree_step st st'
| step_drill uuid t now p c r st' :
    nodes st !! generated_tree_node_id "drill" uuid = None -> drill_down uuid t now p c st = Some (r, st') -> tree_step st st'
| step_expand uuid now saved hops target r st' :
    zlen hops < 2 ^ 32 - 1 -> NoDup (preset_ids uuid (length hops)) ->
    (forall x, x ∈ preset_ids uuid (length hops) -> nodes st !! x = None) ->
    expand_manual_preset uuid now saved hops target st = Some (r, st') -> tree_step st st'
| step_expand_under uuid now parent saved hops target r st' :
    zlen hops < 2 ^ 32 - 1 -> NoDup (preset_ids uuid (length hops)) ->
    (forall x, x ∈ preset_ids uuid (length hops) -> nodes st !! x = None) ->
    expand_manual_preset_under_parent uuid now parent saved hops target st = Some (r, st') -> tree_step st st'
| step_remove fuel n l st' :
    (Z.to_nat MAX_SESSION_TREE_DEPTH < fuel)%nat -> remove_subtree fuel n st = Some (l, st') -> tree_step st st'
| step_field A (m : Route A) r st' : field_op m -> m st = Some (r, st') -> tree_step st st'
| step_import s r st' : apply_snapshot iter keys s st = Some (r, st') -> tree_step st st'
| step_reconcile connections : tree_step st (reconcile_with_connections iter connections st)
| step_x11 saved policy : tree_step st (update_saved_connection_x11_forwarding iter saved policy st).2
| step_clear : tree_step st (clear_store st).
End History.

(** ** Every operation keeps the invariant *)

Lemma keeps_run {A} (m : Route A) st r st' : keeps m -> tree_ok st -> m st = Some (r, st') -> tree_ok st'.
Proof. intros Hk Hok Hrun. specialize (Hk st Hok). unfold wp in Hk. by rewrite Hrun in Hk. Qed.

Lemma field_op_keeps {A} (m : Route A) : field_op m -> keeps m.
Proof. destruct 1; auto with keeps. Qed.

Lemma tree_ok_empty : tree_ok NodeRuntimeStore_default.
Proof. split; constructor; cbn; intros; try set_solver; constructor. Qed.

Lemma tree_ok_x11 iter saved policy st :
  tree_ok st -> tree_ok (update_saved_connection_x11_forwarding iter saved policy st).2.
Proof.
  intros Hok. unfold update_saved_connection_x11_forwarding. generalize (map (fun n : string * option Z * list string => n.1.1)
    (List.filter (preset_target (omap (fun n => pair n.1.1 <$> n.1.2) (omap (materialized saved) (iter (nodes st)))))
       (omap (materialized saved) (iter (nodes st))))) as targets. intros targets. generalize 0 as k. revert st Hok.
  induction targets as [|id targets IH]; intros st Hok k; [done|]. cbn.
  destruct (nodes st !! id) as [e|] eqn:He; [|by apply IH]. case_bool_decide; [by apply IH|]. apply IH.
  apply (tree_ok_update st id e); [done..|]. cbn. by eapply bo_ws; [apply Hok|].
Qed.

Lemma expand_keeps uuid now saved hops target st r st' :
  tree_ok st -> zlen hops < 2 ^ 32 - 1 -> NoDup (preset_ids uuid (length hops)) ->
  (forall x, x ∈ preset_ids uuid (length hops) -> nodes st !! x = None) ->
  expand_manual_preset uuid now saved hops target st = Some (r, st') -> tree_ok st'.
Proof.
  intros Hok Hlen Hn Hfresh Hrun. destruct hops as [|first rest].
  - destruct (preset_direct uuid now saved target st Hok Hfresh) as (t & st1 & Hr & _ & Hok1 & _). congruence.
  - destruct (decide (zlen (first :: rest) < MAX_SESSION_TREE_DEPTH)) as [Hd|Hd].
    + destruct (preset_chain uuid now saved first rest target st Hok Hd Hn Hfresh) as (t & st1 & Hr & _ & Hok1 & _). congruence.
    + unfold expand_manual_preset, expand_preset_chain_internal in Hrun. rewrite hop_count_small in Hrun by done.
      destruct (Z.ltb_spec MAX_SESSION_TREE_DEPTH (zlen (first :: rest) + 1)); [by injection Hrun as <- <-|lia].
Qed.

Lemma expand_under_keeps uuid now parent saved hops target st r st' :
  tree_ok st -> zlen hops < 2 ^ 32 - 1 -> NoDup (preset_ids uuid (length hops)) ->
  (forall x, x ∈ preset_ids uuid (length hops) -> nodes st !! x = None) ->
  expand_manual_preset_under_parent uuid now parent saved hops target st = Some (r, st') -> tree_ok st'.
Proof.
  intros Hok Hlen Hn Hfresh Hrun. destruct (nodes st !! parent) as [pe|] eqn:Hp.
  - destruct (is_ready pe) eqn:Hr.
    + destruct (decide (nr_depth pe + zlen hops < MAX_SESSION_TREE_DEPTH)) as [Hd|Hd].
      * destruct (preset_under_parent uuid now parent pe saved hops target st) as (above & _ & _ & t & st1 & Hr1 & _ & Hok1 & _); [done..|].
        congruence.
      * unfold expand_manual_preset_under_parent, expand_preset_chain_under_parent_internal, bind, get_node in Hrun.
        rewrite Hp, Hr in Hrun. cbn [negb] in Hrun. rewrite hop_count_small in Hrun by done.
        destruct (Z.ltb_spec MAX_SESSION_TREE_DEPTH (nr_depth pe + (zlen hops + 1))); [by injection Hrun as <- <-|lia].
    + unfold expand_manual_preset_under_parent, expand_preset_chain_under_parent_internal, bind, get_node in Hrun.
      rewrite Hp, Hr in Hrun. by injection Hrun as <- <-.
  - unfold expand_manual_preset_under_parent, expand_preset_chain_under_parent_internal, bind, get_node in Hrun.
    rewrite Hp in Hrun. by injection Hrun as <- <-.
Qed.

Lemma tree_step_ok iter keys st st' :
  (forall m, iter m ≡ₚ map_to_list m) -> (forall m x, x ∈ keys m <-> x ∈ dom m) ->
  tree_ok st -> tree_step iter keys st st' -> tree_ok st'.
Proof.
  intros Hiter Hkeys Hok Hstep. destruct Hstep.
  - by apply tree_ok_upsert_node.
  - destruct (nodes st !! p) as [pe|] eqn:Hp.
    + rewrite (upsert_new_child now p n c o pe st) in H1 by (done || apply Hok). injection H1 as <- <-.
      apply tree_ok_new_child; auto.
    + unfold upsert_child_node_with_origin, bind, update_node in H1. rewrite Hp in H1. by injection H1 as <- <-.
  - destruct H as (e & He & Hp). pose proof (upsert_same_child now p n c o e st Hok He Hp) as Hw.
    unfold wp in Hw. rewrite H0 in Hw. by destruct Hw.
  - pose proof (drill_down_ok uuid t now p c st Hok H) as Hw. unfold wp in Hw. by rewrite H0 in Hw.
  - by eapply expand_keeps.
  - by eapply expand_under_keeps.
  - destruct (remove_subtree_ok st fuel n Hok H) as (l1 & st1 & Hr & Hok1). congruence.
  - eapply keeps_run; [by apply field_op_keeps|done..].
  - destruct (apply_snapshot_spec iter keys Hiter Hkeys s st) as [(_ & st1 & Hr & Hok1 & _)|(_ & e & Hr)]; congruence.
  - by apply tree_ok_reconcile_connections.
  - by apply tree_ok_x11.
  - apply tree_ok_empty.
Qed.

Lemma history_ok iter keys st :
  (forall m, iter m ≡ₚ map_to_list m) -> (forall m x, x ∈ keys m <-> x ∈ dom m) ->
  rtc (tree_step iter keys) NodeRuntimeStore_default st -> tree_ok st.
Proof.
  intros Hiter Hkeys H. remember NodeRuntimeStore_default as st0 eqn:E.
  assert (Hok : tree_ok st0) by (subst; apply tree_ok_empty). clear E.
  induction H as [|x y z Hxy _ IH]; [done|]. apply IH. by eapply tree_step_ok.
Qed.

(** ** A sample tree *)

(** [a] with children [b] and [d], and [c] below [b]; [b] holds a password. *)
Definition agent_config (h : string) : SshConfig :=
  mkSsh h default_port "u" AAgent default_timeout default_cols default_rows None None None false None None false None None
    false None None.
Definition exec {A} (m : Route A) (st : NodeRuntimeStore) : NodeRuntimeStore :=
  match m st with Some (_, st') => st' | None => st end.
Definition sample_a : NodeRuntimeStore := upsert_node_with_origin 1 "a" (agent_config "h1") DirectNode NodeRuntimeStore_default.
Definition sample_ab : NodeRuntimeStore :=
  exec (upsert_child_node_with_origin 2 "a" "b" (password_config "h2" 22 "u" "pw") DirectNode) sample_a.
Definition sample_abc : NodeRuntimeStore :=
  exec (upsert_child_node_with_origin 3 "b" "c" (agent_config "h3") DirectNode) sample_ab.
Definition sample_abcd : NodeRuntimeStore :=
  exec (upsert_child_node_with_origin 4 "a" "d" (agent_config "h4") DirectNode) sample_abc.
Definition sample_tree : NodeRuntimeStore := exec (bind_connection "a" "k1" Active) sample_abcd.
Definition all_keys (m : gmap string (option string)) : list string := elements (dom m : gset string).

Lemma all_keys_elem (m : gmap string (option string)) x : x ∈ all_keys m <-> x ∈ dom m.
Proof. exact (elem_of_elements (C := gset string) (dom m) x). Qed.

Lemma sample_new_child now p n c st :
  is_Some (upsert_child_node_with_origin now p n c DirectNode st) -> nodes st !! n = None ->
  (match nodes st !! p with Some pe => nr_depth pe <? MAX_SESSION_TREE_DEPTH | None => true end = true) ->
  tree_step map_to_list all_keys st (exec (upsert_child_node_with_origin now p n c DirectNode) st).
Proof.
  intros [[r st'] Hrun] Hn Hd. unfold exec. rewrite Hrun. eapply step_new_child; [done| |done].
  intros pe Hpe. rewrite Hpe in Hd. by apply Z.ltb_lt.
Qed.

Lemma sample_history : rtc (tree_step map_to_list all_keys) NodeRuntimeStore_default sample_tree.
Proof.
  eapply rtc_l; [apply (step_upsert _ _ _ 1 "a" (agent_config "h1") DirectNode)|]. fold sample_a.
  eapply rtc_l; [apply (sample_new_child 2 "a" "b" (password_config "h2" 22 "u" "pw")); vm_compute; [by eexists|done..]|].
  fold sample_ab.
  eapply rtc_l; [apply (sample_new_child 3 "b" "c" (agent_config "h3")); vm_compute; [by eexists|done..]|]. fold sample_abc.
  eapply rtc_l; [apply (sample_new_child 4 "a" "d" (agent_config "h4")); vm_compute; [by eexists|done..]|]. fold sample_abcd.
  apply rtc_once. unfold sample_tree. eapply (step_field _ _ _ NodeStateEvent (bind_connection "a" "k1" Active)); [constructor|].
  vm_compute. reflexivity.
Qed.
Lemma sample_ok : tree_ok sample_tree.
Proof. exact (history_ok map_to_list all_keys sample_tree (fun m => reflexivity _) all_keys_elem sample_history). Qed.

(** ** The theorems *)

(** C27: after any sequence of the operations by which the program changes the
    tree (nodes added alone, by drilling down or from saved connections with fresh
    UUIDs, subtrees removed, sessions bound and unbound, snapshots imported,
    connections reconciled, cleared) the nodes form a forest of depth at most ten
    in which parents, children, depths and roots agree, and the tree view lists
    every node exactly once, parents first.  The sequence may also add a child
    directly, under a parent less than ten deep, if the child is new or already a
    child of this parent; the code does not check this itself, and a direct call
    that gives a node a second parent breaks the invariant. *)
Theorem node_tree_invariant iter keys st fuel :
  (forall m, iter m ≡ₚ map_to_list m) -> (forall m x, x ∈ keys m <-> x ∈ dom m) ->
  rtc (tree_step iter keys) NodeRuntimeStore_default st -> (Z.to_nat MAX_SESSION_TREE_DEPTH < fuel)%nat ->
  tree_ok st
  /\ exists view, flatten fuel st = Some view /\ shows_nodes st view /\ NoDup (map fn_id view)
     /\ (forall x, x ∈ map fn_id view <-> is_Some (nodes st !! x)) /\ StronglySorted (parent_first st) (map fn_id view).
Proof.
  intros Hiter Hkeys H Hfuel. pose proof (history_ok iter keys st Hiter Hkeys H) as Hok. split; [done|].
  apply flatten_spec; [apply Hok|done].
Qed.

Lemma node_tree_invariant_witness :
  tree_ok sample_tree /\ exists view, flatten 11 sample_tree = Some view /\ shows_nodes sample_tree view /\ NoDup (map fn_id view)
     /\ (forall x, x ∈ map fn_id view <-> is_Some (nodes sample_tree !! x))
     /\ StronglySorted (parent_first sample_tree) (map fn_id view).
Proof.
  apply (node_tree_invariant map_to_list all_keys sample_tree 11); [done|apply all_keys_elem|exact sample_history|vm_compute; lia].
Defined.

Example sample_view : map fn_id <$> flatten 11 sample_tree = Some ["a"; "b"; "c"; "d"]%string.
Proof. vm_compute. reflexivity. Qed.

(** C30: a snapshot is accepted exactly if its ids are distinct, every parent is
    one of its nodes, and every node has a root at most ten levels up; the
    result is then a forest with exactly its nodes, whose links are made from
    the parents alone and whose order follows the snapshot.  A refused snapshot
    leaves the tree as it was. *)
Theorem tree_import_exact iter keys s st :
  (forall m, iter m ≡ₚ map_to_list m) -> (forall m x, x ∈ keys m <-> x ∈ dom m) ->
  exists r st', apply_snapshot iter keys s st = Some (r, st')
    /\ (r = Ok tt <-> snapshot_valid s) /\ (r <> Ok tt -> st' = st)
    /\ (r = Ok tt -> tree_ok st'
        /\ (forall id e, nodes st' !! id = Some e <-> exists n, n ∈ ts_nodes s /\ sn_id n = id /\ restores s n e)
        /\ root_ids st' = ordered_snapshot_ids (ts_root_ids s) (root_ids_from_nodes (ts_nodes s))
        /\ (forall c n, connection_id_for_node n st' = Some c -> is_Some (node_index st' !! c))).
Proof.
  intros Hiter Hkeys. destruct (apply_snapshot_spec iter keys Hiter Hkeys s st) as [(Hv & st' & Hrun & H)|(Hv & e & Hrun)];
    (eexists _, _; split; [done|]); (split; [done|]); by split.
Qed.

Lemma tree_import_exact_witness :
  exists r st', apply_snapshot map_to_list all_keys (export_snapshot map_to_list 9 sample_tree) NodeRuntimeStore_default = Some (r, st')
    /\ (r = Ok tt <-> snapshot_valid (export_snapshot map_to_list 9 sample_tree)) /\ (r <> Ok tt -> st' = NodeRuntimeStore_default)
    /\ (r = Ok tt -> tree_ok st'
        /\ (forall id e, nodes st' !! id = Some e <-> exists n, n ∈ ts_nodes (export_snapshot map_to_list 9 sample_tree)
              /\ sn_id n = id /\ restores (export_snapshot map_to_list 9 sample_tree) n e)
        /\ root_ids st' = ordered_snapshot_ids (ts_root_ids (export_snapshot map_to_list 9 sample_tree))
             (root_ids_from_nodes (ts_nodes (export_snapshot map_to_list 9 sample_tree)))
        /\ (forall c n, connection_id_for_node n st' = Some c -> is_Some (node_index st' !! c))).
Proof. apply (tree_import_exact map_to_list all_keys); [done|apply all_keys_elem]. Defined.

(** A cycle of parents is refused. *)
Definition bare_node (id : string) (parent : option string) : NodeTreeSnapshotNode :=
  mkSnapshotNode id parent [] 0 (agent_config "h") DirectNode NodeState_default None None [] None 0 0.
Example cycle_refused :
  fst <$> apply_snapshot map_to_list all_keys (mkTreeSnapshot 1 0 [] [bare_node "x" (Some "y"); bare_node "y" (Some "x")]%string)
            sample_tree
  = Some (Err (ConnectionError "invalid node tree snapshot: parent cycle contains y")).
Proof. vm_compute. reflexivity. Qed.

(** C28: importing an exported tree gives back the same nodes, with their
    children in the same order, and the same roots, whatever was in the store
    and in whatever order the maps are iterated. *)
Theorem tree_snapshot_roundtrip iter iter' keys now_ms st old :
  (forall m, iter m ≡ₚ map_to_list m) -> (forall m, iter' m ≡ₚ map_to_list m) -> (forall m x, x ∈ keys m <-> x ∈ dom m) ->
  tree_ok st ->
  exists st', apply_snapshot iter' keys (export_snapshot iter now_ms st) old = Some (Ok tt, st')
    /\ nodes st' = nodes st /\ root_ids st' = root_ids st /\ tree_ok st'.
Proof.
  intros Hiter Hiter' Hkeys Hok. set (s := export_snapshot iter now_ms st).
  destruct (apply_snapshot_spec iter' keys Hiter' Hkeys s old) as [(_ & st' & Hrun & Hok' & Hn & Hr & _)|(Hv & _)].
  2: { exfalso. apply Hv. by apply exported_valid. }
  exists st'. split; [done|]. split_and!; [|rewrite Hr; by apply exported_roots|done].
  apply map_eq. intros id. destruct (nodes st !! id) as [e|] eqn:He.
  - apply Hn. exists (snapshot_node (id, e)). split_and!; [by apply exported_node|done|by apply exported_restores].
  - destruct (nodes st' !! id) as [e'|] eqn:He'; [|done]. apply Hn in He' as (n & Hin & <- & _).
    apply exported_elem in Hin as (e & He0 & _); [congruence|done].
Qed.

Lemma tree_snapshot_roundtrip_witness :
  exists st', apply_snapshot map_to_list all_keys (export_snapshot map_to_list 9 sample_tree) sample_a = Some (Ok tt, st')
    /\ nodes st' = nodes sample_tree /\ root_ids st' = root_ids sample_tree /\ tree_ok st'.
Proof.
  apply (tree_snapshot_roundtrip map_to_list map_to_list all_keys 9 sample_tree sample_a); [done|done|apply all_keys_elem|exact sample_ok].
Defined.

(** *** Secrets in a configuration *)

(** Every password and passphrase in a configuration. *)
Definition auth_secrets (a : AuthMethod) : list string :=
  match a with
  | APassword password => [password]
  | AKey _ passphrase | AManagedKey _ passphrase | ACertificate _ _ passphrase => option_list passphrase
  | AAgent | AKeyboardInteractive => []
  end.
Definition proxy_secrets (p : UpstreamProxyConfig) : list string :=
  match up_auth p with PaNone => [] | PaPassword _ password => [password] end.
Definition config_secrets (c : SshConfig) : list string :=
  auth_secrets (auth c) ++ flat_map (fun hop => auth_secrets (hop_auth hop)) (default [] (proxy_chain c))
  ++ from_option proxy_secrets [] (upstream_proxy c).
(** What serde writes of a configuration: the upstream proxy and the proxy command
    are skipped. *)
Definition written_config (c : SshConfig) : SshConfig :=
  mkSsh (host c) (port c) (username c) (auth c) (timeout_secs c) (cols c) (rows c) (proxy_chain c) None None
    (strict_host_key_checking c) (trust_host_key c) (expected_host_key_fingerprint c) (agent_forwarding c) (identity_agent c)
    (agent_forwarding_socket c) (legacy_ssh_compatibility c) (x11_forwarding c) (post_connect_command c).

Lemma auth_secretless a : has_runtime_secret a = false <-> auth_secrets a = [].
Proof. destruct a as [|? []| |? []|? ? []|]; by cbn. Qed.
Lemma config_secretless c : has_runtime_auth_secret c = false <-> config_secrets (written_config c) = [].
Proof.
  unfold has_runtime_auth_secret, config_secrets. cbn. rewrite app_nil_r, orb_false_iff, auth_secretless, app_nil.
  apply and_iff_compat_l. destruct (proxy_chain c) as [chain|]; cbn; [|done].
  induction chain as [|hop chain IH]; cbn; [done|]. by rewrite orb_false_iff, auth_secretless, IH, app_nil.
Qed.

(** A node that can be made again from what is written: it comes from a saved
    connection, or what is written of its configuration holds no secret. *)
Definition without_secret (e : NodeRuntimeEntry) : Prop :=
  is_Some (saved_connection_id (nr_origin e)) \/ config_secrets (written_config (nr_config e)) = [].
Lemma persistable_spec e : persistable e = true <-> without_secret e.
Proof. unfold persistable, without_secret. by rewrite orb_true_iff, bool_decide_eq_true, negb_true_iff, config_secretless. Qed.

(** C29: the snapshot that is written to disk can be made, and no password or
    passphrase is in what is written of it, neither of a node nor of its proxy
    hops nor of its upstream proxy (which serde skips, with the proxy command): a
    node is written without its configuration if it comes from a saved connection,
    and else only if what is written of its configuration has no such secret.  The
    nodes written are exactly those of which, and of all nodes above which, one of
    the two holds, and every parent, child and root that is named is among them. *)
Theorem persisted_tree_secretless iter now_ms st :
  (forall m, iter m ≡ₚ map_to_list m) -> tree_ok st ->
  exists p, export_persistence_snapshot iter now_ms st = Some p
    /\ (forall id, id ∈ map pn_id (ps_nodes p) <->
          is_Some (nodes st !! id) /\ forall a e, under st id a -> nodes st !! a = Some e -> without_secret e)
    /\ (forall pn, pn ∈ ps_nodes p ->
          match pn_config pn with
          | None => is_Some (saved_connection_id (pn_origin pn))
          | Some c => config_secrets (written_config c) = []
          end
          /\ (forall q, pn_parent_id pn = Some q -> q ∈ map pn_id (ps_nodes p))
          /\ (forall c, c ∈ pn_children_ids pn -> c ∈ map pn_id (ps_nodes p)))
    /\ (forall r, r ∈ ps_root_ids p <-> r ∈ root_ids st /\ r ∈ map pn_id (ps_nodes p)).
Proof.
  intros Hiter Hok. unfold export_persistence_snapshot.
  destruct (kept_spec iter Hiter st Hok) as (kept & Hrun & Hk & Hids). rewrite Hrun. cbn.
  set (ids := map pn_id kept) in *. set (out := sort_by _ _).
  assert (Hout : forall x, x ∈ map pn_id out <-> x ∈ ids).
  { intros x. unfold out. rewrite sort_by_perm, map_map. done. }
  eexists. split; [done|]. cbn. split_and!.
  - intros id. rewrite Hout, Hids. unfold restorable. by setoid_rewrite persistable_spec.
  - intros pn Hpn. unfold out in Hpn. rewrite sort_by_perm in Hpn. apply list_elem_of_fmap in Hpn as (pk & -> & Hpk).
    destruct (Hk pk Hpk) as (e & He & Hp). pose proof (persistence_node_spec _ _ _ Hp) as (Hper & _ & Hpar & _ & Ho & Hc). cbn. split_and!.
    + rewrite Hc, Ho. case_bool_decide as Hs; [done|]. unfold persistable in Hper. rewrite bool_decide_eq_false_2 in Hper by done.
      by apply config_secretless, negb_true_iff.
    + intros q Hq. apply Hout, Hids. rewrite Hpar in Hq. eapply (restorable_parent st Hok); [done..|].
      apply Hids. by apply list_elem_of_fmap_2.
    + intros c Hc'. apply Hout. rewrite filter_elem in Hc'. destruct Hc' as [_ Hc']. by apply bool_decide_eq_true in Hc'.
  - intros r. rewrite filter_elem, bool_decide_eq_true. by rewrite Hout.
Qed.

Lemma persisted_tree_secretless_witness :
  exists p, export_persistence_snapshot map_to_list 9 sample_tree = Some p
    /\ (forall pn c, pn ∈ ps_nodes p -> pn_config pn = Some c -> config_secrets (written_config c) = []).
Proof.
  destruct (persisted_tree_secretless map_to_list 9 sample_tree) as (p & Hp & _ & Hn & _); [done|exact sample_ok|].
  exists p. split; [exact Hp|]. intros pn c Hpn Hc. destruct (Hn pn Hpn) as [H _]. rewrite Hc in H. exact H.
Defined.

(** The node with the password and the one below it are left out. *)
Example sample_persisted :
  (fun p => map pn_id (ps_nodes p)) <$> export_persistence_snapshot map_to_list 9 sample_tree = Some ["a"; "d"]%string.
Proof. vm_compute. reflexivity. Qed.

(** removing a node removes exactly the node and everything below it and
    answers with these, each once and children first; the other nodes stay as
    they were, except that its parent loses it, the index forgets their
    connections, and what is left is a well-formed tree. *)
Theorem subtree_removal_exact st fuel n e :
  tree_ok st -> nodes st !! n = Some e -> (Z.to_nat MAX_SESSION_TREE_DEPTH < fuel)%nat ->
  exists removed st', remove_subtree fuel n st = Some (removed, st') /\ tree_ok st'
    /\ NoDup removed /\ (forall x, x ∈ removed <-> under st x n) /\ StronglySorted (deepest_first st) removed
    /\ (forall x, under st x n -> nodes st' !! x = None)
    /\ (forall x, ~ under st x n -> nr_parent_id e <> Some x -> nodes st' !! x = nodes st !! x)
    /\ (forall p pe, nr_parent_id e = Some p -> nodes st !! p = Some pe -> nodes st' !! p = Some (without_child n pe))
    /\ (forall c x, node_index st' !! c = Some x -> node_index st !! c = Some x /\ ~ under st x n).
Proof.
  intros Hok He Hfuel. destruct (remove_subtree_spec st fuel n e Hok He Hfuel) as (l & st' & Hrun & (Hn & Hx & Hs) & Hin & Hout & _ & Hi).
  destruct (remove_subtree_ok st fuel n Hok Hfuel) as (l1 & st1 & Hrun1 & Hok1).
  rewrite Hrun in Hrun1. injection Hrun1 as <- <-. exists l, st'. split_and!; [done..| | | |].
  - intros x Hu. by apply Hin, Hx.
  - intros x Hu Hp. rewrite Hout by (by rewrite Hx). by rewrite bool_decide_eq_false_2.
  - intros p pe Hp Hpe. rewrite Hout; [by rewrite bool_decide_eq_true_2, Hpe|]. rewrite Hx. intros Hu.
    assert (Hc : child_of st n p) by (by exists e). by destruct (child_below st p n p (proj1 Hok) Hc Hu).
  - intros c x Hc. apply Hi in Hc as [Hc Hl]. split; [done|]. by rewrite <-Hx.
Qed.

Lemma subtree_removal_exact_witness :
  exists removed st', remove_subtree 11 "b" sample_tree = Some (removed, st') /\ tree_ok st'
    /\ NoDup removed /\ (forall x, x ∈ removed <-> under sample_tree x "b")
    /\ StronglySorted (deepest_first sample_tree) removed
    /\ (forall x, under sample_tree x "b" -> nodes st' !! x = None)
    /\ (forall x, ~ under sample_tree x "b" -> Some "a"%string <> Some x -> nodes st' !! x = nodes sample_tree !! x)
    /\ (forall p pe, Some "a"%string = Some p -> nodes sample_tree !! p = Some pe -> nodes st' !! p = Some (without_child "b" pe))
    /\ (forall c x, node_index st' !! c = Some x -> node_index sample_tree !! c = Some x /\ ~ under sample_tree x "b").
Proof.
  apply (subtree_removal_exact sample_tree 11 "b" (bump (set_children ["c"%string]
    (fresh_entry (password_config "h2" 22 "u" "pw") (Some "a"%string) 1 DirectNode 2))));
    [exact sample_ok|vm_compute; reflexivity|vm_compute; lia].
Defined.

Example sample_removed : fst <$> remove_subtree 11 "b" sample_tree = Some ["c"; "b"]%string.
Proof. vm_compute. reflexivity. Qed.

(** expanding a saved connection makes one node per hop and one for the
    target, alone or below a node that is connected; the answer names exactly
    the new nodes, and they are the end of the path from the root to the
    target. *)
Theorem preset_expansion_path uuid now saved hops target st :
  tree_ok st -> NoDup (preset_ids uuid (length hops)) ->
  (forall x, x ∈ preset_ids uuid (length hops) -> nodes st !! x = None) ->
  (zlen hops < MAX_SESSION_TREE_DEPTH ->
     exists root, expanded uuid hops [] root st (expand_manual_preset uuid now saved hops target st))
  /\ (forall parent pe, nodes st !! parent = Some pe -> is_ready pe = true ->
        nr_depth pe + zlen hops < MAX_SESSION_TREE_DEPTH ->
        exists above, zlen above = nr_depth pe + 1
          /\ (forall fuel, (length above < fuel)%nat -> path_to_node fuel parent st = Some (Ok above))
          /\ expanded uuid hops above parent st (expand_manual_preset_under_parent uuid now parent saved hops target st)).
Proof.
  intros Hok Hn Hfresh. split.
  - intros Hlen. destruct hops as [|first rest]; eexists; [by apply preset_direct|by apply preset_chain].
  - intros parent pe Hp Hr Hd. by eapply preset_under_parent.
Qed.

Definition sample_uuid (i : nat) : string := match i with O => "0" | S O => "1" | _ => "2" end%string.

Lemma preset_expansion_path_witness :
  (exists root, expanded sample_uuid [agent_config "j1"; agent_config "j2"] [] root sample_tree
     (expand_manual_preset sample_uuid (fun _ => 7) "s" [agent_config "j1"; agent_config "j2"] (agent_config "t") sample_tree))
  /\ exists above, zlen above = 1 /\ (forall fuel, (length above < fuel)%nat -> path_to_node fuel "a" sample_tree = Some (Ok above))
     /\ expanded sample_uuid [agent_config "j1"; agent_config "j2"] above "a" sample_tree
          (expand_manual_preset_under_parent sample_uuid (fun _ => 7) "a" "s" [agent_config "j1"; agent_config "j2"]
             (agent_config "t") sample_tree).
Proof.
  destruct (preset_expansion_path sample_uuid (fun _ => 7) "s" [agent_config "j1"; agent_config "j2"] (agent_config "t")
    sample_tree sample_ok) as [H1 H2].
  - vm_compute. repeat constructor; set_solver.
  - intros x Hx. change (x ∈ ["hop-0"; "hop-1"; "target-2"]%string) in Hx.
    rewrite !elem_of_cons in Hx. destruct Hx as [->|[->|[->|Hx]]]; [reflexivity..|by apply not_elem_of_nil in Hx].
  - split; [apply H1; vm_compute; reflexivity|].
    destruct (nodes sample_tree !! "a"%string) as [pe|] eqn:E; [|vm_compute in E; discriminate E].
    assert (Hpe : is_ready pe = true /\ nr_depth pe = 0) by (vm_compute in E; injection E as <-; done).
    destruct Hpe as [Hr Hd]. specialize (H2 "a"%string pe E Hr). rewrite Hd in H2. apply H2. vm_compute. reflexivity.
Defined.

(** The topmost of some nodes: no two of them one below the other, and every
    given node that exists is one of them or below one. *)
Theorem minimal_subtree_roots_exact st fuel candidates :
  tree_ok st -> (Z.to_nat MAX_SESSION_TREE_DEPTH + 1 < fuel)%nat ->
  exists roots, minimal_subtree_roots fuel candidates st = Some roots /\ antichain st roots
    /\ (forall r, r ∈ roots -> r ∈ candidates /\ is_Some (nodes st !! r))
    /\ (forall c, c ∈ candidates -> is_Some (nodes st !! c) -> exists r, r ∈ roots /\ under st c r).
Proof. intros [Hf _]. by apply minimal_subtree_roots_spec. Qed.

(** Two nodes bound to one pooled connection: when one is disconnected, the
    other is no longer found by the connection it is still bound to. *)
Definition sample_shared : NodeRuntimeStore :=
  exec (disconnect_node "a" "bye") (exec (bind_connection "d" "k1" Active) sample_tree).
Example shared_connection_forgotten :
  connection_id_for_node "d" sample_shared = Some "k1"%string /\ runtime_node_id_for_connection "k1" sample_shared = None.
Proof. vm_compute. done. Qed.

(** A node given to a second parent stays a child of the first, and is then
    listed twice. *)
Example second_parent_lists_twice :
  map fn_id <$> flatten 11 (exec (upsert_child_node 5 "b" "d" (agent_config "h4")) sample_tree)
  = Some ["a"; "b"; "c"; "d"; "d"]%string.
Proof. vm_compute. reflexivity. Qed.
