(* ===== verification/NodeRouting.v ===== *)
(** * The node router

    Model of [crates/hapcli-ssh/src/router/node_router.rs] with its helpers
    ([router/helpers.rs]): the operations that join the connection registry, the
    node tree and the event emitter.  The emitter is the one that the registry
    was given when the router was made; a handle is the reference of the
    registry's entry.  The answers of asynchronous calls on a handle (the state
    of its transport, the SFTP session) are arguments. *)
From S2P Require Import Prelude NodeEvents ConnRegistry NodeTree NodeSnapshot.
From stdpp Require Import prelude list numbers gmap strings.
Open Scope Z_scope.

(** ** Data *)

Record NodeRouterState := mkRouter { registry : SshConnectionRegistry; runtime : NodeRuntimeStore }.
Definition Router := M RouteError NodeRouterState.

Record ResolvedConnection := mkResolved {
  rc_connection_id : string; rc_handle : nat; rc_terminal_session_id : option string; rc_sftp_session_id : option string }.
Record NodeStateSnapshot := mkStateSnapshot { nss_state : NodeState; nss_generation : Z }.
Inductive ConnectionTransportStatus := TransportOpen | TransportClosed | TransportMissing.

Definition with_runtime_store_and_emitter (r : SshConnectionRegistry) (store : NodeRuntimeStore) (em : NodeEventEmitter)
    : NodeRouterState := mkRouter (set_node_event_emitter em r) store.
Definition with_runtime_store (r : SshConnectionRegistry) (store : NodeRuntimeStore) : NodeRouterState :=
  with_runtime_store_and_emitter r store NodeEventEmitter_new.
Definition NodeRouter_new (r : SshConnectionRegistry) : NodeRouterState := with_runtime_store r NodeRuntimeStore_default.

(** Calls on the registry, the tree and the emitter. *)
Definition on_registry {A} (f : SshConnectionRegistry -> A * SshConnectionRegistry) : Router A :=
  fun s => let '(a, r) := f (registry s) in Some (Ok a, mkRouter r (runtime s)).
Definition on_runtime {A} (m : Route A) : Router A :=
  fun s => match m (runtime s) with
           | Some (r, store) => Some (r, mkRouter (registry s) store)
           | None => None
           end.
Definition read {A} (f : NodeRouterState -> A) : Router A := fun s => Some (Ok (f s), s).
Definition router_dispatch (event : NodeStateEvent) : Router unit := on_registry (fun r => (tt, on_emitter (dispatch event) r)).
(** [emitter.emit_state_from_connection]. *)
Definition router_emit_state (connection_id : string) (state : ConnectionState) (reason : string) : Router (option NodeStateEvent) :=
  on_registry (fun r => match rg_emitter r with
                        | None => (None, r)
                        | Some em => let '(event, em) := emit_state_from_connection connection_id state reason em in
                                     (event, with_emitter (Some em) r)
                        end).

(** ** Helpers *)

Definition live_state (state : ConnectionState) : bool := match state with Active | Idle => true | _ => false end.
Definition with_info_state (state : ConnectionState) (i : ConnectionInfo) : ConnectionInfo :=
  mkInfo (ci_connection_id i) (ci_key i) (ci_host i) (ci_port i) (ci_username i) (ci_parent_connection_id i) state
    (ci_ref_count i) (ci_keep_alive i) (ci_consumers i) (ci_created_at i) (ci_last_active_at i) (ci_idle_timeout_secs i)
    (ci_remote_env i).
Definition connection_info_for_runtime (e : ConnectionEntry) : ConnectionInfo :=
  let connection := info e in
  if live_state (ci_state connection) && negb (has_physical e)
  then with_info_state (CsError "registry connection has no physical SSH transport") connection
  else connection.
Definition readiness_for_connection (i : ConnectionInfo) : NodeReadiness := readiness_for_connection_state (ci_state i).

Definition require_resolvable_state (node_id connection_id : string) (state : ConnectionState) : result RouteError unit :=
  match state with
  | Active | Idle => Ok tt
  | Connecting => Err (ConnectionTimeout ("Connection " ++ connection_id ++ " for node " ++ node_id ++ " is still Connecting"))
  | Reconnecting => Err (ConnectionTimeout ("Connection " ++ connection_id ++ " for node " ++ node_id ++ " is still Reconnecting"))
  | CsError error => Err (ConnectionError error)
  | LinkDown => Err (NotConnected ("Node " ++ node_id ++ " connection " ++ connection_id ++ " is link_down"))
  | Disconnecting | Disconnected => Err (NotConnected node_id)
  end.
Definition require_physical_transport (now : Z) (node_id connection_id : string) (e : ConnectionEntry) : Router unit :=
  if has_physical e then ret tt
  else
    do* on_registry (mark_state now connection_id LinkDown) in
    throw (NotConnected ("Connection " ++ connection_id ++ " for node " ++ node_id ++ " has no active transport")).

(** The entry of a registered connection. *)
Definition registered (node_id connection_id : string) : Router (nat * ConnectionEntry) :=
  fun s => match get connection_id (registry s) with
           | None => Some (Err (NotConnected node_id), s)
           | Some pe => Some (Ok pe, s)
           end.
Definition bound_connection (node_id : string) : Router NodeConnectionRuntime :=
  fun s => Some (connection_runtime node_id (runtime s), s).

(** ** Resolving the connection of a node *)

Definition resolve_connection_now (now : Z) (node_id : string) : Router ResolvedConnection :=
  let* rt := bound_connection node_id in
  let connection_id := cr_connection_id rt in
  let* pe := registered node_id connection_id in
  do* lift (require_resolvable_state node_id connection_id (ce_state pe.2)) in
  do* require_physical_transport now node_id connection_id pe.2 in
  ret (mkResolved connection_id pe.1 (cr_terminal_session_id rt) (cr_sftp_session_id rt)).

(** What follows the checks in [acquire_connection]. *)
Definition acquire_checked (now : Z) (node_id : string) (consumer : ConnectionConsumer) (rt : NodeConnectionRuntime)
    (pe : nat * ConnectionEntry) : Router ResolvedConnection :=
  let connection_id := cr_connection_id rt in
  let* acquired := on_registry (acquire_consumer_for_connection now connection_id consumer) in
  let* p := lift (ok_or acquired (NotConnected node_id)) in
  let* e := read (fun s => default pe.2 (rg_arena (registry s) !! p)) in
  do* attempt (on_runtime (update_connection_state_from_parts node_id (ce_state e) "connection acquired")) in
  do* lift (require_resolvable_state node_id connection_id (ce_state e)) in
  do* require_physical_transport now node_id connection_id e in
  ret (mkResolved connection_id p (cr_terminal_session_id rt) (cr_sftp_session_id rt)).
Definition acquire_connection (now : Z) (node_id : string) (consumer : ConnectionConsumer) : Router ResolvedConnection :=
  let* rt := bound_connection node_id in
  let connection_id := cr_connection_id rt in
  let* pe := registered node_id connection_id in
  do* lift (require_resolvable_state node_id connection_id (ce_state pe.2)) in
  do* require_physical_transport now node_id connection_id pe.2 in
  acquire_checked now node_id consumer rt pe.

(** One turn of the wait: the connection, an error, or [None] to wait on.
    [status] is what the transport answers, [elapsed] whether the time is over. *)
Definition resolve_wait_lap (now : Z) (status : ConnectionTransportStatus) (elapsed : bool) (max_wait : string)
    (node_id : string) (consumer : option ConnectionConsumer) : Router (option ResolvedConnection) :=
  let* rt := bound_connection node_id in
  let connection_id := cr_connection_id rt in
  let* found := read (fun s => get connection_id (registry s)) in
  let wait : Router (option ResolvedConnection) :=
    if elapsed
    then throw (ConnectionTimeout ("Timed out waiting for node " ++ node_id ++ " connection " ++ connection_id
                                   ++ " to become active (" ++ max_wait ++ ")"))
    else ret None in
  match found with
  | None => wait
  | Some (p, e) =>
      match ce_state e with
      | Active | Idle =>
          match status with
          | TransportOpen =>
              let* p := match consumer with
                        | Some consumer =>
                            let* acquired := on_registry (acquire_consumer_for_connection now connection_id consumer) in
                            lift (ok_or acquired (NotConnected node_id))
                        | None => ret p
                        end in
              let* state := read (fun s => default (ce_state e) (ce_state <$> rg_arena (registry s) !! p)) in
              do* attempt (on_runtime (update_connection_state_from_parts node_id state "connection acquired")) in
              ret (Some (mkResolved connection_id p (cr_terminal_session_id rt) (cr_sftp_session_id rt)))
          | TransportClosed | TransportMissing =>
              let detail := match status with TransportClosed => "transport is closed" | _ => "transport is missing" end%string in
              do* on_registry (mark_state now connection_id LinkDown) in
              throw (NotConnected ("Connection " ++ connection_id ++ " is stale: " ++ detail))
          end
      | CsError error => throw (ConnectionError error)
      | Disconnecting | Disconnected => throw (NotConnected connection_id)
      | Connecting | Reconnecting | LinkDown => wait
      end
  end.

(** ** Binding and events *)

Definition router_bind_connection (node_id connection_id : string) : Router NodeStateEvent :=
  let* pe := registered node_id connection_id in
  let connection := connection_info_for_runtime pe.2 in
  let* event := on_runtime (bind_connection node_id connection_id (ci_state connection)) in
  do* on_registry (fun r => (tt, on_emitter (register connection_id node_id) r)) in
  let* emitted := router_emit_state connection_id (ci_state connection) "connection bound" in
  ret (default event emitted).

Definition disconnect_node_runtime (node_id reason : string) : Router NodeStateEvent :=
  let* cleared := attempt (on_runtime (set_node_sftp_ready node_id false None)) in
  do* match cleared with Ok event => router_dispatch event | Err _ => ret tt end in
  let* event := on_runtime (disconnect_node node_id reason) in
  do* router_dispatch event in
  ret event.

Definition prepare_node_connection_attempt (node_id : string) : Router unit :=
  let* previous := read (fun s => connection_id_for_node node_id (runtime s)) in
  do* on_runtime (disconnect_node node_id "connection attempt preparation") in
  match previous with
  | Some connection_id => on_registry (fun r => (tt, on_emitter (fun em => snd (unregister connection_id em)) r))
  | None => ret tt
  end.

Definition remove_runtime_subtree (fuel : nat) (node_id : string) : Router (list string) := fun s =>
  match remove_subtree fuel node_id (runtime s) with
  | Some (removed, store) => Some (Ok removed, mkRouter (registry s) store)
  | None => None
  end.

Definition router_bind_terminal_endpoint (node_id : string) (endpoint : TerminalEndpoint) : Router NodeStateEvent :=
  let* event := on_runtime (bind_terminal_endpoint node_id endpoint) in
  do* router_dispatch event in
  ret event.
Definition terminal_url (node_id : string) (s : NodeRouterState) : result RouteError TerminalEndpoint :=
  let? endpoint := primary_terminal_endpoint node_id (runtime s) in
  ok_or endpoint (NotConnected ("No active terminal session for node " ++ node_id)).

(** ** SFTP *)

(** What follows a session that [acquire_sftp_with_meta] gave. *)
Definition acquire_sftp_published (now : Z) (node_id connection_id : string) (was_new : bool) (cwd : option string)
    (generation : Z) : Router unit :=
  do* (if was_new then let* _s := on_registry (mark_sftp_session now connection_id true cwd) in ret tt else ret tt) in
  let* event := on_runtime (set_node_sftp_ready node_id true cwd) in
  if was_new then
    do* router_dispatch event in
    let* owner_event := on_runtime (shared_sftp_session_changed node_id connection_id (Some generation) true) in
    router_dispatch owner_event
  else ret tt.

Definition mark_sftp_ready_from_listing (now : Z) (node_id connection_id : string) (cwd : option string) : Router NodeStateEvent :=
  do* on_registry (mark_sftp_session now connection_id true cwd) in
  let* event := on_runtime (set_node_sftp_ready node_id true cwd) in
  do* router_dispatch event in
  ret event.

(** The first half of [invalidate_and_reacquire_sftp]; the second publishes the
    new session as [reacquire_sftp_published] does. *)
Definition invalidate_sftp_published (now : Z) (node_id connection_id : string) (handle : nat) : Router unit :=
  let* had_sftp := on_registry (fun r => match rg_arena r !! handle with
                                         | None => (false, r)
                                         | Some e => let '(had, e) := invalidate_sftp now e in
                                                     (had, with_arena (<[handle := e]> (rg_arena r)) r)
                                         end) in
  if had_sftp : bool then
    do* on_registry (mark_sftp_session now connection_id false None) in
    let* event := on_runtime (set_node_sftp_ready node_id false None) in
    do* router_dispatch event in
    let* owner_event := on_runtime (shared_sftp_session_changed node_id connection_id None false) in
    router_dispatch owner_event
  else ret tt.
Definition reacquire_sftp_published (now : Z) (node_id connection_id : string) (cwd : option string) (generation : Z) : Router unit :=
  do* on_registry (mark_sftp_session now connection_id true cwd) in
  let* event := on_runtime (set_node_sftp_ready node_id true cwd) in
  do* router_dispatch event in
  let* owner_event := on_runtime (shared_sftp_session_changed node_id connection_id (Some generation) true) in
  router_dispatch owner_event.

(** ** State *)

Definition node_state (node_id : string) (s : NodeRouterState) : result RouteError NodeStateSnapshot :=
  let? rt := ok_or (nodes (runtime s) !! node_id) (NodeNotFound node_id) in
  let state := nr_state rt in
  let state :=
    match nr_connection_id rt with
    | Some connection_id =>
        match get connection_id (registry s) with
        | Some (_, e) =>
            let connection := connection_info_for_runtime e in
            let state := set_readiness (readiness_for_connection connection) (connection_error (ci_state connection)) state in
            match sftp_session_state connection_id (registry s) with
            | Some sftp => set_sftp_state (ss_ready sftp) (ss_cwd sftp) state
            | None => state
            end
        | None => set_sftp_state false None (set_readiness NrDisconnected None state)
        end
    | None => if bool_decide (readiness state = NrReady) then set_readiness NrDisconnected None state else state
    end in
  Ok (mkStateSnapshot state
        (Z.max (match rg_emitter (registry s) with Some em => sequencer_current node_id em | None => 0 end) (nr_generation rt))).

Definition sync_connection_state (node_id : string) (connection : ConnectionInfo) (reason : string) : Router NodeStateEvent :=
  let* connection := read (fun s => match get (ci_connection_id connection) (registry s) with
                                    | Some (_, e) => connection_info_for_runtime e
                                    | None => connection
                                    end) in
  let* event := on_runtime (update_connection_state_from_parts node_id (ci_state connection) reason) in
  let* emitted := router_emit_state (ci_connection_id connection) (ci_state connection) reason in
  ret (default event emitted).
Definition sync_connection_state_by_connection_id (connection : ConnectionInfo) (reason : string) : Router (option NodeStateEvent) :=
  let* node := read (fun s =>
    match rg_emitter (registry s) ≫= node_id_for_connection (ci_connection_id connection) with
    | Some node_id => Some node_id
    | None => runtime_node_id_for_connection (ci_connection_id connection) (runtime s)
    end) in
  match node with
  | None => ret None
  | Some node_id =>
      let* r := attempt (sync_connection_state node_id connection reason) in
      ret (match r with Ok event => Some event | Err _ => None end)
  end.
Definition sync_node_readiness_event (node_id : string) (r : NodeReadiness) (reason : string) : Router NodeStateEvent :=
  on_runtime (apply_node_readiness node_id r reason).

(** [list] gives the infos of the registry's connections, whose handles are
    looked up again. *)
Definition reconcile_runtime_tree (iter_keys : gmap string nat -> list (string * nat))
    (iter : gmap string NodeRuntimeEntry -> list (string * NodeRuntimeEntry)) (s : NodeRouterState) : NodeRouterState :=
  let connections : gmap string ConnectionState :=
    fold_left (fun m i =>
      let state := match get (ci_connection_id i) (registry s) with
                   | Some (_, e) => ci_state (connection_info_for_runtime e)
                   | None => ci_state i
                   end in
      <[ci_connection_id i := state]> m) (list_connections iter_keys (registry s)) ∅ in
  mkRouter (registry s) (reconcile_with_connections iter connections (runtime s)).

(** ** Which connections are handed out *)

(** The connection is registered, active or idle, and has a transport. *)
Definition usable (s : NodeRouterState) (connection_id : string) (p : nat) (e : ConnectionEntry) : Prop :=
  get connection_id (registry s) = Some (p, e) /\ live_state (ce_state e) = true /\ has_physical e = true.
Definition bound_to (s : NodeRouterState) (node_id connection_id : string) : Prop :=
  connection_id_for_node node_id (runtime s) = Some connection_id.

Lemma bound_connection_run node_id s :
  (exists rt, bound_connection node_id s = Some (Ok rt, s) /\ bound_to s node_id (cr_connection_id rt))
  \/ (exists e, bound_connection node_id s = Some (Err e, s)) /\ forall c, ~ bound_to s node_id c.
Proof.
  unfold bound_connection, connection_runtime, bound_to, connection_id_for_node.
  destruct (nodes (runtime s) !! node_id) as [route|]; cbn; [|right; split; [by eexists|done]].
  destruct (nr_connection_id route) as [c|]; cbn; [left; by eexists|right; split; [by eexists|done]].
Qed.

Lemma resolvable_iff node_id connection_id state :
  (exists e, require_resolvable_state node_id connection_id state = Err e /\ live_state state = false)
  \/ require_resolvable_state node_id connection_id state = Ok tt /\ live_state state = true.
Proof. destruct state; (right; split; reflexivity) || (left; eexists; split; reflexivity). Qed.

(** A state that is marked is what the registry says afterwards. *)
Lemma mark_state_state now id p e r :
  reg_ok r -> get id r = Some (p, e) -> state_of (mark_state now id LinkDown r).2 id = Some LinkDown.
Proof.
  intros Hok Hg. unfold mark_state, mark_state_inner. rewrite Hg. cbn [snd]. rewrite bool_decide_eq_false_2 by done. cbn [andb].
  set (e' := touch now (with_state LinkDown e)).
  assert (Hget : get id (with_arena (<[p := e']> (rg_arena r)) r) = Some (p, e'))
    by (rewrite (get_insert r id p e e' id Hok Hg) by done; by rewrite decide_True).
  unfold state_of, emit_state, on_emitter, get in *. cbn in *. by rewrite Hget.
Qed.

(** A refused connection without a transport is marked as down. *)
Lemma transport_run now node_id connection_id e s :
  require_physical_transport now node_id connection_id e s
  = if has_physical e then Some (Ok tt, s)
    else Some (Err (NotConnected ("Connection " ++ connection_id ++ " for node " ++ node_id ++ " has no active transport")),
               mkRouter (mark_state now connection_id LinkDown (registry s)).2 (runtime s)).
Proof.
  unfold require_physical_transport. destruct (has_physical e); [done|]. unfold bind, on_registry, throw.
  by destruct (mark_state now connection_id LinkDown (registry s)).
Qed.

(** What refusing means: there is no usable connection, and one that only lost
    its transport is down from now on. *)
Definition refused (s s' : NodeRouterState) (node_id : string) : Prop :=
  (forall c p e, bound_to s node_id c -> ~ usable s c p e)
  /\ forall c p e, bound_to s node_id c -> get c (registry s) = Some (p, e) -> live_state (ce_state e) = true ->
       state_of (registry s') c = Some LinkDown.

(** The checks that come first in both operations. *)
Definition checked {A} (now : Z) (node_id : string) (k : NodeConnectionRuntime -> nat * ConnectionEntry -> Router A) : Router A :=
  let* rt := bound_connection node_id in
  let* pe := registered node_id (cr_connection_id rt) in
  do* lift (require_resolvable_state node_id (cr_connection_id rt) (ce_state pe.2)) in
  do* require_physical_transport now node_id (cr_connection_id rt) pe.2 in k rt pe.

Lemma checked_run {A} now node_id (k : NodeConnectionRuntime -> nat * ConnectionEntry -> Router A) s run :
  reg_ok (registry s) -> checked now node_id k s = run ->
  (exists rt p e, bound_to s node_id (cr_connection_id rt) /\ usable s (cr_connection_id rt) p e /\ run = k rt (p, e) s)
  \/ (exists err s', run = Some (Err err, s') /\ refused s s' node_id).
Proof.
  intros Hok <-. unfold checked, bind. destruct (bound_connection_run node_id s) as [(rt & -> & Hb)|[[e ->] Hn]].
  2: { right. eexists _, _. split; [done|]. split; intros c p e0 Hc; by apply Hn in Hc. }
  assert (Hone : forall c, bound_to s node_id c -> c = cr_connection_id rt) by (intros c; unfold bound_to in *; congruence).
  unfold registered. destruct (get (cr_connection_id rt) (registry s)) as [[p e]|] eqn:Hg.
  2: { right. eexists _, _. split; [done|]. split; intros c q f ->%Hone; [intros (H & _)|]; congruence. }
  unfold lift. cbn [snd].
  destruct (resolvable_iff node_id (cr_connection_id rt) (ce_state e)) as [(err & -> & Hl)|[-> Hl]].
  { right. eexists _, _. split; [done|]. split; intros c q f ->%Hone; [intros (H & Hlive & _)|intros H Hlive]; congruence. }
  rewrite transport_run. destruct (has_physical e) eqn:Hph; [left; exists rt, p, e; by split_and!|].
  right. eexists _, _. split; [done|]. split; intros c q f ->%Hone.
  - intros (H & _ & Hp). congruence.
  - intros _ _. by eapply mark_state_state.
Qed.

Lemma acquire_consumer_usable now id consumer s p e :
  reg_ok (registry s) -> usable s id p e ->
  exists e', acquire_consumer_for_connection now id consumer (registry s)
      = (Some p, with_arena (<[p := e']> (rg_arena (registry s))) (registry s))
    /\ ce_connection_id e' = ce_connection_id e /\ live_state (ce_state e') = true /\ has_physical e' = true
    /\ consumer ∈ ce_consumers e'.
Proof.
  intros Hok (Hg & Hl & Hp). unfold acquire_consumer_for_connection. rewrite Hg. eexists. split; [done|].
  case_bool_decide as Hin; [by split_and!|]. destruct (ce_ref_count e =? 0); cbn.
  - unfold has_physical in *. cbn in *. destruct (bool_decide (ce_state e = Idle)); cbn; rewrite ?Hp; cbn; split_and!;
      done || (rewrite elem_of_app, list_elem_of_singleton; by right).
  - split_and!; done || (rewrite elem_of_app, list_elem_of_singleton; by right).
Qed.

Lemma acquire_checked_run now node_id consumer rt p e s :
  reg_ok (registry s) -> bound_to s node_id (cr_connection_id rt) -> usable s (cr_connection_id rt) p e ->
  exists s' e', acquire_checked now node_id consumer rt (p, e) s
      = Some (Ok (mkResolved (cr_connection_id rt) p (cr_terminal_session_id rt) (cr_sftp_session_id rt)), s')
    /\ bound_to s' node_id (cr_connection_id rt) /\ usable s' (cr_connection_id rt) p e' /\ consumer ∈ ce_consumers e'
    /\ (readiness ∘ nr_state <$> nodes (runtime s') !! node_id) = Some NrReady.
Proof.
  intros Hok Hb Hu. destruct (acquire_consumer_usable now (cr_connection_id rt) consumer s p e Hok Hu) as (e' & Ha & Hid & Hl & Hp & Hc).
  destruct Hu as (Hg & _ & _). unfold acquire_checked, bind, on_registry, lift, read, attempt. rewrite Ha. cbn.
  rewrite lookup_insert_eq. cbn. unfold on_runtime. cbn.
  unfold bound_to, connection_id_for_node in Hb. destruct (nodes (runtime s) !! node_id) as [route|] eqn:Hn; [|done]. cbn in Hb.
  unfold update_connection_state_from_parts, bind, update_node. rewrite Hn. cbn.
  destruct (resolvable_iff node_id (cr_connection_id rt) (ce_state e')) as [(err & _ & Hl')|[-> _]]; [congruence|].
  rewrite transport_run, Hp. eexists _, e'. split; [done|]. unfold bound_to, usable, connection_id_for_node. cbn.
  rewrite lookup_insert_eq. cbn. split_and!; [done| |done|done|done|].
  - rewrite (get_insert (registry s) _ p e e' _ Hok Hg Hid). by rewrite decide_True.
  - f_equal. destruct (ce_state e'); done.
Qed.

(** a node's connection is handed out exactly if the node is bound to a
    connection that is registered, active or idle, and has a transport; the
    connection handed out is that one, and after [acquire_connection] the
    consumer owns it and the node is shown as ready.  Otherwise the call is
    refused, and a connection that has lost its transport is marked as down. *)
Theorem node_connection_usable now node_id consumer s :
  reg_ok (registry s) ->
  (exists r s', resolve_connection_now now node_id s = Some (r, s')
     /\ match r with
        | Ok rc => s' = s /\ bound_to s node_id (rc_connection_id rc)
                   /\ exists e, usable s (rc_connection_id rc) (rc_handle rc) e
        | Err _ => refused s s' node_id
        end)
  /\ (exists r s', acquire_connection now node_id consumer s = Some (r, s')
       /\ match r with
          | Ok rc => bound_to s node_id (rc_connection_id rc) /\ bound_to s' node_id (rc_connection_id rc)
                     /\ (exists e e', usable s (rc_connection_id rc) (rc_handle rc) e
                           /\ usable s' (rc_connection_id rc) (rc_handle rc) e' /\ consumer ∈ ce_consumers e')
                     /\ (readiness ∘ nr_state <$> nodes (runtime s') !! node_id) = Some NrReady
          | Err _ => refused s s' node_id
          end).
Proof.
  intros Hok. split.
  - destruct (checked_run now node_id (fun rt pe => ret (mkResolved (cr_connection_id rt) pe.1 (cr_terminal_session_id rt)
      (cr_sftp_session_id rt))) s _ Hok eq_refl) as [(rt & p & e & Hb & Hu & Hrun)|(err & s' & Hrun & Href)];
      (eexists _, _; split; [exact Hrun|]); cbn; eauto.
  - destruct (checked_run now node_id (acquire_checked now node_id consumer) s _ Hok eq_refl)
      as [(rt & p & e & Hb & Hu & Hrun)|(err & s' & Hrun & Href)]; [|eexists _, _; split; [exact Hrun|done]].
    destruct (acquire_checked_run now node_id consumer rt p e s Hok Hb Hu) as (s' & e' & Hrun' & H1 & H2 & H3 & H4).
    eexists _, _. split; [etransitivity; [exact Hrun|exact Hrun']|]. cbn. eauto 10.
Qed.

(** ** A sample router *)

(** Connection [k1] is active over a transport, [k2] has none; [a] and [b] are
    bound to them. *)
Definition routed_ops : list reg_op :=
  [OSetEmitter NodeEventEmitter_new; OAcquire 1 "k1" (mkConfig "h1" 22 "u" "u@h1:22") (Terminal "t");
   OMarkState 2 "k1" Active true "up"; OSetPhysical 3 0 0; OAcquire 4 "k2" (mkConfig "h2" 22 "u" "u@h2:22") (Terminal "t");
   OMarkState 5 "k2" Active true "up"].
Definition routed_registry : SshConnectionRegistry :=
  default (Registry_new sample_pool) (run_ops map_to_list 10 routed_ops (Registry_new sample_pool)).
Definition router_exec {A} (m : Router A) (s : NodeRouterState) : NodeRouterState :=
  match m s with Some (_, s') => s' | None => s end.
Definition routed : NodeRouterState :=
  router_exec (router_bind_connection "b" "k2") (router_exec (router_bind_connection "a" "k1")
    (mkRouter routed_registry (upsert_node 2 "b" SshConfigs.default_config
      (upsert_node 1 "a" SshConfigs.default_config NodeRuntimeStore_default)))).

Lemma routed_registry_ok : reg_ok routed_registry.
Proof.
  apply (history_good map_to_list 10 (Registry_new sample_pool)); [|apply reg_ok_new].
  apply (run_ops_history map_to_list 10 routed_ops). vm_compute. reflexivity.
Qed.

(** Only the emitter of the registry changes when nodes are bound. *)
Lemma reg_ok_emitter em r : reg_ok r -> reg_ok (with_emitter em r).
Proof. intros []. by constructor. Qed.
Lemma reg_ok_bind node_id connection_id s :
  reg_ok (registry s) -> reg_ok (registry (router_exec (router_bind_connection node_id connection_id) s)).
Proof.
  intros Hok. unfold router_exec, router_bind_connection, bind, registered.
  destruct (get connection_id (registry s)) as [[p e]|]; [|done]. cbn. unfold on_runtime.
  destruct (bind_connection node_id connection_id _ (runtime s)) as [[[event|err] store]|]; [|done..]. cbn.
  unfold router_emit_state, on_registry. cbn. destruct (rg_emitter (registry s)) as [em|]; cbn; [|by apply reg_ok_emitter].
  destruct (emit_state_from_connection _ _ _ _) as [ev em']. cbn. by apply reg_ok_emitter, reg_ok_emitter.
Qed.
Lemma routed_ok : reg_ok (registry routed).
Proof. by apply reg_ok_bind, reg_ok_bind, routed_registry_ok. Qed.

Lemma node_connection_usable_witness :
  (exists r s', resolve_connection_now 9 "b" routed = Some (r, s')
     /\ match r with
        | Ok rc => s' = routed /\ bound_to routed "b" (rc_connection_id rc)
                   /\ exists e, usable routed (rc_connection_id rc) (rc_handle rc) e
        | Err _ => refused routed s' "b"
        end)
  /\ (exists r s', acquire_connection 9 "b" (Terminal "t") routed = Some (r, s')
       /\ match r with
          | Ok rc => bound_to routed "b" (rc_connection_id rc) /\ bound_to s' "b" (rc_connection_id rc)
                     /\ (exists e e', usable routed (rc_connection_id rc) (rc_handle rc) e
                           /\ usable s' (rc_connection_id rc) (rc_handle rc) e' /\ Terminal "t" ∈ ce_consumers e')
                     /\ (readiness ∘ nr_state <$> nodes (runtime s') !! "b"%string) = Some NrReady
          | Err _ => refused routed s' "b"
          end).
Proof. apply (node_connection_usable 9 "b" (Terminal "t") routed). exact routed_ok. Defined.

Example routed_resolves :
  (match resolve_connection_now 9 "a" routed with Some (Ok rc, _) => Some (rc_connection_id rc, rc_handle rc) | _ => None end)
  = Some ("k1"%string, 0%nat)
  /\ (match resolve_connection_now 9 "b" routed with Some (r, s) => Some (r, state_of (registry s) "k2") | None => None end)
     = Some (Err (NotConnected "Connection k2 for node b has no active transport"), Some LinkDown).
Proof. split; vm_compute; reflexivity. Qed.

(** whatever the tree has recorded, a node is reported as ready exactly if
    it is bound to a registered connection that is active or idle and has a
    transport; the reported generation is at least those of the tree and of the
    events sent so far. *)
Theorem node_state_truthful node_id s :
  match node_state node_id s with
  | Ok report =>
      (readiness (nss_state report) = NrReady <-> exists c p e, bound_to s node_id c /\ usable s c p e)
      /\ (forall route, nodes (runtime s) !! node_id = Some route -> nr_generation route <= nss_generation report)
      /\ (forall em, rg_emitter (registry s) = Some em -> sequencer_current node_id em <= nss_generation report)
  | Err err => err = NodeNotFound node_id /\ nodes (runtime s) !! node_id = None
  end.
Proof.
  unfold node_state. destruct (nodes (runtime s) !! node_id) as [route|] eqn:Hn; [|done]. cbn. split_and!.
  - assert (Hb : forall c, bound_to s node_id c <-> nr_connection_id route = Some c)
      by (intros c; unfold bound_to, connection_id_for_node; by rewrite Hn).
    destruct (nr_connection_id route) as [c|] eqn:Hc.
    + destruct (get c (registry s)) as [[p e]|] eqn:Hg.
      * set (connection := connection_info_for_runtime e).
        assert (Hr : readiness_for_connection connection = NrReady <-> live_state (ce_state e) = true /\ has_physical e = true).
        { unfold connection, connection_info_for_runtime, readiness_for_connection. cbn.
          destruct (ce_state e) eqn:Hs, (has_physical e) eqn:Hp; cbn; rewrite ?Hs; cbn; by split; [|intros []]. }
        set (st := match sftp_session_state c (registry s) with Some _ => _ | None => _ end).
        replace (readiness st) with (readiness_for_connection connection) by (unfold st; by destruct (sftp_session_state c (registry s))).
        rewrite Hr. split; [intros []; exists c, p, e; split; [by apply Hb|done]|].
        intros (c' & p' & e' & Hc'%Hb & Hg' & Hl & Hp). simplify_eq. done.
      * cbn. split; [done|]. intros (c' & p' & e' & Hc'%Hb & Hg' & _). congruence.
    + split; [case_bool_decide; done|]. intros (c' & p' & e' & Hc'%Hb & _). done.
  - intros r [= <-]. lia.
  - intros em ->. lia.
Qed.

(** Removing a subtree leaves its connections registered with the emitter:
    their events still go out under the removed node. *)
Example removed_node_still_emits :
  (match remove_runtime_subtree 11 "a" routed with
   | Some (Ok removed, s) => Some (removed, rg_emitter (registry s) ≫= node_id_for_connection "k1")
   | _ => None
   end) = Some (["a"]%string, Some "a"%string).
Proof. vm_compute. reflexivity. Qed.
