(* ===== verification/NetProgram.v ===== *)
(** * Programs that talk over the network

    The asynchronous functions of the proxy client and of the SOCKS server, as
    programs over a signature of operations: resolving a name, opening a TCP
    connection, reading exactly so many bytes, writing, and opening a channel
    through an SSH connection.  Each operation has its type of answers, errors
    included; a program is a tree over all answers it may get.

    Two semantics: [outcome] relates a program to every trace of operations and
    answers, whatever the other side does; [talk] connects two programs by a
    pair of byte channels and runs them against each other. *)
From S2P Require Import Prelude TrzszBuffer IpAddr.
From Stdlib Require Import String.
From stdpp Require Import prelude numbers list.
Open Scope Z_scope.

Definition SocketAddr : Type := IpAddr * Z.

(** [SshTransportError] of [transport.rs]. *)
Inductive SshAlgorithmKind := KeyExchange | HostKeyAlgorithm | Cipher | Mac | Compression.
Inductive SshTransportError :=
| DnsResolution (address message : list Z)
| SshTimeout
| SshConnectionFailed (message : list Z)
| AlgorithmNegotiationFailed (kind : SshAlgorithmKind) (client_algorithms server_algorithms : list (list Z))
| AuthenticationFailed (message : list Z)
| UnsupportedAuth (method : list Z)
| HostKeyUnknown (host : list Z) (port : Z) (fingerprint : list Z)
| HostKeyChanged (host : list Z) (port : Z) (expected_fingerprint actual_fingerprint : list Z)
| HostKeyCheckFailed (message : list Z)
| PreflightComplete
| ChannelError (message : list Z).

(** An [io::Error] is its message. *)
Definition IoError : Type := list Z.

Inductive NetOp :=
| Resolve (host : list Z) (port : Z)
| Connect (addr : SocketAddr)
| SetNodelay
| ReadExact (n : nat)
| WriteAll (bytes : list Z)
| OpenDirect (host : list Z) (port : Z).

Definition Answer (o : NetOp) : Type :=
  match o with
  | Resolve _ _ => result IoError (list SocketAddr)
  | Connect _ | SetNodelay | WriteAll _ => result IoError unit
  | ReadExact _ => result IoError (list Z)
  | OpenDirect _ _ => result SshTransportError unit
  end.

(** [Endless] is a loop that ran out of fuel; it has no outcome. *)
Inductive Prog (A : Type) :=
| Done (a : A)
| Ask (o : NetOp) (k : Answer o -> Prog A)
| Endless.
Arguments Done {A}. Arguments Ask {A}. Arguments Endless {A}.

Fixpoint pbind {A B} (p : Prog A) (f : A -> Prog B) : Prog B :=
  match p with
  | Done a => f a
  | Ask o k => Ask o (fun x => pbind (k x) f)
  | Endless => Endless
  end.
Definition ask (o : NetOp) : Prog (Answer o) := Ask o Done.

(** Programs that may fail. *)
Definition Net (E A : Type) : Type := Prog (result E A).
Definition pure {E A} (a : A) : Net E A := Done (Ok a).
Definition fails {E A} (e : E) : Net E A := Done (Err e).
Definition nbind {E A B} (p : Net E A) (f : A -> Net E B) : Net E B :=
  pbind p (fun r => match r with Ok a => f a | Err e => Done (Err e) end).
Definition with_error {E E' A} (f : E -> E') (p : Net E A) : Net E' A := pbind p (fun r => Done (map_err f r)).
Notation "'let!' x := m 'in' k" := (nbind m (fun x => k)) (at level 200, x name, m at level 100, k at level 200).
Notation "'do!' m 'in' k" := (nbind m (fun _ => k)) (at level 200, m at level 100, k at level 200).

(** ** Traces *)

Record Event := mkEvent { event_op : NetOp; event_answer : Answer event_op }.

(** What the operations themselves guarantee: a read that succeeds gives as many
    bytes as were asked for. *)
Definition answer_ok (o : NetOp) : Answer o -> Prop :=
  match o with
  | ReadExact n => fun a => match a with Ok bytes => length bytes = n /\ bytes_ok bytes | Err _ => True end
  | _ => fun _ => True
  end.

Fixpoint outcome {A} (p : Prog A) (t : list Event) (a : A) : Prop :=
  match p with
  | Done b => t = [] /\ a = b
  | Ask o k => exists x t', t = mkEvent o x :: t' /\ answer_ok o x /\ outcome (k x) t' a
  | Endless => False
  end.

(** Bytes sent and received, and whether every operation succeeded. *)
Definition event_sent (e : Event) : list Z := match event_op e with WriteAll bytes => bytes | _ => [] end.
Definition event_received (e : Event) : list Z :=
  match e with mkEvent (ReadExact _) (Ok bytes) => bytes | _ => [] end.
Definition event_ok (e : Event) : bool :=
  match e with
  | mkEvent (Resolve _ _) (Err _) | mkEvent (Connect _) (Err _) | mkEvent SetNodelay (Err _) | mkEvent (ReadExact _) (Err _)
  | mkEvent (WriteAll _) (Err _) | mkEvent (OpenDirect _ _) (Err _) => false
  | _ => true
  end.
Definition sent (t : list Event) : list Z := concat (map event_sent t).
Definition received (t : list Event) : list Z := concat (map event_received t).
Definition all_ok (t : list Event) : bool := forallb event_ok t.

(** A program that ends whatever it is answered. *)
Fixpoint ends {A} (p : Prog A) : Prop :=
  match p with
  | Done _ => True
  | Ask o k => forall x, answer_ok o x -> ends (k x)
  | Endless => False
  end.

(** ** Two programs on a pair of channels *)

Record Outside := mkOutside {
  w_resolve : list Z -> Z -> result IoError (list SocketAddr);
  w_connect : SocketAddr -> result IoError unit;
  w_open : list Z -> Z -> result SshTransportError unit }.

Inductive Step (A : Type) :=
| Moves (p : Prog A) (written input : list Z)
| Waits.
Arguments Moves {A}. Arguments Waits {A}.
Definition step {A} (w : Outside) (p : Prog A) (input : list Z) : Step A :=
  match p with
  | Done _ | Endless => Waits
  | Ask o k =>
      match o return (Answer o -> Prog A) -> Step A with
      | Resolve host port => fun k => Moves (k (w_resolve w host port)) [] input
      | Connect addr => fun k => Moves (k (w_connect w addr)) [] input
      | SetNodelay => fun k => Moves (k (Ok tt)) [] input
      | ReadExact n => fun k => if (n <=? length input)%nat then Moves (k (Ok (take n input))) [] (drop n input) else Waits
      | WriteAll bytes => fun k => Moves (k (Ok tt)) bytes input
      | OpenDirect host port => fun k => Moves (k (w_open w host port)) [] input
      end k
  end.
(** [up] holds what the client wrote and the server has not read, [down] the
    reverse. [None]: both wait, or the fuel ran out. *)
Fixpoint talk {A B} (w : Outside) (fuel : nat) (client : Prog A) (server : Prog B) (up down : list Z)
    : option (A * B * list Z * list Z) :=
  match fuel with
  | O => None
  | S fuel =>
      match step w client down with
      | Moves client written down => talk w fuel client server (up ++ written) down
      | Waits =>
          match step w server up with
          | Moves server written up => talk w fuel client server up (down ++ written)
          | Waits => match client, server with Done a, Done b => Some (a, b, up, down) | _, _ => None end
          end
      end
  end.

(** ** Lemmas *)

Lemma sent_cons e t : sent (e :: t) = event_sent e ++ sent t.
Proof. done. Qed.
Lemma received_cons e t : received (e :: t) = event_received e ++ received t.
Proof. done. Qed.
Lemma sent_app t u : sent (t ++ u) = sent t ++ sent u.
Proof. unfold sent. by rewrite map_app, concat_app. Qed.
Lemma received_app t u : received (t ++ u) = received t ++ received u.
Proof. unfold received. by rewrite map_app, concat_app. Qed.
Lemma all_ok_app t u : all_ok (t ++ u) = all_ok t && all_ok u.
Proof. apply forallb_app. Qed.

Lemma outcome_bind {A B} (p : Prog A) (f : A -> Prog B) t b :
  outcome (pbind p f) t b <-> exists a t1 t2, t = t1 ++ t2 /\ outcome p t1 a /\ outcome (f a) t2 b.
Proof.
  revert t. induction p as [a|o k IH|]; intros t; cbn.
  - split; [intros H; by exists a, [], t|]. by intros (? & ? & ? & -> & [-> ->] & H).
  - split.
    + intros (x & t' & -> & Hx & Hk). apply IH in Hk as (a & t1 & t2 & -> & H1 & H2).
      exists a, (mkEvent o x :: t1), t2. split_and!; [done|by exists x, t1|done].
    + intros (a & t1 & t2 & -> & (x & t' & -> & Hx & H1) & H2). exists x, (t' ++ t2). split_and!; [done..|]. apply IH. by exists a, t', t2.
  - split; [done|]. by intros (? & ? & ? & _ & [] & _).
Qed.
Lemma outcome_nbind {E A B} (p : Net E A) (f : A -> Net E B) t r :
  outcome (nbind p f) t r <->
  (exists a t1 t2, t = t1 ++ t2 /\ outcome p t1 (Ok a) /\ outcome (f a) t2 r)
  \/ (exists e, outcome p t (Err e) /\ r = Err e).
Proof.
  unfold nbind. rewrite outcome_bind. split.
  - intros ([a|e] & t1 & t2 & -> & H1 & H2); [left; by exists a, t1, t2|right]. destruct H2 as [-> ->]. exists e. by rewrite app_nil_r.
  - intros [(a & t1 & t2 & -> & H1 & H2)|(e & H1 & ->)]; [by exists (Ok a), t1, t2|].
    exists (Err e), t, []. by rewrite app_nil_r.
Qed.
Lemma outcome_nbind_ok {E A B} (p : Net E A) (f : A -> Net E B) t b :
  outcome (nbind p f) t (Ok b) -> exists a t1 t2, t = t1 ++ t2 /\ outcome p t1 (Ok a) /\ outcome (f a) t2 (Ok b).
Proof. intros H. apply outcome_nbind in H as [H|(e & _ & He)]; done. Qed.
Lemma outcome_with_error {E E' A} (f : E -> E') (p : Net E A) t r :
  outcome (with_error f p) t r <-> exists r', outcome p t r' /\ r = map_err f r'.
Proof.
  unfold with_error. rewrite outcome_bind. split.
  - intros (r' & t1 & t2 & -> & H1 & -> & ->). exists r'. by rewrite app_nil_r.
  - intros (r' & H & ->). exists r', t, []. by rewrite app_nil_r.
Qed.
Lemma outcome_ask (o : NetOp) t x : outcome (ask o) t x <-> t = [mkEvent o x] /\ answer_ok o x.
Proof. cbn. split; [by intros (y & t' & -> & Hy & -> & ->)|]. intros [-> Hx]. by exists x, []. Qed.

Lemma ends_bind {A B} (p : Prog A) (f : A -> Prog B) : ends p -> (forall a, ends (f a)) -> ends (pbind p f).
Proof. intros Hp Hf. induction p as [a|o k IH|]; [apply Hf| |done]. simpl in *. intros x Hx. apply IH. by apply Hp. Qed.

(** *** Conversations *)

(** A program that reads and asks without writing. *)
Inductive quiet {A} (w : Outside) : Prog A -> list Z -> Prog A -> list Z -> Prop :=
| quiet_refl p i : quiet w p i p i
| quiet_step p i p1 i1 p2 i2 : step w p i = Moves p1 [] i1 -> quiet w p1 i1 p2 i2 -> quiet w p i p2 i2.
(** The two programs end with these results. *)
Definition reaches {A B} (w : Outside) (client : Prog A) (server : Prog B) (up down : list Z) (r : A * B * list Z * list Z) : Prop :=
  exists fuel, talk w fuel client server up down = Some r.

Section Talk.
Context (w : Outside) {A B : Type}.
Implicit Types (c : Prog A) (s : Prog B).

Lemma reaches_client c s up down c' out down' r :
  step w c down = Moves c' out down' -> reaches w c' s (up ++ out) down' r -> reaches w c s up down r.
Proof. intros Hs [n H]. exists (S n). simpl. by rewrite Hs. Qed.
Lemma reaches_server c s up down s' out up' r :
  step w c down = Waits -> step w s up = Moves s' out up' -> reaches w c s' up' (down ++ out) r -> reaches w c s up down r.
Proof. intros Hc Hs [n H]. exists (S n). simpl. by rewrite Hc, Hs. Qed.
Lemma reaches_done a b up down : reaches w (Done a : Prog A) (Done b : Prog B) up down (a, b, up, down).
Proof. by exists 1%nat. Qed.
Lemma reaches_quiet c s up down s' up' r :
  step w c down = Waits -> quiet w s up s' up' -> reaches w c s' up' down r -> reaches w c s up down r.
Proof.
  intros Hc. induction 1 as [|p i p1 i1 p2 i2 Hs _ IH]; [done|]. intros H. eapply reaches_server; [done..|].
  rewrite app_nil_r. by apply IH.
Qed.
Lemma reaches_client_quiet c s up down c' down' r :
  quiet w c down c' down' -> reaches w c' s up down' r -> reaches w c s up down r.
Proof.
  induction 1 as [|p i p1 i1 p2 i2 Hs _ IH]; [done|]. intros H. eapply reaches_client; [done|]. rewrite app_nil_r. by apply IH.
Qed.
Lemma step_bind (p : Prog A) (f : A -> Prog B) i p' out i' :
  step w p i = Moves p' out i' -> step w (pbind p f) i = Moves (pbind p' f) out i'.
Proof. destruct p as [a|o k|]; [done| |done]. destruct o; simpl; try (by intros [= <- <- <-]). by destruct (_ <=? _)%nat; [intros [= <- <- <-]|]. Qed.
Lemma silent_bind (p p' : Prog A) (f : A -> Prog B) i i' : quiet w p i p' i' -> quiet w (pbind p f) i (pbind p' f) i'.
Proof. induction 1; [constructor|]. econstructor; [by apply step_bind|done]. Qed.
Lemma quiet_trans (p1 p2 p3 : Prog A) i1 i2 i3 : quiet w p1 i1 p2 i2 -> quiet w p2 i2 p3 i3 -> quiet w p1 i1 p3 i3.
Proof. induction 1; [done|]. intros H'. econstructor; [done|auto]. Qed.
End Talk.

Lemma quiet_nbind {E A B} w (p : Net E A) (f : A -> Net E B) i i1 i2 a q :
  quiet w p i (Done (Ok a)) i1 -> quiet w (f a) i1 q i2 -> quiet w (nbind p f) i q i2.
Proof.
  intros H1 H2. unfold nbind. eapply quiet_trans; [by apply silent_bind|done].
Qed.
Lemma quiet_nbind_l {E A B} w (p : Net E A) (f : A -> Net E B) i i1 a :
  quiet w p i (Done (Ok a)) i1 -> quiet w (nbind p f) i (f a) i1.
Proof. intros H. eapply quiet_nbind; [done|apply quiet_refl]. Qed.
(** Reading what has arrived. *)
Lemma quiet_read {E} w (f : IoError -> E) (bytes rest : list Z) n :
  n = length bytes -> quiet w (with_error f (ask (ReadExact n)) : Net E (list Z)) (bytes ++ rest) (Done (Ok bytes)) rest.
Proof.
  intros ->. eapply quiet_step; [|apply quiet_refl]. simpl. rewrite (proj2 (Nat.leb_le _ _)) by (rewrite length_app; lia).
  by rewrite take_app_length, drop_app_length.
Qed.

(** ** Running a program against a peer that sends fixed bytes and closes *)

Definition respond (w : Outside) (input : list Z) (o : NetOp) : Answer o * list Z :=
  match o with
  | Resolve host port => (w_resolve w host port, input)
  | Connect addr => (w_connect w addr, input)
  | SetNodelay => (Ok tt, input)
  | ReadExact n => if (n <=? length input)%nat then (Ok (take n input), drop n input) else (Err (lit "early eof"), [])
  | WriteAll _ => (Ok tt, input)
  | OpenDirect host port => (w_open w host port, input)
  end.
Fixpoint run {A} (w : Outside) (p : Prog A) (input : list Z) : option (list Event * A * list Z) :=
  match p with
  | Done a => Some ([], a, input)
  | Ask o k =>
      let '(x, input) := respond w input o in
      match run w (k x) input with Some (t, a, rest) => Some (mkEvent o x :: t, a, rest) | None => None end
  | Endless => None
  end.
Lemma respond_ok w input o : bytes_ok input -> answer_ok o (respond w input o).1 /\ bytes_ok (respond w input o).2.
Proof.
  intros Hi. destruct o as [| | |n| |]; simpl; try done. destruct (Nat.leb_spec n (length input)); simpl; [|done].
  rewrite length_take. split_and!; [lia|by apply Forall_take|by apply Forall_drop].
Qed.
Lemma run_outcome {A} w (p : Prog A) input t a rest : bytes_ok input -> run w p input = Some (t, a, rest) -> outcome p t a.
Proof.
  revert input t a rest. induction p as [b|o k IH|]; intros input t a rest Hi; simpl; [by intros [= <- <- _]| |done].
  destruct (respond w input o) as [x i] eqn:E. pose proof (respond_ok w input o Hi) as [Hx Hi']. rewrite E in Hx, Hi'. simpl in Hx, Hi'.
  destruct (run w (k x) i) as [[[t' b] r']|] eqn:Er; [|done]. intros [= <- <- _]. exists x, t'. split_and!; [done..|]. by eapply IH.
Qed.
