(* ===== verification/Proxy.v ===== *)
(** * The upstream proxy client (hapcli-ssh)

    Model of [crates/hapcli-ssh/src/upstream_proxy.rs]: the first TCP connection
    of an SSH session, made directly or through a SOCKS5 or HTTP CONNECT proxy,
    as programs over the operations of [NetProgram]; the values of the proxy
    variables and the list of hosts that bypass the proxy.  Text is a list of
    scalar values, what goes over the wire is UTF-8; the strings of a
    configuration are bytes ([SshConfigs]).  [base64] is the encoder of the
    [base64] crate; the time limit of a dial is not part of the programs. *)
From S2P Require Import Prelude Text TrzszBuffer TrzszTransfer FileSystem TextOps IpAddr NetProgram SshConfigs.
From Stdlib Require Import Ascii String.
From stdpp Require Import prelude numbers list.
Open Scope Z_scope.

(** ** Strings *)

(** The bytes of a configuration's string, its characters, and back. *)
Definition str_bytes (s : string) : list Z := lit s.
Definition str_chars (s : string) : list Z := from_utf8_lossy (lit s).
Definition str_of_chars (s : list Z) : string := String.string_of_list_ascii (map (fun b => ascii_of_N (Z.to_N b)) (utf8_encode s)).
Definition strip_prefix_str (p s : list Z) : option (list Z) :=
  if bool_decide (take (length p) s = p) then Some (drop (length p) s) else None.
Definition strip_suffix_str (p s : list Z) : option (list Z) :=
  if bool_decide (p `suffix_of` s) then Some (take (length s - length p) s) else None.
Definition to_ascii_lowercase (s : list Z) : list Z := map (fun c => if in_range 65 90 c then c + 32 else c) s.
(** [str::parse::<u8>], [{:02x}] of a byte. *)
Definition parse_u8 (s : list Z) : option Z :=
  match parse_u64 s with Some n => if n <=? 255 then Some n else None | None => None end.
Definition u8_hex2 (b : Z) : list Z := [hex_char (b / 16); hex_char (b mod 16)].

(** ** Constants and errors *)

Definition SOCKS_VERSION : Z := 0x05.
Definition SOCKS_METHOD_NO_AUTH : Z := 0x00.
Definition SOCKS_METHOD_PASSWORD : Z := 0x02.
Definition SOCKS_METHOD_NO_ACCEPTABLE : Z := 0xff.
Definition SOCKS_COMMAND_CONNECT : Z := 0x01.
Definition SOCKS_ATYP_IPV4 : Z := 0x01.
Definition SOCKS_ATYP_DOMAIN : Z := 0x03.
Definition SOCKS_ATYP_IPV6 : Z := 0x04.
Definition SOCKS_AUTH_VERSION : Z := 0x01.
Definition HTTP_CONNECT_MAX_HEADER_BYTES : Z := 16 * 1024.

Inductive UpstreamProxyError :=
| HttpIo (error : list Z)
| HttpInvalidResponse
| HttpHeaderTooLarge
| HttpConnectRejected (status : Z)
| HttpInvalidProxyValue (message : list Z)
| SocksIo (error : list Z)
| SocksInvalidGreeting
| SocksRejectedAuthMethods
| SocksUnsupportedAuthMethod (method : Z)
| SocksMissingCredentials
| SocksCredentialsTooLong
| SocksInvalidAuthReply
| SocksAuthFailed
| SocksTargetHostTooLong
| SocksInvalidReply
| SocksReplyCode (code : Z)
| SocksUnknownAddressType
| SocksInvalidProxyValue (message : list Z).

(** [Display]. *)
Definition proxy_error_text (e : UpstreamProxyError) : list Z :=
  match e with
  | HttpIo error => lit "HTTP CONNECT upstream proxy I/O failed: " ++ error
  | HttpInvalidResponse => lit "HTTP CONNECT proxy returned an invalid response"
  | HttpHeaderTooLarge => lit "HTTP CONNECT proxy response header exceeded the size limit"
  | HttpConnectRejected status => lit "HTTP CONNECT proxy rejected the tunnel with status " ++ u64_to_string status
  | HttpInvalidProxyValue message => message
  | SocksIo error => lit "SOCKS5 upstream proxy I/O failed: " ++ error
  | SocksInvalidGreeting => lit "SOCKS5 proxy returned an invalid greeting"
  | SocksRejectedAuthMethods => lit "SOCKS5 proxy rejected all auth methods"
  | SocksUnsupportedAuthMethod method => lit "SOCKS5 proxy selected unsupported auth method 0x" ++ u8_hex2 method
  | SocksMissingCredentials => lit "SOCKS5 proxy requested username/password auth without credentials"
  | SocksCredentialsTooLong => lit "SOCKS5 username/password credentials exceed 255 bytes"
  | SocksInvalidAuthReply => lit "SOCKS5 proxy returned an invalid auth reply"
  | SocksAuthFailed => lit "SOCKS5 username/password authentication failed"
  | SocksTargetHostTooLong => lit "SOCKS5 target hostname exceeds 255 bytes"
  | SocksInvalidReply => lit "SOCKS5 proxy returned an invalid reply"
  | SocksReplyCode code => lit "SOCKS5 proxy connect failed with reply code 0x" ++ u8_hex2 code
  | SocksUnknownAddressType => lit "SOCKS5 proxy returned an unknown address type"
  | SocksInvalidProxyValue message => message
  end.

Definition proxy_transport_error (e : UpstreamProxyError) : SshTransportError := SshConnectionFailed (proxy_error_text e).
Definition proxy_error {A} (e : UpstreamProxyError) : Net SshTransportError A := fails (proxy_transport_error e).
Definition http_io_error (e : IoError) : SshTransportError := proxy_transport_error (HttpIo e).
Definition socks_io_error (e : IoError) : SshTransportError := proxy_transport_error (SocksIo e).

Definition read_exact {E} (f : IoError -> E) (n : nat) : Net E (list Z) := with_error f (ask (ReadExact n)).
Definition write_all {E} (f : IoError -> E) (bytes : list Z) : Net E unit := with_error f (ask (WriteAll bytes)).
Definition connect_tcp (addr : SocketAddr) : Net SshTransportError unit :=
  with_error SshConnectionFailed (ask (Connect addr)).

(** ** Values of the proxy variables *)

Definition invalid_proxy_value (message : list Z) : UpstreamProxyError :=
  if bool_decide (take 12 message = lit "HTTP CONNECT") then HttpInvalidProxyValue message else SocksInvalidProxyValue message.
Definition parse_port (port invalid_port : list Z) : result SshTransportError Z :=
  ok_or (parse_u16 port) (proxy_transport_error (invalid_proxy_value invalid_port)).
Definition split_host_port_with_protocol (authority missing_host_port empty_host missing_ipv6_bracket missing_port invalid_port : list Z)
    : result SshTransportError (list Z * Z) :=
  let refuse message := Err (proxy_transport_error (invalid_proxy_value message)) in
  match strip_prefix_str [91] authority with
  | Some rest =>
      match split_once_char 93 rest with
      | None => refuse missing_ipv6_bracket
      | Some (host, suffix) =>
          match strip_prefix_str [58] suffix with
          | None => refuse missing_port
          | Some port => let? port := parse_port port invalid_port in Ok (host, port)
          end
      end
  | None =>
      match rsplit_once 58 authority with
      | None => refuse missing_host_port
      | Some (host, port) =>
          if bool_decide (host = []) then refuse empty_host
          else let? port := parse_port port invalid_port in Ok (host, port)
      end
  end.
Definition split_host_port (authority : list Z) : result SshTransportError (list Z * Z) :=
  split_host_port_with_protocol authority (lit "SOCKS5 proxy value must include host and port") (lit "SOCKS5 proxy host is empty")
    (lit "SOCKS5 proxy IPv6 host is missing ']'") (lit "SOCKS5 proxy port is missing") (lit "SOCKS5 proxy port is invalid").
Definition parse_proxy_authority_auth (authority : list Z) : UpstreamProxyAuth * list Z :=
  match rsplit_once 64 authority with
  | None => (PaNone, authority)
  | Some (auth, host_port) =>
      let '(username, password) := default (auth, []) (split_once_char 58 auth) in
      (PaPassword (str_of_chars username) (str_of_chars password), host_port)
  end.
Fixpoint trim_url_tail (authority : list Z) : list Z :=
  match authority with
  | [] => []
  | c :: rest => if (c =? 47) || (c =? 63) || (c =? 35) then [] else c :: trim_url_tail rest
  end.
Definition first_non_empty (value : option (list Z)) : option (list Z) :=
  value ≫= fun v => let v := trim v in if bool_decide (v = []) then None else Some v.
Definition parse_socks5_proxy_value (value : list Z) : result SshTransportError UpstreamProxyConfig :=
  let trimmed := trim value in
  let '(remote_dns, authority) :=
    match strip_prefix_str (lit "socks5h://") trimmed with
    | Some rest => (true, rest)
    | None => match strip_prefix_str (lit "socks5://") trimmed with Some rest => (false, rest) | None => (true, trimmed) end
    end in
  let authority := trim_url_tail authority in
  let '(auth, host_port) := parse_proxy_authority_auth authority in
  let? hp := split_host_port host_port in
  Ok (mkProxy Socks5 (str_of_chars hp.1) hp.2 auth remote_dns "").
Definition parse_http_proxy_value (value : list Z) : result SshTransportError UpstreamProxyConfig :=
  let trimmed := trim value in
  if bool_decide (take 8 trimmed = lit "https://")
  then Err (proxy_transport_error (HttpInvalidProxyValue (lit "HTTP CONNECT proxy value must use http://, not https://")))
  else
    let authority := default trimmed (strip_prefix_str (lit "http://") trimmed) in
    let authority := trim_url_tail authority in
    let '(auth, host_port) := parse_proxy_authority_auth authority in
    let? hp := split_host_port_with_protocol host_port (lit "HTTP CONNECT proxy value must include host and port")
                 (lit "HTTP CONNECT proxy host is empty") (lit "HTTP CONNECT proxy IPv6 host is missing ']'")
                 (lit "HTTP CONNECT proxy port is missing") (lit "HTTP CONNECT proxy port is invalid") in
    Ok (mkProxy HttpConnect (str_of_chars hp.1) hp.2 auth true "").
Definition with_no_proxy (no_proxy : string) (p : UpstreamProxyConfig) : UpstreamProxyConfig :=
  mkProxy (up_protocol p) (up_host p) (up_port p) (up_auth p) (up_remote_dns p) no_proxy.
Definition upstream_proxy_from_env_values (socks5_value http_value no_proxy : option (list Z))
    : result SshTransportError (option UpstreamProxyConfig) :=
  let finish p := Ok (Some (with_no_proxy (str_of_chars (default [] no_proxy)) p)) in
  match first_non_empty socks5_value with
  | Some value => let? p := parse_socks5_proxy_value value in finish p
  | None =>
      match first_non_empty http_value with
      | Some value => let? p := parse_http_proxy_value value in finish p
      | None => Ok None
      end
  end.

(** ** Hosts that bypass the proxy *)

Definition from_be (octets : list Z) : Z := fold_left (fun acc b => acc * 256 + b) octets 0.
Definition cidr_mask (prefix bits : Z) : Z :=
  if prefix =? 0 then 0 else wrap 128 (Z.shiftl (2 ^ 128 - 1) (bits - prefix)).
Definition ip_matches_cidr (ip network : IpAddr) (prefix : Z) : bool :=
  match ip, network with
  | V4 ip, V4 network =>
      let mask := wrap 32 (cidr_mask prefix 32) in
      Z.land (from_be ip) mask =? Z.land (from_be network) mask
  | V6 ip, V6 network =>
      let mask := cidr_mask prefix 128 in
      Z.land (from_be ip) mask =? Z.land (from_be network) mask
  | _, _ => false
  end.
Definition parse_cidr_rule (rule : list Z) : option (IpAddr * Z) :=
  match split_once_char 47 rule with
  | None => None
  | Some (network, prefix) =>
      match parse_ip network, parse_u8 prefix with
      | Some (V4 octets), Some prefix => if prefix <=? 32 then Some (V4 octets, prefix) else None
      | Some (V6 octets), Some prefix => if prefix <=? 128 then Some (V6 octets, prefix) else None
      | _, _ => None
      end
  end.
Definition is_bracket (c : Z) : bool := (c =? 91) || (c =? 93).
Definition bypass_rule (target : list Z) (raw_rule : list Z) : bool :=
  let target_ip := parse_ip target in
  let target_lower := to_ascii_lowercase target in
  let rule := trim_matches is_bracket (trim raw_rule) in
  if bool_decide (rule = []) then false
  else if bool_decide (rule = lit "*") then true
  else match parse_cidr_rule rule with
       | Some (network, prefix) => match target_ip with Some ip => ip_matches_cidr ip network prefix | None => false end
       | None =>
           match parse_ip rule with
           | Some rule_ip => bool_decide (target_ip = Some rule_ip)
           | None =>
               let rule_lower := to_ascii_lowercase rule in
               match strip_prefix_str (lit "*.") rule_lower with
               | Some suffix => match strip_suffix_str suffix target_lower with
                                | Some prefix => bool_decide (last prefix = Some 46)
                                | None => false
                                end
               | None => bool_decide (target_lower = rule_lower)
               end
           end
       end.
Definition should_bypass_proxy (target_host no_proxy : list Z) : bool :=
  let target := trim_matches is_bracket (trim target_host) in
  if bool_decide (target = []) then false else existsb (bypass_rule target) (split_char 44 no_proxy).

(** ** Dialing *)

Section Dial.
Context (base64 : list Z -> list Z).

Definition resolve_socket_addr (host : list Z) (port : Z) : Net SshTransportError SocketAddr :=
  let address := host ++ lit ":" ++ u64_to_string port in
  let! addrs := with_error (DnsResolution address) (ask (Resolve host port)) in
  match addrs with
  | addr :: _ => pure addr
  | [] => fails (DnsResolution address (lit "no address found"))
  end.
Definition dial_direct_tcp (target_host : list Z) (target_port : Z) : Net SshTransportError unit :=
  let! socket_addr := resolve_socket_addr target_host target_port in
  connect_tcp socket_addr.

(** *** SOCKS5 *)

Definition authenticate_socks5_password (auth : UpstreamProxyAuth) : Net SshTransportError unit :=
  match auth with
  | PaNone => proxy_error SocksMissingCredentials
  | PaPassword username password =>
      let username := str_bytes username in
      let password := str_bytes password in
      if (255 <? zlen username) || (255 <? zlen password) then proxy_error SocksCredentialsTooLong
      else
        do! write_all socks_io_error ([SOCKS_AUTH_VERSION; wrap 8 (zlen username)] ++ username
                                       ++ [wrap 8 (zlen password)] ++ password) in
        let! response := read_exact socks_io_error 2 in
        match response with
        | [version; status] =>
            if negb (version =? SOCKS_AUTH_VERSION) then proxy_error SocksInvalidAuthReply
            else if negb (status =? 0) then proxy_error SocksAuthFailed
            else pure tt
        | _ => Endless
        end
  end.
Definition socks5_greeting (auth : UpstreamProxyAuth) : list Z :=
  match auth with
  | PaNone => [SOCKS_VERSION; 1; SOCKS_METHOD_NO_AUTH]
  | PaPassword _ _ => [SOCKS_VERSION; 2; SOCKS_METHOD_NO_AUTH; SOCKS_METHOD_PASSWORD]
  end.
Definition negotiate_socks5_auth (auth : UpstreamProxyAuth) : Net SshTransportError unit :=
  do! write_all socks_io_error (socks5_greeting auth) in
  let! response := read_exact socks_io_error 2 in
  match response with
  | [version; method] =>
      if negb (version =? SOCKS_VERSION) then proxy_error SocksInvalidGreeting
      else if method =? SOCKS_METHOD_NO_AUTH then pure tt
      else if method =? SOCKS_METHOD_PASSWORD then authenticate_socks5_password auth
      else if method =? SOCKS_METHOD_NO_ACCEPTABLE then proxy_error SocksRejectedAuthMethods
      else proxy_error (SocksUnsupportedAuthMethod method)
  | _ => Endless
  end.
Definition append_socks5_ip (request : list Z) (ip : IpAddr) : list Z :=
  match ip with
  | V4 octets => request ++ [SOCKS_ATYP_IPV4] ++ octets
  | V6 octets => request ++ [SOCKS_ATYP_IPV6] ++ octets
  end.
Definition append_socks5_target (request target_host : list Z) (target_port : Z) (remote_dns : bool) : Net SshTransportError (list Z) :=
  let! request :=
    match parse_ip target_host with
    | Some ip => pure (append_socks5_ip request ip)
    | None =>
        if remote_dns then
          let host := utf8_encode target_host in
          if 255 <? zlen host then proxy_error SocksTargetHostTooLong
          else pure (request ++ [SOCKS_ATYP_DOMAIN; wrap 8 (zlen host)] ++ host)
        else
          let! addr := resolve_socket_addr target_host target_port in
          pure (append_socks5_ip request addr.1)
    end in
  pure (request ++ u16_to_be target_port).
Definition drain_socks5_bind_address (atyp : Z) : Net SshTransportError unit :=
  let! address_len :=
    if atyp =? SOCKS_ATYP_IPV4 then pure 4
    else if atyp =? SOCKS_ATYP_DOMAIN then
      let! len := read_exact socks_io_error 1 in
      match len with [n] => pure n | _ => Endless end
    else if atyp =? SOCKS_ATYP_IPV6 then pure 16
    else proxy_error SocksUnknownAddressType in
  do! read_exact socks_io_error (Z.to_nat (address_len + 2)) in
  pure tt.
Definition send_socks5_connect (target_host : list Z) (target_port : Z) (remote_dns : bool) : Net SshTransportError unit :=
  let! request := append_socks5_target [SOCKS_VERSION; SOCKS_COMMAND_CONNECT; 0x00] target_host target_port remote_dns in
  do! write_all socks_io_error request in
  let! header := read_exact socks_io_error 4 in
  match header with
  | [h0; h1; h2; h3] =>
      if negb (h0 =? SOCKS_VERSION) || negb (h2 =? 0x00) then proxy_error SocksInvalidReply
      else if negb (h1 =? 0x00) then proxy_error (SocksReplyCode h1)
      else drain_socks5_bind_address h3
  | _ => Endless
  end.
Definition socks5_handshake (target_host : list Z) (target_port : Z) (proxy : UpstreamProxyConfig) : Net SshTransportError unit :=
  do! negotiate_socks5_auth (up_auth proxy) in
  send_socks5_connect target_host target_port (up_remote_dns proxy).
Definition dial_via_socks5 (target_host : list Z) (target_port : Z) (proxy : UpstreamProxyConfig) : Net SshTransportError unit :=
  let! proxy_addr := resolve_socket_addr (str_chars (up_host proxy)) (up_port proxy) in
  do! connect_tcp proxy_addr in
  socks5_handshake target_host target_port proxy.

(** *** HTTP CONNECT *)

Definition http_authority (host : list Z) (port : Z) : list Z :=
  if parse_ipv6 host then lit "[" ++ host ++ lit "]:" ++ u64_to_string port else host ++ lit ":" ++ u64_to_string port.
Definition CRLF : list Z := [13; 10].
Definition http_connect_request (target_host : list Z) (target_port : Z) (auth : UpstreamProxyAuth) : list Z :=
  let authority := utf8_encode (http_authority target_host target_port) in
  lit "CONNECT " ++ authority ++ lit " HTTP/1.1" ++ CRLF ++ lit "Host: " ++ authority ++ CRLF
  ++ lit "Proxy-Connection: Keep-Alive" ++ CRLF
  ++ match auth with
     | PaPassword username password =>
         lit "Proxy-Authorization: Basic " ++ base64 (str_bytes username ++ lit ":" ++ str_bytes password) ++ CRLF
     | PaNone => []
     end ++ CRLF.
Definition send_http_connect_request (target_host : list Z) (target_port : Z) (auth : UpstreamProxyAuth) : Net SshTransportError unit :=
  write_all http_io_error (http_connect_request target_host target_port auth).
Definition parse_http_connect_status (header : list Z) : result SshTransportError Z :=
  ok_or (line ← head (lines header); value ← split_whitespace line !! 1%nat; parse_u16 value)
    (proxy_transport_error HttpInvalidResponse).
Fixpoint read_header (fuel : nat) (response : list Z) : Net SshTransportError (list Z) :=
  match fuel with
  | O => Endless
  | S fuel =>
      if HTTP_CONNECT_MAX_HEADER_BYTES <=? zlen response then proxy_error HttpHeaderTooLarge
      else
        let! byte := read_exact http_io_error 1 in
        let response := response ++ byte in
        if bool_decide ((CRLF ++ CRLF) `suffix_of` response) then pure response else read_header fuel response
  end.
Definition header_fuel : nat := S (Z.to_nat HTTP_CONNECT_MAX_HEADER_BYTES).
Definition check_http_response (response : list Z) : result SshTransportError unit :=
  let? header := ok_or (from_utf8 response) (proxy_transport_error HttpInvalidResponse) in
  let? status := parse_http_connect_status header in
  if (200 <=? status) && (status <? 300) then Ok tt else Err (proxy_transport_error (HttpConnectRejected status)).
Definition read_http_connect_response : Net SshTransportError unit :=
  let! response := read_header header_fuel [] in
  Done (check_http_response response).
Definition dial_via_http_connect (target_host : list Z) (target_port : Z) (proxy : UpstreamProxyConfig) : Net SshTransportError unit :=
  let! proxy_addr := resolve_socket_addr (str_chars (up_host proxy)) (up_port proxy) in
  do! connect_tcp proxy_addr in
  do! send_http_connect_request target_host target_port (up_auth proxy) in
  read_http_connect_response.

Definition dial_via_upstream_proxy_or_direct (target_host : list Z) (target_port : Z) (proxy : UpstreamProxyConfig)
    : Net SshTransportError unit :=
  if should_bypass_proxy target_host (str_chars (up_no_proxy proxy)) then dial_direct_tcp target_host target_port
  else match up_protocol proxy with
       | Socks5 => dial_via_socks5 target_host target_port proxy
       | HttpConnect => dial_via_http_connect target_host target_port proxy
       end.
Definition dial_initial_tcp (target_host : list Z) (target_port : Z) (upstream_proxy : option UpstreamProxyConfig)
    : Net SshTransportError unit :=
  do! match upstream_proxy with
      | Some proxy => dial_via_upstream_proxy_or_direct target_host target_port proxy
      | None => dial_direct_tcp target_host target_port
      end in
  with_error (fun e => SshConnectionFailed (lit "failed to enable TCP_NODELAY: " ++ e)) (ask SetNodelay).
End Dial.
