(* ===== verification/ProxyFacts.v ===== *)
(** * What the proxy client does, whatever it is answered

    Theorems about [Proxy] over all traces: which names are looked up and which
    addresses are contacted, what a SOCKS5 handshake that succeeds has sent and
    received, how much of an HTTP answer is read, and what the list of hosts
    that bypass the proxy means. *)
From S2P Require Import Prelude Text TrzszBuffer TrzszTransfer FileSystem TextOps IpAddr NetProgram SshConfigs Proxy.
From Stdlib Require Import String.
From stdpp Require Import prelude numbers list.
Open Scope Z_scope.

(** ** Operations *)

(** Every operation a program may ask for satisfies [P]. *)
Fixpoint asks_only {A} (P : NetOp -> Prop) (p : Prog A) : Prop :=
  match p with
  | Done _ | Endless => True
  | Ask o k => P o /\ forall x, asks_only P (k x)
  end.
Lemma asks_outcome {A} P (p : Prog A) t a : asks_only P p -> outcome p t a -> Forall (fun e => P (event_op e)) t.
Proof.
  revert t. induction p as [b|o k IH|]; intros t; simpl; [by intros _ [-> _]| |done].
  intros [Ho Hk] (x & t' & -> & _ & H). constructor; [done|]. by apply (IH x).
Qed.
Lemma asks_bind {A B} P (p : Prog A) (f : A -> Prog B) : asks_only P p -> (forall a, asks_only P (f a)) -> asks_only P (pbind p f).
Proof. intros Hp Hf. induction p as [a|o k IH|]; [apply Hf| |done]. simpl in *. split; [apply Hp|]. intros x. apply IH, Hp. Qed.
Lemma asks_nbind {E A B} P (p : Net E A) (f : A -> Net E B) : asks_only P p -> (forall a, asks_only P (f a)) -> asks_only P (nbind p f).
Proof. intros Hp Hf. apply asks_bind; [done|]. by intros [a|e]; [apply Hf|]. Qed.
Lemma asks_with_error {E E' A} P (f : E -> E') (p : Net E A) : asks_only P p -> asks_only P (with_error f p).
Proof. intros Hp. by apply asks_bind. Qed.
Lemma asks_ask (P : NetOp -> Prop) o : P o -> asks_only P (ask o).
Proof. intros Ho. by split. Qed.
Lemma asks_mono {A} (P Q : NetOp -> Prop) (p : Prog A) : (forall o, P o -> Q o) -> asks_only P p -> asks_only Q p.
Proof. intros H. induction p as [|o k IH|]; [done| |done]. intros [Ho Hk]. split; [auto|]. intros x. apply IH, Hk. Qed.

(** Reading and writing, and looking up one host. *)
Definition stream_op (o : NetOp) : Prop := match o with ReadExact _ | WriteAll _ => True | _ => False end.
Definition lookup_of (host : list Z) (port : Z) (o : NetOp) : Prop :=
  match o with Resolve h p => h = host /\ p = port | ReadExact _ | WriteAll _ => True | _ => False end.

Ltac asks :=
  repeat match goal with
  | |- forall _, _ => intro
  | |- asks_only _ (nbind _ _) => apply asks_nbind
  | |- asks_only _ (with_error _ _) => apply asks_with_error
  | |- asks_only _ (read_exact _ _) => unfold read_exact
  | |- asks_only _ (write_all _ _) => unfold write_all
  | |- asks_only _ (ask _) => apply asks_ask
  | |- asks_only _ (Done _) => exact I
  | |- asks_only _ (pure _) => exact I
  | |- asks_only _ (fails _) => exact I
  | |- asks_only _ (proxy_error _) => exact I
  | |- asks_only _ Endless => exact I
  | |- asks_only _ (match ?x with _ => _ end) => destruct x
  | |- stream_op _ => exact I
  end.

Lemma resolve_asks host port : asks_only (lookup_of host port) (resolve_socket_addr host port).
Proof. unfold resolve_socket_addr. asks. done. Qed.
Lemma negotiate_asks auth : asks_only stream_op (negotiate_socks5_auth auth).
Proof. unfold negotiate_socks5_auth. asks. unfold authenticate_socks5_password. asks. Qed.
Lemma drain_asks atyp : asks_only stream_op (drain_socks5_bind_address atyp).
Proof. unfold drain_socks5_bind_address. asks. Qed.
Lemma drain_reads atyp : asks_only (fun o => match o with ReadExact _ => True | _ => False end) (drain_socks5_bind_address atyp).
Proof. unfold drain_socks5_bind_address. asks; exact I. Qed.
Lemma append_asks request host port remote_dns :
  asks_only (fun o => lookup_of host port o /\ (stream_op o \/ (remote_dns = false /\ parse_ip host = None)))
    (append_socks5_target request host port remote_dns).
Proof.
  unfold append_socks5_target. apply asks_nbind; [|asks]. destruct (parse_ip host) eqn:Hip; [done|]. destruct remote_dns.
  - asks.
  - apply asks_nbind; [|asks]. eapply asks_mono; [|apply resolve_asks]. auto.
Qed.
Lemma connect_asks host port remote_dns :
  asks_only (fun o => lookup_of host port o /\ (stream_op o \/ (remote_dns = false /\ parse_ip host = None)))
    (send_socks5_connect host port remote_dns).
Proof.
  assert (Hm : forall {A} (p : Prog A), asks_only stream_op p ->
    asks_only (fun o => lookup_of host port o /\ (stream_op o \/ (remote_dns = false /\ parse_ip host = None))) p).
  { intros A p. apply asks_mono. intros o Ho. split; [by destruct o|by left]. }
  unfold send_socks5_connect. apply asks_nbind; [apply append_asks|]. intros request. apply Hm.
  asks. apply drain_asks.
Qed.
Lemma http_asks fuel response : asks_only stream_op (read_header fuel response).
Proof.
  revert response. induction fuel as [|fuel IH]; intros response; [done|]. cbn [read_header].
  asks. apply IH.
Qed.

(** ** Names looked up and addresses contacted *)

Lemma resolve_trace host port t r : outcome (resolve_socket_addr host port) t r ->
  exists x, t = [mkEvent (Resolve host port) x] /\ forall a, r = Ok a -> exists l, x = Ok (a :: l).
Proof.
  unfold resolve_socket_addr. intros H. apply outcome_nbind in H as [(addrs & t1 & t2 & -> & H1 & H2)|(e & H & ->)].
  - apply outcome_with_error in H1 as (r' & H1 & Er). apply outcome_ask in H1 as [-> _]. destruct r' as [l|]; [|done]. simpl in Er. simplify_eq.
    exists (Ok l). destruct l as [|a l]; destruct H2 as [-> ->]; (split; [done|]); [done|]. intros a' [= <-]. by eexists.
  - apply outcome_with_error in H as (r' & H & Er). apply outcome_ask in H as [-> _]. by exists r'.
Qed.
Lemma tcp_trace addr t r : outcome (connect_tcp addr) t r -> exists x, t = [mkEvent (Connect addr) x].
Proof. intros H. apply outcome_with_error in H as (r' & H & _). apply outcome_ask in H as [-> _]. by eexists. Qed.

(** An operation of a dial through the proxy [(h, p)]; [P] holds of the
    handshake's operations. *)
Definition dial_op (h : list Z) (p : Z) (P : NetOp -> Prop) (t : list Event) (o : NetOp) : Prop :=
  match o with
  | Connect addr => exists l, mkEvent (Resolve h p) (Ok (addr :: l)) ∈ t
  | SetNodelay => True
  | o => o = Resolve h p \/ P o
  end.
Lemma dial_trace {A} h p P (f : Net SshTransportError A) t r :
  asks_only (fun o => P o /\ match o with Connect _ => False | _ => True end) f ->
  outcome (nbind (resolve_socket_addr h p) (fun addr => nbind (connect_tcp addr) (fun _ => f))) t r ->
  Forall (fun e => dial_op h p P t (event_op e)) t.
Proof.
  intros Hf H. apply outcome_nbind in H as [(addr & t1 & t2 & -> & H1 & H2)|(e & H & _)].
  2: { apply resolve_trace in H as (x & -> & _). repeat constructor. }
  apply resolve_trace in H1 as (x & -> & Hx). destruct (Hx addr eq_refl) as (l & ->). constructor; [by left|].
  assert (Hc : dial_op h p P (mkEvent (Resolve h p) (Ok (addr :: l)) :: t2) (Connect addr)) by (exists l; left).
  apply outcome_nbind in H2 as [([] & t3 & t4 & -> & H3 & H4)|(e & H & _)].
  - apply tcp_trace in H3 as (y & ->). constructor; [done|]. eapply Forall_impl; [by eapply asks_outcome|].
    intros [o z] [Ho Hn]. simpl in *. destruct o; try done; by right.
  - apply tcp_trace in H as (y & ->). by constructor.
Qed.

(** The target is looked up by a SOCKS5 client that is told to do so. *)
Definition target_lookup (host : list Z) (port : Z) (proxy : UpstreamProxyConfig) (o : NetOp) : Prop :=
  stream_op o \/ (o = Resolve host port /\ up_protocol proxy = Socks5 /\ up_remote_dns proxy = false /\ parse_ip host = None).

Lemma dial_op_app h p P t u o : dial_op h p P t o -> dial_op h p P (t ++ u) o.
Proof. destruct o; try done. intros [l Hl]. exists l. apply elem_of_app. by left. Qed.

Lemma via_proxy_ops base64 host port proxy t r :
  outcome (dial_via_upstream_proxy_or_direct base64 host port proxy) t r ->
  should_bypass_proxy host (str_chars (up_no_proxy proxy)) = false ->
  Forall (fun e => dial_op (str_chars (up_host proxy)) (up_port proxy) (target_lookup host port proxy) t (event_op e)) t.
Proof.
  intros H Hb. unfold dial_via_upstream_proxy_or_direct in H. rewrite Hb in H. destruct (up_protocol proxy) eqn:Hproto.
  - eapply dial_trace; [|exact H]. unfold socks5_handshake. apply asks_nbind.
    + eapply asks_mono; [|apply negotiate_asks]. intros o Ho. split; [by left|by destruct o].
    + intros _. eapply asks_mono; [|apply connect_asks]. intros o [Hl Ho]. split; [|by destruct o]. destruct Ho as [Ho|[Hd Hip]]; [by left|].
      destruct o; try (by left); [|done..]. destruct Hl as [-> ->]. right. by rewrite Hproto.
  - eapply dial_trace; [|exact H]. eapply (asks_mono stream_op); [intros o Ho; split; [by left|by destruct o]|].
    unfold send_http_connect_request, read_http_connect_response. asks. apply http_asks.
Qed.

(** C12: a session that is to go through a proxy contacts the proxy alone:
    whatever the network answers, every TCP connection is to the address of the
    proxy, and no name is looked up but the proxy's; the target's name is
    looked up locally only by a SOCKS5 proxy that is set to local DNS.  A host
    that bypasses the proxy is looked up and contacted itself. *)
Theorem proxy_dial_private base64 host port proxy t r :
  outcome (dial_initial_tcp base64 host port (Some proxy)) t r ->
  Forall (fun e =>
    if should_bypass_proxy host (str_chars (up_no_proxy proxy))
    then dial_op host port (fun _ => False) t (event_op e)
    else dial_op (str_chars (up_host proxy)) (up_port proxy) (target_lookup host port proxy) t (event_op e)) t.
Proof.
  intros H. unfold dial_initial_tcp in H.
  assert (Hdial : forall t r, outcome (dial_via_upstream_proxy_or_direct base64 host port proxy) t r ->
    Forall (fun e => if should_bypass_proxy host (str_chars (up_no_proxy proxy)) then dial_op host port (fun _ => False) t (event_op e)
      else dial_op (str_chars (up_host proxy)) (up_port proxy) (target_lookup host port proxy) t (event_op e)) t).
  { clear. intros t r H. destruct (should_bypass_proxy host (str_chars (up_no_proxy proxy))) eqn:Hb; [|by eapply via_proxy_ops].
    unfold dial_via_upstream_proxy_or_direct in H. rewrite Hb in H.
    apply outcome_nbind in H as [(addr & t1 & t2 & -> & H1 & H2)|(e & H & _)].
    - apply resolve_trace in H1 as (x & -> & Hx). destruct (Hx addr eq_refl) as (l & ->). apply tcp_trace in H2 as (y & ->).
      constructor; [by left|]. constructor; [|done]. exists l. by left.
    - apply resolve_trace in H as (x & -> & _). constructor; [by left|done]. }
  apply outcome_nbind in H as [([] & t1 & t2 & -> & H1 & H2)|(e & H & _)]; [|by eapply Hdial].
  apply Forall_app. split.
  - eapply Forall_impl; [by eapply Hdial|]. intros e He. cbn beta in *. destruct (should_bypass_proxy _ _); by apply dial_op_app.
  - apply outcome_with_error in H2 as (r' & H2 & _). apply outcome_ask in H2 as [-> _]. constructor; [|done]. by destruct (should_bypass_proxy _ _).
Qed.

(** ** The SOCKS5 handshake *)

Lemma read_exact_trace {E} (f : IoError -> E) n t r : outcome (read_exact f n) t r ->
  sent t = [] /\ match r with Ok bytes => received t = bytes /\ length bytes = n /\ bytes_ok bytes | Err _ => received t = [] end.
Proof.
  intros H. apply outcome_with_error in H as (r' & H & ->). apply outcome_ask in H as [-> Hx]. split; [done|].
  destruct r' as [bytes|e]; simpl; [|done]. destruct Hx as [Hl Hb]. unfold received. simpl. by rewrite app_nil_r.
Qed.
Lemma write_all_trace {E} (f : IoError -> E) bytes t r : outcome (write_all f bytes) t r -> sent t = bytes /\ received t = [].
Proof.
  intros H. apply outcome_with_error in H as (r' & H & ->). apply outcome_ask in H as [-> _]. split; [|done].
  unfold sent. simpl. by rewrite app_nil_r.
Qed.
Lemma resolve_quiet host port t r : outcome (resolve_socket_addr host port) t r -> sent t = [] /\ received t = [].
Proof. intros H. apply resolve_trace in H as (x & -> & _). done. Qed.

Definition credentials (username password : string) : list Z :=
  [SOCKS_AUTH_VERSION; zlen (str_bytes username)] ++ str_bytes username ++ [zlen (str_bytes password)] ++ str_bytes password.
(** An answer that grants the connection, with the address the proxy uses. *)
Definition granted (reply : list Z) : Prop :=
  exists atyp address bound, reply = [SOCKS_VERSION; 0; 0; atyp] ++ address ++ bound /\ length bound = 2%nat
    /\ ((atyp = SOCKS_ATYP_IPV4 /\ length address = 4%nat) \/ (atyp = SOCKS_ATYP_IPV6 /\ length address = 16%nat)
        \/ (atyp = SOCKS_ATYP_DOMAIN /\ exists name, address = zlen name :: name)).

(** The trace of a sequence: its first part succeeded, or is all of it. *)
Tactic Notation "net_case" hyp(H) "as" ident(a) ident(t1) ident(t2) ident(H1) :=
  apply outcome_nbind in H as [(a & t1 & t2 & -> & H1 & H)|(?e & H & ->)].

Lemma authenticate_trace auth t r : outcome (authenticate_socks5_password auth) t r ->
  (sent t = [] /\ received t = [] /\ r <> Ok tt)
  \/ exists u p, auth = PaPassword u p /\ sent t = credentials u p /\ (r = Ok tt -> received t = [SOCKS_AUTH_VERSION; 0]).
Proof.
  destruct auth as [|u p]; [intros [-> ->]; by left|]. unfold authenticate_socks5_password.
  destruct ((255 <? zlen (str_bytes u)) || (255 <? zlen (str_bytes p))) eqn:El; [intros [-> ->]; by left|].
  apply orb_false_iff in El as [Hu Hp]. rewrite Z.ltb_ge in Hu, Hp. pose proof (zlen_nonneg (str_bytes u)). pose proof (zlen_nonneg (str_bytes p)).
  rewrite !wrap_small by (unfold in_width; lia). intros H'. right. exists u, p. split; [done|].
  net_case H' as a t1 t2 H1; [|by apply write_all_trace in H' as [-> _]]. apply write_all_trace in H1 as [Hs Hr].
  net_case H' as a2 t3 t4 H2.
  - apply read_exact_trace in H2 as (Hs2 & Hr2 & Hl & _). destruct a2 as [|v [|st [|]]]; try done. rewrite !sent_app, !received_app, Hs, Hs2, Hr, Hr2.
    assert (Hd : forall {A} (e : SshTransportError) t (r : result SshTransportError A), outcome (fails e) t r -> t = [] /\ r = Err e) by (by intros ? ? ? ? [-> ->]).
    destruct (Z.eqb_spec v SOCKS_AUTH_VERSION) as [->|]; cbn [negb] in H'; [|apply Hd in H' as [-> ->]; by rewrite !app_nil_r].
    destruct (Z.eqb_spec st 0) as [->|]; cbn [negb] in H'; [|apply Hd in H' as [-> ->]; by rewrite !app_nil_r].
    destruct H' as [-> ->]. by rewrite !app_nil_r.
  - apply read_exact_trace in H' as [Hs2 _]. rewrite sent_app, Hs, Hs2, app_nil_r. done.
Qed.

Lemma negotiate_trace auth t r : outcome (negotiate_socks5_auth auth) t r ->
  (sent t = socks5_greeting auth /\ (r = Ok tt -> received t = [SOCKS_VERSION; SOCKS_METHOD_NO_AUTH]))
  \/ exists u p, auth = PaPassword u p /\ sent t = socks5_greeting auth ++ credentials u p
       /\ [SOCKS_VERSION; SOCKS_METHOD_PASSWORD] `prefix_of` received t
       /\ (r = Ok tt -> received t = [SOCKS_VERSION; SOCKS_METHOD_PASSWORD; SOCKS_AUTH_VERSION; 0]).
Proof.
  unfold negotiate_socks5_auth. intros H. net_case H as a t1 t2 H1; [|left; by apply write_all_trace in H as [-> _]].
  apply write_all_trace in H1 as [Hs Hr]. net_case H as a2 t3 t4 H2.
  2: { left. apply read_exact_trace in H as [Hs2 _]. by rewrite sent_app, Hs, Hs2, app_nil_r. }
  apply read_exact_trace in H2 as (Hs2 & Hr2 & Hl & _). destruct a2 as [|v [|m [|]]]; try done.
  rewrite !sent_app, !received_app, Hs, Hs2, Hr, Hr2. cbn [app].
  assert (Hstop : forall e, outcome (proxy_error e : Net SshTransportError unit) t4 r -> t4 = [] /\ r <> Ok tt) by (by intros e [-> ->]).
  destruct (Z.eqb_spec v SOCKS_VERSION) as [->|]; cbn [negb] in H; [|left; apply Hstop in H as [-> H]; rewrite app_nil_r; by split].
  destruct (Z.eqb_spec m SOCKS_METHOD_NO_AUTH) as [->|]; [left; destruct H as [-> ->]; by rewrite app_nil_r|].
  destruct (Z.eqb_spec m SOCKS_METHOD_PASSWORD) as [->|].
  - apply authenticate_trace in H as [(Hs4 & Hr4 & Hok)|(u & p & -> & Hs4 & Hok)].
    + left. rewrite Hs4, app_nil_r. by split.
    + right. exists u, p. rewrite Hs4. split_and!; [done..| |]; [by exists (received t4)|]. intros Hok'. by rewrite (Hok Hok').
  - left. destruct (m =? SOCKS_METHOD_NO_ACCEPTABLE); apply Hstop in H as [-> H]; rewrite app_nil_r; by split.
Qed.

(** The target of a request: an address, a name, or an address looked up. *)
Definition target_field (host : list Z) (port : Z) (remote_dns : bool) (t : list Event) (field : list Z) : Prop :=
  match parse_ip host with
  | Some ip => field = append_socks5_ip [] ip
  | None =>
      if remote_dns
      then field = [SOCKS_ATYP_DOMAIN; zlen (utf8_encode host)] ++ utf8_encode host /\ zlen (utf8_encode host) <= 255
      else exists a l, mkEvent (Resolve host port) (Ok (a :: l)) ∈ t /\ field = append_socks5_ip [] a.1
  end.
Lemma append_ip request ip port : append_socks5_ip request ip ++ port = request ++ append_socks5_ip [] ip ++ port.
Proof. destruct ip; simpl; by rewrite <-!app_assoc. Qed.
Lemma append_trace request host port remote_dns t r : outcome (append_socks5_target request host port remote_dns) t r ->
  sent t = [] /\ received t = []
  /\ forall request', r = Ok request' -> exists field, request' = request ++ field ++ u16_to_be port /\ target_field host port remote_dns t field.
Proof.
  unfold append_socks5_target, target_field. destruct (parse_ip host) as [ip|].
  { intros [-> ->]. split_and!; [done..|]. intros ? [= <-]. eexists. split; [|done]. apply append_ip. }
  destruct remote_dns.
  - destruct (Z.ltb_spec 255 (zlen (utf8_encode host))); [by intros [-> ->]|]. pose proof (zlen_nonneg (utf8_encode host)).
    rewrite wrap_small by (unfold in_width; lia). intros [-> ->]. split_and!; [done..|]. intros ? [= <-]. eexists. split; [|done].
    by rewrite <-!app_assoc.
  - intros H. net_case H as a t1 t2 H1.
    + destruct H as [-> ->]. rewrite app_nil_r. apply outcome_nbind_ok in H1 as (addr & t3 & t4 & -> & H3 & [-> [= ->]]).
      rewrite app_nil_r. pose proof (resolve_quiet _ _ _ _ H3) as [-> ->]. split_and!; [done..|]. intros ? [= <-].
      apply resolve_trace in H3 as (x & -> & Hx). destruct (Hx addr eq_refl) as (l & ->). eexists. split; [apply append_ip|].
      exists addr, l. split; [by left|done].
    + net_case H as addr t3 t4 H3; [by destruct H as [_ H]|]. apply resolve_quiet in H as [-> ->]. done.
Qed.
Lemma drain_trace atyp t : outcome (drain_socks5_bind_address atyp) t (Ok tt) -> sent t = []
  /\ exists address bound, received t = address ++ bound /\ length bound = 2%nat
     /\ ((atyp = SOCKS_ATYP_IPV4 /\ length address = 4%nat) \/ (atyp = SOCKS_ATYP_IPV6 /\ length address = 16%nat)
        \/ (atyp = SOCKS_ATYP_DOMAIN /\ exists name, address = zlen name :: name)).
Proof.
  unfold drain_socks5_bind_address. intros H. apply outcome_nbind_ok in H as (len & t1 & t2 & -> & H1 & H).
  apply outcome_nbind_ok in H as (sink & t3 & t4 & -> & H3 & [-> _]). apply read_exact_trace in H3 as (Hs3 & Hr3 & Hl3 & _).
  rewrite app_nil_r, sent_app, received_app, Hs3, Hr3, app_nil_r.
  assert (Hsplit : forall n, len = Z.of_nat n -> exists address bound, sink = address ++ bound /\ length bound = 2%nat /\ length address = n).
  { intros n ->. exists (take n sink), (drop n sink). rewrite take_drop, length_drop, length_take, Hl3. split_and!; [done|lia..]. }
  destruct (Z.eqb_spec atyp SOCKS_ATYP_IPV4) as [->|].
  { destruct H1 as [-> [= ->]]. destruct (Hsplit 4%nat eq_refl) as (ad & b & -> & Hb & Ha). split; [done|]. exists ad, b. eauto. }
  destruct (Z.eqb_spec atyp SOCKS_ATYP_DOMAIN) as [->|].
  - apply outcome_nbind_ok in H1 as (l & t5 & t6 & -> & H5 & H6). apply read_exact_trace in H5 as (Hs5 & Hr5 & Hl5 & Hb5).
    destruct l as [|k [|]]; try done. destruct H6 as [-> [= ->]]. rewrite app_nil_r, Hs5, Hr5.
    inversion_clear Hb5 as [|? ? Hn _]. destruct (Hsplit (Z.to_nat k)) as (ad & b & -> & Hb & Ha); [unfold in_width in Hn; lia|].
    split; [done|]. exists (k :: ad), b. split_and!; [done..|]. right. right. split; [done|]. exists ad. unfold zlen. rewrite Ha.
    unfold in_width in Hn. f_equal. lia.
  - destruct (Z.eqb_spec atyp SOCKS_ATYP_IPV6) as [->|]; [|by destruct H1 as [_ H1]].
    destruct H1 as [-> [= ->]]. destruct (Hsplit 16%nat eq_refl) as (ad & b & -> & Hb & Ha). split; [done|]. exists ad, b. eauto 6.
Qed.

Lemma send_connect_trace host port remote_dns t r : outcome (send_socks5_connect host port remote_dns) t r ->
  (sent t = [] /\ received t = [] /\ r <> Ok tt)
  \/ exists field, sent t = [SOCKS_VERSION; SOCKS_COMMAND_CONNECT; 0] ++ field ++ u16_to_be port
       /\ target_field host port remote_dns t field /\ (r = Ok tt -> granted (received t)).
Proof.
  unfold send_socks5_connect. intros H. net_case H as request t1 t2 H1.
  2: { left. apply append_trace in H as (-> & -> & _). done. }
  apply append_trace in H1 as (Hs1 & Hr1 & Hreq). destruct (Hreq request eq_refl) as (field & -> & Hf).
  assert (Hf' : forall u, target_field host port remote_dns (t1 ++ u) field).
  { intros u. unfold target_field in *. destruct (parse_ip host); [done|]. destruct remote_dns; [done|].
    destruct Hf as (a & l & Hin & ->). exists a, l. split; [apply elem_of_app; by left|done]. }
  right. exists field. rewrite sent_app, received_app, Hs1, Hr1. cbn [app]. split_and!; [|done|].
  - net_case H as a t3 t4 H3; [|by apply write_all_trace in H as [-> _]]. apply write_all_trace in H3 as [Hs3 _].
    rewrite sent_app, Hs3. enough (sent t4 = []) as -> by (by rewrite app_nil_r).
    apply asks_outcome with (P := fun o => match o with WriteAll _ => False | _ => True end) in H.
    + clear -H. induction H as [|[o x] t Ho _ IH]; [done|]. rewrite sent_cons, IH, app_nil_r. by destruct o.
    + asks; try exact I. eapply asks_mono; [|apply drain_reads]. by intros [].
  - intros ->. apply outcome_nbind_ok in H as (a & t3 & t4 & -> & H3 & H). apply write_all_trace in H3 as [_ Hr3].
    apply outcome_nbind_ok in H as (header & t5 & t6 & -> & H5 & H). apply read_exact_trace in H5 as (_ & Hr5 & Hl5 & _).
    destruct header as [|h0 [|h1 [|h2 [|h3 [|]]]]]; try done. rewrite !received_app, Hr3, Hr5. cbn [app].
    destruct (Z.eqb_spec h0 SOCKS_VERSION) as [->|]; [|by destruct H as [_ H]]. destruct (Z.eqb_spec h2 0) as [->|]; [|by destruct H as [_ H]].
    cbn [negb orb] in H. destruct (Z.eqb_spec h1 0) as [->|]; [|by destruct H as [_ H]]. cbn [negb] in H.
    apply drain_trace in H as (_ & address & bound & -> & Hb & Ha). exists h3, address, bound. done.
Qed.

(** what a SOCKS5 handshake sends and reads, whatever the proxy answers: the
    greeting; the user name and password, length-prefixed and whole, only if
    they are configured and the proxy chose that method; and one request for
    the target.  It succeeds only when the proxy accepted the method and granted
    the request, and has then read exactly the proxy's answers, so that nothing
    of the session's stream is lost. *)
Theorem socks5_handshake_exact host port proxy t r :
  outcome (socks5_handshake host port proxy) t r ->
  exists creds request,
    sent t = socks5_greeting (up_auth proxy) ++ creds ++ request
    /\ (creds = [] \/ exists u p, up_auth proxy = PaPassword u p /\ creds = credentials u p
                       /\ [SOCKS_VERSION; SOCKS_METHOD_PASSWORD] `prefix_of` received t)
    /\ (request = [] \/ exists field, request = [SOCKS_VERSION; SOCKS_COMMAND_CONNECT; 0] ++ field ++ u16_to_be port
                          /\ target_field host port (up_remote_dns proxy) t field)
    /\ (r = Ok tt -> request <> [] /\ exists reply, granted reply /\ received t =
          (if bool_decide (creds = []) then [SOCKS_VERSION; SOCKS_METHOD_NO_AUTH]
           else [SOCKS_VERSION; SOCKS_METHOD_PASSWORD; SOCKS_AUTH_VERSION; 0]) ++ reply).
Proof.
  unfold socks5_handshake. intros H. net_case H as a t1 t2 H1.
  - destruct a. apply negotiate_trace in H1. apply send_connect_trace in H.
    assert (Hreq : exists request, sent t2 = request
      /\ (request = [] \/ exists field, request = [SOCKS_VERSION; SOCKS_COMMAND_CONNECT; 0] ++ field ++ u16_to_be port
                          /\ target_field host port (up_remote_dns proxy) (t1 ++ t2) field)
      /\ (r = Ok tt -> request <> [] /\ granted (received t2))).
    { exists (sent t2). split; [done|]. destruct H as [(-> & _ & Hr)|(field & -> & Hf & Hok)]; [by split; [left|]|]. split; [|by intros Hr; split; [|apply Hok]].
      right. exists field. split; [done|]. unfold target_field in *. destruct (parse_ip host); [done|]. destruct (up_remote_dns proxy); [done|].
      destruct Hf as (a & l & Hin & ->). exists a, l. split; [apply elem_of_app; by right|done]. }
    destruct Hreq as (request & Hs2 & Hreq & Hok2). rewrite sent_app, received_app, Hs2.
    destruct H1 as [(Hs1 & Hok1)|(u & p & Ha & Hs1 & _ & Hok1)]; rewrite Hs1, (Hok1 eq_refl).
    + exists [], request. split_and!; [done|by left|done|]. intros Hr. destruct (Hok2 Hr) as [Hne Hg]. split; [done|]. by exists (received t2).
    + exists (credentials u p), request. rewrite <-app_assoc. split_and!; [done| |done|].
      * right. exists u, p. split_and!; [done..|]. by eexists.
      * intros Hr. destruct (Hok2 Hr) as [Hne Hg]. split; [done|]. by exists (received t2).
  - apply negotiate_trace in H as [(Hs & _)|(u & p & Ha & Hs & Hpre & _)]; rewrite Hs.
    + exists [], []. split_and!; [by rewrite !app_nil_r|by left|by left|done].
    + exists (credentials u p), []. split_and!; [by rewrite app_nil_r| |by left|done]. right. by exists u, p.
Qed.

(** ** The answer to HTTP CONNECT *)

Definition header_end (h : list Z) : Prop := (CRLF ++ CRLF) `suffix_of` h.

Lemma read_header_trace fuel : forall response t r, outcome (read_header fuel response) t r ->
  (forall k, (k <= length response)%nat -> ~ header_end (take k response)) -> zlen response <= HTTP_CONNECT_MAX_HEADER_BYTES ->
  let h := response ++ received t in
  (forall k, (k < length h)%nat -> ~ header_end (take k h)) /\ zlen h <= HTTP_CONNECT_MAX_HEADER_BYTES
  /\ ((header_end h /\ r = Ok h)
      \/ (~ header_end h /\ (exists e, r = Err e) /\ (all_ok t = true ->
            zlen h = HTTP_CONNECT_MAX_HEADER_BYTES /\ r = Err (proxy_transport_error HttpHeaderTooLarge)))).
Proof.
  induction fuel as [|fuel IH]; intros response t r; [done|]. cbn [read_header]. intros H Hno Hmax.
  assert (Hself : ~ header_end response) by (rewrite <-(firstn_all response) at 1; by apply Hno).
  assert (Hno' : forall k, (k < length response)%nat -> ~ header_end (take k response)) by (intros k Hk; apply Hno; lia).
  destruct (Z.leb_spec HTTP_CONNECT_MAX_HEADER_BYTES (zlen response)) as [Hfull|Hroom].
  { destruct H as [-> ->]. cbn. rewrite app_nil_r. split_and!; [done..|]. right. split_and!; [done|by eexists|]. intros _. split; [lia|done]. }
  net_case H as byte t1 t2 H1.
  - apply read_exact_trace in H1 as (_ & Hr1 & Hl1 & _). destruct byte as [|b [|]]; try done. rewrite received_app, Hr1.
    assert (Hlen : zlen (response ++ [b]) <= HTTP_CONNECT_MAX_HEADER_BYTES) by (rewrite zlen_app; unfold zlen at 2; simpl; lia).
    assert (Htake : forall k, (k < length (response ++ [b]))%nat -> ~ header_end (take k (response ++ [b]))).
    { intros k Hk. rewrite length_app in Hk. simpl in Hk. rewrite take_app_le by lia. apply Hno. lia. }
    rewrite app_assoc. case_bool_decide as Hend.
    + destruct H as [-> ->]. cbn. rewrite app_nil_r. split_and!; [done..|]. by left.
    + destruct (IH (response ++ [b]) t2 r H) as (Hk & Hl & Hres); [|done|].
      * intros k Hk. destruct (decide (k = length (response ++ [b]))) as [->|]; [by rewrite firstn_all|apply Htake; lia].
      * split_and!; [done..|]. destruct Hres as [?|(? & ? & Hok)]; [by left|]. right. split_and!; [done..|].
        rewrite all_ok_app. intros [_ Hok2]%andb_true_iff. by apply Hok.
  - pose proof H as Ht. apply read_exact_trace in H as [_ ->]. rewrite app_nil_r. split_and!; [done..|]. right. split_and!; [done|by eexists|].
    apply outcome_with_error in Ht as (r' & Ht & Er). apply outcome_ask in Ht as [-> _]. destruct r' as [|e']; [done|]. done.
Qed.

(** of the proxy's answer to CONNECT exactly the header is read, up to the
    first empty line and at most 16 KiB, so that the session's first bytes are
    left in the stream; a longer header is refused, and the tunnel is used only
    if the header is text whose first line carries a status between 200 and
    299. *)
Theorem http_answer_exact t r :
  outcome read_http_connect_response t r ->
  (forall k, (k < length (received t))%nat -> ~ header_end (take k (received t)))
  /\ zlen (received t) <= HTTP_CONNECT_MAX_HEADER_BYTES
  /\ ((header_end (received t) /\ r = check_http_response (received t))
      \/ (~ header_end (received t) /\ r <> Ok tt
          /\ (all_ok t = true -> zlen (received t) = HTTP_CONNECT_MAX_HEADER_BYTES
                                 /\ r = Err (proxy_transport_error HttpHeaderTooLarge)))).
Proof.
  unfold read_http_connect_response. intros H.
  assert (Hnil : forall k, (k <= length (@nil Z))%nat -> ~ header_end (take k (@nil Z))).
  { intros k _ Hs. rewrite take_nil in Hs. apply suffix_length in Hs. simpl in Hs. lia. }
  net_case H as h t1 t2 H1.
  - apply read_header_trace in H1 as (Hk & Hl & [[He [= ->]]|(_ & [e He] & _)]); [|done..].
    destruct H as [-> ->]. rewrite app_nil_r. split_and!; [done..|]. by left.
  - apply read_header_trace in H as (Hk & Hl & [[He Hr]|(He & [e' Hr] & Hok)]); [done| |done..].
    split_and!; [done..|]. right. injection Hr as ->. split_and!; [done..|]. intros Ht. destruct (Hok Ht) as [? [= ->]]. done.
Qed.

(** ** Dialing ends *)

Lemma ends_nbind {E A B} (p : Net E A) (f : A -> Net E B) : ends p -> (forall a, ends (f a)) -> ends (nbind p f).
Proof. intros Hp Hf. apply ends_bind; [done|]. by intros [a|e]; [apply Hf|]. Qed.
Lemma ends_read {E A} (f : IoError -> E) n (g : list Z -> Net E A) :
  (forall bytes, length bytes = n -> bytes_ok bytes -> ends (g bytes)) -> ends (nbind (read_exact f n) g).
Proof. intros Hg. simpl. intros [bytes|e] Hx; simpl; [apply Hg; apply Hx|done]. Qed.
Lemma read_header_ends fuel response :
  HTTP_CONNECT_MAX_HEADER_BYTES - zlen response < Z.of_nat fuel -> zlen response <= HTTP_CONNECT_MAX_HEADER_BYTES -> ends (read_header fuel response).
Proof.
  revert response. induction fuel as [|fuel IH]; intros response Hf Hm; [lia|]. cbn [read_header].
  destruct (Z.leb_spec HTTP_CONNECT_MAX_HEADER_BYTES (zlen response)); [done|]. apply ends_read. intros bytes Hl _.
  destruct (bool_decide _); [done|]. assert (zlen (response ++ bytes) = zlen response + 1) by (rewrite zlen_app; unfold zlen at 2; lia).
  apply IH; lia.
Qed.

Lemma resolve_ends host port : ends (resolve_socket_addr host port).
Proof. unfold resolve_socket_addr. apply ends_nbind; [by intros|]. by intros []. Qed.
Lemma negotiate_ends auth : ends (negotiate_socks5_auth auth).
Proof.
  unfold negotiate_socks5_auth. apply ends_nbind; [by intros|]. intros _. apply ends_read. intros [|v [|m [|]]] Hl _; try done.
  destruct (v =? _); [|done]. destruct (m =? SOCKS_METHOD_NO_AUTH); [done|]. destruct (m =? SOCKS_METHOD_PASSWORD).
  - destruct auth as [|u p]; [done|]. unfold authenticate_socks5_password. destruct (_ || _); [done|]. apply ends_nbind; [by intros|].
    intros _. apply ends_read. intros [|w [|st [|]]] Hl2 _; try done. destruct (w =? _); [|done]. by destruct (st =? 0).
  - by destruct (m =? SOCKS_METHOD_NO_ACCEPTABLE).
Qed.
Lemma drain_ends atyp : ends (drain_socks5_bind_address atyp).
Proof.
  unfold drain_socks5_bind_address. apply ends_nbind; [|intros n; by apply ends_read].
  destruct (atyp =? SOCKS_ATYP_IPV4); [done|]. destruct (atyp =? SOCKS_ATYP_DOMAIN); [|by destruct (atyp =? SOCKS_ATYP_IPV6)].
  apply ends_read. by intros [|n [|]].
Qed.
Lemma append_ends request host port remote_dns : ends (append_socks5_target request host port remote_dns).
Proof.
  unfold append_socks5_target. apply ends_nbind; [|done]. destruct (parse_ip host); [done|]. destruct remote_dns; [by destruct (255 <? _)|].
  apply ends_nbind; [apply resolve_ends|done].
Qed.
Lemma send_connect_ends host port remote_dns : ends (send_socks5_connect host port remote_dns).
Proof.
  unfold send_socks5_connect. apply ends_nbind; [apply append_ends|]. intros request. apply ends_nbind; [by intros|]. intros _.
  apply ends_read. intros [|h0 [|h1 [|h2 [|h3 [|]]]]] Hl _; try done. destruct (_ || _); [done|]. destruct (h1 =? 0); [apply drain_ends|done].
Qed.

(** C14: a dial ends whatever the network answers: no answer of a proxy, however
    long or malformed, keeps the client reading for ever. *)
Theorem proxy_dial_ends base64 host port proxy : ends (dial_initial_tcp base64 host port proxy).
Proof.
  unfold dial_initial_tcp. apply ends_nbind; [|by intros].
  assert (Hdirect : ends (dial_direct_tcp host port)) by (apply ends_nbind; [apply resolve_ends|by intros]).
  destruct proxy as [proxy|]; [|done]. unfold dial_via_upstream_proxy_or_direct. destruct (should_bypass_proxy _ _); [done|].
  destruct (up_protocol proxy); (apply ends_nbind; [apply resolve_ends|]; intros addr; apply ends_nbind; [by intros|]; intros _).
  - apply ends_nbind; [apply negotiate_ends|]. intros _. apply send_connect_ends.
  - apply ends_nbind; [by intros|]. intros _. apply ends_nbind; [|done]. apply read_header_ends; rewrite zlen_nil; unfold header_fuel, HTTP_CONNECT_MAX_HEADER_BYTES; lia.
Qed.

(** ** Hosts that bypass the proxy *)

(** The first [prefix] bits of two addresses of a family agree. *)
Definition in_network (ip network : IpAddr) (prefix : Z) : Prop :=
  match ip, network with
  | V4 ip, V4 network => Z.shiftr (from_be ip) (32 - prefix) = Z.shiftr (from_be network) (32 - prefix)
  | V6 ip, V6 network => Z.shiftr (from_be ip) (128 - prefix) = Z.shiftr (from_be network) (128 - prefix)
  | _, _ => False
  end.

Lemma from_be_width octets : bytes_ok octets -> 0 <= from_be octets < 2 ^ (8 * zlen octets).
Proof.
  unfold from_be. intros Ho. enough (H : forall acc n, 0 <= n -> 0 <= acc < 2 ^ n ->
    0 <= fold_left (fun a b => a * 256 + b) octets acc < 2 ^ (n + 8 * zlen octets)).
  { by apply (H 0 0). }
  induction Ho as [|b octets Hb _ IH]; intros acc n Hn Hacc; [replace (n + 8 * zlen (@nil Z)) with n by (unfold zlen; simpl; lia); done|].
  simpl. rewrite zlen_cons. replace (n + 8 * (1 + zlen octets)) with ((n + 8) + 8 * zlen octets) by lia.
  apply IH; [lia|]. rewrite Z.pow_add_r by lia. unfold in_width in Hb. change (2 ^ 8) with 256 in *. nia.
Qed.
(** Comparing under the mask compares the leading bits. *)
Lemma mask_compare w s x y mask : 0 <= s -> 0 <= x < 2 ^ w -> 0 <= y < 2 ^ w -> 0 <= w ->
  (forall i, 0 <= i -> Z.testbit mask i = (s <=? i) && (i <? w)) ->
  Z.land x mask = Z.land y mask <-> Z.shiftr x s = Z.shiftr y s.
Proof.
  intros Hs Hx Hy Hw Hm. split; intros H; apply Z.bits_inj'; intros i Hi.
  - rewrite !Z.shiftr_spec by done. destruct (Z.lt_ge_cases (i + s) w) as [Hlt|Hge].
    + assert (Hb : Z.testbit (Z.land x mask) (i + s) = Z.testbit (Z.land y mask) (i + s)) by (by rewrite H).
      rewrite !Z.land_spec, Hm in Hb by lia. rewrite (proj2 (Z.leb_le _ _)), (proj2 (Z.ltb_lt _ _)), !andb_true_r in Hb by lia. done.
    + rewrite !(testbit_width w) by (done || lia). done.
  - rewrite !Z.land_spec, Hm by done. destruct (Z.leb_spec s i) as [Hle|]; [|by rewrite !andb_false_r]. f_equal.
    assert (Hb : Z.testbit (Z.shiftr x s) (i - s) = Z.testbit (Z.shiftr y s) (i - s)) by (by rewrite H).
    rewrite !Z.shiftr_spec in Hb by lia. by replace (i - s + s) with i in Hb by lia.
Qed.
Lemma cidr_mask_bits prefix bits i : 0 <= prefix <= bits -> bits <= 128 -> 0 <= i ->
  Z.testbit (cidr_mask prefix bits) i = bool_decide (prefix <> 0) && (bits - prefix <=? i) && (i <? 128).
Proof.
  intros Hp Hb Hi. unfold cidr_mask. destruct (Z.eqb_spec prefix 0) as [->|]; [by rewrite Z.bits_0|].
  rewrite bool_decide_eq_true_2 by done. rewrite testbit_wrap by lia. rewrite Z.shiftl_spec by lia. cbn [andb].
  destruct (Z.leb_spec (bits - prefix) i).
  - change (2 ^ 128 - 1) with (Z.pred (2 ^ 128)). rewrite <-Z.ones_equiv. destruct (Z.ltb_spec i 128); [|done].
    rewrite Z.ones_spec_low by lia. done.
  - rewrite Z.testbit_neg_r by lia. by destruct (i <? 128).
Qed.
Lemma cidr_exact ip network prefix : ip_ok ip -> ip_ok network ->
  match network with V4 _ => 0 <= prefix <= 32 | V6 _ => 0 <= prefix <= 128 end ->
  ip_matches_cidr ip network prefix = true <-> in_network ip network prefix.
Proof.
  destruct ip as [ip|ip], network as [network|network]; intros [Hl Ho] [Hl' Ho'] Hp; cbn [ip_matches_cidr in_network]; [|done|done|].
  - apply from_be_width in Ho, Ho'. unfold zlen in Ho, Ho'. rewrite Hl in Ho. rewrite Hl' in Ho'. rewrite Z.eqb_eq.
    destruct (Z.eq_dec prefix 0) as [->|Hne].
    + cbn. rewrite !Z.land_0_r. split; [|done]. intros _. rewrite !Z.shiftr_div_pow2 by lia. rewrite !Z.div_small by lia. done.
    + apply (mask_compare 32); [lia|done..|]. intros i Hi. rewrite testbit_wrap by lia. rewrite cidr_mask_bits by lia.
      rewrite bool_decide_eq_true_2 by done. cbn [andb]. destruct (Z.ltb_spec i 32), (Z.leb_spec (32 - prefix) i), (Z.ltb_spec i 128); try done; lia.
  - apply from_be_width in Ho, Ho'. unfold zlen in Ho, Ho'. rewrite Hl in Ho. rewrite Hl' in Ho'. rewrite Z.eqb_eq.
    destruct (Z.eq_dec prefix 0) as [->|Hne].
    + cbn. rewrite !Z.land_0_r. split; [|done]. intros _. rewrite !Z.shiftr_div_pow2 by lia. rewrite !Z.div_small by lia. done.
    + apply (mask_compare 128); [lia|done..|]. intros i Hi. rewrite cidr_mask_bits by lia. by rewrite bool_decide_eq_true_2.
Qed.

(** A host and a rule without the blanks and brackets around them. *)
Definition bare (s : list Z) : list Z := trim_matches is_bracket (trim s).
(** What a rule means. *)
Inductive covers (target : list Z) : list Z -> Prop :=
| covers_all : covers target (lit "*")
| covers_network rule network prefix ip :
    parse_cidr_rule rule = Some (network, prefix) -> parse_ip target = Some ip -> in_network ip network prefix -> covers target rule
| covers_address rule ip :
    parse_cidr_rule rule = None -> parse_ip rule = Some ip -> parse_ip target = Some ip -> covers target rule
| covers_domain rule domain below :
    parse_cidr_rule rule = None -> parse_ip rule = None -> to_ascii_lowercase rule = lit "*." ++ domain ->
    to_ascii_lowercase target = below ++ [46] ++ domain -> covers target rule
| covers_name rule :
    parse_cidr_rule rule = None -> parse_ip rule = None -> ~ lit "*." `prefix_of` to_ascii_lowercase rule ->
    to_ascii_lowercase target = to_ascii_lowercase rule -> covers target rule.

Lemma strip_prefix_spec p s r : strip_prefix_str p s = Some r <-> s = p ++ r.
Proof.
  unfold strip_prefix_str. case_bool_decide as H.
  - split; [intros [= <-]; rewrite <-H at 1; by rewrite take_drop|intros ->]. by rewrite drop_app_length.
  - split; [done|]. intros ->. by rewrite take_app_length in H.
Qed.
Lemma strip_prefix_none p s : strip_prefix_str p s = None <-> ~ p `prefix_of` s.
Proof.
  split.
  - intros H [r Hr]. assert (strip_prefix_str p s = Some r) by (by apply strip_prefix_spec). congruence.
  - intros H. destruct (strip_prefix_str p s) as [r|] eqn:E; [|done]. apply strip_prefix_spec in E. destruct H. by exists r.
Qed.
Lemma strip_suffix_spec p s r : strip_suffix_str p s = Some r <-> s = r ++ p.
Proof.
  unfold strip_suffix_str. case_bool_decide as H.
  - destruct H as [k ->]. rewrite length_app. replace (length k + length p - length p)%nat with (length k) by lia. rewrite take_app_length.
    split; [by intros [= ->]|]. intros Heq. f_equal. by apply app_inv_tail in Heq.
  - split; [done|]. intros ->. destruct H. by exists r.
Qed.
Lemma cidr_rule_ok rule network prefix : parse_cidr_rule rule = Some (network, prefix) ->
  ip_ok network /\ match network with V4 _ => 0 <= prefix <= 32 | V6 _ => 0 <= prefix <= 128 end.
Proof.
  unfold parse_cidr_rule. destruct (split_once_char 47 rule) as [[n p]|]; [|done]. destruct (parse_ip n) as [ip|] eqn:Hip; [|done].
  apply parse_ip_ok in Hip. unfold parse_u8. destruct (parse_u64 p) as [k|] eqn:Hk; [|by destruct ip].
  apply parse_u64_range in Hk. unfold in_width in Hk. destruct (k <=? 255); [|by destruct ip].
  destruct ip; [destruct (Z.leb_spec k 32)|destruct (Z.leb_spec k 128)]; intros [= <- <-]; (split; [done|lia]).
Qed.
Lemma domain_rule suffix target :
  match strip_suffix_str suffix target with Some prefix => bool_decide (last prefix = Some 46) | None => false end = true
  <-> exists below, target = below ++ [46] ++ suffix.
Proof.
  split.
  - destruct (strip_suffix_str suffix target) as [prefix|] eqn:E; [|done]. rewrite bool_decide_eq_true. intros Hl.
    apply strip_suffix_spec in E as ->. apply last_Some in Hl as [l ->]. exists l. by rewrite <-app_assoc.
  - intros [below ->]. rewrite app_assoc. rewrite (proj2 (strip_suffix_spec suffix _ (below ++ [46]))) by done.
    rewrite last_snoc. by apply bool_decide_eq_true.
Qed.
Lemma bypass_rule_exact target raw : bypass_rule target raw = true <-> bare raw <> [] /\ covers target (bare raw).
Proof.
  unfold bypass_rule. fold (bare raw). set (rule := bare raw). case_bool_decide as Hnil; [by split; [|intros []]|].
  case_bool_decide as Hstar; [split; [intros _; split; [done|rewrite Hstar; constructor]|done]|].
  destruct (parse_cidr_rule rule) as [[network prefix]|] eqn:Hc.
  - destruct (cidr_rule_ok _ _ _ Hc) as [Hn Hp]. split.
    + destruct (parse_ip target) as [ip|] eqn:Hip; [|done]. intros H. split; [done|]. eapply covers_network; [done..|].
      apply cidr_exact; [by eapply parse_ip_ok|done..].
    + intros [_ H]. inversion H as [Heq|? ? ? ip Hc' Hip Hin|? ? Hc'|? ? ? Hc'|? Hc']; [done| |congruence..].
      rewrite Hip. simplify_eq. apply cidr_exact; [by eapply parse_ip_ok|done..].
  - destruct (parse_ip rule) as [rule_ip|] eqn:Hr.
    + rewrite bool_decide_eq_true. split; [intros H; split; [done|by eapply covers_address]|].
      intros [_ H]. inversion H as [Heq|? ? ? ip Hc'|? ? _ Hr' Ht|? ? ? _ Hr'|? _ Hr']; [done|congruence..].
    + destruct (strip_prefix_str (lit "*.") (to_ascii_lowercase rule)) as [suffix|] eqn:Hs.
      * apply strip_prefix_spec in Hs. rewrite domain_rule. split.
        -- intros [below Hb]. split; [done|]. by eapply covers_domain.
        -- intros [_ H]. inversion H as [Heq|? ? ? ? Hc'|? ? _ Hr'|? domain below _ _ Hd Ht|? _ _ Hno]; [done|congruence..| |].
           ++ exists below. rewrite Hs in Hd. apply app_inv_head in Hd as <-. done.
           ++ destruct Hno. by exists suffix.
      * apply strip_prefix_none in Hs. rewrite bool_decide_eq_true. split; [intros H; split; [done|by apply covers_name]|].
        intros [_ H]. inversion H as [Heq|? ? ? ? Hc'|? ? _ Hr'|? domain below _ _ Hd _|]; [done|congruence..| |done]. destruct Hs. by exists domain.
Qed.

(** a host bypasses the proxy exactly if a rule of the list covers it: the
    rule for all hosts, a network whose leading bits its address shares, its
    address however it is written, a domain it lies below, or its own name,
    without regard to the case of letters; names are never looked up for it. *)
Theorem no_proxy_exact target_host no_proxy :
  should_bypass_proxy target_host no_proxy = true
  <-> bare target_host <> [] /\ exists raw, raw ∈ split_char 44 no_proxy /\ bare raw <> [] /\ covers (bare target_host) (bare raw).
Proof.
  unfold should_bypass_proxy. fold (bare target_host). case_bool_decide as Hnil; [by split; [|intros []]|]. rewrite existsb_exists.
  split.
  - intros (raw & Hin & H). split; [done|]. exists raw. split; [by apply list_elem_of_In|]. by apply bypass_rule_exact.
  - intros (_ & raw & Hin & H). exists raw. split; [by apply list_elem_of_In|]. by apply bypass_rule_exact.
Qed.

(** ** Samples *)

Definition sample_outside : Outside :=
  mkOutside (fun _ _ => Ok [(V4 [192; 0; 2; 1], 1080)]) (fun _ => Ok tt)
    (fun host _ => if bool_decide (host = lit "down.example") then Err (ChannelError (lit "refused")) else Ok tt).
Definition sample_proxy : UpstreamProxyConfig := mkProxy Socks5 "proxy.example" 1080 (PaPassword "user" "secret") true "*.internal,10.0.0.0/8".
Definition sample_answers : list Z := [5; 2; 1; 0; 5; 0; 0; 1; 1; 2; 3; 4; 5; 6; 7].
Definition sample_trace : list Event :=
  match run sample_outside (dial_initial_tcp id (lit "host.example") 22 (Some sample_proxy)) sample_answers with Some (t, _, _) => t | None => [] end.
Definition sample_handshake : list Event :=
  match run sample_outside (socks5_handshake (lit "host.example") 22 sample_proxy) sample_answers with Some (t, _, _) => t | None => [] end.
Definition sample_header : list Z := lit "HTTP/1.1 200 OK" ++ CRLF ++ CRLF.
Definition sample_http : list Event :=
  match run sample_outside read_http_connect_response (sample_header ++ [1; 2]) with Some (t, _, _) => t | None => [] end.

Lemma proxy_dial_private_witness :
  Forall (fun e =>
    if should_bypass_proxy (lit "host.example") (str_chars (up_no_proxy sample_proxy))
    then dial_op (lit "host.example") 22 (fun _ => False) sample_trace (event_op e)
    else dial_op (str_chars (up_host sample_proxy)) (up_port sample_proxy) (target_lookup (lit "host.example") 22 sample_proxy) sample_trace
           (event_op e)) sample_trace.
Proof.
  apply (proxy_dial_private id (lit "host.example") 22 sample_proxy sample_trace (Ok tt)).
  apply (run_outcome sample_outside _ sample_answers _ _ [7]); [repeat constructor; simpl; lia|vm_compute; reflexivity].
Defined.

Lemma socks5_handshake_exact_witness :
  exists creds request,
    sent sample_handshake = socks5_greeting (up_auth sample_proxy) ++ creds ++ request
    /\ (creds = [] \/ exists u p, up_auth sample_proxy = PaPassword u p /\ creds = credentials u p
                       /\ [SOCKS_VERSION; SOCKS_METHOD_PASSWORD] `prefix_of` received sample_handshake)
    /\ (request = [] \/ exists field, request = [SOCKS_VERSION; SOCKS_COMMAND_CONNECT; 0] ++ field ++ u16_to_be 22
                          /\ target_field (lit "host.example") 22 (up_remote_dns sample_proxy) sample_handshake field)
    /\ (Ok (E := SshTransportError) tt = Ok tt -> request <> [] /\ exists reply, granted reply /\ received sample_handshake =
          (if bool_decide (creds = []) then [SOCKS_VERSION; SOCKS_METHOD_NO_AUTH]
           else [SOCKS_VERSION; SOCKS_METHOD_PASSWORD; SOCKS_AUTH_VERSION; 0]) ++ reply).
Proof.
  apply (socks5_handshake_exact (lit "host.example") 22 sample_proxy sample_handshake (Ok tt)).
  apply (run_outcome sample_outside _ sample_answers _ _ [7]); [repeat constructor; simpl; lia|vm_compute; reflexivity].
Defined.

Lemma http_answer_exact_witness :
  (forall k, (k < length (received sample_http))%nat -> ~ header_end (take k (received sample_http)))
  /\ zlen (received sample_http) <= HTTP_CONNECT_MAX_HEADER_BYTES
  /\ ((header_end (received sample_http) /\ Ok tt = check_http_response (received sample_http))
      \/ (~ header_end (received sample_http) /\ Ok (E := SshTransportError) tt <> Ok tt
          /\ (all_ok sample_http = true -> zlen (received sample_http) = HTTP_CONNECT_MAX_HEADER_BYTES
                                 /\ Ok tt = Err (proxy_transport_error HttpHeaderTooLarge)))).
Proof.
  apply (http_answer_exact sample_http (Ok tt)).
  apply (run_outcome sample_outside _ (sample_header ++ [1; 2]) _ _ [1; 2]); [repeat constructor; simpl; lia|vm_compute; reflexivity].
Defined.

(** The host is put into the request as it is: a line break in it starts a new
    header line. *)
Example host_breaks_request :
  http_connect_request id (lit "a" ++ CRLF ++ lit "X: ") 1 PaNone
  = lit "CONNECT a" ++ CRLF ++ lit "X: :1 HTTP/1.1" ++ CRLF ++ lit "Host: a" ++ CRLF ++ lit "X: :1" ++ CRLF
    ++ lit "Proxy-Connection: Keep-Alive" ++ CRLF ++ CRLF.
Proof. vm_compute. reflexivity. Qed.
(** The tail of the URL is cut before the password is looked for. *)
Example slash_in_password :
  parse_socks5_proxy_value (lit "socks5://user:pa/ss@proxy.example:1080") = Err (SshConnectionFailed (lit "SOCKS5 proxy port is invalid")).
Proof. vm_compute. reflexivity. Qed.
