(* ===== verification/SocksServer.v ===== *)
(** * The SOCKS5 server of a dynamic forward (hapcli-forwarding)

    Model of the connections of [crates/hapcli-forwarding/src/dynamic.rs], over
    the operations of [NetProgram]: the handshake with a client, the channel
    through the SSH connection, and the reply, when no timeout strikes and the
    forward is not shut down; the bridging of bytes that follows is not
    modelled.  At the end the server is run against the proxy client of
    [Proxy]. *)
From S2P Require Import Prelude Text TrzszBuffer FileSystem TextOps IpAddr NetProgram SshConfigs Proxy ProxyFacts.
From Stdlib Require Import String.
From stdpp Require Import prelude numbers list.
Open Scope Z_scope.

(** [ForwardingError] of [error.rs]. *)
Inductive ForwardingError :=
| ForwardNotFound (id : list Z)
| ForwardAlreadyExists (id : list Z)
| ActiveRuleCannotBeEdited (id : list Z)
| UnsupportedForwardType (what : list Z)
| InvalidRule (message : list Z)
| ForwardConnectionFailed (message : list Z)
| ForwardSsh (message : list Z)
| ForwardIo (error : IoError).

Section Server.
(** The [Debug] of a string. *)
Context (debug_str : list Z -> list Z).

Definition debug_list (l : list (list Z)) : list Z := lit "[" ++ FileSystem.join (lit ", ") (map debug_str l) ++ lit "]".
Definition algorithm_kind_text (kind : SshAlgorithmKind) : list Z :=
  match kind with
  | KeyExchange => lit "key exchange"
  | HostKeyAlgorithm => lit "host key"
  | Cipher => lit "cipher"
  | Mac => lit "MAC"
  | Compression => lit "compression"
  end.
(** [to_string] of a transport error. *)
Definition transport_error_text (e : SshTransportError) : list Z :=
  match e with
  | DnsResolution address message => lit "DNS resolution failed for " ++ address ++ lit ": " ++ message
  | SshTimeout => lit "SSH connection timed out"
  | SshConnectionFailed message => lit "SSH connection failed: " ++ message
  | AuthenticationFailed message => lit "SSH authentication failed: " ++ message
  | UnsupportedAuth method => lit "SSH authentication method is not implemented in native yet: " ++ method
  | ChannelError message => lit "SSH channel error: " ++ message
  | HostKeyCheckFailed message => lit "SSH host key check failed: " ++ message
  | PreflightComplete => lit "SSH preflight complete"
  | HostKeyUnknown host port fingerprint =>
      lit "SSH host key is unknown for " ++ host ++ lit ":" ++ u64_to_string port ++ lit ": " ++ fingerprint
  | HostKeyChanged host port expected actual =>
      lit "SSH host key changed for " ++ host ++ lit ":" ++ u64_to_string port ++ lit ": expected " ++ expected
      ++ lit ", got " ++ actual
  | AlgorithmNegotiationFailed kind client_algorithms server_algorithms =>
      lit "SSH algorithm negotiation failed: no common " ++ algorithm_kind_text kind ++ lit " algorithm. Client offered: "
      ++ debug_list client_algorithms ++ lit "; server offered: " ++ debug_list server_algorithms
  end.
Definition from_transport_error (e : SshTransportError) : ForwardingError :=
  match e with
  | SshConnectionFailed message => ForwardConnectionFailed message
  | other => ForwardSsh (transport_error_text other)
  end.

Definition SOCKS_VERSION_5 : Z := 0x05.
Definition SOCKS_AUTH_NONE : Z := 0x00.
Definition SOCKS_CMD_CONNECT : Z := 0x01.
Definition SOCKS_REPLY_SUCCEEDED : Z := 0x00.
Definition SOCKS_REPLY_HOST_UNREACHABLE : Z := 0x04.
Definition SOCKS_REPLY_COMMAND_NOT_SUPPORTED : Z := 0x07.
Definition SOCKS_REPLY_ADDRESS_NOT_SUPPORTED : Z := 0x08.

Record SocksDestination := mkDestination { sd_host : list Z; sd_port : Z }.

Definition socks5_reply (reply : Z) : list Z := [SOCKS_VERSION_5; reply; 0x00; SOCKS_ATYP_IPV4; 0; 0; 0; 0; 0; 0].
Definition send_socks5_success : Net IoError unit := ask (WriteAll (socks5_reply SOCKS_REPLY_SUCCEEDED)).
Definition send_socks5_failure (reply : Z) : Net IoError unit := ask (WriteAll (socks5_reply reply)).

Definition read_host (atyp : Z) : Net ForwardingError (list Z) :=
  if atyp =? SOCKS_ATYP_IPV4 then
    let! octets := read_exact ForwardIo 4 in pure (ip_to_string (V4 octets))
  else if atyp =? SOCKS_ATYP_DOMAIN then
    let! len := read_exact ForwardIo 1 in
    match len with
    | [n] => let! host := read_exact ForwardIo (Z.to_nat n) in pure (from_utf8_lossy host)
    | _ => Endless
    end
  else if atyp =? SOCKS_ATYP_IPV6 then
    let! octets := read_exact ForwardIo 16 in pure (ip_to_string (V6 octets))
  else
    do! with_error ForwardIo (send_socks5_failure SOCKS_REPLY_ADDRESS_NOT_SUPPORTED) in
    fails (InvalidRule (lit "unsupported SOCKS5 address type")).
Definition read_request : Net ForwardingError SocksDestination :=
  let! request := read_exact ForwardIo 4 in
  match request with
  | [version; command; _; atyp] =>
      if negb (version =? SOCKS_VERSION_5) then fails (InvalidRule (lit "invalid SOCKS5 request"))
      else if negb (command =? SOCKS_CMD_CONNECT) then
        do! with_error ForwardIo (send_socks5_failure SOCKS_REPLY_COMMAND_NOT_SUPPORTED) in
        fails (UnsupportedForwardType (lit "socks5 command"))
      else
        let! host := read_host atyp in
        let! port := read_exact ForwardIo 2 in
        match port with [hi; lo] => pure (mkDestination host (u16_from_be hi lo)) | _ => Endless end
  | _ => Endless
  end.
Definition read_socks5_connect_destination : Net ForwardingError SocksDestination :=
  let! header := read_exact ForwardIo 2 in
  match header with
  | [version; method_count] =>
      if negb (version =? SOCKS_VERSION_5) then fails (InvalidRule (lit "only SOCKS5 is supported"))
      else
        let! methods := read_exact ForwardIo (Z.to_nat method_count) in
        if bool_decide (SOCKS_AUTH_NONE ∈ methods) then
          do! write_all ForwardIo [SOCKS_VERSION_5; SOCKS_AUTH_NONE] in
          read_request
        else
          do! write_all ForwardIo [SOCKS_VERSION_5; 0xff] in
          fails (InvalidRule (lit "SOCKS5 client did not offer no-auth method"))
  | _ => Endless
  end.

(** A connection up to the point where its bytes are bridged; a client that is
    told of a failure may have gone. *)
Definition bridge_dynamic_connection : Net ForwardingError SocksDestination :=
  let! destination := read_socks5_connect_destination in
  pbind (ask (OpenDirect (sd_host destination) (sd_port destination))) (fun open_result =>
    match open_result with
    | Ok _ => do! with_error ForwardIo send_socks5_success in pure destination
    | Err error => pbind (send_socks5_failure SOCKS_REPLY_HOST_UNREACHABLE) (fun _ => fails (from_transport_error error))
    end).
End Server.

(** ** Client and server *)

(** The name under which the server asks for the client's target. *)
Definition target_name (target_host : list Z) : list Z :=
  match parse_ip target_host with Some ip => ip_to_string ip | None => target_host end.

(** What a client asks the proxy for: an address, or the name itself when the
    proxy is to look it up. *)
Definition requested (w : Outside) (target_host : list Z) (target_port : Z) (remote_dns : bool) : option (list Z) :=
  match parse_ip target_host with
  | Some ip => Some (ip_to_string ip)
  | None =>
      if remote_dns then if zlen (utf8_encode target_host) <=? 255 then Some target_host else None
      else match w_resolve w target_host target_port with Ok (addr :: _) => Some (ip_to_string addr.1) | _ => None end
  end.

(** The address field of a request. *)
Inductive address_field : list Z -> list Z -> Prop :=
| field_ip ip : ip_ok ip -> address_field (append_socks5_ip [] ip) (ip_to_string ip)
| field_name host : str_ok host -> zlen (utf8_encode host) <= 255 ->
    address_field ([SOCKS_ATYP_DOMAIN; wrap 8 (zlen (utf8_encode host))] ++ utf8_encode host) host.

Lemma read_host_field w field name rest : address_field field name ->
  exists atyp bytes, field = atyp :: bytes /\ quiet w (read_host atyp) (bytes ++ rest) (Done (Ok name)) rest.
Proof.
  destruct 1 as [[octets|octets] [Hl _]|host Hs Hl]; (eexists _, _; split; [done|]); unfold read_host; cbn [Z.eqb Pos.eqb SOCKS_ATYP_IPV4 SOCKS_ATYP_DOMAIN SOCKS_ATYP_IPV6].
  - eapply quiet_nbind; [by apply quiet_read|apply quiet_refl].
  - eapply quiet_nbind; [by apply quiet_read|apply quiet_refl].
  - rewrite wrap_small by (unfold in_width; pose proof (zlen_nonneg (utf8_encode host)); lia).
    eapply quiet_nbind; [by apply (quiet_read _ _ [_])|]. eapply quiet_nbind; [apply quiet_read; unfold zlen; lia|].
    rewrite utf8_roundtrip by done. apply quiet_refl.
Qed.
Lemma read_request_field w field name port : is_u16 port -> address_field field name ->
  quiet w read_request ([SOCKS_VERSION; SOCKS_COMMAND_CONNECT; 0] ++ field ++ u16_to_be port) (Done (Ok (mkDestination name port))) [].
Proof.
  intros Hp Hf. destruct (read_host_field w field name (u16_to_be port) Hf) as (atyp & bytes & -> & Hq).
  unfold read_request. eapply quiet_nbind; [apply (quiet_read _ _ [_; _; _; _]); done|]. cbn [Z.eqb Pos.eqb negb SOCKS_VERSION SOCKS_COMMAND_CONNECT SOCKS_VERSION_5 SOCKS_CMD_CONNECT].
  eapply quiet_nbind; [exact Hq|]. rewrite <-(app_nil_r (u16_to_be port)).
  eapply quiet_nbind; [by apply quiet_read|]. simpl. rewrite u16_be_roundtrip by done. apply quiet_refl.
Qed.

(** The client's request has the field of what it asks for. *)
Lemma append_target w request host port remote_dns name input :
  (forall h p addrs, w_resolve w h p = Ok addrs -> Forall (fun a => ip_ok a.1) addrs) ->
  str_ok host -> requested w host port remote_dns = Some name ->
  exists field, address_field field name
    /\ quiet w (append_socks5_target request host port remote_dns) input (Done (Ok (request ++ field ++ u16_to_be port))) input.
Proof.
  intros Hw Hs. unfold requested, append_socks5_target.
  assert (Hip : forall ip, (request ++ append_socks5_ip [] ip) ++ u16_to_be port = append_socks5_ip request ip ++ u16_to_be port)
    by (by intros []).
  destruct (parse_ip host) as [ip|] eqn:Ei.
  - intros [= <-]. exists (append_socks5_ip [] ip). split; [constructor; by eapply parse_ip_ok|].
    rewrite app_assoc, Hip. apply quiet_refl.
  - destruct remote_dns.
    + destruct (Z.leb_spec (zlen (utf8_encode host)) 255) as [Hl|]; [|done]. intros [= <-]. rewrite (proj2 (Z.ltb_ge _ _)) by done.
      eexists. split; [by apply field_name|]. unfold nbind, pure. cbn [pbind]. rewrite <-!app_assoc. apply quiet_refl.
    + destruct (w_resolve w host port) as [[|addr addrs]|] eqn:Er; [done| |done]. intros [= <-]. exists (append_socks5_ip [] addr.1). split.
      * constructor. apply Hw in Er. by inversion Er.
      * rewrite app_assoc, Hip. eapply quiet_nbind; [|apply quiet_refl]. eapply (quiet_nbind _ _ _ _ _ _ addr); [|apply quiet_refl].
        eapply (quiet_nbind _ _ _ _ _ _ (addr :: addrs)); [|apply quiet_refl]. eapply quiet_step; [reflexivity|]. rewrite Er. apply quiet_refl.
Qed.

Definition tunnel_result {A} (opened : result SshTransportError A) (debug_str : list Z -> list Z) (destination : SocksDestination)
    : result SshTransportError unit * result ForwardingError SocksDestination * list Z * list Z :=
  match opened with
  | Ok _ => (Ok tt, Ok destination, [], [])
  | Err e => (Err (proxy_transport_error (SocksReplyCode SOCKS_REPLY_HOST_UNREACHABLE)), Err (from_transport_error debug_str e), [], [0; 0; 0; 0; 0; 0])
  end.

(** C13: the application's proxy client and the SOCKS server of its own dynamic
    forwards understand each other, whichever authentication the client offers:
    connected to each other they run to the end, the server opens a channel to
    exactly the target the client was given (the same name, or the same
    address), and both are left with nothing unread, so that the next byte on
    either side is the session's; if the channel cannot be opened, the client is
    told so. *)
Theorem socks5_tunnel w debug_str host port proxy name :
  (forall h p addrs, w_resolve w h p = Ok addrs -> Forall (fun a => ip_ok a.1) addrs) ->
  str_ok host -> is_u16 port -> requested w host port (up_remote_dns proxy) = Some name ->
  (forall ip, parse_ip host = Some ip -> parse_ip name = Some ip)
  /\ reaches w (socks5_handshake host port proxy) (bridge_dynamic_connection debug_str) [] []
    (tunnel_result (w_open w name port) debug_str (mkDestination name port)).
Proof.
  intros Hw Hs Hp Hr. split.
  { intros ip Hip. unfold requested in Hr. rewrite Hip in Hr. injection Hr as <-. by eapply ip_roundtrip, parse_ip_ok. }
  destruct (append_target w [SOCKS_VERSION; SOCKS_COMMAND_CONNECT; 0] host port (up_remote_dns proxy) name [] Hw Hs Hr) as (field & Hf & Hq).
  pose proof (read_request_field w field name port Hp Hf) as Hreq. clear Hw Hs Hr Hf.
  assert (Hgreet : reaches w (send_socks5_connect host port (up_remote_dns proxy))
     (nbind read_request (fun destination => pbind (ask (OpenDirect (sd_host destination) (sd_port destination))) (fun open_result =>
       match open_result with
       | Ok _ => nbind (with_error ForwardIo send_socks5_success) (fun _ => pure destination)
       | Err error => pbind (send_socks5_failure SOCKS_REPLY_HOST_UNREACHABLE) (fun _ => fails (from_transport_error debug_str error))
       end))) [] [] (tunnel_result (w_open w name port) debug_str (mkDestination name port))).
  { unfold send_socks5_connect. eapply reaches_client_quiet; [apply quiet_nbind_l; exact Hq|].
    eapply reaches_client; [reflexivity|]. eapply reaches_quiet; [reflexivity|apply quiet_nbind_l; exact Hreq|].
    eapply reaches_server; [reflexivity..|]. cbn [sd_host sd_port]. destruct (w_open w name port) as [[]|e].
    - eapply reaches_server; [reflexivity..|]. do 2 (eapply reaches_client; [reflexivity|]). apply reaches_done.
    - eapply reaches_server; [reflexivity..|]. eapply reaches_client; [reflexivity|]. apply reaches_done. }
  unfold socks5_handshake, negotiate_socks5_auth. destruct (up_auth proxy) as [|u p].
  - eapply reaches_client; [reflexivity|]. do 3 (eapply reaches_server; [reflexivity..|]). eapply reaches_client; [reflexivity|]. exact Hgreet.
  - eapply reaches_client; [reflexivity|]. do 3 (eapply reaches_server; [reflexivity..|]). eapply reaches_client; [reflexivity|]. exact Hgreet.
Qed.

Lemma socks5_tunnel_witness :
  (forall ip, parse_ip (lit "fe80::0:1") = Some ip -> parse_ip (lit "fe80::1") = Some ip)
  /\ reaches sample_outside (socks5_handshake (lit "fe80::0:1") 22 sample_proxy) (bridge_dynamic_connection id) [] []
    (tunnel_result (w_open sample_outside (lit "fe80::1") 22) id (mkDestination (lit "fe80::1") 22)).
Proof.
  apply (socks5_tunnel sample_outside id (lit "fe80::0:1") 22 sample_proxy (lit "fe80::1")).
  - intros h p addrs [= <-]. repeat constructor; simpl; lia.
  - repeat constructor.
  - split; [discriminate|reflexivity].
  - vm_compute. reflexivity.
Defined.

Example tunnel_refused :
  talk sample_outside 20 (socks5_handshake (lit "down.example") 22 sample_proxy) (bridge_dynamic_connection id) [] []
  = Some (Err (SshConnectionFailed (lit "SOCKS5 proxy connect failed with reply code 0x04")),
          Err (ForwardSsh (lit "SSH channel error: refused")), [], [0; 0; 0; 0; 0; 0]).
Proof. vm_compute. reflexivity. Qed.
