(* ===== verification/ForwardModel.v ===== *)
(** * Port forward rules (hapcli-forwarding)

    Model of [crates/hapcli-forwarding/src/model.rs], with the type names of
    [saved.rs] and the order of strings.  A string is its scalar values; the
    UUID of a new rule is an argument. *)
From S2P Require Import Prelude Text TrzszBuffer TextOps.
From Stdlib Require Import String.
From stdpp Require Import prelude numbers list.
Open Scope Z_scope.

Inductive ForwardType := FtLocal | FtRemote | FtDynamic.
#[export] Instance ForwardType_eq : EqDecision ForwardType.
Proof. solve_decision. Defined.

Inductive ForwardStatus := FsStarting | FsActive | FsStopped | FsError | FsSuspended.
#[export] Instance ForwardStatus_eq : EqDecision ForwardStatus.
Proof. solve_decision. Defined.

Record ForwardRule := mkRule {
  fr_id : list Z;
  fr_type : ForwardType;
  fr_bind_address : list Z;
  fr_bind_port : Z;
  fr_target_host : list Z;
  fr_target_port : Z;
  fr_status : ForwardStatus;
  fr_description : list Z
}.
#[export] Instance ForwardRule_eq : EqDecision ForwardRule.
Proof. solve_decision. Defined.

Definition set_status (status : ForwardStatus) (r : ForwardRule) : ForwardRule :=
  mkRule (fr_id r) (fr_type r) (fr_bind_address r) (fr_bind_port r) (fr_target_host r) (fr_target_port r) status
    (fr_description r).
Definition set_bound (address : list Z) (port : Z) (r : ForwardRule) : ForwardRule :=
  mkRule (fr_id r) (fr_type r) address port (fr_target_host r) (fr_target_port r) (fr_status r) (fr_description r).
Definition set_target_host (host : list Z) (r : ForwardRule) : ForwardRule :=
  mkRule (fr_id r) (fr_type r) (fr_bind_address r) (fr_bind_port r) host (fr_target_port r) (fr_status r)
    (fr_description r).
Definition set_description (description : list Z) (r : ForwardRule) : ForwardRule :=
  mkRule (fr_id r) (fr_type r) (fr_bind_address r) (fr_bind_port r) (fr_target_host r) (fr_target_port r) (fr_status r)
    description.

Record ForwardUpdate := mkUpdate {
  fu_type : option ForwardType;
  fu_bind_address : option (list Z);
  fu_bind_port : option Z;
  fu_target_host : option (list Z);
  fu_target_port : option Z;
  fu_description : option (list Z)
}.

Definition DEFAULT_FORWARD_HOST : list Z := lit "localhost".
Definition normalize_forward_host (host : list Z) : list Z :=
  let trimmed := trim host in if decide (trimmed = []) then DEFAULT_FORWARD_HOST else trimmed.

Definition rule_local (uuid bind_address : list Z) (bind_port : Z) (target_host : list Z) (target_port : Z) : ForwardRule :=
  mkRule uuid FtLocal (normalize_forward_host bind_address) bind_port (normalize_forward_host target_host) target_port
    FsStarting [].
Definition rule_remote (uuid bind_address : list Z) (bind_port : Z) (target_host : list Z) (target_port : Z) : ForwardRule :=
  mkRule uuid FtRemote (normalize_forward_host bind_address) bind_port (normalize_forward_host target_host) target_port
    FsStarting [].
Definition rule_dynamic (uuid bind_address : list Z) (bind_port : Z) : ForwardRule :=
  mkRule uuid FtDynamic (normalize_forward_host bind_address) bind_port [] 0 FsStarting (lit "SOCKS5 Proxy").

Definition apply_update (update : ForwardUpdate) (r : ForwardRule) : ForwardRule :=
  mkRule (fr_id r)
    (default (fr_type r) (fu_type update))
    (from_option normalize_forward_host (fr_bind_address r) (fu_bind_address update))
    (default (fr_bind_port r) (fu_bind_port update))
    (from_option normalize_forward_host (fr_target_host r) (fu_target_host update))
    (default (fr_target_port r) (fu_target_port update))
    (fr_status r)
    (default (fr_description r) (fu_description update)).
Definition normalize_hosts_for_runtime (r : ForwardRule) : ForwardRule :=
  let r := set_bound (normalize_forward_host (fr_bind_address r)) (fr_bind_port r) r in
  if decide (fr_type r = FtDynamic) then r else set_target_host (normalize_forward_host (fr_target_host r)) r.

(** [ForwardType::as_str] and [try_from_tauri_str]; the error is the text. *)
Definition as_str (t : ForwardType) : list Z :=
  match t with FtLocal => lit "local" | FtRemote => lit "remote" | FtDynamic => lit "dynamic" end.
Definition try_from_tauri_str (value : list Z) : result (list Z) ForwardType :=
  if decide (value = lit "local") then Ok FtLocal
  else if decide (value = lit "remote") then Ok FtRemote
  else if decide (value = lit "dynamic") then Ok FtDynamic
  else Err value.

(** [Ord] of strings: scalar by scalar, which is also the order of the bytes. *)
Fixpoint str_le (s t : list Z) : bool :=
  match s, t with
  | [], _ => true
  | _ :: _, [] => false
  | a :: s, b :: t => (a <? b) || ((a =? b) && str_le s t)
  end.

(** ** Lemmas *)

Lemma as_str_roundtrip t : try_from_tauri_str (as_str t) = Ok t.
Proof. by destruct t. Qed.

Lemma normalize_host_idem h : normalize_forward_host (normalize_forward_host h) = normalize_forward_host h.
Proof.
  unfold normalize_forward_host at 2 3. destruct (decide (trim h = [])) as [_|Hne]; [by vm_compute|].
  unfold normalize_forward_host. rewrite trim_idem. by rewrite decide_False.
Qed.
Lemma normalize_rule_idem r : normalize_hosts_for_runtime (normalize_hosts_for_runtime r) = normalize_hosts_for_runtime r.
Proof.
  destruct r as [i t a p h q s d]. unfold normalize_hosts_for_runtime, set_bound, set_target_host. cbn.
  destruct (decide (t = FtDynamic)) as [Ht|Ht]; cbn; rewrite ?decide_True, ?decide_False by done; cbn;
    by rewrite !normalize_host_idem.
Qed.
