(* ===== verification/SavedForwards.v ===== *)
(** * Saved forwards (hapcli-forwarding)

    Model of [crates/hapcli-forwarding/src/saved.rs]: the forwards that a user
    keeps, the tombstones of those that were deleted, the file they are saved
    in, and the snapshots through which several devices exchange them.  The
    store is a computation over the file system of [FileSystem] (with the
    counter of [AtomicFile]) and the data in memory.

    Instants are nanoseconds; every reading of the clock and every UUID is an
    argument.  JSON, SHA-256 and the RFC 3339 text of an instant belong to
    other crates: class [SavedCodec]. *)
From S2P Require Import Prelude Text TrzszBuffer FileSystem TrzszTransfer TextOps AtomicFile ForwardModel.
From Stdlib Require Import String.
From stdpp Require Import prelude numbers list gmap.
Open Scope Z_scope.

(** ** Data *)

Definition FORWARD_TOMBSTONE_RETENTION_DAYS : Z := 30.
Definition NANOS_PER_DAY : Z := 24 * 60 * 60 * 1000000000.

Record PersistedForward := mkPersisted {
  pf_id : list Z;
  pf_session_id : list Z;
  pf_owner_connection_id : option (list Z);
  pf_type : ForwardType;
  pf_rule : ForwardRule;
  pf_created_at : Z;
  pf_updated_at : option Z;
  pf_auto_start : bool;
  pf_version : Z
}.
Record DeletedPersistedForwardTombstone := mkTombstone { tb_id : list Z; tb_deleted_at : Z }.
Record PersistedForwardDto := mkDto {
  dto_id : list Z;
  dto_session_id : list Z;
  dto_owner_connection_id : option (list Z);
  dto_owner_connection_name : option (list Z);
  dto_forward_type : list Z;
  dto_bind_address : list Z;
  dto_bind_port : Z;
  dto_target_host : list Z;
  dto_target_port : Z;
  dto_auto_start : bool;
  dto_created_at : list Z;
  dto_description : option (list Z)
}.
Record OwnedForwardImportRecord := mkImport {
  ir_owner_connection_id : list Z;
  ir_forward_type : list Z;
  ir_bind_address : list Z;
  ir_bind_port : Z;
  ir_target_host : list Z;
  ir_target_port : Z;
  ir_description : option (list Z);
  ir_auto_start : bool
}.
Record SavedForwardSyncRecord := mkSyncRecord {
  sr_id : list Z;
  sr_revision : list Z;
  sr_updated_at : list Z;
  sr_deleted : bool;
  sr_payload : option PersistedForwardDto
}.
Record SavedForwardsSyncSnapshot := mkSyncSnapshot {
  ss_revision : list Z;
  ss_exported_at : list Z;
  ss_records : list SavedForwardSyncRecord
}.
Record ApplySavedForwardsSyncSnapshotResult := mkApplied { applied : Z; skipped : Z }.

Inductive SavedForwardError :=
| SfNotFound (id : list Z)
| SfIo (e : io_error)
| SfJson (message : list Z)
| SfInvalidTimestamp (field value message : list Z)
| SfUnsupportedForwardType (value : list Z).

Record SavedForwardData := mkData {
  forwards : list PersistedForward;
  tombstones : list DeletedPersistedForwardTombstone
}.
Inductive SavedForwardFileState := Missing | Present (bytes : list Z).
Record SavedForwardCheckpoint := mkCheckpoint { cp_data : SavedForwardData; cp_file_state : SavedForwardFileState }.

Definition ForwardIdentity : Type := list Z * list Z * Z * list Z * Z.
#[export] Instance ForwardIdentity_eq : EqDecision ForwardIdentity.
Proof. unfold ForwardIdentity. apply _. Defined.
#[export] Instance ForwardIdentity_countable : Countable ForwardIdentity.
Proof. unfold ForwardIdentity. apply _. Defined.

(** [serde_json], [sha2] and [chrono]. *)
Class SavedCodec := {
  to_vec_pretty : SavedForwardData -> result (list Z) (list Z);
  from_str : list Z -> result (list Z) SavedForwardData;
  payload_sha256 : PersistedForwardDto -> result (list Z) (list Z);
  tombstone_sha256 : list Z * list Z * bool -> result (list Z) (list Z);
  records_sha256 : list (list Z * list Z * bool) -> result (list Z) (list Z);
  to_rfc3339 : Z -> list Z;
  parse_from_rfc3339 : list Z -> result (list Z) Z
}.

(** ** Helpers of the source *)

Definition persisted_forward_version : Z := 1.
Definition stopped_rule (rule : ForwardRule) : ForwardRule := set_status FsStopped rule.

Definition new_persisted (id session_id : list Z) (owner_connection_id : option (list Z)) (forward_type : ForwardType)
    (rule : ForwardRule) (auto_start : bool) (now : Z) : PersistedForward :=
  mkPersisted id session_id owner_connection_id forward_type (set_status FsStopped rule) now (Some now) auto_start
    persisted_forward_version.
Definition sync_updated_at (f : PersistedForward) : Z := default (pf_created_at f) (pf_updated_at f).
Definition mark_updated (now : Z) (f : PersistedForward) : PersistedForward :=
  mkPersisted (pf_id f) (pf_session_id f) (pf_owner_connection_id f) (pf_type f) (pf_rule f) (pf_created_at f) (Some now)
    (pf_auto_start f) (pf_version f).

Definition find_forward (id : list Z) (l : list PersistedForward) : option (nat * PersistedForward) :=
  list_find (fun f => pf_id f = id) l.
Definition upsert_forward (f : PersistedForward) (l : list PersistedForward) : list PersistedForward :=
  match find_forward (pf_id f) l with Some (i, _) => <[i := f]> l | None => l ++ [f] end.
Definition upsert_tombstone (t : DeletedPersistedForwardTombstone) (l : list DeletedPersistedForwardTombstone)
    : list DeletedPersistedForwardTombstone :=
  match list_find (fun x => tb_id x = tb_id t) l with
  | Some (i, existing) => if tb_deleted_at existing <? tb_deleted_at t then <[i := t]> l else l
  | None => l ++ [t]
  end.
Definition active_tombstones (now : Z) (l : list DeletedPersistedForwardTombstone) : list DeletedPersistedForwardTombstone :=
  let cutoff := now - FORWARD_TOMBSTONE_RETENTION_DAYS * NANOS_PER_DAY in
  List.filter (fun t => cutoff <=? tb_deleted_at t) l.
(** Tombstones of forwards that exist again are dropped. *)
Definition without_forwards (l : list PersistedForward) (t : list DeletedPersistedForwardTombstone)
    : list DeletedPersistedForwardTombstone :=
  List.filter (fun x => negb (bool_decide (tb_id x ∈ map pf_id l))) t.

Definition identity_of_import (r : OwnedForwardImportRecord) : ForwardIdentity :=
  (ir_forward_type r, ir_bind_address r, ir_bind_port r, ir_target_host r, ir_target_port r).
Definition identity_of_persisted (f : PersistedForward) : ForwardIdentity :=
  (as_str (pf_type f), fr_bind_address (pf_rule f), fr_bind_port (pf_rule f), fr_target_host (pf_rule f),
   fr_target_port (pf_rule f)).

Section Store.
Context `{codec : SavedCodec}.

(** ** Snapshots *)

Definition parse_sync_timestamp (value field : list Z) : result SavedForwardError Z :=
  map_err (SfInvalidTimestamp field value) (parse_from_rfc3339 value).
Definition persisted_forward_to_dto (f : PersistedForward) (owner_connection_name : option (list Z)) : PersistedForwardDto :=
  mkDto (pf_id f) (pf_session_id f) (pf_owner_connection_id f) owner_connection_name (as_str (pf_type f))
    (fr_bind_address (pf_rule f)) (fr_bind_port (pf_rule f)) (fr_target_host (pf_rule f)) (fr_target_port (pf_rule f))
    (pf_auto_start f) (to_rfc3339 (pf_created_at f))
    (if decide (fr_description (pf_rule f) = []) then None else Some (fr_description (pf_rule f))).
Definition persisted_forward_from_sync_payload (payload : PersistedForwardDto) (record_updated_at : Z)
    : result SavedForwardError PersistedForward :=
  let? forward_type := map_err SfUnsupportedForwardType (try_from_tauri_str (dto_forward_type payload)) in
  let? created_at := parse_sync_timestamp (dto_created_at payload) (lit "created_at") in
  Ok (mkPersisted (dto_id payload) [] (dto_owner_connection_id payload) forward_type
    (mkRule (dto_id payload) forward_type (dto_bind_address payload) (dto_bind_port payload) (dto_target_host payload)
       (dto_target_port payload) FsStopped (default [] (dto_description payload)))
    created_at (Some record_updated_at) (dto_auto_start payload) persisted_forward_version).

Definition build_saved_forward_sync_record (f : PersistedForward) : result SavedForwardError SavedForwardSyncRecord :=
  let updated_at := to_rfc3339 (sync_updated_at f) in
  let payload := persisted_forward_to_dto f None in
  let? revision := map_err SfJson (payload_sha256 payload) in
  Ok (mkSyncRecord (dto_id payload) revision updated_at false (Some payload)).
Definition build_saved_forward_tombstone_record (t : DeletedPersistedForwardTombstone)
    : result SavedForwardError SavedForwardSyncRecord :=
  let? revision := map_err SfJson (tombstone_sha256 (tb_id t, to_rfc3339 (tb_deleted_at t), true)) in
  Ok (mkSyncRecord (tb_id t) revision (to_rfc3339 (tb_deleted_at t)) true None).
Fixpoint collect_results {A E B} (f : A -> result E B) (l : list A) : result E (list B) :=
  match l with
  | [] => Ok []
  | x :: l => let? y := f x in let? r := collect_results f l in Ok (y :: r)
  end.
Definition build_saved_forwards_sync_snapshot (l : list PersistedForward) (t : list DeletedPersistedForwardTombstone)
    (exported_at : Z) : result SavedForwardError SavedForwardsSyncSnapshot :=
  let? live := collect_results build_saved_forward_sync_record l in
  let? dead := collect_results build_saved_forward_tombstone_record t in
  let records := sort_by (fun a b => str_le (sr_id a) (sr_id b)) (live ++ dead) in
  let? revision := map_err SfJson (records_sha256 (map (fun r => (sr_id r, sr_revision r, sr_deleted r)) records)) in
  Ok (mkSyncSnapshot revision (to_rfc3339 exported_at) records).

Definition load_sync_state (now : Z) (data : SavedForwardData)
    : list PersistedForward * list DeletedPersistedForwardTombstone :=
  (sort_by (fun a b => pf_created_at a <=? pf_created_at b)
     (List.filter (fun f => bool_decide (is_Some (pf_owner_connection_id f))) (forwards data)),
   sort_by (fun a b => tb_deleted_at a <=? tb_deleted_at b) (active_tombstones now (tombstones data))).
Definition export_snapshot (now exported_at : Z) (data : SavedForwardData)
    : result SavedForwardError SavedForwardsSyncSnapshot :=
  let state := load_sync_state now data in
  build_saved_forwards_sync_snapshot state.1 state.2 exported_at.

(** A record of a snapshot against the data as it was before the snapshot. *)
Definition apply_record (existing_by_id : gmap (list Z) PersistedForward)
    (tombstones_by_id : gmap (list Z) DeletedPersistedForwardTombstone) (valid_owner_connection_ids : gset (list Z))
    (record : SavedForwardSyncRecord) (acc : SavedForwardData * ApplySavedForwardsSyncSnapshotResult)
    : result SavedForwardError (SavedForwardData * ApplySavedForwardsSyncSnapshotResult) :=
  let '(data, r) := acc in
  let skip := Ok (data, mkApplied (applied r) (skipped r + 1)) in
  let? record_updated_at := parse_sync_timestamp (sr_updated_at record) (lit "updated_at") in
  let newer := match existing_by_id !! sr_id record with
               | Some existing => record_updated_at <? sync_updated_at existing
               | None => false
               end in
  if sr_deleted record then
    if newer then skip
    else Ok (mkData (List.filter (fun f => negb (bool_decide (pf_id f = sr_id record))) (forwards data))
               (upsert_tombstone (mkTombstone (sr_id record) record_updated_at) (tombstones data)),
             mkApplied (applied r + 1) (skipped r))
  else
    match sr_payload record with
    | None => skip
    | Some payload =>
        let buried := match tombstones_by_id !! sr_id record with
                      | Some t => record_updated_at <=? tb_deleted_at t
                      | None => false
                      end in
        if buried then skip
        else if newer then skip
        else match dto_owner_connection_id payload with
             | None => skip
             | Some owner =>
                 if negb (bool_decide (owner ∈ valid_owner_connection_ids)) then skip
                 else
                   let? f := persisted_forward_from_sync_payload payload record_updated_at in
                   Ok (mkData (upsert_forward f (forwards data))
                         (List.filter (fun t => negb (bool_decide (tb_id t = sr_id record))) (tombstones data)),
                       mkApplied (applied r + 1) (skipped r))
             end
    end.
Fixpoint apply_records (existing_by_id : gmap (list Z) PersistedForward)
    (tombstones_by_id : gmap (list Z) DeletedPersistedForwardTombstone) (valid_owner_connection_ids : gset (list Z))
    (records : list SavedForwardSyncRecord) (acc : SavedForwardData * ApplySavedForwardsSyncSnapshotResult)
    : result SavedForwardError (SavedForwardData * ApplySavedForwardsSyncSnapshotResult) :=
  match records with
  | [] => Ok acc
  | record :: rest =>
      let? acc := apply_record existing_by_id tombstones_by_id valid_owner_connection_ids record acc in
      apply_records existing_by_id tombstones_by_id valid_owner_connection_ids rest acc
  end.
(** [collect] into a hash map: the last of equal keys stays. *)
Definition collect_map {A} (key : A -> list Z) (l : list A) : gmap (list Z) A :=
  fold_left (fun m x => <[key x := x]> m) l ∅.

(** What an update leaves: its result, whether it is to be saved, the data. *)
Definition Update (A : Type) : Type := SavedForwardData -> result SavedForwardError (A * bool * SavedForwardData).

Definition apply_snapshot_update (snapshot : SavedForwardsSyncSnapshot) (valid_owner_connection_ids : gset (list Z))
    : Update ApplySavedForwardsSyncSnapshotResult :=
  fun data =>
    let? acc := apply_records (collect_map pf_id (forwards data)) (collect_map tb_id (tombstones data))
                  valid_owner_connection_ids (ss_records snapshot) (data, mkApplied 0 0) in
    Ok (acc.2, 0 <? applied acc.2, acc.1).

(** ** The other updates *)

Definition sync_rule_update (forward_id session_id : list Z) (owner_connection_id : option (list Z)) (rule : ForwardRule)
    (now : Z) : Update (option PersistedForward) :=
  fun data =>
    match find_forward forward_id (forwards data) with
    | Some (i, existing) =>
        let saved := mark_updated now
          (mkPersisted (pf_id existing) session_id
             (match owner_connection_id with Some _ => owner_connection_id | None => pf_owner_connection_id existing end)
             (fr_type rule) (stopped_rule rule) (pf_created_at existing) (pf_updated_at existing) (pf_auto_start existing)
             (pf_version existing)) in
        Ok (Some saved, true, mkData (<[i := saved]> (forwards data)) (tombstones data))
    | None =>
        match owner_connection_id with
        | Some owner =>
            let f := new_persisted forward_id session_id (Some owner) (fr_type rule) rule false now in
            Ok (Some f, true, mkData (forwards data ++ [f])
                  (List.filter (fun t => negb (bool_decide (tb_id t = forward_id))) (tombstones data)))
        | None => Ok (None, true, data)
        end
    end.
Definition persist_forward_update (f : PersistedForward) : Update unit :=
  fun data =>
    let l := upsert_forward f (forwards data) in
    Ok (tt, true, mkData l (without_forwards l (tombstones data))).
Definition delete_update (forward_id : list Z) (now : Z) : Update unit :=
  fun data =>
    match find_forward forward_id (forwards data) with
    | None => Ok (tt, false, data)
    | Some (i, f) =>
        Ok (tt, true, mkData (delete i (forwards data))
              (match pf_owner_connection_id f with
               | Some _ => upsert_tombstone (mkTombstone forward_id now) (tombstones data)
               | None => tombstones data
               end))
    end.
Definition auto_start_update (forward_id : list Z) (auto_start : bool) (now : Z) : Update unit :=
  fun data =>
    match find_forward forward_id (forwards data) with
    | None => Err (SfNotFound forward_id)
    | Some (i, f) =>
        let f := mark_updated now
          (mkPersisted (pf_id f) (pf_session_id f) (pf_owner_connection_id f) (pf_type f) (pf_rule f) (pf_created_at f)
             (pf_updated_at f) auto_start (pf_version f)) in
        Ok (tt, true, mkData (<[i := f]> (forwards data)) (tombstones data))
    end.

Definition owned_by (owner : list Z) (f : PersistedForward) : bool :=
  bool_decide (pf_owner_connection_id f = Some owner).
(** The clock is read once for each forward that changes. *)
Definition bind_owned_update (owner_connection_id session_id : list Z) (now : nat -> Z) : Update Z :=
  fun data =>
    let changes f := owned_by owner_connection_id f && negb (bool_decide (pf_session_id f = session_id)) in
    Ok (zlen (List.filter changes (forwards data)), true,
        mkData (imap (fun i f =>
                  if changes f then
                    mark_updated (now i)
                      (mkPersisted (pf_id f) session_id (pf_owner_connection_id f) (pf_type f) (pf_rule f) (pf_created_at f)
                         (pf_updated_at f) (pf_auto_start f) (pf_version f))
                  else f) (forwards data)) (tombstones data)).
(** The forwards of a connection become tombstones. *)
Definition bury_owned (owner : list Z) (now : Z) (data : SavedForwardData) : SavedForwardData :=
  mkData (List.filter (fun f => negb (owned_by owner f)) (forwards data))
    (fold_left (fun t id => upsert_tombstone (mkTombstone id now) t)
       (map pf_id (List.filter (owned_by owner) (forwards data))) (tombstones data)).
Definition delete_owned_update (owner_connection_id : list Z) (now : Z) : Update Z :=
  fun data =>
    Ok (zlen (List.filter (owned_by owner_connection_id) (forwards data)), true, bury_owned owner_connection_id now data).

(** *** Imports *)

Section Import.
(** The readings of the clock and the UUIDs, in order, and the order in which a
    hash set is walked. *)
Context (now : nat -> Z) (uuid : nat -> list Z) (keys : gset (list Z) -> list (list Z)).

Definition import_record_to_persisted (record : OwnedForwardImportRecord) (uuid : list Z) (persisted_at : Z)
    : result SavedForwardError PersistedForward :=
  let? forward_type := map_err SfUnsupportedForwardType (try_from_tauri_str (ir_forward_type record)) in
  let rule := mkRule uuid forward_type (ir_bind_address record) (ir_bind_port record) (ir_target_host record)
                (ir_target_port record) FsStopped (default [] (ir_description record)) in
  Ok (mkPersisted (fr_id rule) [] (Some (ir_owner_connection_id record)) forward_type rule persisted_at (Some persisted_at)
        (ir_auto_start record) persisted_forward_version).

Definition existing_by_identity (owner_connection_id : list Z) (l : list PersistedForward) : gmap ForwardIdentity nat :=
  fold_left (fun m '(i, f) => if owned_by owner_connection_id f then <[identity_of_persisted f := i]> m else m)
    (imap pair l) ∅.
Fixpoint merge_records (owner_connection_id : list Z) (merged_at : Z) (records : list OwnedForwardImportRecord) (n : nat)
    (by_identity : gmap ForwardIdentity nat) (l : list PersistedForward) : result SavedForwardError (nat * list PersistedForward) :=
  match records with
  | [] => Ok (n, l)
  | record :: rest =>
      match by_identity !! identity_of_import record with
      | Some i =>
          let l := alter (fun f =>
            mkPersisted (pf_id f) (pf_session_id f) (Some owner_connection_id) (pf_type f)
              (set_description (default [] (ir_description record)) (pf_rule f)) (pf_created_at f) (Some merged_at)
              (ir_auto_start record) (pf_version f)) i l in
          merge_records owner_connection_id merged_at rest n by_identity l
      | None =>
          let? f := import_record_to_persisted record (uuid n) merged_at in
          merge_records owner_connection_id merged_at rest (S n)
            (<[identity_of_import record := length l]> by_identity) (l ++ [f])
      end
  end.
Definition merge_imported_owner_forwards (owner_connection_id : list Z) (records : list OwnedForwardImportRecord) (n : nat)
    (l : list PersistedForward) : result SavedForwardError (nat * list PersistedForward) :=
  merge_records owner_connection_id (now n) records (S n) (existing_by_identity owner_connection_id l) l.

Fixpoint push_records (records : list OwnedForwardImportRecord) (n : nat) (l : list PersistedForward)
    : result SavedForwardError (nat * list PersistedForward) :=
  match records with
  | [] => Ok (n, l)
  | record :: rest =>
      let? f := import_record_to_persisted record (uuid n) (now n) in
      push_records rest (S n) (l ++ [f])
  end.
Fixpoint import_owners (records : list OwnedForwardImportRecord) (replace_ids merge_ids : gset (list Z))
    (owners : list (list Z)) (n : nat) (l : list PersistedForward) : result SavedForwardError (nat * list PersistedForward) :=
  match owners with
  | [] => Ok (n, l)
  | owner :: rest =>
      let owner_records := List.filter (fun r => bool_decide (ir_owner_connection_id r = owner)) records in
      let should_merge := bool_decide (owner ∈ merge_ids) && negb (bool_decide (owner ∈ replace_ids)) in
      let? acc := if should_merge then merge_imported_owner_forwards owner owner_records n l
                  else push_records owner_records n l in
      import_owners records replace_ids merge_ids rest acc.1 acc.2
  end.
Definition import_update (records : list OwnedForwardImportRecord) (replace_ids merge_ids : gset (list Z)) : Update Z :=
  fun data =>
    let data := fold_left (fun data owner => bury_owned owner (now 0%nat) data) (keys replace_ids) data in
    let? acc := import_owners records replace_ids merge_ids (keys (list_to_set (map ir_owner_connection_id records))) 1%nat
                  (forwards data) in
    Ok (zlen records, true, mkData acc.2 (without_forwards acc.2 (tombstones data))).
End Import.

(** ** The store and its file *)

Abbreviation SM := (M SavedForwardError (FileSystem * Z * SavedForwardData)).

Context (fault : nat -> option (Z * io_error)) (process_id : Z) (path : PathBuf).

Definition io {A} (m : AM A) : SM A :=
  fun '(files, data) => match m files with
                        | Some (r, files) => Some (map_err SfIo r, (files, data))
                        | None => None
                        end.
(** [fs::read]. *)
Definition read_file : FM (list Z) :=
  fun fs => Some ((let? k := resolve fs path in
                   match node_at fs k with
                   | Some (File i) => Ok (default [] (inodes fs !! i))
                   | Some Dir => Err EISDIR
                   | _ => Err ENOENT
                   end), fs).
Definition current : SM SavedForwardData := fun s => Some (Ok s.2, s).
Definition set_current (data : SavedForwardData) : SM unit := fun s => Some (Ok tt, (s.1, data)).

Definition atomic_write_file (bytes : list Z) : AM unit := durable_write_with_before_replace fault process_id path bytes (ret tt).
Definition persist_data (data : SavedForwardData) : SM unit :=
  let* json := lift (map_err SfJson (to_vec_pretty data)) in
  io (atomic_write_file json).
Definition commit_update_if {A} (now : Z) (update : Update A) : SM A :=
  let* data := current in
  let* c := lift (update data) in
  let '(result, should_persist, candidate) := c in
  if should_persist then
    let candidate := mkData (forwards candidate) (active_tombstones now (tombstones candidate)) in
    do* persist_data candidate in
    do* set_current candidate in
    ret result
  else ret result.

Definition load : SM unit :=
  let* present := io (on_fst (fun fs => Some (Ok (match look resolve path fs with Ok _ => true | Err _ => false end), fs))) in
  if (present : bool) then
    let* bytes := io (on_fst read_file) in
    let* source := lift (ok_or (from_utf8 bytes) (SfIo (mkIo OtherKind (lit "stream did not contain valid UTF-8")))) in
    let* data := lift (map_err SfJson (from_str source)) in
    set_current data
  else set_current (mkData [] []).
Definition checkpoint : SM SavedForwardCheckpoint :=
  let* data := current in
  let* r := attempt (io (on_fst read_file)) in
  match r with
  | Ok bytes => ret (mkCheckpoint data (Present bytes))
  | Err (SfIo e) => if decide (kind e = NotFound) then ret (mkCheckpoint data Missing) else throw (SfIo e)
  | Err e => throw e
  end.
Definition persist_checkpoint (c : SavedForwardCheckpoint) : SM unit :=
  match cp_file_state c with
  | Present bytes => io (atomic_write_file bytes)
  | Missing => io (on_fst (durable_remove fault path))
  end.
Definition replace_from_checkpoint (c : SavedForwardCheckpoint) : SM unit :=
  do* persist_checkpoint c in
  set_current (cp_data c).

Definition sync_persisted_forward_rule (forward_id session_id : list Z) (owner_connection_id : option (list Z))
    (rule : ForwardRule) (now commit_now : Z) : SM (option PersistedForward) :=
  commit_update_if commit_now (sync_rule_update forward_id session_id owner_connection_id rule now).
Definition persist_forward (f : PersistedForward) (commit_now : Z) : SM unit :=
  commit_update_if commit_now (persist_forward_update f).
Definition delete_persisted_forward (forward_id : list Z) (now commit_now : Z) : SM unit :=
  commit_update_if commit_now (delete_update forward_id now).
Definition update_auto_start (forward_id : list Z) (auto_start : bool) (now commit_now : Z) : SM unit :=
  commit_update_if commit_now (auto_start_update forward_id auto_start now).
Definition bind_owned_forwards_to_session (owner_connection_id session_id : list Z) (now : nat -> Z) (commit_now : Z) : SM Z :=
  commit_update_if commit_now (bind_owned_update owner_connection_id session_id now).
Definition delete_owned_forwards (owner_connection_id : list Z) (now commit_now : Z) : SM Z :=
  commit_update_if commit_now (delete_owned_update owner_connection_id now).
Definition apply_owned_forward_import_records (now : nat -> Z) (uuid : nat -> list Z) (keys : gset (list Z) -> list (list Z))
    (records : list OwnedForwardImportRecord) (replace_ids merge_ids : gset (list Z)) (commit_now : Z) : SM Z :=
  commit_update_if commit_now (import_update now uuid keys records replace_ids merge_ids).
Definition apply_snapshot (snapshot : SavedForwardsSyncSnapshot) (valid_owner_connection_ids : gset (list Z)) (commit_now : Z)
    : SM ApplySavedForwardsSyncSnapshotResult :=
  commit_update_if commit_now (apply_snapshot_update snapshot valid_owner_connection_ids).
End Store.

(** The queries, oldest first. *)
Definition sorted_forwards (predicate : PersistedForward -> bool) (data : SavedForwardData) : list PersistedForward :=
  sort_by (fun a b => pf_created_at a <=? pf_created_at b) (List.filter predicate (forwards data)).
Definition load_owned_forwards (owner_connection_id : list Z) := sorted_forwards (owned_by owner_connection_id).
Definition load_persisted_forwards (session_id : list Z) := sorted_forwards (fun f => bool_decide (pf_session_id f = session_id)).
Definition load_syncable_forwards := sorted_forwards (fun f => bool_decide (is_Some (pf_owner_connection_id f))).
