(* ===== verification/SavedFacts.v ===== *)
(** * Saved forwards: what devices exchange

    The updates of [SavedForwards] as operations on two finite maps (forwards
    and tombstones by id), the invariant of the data, and the exchange of
    snapshots as a last-writer-wins join. *)
From S2P Require Import Prelude Text TrzszBuffer FileSystem TrzszTransfer TextOps AtomicFile ForwardModel SavedForwards.
From Stdlib Require Import String.
From stdpp Require Import prelude numbers list gmap sorting.
Open Scope Z_scope.

(** ** Lists with distinct keys as maps *)

Section Keys.
Context {A : Type} (key : A -> list Z).

Lemma collect_map_snoc l x : collect_map key (l ++ [x]) = <[key x := x]> (collect_map key l).
Proof. unfold collect_map. by rewrite fold_left_app. Qed.
Lemma collect_map_None l i : collect_map key l !! i = None <-> i ∉ map key l.
Proof.
  induction l as [|x l IH] using rev_ind; [cbn; set_solver|].
  rewrite collect_map_snoc, lookup_insert_None, IH, map_app. cbn. set_solver.
Qed.
Lemma collect_map_Some l i x : NoDup (map key l) -> collect_map key l !! i = Some x <-> x ∈ l /\ key x = i.
Proof.
  induction l as [|y l IH] using rev_ind; intros Hnd; [cbn; set_solver|].
  rewrite map_app in Hnd. apply NoDup_app in Hnd as (Hl & Hy & _). cbn in Hy.
  rewrite collect_map_snoc, lookup_insert_Some, elem_of_app, list_elem_of_singleton, IH by done. split.
  - intros [[<- <-]|[Hne [Hin <-]]]; [by split; [right|]|by split; [left|]].
  - intros [[Hin| ->] <-]; [|by left]. right. split; [|done]. intros Heq. eapply Hy; [by apply list_elem_of_fmap_2|].
    rewrite <-Heq. set_solver.
Qed.
Lemma key_unique l x y : NoDup (map key l) -> x ∈ l -> y ∈ l -> key x = key y -> x = y.
Proof.
  intros Hnd Hx Hy He. assert (H1 : collect_map key l !! key x = Some x) by by apply collect_map_Some.
  assert (H2 : collect_map key l !! key x = Some y) by by apply collect_map_Some. congruence.
Qed.
Lemma collect_map_eq l l' : NoDup (map key l) -> NoDup (map key l') -> (forall x, x ∈ l <-> x ∈ l') ->
  collect_map key l = collect_map key l'.
Proof.
  intros Hl Hl' Heq. apply map_eq. intros i. apply option_eq. intros x. rewrite !collect_map_Some by done. by rewrite Heq.
Qed.

Lemma found_insert l i y x : NoDup (map key l) -> list_find (fun z => key z = key x) l = Some (i, y) ->
  map key (<[i := x]> l) = map key l /\ collect_map key (<[i := x]> l) = <[key x := x]> (collect_map key l).
Proof.
  intros Hnd Hf. apply list_find_Some in Hf as (Hi & Hy & _).
  assert (Hk : map key (<[i := x]> l) = map key l).
  { change (map key) with (fmap (M := list) key). rewrite list_fmap_insert. apply list_insert_id.
    rewrite list_lookup_fmap, Hi. cbn. by rewrite Hy. }
  split; [done|]. apply map_eq. intros j. apply option_eq. intros z.
  rewrite collect_map_Some by by rewrite Hk. rewrite lookup_insert_Some, collect_map_Some by done.
  split.
  - intros [Hz <-]. apply list_elem_of_lookup in Hz as [k Hk']. rewrite list_lookup_insert_Some in Hk'.
    destruct Hk' as [(<- & <- & _)|[Hne Hk']]; [by left|]. right. split; [|split; [by eapply list_elem_of_lookup_2|done]].
    intros He. apply Hne. assert (Hm : forall n w, l !! n = Some w -> map key l !! n = Some (key w)).
    { intros n w Hw. change (map key l) with (key <$> l). by rewrite list_lookup_fmap, Hw. }
    eapply NoDup_lookup; [exact Hnd|by apply Hm|]. rewrite (Hm _ _ Hk'). congruence.
  - intros [[<- <-]|(Hne & Hz & <-)].
    + split; [|done]. apply list_elem_of_lookup. exists i. rewrite list_lookup_insert. by rewrite decide_True by (split; [done|by eapply lookup_lt_Some]).
    + split; [|done]. apply list_elem_of_lookup in Hz as [k Hk']. apply list_elem_of_lookup. exists k.
      rewrite list_lookup_insert_ne; [done|]. intros <-. rewrite Hi in Hk'. injection Hk' as ->. congruence.
Qed.
Lemma not_found l k : list_find (fun z => key z = k) l = None -> k ∉ map key l.
Proof. rewrite list_find_None, Forall_forall. intros H Hin. apply list_elem_of_fmap in Hin as (x & -> & Hx). by eapply H. Qed.
Lemma found_in l k i y : list_find (fun z => key z = k) l = Some (i, y) -> y ∈ l /\ key y = k /\ l !! i = Some y.
Proof. intros H. apply list_find_Some in H as (Hi & Hy & _). split; [by eapply list_elem_of_lookup_2|done]. Qed.
Lemma NoDup_snoc l x : NoDup (map key l) -> key x ∉ map key l -> NoDup (map key (l ++ [x])).
Proof. intros Hl Hx. rewrite map_app. apply NoDup_app. cbn. split; [done|]. split; [set_solver|apply NoDup_singleton]. Qed.

Lemma NoDup_key_filter p l : NoDup (map key l) -> NoDup (map key (List.filter p l)).
Proof. intros H. eapply sublist_NoDup; [exact H|]. apply (fmap_sublist key), filter_sublist. Qed.
Lemma collect_map_filter p l i : NoDup (map key l) ->
  collect_map key (List.filter p l) !! i = (x ← collect_map key l !! i; if p x then Some x else None).
Proof.
  intros Hnd. apply option_eq. intros x. rewrite collect_map_Some by by apply NoDup_key_filter.
  rewrite elem_of_List_filter, bind_Some. split.
  - intros [[Hx Hp] <-]. exists x. split; [by apply collect_map_Some|]. by rewrite Hp.
  - intros (y & Hy & Hp). apply collect_map_Some in Hy as [Hy <-]; [|done]. destruct (p y) eqn:E; [|done]. by injection Hp as <-.
Qed.
Lemma collect_map_filter_key k l : NoDup (map key l) ->
  collect_map key (List.filter (fun x => negb (bool_decide (key x = k))) l) = delete k (collect_map key l).
Proof.
  intros Hnd. apply map_eq. intros i. rewrite collect_map_filter by done. destruct (decide (i = k)) as [->|Hne].
  - rewrite lookup_delete_eq. destruct (collect_map key l !! k) as [x|] eqn:E; [|done]. cbn.
    apply collect_map_Some in E as [_ E]; [|done]. by rewrite bool_decide_eq_true_2.
  - rewrite lookup_delete_ne by done. destruct (collect_map key l !! i) as [x|] eqn:E; [|done]. cbn.
    apply collect_map_Some in E as [_ E]; [|done]. rewrite bool_decide_eq_false_2; [done|congruence].
Qed.
Lemma delete_found l k i y : NoDup (map key l) -> list_find (fun z => key z = k) l = Some (i, y) ->
  NoDup (map key (delete i l)) /\ collect_map key (delete i l) = delete k (collect_map key l).
Proof.
  intros Hnd Hf. destruct (found_in _ _ _ _ Hf) as (_ & Hk & Hi).
  assert (Hd : NoDup (map key (delete i l))).
  { eapply sublist_NoDup; [exact Hnd|]. apply (fmap_sublist key), sublist_delete. }
  split; [done|]. rewrite <-collect_map_filter_key by done. apply collect_map_eq; [done|by apply NoDup_key_filter|].
  intros x. rewrite elem_of_List_filter, negb_true_iff, bool_decide_eq_false.
  pose proof (delete_Permutation l i y Hi) as Hp. rewrite Hp in Hnd. cbn in Hnd. apply NoDup_cons in Hnd as [Hy _].
  assert (Hin : x ∈ l <-> x = y \/ x ∈ delete i l) by (rewrite Hp at 1; apply elem_of_cons). rewrite Hin. split.
  - intros Hx. split; [by right|]. intros He. apply Hy. rewrite Hk, <-He. by apply list_elem_of_fmap_2.
  - intros [[->|Hx] Hne]; done.
Qed.
End Keys.

(** ** The data as two maps *)

Definition live (d : SavedForwardData) : gmap (list Z) PersistedForward := collect_map pf_id (forwards d).
Definition dead (d : SavedForwardData) : gmap (list Z) DeletedPersistedForwardTombstone := collect_map tb_id (tombstones d).

(** An id names one forward or one tombstone. *)
Record data_ok (d : SavedForwardData) : Prop := {
  ok_forwards : NoDup (map pf_id (forwards d));
  ok_tombstones : NoDup (map tb_id (tombstones d));
  ok_disjoint : forall i, i ∈ map pf_id (forwards d) -> i ∉ map tb_id (tombstones d)
}.
Lemma disjoint_maps d : (forall i, i ∈ map pf_id (forwards d) -> i ∉ map tb_id (tombstones d))
  <-> (forall i, live d !! i = None \/ dead d !! i = None).
Proof.
  unfold live, dead. split; intros H i.
  - rewrite !collect_map_None. destruct (decide (i ∈ map pf_id (forwards d))); [right; by apply H|by left].
  - intros Hi Ht. specialize (H i). rewrite !collect_map_None in H. by destruct H.
Qed.

Lemma upsert_forward_ok f l : NoDup (map pf_id l) ->
  NoDup (map pf_id (upsert_forward f l)) /\ collect_map pf_id (upsert_forward f l) = <[pf_id f := f]> (collect_map pf_id l).
Proof.
  intros Hnd. unfold upsert_forward, find_forward. destruct (list_find _ l) as [[i g]|] eqn:Hf.
  - destruct (found_insert pf_id l i g f Hnd Hf) as [Hk Hm]. by rewrite Hk.
  - apply (not_found pf_id) in Hf. split; [by apply NoDup_snoc|apply collect_map_snoc].
Qed.
Lemma upsert_tombstone_ok t l : NoDup (map tb_id l) ->
  NoDup (map tb_id (upsert_tombstone t l))
  /\ collect_map tb_id (upsert_tombstone t l)
     = match collect_map tb_id l !! tb_id t with
       | Some x => if tb_deleted_at x <? tb_deleted_at t then <[tb_id t := t]> (collect_map tb_id l) else collect_map tb_id l
       | None => <[tb_id t := t]> (collect_map tb_id l)
       end.
Proof.
  intros Hnd. unfold upsert_tombstone. destruct (list_find _ l) as [[i x]|] eqn:Hf.
  - destruct (found_in tb_id _ _ _ _ Hf) as (Hx & Hk & _).
    replace (collect_map tb_id l !! tb_id t) with (Some x) by (symmetry; by apply collect_map_Some).
    destruct (_ <? _); [|done]. destruct (found_insert tb_id l i x t Hnd Hf) as [Hk' Hm]. by rewrite Hk'.
  - apply (not_found tb_id) in Hf. replace (collect_map tb_id l !! tb_id t) with (@None DeletedPersistedForwardTombstone)
      by (symmetry; by apply collect_map_None). split; [by apply NoDup_snoc|apply collect_map_snoc].
Qed.

(** ** Last writer wins *)

(** What is known of an id: a forward, or that it was deleted at an instant. *)
Inductive Entry := Live (f : PersistedForward) | Dead (at_ : Z).

Definition view (d : SavedForwardData) (id : list Z) : option Entry :=
  match live d !! id with
  | Some f => Some (Live f)
  | None => Dead ∘ tb_deleted_at <$> dead d !! id
  end.
(** The later of two entries: of two forwards of the same instant the received
    one, of a forward and a deletion of the same instant the deletion. *)
Definition latest (known received : option Entry) : option Entry :=
  match known, received with
  | _, None => known
  | None, _ => received
  | Some (Live f), Some (Live g) => if sync_updated_at g <? sync_updated_at f then known else received
  | Some (Live f), Some (Dead t) => if t <? sync_updated_at f then known else received
  | Some (Dead t), Some (Live g) => if sync_updated_at g <=? t then known else received
  | Some (Dead t), Some (Dead t') => Some (Dead (Z.max t t'))
  end.
(** What of a forward arrives at another device. *)
Definition travel (f : PersistedForward) : PersistedForward :=
  mkPersisted (pf_id f) [] (pf_owner_connection_id f) (pf_type f)
    (mkRule (pf_id f) (pf_type f) (fr_bind_address (pf_rule f)) (fr_bind_port (pf_rule f)) (fr_target_host (pf_rule f))
       (fr_target_port (pf_rule f)) FsStopped (fr_description (pf_rule f)))
    (pf_created_at f) (Some (sync_updated_at f)) (pf_auto_start f) persisted_forward_version.
Definition cutoff (now : Z) : Z := now - FORWARD_TOMBSTONE_RETENTION_DAYS * NANOS_PER_DAY.
(** What a device tells of an id: forwards that belong to a connection, and
    deletions that are not too old. *)
Definition exported (now : Z) (d : SavedForwardData) (id : list Z) : option Entry :=
  match view d id with
  | Some (Live f) => if bool_decide (is_Some (pf_owner_connection_id f)) then Some (Live (travel f)) else None
  | Some (Dead t) => if cutoff now <=? t then Some (Dead t) else None
  | None => None
  end.

Lemma view_cases d id : data_ok d ->
  (exists f, view d id = Some (Live f) /\ live d !! id = Some f /\ dead d !! id = None /\ pf_id f = id)
  \/ (exists t, view d id = Some (Dead (tb_deleted_at t)) /\ live d !! id = None /\ dead d !! id = Some t /\ tb_id t = id)
  \/ (view d id = None /\ live d !! id = None /\ dead d !! id = None).
Proof.
  intros Hok. unfold view. destruct (live d !! id) as [f|] eqn:Hl.
  - left. exists f. destruct (proj1 (disjoint_maps d) (ok_disjoint d Hok) id) as [H|H]; [congruence|].
    apply collect_map_Some in Hl as [_ Hl]; [done|apply Hok].
  - right. destruct (dead d !! id) as [t|] eqn:Hd; [left; exists t|by right].
    apply collect_map_Some in Hd as [_ Hd]; [done|apply Hok].
Qed.
Lemma view_of d d' id : live d' !! id = live d !! id -> dead d' !! id = dead d !! id -> view d' id = view d id.
Proof. unfold view. by intros -> ->. Qed.

Lemma put_live g d (id := pf_id g)
    (d' := mkData (upsert_forward g (forwards d)) (List.filter (fun t => negb (bool_decide (tb_id t = id))) (tombstones d))) :
  data_ok d -> data_ok d' /\ forall i, view d' i = if decide (i = id) then Some (Live g) else view d i.
Proof.
  intros Hok. destruct (upsert_forward_ok g (forwards d)) as [Hnd Hm]; [apply Hok|].
  assert (Hl : live d' = <[id := g]> (live d)) by done.
  assert (Hd : dead d' = delete id (dead d)) by (apply collect_map_filter_key, Hok).
  split.
  - split; [done|apply NoDup_key_filter, Hok|]. apply disjoint_maps. intros i. rewrite Hl, Hd.
    destruct (decide (i = id)) as [->|Hne]; [right; apply lookup_delete_eq|].
    rewrite lookup_insert_ne, lookup_delete_ne by done. apply disjoint_maps, Hok.
  - intros i. destruct (decide (i = id)) as [->|Hne]; [unfold view; by rewrite Hl, lookup_insert_eq|].
    apply view_of; [by rewrite Hl, lookup_insert_ne|by rewrite Hd, lookup_delete_ne].
Qed.
Lemma put_dead t d (id := tb_id t)
    (d' := mkData (List.filter (fun f => negb (bool_decide (pf_id f = id))) (forwards d)) (upsert_tombstone t (tombstones d))) :
  data_ok d -> data_ok d' /\ forall i, view d' i =
    if decide (i = id)
    then Some (Dead (match dead d !! id with Some x => Z.max (tb_deleted_at x) (tb_deleted_at t) | None => tb_deleted_at t end))
    else view d i.
Proof.
  intros Hok. destruct (upsert_tombstone_ok t (tombstones d)) as [Hnd Hm]; [apply Hok|].
  assert (Hl : live d' = delete id (live d)) by (apply collect_map_filter_key, Hok).
  fold (dead d) in Hm. change (collect_map tb_id (upsert_tombstone t (tombstones d))) with (dead d') in Hm. fold id in Hm.
  assert (Hother : forall i, i <> id -> dead d' !! i = dead d !! i).
  { intros i Hi. rewrite Hm. destruct (dead d !! id) as [x|]; [destruct (_ <? _)|]; by rewrite ?lookup_insert_ne. }
  split.
  - split; [apply NoDup_key_filter, Hok|done|]. apply disjoint_maps. intros i. rewrite Hl.
    destruct (decide (i = id)) as [->|Hne]; [left; apply lookup_delete_eq|]. rewrite lookup_delete_ne, Hother by done.
    apply disjoint_maps, Hok.
  - intros i. destruct (decide (i = id)) as [->|Hne].
    + unfold view. rewrite Hl, lookup_delete_eq, Hm. destruct (dead d !! id) as [x|] eqn:Hx; [|by rewrite lookup_insert_eq].
      destruct (_ <? _) eqn:Hlt; [rewrite lookup_insert_eq|rewrite Hx]; cbn; do 2 f_equal; lia.
    + apply view_of; [by rewrite Hl, lookup_delete_ne|by apply Hother].
Qed.

Section Sync.
Context `{codec : SavedCodec}.

(** What is assumed of [serde_json], [sha2] and [chrono]. *)
Class SavedCodecLaws : Prop := {
  json_roundtrip d bytes : to_vec_pretty d = Ok bytes -> exists s, from_utf8 bytes = Some s /\ from_str s = Ok d;
  json_total d : exists bytes, to_vec_pretty d = Ok bytes;
  payload_total p : exists h, payload_sha256 p = Ok h;
  tombstone_total t : exists h, tombstone_sha256 t = Ok h;
  records_total l : exists h, records_sha256 l = Ok h;
  rfc3339_roundtrip t : parse_from_rfc3339 (to_rfc3339 t) = Ok t
}.
Context {laws : SavedCodecLaws}.

(** The entry that a record of an export stands for. *)
Inductive record_of (valid : gset (list Z)) : SavedForwardSyncRecord -> list Z -> Entry -> Prop :=
| record_live f revision owner : pf_owner_connection_id f = Some owner -> owner ∈ valid ->
    record_of valid (mkSyncRecord (pf_id f) revision (to_rfc3339 (sync_updated_at f)) false
                       (Some (persisted_forward_to_dto f None))) (pf_id f) (Live (travel f))
| record_dead t revision :
    record_of valid (mkSyncRecord (tb_id t) revision (to_rfc3339 (tb_deleted_at t)) true None) (tb_id t)
      (Dead (tb_deleted_at t)).

Lemma payload_travel f : persisted_forward_from_sync_payload (persisted_forward_to_dto f None) (sync_updated_at f) = Ok (travel f).
Proof.
  unfold persisted_forward_from_sync_payload, persisted_forward_to_dto. cbn. rewrite as_str_roundtrip. cbn.
  unfold parse_sync_timestamp. rewrite rfc3339_roundtrip. cbn. unfold travel. repeat f_equal.
  by destruct (decide (fr_description (pf_rule f) = [])) as [->|].
Qed.

(** Processing a record with entry [e] for [id] ends well: the entry is joined
    to what is known of the id, and nothing else changes. *)
Definition stepped (d : SavedForwardData) (r : ApplySavedForwardsSyncSnapshotResult) (id : list Z) (e : Entry)
    (res : result SavedForwardError (SavedForwardData * ApplySavedForwardsSyncSnapshotResult)) : Prop :=
  exists d' r', res = Ok (d', r') /\ data_ok d' /\ applied r <= applied r' /\ (applied r' = applied r -> d' = d)
    /\ forall i, view d' i = if decide (i = id) then latest (view d i) (Some e) else view d i.

Lemma stepped_skip d r id e n : data_ok d -> latest (view d id) (Some e) = view d id ->
  stepped d r id e (Ok (d, mkApplied (applied r) n)).
Proof.
  intros Hok Hs. eexists d, _. split; [done|]. split; [done|]. split; [cbn; lia|]. split; [done|].
  intros i. destruct (decide (i = id)) as [->|]; [by rewrite Hs|done].
Qed.
Lemma stepped_put d r id e d' n v : data_ok d' -> (forall i, view d' i = if decide (i = id) then v else view d i) ->
  latest (view d id) (Some e) = v -> stepped d r id e (Ok (d', mkApplied (applied r + 1) n)).
Proof.
  intros Hok Hput Hl. eexists d', _. split; [done|]. split; [done|]. cbn. split; [lia|]. split; [lia|].
  intros i. rewrite Hput. destruct (decide (i = id)) as [->|]; [by rewrite Hl|done].
Qed.

Lemma same_view d d0 id : data_ok d -> data_ok d0 -> view d id = view d0 id ->
  live d0 !! id = live d !! id /\ dead d0 !! id = dead d !! id.
Proof.
  intros Hok Hok0 Hv. destruct (view_cases d id Hok) as [(f & E & El & Ed & _)|[(t & E & El & Ed & Et)|(E & El & Ed)]];
    destruct (view_cases d0 id Hok0) as [(f' & E' & El' & Ed' & _)|[(t' & E' & El' & Ed' & Et')|(E' & El' & Ed')]];
    rewrite E, E' in Hv; rewrite El, El', Ed, Ed'; try done; [by injection Hv as <-|].
  injection Hv as Hv. destruct t, t'; cbn in *. by subst.
Qed.
Lemma record_step valid record id e d0 d r : record_of valid record id e -> data_ok d0 -> data_ok d -> view d id = view d0 id ->
  stepped d r id e (apply_record (live d0) (dead d0) valid record (d, r)).
Proof.
  intros Hrec Hok0 Hok Hv. destruct (same_view _ _ _ Hok Hok0 Hv) as [Hl0 Hd0].
  destruct Hrec as [f revision owner Ho Hin|t revision]; unfold apply_record; cbn [sr_updated_at sr_id sr_deleted sr_payload];
    unfold parse_sync_timestamp at 1; rewrite rfc3339_roundtrip; cbn [map_err result_bind]; cbv zeta; rewrite Hl0, ?Hd0.
  - destruct (put_live (travel f) d Hok) as [Hok' Hput].
    cbn [dto_owner_connection_id persisted_forward_to_dto]. rewrite Ho, bool_decide_eq_true_2 by done. cbn [negb].
    rewrite payload_travel. cbn [result_bind].
    destruct (view_cases d (pf_id f) Hok) as [(g & E & El & Ed & _)|[(t & E & El & Ed & Et)|(E & El & Ed)]]; rewrite El, Ed.
    + destruct (_ <? _) eqn:Hlt; [apply stepped_skip|eapply stepped_put]; try done; rewrite E; cbn; by rewrite Hlt.
    + destruct (_ <=? _) eqn:Hle; [apply stepped_skip|eapply stepped_put]; try done; rewrite E; cbn; by rewrite Hle.
    + eapply stepped_put; try done. by rewrite E.
  - destruct (put_dead (mkTombstone (tb_id t) (tb_deleted_at t)) d Hok) as [Hok' Hput].
    destruct (view_cases d (tb_id t) Hok) as [(g & E & El & Ed & _)|[(x & E & El & Ed & Et)|(E & El & Ed)]]; rewrite El;
      cbn [tb_id] in Hput; rewrite Ed in Hput.
    + destruct (_ <? _) eqn:Hlt; [apply stepped_skip|eapply stepped_put]; try done; rewrite E; cbn; by rewrite Hlt.
    + eapply stepped_put; try done. by rewrite E.
    + eapply stepped_put; try done. by rewrite E.
Qed.

Lemma record_id valid record id e : record_of valid record id e -> sr_id record = id.
Proof. by destruct 1. Qed.
Lemma rfc3339_inj t t' : to_rfc3339 t = to_rfc3339 t' -> t = t'.
Proof. intros H. pose proof (rfc3339_roundtrip t) as Ht. rewrite H, rfc3339_roundtrip in Ht. by injection Ht. Qed.
Lemma record_functional valid record id e id' e' : record_of valid record id e -> record_of valid record id' e' -> e = e'.
Proof.
  intros H H'. revert H. destruct H' as [f' rev' owner' _ _|t' rev'].
  - remember (mkSyncRecord _ _ _ _ _) as record. intros H. revert Heqrecord. destruct H as [f rev owner _ _|t rev]; intros Heqrecord; [|discriminate].
    pose proof (f_equal sr_updated_at Heqrecord) as Hup. apply rfc3339_inj in Hup. f_equal.
    assert (Hp : persisted_forward_to_dto f None = persisted_forward_to_dto f' None) by congruence.
    pose proof (payload_travel f) as Hf. rewrite Hp, Hup, payload_travel in Hf. congruence.
  - remember (mkSyncRecord _ _ _ _ _) as record. intros H. revert Heqrecord. destruct H as [f rev owner _ _|t rev]; intros Heqrecord; [discriminate|].
    pose proof (f_equal sr_updated_at Heqrecord) as Hup. apply rfc3339_inj in Hup. by rewrite Hup.
Qed.
Lemma records_loop valid d0 records : data_ok d0 -> NoDup (map sr_id records) ->
  Forall (fun record => exists e, record_of valid record (sr_id record) e) records ->
  forall d r, data_ok d -> (forall i, i ∈ map sr_id records -> view d i = view d0 i) ->
  exists d' r', apply_records (live d0) (dead d0) valid records (d, r) = Ok (d', r')
    /\ data_ok d' /\ applied r <= applied r' /\ (applied r' = applied r -> d' = d)
    /\ (forall record i e, record ∈ records -> record_of valid record i e -> view d' i = latest (view d i) (Some e))
    /\ forall i, i ∉ map sr_id records -> view d' i = view d i.
Proof.
  intros Hok0. induction records as [|record records IH]; intros Hnd Hall d r Hok Hview.
  { exists d, r. repeat split; try done; [apply Hok..|set_solver]. }
  cbn [map] in Hnd. apply NoDup_cons in Hnd as [Hni Hnd]. apply Forall_cons in Hall as [[e He] Hall].
  destruct (record_step valid record _ e d0 d r He Hok0 Hok) as (d1 & r1 & Hrun & Hok1 & Hle1 & Heq1 & Hv1).
  { apply Hview. cbn. set_solver. }
  destruct (IH Hnd Hall d1 r1 Hok1) as (d' & r' & Hrest & Hok' & Hle' & Heq' & Hin' & Hout').
  { intros i Hi. rewrite Hv1, decide_False; [apply Hview; cbn; set_solver|]. intros ->. done. }
  exists d', r'. cbn [apply_records]. rewrite Hrun. cbn [result_bind]. rewrite Hrest.
  split; [done|]. split; [done|]. split; [lia|]. split; [intros H; rewrite Heq', Heq1 by lia; done|]. split.
  - intros record' i e' Hr' He'. apply elem_of_cons in Hr' as [->|Hr'].
    + rewrite <-(record_id _ _ _ _ He') in *. rewrite Hout', Hv1, decide_True by done.
      by rewrite (record_functional _ _ _ _ _ _ He He').
    + rewrite (Hin' record' i e') by done. rewrite Hv1, decide_False; [done|]. intros ->. apply Hni.
      rewrite <-(record_id _ _ _ _ He'). by apply list_elem_of_fmap_2.
  - cbn [map]. intros i Hi. apply not_elem_of_cons in Hi as [Hne Hi]. by rewrite Hout', Hv1, decide_False.
Qed.

(** *** Exports *)

Lemma collect_results_ok {A E B} (f : A -> result E B) l : (forall x, exists y, f x = Ok y) ->
  exists out, collect_results f l = Ok out /\ Forall2 (fun x y => f x = Ok y) l out.
Proof.
  intros H. induction l as [|x l IH]; [exists []; by constructor|]. destruct (H x) as [y Hy], IH as (out & Hout & Hall).
  exists (y :: out). cbn. rewrite Hy. cbn. rewrite Hout. by split; [|constructor].
Qed.
Lemma build_live f : exists revision, build_saved_forward_sync_record f
  = Ok (mkSyncRecord (pf_id f) revision (to_rfc3339 (sync_updated_at f)) false (Some (persisted_forward_to_dto f None))).
Proof. unfold build_saved_forward_sync_record. destruct (payload_total (persisted_forward_to_dto f None)) as [h ->]. by exists h. Qed.
Lemma build_dead t : exists revision, build_saved_forward_tombstone_record t
  = Ok (mkSyncRecord (tb_id t) revision (to_rfc3339 (tb_deleted_at t)) true None).
Proof.
  unfold build_saved_forward_tombstone_record. destruct (tombstone_total (tb_id t, to_rfc3339 (tb_deleted_at t), true)) as [h ->].
  by exists h.
Qed.

(** What the records of an export are: those of the owned forwards and of the
    tombstones that are kept. *)
Definition syncable (f : PersistedForward) : bool := bool_decide (is_Some (pf_owner_connection_id f)).
Lemma export_records now at_ src : exists snapshot, export_snapshot now at_ src = Ok snapshot
  /\ map sr_id (ss_records snapshot)
     ≡ₚ map pf_id (List.filter syncable (forwards src)) ++ map tb_id (active_tombstones now (tombstones src))
  /\ (forall f, f ∈ forwards src -> syncable f = true -> exists record, record ∈ ss_records snapshot
       /\ build_saved_forward_sync_record f = Ok record)
  /\ (forall t, t ∈ active_tombstones now (tombstones src) -> exists record, record ∈ ss_records snapshot
       /\ build_saved_forward_tombstone_record t = Ok record)
  /\ forall record, record ∈ ss_records snapshot ->
       (exists f, f ∈ forwards src /\ syncable f = true /\ build_saved_forward_sync_record f = Ok record)
       \/ exists t, build_saved_forward_tombstone_record t = Ok record.
Proof.
  unfold export_snapshot, load_sync_state, build_saved_forwards_sync_snapshot. fold syncable. cbn [fst snd].
  set (fs := sort_by _ (List.filter syncable _)). set (ts := sort_by _ (active_tombstones _ _)).
  destruct (collect_results_ok build_saved_forward_sync_record fs) as (lo & Hlo & Hfl).
  { intros f. destruct (build_live f) as [? ->]. by eexists. }
  destruct (collect_results_ok build_saved_forward_tombstone_record ts) as (deads & Hdo & Hfd).
  { intros t. destruct (build_dead t) as [? ->]. by eexists. }
  rewrite Hlo. cbn [result_bind]. rewrite Hdo. cbn [result_bind]. cbv zeta. set (records := sort_by _ (lo ++ deads)).
  assert (Hp : records ≡ₚ lo ++ deads) by apply sort_by_perm.
  destruct (records_total (map (fun r => (sr_id r, sr_revision r, sr_deleted r)) records)) as [h ->]. eexists. split; [done|].
  cbn [ss_records].
  assert (Hil : map sr_id lo = map pf_id fs).
  { clear -Hfl laws. induction Hfl as [|f rec fs' lo' H Hrest IH]; [done|]. cbn. rewrite IH. f_equal.
    destruct (build_live f) as [rev Hr]. rewrite H in Hr. by injection Hr as ->. }
  assert (Hid : map sr_id deads = map tb_id ts).
  { clear -Hfd laws. induction Hfd as [|t rec ts' do' H Hrest IH]; [done|]. cbn. rewrite IH. f_equal.
    destruct (build_dead t) as [rev Hr]. rewrite H in Hr. by injection Hr as ->. }
  assert (Hpf : fs ≡ₚ List.filter syncable (forwards src)) by apply sort_by_perm.
  assert (Hpt : ts ≡ₚ active_tombstones now (tombstones src)) by apply sort_by_perm.
  repeat split.
  - rewrite Hp, map_app, Hil, Hid. by rewrite Hpf, Hpt.
  - intros f Hf Hs. assert (Hin : f ∈ fs) by (rewrite Hpf, elem_of_List_filter; done).
    apply list_elem_of_lookup in Hin as [k Hk]. destruct (Forall2_lookup_l _ _ _ _ _ Hfl Hk) as (rec & Hrec & Hb).
    exists rec. split; [|done]. rewrite Hp, elem_of_app. left. by eapply list_elem_of_lookup_2.
  - intros t Ht. rewrite <-Hpt in Ht. apply list_elem_of_lookup in Ht as [k Hk].
    destruct (Forall2_lookup_l _ _ _ _ _ Hfd Hk) as (rec & Hrec & Hb).
    exists rec. split; [|done]. rewrite Hp, elem_of_app. right. by eapply list_elem_of_lookup_2.
  - intros rec Hr. rewrite Hp, elem_of_app in Hr. destruct Hr as [Hr|Hr]; apply list_elem_of_lookup in Hr as [k Hk].
    + destruct (Forall2_lookup_r _ _ _ _ _ Hfl Hk) as (f & Hf & Hb). left. exists f.
      apply list_elem_of_lookup_2 in Hf. rewrite Hpf, elem_of_List_filter in Hf. by destruct Hf.
    + destruct (Forall2_lookup_r _ _ _ _ _ Hfd Hk) as (t & _ & Hb). right. by exists t.
Qed.

Definition owners_in (valid : gset (list Z)) (d : SavedForwardData) : Prop :=
  forall f o, f ∈ forwards d -> pf_owner_connection_id f = Some o -> o ∈ valid.

Lemma export_entries now at_ src valid : data_ok src -> owners_in valid src ->
  exists snapshot, export_snapshot now at_ src = Ok snapshot /\ NoDup (map sr_id (ss_records snapshot))
  /\ Forall (fun record => exists e, record_of valid record (sr_id record) e) (ss_records snapshot)
  /\ forall i, match exported now src i with
                | Some e => exists record, record ∈ ss_records snapshot /\ record_of valid record i e
                | None => i ∉ map sr_id (ss_records snapshot)
                end.
Proof.
  intros Hok Hval. destruct (export_records now at_ src) as (snapshot & Hex & Hids & Hlive & Hdead & Hall).
  assert (Hrl : forall f record, f ∈ forwards src -> syncable f = true -> build_saved_forward_sync_record f = Ok record ->
    record_of valid record (pf_id f) (Live (travel f))).
  { intros f record Hf Hs Hb. destruct (build_live f) as [rev Hr]. rewrite Hb in Hr. injection Hr as ->.
    apply bool_decide_eq_true in Hs as [o Ho]. econstructor; [done|by eapply Hval]. }
  assert (Hrd : forall t record, build_saved_forward_tombstone_record t = Ok record ->
    record_of valid record (tb_id t) (Dead (tb_deleted_at t))).
  { intros t record Hb. destruct (build_dead t) as [rev Hr]. rewrite Hb in Hr. injection Hr as ->. constructor. }
  exists snapshot. split; [done|]. split; [|split].
  - rewrite Hids. apply NoDup_app. split; [apply NoDup_key_filter, Hok|]. split; [|apply NoDup_key_filter, Hok].
    intros i Hi Ht. apply list_elem_of_fmap in Hi as (f & -> & Hf). apply elem_of_List_filter in Hf as [Hf _].
    apply list_elem_of_fmap in Ht as (t & Heq & Ht). apply elem_of_List_filter in Ht as [Ht _].
    apply (ok_disjoint src Hok (pf_id f)); [by apply list_elem_of_fmap_2|]. rewrite Heq. by apply list_elem_of_fmap_2.
  - apply Forall_forall. intros record Hr. destruct (Hall record Hr) as [(f & Hf & Hs & Hb)|[t Hb]].
    + pose proof (Hrl f record Hf Hs Hb) as H. rewrite (record_id _ _ _ _ H). by eexists.
    + pose proof (Hrd t record Hb) as H. rewrite (record_id _ _ _ _ H). by eexists.
  - intros i. unfold exported.
    assert (Hnot : (forall f, f ∈ forwards src -> pf_id f = i -> syncable f = false) ->
      (forall t, t ∈ active_tombstones now (tombstones src) -> tb_id t <> i) -> i ∉ map sr_id (ss_records snapshot)).
    { intros Hf Ht Hi. rewrite Hids, elem_of_app in Hi. destruct Hi as [Hi|Hi]; apply list_elem_of_fmap in Hi as (x & -> & Hx).
      - apply elem_of_List_filter in Hx as [Hx Hs]. by rewrite (Hf x Hx) in Hs.
      - by apply (Ht x). }
    destruct (view_cases src i Hok) as [(f & E & El & Ed & Hid)|[(t & E & El & Ed & Hid)|(E & El & Ed)]]; rewrite E.
    + apply collect_map_Some in El as [Hf _]; [|apply Hok]. fold (syncable f). destruct (syncable f) eqn:Hs.
      * destruct (Hlive f Hf Hs) as (record & Hr & Hb). exists record. split; [done|]. rewrite <-Hid. by apply Hrl.
      * apply Hnot.
        -- intros g Hg Hgi. by rewrite (key_unique pf_id (forwards src) g f) by (try apply Hok; congruence).
        -- intros t Ht Hti. apply elem_of_List_filter in Ht as [Ht _]. apply collect_map_None in Ed. apply Ed. rewrite <-Hti.
           by apply list_elem_of_fmap_2.
    + apply collect_map_Some in Ed as [Ht _]; [|apply Hok]. apply collect_map_None in El.
      assert (Hf0 : forall f, f ∈ forwards src -> pf_id f = i -> syncable f = false).
      { intros f Hf Hfi. exfalso. apply El. rewrite <-Hfi. by apply list_elem_of_fmap_2. }
      destruct (cutoff now <=? tb_deleted_at t) eqn:Hc.
      * destruct (Hdead t) as (record & Hr & Hb); [by apply elem_of_List_filter|]. exists record. split; [done|].
        rewrite <-Hid. by apply Hrd.
      * apply Hnot; [done|]. intros t' Ht' Hti. apply elem_of_List_filter in Ht' as [Ht' Hc'].
        rewrite (key_unique tb_id (tombstones src) t' t) in Hc' by (try apply Hok; congruence). unfold cutoff in Hc. congruence.
    + apply collect_map_None in El, Ed. apply Hnot.
      * intros f Hf Hfi. exfalso. apply El. rewrite <-Hfi. by apply list_elem_of_fmap_2.
      * intros t Ht Hti. apply elem_of_List_filter in Ht as [Ht _]. apply Ed. rewrite <-Hti. by apply list_elem_of_fmap_2.
Qed.

(** Receiving a snapshot joins what it says of each id to what is known. *)
Lemma sync_joins now at_ src d valid : data_ok src -> data_ok d -> owners_in valid src ->
  exists snapshot r d', export_snapshot now at_ src = Ok snapshot
    /\ apply_snapshot_update snapshot valid d = Ok (r, 0 <? applied r, d')
    /\ data_ok d' /\ (0 <? applied r = false -> d' = d) /\ forall i, view d' i = latest (view d i) (exported now src i).
Proof.
  intros Hsrc Hd Hval. destruct (export_entries now at_ src valid Hsrc Hval) as (snapshot & Hex & Hnd & Hall & Hent).
  destruct (records_loop valid d (ss_records snapshot) Hd Hnd Hall d (mkApplied 0 0) Hd) as (d' & r & Hrun & Hok & Hle & Heq & Hin & Hout);
    [done|]. exists snapshot, r, d'. split; [done|]. unfold apply_snapshot_update. fold (live d) (dead d). rewrite Hrun.
  split; [done|]. split; [done|]. cbn in Hle, Heq. split; [intros H; apply Heq; lia|].
  intros i. specialize (Hent i). destruct (exported now src i) as [e|].
  - destruct Hent as (record & Hr & He). by apply (Hin record).
  - rewrite (Hout i Hent). by destruct (view d i) as [[]|].
Qed.
End Sync.
