(* ===== verification/SavedStore.v ===== *)
(** * Saved forwards: the store, its file and its peers

    The theorems on the store of [SavedForwards]: what a commit leaves in memory
    and on disk whichever call fails, the invariant of its data over all
    histories, and the exchange of snapshots between two devices. *)
From S2P Require Import Prelude Text TrzszBuffer FileSystem TrzszConfine TrzszTransfer TextOps AtomicFile ForwardModel SavedForwards SavedFacts.
From Stdlib Require Import String.
From stdpp Require Import prelude numbers list gmap.
Open Scope Z_scope.

(** ** Reading a file back *)

(** A file that is new or takes a file's place disturbs no path. *)
Lemma walk_put l fs k i fs' : nodes fs' = <[k := File i]> (nodes fs) -> (forall t, nodes fs !! k <> Some (Symlink t)) ->
  nodes fs !! k <> Some Dir -> forall p cur d, walk l fs cur p = Ok d -> walk l fs' cur p = Ok d.
Proof.
  intros Hn Hs Hd. induction l as [l IHl] using lt_wf_ind. intros p.
  induction p as [|[| | |n] p IHp]; intros cur d Hw.
  - rewrite walk_nil in *. done.
  - rewrite walk_root in *. by apply IHp.
  - assert (Hw' : walk l fs cur p = Ok d) by by destruct l. apply IHp in Hw'. by destruct l.
  - assert (Hw' : walk l fs (take (Nat.pred (length cur)) cur) p = Ok d) by by destruct l.
    apply IHp in Hw'. by destruct l.
  - rewrite walk_normal in *. rewrite Hn. destruct (decide (k = cur ++ [n])) as [->|Hne].
    + rewrite lookup_insert, decide_True by done. destruct (nodes fs !! (cur ++ [n])) as [[|j|t]|]; try done. by destruct (Hs t).
    + rewrite lookup_insert_ne by done. destruct (nodes fs !! (cur ++ [n])) as [[|j|t]|]; [by apply IHp|done| |done].
      destruct l as [|l]; [done|]. apply IHl; [lia|done].
Qed.
(** The contents of the file at a place. *)
Definition file_at (fs : FileSystem) (k : place) : option (list Z) :=
  match nodes fs !! k with Some (File i) => inodes fs !! i | _ => None end.

Lemma read_back fs fs' path d n i contents :
  leads_to fs (parent_directory path) d -> file_name path = Some n ->
  (forall t, nodes fs !! (d ++ [n]) <> Some (Symlink t)) -> nodes fs !! (d ++ [n]) <> Some Dir ->
  nodes fs' = <[d ++ [n] := File i]> (nodes fs) -> cwd fs' = cwd fs -> inodes fs' !! i = Some contents ->
  read_file path fs' = Some (Ok contents, fs') /\ look resolve path fs' = Ok (metadata_of fs' (File i)).
Proof.
  intros (Hp & Hw & Hd) Hf Hns Hnd Hn Hc Hi.
  assert (Hk : nodes fs' !! (d ++ [n]) = Some (File i)) by (rewrite Hn, lookup_insert, decide_True; done).
  assert (Hd' : node_at fs' d = Some Dir).
  { destruct d as [|x d] using rev_ind; [done|]. rewrite node_at_snoc in *. rewrite Hn, lookup_insert_ne; [done|].
    intros He.
    apply (f_equal length) in He. rewrite !length_app in He. cbn in He. lia. }
  assert (Hr : resolve fs' path = Ok (d ++ [n])).
  { pose proof (walk_put _ fs _ i fs' Hn Hns Hnd _ _ _ Hw) as Hw'. unfold resolve. unfold file_name in Hf.
    destruct path as [|c path _] using rev_ind; [done|]. rewrite last_snoc in Hf. destruct c as [| | |m]; [done..|].
    injection Hf as ->. rewrite decide_False by (by destruct path). rewrite Hc.
    unfold parent_directory, parent in Hw'. rewrite last_snoc, take_snoc in Hw'.
    destruct (decide (path = [])) as [->|Hne]; [|by eapply (walk_into _ fs' n (File i))]. eapply (walk_into _ fs' n (File i) ltac:(done) []); [|done..].
    rewrite walk_nil. change (walk MAX_LINKS fs' (cwd fs) [CurDir]) with (walk MAX_LINKS fs' (cwd fs) []) in Hw'.
    by rewrite walk_nil in Hw'. }
  unfold read_file, look. rewrite Hr. cbn [result_bind]. by rewrite node_at_snoc, Hk, Hi.
Qed.

(** ** Commits *)

(** The file of the store: its directory exists and it is not a link or a
    directory; and the calls that fail do not fail for want of a file. *)
Record store_file (fault : nat -> option (Z * io_error)) (process_id : Z) (path : PathBuf) (fs : FileSystem) (seq : Z) (d : place) (n : name)
    : Prop := {
  sf_fault : forall i m e, fault i = Some (m, e) -> kind e = OtherKind;
  sf_pid : 0 <= process_id;
  sf_seq : 0 <= seq;
  sf_inodes : forall i c, inodes fs !! i = Some c -> (i < next_ino fs)%nat;
  sf_entry : entry fs path = Ok (d ++ [n]);
  sf_name : file_name path = Some n;
  sf_text : n <> [] /\ Forall (fun c => c <> 47) n;
  sf_plain : nodes fs !! (d ++ [n]) = None \/ exists i c, nodes fs !! (d ++ [n]) = Some (File i) /\ inodes fs !! i = Some c
}.

Definition pruned (now : Z) (d : SavedForwardData) : SavedForwardData :=
  mkData (forwards d) (active_tombstones now (tombstones d)).

Section Commit.
Context `{codec : SavedCodec} {laws : SavedCodecLaws}.
Context (fault : nat -> option (Z * io_error)) (process_id : Z) (path : PathBuf).

(** Writing the file: it is replaced as a whole or stays, and once written it
    is read back. *)
Lemma write_file_outcome fs seq d n bytes : store_file fault process_id path fs seq d n ->
  exists r fs' seq', atomic_write_file fault process_id path bytes (fs, seq) = Some (r, (fs', seq'))
    /\ (file_at fs' (d ++ [n]) = Some bytes \/ r <> Ok tt /\ file_at fs' (d ++ [n]) = file_at fs (d ++ [n]))
    /\ (r = Ok tt -> read_file path fs' = Some (Ok bytes, fs') /\ exists m, look resolve path fs' = Ok m).
Proof.
  intros [Hk Hpid Hseq Hwf He Hn [Hne Hplain] Hkind].
  assert (Hns : forall t, nodes fs !! (d ++ [n]) <> Some (Symlink t)) by (intros t; destruct Hkind as [->|(? & ? & -> & _)]; done).
  assert (Hnd : nodes fs !! (d ++ [n]) <> Some Dir) by (destruct Hkind as [->|(? & ? & -> & _)]; done).
  destruct (parent_leads fs path _ He) as (d' & n' & Hdn & _ & Hl); [by rewrite Hn|].
  apply app_inj_tail in Hdn as [<- <-]. unfold atomic_write_file.
  assert (Hk' : forall i m e, fault i = Some (m, e) -> kind e <> NotFound) by (intros i m e Hf; by rewrite (Hk _ _ _ Hf)).
  pose proof (write_outcome_ok fault process_id Hpid path d n bytes fs seq Hk' Hwf Hl Hn Hplain Hne Hseq) as Hw.
  apply wp_run in Hw as (r & [fs' seq'] & -> & Hkeep & Hcwd & _ & Hout).
  exists r, fs', seq'. split; [done|]. cbn [fst nodes inodes next_ino cwd tick] in *.
  assert (Hcases : (nodes fs' = <[d ++ [n] := File (next_ino fs)]> (nodes fs) /\ inodes fs' !! next_ino fs = Some bytes)
    \/ r <> Ok tt /\ (nodes fs' = nodes fs \/ exists m, nodes fs !! (d ++ [temporary_name process_id n m]) = None
         /\ nodes fs' = <[d ++ [temporary_name process_id n m] := File (next_ino fs)]> (nodes fs))).
  { destruct r as [[]|e]; [left; by destruct Hout as (? & ? & _)|].
    destruct Hout as [?|[(m & _ & _ & _ & ? & ? & _)|(? & ? & _)]]; [right; by split; [|left]|right; by split; [|right; exists m]|by left]. }
  unfold file_at. destruct Hcases as [[Hnodes Hin]|[Hr Hout']].
  - rewrite Hnodes, lookup_insert, decide_True by done. split; [by left|]. intros _.
    destruct (read_back fs fs' path d n _ bytes Hl Hn Hns Hnd Hnodes Hcwd Hin) as [Hread Hlook]. by split; [|eexists].
  - split; [|done]. right. split; [done|].
    assert (Hsame : nodes fs' !! (d ++ [n]) = nodes fs !! (d ++ [n])).
    { destruct Hout' as [->|(m & Hm & ->)]; [done|]. apply lookup_insert_ne. intros Heq. apply app_inj_tail in Heq as [_ Heq].
      by apply (temporary_other process_id n m). }
    rewrite Hsame. destruct Hkind as [->|(i & c & -> & Hi)]; [done|]. rewrite Hi. by apply Hkeep.
Qed.

Lemma load_read fs seq bytes data other m : read_file path fs = Some (Ok bytes, fs) -> look resolve path fs = Ok m ->
  (exists s, from_utf8 bytes = Some s /\ from_str s = Ok data) -> load path (fs, seq, other) = Some (Ok tt, (fs, seq, data)).
Proof.
  intros Hr Hl (s & Hu & Hj). unfold load, io, on_fst, bind, lift, set_current. rewrite Hl. cbn -[read_file]. rewrite Hr. cbn. rewrite Hu. cbn.
  by rewrite Hj.
Qed.

Lemma commit_cases {A} now (update : Update A) files data r files' data' :
  commit_update_if fault process_id path now update (files, data) = Some (r, (files', data')) ->
  data' = data \/ exists a c, update data = Ok (a, true, c) /\ r = Ok a /\ data' = pruned now c.
Proof.
  unfold commit_update_if, bind, current, lift, set_current, ret. cbn.
  destruct (update data) as [[[a persist] c]|e]; [|intros [= <- <- <-]; by left].
  destruct persist; [|intros [= <- <- <-]; by left]. fold (pruned now c). unfold persist_data, bind, lift, io.
  destruct (to_vec_pretty (pruned now c)) as [bytes|e]; cbn; [|intros [= <- <- <-]; by left].
  destruct (atomic_write_file _ _ _ _ _) as [[[[]|e] files2]|]; cbn; [intros [= <- <- <-]|intros [= <- <- <-]; by left|done].
  right. by exists a, c.
Qed.
End Commit.

(** C16: a change of the saved forwards is all or nothing, whichever call on the
    files fails.  It always returns.  If it succeeds, the memory holds the
    change and a later start of the program loads exactly that from the file; a
    change that is not to be saved leaves both alone.  If it fails, the memory
    is as it was, and the file is as it was or (when only the directory could
    not be synced) holds the whole change: never a part of it. *)
Theorem saved_commit_durable {A} `{codec : SavedCodec} {laws : SavedCodecLaws} fault process_id path now (update : Update A)
    fs seq data d n other :
  store_file fault process_id path fs seq d n ->
  exists r fs' seq' data', commit_update_if fault process_id path now update (fs, seq, data) = Some (r, (fs', seq', data'))
    /\ match r with
       | Ok a => exists persist c, update data = Ok (a, persist, c)
           /\ if persist : bool
              then data' = pruned now c /\ load path (fs', seq', other) = Some (Ok tt, (fs', seq', data'))
              else data' = data /\ fs' = fs
       | Err _ => data' = data
           /\ (file_at fs' (d ++ [n]) = file_at fs (d ++ [n])
               \/ exists a c bytes, update data = Ok (a, true, c) /\ to_vec_pretty (pruned now c) = Ok bytes
                    /\ file_at fs' (d ++ [n]) = Some bytes)
       end.
Proof.
  intros Hst. unfold commit_update_if, bind, current, lift, set_current, ret. cbn.
  destruct (update data) as [[[a persist] c]|e]; [|eexists _, _, _, _; split; [done|]; split; [done|by left]].
  destruct persist; [|eexists _, _, _, _; split; [done|]; by exists false, c].
  fold (pruned now c). unfold persist_data, bind, lift, io. destruct (json_total (pruned now c)) as [bytes Hb]. rewrite Hb. cbn.
  destruct (write_file_outcome fault process_id path fs seq d n bytes Hst) as (r & fs' & seq' & Hw & Hfile & Hread).
  rewrite Hw. destruct r as [[]|e]; cbn; eexists _, _, _, _; (split; [done|]).
  - exists true, c. split; [done|]. split; [done|]. destruct (Hread eq_refl) as [Hrd [m Hm]].
    eapply load_read; [done..|by apply json_roundtrip].
  - split; [done|]. destruct Hfile as [Hf|[_ Hf]]; [|by left]. right. by exists a, c, bytes.
Qed.

(** ** Histories *)

Section Histories.
Context `{codec : SavedCodec}.
Context (fault : nat -> option (Z * io_error)) (process_id : Z) (path : PathBuf).

Inductive SavedOp :=
| SyncRule (forward_id session_id : list Z) (owner_connection_id : option (list Z)) (rule : ForwardRule) (now : Z)
| PersistForward (f : PersistedForward)
| DeletePersisted (forward_id : list Z) (now : Z)
| UpdateAutoStart (forward_id : list Z) (auto_start : bool) (now : Z)
| BindOwned (owner_connection_id session_id : list Z) (now : nat -> Z)
| DeleteOwned (owner_connection_id : list Z) (now : Z)
| ImportRecords (now : nat -> Z) (uuid : nat -> list Z) (keys : gset (list Z) -> list (list Z))
    (records : list OwnedForwardImportRecord) (replace_ids merge_ids : gset (list Z))
| ApplySnapshot (snapshot : SavedForwardsSyncSnapshot) (valid : gset (list Z))
| ReplaceFrom (c : SavedForwardCheckpoint).

Definition no_value {A} (m : M SavedForwardError (FileSystem * Z * SavedForwardData) A) : M SavedForwardError (FileSystem * Z * SavedForwardData) unit :=
  do* m in ret tt.
Definition perform (op : SavedOp) (commit_now : Z) : M SavedForwardError (FileSystem * Z * SavedForwardData) unit :=
  match op with
  | SyncRule forward_id session_id owner rule now =>
      no_value (sync_persisted_forward_rule fault process_id path forward_id session_id owner rule now commit_now)
  | PersistForward f => persist_forward fault process_id path f commit_now
  | DeletePersisted forward_id now => delete_persisted_forward fault process_id path forward_id now commit_now
  | UpdateAutoStart forward_id auto_start now => update_auto_start fault process_id path forward_id auto_start now commit_now
  | BindOwned owner session_id now => no_value (bind_owned_forwards_to_session fault process_id path owner session_id now commit_now)
  | DeleteOwned owner now => no_value (delete_owned_forwards fault process_id path owner now commit_now)
  | ImportRecords now uuid keys records replace_ids merge_ids =>
      no_value (apply_owned_forward_import_records fault process_id path now uuid keys records replace_ids merge_ids commit_now)
  | ApplySnapshot snapshot valid => no_value (apply_snapshot fault process_id path snapshot valid commit_now)
  | ReplaceFrom c => replace_from_checkpoint fault process_id path c
  end.

(** An id names at most one forward, and at most one deletion. *)
Definition unique (d : SavedForwardData) : Prop := NoDup (map pf_id (forwards d)) /\ NoDup (map tb_id (tombstones d)).
(** A snapshot whose payloads bear the ids of their records, as those of an
    export do; the code accepts others too. *)
Definition own_ids (snapshot : SavedForwardsSyncSnapshot) : Prop :=
  Forall (fun record => from_option (fun p => dto_id p = sr_id record) True (sr_payload record)) (ss_records snapshot).

(** New UUIDs are new, and a checkpoint was taken of good data; where [own],
    snapshots bear their own ids. *)
Definition op_ok (own : bool) (op : SavedOp) (data : SavedForwardData) : Prop :=
  match op with
  | ImportRecords _ uuid _ _ _ _ =>
      (forall n m, uuid n = uuid m -> n = m) /\ forall n, uuid n ∉ map pf_id (forwards data)
  | ApplySnapshot snapshot _ => own = true -> own_ids snapshot
  | ReplaceFrom c => unique (cp_data c) /\ (own = true -> data_ok (cp_data c))
  | _ => True
  end.

Inductive saved_history (own : bool) : FileSystem * Z * SavedForwardData -> FileSystem * Z * SavedForwardData -> Prop :=
| history_refl s : saved_history own s s
| history_step s op commit_now r s1 s2 : op_ok own op s.2 -> perform op commit_now s = Some (r, s1) -> saved_history own s1 s2 ->
    saved_history own s s2.
End Histories.

(** *** What each update does to the invariant *)

Definition leads_to_ok {A} (ok : SavedForwardData -> Prop) (update : Update A) (data : SavedForwardData) : Prop :=
  forall a b c, update data = Ok (a, b, c) -> ok c.
Abbreviation keeps := (leads_to_ok data_ok).

Lemma same_ids_ok d l : data_ok d -> map pf_id l = map pf_id (forwards d) -> data_ok (mkData l (tombstones d)).
Proof. intros [Hf Ht Hd] Hl. split; cbn; rewrite ?Hl; done. Qed.
Lemma fewer_tombstones d l t : data_ok d -> map pf_id l = map pf_id (forwards d) -> t `sublist_of` tombstones d -> data_ok (mkData l t).
Proof.
  intros [Hf Ht Hd] Hl Hs. assert (Hm : map tb_id t `sublist_of` map tb_id (tombstones d)) by by apply (fmap_sublist tb_id).
  split; cbn; rewrite ?Hl; [done|by eapply sublist_NoDup|]. intros i Hi Hti. eapply Hd; [done|]. by eapply elem_of_sublist.
Qed.
Lemma pruned_ok now d : data_ok d -> data_ok (pruned now d).
Proof. intros H. apply (fewer_tombstones d); [done..|apply filter_sublist]. Qed.
Lemma without_forwards_ok l t : NoDup (map pf_id l) -> NoDup (map tb_id t) -> data_ok (mkData l (without_forwards l t)).
Proof.
  intros Hl Ht. split; cbn; [done|by apply NoDup_key_filter|]. intros i Hi Hti.
  apply list_elem_of_fmap in Hti as (x & -> & Hx). apply elem_of_List_filter in Hx as [_ Hx].
  apply negb_true_iff, bool_decide_eq_false in Hx. done.
Qed.
Lemma found_same_id (l : list PersistedForward) i f g : l !! i = Some f -> pf_id g = pf_id f -> map pf_id (<[i := g]> l) = map pf_id l.
Proof.
  intros Hi Hg. change (map pf_id) with (fmap (M := list) pf_id). rewrite list_fmap_insert. apply list_insert_id.
  rewrite list_lookup_fmap, Hi. cbn. by rewrite Hg.
Qed.

Lemma bury_ids d ids now : data_ok d -> (forall i, i ∈ ids -> i ∉ map pf_id (forwards d)) ->
  data_ok (mkData (forwards d) (fold_left (fun t id => upsert_tombstone (mkTombstone id now) t) ids (tombstones d))).
Proof.
  revert d. induction ids as [|i ids IH]; intros d Hok Hids; [by destruct d|]. cbn [fold_left].
  pose proof (put_dead (mkTombstone i now) d Hok) as [Hput _]. cbn [tb_id] in Hput.
  assert (Hsame : List.filter (fun f => negb (bool_decide (pf_id f = i))) (forwards d) = forwards d).
  { apply List.forallb_filter_id, forallb_forall. intros f Hf. apply negb_true_iff, bool_decide_eq_false. intros Hfi.
    apply (Hids i); [set_solver|]. rewrite <-Hfi. apply list_elem_of_fmap_2. by apply list_elem_of_In. }
  rewrite Hsame in Hput. apply (IH (mkData (forwards d) (upsert_tombstone (mkTombstone i now) (tombstones d)))); [done|].
  intros j Hj. apply Hids. set_solver.
Qed.
Lemma bury_owned_ok owner now d : data_ok d -> data_ok (bury_owned owner now d).
Proof.
  intros Hok. unfold bury_owned.
  apply (bury_ids (mkData (List.filter (fun f => negb (owned_by owner f)) (forwards d)) (tombstones d))).
  - destruct Hok as [Hf Ht Hd]. split; cbn; [by apply NoDup_key_filter|done|]. intros i Hi. apply Hd.
    eapply elem_of_sublist; [exact Hi|]. apply (fmap_sublist pf_id), filter_sublist.
  - cbn [forwards]. intros i Hi Hj. apply list_elem_of_fmap in Hi as (f & -> & Hf). apply elem_of_List_filter in Hf as [Hf Ho].
    apply list_elem_of_fmap in Hj as (g & Heq & Hg). apply elem_of_List_filter in Hg as [Hg Hno].
    assert (f = g) as -> by (apply (key_unique pf_id (forwards d)); [apply Hok|done..]). by rewrite Ho in Hno.
Qed.

Lemma sync_rule_keeps forward_id session_id owner rule now d : data_ok d -> keeps (sync_rule_update forward_id session_id owner rule now) d.
Proof.
  intros Hok a b c. unfold sync_rule_update. destruct (find_forward forward_id (forwards d)) as [[i f]|] eqn:Hf.
  - intros [= <- <- <-]. destruct (found_in pf_id _ _ _ _ Hf) as (_ & _ & Hi). apply same_ids_ok; [done|by eapply found_same_id].
  - destruct owner as [owner|]; intros [= <- <- <-]; [|done].
    set (f := new_persisted _ _ _ _ _ _ _). pose proof (put_live f d Hok) as [Hput _]. cbn in Hput.
    unfold upsert_forward in Hput. change (pf_id f) with forward_id in Hput. by rewrite Hf in Hput.
Qed.
Lemma delete_keeps forward_id now d : data_ok d -> keeps (delete_update forward_id now) d.
Proof.
  intros Hok a b c. unfold delete_update. destruct (find_forward forward_id (forwards d)) as [[i f]|] eqn:Hf; intros [= <- <- <-]; [|done].
  destruct (delete_found pf_id (forwards d) forward_id i f (ok_forwards d Hok) Hf) as [Hnd Hm].
  assert (Hgone : forward_id ∉ map pf_id (delete i (forwards d))) by (apply collect_map_None; rewrite Hm; apply lookup_delete_eq).
  assert (Hd : data_ok (mkData (delete i (forwards d)) (tombstones d))).
  { split; cbn; [done|apply Hok|]. intros j Hj. apply Hok. eapply elem_of_sublist; [exact Hj|].
    apply (fmap_sublist pf_id), sublist_delete. }
  destruct (pf_owner_connection_id f); [|done].
  apply (bury_ids (mkData (delete i (forwards d)) (tombstones d)) [forward_id] now); [done|]. intros j. set_solver.
Qed.
Lemma bind_ids owner session_id now d a b c : bind_owned_update owner session_id now d = Ok (a, b, c) ->
  map pf_id (forwards c) = map pf_id (forwards d) /\ tombstones c = tombstones d.
Proof.
  intros [= <- <- <-]. split; [|done]. cbn. change (map pf_id) with (fmap (M := list) pf_id). apply list_eq. intros i.
  rewrite !list_lookup_fmap, list_lookup_imap. destruct (forwards d !! i) as [f|]; [|done]. cbn. by destruct (_ && _).
Qed.

(** *** Uniqueness alone *)

Lemma fold_bury_unique ids now : forall t, NoDup (map tb_id t) ->
  NoDup (map tb_id (fold_left (fun t id => upsert_tombstone (mkTombstone id now) t) ids t)).
Proof. induction ids as [|i ids IH]; intros t Ht; [done|]. cbn. apply IH. by apply upsert_tombstone_ok. Qed.
Lemma bury_owned_unique owner now d : unique d -> unique (bury_owned owner now d).
Proof. intros [Hf Ht]. split; cbn; [by apply NoDup_key_filter|by apply fold_bury_unique]. Qed.
Lemma pruned_unique now d : unique d -> unique (pruned now d).
Proof. intros [Hf Ht]. split; [done|by apply NoDup_key_filter]. Qed.
Lemma data_ok_unique d : data_ok d -> unique d.
Proof. by intros []. Qed.
Lemma sync_rule_unique forward_id session_id owner rule now d :
  unique d -> leads_to_ok unique (sync_rule_update forward_id session_id owner rule now) d.
Proof.
  intros [Hf Ht] a b c. unfold sync_rule_update. destruct (find_forward forward_id (forwards d)) as [[i f]|] eqn:Hfind.
  - intros [= <- <- <-]. destruct (found_in pf_id _ _ _ _ Hfind) as (_ & _ & Hi). split; cbn; [|done].
    by erewrite found_same_id.
  - destruct owner as [owner|]; intros [= <- <- <-]; [|done]. split; cbn; [|by apply NoDup_key_filter].
    apply (not_found pf_id) in Hfind. by apply NoDup_snoc.
Qed.
Lemma delete_unique forward_id now d : unique d -> leads_to_ok unique (delete_update forward_id now) d.
Proof.
  intros [Hf Ht] a b c. unfold delete_update.
  destruct (find_forward forward_id (forwards d)) as [[i f]|] eqn:Hfind; intros [= <- <- <-]; [|done]. split; cbn.
  - by apply (delete_found pf_id (forwards d) forward_id i f).
  - destruct (pf_owner_connection_id f); [by apply upsert_tombstone_ok|done].
Qed.

(** *** Imports *)

Section ImportIds.
Context (now : nat -> Z) (uuid : nat -> list Z).

(** The ids after an import: old ones, or UUIDs that were drawn. *)
Definition drawn (n n' : nat) (l l' : list PersistedForward) : Prop :=
  (n <= n')%nat /\ exists extra, map pf_id l' = map pf_id l ++ map uuid extra /\ NoDup extra /\ Forall (fun k => (n <= k < n')%nat) extra.

Lemma drawn_refl n n' l l' : (n <= n')%nat -> map pf_id l' = map pf_id l -> drawn n n' l l'.
Proof. intros H He. split; [done|]. exists []. rewrite He, app_nil_r. repeat constructor. Qed.
Lemma drawn_trans n1 n2 n3 l1 l2 l3 : drawn n1 n2 l1 l2 -> drawn n2 n3 l2 l3 -> drawn n1 n3 l1 l3.
Proof.
  intros [H12 (e & He & Hnd & Hall)] [H23 (e' & He' & Hnd' & Hall')]. split; [lia|]. exists (e ++ e').
  rewrite He', He, map_app, app_assoc. split; [done|]. rewrite Forall_forall in Hall, Hall'. split.
  - apply NoDup_app. split; [done|]. split; [|done]. intros k Hk Hk'. apply Hall in Hk. apply Hall' in Hk'. lia.
  - apply Forall_app. split; apply Forall_forall; intros k Hk; [apply Hall in Hk|apply Hall' in Hk]; lia.
Qed.
Lemma drawn_one n l f : pf_id f = uuid n -> drawn n (S n) l (l ++ [f]).
Proof.
  intros Hf. split; [lia|]. exists [n]. rewrite map_app. cbn. rewrite Hf. split; [done|]. split; [apply NoDup_singleton|].
  by constructor; [lia|].
Qed.
Lemma import_id record u at_ f : import_record_to_persisted record u at_ = Ok f -> pf_id f = u.
Proof. unfold import_record_to_persisted. destruct (try_from_tauri_str _); cbn; [|done]. by intros [= <-]. Qed.

Lemma alter_ids g i (l : list PersistedForward) : (forall f, pf_id (g f) = pf_id f) -> map pf_id (alter g i l) = map pf_id l.
Proof.
  intros Hg. revert i. induction l as [|f l IH]; intros [|i]; cbn; [done..|by rewrite Hg|]. f_equal. apply IH.
Qed.
Lemma merge_drawn owner at_ records : forall n m l n' l', merge_records uuid owner at_ records n m l = Ok (n', l') -> drawn n n' l l'.
Proof.
  induction records as [|record records IH]; intros n m l n' l'; cbn [merge_records]; [intros [= <- <-]; by apply drawn_refl|].
  destruct (m !! identity_of_import record) as [i|].
  - intros H. eapply drawn_trans; [|by eapply IH]. apply drawn_refl; [done|]. by apply alter_ids.
  - destruct (import_record_to_persisted record (uuid n) at_) as [f|] eqn:Hf; cbn [result_bind]; [|done].
    intros H. eapply drawn_trans; [|by eapply IH]. apply drawn_one. by eapply import_id.
Qed.
Lemma push_drawn records : forall n l n' l', push_records now uuid records n l = Ok (n', l') -> drawn n n' l l'.
Proof.
  induction records as [|record records IH]; intros n l n' l'; cbn [push_records]; [intros [= <- <-]; by apply drawn_refl|].
  destruct (import_record_to_persisted record (uuid n) (now n)) as [f|] eqn:Hf; cbn [result_bind]; [|done].
  intros H. eapply drawn_trans; [|by eapply IH]. apply drawn_one. by eapply import_id.
Qed.
Lemma owners_drawn records replace_ids merge_ids owners : forall n l n' l',
  import_owners now uuid records replace_ids merge_ids owners n l = Ok (n', l') -> drawn n n' l l'.
Proof.
  induction owners as [|owner owners IH]; intros n l n' l'; cbn [import_owners]; [intros [= <- <-]; by apply drawn_refl|].
  destruct (_ && _).
  - unfold merge_imported_owner_forwards. destruct (merge_records _ _ _ _ _ _ _) as [[n1 l1]|] eqn:Hm; cbn [result_bind]; [|done].
    intros H. apply merge_drawn in Hm. eapply drawn_trans; [|by eapply IH]. eapply drawn_trans; [|exact Hm]. apply drawn_refl; [lia|done].
  - destruct (push_records _ _ _ _ _) as [[n1 l1]|] eqn:Hm; cbn [result_bind]; [|done].
    intros H. apply push_drawn in Hm. eapply drawn_trans; [exact Hm|by eapply IH].
Qed.
End ImportIds.

Lemma drawn_unique (uuid : nat -> list Z) (ids : list (list Z)) extra : NoDup ids -> NoDup extra ->
  (forall n m, uuid n = uuid m -> n = m) -> (forall n, uuid n ∉ ids) -> NoDup (ids ++ map uuid extra).
Proof.
  intros Hids Hnd Hinj Hnew. apply NoDup_app. split; [done|]. split.
  - intros i Hold Hnewi. apply list_elem_of_fmap in Hnewi as (k & -> & _). by apply (Hnew k).
  - change (map uuid extra) with (uuid <$> extra). apply NoDup_fmap_2; [|done]. intros n m. apply Hinj.
Qed.
Lemma import_keeps now uuid keys records replace_ids merge_ids d : data_ok d ->
  (forall n m, uuid n = uuid m -> n = m) -> (forall n, uuid n ∉ map pf_id (forwards d)) ->
  keeps (import_update now uuid keys records replace_ids merge_ids) d.
Proof.
  intros Hok Hinj Hnew a b c. unfold import_update.
  assert (Hb : forall owners d, data_ok d -> (forall n, uuid n ∉ map pf_id (forwards d)) ->
    let d' := fold_left (fun data owner => bury_owned owner (now 0%nat) data) owners d in
    data_ok d' /\ forall n, uuid n ∉ map pf_id (forwards d')).
  { clear. induction owners as [|owner owners IH]; intros d Hok Hnew; [done|]. cbn [fold_left]. apply IH; [by apply bury_owned_ok|].
    intros n Hn. apply (Hnew n). eapply elem_of_sublist; [exact Hn|]. apply (fmap_sublist pf_id), filter_sublist. }
  destruct (Hb (keys replace_ids) d Hok Hnew) as [Hok1 Hnew1]. clear Hb. set (d1 := fold_left _ _ d) in *.
  destruct (import_owners _ _ _ _ _ _ _ _) as [[n' l']|] eqn:Hi; cbn [result_bind fst snd]; [|done]. intros [= <- <- <-].
  apply owners_drawn in Hi as [_ (extra & Hids & Hnd & _)]. apply without_forwards_ok; [|apply Hok1]. rewrite Hids.
  by apply drawn_unique; [apply Hok1|..].
Qed.

Lemma import_unique now uuid keys records replace_ids merge_ids d : unique d ->
  (forall n m, uuid n = uuid m -> n = m) -> (forall n, uuid n ∉ map pf_id (forwards d)) ->
  leads_to_ok unique (import_update now uuid keys records replace_ids merge_ids) d.
Proof.
  intros Hok Hinj Hnew a b c. unfold import_update.
  assert (Hb : forall owners d, unique d -> (forall n, uuid n ∉ map pf_id (forwards d)) ->
    let d' := fold_left (fun data owner => bury_owned owner (now 0%nat) data) owners d in
    unique d' /\ forall n, uuid n ∉ map pf_id (forwards d')).
  { clear. induction owners as [|owner owners IH]; intros d Hok Hnew; [done|]. cbn [fold_left]. apply IH; [by apply bury_owned_unique|].
    intros n Hn. apply (Hnew n). eapply elem_of_sublist; [exact Hn|]. apply (fmap_sublist pf_id), filter_sublist. }
  destruct (Hb (keys replace_ids) d Hok Hnew) as [Hok1 Hnew1]. clear Hb. set (d1 := fold_left _ _ d) in *.
  destruct (import_owners _ _ _ _ _ _ _ _) as [[n' l']|] eqn:Hi; cbn [result_bind fst snd]; [|done]. intros [= <- <- <-].
  apply owners_drawn in Hi as [_ (extra & Hids & Hnd & _)]. apply data_ok_unique, without_forwards_ok; [|apply Hok1]. rewrite Hids.
  by apply drawn_unique; [apply Hok1|..].
Qed.

Section SnapshotIds.
Context `{codec : SavedCodec}.

Lemma payload_id p at_ f : persisted_forward_from_sync_payload p at_ = Ok f -> pf_id f = dto_id p.
Proof.
  unfold persisted_forward_from_sync_payload. destruct (try_from_tauri_str _); cbn; [|done].
  unfold parse_sync_timestamp. destruct (parse_from_rfc3339 _); cbn; [|done]. by intros [= <-].
Qed.
Lemma apply_record_ok existing buried valid record d r d' r' :
  data_ok d -> from_option (fun p => dto_id p = sr_id record) True (sr_payload record) ->
  apply_record existing buried valid record (d, r) = Ok (d', r') -> data_ok d'.
Proof.
  intros Hok Hid. unfold apply_record, parse_sync_timestamp. destruct (parse_from_rfc3339 (sr_updated_at record)) as [at_|]; cbn [map_err result_bind]; [|done].
  cbv zeta. set (newer := match existing !! _ with Some _ => _ | None => false end). destruct (sr_deleted record).
  { destruct newer; intros [= <- <-]; [done|]. apply (put_dead (mkTombstone (sr_id record) at_) d Hok). }
  destruct (sr_payload record) as [p|]; [|by intros [= <- <-]]. cbn in Hid.
  destruct (match buried !! _ with Some _ => _ | None => false end); [by intros [= <- <-]|]. destruct newer; [by intros [= <- <-]|].
  destruct (dto_owner_connection_id p) as [owner|]; [|by intros [= <- <-]].
  destruct (negb _); [by intros [= <- <-]|].
  destruct (persisted_forward_from_sync_payload p at_) as [f|] eqn:Hf; cbn [result_bind]; [|done]. intros [= <- <-].
  apply payload_id in Hf. rewrite <-Hid, <-Hf. apply (put_live f d Hok).
Qed.
Lemma apply_record_unique existing buried valid record d r d' r' :
  unique d -> apply_record existing buried valid record (d, r) = Ok (d', r') -> unique d'.
Proof.
  intros Hok. unfold apply_record, parse_sync_timestamp. destruct (parse_from_rfc3339 (sr_updated_at record)) as [at_|]; cbn [map_err result_bind]; [|done].
  cbv zeta. set (newer := match existing !! _ with Some _ => _ | None => false end). destruct (sr_deleted record).
  { destruct newer; intros [= <- <-]; [done|]. destruct Hok. split; cbn; [by apply NoDup_key_filter|by apply upsert_tombstone_ok]. }
  destruct (sr_payload record) as [p|]; [|by intros [= <- <-]].
  destruct (match buried !! _ with Some _ => _ | None => false end); [by intros [= <- <-]|]. destruct newer; [by intros [= <- <-]|].
  destruct (dto_owner_connection_id p) as [owner|]; [|by intros [= <- <-]]. destruct (negb _); [by intros [= <- <-]|].
  destruct (persisted_forward_from_sync_payload p at_) as [f|] eqn:Hf; cbn [result_bind]; [|done]. intros [= <- <-].
  destruct Hok. split; cbn; [by apply upsert_forward_ok|by apply NoDup_key_filter].
Qed.
Lemma apply_records_unique existing buried valid records :
  forall d r d' r', unique d -> apply_records existing buried valid records (d, r) = Ok (d', r') -> unique d'.
Proof.
  induction records as [|record records IH]; intros d r d' r' Hok; cbn [apply_records]; [by intros [= <- <-]|].
  destruct (apply_record _ _ _ _ _) as [[d1 r1]|] eqn:Ha; cbn [result_bind]; [|done]. apply IH. by eapply apply_record_unique.
Qed.
Lemma apply_records_ok existing buried valid records : Forall (fun record => from_option (fun p => dto_id p = sr_id record) True (sr_payload record)) records ->
  forall d r d' r', data_ok d -> apply_records existing buried valid records (d, r) = Ok (d', r') -> data_ok d'.
Proof.
  induction 1 as [|record records Hr Hrs IH]; intros d r d' r' Hok; cbn [apply_records]; [by intros [= <- <-]|].
  destruct (apply_record _ _ _ _ _) as [[d1 r1]|] eqn:Ha; cbn [result_bind]; [|done]. apply IH. by eapply apply_record_ok.
Qed.

Context (fault : nat -> option (Z * io_error)) (process_id : Z) (path : PathBuf).

Lemma commit_leads {A} (ok : SavedForwardData -> Prop) now (update : Update A) s r s' :
  (forall d, ok d -> ok (pruned now d)) -> leads_to_ok ok update s.2 -> ok s.2 ->
  commit_update_if fault process_id path now update s = Some (r, s') -> ok s'.2.
Proof.
  destruct s as [files d], s' as [files' d']. intros Hpr Hk Hok Hc. apply commit_cases in Hc as [->|(a & c & Hu & _ & ->)]; [done|].
  apply Hpr. by eapply Hk.
Qed.
Lemma commit_keeps {A} now (update : Update A) s r s' : keeps update s.2 -> data_ok s.2 ->
  commit_update_if fault process_id path now update s = Some (r, s') -> data_ok s'.2.
Proof. apply commit_leads. intros d. apply pruned_ok. Qed.
Lemma replace_cases c s r s' : replace_from_checkpoint fault process_id path c s = Some (r, s') -> s'.2 = cp_data c \/ s'.2 = s.2.
Proof.
  unfold replace_from_checkpoint, bind. destruct (persist_checkpoint _ _ _ c s) as [[[[]|e] s1]|] eqn:Hpc; [| |done].
  - intros [= <- <-]. by left.
  - intros [= <- <-]. right. destruct s as [files d]. unfold persist_checkpoint in Hpc.
    destruct (cp_file_state c); unfold io in Hpc.
    + destruct (on_fst _ files) as [[? ?]|]; [|done]. by injection Hpc as _ <-.
    + destruct (atomic_write_file _ _ _ _ files) as [[? ?]|]; [|done]. by injection Hpc as _ <-.
Qed.
Lemma no_value_run {A} (m : M SavedForwardError (FileSystem * Z * SavedForwardData) A) s r s' :
  no_value m s = Some (r, s') -> exists r', m s = Some (r', s').
Proof. unfold no_value, bind, ret. destruct (m s) as [[[] s1]|]; intros [= <- <-]; by eexists. Qed.
Lemma perform_unique own op now s r s' : op_ok own op s.2 -> unique s.2 -> perform fault process_id path op now s = Some (r, s') -> unique s'.2.
Proof.
  intros Hop Hok. destruct op as [id sid owner rule t|f|id t|id auto t|owner sid t|owner t|t uuid keys records rep mer|snapshot valid|c];
    cbn [perform]; intros Hp; try apply no_value_run in Hp as [r' Hp];
    try (eapply (commit_leads unique); [intros d; apply pruned_unique| |exact Hok|exact Hp]).
  - by apply sync_rule_unique.
  - intros a b c [= <- <- <-]. destruct Hok. split; cbn; [by apply upsert_forward_ok|by apply NoDup_key_filter].
  - by apply delete_unique.
  - intros a b c. unfold auto_start_update. destruct (find_forward _ _) as [[i f]|] eqn:Hf; [|done]. intros [= <- <- <-].
    destruct (found_in pf_id _ _ _ _ Hf) as (_ & _ & Hi). destruct Hok. split; cbn; [by erewrite found_same_id|done].
  - intros a b c Hb. destruct (bind_ids _ _ _ _ _ _ _ Hb) as [Hl Ht]. unfold unique. by rewrite Hl, Ht.
  - intros a b c [= <- <- <-]. by apply bury_owned_unique.
  - destruct Hop. by apply import_unique.
  - intros a b c. unfold apply_snapshot_update. destruct (apply_records _ _ _ _ _) as [[d1 r1]|] eqn:Ha; cbn; [|done].
    intros [= <- <- <-]. by eapply apply_records_unique.
  - destruct Hop as [Hc _]. by apply replace_cases in Hp as [->| ->].
Qed.
Lemma perform_ok op now s r s' : op_ok true op s.2 -> data_ok s.2 -> perform fault process_id path op now s = Some (r, s') -> data_ok s'.2.
Proof.
  intros Hop Hok. destruct op as [id sid owner rule t|f|id t|id auto t|owner sid t|owner t|t uuid keys records rep mer|snapshot valid|c];
    cbn [perform]; intros Hp; try apply no_value_run in Hp as [r' Hp]; try (eapply commit_keeps; [|exact Hok|exact Hp]).
  - by apply sync_rule_keeps.
  - intros a b c [= <- <- <-]. apply without_forwards_ok; [apply upsert_forward_ok|]; apply Hok.
  - by apply delete_keeps.
  - intros a b c. unfold auto_start_update. destruct (find_forward _ _) as [[i f]|] eqn:Hf; [|done]. intros [= <- <- <-].
    destruct (found_in pf_id _ _ _ _ Hf) as (_ & _ & Hi). apply same_ids_ok; [done|by eapply found_same_id].
  - intros a b c Hb. destruct (bind_ids _ _ _ _ _ _ _ Hb) as [Hl Ht]. destruct c as [l t']. cbn in *. subst. by apply same_ids_ok.
  - intros a b c [= <- <- <-]. by apply bury_owned_ok.
  - destruct Hop. by apply import_keeps.
  - intros a b c. unfold apply_snapshot_update. destruct (apply_records _ _ _ _ _) as [[d1 r1]|] eqn:Ha; cbn; [|done].
    intros [= <- <- <-]. eapply apply_records_ok; [by apply Hop|done|done].
  - destruct Hop as [_ Hc]. apply replace_cases in Hp as [->| ->]; [by apply Hc|done].
Qed.
End SnapshotIds.

(** C19: whatever is done to the saved forwards, with whatever failures of the
    disk and in whatever order (edits, deletions, imports, snapshots of other
    devices, restored checkpoints), an id names at most one forward and at most
    one deletion is remembered for it; this takes only that new UUIDs are new and
    that restored checkpoints were taken of such data.  If moreover every
    received snapshot has under each record a payload with the record's own id
    ([own]; the exports of this program do, but the code does not check it, and a
    snapshot with another payload breaks this part), then no id has both a
    forward and a remembered deletion. *)
Theorem saved_data_invariant `{codec : SavedCodec} fault process_id path own s s' :
  saved_history fault process_id path own s s' -> unique s.2 ->
  unique s'.2
  /\ (own = true -> (forall i, i ∈ map pf_id (forwards s.2) -> i ∉ map tb_id (tombstones s.2)) ->
      forall i, i ∈ map pf_id (forwards s'.2) -> i ∉ map tb_id (tombstones s'.2)).
Proof.
  intros Hh Hu. split.
  - induction Hh as [s|s op now r s1 s2 Hop Hp _ IH]; [done|]. apply IH. by eapply perform_unique.
  - intros -> Hd. enough (data_ok s'.2) as Hok by apply Hok. assert (Hok : data_ok s.2) by (by split; [apply Hu..|]). clear Hu Hd.
    induction Hh as [s|s op now r s1 s2 Hop Hp _ IH]; [done|]. apply IH. by eapply perform_ok.
Qed.

(** ** Two devices *)

(** Deletions that are too old are forgotten. *)
Definition remembered (now : Z) (e : option Entry) : option Entry :=
  match e with Some (Dead t) => if cutoff now <=? t then e else None | _ => e end.
(** What of an entry travels. *)
Definition synced (e : Entry) : Entry := match e with Live f => Live (travel f) | Dead t => Dead t end.

Lemma view_pruned now d i : data_ok d -> view (pruned now d) i = remembered now (view d i).
Proof.
  intros Hok. unfold view. change (live (pruned now d)) with (live d). destruct (live d !! i); [done|].
  unfold dead, pruned, active_tombstones. cbn [tombstones]. rewrite collect_map_filter by apply Hok. fold (cutoff now).
  destruct (collect_map tb_id (tombstones d) !! i) as [t|]; [|done]. cbn. by destruct (cutoff now <=? tb_deleted_at t).
Qed.

Section Devices.
Context `{codec : SavedCodec} {laws : SavedCodecLaws}.

Lemma received_view fault process_id path snapshot valid commit_now files d r files' d' c :
  data_ok c -> apply_snapshot_update snapshot valid d = Ok (r, 0 <? applied r, c) -> (0 <? applied r = false -> c = d) ->
  forall r', apply_snapshot fault process_id path snapshot valid commit_now (files, d) = Some (Ok r', (files', d')) ->
  r' = r /\ (forall i, view d' i = (if 0 <? applied r then remembered commit_now else id) (view c i))
  /\ (applied r <= 0 -> d' = d /\ files' = files).
Proof.
  intros Hok Hu Hsame r' Ha. unfold apply_snapshot, commit_update_if, bind, current, lift, set_current, ret in Ha. cbn in Ha.
  rewrite Hu in Ha. destruct (0 <? applied r) eqn:Hp.
  - fold (pruned commit_now c) in Ha. destruct (match map_err _ _ with Ok _ => _ | Err _ => _ end) as [[[[]|e] s1]|];
      [|done..]. injection Ha as <- _ <-.
    split; [done|]. split; [intros i; by apply view_pruned|]. lia.
  - injection Ha as <- <- <-. split; [done|]. split; [intros i; by rewrite Hsame|done].
Qed.
End Devices.

(** C18: exchanging saved forwards is a last-writer-wins join, where every
    owned forward of the sender belongs to a connection that the receiver knows
    ([owners_in]; records of other owners are skipped).  The sender can always
    export what it has.  The receiver, if it can save the result, then holds for
    each id the later, by time stamp, of what it knew and what it was told (a
    deletion and a change of the same instant is a deletion), has forgotten the
    deletions older than the retention, and has changed nothing else; if it
    reports that no record was applied, it has changed neither its data nor its
    files. *)
Theorem saved_sync_latest `{codec : SavedCodec} {laws : SavedCodecLaws} now at_ src d valid :
  data_ok src -> data_ok d -> owners_in valid src ->
  exists snapshot, export_snapshot now at_ src = Ok snapshot
    /\ forall fault process_id path commit_now files r files' d',
         apply_snapshot fault process_id path snapshot valid commit_now (files, d) = Some (Ok r, (files', d')) ->
         (forall i, view d' i = (if 0 <? applied r then remembered commit_now else id) (latest (view d i) (exported now src i)))
         /\ (applied r <= 0 -> d' = d /\ files' = files).
Proof.
  intros Hsrc Hd Hval. destruct (sync_joins now at_ src d valid Hsrc Hd Hval) as (snapshot & r & c & Hex & Hu & Hok & Hsame & Hv).
  exists snapshot. split; [done|]. intros fault process_id path commit_now files r' files' d' Ha.
  destruct (received_view _ _ _ _ _ _ _ _ _ _ _ _ Hok Hu Hsame _ Ha) as (-> & Hview & Hnone).
  split; [intros i; by rewrite Hview, Hv|done].
Qed.

(** A forward that belongs to a connection which both devices know, or a
    deletion that is not older than the retention. *)
Definition entry_settled (valid : gset (list Z)) (latest_now : Z) (e : Entry) : Prop :=
  match e with
  | Live f => exists o, pf_owner_connection_id f = Some o /\ o ∈ valid
  | Dead t => cutoff latest_now <= t
  end.
Definition settled (valid : gset (list Z)) (latest_now : Z) (d : SavedForwardData) : Prop :=
  data_ok d /\ forall i e, view d i = Some e -> entry_settled valid latest_now e.

Lemma settled_owners valid n d : settled valid n d -> owners_in valid d.
Proof.
  intros [Hok Hs] f o Hf Ho. destruct (Hs (pf_id f) (Live f)) as (o' & Ho' & Hin); [|congruence].
  unfold view, live. rewrite (proj2 (collect_map_Some pf_id (forwards d) (pf_id f) f (ok_forwards d Hok))); done.
Qed.
Lemma settled_exported valid n now d i : settled valid n d -> now <= n -> exported now d i = synced <$> view d i.
Proof.
  intros [Hok Hs] Hn. unfold exported. specialize (Hs i). destruct (view d i) as [[f|t]|]; [| |done]; specialize (Hs _ eq_refl); cbn in Hs.
  - destruct Hs as (o & -> & _). done.
  - replace (cutoff now <=? t) with true; [done|]. symmetry. apply Z.leb_le. unfold cutoff in *. lia.
Qed.
Lemma settled_remembered valid n now x : (forall e, x = Some e -> entry_settled valid n e) -> now <= n -> remembered now x = x.
Proof.
  intros Hs Hn. destruct x as [[f|t]|]; [done| |done]. specialize (Hs _ eq_refl). cbn in *.
  replace (cutoff now <=? t) with true; [done|]. symmetry. apply Z.leb_le. unfold cutoff in *. lia.
Qed.
Lemma latest_settled valid n x y e : (forall e, x = Some e -> entry_settled valid n e) -> (forall e, y = Some e -> entry_settled valid n e) ->
  latest x (synced <$> y) = Some e -> entry_settled valid n e.
Proof.
  intros Hx Hy. destruct x as [[f|t]|], y as [[g|u]|]; cbn; intros H;
    repeat match type of H with (if ?b then _ else _) = _ => destruct b end; simplify_eq;
    try (by apply Hx); try exact (Hy _ eq_refl).
  specialize (Hx _ eq_refl). cbn in *. lia.
Qed.
Lemma upd_travel f : sync_updated_at (travel f) = sync_updated_at f.
Proof. done. Qed.
Lemma travel_idem f : travel (travel f) = travel f.
Proof. done. Qed.
(** Telling a device and being told by it agree. *)
Lemma latest_converges (x y : option Entry) (z := latest y (synced <$> x)) :
  synced <$> latest x (synced <$> z) = synced <$> z /\ synced <$> z = synced <$> latest y x.
Proof.
  subst z. destruct x as [[f|t]|], y as [[g|u]|]; cbn -[travel sync_updated_at Z.max]; rewrite ?upd_travel, ?travel_idem; try done.
  - destruct (sync_updated_at f <? sync_updated_at g) eqn:E; cbn -[travel sync_updated_at]; rewrite ?upd_travel, ?travel_idem, ?Z.ltb_irrefl; [|done].
    by rewrite (proj2 (Z.ltb_ge _ _)) by lia.
  - destruct (sync_updated_at f <=? u) eqn:E; cbn -[travel sync_updated_at]; rewrite ?upd_travel, ?travel_idem, ?Z.ltb_irrefl; [|done].
    by rewrite (proj2 (Z.ltb_ge _ _)) by lia.
  - by rewrite Z.ltb_irrefl.
  - destruct (t <? sync_updated_at g) eqn:E; cbn -[travel sync_updated_at Z.max]; rewrite ?upd_travel, ?travel_idem, ?Z.max_id; [|done].
    by rewrite (proj2 (Z.leb_gt _ _)) by lia.
  - split; do 2 f_equal; lia.
  - by rewrite Z.max_id.
Qed.

Lemma settled_lists valid n d : data_ok d -> Forall (fun f => entry_settled valid n (Live f)) (forwards d) ->
  Forall (fun t => entry_settled valid n (Dead (tb_deleted_at t))) (tombstones d) -> settled valid n d.
Proof.
  intros Hok Hf Ht. split; [done|]. intros i e.
  destruct (view_cases d i Hok) as [(f & -> & El & _)|[(t & -> & _ & Ed & _)|(-> & _)]]; [| |done]; intros [= <-].
  - apply collect_map_Some in El as [Hin _]; [by eapply (proj1 (Forall_forall _ _)) in Hf|apply Hok].
  - apply collect_map_Some in Ed as [Hin _]; [by eapply (proj1 (Forall_forall _ _)) in Ht|apply Hok].
Qed.
Lemma settled_data valid n d : settled valid n d -> data_ok d.
Proof. by intros [H _]. Qed.
(** What a settled device holds after it has heard from a settled one. *)
Lemma settled_receive `{codec : SavedCodec} {laws : SavedCodecLaws} valid n now at_ commit_now src d :
  settled valid n src -> settled valid n d -> now <= n -> commit_now <= n ->
  exists snapshot, export_snapshot now at_ src = Ok snapshot
    /\ forall fault process_id path files r files' d',
         apply_snapshot fault process_id path snapshot valid commit_now (files, d) = Some (Ok r, (files', d')) ->
         settled valid n d' /\ forall i, view d' i = latest (view d i) (synced <$> view src i).
Proof.
  intros Hsrc Hd Hn Hc.
  destruct (sync_joins now at_ src d valid (settled_data _ _ _ Hsrc) (settled_data _ _ _ Hd) (settled_owners _ _ _ Hsrc))
    as (snapshot & r & c & Hex & Hu & Hok & Hsame & Hv).
  exists snapshot. split; [done|]. intros fault process_id path files r' files' d' Ha.
  destruct (received_view _ _ _ _ _ _ _ _ _ _ _ _ Hok Hu Hsame _ Ha) as (-> & Hview & _).
  assert (Hset : forall i e, view c i = Some e -> entry_settled valid n e).
  { intros i e. rewrite Hv, (settled_exported valid n) by done. apply latest_settled; [apply Hd|apply Hsrc]. }
  assert (Hall : forall i, view d' i = view c i).
  { intros i. rewrite Hview. destruct (0 <? applied r); [|done]. eapply settled_remembered; [apply Hset|done]. }
  assert (Hok' : data_ok d').
  { apply (commit_keeps fault process_id path commit_now (apply_snapshot_update snapshot valid) (files, d) (Ok r) (files', d'));
      [|apply Hd|done]. intros x y z Hz. cbn in Hz. rewrite Hu in Hz. by injection Hz as <- <- <-. }
  split; [split; [done|intros i e; rewrite Hall; apply Hset]|]. intros i. by rewrite Hall, Hv, (settled_exported valid n) by done.
Qed.

(** C17: two devices that hear from each other agree, where both are settled:
    every forward belongs to a connection that both devices know (forwards
    without an owner do not travel), and no remembered deletion is older than the
    retention during the exchange.  One exports, the other receives and exports
    in turn, and the first receives, each saving what it received: then both hold
    the same forwards and the same deletions (but for the session a forward is
    bound to, which belongs to a device), and for each id it is what bore the
    later time stamp on the two devices before. *)
Theorem saved_sync_converges `{codec : SavedCodec} {laws : SavedCodecLaws} valid n a b now1 at1 commit1 now2 at2 commit2 :
  settled valid n a -> settled valid n b -> now1 <= n -> commit1 <= n -> now2 <= n -> commit2 <= n ->
  exists sa, export_snapshot now1 at1 a = Ok sa /\ forall fault process_id path files r files' b',
    apply_snapshot fault process_id path sa valid commit1 (files, b) = Some (Ok r, (files', b')) ->
  exists sb, export_snapshot now2 at2 b' = Ok sb /\ forall fault process_id path files r files' a',
    apply_snapshot fault process_id path sb valid commit2 (files, a) = Some (Ok r, (files', a')) ->
  forall i, synced <$> view a' i = synced <$> view b' i /\ synced <$> view b' i = synced <$> latest (view b i) (view a i).
Proof.
  intros Ha Hb Hn1 Hc1 Hn2 Hc2. destruct (settled_receive valid n now1 at1 commit1 a b Ha Hb Hn1 Hc1) as (sa & Hsa & Hba).
  exists sa. split; [done|]. intros fault process_id path files r files' b' Hrun. destruct (Hba _ _ _ _ _ _ _ Hrun) as [Hb' Hvb].
  destruct (settled_receive valid n now2 at2 commit2 b' a Hb' Ha Hn2 Hc2) as (sb & Hsb & Hab).
  exists sb. split; [done|]. intros ? ? ? ? ? ? a' Hrun2. destruct (Hab _ _ _ _ _ _ _ Hrun2) as [_ Hva].
  intros i. rewrite Hva, Hvb. apply latest_converges.
Qed.

(** ** A codec *)

(** Any encoding of the data as text will do for JSON: here its binary code. *)
Definition rule_fields (r : ForwardRule) :=
  (fr_id r, as_str (fr_type r), fr_bind_address r, fr_bind_port r, fr_target_host r, fr_target_port r,
   match fr_status r with FsStarting => 0 | FsActive => 1 | FsStopped => 2 | FsError => 3 | FsSuspended => 4 end, fr_description r).
Definition type_of (s : list Z) : ForwardType := match try_from_tauri_str s with Ok t => t | Err _ => FtLocal end.
Definition rule_of_fields (x : list Z * list Z * list Z * Z * list Z * Z * Z * list Z) : ForwardRule :=
  let '(i, t, a, p, h, q, s, d) := x in
  mkRule i (type_of t) a p h q
    (if s =? 0 then FsStarting else if s =? 1 then FsActive else if s =? 2 then FsStopped else if s =? 3 then FsError else FsSuspended) d.
Definition forward_fields (f : PersistedForward) :=
  (pf_id f, pf_session_id f, pf_owner_connection_id f, as_str (pf_type f), rule_fields (pf_rule f), pf_created_at f, pf_updated_at f,
   pf_auto_start f, pf_version f).
Definition data_fields (d : SavedForwardData) :=
  (map forward_fields (forwards d), map (fun t => (tb_id t, tb_deleted_at t)) (tombstones d)).
Definition data_of_fields (x : _) : SavedForwardData :=
  mkData (map (fun '(i, s, o, t, r, c, u, a, v) => mkPersisted i s o (type_of t) (rule_of_fields r) c u a v) x.1)
    (map (fun '(i, t) => mkTombstone i t) x.2).
Lemma type_of_str t : type_of (as_str t) = t.
Proof. unfold type_of. by rewrite as_str_roundtrip. Qed.
Lemma data_fields_inv d : data_of_fields (data_fields d) = d.
Proof.
  destruct d as [l t]. unfold data_of_fields, data_fields. cbn. f_equal; rewrite map_map; (etrans; [|apply map_id]); apply map_ext.
  - intros [i s o ty [ri rt ra rp rh rq rs rd] c u a v]. cbn. rewrite !type_of_str. by destruct rs.
  - by intros [].
Qed.
Fixpoint digits_of (p : positive) : list Z :=
  match p with xH => [] | xO p => 48 :: digits_of p | xI p => 49 :: digits_of p end.
Fixpoint of_digits (l : list Z) : positive :=
  match l with [] => xH | c :: l => if c =? 48 then xO (of_digits l) else xI (of_digits l) end.
Lemma digits_inv p : of_digits (digits_of p) = p.
Proof. induction p; cbn; by rewrite ?IHp. Qed.
Lemma digits_ascii p : Forall (fun c => 0 <= c < 128) (digits_of p).
Proof. induction p; cbn; constructor; lia || done. Qed.
#[export] Instance sample_codec : SavedCodec := {|
  to_vec_pretty d := Ok (digits_of (encode (data_fields d)));
  from_str s := match decode (of_digits s) with Some x => Ok (data_of_fields x) | None => Err [] end;
  payload_sha256 _ := Ok [];
  tombstone_sha256 _ := Ok [];
  records_sha256 _ := Ok [];
  to_rfc3339 t := [t];
  parse_from_rfc3339 s := match s with [t] => Ok t | _ => Err [] end
|}.
#[export] Instance sample_codec_laws : SavedCodecLaws.
Proof.
  split; try (by eexists). intros d bytes [= <-]. exists (digits_of (encode (data_fields d))).
  pose proof (digits_ascii (encode (data_fields d))) as Ha. split.
  - rewrite <-(utf8_encode_ascii _ Ha) at 1. by apply from_utf8_encode, ascii_scalar.
  - cbn. by rewrite digits_inv, decode_encode, data_fields_inv.
Qed.

(** ** Witnesses and examples *)

Definition sample_forward (id : string) (auto_start : bool) (updated : Z) : PersistedForward :=
  mkPersisted (lit id) (lit "s1") (Some (lit "conn")) FtLocal
    (set_status FsStopped (rule_local (lit id) (lit "localhost") 8080 (lit "db") 5432)) 1 (Some updated) auto_start 1.
Definition no_fault : nat -> option (Z * io_error) := fun _ => None.

Lemma saved_commit_durable_witness : exists r fs' seq' data',
  commit_update_if (fail_at 3) 7 sample_path 100 (persist_forward_update (sample_forward "f" true 5)) (sample_fs, 0, mkData [] [])
    = Some (r, (fs', seq', data'))
  /\ match r with
     | Ok a => exists persist c, persist_forward_update (sample_forward "f" true 5) (mkData [] []) = Ok (a, persist, c)
         /\ if persist : bool
            then data' = pruned 100 c /\ load sample_path (fs', seq', mkData [] []) = Some (Ok tt, (fs', seq', data'))
            else data' = mkData [] [] /\ fs' = sample_fs
     | Err _ => data' = mkData [] []
         /\ (file_at fs' ([lit "etc"] ++ [lit "app"]) = file_at sample_fs ([lit "etc"] ++ [lit "app"])
             \/ exists a c bytes, persist_forward_update (sample_forward "f" true 5) (mkData [] []) = Ok (a, true, c)
                  /\ to_vec_pretty (pruned 100 c) = Ok bytes /\ file_at fs' ([lit "etc"] ++ [lit "app"]) = Some bytes)
     end.
Proof.
  apply (saved_commit_durable (fail_at 3) 7 sample_path 100 (persist_forward_update (sample_forward "f" true 5)) sample_fs 0
           (mkData [] []) [lit "etc"] (lit "app") (mkData [] [])).
  split; [ |lia|lia| |reflexivity|reflexivity| | ].
  - intros i m e. unfold fail_at. destruct (Nat.eqb i 3); [|discriminate]. intros H. injection H as <- <-. reflexivity.
  - intros i c Hi. change (inodes sample_fs) with ({[0%nat := lit "old"]} : gmap nat (list Z)) in Hi.
    apply lookup_singleton_Some in Hi as [<- _]. cbn. lia.
  - split; [discriminate|]. repeat constructor; discriminate.
  - right. exists 0%nat, (lit "old"). split; reflexivity.
Defined.

(** A codec that says nothing, for runs. *)
Definition silent_codec : SavedCodec := {|
  to_vec_pretty _ := Ok []; from_str _ := Ok (mkData [] []); payload_sha256 _ := Ok []; tombstone_sha256 _ := Ok [];
  records_sha256 _ := Ok []; to_rfc3339 t := [t]; parse_from_rfc3339 s := match s with [t] => Ok t | _ => Err [] end |}.

Lemma saved_data_invariant_witness : exists s,
  saved_history (codec := silent_codec) no_fault 7 sample_path true (sample_fs, 0, mkData [sample_forward "f" true 5] []) s
  /\ map pf_id (forwards s.2) = [] /\ map tb_id (tombstones s.2) = [lit "f"] /\ unique s.2.
Proof.
  destruct (perform (codec := silent_codec) no_fault 7 sample_path (DeletePersisted (lit "f") 6) 6
              (sample_fs, 0, mkData [sample_forward "f" true 5] [])) as [[r s]|] eqn:H; [|vm_compute in H; discriminate].
  assert (Hh : saved_history (codec := silent_codec) no_fault 7 sample_path true (sample_fs, 0, mkData [sample_forward "f" true 5] []) s).
  { eapply history_step; [|exact H|]; [exact I|]. apply history_refl. }
  exists s. split; [exact Hh|]. destruct s as [files d]. cbn [perform] in H. unfold delete_persisted_forward in H.
  pose proof H as Hc. apply commit_cases in Hc. split; [|split].
  - destruct Hc as [->|(a & c & Hu & _ & ->)]; [vm_compute in H; discriminate|]. injection Hu as <- <-. reflexivity.
  - destruct Hc as [->|(a & c & Hu & _ & ->)]; [vm_compute in H; discriminate|]. injection Hu as <- <-. reflexivity.
  - apply (saved_data_invariant (codec := silent_codec) no_fault 7 sample_path _ _ _ Hh).
    split; cbn; [apply NoDup_singleton|constructor].
Defined.

(** One device changed f and deleted g; the other changed g earlier and has an
    older f and an h of its own. *)
Definition device_a : SavedForwardData := mkData [sample_forward "f" true 10] [mkTombstone (lit "g") 20].
Definition device_b : SavedForwardData :=
  mkData [sample_forward "f" false 5; sample_forward "g" true 15; sample_forward "h" true 1] [].
Definition sample_owners : gset (list Z) := {[lit "conn"]}.

Lemma device_a_settled : settled sample_owners 100 device_a.
Proof.
  apply settled_lists.
  - split; cbn; [apply NoDup_singleton|apply NoDup_singleton|]. intros i Hi Ht. apply list_elem_of_singleton in Hi, Ht. by subst.
  - constructor; [|constructor]. exists (lit "conn"). split; [done|set_solver].
  - constructor; [|constructor]. vm_compute. done.
Qed.
Lemma device_b_settled : settled sample_owners 100 device_b.
Proof.
  apply settled_lists.
  - split; cbn; [|constructor|intros i _ Hi; inversion Hi]. by apply (bool_decide_eq_true_1 _); vm_compute.
  - repeat constructor; (exists (lit "conn"); split; [done|set_solver]).
  - constructor.
Qed.

Lemma saved_sync_latest_witness : exists snapshot, export_snapshot 30 31 device_a = Ok snapshot
  /\ forall fault process_id path commit_now files r files' d',
       apply_snapshot fault process_id path snapshot sample_owners commit_now (files, device_b) = Some (Ok r, (files', d')) ->
       (forall i, view d' i = (if 0 <? applied r then remembered commit_now else id) (latest (view device_b i) (exported 30 device_a i)))
       /\ (applied r <= 0 -> d' = device_b /\ files' = files).
Proof.
  apply saved_sync_latest.
  - exact (settled_data _ _ _ device_a_settled).
  - exact (settled_data _ _ _ device_b_settled).
  - exact (settled_owners _ _ _ device_a_settled).
Defined.

Lemma saved_sync_converges_witness : exists sa, export_snapshot 30 31 device_a = Ok sa /\ forall fault process_id path files r files' b',
    apply_snapshot fault process_id path sa sample_owners 32 (files, device_b) = Some (Ok r, (files', b')) ->
  exists sb, export_snapshot 33 34 b' = Ok sb /\ forall fault process_id path files r files' a',
    apply_snapshot fault process_id path sb sample_owners 35 (files, device_a) = Some (Ok r, (files', a')) ->
  forall i, synced <$> view a' i = synced <$> view b' i
    /\ synced <$> view b' i = synced <$> latest (view device_b i) (view device_a i).
Proof.
  apply (saved_sync_converges sample_owners 100 device_a device_b 30 31 32 33 34 35); [exact device_a_settled|exact device_b_settled|lia..].
Defined.

(** The exchange itself, over a file system: ids, automatic start, deletions. *)
Definition summary (d : SavedForwardData) :=
  (map (fun f => (pf_id f, pf_auto_start f)) (forwards d), map (fun t => (tb_id t, tb_deleted_at t)) (tombstones d)).
Definition exchange (a b : SavedForwardData) : option (_ * _) :=
  match export_snapshot (codec := silent_codec) 30 31 a with
  | Err _ => None
  | Ok sa =>
      match apply_snapshot (codec := silent_codec) no_fault 7 sample_path sa sample_owners 32 (sample_fs, 0, b) with
      | Some (Ok _, (_, b')) =>
          match export_snapshot (codec := silent_codec) 33 34 b' with
          | Err _ => None
          | Ok sb =>
              match apply_snapshot (codec := silent_codec) no_fault 7 sample_path sb sample_owners 35 (sample_fs, 0, a) with
              | Some (Ok _, (_, a')) => Some (summary a', summary b')
              | _ => None
              end
          end
      | _ => None
      end
  end.
Example exchange_agrees : exchange device_a device_b
  = Some (([(lit "f", true); (lit "h", true)], [(lit "g", 20)]), ([(lit "f", true); (lit "h", true)], [(lit "g", 20)])).
Proof. vm_compute. reflexivity. Qed.

(** Binding a forward to a session counts as a change of it: an edit that
    another device made before, but has not yet sent, is lost. *)
Example session_binding_hides_edit :
  let a := mkData [sample_forward "f" true 10] [] in
  match bind_owned_update (lit "conn") (lit "s2") (fun _ => 20) (mkData [sample_forward "f" false 5] []) with
  | Ok (_, _, b) => exchange a b
  | Err _ => None
  end = Some (([(lit "f", false)], []), ([(lit "f", false)], [])).
Proof. vm_compute. reflexivity. Qed.

(** A record whose payload bears another id than the record: checked under one,
    stored under the other, which was deleted later. *)
Example foreign_payload_id :
  let f := sample_forward "g" true 10 in
  let record := mkSyncRecord (lit "f") [] [10] false (Some (persisted_forward_to_dto (codec := silent_codec) f None)) in
  match apply_snapshot_update (codec := silent_codec) (mkSyncSnapshot [] [] [record]) sample_owners (mkData [] [mkTombstone (lit "g") 20]) with
  | Ok (_, _, d) => summary d
  | Err _ => ([], [])
  end = ([(lit "g", true)], [(lit "g", 20)]).
Proof. vm_compute. reflexivity. Qed.

(** Hearing back what one has sent unbinds the forwards from their sessions. *)
Example echo_unbinds_session :
  match export_snapshot (codec := silent_codec) 30 31 device_a with
  | Ok sa => match apply_snapshot_update (codec := silent_codec) sa sample_owners device_a with
             | Ok (_, _, d) => (map pf_session_id (forwards device_a), map pf_session_id (forwards d))
             | Err _ => ([], [])
             end
  | Err _ => ([], [])
  end = ([lit "s1"], [[]]).
Proof. vm_compute. reflexivity. Qed.
