(* ===== verification/ForwardManager.v ===== *)
(** * The forwards of a session (hapcli-forwarding)

    Model of [manager.rs], [remote.rs], and the starting and stopping of
    [local.rs] and [dynamic.rs]: a manager keeps the active forwards of an SSH
    session by kind, those that were stopped, and the router by which channels
    that the server opens find their local target.

    Its methods are asynchronous: a method runs in sections, and between two
    sections it awaits something of the outside (a listener, the server, the end
    of connections) while other methods run on the same manager.  A [Task] is
    such a method, suspended; its sections are functions on the shared state.
    A [RemoteForward] is owned by the manager's map or by a task and unregisters
    itself when it is dropped: the owned values are in a store, and references
    to them are passed around.

    The listeners' accept loops, the byte bridges and the counters are not part
    of the state; the order in which a hash map is walked, UUIDs and whatever is
    awaited are arguments. *)
From S2P Require Import Prelude Text TrzszBuffer TextOps IpAddr NetProgram SocksServer ForwardModel.
From Stdlib Require Import String.
From stdpp Require Import prelude numbers list gmap.
Open Scope Z_scope.

(** ** The outside *)

Inductive SocketErrorKind := AddrInUse | PermissionDenied | AddrNotAvailable | ConnectionRefused | OtherSocketError.
Record SocketError := mkSocketError { se_kind : SocketErrorKind; se_text : list Z }.
(** Binding may fail, and so may asking for the address that was bound. *)
Inductive ListenError := BindFailed (e : SocketError) | LocalAddrFailed (e : SocketError).

Inductive AwaitOp :=
| BindListener (address : list Z) (port : Z)
| InstallHandler (connection : list Z)
| RequestForward (connection address : list Z) (port : Z)
| CancelForward (connection address : list Z) (port : Z)
| CancelWithin (connection address : list Z) (port : Z)
| JoinListener
| WaitZero
| ProbeRemote (connection host : list Z) (port : Z)
| ProbeLocal (host : list Z) (port : Z).
(** A probe's [None] is its timeout; of a cancellation within a grace period
    only that it is over is used. *)
Definition Awaited (o : AwaitOp) : Type :=
  match o with
  | BindListener _ _ => result ListenError (list Z * Z)
  | InstallHandler _ => result SshTransportError unit
  | RequestForward _ _ _ => result SshTransportError Z
  | CancelForward _ _ _ => result SshTransportError unit
  | CancelWithin _ _ _ => unit
  | JoinListener => unit
  | WaitZero => unit
  | ProbeRemote _ _ _ => option (result SshTransportError unit)
  | ProbeLocal _ _ => option (result SocketError unit)
  end.

(** ** State *)

Inductive ForwardEvent :=
| StatusChanged (forward_id session_id : list Z) (status : ForwardStatus) (error : option (list Z))
| StatsUpdated (forward_id session_id : list Z) (stats : Z * Z * Z * Z).

Abbreviation RemoteForwardKey := (list Z * Z)%type.
Record RemoteForwardTarget := mkTarget {
  rt_connection_id : list Z;
  rt_local_host : list Z;
  rt_local_port : Z;
  rt_owner : nat
}.
Record RemoteForward := mkRemote { rf_rule : ForwardRule; rf_connection : list Z }.

Record ForwardingManager := mkManager {
  m_session_id : list Z;
  m_connection : list Z;
  m_router : gmap RemoteForwardKey RemoteForwardTarget;
  m_local : gmap (list Z) ForwardRule;
  m_remote : gmap (list Z) nat;
  m_dynamic : gmap (list Z) ForwardRule;
  m_stopped : gmap (list Z) ForwardRule;
  m_owned : gmap nat RemoteForward;
  m_next : nat;
  m_events : list ForwardEvent
}.
Definition new_manager (session_id connection : list Z) : ForwardingManager :=
  mkManager session_id connection ∅ ∅ ∅ ∅ ∅ ∅ 0 [].

Definition set_connection v (m : ForwardingManager) := mkManager (m_session_id m) v (m_router m) (m_local m) (m_remote m)
  (m_dynamic m) (m_stopped m) (m_owned m) (m_next m) (m_events m).
Definition set_router v (m : ForwardingManager) := mkManager (m_session_id m) (m_connection m) v (m_local m) (m_remote m)
  (m_dynamic m) (m_stopped m) (m_owned m) (m_next m) (m_events m).
Definition set_local v (m : ForwardingManager) := mkManager (m_session_id m) (m_connection m) (m_router m) v (m_remote m)
  (m_dynamic m) (m_stopped m) (m_owned m) (m_next m) (m_events m).
Definition set_remote v (m : ForwardingManager) := mkManager (m_session_id m) (m_connection m) (m_router m) (m_local m) v
  (m_dynamic m) (m_stopped m) (m_owned m) (m_next m) (m_events m).
Definition set_dynamic v (m : ForwardingManager) := mkManager (m_session_id m) (m_connection m) (m_router m) (m_local m)
  (m_remote m) v (m_stopped m) (m_owned m) (m_next m) (m_events m).
Definition set_stopped v (m : ForwardingManager) := mkManager (m_session_id m) (m_connection m) (m_router m) (m_local m)
  (m_remote m) (m_dynamic m) v (m_owned m) (m_next m) (m_events m).
Definition set_owned v n (m : ForwardingManager) := mkManager (m_session_id m) (m_connection m) (m_router m) (m_local m)
  (m_remote m) (m_dynamic m) (m_stopped m) v n (m_events m).
Definition emit e (m : ForwardingManager) := mkManager (m_session_id m) (m_connection m) (m_router m) (m_local m)
  (m_remote m) (m_dynamic m) (m_stopped m) (m_owned m) (m_next m) (m_events m ++ [e]).

(** ** Tasks *)

Inductive Task (A : Type) :=
| Return (a : A)
| Await (o : AwaitOp) (k : Awaited o -> ForwardingManager -> ForwardingManager * Task A).
Arguments Return {A}. Arguments Await {A}.

(** A method: its first section, and what is left of it. *)
Definition Method (A : Type) : Type := ForwardingManager -> ForwardingManager * Task A.
Definition finish {A} (a : A) : Method A := fun m => (m, Return a).
Definition await (o : AwaitOp) : Method (Awaited o) := fun m => (m, Await o finish).
Definition section {A} (f : ForwardingManager -> ForwardingManager * A) : Method A := fun m => let '(m, a) := f m in (m, Return a).
(** The section so far depends on the state. *)
Definition look {A} (f : ForwardingManager -> Method A) : Method A := fun m => f m m.
Definition change (f : ForwardingManager -> ForwardingManager) : Method unit := fun m => (f m, Return tt).
Fixpoint resume {A B} (t : Task A) (f : A -> Method B) (m : ForwardingManager) : ForwardingManager * Task B :=
  match t with
  | Return a => f a m
  | Await o k => (m, Await o (fun x m => let '(m, t) := k x m in resume t f m))
  end.
Definition and_then {A B} (x : Method A) (f : A -> Method B) : Method B := fun m => let '(m, t) := x m in resume t f m.
Notation "'let+' x := m 'in' k" := (and_then m (fun x => k)) (at level 200, x name, m at level 100, k at level 200).
Notation "'do+' m 'in' k" := (and_then m (fun _ => k)) (at level 200, m at level 100, k at level 200).
Definition Fallible (A : Type) : Type := Method (result ForwardingError A).
Definition and_try {A B} (x : Fallible A) (f : A -> Fallible B) : Fallible B :=
  and_then x (fun r => match r with Ok a => f a | Err e => finish (Err e) end).
Notation "'try+' x := m 'in' k" := (and_try m (fun x => k)) (at level 200, x name, m at level 100, k at level 200).

(** ** Remote forwards *)

Definition key_of (r : ForwardRule) : RemoteForwardKey := (fr_bind_address r, fr_bind_port r).
Definition register (key : RemoteForwardKey) (target : RemoteForwardTarget) (m : ForwardingManager) : ForwardingManager :=
  set_router (<[key := target]> (m_router m)) m.
Definition unregister (key : RemoteForwardKey) (m : ForwardingManager) : ForwardingManager :=
  set_router (delete key (m_router m)) m.
Definition target_for (remote_address : list Z) (remote_port : Z) (connection_id : list Z) (m : ForwardingManager)
    : option RemoteForwardTarget :=
  match m_router m !! (remote_address, remote_port) with
  | Some target => if decide (rt_connection_id target = connection_id) then Some target else None
  | None => None
  end.
(** The [Drop] of a forward. *)
Definition drop_remote (n : nat) (m : ForwardingManager) : ForwardingManager :=
  match m_owned m !! n with
  | Some f => set_owned (delete n (m_owned m)) (m_next m) (unregister (key_of (rf_rule f)) m)
  | None => m
  end.
(** Inserting into the map drops a forward that was there under the id. *)
Definition insert_remote (id : list Z) (n : nat) (m : ForwardingManager) : ForwardingManager :=
  let old := m_remote m !! id in
  let m := set_remote (<[id := n]> (m_remote m)) m in
  match old with Some o => drop_remote o m | None => m end.

(** ** The manager's methods *)

Definition require (b : bool) (message : string) : result ForwardingError unit :=
  if b then Err (InvalidRule (lit message)) else Ok tt.
Definition blank (s : list Z) : bool := bool_decide (trim s = []).
Definition validate_local_rule (rule : ForwardRule) : result ForwardingError unit :=
  let? _ := require (blank (fr_bind_address rule)) "bind address is required" in
  let? _ := require (blank (fr_target_host rule)) "target host is required" in
  require (fr_target_port rule =? 0) "target port is required".
Definition validate_remote_rule (rule : ForwardRule) : result ForwardingError unit :=
  let? _ := require (blank (fr_bind_address rule)) "bind address is required" in
  let? _ := require (blank (fr_target_host rule)) "target host is required" in
  require (fr_target_port rule =? 0) "target port is required".
Definition validate_dynamic_rule (rule : ForwardRule) : result ForwardingError unit :=
  require (blank (fr_bind_address rule)) "bind address is required".

Definition tauri_bind_error (forward_kind bind_address : list Z) (bind_port : Z) (error : SocketError) : ForwardingError :=
  let local_addr := bind_address ++ lit ":" ++ u64_to_string bind_port in
  ForwardConnectionFailed
    (match se_kind error with
     | AddrInUse => lit "Port already in use: " ++ local_addr ++ lit ". Another application may be using this port."
     | PermissionDenied =>
         lit "Permission denied binding to " ++ local_addr ++ lit ". Ports below 1024 require elevated privileges."
     | AddrNotAvailable =>
         lit "Address not available: " ++ local_addr ++ lit ". The specified address is not valid on this system."
     | _ => if decide (forward_kind = lit "dynamic")
            then lit "Failed to bind SOCKS5 proxy to " ++ local_addr ++ lit ": " ++ se_text error
            else lit "Failed to bind to " ++ local_addr ++ lit ": " ++ se_text error
     end).
Definition tauri_local_bind_error := tauri_bind_error (lit "local").
Definition tauri_dynamic_bind_error := tauri_bind_error (lit "dynamic").

Definition has_rule (rule_id : list Z) (m : ForwardingManager) : bool :=
  bool_decide (is_Some (m_local m !! rule_id)) || bool_decide (is_Some (m_dynamic m !! rule_id))
  || bool_decide (is_Some (m_remote m !! rule_id)) || bool_decide (is_Some (m_stopped m !! rule_id)).
Definition emit_status_changed (forward_id : list Z) (status : ForwardStatus) (error : option (list Z)) (m : ForwardingManager)
    : ForwardingManager := emit (StatusChanged forward_id (m_session_id m) status error) m.
Definition emit_stats_updated (forward_id : list Z) (stats : Z * Z * Z * Z) (m : ForwardingManager) : ForwardingManager :=
  emit (StatsUpdated forward_id (m_session_id m) stats) m.

(** [start] of [LocalForward] and [DynamicForward]: the rule with the address
    that was bound. *)
Definition start_listener (rule : ForwardRule) (bind_error : list Z -> Z -> SocketError -> ForwardingError) : Fallible ForwardRule :=
  let+ bound := await (BindListener (fr_bind_address rule) (fr_bind_port rule)) in
  match bound with
  | Err (BindFailed e) => finish (Err (bind_error (fr_bind_address rule) (fr_bind_port rule) e))
  | Err (LocalAddrFailed e) => finish (Err (ForwardIo (se_text e)))
  | Ok (address, port) => finish (Ok (set_status FsActive (set_bound address port rule)))
  end.
Definition local_start (rule : ForwardRule) : Fallible ForwardRule :=
  match validate_local_rule rule with
  | Err e => finish (Err e)
  | Ok _ => start_listener rule tauri_local_bind_error
  end.
Definition dynamic_start (rule : ForwardRule) : Fallible ForwardRule :=
  match validate_dynamic_rule rule with
  | Err e => finish (Err e)
  | Ok _ => start_listener rule tauri_dynamic_bind_error
  end.
(** [LocalForward::stop] and [DynamicForward::stop]. *)
Definition stop_listener (rule : ForwardRule) : Method ForwardRule :=
  do+ await JoinListener in finish (set_status FsStopped rule).

Section Manager.
Context (debug_str to_lowercase : list Z -> list Z) (keys : gset (list Z) -> list (list Z)).

(** [RemoteForward::start]: once the handler is installed, which fails when the
    connection is gone, and the server has agreed, the target is registered
    and the forward exists.  The code does not pause to install the handler;
    others may run there in the model, which only adds interleavings. *)
Definition remote_start (rule : ForwardRule) (connection : list Z) : Fallible nat :=
  match validate_remote_rule rule with
  | Err e => finish (Err e)
  | Ok _ =>
      let+ installed := await (InstallHandler connection) in
      match installed with
      | Err e => finish (Err (from_transport_error debug_str e))
      | Ok _ =>
      let+ r := await (RequestForward connection (fr_bind_address rule) (fr_bind_port rule)) in
      match r with
      | Err e => finish (Err (from_transport_error debug_str e))
      | Ok actual_port => section (fun m =>
          let rule := set_status FsActive (set_bound (fr_bind_address rule) actual_port rule) in
          let n := m_next m in
          let m := register (key_of rule) (mkTarget connection (fr_target_host rule) (fr_target_port rule) n) m in
          (set_owned (<[n := mkRemote rule connection]> (m_owned m)) (S n) m, Ok n))
      end end
  end.
Definition owned_rule (n : nat) (m : ForwardingManager) : option ForwardRule := rf_rule <$> m_owned m !! n.

(** [finish_stop]: unregister, wait, drop. *)
Definition finish_stop (n : nat) (rule : ForwardRule) : Method ForwardRule :=
  do+ change (unregister (key_of rule)) in
  do+ await WaitZero in
  do+ change (drop_remote n) in
  finish (set_status FsStopped rule).
Definition stop_best_effort (n : nat) (f : RemoteForward) : Method ForwardRule :=
  do+ change (unregister (key_of (rf_rule f))) in
  do+ await (CancelWithin (rf_connection f) (fr_bind_address (rf_rule f)) (fr_bind_port (rf_rule f))) in
  finish_stop n (rf_rule f).

Definition create_forward (rule : ForwardRule) : Fallible ForwardRule :=
  let rule := normalize_hosts_for_runtime rule in
  look (fun m =>
    if has_rule (fr_id rule) m then finish (Err (ForwardAlreadyExists (fr_id rule)))
    else
      try+ active_rule :=
         match fr_type rule with
         | FtLocal =>
             try+ active_rule := local_start rule in
             do+ change (fun m => set_local (<[fr_id active_rule := active_rule]> (m_local m)) m) in
             finish (Ok active_rule)
         | FtDynamic =>
             try+ active_rule := dynamic_start rule in
             do+ change (fun m => set_dynamic (<[fr_id active_rule := active_rule]> (m_dynamic m)) m) in
             finish (Ok active_rule)
         | FtRemote =>
             try+ n := remote_start rule (m_connection m) in
             section (fun m =>
               match owned_rule n m with
               | Some active_rule => (insert_remote (fr_id active_rule) n m, Ok active_rule)
               | None => (m, Err (ForwardNotFound (fr_id rule)))
               end)
         end in
      do+ change (emit_status_changed (fr_id active_rule) (fr_status active_rule) None) in
      finish (Ok active_rule)).

(** What is done with a forward that was taken out of the manager. *)
Definition keep_stopped (stopped : ForwardRule) (m : ForwardingManager) : ForwardingManager :=
  set_stopped (<[fr_id stopped := stopped]> (m_stopped m)) m.
(** The common part of [stop_forward] and [delete_forward]: [after] says
    whether the stopped rule is kept. *)
Definition take_down (rule_id : list Z) (after : ForwardRule -> ForwardingManager -> ForwardingManager)
    (otherwise : ForwardingManager -> ForwardingManager * result ForwardingError ForwardRule) : Fallible ForwardRule :=
  let stopped_event stopped m := emit_status_changed (fr_id stopped) (fr_status stopped) None (after stopped m) in
  look (fun m =>
    match m_local m !! rule_id with
    | Some rule =>
        do+ change (fun m => set_local (delete rule_id (m_local m)) m) in
        let+ stopped := stop_listener rule in
        do+ change (stopped_event stopped) in
        finish (Ok stopped)
    | None =>
    match m_dynamic m !! rule_id with
    | Some rule =>
        do+ change (fun m => set_dynamic (delete rule_id (m_dynamic m)) m) in
        let+ stopped := stop_listener rule in
        do+ change (stopped_event stopped) in
        finish (Ok stopped)
    | None =>
    match (n ← m_remote m !! rule_id; f ← m_owned m !! n; Some (n, f)) with
    | Some (n, f) =>
        do+ change (fun m => set_remote (delete rule_id (m_remote m)) m) in
        let+ cancelled := await (CancelForward (rf_connection f) (fr_bind_address (rf_rule f)) (fr_bind_port (rf_rule f))) in
        match cancelled with
        | Err e => do+ change (insert_remote rule_id n) in finish (Err (from_transport_error debug_str e))
        | Ok _ =>
            let+ stopped := finish_stop n (rf_rule f) in
            do+ change (stopped_event stopped) in
            finish (Ok stopped)
        end
    | None => section otherwise
    end end end).
Definition stop_forward (rule_id : list Z) : Fallible ForwardRule :=
  take_down rule_id keep_stopped (fun m => (m, Err (ForwardNotFound rule_id))).
Definition delete_forward (rule_id : list Z) : Fallible unit :=
  try+ _ := take_down rule_id (fun _ m => m)
    (fun m => match m_stopped m !! rule_id with
              | Some rule => (set_stopped (delete rule_id (m_stopped m)) m, Ok rule)
              | None => (m, Err (ForwardNotFound rule_id))
              end) in
  finish (Ok tt).

Definition restart_forward (rule_id : list Z) : Fallible ForwardRule :=
  look (fun m =>
    match m_stopped m !! rule_id with
    | None => finish (Err (ForwardNotFound rule_id))
    | Some rule =>
        do+ change (fun m => set_stopped (delete rule_id (m_stopped m)) m) in
        let+ r := create_forward (set_status FsStarting rule) in
        match r with
        | Ok active => finish (Ok active)
        | Err e => do+ change (keep_stopped (set_status FsStopped rule)) in finish (Err e)
        end
    end).
Definition update_stopped_forward (rule_id : list Z) (update : ForwardUpdate) : Fallible ForwardRule :=
  section (fun m =>
    if bool_decide (is_Some (m_local m !! rule_id)) || bool_decide (is_Some (m_dynamic m !! rule_id))
       || bool_decide (is_Some (m_remote m !! rule_id))
    then (m, Err (ActiveRuleCannotBeEdited rule_id))
    else match m_stopped m !! rule_id with
         | None => (m, Err (ForwardNotFound rule_id))
         | Some rule =>
             let updated := set_status FsStopped (apply_update update rule) in
             (emit_status_changed (fr_id updated) (fr_status updated) None
                (set_stopped (<[rule_id := updated]> (m_stopped m)) m), Ok updated)
         end).

(** The values of a map, in the order in which it is walked. *)
Definition walk_map {A} (m : gmap (list Z) A) : list A := omap (fun k => m !! k) (keys (dom m)).
Definition remote_rules (m : ForwardingManager) : list ForwardRule := omap (fun n => owned_rule n m) (walk_map (m_remote m)).
Definition rule_le (a b : ForwardRule) : bool := str_le (fr_id a) (fr_id b).
Definition list_forwards (m : ForwardingManager) : list ForwardRule :=
  sort_by rule_le (walk_map (m_local m) ++ remote_rules m ++ walk_map (m_dynamic m) ++ walk_map (m_stopped m)).
Definition list_stopped_forwards (m : ForwardingManager) : list ForwardRule := sort_by rule_le (walk_map (m_stopped m)).

Definition get_stats (stats : list Z -> Z * Z * Z * Z) (rule_id : list Z) : Fallible (Z * Z * Z * Z) :=
  section (fun m =>
    if bool_decide (is_Some (m_local m !! rule_id)) || bool_decide (is_Some (m_dynamic m !! rule_id))
       || bool_decide (is_Some (m_remote m !! rule_id))
    then (emit_stats_updated rule_id (stats rule_id) m, Ok (stats rule_id))
    else if bool_decide (is_Some (m_stopped m !! rule_id))
    then (emit_stats_updated rule_id (0, 0, 0, 0) m, Ok (0, 0, 0, 0))
    else (m, Err (ForwardNotFound rule_id))).

(** *** All forwards at once *)

Record ForwardingStopBatch := mkBatch {
  batch_local : list ForwardRule;
  batch_dynamic : list ForwardRule;
  batch_remote : list (nat * RemoteForward)
}.
Definition begin_stop_all (m : ForwardingManager) : ForwardingManager * ForwardingStopBatch :=
  (set_remote ∅ (set_dynamic ∅ (set_local ∅ m)),
   mkBatch (walk_map (m_local m)) (walk_map (m_dynamic m))
     (omap (fun n => pair n <$> m_owned m !! n) (walk_map (m_remote m)))).
Fixpoint for_each {A} (f : A -> Method unit) (l : list A) : Method unit :=
  match l with
  | [] => finish tt
  | x :: l => do+ f x in for_each f l
  end.
Definition stop_batch (b : ForwardingStopBatch) : Method unit :=
  do+ for_each (fun rule => do+ stop_listener rule in finish tt) (batch_local b) in
  do+ for_each (fun rule => do+ stop_listener rule in finish tt) (batch_dynamic b) in
  for_each (fun '(n, f) => do+ stop_best_effort n f in finish tt) (batch_remote b).
Definition stop_all : Method unit :=
  let+ batch := section begin_stop_all in stop_batch batch.

Definition suspend_rule (stopped : ForwardRule) (m : ForwardingManager) : ForwardingManager :=
  emit_status_changed (fr_id stopped) FsSuspended (Some (lit "SSH connection lost")) (keep_stopped (set_status FsSuspended stopped) m).
Fixpoint suspend_each {A} (stop : A -> Method ForwardRule) (l : list A) (suspended : list ForwardRule) : Method (list ForwardRule) :=
  match l with
  | [] => finish suspended
  | x :: l =>
      let+ rule := stop x in
      do+ change (suspend_rule rule) in
      suspend_each stop l (suspended ++ [set_status FsSuspended rule])
  end.
Definition suspend_all_and_save_rules : Method (list ForwardRule) :=
  let+ batch := section begin_stop_all in
  let+ suspended := suspend_each stop_listener (batch_local batch) [] in
  let+ suspended := suspend_each stop_listener (batch_dynamic batch) suspended in
  suspend_each (fun '(n, f) => stop_best_effort n f) (batch_remote batch) suspended.

Fixpoint restore_each (rules : list ForwardRule) (restored : list (result ForwardingError ForwardRule))
    : Method (list (result ForwardingError ForwardRule)) :=
  match rules with
  | [] => finish restored
  | rule :: rules =>
      do+ change (fun m => set_stopped (delete (fr_id rule) (m_stopped m)) m) in
      let restarting := set_status FsStarting rule in
      let+ r := create_forward restarting in
      do+ match r with
          | Ok _ => finish tt
          | Err _ => change (keep_stopped (set_status FsSuspended restarting))
          end in
      restore_each rules (restored ++ [r])
  end.
Definition restore_saved_forwards (ssh_connection : list Z) : Method (list (result ForwardingError ForwardRule)) :=
  let+ rules := section (fun m => (set_connection ssh_connection m, list_stopped_forwards (set_connection ssh_connection m))) in
  restore_each rules [].

(** *** Health checks and shortcuts *)

Definition forwarding_error_text (e : ForwardingError) : list Z :=
  match e with
  | ForwardNotFound id => lit "forward rule not found: " ++ id
  | ForwardAlreadyExists id => lit "forward rule already exists: " ++ id
  | ActiveRuleCannotBeEdited id => lit "forward rule is active and cannot be edited: " ++ id
  | UnsupportedForwardType what => lit "forward type is not implemented in native yet: " ++ what
  | InvalidRule message => lit "invalid forward rule: " ++ message
  | ForwardConnectionFailed message => lit "Connection failed: " ++ message
  | ForwardSsh message => lit "SSH forwarding failed: " ++ message
  | ForwardIo error => lit "I/O forwarding failed: " ++ error
  end.
Definition contains_str (pat s : list Z) : bool := match split_once pat s with Some _ => true | None => false end.
Definition check_port_available (host : list Z) (port timeout_ms : Z) : Fallible bool :=
  look (fun m =>
    if blank host || (port =? 0) then finish (Err (InvalidRule (lit "target host and port are required")))
    else
      let+ check := await (ProbeRemote (m_connection m) host port) in
       match check with
       | Some (Ok _) => finish (Ok true)
       | Some (Err error) =>
           let message := to_lowercase (transport_error_text debug_str error) in
           if contains_str (lit "connection refused") message || contains_str (lit "connect failed") message
              || contains_str (lit "connectfailed") message || contains_str (lit "refused") message
              || contains_str (lit "failed to open channel") message
           then finish (Ok false)
           else finish (Err (ForwardSsh (transport_error_text debug_str error)))
       | None => finish (Err (ForwardSsh
           (lit "Timeout checking port " ++ host ++ lit ":" ++ u64_to_string port ++ lit " (" ++ u64_to_string timeout_ms ++ lit "ms)")))
       end).
Definition check_local_port_available (host : list Z) (port timeout_ms : Z) : Fallible bool :=
  let+ check := await (ProbeLocal host port) in
  match check with
  | Some (Ok _) => finish (Ok true)
  | Some (Err e) => match se_kind e with ConnectionRefused => finish (Ok false) | _ => finish (Err (ForwardIo (se_text e))) end
  | None => finish (Err (ForwardConnectionFailed
      (lit "Timeout checking local port " ++ host ++ lit ":" ++ u64_to_string port ++ lit " (" ++ u64_to_string timeout_ms ++ lit "ms)")))
  end.

(** A bullet of the message, and its line break. *)
Definition bullet : list Z := [8226; 32].
Definition newline : list Z := [10].
Definition build_unreachable_port_error (target_host : list Z) (target_port : Z) : list Z :=
  lit "Target port " ++ target_host ++ lit ":" ++ u64_to_string target_port
  ++ lit " is not reachable. Please ensure the service is running on the remote server." ++ newline ++ newline
  ++ lit "Troubleshooting:" ++ newline
  ++ bullet ++ lit "Check if service is running: ss -tlnp | grep " ++ u64_to_string target_port ++ newline
  ++ bullet ++ lit "Verify the port number is correct" ++ newline
  ++ bullet ++ lit "Try connecting manually: nc -zv " ++ target_host ++ lit " " ++ u64_to_string target_port.
Definition build_health_check_error_message (error : list Z) : list Z :=
  lit "Failed to check port availability: " ++ error ++ newline ++ newline
  ++ lit "You can skip this check with the 'Skip port availability check' option.".
Definition build_unreachable_local_port_error (target_host : list Z) (target_port : Z) : list Z :=
  lit "Local target port " ++ target_host ++ lit ":" ++ u64_to_string target_port
  ++ lit " is not reachable. Please ensure the service is running on this computer.".

Definition create_forward_with_health_check (rule : ForwardRule) (check_health : bool) : Fallible ForwardRule :=
  let rule := normalize_hosts_for_runtime rule in
  let checked (health : Fallible bool) (unreachable : list Z) (failed : list Z -> ForwardingError) :=
    let+ health := health in
    match health with
    | Ok true => create_forward rule
    | Ok false => finish (Err (InvalidRule unreachable))
    | Err error => finish (Err (failed (build_health_check_error_message (forwarding_error_text error))))
    end in
  match check_health, fr_type rule with
  | true, FtLocal =>
      checked (check_port_available (fr_target_host rule) (fr_target_port rule) 3000)
        (build_unreachable_port_error (fr_target_host rule) (fr_target_port rule)) ForwardSsh
  | true, FtRemote =>
      checked (check_local_port_available (fr_target_host rule) (fr_target_port rule) 3000)
        (build_unreachable_local_port_error (fr_target_host rule) (fr_target_port rule)) ForwardConnectionFailed
  | _, _ => create_forward rule
  end.

Definition forward_named (name uuid : list Z) (local_port remote_port : Z) : Fallible ForwardRule :=
  create_forward (set_description (name ++ lit " (" ++ u64_to_string remote_port ++ lit ")")
    (rule_local uuid (lit "127.0.0.1") local_port (lit "localhost") remote_port)).
Definition forward_jupyter := forward_named (lit "Jupyter Notebook").
Definition forward_tensorboard := forward_named (lit "TensorBoard").
Definition forward_vscode := forward_named (lit "VS Code Server").
End Manager.
