(* ===== verification/ForwardRoutes.v ===== *)
(** * Routes of remote forwards

    Whatever methods of a manager run at the same time, and however their
    sections interleave, the router only knows targets of forwards that exist.
    Tasks are given a logic of ownership: [owns t Q H] says that the suspended
    task [t] owns the forwards [H] and will hand over what [Q] says when it
    returns. *)
From S2P Require Import Prelude Text TrzszBuffer TextOps IpAddr NetProgram SocksServer ForwardModel ForwardManager.
From Stdlib Require Import String.
From stdpp Require Import prelude numbers list gmap.
Open Scope Z_scope.

(** ** The invariant *)

Abbreviation Holding := (gmap nat RemoteForward).

(** Each route is that of an existing forward, which bears its address; the map
    refers to existing forwards by their ids. *)
Record routes_ok (m : ForwardingManager) : Prop := {
  route_owner k t : m_router m !! k = Some t -> exists f, m_owned m !! rt_owner t = Some f
    /\ key_of (rf_rule f) = k /\ rt_connection_id t = rf_connection f
    /\ rt_local_host t = fr_target_host (rf_rule f) /\ rt_local_port t = fr_target_port (rf_rule f);
  map_owned id n : m_remote m !! id = Some n -> exists f, m_owned m !! n = Some f /\ fr_id (rf_rule f) = id;
  owned_active n f : m_owned m !! n = Some f -> fr_status (rf_rule f) = FsActive /\ fr_type (rf_rule f) = FtRemote;
  owned_old n f : m_owned m !! n = Some f -> (n < m_next m)%nat
}.
(** A forward that no map entry refers to: a task owns it. *)
Definition floats (m : ForwardingManager) (n : nat) (f : RemoteForward) : Prop :=
  m_owned m !! n = Some f /\ forall id, m_remote m !! id <> Some n.

(** A section turned the holding [H] of its task into [H'] and left what others
    own alone. *)
Definition moves (m : ForwardingManager) (H : Holding) (m' : ForwardingManager) (H' : Holding) : Prop :=
  (forall n f, floats m' n f <-> (floats m n f /\ H !! n = None) \/ H' !! n = Some f)
  /\ forall n f, is_Some (H' !! n) -> floats m n f -> is_Some (H !! n).
Definition held (m : ForwardingManager) (H : Holding) : Prop := forall n f, H !! n = Some f -> floats m n f.

Fixpoint owns {A} (t : Task A) (Q : A -> Holding -> Prop) (H : Holding) : Prop :=
  match t with
  | Return a => Q a H
  | Await o k => forall x m, routes_ok m -> held m H ->
      let '(m', t') := k x m in routes_ok m' /\ exists H', moves m H m' H' /\ owns t' Q H'
  end.
Definition safe_at {A} (x : Method A) (Q : A -> Holding -> Prop) (H : Holding) (m : ForwardingManager) : Prop :=
  let '(m', t) := x m in routes_ok m' /\ exists H', moves m H m' H' /\ owns t Q H'.
Definition safe {A} (x : Method A) (Q : A -> Holding -> Prop) (H : Holding) : Prop :=
  forall m, routes_ok m -> held m H -> safe_at x Q H m.

Lemma moves_refl m H : held m H -> moves m H m H.
Proof.
  intros Hh. split; [|done]. intros n f. split.
  - intros Hf. destruct (H !! n) as [g|] eqn:E; [right|by left]. destruct (Hh n g E) as [Ho _], Hf as [Ho' _]. congruence.
  - intros [[Hf _]|Hf]; [done|by apply Hh].
Qed.
Lemma moves_held m H m' H' : moves m H m' H' -> held m' H'.
Proof. intros [Hm _] n f Hf. apply Hm. by right. Qed.
Lemma moves_trans m H m1 H1 m2 H2 : moves m H m1 H1 -> moves m1 H1 m2 H2 -> moves m H m2 H2.
Proof.
  intros [A1 B1] [A2 B2]. split.
  - intros n f. rewrite A2, A1. split.
    + intros [[[[Hf Hn]|Hf] Hn1]|Hf]; [by left|congruence|by right].
    + intros [[Hf Hn]|Hf]; [|by right]. left. split; [by left|]. destruct (H1 !! n) eqn:E; [|done].
      destruct (B1 n f) as [x Hx]; [by eexists|done|congruence].
  - intros n f Hs Hf. destruct (decide (is_Some (H !! n))) as [|Hn%eq_None_not_Some]; [done|].
    assert (Hf1 : floats m1 n f) by (apply A1; by left). destruct (B2 n f Hs Hf1) as [g Hg]. eapply B1; [by eexists|done].
Qed.

Lemma owns_mono {A} (t : Task A) (Q Q' : A -> Holding -> Prop) : (forall a H, Q a H -> Q' a H) -> forall H, owns t Q H -> owns t Q' H.
Proof.
  intros HQ. revert t. fix IH 1. intros [a|o k] H; cbn; [apply HQ|]. intros Ht x m Hok Hh. specialize (Ht x m Hok Hh).
  destruct (k x m) as [m' t']. destruct Ht as (Hok' & H' & Hm & Ht'). split; [done|]. exists H'. split; [done|]. by apply IH.
Qed.
Lemma owns_resume {A B} (t : Task A) (f : A -> Method B) Q : forall H, owns t (fun a H => safe (f a) Q H) H ->
  forall m, routes_ok m -> held m H ->
  let '(m', t') := resume t f m in routes_ok m' /\ exists H', moves m H m' H' /\ owns t' Q H'.
Proof.
  revert t. fix IH 1. intros [a|o k] H Ht m Hok Hh; cbn [resume]; [by apply Ht|].
  split; [done|]. exists H. split; [by apply moves_refl|]. cbn in Ht |- *. intros x m1 Hok1 Hh1.
  specialize (Ht x m1 Hok1 Hh1). destruct (k x m1) as [m2 t2] eqn:Hk. destruct Ht as (Hok2 & H2 & Hm2 & Ht2).
  pose proof (IH t2 H2 Ht2 m2 Hok2 (moves_held _ _ _ _ Hm2)) as Hr. destruct (resume t2 f m2) as [m3 t3].
  destruct Hr as (Hok3 & H3 & Hm3 & Ht3). split; [done|]. exists H3. split; [by eapply moves_trans|done].
Qed.
Lemma safe_at_bind {A B} (x : Method A) (f : A -> Method B) Q H m : safe_at x (fun a H => safe (f a) Q H) H m -> safe_at (and_then x f) Q H m.
Proof.
  intros Hx. unfold safe_at, and_then in *. destruct (x m) as [m1 t]. destruct Hx as (Hok1 & H1 & Hm1 & Ht).
  pose proof (owns_resume t f Q H1 Ht m1 Hok1 (moves_held _ _ _ _ Hm1)) as Hr. destruct (resume t f m1) as [m2 t2].
  destruct Hr as (Hok2 & H2 & Hm2 & Ht2). split; [done|]. exists H2. split; [by eapply moves_trans|done].
Qed.
Lemma safe_bind {A B} (x : Method A) (f : A -> Method B) Q H : safe x (fun a H => safe (f a) Q H) H -> safe (and_then x f) Q H.
Proof. intros Hx m Hok Hh. by apply safe_at_bind, Hx. Qed.
Lemma safe_mono {A} (x : Method A) (Q Q' : A -> Holding -> Prop) H : (forall a H, Q a H -> Q' a H) -> safe x Q H -> safe x Q' H.
Proof.
  intros HQ Hx m Hok Hh. specialize (Hx m Hok Hh). unfold safe_at in *. destruct (x m) as [m' t]. destruct Hx as (Hok' & H' & Hm & Ht).
  split; [done|]. exists H'. split; [done|]. by eapply owns_mono.
Qed.
Lemma safe_finish {A} (a : A) (Q : A -> Holding -> Prop) H : Q a H -> safe (finish a) Q H.
Proof. intros HQ m Hok Hh. split; [done|]. exists H. split; [by apply moves_refl|done]. Qed.
Lemma safe_await (o : AwaitOp) (Q : Awaited o -> Holding -> Prop) H : (forall x, Q x H) -> safe (await o) Q H.
Proof.
  intros HQ m Hok Hh. split; [done|]. exists H. split; [by apply moves_refl|]. cbn. intros x m1 Hok1 Hh1.
  split; [done|]. exists H. split; [by apply moves_refl|apply HQ].
Qed.
Lemma safe_try {A B} (x : Fallible A) (f : A -> Fallible B) Q H :
  safe x (fun r H => match r with Ok a => safe (f a) Q H | Err e => Q (Err e) H end) H -> safe (and_try x f) Q H.
Proof.
  intros Hx. apply safe_bind. eapply safe_mono; [|exact Hx]. intros [a|e] H'; [done|]. apply safe_finish.
Qed.

(** ** Sections *)

(** Nothing about remote forwards changes. *)
Definition same_routes (m m' : ForwardingManager) : Prop :=
  m_router m' = m_router m /\ m_remote m' = m_remote m /\ m_owned m' = m_owned m /\ m_next m' = m_next m.
Lemma same_routes_ok m m' H : same_routes m m' -> routes_ok m -> held m H -> routes_ok m' /\ moves m H m' H.
Proof.
  intros (Hr & Hm & Ho & Hn) [R1 R2 R3 R4] Hh. split; [split; rewrite ?Hr, ?Hm, ?Ho, ?Hn; done|].
  assert (Hf : forall n f, floats m' n f <-> floats m n f) by (intros n f; unfold floats; by rewrite Ho, Hm).
  destruct (moves_refl m H Hh) as [A B]. split; [intros n f; rewrite Hf; apply A|done].
Qed.
Lemma safe_section {A} (f : ForwardingManager -> ForwardingManager * A) (Q : A -> Holding -> Prop) H :
  (forall m, routes_ok m -> held m H -> routes_ok (f m).1 /\ exists H', moves m H (f m).1 H' /\ Q (f m).2 H') -> safe (section f) Q H.
Proof.
  intros Hf m Hok Hh. specialize (Hf m Hok Hh). unfold safe_at, section. destruct (f m) as [m' a]. exact Hf.
Qed.
Lemma safe_change f (Q : unit -> Holding -> Prop) H :
  (forall m, routes_ok m -> held m H -> routes_ok (f m) /\ exists H', moves m H (f m) H' /\ Q tt H') -> safe (change f) Q H.
Proof. intros Hf m Hok Hh. exact (Hf m Hok Hh). Qed.
Lemma safe_same f (Q : unit -> Holding -> Prop) H : (forall m, same_routes m (f m)) -> Q tt H -> safe (change f) Q H.
Proof.
  intros Hf HQ. apply safe_change. intros m Hok Hh. destruct (same_routes_ok m (f m) H (Hf m) Hok Hh). split; [done|by exists H].
Qed.

Lemma unregister_ok k m H : routes_ok m -> held m H -> routes_ok (unregister k m) /\ moves m H (unregister k m) H.
Proof.
  intros [R1 R2 R3 R4] Hh. split; [split; cbn; [|done..]|].
  - intros k' t. rewrite lookup_delete_Some. intros [_ Ht]. by apply R1.
  - by apply (moves_refl m H).
Qed.
(** A new forward, with its route. *)
Lemma start_ok rule connection m H (n := m_next m) (f := mkRemote rule connection)
    (m' := set_owned (<[n := f]> (m_owned m)) (S n)
             (register (key_of rule) (mkTarget connection (fr_target_host rule) (fr_target_port rule) n) m)) :
  fr_status rule = FsActive -> fr_type rule = FtRemote -> routes_ok m -> held m H ->
  routes_ok m' /\ H !! n = None /\ moves m H m' (<[n := f]> H).
Proof.
  intros Hs Ht [R1 R2 R3 R4] Hh.
  assert (Hnew : m_owned m !! n = None).
  { destruct (m_owned m !! n) as [g|] eqn:E; [|done]. apply R4 in E. subst n. lia. }
  assert (HHn : H !! n = None).
  { destruct (H !! n) as [g|] eqn:E; [|done]. destruct (Hh n g E). congruence. }
  assert (Hremote : forall id, m_remote m !! id <> Some n) by (intros id Hid; destruct (R2 id n Hid) as (g & Hg & _); congruence).
  split; [split; cbn|split; [done|split]].
  - intros k t. rewrite lookup_insert_Some. intros [[<- <-]|[Hne Hk]].
    + exists f. cbn. by rewrite lookup_insert_eq.
    + destruct (R1 k t Hk) as (g & Hg & Hrest). exists g. split; [|done]. rewrite lookup_insert_ne; [done|congruence].
  - intros id n' Hid. destruct (R2 id n' Hid) as (g & Hg & Hi). exists g. split; [|done]. rewrite lookup_insert_ne; [done|congruence].
  - intros n' g. rewrite lookup_insert_Some. intros [[<- <-]|[_ Hg]]; [done|by apply (R3 n')].
  - intros n' g. rewrite lookup_insert_Some. intros [[<- <-]|[_ Hg]]; [lia|]. apply R4 in Hg. lia.
  - intros n' g. unfold floats. cbn. rewrite !lookup_insert_Some. destruct (moves_refl m H Hh) as [A _]. specialize (A n' g).
    unfold floats in A. destruct (decide (n = n')) as [<-|Hne].
    + split; [intros [[[_ <-]|[? ?]] _]; [right; by left|done]|]. intros [[[? _] _]|[[_ <-]|[? ?]]]; [congruence| |done]. split; [by left|done].
    + split.
      * intros [[[? _]|[_ Hg]] Hr]; [done|]. destruct (proj1 A (conj Hg Hr)) as [?|?]; [by left|right; by right].
      * intros [[[Hg Hr] _]|[[? _]|[_ Hg]]]; [|done|]; [split; [by right|done]|]. destruct (proj2 A (or_intror Hg)) as [? ?]. split; [by right|done].
  - intros n' g [x Hx] [Hg _]. apply lookup_insert_Some in Hx as [[<- _]|[_ Hx]]; [congruence|by eexists].
Qed.
(** Taking a forward out of the map. *)
Lemma take_ok id n f m H : routes_ok m -> held m H -> m_remote m !! id = Some n -> m_owned m !! n = Some f ->
  routes_ok (set_remote (delete id (m_remote m)) m) /\ H !! n = None /\ moves m H (set_remote (delete id (m_remote m)) m) (<[n := f]> H).
Proof.
  intros [R1 R2 R3 R4] Hh Hid Hf.
  assert (HHn : H !! n = None).
  { destruct (H !! n) as [g|] eqn:E; [|done]. destruct (Hh n g E) as [_ Hno]. by destruct (Hno id). }
  split; [split; cbn; [done| |done..]|].
  { intros id' n'. rewrite lookup_delete_Some. intros [_ H']. by apply R2. }
  split; [done|]. split.
  - intros n' g. unfold floats. cbn. destruct (moves_refl m H Hh) as [A _]. specialize (A n' g). unfold floats in A.
    destruct (decide (n = n')) as [<-|Hne].
    + rewrite lookup_insert_eq. split; [intros [Hg _]; right; congruence|]. intros [[[_ Hno] _]|[= <-]]; [by destruct (Hno id)|].
      split; [done|]. intros id'. rewrite lookup_delete_Some. intros [Hne Hid']. apply Hne.
      destruct (R2 id n Hid) as (x & Hx & <-), (R2 id' n Hid') as (y & Hy & <-). congruence.
    + rewrite lookup_insert_ne by done. split.
      * intros [Hg Hno]. apply A. split; [done|]. intros id' Hid'. apply (Hno id'). rewrite lookup_delete_Some. split; [|done].
        intros <-. congruence.
      * intros Hx. apply A in Hx as [Hg Hno]. split; [done|]. intros id'. rewrite lookup_delete_Some. intros [_ ?]. by apply (Hno id').
  - intros n' g [x Hx] [_ Hno]. apply lookup_insert_Some in Hx as [[<- _]|[_ Hx]]; [by destruct (Hno id)|by eexists].
Qed.
(** Dropping a forward, and with it the route at its address. *)
Lemma drop_ok n f m H : routes_ok m -> held m H -> H !! n = Some f ->
  routes_ok (drop_remote n m) /\ moves m H (drop_remote n m) (delete n H).
Proof.
  intros Hok Hh Hn. destruct (Hh n f Hn) as [Hf Hno]. destruct Hok as [R1 R2 R3 R4]. unfold drop_remote. rewrite Hf.
  split; [split; cbn|split].
  - intros k t. rewrite lookup_delete_Some. intros [Hk Ht]. destruct (R1 k t Ht) as (g & Hg & Hkey & Hrest). exists g.
    split; [|done]. rewrite lookup_delete_ne; [done|]. intros ->. rewrite Hf in Hg. injection Hg as ->. done.
  - intros id n' Hid. destruct (R2 id n' Hid) as (g & Hg & Hi). exists g. split; [|done]. rewrite lookup_delete_ne; [done|].
    intros ->. by apply (Hno id).
  - intros n' g. rewrite lookup_delete_Some. intros [_ Hg]. by apply (R3 n').
  - intros n' g. rewrite lookup_delete_Some. intros [_ Hg]. by apply (R4 n' g).
  - intros n' g. unfold floats. cbn. destruct (moves_refl m H Hh) as [A _]. specialize (A n' g). unfold floats in A.
    rewrite !lookup_delete_Some. destruct (decide (n = n')) as [<-|Hne].
    + split; [by intros [[? _] _]|]. intros [[_ ?]|[? _]]; [congruence|done].
    + split; [intros [[_ Hg] Hr]; destruct (proj1 A (conj Hg Hr)); [by left|right; done]|].
      intros Hx. assert (Hx' : m_owned m !! n' = Some g /\ forall id, m_remote m !! id <> Some n') by (apply A; naive_solver).
      naive_solver.
  - intros n' g [x Hx] _. apply lookup_delete_Some in Hx as [_ Hx]. by eexists.
Qed.
(** Giving a forward to the map under a free id. *)
Lemma put_ok id n f m H : routes_ok m -> held m H -> H !! n = Some f -> fr_id (rf_rule f) = id -> m_remote m !! id = None ->
  routes_ok (set_remote (<[id := n]> (m_remote m)) m) /\ moves m H (set_remote (<[id := n]> (m_remote m)) m) (delete n H).
Proof.
  intros [R1 R2 R3 R4] Hh Hn Hid Hnone. destruct (Hh n f Hn) as [Hf Hno]. split; [split; cbn; [done| |done..]|split].
  - intros i k. rewrite lookup_insert_Some. intros [[<- <-]|[_ Hk]]; [by exists f|by apply R2].
  - intros n' g. unfold floats. cbn. destruct (moves_refl m H Hh) as [A _]. specialize (A n' g). unfold floats in A.
    rewrite lookup_delete_Some. destruct (decide (n = n')) as [<-|Hne].
    + split; [intros [_ Hx]; destruct (Hx id); by rewrite lookup_insert_eq|]. intros [[_ ?]|[? _]]; [congruence|done].
    + split.
      * intros [Hg Hx]. destruct (proj1 A) as [?|?]; [split; [done|]|by left|by right].
        intros i Hi. apply (Hx i). rewrite lookup_insert_ne; [done|]. intros <-. congruence.
      * intros Hx. assert (Hx' : m_owned m !! n' = Some g /\ forall id, m_remote m !! id <> Some n') by (apply A; naive_solver).
        destruct Hx' as [Hg Hx']. split; [done|]. intros i. rewrite lookup_insert_Some. intros [[_ ?]|[_ ?]]; [done|by apply (Hx' i)].
  - intros n' g [x Hx] _. apply lookup_delete_Some in Hx as [_ Hx]. by eexists.
Qed.
(** If the id is taken by now, the forward that has it is dropped. *)
Lemma insert_ok id n f m H : routes_ok m -> held m H -> H !! n = Some f -> fr_id (rf_rule f) = id ->
  routes_ok (insert_remote id n m) /\ moves m H (insert_remote id n m) (delete n H).
Proof.
  intros Hok Hh Hn Hid. unfold insert_remote. destruct (m_remote m !! id) as [o|] eqn:Ho; [|by eapply put_ok].
  destruct (map_owned m Hok id o Ho) as (g & Hg & _). destruct (take_ok id o g m H Hok Hh Ho Hg) as (Hok1 & HHo & Hm1).
  assert (o <> n) as Hne by (intros ->; destruct (Hh n f Hn) as [_ Hno]; by destruct (Hno id)).
  destruct (put_ok id n f _ _ Hok1 (moves_held _ _ _ _ Hm1)) as [Hok2 Hm2];
    [by rewrite lookup_insert_ne|done|cbn; apply lookup_delete_eq|]. cbn in Hok2, Hm2. rewrite insert_delete_eq in Hok2, Hm2.
  destruct (drop_ok o g _ _ Hok2 (moves_held _ _ _ _ Hm2)) as [Hok3 Hm3]; [by rewrite lookup_delete_ne, lookup_insert_eq|].
  split; [exact Hok3|]. replace (delete n H) with (delete o (delete n (<[o := g]> H))).
  - eapply moves_trans; [exact Hm1|]. eapply moves_trans; [exact Hm2|exact Hm3].
  - rewrite delete_delete, delete_insert_id by done. done.
Qed.

(** ** Methods *)

(** A method that leaves its caller's holding as it was. *)
Definition neutral {A} (x : Method A) : Prop := forall H, safe x (fun _ H' => H' = H) H.

Lemma neutral_finish {A} (a : A) : neutral (finish a).
Proof. intros H. by apply safe_finish. Qed.
Lemma neutral_await o : neutral (await o).
Proof. intros H. by apply safe_await. Qed.
Lemma neutral_bind {A B} (x : Method A) (f : A -> Method B) : neutral x -> (forall a, neutral (f a)) -> neutral (and_then x f).
Proof. intros Hx Hf H. apply safe_bind. eapply safe_mono; [|apply Hx]. intros a H' ->. apply Hf. Qed.
Lemma neutral_try {A B} (x : Fallible A) (f : A -> Fallible B) : neutral x -> (forall a, neutral (f a)) -> neutral (and_try x f).
Proof. intros Hx Hf. apply neutral_bind; [done|]. intros [a|e]; [apply Hf|apply neutral_finish]. Qed.
Lemma neutral_change f : (forall m, same_routes m (f m)) -> neutral (change f).
Proof. intros Hf H. by apply safe_same. Qed.
Lemma neutral_section {A} (f : ForwardingManager -> ForwardingManager * A) : (forall m, same_routes m (f m).1) -> neutral (section f).
Proof.
  intros Hf H. apply safe_section. intros m Hok Hh. destruct (same_routes_ok m (f m).1 H (Hf m) Hok Hh). split; [done|by exists H].
Qed.
Lemma neutral_look {A} (f : ForwardingManager -> Method A) : (forall m, neutral (f m)) -> neutral (look f).
Proof. intros Hf H m Hok Hh. exact (Hf m H m Hok Hh). Qed.
Lemma neutral_here {A} (x : Method A) H m : neutral x -> routes_ok m -> held m H -> safe_at x (fun _ H' => H' = H) H m.
Proof. intros Hx Hok Hh. by apply Hx. Qed.
Create HintDb routes.
#[export] Hint Resolve neutral_finish neutral_await : routes.
#[export] Hint Extern 1 (same_routes _ _) => (split_and!; reflexivity) : routes.
(** Go through a method that touches no remote forward. *)
Ltac neutral_step :=
  lazymatch goal with
  | |- neutral (and_try _ _) => apply neutral_try; [|intros ?]
  | |- neutral (and_then _ _) => apply neutral_bind; [|intros ?]
  | |- neutral (look _) => apply neutral_look; intros ?
  | |- neutral (change _) => apply neutral_change; intros ?; split_and!; reflexivity
  | |- neutral (section _) => apply neutral_section; intros ?
  | |- neutral (match _ with _ => _ end) => case_match
  | |- neutral _ => solve [auto 2 with routes]
  end.

Lemma stop_listener_neutral rule : neutral (stop_listener rule).
Proof. unfold stop_listener. repeat neutral_step. Qed.
Lemma start_listener_neutral rule e : neutral (start_listener rule e).
Proof. unfold start_listener. repeat neutral_step. Qed.
Lemma local_start_neutral rule : neutral (local_start rule).
Proof. unfold local_start. case_match; [apply start_listener_neutral|apply neutral_finish]. Qed.
Lemma dynamic_start_neutral rule : neutral (dynamic_start rule).
Proof. unfold dynamic_start. case_match; [apply start_listener_neutral|apply neutral_finish]. Qed.
#[export] Hint Resolve stop_listener_neutral local_start_neutral dynamic_start_neutral : routes.

Section Routes.
Context (debug_str to_lowercase : list Z -> list Z) (keys : gset (list Z) -> list (list Z)).

Lemma remote_start_safe rule connection H : fr_type rule = FtRemote ->
  safe (remote_start debug_str rule connection) (fun r H' =>
    match r with
    | Ok n => exists f, H !! n = None /\ H' = <[n := f]> H /\ fr_id (rf_rule f) = fr_id rule
    | Err _ => H' = H
    end) H.
Proof.
  intros Ht. unfold remote_start. case_match; [|by apply safe_finish]. apply safe_bind, safe_await. intros [[]|e]; [|by apply safe_finish].
  apply safe_bind, safe_await. intros [port|e]; [|by apply safe_finish].
  apply safe_section. intros m Hok Hh. cbv zeta. set (r := set_status _ _).
  destruct (start_ok r connection m H) as (Hok' & Hn & Hm); [done..|]. split; [exact Hok'|].
  exists (<[m_next m := mkRemote r connection]> H). split; [exact Hm|]. by exists (mkRemote r connection).
Qed.
Lemma finish_stop_safe n f H : H !! n = Some f -> safe (finish_stop n (rf_rule f)) (fun _ H' => H' = delete n H) H.
Proof.
  intros Hn. unfold finish_stop. apply safe_bind, safe_change. intros m Hok Hh.
  destruct (unregister_ok (key_of (rf_rule f)) m H Hok Hh) as [Hok1 Hm1]. split; [done|]. exists H. split; [done|].
  apply safe_bind, safe_await. intros _. apply safe_bind, safe_change. intros m2 Hok2 Hh2.
  destruct (drop_ok n f m2 H Hok2 Hh2 Hn) as [Hok3 Hm3]. split; [done|]. eexists. split; [done|]. by apply safe_finish.
Qed.
Lemma stop_best_effort_safe n f H : H !! n = Some f -> safe (stop_best_effort n f) (fun _ H' => H' = delete n H) H.
Proof.
  intros Hn. unfold stop_best_effort. apply safe_bind, safe_change. intros m Hok Hh.
  destruct (unregister_ok (key_of (rf_rule f)) m H Hok Hh) as [Hok1 Hm1]. split; [done|]. exists H. split; [done|].
  apply safe_bind, safe_await. intros _. by apply finish_stop_safe.
Qed.

Lemma create_forward_neutral rule : neutral (create_forward debug_str rule).
Proof.
  unfold create_forward. set (r := normalize_hosts_for_runtime rule). apply neutral_look. intros m.
  destruct (has_rule _ m); [auto with routes|]. apply neutral_try; [|intros ?; repeat neutral_step].
  destruct (fr_type r) eqn:Ht; [repeat neutral_step| |repeat neutral_step].
  intros H. apply safe_try. eapply safe_mono; [|by apply remote_start_safe]. intros [n|e] H'; [|done]. intros (f & Hn & -> & Hid).
  apply safe_section. intros m1 Hok Hh. destruct (Hh n f) as [Hf Hno]; [apply lookup_insert_eq|].
  unfold owned_rule. rewrite Hf. cbn [fmap option_fmap option_map fst snd].
  destruct (insert_ok (fr_id (rf_rule f)) n f m1 _ Hok Hh) as [Hok' Hm]; [apply lookup_insert_eq|done|]. split; [done|].
  exists H. rewrite delete_insert_id in Hm by done. done.
Qed.
Lemma take_down_neutral rule_id after otherwise :
  (forall r m, same_routes m (after r m)) -> (forall m, same_routes m (otherwise m).1) -> neutral (take_down debug_str rule_id after otherwise).
Proof.
  intros Ha Ho. unfold take_down. cbv zeta.
  assert (Hend : forall r, neutral (do+ change (fun m => emit_status_changed (fr_id r) (fr_status r) None (after r m)) in
    finish (Ok (E := ForwardingError) r))).
  { intros r. apply neutral_bind; [|auto with routes]. apply neutral_change. intros m. exact (Ha r m). }
  intros H m Hok Hh. change (safe_at (look ?f) ?Q H m) with (safe_at (f m) Q H m). cbv beta.
  destruct (m_local m !! rule_id) as [rule|].
  { apply neutral_here; [|done..]. apply neutral_bind; [neutral_step|intros ?]. apply neutral_bind; [neutral_step|done]. }
  destruct (m_dynamic m !! rule_id) as [rule|].
  { apply neutral_here; [|done..]. apply neutral_bind; [neutral_step|intros ?]. apply neutral_bind; [neutral_step|done]. }
  destruct (m_remote m !! rule_id) as [n|] eqn:Hid; cbn [mbind option_bind]; [|by apply neutral_section].
  destruct (map_owned m Hok rule_id n Hid) as (f & Hf & Hfid). rewrite Hf. cbn [mbind option_bind].
  destruct (take_ok rule_id n f m H Hok Hh Hid Hf) as (Hok1 & Hn & Hm1).
  apply safe_at_bind. split; [done|]. exists (<[n := f]> H). split; [done|]. apply safe_bind, safe_await. intros [[]|e].
  - apply safe_bind. eapply safe_mono; [|apply finish_stop_safe, lookup_insert_eq]. intros r H' ->. rewrite delete_insert_id by done. apply Hend.
  - apply safe_bind, safe_change. intros m2 Hok2 Hh2. destruct (insert_ok rule_id n f m2 _ Hok2 Hh2) as [Hok3 Hm3];
      [apply lookup_insert_eq|done|]. rewrite delete_insert_id in Hm3 by done. split; [done|]. exists H. split; [done|]. by apply safe_finish.
Qed.
#[local] Hint Resolve create_forward_neutral : routes.

Lemma stop_forward_neutral id : neutral (stop_forward debug_str id).
Proof. apply take_down_neutral; intros; split_and!; reflexivity. Qed.
Lemma delete_forward_neutral id : neutral (delete_forward debug_str id).
Proof.
  apply neutral_try; [|auto with routes]. apply take_down_neutral; intros; [split_and!; reflexivity|].
  destruct (m_stopped m !! id); split_and!; reflexivity.
Qed.
Lemma restart_forward_neutral id : neutral (restart_forward debug_str id).
Proof. unfold restart_forward. repeat neutral_step. Qed.
Lemma update_stopped_neutral id u : neutral (update_stopped_forward id u).
Proof. unfold update_stopped_forward. neutral_step. repeat case_match; split_and!; reflexivity. Qed.
Lemma get_stats_neutral stats id : neutral (get_stats stats id).
Proof. unfold get_stats. neutral_step. repeat case_match; split_and!; reflexivity. Qed.
Lemma health_check_neutral rule b : neutral (create_forward_with_health_check debug_str to_lowercase rule b).
Proof.
  unfold create_forward_with_health_check, check_port_available, check_local_port_available. cbv zeta. repeat neutral_step.
Qed.
Lemma restore_neutral conn : neutral (restore_saved_forwards debug_str keys conn).
Proof.
  unfold restore_saved_forwards. apply neutral_bind; [apply neutral_section; intros; split_and!; reflexivity|]. intros rules.
  generalize ([] : list (result ForwardingError ForwardRule)). induction rules as [|rule rules IH]; intros l; cbn [restore_each]; [auto with routes|].
  apply neutral_bind; [neutral_step|intros _]. cbv zeta. apply neutral_bind; [neutral_step|intros r]. apply neutral_bind; [repeat neutral_step|done].
Qed.

(** *** All forwards at once *)

(** A hash map is walked in some order. *)
Hypothesis keys_perm : forall s, keys s ≡ₚ elements s.

Lemma walk_map_elem {A} (m : gmap (list Z) A) x : x ∈ walk_map keys m <-> exists k, m !! k = Some x.
Proof.
  unfold walk_map. rewrite list_elem_of_omap. split.
  - intros (k & _ & Hk). by exists k.
  - intros (k & Hk). exists k. split; [|done]. rewrite keys_perm, elem_of_elements. by eapply elem_of_dom_2.
Qed.
Lemma walk_map_NoDup {A} (m : gmap (list Z) A) : (forall i j x, m !! i = Some x -> m !! j = Some x -> i = j) -> NoDup (walk_map keys m).
Proof.
  intros Hinj. unfold walk_map. assert (Hnd : NoDup (keys (dom m))) by (rewrite keys_perm; apply NoDup_elements).
  induction (keys (dom m)) as [|k ks IH]; [constructor|]. apply NoDup_cons in Hnd as [Hk Hnd]. cbn.
  destruct (m !! k) as [x|] eqn:E; [|by apply IH]. constructor; [|by apply IH]. rewrite list_elem_of_omap.
  intros (k' & Hk' & E'). by rewrite (Hinj k k' x) in Hk.
Qed.

(** The forwards of a batch, and what is left of a holding without them. *)
Definition batch_holding (l : list (nat * RemoteForward)) (H : Holding) : Holding := list_to_map l ∪ H.
Lemma batch_next n f l H : NoDup (n :: l.*1) -> (forall k, k ∈ n :: l.*1 -> H !! k = None) ->
  batch_holding ((n, f) :: l) H !! n = Some f /\ delete n (batch_holding ((n, f) :: l) H) = batch_holding l H.
Proof.
  intros Hnd Hfree. apply NoDup_cons in Hnd as [Hn Hnd]. unfold batch_holding. rewrite list_to_map_cons. split.
  - by rewrite lookup_union, lookup_insert_eq, union_Some_l.
  - rewrite delete_union, delete_insert_id by (by apply not_elem_of_list_to_map_1). by rewrite (delete_id H) by (apply Hfree; set_solver).
Qed.
Lemma begin_stop_all_ok m H : routes_ok m -> held m H ->
  let '(m', batch) := begin_stop_all keys m in let l := batch_remote batch in
  routes_ok m' /\ NoDup l.*1 /\ (forall k, k ∈ l.*1 -> H !! k = None) /\ moves m H m' (batch_holding l H).
Proof.
  intros Hok Hh. cbn. set (l := omap _ _).
  assert (Hl : forall n f, (n, f) ∈ l <-> m_owned m !! n = Some f /\ exists id, m_remote m !! id = Some n).
  { intros n f. unfold l. rewrite list_elem_of_omap. setoid_rewrite walk_map_elem. split.
    - intros (n' & Hid & Hx). destruct (m_owned m !! n') as [g|] eqn:E; [|done]. cbn in Hx. by injection Hx as <- <-.
    - intros [Hf Hid]. exists n. split; [done|]. by rewrite Hf. }
  assert (Hfst : forall k, k ∈ l.*1 -> exists f, (k, f) ∈ l).
  { intros k Hk. apply list_elem_of_fmap in Hk as ([k' f] & -> & Hin). by exists f. }
  assert (Hnd : NoDup l.*1).
  { assert (Hsub : l.*1 `sublist_of` walk_map keys (m_remote m)).
    { unfold l. generalize (walk_map keys (m_remote m)) as ns. induction ns as [|n ns IH]; [constructor|]. cbn.
      destruct (m_owned m !! n); cbn; by constructor. }
    eapply sublist_NoDup; [|exact Hsub]. apply walk_map_NoDup. intros i j n Hi Hj.
    destruct (map_owned m Hok i n Hi) as (f & Hf & <-), (map_owned m Hok j n Hj) as (g & Hg & <-). congruence. }
  assert (Hfree : forall k, k ∈ l.*1 -> H !! k = None).
  { intros k Hk. destruct (Hfst k Hk) as [f Hin]. apply Hl in Hin as [_ [id Hid]]. destruct (H !! k) as [g|] eqn:E; [|done].
    destruct (Hh k g E) as [_ Hno]. by destruct (Hno id). }
  split; [|split; [done|split; [done|split]]].
  - destruct Hok as [R1 R2 R3 R4]. split; cbn; [done| |done..]. intros id n. by rewrite lookup_empty.
  - intros n f. unfold floats. cbn. unfold batch_holding. rewrite lookup_union_Some_raw, <-elem_of_list_to_map, Hl, <-not_elem_of_list_to_map by done.
    destruct (moves_refl m H Hh) as [A _]. specialize (A n f). unfold floats in A. split.
    + intros [Hf _]. destruct (decide (n ∈ l.*1)) as [Hin|Hni].
      * right. left. destruct (Hfst n Hin) as [g Hg]. by apply Hl in Hg as [_ Hg].
      * destruct (proj1 A) as [?|?]; [split; [done|]|by left|right; by right]. intros id Hid. apply Hni.
        apply list_elem_of_fmap. exists (n, f). split; [done|]. apply Hl. split; [done|by exists id].
    + intros [[[Hf _] _]|[[Hf _]|[_ HHn]]]; [split; [done|]|split; [done|]|destruct (Hh n f HHn); split; [done|]]; intros id; by rewrite lookup_empty.
  - intros n f [x Hx] [_ Hno]. unfold batch_holding in Hx. apply lookup_union_Some_raw in Hx as [Hx|[_ Hx]]; [|by eexists].
    apply elem_of_list_to_map in Hx; [|done]. apply Hl in Hx as [_ [id Hid]]. by destruct (Hno id).
Qed.

Lemma for_each_neutral {A} (f : A -> Method unit) l : (forall x, neutral (f x)) -> neutral (for_each f l).
Proof. intros Hf. induction l as [|x l IH]; cbn [for_each]; [auto with routes|]. by apply neutral_bind. Qed.
Lemma suspend_neutral {A} (stop : A -> Method ForwardRule) l acc : (forall x, neutral (stop x)) -> neutral (suspend_each stop l acc).
Proof.
  intros Hf. revert acc. induction l as [|x l IH]; intros acc; cbn [suspend_each]; [auto with routes|].
  apply neutral_bind; [done|intros r]. apply neutral_bind; [neutral_step|done].
Qed.
(** Stopping the remote forwards of a batch one by one. *)
Lemma stop_remotes_safe l H : NoDup l.*1 -> (forall k, k ∈ l.*1 -> H !! k = None) ->
  safe (for_each (fun '(n, f) => do+ stop_best_effort n f in finish tt) l) (fun _ H' => H' = H) (batch_holding l H).
Proof.
  induction l as [|[n f] l IH]; intros Hnd Hfree; cbn [for_each].
  { apply safe_finish. unfold batch_holding. cbn. apply map_empty_union. }
  destruct (batch_next n f l H Hnd Hfree) as [Hn Hd]. cbn in Hnd. apply NoDup_cons in Hnd as [_ Hnd].
  apply safe_bind, safe_bind. eapply safe_mono; [|by apply stop_best_effort_safe]. intros r H' ->. apply safe_finish. rewrite Hd.
  apply IH; [done|]. intros k Hk. apply Hfree. cbn. by right.
Qed.
Lemma suspend_remotes_safe l H acc : NoDup l.*1 -> (forall k, k ∈ l.*1 -> H !! k = None) ->
  safe (suspend_each (fun '(n, f) => stop_best_effort n f) l acc) (fun _ H' => H' = H) (batch_holding l H).
Proof.
  revert acc. induction l as [|[n f] l IH]; intros acc Hnd Hfree; cbn [suspend_each].
  { apply safe_finish. unfold batch_holding. cbn. apply map_empty_union. }
  destruct (batch_next n f l H Hnd Hfree) as [Hn Hd]. cbn in Hnd. apply NoDup_cons in Hnd as [_ Hnd].
  apply safe_bind. eapply safe_mono; [|by apply stop_best_effort_safe]. intros r H' ->. rewrite Hd.
  apply safe_bind, safe_same; [intros; split_and!; reflexivity|]. apply IH; [done|]. intros k Hk. apply Hfree. cbn. by right.
Qed.
(** What begins with [begin_stop_all]. *)
Lemma neutral_batch {A} (f : ForwardingStopBatch -> Method A) :
  (forall batch H, NoDup (batch_remote batch).*1 -> (forall k, k ∈ (batch_remote batch).*1 -> H !! k = None) ->
     safe (f batch) (fun _ H' => H' = H) (batch_holding (batch_remote batch) H)) ->
  neutral (let+ batch := section (begin_stop_all keys) in f batch).
Proof.
  intros Hf H. apply safe_bind, safe_section. intros m Hok Hh. pose proof (begin_stop_all_ok m H Hok Hh) as Hb.
  destruct (begin_stop_all keys m) as [m' batch]. destruct Hb as (Hok' & Hnd & Hfree & Hm). cbn [fst snd]. split; [done|].
  eexists. split; [done|]. by apply Hf.
Qed.
Lemma stop_all_neutral : neutral (stop_all keys).
Proof.
  apply neutral_batch. intros batch H Hnd Hfree. unfold stop_batch.
  apply safe_bind. eapply safe_mono; [|apply for_each_neutral; intros; repeat neutral_step]. intros ? H' ->.
  apply safe_bind. eapply safe_mono; [|apply for_each_neutral; intros; repeat neutral_step]. intros ? H' ->. by apply stop_remotes_safe.
Qed.
Lemma suspend_all_neutral : neutral (suspend_all_and_save_rules keys).
Proof.
  apply neutral_batch. intros batch H Hnd Hfree.
  apply safe_bind. eapply safe_mono; [|apply suspend_neutral; auto with routes]. intros ? H' ->.
  apply safe_bind. eapply safe_mono; [|apply suspend_neutral; auto with routes]. intros ? H' ->. by apply suspend_remotes_safe.
Qed.

(** ** The manager with the tasks that run on it *)

Inductive Call :=
| CallCreate (rule : ForwardRule)
| CallCreateChecked (rule : ForwardRule) (check_health : bool)
| CallStop (id : list Z)
| CallRestart (id : list Z)
| CallDelete (id : list Z)
| CallUpdate (id : list Z) (update : ForwardUpdate)
| CallStats (id : list Z) (stats : list Z -> Z * Z * Z * Z)
| CallStopAll
| CallSuspendAll
| CallRestore (connection : list Z)
| CallReplaceConnection (connection : list Z).
Definition forget {A} (x : Method A) : Method unit := do+ x in finish tt.
Definition call (c : Call) : Method unit :=
  match c with
  | CallCreate rule => forget (create_forward debug_str rule)
  | CallCreateChecked rule check_health => forget (create_forward_with_health_check debug_str to_lowercase rule check_health)
  | CallStop id => forget (stop_forward debug_str id)
  | CallRestart id => forget (restart_forward debug_str id)
  | CallDelete id => forget (delete_forward debug_str id)
  | CallUpdate id update => forget (update_stopped_forward id update)
  | CallStats id stats => forget (get_stats stats id)
  | CallStopAll => stop_all keys
  | CallSuspendAll => forget (suspend_all_and_save_rules keys)
  | CallRestore connection => forget (restore_saved_forwards debug_str keys connection)
  | CallReplaceConnection connection => change (set_connection connection)
  end.
Lemma call_neutral c : neutral (call c).
Proof.
  assert (Hf : forall A (x : Method A), neutral x -> neutral (forget x)) by (intros; apply neutral_bind; [done|auto with routes]).
  destruct c; cbn [call]; try apply Hf; auto using create_forward_neutral, health_check_neutral, stop_forward_neutral,
    restart_forward_neutral, delete_forward_neutral, update_stopped_neutral, get_stats_neutral, stop_all_neutral, suspend_all_neutral,
    restore_neutral. neutral_step.
Qed.

Definition System : Type := ForwardingManager * list (Task unit).
(** A method is called, or a task goes on with what it awaited. *)
Inductive system_step : System -> System -> Prop :=
| step_call m ts c m' t : call c m = (m', t) -> system_step (m, ts) (m', ts ++ [t])
| step_resume m ts i o k x m' t : ts !! i = Some (Await o k) -> k x m = (m', t) -> system_step (m, ts) (m', <[i := t]> ts).
Inductive reachable (session_id connection : list Z) : System -> Prop :=
| reach_start : reachable session_id connection (new_manager session_id connection, [])
| reach_step s s' : reachable session_id connection s -> system_step s s' -> reachable session_id connection s'.
Definition returned (t : Task unit) : bool := match t with Return _ => true | Await _ _ => false end.

(** Every forward outside the map has one task that owns it. *)
Record system_ok (s : System) : Prop := {
  sys_routes : routes_ok s.1;
  sys_holdings : exists Hs : list Holding,
    Forall2 (fun t H => owns t (fun _ H' => H' = ∅) H) s.2 Hs
    /\ (forall n f, floats s.1 n f <-> exists i H, Hs !! i = Some H /\ H !! n = Some f)
    /\ forall i j H H' n, Hs !! i = Some H -> Hs !! j = Some H' -> is_Some (H !! n) -> is_Some (H' !! n) -> i = j
}.

Lemma system_call m ts c m' t : system_ok (m, ts) -> call c m = (m', t) -> system_ok (m', ts ++ [t]).
Proof.
  intros [Hok (Hs & Hall & Hfl & Hdis)] Hc. cbn [fst snd] in *.
  pose proof (call_neutral c ∅ m Hok) as Hsafe. unfold safe_at in Hsafe. rewrite Hc in Hsafe.
  destruct Hsafe as (Hok' & H' & [Hm Hnew] & Ht); [intros n f; by rewrite lookup_empty|]. split; [done|]. cbn [fst snd].
  exists (Hs ++ [H']). split; [apply Forall2_app; [done|by constructor]|]. split.
  - intros n f. rewrite Hm, Hfl, lookup_empty. split.
    + intros [[(i & H & Hi & HH) _]|HH]; [exists i, H|exists (length Hs), H'].
      * split; [by apply lookup_app_l_Some|done].
      * split; [|done]. rewrite lookup_app_r, Nat.sub_diag by done. done.
    + intros (i & H & Hi & HH). apply lookup_app_Some in Hi as [Hi|[_ Hi]]; [left; split; [by exists i, H|done]|].
      apply list_lookup_singleton_Some in Hi as [_ <-]. by right.
  - assert (Hcross : forall i H n, Hs !! i = Some H -> is_Some (H !! n) -> is_Some (H' !! n) -> False).
    { intros i H n Hi [g Hg] Hn. assert (Hf : floats m n g) by (apply Hfl; by exists i, H).
      destruct (Hnew n g Hn Hf) as [x Hx]. by rewrite lookup_empty in Hx. }
    intros i j H H2 n Hi Hj Hn Hn2. apply lookup_app_Some in Hi as [Hi|[Hli Hi]]; apply lookup_app_Some in Hj as [Hj|[Hlj Hj]].
    + by eapply Hdis.
    + apply list_lookup_singleton_Some in Hj as [_ <-]. by destruct (Hcross i H n).
    + apply list_lookup_singleton_Some in Hi as [_ <-]. by destruct (Hcross j H2 n).
    + apply list_lookup_singleton_Some in Hi as [Hi _], Hj as [Hj _]. lia.
Qed.
Lemma system_resume m ts i o k x m' t : system_ok (m, ts) -> ts !! i = Some (Await o k) -> k x m = (m', t) ->
  system_ok (m', <[i := t]> ts).
Proof.
  intros [Hok (Hs & Hall & Hfl & Hdis)] Hi Hk. cbn [fst snd] in *.
  destruct (Forall2_lookup_l _ _ _ _ _ Hall Hi) as (H & HiH & Ho). cbn [owns] in Ho. specialize (Ho x m Hok). rewrite Hk in Ho.
  destruct Ho as (Hok' & H' & [Hm Hnew] & Ht); [intros n f HH; apply Hfl; by exists i, H|]. split; [done|]. cbn [fst snd].
  exists (<[i := H']> Hs). split; [by apply Forall2_insert|].
  assert (Hlt : (i < length Hs)%nat) by (by eapply lookup_lt_Some).
  assert (Hother : forall j H2 n, j <> i -> Hs !! j = Some H2 -> is_Some (H2 !! n) -> H !! n = None /\ H' !! n = None).
  { intros j H2 n Hne Hj Hn. assert (HH : H !! n = None).
    { destruct (H !! n) as [g|] eqn:E; [|done]. exfalso. apply Hne. eapply Hdis; [done..|by eexists]. }
    split; [done|]. destruct (H' !! n) as [g'|] eqn:E'; [|done]. exfalso. destruct Hn as [g Hg].
    assert (Hf : floats m n g) by (apply Hfl; by exists j, H2). destruct (Hnew n g) as [y Hy]; [by eexists|done|congruence]. }
  split.
  - intros n f. rewrite Hm, Hfl. split.
    + intros [[(j & H2 & Hj & HH) HHn]|HH].
      * exists j, H2. split; [|done]. rewrite list_lookup_insert_ne; [done|]. intros <-. congruence.
      * exists i, H'. split; [|done]. by rewrite list_lookup_insert_eq.
    + intros (j & H2 & Hj & HH). apply list_lookup_insert_Some in Hj as [(-> & <- & _)|[Hne Hj]]; [by right|]. left.
      split; [by exists j, H2|]. eapply Hother; [by apply not_eq_sym|done|by eexists].
  - intros j1 j2 H1 H2 n Hj1 Hj2 Hn1 Hn2.
    apply list_lookup_insert_Some in Hj1 as [(-> & <- & _)|[Hne1 Hj1]]; apply list_lookup_insert_Some in Hj2 as [(-> & <- & _)|[Hne2 Hj2]]; [done| | |].
    + destruct (Hother j2 H2 n (not_eq_sym Hne2) Hj2 Hn2) as [_ E]. rewrite E in Hn1. by destruct Hn1.
    + destruct (Hother j1 H1 n (not_eq_sym Hne1) Hj1 Hn1) as [_ E]. rewrite E in Hn2. by destruct Hn2.
    + by eapply Hdis.
Qed.
Lemma reachable_ok session_id connection s : reachable session_id connection s -> system_ok s.
Proof.
  induction 1 as [|s s' _ IH Hstep].
  - split; cbn.
    + split; cbn; intros *; by rewrite lookup_empty.
    + exists []. split; [constructor|]. split; [|by intros]. intros n f. unfold floats. cbn. rewrite lookup_empty. split; [by intros []|].
      by intros (i & H & Hi & _).
  - destruct Hstep; [by eapply system_call|by eapply system_resume].
Qed.
(** When no task runs, every forward is in the map. *)
Lemma idle_in_map s n f : system_ok s -> forallb returned s.2 = true -> m_owned s.1 !! n = Some f -> m_remote s.1 !! fr_id (rf_rule f) = Some n.
Proof.
  intros [Hok (Hs & Hall & Hfl & _)] Hret Hf. destruct (decide (map_Exists (fun _ n' => n' = n) (m_remote s.1))) as [(id & n' & Hid & ->)|Hno].
  - destruct (map_owned _ Hok id n Hid) as (g & Hg & Hgid). congruence.
  - exfalso. destruct (proj1 (Hfl n f)) as (i & H & Hi & HH).
    { split; [done|]. intros id Hid. apply Hno. by exists id, n. }
    destruct (Forall2_lookup_r _ _ _ _ _ Hall Hi) as (t & Ht & Ho). rewrite forallb_forall in Hret.
    assert (Hr : returned t = true) by (apply Hret; by eapply list_elem_of_In, list_elem_of_lookup_2).
    destruct t; [|done]. cbn in Ho. subst. by rewrite lookup_empty in HH.
Qed.
End Routes.

(** C20: a channel that the server opens is led only to the target of a remote
    forward that exists, on the connection that forward was requested on, at the
    address it was granted; and once every method has returned, the
    forward is one that the manager lists as active.  This holds however the
    methods of the manager are interleaved, fail, and wait: a forward that was
    stopped, deleted, suspended or replaced leaves no route behind. *)
Theorem remote_routes_live debug_str to_lowercase keys session_id connection s address port conn target :
  (forall x, keys x ≡ₚ elements x) -> reachable debug_str to_lowercase keys session_id connection s ->
  target_for address port conn s.1 = Some target ->
  exists n f, m_owned s.1 !! n = Some f /\ rf_connection f = conn
    /\ fr_bind_address (rf_rule f) = address /\ fr_bind_port (rf_rule f) = port
    /\ fr_target_host (rf_rule f) = rt_local_host target /\ fr_target_port (rf_rule f) = rt_local_port target
    /\ fr_type (rf_rule f) = FtRemote /\ fr_status (rf_rule f) = FsActive
    /\ (forallb returned s.2 = true -> m_remote s.1 !! fr_id (rf_rule f) = Some n).
Proof.
  intros Hkeys Hr Ht. pose proof (reachable_ok debug_str to_lowercase keys Hkeys _ _ _ Hr) as Hsys.
  unfold target_for in Ht. destruct (m_router s.1 !! (address, port)) as [t|] eqn:Hroute; [|done].
  case_decide as Hconn; [|done]. injection Ht as ->. pose proof (sys_routes _ Hsys) as Hok.
  destruct (route_owner _ Hok _ _ Hroute) as (f & Hf & Hkey & Hc & Hh & Hp). destruct (owned_active _ Hok _ _ Hf) as [Hs Hty].
  unfold key_of in Hkey. injection Hkey as Ha Hpo. exists (rt_owner target), f. rewrite <-Hconn. repeat split; try done.
  intros Hidle. by apply idle_in_map.
Qed.

(** ** Runs *)

Definition granting (o : AwaitOp) : Awaited o :=
  match o with
  | BindListener address port => Ok (address, port)
  | InstallHandler _ => Ok tt
  | RequestForward _ _ port => Ok port
  | CancelForward _ _ _ => Ok tt
  | ProbeRemote _ _ _ | ProbeLocal _ _ => Some (Ok tt)
  | CancelWithin _ _ _ | JoinListener | WaitZero => tt
  end.
(** Call a method, or let task [i] go on. *)
Definition drive (a : Call + nat) (s : System) : System :=
  match a with
  | inl c => let '(m, t) := call id id elements c s.1 in (m, s.2 ++ [t])
  | inr i => match s.2 !! i with
             | Some (Await o k) => let '(m, t) := k (granting o) s.1 in (m, <[i := t]> s.2)
             | _ => s
             end
  end.
Definition drive_all (l : list (Call + nat)) (s : System) : System := fold_left (fun s a => drive a s) l s.
Lemma drive_reachable session_id connection l : forall s, reachable id id elements session_id connection s ->
  reachable id id elements session_id connection (drive_all l s).
Proof.
  induction l as [|a l IH]; intros s Hs; [done|]. cbn. apply IH. destruct s as [m ts], a as [c|i]; cbn.
  - destruct (call id id elements c m) as [m' t] eqn:Hc. eapply reach_step; [done|by econstructor].
  - destruct (ts !! i) as [[|o k]|] eqn:Hi; [done| |done]. destruct (k (granting o) m) as [m' t] eqn:Hk.
    eapply reach_step; [done|by econstructor].
Qed.

Definition remote_rule (id : string) (target_port : Z) : ForwardRule :=
  rule_remote (lit id) (lit "localhost") 9000 (lit "127.0.0.1") target_port.
Definition fresh_system : System := (new_manager (lit "s") (lit "c"), []).

Lemma remote_routes_live_witness : exists n f,
  let s := drive_all [inl (CallCreate (remote_rule "a" 80)); inr 0%nat; inr 0%nat] fresh_system in
  m_owned s.1 !! n = Some f /\ rf_connection f = lit "c"
  /\ fr_bind_address (rf_rule f) = lit "localhost" /\ fr_bind_port (rf_rule f) = 9000
  /\ fr_target_host (rf_rule f) = lit "127.0.0.1" /\ fr_target_port (rf_rule f) = 80
  /\ fr_type (rf_rule f) = FtRemote /\ fr_status (rf_rule f) = FsActive
  /\ (forallb returned s.2 = true -> m_remote s.1 !! fr_id (rf_rule f) = Some n).
Proof.
  apply (remote_routes_live id id elements (lit "s") (lit "c")
           (drive_all [inl (CallCreate (remote_rule "a" 80)); inr 0%nat; inr 0%nat] fresh_system) (lit "localhost") 9000 (lit "c")
           (mkTarget (lit "c") (lit "127.0.0.1") 80 0)).
  - intros x. reflexivity.
  - apply drive_reachable. apply reach_start.
  - vm_compute. reflexivity.
Defined.

(** The forward a is being stopped: the server has cancelled it and it waits for
    its connections to end.  Meanwhile b is created at the same address.  When
    the wait is over, a unregisters the address a second time: b is listed as
    active and gets no connection. *)
Example second_forward_loses_route :
  let s := drive_all [inl (CallCreate (remote_rule "a" 80)); inr 0%nat; inr 0%nat; inl (CallStop (lit "a")); inr 1%nat;
                      inl (CallCreate (remote_rule "b" 81)); inr 2%nat; inr 2%nat] fresh_system in
  let s' := drive (inr 1%nat) s in
  (rt_local_port <$> target_for (lit "localhost") 9000 (lit "c") s.1, map fr_id (remote_rules elements s'.1),
   forallb returned s'.2, target_for (lit "localhost") 9000 (lit "c") s'.1)
  = (Some 81, [lit "b"], true, None).
Proof. vm_compute. reflexivity. Qed.

(** A rule that the user stopped is started again with those that were
    suspended when the connection was lost. *)
Example stopped_rule_restarts :
  let s := drive_all [inl (CallCreate (remote_rule "a" 80)); inr 0%nat; inr 0%nat; inl (CallStop (lit "a")); inr 1%nat; inr 1%nat] fresh_system in
  let s' := drive_all [inl CallSuspendAll; inl (CallRestore (lit "c2")); inr 3%nat; inr 3%nat] s in
  (map fr_id (remote_rules elements s.1), map fr_id (remote_rules elements s'.1)) = ([], [lit "a"]).
Proof. vm_compute. reflexivity. Qed.

(** While a forward is being stopped it is nowhere: deleting it then fails, and
    it stays. *)
Example delete_during_stop :
  let s := drive_all [inl (CallCreate (remote_rule "a" 80)); inr 0%nat; inr 0%nat; inl (CallStop (lit "a")); inl (CallDelete (lit "a"));
                      inr 1%nat; inr 1%nat] fresh_system in
  (forallb returned s.2, map fr_id (list_forwards elements s.1)) = (true, [lit "a"]).
Proof. vm_compute. reflexivity. Qed.
