(* ===== verification/ForwardReconnect.v ===== *)
(** * Losing a connection and getting it back

    The methods of a manager run one after the other, whatever the listeners and
    the server answer: every rule is kept in one place, and what a lost
    connection suspends, the next one restores. *)
From S2P Require Import Prelude Text TrzszBuffer TextOps IpAddr NetProgram SocksServer ForwardModel ForwardManager ForwardRoutes.
From Stdlib Require Import String.
From stdpp Require Import prelude numbers list gmap.
Open Scope Z_scope.

(** ** A logic for undisturbed tasks *)

(** Whatever is awaited gives, the task returns with [Q]. *)
Fixpoint returns {A} (t : Task A) (Q : A -> ForwardingManager -> Prop) (m : ForwardingManager) : Prop :=
  match t with
  | Return a => Q a m
  | Await o k => forall x, let '(m, t) := k x m in returns t Q m
  end.
Definition always {A} (x : Method A) (Q : A -> ForwardingManager -> Prop) (m : ForwardingManager) : Prop :=
  let '(m, t) := x m in returns t Q m.

Lemma returns_mono {A} (t : Task A) (P Q : A -> ForwardingManager -> Prop) : (forall a m, P a m -> Q a m) ->
  forall m, returns t P m -> returns t Q m.
Proof.
  intros HPQ. revert t. fix IH 1. intros [a|o k] m; cbn; [apply HPQ|]. intros Ht x. specialize (Ht x). destruct (k x m). by apply IH.
Qed.
Lemma returns_and {A} (t : Task A) (P Q : A -> ForwardingManager -> Prop) :
  forall m, returns t P m -> returns t Q m -> returns t (fun a m => P a m /\ Q a m) m.
Proof.
  revert t. fix IH 1. intros [a|o k] m; cbn; [done|]. intros HP HQ x. specialize (HP x). specialize (HQ x). destruct (k x m). by apply IH.
Qed.
Lemma returns_resume {A B} (t : Task A) (f : A -> Method B) Q :
  forall m, returns t (fun a m => always (f a) Q m) m -> let '(m, t) := resume t f m in returns t Q m.
Proof.
  revert t. fix IH 1. intros [a|o k] m; cbn; [done|]. intros Ht x. specialize (Ht x). destruct (k x m). by apply IH.
Qed.
Lemma always_mono {A} (x : Method A) (P Q : A -> ForwardingManager -> Prop) m : (forall a m, P a m -> Q a m) -> always x P m -> always x Q m.
Proof. intros HPQ. unfold always. destruct (x m). by apply returns_mono. Qed.
Lemma always_and {A} (x : Method A) (P Q : A -> ForwardingManager -> Prop) m :
  always x P m -> always x Q m -> always x (fun a m => P a m /\ Q a m) m.
Proof. unfold always. destruct (x m). apply returns_and. Qed.
Lemma always_bind {A B} (x : Method A) (f : A -> Method B) Q m : always x (fun a m => always (f a) Q m) m -> always (and_then x f) Q m.
Proof. unfold always, and_then. destruct (x m) as [m1 t]. apply returns_resume. Qed.
Lemma always_try {A B} (x : Fallible A) (f : A -> Fallible B) Q m :
  always x (fun r m => match r with Ok a => always (f a) Q m | Err e => Q (Err e) m end) m -> always (and_try x f) Q m.
Proof. intros Hx. apply always_bind. eapply always_mono; [|exact Hx]. by intros [a|e] m'. Qed.
Lemma always_await o (Q : Awaited o -> ForwardingManager -> Prop) m : (forall x, Q x m) -> always (await o) Q m.
Proof. done. Qed.
Lemma always_section {A} (f : ForwardingManager -> ForwardingManager * A) (Q : A -> ForwardingManager -> Prop) m : Q (f m).2 (f m).1 -> always (section f) Q m.
Proof. unfold always, section. by destruct (f m). Qed.
Lemma always_change f (Q : unit -> ForwardingManager -> Prop) m : Q tt (f m) -> always (change f) Q m.
Proof. done. Qed.
Lemma always_look {A} (f : ForwardingManager -> Method A) Q m : always (f m) Q m -> always (look f) Q m.
Proof. done. Qed.
(** What ownership gives, undisturbed. *)
Lemma owns_returns {A} (t : Task A) Q : forall m H, routes_ok m -> held m H -> owns t Q H ->
  returns t (fun a m' => routes_ok m' /\ exists H', moves m H m' H' /\ Q a H') m.
Proof.
  revert t. fix IH 1. intros [a|o k] m H Hok Hh; cbn; intros Ho.
  - split; [done|]. exists H. split; [by apply moves_refl|done].
  - intros x. specialize (Ho x m Hok Hh). destruct (k x m) as [m1 t1]. destruct Ho as (Hok1 & H1 & Hm1 & Ht1).
    eapply returns_mono; [|apply (IH t1 m1 H1 Hok1 (moves_held _ _ _ _ Hm1) Ht1)]. intros a m2 (Hok2 & H2 & Hm2 & HQ).
    split; [done|]. exists H2. split; [by eapply moves_trans|done].
Qed.

(** Every forward is in the map: no task holds one. *)
Definition idle (m : ForwardingManager) : Prop := routes_ok m /\ forall n f, ~ floats m n f.
Lemma neutral_always {A} (x : Method A) m : neutral x -> idle m -> always x (fun _ m' => idle m') m.
Proof.
  intros Hx [Hok Hno]. assert (Hh : held m ∅) by (intros n f Hn; by rewrite lookup_empty in Hn).
  specialize (Hx ∅ m Hok Hh). unfold safe_at, always in *. destruct (x m) as [m1 t]. destruct Hx as (Hok1 & H1 & Hm1 & Ht).
  eapply returns_mono; [|exact (owns_returns t _ m1 H1 Hok1 (moves_held _ _ _ _ Hm1) Ht)].
  intros a m2 (Hok2 & H2 & Hm2 & ->). split; [done|]. intros n f Hf. destruct (moves_trans _ _ _ _ _ _ Hm1 Hm2) as [Hall _].
  apply Hall in Hf as [[Hf _]|Hf]; [by apply (Hno n f)|]. by rewrite lookup_empty in Hf.
Qed.

(** ** Each rule in one place *)

Definition count_at {A} (m : gmap (list Z) A) (id : list Z) : nat := match m !! id with Some _ => 1 | None => 0 end.
Definition places (m : ForwardingManager) (id : list Z) : nat :=
  count_at (m_local m) id + count_at (m_dynamic m) id + count_at (m_remote m) id + count_at (m_stopped m) id.
Definition active_rule (m : ForwardingManager) (id : list Z) : option ForwardRule :=
  match m_local m !! id with
  | Some r => Some r
  | None => match m_dynamic m !! id with
            | Some r => Some r
            | None => n ← m_remote m !! id; owned_rule n m
            end
  end.
Record maps_ok (m : ForwardingManager) : Prop := {
  in_local id r : m_local m !! id = Some r -> fr_id r = id;
  in_dynamic id r : m_dynamic m !! id = Some r -> fr_id r = id;
  in_stopped id r : m_stopped m !! id = Some r -> fr_id r = id;
  in_one id : (places m id <= 1)%nat
}.

Lemma count_insert {A} (m : gmap (list Z) A) k v id : count_at (<[k := v]> m) id = if decide (k = id) then 1%nat else count_at m id.
Proof. unfold count_at. rewrite lookup_insert. by case_decide. Qed.
Lemma count_delete {A} (m : gmap (list Z) A) k id : count_at (delete k m) id = if decide (k = id) then 0%nat else count_at m id.
Proof. unfold count_at. rewrite lookup_delete. by case_decide. Qed.
Lemma count_empty {A} id : count_at (∅ : gmap (list Z) A) id = 0%nat.
Proof. done. Qed.
Lemma has_rule_places id m : has_rule id m = false -> places m id = 0%nat.
Proof.
  unfold has_rule, places, count_at. rewrite !orb_false_iff, !bool_decide_eq_false. intros [[[H1 H2] H3] H4].
  destruct (m_local m !! id), (m_dynamic m !! id), (m_remote m !! id), (m_stopped m !! id); try done; exfalso;
    (by apply H1) || (by apply H2) || (by apply H3) || (by apply H4).
Qed.
#[export] Hint Rewrite @count_insert @count_delete @count_empty : places.

(** The maps, where the routes and the events do not matter. *)
Definition same_maps (m m' : ForwardingManager) : Prop :=
  m_connection m' = m_connection m /\ m_local m' = m_local m /\ m_dynamic m' = m_dynamic m /\ m_remote m' = m_remote m
  /\ m_stopped m' = m_stopped m.
Lemma same_maps_ok m m' : same_maps m m' -> maps_ok m -> maps_ok m'.
Proof. intros (_ & Hl & Hd & Hr & Hs) [A B C D]. split; unfold places; rewrite ?Hl, ?Hd, ?Hr, ?Hs; done. Qed.
Lemma same_maps_trans m m1 m2 : same_maps m m1 -> same_maps m1 m2 -> same_maps m m2.
Proof. unfold same_maps. intros (? & ? & ? & ? & ?) (? & ? & ? & ? & ?). split_and!; congruence. Qed.

(** What a rule becomes once it runs. *)
Definition running (rule active : ForwardRule) : Prop :=
  exists address port, active = set_status FsActive (set_bound address port (normalize_hosts_for_runtime rule)).
Lemma running_id rule active : running rule active -> fr_id active = fr_id rule /\ fr_type active = fr_type rule.
Proof. intros (a & p & ->). unfold normalize_hosts_for_runtime. by case_decide. Qed.

(** Where a new forward goes. *)
Definition created (active : ForwardRule) (m m' : ForwardingManager) : Prop :=
  match fr_type active with
  | FtLocal => m' = emit_status_changed (fr_id active) FsActive None (set_local (<[fr_id active := active]> (m_local m)) m)
  | FtDynamic => m' = emit_status_changed (fr_id active) FsActive None (set_dynamic (<[fr_id active := active]> (m_dynamic m)) m)
  | FtRemote =>
      let n := m_next m in
      m' = emit_status_changed (fr_id active) FsActive None
             (set_remote (<[fr_id active := n]> (m_remote m))
               (set_owned (<[n := mkRemote active (m_connection m)]> (m_owned m)) (S n)
                 (register (key_of active) (mkTarget (m_connection m) (fr_target_host active) (fr_target_port active) n) m)))
  end.

Lemma start_listener_always rule e m :
  always (start_listener rule e) (fun r m' => m' = m /\ match r with Ok a => exists x p, a = set_status FsActive (set_bound x p rule) | Err _ => True end) m.
Proof. apply always_bind, always_await. intros [[x p]|[err|err]]; cbn; [|done..]. split; [done|]. by exists x, p. Qed.
Lemma local_start_always rule m :
  always (local_start rule) (fun r m' => m' = m /\ match r with Ok a => exists x p, a = set_status FsActive (set_bound x p rule) | Err _ => True end) m.
Proof. unfold local_start. case_match; [apply start_listener_always|done]. Qed.
Lemma dynamic_start_always rule m :
  always (dynamic_start rule) (fun r m' => m' = m /\ match r with Ok a => exists x p, a = set_status FsActive (set_bound x p rule) | Err _ => True end) m.
Proof. unfold dynamic_start. case_match; [apply start_listener_always|done]. Qed.

Section Reconnect.
Context (debug_str to_lowercase : list Z -> list Z) (keys : gset (list Z) -> list (list Z)).

(** A creation gives the forward its place or changes nothing. *)
Lemma create_forward_always rule m :
  always (create_forward debug_str rule) (fun r m' =>
    match r with
    | Ok active => running rule active /\ places m (fr_id rule) = 0%nat /\ created active m m'
    | Err _ => m' = m
    end) m.
Proof.
  unfold create_forward. cbv zeta. set (r := normalize_hosts_for_runtime rule).
  assert (Hid : fr_id r = fr_id rule) by (subst r; unfold normalize_hosts_for_runtime; by case_decide).
  apply always_look. destruct (has_rule (fr_id r) m) eqn:Hhas; [done|].
  apply has_rule_places in Hhas. rewrite Hid in Hhas. apply always_try. destruct (fr_type r) eqn:Hty.
  - apply always_try. eapply always_mono; [|apply local_start_always]. intros [a|e] m1 [-> Ha]; [|done]. destruct Ha as (x & p & ->).
    split; [by exists x, p|]. split; [done|]. unfold created. cbn [fr_type set_status set_bound]. by rewrite Hty.
  - apply always_try. unfold remote_start. case_match; [|done]. apply always_bind, always_await. intros [[]|e]; [|done].
    apply always_bind, always_await. intros [port|e]; [|done].
    apply always_section. cbn [fst snd]. apply always_section. unfold owned_rule. cbn. rewrite lookup_insert_eq. cbn. split; [by exists (fr_bind_address r), port|]. split; [done|].
    unfold created. cbn [fr_type set_status set_bound]. rewrite Hty. unfold insert_remote. cbn.
    destruct (m_remote m !! fr_id r) eqn:E; [|done]. exfalso. revert Hhas. unfold places, count_at. rewrite <-Hid, E.
    repeat case_match; lia.
  - apply always_try. eapply always_mono; [|apply dynamic_start_always]. intros [a|e] m1 [-> Ha]; [|done]. destruct Ha as (x & p & ->).
    split; [by exists x, p|]. split; [done|]. unfold created. cbn [fr_type set_status set_bound]. by rewrite Hty.
Qed.
Lemma created_maps active m m' : places m (fr_id active) = 0%nat -> maps_ok m -> created active m m' -> maps_ok m'.
Proof.
  intros H0 [A B C D] Hc. unfold created in Hc. destruct (fr_type active); subst m'; (split; cbn;
    [..|intros id; specialize (D id); unfold places in *; cbn; autorewrite with places; case_decide; subst; lia]); try done;
    intros id x Hx; apply lookup_insert_Some in Hx as [[<- <-]|[_ Hx]]; auto.
Qed.

(** *** Stopping *)

Lemma drop_remote_maps n m : same_maps m (drop_remote n m).
Proof. unfold drop_remote. by destruct (m_owned m !! n). Qed.
Lemma finish_stop_always n rule m : always (finish_stop n rule) (fun r m' => r = set_status FsStopped rule /\ same_maps m m') m.
Proof. split; [done|]. apply (drop_remote_maps n (unregister (key_of rule) m)). Qed.
Lemma stop_best_effort_always n f m :
  always (stop_best_effort n f) (fun r m' => r = set_status FsStopped (rf_rule f) /\ same_maps m m') m.
Proof.
  apply always_bind, always_change, always_bind, always_await. intros _.
  exact (finish_stop_always n (rf_rule f) (unregister (key_of (rf_rule f)) m)).
Qed.

(** Taking a rule out of a map makes room for it elsewhere. *)
Lemma taken_local id r m : maps_ok m -> m_local m !! id = Some r ->
  fr_id r = id /\ maps_ok (set_local (delete id (m_local m)) m) /\ places (set_local (delete id (m_local m)) m) id = 0%nat.
Proof.
  intros [A B C D] Hr. pose proof (D id) as Hid. split; [by apply A|]. unfold places, count_at in Hid. rewrite Hr in Hid. split.
  - split; cbn; [|done..|].
    + intros i x Hx. apply lookup_delete_Some in Hx as [_ Hx]. by apply A.
    + intros i. specialize (D i). unfold places in *. cbn. autorewrite with places. case_decide; lia.
  - unfold places. cbn. autorewrite with places. rewrite decide_True by done. unfold count_at. lia.
Qed.
Lemma taken_dynamic id r m : maps_ok m -> m_dynamic m !! id = Some r ->
  fr_id r = id /\ maps_ok (set_dynamic (delete id (m_dynamic m)) m) /\ places (set_dynamic (delete id (m_dynamic m)) m) id = 0%nat.
Proof.
  intros [A B C D] Hr. pose proof (D id) as Hid. split; [by apply B|]. unfold places, count_at in Hid. rewrite Hr in Hid. split.
  - split; cbn; [done| |done|].
    + intros i x Hx. apply lookup_delete_Some in Hx as [_ Hx]. by apply B.
    + intros i. specialize (D i). unfold places in *. cbn. autorewrite with places. case_decide; lia.
  - unfold places. cbn. autorewrite with places. rewrite decide_True by done. unfold count_at. lia.
Qed.
Lemma taken_remote id n m : maps_ok m -> m_remote m !! id = Some n ->
  maps_ok (set_remote (delete id (m_remote m)) m) /\ places (set_remote (delete id (m_remote m)) m) id = 0%nat.
Proof.
  intros [A B C D] Hr. pose proof (D id) as Hid. unfold places, count_at in Hid. rewrite Hr in Hid. split.
  - split; cbn; [done..|]. intros i. specialize (D i). unfold places in *. cbn. autorewrite with places. case_decide; lia.
  - unfold places. cbn. autorewrite with places. rewrite decide_True by done. unfold count_at. lia.
Qed.
Lemma taken_stopped id m : maps_ok m -> is_Some (m_stopped m !! id) ->
  maps_ok (set_stopped (delete id (m_stopped m)) m) /\ places (set_stopped (delete id (m_stopped m)) m) id = 0%nat.
Proof.
  intros [A B C D] [r Hr]. pose proof (D id) as Hid. unfold places, count_at in Hid. rewrite Hr in Hid. split.
  - split; cbn; [done..| |].
    + intros i x Hx. apply lookup_delete_Some in Hx as [_ Hx]. by apply C.
    + intros i. specialize (D i). unfold places in *. cbn. autorewrite with places. case_decide; lia.
  - unfold places. cbn. autorewrite with places. rewrite decide_True by done. unfold count_at. lia.
Qed.
Lemma kept_stopped r m : maps_ok m -> places m (fr_id r) = 0%nat -> maps_ok (keep_stopped r m).
Proof.
  intros [A B C D] H0. split; cbn; [done..| |].
  - intros i x Hx. apply lookup_insert_Some in Hx as [[<- <-]|[_ Hx]]; auto.
  - intros i. specialize (D i). unfold places in *. cbn. autorewrite with places. case_decide; subst; lia.
Qed.
Lemma emitted_maps id st e m : maps_ok m -> maps_ok (emit_status_changed id st e m).
Proof. by apply same_maps_ok. Qed.

Lemma take_down_always id after otherwise m : idle m -> maps_ok m ->
  (forall r m, fr_id r = id -> maps_ok m -> places m id = 0%nat -> maps_ok (after r m)) -> (maps_ok (otherwise m).1) ->
  always (take_down debug_str id after otherwise) (fun _ m' => maps_ok m') m.
Proof.
  intros [Hr _] Hm Ha Ho. unfold take_down. cbv zeta. apply always_look.
  destruct (m_local m !! id) as [r|] eqn:Hl.
  { destruct (taken_local id r m Hm Hl) as (Hid & Hm' & H0).
    apply always_bind, always_change, always_bind, always_bind, always_await. intros _. cbn. apply emitted_maps. by apply Ha. }
  destruct (m_dynamic m !! id) as [r|] eqn:Hd.
  { destruct (taken_dynamic id r m Hm Hd) as (Hid & Hm' & H0).
    apply always_bind, always_change, always_bind, always_bind, always_await. intros _. cbn. apply emitted_maps. by apply Ha. }
  destruct (m_remote m !! id) as [n|] eqn:Hn; [|by apply always_section].
  destruct (map_owned m Hr id n Hn) as (f & Hf & Hid). cbn. rewrite Hf. destruct (taken_remote id n m Hm Hn) as [Hm' H0].
  apply always_bind, always_change, always_bind, always_await. intros [[]|e].
  - apply always_bind. eapply always_mono; [|apply finish_stop_always]. intros r m1 [-> Hsame]. cbn. apply emitted_maps. apply Ha; [done| |].
    + by eapply same_maps_ok.
    + destruct Hsame as (_ & E1 & E2 & E3 & E4). unfold places. rewrite E1, E2, E3, E4. exact H0.
  - cbn. unfold insert_remote. cbn. rewrite lookup_delete_eq, insert_delete_eq. apply same_maps_ok with m; [|done].
    split_and!; try done. cbn. by apply insert_id.
Qed.

(** *** Walking a map *)

Context (keys_all : forall x, keys x ≡ₚ elements x).

Lemma elem_of_walk {A} (m : gmap (list Z) A) x : x ∈ walk_map keys m <-> exists k, m !! k = Some x.
Proof.
  unfold walk_map. rewrite list_elem_of_omap. split; [intros (k & _ & Hk); by exists k|]. intros (k & Hk). exists k. split; [|done].
  rewrite keys_all. apply elem_of_elements, elem_of_dom. by exists x.
Qed.
Lemma walk_ids (m : gmap (list Z) ForwardRule) : (forall id r, m !! id = Some r -> fr_id r = id) -> map fr_id (walk_map keys m) = keys (dom m).
Proof.
  intros Hid. unfold walk_map. assert (Hall : Forall (fun k => is_Some (m !! k)) (keys (dom m))).
  { apply Forall_forall. intros k Hk. rewrite keys_all in Hk. by apply elem_of_elements, elem_of_dom in Hk. }
  induction Hall as [|k l [r Hr] _ IH]; [done|]. cbn. rewrite Hr. cbn. by rewrite IH, (Hid k r Hr).
Qed.

(** *** Suspending *)

Definition suspend_put (stopped : gmap (list Z) ForwardRule) (r : ForwardRule) : gmap (list Z) ForwardRule :=
  <[fr_id r := set_status FsSuspended r]> stopped.
Lemma suspend_put_other l id : forall stopped, (forall r, r ∈ l -> fr_id r <> id) -> foldl suspend_put stopped l !! id = stopped !! id.
Proof.
  induction l as [|r l IH]; intros stopped Hl; [done|]. cbn. rewrite IH; [|set_solver]. unfold suspend_put.
  rewrite lookup_insert_ne; [done|]. apply Hl. set_solver.
Qed.
Lemma suspend_put_this l r : forall stopped, r ∈ l -> (forall x, x ∈ l -> fr_id x = fr_id r -> x = r) ->
  foldl suspend_put stopped l !! fr_id r = Some (set_status FsSuspended r).
Proof.
  induction l as [|x l IH]; intros stopped Hr Hu; [set_solver|]. cbn. destruct (decide (r ∈ l)) as [Hin|Hout].
  - apply IH; [done|]. intros y Hy. apply Hu. set_solver.
  - assert (x = r) as -> by set_solver. rewrite suspend_put_other; [unfold suspend_put; apply lookup_insert_eq|].
    intros y Hy Heq. apply Hout. rewrite <-(Hu y); [done|set_solver|done].
Qed.
Lemma suspend_each_always {A} (stop : A -> Method ForwardRule) (rule_of : A -> ForwardRule) l :
  (forall x m, always (stop x) (fun r m' => r = set_status FsStopped (rule_of x) /\ same_maps m m') m) ->
  forall acc m, always (suspend_each stop l acc) (fun _ m' =>
    m_connection m' = m_connection m /\ m_local m' = m_local m /\ m_dynamic m' = m_dynamic m /\ m_remote m' = m_remote m
    /\ m_stopped m' = foldl suspend_put (m_stopped m) (map rule_of l)) m.
Proof.
  intros Hstop. induction l as [|x l IH]; intros acc m; [done|]. cbn [suspend_each map foldl]. apply always_bind.
  eapply always_mono; [|apply Hstop]. intros r m1 [-> (E0 & E1 & E2 & E3 & E4)]. apply always_bind, always_change.
  eapply always_mono; [|apply IH]. cbn. intros _ m2 (F0 & F1 & F2 & F3 & F4).
  split_and!; [congruence..|]. rewrite F4. unfold suspend_put at 2. by rewrite E4.
Qed.

(** The rules that are running, in the order in which they are suspended. *)
Definition actives (m : ForwardingManager) : list ForwardRule :=
  (walk_map keys (m_local m) ++ walk_map keys (m_dynamic m)) ++ map (fun x => rf_rule x.2) (omap (fun n => pair n <$> m_owned m !! n) (walk_map keys (m_remote m))).
Lemma elem_of_actives m r : idle m -> maps_ok m -> r ∈ actives m <-> active_rule m (fr_id r) = Some r.
Proof.
  intros [[R1 R2 R3 R4] _] [A B C D]. unfold actives. rewrite !elem_of_app, !elem_of_walk.
  assert (Hrem : r ∈ map (fun x => rf_rule x.2) (omap (fun n => pair n <$> m_owned m !! n) (walk_map keys (m_remote m)))
                 <-> exists n, m_remote m !! fr_id r = Some n /\ owned_rule n m = Some r).
  { rewrite list_elem_of_fmap. setoid_rewrite list_elem_of_omap. setoid_rewrite elem_of_walk. unfold owned_rule. split.
    - intros ([n f] & -> & n' & (id & Hid) & Hn). cbn. destruct (m_owned m !! n') as [g|] eqn:Hg; [|done]. cbn in Hn. injection Hn as -> ->.
      destruct (R2 id n Hid) as (g & Hg' & <-). exists n. rewrite Hg in Hg'. injection Hg' as <-. by rewrite Hg.
    - intros (n & Hid & Hn). destruct (m_owned m !! n) as [f|] eqn:Hf; [|done]. cbn in Hn. injection Hn as <-.
      exists (n, f). split; [done|]. exists n. rewrite Hf. split; [by eexists|done]. }
  rewrite Hrem. unfold active_rule. specialize (D (fr_id r)). unfold places, count_at in D. split.
  - intros [[(k & Hk)|(k & Hk)]|(n & Hid & Hn)].
    + rewrite (A k r Hk), Hk. done.
    + pose proof (B k r Hk) as E. rewrite E in *. rewrite Hk in *. destruct (m_local m !! k); [lia|done].
    + rewrite Hid in *. destruct (m_local m !! fr_id r), (m_dynamic m !! fr_id r); try lia. done.
  - destruct (m_local m !! fr_id r) as [x|] eqn:E1; [intros [= ->]; left; left; by eexists|].
    destruct (m_dynamic m !! fr_id r) as [x|] eqn:E2; [intros [= ->]; left; right; by eexists|].
    destruct (m_remote m !! fr_id r) as [n|] eqn:E3; [|done]. cbn. intros Hn. right. by exists n.
Qed.
Lemma active_rule_id m id r : idle m -> maps_ok m -> active_rule m id = Some r -> fr_id r = id.
Proof.
  intros [[R1 R2 R3 R4] _] [A B C D]. unfold active_rule. destruct (m_local m !! id) eqn:E1; [intros [= ->]; by apply A|].
  destruct (m_dynamic m !! id) eqn:E2; [intros [= ->]; by apply B|]. destruct (m_remote m !! id) as [n|] eqn:E3; [|done]. cbn.
  unfold owned_rule. destruct (R2 id n E3) as (f & Hf & <-). rewrite Hf. cbn. by intros [= <-].
Qed.

(** After a loss nothing runs, and every rule that ran is suspended. *)
Definition suspended_from (m m' : ForwardingManager) : Prop :=
  m_local m' = ∅ /\ m_dynamic m' = ∅ /\ m_remote m' = ∅
  /\ forall id, m_stopped m' !! id = match active_rule m id with
                                   | Some r => Some (set_status FsSuspended r)
                                   | None => m_stopped m !! id
                                   end.
Lemma suspend_all_always m : idle m -> maps_ok m ->
  always (suspend_all_and_save_rules keys) (fun _ m' => suspended_from m m' /\ maps_ok m') m.
Proof.
  intros Hidle Hm. unfold suspend_all_and_save_rules. apply always_bind, always_section. cbn [fst snd begin_stop_all batch_local batch_dynamic batch_remote].
  apply always_bind. eapply always_mono; [|apply (suspend_each_always _ id)]; [|intros x m0; done].
  intros acc1 m1 (E0 & E1 & E2 & E3 & E4). apply always_bind.
  eapply always_mono; [|apply (suspend_each_always _ id)]; [|intros x m0; done].
  intros acc2 m2 (F0 & F1 & F2 & F3 & F4).
  eapply always_mono; [|apply (suspend_each_always _ (fun x => rf_rule x.2)); intros [n f] m0; apply stop_best_effort_always].
  intros _ m3 (G0 & G1 & G2 & G3 & G4).
  assert (G : m_stopped m3 = foldl suspend_put (m_stopped m) (actives m)).
  { rewrite G4, F4, E4. unfold actives. by rewrite !foldl_app, !map_id. }
  assert (Hs : suspended_from m m3).
  { split_and!; [by rewrite G1, F1, E1|by rewrite G2, F2, E2|by rewrite G3, F3, E3|]. intros id. rewrite G.
    destruct (active_rule m id) as [r|] eqn:Hr.
    - pose proof (active_rule_id m id r Hidle Hm Hr) as <-. apply suspend_put_this; [by apply elem_of_actives|].
      intros x Hx Heq. apply elem_of_actives in Hx; [|done..]. rewrite Heq in Hx. congruence.
    - apply suspend_put_other. intros r Hin <-. apply elem_of_actives in Hin; [|done..]. congruence. }
  split; [done|]. destruct Hs as (S1 & S2 & S3 & S4). split.
  - intros id r. by rewrite S1.
  - intros id r. by rewrite S2.
  - intros id r. rewrite S4. destruct (active_rule m id) as [x|] eqn:Hx; [|by apply in_stopped].
    intros [= <-]. by apply active_rule_id in Hx.
  - intros id. unfold places. rewrite S1, S2, S3. autorewrite with places. unfold count_at. case_match; lia.
Qed.

(** *** Restoring *)

Lemma idle_same m m' : same_routes m m' -> idle m -> idle m'.
Proof.
  intros Hs [Hok Hno]. destruct (same_routes_ok m m' ∅ Hs Hok) as [Hok' [Hm _]]; [intros n f Hn; by rewrite lookup_empty in Hn|].
  split; [done|]. intros n f Hf. apply Hm in Hf as [[Hf _]|Hf]; [by apply (Hno n f)|by rewrite lookup_empty in Hf].
Qed.
Lemma no_place m id : places m id = 0%nat -> active_rule m id = None /\ m_stopped m !! id = None.
Proof. unfold places, count_at, active_rule. repeat case_match; intros; try lia; done. Qed.
Lemma stopped_inactive m id r : maps_ok m -> m_stopped m !! id = Some r -> active_rule m id = None.
Proof. intros [_ _ _ D] Hr. specialize (D id). unfold places, count_at, active_rule in *. rewrite Hr in D. repeat case_match; try lia; done. Qed.
Lemma running_status st rule active : running (set_status st rule) active -> running rule active.
Proof.
  intros (a & p & ->). exists a, p. destruct rule. unfold normalize_hosts_for_runtime, set_status, set_bound, set_target_host. cbn. by case_decide.
Qed.
Lemma created_view active m m' : idle m -> places m (fr_id active) = 0%nat -> created active m m' ->
  active_rule m' (fr_id active) = Some active /\ (forall id, id <> fr_id active -> active_rule m' id = active_rule m id)
  /\ m_stopped m' = m_stopped m /\ m_connection m' = m_connection m
  /\ forall n f, m_owned m' !! n = Some f -> m_owned m !! n = Some f \/ rf_connection f = m_connection m.
Proof.
  intros [[R1 R2 R3 R4] _] H0 Hc. unfold places, count_at in H0. unfold created in Hc.
  destruct (m_local m !! fr_id active) eqn:E1; [lia|]. destruct (m_dynamic m !! fr_id active) eqn:E2; [lia|].
  destruct (fr_type active); subst m'; unfold active_rule; cbn; (split_and!; [..|done|done|]); try by (intros; left).
  - by rewrite lookup_insert_eq.
  - intros id Hid. by rewrite lookup_insert_ne.
  - rewrite E1, E2, lookup_insert_eq. unfold owned_rule. cbn. by rewrite lookup_insert_eq.
  - intros id Hid. repeat case_match; try done. rewrite lookup_insert_ne by done. destruct (m_remote m !! id) as [n|] eqn:E3; [|done].
    cbn. unfold owned_rule. cbn. rewrite lookup_insert_ne; [done|]. destruct (R2 id n E3) as (f & Hf & _). apply R4 in Hf. lia.
  - intros n f Hf. apply lookup_insert_Some in Hf as [[_ <-]|[_ Hf]]; [by right|by left].
  - by rewrite E1, lookup_insert_eq.
  - intros id Hid. by rewrite lookup_insert_ne.
Qed.

(** A rule runs again, or is kept as suspended. *)
Definition restored (rule : ForwardRule) (m : ForwardingManager) : Prop :=
  (exists active, running rule active /\ active_rule m (fr_id rule) = Some active /\ m_stopped m !! fr_id rule = None)
  \/ (active_rule m (fr_id rule) = None /\ m_stopped m !! fr_id rule = Some (set_status FsSuspended rule)).
(** New forwards are on the connection that the manager has. *)
Definition new_on (connection : list Z) (m m' : ForwardingManager) : Prop :=
  forall n f, m_owned m' !! n = Some f -> m_owned m !! n = Some f \/ rf_connection f = connection.

(** One turn of the loop, and what follows it. *)
Definition turn_post (rule : ForwardRule) (m : ForwardingManager) (r : result ForwardingError ForwardRule) (m' : ForwardingManager) : Prop :=
  (idle m' /\ maps_ok m' /\ m_connection m' = m_connection m /\ new_on (m_connection m) m m')
  /\ restored rule m' /\ (forall id, id <> fr_id rule -> active_rule m' id = active_rule m id /\ m_stopped m' !! id = m_stopped m !! id)
  /\ forall a, Ok a = r <-> fr_id a = fr_id rule /\ active_rule m' (fr_id a) = Some a.
Lemma restore_turn {B} rule (K : result ForwardingError ForwardRule -> Method B) Q m :
  idle m -> maps_ok m -> m_stopped m !! fr_id rule = Some rule ->
  (forall r m', turn_post rule m r m' -> always (K r) Q m') ->
  always (do+ change (fun m => set_stopped (delete (fr_id rule) (m_stopped m)) m) in
          let+ r := create_forward debug_str (set_status FsStarting rule) in
          do+ match r with
              | Ok _ => finish tt
              | Err _ => change (keep_stopped (set_status FsSuspended (set_status FsStarting rule)))
              end in K r) Q m.
Proof.
  intros Hidle Hm Hr HK. apply always_bind, always_change.
  destruct (taken_stopped (fr_id rule) m Hm) as [Hm1 H0]; [by eexists|]. set (m1 := set_stopped _ m) in *.
  assert (Hidle1 : idle m1) by (by eapply idle_same; [|exact Hidle]).
  apply always_bind. eapply always_mono; [|apply always_and; [apply create_forward_always|apply neutral_always; [apply create_forward_neutral|done]]].
  intros [active|e] m2 [Hc Hidle2].
  - destruct Hc as (Hrun & _ & Hc). apply running_status in Hrun as Hrun'. destruct (running_id _ _ Hrun') as [Hid _].
    rewrite <-Hid in H0. destruct (created_view active m1 m2 Hidle1 H0 Hc) as (V1 & V2 & V3 & V4 & V5).
    apply always_bind. cbn. apply HK. rewrite Hid in *. split_and!.
    + done.
    + eapply created_maps; [|exact Hm1|exact Hc]. by rewrite Hid.
    + done.
    + exact V5.
    + left. exists active. split_and!; [done..|]. rewrite V3. apply lookup_delete_eq.
    + intros id Hne. split; [by apply V2|]. rewrite V3. cbn. by apply lookup_delete_ne.
    + intros a. split; [intros [= ->]; by rewrite Hid|]. intros [Ha Hact]. rewrite Ha in Hact. congruence.
  - subst m2. destruct (no_place m1 (fr_id rule) H0) as [Hna _].
    apply always_bind, always_change, HK. split_and!.
    + by eapply idle_same; [|exact Hidle1].
    + by apply kept_stopped.
    + done.
    + intros n f Hf. by left.
    + right. split; [done|]. cbn. by rewrite lookup_insert_eq.
    + intros id Hne. split; [done|]. cbn. by rewrite lookup_insert_ne, lookup_delete_ne.
    + intros a. split; [done|]. intros [Ha Hact]. rewrite Ha in Hact. change (active_rule m1 (fr_id rule) = Some a) in Hact. congruence.
Qed.
Lemma restore_each_always rules : forall acc m, NoDup (map fr_id rules) -> (forall r, r ∈ rules -> m_stopped m !! fr_id r = Some r) ->
  idle m -> maps_ok m ->
  always (restore_each debug_str rules acc) (fun rs m' =>
    (idle m' /\ maps_ok m' /\ new_on (m_connection m) m m')
    /\ (forall r, r ∈ rules -> restored r m')
    /\ (forall id, id ∉ map fr_id rules -> active_rule m' id = active_rule m id /\ m_stopped m' !! id = m_stopped m !! id)
    /\ forall a, Ok a ∈ rs <-> Ok a ∈ acc \/ (fr_id a ∈ map fr_id rules /\ active_rule m' (fr_id a) = Some a)) m.
Proof.
  induction rules as [|rule rules IH]; intros acc m Hnd Hst Hidle Hm.
  { cbn. split_and!; [done..|intros n f Hf; by left|set_solver|done|set_solver]. }
  cbn [map] in Hnd. apply NoDup_cons in Hnd as [Hnew Hnd]. apply restore_turn; [done..|apply Hst; by left|].
  intros r m1 ((Hidle1 & Hm1 & Hc & Hon1) & Hrest & Hframe & Hok).
  assert (Hne : forall x, x ∈ rules -> fr_id x <> fr_id rule).
  { intros x Hx Heq. apply Hnew. rewrite <-Heq. by apply list_elem_of_fmap_2. }
  eapply always_mono; [|apply (IH (acc ++ [r]) m1)]; [|done| |done|done].
  - cbn beta. rewrite Hc. intros rs m2 (Hinv & Hall & Hframe2 & Hres). destruct (Hframe2 (fr_id rule) Hnew) as [F1 F2].
    destruct Hinv as (I1 & I2 & I3). split_and!; [done|done| | | |].
    + intros n f Hf. destruct (I3 n f Hf) as [Hf'|?]; [by apply Hon1|by right].
    + intros x [->|Hx]%elem_of_cons; [|by apply Hall]. unfold restored. rewrite F1, F2. exact Hrest.
    + intros id Hid. cbn [map] in Hid. apply not_elem_of_cons in Hid as [Hid1 Hid2]. destruct (Hframe2 id Hid2) as [-> ->]. by apply Hframe.
    + intros a. rewrite Hres. cbn [map]. rewrite elem_of_app, list_elem_of_singleton, Hok, elem_of_cons. destruct (decide (fr_id a = fr_id rule)) as [E|E].
      * rewrite E, F1. clear -Hnew. intuition.
      * clear -E. tauto.
  - intros x Hx. destruct (Hframe (fr_id x) (Hne x Hx)) as [_ ->]. apply Hst. by right.
Qed.

Lemma stopped_listed m r : maps_ok m -> r ∈ list_stopped_forwards keys m <-> m_stopped m !! fr_id r = Some r.
Proof.
  intros Hm. unfold list_stopped_forwards. rewrite sort_by_perm, elem_of_walk. split; [|by intros; eexists].
  intros (k & Hk). by rewrite (in_stopped m Hm k r Hk).
Qed.
Lemma restore_always connection m : idle m -> maps_ok m ->
  always (restore_saved_forwards debug_str keys connection) (fun rs m' =>
    (idle m' /\ maps_ok m' /\ new_on connection m m')
    /\ (forall r, m_stopped m !! fr_id r = Some r -> restored r m')
    /\ (forall id, m_stopped m !! id = None -> active_rule m' id = active_rule m id /\ m_stopped m' !! id = None)
    /\ forall a, Ok a ∈ rs <-> is_Some (m_stopped m !! fr_id a) /\ active_rule m' (fr_id a) = Some a) m.
Proof.
  intros Hidle Hm. unfold restore_saved_forwards. apply always_bind, always_section. cbn [fst snd].
  set (m1 := set_connection connection m). assert (Hm1 : maps_ok m1) by (by destruct Hm).
  assert (Hids : map fr_id (list_stopped_forwards keys m1) ≡ₚ keys (dom (m_stopped m))).
  { unfold list_stopped_forwards. rewrite sort_by_perm. rewrite walk_ids; [done|]. apply (in_stopped m1 Hm1). }
  assert (Hin : forall id, id ∈ map fr_id (list_stopped_forwards keys m1) <-> is_Some (m_stopped m !! id)).
  { intros id. by rewrite Hids, keys_all, elem_of_elements, elem_of_dom. }
  eapply always_mono; [|apply (restore_each_always (list_stopped_forwards keys m1) [] m1)].
  - intros rs m' (Hinv & Hall & Hframe & Hres). split; [done|]. split_and!.
    + intros r Hst. apply Hall. by apply stopped_listed.
    + intros id Hid. destruct (Hframe id) as [-> ->]; [by rewrite Hin, Hid; intros [? ?]|done].
    + intros a. rewrite Hres, Hin. split; [intros [?|?]; [set_solver|done]|by right].
  - rewrite Hids, keys_all. apply NoDup_elements.
  - intros r Hst. by apply stopped_listed in Hst.
  - by eapply idle_same; [|exact Hidle].
  - done.
Qed.

(** *** Histories *)

Lemma for_each_always {A} (f : A -> Method unit) l : (forall x m, always (f x) (fun _ m' => same_maps m m') m) ->
  forall m, always (for_each f l) (fun _ m' => same_maps m m') m.
Proof.
  intros Hf. induction l as [|x l IH]; intros m; [done|]. cbn. apply always_bind. eapply always_mono; [|apply Hf]. intros [] m1 H1.
  eapply always_mono; [|apply IH]. intros [] m2 H2. by eapply same_maps_trans.
Qed.
Lemma stop_all_always m : maps_ok m -> always (stop_all keys) (fun _ m' => maps_ok m') m.
Proof.
  intros [A B C D]. unfold stop_all. apply always_bind, always_section. unfold stop_batch. cbn [fst snd begin_stop_all].
  set (m0 := set_remote ∅ _). assert (Hm0 : maps_ok m0).
  { subst m0. split; cbn; [done..|]. intros id. specialize (D id). unfold places in *. cbn. autorewrite with places. lia. }
  apply always_bind. eapply always_mono; [|apply for_each_always]; [|done]. intros [] m1 H1.
  apply always_bind. eapply always_mono; [|apply for_each_always]; [|done]. intros [] m2 H2.
  eapply always_mono; [|apply for_each_always]; [|intros [n f] m3; apply always_bind; eapply always_mono; [|apply stop_best_effort_always]; by intros r m4 [_ H4]].
  intros [] m3 H3. eapply same_maps_ok; [|exact Hm0]. eapply same_maps_trans; [|exact H3]. by eapply same_maps_trans.
Qed.
Lemma create_keeps_maps rule m : maps_ok m -> always (create_forward debug_str rule) (fun _ m' => maps_ok m') m.
Proof.
  intros Hm. eapply always_mono; [|apply create_forward_always]. intros [a|e] m1; [|by intros ->]. intros (Hrun & H0 & Hc).
  destruct (running_id _ _ Hrun) as [Hid _]. rewrite <-Hid in H0. by eapply created_maps.
Qed.
Lemma check_port_always host port t m : always (check_port_available debug_str to_lowercase host port t) (fun _ m' => m' = m) m.
Proof.
  unfold check_port_available. apply always_look. destruct (_ || _); [done|]. apply always_bind, always_await.
  intros [[[]|e]|]; [done| |done]. cbv zeta. by destruct (_ || _).
Qed.
Lemma check_local_always host port t m : always (check_local_port_available host port t) (fun _ m' => m' = m) m.
Proof. apply always_bind, always_await. intros [[[]|e]|]; [done| |done]. by destruct (se_kind e). Qed.
Lemma health_check_maps rule check_health m : maps_ok m ->
  always (create_forward_with_health_check debug_str to_lowercase rule check_health) (fun _ m' => maps_ok m') m.
Proof.
  intros Hm. unfold create_forward_with_health_check. cbv zeta. set (r := normalize_hosts_for_runtime rule).
  destruct check_health; [|by apply create_keeps_maps]. destruct (fr_type r); [| |by apply create_keeps_maps]; apply always_bind;
    (eapply always_mono; [|apply check_port_always || apply check_local_always]); intros [[]|e] m' ->; [by apply create_keeps_maps|done|done|by apply create_keeps_maps|done|done].
Qed.
Lemma restart_maps id m : maps_ok m -> always (restart_forward debug_str id) (fun _ m' => maps_ok m') m.
Proof.
  intros Hm. unfold restart_forward. apply always_look. destruct (m_stopped m !! id) as [r|] eqn:Hr; [|done].
  destruct (taken_stopped id m Hm) as [Hm1 H0]; [by eexists|]. apply always_bind, always_change, always_bind.
  eapply always_mono; [|apply create_forward_always]. intros [a|e] m1.
  - intros (Hrun & H0' & Hc). destruct (running_id _ _ Hrun) as [Hid _]. rewrite <-Hid in H0'. cbn. by eapply created_maps.
  - intros ->. cbn. apply kept_stopped; [done|]. cbn. by rewrite (in_stopped m Hm id r Hr).
Qed.
Lemma update_stopped_maps id update m : maps_ok m -> always (update_stopped_forward id update) (fun _ m' => maps_ok m') m.
Proof.
  intros Hm. unfold update_stopped_forward. apply always_section. case_match; [done|]. destruct (m_stopped m !! id) as [r|] eqn:Hr; [|done].
  cbn [fst snd]. apply emitted_maps. pose proof (in_stopped m Hm id r Hr) as Hid. destruct Hm as [A B C D].
  split; cbn; [done..| |].
  - intros i x Hx. apply lookup_insert_Some in Hx as [[<- <-]|[_ Hx]]; [done|by apply C].
  - intros i. specialize (D i). unfold places in *. cbn. autorewrite with places. case_decide; [|done]. subst i. unfold count_at in *.
    rewrite Hr in D. lia.
Qed.
Lemma call_maps c m : idle m -> maps_ok m -> always (call debug_str to_lowercase keys c) (fun _ m' => maps_ok m') m.
Proof.
  intros Hidle Hm. assert (Hf : forall A (x : Method A), always x (fun _ m' => maps_ok m') m -> always (forget x) (fun _ m' => maps_ok m') m).
  { intros A x Hx. apply always_bind. eapply always_mono; [|exact Hx]. done. }
  destruct c; cbn [call]; try apply Hf; auto using create_keeps_maps, health_check_maps, restart_maps, update_stopped_maps, stop_all_always.
  - apply take_down_always; [done..| |done]. intros r m1 Hid Hm1 H0. apply kept_stopped; [done|]. by rewrite Hid.
  - apply always_try. eapply always_mono; [|apply take_down_always; try done].
    + by intros [a|e] m1.
    + destruct (m_stopped m !! id) as [r|] eqn:Hr; [|done]. apply (taken_stopped id m Hm). by eexists.
  - unfold get_stats. apply always_section. repeat case_match; by apply (same_maps_ok m).
  - eapply always_mono; [|by apply suspend_all_always]. by intros a m1 [_ ?].
  - eapply always_mono; [|by apply restore_always]. by intros a m1 [(_ & ? & _) _].
  - apply always_change. by destruct Hm.
Qed.

(** A manager whose methods were run to their ends one after the other. *)
Fixpoint finishes {A} (t : Task A) (m m' : ForwardingManager) : Prop :=
  match t with
  | Return _ => m' = m
  | Await o k => exists x, let '(m, t) := k x m in finishes t m m'
  end.
Inductive served (session_id connection : list Z) : ForwardingManager -> Prop :=
| served_new : served session_id connection (new_manager session_id connection)
| served_call m c m' : served session_id connection m ->
    finishes (call debug_str to_lowercase keys c m).2 (call debug_str to_lowercase keys c m).1 m' -> served session_id connection m'.
Lemma returns_finishes {A} (t : Task A) Q : forall m m', returns t Q m -> finishes t m m' -> exists a, Q a m'.
Proof.
  revert t. fix IH 1. intros [a|o k] m m'; cbn; [intros HQ ->; by exists a|]. intros Ht [x Hx]. specialize (Ht x).
  destruct (k x m) as [m1 t1]. by apply (IH t1 m1).
Qed.
Lemma served_ok session_id connection m : served session_id connection m -> idle m /\ maps_ok m.
Proof.
  induction 1 as [|m c m' _ [Hidle Hm] Hf].
  - split; [split; [split; cbn; intros *; by rewrite lookup_empty|]|split; cbn; [intros *; by rewrite lookup_empty..|intros id; unfold places; cbn; autorewrite with places; lia]].
    intros n f [Hn _]. cbn in Hn. by rewrite lookup_empty in Hn.
  - pose proof (always_and _ _ _ _ (neutral_always _ m (call_neutral debug_str to_lowercase keys keys_all c) Hidle) (call_maps c m Hidle Hm)) as Hall.
    unfold always in Hall. destruct (call debug_str to_lowercase keys c m) as [m0 t]. by destruct (returns_finishes t _ m0 m' Hall Hf) as [_ ?].
Qed.
End Reconnect.

Lemma restored_status st rule m : restored (set_status st rule) m -> restored rule m.
Proof. intros [(a & Hrun & Hrest)|[Ha Hs]]; [left; exists a; split; [by eapply running_status|done]|by right]. Qed.

(** What the manager lists under an id. *)
Definition listed (m : ForwardingManager) (id : list Z) : option ForwardRule :=
  match active_rule m id with Some r => Some r | None => m_stopped m !! id end.

(** C21: losing a connection and getting another loses no forward.  Whatever
    methods a manager has run to their end before, one after another, and
    whatever the listeners and the servers answer: after all rules were suspended
    and then restored on a new connection, with no other call in between, the
    manager has the same rules.  Each is in one place: it runs again, with its id, type,
    target and description, and the answer says so, or it failed to start and is
    kept as suspended, with the address it had.  No remote forward is left on
    the old connection, nor a route to one. *)
Theorem reconnect_keeps_rules debug_str to_lowercase keys session_id connection m new_connection :
  (forall x, keys x ≡ₚ elements x) -> served debug_str to_lowercase keys session_id connection m ->
  always (do+ suspend_all_and_save_rules keys in restore_saved_forwards debug_str keys new_connection)
    (fun rs m' =>
      (forall id, (places m' id <= 1)%nat)
      /\ (forall id, match listed m id with Some r => restored r m' | None => listed m' id = None end)
      /\ (forall a, Ok a ∈ rs <-> active_rule m' (fr_id a) = Some a)
      /\ (forall n f, m_owned m' !! n = Some f -> rf_connection f = new_connection)
      /\ forall k t, m_router m' !! k = Some t -> rt_connection_id t = new_connection) m.
Proof.
  intros Hkeys Hserved. destruct (served_ok _ _ _ Hkeys _ _ _ Hserved) as [Hidle Hm]. apply always_bind.
  eapply always_mono; [|apply always_and; [by apply suspend_all_always|apply neutral_always; [by apply suspend_all_neutral|done]]].
  intros _ m1 [[(S1 & S2 & S3 & S4) Hm1] Hidle1].
  assert (Hnone : forall id, active_rule m1 id = None) by (intros id; unfold active_rule; by rewrite S1, S2, S3, !lookup_empty).
  assert (Hempty : forall n, m_owned m1 !! n = None).
  { intros n. destruct (m_owned m1 !! n) as [f|] eqn:E; [|done]. destruct (proj2 Hidle1 n f). split; [done|]. intros id. by rewrite S3, lookup_empty. }
  eapply always_mono; [|by apply restore_always]. intros rs m' ((Hidle' & Hm' & Hnew) & Hall & Hframe & Hres).
  assert (Hon : forall n f, m_owned m' !! n = Some f -> rf_connection f = new_connection).
  { intros n f Hf. destruct (Hnew n f Hf) as [Hf'|?]; [by rewrite Hempty in Hf'|done]. }
  split_and!.
  - apply Hm'.
  - intros id. unfold listed. destruct (active_rule m id) as [r|] eqn:Hr; [|destruct (m_stopped m !! id) as [r|] eqn:Hr'].
    + pose proof (active_rule_id m id r Hidle Hm Hr) as <-. apply (restored_status FsSuspended), Hall. cbn. by rewrite S4, Hr.
    + pose proof (in_stopped m Hm id r Hr') as <-. apply Hall. by rewrite S4, Hr.
    + destruct (Hframe id) as [-> ->]; [by rewrite S4, Hr|]. by rewrite Hnone.
  - intros a. rewrite Hres. split; [by intros [_ ?]|]. intros Ha. split; [|done].
    destruct (m_stopped m1 !! fr_id a) eqn:E; [by eexists|]. destruct (Hframe (fr_id a) E) as [F _]. rewrite Hnone in F. congruence.
  - done.
  - intros k t Ht. destruct (route_owner m' (proj1 Hidle') k t Ht) as (f & Hf & _ & -> & _). by eapply Hon.
Qed.

(** ** A run *)

(** A manager with a remote forward, which is lost and restored. *)
Definition served_manager : ForwardingManager := (drive_all [inl (CallCreate (remote_rule "a" 80)); inr 0%nat; inr 0%nat] fresh_system).1.
Lemma reconnect_keeps_rules_witness :
  always (do+ suspend_all_and_save_rules elements in restore_saved_forwards id elements (lit "c2"))
    (fun rs m' =>
      (forall id, (places m' id <= 1)%nat)
      /\ (forall id, match listed served_manager id with Some r => restored r m' | None => listed m' id = None end)
      /\ (forall a, Ok a ∈ rs <-> active_rule m' (fr_id a) = Some a)
      /\ (forall n f, m_owned m' !! n = Some f -> rf_connection f = lit "c2")
      /\ forall k t, m_router m' !! k = Some t -> rt_connection_id t = lit "c2") served_manager.
Proof.
  apply (reconnect_keeps_rules id id elements (lit "s") (lit "c")).
  - intros x. reflexivity.
  - apply (served_call _ _ _ _ _ (new_manager (lit "s") (lit "c")) (CallCreate (remote_rule "a" 80))); [apply served_new|].
    exists (Ok tt). hnf. exists (Ok 9000). hnf. vm_compute. reflexivity.
Defined.
