(* ===== verification/ConnTypes.v ===== *)
(** * Saved connections: types and helpers (hapcli-connections)

    Model of [store/types.rs] and of the helpers in [store/helpers.rs] that do
    not touch the outside.  A string or a secret is its scalar values, a time
    its nanoseconds; UUIDs and readings of the clock are arguments. *)
From S2P Require Import Prelude Text TrzszBuffer TextOps ForwardModel.
From Stdlib Require Import String.
From stdpp Require Import prelude numbers list.
Open Scope Z_scope.

Definition CONFIG_VERSION : Z := 1.
Definition CONNECTION_TOMBSTONE_RETENTION_DAYS : Z := 30.
Definition LOCAL_SHELL_PRIVILEGE_CONNECTION_ID : list Z := lit "local-shell:default".
Definition GLOBAL_UPSTREAM_PROXY_PASSWORD_KEYCHAIN_ID : list Z := lit "oxide_global_upstream_proxy_password".
Definition DEFAULT_X11_UNTRUSTED_TIMEOUT_SECONDS : Z := 20 * 60.

(** ** Authentication *)

Inductive AuthType := AtPassword | AtKey | AtManagedKey | AtCertificate | AtKeyboardInteractive | AtAgent.
Definition auth_type_as_str (t : AuthType) : list Z :=
  match t with
  | AtPassword => lit "password"
  | AtKey => lit "key"
  | AtManagedKey => lit "managed_key"
  | AtCertificate => lit "certificate"
  | AtKeyboardInteractive => lit "keyboard_interactive"
  | AtAgent => lit "agent"
  end.

(** The last component of a constructor is the secret itself, if it is at hand. *)
Inductive SavedAuth :=
| SaPassword (keychain_id plaintext_password : option (list Z))
| SaKey (key_path : list Z) (has_passphrase : bool) (passphrase_keychain_id plaintext_passphrase : option (list Z))
| SaCertificate (key_path cert_path : list Z) (has_passphrase : bool)
    (passphrase_keychain_id plaintext_passphrase : option (list Z))
| SaManagedKey (key_id : list Z) (passphrase_keychain_id plaintext_passphrase : option (list Z))
| SaKeyboardInteractive
| SaAgent.
Definition auth_type (a : SavedAuth) : AuthType :=
  match a with
  | SaPassword _ _ => AtPassword
  | SaKey _ _ _ _ => AtKey
  | SaManagedKey _ _ _ => AtManagedKey
  | SaCertificate _ _ _ _ _ => AtCertificate
  | SaKeyboardInteractive => AtKeyboardInteractive
  | SaAgent => AtAgent
  end.
Definition key_path (a : SavedAuth) : option (list Z) :=
  match a with SaKey p _ _ _ | SaCertificate p _ _ _ _ => Some p | _ => None end.
Definition cert_path (a : SavedAuth) : option (list Z) :=
  match a with SaCertificate _ p _ _ _ => Some p | _ => None end.
Definition managed_key_id (a : SavedAuth) : option (list Z) :=
  match a with SaManagedKey k _ _ => Some k | _ => None end.

(** ** Options of a connection *)

Inductive ConnectionTerminalEncoding := Utf8 | Gbk | Gb18030 | Big5 | ShiftJis | EucJp | EucKr | Windows1252.
Inductive ConnectionTerminalBackspaceSequence := BsDelete | BsControlH.
Inductive ConnectionTerminalDeleteSequence := DsCsi3Tilde | DsDelete | DsControlH.
Record ConnectionTerminalOptions := mkTerminal {
  to_encoding : option ConnectionTerminalEncoding;
  to_backspace : option ConnectionTerminalBackspaceSequence;
  to_delete : option ConnectionTerminalDeleteSequence
}.
Definition default_terminal : ConnectionTerminalOptions := mkTerminal None None None.
Inductive ConnectionX11ForwardingMode := X11Untrusted | X11Trusted.
Record ConnectionX11ForwardingOptions := mkX11 {
  xo_enabled : bool;
  xo_mode : ConnectionX11ForwardingMode;
  xo_timeout : Z
}.
Definition default_x11 : ConnectionX11ForwardingOptions := mkX11 false X11Untrusted DEFAULT_X11_UNTRUSTED_TIMEOUT_SECONDS.
Record ConnectionOptions := mkOptions {
  op_keep_alive_interval : Z;
  op_compression : bool;
  op_jump_host : option (list Z);
  op_term_type : option (list Z);
  op_agent_forwarding : bool;
  op_identity_agent : option (list Z);
  op_agent_forwarding_socket : option (list Z);
  op_legacy_ssh_compatibility : bool;
  op_dedicated_new_terminal_connection : bool;
  op_x11_forwarding : ConnectionX11ForwardingOptions;
  op_post_connect_command : option (list Z);
  op_terminal : ConnectionTerminalOptions
}.
Definition set_op_post_connect_command (v : option (list Z)) (x : ConnectionOptions) : ConnectionOptions := mkOptions
  (op_keep_alive_interval x) (op_compression x) (op_jump_host x) (op_term_type x) (op_agent_forwarding x)
  (op_identity_agent x) (op_agent_forwarding_socket x) (op_legacy_ssh_compatibility x)
  (op_dedicated_new_terminal_connection x) (op_x11_forwarding x) v (op_terminal x).
Definition default_options : ConnectionOptions :=
  mkOptions 0 false None None false None None false false default_x11 None default_terminal.

(** ** Proxies *)

Record SavedProxyHop := mkHop {
  hp_host : list Z;
  hp_port : Z;
  hp_username : list Z;
  hp_auth : SavedAuth;
  hp_agent_forwarding : bool;
  hp_identity_agent : option (list Z);
  hp_agent_forwarding_socket : option (list Z);
  hp_legacy_ssh_compatibility : bool
}.
Definition set_hp_auth (v : SavedAuth) (x : SavedProxyHop) : SavedProxyHop := mkHop (hp_host x) (hp_port x)
  (hp_username x) v (hp_agent_forwarding x) (hp_identity_agent x) (hp_agent_forwarding_socket x)
  (hp_legacy_ssh_compatibility x).
Inductive SavedUpstreamProxyProtocol := UpSocks5 | UpHttpConnect.
Inductive SavedUpstreamProxyAuth :=
| UpNone
| UpPassword (username : list Z) (keychain_id plaintext_password : option (list Z)).
Record SavedUpstreamProxyConfig := mkUpstream {
  up_protocol : SavedUpstreamProxyProtocol;
  up_host : list Z;
  up_port : Z;
  up_auth : SavedUpstreamProxyAuth;
  up_remote_dns : bool;
  up_no_proxy : list Z
}.
Inductive SavedUpstreamProxyPolicy := UseGlobal | Direct | Custom (proxy : SavedUpstreamProxyConfig).

(** ** Privilege credentials *)

Inductive PrivilegeCredentialKind := SudoPassword | SuPassword | CustomPrompt.
#[export] Instance PrivilegeCredentialKind_eq : EqDecision PrivilegeCredentialKind.
Proof. solve_decision. Defined.
Record SavedPrivilegeCredential := mkPrivilege {
  pc_id : list Z;
  pc_connection_id : list Z;
  pc_label : list Z;
  pc_kind : PrivilegeCredentialKind;
  pc_username_hint : option (list Z);
  pc_prompt_patterns : list (list Z);
  pc_keychain_id : option (list Z);
  pc_plaintext_secret : option (list Z);
  pc_enabled : bool;
  pc_require_click_to_send : bool;
  pc_created_at : Z;
  pc_updated_at : Z
}.
Definition set_pc_prompt_patterns (v : list (list Z)) (x : SavedPrivilegeCredential) : SavedPrivilegeCredential :=
  mkPrivilege (pc_id x) (pc_connection_id x) (pc_label x) (pc_kind x) (pc_username_hint x) v (pc_keychain_id x)
  (pc_plaintext_secret x) (pc_enabled x) (pc_require_click_to_send x) (pc_created_at x) (pc_updated_at x).
Record SavePrivilegeCredentialRequest := mkPrivilegeRequest {
  pr_connection_id : list Z;
  pr_credential_id : option (list Z);
  pr_label : list Z;
  pr_kind : PrivilegeCredentialKind;
  pr_username_hint : option (list Z);
  pr_prompt_patterns : list (list Z);
  pr_secret : option (list Z);
  pr_enabled : bool;
  pr_require_click_to_send : bool
}.

(** ** Connections *)

Record SavedConnection := mkConnection {
  cn_id : list Z;
  cn_version : Z;
  cn_name : list Z;
  cn_group : option (list Z);
  cn_host : list Z;
  cn_port : Z;
  cn_username : list Z;
  cn_auth : SavedAuth;
  cn_proxy_chain : list SavedProxyHop;
  cn_upstream_proxy : SavedUpstreamProxyPolicy;
  cn_options : ConnectionOptions;
  cn_created_at : Z;
  cn_last_used_at : option Z;
  cn_updated_at : option Z;
  cn_color : option (list Z);
  cn_icon_background_color : option (list Z);
  cn_icon : option (list Z);
  cn_tags : list (list Z);
  cn_post_connect_command : option (list Z);
  cn_privilege_credentials : list SavedPrivilegeCredential
}.
Definition set_cn_name (v : list Z) (x : SavedConnection) : SavedConnection := mkConnection (cn_id x) (cn_version x) v
  (cn_group x) (cn_host x) (cn_port x) (cn_username x) (cn_auth x) (cn_proxy_chain x) (cn_upstream_proxy x)
  (cn_options x) (cn_created_at x) (cn_last_used_at x) (cn_updated_at x) (cn_color x) (cn_icon_background_color x)
  (cn_icon x) (cn_tags x) (cn_post_connect_command x) (cn_privilege_credentials x).
Definition set_cn_group (v : option (list Z)) (x : SavedConnection) : SavedConnection := mkConnection (cn_id x)
  (cn_version x) (cn_name x) v (cn_host x) (cn_port x) (cn_username x) (cn_auth x) (cn_proxy_chain x)
  (cn_upstream_proxy x) (cn_options x) (cn_created_at x) (cn_last_used_at x) (cn_updated_at x) (cn_color x)
  (cn_icon_background_color x) (cn_icon x) (cn_tags x) (cn_post_connect_command x) (cn_privilege_credentials x).
Definition set_cn_auth (v : SavedAuth) (x : SavedConnection) : SavedConnection := mkConnection (cn_id x) (cn_version
  x) (cn_name x) (cn_group x) (cn_host x) (cn_port x) (cn_username x) v (cn_proxy_chain x) (cn_upstream_proxy x)
  (cn_options x) (cn_created_at x) (cn_last_used_at x) (cn_updated_at x) (cn_color x) (cn_icon_background_color x)
  (cn_icon x) (cn_tags x) (cn_post_connect_command x) (cn_privilege_credentials x).
Definition set_cn_proxy_chain (v : list SavedProxyHop) (x : SavedConnection) : SavedConnection := mkConnection (cn_id
  x) (cn_version x) (cn_name x) (cn_group x) (cn_host x) (cn_port x) (cn_username x) (cn_auth x) v (cn_upstream_proxy
  x) (cn_options x) (cn_created_at x) (cn_last_used_at x) (cn_updated_at x) (cn_color x) (cn_icon_background_color x)
  (cn_icon x) (cn_tags x) (cn_post_connect_command x) (cn_privilege_credentials x).
Definition set_cn_options (v : ConnectionOptions) (x : SavedConnection) : SavedConnection := mkConnection (cn_id x)
  (cn_version x) (cn_name x) (cn_group x) (cn_host x) (cn_port x) (cn_username x) (cn_auth x) (cn_proxy_chain x)
  (cn_upstream_proxy x) v (cn_created_at x) (cn_last_used_at x) (cn_updated_at x) (cn_color x)
  (cn_icon_background_color x) (cn_icon x) (cn_tags x) (cn_post_connect_command x) (cn_privilege_credentials x).
Definition set_cn_last_used_at (v : option Z) (x : SavedConnection) : SavedConnection := mkConnection (cn_id x)
  (cn_version x) (cn_name x) (cn_group x) (cn_host x) (cn_port x) (cn_username x) (cn_auth x) (cn_proxy_chain x)
  (cn_upstream_proxy x) (cn_options x) (cn_created_at x) v (cn_updated_at x) (cn_color x) (cn_icon_background_color x)
  (cn_icon x) (cn_tags x) (cn_post_connect_command x) (cn_privilege_credentials x).
Definition set_cn_updated_at (v : option Z) (x : SavedConnection) : SavedConnection := mkConnection (cn_id x)
  (cn_version x) (cn_name x) (cn_group x) (cn_host x) (cn_port x) (cn_username x) (cn_auth x) (cn_proxy_chain x)
  (cn_upstream_proxy x) (cn_options x) (cn_created_at x) (cn_last_used_at x) v (cn_color x) (cn_icon_background_color
  x) (cn_icon x) (cn_tags x) (cn_post_connect_command x) (cn_privilege_credentials x).
Definition set_cn_post_connect_command (v : option (list Z)) (x : SavedConnection) : SavedConnection := mkConnection
  (cn_id x) (cn_version x) (cn_name x) (cn_group x) (cn_host x) (cn_port x) (cn_username x) (cn_auth x)
  (cn_proxy_chain x) (cn_upstream_proxy x) (cn_options x) (cn_created_at x) (cn_last_used_at x) (cn_updated_at x)
  (cn_color x) (cn_icon_background_color x) (cn_icon x) (cn_tags x) v (cn_privilege_credentials x).
Definition set_cn_privilege_credentials (v : list SavedPrivilegeCredential) (x : SavedConnection) : SavedConnection :=
  mkConnection (cn_id x) (cn_version x) (cn_name x) (cn_group x) (cn_host x) (cn_port x) (cn_username x) (cn_auth x)
  (cn_proxy_chain x) (cn_upstream_proxy x) (cn_options x) (cn_created_at x) (cn_last_used_at x) (cn_updated_at x)
  (cn_color x) (cn_icon_background_color x) (cn_icon x) (cn_tags x) (cn_post_connect_command x) v.
Definition touch (now : Z) (c : SavedConnection) : SavedConnection := set_cn_updated_at (Some now) (set_cn_last_used_at (Some now) c).
Definition post_connect_command (c : SavedConnection) : option (list Z) :=
  match cn_post_connect_command c with Some x => Some x | None => op_post_connect_command (cn_options c) end.
Record ProxyHopInfo := mkHopInfo {
  hi_host : list Z;
  hi_port : Z;
  hi_username : list Z;
  hi_auth_type : AuthType;
  hi_key_path : option (list Z);
  hi_cert_path : option (list Z);
  hi_managed_key_id : option (list Z);
  hi_managed_key_name : option (list Z);
  hi_agent_forwarding : bool;
  hi_identity_agent : option (list Z);
  hi_agent_forwarding_socket : option (list Z);
  hi_legacy_ssh_compatibility : bool
}.
Definition hop_info (h : SavedProxyHop) : ProxyHopInfo :=
  mkHopInfo (hp_host h) (hp_port h) (hp_username h) (auth_type (hp_auth h)) (key_path (hp_auth h)) (cert_path (hp_auth h))
    (managed_key_id (hp_auth h)) None (hp_agent_forwarding h) (hp_identity_agent h) (hp_agent_forwarding_socket h)
    (hp_legacy_ssh_compatibility h).
Record ConnectionInfo := mkInfo {
  ci_id : list Z;
  ci_name : list Z;
  ci_group : option (list Z);
  ci_host : list Z;
  ci_port : Z;
  ci_username : list Z;
  ci_auth_type : AuthType;
  ci_key_path : option (list Z);
  ci_cert_path : option (list Z);
  ci_managed_key_id : option (list Z);
  ci_managed_key_name : option (list Z);
  ci_proxy_chain : list ProxyHopInfo;
  ci_upstream_proxy : SavedUpstreamProxyPolicy;
  ci_created_at : list Z;
  ci_last_used_at : option (list Z);
  ci_color : option (list Z);
  ci_icon_background_color : option (list Z);
  ci_icon : option (list Z);
  ci_tags : list (list Z);
  ci_agent_forwarding : bool;
  ci_identity_agent : option (list Z);
  ci_agent_forwarding_socket : option (list Z);
  ci_legacy_ssh_compatibility : bool;
  ci_post_connect_command : option (list Z)
}.
Definition connection_info (to_rfc3339 : Z -> list Z) (c : SavedConnection) : ConnectionInfo :=
  mkInfo (cn_id c) (cn_name c) (cn_group c) (cn_host c) (cn_port c) (cn_username c) (auth_type (cn_auth c))
    (key_path (cn_auth c)) (cert_path (cn_auth c)) (managed_key_id (cn_auth c)) None (map hop_info (cn_proxy_chain c))
    (cn_upstream_proxy c) (to_rfc3339 (cn_created_at c)) (to_rfc3339 <$> cn_last_used_at c) (cn_color c)
    (cn_icon_background_color c) (cn_icon c) (cn_tags c) (op_agent_forwarding (cn_options c))
    (op_identity_agent (cn_options c)) (op_agent_forwarding_socket (cn_options c))
    (op_legacy_ssh_compatibility (cn_options c)) (post_connect_command c).
Record SaveConnectionRequest := mkSaveConnection {
  rq_id : option (list Z);
  rq_name : list Z;
  rq_group : option (list Z);
  rq_host : list Z;
  rq_port : Z;
  rq_username : list Z;
  rq_auth : SavedAuth;
  rq_proxy_chain : list SavedProxyHop;
  rq_upstream_proxy : SavedUpstreamProxyPolicy;
  rq_color : option (list Z);
  rq_icon_background_color : option (list Z);
  rq_icon : option (list Z);
  rq_tags : list (list Z);
  rq_agent_forwarding : bool;
  rq_identity_agent : option (list Z);
  rq_agent_forwarding_socket : option (list Z);
  rq_legacy_ssh_compatibility : bool;
  rq_dedicated_new_terminal_connection : bool;
  rq_x11_forwarding : ConnectionX11ForwardingOptions;
  rq_post_connect_command : option (list Z);
  rq_terminal : ConnectionTerminalOptions
}.
Record SavedConnectionRuntimeSecrets := mkRuntimeSecrets {
  rs_auth : option (list Z);
  rs_proxy_chain : list (option (list Z));
  rs_upstream_proxy : option (list Z)
}.

(** ** Profiles *)

Inductive SerialParity := ParityNone | ParityOdd | ParityEven.
Inductive SerialFlowControl := FlowNone | FlowSoftware | FlowHardware.
Record SerialProfile := mkSerial {
  sp_id : list Z;
  sp_name : list Z;
  sp_group : option (list Z);
  sp_icon : option (list Z);
  sp_color : option (list Z);
  sp_icon_background_color : option (list Z);
  sp_port_path : list Z;
  sp_baud_rate : Z;
  sp_data_bits : Z;
  sp_stop_bits : Z;
  sp_parity : SerialParity;
  sp_flow_control : SerialFlowControl;
  sp_connect_on_open : bool;
  sp_created_at : Z;
  sp_updated_at : Z;
  sp_last_used_at : option Z
}.
Definition set_sp_group (v : option (list Z)) (x : SerialProfile) : SerialProfile := mkSerial (sp_id x) (sp_name x) v
  (sp_icon x) (sp_color x) (sp_icon_background_color x) (sp_port_path x) (sp_baud_rate x) (sp_data_bits x)
  (sp_stop_bits x) (sp_parity x) (sp_flow_control x) (sp_connect_on_open x) (sp_created_at x) (sp_updated_at x)
  (sp_last_used_at x).
Definition set_sp_updated_at (v : Z) (x : SerialProfile) : SerialProfile := mkSerial (sp_id x) (sp_name x) (sp_group
  x) (sp_icon x) (sp_color x) (sp_icon_background_color x) (sp_port_path x) (sp_baud_rate x) (sp_data_bits x)
  (sp_stop_bits x) (sp_parity x) (sp_flow_control x) (sp_connect_on_open x) (sp_created_at x) v (sp_last_used_at x).
Definition set_sp_last_used_at (v : option Z) (x : SerialProfile) : SerialProfile := mkSerial (sp_id x) (sp_name x)
  (sp_group x) (sp_icon x) (sp_color x) (sp_icon_background_color x) (sp_port_path x) (sp_baud_rate x) (sp_data_bits
  x) (sp_stop_bits x) (sp_parity x) (sp_flow_control x) (sp_connect_on_open x) (sp_created_at x) (sp_updated_at x) v.
Record SaveSerialProfileRequest := mkSaveSerial {
  ss_id : option (list Z);
  ss_name : list Z;
  ss_group : option (list Z);
  ss_icon : option (list Z);
  ss_color : option (list Z);
  ss_icon_background_color : option (list Z);
  ss_port_path : list Z;
  ss_baud_rate : option Z;
  ss_data_bits : option Z;
  ss_stop_bits : option Z;
  ss_parity : option SerialParity;
  ss_flow_control : option SerialFlowControl;
  ss_connect_on_open : option bool
}.
Record TelnetProfile := mkTelnet {
  tp_id : list Z;
  tp_name : list Z;
  tp_group : option (list Z);
  tp_icon : option (list Z);
  tp_color : option (list Z);
  tp_icon_background_color : option (list Z);
  tp_host : list Z;
  tp_port : Z;
  tp_terminal : ConnectionTerminalOptions;
  tp_connect_on_open : bool;
  tp_created_at : Z;
  tp_updated_at : Z;
  tp_last_used_at : option Z
}.
Definition set_tp_group (v : option (list Z)) (x : TelnetProfile) : TelnetProfile := mkTelnet (tp_id x) (tp_name x) v
  (tp_icon x) (tp_color x) (tp_icon_background_color x) (tp_host x) (tp_port x) (tp_terminal x) (tp_connect_on_open x)
  (tp_created_at x) (tp_updated_at x) (tp_last_used_at x).
Definition set_tp_updated_at (v : Z) (x : TelnetProfile) : TelnetProfile := mkTelnet (tp_id x) (tp_name x) (tp_group
  x) (tp_icon x) (tp_color x) (tp_icon_background_color x) (tp_host x) (tp_port x) (tp_terminal x) (tp_connect_on_open
  x) (tp_created_at x) v (tp_last_used_at x).
Definition set_tp_last_used_at (v : option Z) (x : TelnetProfile) : TelnetProfile := mkTelnet (tp_id x) (tp_name x)
  (tp_group x) (tp_icon x) (tp_color x) (tp_icon_background_color x) (tp_host x) (tp_port x) (tp_terminal x)
  (tp_connect_on_open x) (tp_created_at x) (tp_updated_at x) v.
Record SaveTelnetProfileRequest := mkSaveTelnet {
  st_id : option (list Z);
  st_name : list Z;
  st_group : option (list Z);
  st_icon : option (list Z);
  st_color : option (list Z);
  st_icon_background_color : option (list Z);
  st_host : list Z;
  st_port : Z;
  st_terminal : ConnectionTerminalOptions;
  st_connect_on_open : option bool
}.
Inductive RemoteDesktopProtocol := Rdp | Vnc.
Inductive RemoteDesktopVncSecurityPolicy := RequireVerifiedEncryption | AllowUnverifiedEncryption | AllowLegacy.
Inductive RemoteDesktopVncSessionMode := SharedSession | ExclusiveSession.
Inductive RemoteDesktopVncImageQuality := PerformanceQuality | BalancedQuality | BestQuality.
Inductive RemoteDesktopVncCompression := LowCompression | BalancedCompression | HighCompression.
Record RemoteDesktopVncOptions := mkVnc {
  vo_security_policy : RemoteDesktopVncSecurityPolicy;
  vo_session_mode : RemoteDesktopVncSessionMode;
  vo_image_quality : RemoteDesktopVncImageQuality;
  vo_compression : RemoteDesktopVncCompression
}.
Record RemoteDesktopClipboardOptions := mkClipboard {
  co_text : bool;
  co_images : bool;
  co_files : bool
}.
Record RemoteDesktopAudioOptions := mkAudio {
  ao_playback : bool;
  ao_capture : bool
}.
Record RemoteDesktopSessionOptions := mkSession {
  so_clipboard : RemoteDesktopClipboardOptions;
  so_audio : RemoteDesktopAudioOptions;
  so_use_all_monitors : bool;
  so_vnc : RemoteDesktopVncOptions
}.

Definition default_session : RemoteDesktopSessionOptions :=
  mkSession (mkClipboard true true false) (mkAudio true false) false
    (mkVnc RequireVerifiedEncryption SharedSession BalancedQuality BalancedCompression).
Record RemoteDesktopProfile := mkDesktop {
  rd_id : list Z;
  rd_name : list Z;
  rd_group : option (list Z);
  rd_icon : option (list Z);
  rd_color : option (list Z);
  rd_icon_background_color : option (list Z);
  rd_protocol : RemoteDesktopProtocol;
  rd_host : list Z;
  rd_port : Z;
  rd_username : option (list Z);
  rd_domain : option (list Z);
  rd_credential_ref : option (list Z);
  rd_read_only : bool;
  rd_session_options : RemoteDesktopSessionOptions;
  rd_created_at : Z;
  rd_updated_at : Z;
  rd_last_used_at : option Z
}.
Definition set_rd_group (v : option (list Z)) (x : RemoteDesktopProfile) : RemoteDesktopProfile := mkDesktop (rd_id x)
  (rd_name x) v (rd_icon x) (rd_color x) (rd_icon_background_color x) (rd_protocol x) (rd_host x) (rd_port x)
  (rd_username x) (rd_domain x) (rd_credential_ref x) (rd_read_only x) (rd_session_options x) (rd_created_at x)
  (rd_updated_at x) (rd_last_used_at x).
Definition set_rd_credential_ref (v : option (list Z)) (x : RemoteDesktopProfile) : RemoteDesktopProfile := mkDesktop
  (rd_id x) (rd_name x) (rd_group x) (rd_icon x) (rd_color x) (rd_icon_background_color x) (rd_protocol x) (rd_host x)
  (rd_port x) (rd_username x) (rd_domain x) v (rd_read_only x) (rd_session_options x) (rd_created_at x) (rd_updated_at
  x) (rd_last_used_at x).
Definition set_rd_updated_at (v : Z) (x : RemoteDesktopProfile) : RemoteDesktopProfile := mkDesktop (rd_id x) (rd_name
  x) (rd_group x) (rd_icon x) (rd_color x) (rd_icon_background_color x) (rd_protocol x) (rd_host x) (rd_port x)
  (rd_username x) (rd_domain x) (rd_credential_ref x) (rd_read_only x) (rd_session_options x) (rd_created_at x) v
  (rd_last_used_at x).
Definition set_rd_last_used_at (v : option Z) (x : RemoteDesktopProfile) : RemoteDesktopProfile := mkDesktop (rd_id x)
  (rd_name x) (rd_group x) (rd_icon x) (rd_color x) (rd_icon_background_color x) (rd_protocol x) (rd_host x) (rd_port
  x) (rd_username x) (rd_domain x) (rd_credential_ref x) (rd_read_only x) (rd_session_options x) (rd_created_at x)
  (rd_updated_at x) v.
Record SaveRemoteDesktopProfileRequest := mkSaveDesktop {
  sd_id : option (list Z);
  sd_name : list Z;
  sd_group : option (list Z);
  sd_icon : option (list Z);
  sd_color : option (list Z);
  sd_icon_background_color : option (list Z);
  sd_protocol : RemoteDesktopProtocol;
  sd_host : list Z;
  sd_port : Z;
  sd_username : option (list Z);
  sd_domain : option (list Z);
  sd_credential_ref : option (list Z);
  sd_credential : option (list Z);
  sd_clear_credential : bool;
  sd_read_only : bool;
  sd_session_options : RemoteDesktopSessionOptions
}.

(** ** The data of the store *)

Record DeletedConnectionTombstone := mkDeleted {
  dc_id : list Z;
  dc_deleted_at : Z
}.
Inductive ManagedSshKeyOrigin := ImportedFile | PastedText | OxideImport.
Record ManagedSshKey := mkManagedKey {
  mk_id : list Z;
  mk_secret_id : list Z;
  mk_name : list Z;
  mk_fingerprint : list Z;
  mk_public_key : list Z;
  mk_requires_passphrase : bool;
  mk_origin : ManagedSshKeyOrigin;
  mk_created_at : Z;
  mk_updated_at : Z
}.
Record ConnectionStoreData := mkStoreData {
  d_version : Z;
  d_connections : list SavedConnection;
  d_groups : list (list Z);
  d_recent : list (list Z);
  d_tombstones : list DeletedConnectionTombstone;
  d_managed_keys : list ManagedSshKey;
  d_serial : list SerialProfile;
  d_telnet : list TelnetProfile;
  d_desktop : list RemoteDesktopProfile;
  d_local_privileges : list SavedPrivilegeCredential;
  d_cleanup : list (list Z);
  d_privilege_cleanup : list (list Z)
}.
Definition set_d_connections (v : list SavedConnection) (x : ConnectionStoreData) : ConnectionStoreData := mkStoreData
  (d_version x) v (d_groups x) (d_recent x) (d_tombstones x) (d_managed_keys x) (d_serial x) (d_telnet x) (d_desktop
  x) (d_local_privileges x) (d_cleanup x) (d_privilege_cleanup x).
Definition set_d_groups (v : list (list Z)) (x : ConnectionStoreData) : ConnectionStoreData := mkStoreData (d_version
  x) (d_connections x) v (d_recent x) (d_tombstones x) (d_managed_keys x) (d_serial x) (d_telnet x) (d_desktop x)
  (d_local_privileges x) (d_cleanup x) (d_privilege_cleanup x).
Definition set_d_recent (v : list (list Z)) (x : ConnectionStoreData) : ConnectionStoreData := mkStoreData (d_version
  x) (d_connections x) (d_groups x) v (d_tombstones x) (d_managed_keys x) (d_serial x) (d_telnet x) (d_desktop x)
  (d_local_privileges x) (d_cleanup x) (d_privilege_cleanup x).
Definition set_d_tombstones (v : list DeletedConnectionTombstone) (x : ConnectionStoreData) : ConnectionStoreData :=
  mkStoreData (d_version x) (d_connections x) (d_groups x) (d_recent x) v (d_managed_keys x) (d_serial x) (d_telnet x)
  (d_desktop x) (d_local_privileges x) (d_cleanup x) (d_privilege_cleanup x).
Definition set_d_serial (v : list SerialProfile) (x : ConnectionStoreData) : ConnectionStoreData := mkStoreData
  (d_version x) (d_connections x) (d_groups x) (d_recent x) (d_tombstones x) (d_managed_keys x) v (d_telnet x)
  (d_desktop x) (d_local_privileges x) (d_cleanup x) (d_privilege_cleanup x).
Definition set_d_telnet (v : list TelnetProfile) (x : ConnectionStoreData) : ConnectionStoreData := mkStoreData
  (d_version x) (d_connections x) (d_groups x) (d_recent x) (d_tombstones x) (d_managed_keys x) (d_serial x) v
  (d_desktop x) (d_local_privileges x) (d_cleanup x) (d_privilege_cleanup x).
Definition set_d_desktop (v : list RemoteDesktopProfile) (x : ConnectionStoreData) : ConnectionStoreData :=
  mkStoreData (d_version x) (d_connections x) (d_groups x) (d_recent x) (d_tombstones x) (d_managed_keys x) (d_serial
  x) (d_telnet x) v (d_local_privileges x) (d_cleanup x) (d_privilege_cleanup x).
Definition set_d_local_privileges (v : list SavedPrivilegeCredential) (x : ConnectionStoreData) : ConnectionStoreData
  := mkStoreData (d_version x) (d_connections x) (d_groups x) (d_recent x) (d_tombstones x) (d_managed_keys x)
  (d_serial x) (d_telnet x) (d_desktop x) v (d_cleanup x) (d_privilege_cleanup x).
Definition set_d_cleanup (v : list (list Z)) (x : ConnectionStoreData) : ConnectionStoreData := mkStoreData (d_version
  x) (d_connections x) (d_groups x) (d_recent x) (d_tombstones x) (d_managed_keys x) (d_serial x) (d_telnet x)
  (d_desktop x) (d_local_privileges x) v (d_privilege_cleanup x).
Definition set_d_privilege_cleanup (v : list (list Z)) (x : ConnectionStoreData) : ConnectionStoreData := mkStoreData
  (d_version x) (d_connections x) (d_groups x) (d_recent x) (d_tombstones x) (d_managed_keys x) (d_serial x) (d_telnet
  x) (d_desktop x) (d_local_privileges x) (d_cleanup x) v.
Definition default_data : ConnectionStoreData := mkStoreData CONFIG_VERSION [] [] [] [] [] [] [] [] [] [] [].

(** ** Checks *)

(** What [anyhow] carries: a message of the code, or a failure outside. *)
Inductive ConnError :=
| Bail (message : list Z)
| KeychainFailed (id : list Z)
| EncodeFailed
| WriteFailed
| ReadFailed
| RollbackFailed (error : ConnError) (rollback_errors : list (list Z)).

Definition bail_if (b : bool) (message : string) : result ConnError unit := if b then Err (Bail (lit message)) else Ok tt.
Definition blank (s : list Z) : bool := bool_decide (trim s = []).
Definition non_empty (value : list Z) (label : string) : result ConnError (list Z) :=
  if decide (value = []) then Err (Bail (lit label ++ lit " is required")) else Ok value.
Definition normalize_optional_text (value : option (list Z)) : option (list Z) :=
  match value with Some v => if decide (trim v = []) then None else Some (trim v) | None => None end.

Definition validate_group_name (name : list Z) : result ConnError (list Z) :=
  let name := trim name in
  if decide (name = []) then Err (Bail (lit "group name cannot be empty"))
  else if existsb blank (split_char 47 name) then Err (Bail (lit "group path cannot contain empty segments"))
  else Ok name.
Fixpoint strip_prefix (prefix s : list Z) : option (list Z) :=
  match prefix, s with
  | [], _ => Some s
  | x :: p, y :: t => if x =? y then strip_prefix p t else None
  | _ :: _, [] => None
  end.
Definition group_path_is_within (candidate group : list Z) : bool :=
  bool_decide (candidate = group)
  || match strip_prefix group candidate with Some suffix => starts_with_char 47 suffix | None => false end.
Definition rename_group_path (candidate old_group new_group : list Z) : option (list Z) :=
  if group_path_is_within candidate old_group then Some (new_group ++ drop (length old_group) candidate) else None.
(** The second name is the Chinese for ungrouped. *)
Definition UNGROUPED : list (list Z) := [lit "Ungrouped"; [0x672A; 0x5206; 0x7EC4]].
Definition normalize_optional_group_name (group : option (list Z)) : result ConnError (option (list Z)) :=
  match normalize_optional_text group with
  | None => Ok None
  | Some group =>
      if bool_decide (group ∈ UNGROUPED) then Ok None
      else let? name := validate_group_name group in Ok (Some name)
  end.

Definition validate_serial (p : SerialProfile) : result ConnError unit :=
  let? _ := bail_if (blank (sp_id p)) "Serial profile id is required" in
  let? _ := bail_if (blank (sp_name p)) "Serial profile name is required" in
  let? _ := bail_if (blank (sp_port_path p)) "Serial port path is required" in
  let? _ := bail_if (sp_baud_rate p =? 0) "Serial baud rate must be greater than zero" in
  let? _ := bail_if (negb ((5 <=? sp_data_bits p) && (sp_data_bits p <=? 8))) "Serial data bits must be between 5 and 8" in
  bail_if (negb ((sp_stop_bits p =? 1) || (sp_stop_bits p =? 2))) "Serial stop bits must be 1 or 2".
Definition validate_telnet (p : TelnetProfile) : result ConnError unit :=
  let? _ := bail_if (blank (tp_id p)) "Telnet profile id is required" in
  let? _ := bail_if (blank (tp_name p)) "Telnet profile name is required" in
  bail_if (blank (tp_host p)) "Telnet host is required".
Definition validate_desktop (p : RemoteDesktopProfile) : result ConnError unit :=
  let? _ := bail_if (blank (rd_id p)) "Remote desktop profile id is required" in
  let? _ := bail_if (blank (rd_name p)) "Remote desktop profile name is required" in
  let? _ := bail_if (blank (rd_host p)) "Remote desktop host is required" in
  let? _ := bail_if (rd_port p =? 0) "Remote desktop port must be greater than zero" in
  bail_if (match rd_credential_ref p with Some r => blank r | None => false end)
    "Remote desktop credential reference cannot be empty".
Definition new_serial (uuid name port_path : list Z) (now : Z) : SerialProfile :=
  mkSerial uuid name None None None None port_path 115200 8 1 ParityNone FlowNone false now now None.
Definition new_telnet (uuid name host : list Z) (port now : Z) : TelnetProfile :=
  mkTelnet uuid name None None None None host port default_terminal false now now None.
Definition new_desktop (uuid name : list Z) (protocol : RemoteDesktopProtocol) (host : list Z) (port now : Z) : RemoteDesktopProfile :=
  mkDesktop uuid name None None None None protocol host port None None None false default_session now now None.

(** ** Names in the keychains *)

Definition new_password_keychain_id (uuid : list Z) : list Z := lit "oxide_conn_" ++ uuid.
Definition new_key_passphrase_keychain_id (uuid : list Z) : list Z := lit "oxide_conn_key_" ++ uuid.
Definition new_upstream_proxy_password_keychain_id (uuid : list Z) : list Z := lit "oxide_conn_upstream_proxy_" ++ uuid.
Definition privilege_keychain_id (connection_id credential_id : list Z) : list Z :=
  lit "privilege:v1:" ++ connection_id ++ lit ":" ++ credential_id.
Definition remote_desktop_credential_ref (profile_id : list Z) : list Z := lit "remote-desktop:" ++ profile_id.

Definition existing_password_keychain_id (auth : option SavedAuth) : option (list Z) :=
  match auth with Some (SaPassword (Some k) _) => Some k | _ => None end.
Definition existing_upstream_proxy_password_keychain_id (policy : option SavedUpstreamProxyPolicy) : option (list Z) :=
  match policy with
  | Some (Custom p) => match up_auth p with UpPassword _ (Some k) _ => Some k | _ => None end
  | _ => None
  end.
Definition collect_keychain_ids_for_auth (auth : SavedAuth) : list (list Z) :=
  match auth with
  | SaPassword (Some k) _ | SaKey _ _ (Some k) _ | SaCertificate _ _ _ (Some k) _ | SaManagedKey _ (Some k) _ => [k]
  | _ => []
  end.
Definition collect_keychain_ids_for_upstream_proxy (policy : SavedUpstreamProxyPolicy) : list (list Z) :=
  match policy with
  | Custom p => match up_auth p with UpPassword _ (Some k) _ => [k] | _ => [] end
  | _ => []
  end.
Definition collect_keychain_ids_for_parts (auth : SavedAuth) (proxy_chain : list SavedProxyHop)
    (upstream_proxy : SavedUpstreamProxyPolicy) : list (list Z) :=
  collect_keychain_ids_for_auth auth ++ flat_map (fun hop => collect_keychain_ids_for_auth (hp_auth hop)) proxy_chain
  ++ collect_keychain_ids_for_upstream_proxy upstream_proxy.
Definition collect_connection_keychain_ids (c : SavedConnection) : list (list Z) :=
  collect_keychain_ids_for_parts (cn_auth c) (cn_proxy_chain c) (cn_upstream_proxy c).
Definition collect_privilege_keychain_ids (c : SavedConnection) : list (list Z) := omap pc_keychain_id (cn_privilege_credentials c).

Definition matching_key_passphrase (auth : option SavedAuth) (key_path : list Z) : option (bool * option (list Z)) :=
  match auth with
  | Some (SaKey p has k _) => if decide (p = key_path) then Some (has, k) else None
  | _ => None
  end.
Definition matching_key_passphrase_id (auth : option SavedAuth) (key_path : list Z) : option (list Z) :=
  matching_key_passphrase auth key_path ≫= snd.
Definition matching_certificate_passphrase (auth : option SavedAuth) (key_path cert_path : list Z) : option (bool * option (list Z)) :=
  match auth with
  | Some (SaCertificate p c has k _) => if decide (p = key_path /\ c = cert_path) then Some (has, k) else None
  | _ => None
  end.
Definition matching_certificate_passphrase_id (auth : option SavedAuth) (key_path cert_path : list Z) : option (list Z) :=
  matching_certificate_passphrase auth key_path cert_path ≫= snd.
Definition matching_managed_key_passphrase_id (auth : option SavedAuth) (key_id : list Z) : option (list Z) :=
  match auth with
  | Some (SaManagedKey i k _) => if decide (i = key_id) then k else None
  | _ => None
  end.

(** ** Prompts of privilege helpers *)

Definition default_privilege_prompt_patterns (kind : PrivilegeCredentialKind) : list (list Z) :=
  match kind with
  | SudoPassword => [lit "[sudo]"; lit "password for"; [0x7684; 0x5BC6; 0x7801]; lit "sudo password"]
  | SuPassword => [lit "su: password"; lit "password:"; [0x5BC6; 0x7801; 0xFF1A]]
  | CustomPrompt => []
  end.
Definition legacy_privilege_prompt_patterns (kind : PrivilegeCredentialKind) : list (list Z) :=
  match kind with
  | SudoPassword => [lit "[sudo] password for"; lit "sudo password"]
  | SuPassword => [lit "Password:"; lit "su: Password:"]
  | CustomPrompt => []
  end.
Definition normalize_privilege_prompt_patterns (kind : PrivilegeCredentialKind) (patterns : list (list Z)) : list (list Z) :=
  let patterns := List.filter (fun p => negb (bool_decide (p = []))) (map trim patterns) in
  if decide (patterns = []) then default_privilege_prompt_patterns kind
  else if negb (bool_decide (kind = CustomPrompt)) && bool_decide (patterns = legacy_privilege_prompt_patterns kind)
  then default_privilege_prompt_patterns kind
  else patterns.
Definition normalize_saved_privilege_credential_for_display (c : SavedPrivilegeCredential) : SavedPrivilegeCredential :=
  set_pc_prompt_patterns (normalize_privilege_prompt_patterns (pc_kind c) (pc_prompt_patterns c)) c.

(** ** Use of managed keys *)

Record ManagedSshKeyUsageItem := mkUsage { us_connection_id : list Z; us_connection_name : list Z; us_location : list Z }.
Definition uses_key (key_id : list Z) (auth : SavedAuth) : bool :=
  match auth with SaManagedKey i _ _ => bool_decide (i = key_id) | _ => false end.
Definition managed_key_usage_from_data (data : ConnectionStoreData) (key_id : list Z) : list ManagedSshKeyUsageItem :=
  flat_map (fun c =>
    (if uses_key key_id (cn_auth c) then [mkUsage (cn_id c) (cn_name c) (lit "connection")] else [])
    ++ concat (imap (fun index hop =>
         if uses_key key_id (hp_auth hop)
         then [mkUsage (cn_id c) (cn_name c) (lit "proxy_chain[" ++ u64_to_string (Z.of_nat index) ++ lit "]")]
         else []) (cn_proxy_chain c))) (d_connections data).
