(* ===== verification/ConnStore.v ===== *)
(** * The store of saved connections (hapcli-connections)

    Model of [store/connection_store.rs] and [keychain.rs]: connections, groups,
    profiles and privilege credentials in memory, their file, and the keychains
    that hold the secrets.  Every call on the outside may fail; which do, the
    readings of the clock and the UUIDs are arguments, indexed by a counter of
    such calls.  A write of the file is all or nothing ([AtomicFile]): it is
    done, or done without having been synced, which is reported as a failure,
    or not done.

    Managed SSH keys (their secrets may be in encrypted files) and the encrypted
    form of the store's file are not part of the model. *)
From S2P Require Import Prelude Text TrzszBuffer TextOps ForwardModel ConnTypes.
From Stdlib Require Import String.
From stdpp Require Import prelude numbers list gmap.
Open Scope Z_scope.

(** ** Lists of things with ids *)

Fixpoint update_first {A} (p : A -> bool) (f : A -> A) (l : list A) : option (list A) :=
  match l with
  | [] => None
  | x :: l => if p x then Some (f x :: l) else cons x <$> update_first p f l
  end.
Definition upsert_by {A} (key : A -> list Z) (x : A) (l : list A) : list A :=
  match update_first (fun y => bool_decide (key y = key x)) (fun _ => x) l with Some l => l | None => l ++ [x] end.
(** [Vec::dedup]. *)
Fixpoint dedup (l : list (list Z)) : list (list Z) :=
  match l with
  | x :: ((y :: _) as t) => if decide (x = y) then dedup t else x :: dedup t
  | l => l
  end.
Definition push_missing (l : list (list Z)) (x : list Z) : list (list Z) := if decide (x ∈ l) then l else l ++ [x].

Definition get (id : list Z) (d : ConnectionStoreData) : option SavedConnection :=
  List.find (fun c => bool_decide (cn_id c = id)) (d_connections d).
Definition get_remote_desktop_profile (id : list Z) (d : ConnectionStoreData) : option RemoteDesktopProfile :=
  List.find (fun p => bool_decide (rd_id p = id)) (d_desktop d).

(** ** Changes of the data *)

Definition NANOS_PER_DAY : Z := 86400 * 1000000000.
Definition active_connection_tombstones (now : Z) (l : list DeletedConnectionTombstone) : list DeletedConnectionTombstone :=
  List.filter (fun t => now - CONNECTION_TOMBSTONE_RETENTION_DAYS * NANOS_PER_DAY <=? dc_deleted_at t) l.

Section Data.
Context (to_lowercase : list Z -> list Z).

Definition name_le {A} (name : A -> list Z) (a b : A) : bool := str_le (to_lowercase (name a)) (to_lowercase (name b)).
Definition normalize_connection (c : SavedConnection) : SavedConnection :=
  match op_post_connect_command (cn_options c) with
  | None => set_cn_post_connect_command None
              (set_cn_options (set_op_post_connect_command (cn_post_connect_command c) (cn_options c)) c)
  | Some _ => set_cn_post_connect_command None c
  end.
Definition normalize (now : Z) (d : ConnectionStoreData) : ConnectionStoreData :=
  let d := set_d_tombstones (active_connection_tombstones now (d_tombstones d)) d in
  let d := set_d_recent (dedup (List.filter (fun r => existsb (fun c => bool_decide (cn_id c = r)) (d_connections d)) (d_recent d))) d in
  let d := set_d_groups (dedup (sort_by (name_le id) (d_groups d))) d in
  let d := set_d_groups (fold_left push_missing (omap cn_group (d_connections d)) (d_groups d)) d in
  let d := set_d_groups (fold_left push_missing (omap sp_group (d_serial d) ++ omap tp_group (d_telnet d) ++ omap rd_group (d_desktop d))
                           (d_groups d)) d in
  let d := set_d_connections (sort_by (name_le cn_name) (map normalize_connection (d_connections d))) d in
  let d := set_d_serial (sort_by (name_le sp_name) (d_serial d)) d in
  let d := set_d_telnet (sort_by (name_le tp_name) (d_telnet d)) d in
  set_d_desktop (sort_by (name_le rd_name) (d_desktop d)) d.

Definition add_connection (c : SavedConnection) (d : ConnectionStoreData) : ConnectionStoreData :=
  let d := set_d_connections (List.filter (fun x => negb (bool_decide (cn_id x = cn_id c))) (d_connections d)) d in
  let d := set_d_tombstones (List.filter (fun t => negb (bool_decide (dc_id t = cn_id c))) (d_tombstones d)) d in
  set_d_connections (d_connections d ++ [c]) d.
Fixpoint remove_first {A} (p : A -> bool) (l : list A) : option (A * list A) :=
  match l with
  | [] => None
  | x :: l => if p x then Some (x, l) else prod_map id (cons x) <$> remove_first p l
  end.
Definition remove_connection_without_tombstone (id : list Z) (d : ConnectionStoreData) : option (SavedConnection * ConnectionStoreData) :=
  match remove_first (fun c => bool_decide (cn_id c = id)) (d_connections d) with
  | None => None
  | Some (c, l) =>
      Some (c, set_d_connections l (set_d_recent (List.filter (fun r => negb (bool_decide (r = id))) (d_recent d)) d))
  end.
Definition upsert_connection_tombstone (now : Z) (id : list Z) (deleted_at : Z) (d : ConnectionStoreData)
    : bool * ConnectionStoreData :=
  let l := active_connection_tombstones now (d_tombstones d) in
  match List.find (fun t => bool_decide (dc_id t = id)) l with
  | Some existing =>
      if deleted_at <=? dc_deleted_at existing then (false, set_d_tombstones l d)
      else (true, set_d_tombstones (default l (update_first (fun t => bool_decide (dc_id t = id))
                                                 (fun t => mkDeleted (dc_id t) deleted_at) l)) d)
  | None => (true, set_d_tombstones (l ++ [mkDeleted id deleted_at]) d)
  end.
Definition remove_connection_with_tombstone_at (now : Z) (id : list Z) (deleted_at : Z) (d : ConnectionStoreData)
    : option (SavedConnection * ConnectionStoreData) :=
  match remove_connection_without_tombstone id d with
  | None => None
  | Some (removed, d) => Some (removed, (upsert_connection_tombstone now (cn_id removed) deleted_at d).2)
  end.
End Data.

(** ** The outside *)

Record World := mkWorld {
  w_data : ConnectionStoreData;
  w_file : option (list Z);
  w_keychain : gmap (list Z) (list Z);
  w_privilege : gmap (list Z) (list Z);
  w_tick : nat
}.
Definition set_w_data v (w : World) := mkWorld v (w_file w) (w_keychain w) (w_privilege w) (w_tick w).
Definition set_w_file v (w : World) := mkWorld (w_data w) v (w_keychain w) (w_privilege w) (w_tick w).
Definition set_w_keychain v (w : World) := mkWorld (w_data w) (w_file w) v (w_privilege w) (w_tick w).
Definition set_w_privilege v (w : World) := mkWorld (w_data w) (w_file w) (w_keychain w) v (w_tick w).
Definition set_w_tick v (w : World) := mkWorld (w_data w) (w_file w) (w_keychain w) (w_privilege w) v.
Abbreviation CM := (M ConnError World).

Inductive WriteOutcome := Written | WrittenUnsynced | NotWritten.

(** The documents of [serde_json], the times of [chrono], the order in which a
    hash set is walked, and what can go wrong when. *)
Class Outside := {
  encode_data : ConnectionStoreData -> result ConnError (list Z);
  decode_data : list Z -> result ConnError ConnectionStoreData;
  to_rfc3339 : Z -> list Z;
  parse_from_rfc3339 : list Z -> option Z;
  lowercase : list Z -> list Z;
  now_at : nat -> Z;
  uuid_at : nat -> list Z;
  keychain_fails : nat -> bool;
  write_outcome : nat -> WriteOutcome;
  read_fails : nat -> bool;
  hash_order : gset (list Z) -> list (list Z)
}.

Section Store.
Context `{out : Outside}.

Definition tick : CM nat := fun w => Some (Ok (w_tick w), set_w_tick (S (w_tick w)) w).
Definition clock : CM Z := let* n := tick in ret (now_at n).
Definition new_uuid : CM (list Z) := let* n := tick in ret (uuid_at n).
Definition data : CM ConnectionStoreData := fun w => Some (Ok (w_data w), w).
Definition change_data (f : ConnectionStoreData -> ConnectionStoreData) : CM unit := fun w => Some (Ok tt, set_w_data (f (w_data w)) w).
Definition normalized : CM unit := let* now := clock in change_data (normalize lowercase now).

(** A keychain: a map whose calls may fail. *)
Inductive Keychain := Connections | Privileges.
Definition entries (k : Keychain) (w : World) : gmap (list Z) (list Z) :=
  match k with Connections => w_keychain w | Privileges => w_privilege w end.
Definition set_entries (k : Keychain) v (w : World) : World :=
  match k with Connections => set_w_keychain v w | Privileges => set_w_privilege v w end.
Definition on_keychain {A} (k : Keychain) (id : list Z) (f : gmap (list Z) (list Z) -> A * gmap (list Z) (list Z)) : CM A :=
  let* n := tick in
  if keychain_fails n then throw (KeychainFailed id)
  else fun w => Some (Ok (f (entries k w)).1, set_entries k (f (entries k w)).2 w).
Definition store (k : Keychain) (id secret : list Z) : CM unit := on_keychain k id (fun m => (tt, <[id := secret]> m)).
Definition delete (k : Keychain) (id : list Z) : CM unit := on_keychain k id (fun m => (tt, base.delete id m)).
Definition get_optional (k : Keychain) (id : list Z) : CM (option (list Z)) := on_keychain k id (fun m => (m !! id, m)).
Definition get_secret (k : Keychain) (id : list Z) : CM (list Z) :=
  let* secret := get_optional k id in
  match secret with Some s => ret s | None => throw (Bail (lit "Password not saved for this connection")) end.
(** [let _ = ...]. *)
Definition ignore {A} (m : CM A) : CM unit := do* attempt m in ret tt.
Fixpoint for_each {A} (f : A -> CM unit) (l : list A) : CM unit :=
  match l with [] => ret tt | x :: l => do* f x in for_each f l end.

Definition save : CM unit :=
  let* d := data in
  let* bytes := lift (encode_data d) in
  let* n := tick in
  match write_outcome n with
  | Written => fun w => Some (Ok tt, set_w_file (Some bytes) w)
  | WrittenUnsynced => fun w => Some (Err WriteFailed, set_w_file (Some bytes) w)
  | NotWritten => throw WriteFailed
  end.

(** ** Secrets go to the keychain *)

Definition choose (o : option (list Z)) (fresh : CM (list Z)) : CM (list Z) :=
  match o with Some k => ret k | None => fresh end.
Definition or_else {A} (a b : option A) : option A := match a with Some _ => a | None => b end.
Definition fresh_password_id : CM (list Z) := let* u := new_uuid in ret (new_password_keychain_id u).
Definition fresh_passphrase_id : CM (list Z) := let* u := new_uuid in ret (new_key_passphrase_keychain_id u).
Definition fresh_proxy_id : CM (list Z) := let* u := new_uuid in ret (new_upstream_proxy_password_keychain_id u).

Definition materialize_auth_with_runtime_secret (auth : SavedAuth) (existing : option SavedAuth) : CM (SavedAuth * option (list Z)) :=
  match auth with
  | SaPassword keychain_id (Some password) =>
      let* k := choose (or_else (existing_password_keychain_id existing) keychain_id) fresh_password_id in
      do* store Connections k password in
      ret (SaPassword (Some k) None, Some password)
  | SaPassword keychain_id None => ret (SaPassword keychain_id None, None)
  | SaKey path has id (Some passphrase) =>
      let* k := choose (or_else (matching_key_passphrase_id existing path) id) fresh_passphrase_id in
      do* store Connections k passphrase in
      ret (SaKey path true (Some k) None, Some passphrase)
  | SaKey path has id None =>
      match matching_key_passphrase existing path with
      | Some (has, id) => ret (SaKey path has id None, None)
      | None => ret (SaKey path (has || bool_decide (is_Some id)) id None, None)
      end
  | SaCertificate path cert has id (Some passphrase) =>
      let* k := choose (or_else (matching_certificate_passphrase_id existing path cert) id) fresh_passphrase_id in
      do* store Connections k passphrase in
      ret (SaCertificate path cert true (Some k) None, Some passphrase)
  | SaCertificate path cert has id None =>
      match matching_certificate_passphrase existing path cert with
      | Some (has, id) => ret (SaCertificate path cert has id None, None)
      | None => ret (SaCertificate path cert (has || bool_decide (is_Some id)) id None, None)
      end
  | SaManagedKey key_id id (Some passphrase) =>
      let* k := choose (or_else (matching_managed_key_passphrase_id existing key_id) id) fresh_passphrase_id in
      do* store Connections k passphrase in
      ret (SaManagedKey key_id (Some k) None, Some passphrase)
  | SaManagedKey key_id id None =>
      match matching_managed_key_passphrase_id existing key_id with
      | Some k => ret (SaManagedKey key_id (Some k) None, None)
      | None => ret (SaManagedKey key_id id None, None)
      end
  | auth => ret (auth, None)
  end.
Definition materialize_auth (auth : SavedAuth) (existing : option SavedAuth) : CM SavedAuth :=
  let* r := materialize_auth_with_runtime_secret auth existing in ret r.1.

Definition check_hop (h : SavedProxyHop) (auth : SavedAuth) : result ConnError SavedProxyHop :=
  let? host := non_empty (trim (hp_host h)) "Proxy host" in
  let? username := non_empty (trim (hp_username h)) "Proxy username" in
  Ok (mkHop host (Z.max (hp_port h) 1) username auth (hp_agent_forwarding h) (hp_identity_agent h)
        (hp_agent_forwarding_socket h) (hp_legacy_ssh_compatibility h)).
Fixpoint materialize_proxy_chain_with_runtime_secrets (chain : list SavedProxyHop) : CM (list SavedProxyHop * list (option (list Z))) :=
  match chain with
  | [] => ret ([], [])
  | hop :: rest =>
      let* a := materialize_auth_with_runtime_secret (hp_auth hop) None in
      let* hop := lift (check_hop hop a.1) in
      let* r := materialize_proxy_chain_with_runtime_secrets rest in
      ret (hop :: r.1, a.2 :: r.2)
  end.
Definition materialize_proxy_chain (chain : list SavedProxyHop) : CM (list SavedProxyHop) :=
  let* r := materialize_proxy_chain_with_runtime_secrets chain in ret r.1.

Definition materialize_upstream_proxy_auth_with_runtime_secret (auth : SavedUpstreamProxyAuth)
    (existing : option SavedUpstreamProxyPolicy) : CM (SavedUpstreamProxyAuth * option (list Z)) :=
  match auth with
  | UpNone => ret (UpNone, None)
  | UpPassword username keychain_id plaintext =>
      let* username := lift (non_empty (trim username) "Upstream proxy username") in
      match plaintext with
      | Some password =>
          let* k := choose (or_else (existing_upstream_proxy_password_keychain_id existing) keychain_id) fresh_proxy_id in
          do* store Connections k password in
          ret (UpPassword username (Some k) None, Some password)
      | None => ret (UpPassword username keychain_id None, None)
      end
  end.
Definition materialize_upstream_proxy_policy_with_runtime_secret (policy : SavedUpstreamProxyPolicy)
    (existing : option SavedUpstreamProxyPolicy) : CM (SavedUpstreamProxyPolicy * option (list Z)) :=
  match policy with
  | UseGlobal => ret (UseGlobal, None)
  | Direct => ret (Direct, None)
  | Custom proxy =>
      let* a := materialize_upstream_proxy_auth_with_runtime_secret (up_auth proxy) existing in
      let* host := lift (non_empty (trim (up_host proxy)) "Upstream proxy host") in
      ret (Custom (mkUpstream (up_protocol proxy) host (Z.max (up_port proxy) 1) a.1 (up_remote_dns proxy)
                     (trim (up_no_proxy proxy))), a.2)
  end.
Definition materialize_upstream_proxy_policy (policy : SavedUpstreamProxyPolicy) (existing : option SavedUpstreamProxyPolicy)
    : CM SavedUpstreamProxyPolicy :=
  let* r := materialize_upstream_proxy_policy_with_runtime_secret policy existing in ret r.1.

(** ** Groups *)

Definition ensure_group (name : list Z) : CM unit :=
  let* name := lift (validate_group_name name) in
  let* d := data in
  if decide (name ∈ d_groups d) then ret tt
  else do* change_data (fun d => set_d_groups (d_groups d ++ [name]) d) in normalized.
Definition ensure_optional_group (group : option (list Z)) : CM unit :=
  match group with Some g => ensure_group g | None => ret tt end.
Definition create_group (name : list Z) : CM unit := do* ensure_group name in save.

Definition in_group (name : list Z) (group : option (list Z)) : bool :=
  match group with Some g => group_path_is_within g name | None => false end.
Definition delete_group_data (name : list Z) (now : Z) (d : ConnectionStoreData) : ConnectionStoreData :=
  let d := set_d_groups (List.filter (fun g => negb (group_path_is_within g name)) (d_groups d)) d in
  let d := set_d_connections (map (fun c => if in_group name (cn_group c) then set_cn_updated_at (Some now) (set_cn_group None c) else c)
                                (d_connections d)) d in
  let d := set_d_serial (map (fun p => if in_group name (sp_group p) then set_sp_updated_at now (set_sp_group None p) else p) (d_serial d)) d in
  let d := set_d_telnet (map (fun p => if in_group name (tp_group p) then set_tp_updated_at now (set_tp_group None p) else p) (d_telnet d)) d in
  set_d_desktop (map (fun p => if in_group name (rd_group p) then set_rd_updated_at now (set_rd_group None p) else p) (d_desktop d)) d.
Definition delete_group (name : list Z) : CM unit :=
  let* name := lift (validate_group_name name) in
  let* now := clock in
  do* change_data (delete_group_data name now) in
  save.

(** A list with the groups of its elements renamed, and how many were. *)
Definition rename_in {A} (group : A -> option (list Z)) (set_group : list Z -> A -> A) (old new : list Z) (l : list A) : list A * Z :=
  let renamed x := group x ≫= (fun g => rename_group_path g old new) in
  (map (fun x => match renamed x with Some g => set_group g x | None => x end) l,
   zlen (List.filter (fun x => bool_decide (is_Some (renamed x))) l)).
Definition rename_group_data (old new : list Z) (now : Z) (d : ConnectionStoreData) : ConnectionStoreData * Z :=
  let '(groups, n0) := rename_in Some (fun g _ => g) old new (d_groups d) in
  let '(connections, n1) := rename_in cn_group (fun g c => set_cn_updated_at (Some now) (set_cn_group (Some g) c)) old new (d_connections d) in
  let '(serial, n2) := rename_in sp_group (fun g p => set_sp_updated_at now (set_sp_group (Some g) p)) old new (d_serial d) in
  let '(telnet, n3) := rename_in tp_group (fun g p => set_tp_updated_at now (set_tp_group (Some g) p)) old new (d_telnet d) in
  let '(desktop, n4) := rename_in rd_group (fun g p => set_rd_updated_at now (set_rd_group (Some g) p)) old new (d_desktop d) in
  (set_d_desktop desktop (set_d_telnet telnet (set_d_serial serial (set_d_connections connections (set_d_groups groups d)))),
   n0 + n1 + n2 + n3 + n4).
Definition rename_group (old_name new_name : list Z) : CM Z :=
  let* old := lift (validate_group_name old_name) in
  let* new := lift (validate_group_name new_name) in
  if decide (old = new) then ret 0
  else if group_path_is_within new old then throw (Bail (lit "a group cannot be moved into its own subtree"))
  else
    let* d := data in
    if existsb (fun g => group_path_is_within g new && negb (group_path_is_within g old)) (d_groups d)
    then throw (Bail (lit "the destination group already exists"))
    else
      let* now := clock in
      let '(d, updated) := rename_group_data old new now d in
      do* change_data (fun _ => d) in
      if 0 <? updated then do* normalized in do* save in ret updated
      else ret updated.

Definition move_session_assets_to_group (connection_ids remote_desktop_ids : list (list Z)) (group : option (list Z)) : CM Z :=
  let* group := lift (normalize_optional_group_name group) in
  let* now := clock in
  let* d := data in
  let moves_connection c := bool_decide (cn_id c ∈ connection_ids) in
  let moves_desktop p := bool_decide (rd_id p ∈ remote_desktop_ids) in
  let updated := zlen (List.filter moves_connection (d_connections d)) + zlen (List.filter moves_desktop (d_desktop d)) in
  do* change_data (fun d => set_d_desktop
         (map (fun p => if moves_desktop p then set_rd_updated_at now (set_rd_group group p) else p) (d_desktop d))
         (set_d_connections
            (map (fun c => if moves_connection c then set_cn_updated_at (Some now) (set_cn_group group c) else c) (d_connections d)) d)) in
  do* ensure_optional_group group in
  do* save in
  ret updated.
Definition move_to_group (ids : list (list Z)) (group : option (list Z)) : CM Z := move_session_assets_to_group ids [] group.

(** ** Connections *)

Definition put_connection (c : SavedConnection) (d : ConnectionStoreData) : ConnectionStoreData :=
  set_d_connections (upsert_by cn_id c (d_connections d)) d.
Definition stale_ids (old next : list (list Z)) : list (list Z) := List.filter (fun k => negb (bool_decide (k ∈ next))) old.
(** Looking up what was just saved; the code panics where it is missing. *)
Definition info_of (id : list Z) : CM ConnectionInfo :=
  let* d := data in
  match get id d with Some c => ret (connection_info to_rfc3339 c) | None => throw (Bail (lit "connection saved")) end.

Definition upsert_with_runtime_secrets (request : SaveConnectionRequest) : CM (ConnectionInfo * SavedConnectionRuntimeSecrets) :=
  let* group := lift (normalize_optional_group_name (rq_group request)) in
  let* now := clock in
  let* id := choose (rq_id request) new_uuid in
  let* d := data in
  let existing := get id d in
  let old_keychain_ids := from_option collect_connection_keychain_ids [] existing in
  let o := from_option cn_options default_options existing in
  let* auth := materialize_auth_with_runtime_secret (rq_auth request) (cn_auth <$> existing) in
  let* chain := materialize_proxy_chain_with_runtime_secrets (rq_proxy_chain request) in
  let* upstream := materialize_upstream_proxy_policy_with_runtime_secret (rq_upstream_proxy request) (cn_upstream_proxy <$> existing) in
  let next_keychain_ids := collect_keychain_ids_for_parts auth.1 chain.1 upstream.1 in
  let options := mkOptions (op_keep_alive_interval o) (op_compression o) (op_jump_host o) (op_term_type o)
    (rq_agent_forwarding request) (rq_identity_agent request) (rq_agent_forwarding_socket request)
    (rq_legacy_ssh_compatibility request) (rq_dedicated_new_terminal_connection request) (rq_x11_forwarding request)
    (normalize_optional_text (rq_post_connect_command request)) (rq_terminal request) in
  let* name := lift (non_empty (trim (rq_name request)) "Connection name") in
  let* host := lift (non_empty (trim (rq_host request)) "Host") in
  let* username := lift (non_empty (trim (rq_username request)) "Username") in
  let connection := mkConnection id (from_option cn_version CONFIG_VERSION existing) name group host (Z.max (rq_port request) 1)
    username auth.1 chain.1 upstream.1 options (from_option cn_created_at now existing)
    (match existing with Some _ => Some now | None => None end) (Some now) (rq_color request)
    (rq_icon_background_color request) (normalize_optional_text (rq_icon request)) (rq_tags request) None
    (from_option cn_privilege_credentials [] existing) in
  do* change_data (put_connection connection) in
  do* ensure_optional_group group in
  do* normalized in
  do* save in
  do* for_each (fun k => ignore (delete Connections k)) (stale_ids old_keychain_ids next_keychain_ids) in
  let* info := info_of id in
  ret (info, mkRuntimeSecrets auth.2 chain.2 upstream.2).
Definition upsert (request : SaveConnectionRequest) : CM ConnectionInfo :=
  let* r := upsert_with_runtime_secrets request in ret r.1.

Definition delete_connection (id : list Z) : CM bool :=
  let* d := data in
  let keychain_ids := from_option collect_connection_keychain_ids [] (get id d) in
  let privilege_keychain_ids := from_option collect_privilege_keychain_ids [] (get id d) in
  let* deleted_at := clock in
  let* now := clock in
  match remove_connection_with_tombstone_at now id deleted_at d with
  | None => ret false
  | Some (_, d) =>
      do* change_data (fun _ => d) in
      do* normalized in
      do* save in
      do* for_each (fun k => ignore (delete Connections k)) keychain_ids in
      do* for_each (fun k => ignore (delete Privileges k)) privilege_keychain_ids in
      ret true
  end.
Definition rename_connection (id name : list Z) : CM bool :=
  let* d := data in
  match get id d with
  | None => ret false
  | Some _ =>
      let* name := lift (non_empty (trim name) "Connection name") in
      let* now := clock in
      do* change_data (fun d => set_d_connections (default (d_connections d)
             (update_first (fun c => bool_decide (cn_id c = id)) (fun c => set_cn_updated_at (Some now) (set_cn_name name c)) (d_connections d))) d) in
      do* normalized in
      do* save in
      ret true
  end.
Definition mark_used (id : list Z) : CM bool :=
  let* d := data in
  match get id d with
  | None => ret false
  | Some _ =>
      let* now := clock in
      do* change_data (fun d =>
             let d := set_d_connections (default (d_connections d)
                        (update_first (fun c => bool_decide (cn_id c = id)) (touch now) (d_connections d))) d in
             set_d_recent (take 10 (id :: List.filter (fun r => negb (bool_decide (r = id))) (d_recent d))) d) in
      do* save in
      ret true
  end.

(** A copy of a secret under a name of its own. *)
Definition clone_auth_secret (auth : SavedAuth) : CM SavedAuth :=
  match auth with
  | SaPassword (Some k) _ =>
      let* secret := get_secret Connections k in
      let* next := fresh_password_id in
      do* store Connections next secret in
      ret (SaPassword (Some next) None)
  | SaPassword None _ => ret (SaPassword None None)
  | SaKey path has (Some k) _ =>
      let* secret := get_secret Connections k in
      let* next := fresh_passphrase_id in
      do* store Connections next secret in
      ret (SaKey path has (Some next) None)
  | SaCertificate path cert has (Some k) _ =>
      let* secret := get_secret Connections k in
      let* next := fresh_passphrase_id in
      do* store Connections next secret in
      ret (SaCertificate path cert has (Some next) None)
  | auth => ret auth
  end.
Fixpoint clone_hops (hops : list SavedProxyHop) : CM (list SavedProxyHop) :=
  match hops with
  | [] => ret []
  | hop :: rest =>
      let* auth := clone_auth_secret (hp_auth hop) in
      let* rest := clone_hops rest in
      ret (set_hp_auth auth hop :: rest)
  end.
Definition duplicate (id : list Z) : CM (option ConnectionInfo) :=
  let* d := data in
  match get id d with
  | None => ret None
  | Some c =>
      let* new_id := new_uuid in
      let* created_at := clock in
      let* updated_at := clock in
      let* auth := clone_auth_secret (cn_auth c) in
      let* hops := clone_hops (cn_proxy_chain c) in
      let copy := mkConnection new_id (cn_version c) (cn_name c ++ lit " (Copy)") (cn_group c) (cn_host c) (cn_port c)
        (cn_username c) auth hops (cn_upstream_proxy c) (cn_options c) created_at None (Some updated_at) (cn_color c)
        (cn_icon_background_color c) (cn_icon c) (cn_tags c) (cn_post_connect_command c) [] in
      do* change_data (fun d => set_d_connections (d_connections d ++ [copy]) d) in
      do* normalized in
      do* save in
      let* d := data in
      ret (connection_info to_rfc3339 <$> get new_id d)
  end.

(** *** Reading secrets *)

Definition get_saved_auth_password (auth : SavedAuth) : CM (list Z) :=
  match auth with
  | SaPassword (Some k) _ => get_secret Connections k
  | SaPassword None (Some password) => ret password
  | SaPassword None None => throw (Bail (lit "Password not saved for this connection"))
  | _ => throw (Bail (lit "Connection does not use password auth"))
  end.
Definition get_connection_password (id : list Z) : CM (list Z) :=
  let* d := data in
  match get id d with
  | None => throw (Bail (lit "Connection not found"))
  | Some c => get_saved_auth_password (cn_auth c)
  end.
Definition get_saved_auth_passphrase (auth : SavedAuth) : CM (option (list Z)) :=
  match auth with
  | SaKey _ _ (Some k) _ | SaCertificate _ _ _ (Some k) _ | SaManagedKey _ (Some k) _ =>
      let* s := get_secret Connections k in ret (Some s)
  | SaKey _ _ None p | SaCertificate _ _ _ None p | SaManagedKey _ None p => ret p
  | _ => throw (Bail (lit "Connection does not use key passphrase auth"))
  end.
Definition get_connection_passphrase (id : list Z) : CM (option (list Z)) :=
  let* d := data in
  match get id d with
  | None => throw (Bail (lit "Connection not found"))
  | Some c => get_saved_auth_passphrase (cn_auth c)
  end.
Definition copy_saved_auth_for_new_owner (auth : SavedAuth) : CM SavedAuth :=
  match auth with
  | SaPassword _ _ => let* p := get_saved_auth_password auth in ret (SaPassword None (Some p))
  | SaKey path has _ _ => let* p := get_saved_auth_passphrase auth in ret (SaKey path has None p)
  | SaCertificate path cert has _ _ => let* p := get_saved_auth_passphrase auth in ret (SaCertificate path cert has None p)
  | SaManagedKey key_id _ _ => let* p := get_saved_auth_passphrase auth in ret (SaManagedKey key_id None p)
  | SaKeyboardInteractive => ret SaKeyboardInteractive
  | SaAgent => ret SaAgent
  end.
Definition get_saved_upstream_proxy_password (auth : SavedUpstreamProxyAuth) : CM (list Z) :=
  match auth with
  | UpPassword _ (Some k) _ => get_secret Connections k
  | UpPassword _ None (Some password) => ret password
  | UpPassword _ None None => throw (Bail (lit "Upstream proxy password is not saved"))
  | UpNone => throw (Bail (lit "Upstream proxy does not use password auth"))
  end.
Definition save_global_upstream_proxy_password (password : list Z) : CM (list Z) :=
  do* store Connections GLOBAL_UPSTREAM_PROXY_PASSWORD_KEYCHAIN_ID password in
  ret GLOBAL_UPSTREAM_PROXY_PASSWORD_KEYCHAIN_ID.
Definition delete_global_upstream_proxy_password : CM unit := delete Connections GLOBAL_UPSTREAM_PROXY_PASSWORD_KEYCHAIN_ID.
Definition get_global_upstream_proxy_password (keychain_id : list Z) : CM (list Z) :=
  if decide (keychain_id = GLOBAL_UPSTREAM_PROXY_PASSWORD_KEYCHAIN_ID) then get_secret Connections keychain_id
  else throw (Bail (lit "Invalid global upstream proxy keychain id")).

(** ** Serial, Telnet and remote desktop profiles *)

Definition has_id {A} (key : A -> list Z) (id : list Z) (l : list A) : bool := existsb (fun x => bool_decide (key x = id)) l.

Definition upsert_serial_profile (r : SaveSerialProfileRequest) : CM SerialProfile :=
  let* group := lift (normalize_optional_group_name (ss_group r)) in
  let* now := clock in
  let* id := choose (ss_id r) new_uuid in
  let* d := data in
  let base := default (new_serial id (trim (ss_name r)) (trim (ss_port_path r)) now)
                (List.find (fun p => bool_decide (sp_id p = id)) (d_serial d)) in
  let profile := mkSerial (sp_id base) (trim (ss_name r)) group (normalize_optional_text (ss_icon r))
    (normalize_optional_text (ss_color r)) (normalize_optional_text (ss_icon_background_color r)) (trim (ss_port_path r))
    (default 115200 (ss_baud_rate r)) (default 8 (ss_data_bits r)) (default 1 (ss_stop_bits r)) (default ParityNone (ss_parity r))
    (default FlowNone (ss_flow_control r)) (default false (ss_connect_on_open r))
    (if has_id sp_id id (d_serial d) then sp_created_at base else now) now (sp_last_used_at base) in
  do* lift (validate_serial profile) in
  do* change_data (fun d => set_d_serial (upsert_by sp_id profile (d_serial d)) d) in
  do* normalized in
  do* save in
  ret profile.
Definition upsert_telnet_profile (r : SaveTelnetProfileRequest) : CM TelnetProfile :=
  let* group := lift (normalize_optional_group_name (st_group r)) in
  let* now := clock in
  let* id := choose (st_id r) new_uuid in
  let* d := data in
  let base := default (new_telnet id (trim (st_name r)) (trim (st_host r)) (st_port r) now)
                (List.find (fun p => bool_decide (tp_id p = id)) (d_telnet d)) in
  let profile := mkTelnet (tp_id base) (trim (st_name r)) group (normalize_optional_text (st_icon r))
    (normalize_optional_text (st_color r)) (normalize_optional_text (st_icon_background_color r)) (trim (st_host r)) (st_port r)
    (st_terminal r) (default false (st_connect_on_open r))
    (if has_id tp_id id (d_telnet d) then tp_created_at base else now) now (tp_last_used_at base) in
  do* lift (validate_telnet profile) in
  do* change_data (fun d => set_d_telnet (upsert_by tp_id profile (d_telnet d)) d) in
  do* normalized in
  do* save in
  ret profile.

Definition delete_serial_profile (id : list Z) : CM bool :=
  let* d := data in
  let deleted := has_id sp_id id (d_serial d) in
  do* change_data (fun d => set_d_serial (List.filter (fun p => negb (bool_decide (sp_id p = id))) (d_serial d)) d) in
  if deleted then do* save in ret true else ret false.
Definition delete_telnet_profile (id : list Z) : CM bool :=
  let* d := data in
  let deleted := has_id tp_id id (d_telnet d) in
  do* change_data (fun d => set_d_telnet (List.filter (fun p => negb (bool_decide (tp_id p = id))) (d_telnet d)) d) in
  if deleted then do* save in ret true else ret false.
Definition mark_serial_profile_used (id : list Z) : CM bool :=
  let* d := data in
  let* now := if has_id sp_id id (d_serial d) then clock else ret 0 in
  match update_first (fun p => bool_decide (sp_id p = id)) (fun p => set_sp_updated_at now (set_sp_last_used_at (Some now) p)) (d_serial d) with
  | None => ret false
  | Some l => do* change_data (set_d_serial l) in do* save in ret true
  end.
Definition mark_telnet_profile_used (id : list Z) : CM bool :=
  let* d := data in
  let* now := if has_id tp_id id (d_telnet d) then clock else ret 0 in
  match update_first (fun p => bool_decide (tp_id p = id)) (fun p => set_tp_updated_at now (set_tp_last_used_at (Some now) p)) (d_telnet d) with
  | None => ret false
  | Some l => do* change_data (set_d_telnet l) in do* save in ret true
  end.

Definition delete_or_queue_connection_keychain_entry (reference : list Z) : CM unit :=
  let* r := attempt (delete Connections reference) in
  let* d := data in
  match r with
  | Err _ =>
      if decide (reference ∈ d_cleanup d) then ret tt
      else do* change_data (fun d => set_d_cleanup (d_cleanup d ++ [reference]) d) in save
  | Ok _ => ret tt
  end.
Definition upsert_remote_desktop_profile (r : SaveRemoteDesktopProfileRequest) : CM RemoteDesktopProfile :=
  let* group := lift (normalize_optional_group_name (sd_group r)) in
  let* now := clock in
  let* id := choose (sd_id r) new_uuid in
  let* d := data in
  let existing := get_remote_desktop_profile id d in
  let old_ref := existing ≫= rd_credential_ref in
  if sd_clear_credential r && (bool_decide (is_Some (sd_credential r)) || bool_decide (is_Some (sd_credential_ref r)))
  then throw (Bail (lit "Cannot replace and clear a remote desktop credential in one update"))
  else
    let ref := if sd_clear_credential r then None else or_else (normalize_optional_text (sd_credential_ref r)) old_ref in
    let ref := match sd_credential r, ref with Some _, None => Some (remote_desktop_credential_ref id) | _, _ => ref end in
    let base := default (new_desktop id (trim (sd_name r)) (sd_protocol r) (trim (sd_host r)) (sd_port r) now) existing in
    let profile := mkDesktop (rd_id base) (trim (sd_name r)) group (normalize_optional_text (sd_icon r))
      (normalize_optional_text (sd_color r)) (normalize_optional_text (sd_icon_background_color r)) (sd_protocol r) (trim (sd_host r))
      (sd_port r) (normalize_optional_text (sd_username r)) (normalize_optional_text (sd_domain r)) ref (sd_read_only r)
      (sd_session_options r) (match existing with Some _ => rd_created_at base | None => now end) now (rd_last_used_at base) in
    do* lift (validate_desktop profile) in
    do* match sd_credential r, ref with
        | Some credential, Some reference => store Connections reference credential
        | _, _ => ret tt
        end in
    do* change_data (fun d => set_d_desktop (upsert_by rd_id profile (d_desktop d)) d) in
    do* ensure_optional_group group in
    do* normalized in
    do* save in
    do* match old_ref with
        | Some stale => if decide (old_ref = ref) then ret tt else delete_or_queue_connection_keychain_entry stale
        | None => ret tt
        end in
    ret profile.
Definition delete_remote_desktop_profile (id : list Z) : CM bool :=
  let* d := data in
  let ref := get_remote_desktop_profile id d ≫= rd_credential_ref in
  let deleted := has_id rd_id id (d_desktop d) in
  do* change_data (fun d => set_d_desktop (List.filter (fun p => negb (bool_decide (rd_id p = id))) (d_desktop d)) d) in
  if deleted then
    do* save in
    do* match ref with Some reference => delete_or_queue_connection_keychain_entry reference | None => ret tt end in
    ret true
  else ret false.
Definition mark_remote_desktop_profile_used (id : list Z) : CM bool :=
  let* d := data in
  let* now := if has_id rd_id id (d_desktop d) then clock else ret 0 in
  match update_first (fun p => bool_decide (rd_id p = id)) (fun p => set_rd_updated_at now (set_rd_last_used_at (Some now) p)) (d_desktop d) with
  | None => ret false
  | Some l => do* change_data (set_d_desktop l) in do* save in ret true
  end.
Definition set_desktop (id : list Z) (f : RemoteDesktopProfile -> RemoteDesktopProfile) (d : ConnectionStoreData) : ConnectionStoreData :=
  set_d_desktop (default (d_desktop d) (update_first (fun p => bool_decide (rd_id p = id)) f (d_desktop d))) d.
Definition save_remote_desktop_credential (profile_id credential : list Z) : CM (list Z) :=
  let* d := data in
  match get_remote_desktop_profile profile_id d with
  | None => throw (Bail (lit "Remote desktop profile not found"))
  | Some p =>
      let reference := default (remote_desktop_credential_ref profile_id) (rd_credential_ref p) in
      do* store Connections reference credential in
      let* now := clock in
      do* change_data (set_desktop profile_id (fun p => set_rd_updated_at now (set_rd_credential_ref (Some reference) p))) in
      do* save in
      ret reference
  end.
Definition get_remote_desktop_credential (profile_id : list Z) : CM (option (list Z)) :=
  let* d := data in
  match get_remote_desktop_profile profile_id d ≫= rd_credential_ref with
  | None => ret None
  | Some reference => get_optional Connections reference
  end.
Definition delete_remote_desktop_credential (profile_id : list Z) : CM bool :=
  let* d := data in
  match get_remote_desktop_profile profile_id d ≫= rd_credential_ref with
  | None => ret false
  | Some reference =>
      let* now := clock in
      do* change_data (set_desktop profile_id (fun p => set_rd_updated_at now (set_rd_credential_ref None p))) in
      do* save in
      do* delete_or_queue_connection_keychain_entry reference in
      ret true
  end.

(** ** Privilege credentials *)

Definition privilege_credentials_for_scope (connection_id : list Z) (d : ConnectionStoreData) : result ConnError (list SavedPrivilegeCredential) :=
  if decide (connection_id = LOCAL_SHELL_PRIVILEGE_CONNECTION_ID) then Ok (d_local_privileges d)
  else match get connection_id d with
       | Some c => Ok (cn_privilege_credentials c)
       | None => Err (Bail (lit "Connection not found"))
       end.
Definition set_privilege_credentials (connection_id : list Z) (l : list SavedPrivilegeCredential) (d : ConnectionStoreData) : ConnectionStoreData :=
  if decide (connection_id = LOCAL_SHELL_PRIVILEGE_CONNECTION_ID) then set_d_local_privileges l d
  else set_d_connections (default (d_connections d)
         (update_first (fun c => bool_decide (cn_id c = connection_id)) (set_cn_privilege_credentials l) (d_connections d))) d.
Definition touch_privilege_scope (connection_id : list Z) : CM unit :=
  if decide (connection_id = LOCAL_SHELL_PRIVILEGE_CONNECTION_ID) then ret tt
  else
    let* now := clock in
    change_data (fun d => set_d_connections (default (d_connections d)
      (update_first (fun c => bool_decide (cn_id c = connection_id)) (set_cn_updated_at (Some now)) (d_connections d))) d).
Definition list_privilege_credentials (connection_id : list Z) : CM (list SavedPrivilegeCredential) :=
  let* d := data in
  let* l := lift (privilege_credentials_for_scope connection_id d) in
  ret (map normalize_saved_privilege_credential_for_display l).
Definition save_privilege_credential (r : SavePrivilegeCredentialRequest) : CM SavedPrivilegeCredential :=
  let* connection_id := lift (non_empty (trim (pr_connection_id r)) "Connection id") in
  let* label := lift (non_empty (trim (pr_label r)) "Credential label") in
  let* now := clock in
  let* credential_id := choose (normalize_optional_text (pr_credential_id r)) new_uuid in
  let k := privilege_keychain_id connection_id credential_id in
  do* match pr_secret r with Some secret => store Privileges k secret | None => ret tt end in
  let* d := data in
  let* l := lift (privilege_credentials_for_scope connection_id d) in
  let existing := List.find (fun c => bool_decide (pc_id c = credential_id)) l in
  let credential := mkPrivilege credential_id connection_id label (pr_kind r) (normalize_optional_text (pr_username_hint r))
    (normalize_privilege_prompt_patterns (pr_kind r) (pr_prompt_patterns r))
    (match pr_secret r with Some _ => Some k | None => existing ≫= pc_keychain_id end) None (pr_enabled r)
    (pr_require_click_to_send r) (from_option pc_created_at now existing) now in
  do* change_data (set_privilege_credentials connection_id (upsert_by pc_id credential l)) in
  do* touch_privilege_scope connection_id in
  do* save in
  ret credential.
Definition delete_privilege_credential (connection_id credential_id : list Z) : CM bool :=
  let* d := data in
  let* l := lift (privilege_credentials_for_scope connection_id d) in
  let kept := List.filter (fun c => negb (bool_decide (pc_id c = credential_id))) l in
  do* change_data (set_privilege_credentials connection_id kept) in
  if decide (length kept = length l) then ret false
  else
    do* touch_privilege_scope connection_id in
    do* ignore (delete Privileges (privilege_keychain_id connection_id credential_id)) in
    do* save in
    ret true.
Definition get_privilege_credential_secret (connection_id credential_id : list Z) : CM (list Z) :=
  let* d := data in
  let* l := lift (privilege_credentials_for_scope connection_id d) in
  match List.find (fun c => bool_decide (pc_id c = credential_id)) l with
  | None => throw (Bail (lit "Privilege credential not found"))
  | Some c =>
      if pc_enabled c then
        match pc_keychain_id c with
        | Some k => get_secret Privileges k
        | None => throw (Bail (lit "Privilege credential secret is not saved"))
        end
      else throw (Bail (lit "Privilege credential is disabled"))
  end.

(** ** Imports *)

Definition whole_seconds (t : Z) : Z := t / 1000000000.
Fixpoint materialize_privilege_credentials (connection_id : list Z) (l : list SavedPrivilegeCredential)
    : CM (list SavedPrivilegeCredential * list (list Z)) :=
  match l with
  | [] => ret ([], [])
  | c :: rest =>
      let owner := if blank (pc_connection_id c) then connection_id else pc_connection_id c in
      let with_key k := mkPrivilege (pc_id c) owner (pc_label c) (pc_kind c) (pc_username_hint c) (pc_prompt_patterns c) k None
                          (pc_enabled c) (pc_require_click_to_send c) (pc_created_at c) (pc_updated_at c) in
      let* x := match pc_plaintext_secret c with
                | Some secret =>
                    let k := privilege_keychain_id owner (pc_id c) in
                    do* store Privileges k secret in
                    ret (with_key (Some k), [k])
                | None => ret (with_key (pc_keychain_id c), [])
                end in
      let* r := materialize_privilege_credentials connection_id rest in
      ret (x.1 :: r.1, x.2 ++ r.2)
  end.

(** A connection of another program, under a new id. *)
Definition import_ssh_connection (c : SavedConnection) : CM ConnectionInfo :=
  let* id := new_uuid in
  let* created_at := clock in
  let* updated_at := clock in
  let* auth := materialize_auth (cn_auth c) None in
  let* chain := materialize_proxy_chain (cn_proxy_chain c) in
  let* upstream := materialize_upstream_proxy_policy (cn_upstream_proxy c) None in
  let connection := mkConnection id CONFIG_VERSION (cn_name c) (cn_group c) (cn_host c) (cn_port c) (cn_username c) auth chain upstream
    (cn_options c) created_at (cn_last_used_at c) (Some updated_at) (cn_color c) (cn_icon_background_color c) (cn_icon c) (cn_tags c)
    (cn_post_connect_command c) [] in
  do* ensure_optional_group (cn_group c) in
  do* change_data (fun d => set_d_connections (d_connections d ++ [connection]) d) in
  do* normalized in
  do* save in
  info_of id.

Definition upsert_imported_connection (c : SavedConnection) : CM ConnectionInfo :=
  let* group := lift (normalize_optional_group_name (cn_group c)) in
  let* now := clock in
  let* id := choose (if blank (cn_id c) then None else Some (cn_id c)) new_uuid in
  let* d := data in
  let existing := get id d in
  let old_keychain_ids := from_option collect_connection_keychain_ids [] existing in
  let* name := lift (non_empty (trim (cn_name c)) "Connection name") in
  let* host := lift (non_empty (trim (cn_host c)) "Host") in
  let* username := lift (non_empty (trim (cn_username c)) "Username") in
  let* auth := materialize_auth (cn_auth c) (cn_auth <$> existing) in
  let* chain := materialize_proxy_chain (cn_proxy_chain c) in
  let* upstream := materialize_upstream_proxy_policy (cn_upstream_proxy c) (cn_upstream_proxy <$> existing) in
  let created_at := match existing with
                    | Some e => cn_created_at e
                    | None => if whole_seconds (cn_created_at c) <=? 0 then now else cn_created_at c
                    end in
  let connection := mkConnection id CONFIG_VERSION name group host (Z.max (cn_port c) 1) username auth chain upstream (cn_options c) created_at
    (match existing with Some e => cn_last_used_at e | None => cn_last_used_at c end) (Some now) (cn_color c)
    (cn_icon_background_color c) (cn_icon c) (cn_tags c) (cn_post_connect_command c)
    (match existing with Some e => cn_privilege_credentials e | None => cn_privilege_credentials c end) in
  let next_keychain_ids := collect_keychain_ids_for_parts auth chain upstream in
  do* change_data (put_connection connection) in
  do* ensure_optional_group group in
  do* normalized in
  do* save in
  do* for_each (fun k => ignore (delete Connections k)) (stale_ids old_keychain_ids next_keychain_ids) in
  info_of id.

Record StagedImportedConnection := mkStaged {
  sg_id : list Z;
  sg_touched_keychain_ids : list (list Z);
  sg_touched_privilege_keychain_ids : list (list Z);
  sg_stale_old_keychain_ids : list (list Z)
}.
Definition check_hop_names (h : SavedProxyHop) : result ConnError unit :=
  let? _ := non_empty (trim (hp_host h)) "Proxy host" in
  let? _ := non_empty (trim (hp_username h)) "Proxy username" in
  Ok tt.
Fixpoint check_all {A} (f : A -> result ConnError unit) (l : list A) : result ConnError unit :=
  match l with [] => Ok tt | x :: l => let? _ := f x in check_all f l end.
Definition stage_imported_connection (c : SavedConnection) : CM StagedImportedConnection :=
  let* group := lift (normalize_optional_group_name (cn_group c)) in
  let* now := clock in
  let* id := choose (if blank (cn_id c) then None else Some (cn_id c)) new_uuid in
  let* d := data in
  let existing := get id d in
  let old_keychain_ids := from_option collect_connection_keychain_ids [] existing in
  let* name := lift (non_empty (trim (cn_name c)) "Connection name") in
  let* host := lift (non_empty (trim (cn_host c)) "Host") in
  let* username := lift (non_empty (trim (cn_username c)) "Username") in
  do* lift (check_all check_hop_names (cn_proxy_chain c)) in
  let* auth := materialize_auth (cn_auth c) (cn_auth <$> existing) in
  let* chain := materialize_proxy_chain (cn_proxy_chain c) in
  let* upstream := materialize_upstream_proxy_policy (cn_upstream_proxy c) (cn_upstream_proxy <$> existing) in
  let touched := collect_keychain_ids_for_parts auth chain upstream in
  let created_at := match existing with
                    | Some e => cn_created_at e
                    | None => if whole_seconds (cn_created_at c) <=? 0 then now else cn_created_at c
                    end in
  let privileges := match existing, cn_privilege_credentials c with Some e, [] => cn_privilege_credentials e | _, l => l end in
  let* p := materialize_privilege_credentials id privileges in
  let connection := mkConnection id CONFIG_VERSION name group host (Z.max (cn_port c) 1) username auth chain upstream (cn_options c) created_at
    (match existing with Some e => cn_last_used_at e | None => cn_last_used_at c end) (Some now) (cn_color c)
    (cn_icon_background_color c) (cn_icon c) (cn_tags c) (cn_post_connect_command c) p.1 in
  do* change_data (put_connection connection) in
  do* ensure_optional_group group in
  ret (mkStaged id touched p.2 (stale_ids old_keychain_ids touched)).

(** What was done so far, which a failure does not undo. *)
Record Progress := mkProgress {
  pg_touched : list (list Z);
  pg_touched_privilege : list (list Z);
  pg_stale : list (list Z);
  pg_imported : list (list Z)
}.
(** The closure of the transaction: its result, and the progress that the
    rollback sees. *)
Fixpoint stage_all (l : list SavedConnection) (pg : Progress) : CM (Progress * result ConnError unit) :=
  match l with
  | [] => ret (pg, Ok tt)
  | c :: rest =>
      let* r := attempt (stage_imported_connection c) in
      match r with
      | Err e => ret (pg, Err e)
      | Ok s => stage_all rest (mkProgress (pg_touched pg ++ sg_touched_keychain_ids s)
                  (pg_touched_privilege pg ++ sg_touched_privilege_keychain_ids s)
                  (pg_stale pg ++ sg_stale_old_keychain_ids s) (pg_imported pg ++ [sg_id s]))
      end
  end.

Fixpoint snapshot_entries (k : Keychain) (ids : list (list Z)) (m : gmap (list Z) (option (list Z))) : CM (gmap (list Z) (option (list Z))) :=
  match ids with
  | [] => ret m
  | id :: ids => let* v := get_optional k id in snapshot_entries k ids (<[id := v]> m)
  end.
Definition snapshot_keychain_entries (d : ConnectionStoreData) : CM (gmap (list Z) (option (list Z))) :=
  snapshot_entries Connections (flat_map collect_connection_keychain_ids (d_connections d)) ∅.
Definition snapshot_privilege_keychain_entries (d : ConnectionStoreData) : CM (gmap (list Z) (option (list Z))) :=
  snapshot_entries Privileges (flat_map collect_privilege_keychain_ids (d_connections d) ++ omap pc_keychain_id (d_local_privileges d)) ∅.
(** The secrets of managed keys are read, which may fail. *)
Definition read_managed_secrets (d : ConnectionStoreData) : CM unit :=
  for_each (fun _ => let* n := tick in if read_fails n then throw ReadFailed else ret tt) (d_managed_keys d).
Fixpoint rollback_each (k : Keychain) (original : gmap (list Z) (option (list Z))) (ids : list (list Z)) : CM bool :=
  match ids with
  | [] => ret true
  | id :: ids =>
      let* r := attempt (match original !! id with
                         | Some (Some secret) => store k id secret
                         | _ => delete k id
                         end) in
      let* rest := rollback_each k original ids in
      ret (match r with Ok _ => rest | Err _ => false end)
  end.
Definition rollback_keychain_entries (k : Keychain) (touched : list (list Z)) (original : gmap (list Z) (option (list Z))) : CM bool :=
  rollback_each k original (hash_order (list_to_set touched)).

Definition upsert_imported_connections_transaction (connections : list SavedConnection) : CM (list ConnectionInfo) :=
  let* original := data in
  let* keychain := snapshot_keychain_entries original in
  let* privilege := snapshot_privilege_keychain_entries original in
  do* read_managed_secrets original in
  let* x := stage_all connections (mkProgress [] [] [] []) in
  let pg := x.1 in
  let* r := match x.2 with
            | Err e => ret (Err e)
            | Ok _ => attempt (do* normalized in save)
            end in
  match r with
  | Err e =>
      do* change_data (fun _ => original) in
      let* file := attempt save in
      let* k := rollback_keychain_entries Connections (pg_touched pg) keychain in
      let* p := rollback_keychain_entries Privileges (pg_touched_privilege pg) privilege in
      let errors := (match file with Ok _ => [] | Err _ => [lit "connection file restore failed"] end)
        ++ (if k : bool then [] else [lit "connection credential restore failed"])
        ++ (if p : bool then [] else [lit "privilege credential restore failed"]) in
      if decide (errors = []) then throw e else throw (RollbackFailed e errors)
  | Ok _ =>
      do* for_each (fun k => ignore (delete Connections k)) (hash_order (list_to_set (pg_stale pg))) in
      let* d := data in
      ret (omap (fun id => connection_info to_rfc3339 <$> get id d) (pg_imported pg))
  end.

(** ** Loading *)

Definition migrate_legacy_auth_credentials (auth : SavedAuth) : CM (SavedAuth * bool) :=
  match auth with
  | SaPassword k (Some password) =>
      let* next := choose k fresh_password_id in
      do* store Connections next password in
      ret (SaPassword (Some next) None, true)
  | SaKey path _ k (Some passphrase) =>
      let* next := choose k fresh_passphrase_id in
      do* store Connections next passphrase in
      ret (SaKey path true (Some next) None, true)
  | SaCertificate path cert _ k (Some passphrase) =>
      let* next := choose k fresh_passphrase_id in
      do* store Connections next passphrase in
      ret (SaCertificate path cert true (Some next) None, true)
  | SaManagedKey key_id k (Some passphrase) =>
      let* next := choose k fresh_passphrase_id in
      do* store Connections next passphrase in
      ret (SaManagedKey key_id (Some next) None, true)
  | auth => ret (auth, false)
  end.
Fixpoint migrate_hops (hops : list SavedProxyHop) : CM (list SavedProxyHop * bool) :=
  match hops with
  | [] => ret ([], false)
  | h :: rest =>
      let* a := migrate_legacy_auth_credentials (hp_auth h) in
      let* r := migrate_hops rest in
      ret (set_hp_auth a.1 h :: r.1, a.2 || r.2)
  end.
Fixpoint migrate_connections (l : list SavedConnection) : CM (list SavedConnection * bool) :=
  match l with
  | [] => ret ([], false)
  | c :: rest =>
      let* a := migrate_legacy_auth_credentials (cn_auth c) in
      let* h := migrate_hops (cn_proxy_chain c) in
      let* r := migrate_connections rest in
      ret (set_cn_proxy_chain h.1 (set_cn_auth a.1 c) :: r.1, a.2 || h.2 || r.2)
  end.
Definition migrate_legacy_credentials : CM bool :=
  let* d := data in
  let* r := migrate_connections (d_connections d) in
  do* change_data (set_d_connections r.1) in
  ret r.2.
Fixpoint delete_failing (k : Keychain) (ids : list (list Z)) : CM (list (list Z)) :=
  match ids with
  | [] => ret []
  | id :: ids =>
      let* r := attempt (delete k id) in
      let* rest := delete_failing k ids in
      ret (match r with Ok _ => rest | Err _ => id :: rest end)
  end.
Definition retry_persisted_keychain_cleanup : CM unit :=
  let* d := data in
  if decide (d_cleanup d = [] /\ d_privilege_cleanup d = []) then ret tt
  else
    let* a := delete_failing Connections (d_cleanup d) in
    do* change_data (set_d_cleanup a) in
    let* b := delete_failing Privileges (d_privilege_cleanup d) in
    do* change_data (set_d_privilege_cleanup b) in
    save.
(** The file may be missing. *)
Definition load_without_side_effects : CM unit :=
  fun w => match w_file w with
           | None => Some (Ok tt, set_w_data default_data w)
           | Some bytes =>
               (let* n := tick in
                if read_fails n then throw ReadFailed
                else let* d := lift (decode_data bytes) in change_data (fun _ => d)) w
           end.
Definition load_read_only : CM unit := do* load_without_side_effects in normalized.
Definition load : CM unit :=
  do* load_without_side_effects in
  do* normalized in
  let* migrated := migrate_legacy_credentials in
  do* (if (migrated : bool) then save else ret tt) in
  ignore retry_persisted_keychain_cleanup.
End Store.
