(* ===== verification/ConnSync.v ===== *)
(** * Synchronising saved connections (hapcli-connections)

    Model of [store/sync.rs]: checkpoints of the store, snapshots of its
    connections and profiles, and how a snapshot of another device is prepared,
    rolled back, committed and cleaned up after.  The digests of [sha2] are
    parameters. *)
From Stdlib Require Import String.
From stdpp Require Import prelude numbers list gmap.
From S2P Require Import Prelude Text TrzszBuffer TextOps ForwardModel ConnTypes ConnStore.
Open Scope Z_scope.

Record SavedConnectionSyncRecord := mkSyncRecord {
  cr_id : list Z;
  cr_revision : list Z;
  cr_updated_at : list Z;
  cr_deleted : bool;
  cr_payload : option ConnectionInfo;
  cr_options : option ConnectionOptions
}.
Record SavedConnectionsSyncSnapshot := mkSnapshot { cs_revision : list Z; cs_exported_at : list Z; cs_records : list SavedConnectionSyncRecord }.
Record SerialProfilesSyncSnapshot := mkSerialSnapshot { fs_revision : list Z; fs_exported_at : list Z; fs_records : list SerialProfile }.
Record RemoteDesktopProfilesSyncSnapshot := mkDesktopSnapshot { ds_revision : list Z; ds_exported_at : list Z; ds_records : list RemoteDesktopProfile }.
Record ApplySavedConnectionsSyncSnapshotResult := mkApplyResult { ar_applied : Z; ar_skipped : Z; ar_conflicts : Z }.
Record ApplySavedConnectionsSyncOutcome := mkOutcome { oc_result : ApplySavedConnectionsSyncSnapshotResult; oc_deleted_connection_ids : list (list Z) }.
Record LocalSyncMetadata := mkMetadata { lm_revision : list Z; lm_updated_at : list Z }.
Inductive SavedConnectionsConflictStrategy := Skip | Replace | Merge.
#[export] Instance Strategy_eq : EqDecision SavedConnectionsConflictStrategy.
Proof. solve_decision. Defined.
Definition strategy_parse (value : option (list Z)) : result ConnError SavedConnectionsConflictStrategy :=
  let value := default (lit "skip") value in
  if decide (value = lit "skip") then Ok Skip
  else if decide (value = lit "replace") then Ok Replace
  else if decide (value = lit "merge") then Ok Merge
  else Err (Bail (lit "Unsupported saved connection conflict strategy: " ++ value)).
Definition preserves_local_auth (s : SavedConnectionsConflictStrategy) : bool := bool_decide (s = Merge).

(** The store's path is the same throughout: there is one store. *)
Record ConnectionStoreCheckpoint := mkStoreCheckpoint { ck_data : ConnectionStoreData; ck_file : option (list Z) }.
Record PreparedSavedConnectionsSync := mkPrepared {
  ps_checkpoint : ConnectionStoreCheckpoint;
  ps_outcome : ApplySavedConnectionsSyncOutcome;
  ps_keychain_ids : list (list Z);
  ps_privilege_keychain_ids : list (list Z)
}.
Record SavedConnectionsSyncCleanup := mkCleanup {
  cl_outcome : ApplySavedConnectionsSyncOutcome;
  cl_keychain_ids : list (list Z);
  cl_privilege_keychain_ids : list (list Z)
}.

Class Digests := {
  digest_payload : ConnectionInfo -> ConnectionOptions -> result ConnError (list Z);
  digest_tombstone : list Z -> list Z -> result ConnError (list Z);
  digest_records : list (list Z * list Z * list Z * bool) -> result ConnError (list Z);
  digest_profiles : list (list Z * list Z) -> result ConnError (list Z)
}.

(** ** Records *)

Definition connection_sync_updated_at (c : SavedConnection) : Z :=
  default (cn_created_at c) (or_else (cn_updated_at c) (cn_last_used_at c)).

Section Records.
Context `{out : Outside} `{dig : Digests}.

Definition parse_connection_sync_timestamp (value : list Z) (field_name : string) : result ConnError Z :=
  ok_or (parse_from_rfc3339 value) (Bail (lit "Invalid " ++ lit field_name ++ lit " '" ++ value ++ lit "'")).
Definition auth_from_parts (t : AuthType) (key_path cert_path managed_key_id : option (list Z)) : SavedAuth :=
  match t with
  | AtPassword => SaPassword None None
  | AtKey => SaKey (default [] key_path) false None None
  | AtManagedKey => SaManagedKey (default [] managed_key_id) None None
  | AtCertificate => SaCertificate (default [] key_path) (default [] cert_path) false None None
  | AtKeyboardInteractive => SaKeyboardInteractive
  | AtAgent => SaAgent
  end.
Definition saved_auth_from_connection_info (p : ConnectionInfo) : SavedAuth :=
  auth_from_parts (ci_auth_type p) (ci_key_path p) (ci_cert_path p) (ci_managed_key_id p).
Definition saved_auth_from_proxy_hop_info (h : ProxyHopInfo) : SavedAuth :=
  auth_from_parts (hi_auth_type h) (hi_key_path h) (hi_cert_path h) (hi_managed_key_id h).
Definition build_synced_proxy_chain (chain : list ProxyHopInfo) (existing : option SavedConnection) (preserve_auth : bool) : list SavedProxyHop :=
  map (fun h =>
    let preserved := if preserve_auth then
        match existing with
        | Some c => hp_auth <$> List.find (fun x => bool_decide (hp_host x = hi_host h) && (hp_port x =? hi_port h)
                                                    && bool_decide (hp_username x = hi_username h)) (cn_proxy_chain c)
        | None => None
        end else None in
    mkHop (hi_host h) (hi_port h) (hi_username h) (default (saved_auth_from_proxy_hop_info h) preserved) (hi_agent_forwarding h)
      (hi_identity_agent h) (hi_agent_forwarding_socket h) (hi_legacy_ssh_compatibility h)) chain.
Definition build_saved_connection_from_sync_payload (p : ConnectionInfo) (synced_options : option ConnectionOptions) (record_updated_at : Z)
    (existing : option SavedConnection) (preserve_auth : bool) : result ConnError SavedConnection :=
  let auth := if preserve_auth then from_option cn_auth (saved_auth_from_connection_info p) existing else saved_auth_from_connection_info p in
  let chain := build_synced_proxy_chain (ci_proxy_chain p) existing preserve_auth in
  let options := default (mkOptions 0 false None None (ci_agent_forwarding p) None None (ci_legacy_ssh_compatibility p) false default_x11
                            (ci_post_connect_command p) default_terminal) synced_options in
  let? name := non_empty (trim (ci_name p)) "Connection name" in
  let? group := normalize_optional_group_name (ci_group p) in
  let? host := non_empty (trim (ci_host p)) "Host" in
  let? username := non_empty (trim (ci_username p)) "Username" in
  let? created_at := parse_connection_sync_timestamp (ci_created_at p) "connection created_at" in
  let? last_used_at := match ci_last_used_at p with
                       | Some v => let? t := parse_connection_sync_timestamp v "connection last_used_at" in Ok (Some t)
                       | None => Ok None
                       end in
  Ok (mkConnection (ci_id p) CONFIG_VERSION name group host (Z.max (ci_port p) 1) username auth chain (ci_upstream_proxy p) options created_at
        last_used_at (Some record_updated_at) (ci_color p) (ci_icon_background_color p) (ci_icon p) (ci_tags p) None
        (from_option cn_privilege_credentials [] existing)).

Fixpoint collect_ok {A B} (f : A -> result ConnError B) (l : list A) : result ConnError (list B) :=
  match l with [] => Ok [] | x :: l => let? y := f x in let? ys := collect_ok f l in Ok (y :: ys) end.
Definition build_saved_connection_sync_record (c : SavedConnection) : result ConnError SavedConnectionSyncRecord :=
  let payload := connection_info to_rfc3339 c in
  let? revision := digest_payload payload (cn_options c) in
  Ok (mkSyncRecord (cn_id c) revision (to_rfc3339 (connection_sync_updated_at c)) false (Some payload) (Some (cn_options c))).
Definition build_saved_connection_tombstone_record (t : DeletedConnectionTombstone) : result ConnError SavedConnectionSyncRecord :=
  let? revision := digest_tombstone (dc_id t) (to_rfc3339 (dc_deleted_at t)) in
  Ok (mkSyncRecord (dc_id t) revision (to_rfc3339 (dc_deleted_at t)) true None None).
Definition build_saved_connections_sync_snapshot (now exported_at : Z) (d : ConnectionStoreData) : result ConnError SavedConnectionsSyncSnapshot :=
  let? a := collect_ok build_saved_connection_sync_record (d_connections d) in
  let? b := collect_ok build_saved_connection_tombstone_record (active_connection_tombstones now (d_tombstones d)) in
  let records := sort_by (fun x y => str_le (cr_id x) (cr_id y)) (a ++ b) in
  let? revision := digest_records (map (fun r => (cr_id r, cr_revision r, cr_updated_at r, cr_deleted r)) records) in
  Ok (mkSnapshot revision (to_rfc3339 exported_at) records).
Definition build_serial_profiles_sync_snapshot (exported_at : Z) (d : ConnectionStoreData) : result ConnError SerialProfilesSyncSnapshot :=
  let records := sort_by (fun x y => str_le (sp_id x) (sp_id y)) (d_serial d) in
  let? revision := digest_profiles (map (fun p => (sp_id p, to_rfc3339 (sp_updated_at p))) records) in
  Ok (mkSerialSnapshot revision (to_rfc3339 exported_at) records).
Definition build_remote_desktop_profiles_sync_snapshot (exported_at : Z) (d : ConnectionStoreData) : result ConnError RemoteDesktopProfilesSyncSnapshot :=
  let records := sort_by (fun x y => str_le (rd_id x) (rd_id y)) (map (set_rd_credential_ref None) (d_desktop d)) in
  let? revision := digest_profiles (map (fun p => (rd_id p, to_rfc3339 (rd_updated_at p))) records) in
  Ok (mkDesktopSnapshot revision (to_rfc3339 exported_at) records).
Definition export_saved_connections_snapshot : CM SavedConnectionsSyncSnapshot :=
  let* now := clock in
  let* exported_at := clock in
  let* d := data in
  lift (build_saved_connections_sync_snapshot now exported_at d).
(** The latest of the time stamps, compared as text. *)
Definition local_sync_metadata : CM LocalSyncMetadata :=
  let* s := export_saved_connections_snapshot in
  ret (mkMetadata (cs_revision s)
         (match map cr_updated_at (cs_records s) with
          | [] => cs_exported_at s
          | t :: ts => fold_left (fun m t => if str_le m t then t else m) ts t
          end)).

(** ** Checkpoints *)

Definition capture_connection_store_file : CM (option (list Z)) :=
  let* n := tick in
  if read_fails n then throw ReadFailed else fun w => Some (Ok (w_file w), w).
Definition create_checkpoint : CM ConnectionStoreCheckpoint :=
  let* d := data in
  let* file := capture_connection_store_file in
  ret (mkStoreCheckpoint d file).
(** The file first; removing it is as durable as replacing it. *)
Definition restore_checkpoint (c : ConnectionStoreCheckpoint) : CM unit :=
  do* (fun w =>
         match ck_file c, w_file w with
         | None, None => Some (Ok tt, w)
         | file, _ => (let* n := tick in
                       match write_outcome n with
                       | Written => fun w => Some (Ok tt, set_w_file file w)
                       | WrittenUnsynced => fun w => Some (Err WriteFailed, set_w_file file w)
                       | NotWritten => throw WriteFailed
                       end) w
         end) in
  change_data (fun _ => ck_data c).

(** ** Receiving a snapshot *)

Record Applying := mkApplying {
  ap_result : ApplySavedConnectionsSyncSnapshotResult;
  ap_deleted : list (list Z);
  ap_keychain_ids : list (list Z);
  ap_privilege_keychain_ids : list (list Z)
}.
Definition skipped (a : Applying) : Applying :=
  mkApplying (mkApplyResult (ar_applied (ap_result a)) (ar_skipped (ap_result a) + 1) (ar_conflicts (ap_result a))) (ap_deleted a)
    (ap_keychain_ids a) (ap_privilege_keychain_ids a).
Definition conflicting (a : Applying) : Applying :=
  mkApplying (mkApplyResult (ar_applied (ap_result a)) (ar_skipped (ap_result a) + 1) (ar_conflicts (ap_result a) + 1)) (ap_deleted a)
    (ap_keychain_ids a) (ap_privilege_keychain_ids a).
Definition counted (a : Applying) : Applying :=
  mkApplying (mkApplyResult (ar_applied (ap_result a) + 1) (ar_skipped (ap_result a)) (ar_conflicts (ap_result a))) (ap_deleted a)
    (ap_keychain_ids a) (ap_privilege_keychain_ids a).
Definition removing (ids keys privileges : list (list Z)) (a : Applying) : Applying :=
  mkApplying (ap_result a) (ap_deleted a ++ ids) (ap_keychain_ids a ++ keys) (ap_privilege_keychain_ids a ++ privileges).

Definition apply_deletion (existing_by_id : gmap (list Z) SavedConnection) (record : SavedConnectionSyncRecord) (record_updated_at : Z)
    (a : Applying) : CM Applying :=
  let newer := match existing_by_id !! cr_id record with
               | Some e => record_updated_at <? connection_sync_updated_at e
               | None => false
               end in
  if newer then ret (conflicting a)
  else
    let* d := data in
    let* now := clock in
    match remove_connection_with_tombstone_at now (cr_id record) record_updated_at d with
    | Some (removed, d) =>
        do* change_data (fun _ => d) in
        ret (counted (removing [cn_id removed] (collect_connection_keychain_ids removed) (collect_privilege_keychain_ids removed) a))
    | None =>
        let '(added, d) := upsert_connection_tombstone now (cr_id record) record_updated_at d in
        do* change_data (fun _ => d) in
        ret (if added : bool then counted a else skipped a)
    end.
Definition apply_change (tombstones_by_id : gmap (list Z) DeletedConnectionTombstone) (strategy : SavedConnectionsConflictStrategy)
    (record : SavedConnectionSyncRecord) (record_updated_at : Z) (a : Applying) : CM Applying :=
  match cr_payload record with
  | None => ret (conflicting a)
  | Some payload =>
      let buried := match tombstones_by_id !! cr_id record with
                    | Some t => record_updated_at <=? dc_deleted_at t
                    | None => false
                    end in
      if buried then ret (conflicting a)
      else
        let* d := data in
        let by_id := get (cr_id record) d in
        let by_name := match by_id with
                       | Some _ => None
                       | None => List.find (fun c => bool_decide (cn_name c = ci_name payload) && negb (bool_decide (cn_id c = cr_id record)))
                                   (d_connections d)
                       end in
        if bool_decide (is_Some by_name) && bool_decide (strategy = Skip) then ret (conflicting a)
        else
          let* a := match by_name with
                    | Some same_name =>
                        match remove_connection_without_tombstone (cn_id same_name) d with
                        | Some (removed, d) => do* change_data (fun _ => d) in ret (removing [cn_id removed] [] [] a)
                        | None => ret a
                        end
                    | None => ret a
                    end in
          let baseline := or_else by_id by_name in
          let* next := lift (build_saved_connection_from_sync_payload payload (cr_options record) record_updated_at baseline
                               (bool_decide (is_Some baseline) && preserves_local_auth strategy)) in
          let stale := match baseline with
                       | Some e => hash_order (list_to_set (collect_connection_keychain_ids e) ∖ list_to_set (collect_connection_keychain_ids next))
                       | None => []
                       end in
          let a := removing [] stale [] a in
          do* ensure_optional_group (cn_group next) in
          do* change_data (add_connection next) in
          ret (counted a)
  end.
Fixpoint apply_records (existing_by_id : gmap (list Z) SavedConnection) (tombstones_by_id : gmap (list Z) DeletedConnectionTombstone)
    (strategy : SavedConnectionsConflictStrategy) (records : list SavedConnectionSyncRecord) (a : Applying) : CM Applying :=
  match records with
  | [] => ret a
  | record :: rest =>
      let* t := lift (parse_connection_sync_timestamp (cr_updated_at record) "saved connection sync updated_at") in
      let* a := if cr_deleted record then apply_deletion existing_by_id record t a
                else apply_change tombstones_by_id strategy record t a in
      apply_records existing_by_id tombstones_by_id strategy rest a
  end.
Definition collect_by {A} (key : A -> list Z) (l : list A) : gmap (list Z) A := fold_left (fun m x => <[key x := x]> m) l ∅.
Definition prepare_saved_connections_snapshot (s : SavedConnectionsSyncSnapshot) (strategy : SavedConnectionsConflictStrategy)
    : CM PreparedSavedConnectionsSync :=
  let* checkpoint := create_checkpoint in
  let* r := attempt (
    let* d := data in
    let* now := clock in
    let* a := apply_records (collect_by cn_id (d_connections d)) (collect_by dc_id (active_connection_tombstones now (d_tombstones d))) strategy
                (cs_records s) (mkApplying (mkApplyResult 0 0 0) [] [] []) in
    do* normalized in
    do* (if 0 <? ar_applied (ap_result a) then save else ret tt) in
    ret a) in
  match r with
  | Err e => do* restore_checkpoint checkpoint in throw e
  | Ok a =>
      ret (mkPrepared checkpoint (mkOutcome (ap_result a) (ap_deleted a)) (dedup (sort_by str_le (ap_keychain_ids a)))
             (dedup (sort_by str_le (ap_privilege_keychain_ids a))))
  end.
Definition rollback_prepared_saved_connections_snapshot (p : PreparedSavedConnectionsSync) : CM unit := restore_checkpoint (ps_checkpoint p).
Definition commit_prepared_saved_connections_snapshot (p : PreparedSavedConnectionsSync) : SavedConnectionsSyncCleanup :=
  mkCleanup (ps_outcome p) (ps_keychain_ids p) (ps_privilege_keychain_ids p).
(** The clean-up handle that is left, and whether all is done. *)
Definition finalize_saved_connections_sync_cleanup (c : SavedConnectionsSyncCleanup) : CM (SavedConnectionsSyncCleanup * result ConnError unit) :=
  let* d := data in
  do* change_data (fun d => set_d_cleanup [] d) in
  let* failed := delete_failing Connections (dedup (sort_by str_le (cl_keychain_ids c ++ d_cleanup d))) in
  do* change_data (fun d => set_d_privilege_cleanup [] d) in
  let* failed_privilege := delete_failing Privileges (dedup (sort_by str_le (cl_privilege_keychain_ids c ++ d_privilege_cleanup d))) in
  do* change_data (fun d => set_d_privilege_cleanup failed_privilege (set_d_cleanup failed d)) in
  let left := mkCleanup (cl_outcome c) failed failed_privilege in
  let* r := attempt save in
  ret (left, match r with
             | Err e => Err e
             | Ok _ => if decide (failed = [] /\ failed_privilege = []) then Ok tt
                       else Err (Bail (lit "failed to delete " ++ u64_to_string (zlen failed + zlen failed_privilege) ++ lit " stale connection keychain entries"))
             end).
Definition apply_saved_connections_snapshot (s : SavedConnectionsSyncSnapshot) (strategy : SavedConnectionsConflictStrategy)
    : CM ApplySavedConnectionsSyncOutcome :=
  let* prepared := prepare_saved_connections_snapshot s strategy in
  let cleanup := commit_prepared_saved_connections_snapshot prepared in
  do* finalize_saved_connections_sync_cleanup cleanup in
  ret (cl_outcome cleanup).

(** ** Receiving profiles *)

(** The profiles of a snapshot into those of the store; [keep] is what stays of
    the profile that is replaced. *)
Fixpoint apply_profiles {A} (key : A -> list Z) (updated_at : A -> Z) (keep : option A -> A -> A) (records l : list A) : list A * Z :=
  match records with
  | [] => (l, 0)
  | p :: rest =>
      match List.find (fun x => bool_decide (key x = key p)) l with
      | Some existing =>
          if updated_at existing <=? updated_at p then
            let '(l, n) := apply_profiles key updated_at keep rest (upsert_by key (keep (Some existing) p) l) in (l, n + 1)
          else apply_profiles key updated_at keep rest l
      | None => let '(l, n) := apply_profiles key updated_at keep rest (l ++ [keep None p]) in (l, n + 1)
      end
  end.
Definition apply_serial_profiles_snapshot (s : SerialProfilesSyncSnapshot) : CM Z :=
  do* lift (check_all validate_serial (fs_records s)) in
  let* d := data in
  let '(l, applied) := apply_profiles sp_id sp_updated_at (fun _ p => p) (fs_records s) (d_serial d) in
  do* change_data (set_d_serial l) in
  do* (if 0 <? applied then do* normalized in save else ret tt) in
  ret applied.
Definition apply_remote_desktop_profiles_snapshot (s : RemoteDesktopProfilesSyncSnapshot) : CM Z :=
  do* lift (check_all validate_desktop (ds_records s)) in
  let* d := data in
  let '(l, applied) := apply_profiles rd_id rd_updated_at (fun e p => set_rd_credential_ref (e ≫= rd_credential_ref) p) (ds_records s) (d_desktop d) in
  do* change_data (set_d_desktop l) in
  do* (if 0 <? applied then do* normalized in save else ret tt) in
  ret applied.
End Records.
