(* ===== verification/ConnFacts.v ===== *)
(** * What the store of connections keeps

    The invariant of the store's data, and that every operation keeps it,
    whatever fails: ids are unique, recent connections exist, the groups in use
    are listed, and the data hold no secret but those that are allowed. *)
From Stdlib Require Import String.
From stdpp Require Import prelude numbers list gmap.
From S2P Require Import Prelude Text TrzszBuffer TextOps ForwardModel ConnTypes ConnStore ConnSync.
Open Scope Z_scope.

(** ** Lists *)

Section Keyed.
Context {A : Type} (key : A -> list Z).

Lemma update_first_spec p f (l l' : list A) : update_first p f l = Some l' ->
  exists l1 x l2, l = l1 ++ x :: l2 /\ l' = l1 ++ f x :: l2 /\ p x = true /\ Forall (fun y => p y = false) l1.
Proof.
  revert l'. induction l as [|x l IH]; intros l'; [done|]. cbn. destruct (p x) eqn:Hp.
  - intros [= <-]. by exists [], x, l.
  - destruct (update_first p f l) as [l0|] eqn:E; [|done]. intros [= <-]. destruct (IH l0 eq_refl) as (l1 & y & l2 & -> & -> & Hy & Hl1).
    exists (x :: l1), y, l2. by split_and!; [done..|constructor].
Qed.
Lemma update_first_none p f (l : list A) : update_first p f l = None -> Forall (fun y => p y = false) l.
Proof. induction l as [|x l IH]; cbn; [done|]. destruct (p x) eqn:Hp; [done|]. destruct (update_first p f l); [done|]. by constructor; auto. Qed.

(** A change of one element that keeps its id. *)
Lemma update_first_keys p f (l : list A) : (forall x, key (f x) = key x) -> map key (default l (update_first p f l)) = map key l.
Proof.
  intros Hf. destruct (update_first p f l) as [l'|] eqn:E; [|done]. apply update_first_spec in E as (l1 & x & l2 & -> & -> & _ & _).
  cbn. by rewrite !map_app; cbn; rewrite Hf.
Qed.
Lemma update_first_Forall p f (P : A -> Prop) l : (forall x, P x -> P (f x)) -> Forall P l -> Forall P (default l (update_first p f l)).
Proof.
  intros Hf Hl. destruct (update_first p f l) as [l'|] eqn:E; [|done]. apply update_first_spec in E as (l1 & x & l2 & -> & -> & _ & _).
  apply Forall_app in Hl as [H1 H2]. apply Forall_cons in H2 as [Hx H2]. apply Forall_app. split; [done|]. constructor; auto.
Qed.

Lemma upsert_by_cases x (l : list A) :
  (exists l1 y l2, l = l1 ++ y :: l2 /\ upsert_by key x l = l1 ++ x :: l2 /\ key y = key x)
  \/ (upsert_by key x l = l ++ [x] /\ key x ∉ map key l).
Proof.
  unfold upsert_by. destruct (update_first _ _ l) as [l'|] eqn:E.
  - apply update_first_spec in E as (l1 & y & l2 & -> & -> & Hy & _). apply bool_decide_eq_true in Hy. left. by exists l1, y, l2.
  - apply update_first_none in E. right. split; [done|]. intros (y & Hy & Hin)%list_elem_of_fmap. rewrite Forall_forall in E.
    apply E in Hin. by apply bool_decide_eq_false in Hin.
Qed.
Lemma upsert_by_NoDup x (l : list A) : NoDup (map key l) -> NoDup (map key (upsert_by key x l)).
Proof.
  intros Hl. destruct (upsert_by_cases x l) as [(l1 & y & l2 & -> & -> & Hy)|[-> Hx]].
  - rewrite map_app in Hl |- *. cbn in Hl |- *. by rewrite <-Hy.
  - rewrite map_app. apply NoDup_app. cbn. split_and!; [done| |apply NoDup_singleton]. set_solver.
Qed.
Lemma upsert_by_elem x (l : list A) y : y ∈ upsert_by key x l -> y = x \/ y ∈ l.
Proof. destruct (upsert_by_cases x l) as [(l1 & z & l2 & -> & -> & Hz)|[-> _]]; set_solver. Qed.
Lemma upsert_by_keys x (l : list A) k : k ∈ map key l -> k ∈ map key (upsert_by key x l).
Proof.
  destruct (upsert_by_cases x l) as [(l1 & z & l2 & -> & -> & Hz)|[-> _]]; rewrite !map_app; cbn; [rewrite Hz|]; set_solver.
Qed.
Lemma keys_filter_NoDup p (l : list A) : NoDup (map key l) -> NoDup (map key (List.filter p l)).
Proof. intros H. eapply sublist_NoDup; [exact H|]. apply (fmap_sublist key), filter_sublist. Qed.
Lemma map_keys (f : A -> A) (l : list A) : (forall x, key (f x) = key x) -> map key (map f l) = map key l.
Proof. intros Hf. rewrite map_map. by apply map_ext. Qed.
Lemma remove_first_spec p (l : list A) x l' : remove_first p l = Some (x, l') -> exists l1 l2, l = l1 ++ x :: l2 /\ l' = l1 ++ l2 /\ p x = true.
Proof.
  revert l'. induction l as [|y l IH]; intros l'; [done|]. cbn. destruct (p y) eqn:Hp; [intros [= <- <-]; by exists [], l|].
  destruct (remove_first p l) as [[z l0]|] eqn:E; [|done]. cbn. intros [= <- <-]. destruct (IH l0 eq_refl) as (l1 & l2 & -> & -> & Hx).
  by exists (y :: l1), l2.
Qed.
End Keyed.

Lemma dedup_elem l x : x ∈ dedup l <-> x ∈ l.
Proof.
  induction l as [|y [|z l] IH]; [done..|]. cbn [dedup]. case_decide as E; [subst; rewrite IH; set_solver|].
  rewrite !elem_of_cons, IH. set_solver.
Qed.
Lemma dedup_sublist l : dedup l `sublist_of` l.
Proof.
  induction l as [|y [|z l] IH]; [done..|]. cbn [dedup]. case_decide; by constructor.
Qed.
Lemma push_missing_all l : forall acc x, x ∈ fold_left push_missing l acc <-> x ∈ acc \/ x ∈ l.
Proof.
  induction l as [|y l IH]; intros acc x; cbn; [set_solver|]. rewrite IH. unfold push_missing. case_decide; set_solver.
Qed.

#[local] Arguments sort_by : simpl never.
#[local] Arguments dedup : simpl never.
#[local] Arguments upsert_by : simpl never.

(** ** The invariant *)

(** The secrets that may be in the data. *)
Class Allowed := allowed : list Z -> Prop.
Definition kept `{Allowed} (secret : option (list Z)) : Prop := from_option allowed True secret.
Definition auth_sealed `{Allowed} (a : SavedAuth) : Prop :=
  match a with
  | SaPassword _ p | SaKey _ _ _ p | SaCertificate _ _ _ _ p | SaManagedKey _ _ p => kept p
  | _ => True
  end.
Definition proxy_sealed `{Allowed} (p : SavedUpstreamProxyPolicy) : Prop :=
  match p with Custom c => match up_auth c with UpPassword _ _ s => kept s | UpNone => True end | _ => True end.
Definition credential_sealed `{Allowed} (c : SavedPrivilegeCredential) : Prop := kept (pc_plaintext_secret c).
(** A connection whose secrets are all elsewhere, but for those allowed. *)
Record sealed `{Allowed} (c : SavedConnection) : Prop := {
  sealed_auth : auth_sealed (cn_auth c);
  sealed_hops : Forall (fun h => auth_sealed (hp_auth h)) (cn_proxy_chain c);
  sealed_proxy : proxy_sealed (cn_upstream_proxy c);
  sealed_credentials : Forall credential_sealed (cn_privilege_credentials c)
}.

Definition used_groups (d : ConnectionStoreData) : list (list Z) :=
  omap cn_group (d_connections d) ++ omap sp_group (d_serial d) ++ omap tp_group (d_telnet d) ++ omap rd_group (d_desktop d).
#[global] Arguments used_groups : simpl never.
(** [extra]: groups that are in use and not listed yet. *)
Record data_ok `{Allowed} (extra : list (list Z)) (d : ConnectionStoreData) : Prop := {
  ok_connections : NoDup (map cn_id (d_connections d));
  ok_serial : NoDup (map sp_id (d_serial d));
  ok_telnet : NoDup (map tp_id (d_telnet d));
  ok_desktop : NoDup (map rd_id (d_desktop d));
  ok_recent_once : NoDup (d_recent d);
  ok_recent_few : (length (d_recent d) <= 10)%nat;
  ok_recent_known r : r ∈ d_recent d -> r ∈ map cn_id (d_connections d);
  ok_groups g : g ∈ used_groups d -> g ∈ d_groups d \/ g ∈ extra;
  ok_sealed : Forall sealed (d_connections d);
  ok_local_sealed : Forall credential_sealed (d_local_privileges d)
}.

(** *** The secrets in the data *)

(** Data without any secret. *)
Definition nothing_allowed : Allowed := fun _ => False.
(** The structure alone, whatever secrets are there. *)
Definition well_formed (d : ConnectionStoreData) : Prop := data_ok (H := fun _ => True) [] d.

Definition auth_secrets (a : SavedAuth) : list (list Z) :=
  match a with
  | SaPassword _ p | SaKey _ _ _ p | SaCertificate _ _ _ _ p | SaManagedKey _ _ p => option_list p
  | _ => []
  end.
Definition proxy_secrets (p : SavedUpstreamProxyPolicy) : list (list Z) :=
  match p with Custom c => match up_auth c with UpPassword _ _ s => option_list s | UpNone => [] end | _ => [] end.
Definition credential_secrets (l : list SavedPrivilegeCredential) : list (list Z) := omap pc_plaintext_secret l.
Definition connection_secrets (c : SavedConnection) : list (list Z) :=
  auth_secrets (cn_auth c) ++ flat_map (fun h => auth_secrets (hp_auth h)) (cn_proxy_chain c)
  ++ proxy_secrets (cn_upstream_proxy c) ++ credential_secrets (cn_privilege_credentials c).
Definition data_secrets (d : ConnectionStoreData) : list (list Z) :=
  flat_map connection_secrets (d_connections d) ++ credential_secrets (d_local_privileges d).

Lemma kept_list `{Allowed} s : kept s <-> Forall allowed (option_list s).
Proof. destruct s; cbn; [by rewrite Forall_singleton|by split]. Qed.
Lemma auth_secrets_kept `{Allowed} a : auth_sealed a <-> Forall allowed (auth_secrets a).
Proof. destruct a; cbn; rewrite ?kept_list; try done; by split. Qed.
Lemma proxy_secrets_kept `{Allowed} p : proxy_sealed p <-> Forall allowed (proxy_secrets p).
Proof. destruct p as [| |c]; cbn; [by split..|]. destruct (up_auth c); cbn; rewrite ?kept_list; [by split|done]. Qed.
Lemma credential_secrets_kept `{Allowed} l : Forall credential_sealed l <-> Forall allowed (credential_secrets l).
Proof.
  unfold credential_sealed, kept. induction l as [|c l IH]; cbn; [by split|]. rewrite Forall_cons.
  destruct (pc_plaintext_secret c); cbn; [by rewrite Forall_cons, IH|by rewrite IH; split; [intros []|]].
Qed.
Lemma flat_map_kept {A} (P : list Z -> Prop) (Q : A -> Prop) (f : A -> list (list Z)) l :
  (forall x, Q x <-> Forall P (f x)) -> Forall Q l <-> Forall P (flat_map f l).
Proof. intros Hf. induction l as [|x l IH]; cbn; [by split|]. by rewrite Forall_cons, Forall_app, IH, Hf. Qed.
Lemma connection_secrets_kept `{Allowed} c : sealed c <-> Forall allowed (connection_secrets c).
Proof.
  unfold connection_secrets. rewrite !Forall_app, <-auth_secrets_kept, <-proxy_secrets_kept, <-credential_secrets_kept.
  rewrite <-(flat_map_kept _ (fun h => auth_sealed (hp_auth h))) by (intros h; apply auth_secrets_kept).
  split; [by intros []|]. intros (? & ? & ? & ?). by split.
Qed.
Lemma data_ok_secrets `{Allowed} d : data_ok [] d <-> well_formed d /\ Forall allowed (data_secrets d).
Proof.
  unfold data_secrets. rewrite Forall_app, <-credential_secrets_kept, <-(flat_map_kept _ sealed) by (intros c; apply connection_secrets_kept).
  split.
  - intros [A1 A2 A3 A4 B1 B2 B3 C S L]. split; [|done]. split; try done.
    + apply Forall_forall. intros c _. apply connection_secrets_kept. by apply Forall_forall.
    + apply credential_secrets_kept. by apply Forall_forall.
  - intros [[A1 A2 A3 A4 B1 B2 B3 C S L] [? ?]]. by split.
Qed.

Lemma normalize_connection_same `{Allowed} c : cn_id (normalize_connection c) = cn_id c /\ cn_group (normalize_connection c) = cn_group c
  /\ (sealed c -> sealed (normalize_connection c)).
Proof. unfold normalize_connection. destruct (op_post_connect_command _); (split_and!; [done..|]); intros [? ? ? ?]; by split. Qed.
Lemma omap_map_same {A B} (f : A -> option B) (g : A -> A) l : (forall x, f (g x) = f x) -> omap f (map g l) = omap f l.
Proof. intros Hfg. induction l as [|x l IH]; [done|]. cbn. by rewrite Hfg, IH. Qed.

Section Facts.
Context `{allow : Allowed}.
Context (to_lowercase : list Z -> list Z).

Lemma normalize_ok extra now d : data_ok extra d -> data_ok [] (normalize to_lowercase now d).
Proof.
  intros [A1 A2 A3 A4 B1 B2 B3 C S L]. unfold normalize. cbn.
  assert (Hids : map cn_id (map normalize_connection (d_connections d)) = map cn_id (d_connections d)).
  { apply (map_keys cn_id). intros x. apply normalize_connection_same. }
  assert (Hsub : dedup (List.filter (fun r => existsb (fun c => bool_decide (cn_id c = r)) (d_connections d)) (d_recent d)) `sublist_of` d_recent d).
  { etransitivity; [apply dedup_sublist|apply filter_sublist]. }
  split; cbn; rewrite ?sort_by_perm, ?Hids; try done.
  - by eapply sublist_NoDup.
  - apply sublist_length in Hsub. lia.
  - intros r Hr. rewrite sort_by_perm, Hids. apply B3. eapply elem_of_sublist; [exact Hr|exact Hsub].
  - unfold used_groups. cbn. intros g. rewrite !sort_by_perm, omap_map_same by (intros x; apply normalize_connection_same).
    rewrite !push_missing_all, !elem_of_app. intros [Hg|Hg]; left; [left; by right|by right].
  - apply Forall_map. eapply Forall_impl; [exact S|]. intros c. apply normalize_connection_same.
Qed.
End Facts.

(** ** A logic for the store's operations *)

(** Nothing happens to the data, and a result satisfies [R]. *)
Definition quiet {A} (m : CM A) (R : A -> Prop) : Prop :=
  forall w, wp m (fun r w' => w_data w' = w_data w /\ forall a, r = Ok a -> R a) w.
(** From data that satisfy [P], a success leads to [Q] and a failure to data
    that are well formed. *)
Definition triple `{Allowed} {A} (P : ConnectionStoreData -> Prop) (m : CM A) (Q : A -> ConnectionStoreData -> Prop) : Prop :=
  forall w, P (w_data w) -> wp m (fun r w' => match r with Ok a => Q a (w_data w') | Err _ => data_ok [] (w_data w') end) w.
Abbreviation ok := (data_ok []).
Definition keeps `{Allowed} {A} (m : CM A) : Prop := triple ok m (fun _ => ok).

Section Logic.
Context `{allow : Allowed}.
Context {A B : Type}.
Implicit Types (m : CM A) (f : A -> CM B).

Lemma data_quiet_ret (a : A) (R : A -> Prop) : R a -> quiet (ret a) R.
Proof. intros HR w. split; [done|]. by intros ? [= <-]. Qed.
Lemma data_quiet_throw e (R : A -> Prop) : quiet (throw e) R.
Proof. intros w. by split. Qed.
Lemma data_quiet_lift (r : result ConnError A) (R : A -> Prop) : (forall a, r = Ok a -> R a) -> quiet (lift r) R.
Proof. intros HR w. by split. Qed.
Lemma data_quiet_bind m f R R' : quiet m R -> (forall a, R a -> quiet (f a) R') -> quiet (bind m f) R'.
Proof.
  intros Hm Hf w. apply wp_bind. eapply wp_mono; [apply Hm|]. intros [a|e] w1 [Hd HR]; [|by split].
  eapply wp_mono; [apply Hf; by apply HR|]. intros r w2 [Hd2 HR2]. split; [congruence|done].
Qed.
Lemma quiet_mono m (R R' : A -> Prop) : quiet m R -> (forall a, R a -> R' a) -> quiet m R'.
Proof. intros Hm HR w. eapply wp_mono; [apply Hm|]. intros r w' [Hd Hr]. split; [done|]. auto. Qed.
Lemma quiet_attempt m R : quiet m R -> quiet (attempt m) (fun r => forall a, r = Ok a -> R a).
Proof. intros Hm w. apply wp_attempt. eapply wp_mono; [apply Hm|]. intros r w' [Hd Hr]. split; [done|]. by intros ? [= <-]. Qed.

Lemma triple_ret (a : A) P (Q : A -> ConnectionStoreData -> Prop) : (forall d, P d -> Q a d) -> triple P (ret a) Q.
Proof. intros H w. apply H. Qed.
Lemma triple_throw e P (Q : A -> ConnectionStoreData -> Prop) : (forall d, P d -> ok d) -> triple P (throw e) Q.
Proof. intros H w. apply H. Qed.
Lemma triple_bind m f P Q1 Q : triple P m Q1 -> (forall a, triple (Q1 a) (f a) Q) -> triple P (bind m f) Q.
Proof. intros Hm Hf w HP. apply wp_bind. eapply wp_mono; [by apply Hm|]. intros [a|e] w1 H1; [by apply Hf|done]. Qed.
Lemma triple_seq m (k : CM B) P R Q : triple P m (fun _ => R) -> triple R k Q -> triple P (do* m in k) Q.
Proof. intros Hm Hk. eapply triple_bind; [exact Hm|]. by intros a. Qed.
Lemma triple_mono m (P P' : ConnectionStoreData -> Prop) (Q Q' : A -> ConnectionStoreData -> Prop) :
  triple P m Q -> (forall d, P' d -> P d) -> (forall a d, Q a d -> Q' a d) -> triple P' m Q'.
Proof. intros Hm HP HQ w HP'. eapply wp_mono; [apply Hm; by apply HP|]. intros [a|e] w1; [apply HQ|done]. Qed.
Lemma triple_quiet m R P (Q : A -> ConnectionStoreData -> Prop) : quiet m R -> (forall d, P d -> ok d) -> (forall a d, R a -> P d -> Q a d) -> triple P m Q.
Proof.
  intros Hm HP HQ w Hw. eapply wp_mono; [apply Hm|]. intros [a|e] w1 [Hd HR]; rewrite Hd; [|by apply HP]. apply HQ; [by apply HR|done].
Qed.
Lemma triple_then m f R P (Q : B -> ConnectionStoreData -> Prop) :
  quiet m R -> (forall d, P d -> ok d) -> (forall a, R a -> triple P (f a) Q) -> triple P (bind m f) Q.
Proof.
  intros Hm HP Hf w Hw. apply wp_bind. eapply wp_mono; [apply Hm|]. intros [a|e] w1 [Hd HR]; [|cbn; rewrite Hd; by apply HP].
  apply Hf; [by apply HR|]. by rewrite Hd.
Qed.
Lemma triple_data (f : ConnectionStoreData -> CM B) P (Q : B -> ConnectionStoreData -> Prop) :
  (forall d, P d -> triple (fun d' => d' = d) (f d) Q) -> triple P (let* d := data in f d) Q.
Proof. intros Hf w HP. apply wp_bind. by apply (Hf (w_data w)). Qed.
Lemma triple_change (g : ConnectionStoreData -> ConnectionStoreData) (k : CM B) P Q1 (Q : B -> ConnectionStoreData -> Prop) :
  (forall d, P d -> Q1 (g d)) -> triple Q1 k Q -> triple P (do* change_data g in k) Q.
Proof. intros Hg Hk w HP. apply wp_bind. apply Hk. by apply Hg. Qed.
Lemma triple_keeps m P (Q : A -> ConnectionStoreData -> Prop) : keeps m -> (forall d, P d -> ok d) -> (forall a d, ok d -> Q a d) -> triple P m Q.
Proof. intros Hm HP HQ. by eapply triple_mono. Qed.
Lemma triple_if (b : bool) m m' P (Q : A -> ConnectionStoreData -> Prop) :
  (b = true -> triple P m Q) -> (b = false -> triple P m' Q) -> triple P (if b then m else m') Q.
Proof. destruct b; auto. Qed.
Lemma triple_weak_pre m (P : ConnectionStoreData -> Prop) (Q : A -> ConnectionStoreData -> Prop) d :
  P d -> triple P m Q -> triple (fun d' => d' = d) m Q.
Proof. intros HP Hm. eapply triple_mono; [exact Hm|by intros ? ->|done]. Qed.
End Logic.

(** *** Quiet operations *)

Section Quiet.
Context `{allow : Allowed} `{out : Outside}.

Lemma tick_quiet : quiet tick (fun _ => True).
Proof. by intros w. Qed.
Lemma clock_quiet : quiet clock (fun _ => True).
Proof. by intros w. Qed.
Lemma new_uuid_quiet : quiet new_uuid (fun _ => True).
Proof. by intros w. Qed.
Lemma on_keychain_quiet {A} (k : Keychain) (id : list Z) (f : gmap (list Z) (list Z) -> A * gmap (list Z) (list Z)) : quiet (on_keychain k id f) (fun _ => True).
Proof.
  eapply data_quiet_bind; [apply tick_quiet|]. intros n _. destruct (keychain_fails n); [apply data_quiet_throw|].
  intros w. by destruct k.
Qed.
Lemma store_quiet k id secret : quiet (store k id secret) (fun _ => True).
Proof. apply on_keychain_quiet. Qed.
Lemma delete_quiet k id : quiet (delete k id) (fun _ => True).
Proof. apply on_keychain_quiet. Qed.
Lemma get_optional_quiet k id : quiet (get_optional k id) (fun _ => True).
Proof. apply on_keychain_quiet. Qed.
Lemma get_secret_quiet k id : quiet (get_secret k id) (fun _ => True).
Proof. eapply data_quiet_bind; [apply get_optional_quiet|]. intros [s|] _; [by apply data_quiet_ret|apply data_quiet_throw]. Qed.
Lemma choose_quiet o m : quiet m (fun _ => True) -> quiet (choose o m) (fun _ => True).
Proof. intros Hm. destruct o; [by apply data_quiet_ret|done]. Qed.
Lemma fresh_password_quiet : quiet fresh_password_id (fun _ => True).
Proof. by intros w. Qed.
Lemma fresh_passphrase_quiet : quiet fresh_passphrase_id (fun _ => True).
Proof. by intros w. Qed.
Lemma fresh_proxy_quiet : quiet fresh_proxy_id (fun _ => True).
Proof. by intros w. Qed.
Lemma ignore_quiet {A} (m : CM A) R : quiet m R -> quiet (ignore m) (fun _ => True).
Proof. intros Hm. eapply data_quiet_bind; [by apply quiet_attempt|]. intros r _. by apply data_quiet_ret. Qed.
Lemma for_each_quiet {A} (f : A -> CM unit) l : (forall x, quiet (f x) (fun _ => True)) -> quiet (for_each f l) (fun _ => True).
Proof. intros Hf. induction l as [|x l IH]; [by apply data_quiet_ret|]. cbn. eapply data_quiet_bind; [apply Hf|done]. Qed.
Lemma deletions_quiet k l : quiet (for_each (fun id => ignore (delete k id)) l) (fun _ => True).
Proof. apply for_each_quiet. intros x. eapply ignore_quiet, delete_quiet. Qed.
Lemma save_quiet : quiet save (fun _ => True).
Proof.
  intros w. unfold wp, save, bind, data, lift, tick. cbn. destruct (encode_data (w_data w)); [|done]. by destruct (write_outcome (w_tick w)).
Qed.
Lemma info_of_quiet id : quiet (info_of id) (fun _ => True).
Proof. intros w. unfold info_of, data, wp, bind. cbn. by destruct (get id (w_data w)). Qed.

Create HintDb quiet.
#[local] Hint Resolve tick_quiet clock_quiet new_uuid_quiet store_quiet delete_quiet get_optional_quiet get_secret_quiet choose_quiet
  fresh_password_quiet fresh_passphrase_quiet fresh_proxy_quiet deletions_quiet save_quiet info_of_quiet data_quiet_throw : quiet.
(** Go through an operation that is quiet throughout. *)
Ltac quiet_step :=
  lazymatch goal with
  | |- quiet (bind _ _) _ => eapply data_quiet_bind; [eauto with quiet|intros ? ?]
  | |- quiet (ret _) _ => apply data_quiet_ret
  | |- quiet (throw _) _ => apply data_quiet_throw
  | |- quiet (match _ with _ => _ end) _ => case_match
  end.

Lemma materialize_auth_runtime_quiet auth existing :
  quiet (materialize_auth_with_runtime_secret auth existing) (fun r => auth_sealed r.1).
Proof. destruct auth as [? [p|]|? ? ? [p|]|? ? ? ? [p|]|? ? [p|]| |]; cbn; repeat quiet_step; done. Qed.
Lemma materialize_auth_quiet auth existing : quiet (materialize_auth auth existing) auth_sealed.
Proof. eapply data_quiet_bind; [apply materialize_auth_runtime_quiet|]. intros a Ha. by apply data_quiet_ret. Qed.
Lemma materialize_chain_runtime_quiet chain :
  quiet (materialize_proxy_chain_with_runtime_secrets chain) (fun r => Forall (fun h => auth_sealed (hp_auth h)) r.1).
Proof.
  induction chain as [|h chain IH]; [by apply data_quiet_ret|]. cbn. eapply data_quiet_bind; [apply materialize_auth_runtime_quiet|]. intros a Ha.
  eapply (data_quiet_bind _ _ (fun h => auth_sealed (hp_auth h))).
  - apply data_quiet_lift. unfold check_hop. intros h'. destruct (non_empty _ _); [|done]. cbn. destruct (non_empty _ _); [|done]. cbn. by intros [= <-].
  - intros h' Hh'. eapply data_quiet_bind; [exact IH|]. intros r Hr. apply data_quiet_ret. by constructor.
Qed.
Lemma materialize_chain_quiet chain : quiet (materialize_proxy_chain chain) (Forall (fun h => auth_sealed (hp_auth h))).
Proof. eapply data_quiet_bind; [apply materialize_chain_runtime_quiet|]. intros a Ha. by apply data_quiet_ret. Qed.
Lemma materialize_proxy_runtime_quiet policy existing :
  quiet (materialize_upstream_proxy_policy_with_runtime_secret policy existing) (fun r => proxy_sealed r.1).
Proof.
  destruct policy as [| |p]; [by apply data_quiet_ret..|]. cbn.
  eapply (data_quiet_bind _ _ (fun a => match a.1 with UpPassword _ _ s => kept s | UpNone => True end)).
  - destruct (up_auth p) as [|u k [s|]]; cbn; [by apply data_quiet_ret| |]; (eapply data_quiet_bind; [apply (data_quiet_lift _ (fun _ => True)); done|intros ? _]).
    + repeat quiet_step; done.
    + by apply data_quiet_ret.
  - intros a Ha. eapply data_quiet_bind; [apply (data_quiet_lift _ (fun _ => True)); done|intros ? _]. apply data_quiet_ret. by destruct a as [[] ?].
Qed.
Lemma materialize_proxy_quiet policy existing : quiet (materialize_upstream_proxy_policy policy existing) proxy_sealed.
Proof. eapply data_quiet_bind; [apply materialize_proxy_runtime_quiet|]. intros a Ha. by apply data_quiet_ret. Qed.
Lemma materialize_credentials_quiet id l : quiet (materialize_privilege_credentials id l) (fun r => Forall credential_sealed r.1).
Proof.
  induction l as [|c l IH]; [by apply data_quiet_ret|]. cbn. eapply (data_quiet_bind _ _ (fun x => credential_sealed x.1)).
  - case_match; [eapply data_quiet_bind; [apply store_quiet|intros ? _]|]; by apply data_quiet_ret.
  - intros x Hx. eapply data_quiet_bind; [exact IH|]. intros r Hr. apply data_quiet_ret. by constructor.
Qed.
Lemma clone_auth_quiet auth : auth_sealed auth -> quiet (clone_auth_secret auth) auth_sealed.
Proof. intros Ha. destruct auth as [[k|] ?|? ? [k|] ?|? ? ? [k|] ?|? [k|] ?| |]; cbn; repeat quiet_step; done. Qed.
Lemma clone_hops_quiet hops : Forall (fun h => auth_sealed (hp_auth h)) hops -> quiet (clone_hops hops) (Forall (fun h => auth_sealed (hp_auth h))).
Proof.
  induction 1 as [|h hops Hh _ IH]; [by apply data_quiet_ret|]. cbn. eapply data_quiet_bind; [by apply clone_auth_quiet|]. intros a Ha.
  eapply data_quiet_bind; [exact IH|]. intros r Hr. apply data_quiet_ret. by constructor.
Qed.
Lemma delete_failing_quiet k ids : quiet (delete_failing k ids) (fun _ => True).
Proof.
  induction ids as [|id ids IH]; [by apply data_quiet_ret|]. cbn. eapply data_quiet_bind; [apply quiet_attempt, delete_quiet|]. intros r _.
  eapply data_quiet_bind; [exact IH|]. intros l _. by apply data_quiet_ret.
Qed.
Lemma snapshot_quiet k ids m : quiet (snapshot_entries k ids m) (fun _ => True).
Proof. revert m. induction ids as [|id ids IH]; intros m; [by apply data_quiet_ret|]. cbn. eapply data_quiet_bind; [apply get_optional_quiet|]. intros v _. apply IH. Qed.
Lemma rollback_quiet k m ids : quiet (rollback_each k m ids) (fun _ => True).
Proof.
  induction ids as [|id ids IH]; [by apply data_quiet_ret|]. cbn.
  eapply (data_quiet_bind _ _ (fun _ => True)); [eapply quiet_mono; [eapply quiet_attempt|done]|].
  - repeat case_match; eauto with quiet.
  - intros r _. eapply data_quiet_bind; [exact IH|]. intros b _. by apply data_quiet_ret.
Qed.
Lemma read_managed_quiet d : quiet (read_managed_secrets d) (fun _ => True).
Proof.
  apply for_each_quiet. intros x. eapply data_quiet_bind; [apply tick_quiet|]. intros n _. case_match; [apply data_quiet_throw|by apply data_quiet_ret].
Qed.
End Quiet.
#[export] Hint Resolve tick_quiet clock_quiet new_uuid_quiet store_quiet delete_quiet get_optional_quiet get_secret_quiet choose_quiet
  deletions_quiet save_quiet info_of_quiet data_quiet_throw delete_failing_quiet snapshot_quiet rollback_quiet read_managed_quiet : quiet.

(** ** Changes of the data *)

Lemma elem_of_used d g : g ∈ used_groups d <->
  (exists c, c ∈ d_connections d /\ cn_group c = Some g) \/ (exists p, p ∈ d_serial d /\ sp_group p = Some g)
  \/ (exists p, p ∈ d_telnet d /\ tp_group p = Some g) \/ (exists p, p ∈ d_desktop d /\ rd_group p = Some g).
Proof. unfold used_groups. by rewrite !elem_of_app, !list_elem_of_omap. Qed.

(** The same things under the same ids, otherwise changed. *)
Lemma reshape_ok `{Allowed} extra d d' : ok d ->
  map cn_id (d_connections d') = map cn_id (d_connections d) -> map sp_id (d_serial d') = map sp_id (d_serial d) ->
  map tp_id (d_telnet d') = map tp_id (d_telnet d) -> map rd_id (d_desktop d') = map rd_id (d_desktop d) ->
  d_recent d' = d_recent d -> Forall sealed (d_connections d') -> Forall credential_sealed (d_local_privileges d') ->
  (forall g, g ∈ used_groups d' -> g ∈ d_groups d' \/ g ∈ extra) -> data_ok extra d'.
Proof. intros [] E1 E2 E3 E4 E5 S L G. split; rewrite ?E1, ?E2, ?E3, ?E4, ?E5; done. Qed.

Lemma put_connection_ok `{Allowed} c d : ok d -> sealed c -> data_ok (option_list (cn_group c)) (put_connection c d).
Proof.
  intros [A1 A2 A3 A4 B1 B2 B3 C S L] Hc. split; cbn; try done.
  - by apply upsert_by_NoDup.
  - intros r Hr. by apply upsert_by_keys, B3.
  - intros g. rewrite elem_of_used. cbn. intros [(x & Hx & Hg)|Hg].
    + apply upsert_by_elem in Hx as [->|Hx]; [right; rewrite Hg; set_solver|]. destruct (C g) as [?|?]; [|by left|set_solver].
      apply elem_of_used. left. by exists x.
    + destruct (C g) as [?|?]; [|by left|set_solver]. apply elem_of_used. by right.
  - apply Forall_forall. intros x [->|Hx]%upsert_by_elem; [done|]. by eapply Forall_forall in S.
Qed.
Lemma add_connection_ok `{Allowed} c d : ok d -> sealed c -> (forall g, cn_group c = Some g -> g ∈ d_groups d) -> ok (add_connection c d).
Proof.
  intros [A1 A2 A3 A4 B1 B2 B3 C S L] Hc Hg. split; cbn; try done.
  - rewrite map_app. apply NoDup_app. split_and!; [by apply keys_filter_NoDup| |apply NoDup_singleton]. cbn. intros x Hx Heq.
    apply list_elem_of_singleton in Heq as ->. apply list_elem_of_fmap in Hx as (y & Hy & Hin). apply elem_of_List_filter in Hin as [_ Hn].
    by rewrite Hy, bool_decide_true in Hn.
  - intros r Hr. apply B3, list_elem_of_fmap in Hr as (y & -> & Hy). rewrite map_app, elem_of_app. destruct (decide (cn_id y = cn_id c)) as [E|E].
    + right. cbn. rewrite E. set_solver.
    + left. apply list_elem_of_fmap_2. apply elem_of_List_filter. split; [done|]. by rewrite bool_decide_false.
  - intros g. rewrite elem_of_used. cbn. intros [(x & Hx & Hgx)|Hgx].
    + apply elem_of_app in Hx as [[Hx _]%elem_of_List_filter|Hx]; [|apply list_elem_of_singleton in Hx as ->; left; by apply Hg].
      apply C, elem_of_used. left. by exists x.
    + apply C, elem_of_used. by right.
  - apply Forall_app. split; [|by constructor]. apply Forall_forall. intros x [Hx _]%elem_of_List_filter. by eapply Forall_forall in S.
Qed.
Lemma append_connection_ok `{Allowed} c d : ok d -> sealed c -> cn_id c ∉ map cn_id (d_connections d) ->
  data_ok (option_list (cn_group c)) (set_d_connections (d_connections d ++ [c]) d).
Proof.
  intros [A1 A2 A3 A4 B1 B2 B3 C S L] Hc Hn. split; cbn; try done.
  - rewrite map_app. apply NoDup_app. cbn. split_and!; [done| |apply NoDup_singleton]. set_solver.
  - intros r Hr. rewrite map_app, elem_of_app. left. by apply B3.
  - intros g. rewrite elem_of_used. cbn. intros [(x & Hx & Hg)|Hg].
    + apply elem_of_app in Hx as [Hx|Hx]; [destruct (C g) as [?|?]; [apply elem_of_used; left; by exists x|by left|set_solver]|].
      apply list_elem_of_singleton in Hx as ->. right. rewrite Hg. set_solver.
    + destruct (C g) as [?|?]; [apply elem_of_used; by right|by left|set_solver].
  - apply Forall_app. split; [done|by constructor].
Qed.
Lemma remove_connection_ok `{Allowed} id d c d' : ok d -> remove_connection_without_tombstone id d = Some (c, d') -> ok d'.
Proof.
  intros [A1 A2 A3 A4 B1 B2 B3 C S L]. unfold remove_connection_without_tombstone. destruct (remove_first _ _) as [[x l]|] eqn:E; [|done].
  intros [= -> <-]. apply remove_first_spec in E as (l1 & l2 & E & -> & Hid). apply bool_decide_eq_true in Hid.
  assert (Hsub : l1 ++ l2 `sublist_of` d_connections d) by (rewrite E; apply sublist_app; [done|by constructor]).
  split; cbn; try done.
  - eapply sublist_NoDup; [exact A1|]. by apply (fmap_sublist cn_id).
  - eapply sublist_NoDup; [exact B1|]. apply filter_sublist.
  - etransitivity; [apply sublist_length, filter_sublist|done].
  - intros r [Hr Hne]%elem_of_List_filter. apply negb_true_iff, bool_decide_eq_false in Hne. apply B3 in Hr.
    rewrite E, map_app in Hr. cbn in Hr. rewrite map_app. set_solver.
  - intros g. rewrite elem_of_used. cbn. intros [(y & Hy & Hg)|Hg]; apply C, elem_of_used; [left|by right].
    exists y. split; [|done]. by eapply elem_of_sublist.
  - apply Forall_forall. intros y Hy. eapply Forall_forall in S; [exact S|]. by eapply elem_of_sublist.
Qed.
Lemma tombstones_ok `{Allowed} l d : ok d -> ok (set_d_tombstones l d).
Proof. intros []. by split. Qed.
Lemma connection_tombstone_ok `{Allowed} now id at_ d : ok d -> ok (upsert_connection_tombstone now id at_ d).2.
Proof. intros Hd. unfold upsert_connection_tombstone. repeat case_match; by apply tombstones_ok. Qed.
Lemma remove_tombstone_ok `{Allowed} now id at_ d c d' : ok d -> remove_connection_with_tombstone_at now id at_ d = Some (c, d') -> ok d'.
Proof.
  intros Hd. unfold remove_connection_with_tombstone_at. destruct (remove_connection_without_tombstone id d) as [[x d1]|] eqn:E; [|done].
  intros [= _ <-]. apply connection_tombstone_ok. by eapply remove_connection_ok.
Qed.
Lemma update_first_omap {A B} (g : A -> option B) p f (l : list A) : (forall x, g (f x) = g x) -> omap g (default l (update_first p f l)) = omap g l.
Proof.
  intros Hf. destruct (update_first p f l) as [l'|] eqn:E; [|done]. apply update_first_spec in E as (l1 & x & l2 & -> & -> & _ & _).
  cbn. rewrite !omap_app. cbn. by rewrite Hf.
Qed.
(** One connection is changed, but for its id and group. *)
Lemma update_connection_ok `{Allowed} p f d : ok d -> (forall c, cn_id (f c) = cn_id c) -> (forall c, cn_group (f c) = cn_group c) ->
  (forall c, sealed c -> sealed (f c)) -> ok (set_d_connections (default (d_connections d) (update_first p f (d_connections d))) d).
Proof.
  intros Hd Hid Hgr Hs. destruct (Hd) as [A1 A2 A3 A4 B1 B2 B3 C S L]. apply (reshape_ok [] d); cbn; try done.
  - by apply update_first_keys.
  - by apply update_first_Forall.
  - unfold used_groups in *. cbn in *. by rewrite update_first_omap.
Qed.
