(* ===== verification/ConnInvariant.v ===== *)
(** * Every operation keeps the store's invariant

    Each operation of [ConnStore] and [ConnSync], the whole of it, from data
    that satisfy the invariant of [ConnFacts] to data that satisfy it, on
    success and on every failure. *)
From Stdlib Require Import String.
From stdpp Require Import prelude numbers list gmap.
From S2P Require Import Prelude Text TrzszBuffer TextOps ForwardModel ConnTypes ConnStore ConnSync ConnFacts.
Open Scope Z_scope.

#[local] Arguments sort_by : simpl never.
#[local] Arguments dedup : simpl never.
#[local] Arguments upsert_by : simpl never.
#[local] Arguments normalize : simpl never.

(** ** Groups *)

Definition proper_group (group : option (list Z)) : Prop := forall g, group = Some g -> validate_group_name g = Ok g.
Lemma validated name g : validate_group_name name = Ok g -> validate_group_name g = Ok g.
Proof.
  unfold validate_group_name. destruct (decide (trim name = [])); [done|]. destruct (existsb blank _) eqn:E; [done|]. intros [= <-].
  rewrite trim_idem. by rewrite decide_False, E.
Qed.
Lemma group_proper group g : normalize_optional_group_name group = Ok g -> proper_group g.
Proof.
  unfold normalize_optional_group_name. destruct (normalize_optional_text group) as [n|]; [|by intros [= <-]].
  destruct (bool_decide _); [by intros [= <-]|]. destruct (validate_group_name n) as [v|] eqn:E; [|done]. cbn. intros [= <-] ? [= <-].
  by eapply validated.
Qed.

Lemma more_extra `{Allowed} d l : data_ok [] d -> data_ok l d.
Proof. intros [? ? ? ? ? ? ? C ? ?]. split; try done. intros g Hg. destruct (C g Hg) as [?|?]; [by left|set_solver]. Qed.
Lemma less_extra `{Allowed} d l : data_ok l d -> (forall g, g ∈ l -> g ∈ d_groups d) -> data_ok [] d.
Proof. intros [? ? ? ? ? ? ? C ? ?] Hl. split; try done. intros g Hg. destruct (C g Hg) as [?|?]; left; auto. Qed.
Lemma extend_groups `{Allowed} d l g : data_ok l d -> data_ok l (set_d_groups (d_groups d ++ [g]) d).
Proof. intros [? ? ? ? ? ? ? C ? ?]. split; try done. intros h Hh. cbn. destruct (C h Hh) as [?|?]; [left; set_solver|by right]. Qed.

Section Operations.
Context `{allow : Allowed} `{out : Outside}.

Lemma normalized_ok extra : triple (data_ok extra) normalized (fun _ => ok).
Proof. intros w Hw. cbn. by eapply normalize_ok. Qed.
Lemma ensure_group_ok g : validate_group_name g = Ok g -> triple (data_ok [g]) (ensure_group g) (fun _ => ok).
Proof.
  intros Hg w Hw. unfold ensure_group. rewrite Hg. unfold wp, bind, lift, data. cbn. destruct (decide (g ∈ d_groups (w_data w))) as [E|E].
  - cbn. eapply less_extra; [exact Hw|]. by intros ? ->%list_elem_of_singleton.
  - cbn. eapply normalize_ok. by apply extend_groups.
Qed.
Lemma ensure_optional_ok group : proper_group group -> triple (data_ok (option_list group)) (ensure_optional_group group) (fun _ => ok).
Proof. destruct group as [g|]; intros Hg; [by apply ensure_group_ok, Hg|]. by apply triple_ret. Qed.
Lemma ensure_group_keeps g : keeps (ensure_group g).
Proof.
  intros w Hw. unfold ensure_group. destruct (validate_group_name g) as [v|]; [|done]. unfold wp, bind, lift, data. cbn.
  destruct (decide (v ∈ d_groups (w_data w))) as [E|E]; [done|]. cbn. eapply normalize_ok. by apply extend_groups.
Qed.
Lemma ensure_optional_keeps group : keeps (ensure_optional_group group).
Proof. destruct group as [g|]; [apply ensure_group_keeps|by apply triple_ret]. Qed.
Lemma ensure_optional_lists group : proper_group group ->
  triple ok (ensure_optional_group group) (fun _ d => ok d /\ forall g, group = Some g -> g ∈ d_groups d).
Proof.
  destruct group as [g|]; intros Hp; [|by apply triple_ret]. intros w Hw. cbn. unfold ensure_group. rewrite (Hp g eq_refl). unfold wp, bind, lift, data. cbn.
  destruct (decide (g ∈ d_groups (w_data w))) as [E|E]; [cbn; split; [done|by intros ? [= <-]]|]. cbn.
  split; [eapply normalize_ok, extend_groups, Hw|]. intros ? [= <-]. unfold normalize. cbn. rewrite !push_missing_all, dedup_elem, sort_by_perm. cbn. set_solver.
Qed.
Lemma save_keeps : keeps save.
Proof. eapply triple_quiet; [apply save_quiet|done|done]. Qed.
Lemma quiet_keeps {A} (m : CM A) R : quiet m R -> keeps m.
Proof. intros Hm. by eapply triple_quiet. Qed.
Lemma ignore_keeps {A} (m : CM A) : keeps m -> keeps (ignore m).
Proof.
  intros Hm w Hw. unfold ignore. apply wp_bind, wp_attempt. eapply wp_mono; [by apply Hm|]. by intros [a|e] w' H.
Qed.

(** Data that are changed, put in order and saved. *)
Lemma change_save_ok {A} f (k : CM A) : (forall d, ok d -> ok (f d)) -> keeps k -> keeps (do* change_data f in do* save in k).
Proof. intros Hf Hk. eapply triple_change; [exact Hf|]. eapply triple_seq; [apply save_keeps|done]. Qed.
Lemma normalize_save_ok {A} extra (k : CM A) : keeps k -> triple (data_ok extra) (do* normalized in do* save in k) (fun _ => ok).
Proof. intros Hk. eapply triple_seq; [apply normalized_ok|]. eapply triple_seq; [apply save_keeps|done]. Qed.

Lemma create_group_keeps name : keeps (create_group name).
Proof. eapply triple_seq; [apply ensure_group_keeps|]. apply save_keeps. Qed.

(** All four kinds of things with a group are changed alike; the ids stay, and
    each group in use afterwards is listed. *)
Record regroups (d d' : ConnectionStoreData) (listed : list Z -> Prop) : Prop := {
  rg_connections : exists f, d_connections d' = map f (d_connections d) /\ (forall c, cn_id (f c) = cn_id c)
    /\ (forall c, sealed c -> sealed (f c)) /\ forall c g, c ∈ d_connections d -> cn_group (f c) = Some g -> listed g;
  rg_serial : exists f, d_serial d' = map f (d_serial d) /\ (forall c, sp_id (f c) = sp_id c)
    /\ forall c g, c ∈ d_serial d -> sp_group (f c) = Some g -> listed g;
  rg_telnet : exists f, d_telnet d' = map f (d_telnet d) /\ (forall c, tp_id (f c) = tp_id c)
    /\ forall c g, c ∈ d_telnet d -> tp_group (f c) = Some g -> listed g;
  rg_desktop : exists f, d_desktop d' = map f (d_desktop d) /\ (forall c, rd_id (f c) = rd_id c)
    /\ forall c g, c ∈ d_desktop d -> rd_group (f c) = Some g -> listed g;
  rg_rest : d_recent d' = d_recent d /\ d_local_privileges d' = d_local_privileges d
}.
Lemma regroups_ok extra d d' : ok d -> regroups d d' (fun g => g ∈ d_groups d' \/ g ∈ extra) -> data_ok extra d'.
Proof.
  intros Hd [(f1 & E1 & I1 & S1 & G1) (f2 & E2 & I2 & G2) (f3 & E3 & I3 & G3) (f4 & E4 & I4 & G4) [E5 E6]].
  apply (reshape_ok extra d); rewrite ?E1, ?E2, ?E3, ?E4, ?E6; try done; try by apply map_keys.
  - destruct Hd. apply Forall_map. by eapply Forall_impl.
  - by destruct Hd.
  - intros g. rewrite elem_of_used, E1, E2, E3, E4.
    intros [(x & (y & -> & Hy)%list_elem_of_fmap & Hg)|[(x & (y & -> & Hy)%list_elem_of_fmap & Hg)|
           [(x & (y & -> & Hy)%list_elem_of_fmap & Hg)|(x & (y & -> & Hy)%list_elem_of_fmap & Hg)]]]; eauto.
Qed.
Lemma group_listed d g : ok d ->
  (exists c, c ∈ d_connections d /\ cn_group c = Some g) \/ (exists p, p ∈ d_serial d /\ sp_group p = Some g)
  \/ (exists p, p ∈ d_telnet d /\ tp_group p = Some g) \/ (exists p, p ∈ d_desktop d /\ rd_group p = Some g) -> g ∈ d_groups d.
Proof. intros Hd Hg. destruct (ok_groups _ _ Hd g) as [?|?]; [by apply elem_of_used|done|set_solver]. Qed.

Lemma delete_group_data_ok name now d : ok d -> ok (delete_group_data name now d).
Proof.
  intros Hd. apply (regroups_ok [] d); [done|].
  assert (Hkeep : forall g, g ∈ d_groups d -> in_group name (Some g) = false -> g ∈ d_groups (delete_group_data name now d)).
  { intros g Hg Hn. cbn. apply elem_of_List_filter. cbn in Hn. by rewrite Hn. }
  split; [..|done]; eexists; (split; [reflexivity|]); (split; [by intros c; case_match|]).
  1: split; [by intros c []; case_match; split|].
  all: cbn; intros c g Hc; case_match eqn:E; [done|]; intros Hg; left; apply Hkeep; [|by rewrite <-Hg]; apply group_listed; [done|]; eauto 8.
Qed.
Lemma delete_group_keeps name : keeps (delete_group name).
Proof.
  eapply triple_then; [apply (data_quiet_lift _ (fun _ => True)); done|done|]. intros n _.
  eapply triple_then; [apply clock_quiet|done|]. intros now _. eapply triple_change; [apply delete_group_data_ok|apply save_keeps].
Qed.

(** A renamed group is among the renamed groups. *)
Lemma renamed_listed old new now d x g : ok d -> x ∈ d_groups d ->
  g = default x (rename_group_path x old new) -> g ∈ d_groups (rename_group_data old new now d).1.
Proof.
  intros Hd Hx ->. cbn. apply list_elem_of_fmap. exists x. split; [|done]. cbn. by destruct (rename_group_path x old new).
Qed.
Lemma rename_group_data_ok old new now d : ok d -> ok (rename_group_data old new now d).1.
Proof.
  intros Hd. apply (regroups_ok [] d); [done|].
  split; [..|done]; eexists; (split; [reflexivity|]); (split; [by intros c; case_match|]).
  1: split; [by intros c []; case_match; split|].
  all: intros c g Hc Hg; left; cbn in Hg.
  1: destruct (cn_group c) as [x|] eqn:E. 3: destruct (sp_group c) as [x|] eqn:E. 5: destruct (tp_group c) as [x|] eqn:E.
  7: destruct (rd_group c) as [x|] eqn:E.
  2,4,6,8: cbn in Hg; congruence.
  all: apply (renamed_listed old new now d x g Hd); [apply group_listed; [done|]; eauto 8|]; cbn in Hg; case_match; cbn in *; congruence.
Qed.
Lemma rename_group_keeps old new : keeps (rename_group old new).
Proof.
  eapply triple_then; [apply (data_quiet_lift _ (fun _ => True)); done|done|]. intros o _.
  eapply triple_then; [apply (data_quiet_lift _ (fun _ => True)); done|done|]. intros n _.
  case_decide; [by apply triple_ret|]. case_match; [by apply triple_throw|]. apply triple_data. intros d Hd.
  case_match; [apply triple_throw; by intros ? ->|]. eapply triple_then; [apply clock_quiet|by intros ? ->|]. intros now _.
  destruct (rename_group_data o n now d) as [d' k] eqn:E. eapply (triple_change _ _ _ ok).
  - intros ? _. pose proof (rename_group_data_ok o n now d Hd) as Hr. by rewrite E in Hr.
  - case_match; [|by apply triple_ret]. apply (normalize_save_ok []). by apply triple_ret.
Qed.

Lemma lift_then {A B} (r : result ConnError A) (f : A -> CM B) P Q : (forall d, P d -> ok d) ->
  (forall a, r = Ok a -> triple P (f a) Q) -> triple P (bind (lift r) f) Q.
Proof. intros HP Hf. eapply (triple_then _ _ (fun a => r = Ok a)); [by apply data_quiet_lift|done|done]. Qed.
Lemma clock_then {B} (f : Z -> CM B) P Q : (forall d, P d -> ok d) -> (forall now, triple P (f now) Q) -> triple P (bind clock f) Q.
Proof. intros HP Hf. eapply triple_then; [apply clock_quiet|done|]. by intros now _. Qed.
Lemma quiet_then {A B} (m : CM A) (f : A -> CM B) P Q : quiet m (fun _ => True) -> (forall d, P d -> ok d) ->
  (forall a, triple P (f a) Q) -> triple P (bind m f) Q.
Proof. intros Hm HP Hf. eapply triple_then; [exact Hm|done|]. by intros a _. Qed.
Lemma ret_keeps {A} (a : A) : keeps (ret a).
Proof. by apply triple_ret. Qed.
Lemma throw_keeps {A} e : keeps (A := A) (throw e).
Proof. by apply triple_throw. Qed.
Lemma save_ret {A} (a : A) : keeps (do* save in ret a).
Proof. eapply triple_seq; [apply save_keeps|apply ret_keeps]. Qed.
Lemma quiet_seq {A B} (m : CM A) (k : CM B) : quiet m (fun _ => True) -> keeps k -> keeps (do* m in k).
Proof. intros Hm Hk. by apply quiet_then. Qed.

Lemma move_session_assets_keeps ids desktops group : keeps (move_session_assets_to_group ids desktops group).
Proof.
  apply lift_then; [done|]. intros g Hg%group_proper. apply clock_then; [done|]. intros now. apply triple_data. intros d Hd.
  eapply (triple_change _ _ _ (data_ok (option_list g))).
  - intros ? ->. apply (regroups_ok _ d); [done|]. split; [..|done]; cbn.
    1,4: eexists; (split; [reflexivity|]); (split; [by intros c; case_match|]).
    1: split; [by intros c []; case_match; split|].
    1,2: cbn; intros c h Hc; case_match; cbn; intros Hh; [right; rewrite Hh; set_solver|]; left; apply group_listed; [done|]; eauto 8.
    all: exists id; rewrite map_id; split_and!; [done..|]; intros c h Hc Hh; left; apply group_listed; [done|]; eauto 8.
  - eapply triple_seq; [by apply ensure_optional_ok|]. apply save_ret.
Qed.

(** A connection that was built is put in its place. *)
Lemma put_and_save_ok {A} c group (k : CM A) d : ok d -> sealed c -> cn_group c = group -> proper_group group -> keeps k ->
  triple (fun d' => d' = d) (do* change_data (put_connection c) in do* ensure_optional_group group in do* normalized in do* save in k) (fun _ => ok).
Proof.
  intros Hd Hc <- Hp Hk. eapply triple_change; [intros ? ->; by apply put_connection_ok|].
  eapply triple_seq; [by apply ensure_optional_ok|]. by apply (normalize_save_ok []).
Qed.
Lemma get_sealed id d c : ok d -> get id d = Some c -> sealed c.
Proof. intros Hd [Hc _]%List.find_some. apply list_elem_of_In in Hc. destruct Hd as [? ? ? ? ? ? ? ? S ?]. by eapply Forall_forall in S. Qed.
Lemma existing_credentials_sealed d id : ok d -> Forall credential_sealed (from_option cn_privilege_credentials [] (get id d)).
Proof. intros Hd. destruct (get id d) as [c|] eqn:E; [|constructor]. cbn. by destruct (get_sealed id d c Hd E). Qed.

Lemma upsert_with_runtime_secrets_keeps r : keeps (upsert_with_runtime_secrets r).
Proof.
  apply lift_then; [done|]. intros g Hg%group_proper. apply clock_then; [done|]. intros now.
  apply quiet_then; [apply choose_quiet, new_uuid_quiet|done|]. intros id. apply triple_data. intros d Hd.
  eapply triple_then; [apply materialize_auth_runtime_quiet|by intros ? ->|]. intros auth Hauth.
  eapply triple_then; [apply materialize_chain_runtime_quiet|by intros ? ->|]. intros chain Hchain.
  eapply triple_then; [apply materialize_proxy_runtime_quiet|by intros ? ->|]. intros upstream Hup.
  do 3 (apply lift_then; [by intros ? ->|intros ? _]). apply put_and_save_ok; [done| |done|done|].
  - split; cbn; [done..|]. by apply existing_credentials_sealed.
  - apply quiet_seq; [apply deletions_quiet|]. apply quiet_then; [apply info_of_quiet|done|]. intros info. apply ret_keeps.
Qed.
Lemma upsert_keeps r : keeps (upsert r).
Proof. eapply triple_bind; [apply upsert_with_runtime_secrets_keeps|]. intros a. apply ret_keeps. Qed.

Lemma delete_connection_keeps id : keeps (delete_connection id).
Proof.
  apply triple_data. intros d Hd. do 2 (apply clock_then; [by intros ? ->|intros ?]).
  destruct (remove_connection_with_tombstone_at _ _ _ _) as [[c d']|] eqn:E; [|apply triple_ret; by intros ? ->].
  eapply (triple_change _ _ _ ok); [intros ? _; by eapply remove_tombstone_ok|]. apply (normalize_save_ok []).
  do 2 (apply quiet_seq; [apply deletions_quiet|]). apply ret_keeps.
Qed.
Lemma rename_connection_keeps id name : keeps (rename_connection id name).
Proof.
  apply triple_data. intros d Hd. destruct (get id d) as [c|]; [|apply triple_ret; by intros ? ->].
  apply lift_then; [by intros ? ->|]. intros n _. apply clock_then; [by intros ? ->|]. intros now.
  eapply (triple_change _ _ _ ok); [|apply (normalize_save_ok []), ret_keeps].
  intros ? ->. apply update_connection_ok; [done..|]. by intros ? []; split.
Qed.
Lemma recent_ok id d : ok d -> id ∈ map cn_id (d_connections d) ->
  ok (set_d_recent (take 10 (id :: List.filter (fun r => negb (bool_decide (r = id))) (d_recent d))) d).
Proof.
  intros [A1 A2 A3 A4 B1 B2 B3 C S L] Hid. split; try done; cbn -[take].
  - eapply sublist_NoDup; [|apply sublist_take]. constructor; [|eapply sublist_NoDup; [exact B1|apply filter_sublist]].
    intros [_ Hn]%elem_of_List_filter. by rewrite bool_decide_true in Hn.
  - rewrite length_take. lia.
  - intros r Hr. eapply elem_of_sublist in Hr; [|apply sublist_take]. apply elem_of_cons in Hr as [->|[Hr _]%elem_of_List_filter]; auto.
Qed.
Lemma mark_used_keeps id : keeps (mark_used id).
Proof.
  apply triple_data. intros d Hd. destruct (get id d) as [c|] eqn:E; [|apply triple_ret; by intros ? ->].
  apply clock_then; [by intros ? ->|]. intros now. eapply (triple_change _ _ _ ok); [|apply save_ret].
  intros ? ->. apply recent_ok.
  - apply update_connection_ok; [done..|]. by intros ? []; split.
  - cbn. rewrite update_first_keys by done. apply List.find_some in E as [Hc Hi]. apply bool_decide_eq_true in Hi as <-.
    by apply list_elem_of_fmap_2, list_elem_of_In.
Qed.

(** The next UUID is not in use. *)
Definition next_uuid_unused (w : World) : Prop := uuid_at (w_tick w) ∉ map cn_id (d_connections (w_data w)).
Lemma fresh_then {B} (f : list Z -> CM B) w : triple (fun d => d = w_data w) (f (uuid_at (w_tick w))) (fun _ => ok) ->
  wp (bind new_uuid f) (fun _ w' => ok (w_data w')) w.
Proof. intros Hf. apply wp_bind. cbn. eapply wp_mono; [by apply Hf|]. by intros [?|?] ?. Qed.
Lemma duplicate_keeps id w : ok (w_data w) -> next_uuid_unused w -> wp (duplicate id) (fun _ w' => ok (w_data w')) w.
Proof.
  unfold next_uuid_unused. intros Hw Hu. unfold duplicate. apply wp_bind. cbn. destruct (get id (w_data w)) as [c|] eqn:E; [|done].
  apply fresh_then. do 2 (apply clock_then; [by intros ? ->|intros ?]). destruct (get_sealed id (w_data w) c Hw E) as [Sa Sh Sp Sc].
  eapply triple_then; [by apply clone_auth_quiet|by intros ? ->|]. intros auth Ha.
  eapply triple_then; [by apply clone_hops_quiet|by intros ? ->|]. intros hops Hh.
  eapply triple_change; [intros ? ->; apply append_connection_ok; [done|by split|done]|].
  apply normalize_save_ok. apply triple_data. intros ? Hok. apply triple_ret. by intros ? ->.
Qed.

(** ** Profiles *)

(** What a list of profiles may become. *)
Section Profiles.
Context {A : Type} (key : A -> list Z) (group : A -> option (list Z)).
Definition part_of (listed : list Z -> Prop) (l : list A) : Prop := NoDup (map key l) /\ forall p g, p ∈ l -> group p = Some g -> listed g.
Lemma part_upsert listed l p : part_of listed l -> (forall g, group p = Some g -> listed g) -> part_of listed (upsert_by key p l).
Proof. intros [Hn Hg] Hp. split; [by apply upsert_by_NoDup|]. intros q g [->|Hq]%upsert_by_elem; eauto. Qed.
Lemma part_filter listed l f : part_of listed l -> part_of listed (List.filter f l).
Proof. intros [Hn Hg]. split; [by apply keys_filter_NoDup|]. intros q g [Hq _]%elem_of_List_filter. eauto. Qed.
Lemma part_update listed l p f : part_of listed l -> (forall x, key (f x) = key x) -> (forall x, group (f x) = group x) ->
  part_of listed (default l (update_first p f l)).
Proof.
  intros [Hn Hg] Hk Hf. split; [by rewrite update_first_keys|].
  assert (HF : Forall (fun p => forall g, group p = Some g -> listed g) (default l (update_first p f l))).
  { apply update_first_Forall; [intros x Hx g; rewrite Hf; apply Hx|]. apply Forall_forall. eauto. }
  intros q g Hq. eapply Forall_forall in HF; [|exact Hq]. apply HF.
Qed.
Lemma part_mono (P Q : list Z -> Prop) l : (forall g, P g -> Q g) -> part_of P l -> part_of Q l.
Proof. intros HPQ [Hn Hg]. split; eauto. Qed.
End Profiles.
Definition listed_in (d : ConnectionStoreData) (extra : list (list Z)) (g : list Z) : Prop := g ∈ d_groups d \/ g ∈ extra.
Lemma serial_part d extra : ok d -> part_of sp_id sp_group (listed_in d extra) (d_serial d).
Proof. intros Hd. split; [by destruct Hd|]. intros p g Hp Hg. left. apply group_listed; [done|]. eauto 8. Qed.
Lemma telnet_part d extra : ok d -> part_of tp_id tp_group (listed_in d extra) (d_telnet d).
Proof. intros Hd. split; [by destruct Hd|]. intros p g Hp Hg. left. apply group_listed; [done|]. eauto 8. Qed.
Lemma desktop_part d extra : ok d -> part_of rd_id rd_group (listed_in d extra) (d_desktop d).
Proof. intros Hd. split; [by destruct Hd|]. intros p g Hp Hg. left. apply group_listed; [done|]. eauto 8. Qed.
Lemma own_group d (o : option (list Z)) g : o = Some g -> listed_in d (option_list o) g.
Proof. intros ->. right. set_solver. Qed.
Lemma with_serial_ok extra d l : ok d -> part_of sp_id sp_group (listed_in d extra) l -> data_ok extra (set_d_serial l d).
Proof.
  intros Hd [Hl Hg]. destruct (Hd) as [A1 A2 A3 A4 B1 B2 B3 C S L]. split; try done. intros g. rewrite elem_of_used. cbn.
  intros [Hx|[(p & Hp & Hx)|Hx]]; [left; apply group_listed; auto|by eapply Hg|left; apply group_listed; auto].
Qed.
Lemma with_telnet_ok extra d l : ok d -> part_of tp_id tp_group (listed_in d extra) l -> data_ok extra (set_d_telnet l d).
Proof.
  intros Hd [Hl Hg]. destruct (Hd) as [A1 A2 A3 A4 B1 B2 B3 C S L]. split; try done. intros g. rewrite elem_of_used. cbn.
  intros [Hx|[Hx|[(p & Hp & Hx)|Hx]]]; [left; apply group_listed; auto..|by eapply Hg|left; apply group_listed; auto].
Qed.
Lemma with_desktop_ok extra d l : ok d -> part_of rd_id rd_group (listed_in d extra) l -> data_ok extra (set_d_desktop l d).
Proof.
  intros Hd [Hl Hg]. destruct (Hd) as [A1 A2 A3 A4 B1 B2 B3 C S L]. split; try done. intros g. rewrite elem_of_used. cbn.
  intros [Hx|[Hx|[Hx|(p & Hp & Hx)]]]; [left; apply group_listed; auto..|by eapply Hg].
Qed.

Lemma upsert_serial_keeps r : keeps (upsert_serial_profile r).
Proof.
  apply lift_then; [done|]. intros g _. apply clock_then; [done|]. intros now. apply quiet_then; [apply choose_quiet, new_uuid_quiet|done|].
  intros id. apply triple_data. intros d Hd. apply lift_then; [by intros ? ->|]. intros _ _.
  eapply triple_change; [|apply (normalize_save_ok (option_list g)), ret_keeps]. intros ? ->. apply with_serial_ok; [done|].
  apply part_upsert; [by apply serial_part|]. apply own_group.
Qed.
Lemma upsert_telnet_keeps r : keeps (upsert_telnet_profile r).
Proof.
  apply lift_then; [done|]. intros g _. apply clock_then; [done|]. intros now. apply quiet_then; [apply choose_quiet, new_uuid_quiet|done|].
  intros id. apply triple_data. intros d Hd. apply lift_then; [by intros ? ->|]. intros _ _.
  eapply triple_change; [|apply (normalize_save_ok (option_list g)), ret_keeps]. intros ? ->. apply with_telnet_ok; [done|].
  apply part_upsert; [by apply telnet_part|]. apply own_group.
Qed.
Lemma delete_serial_keeps id : keeps (delete_serial_profile id).
Proof.
  apply triple_data. intros d Hd. eapply (triple_change _ _ _ ok); [|by case_match; [apply save_ret|apply ret_keeps]].
  intros ? ->. apply with_serial_ok; [done|]. by apply part_filter, serial_part.
Qed.
Lemma delete_telnet_keeps id : keeps (delete_telnet_profile id).
Proof.
  apply triple_data. intros d Hd. eapply (triple_change _ _ _ ok); [|by case_match; [apply save_ret|apply ret_keeps]].
  intros ? ->. apply with_telnet_ok; [done|]. by apply part_filter, telnet_part.
Qed.
Lemma clock_if_quiet (b : bool) : quiet (if b then clock else ret 0) (fun _ => True).
Proof. destruct b; [apply clock_quiet|by apply data_quiet_ret]. Qed.
Lemma mark_serial_keeps id : keeps (mark_serial_profile_used id).
Proof.
  apply triple_data. intros d Hd. apply quiet_then; [apply clock_if_quiet|by intros ? ->|]. intros now.
  destruct (update_first _ _ _) as [l|] eqn:E; [|apply triple_ret; by intros ? ->].
  eapply (triple_change _ _ _ ok); [|apply save_ret]. intros ? ->. apply with_serial_ok; [done|].
  change l with (default (d_serial d) (Some l)). rewrite <-E. by apply part_update; [apply serial_part|..].
Qed.
Lemma mark_telnet_keeps id : keeps (mark_telnet_profile_used id).
Proof.
  apply triple_data. intros d Hd. apply quiet_then; [apply clock_if_quiet|by intros ? ->|]. intros now.
  destruct (update_first _ _ _) as [l|] eqn:E; [|apply triple_ret; by intros ? ->].
  eapply (triple_change _ _ _ ok); [|apply save_ret]. intros ? ->. apply with_telnet_ok; [done|].
  change l with (default (d_telnet d) (Some l)). rewrite <-E. by apply part_update; [apply telnet_part|..].
Qed.
Lemma mark_desktop_keeps id : keeps (mark_remote_desktop_profile_used id).
Proof.
  apply triple_data. intros d Hd. apply quiet_then; [apply clock_if_quiet|by intros ? ->|]. intros now.
  destruct (update_first _ _ _) as [l|] eqn:E; [|apply triple_ret; by intros ? ->].
  eapply (triple_change _ _ _ ok); [|apply save_ret]. intros ? ->. apply with_desktop_ok; [done|].
  change l with (default (d_desktop d) (Some l)). rewrite <-E. by apply part_update; [apply desktop_part|..].
Qed.
Lemma cleanup_ok l d : ok d -> ok (set_d_cleanup l d).
Proof. intros []. by split. Qed.
Lemma privilege_cleanup_ok l d : ok d -> ok (set_d_privilege_cleanup l d).
Proof. intros []. by split. Qed.
Lemma delete_or_queue_keeps k : keeps (delete_or_queue_connection_keychain_entry k).
Proof.
  eapply triple_then; [eapply quiet_attempt, delete_quiet|done|]. intros r _. apply triple_data. intros d Hd.
  apply (triple_weak_pre _ ok _ _ Hd). destruct r as [a|e]; [apply ret_keeps|]. case_decide; [apply ret_keeps|].
  eapply triple_change; [intros ?; apply cleanup_ok|apply save_keeps].
Qed.
Lemma upsert_desktop_keeps r : keeps (upsert_remote_desktop_profile r).
Proof.
  apply lift_then; [done|]. intros g Hg%group_proper. apply clock_then; [done|]. intros now. apply quiet_then; [apply choose_quiet, new_uuid_quiet|done|].
  intros id. apply triple_data. intros d Hd. case_match; [apply triple_throw; by intros ? ->|].
  apply lift_then; [by intros ? ->|]. intros _ _. apply quiet_then; [repeat case_match; auto using data_quiet_ret with quiet|by intros ? ->|]. intros _.
  eapply (triple_change _ _ _ (data_ok (option_list g))).
  - intros ? ->. apply with_desktop_ok; [done|]. apply part_upsert; [by apply desktop_part|]. apply own_group.
  - eapply triple_seq; [by apply ensure_optional_ok|]. apply (normalize_save_ok []). eapply triple_seq; [|apply ret_keeps].
    repeat case_match; first [apply ret_keeps | apply delete_or_queue_keeps].
Qed.
Lemma delete_desktop_keeps id : keeps (delete_remote_desktop_profile id).
Proof.
  apply triple_data. intros d Hd. eapply (triple_change _ _ _ ok).
  - intros ? ->. apply with_desktop_ok; [done|]. by apply part_filter, desktop_part.
  - case_match; [|apply ret_keeps]. eapply triple_seq; [apply save_keeps|]. eapply triple_seq; [|apply ret_keeps].
    case_match; [apply delete_or_queue_keeps|apply ret_keeps].
Qed.
Lemma set_desktop_ok id f d : ok d -> (forall p, rd_id (f p) = rd_id p) -> (forall p, rd_group (f p) = rd_group p) -> ok (set_desktop id f d).
Proof. intros Hd Hi Hg. apply with_desktop_ok; [done|]. by apply part_update; [apply desktop_part|..]. Qed.
Lemma save_desktop_credential_keeps id credential : keeps (save_remote_desktop_credential id credential).
Proof.
  apply triple_data. intros d Hd. apply (triple_weak_pre _ ok _ _ Hd). case_match; [|apply throw_keeps].
  apply quiet_seq; [apply store_quiet|]. apply clock_then; [done|]. intros now.
  eapply triple_change; [|apply save_ret]. intros ? Hok. by apply set_desktop_ok.
Qed.
Lemma delete_desktop_credential_keeps id : keeps (delete_remote_desktop_credential id).
Proof.
  apply triple_data. intros d Hd. apply (triple_weak_pre _ ok _ _ Hd). case_match; [|apply ret_keeps].
  apply clock_then; [done|]. intros now. eapply (triple_change _ _ _ ok); [intros ? Hok; by apply set_desktop_ok|].
  eapply triple_seq; [apply save_keeps|]. eapply triple_seq; [apply delete_or_queue_keeps|apply ret_keeps].
Qed.

(** ** Privilege credentials *)

Lemma scope_sealed id d l : ok d -> privilege_credentials_for_scope id d = Ok l -> Forall credential_sealed l.
Proof.
  intros Hd. unfold privilege_credentials_for_scope. case_decide; [intros [= <-]; by destruct Hd|].
  destruct (get id d) as [c|] eqn:E; [|done]. intros [= <-]. by destruct (get_sealed id d c Hd E).
Qed.
Lemma set_privilege_ok id l d : ok d -> Forall credential_sealed l -> ok (set_privilege_credentials id l d).
Proof.
  intros Hd Hl. unfold set_privilege_credentials. case_decide; [destruct Hd; by split|].
  apply update_connection_ok; [done..|]. by intros c []; split.
Qed.
Lemma touch_scope_keeps id : keeps (touch_privilege_scope id).
Proof.
  unfold touch_privilege_scope. case_decide; [apply ret_keeps|]. apply clock_then; [done|]. intros now w Hw.
  apply update_connection_ok; [done..|]. by intros c []; split.
Qed.
Lemma save_privilege_keeps r : keeps (save_privilege_credential r).
Proof.
  do 2 (apply lift_then; [done|intros ? _]). apply clock_then; [done|]. intros now.
  apply quiet_then; [apply choose_quiet, new_uuid_quiet|done|]. intros id.
  apply quiet_then; [case_match; auto using data_quiet_ret with quiet|done|]. intros _. apply triple_data. intros d Hd.
  apply lift_then; [by intros ? ->|]. intros l Hl%scope_sealed; [|done]. eapply (triple_change _ _ _ ok).
  - intros ? ->. apply set_privilege_ok; [done|]. apply Forall_forall. intros c [->|Hc]%upsert_by_elem; [done|]. by eapply Forall_forall in Hl.
  - eapply triple_seq; [apply touch_scope_keeps|apply save_ret].
Qed.
Lemma delete_privilege_keeps id credential : keeps (delete_privilege_credential id credential).
Proof.
  apply triple_data. intros d Hd. apply lift_then; [by intros ? ->|]. intros l Hl%scope_sealed; [|done]. eapply (triple_change _ _ _ ok).
  - intros ? ->. apply set_privilege_ok; [done|]. apply Forall_forall. intros c [Hc _]%elem_of_List_filter. by eapply Forall_forall in Hl.
  - case_decide; [apply ret_keeps|]. eapply triple_seq; [apply touch_scope_keeps|].
    apply quiet_seq; [eapply ignore_quiet, delete_quiet|apply save_ret].
Qed.

(** ** Imports *)

Lemma normalize_ids now d : map cn_id (d_connections (normalize lowercase now d)) ≡ₚ map cn_id (d_connections d).
Proof. unfold normalize. cbn. rewrite sort_by_perm, (map_keys cn_id); [done|]. intros x. apply normalize_connection_same. Qed.
Lemma ensure_optional_same group ids :
  triple (fun d => ok d /\ map cn_id (d_connections d) ≡ₚ ids) (ensure_optional_group group) (fun _ d => ok d /\ map cn_id (d_connections d) ≡ₚ ids).
Proof.
  destruct group as [g|]; [|by apply triple_ret]. intros w [Hw Hids]. cbn. unfold ensure_group. destruct (validate_group_name g) as [v|]; [|done].
  unfold wp, bind, lift, data. cbn. destruct (decide (v ∈ d_groups (w_data w))) as [E|E]; [done|]. cbn.
  split; [eapply normalize_ok; by apply extend_groups|]. by rewrite normalize_ids.
Qed.
Lemma import_ssh_keeps c w : ok (w_data w) -> next_uuid_unused w -> wp (import_ssh_connection c) (fun _ w' => ok (w_data w')) w.
Proof.
  unfold next_uuid_unused. intros Hw Hu. apply fresh_then. set (ids := map cn_id (d_connections (w_data w))) in Hu.
  eapply (triple_mono _ (fun d => ok d /\ map cn_id (d_connections d) ≡ₚ ids) _ (fun _ => ok)); [|by intros ? ->|done].
  do 2 (apply clock_then; [by intros ? []|intros ?]).
  eapply triple_then; [apply materialize_auth_quiet|by intros ? []|]. intros auth Ha.
  eapply triple_then; [apply materialize_chain_quiet|by intros ? []|]. intros chain Hc.
  eapply triple_then; [apply materialize_proxy_quiet|by intros ? []|]. intros upstream Hup.
  eapply triple_seq; [apply ensure_optional_same|].
  eapply triple_change; [intros d [Hd Hids]; apply append_connection_ok; [done|by split|cbn; by rewrite Hids]|].
  apply normalize_save_ok. eapply quiet_keeps, info_of_quiet.
Qed.

Lemma upsert_imported_keeps c : Forall credential_sealed (cn_privilege_credentials c) -> keeps (upsert_imported_connection c).
Proof.
  intros Hc. apply lift_then; [done|]. intros g Hg%group_proper. apply clock_then; [done|]. intros now.
  apply quiet_then; [apply choose_quiet, new_uuid_quiet|done|]. intros id. apply triple_data. intros d Hd.
  do 3 (apply lift_then; [by intros ? ->|intros ? _]).
  eapply triple_then; [apply materialize_auth_quiet|by intros ? ->|]. intros auth Hauth.
  eapply triple_then; [apply materialize_chain_quiet|by intros ? ->|]. intros chain Hchain.
  eapply triple_then; [apply materialize_proxy_quiet|by intros ? ->|]. intros upstream Hup.
  apply put_and_save_ok; [done| |done|done|].
  - split; cbn; [done..|]. destruct (get id d) as [e|] eqn:E; [|done]. by destruct (get_sealed id d e Hd E).
  - apply quiet_seq; [apply deletions_quiet|]. eapply quiet_keeps, info_of_quiet.
Qed.
Lemma stage_imported_keeps c : keeps (stage_imported_connection c).
Proof.
  apply lift_then; [done|]. intros g Hg%group_proper. apply clock_then; [done|]. intros now.
  apply quiet_then; [apply choose_quiet, new_uuid_quiet|done|]. intros id. apply triple_data. intros d Hd.
  do 4 (apply lift_then; [by intros ? ->|intros ? _]).
  eapply triple_then; [apply materialize_auth_quiet|by intros ? ->|]. intros auth Hauth.
  eapply triple_then; [apply materialize_chain_quiet|by intros ? ->|]. intros chain Hchain.
  eapply triple_then; [apply materialize_proxy_quiet|by intros ? ->|]. intros upstream Hup.
  eapply triple_then; [apply materialize_credentials_quiet|by intros ? ->|]. intros p Hp.
  eapply triple_change; [intros ? ->; by apply put_connection_ok|]. eapply triple_seq; [by apply ensure_optional_ok|]. apply ret_keeps.
Qed.
Lemma attempt_keeps {A} (m : CM A) : keeps m -> keeps (attempt m).
Proof. intros Hm w Hw. apply wp_attempt. eapply wp_mono; [by apply Hm|]. by intros [a|e] w'. Qed.
Lemma keeps_then {A B} (m : CM A) (f : A -> CM B) : keeps m -> (forall a, keeps (f a)) -> keeps (bind m f).
Proof. intros Hm Hf. eapply triple_bind; [exact Hm|]. intros a. apply Hf. Qed.
Lemma stage_all_keeps l : forall pg, keeps (stage_all l pg).
Proof.
  induction l as [|c l IH]; intros pg; [apply ret_keeps|]. cbn. apply keeps_then; [apply attempt_keeps, stage_imported_keeps|].
  intros [s|e]; [apply IH|apply ret_keeps].
Qed.
Lemma import_transaction_keeps l : keeps (upsert_imported_connections_transaction l).
Proof.
  apply triple_data. intros d Hd. apply (triple_weak_pre _ ok _ _ Hd).
  do 2 (apply keeps_then; [eapply quiet_keeps, snapshot_quiet|intros ?]).
  apply keeps_then; [eapply quiet_keeps, read_managed_quiet|intros _]. apply keeps_then; [apply stage_all_keeps|]. intros x.
  apply keeps_then; [destruct x.2; [|apply ret_keeps]; apply attempt_keeps; eapply triple_seq; [apply (normalized_ok [])|apply save_keeps]|].
  intros [u|e].
  - apply quiet_seq; [apply deletions_quiet|]. apply triple_data. intros d' Hd'. apply triple_ret. by intros ? ->.
  - eapply triple_change; [by intros ? _|]. do 3 (apply keeps_then; [first [apply attempt_keeps, save_keeps|eapply quiet_keeps, rollback_quiet]|intros ?]).
    cbv zeta. destruct (decide _); apply throw_keeps.
Qed.

(** ** Synchronisation *)

Context `{dig : Digests}.

Lemma triple_pure {A} (m : CM A) (P : ConnectionStoreData -> Prop) (H : Prop) Q : (H -> triple P m Q) -> triple (fun d => P d /\ H) m Q.
Proof. intros Hm w [Hw HH]. by apply Hm. Qed.
Lemma auth_from_parts_sealed t a b c : auth_sealed (auth_from_parts t a b c).
Proof. by destruct t. Qed.
Lemma build_connection_ok p options t existing preserve c : (forall e, existing = Some e -> sealed e) -> proxy_sealed (ci_upstream_proxy p) ->
  build_saved_connection_from_sync_payload p options t existing preserve = Ok c -> sealed c /\ proper_group (cn_group c).
Proof.
  intros He Hp. unfold build_saved_connection_from_sync_payload. destruct (non_empty _ _); [|done]. cbn.
  destruct (normalize_optional_group_name _) as [g|] eqn:Eg; [|done]. apply group_proper in Eg. cbn. do 2 (destruct (non_empty _ _); [|done]; cbn).
  destruct (parse_connection_sync_timestamp _ _); [|done]. cbn.
  destruct (match ci_last_used_at p with Some _ => _ | None => _ end); [|done]. cbn. intros [= <-]. split; [|done].
  split; cbn.
  - destruct preserve; [|apply auth_from_parts_sealed]. destruct existing as [e|]; [|apply auth_from_parts_sealed]. cbn. by destruct (He e).
  - apply Forall_map, Forall_forall. intros h _. cbn. destruct preserve; [|apply auth_from_parts_sealed].
    destruct existing as [e|]; [|apply auth_from_parts_sealed]. destruct (List.find _ _) as [x|] eqn:E; [|apply auth_from_parts_sealed].
    cbn. apply List.find_some in E as [Hx%list_elem_of_In _]. destruct (He e eq_refl) as [_ Hh _ _]. by eapply Forall_forall in Hh.
  - done.
  - destruct existing as [e|]; [|constructor]. cbn. by destruct (He e).
Qed.
Lemma apply_deletion_keeps m r t a : keeps (apply_deletion m r t a).
Proof.
  unfold apply_deletion. apply triple_if; intros _; [apply ret_keeps|]. apply triple_data. intros d Hd. apply clock_then; [by intros ? ->|]. intros now.
  destruct (remove_connection_with_tombstone_at _ _ _ _) as [[c d']|] eqn:E.
  - eapply (triple_change _ _ _ ok); [intros ? _; by eapply remove_tombstone_ok|apply ret_keeps].
  - destruct (upsert_connection_tombstone _ _ _ _) as [b d'] eqn:E2. eapply (triple_change _ _ _ ok); [|apply ret_keeps].
    intros ? _. change d' with (b, d').2. rewrite <-E2. by apply connection_tombstone_ok.
Qed.
(** The records that are received carry no secrets. *)
Definition record_sealed (r : SavedConnectionSyncRecord) : Prop :=
  match cr_payload r with Some p => proxy_sealed (ci_upstream_proxy p) | None => True end.
Lemma apply_change_keeps m strategy r t a : record_sealed r -> keeps (apply_change m strategy r t a).
Proof.
  unfold record_sealed, apply_change. intros Hr. destruct (cr_payload r) as [p|]; [|apply ret_keeps]. apply triple_if; intros _; [apply ret_keeps|].
  apply triple_data. intros d Hd.
  set (by_name := match get (cr_id r) d with Some _ => None | None => _ end).
  assert (Hn : forall e, by_name = Some e -> sealed e).
  { intros e. unfold by_name. destruct (get _ d); [done|]. intros [He%list_elem_of_In _]%List.find_some.
    destruct Hd as [? ? ? ? ? ? ? ? S ?]. by eapply Forall_forall in S. }
  clearbody by_name. apply triple_if; intros _; [apply triple_ret; by intros ? ->|].
  eapply (triple_bind _ _ _ (fun _ => ok)).
  - destruct by_name as [e|]; [|apply triple_ret; by intros ? ->].
    destruct (remove_connection_without_tombstone _ _) as [[c d']|] eqn:E; [|apply triple_ret; by intros ? ->].
    eapply (triple_change _ _ _ ok); [intros ? _; by eapply remove_connection_ok|apply ret_keeps].
  - intros a'. apply lift_then; [done|]. intros c Hc. apply build_connection_ok in Hc as [Hs Hg]; [| |done].
    + eapply triple_seq; [by apply ensure_optional_lists|]. eapply (triple_change _ _ _ ok); [|apply ret_keeps].
      intros d' [Hd' Hl]. by apply add_connection_ok.
    + intros e. destruct (get (cr_id r) d) as [x|] eqn:E; cbn; [intros [= <-]; by eapply get_sealed|apply Hn].
Qed.
Lemma apply_records_keeps m1 m2 strategy l : Forall record_sealed l -> forall a, keeps (apply_records m1 m2 strategy l a).
Proof.
  induction 1 as [|r l Hr _ IH]; intros a; [apply ret_keeps|]. cbn. apply lift_then; [done|]. intros t _. apply keeps_then; [|apply IH].
  case_match; [apply apply_deletion_keeps|by apply apply_change_keeps].
Qed.
Lemma restore_checkpoint_keeps c : ok (ck_data c) -> keeps (restore_checkpoint c).
Proof.
  intros Hc. unfold restore_checkpoint. eapply triple_seq; [|intros w _; exact Hc]. intros w Hw. unfold wp.
  destruct (ck_file c), (w_file w); cbn; try destruct (write_outcome _); cbn; exact Hw.
Qed.
Lemma prepare_keeps s strategy : Forall record_sealed (cs_records s) ->
  triple ok (prepare_saved_connections_snapshot s strategy) (fun p d => ok d /\ ok (ck_data (ps_checkpoint p))).
Proof.
  intros Hs. eapply (triple_bind _ _ _ (fun c d => ok d /\ ok (ck_data c))).
  - apply triple_data. intros d Hd. eapply (triple_then _ _ (fun _ => True)); [|by intros ? ->|].
    + eapply data_quiet_bind; [apply tick_quiet|]. intros n _. case_match; [apply data_quiet_throw|]. by intros w.
    + intros f _. apply triple_ret. by intros ? ->.
  - intros c. apply triple_pure. intros Hc. eapply (triple_bind _ _ _ (fun _ => ok)).
    + apply attempt_keeps. apply triple_data. intros d Hd. apply (triple_weak_pre _ ok _ _ Hd). apply clock_then; [done|]. intros now.
      apply keeps_then; [by apply apply_records_keeps|]. intros a. eapply triple_seq; [apply normalized_ok|].
      eapply triple_seq; [|apply ret_keeps]. case_match; [apply save_keeps|apply ret_keeps].
    + intros [a|e]; [by apply triple_ret|]. eapply triple_seq; [by apply restore_checkpoint_keeps|]. by apply triple_throw.
Qed.
Lemma rollback_prepared_keeps s strategy : Forall record_sealed (cs_records s) ->
  keeps (let* p := prepare_saved_connections_snapshot s strategy in rollback_prepared_saved_connections_snapshot p).
Proof.
  intros Hs. eapply triple_bind; [by apply prepare_keeps|]. intros p. apply triple_pure. intros Hp. by apply restore_checkpoint_keeps.
Qed.
Lemma finalize_keeps c : keeps (finalize_saved_connections_sync_cleanup c).
Proof.
  apply triple_data. intros d Hd. apply (triple_weak_pre _ ok _ _ Hd). eapply triple_change; [intros ?; apply cleanup_ok|].
  apply keeps_then; [eapply quiet_keeps, delete_failing_quiet|]. intros l. eapply triple_change; [intros ?; apply privilege_cleanup_ok|].
  apply keeps_then; [eapply quiet_keeps, delete_failing_quiet|]. intros l'.
  eapply triple_change; [intros d' Hd'; by apply privilege_cleanup_ok, cleanup_ok|].
  apply keeps_then; [apply attempt_keeps, save_keeps|]. intros r. apply ret_keeps.
Qed.
Lemma apply_snapshot_keeps s strategy : Forall record_sealed (cs_records s) -> keeps (apply_saved_connections_snapshot s strategy).
Proof.
  intros Hs. eapply triple_bind; [by apply prepare_keeps|]. intros p. apply triple_pure. intros _.
  eapply triple_seq; [apply finalize_keeps|apply ret_keeps].
Qed.

Lemma apply_profiles_part {A} key (group : A -> option (list Z)) updated_at keep records : forall l listed,
  (forall e p, key (keep e p) = key p) -> (forall e p, group (keep e p) = group p) ->
  (forall p g, p ∈ records -> group p = Some g -> listed g) -> part_of key group listed l ->
  part_of key group listed (apply_profiles key updated_at keep records l).1.
Proof.
  induction records as [|p records IH]; intros l listed Hk Hg Hr Hl; [done|]. cbn.
  assert (Hp : forall e g, group (keep e p) = Some g -> listed g) by (intros e g; rewrite Hg; apply Hr; set_solver).
  assert (Hrest : forall q g, q ∈ records -> group q = Some g -> listed g) by (intros q g Hq; apply Hr; set_solver).
  destruct (List.find _ _) as [e|] eqn:E.
  - case_match; [|by apply IH]. specialize (IH (upsert_by key (keep (Some e) p) l) listed Hk Hg Hrest).
    destruct (apply_profiles _ _ _ _ _). apply IH. apply part_upsert; [done|apply Hp].
  - specialize (IH (l ++ [keep None p]) listed Hk Hg Hrest). destruct (apply_profiles _ _ _ _ _). apply IH. destruct Hl as [Hn Hl].
    split.
    + rewrite map_app. apply NoDup_app. cbn. split_and!; [done| |apply NoDup_singleton]. intros x (y & -> & Hy)%list_elem_of_fmap Hx.
      apply list_elem_of_singleton in Hx. rewrite Hk in Hx. apply List.find_none with (x := y) in E; [|by apply list_elem_of_In].
      by rewrite bool_decide_true in E.
    + intros q g [Hq| ->%list_elem_of_singleton]%elem_of_app; eauto.
Qed.
Lemma apply_profiles_count {A} key updated_at (keep : option A -> A -> A) records : forall l,
  0 <= (apply_profiles key updated_at keep records l).2 /\
  ((apply_profiles key updated_at keep records l).2 <= 0 -> (apply_profiles key updated_at keep records l).1 = l).
Proof.
  induction records as [|p records IH]; intros l; [done|]. cbn.
  destruct (List.find _ _) as [e|]; [destruct (updated_at e <=? updated_at p); [|done]; specialize (IH (upsert_by key (keep (Some e) p) l))
    |specialize (IH (l ++ [keep None p]))]; destruct (apply_profiles _ _ _ _ _) as [l' n]; cbn in *; lia.
Qed.
Lemma received_groups {A} (group : A -> option (list Z)) (l : list A) d p g : p ∈ l -> group p = Some g -> listed_in d (omap group l) g.
Proof. intros Hp Hg. right. apply list_elem_of_omap. eauto. Qed.
Lemma profiles_saved {A} extra (b : bool) (a : A) :
  triple (fun d => data_ok extra d /\ (b = false -> ok d)) (do* (if b then do* normalized in save else ret tt) in ret a) (fun _ => ok).
Proof.
  destruct b.
  - eapply (triple_seq _ _ _ ok); [|apply ret_keeps]. eapply triple_seq; [|apply save_keeps]. eapply triple_mono; [apply (normalized_ok extra)|by intros ? []|done].
  - eapply triple_seq; [|apply ret_keeps]. apply triple_ret. intros d [_ Hd]. by apply Hd.
Qed.
Lemma apply_serial_keeps s : keeps (apply_serial_profiles_snapshot s).
Proof.
  apply lift_then; [done|]. intros _ _. apply triple_data. intros d Hd.
  pose proof (apply_profiles_part sp_id sp_group sp_updated_at (fun _ p => p) (fs_records s) (d_serial d) (listed_in d (omap sp_group (fs_records s)))) as Hp.
  destruct (apply_profiles_count sp_id sp_updated_at (fun _ p => p) (fs_records s) (d_serial d)) as [H0 Hn].
  destruct (apply_profiles _ _ _ _ _) as [l n]. cbn in *. eapply triple_change; [|apply (profiles_saved (omap sp_group (fs_records s)))].
  intros ? ->. split.
  - apply with_serial_ok; [done|]. apply Hp; [done..| |by apply serial_part]. intros p g. apply received_groups.
  - intros Hz%Z.ltb_ge. rewrite Hn by lia. apply with_serial_ok; [done|]. by apply serial_part.
Qed.
Lemma apply_desktop_keeps s : keeps (apply_remote_desktop_profiles_snapshot s).
Proof.
  apply lift_then; [done|]. intros _ _. apply triple_data. intros d Hd.
  pose proof (apply_profiles_part rd_id rd_group rd_updated_at (fun e p => set_rd_credential_ref (e ≫= rd_credential_ref) p) (ds_records s) (d_desktop d)
    (listed_in d (omap rd_group (ds_records s)))) as Hp.
  destruct (apply_profiles_count rd_id rd_updated_at (fun e p => set_rd_credential_ref (e ≫= rd_credential_ref) p) (ds_records s) (d_desktop d)) as [H0 Hn].
  destruct (apply_profiles _ _ _ _ _) as [l n]. cbn in *. eapply triple_change; [|apply (profiles_saved (omap rd_group (ds_records s)))].
  intros ? ->. split.
  - apply with_desktop_ok; [done|]. apply Hp; [done..| |by apply desktop_part]. intros p g. apply received_groups.
  - intros Hz%Z.ltb_ge. rewrite Hn by lia. apply with_desktop_ok; [done|]. by apply desktop_part.
Qed.
Lemma retry_cleanup_keeps : keeps retry_persisted_keychain_cleanup.
Proof.
  apply triple_data. intros d Hd. apply (triple_weak_pre _ ok _ _ Hd). destruct (decide _); [apply ret_keeps|].
  apply keeps_then; [eapply quiet_keeps, delete_failing_quiet|]. intros l. eapply triple_change; [intros ?; apply cleanup_ok|].
  apply keeps_then; [eapply quiet_keeps, delete_failing_quiet|]. intros l'. eapply triple_change; [intros ?; apply privilege_cleanup_ok|].
  apply save_keeps.
Qed.

(** ** Histories *)

Inductive Operation :=
| OpCreateGroup (name : list Z)
| OpDeleteGroup (name : list Z)
| OpRenameGroup (old new : list Z)
| OpMove (ids desktops : list (list Z)) (group : option (list Z))
| OpUpsert (r : SaveConnectionRequest)
| OpDelete (id : list Z)
| OpRename (id name : list Z)
| OpMarkUsed (id : list Z)
| OpDuplicate (id : list Z)
| OpUpsertSerial (r : SaveSerialProfileRequest)
| OpDeleteSerial (id : list Z)
| OpMarkSerial (id : list Z)
| OpUpsertTelnet (r : SaveTelnetProfileRequest)
| OpDeleteTelnet (id : list Z)
| OpMarkTelnet (id : list Z)
| OpUpsertDesktop (r : SaveRemoteDesktopProfileRequest)
| OpDeleteDesktop (id : list Z)
| OpMarkDesktop (id : list Z)
| OpSaveDesktopCredential (id credential : list Z)
| OpDeleteDesktopCredential (id : list Z)
| OpSavePrivilege (r : SavePrivilegeCredentialRequest)
| OpDeletePrivilege (id credential : list Z)
| OpImportSsh (c : SavedConnection)
| OpUpsertImported (c : SavedConnection)
| OpImportAll (l : list SavedConnection)
| OpApplySync (s : SavedConnectionsSyncSnapshot) (strategy : SavedConnectionsConflictStrategy)
| OpTrySync (s : SavedConnectionsSyncSnapshot) (strategy : SavedConnectionsConflictStrategy)
| OpFinalize (c : SavedConnectionsSyncCleanup)
| OpApplySerial (s : SerialProfilesSyncSnapshot)
| OpApplyDesktop (s : RemoteDesktopProfilesSyncSnapshot)
| OpRetryCleanup.
Definition perform (o : Operation) : CM unit :=
  match o with
  | OpCreateGroup name => create_group name
  | OpDeleteGroup name => delete_group name
  | OpRenameGroup old new => ignore (rename_group old new)
  | OpMove ids desktops group => ignore (move_session_assets_to_group ids desktops group)
  | OpUpsert r => ignore (upsert_with_runtime_secrets r)
  | OpDelete id => ignore (delete_connection id)
  | OpRename id name => ignore (rename_connection id name)
  | OpMarkUsed id => ignore (mark_used id)
  | OpDuplicate id => ignore (duplicate id)
  | OpUpsertSerial r => ignore (upsert_serial_profile r)
  | OpDeleteSerial id => ignore (delete_serial_profile id)
  | OpMarkSerial id => ignore (mark_serial_profile_used id)
  | OpUpsertTelnet r => ignore (upsert_telnet_profile r)
  | OpDeleteTelnet id => ignore (delete_telnet_profile id)
  | OpMarkTelnet id => ignore (mark_telnet_profile_used id)
  | OpUpsertDesktop r => ignore (upsert_remote_desktop_profile r)
  | OpDeleteDesktop id => ignore (delete_remote_desktop_profile id)
  | OpMarkDesktop id => ignore (mark_remote_desktop_profile_used id)
  | OpSaveDesktopCredential id credential => ignore (save_remote_desktop_credential id credential)
  | OpDeleteDesktopCredential id => ignore (delete_remote_desktop_credential id)
  | OpSavePrivilege r => ignore (save_privilege_credential r)
  | OpDeletePrivilege id credential => ignore (delete_privilege_credential id credential)
  | OpImportSsh c => ignore (import_ssh_connection c)
  | OpUpsertImported c => ignore (upsert_imported_connection c)
  | OpImportAll l => ignore (upsert_imported_connections_transaction l)
  | OpApplySync s strategy => ignore (apply_saved_connections_snapshot s strategy)
  | OpTrySync s strategy => ignore (let* p := prepare_saved_connections_snapshot s strategy in rollback_prepared_saved_connections_snapshot p)
  | OpFinalize c => ignore (finalize_saved_connections_sync_cleanup c)
  | OpApplySerial s => ignore (apply_serial_profiles_snapshot s)
  | OpApplyDesktop s => ignore (apply_remote_desktop_profiles_snapshot s)
  | OpRetryCleanup => ignore retry_persisted_keychain_cleanup
  end.
(** A new UUID, where one names a new connection, is new. *)
Definition fresh_id (o : Operation) (w : World) : Prop :=
  match o with OpDuplicate _ | OpImportSsh _ => next_uuid_unused w | _ => True end.
(** The secrets that an operation takes over into the data as they are: those of
    the privilege credentials of a single imported connection, and those of the
    upstream proxies in the records of another device. *)
Definition brings (o : Operation) : list (list Z) :=
  match o with
  | OpUpsertImported c => credential_secrets (cn_privilege_credentials c)
  | OpApplySync s _ | OpTrySync s _ =>
      flat_map (fun r => from_option (fun p => proxy_secrets (ci_upstream_proxy p)) [] (cr_payload r)) (cs_records s)
  | _ => []
  end.
(** The worlds that a history leads to, with the secrets it brought in; an
    operation that fails is part of it. *)
Inductive history (w0 : World) : list (list Z) -> World -> Prop :=
| history_start : history w0 [] w0
| history_step l w o r w' : history w0 l w -> fresh_id o w -> perform o w = Some (r, w') -> history w0 (l ++ brings o) w'.

Lemma ignore_wp {A} (m : CM A) (Q : World -> Prop) w : wp m (fun _ w' => Q w') w -> wp (ignore m) (fun _ w' => Q w') w.
Proof. intros Hm. apply wp_bind, wp_attempt. exact Hm. Qed.
Lemma keeps_wp {A} (m : CM A) w : keeps m -> ok (w_data w) -> wp m (fun _ w' => ok (w_data w')) w.
Proof. intros Hm Hw. eapply wp_mono; [by apply Hm|]. by intros [?|?] ?. Qed.
Lemma records_kept l : Forall record_sealed l <-> Forall allowed (flat_map (fun r => from_option (fun p => proxy_secrets (ci_upstream_proxy p)) [] (cr_payload r)) l).
Proof. apply flat_map_kept. intros r. unfold record_sealed. destruct (cr_payload r); cbn; [apply proxy_secrets_kept|by split]. Qed.
Lemma perform_data_ok o w : ok (w_data w) -> fresh_id o w -> Forall allowed (brings o) -> wp (perform o) (fun _ w' => ok (w_data w')) w.
Proof.
  intros Hw Ho Hb. destruct o; cbn in Ho, Hb |- *.
  1: by apply keeps_wp; [apply create_group_keeps|]. 1: by apply keeps_wp; [apply delete_group_keeps|].
  all: apply ignore_wp.
  7: by apply duplicate_keeps. 20: by apply import_ssh_keeps.
  all: apply keeps_wp; [|done].
  - apply rename_group_keeps.
  - apply move_session_assets_keeps.
  - apply upsert_with_runtime_secrets_keeps.
  - apply delete_connection_keeps.
  - apply rename_connection_keeps.
  - apply mark_used_keeps.
  - apply upsert_serial_keeps.
  - apply delete_serial_keeps.
  - apply mark_serial_keeps.
  - apply upsert_telnet_keeps.
  - apply delete_telnet_keeps.
  - apply mark_telnet_keeps.
  - apply upsert_desktop_keeps.
  - apply delete_desktop_keeps.
  - apply mark_desktop_keeps.
  - apply save_desktop_credential_keeps.
  - apply delete_desktop_credential_keeps.
  - apply save_privilege_keeps.
  - apply delete_privilege_keeps.
  - by apply upsert_imported_keeps, credential_secrets_kept.
  - apply import_transaction_keeps.
  - by apply apply_snapshot_keeps, records_kept.
  - by apply rollback_prepared_keeps, records_kept.
  - apply finalize_keeps.
  - apply apply_serial_keeps.
  - apply apply_desktop_keeps.
  - apply retry_cleanup_keeps.
Qed.
Definition after (o : Operation) (w : World) : World := match perform o w with Some (_, w') => w' | None => w end.
Lemma history_after w0 l w o : history w0 l w -> fresh_id o w -> is_Some (perform o w) -> history w0 (l ++ brings o) (after o w).
Proof. intros Hw Ho [[r w'] E]. unfold after. rewrite E. by eapply history_step. Qed.
Lemma store_history_ok w0 l w : ok (w_data w0) -> Forall allowed l -> history w0 l w -> ok (w_data w).
Proof.
  intros H0 Hl Hh. induction Hh as [|l w o r w' _ IH Ho E]; [done|]. apply Forall_app in Hl as [Hl Hb].
  pose proof (perform_data_ok o w (IH Hl) Ho Hb) as Hp. unfold wp in Hp. by rewrite E in Hp.
Qed.
End Operations.

(** C22: whatever the history of the store of connections, with the file and
    the keychains failing where they may, and only that the UUIDs drawn for new
    connections are new: ids of connections and profiles are unique, recent
    connections exist, once each and at most ten, every group in use is listed,
    and the next operation returns.  Every secret (password, passphrase, proxy
    password, privilege credential) that the data in memory hold was in them at
    the start, or was taken over as it is from the privilege credentials of a
    single imported connection or from the upstream proxy in a received record;
    the secrets of every other request end in the keychains only. *)
Theorem connection_store_invariant `{out : Outside} w0 l w : well_formed (w_data w0) -> history w0 l w ->
  well_formed (w_data w)
  /\ (forall secret, secret ∈ data_secrets (w_data w) -> secret ∈ data_secrets (w_data w0) \/ secret ∈ l)
  /\ forall o, fresh_id o w -> exists r w', perform o w = Some (r, w').
Proof.
  intros H0 Hw. assert (Hok : well_formed (w_data w)).
  { apply (store_history_ok (allow := fun _ => True) w0 l w); [done|by apply Forall_forall|done]. }
  split; [done|]. split.
  - intros secret. pose proof (store_history_ok (allow := fun s => s ∈ data_secrets (w_data w0) \/ s ∈ l) w0 l w) as Hs.
    apply data_ok_secrets in Hs as [_ Hs].
    + by apply (proj1 (Forall_forall _ _) Hs).
    + apply data_ok_secrets. split; [done|]. apply Forall_forall. intros s Hs'. by left.
    + apply Forall_forall. intros s Hs'. by right.
    + done.
  - intros o Ho. pose proof (perform_data_ok (allow := fun _ => True) o w Hok Ho) as Hp.
    unfold wp in Hp. destruct (perform o w) as [[r w']|]; [eauto|]. destruct Hp. by apply Forall_forall.
Qed.

(** ** A concrete outside *)

(** Call 10 on the outside fails where it is the keychain's, call 18 where it
    writes the file. *)
Definition sample_outside : Outside := {|
  encode_data d := Ok (flat_map cn_name (d_connections d));
  decode_data _ := Err ReadFailed;
  to_rfc3339 t := [t];
  parse_from_rfc3339 s := head s;
  lowercase s := s;
  now_at n := Z.of_nat n * 1000000000;
  uuid_at n := [500 + Z.of_nat n];
  keychain_fails n := bool_decide (n = 10%nat);
  write_outcome n := if decide (n = 18%nat) then NotWritten else Written;
  read_fails _ := false;
  hash_order s := elements s
|}.
Definition sample_digests : Digests := {|
  digest_payload p _ := Ok (ci_id p);
  digest_tombstone id _ := Ok id;
  digest_records l := Ok (map (fun r => zlen r.1.1.1) l);
  digest_profiles l := Ok (map (fun r => zlen r.1) l)
|}.
Definition sample_request (name : string) (password : option (list Z)) : SaveConnectionRequest :=
  mkSaveConnection None (lit name) (Some (lit "work/eu")) (lit "h") 22 (lit "u") (SaPassword None password) [] UseGlobal None None None []
    false None None false false default_x11 None default_terminal.
Definition empty_world : World := mkWorld default_data None ∅ ∅ 0.
Lemma default_data_ok `{Allowed} : ok default_data.
Proof. split; cbn; [apply NoDup_nil_2..|lia| | |constructor|constructor]; intros x Hx; by apply elem_of_nil in Hx. Qed.
(** Two connections are saved, the second in vain, and the first is copied. *)
Definition sample_world : World :=
  after (out := sample_outside) (OpDuplicate [501])
    (after (out := sample_outside) (OpUpsert (sample_request "b" (Some (lit "s"))))
       (after (out := sample_outside) (OpUpsert (sample_request "a" (Some (lit "s")))) empty_world)).
Lemma sample_store_history : history (out := sample_outside) empty_world [] sample_world.
Proof.
  change [] with ((([] ++ brings (OpUpsert (sample_request "a" (Some (lit "s"))))) ++ brings (OpUpsert (sample_request "b" (Some (lit "s")))))
    ++ brings (OpDuplicate [501])).
  apply history_after; [apply history_after; [apply history_after; [apply history_start|..]|..]|..].
  1,3: exact I. 3: apply (bool_decide_unpack _); vm_compute; exact I.
  all: vm_compute; by eexists.
Qed.
Lemma sample_world_ok `{Allowed} : ok (w_data sample_world).
Proof.
  apply (store_history_ok (out := sample_outside) empty_world [] sample_world); [apply default_data_ok|constructor|].
  exact sample_store_history.
Qed.
Lemma connection_store_invariant_witness :
  map cn_name (d_connections (w_data sample_world)) = [lit "a"; lit "a (Copy)"] /\ data_secrets (w_data sample_world) = []
  /\ well_formed (w_data sample_world).
Proof.
  split; [vm_compute; reflexivity|]. split; [vm_compute; reflexivity|].
  exact (proj1 (connection_store_invariant (out := sample_outside) empty_world [] sample_world default_data_ok sample_store_history)).
Defined.
