(* ===== verification/ConnUndo.v ===== *)
(** * Undoing a synchronisation and an import

    A snapshot of another device that was prepared can be undone, and a failed
    import of connections leaves nothing behind: the data, the file and both
    keychains are what they were. *)
From Stdlib Require Import String.
From stdpp Require Import prelude numbers list gmap.
From S2P Require Import Prelude Text TrzszBuffer TextOps ForwardModel ConnTypes ConnStore ConnSync ConnFacts ConnInvariant.
Open Scope Z_scope.

#[local] Arguments sort_by : simpl never.
#[local] Arguments dedup : simpl never.
#[local] Arguments normalize : simpl never.

(** ** Operations that leave the keychains alone *)

Definition same_keychains (w w' : World) : Prop := w_keychain w' = w_keychain w /\ w_privilege w' = w_privilege w.
Definition spares {A} (m : CM A) : Prop := forall w, wp m (fun _ => same_keychains w) w.

Section Spares.
Context `{out : Outside}.
Lemma spares_ret {A} (a : A) : spares (ret a).
Proof. by intros w. Qed.
Lemma spares_throw {A} e : spares (A := A) (throw e).
Proof. by intros w. Qed.
Lemma spares_lift {A} (r : result ConnError A) : spares (lift r).
Proof. by intros w. Qed.
Lemma spares_bind {A B} (m : CM A) (f : A -> CM B) : spares m -> (forall a, spares (f a)) -> spares (bind m f).
Proof.
  intros Hm Hf w. apply wp_bind. eapply wp_mono; [apply Hm|]. intros [a|e] w1 [K P]; [|done]. eapply wp_mono; [apply Hf|].
  intros r w2 [K2 P2]. split; congruence.
Qed.
Lemma spares_attempt {A} (m : CM A) : spares m -> spares (attempt m).
Proof. intros Hm w. apply wp_attempt, Hm. Qed.
Lemma spares_if {A} (b : bool) (m m' : CM A) : spares m -> spares m' -> spares (if b then m else m').
Proof. by destruct b. Qed.
Lemma spares_data : spares data.
Proof. by intros w. Qed.
Lemma spares_change f : spares (change_data f).
Proof. by intros w. Qed.
Lemma spares_clock : spares clock.
Proof. by intros w. Qed.
Lemma spares_normalized : spares normalized.
Proof. by intros w. Qed.
Lemma spares_save : spares save.
Proof. intros w. unfold wp, save, bind, data, lift, tick. cbn. destruct (encode_data (w_data w)); [|done]. by destruct (write_outcome (w_tick w)). Qed.
Lemma spares_ensure g : spares (ensure_optional_group g).
Proof.
  destruct g as [g|]; [|apply spares_ret]. cbn. unfold ensure_group. apply spares_bind; [apply spares_lift|]. intros n.
  apply spares_bind; [apply spares_data|]. intros d. destruct (decide _); [apply spares_ret|].
  apply spares_bind; [apply spares_change|]. intros _. apply spares_normalized.
Qed.
Lemma spares_restore c : spares (restore_checkpoint c).
Proof.
  apply spares_bind; [|intros _; apply spares_change]. intros w. unfold wp.
  destruct (ck_file c), (w_file w); cbn; try destruct (write_outcome _); by cbn.
Qed.
Create HintDb spares.
Hint Resolve spares_ret spares_throw spares_lift spares_bind spares_attempt spares_if spares_data spares_change spares_clock
  spares_normalized spares_save spares_ensure spares_restore : spares.
Lemma spares_records m1 m2 strategy l : forall a, spares (apply_records m1 m2 strategy l a).
Proof.
  induction l as [|r l IH]; intros a; [apply spares_ret|]. cbn. apply spares_bind; [apply spares_lift|]. intros t.
  apply spares_bind; [|intros ?; apply IH]. apply spares_if.
  - unfold apply_deletion. apply spares_if; [apply spares_ret|]. apply spares_bind; [apply spares_data|]. intros d.
    apply spares_bind; [apply spares_clock|]. intros now. repeat case_match; auto with spares.
  - unfold apply_change. destruct (cr_payload r) as [p|]; [|apply spares_ret]. apply spares_if; [apply spares_ret|].
    apply spares_bind; [apply spares_data|]. intros d. apply spares_if; [apply spares_ret|]. apply spares_bind.
    + repeat case_match; auto with spares.
    + intros a'. auto 10 with spares.
Qed.

(** A checkpoint is put back, or the write that does so fails. *)
Lemma restore_spec c w : wp (restore_checkpoint c) (fun r w' => same_keychains w w' /\
  match r with
  | Ok _ => w_data w' = ck_data c /\ w_file w' = ck_file c
  | Err e => e = WriteFailed /\ w_tick w' = S (w_tick w) /\ write_outcome (w_tick w) <> Written
  end) w.
Proof.
  unfold wp, restore_checkpoint, bind. destruct (ck_file c) as [f|] eqn:Ef, (w_file w) as [f'|] eqn:E; cbn;
    try (destruct (write_outcome (w_tick w)) eqn:Ew; cbn; split_and!; try done; by rewrite Ew).
Qed.

Lemma prepare_spec s strategy w r w1 : prepare_saved_connections_snapshot s strategy w = Some (r, w1) -> same_keychains w w1 /\
  match r with
  | Err e => (w_data w1 = w_data w /\ w_file w1 = w_file w) \/ (e = WriteFailed /\ write_outcome (pred (w_tick w1)) <> Written)
  | Ok p => ck_data (ps_checkpoint p) = w_data w /\ ck_file (ps_checkpoint p) = w_file w
  end.
Proof.
  intros E. enough (Hp : wp (prepare_saved_connections_snapshot s strategy) (fun r w1 => same_keychains w w1 /\ match r with
    | Err e => (w_data w1 = w_data w /\ w_file w1 = w_file w) \/ (e = WriteFailed /\ write_outcome (pred (w_tick w1)) <> Written)
    | Ok p => ck_data (ps_checkpoint p) = w_data w /\ ck_file (ps_checkpoint p) = w_file w end) w) by (unfold wp in Hp; by rewrite E in Hp).
  clear E. unfold prepare_saved_connections_snapshot. apply wp_bind.
  eapply (wp_mono _ (fun r w' => w_data w' = w_data w /\ w_file w' = w_file w /\ same_keychains w w' /\
    match r with Ok c => c = mkStoreCheckpoint (w_data w) (w_file w) | Err _ => True end)).
  { unfold wp, create_checkpoint, capture_connection_store_file, bind, data, tick. cbn. by destruct (read_fails (w_tick w)). }
  intros [c|e] w' (Hd & Hf & Hk & Hc); [subst c|split; [done|by left]]. apply wp_bind, wp_attempt. destruct Hk as [K0 P0].
  eapply wp_mono.
  - apply spares_bind; [apply spares_data|]. intros d. apply spares_bind; [apply spares_clock|]. intros now.
    apply spares_bind; [apply spares_records|]. intros a. auto 10 with spares.
  - intros [a|e] w2 [K P]; [by split; [split; congruence|]|]. cbn [wp_then].
    apply wp_bind. eapply wp_mono; [apply restore_spec|]. intros [u|e'] w3 [[K3 P3] H3]; cbn; (split; [split; congruence|]).
    + left. exact H3.
    + right. destruct H3 as (-> & -> & Hn). done.
Qed.

(** C24: a snapshot of another device, while it is only prepared, is without
    consequence.  No secret is deleted; where preparing fails, the data and the
    file are what they were, unless the very write that puts the file back
    fails; and a rollback, whatever was done to the data, the file and the
    keychains in between, puts the data and the file back and leaves the
    secrets alone. *)
Theorem sync_prepare_undone s strategy w r w1 : prepare_saved_connections_snapshot s strategy w = Some (r, w1) ->
  same_keychains w w1 /\
  match r with
  | Err e => (w_data w1 = w_data w /\ w_file w1 = w_file w) \/ (e = WriteFailed /\ write_outcome (pred (w_tick w1)) <> Written)
  | Ok p => forall w2, write_outcome (w_tick w2) = Written -> exists w3,
      rollback_prepared_saved_connections_snapshot p w2 = Some (Ok tt, w3) /\ w_data w3 = w_data w /\ w_file w3 = w_file w /\ same_keychains w2 w3
  end.
Proof.
  intros E. apply (prepare_spec s strategy w) in E as [Hk Hr]. split; [done|]. destruct r as [p|e]; [|done]. destruct Hr as [Hd Hf].
  intros w2 Hw. pose proof (restore_spec (ps_checkpoint p) w2) as Hs. unfold wp in Hs. unfold rollback_prepared_saved_connections_snapshot.
  destruct (restore_checkpoint (ps_checkpoint p) w2) as [[[[]|e] w3]|]; [|by destruct Hs as (_ & _ & _ & Hn)|done].
  destruct Hs as (Hk3 & Hd3 & Hf3). exists w3. by rewrite Hd3, Hf3, Hd, Hf.
Qed.
End Spares.

(** Two records: one that deletes the first connection, one of a new one. *)
Definition sample_info : ConnectionInfo := connection_info (fun t => [t])
  (mkConnection [7] 1 (lit "c") None (lit "h") 22 (lit "u") SaAgent [] UseGlobal default_options 1 None None None None None [] None []).
Definition sample_snapshot : SavedConnectionsSyncSnapshot := mkSnapshot [] []
  [mkSyncRecord [501] [] [10 ^ 12] true None None; mkSyncRecord [7] [] [10 ^ 12] false (Some sample_info) None].
Lemma sync_prepare_undone_witness :
  let prepared := prepare_saved_connections_snapshot (out := sample_outside) sample_snapshot Skip sample_world in
  exists p w1, prepared = Some (Ok p, w1) /\ map cn_name (d_connections (w_data w1)) = [lit "a (Copy)"; lit "c"]
    /\ map cn_name (d_connections (w_data sample_world)) = [lit "a"; lit "a (Copy)"]
    /\ forall w2, write_outcome (Outside := sample_outside) (w_tick w2) = Written -> exists w3,
         rollback_prepared_saved_connections_snapshot (out := sample_outside) p w2 = Some (Ok tt, w3) /\ w_data w3 = w_data sample_world
         /\ w_file w3 = w_file sample_world /\ same_keychains w2 w3.
Proof.
  intros prepared. assert (E : exists p w1, prepared = Some (Ok p, w1) /\ map cn_name (d_connections (w_data w1)) = [lit "a (Copy)"; lit "c"])
    by (vm_compute; eexists _, _; split; reflexivity).
  destruct E as (p & w1 & E & Hn). exists p, w1. split; [exact E|]. split; [exact Hn|]. split; [vm_compute; reflexivity|].
  exact (proj2 (sync_prepare_undone (out := sample_outside) _ _ _ _ _ E)).
Defined.
