(* ===== verification/ConnImport.v ===== *)
(** * A failed import leaves nothing behind

    Where the keychains work, a transaction that imports connections and fails
    puts the data and both keychains back as they were. *)
From Stdlib Require Import String.
From stdpp Require Import prelude numbers list gmap.
From S2P Require Import Prelude Text TrzszBuffer TextOps ForwardModel ConnTypes ConnStore ConnSync ConnFacts ConnInvariant ConnUndo.
Open Scope Z_scope.

#[local] Arguments sort_by : simpl never.
#[local] Arguments dedup : simpl never.
#[local] Arguments upsert_by : simpl never.
#[local] Arguments normalize : simpl never.

(** Only the entries [ids] of one keychain and [pids] of the other may differ. *)
Definition but (ids pids : list (list Z)) (w w' : World) : Prop :=
  (forall k, k ∉ ids -> w_keychain w' !! k = w_keychain w !! k) /\ (forall k, k ∉ pids -> w_privilege w' !! k = w_privilege w !! k).
Lemma but_trans i1 p1 i2 p2 w w1 w2 : but i1 p1 w w1 -> but i2 p2 w1 w2 -> but (i1 ++ i2) (p1 ++ p2) w w2.
Proof. intros [A1 B1] [A2 B2]. split; intros k Hk; rewrite not_elem_of_app in Hk; [rewrite A2, A1|rewrite B2, B1]; tauto. Qed.
Lemma but_mono i1 p1 i2 p2 w w' : but i1 p1 w w' -> i1 ⊆ i2 -> p1 ⊆ p2 -> but i2 p2 w w'.
Proof. intros [A B] Hi Hp. split; intros k Hk; [apply A|apply B]; set_solver. Qed.
Lemma same_but w w' i p : same_keychains w w' -> but i p w w'.
Proof. intros [K P]. split; intros k _; congruence. Qed.

(** ** What the steps of an import write *)

(** Nothing secret is in the data. *)
#[local] Existing Instance nothing_allowed.
Definition secretless (c : SavedPrivilegeCredential) : Prop := pc_plaintext_secret c = None.
Lemma nothing_kept (s : option (list Z)) : kept s -> s = None.
Proof. by destruct s. Qed.

Section Staging.
Context `{out : Outside} (keychain_works : forall n, keychain_fails n = false).
Lemma on_keychain_works {A} (k : Keychain) (id : list Z) (f : gmap (list Z) (list Z) -> A * gmap (list Z) (list Z)) (w : World) :
  on_keychain k id f w = Some (Ok (f (entries k w)).1, set_entries k (f (entries k w)).2 (set_w_tick (S (w_tick w)) w)).
Proof. unfold on_keychain, bind, tick. rewrite keychain_works. by destruct k. Qed.

(** The same but for the number of calls on the outside. *)
Definition same_world (w w' : World) : Prop := w_data w' = w_data w /\ w_file w' = w_file w /\ same_keychains w w'.
Lemma same_world_trans w w1 w2 : same_world w w1 -> same_world w1 w2 -> same_world w w2.
Proof. intros (? & ? & ? & ?) (? & ? & ? & ?). split_and!; [congruence..|split; congruence]. Qed.
Lemma same_entries (k : Keychain) w w' : same_world w w' -> entries k w' = entries k w.
Proof. intros (_ & _ & ? & ?). by destruct k. Qed.
Lemma snapshot_spec (k : Keychain) ids : forall (m : gmap (list Z) (option (list Z))) w,
  wp (snapshot_entries k ids m) (fun r w' => exists m', r = Ok m' /\ same_world w w' /\
    forall x, m' !! x = if decide (x ∈ ids) then Some (entries k w !! x) else m !! x) w.
Proof.
  induction ids as [|id ids IH]; intros m w; [by exists m|]. cbn. apply wp_bind. unfold wp at 1, get_optional. rewrite on_keychain_works. cbn.
  eapply wp_mono; [apply IH|]. intros r w' (m' & -> & Hs & Hm). exists m'. split; [done|].
  assert (Hsame : same_world w (set_entries k (entries k w) (set_w_tick (S (w_tick w)) w))) by (by destruct k).
  split; [by eapply same_world_trans|]. intros x. rewrite Hm, (same_entries k _ _ Hsame). destruct (decide (x ∈ ids)) as [Hx|Hx].
  - by rewrite decide_True by set_solver.
  - destruct (decide (x = id)) as [->|Hne]; [rewrite decide_True by set_solver; apply lookup_insert_eq|].
    rewrite decide_False by set_solver. by apply lookup_insert_ne.
Qed.
(** Where one keychain is put back and the other left alone. *)
Lemma rollback_spec (k : Keychain) (m : gmap (list Z) (option (list Z))) ids : forall w,
  wp (rollback_each k m ids) (fun r w' => r = Ok true /\ w_data w' = w_data w /\ w_file w' = w_file w
    /\ (forall k', k' <> k -> entries k' w' = entries k' w)
    /\ forall x, entries k w' !! x = if decide (x ∈ ids) then m !! x ≫= id else entries k w !! x) w.
Proof.
  induction ids as [|i ids IH]; intros w; [done|]. cbn. apply wp_bind, wp_attempt.
  set (step := match m !! i with Some (Some secret) => _ | _ => _ end).
  assert (Hstep : wp step (fun r w1 => r = Ok tt /\ w_data w1 = w_data w /\ w_file w1 = w_file w /\ (forall k', k' <> k -> entries k' w1 = entries k' w)
    /\ entries k w1 = partial_alter (fun _ => m !! i ≫= id) i (entries k w)) w).
  { unfold step, wp, store, delete. destruct (m !! i) as [[secret|]|]; rewrite on_keychain_works; cbn;
      (split_and!; [done|by destruct k|by destruct k|by intros k' Hne; destruct k, k'|by destruct k]). }
  eapply wp_mono; [exact Hstep|]. intros r w1 (-> & Hd & Hf & Ho & Hk). apply wp_bind. eapply wp_mono; [apply IH|].
  intros r w2 (-> & Hd2 & Hf2 & Ho2 & Hk2). cbn. split_and!; [done|congruence..| |].
  - intros k' Hne. by rewrite Ho2, Ho.
  - intros x. rewrite Hk2, Hk. destruct (decide (x ∈ ids)) as [Hx|Hx]; [by rewrite decide_True by set_solver|].
    destruct (decide (x = i)) as [->|Hne]; [rewrite decide_True by set_solver; by rewrite lookup_partial_alter_eq|].
    rewrite decide_False by set_solver. by apply lookup_partial_alter_ne.
Qed.
(** The ids that an import may use in the two keychains. *)
Context (K P : list Z -> Prop).
Context (fresh_K : forall n, K (new_password_keychain_id (uuid_at n)) /\ K (new_key_passphrase_keychain_id (uuid_at n))
  /\ K (new_upstream_proxy_password_keychain_id (uuid_at n))).

(** A step that succeeds, leaves the data alone and writes only what its result
    tells. *)
Definition writes {A} (m : CM A) (ids pids : A -> list (list Z)) (R : A -> Prop) : Prop :=
  forall w, wp m (fun r w' => exists a, r = Ok a /\ w_data w' = w_data w /\ w_file w' = w_file w /\ but (ids a) (pids a) w w' /\ R a) w.
Lemma writes_ret {A} (a : A) ids pids (R : A -> Prop) : R a -> writes (ret a) ids pids R.
Proof. intros HR w. exists a. split_and!; try done. Qed.
Lemma writes_bind {A B} (m : CM A) (f : A -> CM B) i1 p1 R1 i2 p2 R :
  writes m i1 p1 R1 -> (forall a, R1 a -> writes (f a) i2 p2 (fun b => R b /\ i1 a ⊆ i2 b /\ p1 a ⊆ p2 b)) -> writes (bind m f) i2 p2 R.
Proof.
  intros Hm Hf w. apply wp_bind. eapply wp_mono; [apply Hm|]. intros r w1 (a & -> & Hd & Hw & Hb & Ha). cbn.
  eapply wp_mono; [by apply Hf|]. intros r' w2 (b & -> & Hd2 & Hw2 & Hb2 & HR & Hi & Hp). exists b.
  split_and!; [done|congruence..| |done]. eapply but_mono; [by eapply but_trans|set_solver..].
Qed.
Lemma writes_quiet {A B} (m : CM A) (f : A -> CM B) (R1 : A -> Prop) i2 p2 R :
  (forall w, wp m (fun r w' => exists a, r = Ok a /\ w_data w' = w_data w /\ w_file w' = w_file w /\ same_keychains w w' /\ R1 a) w) ->
  (forall a, R1 a -> writes (f a) i2 p2 R) -> writes (bind m f) i2 p2 R.
Proof.
  intros Hm Hf. eapply (writes_bind _ _ (fun _ => []) (fun _ => [])).
  - intros w. eapply wp_mono; [apply Hm|]. intros r w' (a & -> & Hd & Hw & Hs & Ha). exists a. split_and!; try done. by apply same_but.
  - intros a Ha w. eapply wp_mono; [by apply Hf|]. intros r w' (b & -> & Hd & Hw & Hb & HR). exists b. split_and!; try done; set_solver.
Qed.
Lemma choose_writes {B} o (fresh : nat -> list Z) m (f : list Z -> CM B) i2 p2 R :
  (forall w, m w = Some (Ok (fresh (w_tick w)), set_w_tick (S (w_tick w)) w)) -> (forall n, K (fresh n)) ->
  (forall k, o = Some k -> K k) -> (forall k, K k -> writes (f k) i2 p2 R) -> writes (bind (choose o m) f) i2 p2 R.
Proof.
  intros Hm Hfresh Ho Hf. eapply writes_quiet; [|exact Hf]. intros w. destruct o as [k|]; cbn.
  - exists k. split_and!; try done. by apply Ho.
  - unfold wp. rewrite Hm. eexists. by split_and!.
Qed.
Lemma store_writes {B} k secret (f : CM B) (i2 p2 : B -> list (list Z)) R : writes f i2 p2 (fun b => R b /\ k ∈ i2 b) ->
  writes (do* store Connections k secret in f) i2 p2 R.
Proof.
  intros Hf. eapply (writes_bind _ _ (fun _ => [k]) (fun _ => []) (fun _ => True)).
  - intros w. unfold wp, store. rewrite on_keychain_works. cbn. exists tt. split_and!; try done. split; [|done]. intros x Hx. cbn.
    apply lookup_insert_ne. set_solver.
  - intros _ _ w. eapply wp_mono; [apply Hf|]. intros r w' (b & -> & Hd & Hw & Hb & HR & Hin). exists b. split_and!; try done; set_solver.
Qed.

Definition auth_known (a : SavedAuth) : Prop := Forall K (collect_keychain_ids_for_auth a).
Definition id_known (o : option (list Z)) : Prop := forall k, o = Some k -> K k.
Lemma or_else_known a b : id_known a -> id_known b -> id_known (or_else a b).
Proof. destruct a; [done|auto]. Qed.
Lemma known_id k : K k -> Forall K [k].
Proof. intros Hk. by constructor. Qed.
Lemma password_known a : (forall e, a = Some e -> auth_known e) -> id_known (existing_password_keychain_id a).
Proof. intros He k. destruct a as [[[x|] ?| | | | |]|]; try done. cbn. intros [= <-]. by apply (Forall_inv (He _ eq_refl)). Qed.
Lemma key_known a path r : (forall e, a = Some e -> auth_known e) -> matching_key_passphrase a path = Some r -> id_known r.2.
Proof.
  intros He. destruct a as [[|? ? [x|] ?| | | |]|]; try done; cbn; case_decide; try done; intros [= <-] k; [|done]. intros [= <-].
  by apply (Forall_inv (He _ eq_refl)).
Qed.
Lemma certificate_known a path cert r : (forall e, a = Some e -> auth_known e) -> matching_certificate_passphrase a path cert = Some r -> id_known r.2.
Proof.
  intros He. destruct a as [[| |? ? ? [x|] ?| | |]|]; try done; cbn; case_decide; try done; intros [= <-] k; [|done]. intros [= <-].
  by apply (Forall_inv (He _ eq_refl)).
Qed.
Lemma managed_known a id : (forall e, a = Some e -> auth_known e) -> id_known (matching_managed_key_passphrase_id a id).
Proof.
  intros He k. destruct a as [[| | |? [x|] ?| |]|]; try done; cbn; case_decide; try done. intros [= <-].
  by apply (Forall_inv (He _ eq_refl)).
Qed.
Lemma snd_known (o : option (bool * option (list Z))) : (forall r, o = Some r -> id_known r.2) -> id_known (o ≫= snd).
Proof. intros Ho. destruct o as [r|]; [|done]. cbn. by apply Ho. Qed.
Lemma fresh_password_tick w : fresh_password_id w = Some (Ok (new_password_keychain_id (uuid_at (w_tick w))), set_w_tick (S (w_tick w)) w).
Proof. done. Qed.
Lemma fresh_passphrase_tick w : fresh_passphrase_id w = Some (Ok (new_key_passphrase_keychain_id (uuid_at (w_tick w))), set_w_tick (S (w_tick w)) w).
Proof. done. Qed.
Lemma fresh_proxy_tick w : fresh_proxy_id w = Some (Ok (new_upstream_proxy_password_keychain_id (uuid_at (w_tick w))), set_w_tick (S (w_tick w)) w).
Proof. done. Qed.
Lemma option_known o : (forall e, o = Some e -> K e) <-> Forall K (option_list o).
Proof. destruct o as [k|]; cbn; split; intros H; try done; [apply known_id; auto|intros ? [= <-]; by inversion H]. Qed.

Definition auth_ids (r : SavedAuth * option (list Z)) : list (list Z) := collect_keychain_ids_for_auth r.1.
Lemma materialize_auth_runtime_writes auth existing : auth_known auth -> (forall e, existing = Some e -> auth_known e) ->
  writes (materialize_auth_with_runtime_secret auth existing) auth_ids (fun _ => []) (fun r => auth_known r.1).
Proof.
  intros Ha He. pose proof (fun n => proj1 (fresh_K n)) as F1. pose proof (fun n => proj1 (proj2 (fresh_K n))) as F2.
  assert (Hid : forall o k, collect_keychain_ids_for_auth auth = option_list o -> o = Some k -> K k).
  { intros o k E ->. unfold auth_known in Ha. rewrite E in Ha. by apply Forall_inv in Ha. }
  destruct auth as [k [p|]|path has k [p|]|path cert has k [p|]|key k [p|]| |]; cbn; try (by apply writes_ret).
  - eapply (choose_writes _ (fun n => new_password_keychain_id (uuid_at n))); [apply fresh_password_tick|exact F1| |].
    + apply or_else_known; [by apply password_known|]. intros x. apply Hid. by destruct k.
    + intros x Hx. apply store_writes, writes_ret. cbn. split; [by apply known_id|set_solver].
  - eapply (choose_writes _ (fun n => new_key_passphrase_keychain_id (uuid_at n))); [apply fresh_passphrase_tick|exact F2| |].
    + apply or_else_known; [apply snd_known; intros r; by apply key_known|]. intros x. apply Hid. by destruct k.
    + intros x Hx. apply store_writes, writes_ret. cbn. split; [by apply known_id|set_solver].
  - destruct (matching_key_passphrase existing path) as [[h x]|] eqn:E; [|by apply writes_ret].
    apply writes_ret. unfold auth_known. cbn. apply key_known in E; [|done]. destruct x; [by apply known_id, E|constructor].
  - eapply (choose_writes _ (fun n => new_key_passphrase_keychain_id (uuid_at n))); [apply fresh_passphrase_tick|exact F2| |].
    + apply or_else_known; [apply snd_known; intros r; by apply certificate_known|]. intros x. apply Hid. by destruct k.
    + intros x Hx. apply store_writes, writes_ret. cbn. split; [by apply known_id|set_solver].
  - destruct (matching_certificate_passphrase existing path cert) as [[h x]|] eqn:E; [|by apply writes_ret].
    apply writes_ret. unfold auth_known. cbn. apply certificate_known in E; [|done]. destruct x; [by apply known_id, E|constructor].
  - eapply (choose_writes _ (fun n => new_key_passphrase_keychain_id (uuid_at n))); [apply fresh_passphrase_tick|exact F2| |].
    + apply or_else_known; [by apply managed_known|]. intros x. apply Hid. by destruct k.
    + intros x Hx. apply store_writes, writes_ret. cbn. split; [by apply known_id|set_solver].
  - destruct (matching_managed_key_passphrase_id existing key) as [x|] eqn:E; [|by apply writes_ret].
    apply writes_ret. apply known_id. by apply (managed_known existing key He).
Qed.
Lemma writes_fst {A B} (m : CM (A * B)) ids pids (R : A -> Prop) : writes m (fun r => ids r.1) (fun r => pids r.1) (fun r => R r.1) ->
  writes (let* r := m in ret r.1) ids pids R.
Proof. intros Hm. eapply writes_bind; [exact Hm|]. intros a Ha. by apply writes_ret. Qed.

Definition chain_ids (l : list SavedProxyHop) : list (list Z) := flat_map (fun h => collect_keychain_ids_for_auth (hp_auth h)) l.
Lemma materialize_chain_writes l : Forall (fun h => auth_known (hp_auth h)) l -> check_all check_hop_names l = Ok tt ->
  writes (materialize_proxy_chain_with_runtime_secrets l) (fun r => chain_ids r.1) (fun _ => []) (fun r => Forall (fun h => auth_known (hp_auth h)) r.1).
Proof.
  induction 1 as [|h l Hh _ IH]; intros Hc; [by apply writes_ret|]. cbn in Hc |- *.
  destruct (check_hop_names h) as [[]|] eqn:E; [|done]. cbn in Hc.
  eapply writes_bind; [by apply materialize_auth_runtime_writes|]. intros a Ha.
  assert (Hop : exists h', check_hop h a.1 = Ok h' /\ hp_auth h' = a.1).
  { unfold check_hop_names in E. unfold check_hop. destruct (non_empty _ _); [|done]. cbn in *. destruct (non_empty _ _); [|done]. cbn. eauto. }
  destruct Hop as (h' & -> & Eh). eapply (writes_quiet _ _ (fun x => x = h')); [intros w; by exists h'|]. intros ? ->.
  eapply writes_bind; [by apply IH|]. intros r Hr. apply writes_ret. unfold auth_ids. cbn. rewrite Eh.
  split_and!; try done; [constructor; by rewrite ?Eh|set_solver..].
Qed.

(** An upstream proxy with a host and, where it takes a password, a username. *)
Definition proxy_named (p : SavedUpstreamProxyPolicy) : Prop :=
  match p with
  | Custom u => trim (up_host u) <> [] /\ match up_auth u with UpPassword n _ _ => trim n <> [] | UpNone => True end
  | _ => True
  end.
Definition proxy_known (p : SavedUpstreamProxyPolicy) : Prop := Forall K (collect_keychain_ids_for_upstream_proxy p).
Lemma non_empty_ok s label : s <> [] -> non_empty s label = Ok s.
Proof. intros Hs. unfold non_empty. by rewrite decide_False. Qed.
Lemma existing_proxy_known o : (forall e, o = Some e -> proxy_known e) -> id_known (existing_upstream_proxy_password_keychain_id o).
Proof.
  intros He k. destruct o as [[| |u]|]; try done. cbn. destruct (up_auth u) as [|? [x|] ?] eqn:E; try done. intros [= <-].
  specialize (He _ eq_refl). unfold proxy_known in He. cbn in He. rewrite E in He. by apply Forall_inv in He.
Qed.
Lemma materialize_proxy_writes p existing : proxy_named p -> proxy_known p -> (forall e, existing = Some e -> proxy_known e) ->
  writes (materialize_upstream_proxy_policy_with_runtime_secret p existing) (fun r => collect_keychain_ids_for_upstream_proxy r.1) (fun _ => [])
    (fun r => proxy_known r.1).
Proof.
  intros Hn Hp He. pose proof (fun n => proj2 (proj2 (fresh_K n))) as F. destruct p as [| |u]; [by apply writes_ret..|]. cbn in Hn |- *.
  destruct Hn as [Hh Hu]. rewrite (non_empty_ok _ _ Hh).
  set (auth_proxy (a : SavedUpstreamProxyAuth) := Custom (mkUpstream (up_protocol u) (trim (up_host u)) (Z.max (up_port u) 1) a (up_remote_dns u) (trim (up_no_proxy u)))).
  eapply (writes_bind _ _ (fun r => collect_keychain_ids_for_upstream_proxy (auth_proxy r.1)) (fun _ => []) (fun r => proxy_known (auth_proxy r.1))).
  - unfold proxy_known in Hp. cbn in Hp. destruct (up_auth u) as [|n k [secret|]]; cbn; [by apply writes_ret| |].
    + rewrite (non_empty_ok _ _ Hu). eapply (writes_quiet _ _ (fun x => x = trim n)); [intros w; by eexists|]. intros ? ->.
      eapply (choose_writes _ (fun n => new_upstream_proxy_password_keychain_id (uuid_at n))); [apply fresh_proxy_tick|exact F| |].
      * apply or_else_known; [by apply existing_proxy_known|]. intros x ->. by apply Forall_inv in Hp.
      * intros x Hx. apply store_writes, writes_ret. cbn. split; [by apply known_id|set_solver].
    + rewrite (non_empty_ok _ _ Hu). eapply (writes_quiet _ _ (fun x => x = trim n)); [intros w; by eexists|]. intros ? ->. by apply writes_ret.
  - intros a Ha. eapply (writes_quiet _ _ (fun x => x = trim (up_host u))); [intros w; by eexists|]. intros ? ->. apply writes_ret. done.
Qed.

Definition owner_of (id : list Z) (c : SavedPrivilegeCredential) : list Z := if blank (pc_connection_id c) then id else pc_connection_id c.
Lemma store_privilege_writes {B} k secret (f : CM B) (i2 p2 : B -> list (list Z)) R : writes f i2 p2 (fun b => R b /\ k ∈ p2 b) ->
  writes (do* store Privileges k secret in f) i2 p2 R.
Proof.
  intros Hf. eapply (writes_bind _ _ (fun _ => []) (fun _ => [k]) (fun _ => True)).
  - intros w. unfold wp, store. rewrite on_keychain_works. cbn. exists tt. split_and!; try done. split; [done|]. intros x Hx. cbn.
    apply lookup_insert_ne. set_solver.
  - intros _ _ w. eapply wp_mono; [apply Hf|]. intros r w' (b & -> & Hd & Hw & Hb & HR & Hin). exists b. split_and!; try done; set_solver.
Qed.
Lemma materialize_credentials_writes id l : Forall (fun c => pc_plaintext_secret c = None \/ P (privilege_keychain_id (owner_of id c) (pc_id c))) l ->
  writes (materialize_privilege_credentials id l) (fun _ => []) snd (fun r => Forall secretless r.1 /\ Forall P r.2).
Proof.
  induction 1 as [|c l Hc _ IH]; [by apply writes_ret|]. cbn. fold (owner_of id c).
  eapply (writes_bind _ _ (fun _ => []) snd (fun x => secretless x.1 /\ Forall P x.2)).
  - destruct (pc_plaintext_secret c) as [secret|]; [|by apply writes_ret]. destruct Hc as [?|Hc]; [done|].
    apply store_privilege_writes, writes_ret. cbn. split_and!; [done|by constructor|set_solver].
  - intros x [Hx HP]. eapply writes_bind; [exact IH|]. intros r [Hr HPr]. apply writes_ret. cbn.
    split_and!; try done; [by constructor|by apply Forall_app|set_solver..].
Qed.

(** ** Staging one connection *)

(** The connections of the store, and their credentials. *)
Definition conn_known (c : SavedConnection) : Prop := Forall K (collect_connection_keychain_ids c) /\ Forall secretless (cn_privilege_credentials c).
Definition data_known (d : ConnectionStoreData) : Prop := Forall conn_known (d_connections d).
(** The id that an imported connection gets. *)
Definition import_id (c : SavedConnection) (id : list Z) : Prop := if blank (cn_id c) then exists n, id = uuid_at n else id = cn_id c.
Record importable (c : SavedConnection) : Prop := {
  imp_known : Forall K (collect_connection_keychain_ids c);
  imp_proxy : proxy_named (cn_upstream_proxy c);
  imp_credentials id : import_id c id ->
    Forall (fun x => pc_plaintext_secret x = None \/ P (privilege_keychain_id (owner_of id x) (pc_id x))) (cn_privilege_credentials c)
}.
Lemma parts_known a h u : Forall K (collect_keychain_ids_for_parts a h u) <-> auth_known a /\ Forall (fun h => auth_known (hp_auth h)) h /\ proxy_known u.
Proof. unfold collect_keychain_ids_for_parts. by rewrite !Forall_app, Forall_flat_map. Qed.
Lemma normalize_known now d : data_known d -> data_known (normalize lowercase now d).
Proof.
  intros Hd. unfold data_known, normalize. cbn. rewrite sort_by_perm. apply Forall_map. eapply Forall_impl; [exact Hd|]. intros c [H1 H2].
  unfold normalize_connection. by destruct (op_post_connect_command _).
Qed.
Lemma ensure_known g w : data_known (w_data w) -> proper_group g ->
  wp (ensure_optional_group g) (fun r w' => r = Ok tt /\ data_known (w_data w') /\ same_keychains w w') w.
Proof.
  intros Hw Hg. destruct g as [g|]; [|done]. cbn. unfold ensure_group. rewrite (Hg g eq_refl). unfold wp, bind, lift, data. cbn.
  destruct (decide (g ∈ d_groups (w_data w))); [done|]. cbn. split_and!; [done| |done]. by apply normalize_known.
Qed.
Lemma get_known id d c : data_known d -> get id d = Some c -> conn_known c.
Proof. intros Hd [Hc%list_elem_of_In _]%List.find_some. by eapply Forall_forall in Hd. Qed.

(** A failure has written nothing; a success has written what it says. *)
Definition staged (w : World) (r : result ConnError StagedImportedConnection) (w' : World) : Prop :=
  match r with
  | Err _ => w_data w' = w_data w /\ same_keychains w w'
  | Ok s => data_known (w_data w') /\ but (sg_touched_keychain_ids s) (sg_touched_privilege_keychain_ids s) w w'
            /\ Forall K (sg_touched_keychain_ids s) /\ Forall P (sg_touched_privilege_keychain_ids s)
  end.
Lemma staged_later w w1 r w' : w_data w1 = w_data w -> same_keychains w w1 -> staged w1 r w' -> staged w r w'.
Proof.
  intros Hd Hk. destruct r as [s|e]; cbn.
  - intros (H1 & H2 & H3 & H4). split_and!; try done. by eapply (but_trans [] [] _ _ _ w1); [apply same_but|].
  - intros [H1 [K2 P2]]. destruct Hk. split; [congruence|split; congruence].
Qed.
Lemma wp_writes {A B} (m : CM A) ids pids (R : A -> Prop) (f : A -> CM B) (Q : result ConnError B -> World -> Prop) w : writes m ids pids R ->
  (forall a w1, R a -> w_data w1 = w_data w -> but (ids a) (pids a) w w1 -> wp (f a) Q w1) -> wp (bind m f) Q w.
Proof. intros Hm Hf. apply wp_bind. eapply wp_mono; [apply Hm|]. intros r w1 (a & -> & Hd & _ & Hb & Ha). by apply Hf. Qed.
Lemma stage_lift {A} (r : result ConnError A) f w : (forall a, r = Ok a -> wp (f a) (staged w) w) -> wp (bind (lift r) f) (staged w) w.
Proof. intros Hf. apply wp_bind, wp_lift. destruct r as [a|e]; [by apply Hf|done]. Qed.
Lemma stage_step {A} (m : CM A) f (R : A -> Prop) w :
  wp m (fun r w1 => exists a, r = Ok a /\ w_data w1 = w_data w /\ same_keychains w w1 /\ R a) w ->
  (forall a w1, R a -> w_data w1 = w_data w -> wp (f a) (staged w1) w1) -> wp (bind m f) (staged w) w.
Proof.
  intros Hm Hf. apply wp_bind. eapply wp_mono; [exact Hm|]. intros r w1 (a & -> & Hd & Hk & Ha). cbn. eapply wp_mono; [by apply Hf|].
  intros r' w2. by apply staged_later.
Qed.
Lemma stage_imported_spec c w : importable c -> data_known (w_data w) -> wp (stage_imported_connection c) (staged w) w.
Proof.
  intros [Hk Hn Hcred] Hw. unfold stage_imported_connection. apply stage_lift. intros g Hg%group_proper.
  apply (stage_step _ _ (fun _ => True)); [by eexists|]. intros now w1 _ E1. rewrite <-E1 in Hw. clear E1 w.
  apply (stage_step _ _ (import_id c)).
  { unfold import_id. destruct (blank (cn_id c)); cbn; eexists; split_and!; try done. by eexists. }
  intros id w Hid E. rewrite <-E in Hw. clear E w1. specialize (Hcred id Hid).
  apply (stage_step _ _ (fun d => d = w_data w)); [by eexists|]. intros ? w1 -> E. rewrite <-E in Hw |- *. clear E w.
  apply stage_lift; intros name _. apply stage_lift; intros host _. apply stage_lift; intros username _. apply stage_lift; intros [] Hhops.
  apply parts_known in Hk as (Ka & Kh & Ku).
  assert (He : forall e, get id (w_data w1) = Some e -> auth_known (cn_auth e) /\ proxy_known (cn_upstream_proxy e) /\ Forall secretless (cn_privilege_credentials e)).
  { intros e He. destruct (get_known _ _ _ Hw He) as [He1 He2]. apply parts_known in He1 as (? & _ & ?). done. }
  generalize dependent (get id (w_data w1)). intros existing He.
  eapply wp_writes; [apply (writes_fst _ collect_keychain_ids_for_auth (fun _ => []) auth_known), materialize_auth_runtime_writes; [exact Ka|]|].
  { intros a (e & -> & ->)%fmap_Some. by apply (He e). }
  intros auth wa Aa Ea Ba. eapply wp_writes; [by apply (writes_fst _ chain_ids (fun _ => []) (Forall (fun h => auth_known (hp_auth h)))), materialize_chain_writes|].
  intros chain wc Ac Ec Bc. eapply wp_writes; [apply (writes_fst _ collect_keychain_ids_for_upstream_proxy (fun _ => []) proxy_known), materialize_proxy_writes; [exact Hn|exact Ku|]|].
  { intros a (e & -> & ->)%fmap_Some. by apply (He e). }
  intros upstream wu Au Eu Bu. eapply wp_writes; [apply materialize_credentials_writes|].
  { destruct existing as [e|], (cn_privilege_credentials c); try done.
    eapply Forall_impl; [apply (He e eq_refl)|]. intros x Hx. by left. }
  intros p wp0 [Ap Pp] Ep Bp. apply wp_bind. cbn. apply wp_bind. eapply wp_mono; [apply ensure_known; [|done]|].
  { cbn. rewrite Ep, Eu, Ec, Ea. apply Forall_forall. intros x [->|Hx]%upsert_by_elem; [|by eapply Forall_forall in Hw].
    split; [|done]. by apply parts_known. }
  intros r w' (-> & Hd & Hs). cbn. split_and!; [done| |by apply parts_known|done].
  eapply but_mono; [eapply but_trans; [exact Ba|eapply but_trans; [exact Bc|eapply but_trans; [exact Bu|eapply but_trans; [exact Bp|by apply (same_but _ _ [] [])]]]]|..].
  - unfold collect_keychain_ids_for_parts, chain_ids. set_solver.
  - set_solver.
Qed.

(** ** The whole transaction *)

Record progressed (w0 : World) (pg : Progress) (w : World) : Prop := {
  pr_data : data_known (w_data w);
  pr_but : but (pg_touched pg) (pg_touched_privilege pg) w0 w;
  pr_known : Forall K (pg_touched pg);
  pr_privileges : Forall P (pg_touched_privilege pg)
}.
Lemma stage_all_spec w0 l : Forall importable l -> forall pg w, progressed w0 pg w ->
  wp (stage_all l pg) (fun r w' => exists x, r = Ok x /\ progressed w0 x.1 w') w.
Proof.
  induction 1 as [|c l Hc _ IH]; intros pg w [Hd Hb Hk Hp]; [by eexists|]. cbn. apply wp_bind, wp_attempt.
  eapply wp_mono; [by apply stage_imported_spec|]. intros [s|e] w1; cbn.
  - intros (H1 & H2 & H3 & H4). apply IH. split; cbn; [done|by eapply but_trans|by apply Forall_app..].
  - intros [H1 H2]. eexists. split; [done|]. cbn. split; [by rewrite H1| |done..].
    eapply but_mono; [eapply but_trans; [exact Hb|by apply (same_but _ _ [] [])]|set_solver..].
Qed.

End Staging.

Section Transaction.
Context `{out : Outside}.

(** An id that a transaction may write to: one of the store's own connections,
    or one that holds nothing. *)
Definition usable (w : World) (k : list Z) : Prop :=
  k ∈ flat_map collect_connection_keychain_ids (d_connections (w_data w)) \/ w_keychain w !! k = None.
Definition usable_privilege (w : World) (k : list Z) : Prop :=
  k ∈ flat_map collect_privilege_keychain_ids (d_connections (w_data w)) ++ omap pc_keychain_id (d_local_privileges (w_data w))
  \/ w_privilege w !! k = None.
Definition uuids_usable (w : World) : Prop := forall n, usable w (new_password_keychain_id (uuid_at n))
  /\ usable w (new_key_passphrase_keychain_id (uuid_at n)) /\ usable w (new_upstream_proxy_password_keychain_id (uuid_at n)).
(** The keychains answer, and a set is walked once over. *)
Definition keychains_work : Prop := (forall n, keychain_fails n = false) /\ forall (s : gset (list Z)) x, x ∈ hash_order s <-> x ∈ s.

Lemma store_known w : ok (w_data w) -> data_known (usable w) (w_data w).
Proof.
  intros Hw. apply Forall_forall. intros c Hc. split.
  - apply Forall_forall. intros k Hk. left. apply list_elem_of_In, in_flat_map. exists c. by split; apply list_elem_of_In.
  - destruct Hw as [? ? ? ? ? ? ? ? S ?]. eapply Forall_forall in S as [_ _ _ S]; [|exact Hc].
    eapply Forall_impl; [exact S|]. intros x. apply nothing_kept.
Qed.
(** What was snapshot is put back. *)
Lemma put_back (m0 m1 m2 : gmap (list Z) (list Z)) (snap : gmap (list Z) (option (list Z))) (known touched walked : list (list Z)) :
  (forall x, snap !! x = if decide (x ∈ known) then Some (m0 !! x) else None) -> (forall x, x ∉ touched -> m1 !! x = m0 !! x) ->
  (forall x, x ∈ walked <-> x ∈ touched) -> Forall (fun x => x ∈ known \/ m0 !! x = None) touched ->
  (forall x, m2 !! x = if decide (x ∈ walked) then snap !! x ≫= id else m1 !! x) -> m2 = m0.
Proof.
  intros Hs H1 Hw Hk H2. apply map_eq. intros x. rewrite H2. destruct (decide (x ∈ walked)) as [Hx|Hx].
  - rewrite Hs. apply Hw in Hx. eapply Forall_forall in Hk; [|exact Hx]. destruct (decide (x ∈ known)); [done|]. destruct Hk as [?|Hk]; [done|].
    by rewrite Hk.
  - apply H1. by rewrite <-Hw.
Qed.
Lemma read_managed_same d w : wp (read_managed_secrets d) (fun _ => same_world w) w.
Proof.
  unfold read_managed_secrets. revert w. induction (d_managed_keys d) as [|x l IH]; intros w; [done|]. cbn. apply wp_bind, wp_bind. cbn.
  destruct (read_fails (w_tick w)); [done|]. cbn. eapply wp_mono; [apply IH|]. intros r w'. by apply same_world_trans.
Qed.
Lemma save_spec w : wp save (fun r w' => w_data w' = w_data w /\ same_keychains w w' /\
  match r with Ok _ => exists bytes, encode_data (w_data w) = Ok bytes /\ w_file w' = Some bytes | Err _ => True end) w.
Proof.
  unfold wp, save, bind, data, lift, tick. cbn. destruct (encode_data (w_data w)) as [b|]; [|done].
  destruct (write_outcome (w_tick w)); cbn; split_and!; eauto; done.
Qed.

(** The end of a transaction that failed. *)
Lemma roll_back_all (w0 w1 w2 : World) (e : ConnError) (pg : Progress) (keys privs : gmap (list Z) (option (list Z))) : keychains_work ->
  (forall x, keys !! x = if decide (x ∈ flat_map collect_connection_keychain_ids (d_connections (w_data w0))) then Some (w_keychain w0 !! x) else None) ->
  (forall x, privs !! x = if decide (x ∈ flat_map collect_privilege_keychain_ids (d_connections (w_data w0)) ++ omap pc_keychain_id (d_local_privileges (w_data w0)))
                          then Some (w_privilege w0 !! x) else None) ->
  progressed (usable w0) (usable_privilege w0) w0 pg w1 -> same_keychains w1 w2 ->
  wp (do* change_data (fun _ => w_data w0) in
      let* file := attempt save in
      let* k := rollback_keychain_entries Connections (pg_touched pg) keys in
      let* p := rollback_keychain_entries Privileges (pg_touched_privilege pg) privs in
      let errors := (match file with Ok _ => [] | Err _ => [lit "connection file restore failed"] end)
        ++ (if k : bool then [] else [lit "connection credential restore failed"])
        ++ (if p : bool then [] else [lit "privilege credential restore failed"]) in
      (if decide (errors = []) then throw e else throw (RollbackFailed e errors) : CM (list ConnectionInfo)))
     (fun r w' => w_data w' = w_data w0 /\ same_keychains w0 w' /\
        match r with
        | Err e => (exists bytes, encode_data (w_data w0) = Ok bytes /\ w_file w' = Some bytes) \/ exists e0 errors, e = RollbackFailed e0 errors
        | Ok _ => False
        end) w2.
Proof.
  intros [Hworks Hhash] Hkeys Hprivs [_ [B1 B2] Hk Hp] [S1 S2]. apply wp_bind. cbn. apply wp_bind, wp_attempt. eapply wp_mono; [apply save_spec|].
  intros file w3 (D3 & [K3 P3] & F3). cbn in D3, K3, P3, F3. apply wp_bind. unfold rollback_keychain_entries.
  eapply wp_mono; [by apply rollback_spec|]. intros ? w4 (-> & D4 & F4 & O4 & K4). apply wp_bind.
  eapply wp_mono; [by apply rollback_spec|]. intros ? w5 (-> & D5 & F5 & O5 & P5). cbn.
  pose proof (O4 Privileges ltac:(done)) as E4. pose proof (O5 Connections ltac:(done)) as E5. cbn in E4, E5, K4, P5.
  assert (Hset : forall (l : list (list Z)) x, x ∈ hash_order (list_to_set l) <-> x ∈ l) by (intros l x; by rewrite Hhash, elem_of_list_to_set).
  assert (HK : w_keychain w5 = w_keychain w0).
  { rewrite E5. eapply put_back; [exact Hkeys|exact B1|apply Hset|exact Hk|]. intros x. rewrite K4. case_decide; [done|]. congruence. }
  assert (HP : w_privilege w5 = w_privilege w0).
  { eapply put_back; [exact Hprivs|exact B2|apply Hset|exact Hp|]. intros x. rewrite P5. case_decide; [done|]. congruence. }
  assert (HD : w_data w5 = w_data w0) by congruence.
  destruct file as [[]|e']; cbn; (split_and!; [done..|]).
  - left. destruct F3 as (b & Eb & Fb). exists b. split; [done|congruence].
  - right. eauto.
Qed.
Lemma deletions_succeed (k : Keychain) l : forall w, wp (for_each (fun id => ignore (delete k id)) l) (fun r _ => r = Ok tt) w.
Proof.
  induction l as [|x l IH]; intros w; [done|]. cbn. apply wp_bind, wp_bind, wp_attempt. eapply wp_mono; [apply delete_quiet|].
  intros r w' _. apply IH.
Qed.

(** C23: a failed import leaves nothing behind.  Where the keychains answer, the
    new connections name a proxy host and user wherever they have a proxy, and
    the keychain ids they use are those of saved connections or hold nothing,
    a transaction that fails, at whichever connection or at the file, leaves
    the data and every entry of both keychains as they were, and the file holds
    what it held or the same data anew; the error says so where the file could
    not be written. *)
Theorem import_failure_restores l w e w' : keychains_work -> ok (w_data w) -> uuids_usable w ->
  Forall (importable (usable w) (usable_privilege w)) l ->
  upsert_imported_connections_transaction l w = Some (Err e, w') ->
  w_data w' = w_data w /\ same_keychains w w' /\
  (w_file w' = w_file w \/ (exists bytes, encode_data (w_data w) = Ok bytes /\ w_file w' = Some bytes)
   \/ exists e0 errors, e = RollbackFailed e0 errors).
Proof.
  intros Hworks Hok Hu Hl E. enough (Hp : wp (upsert_imported_connections_transaction l) (fun r w' => match r with Ok _ => True | Err e =>
    w_data w' = w_data w /\ same_keychains w w' /\ (w_file w' = w_file w \/ (exists bytes, encode_data (w_data w) = Ok bytes /\ w_file w' = Some bytes)
    \/ exists e0 errors, e = RollbackFailed e0 errors) end) w) by (unfold wp in Hp; by rewrite E in Hp).
  clear E. destruct (Hworks) as [Hkey _]. apply wp_bind. cbn. apply wp_bind. eapply wp_mono; [by apply snapshot_spec|].
  intros ? w1 (keys & -> & S1 & Hkeys). apply wp_bind. eapply wp_mono; [by apply snapshot_spec|].
  intros ? w2 (privs & -> & S2 & Hprivs). apply wp_bind. eapply wp_mono; [by apply read_managed_same|]. intros r w3 S3. cbn.
  pose proof (same_world_trans _ _ _ S1 (same_world_trans _ _ _ S2 S3)) as (Hd & Hf & Hs). destruct r as [u|e0]; [|by cbn; auto].
  apply wp_bind. eapply wp_mono.
  { apply (stage_all_spec Hkey (usable w) (usable_privilege w)) with (w0 := w); [exact Hu|exact Hl|].
    split; cbn; [rewrite Hd; by apply store_known|by apply same_but|done..]. }
  intros ? w4 (x & -> & Hx). apply wp_bind. cbv zeta.
  eapply (wp_mono _ (fun r w5 => same_keychains w4 w5 /\ exists y, r = Ok y)).
  { destruct x.2; [|split; [done|by eexists]]. apply wp_attempt. eapply wp_mono; [apply spares_bind; [apply spares_normalized|intros _; apply spares_save]|].
    intros r w5 Hs5. split; [done|by eexists]. }
  intros ? w5 (Hs5 & [u'|e1] & ->); cbn.
  - apply wp_bind. eapply wp_mono; [apply deletions_succeed|]. by intros ? w6 ->.
  - eapply wp_mono; [eapply (roll_back_all w w4); [exact Hworks|exact Hkeys| |exact Hx|exact Hs5]|].
    { intros x'. rewrite Hprivs. by rewrite (same_entries Privileges _ _ S1). }
    intros [?|e2] w6 (H1 & H2 & H3); [done|]. split_and!; try done. by right.
Qed.
End Transaction.

(** A saved connection with its password, and two that are imported: a new
    password for the first one, and one without a name. *)
Definition working_outside : Outside := {|
  encode_data d := Ok (flat_map cn_name (d_connections d));
  decode_data _ := Err ReadFailed;
  to_rfc3339 t := [t];
  parse_from_rfc3339 s := head s;
  lowercase s := s;
  now_at n := Z.of_nat n * 1000000000;
  uuid_at n := [500 + Z.of_nat n];
  keychain_fails _ := false;
  write_outcome _ := Written;
  read_fails _ := false;
  hash_order s := elements s
|}.
Definition sample_connection (id name : list Z) (auth : SavedAuth) : SavedConnection :=
  mkConnection id 1 name None (lit "h") 22 (lit "u") auth [] UseGlobal default_options 1 None None None None None [] None [].
Definition saved_world : World :=
  mkWorld (set_d_connections [sample_connection [1] (lit "a") (SaPassword (Some [9]) None)] default_data) None {[ [9] := lit "old" ]} ∅ 0.
Definition sample_import : list SavedConnection :=
  [sample_connection [1] (lit "a") (SaPassword None (Some (lit "new"))); sample_connection [2] (lit " ") SaAgent].
Lemma saved_world_ok : ok (w_data saved_world).
Proof.
  split; cbn; try apply NoDup_nil_2; [apply NoDup_singleton|lia| | | |constructor].
  - intros x Hx. by apply elem_of_nil in Hx.
  - intros g Hg. by apply elem_of_nil in Hg.
  - constructor; [|constructor]. by split; cbn; try constructor.
Qed.
Lemma sample_importable : Forall (importable (out := working_outside) (usable saved_world) (usable_privilege saved_world)) sample_import.
Proof. repeat constructor; intros; constructor. Qed.
Lemma saved_uuids_usable : uuids_usable (out := working_outside) saved_world.
Proof. intros n. split_and!; right; apply lookup_singleton_ne; discriminate. Qed.
Lemma import_failure_restores_witness :
  exists e w', upsert_imported_connections_transaction (out := working_outside) sample_import saved_world = Some (Err e, w')
    /\ w_data w' = w_data saved_world /\ same_keychains saved_world w'.
Proof.
  assert (E : exists e w', upsert_imported_connections_transaction (out := working_outside) sample_import saved_world = Some (Err e, w'))
    by (vm_compute; by eexists _, _).
  destruct E as (e & w' & E). exists e, w'. split; [exact E|].
  destruct (import_failure_restores (out := working_outside) sample_import saved_world e w') as (Hd & Hs & _); [|exact saved_world_ok|exact saved_uuids_usable|exact sample_importable|exact E|by split].
  split; [done|]. intros s x. apply elem_of_elements.
Defined.
