(* ===== verification/ConnSecrets.v ===== *)
(** * Saved secrets are read back, renamed groups are found again

    The password of a saved connection is the one that is read later, although
    it is held apart from the connection, and a group that was renamed can be
    renamed back. *)
From Stdlib Require Import String.
From stdpp Require Import prelude numbers list gmap.
From S2P Require Import Prelude Text TrzszBuffer TextOps ForwardModel ConnTypes ConnStore ConnSync ConnFacts ConnInvariant ConnUndo ConnImport.
Open Scope Z_scope.

#[local] Arguments sort_by : simpl never.
#[local] Arguments dedup : simpl never.
#[local] Arguments upsert_by : simpl never.
#[local] Arguments normalize : simpl never.

(** Where nothing else is said, nothing secret is in the data. *)
#[local] Existing Instance nothing_allowed.

(** ** Passwords *)

(** The entries of the keychain, named by the request or by the connection it
    replaces, under which its other secrets are stored. *)
Definition auth_target (a : SavedAuth) : list (list Z) :=
  match a with
  | SaPassword k (Some _) | SaKey _ _ k (Some _) | SaCertificate _ _ _ k (Some _) | SaManagedKey _ k (Some _) => option_list k
  | _ => []
  end.
Definition proxy_target (p : SavedUpstreamProxyPolicy) (existing : option SavedUpstreamProxyPolicy) : list (list Z) :=
  match p with
  | Custom c => match up_auth c with
                | UpPassword _ k (Some _) => option_list (or_else (existing_upstream_proxy_password_keychain_id existing) k)
                | _ => []
                end
  | _ => []
  end.
Definition other_targets (r : SaveConnectionRequest) (existing : option SavedConnection) : list (list Z) :=
  flat_map (fun h => auth_target (hp_auth h)) (rq_proxy_chain r) ++ proxy_target (rq_upstream_proxy r) (cn_upstream_proxy <$> existing).
(** The entry named for the password. *)
Definition password_target (k0 : option (list Z)) (existing : option SavedConnection) : option (list Z) :=
  or_else (existing_password_keychain_id (cn_auth <$> existing)) k0.
(** The connection that a request replaces. *)
Definition replaced `{Outside} (r : SaveConnectionRequest) (w : World) : option SavedConnection :=
  get (default (uuid_at (S (w_tick w))) (rq_id r)) (w_data w).
(** The entry of the password is its own: UUIDs differ and are of one length,
    entries named after UUIDs yet to be drawn are not named already, and the entry
    named for the password is not named for another secret of the request. *)
Record own_entry `{Outside} (r : SaveConnectionRequest) (k0 : option (list Z)) (w : World) : Prop := {
  oe_distinct n m : uuid_at n = uuid_at m -> n = m;
  oe_length n m : length (uuid_at n) = length (uuid_at m);
  oe_fresh n k : (w_tick w <= n)%nat -> k ∈ option_list (password_target k0 (replaced r w)) ++ other_targets r (replaced r w) ->
    k <> new_password_keychain_id (uuid_at n) /\ k <> new_key_passphrase_keychain_id (uuid_at n)
    /\ k <> new_upstream_proxy_password_keychain_id (uuid_at n);
  oe_other k : password_target k0 (replaced r w) = Some k -> k ∉ other_targets r (replaced r w)
}.

(** A connection of this id and with this authentication is saved. *)
Definition holds (id : list Z) (a : SavedAuth) (d : ConnectionStoreData) : Prop :=
  NoDup (map cn_id (d_connections d)) /\ exists c, c ∈ d_connections d /\ cn_id c = id /\ cn_auth c = a.
Lemma holds_get id a d : holds id a d -> exists c, get id d = Some c /\ cn_id c = id /\ cn_auth c = a.
Proof.
  intros (Hn & c & Hc & Hid & Ha). unfold get. destruct (List.find _ _) as [x|] eqn:E.
  - apply List.find_some in E as [Hx%list_elem_of_In Hxi]. apply bool_decide_eq_true in Hxi. exists x. split_and!; [done..|].
    replace x with c; [done|]. apply list_elem_of_lookup in Hc as [i Hi], Hx as [j Hj].
    assert (i = j) as <-; [|congruence]. eapply (NoDup_lookup (map cn_id (d_connections d))); [done|..]; apply list_lookup_fmap_Some; eauto.
    exists x. split; [congruence|done].
  - apply List.find_none with (x := c) in E; [|by apply list_elem_of_In]. by rewrite bool_decide_true in E.
Qed.
Lemma holds_put c d : NoDup (map cn_id (d_connections d)) -> holds (cn_id c) (cn_auth c) (put_connection c d).
Proof.
  intros Hn. split; [by apply upsert_by_NoDup|]. exists c. split_and!; [|done..]. cbn.
  destruct (upsert_by_cases cn_id c (d_connections d)) as [(l1 & y & l2 & _ & -> & _)|[-> _]]; set_solver.
Qed.

Section Secrets.
Context `{out : Outside}.

Lemma holds_normalize id a now d : holds id a d -> holds id a (normalize lowercase now d).
Proof.
  intros (Hn & c & Hc & Hid & Ha). split; [by rewrite normalize_ids|]. exists (normalize_connection c). unfold normalize. cbn.
  split; [rewrite sort_by_perm; by apply list_elem_of_fmap_2|]. unfold normalize_connection. by destruct (op_post_connect_command _).
Qed.
Lemma holds_ensure id a g w : holds id a (w_data w) ->
  wp (ensure_optional_group g) (fun _ w' => holds id a (w_data w') /\ same_keychains w w') w.
Proof.
  intros Hw. destruct g as [g|]; [|done]. cbn. unfold ensure_group. destruct (validate_group_name g) as [v|]; [|done].
  unfold wp, bind, lift, data. cbn. destruct (decide (v ∈ d_groups (w_data w))); [done|]. cbn. split; [|done]. by apply holds_normalize.
Qed.
(** Deleting entries leaves the others. *)
Lemma deletions_spare (k : Keychain) (l : list (list Z)) : forall w, wp (for_each (fun id => ignore (delete k id)) l)
  (fun r w' => w_data w' = w_data w /\ forall x, x ∉ l -> entries k w' !! x = entries k w !! x) w.
Proof.
  induction l as [|y l IH]; intros w; [done|]. cbn. apply wp_bind, wp_bind, wp_attempt.
  eapply (wp_mono _ (fun _ w1 => w_data w1 = w_data w /\ forall x, x <> y -> entries k w1 !! x = entries k w !! x)).
  - unfold wp, delete, on_keychain, bind, tick. destruct (keychain_fails (w_tick w)); [by destruct k|].
    split; [by destruct k|]. intros x Hx. destruct k; cbn; by apply lookup_delete_ne.
  - intros r w1 [Hd Hx]. cbn. eapply wp_mono; [apply IH|]. intros r' w2 [Hd2 Hx2]. split; [congruence|].
    intros x Hn. rewrite Hx2, Hx; set_solver.
Qed.
Lemma wp_both {A} (m : CM A) Q1 Q2 w : wp m Q1 w -> wp m Q2 w -> wp m (fun r w' => Q1 r w' /\ Q2 r w') w.
Proof. unfold wp. by destruct (m w) as [[r w']|]. Qed.
(** A success leads to [Q]; a failure does not matter. *)
Definition on_success {A} (Q : A -> World -> Prop) (r : result ConnError A) (w : World) : Prop := match r with Ok a => Q a w | Err _ => True end.
Lemma success_bind {A B} (m : CM A) (f : A -> CM B) (Q1 : A -> World -> Prop) Q w : wp m (on_success Q1) w ->
  (forall a w1, Q1 a w1 -> wp (f a) (on_success Q) w1) -> wp (bind m f) (on_success Q) w.
Proof. intros Hm Hf. apply wp_bind. eapply wp_mono; [exact Hm|]. intros [a|e] w1 H1; [by apply Hf|done]. Qed.
Lemma success_lift {A B} (r : result ConnError A) (f : A -> CM B) Q w : (forall a, r = Ok a -> wp (f a) (on_success Q) w) -> wp (bind (lift r) f) (on_success Q) w.
Proof. intros Hf. apply wp_bind, wp_lift. destruct r; [by apply Hf|done]. Qed.
(** The data and the keychains stay. *)
Lemma success_calm {A B} (m : CM A) (f : A -> CM B) (R : A -> Prop) Q w : quiet m R -> spares m ->
  (forall a w1, R a -> w_data w1 = w_data w -> same_keychains w w1 -> wp (f a) (on_success Q) w1) -> wp (bind m f) (on_success Q) w.
Proof.
  intros Hq Hs Hf. apply (success_bind _ _ (fun a w1 => R a /\ w_data w1 = w_data w /\ same_keychains w w1)); [|intros a w1 (? & ? & ?); by apply Hf].
  eapply wp_mono; [apply wp_both; [apply Hq|apply Hs]|]. intros [a|e] w1 [[Hd HR] Hk]; [|done]. split_and!; auto.
Qed.
Lemma spares_choose o : spares (choose o new_uuid).
Proof. destruct o; by intros w. Qed.

(** The password goes to the keychain under the id that is kept: the one that
    is named, or a new one. *)
Lemma materialize_password_stores k0 p existing w : wp (materialize_auth_with_runtime_secret (SaPassword k0 (Some p)) existing)
  (on_success (fun a w1 => w_data w1 = w_data w /\ (w_tick w <= w_tick w1)%nat
     /\ exists k, a = (SaPassword (Some k) None, Some p) /\ w_keychain w1 !! k = Some p
        /\ (or_else (existing_password_keychain_id existing) k0 = Some k
            \/ exists n, k = new_password_keychain_id (uuid_at n) /\ (w_tick w <= n < w_tick w1)%nat))) w.
Proof.
  apply (success_bind _ _ (fun k w1 => w_data w1 = w_data w /\ (w_tick w <= w_tick w1)%nat
    /\ (or_else (existing_password_keychain_id existing) k0 = Some k
        \/ exists n, k = new_password_keychain_id (uuid_at n) /\ (w_tick w <= n < w_tick w1)%nat))).
  { destruct (or_else _ _) as [k|]; cbn; [by split_and!; [..|left]|]. split_and!; [done|lia|]. right. exists (w_tick w). split; [done|lia]. }
  intros k w1 (E1 & T1 & N1). apply (success_bind _ _ (fun _ w2 => w_data w2 = w_data w /\ w_tick w2 = S (w_tick w1) /\ w_keychain w2 !! k = Some p)).
  - unfold wp, store, on_keychain, bind, tick. destruct (keychain_fails (w_tick w1)); [done|]. cbn. split_and!; [done..|]. apply lookup_insert_eq.
  - intros _ w2 (E2 & T2 & Hk). cbn. split; [done|]. split; [lia|]. exists k. split_and!; [done..|].
    destruct N1 as [?|(n & -> & ?)]; [by left|right]. exists n. split; [done|lia].
Qed.

(** Operations that leave one entry alone, once the clock is past [n0]. *)
Section Avoids.
Context (k : list Z) (n0 : nat).
Context (apart : forall n, (n0 <= n)%nat -> k <> new_password_keychain_id (uuid_at n) /\ k <> new_key_passphrase_keychain_id (uuid_at n)
  /\ k <> new_upstream_proxy_password_keychain_id (uuid_at n)).

Definition avoids {A} (m : CM A) : Prop :=
  forall w, (n0 <= w_tick w)%nat -> wp m (fun _ w' => (n0 <= w_tick w')%nat /\ w_keychain w' !! k = w_keychain w !! k) w.
Lemma avoids_ret {A} (a : A) : avoids (ret a).
Proof. by intros w. Qed.
Lemma avoids_lift {A} (r : result ConnError A) : avoids (lift r).
Proof. by intros w. Qed.
Lemma avoids_bind {A B} (m : CM A) (f : A -> CM B) : avoids m -> (forall a, avoids (f a)) -> avoids (bind m f).
Proof.
  intros Hm Hf w Hw. apply wp_bind. eapply wp_mono; [by apply Hm|]. intros [a|e] w1 [T K]; [|done]. eapply wp_mono; [by apply Hf|].
  intros r w2 [T2 K2]. split; [done|congruence].
Qed.
Lemma avoids_store k' p : k' <> k -> avoids (store Connections k' p).
Proof.
  intros Hk w Hw. unfold wp, store, on_keychain, bind, tick. destruct (keychain_fails (w_tick w)); cbn; [split; [lia|done]|].
  split; [lia|by apply lookup_insert_ne].
Qed.
(** A secret is stored under a named or a new entry. *)
Lemma avoids_stored {A} o fresh (name : list Z -> list Z) p (f : list Z -> CM A) :
  (forall k', o = Some k' -> k' <> k) -> fresh = (let* u := new_uuid in ret (name u)) ->
  (forall n, (n0 <= n)%nat -> k <> name (uuid_at n)) -> (forall k', avoids (f k')) ->
  avoids (let* k' := choose o fresh in do* store Connections k' p in f k').
Proof.
  intros Ho -> Hname Hf w Hw. apply wp_bind.
  apply (wp_mono _ (fun r w' => match r with Ok k' => k' <> k | Err _ => True end /\ (n0 <= w_tick w')%nat /\ w_keychain w' = w_keychain w)).
  { destruct o as [k'|]; cbn; [by split; [apply Ho|]|]. split; [|split; [lia|done]]. intros E. by apply (Hname (w_tick w)). }
  intros [k'|e] w1 (Hk & T1 & K1); cbn [wp_then]; [|by rewrite K1]. rewrite <-K1.
  apply (avoids_bind (store Connections k' p) (fun _ => f k')); [by apply avoids_store|by intros _|done].
Qed.

Lemma materialize_auth_avoids auth existing : existing = None -> k ∉ auth_target auth -> avoids (materialize_auth_with_runtime_secret auth existing).
Proof.
  intros -> Hk.
  assert (Hnamed : forall o, k ∉ option_list o -> forall k' : list Z, or_else None o = Some k' -> k' <> k).
  { intros o Ho k' E. cbn in E. subst o. intros ->. apply Ho. cbn. set_solver. }
  destruct auth as [id [p|]|path has id [p|]|path cert has id [p|]|key id [p|]| |]; cbn in Hk |- *; try apply avoids_ret.
  - apply (avoids_stored _ _ new_password_keychain_id); [by apply Hnamed|done|intros n Hn; by apply apart|intros ?; apply avoids_ret].
  - apply (avoids_stored _ _ new_key_passphrase_keychain_id); [by apply Hnamed|done|intros n Hn; by apply apart|intros ?; apply avoids_ret].
  - apply (avoids_stored _ _ new_key_passphrase_keychain_id); [by apply Hnamed|done|intros n Hn; by apply apart|intros ?; apply avoids_ret].
  - apply (avoids_stored _ _ new_key_passphrase_keychain_id); [by apply Hnamed|done|intros n Hn; by apply apart|intros ?; apply avoids_ret].
Qed.
Lemma materialize_chain_avoids l : k ∉ flat_map (fun h => auth_target (hp_auth h)) l -> avoids (materialize_proxy_chain_with_runtime_secrets l).
Proof.
  induction l as [|h l IH]; intros Hk; [apply avoids_ret|]. cbn in Hk |- *. apply avoids_bind; [apply materialize_auth_avoids; set_solver|].
  intros a. apply avoids_bind; [apply avoids_lift|]. intros h'. apply avoids_bind; [apply IH; set_solver|]. intros r. apply avoids_ret.
Qed.
Lemma materialize_proxy_avoids p existing : k ∉ proxy_target p existing -> avoids (materialize_upstream_proxy_policy_with_runtime_secret p existing).
Proof.
  intros Hk. destruct p as [| |u]; [apply avoids_ret..|]. cbn in Hk |- *. apply avoids_bind.
  - destruct (up_auth u) as [|n id [s|]]; cbn in Hk |- *; [apply avoids_ret| |]; (apply avoids_bind; [apply avoids_lift|]); intros v; [|apply avoids_ret].
    apply (avoids_stored _ _ new_upstream_proxy_password_keychain_id); [|done|intros m Hm; by apply apart|intros ?; apply avoids_ret].
    intros k' E ->. apply Hk. rewrite E. cbn. set_solver.
  - intros a. apply avoids_bind; [apply avoids_lift|]. intros h. apply avoids_ret.
Qed.
End Avoids.

(** The names of new entries differ by kind and by UUID. *)
Lemma new_entries_apart n m : (forall n m, uuid_at n = uuid_at m -> n = m) -> (forall n m, length (uuid_at n) = length (uuid_at m)) -> n <> m ->
  new_password_keychain_id (uuid_at n) <> new_password_keychain_id (uuid_at m)
  /\ new_password_keychain_id (uuid_at n) <> new_key_passphrase_keychain_id (uuid_at m)
  /\ new_password_keychain_id (uuid_at n) <> new_upstream_proxy_password_keychain_id (uuid_at m).
Proof.
  intros Hd Hl Hnm. unfold new_password_keychain_id, new_key_passphrase_keychain_id, new_upstream_proxy_password_keychain_id.
  split_and!; intros E; [apply app_inv_head in E; by apply Hnm, Hd|..];
    apply (f_equal length) in E; rewrite !length_app, (Hl n m) in E; cbn in E; lia.
Qed.

(** The end of a save: the connection and its secret are there. *)
Definition readable (id p : list Z) (w : World) : Prop :=
  exists k, holds id (SaPassword (Some k) None) (w_data w) /\ w_keychain w !! k = Some p.
Lemma success_avoids {A B} (k : list Z) (n0 : nat) (m : CM A) (f : A -> CM B) R Q w : quiet m R -> avoids k n0 m -> (n0 <= w_tick w)%nat ->
  (forall a w1, w_data w1 = w_data w -> (n0 <= w_tick w1)%nat -> w_keychain w1 !! k = w_keychain w !! k -> wp (f a) (on_success Q) w1) ->
  wp (bind m f) (on_success Q) w.
Proof.
  intros Hq Ha Hw Hf.
  apply (success_bind _ _ (fun a w1 => w_data w1 = w_data w /\ (n0 <= w_tick w1)%nat /\ w_keychain w1 !! k = w_keychain w !! k));
    [|intros a w1 (? & ? & ?); by apply Hf].
  eapply wp_mono; [apply wp_both; [apply Hq|by apply Ha]|]. intros [a|e] w1 [[Hd _] [T K]]; [|done]. by split_and!.
Qed.
Lemma upsert_readable r k0 p w : NoDup (map cn_id (d_connections (w_data w))) -> rq_auth r = SaPassword k0 (Some p) -> own_entry r k0 w ->
  wp (upsert_with_runtime_secrets r) (on_success (fun x w1 => rs_auth x.2 = Some p /\ readable (ci_id x.1) p w1)) w.
Proof.
  intros Hw Hr Ho. unfold upsert_with_runtime_secrets. rewrite Hr. apply success_lift. intros g _.
  apply (success_bind _ _ (fun _ w1 => w_data w1 = w_data w /\ w_tick w1 = S (w_tick w))); [done|]. intros now w1 [E1 T1].
  apply (success_bind _ _ (fun id w2 => w_data w2 = w_data w /\ (w_tick w <= w_tick w2)%nat /\ get id (w_data w) = replaced r w)).
  { unfold replaced. destruct (rq_id r); cbn; rewrite ?T1; (split_and!; [done|lia|done]). }
  intros id w2 (E2 & T2 & Hid). apply (success_bind _ _ (fun d w3 => w3 = w2 /\ d = w_data w)); [cbn; by rewrite E2|]. intros ? ? [-> ->].
  rewrite Hid. set (existing := replaced r w) in *.
  eapply success_bind; [apply materialize_password_stores|]. intros a wa (Ea & Ta & k & -> & Ka & Hk). cbn [fst snd].
  assert (Hn0 : exists n0, (n0 <= w_tick wa)%nat /\ k ∉ other_targets r existing /\ forall n, (n0 <= n)%nat ->
    k <> new_password_keychain_id (uuid_at n) /\ k <> new_key_passphrase_keychain_id (uuid_at n) /\ k <> new_upstream_proxy_password_keychain_id (uuid_at n)).
  { destruct Ho as [Hd Hl Hf Hother]. fold existing in Hf, Hother. destruct Hk as [Hk|(n & -> & Hn)].
    - exists (w_tick w). split; [lia|]. unfold password_target in Hf, Hother. split; [by apply Hother|].
      intros n Hn. apply Hf; [done|]. rewrite Hk. cbn. set_solver.
    - exists (S n). split; [lia|]. split.
      + intros Hin. destruct (Hf n (new_password_keychain_id (uuid_at n))) as [Hne _]; [lia|set_solver|done].
      + intros m Hm. apply new_entries_apart; [done|done|lia]. }
  destruct Hn0 as (n0 & Tn0 & Hother & Hapart). unfold other_targets in Hother. apply not_elem_of_app in Hother as [Hchain Hproxy].
  rewrite <-E2, <-Ea in Hw. clear Hid Ho. clearbody existing.
  eapply (success_avoids k n0); [apply materialize_chain_runtime_quiet|by apply materialize_chain_avoids|done|]. intros chain wc Ec Tc Kc.
  eapply (success_avoids k n0); [apply materialize_proxy_runtime_quiet|by apply materialize_proxy_avoids|done|]. intros upstream wu Eu Tu Ku.
  rewrite <-Ec, <-Eu in Hw. rewrite <-Kc, <-Ku in Ka. clear Ec Eu Kc Ku Tc Tu Ea Ta E2 T2 E1 T1 Tn0 Hk w w1 w2 wa wc.
  do 3 (apply success_lift; intros ? _). cbv zeta. match goal with |- context [put_connection ?x] => set (c := x) end.
  apply (success_bind _ _ (fun _ w1 => holds id (SaPassword (Some k) None) (w_data w1) /\ w_keychain w1 = w_keychain wu)).
  { split; [|done]. apply (holds_put c _ Hw). }
  intros _ w1 [H1 K1]. apply (success_bind _ _ (fun _ w2 => holds id (SaPassword (Some k) None) (w_data w2) /\ w_keychain w2 = w_keychain wu)).
  { eapply wp_mono; [by apply holds_ensure|]. intros [?|?] w2 [H2 [K2 _]]; cbn; [split; congruence|done]. }
  intros _ w2 [H2 K2]. apply (success_bind _ _ (fun _ w3 => holds id (SaPassword (Some k) None) (w_data w3) /\ w_keychain w3 = w_keychain wu)).
  { cbn. split; [by apply holds_normalize|done]. }
  intros _ w3 [H3 K3]. eapply success_calm; [apply save_quiet|apply spares_save|]. intros _ w4 _ E4 [K4 _]. rewrite <-E4 in H3.
  eapply (success_bind _ _ (fun _ w5 => holds id (SaPassword (Some k) None) (w_data w5) /\ w_keychain w5 !! k = Some p)).
  { eapply wp_mono; [apply deletions_spare|]. intros [u|e] w5 [E5 K5]; [|done]. cbn in K5 |- *. split; [by rewrite E5|].
    rewrite K5; [congruence|]. unfold stale_ids. intros [_ Hin]%elem_of_List_filter. rewrite bool_decide_true in Hin; [done|]. cbn. set_solver. }
  intros _ w5 [H5 K5]. destruct (holds_get _ _ _ H5) as (x & Hx & Hid & Hax).
  apply (success_bind _ _ (fun info w6 => w6 = w5 /\ ci_id info = id)).
  { unfold wp, info_of, bind, data. cbn. rewrite Hx. done. }
  intros info ? [-> Hinfo]. cbn. split; [done|]. exists k. by rewrite Hinfo.
Qed.

(** C25: a password that was saved is the one that is read.  A connection with a
    password is saved, new or in the place of another one, with whatever other
    secrets in its proxy hops and its upstream proxy, and whatever becomes of the
    entries that are deleted as stale.  The entry of the password is taken to be
    its own: UUIDs differ and have one length, no entry is already named after a
    UUID yet to be drawn, and the request does not name the password's entry for
    another secret it carries.  When the save succeeds, the password is returned
    to the caller, it is read back from the keychain under the connection's id as
    long as the keychain answers, and the data in memory hold no secret that they
    did not hold before. *)
Theorem saved_password_read_back r k0 p w x w1 : well_formed (w_data w) -> rq_auth r = SaPassword k0 (Some p) -> own_entry r k0 w ->
  upsert_with_runtime_secrets r w = Some (Ok x, w1) ->
  rs_auth x.2 = Some p /\ (forall secret, secret ∈ data_secrets (w_data w1) -> secret ∈ data_secrets (w_data w)) /\
  (keychain_fails (w_tick w1) = false -> exists w2, get_connection_password (ci_id x.1) w1 = Some (Ok p, w2)).
Proof.
  intros Hw Hr Ho E. pose proof (upsert_readable r k0 p w (ok_connections _ _ Hw) Hr Ho) as H1. unfold wp in H1. rewrite E in H1.
  destruct H1 as (Hp & k & H1 & K1). split; [done|]. split.
  - pose proof (upsert_with_runtime_secrets_keeps (allow := fun s => s ∈ data_secrets (w_data w)) r w) as H2. unfold wp in H2. rewrite E in H2.
    apply data_ok_secrets in H2 as [_ H2]; [by apply Forall_forall|]. apply data_ok_secrets. split; [done|]. by apply Forall_forall.
  - intros Hf. destruct (holds_get _ _ _ H1) as (c & Hc & _ & Ha).
    unfold get_connection_password, get_saved_auth_password, get_secret, get_optional, on_keychain, bind, data, tick. cbn.
    rewrite Hc, Ha, Hf. cbn. rewrite K1. by eexists.
Qed.
End Secrets.

(** In the world of the failing keychain and file: a proxy hop and an upstream
    proxy with passwords of their own. *)
Definition request_with_proxies : SaveConnectionRequest :=
  mkSaveConnection None (lit "z") None (lit "h") 22 (lit "u") (SaPassword None (Some (lit "secret")))
    [mkHop (lit "p") 22 (lit "u") (SaPassword None (Some (lit "hop"))) false None None false]
    (Custom (mkUpstream UpSocks5 (lit "q") 1080 (UpPassword (lit "u") None (Some (lit "proxy"))) true [])) None None None []
    false None None false false default_x11 None default_terminal.
Lemma saved_password_read_back_witness :
  exists x w1, upsert_with_runtime_secrets (out := sample_outside) request_with_proxies sample_world = Some (Ok x, w1)
    /\ exists w2, get_connection_password (out := sample_outside) (ci_id x.1) w1 = Some (Ok (lit "secret"), w2).
Proof.
  assert (E : exists x w1, upsert_with_runtime_secrets (out := sample_outside) request_with_proxies sample_world = Some (Ok x, w1)
    /\ keychain_fails (Outside := sample_outside) (w_tick w1) = false) by (vm_compute; by eexists _, _).
  destruct E as (x & w1 & E & Hf). exists x, w1. split; [exact E|].
  destruct (saved_password_read_back (out := sample_outside) request_with_proxies None (lit "secret") sample_world x w1)
    as (_ & _ & Hr); [exact sample_world_ok|reflexivity| |exact E|exact (Hr Hf)].
  assert (Hnone : replaced (H := sample_outside) request_with_proxies sample_world = None) by (vm_compute; reflexivity).
  split; rewrite ?Hnone.
  - intros n m. cbn. intros H. injection H. lia.
  - reflexivity.
  - intros n k _ Hk. exfalso. exact (not_elem_of_nil k Hk).
  - discriminate.
Defined.

(** ** Groups *)

(** The names of a path of groups. *)
Fixpoint segments (s : list Z) : list (list Z) :=
  match s with
  | [] => [[]]
  | c :: s => if c =? 47 then [] :: segments s
              else match segments s with x :: l => (c :: x) :: l | [] => [[c]] end
  end.
Fixpoint joined (l : list (list Z)) : list Z :=
  match l with [] => [] | [x] => x | x :: l => x ++ 47 :: joined l end.
(** The place of a group when [old] becomes [new]: a group whose path starts with
    all the names of [old] has the names of [new] in their place. *)
Definition moved (old new g : list Z) : list Z :=
  if decide (segments old `prefix_of` segments g) then joined (segments new ++ drop (length (segments old)) (segments g)) else g.

Lemma segments_nonempty s : segments s <> [].
Proof. destruct s as [|c s]; cbn; [done|]. destruct (c =? 47); [done|]. by destruct (segments s). Qed.
Lemma joined_cons x l : l <> [] -> joined (x :: l) = x ++ 47 :: joined l.
Proof. by destruct l. Qed.
Lemma joined_app l m : l <> [] -> m <> [] -> joined (l ++ m) = joined l ++ 47 :: joined m.
Proof.
  intros Hl Hm. induction l as [|x l IH]; [done|]. destruct (decide (l = [])) as [->|Hne]; [exact (joined_cons x m Hm)|].
  rewrite <-app_comm_cons, !joined_cons, IH, <-app_assoc by (by destruct l). done.
Qed.
Lemma joined_segments s : joined (segments s) = s.
Proof.
  induction s as [|c s IH]; [done|]. cbn. pose proof (segments_nonempty s) as Hs. destruct (Z.eqb_spec c 47) as [->|].
  - by rewrite joined_cons, IH.
  - destruct (segments s) as [|x [|y l]]; [done|cbn in IH |- *; by rewrite IH..].
Qed.
Lemma segments_app a b : segments (a ++ 47 :: b) = segments a ++ segments b.
Proof.
  induction a as [|c a IH]; [done|]. cbn. rewrite IH. destruct (c =? 47); [done|]. pose proof (segments_nonempty a). by destruct (segments a).
Qed.

(** What the code does to one group. *)
Definition regroup (old new g : list Z) : list Z := default g (rename_group_path g old new).
Lemma group_prefix_spec p s t : strip_prefix p s = Some t <-> s = p ++ t.
Proof.
  revert s. induction p as [|x p IH]; intros s; cbn; [split; [by intros [= <-]|by intros <-]|]. destruct s as [|y s]; [done|].
  destruct (Z.eqb_spec x y) as [->|Hne]; [rewrite IH; split; [by intros ->|by intros [= ->]]|]. split; [done|congruence].
Qed.
Definition below (rest : list Z) : Prop := rest = [] \/ starts_with_char 47 rest = true.
Lemma within_spec c g : group_path_is_within c g = true <-> exists rest, c = g ++ rest /\ below rest.
Proof.
  unfold group_path_is_within, below. rewrite orb_true_iff, bool_decide_eq_true. split.
  - intros [->|H]; [exists []; by rewrite app_nil_r; auto|]. destruct (strip_prefix g c) as [t|] eqn:E; [|done]. apply group_prefix_spec in E. eauto.
  - intros (rest & -> & [->|Hr]); [left; by rewrite app_nil_r|right]. destruct (strip_prefix g (g ++ rest)) as [t|] eqn:E.
    + apply group_prefix_spec, app_inv_head in E. by subst.
    + by rewrite (proj2 (group_prefix_spec g (g ++ rest) rest) eq_refl) in E.
Qed.
Lemma regroup_within old new rest : below rest -> regroup old new (old ++ rest) = new ++ rest.
Proof. intros Hr. unfold regroup, rename_group_path. rewrite (proj2 (within_spec _ _)) by eauto. cbn. by rewrite drop_app_length. Qed.
Lemma regroup_apart old new g : group_path_is_within g old = false -> regroup old new g = g.
Proof. intros Hg. unfold regroup, rename_group_path. by rewrite Hg. Qed.
Lemma regroup_moved old new g : regroup old new g = moved old new g.
Proof.
  unfold moved. destruct (group_path_is_within g old) eqn:E.
  - apply within_spec in E as (rest & -> & Hr). rewrite regroup_within by done. destruct Hr as [->|Hr].
    + rewrite !app_nil_r. by rewrite decide_True, drop_all, app_nil_r, joined_segments by done.
    + destruct rest as [|c b]; [done|]. cbn in Hr. apply Z.eqb_eq in Hr as ->. rewrite segments_app.
      rewrite decide_True by by apply prefix_app_r. rewrite drop_app_length, joined_app by apply segments_nonempty. by rewrite !joined_segments.
  - rewrite regroup_apart by done. rewrite decide_False; [done|]. intros [r Hr]. eapply eq_true_false_abs; [|exact E]. apply within_spec.
    rewrite <-(joined_segments g), Hr. destruct (decide (r = [])) as [->|Hne].
    + exists []. split; [by rewrite !app_nil_r, joined_segments|by left].
    + exists (47 :: joined r). split; [by rewrite joined_app, joined_segments by (done || apply segments_nonempty)|by right].
Qed.
(** Back, unless a group was in the way. *)
Lemma regroup_back old new g : (group_path_is_within g new = true -> group_path_is_within g old = true) -> regroup new old (regroup old new g) = g.
Proof.
  intros Hg. destruct (group_path_is_within g old) eqn:E.
  - apply within_spec in E as (rest & -> & Hr). by rewrite !regroup_within.
  - rewrite (regroup_apart old) by done. apply regroup_apart. destruct (group_path_is_within g new); [by specialize (Hg eq_refl)|done].
Qed.

(** Every group is replaced by [f] of it, where it is used and where it is
    listed. *)
Record regrouped (f : list Z -> list Z) (d d' : ConnectionStoreData) : Prop := {
  regrouped_connections : map (fun c => (cn_id c, cn_group c)) (d_connections d') ≡ₚ map (fun c => (cn_id c, f <$> cn_group c)) (d_connections d);
  regrouped_serial : map (fun c => (sp_id c, sp_group c)) (d_serial d') ≡ₚ map (fun c => (sp_id c, f <$> sp_group c)) (d_serial d);
  regrouped_telnet : map (fun c => (tp_id c, tp_group c)) (d_telnet d') ≡ₚ map (fun c => (tp_id c, f <$> tp_group c)) (d_telnet d);
  regrouped_desktop : map (fun c => (rd_id c, rd_group c)) (d_desktop d') ≡ₚ map (fun c => (rd_id c, f <$> rd_group c)) (d_desktop d);
  regrouped_listed g : g ∈ d_groups d' <-> g ∈ map f (d_groups d)
}.
Lemma rename_in_map {A} (group : A -> option (list Z)) set_group (key : A -> list Z) old new (l : list A) :
  (forall g x, group (set_group g x) = Some g) -> (forall g x, key (set_group g x) = key x) ->
  map (fun c => (key c, group c)) (rename_in group set_group old new l).1 = map (fun c => (key c, regroup old new <$> group c)) l.
Proof.
  intros Hg Hk. cbn. rewrite map_map. apply map_ext. intros x. unfold regroup. destruct (group x) as [g|] eqn:E; cbn; [|by rewrite E].
  destruct (rename_group_path g old new); cbn; [by rewrite Hk, Hg|by rewrite E].
Qed.
Lemma rename_data_regrouped old new now d : regrouped (regroup old new) d (rename_group_data old new now d).1.
Proof.
  split.
  - by rewrite <-(rename_in_map cn_group (fun g c => set_cn_updated_at (Some now) (set_cn_group (Some g) c)) cn_id).
  - by rewrite <-(rename_in_map sp_group (fun g p => set_sp_updated_at now (set_sp_group (Some g) p)) sp_id).
  - by rewrite <-(rename_in_map tp_group (fun g p => set_tp_updated_at now (set_tp_group (Some g) p)) tp_id).
  - by rewrite <-(rename_in_map rd_group (fun g p => set_rd_updated_at now (set_rd_group (Some g) p)) rd_id).
  - intros g. cbn. assert (E : map (fun x => match rename_group_path x old new with Some g => g | None => x end) (d_groups d) = map (regroup old new) (d_groups d)); [|by rewrite E].
    apply map_ext. intros x. unfold regroup. by destruct (rename_group_path x old new).
Qed.

Section Groups.
Context `{out : Outside}.
Lemma normalize_regrouped `{Allowed} f now d d' : regrouped f d d' -> ok d' -> regrouped f d (normalize lowercase now d').
Proof.
  intros [A B C D G] Hok. split.
  - rewrite <-A. unfold normalize. cbn. rewrite sort_by_perm, map_map. erewrite map_ext; [done|]. intros c. by destruct (normalize_connection_same c) as (-> & -> & _).
  - rewrite <-B. unfold normalize. cbn. by rewrite sort_by_perm.
  - rewrite <-C. unfold normalize. cbn. by rewrite sort_by_perm.
  - rewrite <-D. unfold normalize. cbn. by rewrite sort_by_perm.
  - intros g. rewrite <-G. unfold normalize. cbn. rewrite !push_missing_all, dedup_elem, sort_by_perm. cbn.
    assert (Hu : forall g, g ∈ used_groups d' -> g ∈ d_groups d') by (intros h Hh; destruct (ok_groups _ _ Hok h Hh); [done|set_solver]).
    unfold used_groups in Hu. split; [|tauto]. intros [[?|Hg]|Hg]; [done|apply Hu; set_solver..].
Qed.
Lemma regroup_same o g : regroup o o g = g.
Proof.
  destruct (group_path_is_within g o) eqn:E; [|by apply regroup_apart]. apply within_spec in E as (rest & -> & Hr). by apply regroup_within.
Qed.
Lemma option_map_same {A} (f : A -> A) (o : option A) : (forall x, f x = x) -> f <$> o = o.
Proof. intros Hf. destruct o; cbn; by rewrite ?Hf. Qed.
Lemma regrouped_same f d : (forall g, f g = g) -> regrouped f d d.
Proof.
  intros Hf. split; [erewrite map_ext; [done|]; intros c; cbn; by rewrite option_map_same..|]. intros g. by rewrite (map_ext f id), map_id.
Qed.

Lemma regrouped_ext f g d d' : (forall x, f x = g x) -> regrouped f d d' -> regrouped g d d'.
Proof.
  intros Hfg [A B C D G]. assert (Hopt : forall o : option (list Z), f <$> o = g <$> o) by (intros [x|]; cbn; by rewrite ?Hfg).
  split; [rewrite A|rewrite B|rewrite C|rewrite D|intros x; rewrite G, (map_ext f g); done];
    (erewrite map_ext; [done|]); intros c; cbn; by rewrite Hopt.
Qed.

(** C26: renaming a group is exact and reversible.  When it succeeds, every
    connection and profile whose group's path starts with all the names of the old
    path has them replaced by the names of the new path (renaming "work" moves
    "work/eu" and leaves "workshop" alone), everything else has stayed, the listed
    groups have changed likewise, and no two groups have become one: renaming back
    would give each group that was used or listed its old name. *)
Theorem group_rename_reversible old new w n w1 : well_formed (w_data w) -> rename_group old new w = Some (Ok n, w1) ->
  exists o t, validate_group_name old = Ok o /\ validate_group_name new = Ok t /\ regrouped (moved o t) (w_data w) (w_data w1) /\
  forall g, g ∈ used_groups (w_data w) \/ g ∈ d_groups (w_data w) -> moved t o (moved o t g) = g.
Proof.
  intros Hw E. enough (Hp : wp (rename_group old new) (on_success (fun _ w1 => exists o t, validate_group_name old = Ok o /\
    validate_group_name new = Ok t /\ regrouped (regroup o t) (w_data w) (w_data w1) /\
    forall g, g ∈ used_groups (w_data w) \/ g ∈ d_groups (w_data w) -> regroup t o (regroup o t g) = g)) w).
  { unfold wp in Hp. rewrite E in Hp. destruct Hp as (o & t & Ho & Ht & Hr & Hb). exists o, t. split_and!; [done..| |].
    - by apply (regrouped_ext (regroup o t)); [intros g; apply regroup_moved|].
    - intros g Hg. rewrite <-!regroup_moved. by apply Hb. }
  clear E n w1. apply success_lift. intros o Ho. apply success_lift. intros t Ht. destruct (decide (o = t)) as [->|Hne].
  { exists t, t. split_and!; [done..| |]; [apply regrouped_same, regroup_same|]. intros g _. by rewrite !regroup_same. }
  destruct (group_path_is_within t o); [done|]. apply (success_bind _ _ (fun d w1 => w1 = w /\ d = w_data w)); [done|]. intros ? ? [-> ->].
  destruct (existsb _ _) eqn:Eg; [done|]. eapply success_calm; [apply clock_quiet|apply spares_clock|]. intros now w1 _ _ _.
  assert (Hback : forall g, g ∈ used_groups (w_data w) \/ g ∈ d_groups (w_data w) -> regroup t o (regroup o t g) = g).
  { intros g Hg. apply regroup_back. intros Hin. assert (Hl : g ∈ d_groups (w_data w)).
    { destruct Hg as [Hg|?]; [|done]. destruct (ok_groups _ _ Hw g Hg) as [?|?]; [done|set_solver]. }
    destruct (group_path_is_within g o) eqn:Eo; [done|]. exfalso. eapply eq_true_false_abs; [|exact Eg]. apply existsb_exists. exists g.
    split; [by apply list_elem_of_In|]. by rewrite Hin, Eo. }
  pose proof (rename_data_regrouped o t now (w_data w)) as Hr. pose proof (rename_group_data_ok o t now (w_data w) Hw) as Hok.
  destruct (rename_group_data o t now (w_data w)) as [d k]. cbn in Hr, Hok. apply wp_bind. cbn. destruct (0 <? k); [|cbn; eauto 10].
  apply wp_bind. cbn. eapply success_calm; [apply save_quiet|apply spares_save|]. intros _ w2 _ E2 _. cbn in E2 |- *. rewrite E2.
  exists o, t. split_and!; [done..| |done]. by eapply (normalize_regrouped (H := fun _ => True)).
Qed.
End Groups.

(** The group of the saved connections moves below another one. *)
Lemma group_rename_reversible_witness :
  exists n w1, rename_group (out := sample_outside) (lit "work") (lit " old/work ") sample_world = Some (Ok n, w1)
    /\ map cn_group (d_connections (w_data w1)) = [Some (lit "old/work/eu"); Some (lit "old/work/eu")]
    /\ forall g, g ∈ used_groups (w_data sample_world) \/ g ∈ d_groups (w_data sample_world) ->
         moved (lit "old/work") (lit "work") (moved (lit "work") (lit "old/work") g) = g.
Proof.
  assert (E : exists n w1, rename_group (out := sample_outside) (lit "work") (lit " old/work ") sample_world = Some (Ok n, w1)
    /\ map cn_group (d_connections (w_data w1)) = [Some (lit "old/work/eu"); Some (lit "old/work/eu")]) by (vm_compute; by eexists _, _).
  destruct E as (n & w1 & E & Hg). exists n, w1. split; [exact E|]. split; [exact Hg|].
  destruct (group_rename_reversible (out := sample_outside) _ _ _ _ _ sample_world_ok E) as (o & t & Ho & Ht & _ & Hb).
  vm_compute in Ho, Ht. injection Ho as <-. injection Ht as <-. exact Hb.
Defined.

(** ** Observations *)

(** A save that is refused for its name has replaced the saved password. *)
Example refused_save_replaces_password :
  let r := mkSaveConnection (Some [1]) (lit " ") None (lit "h") 22 (lit "u") (SaPassword None (Some (lit "new"))) [] UseGlobal None None None []
             false None None false false default_x11 None default_terminal in
  exists e w1, upsert_with_runtime_secrets (out := working_outside) r saved_world = Some (Err e, w1)
    /\ w_data w1 = w_data saved_world /\ w_keychain saved_world !! [9] = Some (lit "old") /\ w_keychain w1 !! [9] = Some (lit "new").
Proof. vm_compute. by eexists _, _. Qed.

(** So has an import whose proxy has no host: the connection that fails is not
    rolled back. *)
Example half_staged_import_kept :
  let c := sample_connection [1] (lit "a") (SaPassword None (Some (lit "new"))) in
  let c := mkConnection (cn_id c) 1 (cn_name c) None (lit "h") 22 (lit "u") (cn_auth c) []
             (Custom (mkUpstream UpSocks5 (lit " ") 1080 UpNone true [])) default_options 1 None None None None None [] None [] in
  exists e w1, upsert_imported_connections_transaction (out := working_outside) [c] saved_world = Some (Err e, w1)
    /\ w_data w1 = w_data saved_world /\ w_keychain w1 !! [9] = Some (lit "new").
Proof. vm_compute. by eexists _, _. Qed.

(** A copy shares the passphrase of a managed key: with the copy it is deleted
    for the original too. *)
Example copy_shares_passphrase :
  let c := sample_connection [1] (lit "a") (SaManagedKey [3] (Some [9]) None) in
  let w := mkWorld (set_d_connections [c] default_data) None {[ [9] := lit "old" ]} ∅ 0 in
  exists w1 w2, duplicate (out := working_outside) [1] w = Some (Ok (Some (connection_info (fun t => [t])
      (mkConnection [500] 1 (lit "a (Copy)") None (lit "h") 22 (lit "u") (SaManagedKey [3] (Some [9]) None) [] UseGlobal default_options
         1000000000 None (Some 2000000000) None None None [] None []))), w1)
    /\ delete_connection (out := working_outside) [500] w1 = Some (Ok true, w2)
    /\ get [1] (w_data w2) = Some c /\ w_keychain w2 !! [9] = None.
Proof. eexists _, _. split; [vm_compute; reflexivity|]. split; [vm_compute; reflexivity|]. by split; vm_compute. Qed.

(** A live record replaces a connection that was changed later. *)
Example older_record_replaces_newer :
  let c := set_cn_updated_at (Some 2000) (sample_connection [7] (lit "newer") SaAgent) in
  let w := mkWorld (set_d_connections [c] default_data) None ∅ ∅ 0 in
  let s := mkSnapshot [] [] [mkSyncRecord [7] [] [1000] false (Some sample_info) None] in
  exists x w1, apply_saved_connections_snapshot (out := working_outside) s Merge w = Some (Ok x, w1)
    /\ map cn_name (d_connections (w_data w1)) = [lit "c"].
Proof. vm_compute. by eexists _, _. Qed.
